(* ===== verification/_CoqProject ===== *)
-Q . S2P
Prelude.v
Limlz.v
SuffixArray.v
LimlzCorrect.v
Pmm.v
PmmMap.v
PmmSanitise.v
PmmAlloc.v
PmmOps.v
PmmCorrect.v
Console.v
ConsoleCorrect.v
Vmm.v
VmmWalk.v
VmmMap.v
VmmX86.v
VmmX86Map.v
VmmCorrect.v
Libc.v
LibcCorrect.v
Guid.v
GuidCorrect.v
Part.v
PartCorrect.v
Disk.v
DiskCorrect.v
Iso9660.v
Iso9660Dir.v
Iso9660Correct.v
Iso9660Files.v
Fat32.v
Fat32Dir.v
Fat32Correct.v
Fat32Files.v
File.v
FileFiles.v
Blake2b.v
Blake2bSpec.v
Blake2bCorrect.v
Gzip.v
GzipCorrect.v
Uri.v
UriCorrect.v
UriFiles.v
Config.v
ConfigText.v
ConfigMacros.v
ConfigValue.v
ConfigMenu.v
ConfigTotal.v
ConfigCorrect.v
ConfigDisk.v
ConfigDiskCorrect.v
Mtrr.v
MtrrCorrect.v
Elf.v
ElfRelocs.v
ElfCorrect.v
ElfSafe.v
ElfElsewhere.v
Host.v
HostInstall.v
HostCorrect.v
HostFlat.v
HostMbr.v
HostBios.v
HostGpt.v
HostEnroll.v
HostEnrollCorrect.v
Rand.v
RandCorrect.v
Pe.v
PeCorrect.v
PeSafe.v
Qoi.v
QoiCorrect.v
Print.v
PrintCorrect.v
Acpi.v
AcpiCorrect.v
