(* ===== verification/Prelude.v ===== *)
(** * NebulaOS: a verification of its kernel and its boot loader

    NebulaOS is a small x86 kernel ([kernel/], with a UEFI application in [uefi-bootloader/])
    that is started by the Limine boot loader, whose C sources are in the same tree
    ([boot/limine/limine/], below [limine/]). At boot the parts work in this order:

    - stage1 finds stage2 on disk and unpacks it. stage2 was packed at build time by
      [limine/tools/limlzpack.c] and is unpacked by [limine/stage1/decompressor.asm];
    - stage2 takes over the memory map ([common/mm/pmm.s2.c]), from which everything after
      it allocates, and indexes the disks ([common/drivers/disk.s2.c]): for every drive it
      finds the sector size and the transfer size and then its partitions
      ([common/lib/part.s2.c]), asking the file system for their labels;
    - files are opened on a volume ([fopen] of [common/fs/file.s2.c]) by the ISO 9660 driver
      ([common/fs/iso9660.s2.c]) or the FAT driver ([common/fs/fat32.s2.c]), which go through
      [volume_read] and its sector cache, and read through [fread], which may hash what goes by
      ([common/crypt/blake2b.c]);
    - the files the configuration names are opened by their URI ([common/lib/uri.c]): it says on
      which volume, with which hash, and whether they are compressed ([common/compress/gzip.c]);
    - the configuration is found on a volume or in the SMBIOS table, checked against the hash in the
      executable, cleaned up, its macros expanded, and turned into the menu
      ([common/lib/config.c]), whose options the rest looks up;
    - an ELF kernel is checked, given memory, slid by a random distance ([common/lib/rand.c]),
      copied and relocated ([common/lib/elf.c]), or, when it has a fixed physical address that may be
      taken, put elsewhere with a list of ranges to move at the end ([common/lib/elsewhere.c]); a PE
      kernel is loaded by [common/lib/pe.c];
    - the menu may have a picture behind it ([common/lib/qoi.c], [common/lib/image.c]), and messages are
      printed by [common/lib/print.s2.c];
    - the firmware's tables are found and entered in the memory map ([common/lib/acpi.c]);
    - before the kernel is entered, page tables are built for it ([common/mm/vmm.c]) and
      the memory types of the processor are saved and changed ([common/mm/mtrr.c]);
    - the kernel prints through its console ([kernel/src/console.c]).

    On the host, [limine/host/limine.c] writes stage1 and stage2 to a device and can take them away
    again, and puts the hash of a configuration into an executable of the boot loader.

    All of the boot loader uses a freestanding C library ([common/lib/libc.s2.c] and its neighbours).

    ** Conventions

    C integers are [Z]; [u8], [u16], [u32], [u64] and [i32] below write out the wrap-around
    where the code can reach it. [CHECKED_ADD] and its kin return [None] where the macro takes
    its error branch. Code that may call [panic] or may loop returns an [outcome]: a value,
    [Panic], or [Diverge] when the loop's fuel ran out. Arrays and buffers are lists, memory
    and strings that are only read are functions from an address or index to a byte. State is
    passed explicitly. Firmware, hardware and the C library's [qsort] are parameters, with what is
    relied on as a class of laws next to them, and an instance that shows the laws can hold.

    ** Files

    - [Prelude]: machine integers, the checked macros, [outcome], arrays, bounded loops and
      the tactics and hints everything else uses.
    - [Limlz] (modules [Pack] and [Unpack]), [SuffixArray], [LimlzCorrect]: the packer with its
      suffix array ([saca]), match finder, optimal parse ([best_parse]) and output
      ([emit_loop], [main]), and the decompressor ([start]) as transfers on the 32-bit registers.
      [stage2_roundtrip] says that what the packer wrote is unpacked to the original image and
      jumped to; [limlzpack_terminates], [saca_is_suffix_array] and [crc32_nibble_bitwise]
      (table against bit-serial CRC) are the parts of it with a specification of their own;
      [limlzpack_cost_overflow] is a defect of the parser. [QsortSpec] is the contract of [qsort].
    - [Pmm]; [PmmMap], [PmmSanitise], [PmmAlloc], [PmmOps]; [PmmCorrect]: the memory
      map as a list of entries and every function of [pmm.s2.c]'s BIOS build that changes it. The
      specification is the address space the map describes: [has m a ty], address [a] has type
      [ty] in [m]. [init_memmap_correct] establishes the invariant, [sanitise_correct],
      [memmap_alloc_range_in_correct], [ext_mem_alloc_correct], [conv_mem_alloc_correct] and
      [pmm_realloc_correct] say what the operations do to it on every branch,
      [allocator_safe] is the invariant of the whole allocator (a step relation over
      allocations, releases and writes: live blocks are disjoint and never usable).
    - [Vmm] (modules [X86], [AArch64], [RiscV], [LoongArch]); [VmmWalk], [VmmMap],
      [VmmX86], [VmmX86Map]; [VmmCorrect]: page tables. [PtFormat] is the interface to the [PT_*]
      macros, [Allocator] and [AllocatorOk] the one to the allocator, which the
      memory manager implements ([pmm_allocator_ok]). [HwFormat] is the processor's walk of
      the tables in memory; [map_page_correct] and [map_pages_correct] say what it translates
      after the x86 code ran. [fb_split_panics] and [loongarch_split_address] are defects.
    - [Libc], [LibcCorrect]; [Guid] (with module [Clock]), [GuidCorrect]: strings, numbers, paths
      ([get_absolute_path]), GUIDs and dates, against lists of bytes.
    - [Part], [PartCorrect]: volumes, their one-block cache ([cache_block], [volume_read]), GPT,
      MBR and logical partitions. The driver is the class [BlockDev], what is assumed of it
      [BlockDevOk]: for a driver that keeps it, [volume_read_correct] says that reads through the
      cache are reads of the device, and [part_get_inside] that on any contents a partition
      that is found lies in its drive.
    - [Disk], [DiskCorrect]: the BIOS and UEFI drivers as instances of [BlockDev], proved to keep
      [BlockDevOk] ([bios_dev_ok], [uefi_dev_ok]) for firmware that keeps the classes [firmware]
      and [block_protocol];
      [drive_probe_correct] is the detection of the sector and transfer size.
    - [Fat32]; [Fat32Dir], [Fat32Correct]; [Fat32Files]: the FAT driver over any [BlockDev].
      [directory_lookup_correct] is the scan of a directory, [cluster_chain_correct] the
      chains of the allocation table, [fat32_file_spec] opening and reading a file by its path,
      [fat32_total] the behaviour on arbitrary contents, [drive_scan_correct] the index of a drive
      with the labels the FAT driver reads.
    - [Iso9660]; [Iso9660Dir], [Iso9660Correct]; [Iso9660Files]: the ISO 9660 driver, with Rock
      Ridge names and files of several extents. [iso9660_find_correct] is the search of a directory,
      [iso9660_file_spec] opening and reading, [iso9660_total] the behaviour on arbitrary contents.
    - [File], [FileFiles]: [fopen] and [fread]. [file_at] says that a path leads to a
      file of given bytes, on a volume of either kind; [fopen_correct] that it is opened and read.
    - [Gzip], [GzipCorrect]: compressed files over the decoder's interface, the classes [Decoder] and
      [DecoderOk]. [gzip_random_access]: reads at any offsets are reads of the decompressed stream.
    - [Uri], [UriCorrect], [UriFiles]: URIs. [parse_uri] is their form as a list of characters, which
      [uri_resolve_correct] relates to the code; [uri_open_correct] goes from the URI to the bytes of
      the file through volumes, file systems, filter and decoder; [uri_open_secure] says what a hash
      guarantees whatever the devices do, for the bytes that were read from the file ([pulls]);
      [uri_open_network] has a defect.
    - [Config]; [ConfigText], [ConfigMacros], [ConfigValue], [ConfigMenu], [ConfigTotal];
      [ConfigCorrect]: the configuration. The specifications are by lines and by trees:
      [clean_line], texts of lines that define and use macros ([doc_text], [doc_out]), the lines
      with a key ([lookup_key]), and the trees of entries with their text ([forest], [config_text]).
      [config_macros_correct], [config_get_value_correct] and [config_get_tuple_correct] are about
      the parts, [init_config_correct] puts them together from the bytes of the file to the menu,
      [init_config_total] is about arbitrary bytes, [check_b2sum_correct] about the checksum;
      [config_macro_lost] and [smbios_config_forever] are defects.
    - [ConfigDisk], [ConfigDiskCorrect]: the search for the file; [init_config_disk_correct] goes
      from the volume through the file system to [init_config].
    - [Blake2b], [Blake2bSpec], [Blake2bCorrect]: the hash and the filter that hashes a file as it is
      read, against RFC 7693's definition over the whole message; [Rfc7693] is its compression
      function, on rows, columns and diagonals of words, with constants of its own.
    - [Mtrr], [MtrrCorrect]: the range registers, with the order of the accesses to [cr0] and
      the caches as a trace.
    - [Elf], [ElfRelocs], [ElfCorrect], [ElfSafe], [ElfElsewhere]: ELF files, with the five
      architectures as instances of [ElfArch]. [kernel] describes the headers and segments of a kernel
      as the format prescribes them, [described] the relocations its dynamic section stands for, with
      its tags, addresses and compressed tables, [relocated] what a relocation asks for;
      [elf64_load_correct] says that the image in memory is then the one the file describes,
      [elf64_load_safe] what is true for arbitrary bytes, [random_slide_inside] where a slide may
      end, [elsewhere_append_correct] and [load_elsewhere_correct] are about ranges that are moved.
    - [Rand], [RandCorrect]: the random numbers. [mt_word] is the sequence of MT19937 by its
      recurrence, [rand32_is_mt19937] says that the numbers are those, [rand32_type] that they have
      the 32 bits the loader relies on.
    - [Pe], [PeCorrect], [PeSafe]: PE files, for the five targets of the class [PeArch].
      [pe64_load_correct] says that the image in memory is the one the file describes, with its
      relocations, [pe64_load_confined] that for arbitrary bytes only memory that was usable and
      the 4102 bytes behind the image can change, and [pe64_load_overrun], a defect, that they can.
    - [Qoi], [QoiCorrect]: pictures. [encode] is an encoder as the format describes it:
      [qoi_roundtrip] says that what it writes is decoded, [qoi_decode_confined] what is true for
      arbitrary bytes.
    - [Print], [PrintCorrect]: [vprint] and the numbers of [common/lib/misc.c]. [rendering] is the text
      that a format stands for, [vprint_correct] says that it is printed; [sqrt_correct],
      [print_read] and [parse_resolution_correct] are about numbers; [vprint_past_end] is a defect.
    - [Acpi], [AcpiCorrect]: the firmware's tables. [acpi_get_rsdp_bios_correct] and
      [acpi_get_table_correct] are the searches; [firmware_tables_mapped] says, over the operations of
      [Pmm], what the memory map is after the tables have been entered, [efi_map_correct] the same of
      UEFI's run-time services; [xsdt_entry_truncated] is a defect.
    - [Host]; [HostCorrect], [HostFlat]: the installer's device, with a one-block cache and a record of
      what was overwritten. The specification is an array of bytes ([flat], an instance of the interface [Disk] as the cached device is) with a log whose
      entries, put back in reverse, give the original; [sim] relates programs over the two.
    - [HostInstall], [HostMbr], [HostBios], [HostGpt]: [bios_install] over [Disk].
      [device_refines_array] is the refinement, [bios_install_undo] and [install_uninstall] say that
      failed and uninstalled installations leave no trace, [bios_install_mbr], [bios_install_gpt] and
      [convert_correct] what a successful one writes; [convert_erases_iso] and [undo_incomplete] are
      defects.
    - [HostEnroll], [HostEnrollCorrect]: the hash of the configuration. [enroll_then_check] goes from
      the installer to the check at boot.
    - [Console], [ConsoleCorrect]: the kernel's console, [_start] and the UEFI application;
      [console_write_correct] refines a terminal without end.

    ** Fuel and bounds

    Loops with a counter have the count as fuel or use [for_up]. The others:
    - [saca_loop] doubles its key length, and has one more than the input's length;
      [emit_loop] and the decompressor's loops consume a byte of input or output each, and
      [stage2_roundtrip] asks for the sum of both lengths;
    - [sanitise_fuel], quadratic in the number of entries: an iteration of the overlap loop either
      advances or splits an entry, as [sanitise_correct] shows; [conv_fuel] is more than the pages
      below 1 MiB;
    - [map_page] recurses once per page it splits or emulates, down one page size a time;
      [map_pages_loop] has the number of 4 KiB pages of the range;
    - [read_loop] and [chain_loop] transfer a byte at least, and have the byte count; a
      chain of the allocation table is counted first, up to the number of clusters;
      [walk] consumes a character of the path;
    - the loops over the configuration advance in the text or shorten it, and have its length;
      [tree_loop] has one more than that, since an entry takes a byte at least
      ([init_config_total]);
    - [gz_skip] and [gz_fill] get a byte at least, and have the offset and the count; [drain] has
      twice the length of the decompressed file and a read more;
    - the installer's [read_loop] and [write_loop] transfer a byte at least, and have the byte count;
      [find_checksum] goes back at most the 26 bytes of the signature, and has 27 for each place;
    - [random_slide] has 65536 attempts, as the code; [reloc_blocks] has an argument, and the size of
      the directory is enough;
    - [rsdp_loop] visits 64 and 8192 places, and has one step more; [sqrt] shifts 31 bits out, two at a
      time, in each of its loops;
    - strings: more fuel than the string is long is enough, and the theorems say so.
    A fuel that is an argument of a model is quantified in its theorems, with the bound that
    is enough. [serial_wait] polls hardware: its theorem assumes that the line becomes free.

    The packer's theorem is for images up to 2^30 bytes; [strtoul] is at the width of a 64-bit
    [unsigned long] and its theorem leaves out base 16 with its [0x] prefix; the page-table
    theorems are about x86.

    ** Not modelled

    - The UEFI variants of the memory manager and of the disk index: they translate the firmware's
      tables of handles and descriptors. [pmm_randomise_memory] and the memory map's printing.
    - Of the ELF loader the cache maintenance on aarch64 and the memory of its lists.
    - Of the installer messages and usage texts, hosts with a [long] of 32 bits, Windows, and memory
      that cannot be allocated.
    - Of [uri_open] where its buffer is allocated: the growth in place, the copies and the memory
      above 4 GiB.
    - Of the configuration the copy that is kept for the TPM and the secure boot flag; of the files
      those that come over the network, whose driver is a parameter.
    - Memory for chains, directories and caches is a list: their allocation always succeeds, since
      [ext_mem_alloc] panics otherwise, and is not tied to the state of [Pmm]; closing is not
      modelled.
    - The decoder of pictures that are not QOI, stb_image, is not in the tree.
    - The menu, terminals, graphics, keyboard, network, TPM, processor start-up: device I/O with
      little data of their own; of printing what happens to the text. The boot protocols put the other
      components together and end in assembly.
    - Decompression, the device tree library and the terminal emulator are submodules that are not
      in the tree. *)

From Stdlib Require Export ZArith Lia Bool Btauto.
From stdpp Require Export prelude list strings gmap sorting.
#[global] Open Scope Z_scope.

(** ** Machine-width integers *)

Definition wrap (w x : Z) : Z := x mod 2 ^ w.

Definition u8 (x : Z) : Z := wrap 8 x.
Definition u16 (x : Z) : Z := wrap 16 x.
Definition u32 (x : Z) : Z := wrap 32 x.
Definition u64 (x : Z) : Z := wrap 64 x.
Definition i32 (x : Z) : Z := wrap 32 (x + 2 ^ 31) - 2 ^ 31.

Definition UINT64_MAX : Z := 2 ^ 64 - 1.
Definition is_u64 (x : Z) : Prop := 0 <= x < 2 ^ 64.
Definition is_byte (x : Z) : Prop := 0 <= x < 256.

(** [true] as 1 and [false] as 0, as C converts a comparison to [int]. *)
Definition b2z (b : bool) : Z := if b then 1 else 0.

(** [CHECKED_ADD]/[CHECKED_MUL]: [None] is the macro's [onerror] branch. *)
Definition CHECKED_ADD (a b : Z) : option Z :=
  if a + b <? 2 ^ 64 then Some (a + b) else None.
Definition CHECKED_MUL (a b : Z) : option Z :=
  if a * b <? 2 ^ 64 then Some (a * b) else None.
Definition DIV_ROUNDUP (a b : Z) : option Z :=
  c ← CHECKED_ADD a (b - 1); Some (c / b).
Definition ALIGN_UP (x a : Z) : option Z :=
  q ← DIV_ROUNDUP x a; Some (u64 (q * a)).
Definition ALIGN_DOWN (x a : Z) : Z := x / a * a.

(** ** Outcomes: a value, a [panic()] (which never returns), or a loop whose
    fuel ran out. *)

Inductive outcome (A : Type) : Type :=
| Ret (x : A)
| Panic
| Diverge.
Arguments Ret {A} x.
Arguments Panic {A}.
Arguments Diverge {A}.

#[export] Instance outcome_ret : MRet outcome := @Ret.
#[export] Instance outcome_bind : MBind outcome := fun A B f m =>
  match m with Ret x => f x | Panic => Panic | Diverge => Diverge end.
#[export] Instance outcome_eq_dec `{EqDecision A} : EqDecision (outcome A).
Proof. solve_decision. Defined.

(** [of_option o]: the [onerror] argument of a checked macro is a [panic]. *)
Definition or_panic {A} (o : option A) : outcome A :=
  match o with Some x => Ret x | None => Panic end.

(** ** Arrays: C arrays are lists, indexed by [Z] *)

Declare Scope array_scope.
Delimit Scope array_scope with array.
#[global] Open Scope array_scope.

Definition aget {A} `{!Inhabited A} (l : list A) (i : Z) : A := l !!! Z.to_nat i.
Definition aset {A} (l : list A) (i : Z) (v : A) : list A := <[Z.to_nat i := v]> l.
Notation "l .[ i ]" := (aget l i) (at level 1, format "l .[ i ]") : array_scope.
Notation "l .[ i := v ]" := (aset l i v) (at level 1, format "l .[ i  :=  v ]") : array_scope.
Definition zlen {A} (l : list A) : Z := Z.of_nat (length l).

(** [memcpy(buffer + off, data, len)], and [n] bytes at an offset. *)
Definition blit (buffer : list Z) (off : Z) (data : list Z) : list Z :=
  take (Z.to_nat off) buffer ++ data ++ drop (Z.to_nat off + length data) buffer.
Definition slice (l : list Z) (off n : Z) : list Z := take (Z.to_nat n) (drop (Z.to_nat off) l).

(** A string literal as the list of its bytes. *)
Definition bytes (s : string) : list Z :=
  (fun a => Z.of_N (Ascii.N_of_ascii a)) <$> String.list_ascii_of_string s.

(** ** Loops *)

Section loops.
Context {S R : Type}.

(** [for (i = i0; i < i0 + n; i++) s = body(i, s);] *)
Fixpoint for_up (n : nat) (i0 : Z) (body : Z -> S -> S) (s : S) : S :=
  match n with
  | O => s
  | Datatypes.S n => for_up n (i0 + 1) body (body i0 s)
  end.

(** [for (i = n; i-- > 0;) s = body(i, s);] *)
Fixpoint for_down (n : nat) (body : Z -> S -> S) (s : S) : S :=
  match n with
  | O => s
  | Datatypes.S n => for_down n body (body (Z.of_nat n) s)
  end.

(** As [for_up], where the body may leave the loop: [inl s] continues with
    state [s], [inr r] is a [break], [return] or [goto] out of it. *)
Fixpoint for_exit (n : nat) (i0 : Z) (body : Z -> S -> S + R) (s : S) : S + R :=
  match n with
  | O => inl s
  | Datatypes.S n =>
      match body i0 s with
      | inl s => for_exit n (i0 + 1) body s
      | inr r => inr r
      end
  end.

Lemma for_up_ind (P : Z -> S -> Prop) n i0 body s :
  P i0 s ->
  (forall i s, i0 <= i < i0 + Z.of_nat n -> P i s -> P (i + 1) (body i s)) ->
  P (i0 + Z.of_nat n) (for_up n i0 body s).
Proof.
  revert i0 s; induction n as [|n IH]; intros i0 s H0 Hs; simpl.
  - by replace (i0 + Z.of_nat 0) with i0 by lia.
  - replace (i0 + Z.of_nat (Datatypes.S n)) with (i0 + 1 + Z.of_nat n) by lia.
    apply IH; [apply Hs; [lia | done] |]. intros i s' Hi. apply Hs. lia.
Qed.

Lemma for_down_ind (P : Z -> S -> Prop) n body s :
  P (Z.of_nat n) s ->
  (forall i s, 0 <= i < Z.of_nat n -> P (i + 1) s -> P i (body i s)) ->
  P 0 (for_down n body s).
Proof.
  revert s; induction n as [|n IH]; intros s H0 Hs; simpl; [done |].
  apply IH.
  - apply Hs; [lia |]. by replace (Z.of_nat n + 1) with (Z.of_nat (Datatypes.S n)) by lia.
  - intros i s' Hi. apply Hs. lia.
Qed.

Lemma for_exit_ind (P : Z -> S -> Prop) (Q : R -> Prop) n i0 body s :
  P i0 s ->
  (forall i s, i0 <= i < i0 + Z.of_nat n -> P i s ->
     match body i s with inl s' => P (i + 1) s' | inr r => Q r end) ->
  match for_exit n i0 body s with
  | inl s' => P (i0 + Z.of_nat n) s'
  | inr r => Q r
  end.
Proof.
  revert i0 s; induction n as [|n IH]; intros i0 s H0 Hs; simpl.
  - by replace (i0 + Z.of_nat 0) with i0 by lia.
  - generalize (Hs i0 s ltac:(lia) H0). destruct (body i0 s) as [s'|r]; [|done].
    intros H1.
    replace (i0 + Z.of_nat (Datatypes.S n)) with (i0 + 1 + Z.of_nat n) by lia.
    apply IH; [done |]. intros i s'' Hi. apply Hs. lia.
Qed.
End loops.

(** ** Physical memory: a byte at every address *)

Definition mem : Type := Z -> Z.
Definition mem_set (m : mem) (a v : Z) : mem := fun x => if x =? a then v else m x.

(** [bytes_at m a l]: memory holds the bytes [l] from address [a] on. *)
Definition bytes_at (m : mem) (a : Z) (l : list Z) : Prop :=
  forall (k : nat) b, l !! k = Some b -> m (a + Z.of_nat k) = b.
Definition load_bytes (m : mem) (a : Z) (n : nat) : list Z := m <$> seqZ a (Z.of_nat n).

(** The effect of [memset(dst, v, n)] and of [memcpy(dst, src, n)] on disjoint ranges. *)
Definition mem_fill (m : mem) (dst v n : Z) : mem :=
  fun x => if (dst <=? x) && (x <? dst + n) then v else m x.
Definition mem_copy (m : mem) (dst src n : Z) : mem :=
  fun x => if (dst <=? x) && (x <? dst + n) then m (src + (x - dst)) else m x.
(** The bytes [l] stored from [a] on. *)
Definition mem_write (m : mem) (a : Z) (l : list Z) : mem := fun x => if (a <=? x) && (x <? a + zlen l) then l.[x - a] else m x.
Lemma mem_write_in m a l x : a <= x < a + zlen l -> mem_write m a l x = l.[x - a].
Proof. intros. unfold mem_write. by rewrite (proj2 (Z.leb_le _ _)), (proj2 (Z.ltb_lt _ _)) by lia. Qed.
Lemma mem_write_out m a l x : ~ (a <= x < a + zlen l) -> mem_write m a l x = m x.
Proof. intros. unfold mem_write. destruct (Z.leb_spec a x), (Z.ltb_spec x (a + zlen l)); try done. lia. Qed.

(** ** Tactics and hints *)

Create HintDb nebula.
Create Rewrite HintDb width.
Create Rewrite HintDb arrays.

(** Case analysis on the scrutinee of the [if]s and [match]es of the goal or of
    a hypothesis, with boolean comparisons turned into inequalities by [lia]. *)
Ltac case_if :=
  match goal with
  | |- context [if ?b then _ else _] => destruct b eqn:?
  | H : context [if ?b then _ else _] |- _ => destruct b eqn:?
  end.
Ltac cases := repeat (case_if; simplify_eq/=; try done; try lia).

(** ** Shared lemmas: integers *)

Lemma wrap_bound w x : 0 <= w -> 0 <= wrap w x < 2 ^ w.
Proof. intros. unfold wrap. apply Z.mod_pos_bound. lia. Qed.
Lemma wrap_small w x : 0 <= x < 2 ^ w -> wrap w x = x.
Proof. apply Z.mod_small. Qed.
Lemma wrap_le w x : 0 <= w -> 0 <= x -> wrap w x <= x.
Proof. intros. apply Z.mod_le; lia. Qed.

Lemma u8_bound x : 0 <= u8 x < 256.
Proof. apply (wrap_bound 8). lia. Qed.
Lemma u16_bound x : 0 <= u16 x < 65536.
Proof. apply (wrap_bound 16). lia. Qed.
Lemma u32_bound x : 0 <= u32 x < 2 ^ 32.
Proof. apply (wrap_bound 32). lia. Qed.
Lemma u64_bound x : 0 <= u64 x < 2 ^ 64.
Proof. apply (wrap_bound 64). lia. Qed.

Lemma u8_small x : 0 <= x < 256 -> u8 x = x.
Proof. apply (wrap_small 8). Qed.
Lemma u16_small x : 0 <= x < 65536 -> u16 x = x.
Proof. apply (wrap_small 16). Qed.
Lemma u32_small x : 0 <= x < 2 ^ 32 -> u32 x = x.
Proof. apply wrap_small. Qed.
Lemma u64_small x : 0 <= x < 2 ^ 64 -> u64 x = x.
Proof. apply wrap_small. Qed.
Lemma i32_small x : - 2 ^ 31 <= x < 2 ^ 31 -> i32 x = x.
Proof. intros. unfold i32. rewrite wrap_small; lia. Qed.

#[export] Hint Resolve u8_bound u16_bound u32_bound u64_bound : nebula.
#[export] Hint Rewrite u8_small u16_small u32_small u64_small i32_small using lia : width.

Lemma CHECKED_ADD_Some a b c : CHECKED_ADD a b = Some c <-> c = a + b /\ a + b < 2 ^ 64.
Proof. unfold CHECKED_ADD. destruct (Z.ltb_spec (a + b) (2 ^ 64)); naive_solver lia. Qed.
Lemma CHECKED_ADD_None a b : CHECKED_ADD a b = None <-> 2 ^ 64 <= a + b.
Proof. unfold CHECKED_ADD. destruct (Z.ltb_spec (a + b) (2 ^ 64)); naive_solver lia. Qed.

Lemma testbit_high p x i : 0 <= x < 2 ^ p -> p <= i -> Z.testbit x i = false.
Proof.
  intros Hx Hi. destruct (decide (0 <= p)); [| by rewrite Z.pow_neg_r in Hx; lia].
  rewrite <- (Z.mod_small x (2 ^ p)) by done. by apply Z.mod_pow2_bits_high.
Qed.

(** ** Shared lemmas: arrays *)

Section arrays.
Context {A : Type} `{!Inhabited A}.
Implicit Types (l : list A) (i j : Z).

Lemma zlen_nonneg l : 0 <= zlen l.
Proof. unfold zlen. lia. Qed.
Lemma zlen_app l1 l2 : zlen (l1 ++ l2) = zlen l1 + zlen l2.
Proof. unfold zlen. rewrite length_app. lia. Qed.
Lemma zlen_cons x l : zlen (x :: l) = 1 + zlen l.
Proof. unfold zlen. simpl. lia. Qed.
Lemma zlen_aset l i v : zlen l.[i := v] = zlen l.
Proof. unfold zlen, aset. by rewrite length_insert. Qed.
Lemma length_aset l i v : length l.[i := v] = length l.
Proof. apply length_insert. Qed.

Lemma aget_aset l i j v :
  0 <= i < zlen l -> 0 <= j ->
  (l.[i := v]).[j] = if i =? j then v else l.[j].
Proof.
  unfold aget, aset, zlen. intros Hi Hj.
  destruct (Z.eqb_spec i j) as [->|].
  - apply list_lookup_total_insert_eq. lia.
  - apply list_lookup_total_insert_ne. lia.
Qed.

Lemma aget_lookup l i : 0 <= i < zlen l -> l !! Z.to_nat i = Some l.[i].
Proof. unfold zlen, aget. intros. apply list_lookup_lookup_total_lt. lia. Qed.

Lemma aget_Forall (P : A -> Prop) l i : Forall P l -> 0 <= i < zlen l -> P l.[i].
Proof. intros HF Hi. by eapply Forall_lookup_1, aget_lookup. Qed.

(** Patching a byte written earlier at the end of [l1]. *)
Lemma aset_app l1 l2 x v : (l1 ++ x :: l2).[zlen l1 := v] = l1 ++ v :: l2.
Proof.
  unfold aset, zlen. rewrite Nat2Z.id.
  by rewrite insert_app_r_alt, Nat.sub_diag by lia.
Qed.

Lemma StronglySorted_aget (R : A -> A -> Prop) l i j :
  StronglySorted R l -> 0 <= i < j -> j < zlen l -> R l.[i] l.[j].
Proof.
  intros Hs. revert i j; induction Hs as [|x l Hs IH HF]; intros i j Hij Hj;
    [unfold zlen in Hj; simpl in Hj; lia |].
  rewrite zlen_cons in Hj. unfold aget in *.
  replace (Z.to_nat j) with (S (Z.to_nat (j - 1))) by lia. simpl.
  destruct (decide (i = 0)) as [->|].
  - simpl. apply (aget_Forall _ _ (j - 1) HF). lia.
  - replace (Z.to_nat i) with (S (Z.to_nat (i - 1))) by lia. simpl. apply IH; lia.
Qed.
End arrays.

(** ** Shared lemmas: lists of bytes *)

Lemma aget_byte l i : Forall is_byte l -> is_byte l.[i].
Proof.
  intros HF. unfold aget. destruct (decide (Z.to_nat i < length l)%nat) as [Hi|Hi].
  - destruct (lookup_lt_is_Some_2 l _ Hi) as [x Hx]. rewrite (list_lookup_total_correct _ _ _ Hx). by eapply Forall_lookup_1.
  - rewrite list_lookup_total_alt, lookup_ge_None_2 by lia. by vm_compute.
Qed.
Lemma aget_drop (l : list Z) off i : 0 <= off -> 0 <= i -> (drop (Z.to_nat off) l).[i] = l.[off + i].
Proof. intros. unfold aget. rewrite lookup_total_drop. f_equal. lia. Qed.
Lemma aget_app_l (l k : list Z) i : 0 <= i < zlen l -> (l ++ k).[i] = l.[i].
Proof. unfold aget, zlen. intros. apply lookup_total_app_l. lia. Qed.
Lemma aget_app_r (l k : list Z) i : zlen l <= i -> (l ++ k).[i] = k.[i - zlen l].
Proof. unfold aget, zlen. intros. rewrite lookup_total_app_r by lia. f_equal. lia. Qed.
(** Equal up to where lists are put together. *)
Ltac app_solve := repeat (first [rewrite <- app_assoc | progress cbn [app]]); reflexivity.
Lemma aget_here pre (d : Z) r : (pre ++ d :: r).[zlen pre] = d.
Proof. rewrite aget_app_r by lia. by rewrite Z.sub_diag. Qed.
Lemma zlen_snoc (l : list Z) a : zlen l + 1 = zlen (l ++ [a]).
Proof. by rewrite zlen_app. Qed.
Lemma zlen_snoc2 (l : list Z) a b : zlen l + 2 = zlen (l ++ [a; b]).
Proof. by rewrite zlen_app. Qed.
Lemma drop_zlen (l k : list Z) n : n = zlen l -> drop (Z.to_nat n) (l ++ k) = k.
Proof. intros ->. unfold zlen. by rewrite Nat2Z.id, drop_app_length. Qed.
Lemma zlen_drop (l : list Z) n : 0 <= n <= zlen l -> zlen (drop (Z.to_nat n) l) = zlen l - n.
Proof. unfold zlen. intros. rewrite length_drop. lia. Qed.
Lemma zlen_slice_le l off n : 0 <= n -> zlen (slice l off n) <= n.
Proof. intros. unfold slice, zlen. rewrite length_take. lia. Qed.
Lemma slice_app_l (l k : list Z) off n : 0 <= off -> 0 <= n -> off + n <= zlen l -> slice (l ++ k) off n = slice l off n.
Proof.
  unfold slice, zlen. intros. rewrite drop_app_le by lia. rewrite take_app_le; [done |]. rewrite length_drop. lia.
Qed.

(** ** Shared lemmas: memory *)

Lemma bytes_at_nil m a : bytes_at m a [].
Proof. intros k b. by rewrite lookup_nil. Qed.

Lemma bytes_at_cons m a b l : bytes_at m a (b :: l) <-> m a = b /\ bytes_at m (a + 1) l.
Proof.
  split.
  - intros H. split.
    + rewrite <- (H 0%nat b eq_refl). f_equal. lia.
    + intros k c Hk. rewrite <- (H (S k) c Hk). f_equal. lia.
  - intros [H0 H] [|k] c Hk; simplify_eq/=.
    + f_equal. lia.
    + rewrite <- (H k c Hk). f_equal. lia.
Qed.

Lemma bytes_at_app m a l1 l2 :
  bytes_at m a (l1 ++ l2) <-> bytes_at m a l1 /\ bytes_at m (a + zlen l1) l2.
Proof.
  revert a; induction l1 as [|b l1 IH]; intros a; simpl.
  - replace (a + zlen []) with a by (unfold zlen; simpl; lia).
    naive_solver eauto using bytes_at_nil.
  - rewrite !bytes_at_cons, IH, zlen_cons, Z.add_assoc. tauto.
Qed.

Lemma bytes_at_ext m m' a l :
  (forall x, a <= x < a + zlen l -> m' x = m x) -> bytes_at m a l -> bytes_at m' a l.
Proof.
  intros He H k b Hk. rewrite He; [by apply H |].
  apply lookup_lt_Some in Hk. unfold zlen. lia.
Qed.

Lemma load_bytes_at m a l : bytes_at m a l -> load_bytes m a (length l) = l.
Proof.
  intros H. apply list_eq. intros k. unfold load_bytes.
  rewrite list_lookup_fmap. destruct (l !! k) as [b|] eqn:Hk.
  - rewrite lookup_seqZ_lt by (apply lookup_lt_Some in Hk; lia). simpl.
    f_equal. by apply H.
  - rewrite lookup_seqZ_ge; [done |]. apply lookup_ge_None in Hk. lia.
Qed.

(** Memory that holds [l] from [a] on and is zero elsewhere. *)
Definition mem_of (a : Z) (l : list Z) : mem :=
  fun x => if (a <=? x) && (x <? a + zlen l) then l.[x - a] else 0.

Lemma bytes_at_mem_of a l : bytes_at (mem_of a l) a l.
Proof.
  intros k b Hk. unfold mem_of. pose proof (lookup_lt_Some _ _ _ Hk).
  rewrite (proj2 (Z.leb_le _ _)), (proj2 (Z.ltb_lt _ _)) by (unfold zlen; lia). simpl.
  unfold aget. replace (Z.to_nat _) with k by lia. by apply list_lookup_total_correct.
Qed.

#[export] Hint Rewrite @zlen_app @zlen_cons @zlen_aset : arrays.

(** A property of all the integers of a small range, by evaluation. *)
Lemma seqZ_forallb (P : Z -> bool) (n x : Z) :
  forallb P (seqZ 0 n) = true -> 0 <= x < n -> P x = true.
Proof.
  rewrite forallb_forall. intros H Hx. apply H, list_elem_of_In, elem_of_seqZ. lia.
Qed.

(** ** Shared lemmas: copies *)

Lemma length_slice l off n : 0 <= off -> 0 <= n -> off + n <= zlen l -> length (slice l off n) = Z.to_nat n.
Proof. intros. unfold slice, zlen in *. rewrite length_take, length_drop. lia. Qed.
Lemma zlen_blit buf off data : 0 <= off -> off + zlen data <= zlen buf -> zlen (blit buf off data) = zlen buf.
Proof. intros. unfold blit, zlen in *. rewrite !length_app, length_take, length_drop. lia. Qed.
Lemma Forall_blit (P : Z -> Prop) buf off data : Forall P buf -> Forall P data -> Forall P (blit buf off data).
Proof. intros Hb Hd. unfold blit. rewrite !Forall_app. eauto using Forall_take, Forall_drop. Qed.
Lemma Forall_slice (P : Z -> Prop) l off n : Forall P l -> Forall P (slice l off n).
Proof. intros. by apply Forall_take, Forall_drop. Qed.
Lemma slice_all l n : n = zlen l -> slice l 0 n = l.
Proof. intros ->. unfold slice, zlen. rewrite Nat2Z.id. simpl. rewrite drop_0. apply firstn_all. Qed.
Lemma zlen_replicate n (x : Z) : zlen (replicate n x) = Z.of_nat n.
Proof. unfold zlen. by rewrite length_replicate. Qed.
