(* ===== verification/Limlz.v ===== *)
(** The stage2 compressor [tools/limlzpack.c] and the decompressor
    [stage1/decompressor.asm] that runs on the booting machine. *)

From S2P Require Import Prelude.

(** * The packer, [tools/limlzpack.c] *)
Module Pack.

Definition endswap16 (value : Z) : Z :=
  Z.lor (Z.land (Z.shiftr value 8) 0x00ff) (Z.land (Z.shiftl value 8) 0xff00).

Definition endswap32 (value : Z) : Z :=
  Z.lor (Z.lor (Z.lor
    (Z.land (Z.shiftr value 24) 0x000000ff)
    (Z.land (Z.shiftr value 8) 0x0000ff00))
    (Z.land (Z.shiftl value 8) 0x00ff0000))
    (Z.land (Z.shiftl value 24) 0xff000000).

Definition endswap64 (value : Z) : Z :=
  Z.lor (Z.lor (Z.lor (Z.lor (Z.lor (Z.lor (Z.lor
    (Z.land (Z.shiftr value 56) 0x00000000000000ff)
    (Z.land (Z.shiftr value 40) 0x000000000000ff00))
    (Z.land (Z.shiftr value 24) 0x0000000000ff0000))
    (Z.land (Z.shiftr value 8)  0x00000000ff000000))
    (Z.land (Z.shiftl value 8)  0x000000ff00000000))
    (Z.land (Z.shiftl value 24) 0x0000ff0000000000))
    (Z.land (Z.shiftl value 40) 0x00ff000000000000))
    (Z.land (Z.shiftl value 56) 0xff00000000000000).

(** [ENDSWAP(v)] at the size in bytes of [v]; other sizes [abort()]. *)
Definition ENDSWAP (bigendian : bool) (size value : Z) : outcome Z :=
  if bigendian then
    if size =? 1 then Ret value
    else if size =? 2 then Ret (endswap16 value)
    else if size =? 4 then Ret (endswap32 value)
    else if size =? 8 then Ret (endswap64 value)
    else Panic
  else Ret value.

(** ** Suffix array *)

Definition LIMLZ_SA_NEIGHBORS : Z := 32.

Record sa_cmp_ctx := { sc_rank : list Z; sc_n : Z; sc_k : Z }.

Definition sa_cmp_idx (g : sa_cmp_ctx) (i j : Z) : Z :=
  if negb (g.(sc_rank).[i] =? g.(sc_rank).[j])
  then i32 (g.(sc_rank).[i] - g.(sc_rank).[j])
  else
    let ri := if i32 (i + i32 g.(sc_k)) <? i32 g.(sc_n)
              then g.(sc_rank).[i + g.(sc_k)] else -1 in
    let rj := if i32 (j + i32 g.(sc_k)) <? i32 g.(sc_n)
              then g.(sc_rank).[j + g.(sc_k)] else -1 in
    i32 (ri - rj).

Definition sa_qsort_cmp (g : sa_cmp_ctx) (a b : Z) : Z :=
  let d := sa_cmp_idx g a b in b2z (d >? 0) - b2z (d <? 0).

Section packer.
(** The C library's [qsort], which the C standard does not define on elements
    that compare equal: any function of the comparison and the array. *)
Context (qsort : (Z -> Z -> Z) -> list Z -> list Z).

(** The ranking pass of one round:
    [tmp[sa[i]] = tmp[sa[i-1]] + (sa_cmp_idx(sa[i-1], sa[i]) < 0)]. *)
Definition rank_pass (g : sa_cmp_ctx) (sa tmp : list Z) : list Z :=
  for_up (length sa - 1) 1
    (fun i tmp =>
       tmp.[sa.[i] := tmp.[sa.[i - 1]] + b2z (sa_cmp_idx g sa.[i - 1] sa.[i] <? 0)])
    (tmp.[sa.[0] := 0]).

Fixpoint saca_loop (fuel : nat) (n k : Z) (sa rank tmp : list Z) : outcome (list Z) :=
  match fuel with
  | O => Diverge
  | S fuel =>
      let g := {| sc_rank := rank; sc_n := n; sc_k := k |} in
      let sa := qsort (sa_qsort_cmp g) sa in
      let tmp := rank_pass g sa tmp in
      let rank := for_up (Z.to_nat n) 0 (fun i rank => rank.[i := tmp.[i]]) rank in
      if u64 (rank.[sa.[n - 1]]) =? n - 1 then Ret sa
      else saca_loop fuel n (u64 (Z.shiftl k 1)) sa rank tmp
  end.

(** [saca]: the caller's [sa], [rank], [tmp] are uninitialised; they are filled
    before they are read. The result is the array [sa]. *)
Definition saca (s : list Z) (n : Z) : outcome (list Z) :=
  if n =? 0 then Ret []
  else
    let sa := (fun i => i32 i) <$> seqZ 0 n in
    let rank := (fun i => i32 s.[i]) <$> seqZ 0 n in
    saca_loop (S (Z.to_nat n)) n 1 sa rank (replicate (Z.to_nat n) 0).

(** [lcp_bytes]: [l < m && s[i + l] == s[j + l]], at most [m] iterations. *)
Fixpoint lcp_loop (m : nat) (s : list Z) (i j l : Z) : Z :=
  match m with
  | O => l
  | S m => if s.[i + l] =? s.[j + l] then lcp_loop m s i j (l + 1) else l
  end.
Definition lcp_bytes (s : list Z) (n i j : Z) : Z :=
  lcp_loop (Z.to_nat (n - (if i >? j then i else j))) s i j 0.

Record match_choice := MC { mc_len : Z; mc_off : Z }.
Record parse_choice := PC { pc_lit : Z; pc_mlen : Z; pc_off : Z }.
#[export] Instance match_choice_inh : Inhabited match_choice := populate (MC 0 0).
#[export] Instance parse_choice_inh : Inhabited parse_choice := populate (PC 0 0 0).

(** The body of the loop over [d] in [longest_matches]. *)
Definition neighbour (src : list Z) (n : Z) (sa : list Z) (i r d : Z)
    (best : Z * Z) : Z * Z :=
  if d =? 0 then best
  else
    let rr := r + d in
    if (rr <? 0) || (rr >=? n) then best
    else
      let j := u64 sa.[rr] in
      if j >=? i then best
      else
        let off := i - j in
        if (off =? 0) || (off >? 65535) then best
        else
          let l := lcp_bytes src n i j in
          if l >? best.1 then (l, u16 off) else best.

Definition longest_match_at (src : list Z) (n : Z) (sa inv : list Z) (i : Z)
    : match_choice :=
  let r := inv.[i] in
  let '(best_len, best_off) :=
    for_up (Z.to_nat (2 * LIMLZ_SA_NEIGHBORS + 1)) (- LIMLZ_SA_NEIGHBORS)
      (neighbour src n sa i r) (0, 0) in
  if best_len >=? 4 then MC (u32 best_len) best_off else MC 0 0.

(** [malloc_ok] says whether all the [malloc]s of the call succeed; [None] is
    the return value [-1]. *)
Definition longest_matches (malloc_ok : bool) (src : list Z) (n : Z)
    (mch : list match_choice) : outcome (option (list match_choice)) :=
  if n =? 0 then Ret (Some mch)
  else if negb malloc_ok then Ret None
  else
    sa ← saca src n;
    let inv := for_up (Z.to_nat n) 0 (fun i inv => inv.[sa.[i] := i32 i])
                 (replicate (Z.to_nat n) 0) in
    Ret (Some (for_up (Z.to_nat n) 0
                 (fun i mch => mch.[i := longest_match_at src n sa inv i]) mch)).

(** ** Optimal parse *)

(** The loop over [ml]: the cheapest match length at [i], 0 when there is none. *)
Definition best_mlen (srcsz i : Z) (m : match_choice) (dp : list Z) : Z :=
  let lim := m.(mc_len) in
  let lim := if lim >? 266 then 266 else lim in
  let off_bytes := if m.(mc_off) >? 255 then 2 else 1 in
  let lim := if i + lim >? srcsz then srcsz - i else lim in
  (for_up (Z.to_nat (lim - 3)) 4
     (fun ml '(mcost, mlen) =>
        let c := u64 (off_bytes + b2z (ml - 4 >=? 7) + dp.[i + ml]) in
        if c <? mcost then (c, u32 ml) else (mcost, mlen))
     (UINT64_MAX, 0)).2.

Definition best_match (srcsz i : Z) (m : match_choice) (dp : list Z) : match_choice :=
  if m.(mc_len) >=? 4 then
    let mlen := best_mlen srcsz i m dp in
    if mlen =? 0 then MC 0 0 else MC mlen m.(mc_off)
  else MC 0 0.

(** The loop over [j], with the running [best_cost] and choice. *)
Definition best_parse_step (i : Z) (bestm : list match_choice) (dp : list Z)
    (j : Z) (best : Z * parse_choice) : Z * parse_choice :=
  let lit := j - i in
  let b := bestm.[j] in
  if b.(mc_len) =? 0 then best
  else
    let off_bytes_j := if b.(mc_off) >? 255 then 2 else 1 in
    let c := u64 (1 + lit + b2z (lit >=? 15)
                  + (off_bytes_j + b2z (b.(mc_len) - 4 >=? 7) + dp.[j + b.(mc_len)])) in
    if c <? best.1 then (c, PC (u32 lit) b.(mc_len) b.(mc_off)) else best.

Definition best_parse (srcsz i : Z) (bestm : list match_choice) (dp : list Z)
    : Z * parse_choice :=
  let init :=
    if srcsz - i <=? 270
    then (1 + (srcsz - i) + b2z (srcsz - i >=? 15), PC (u32 (srcsz - i)) 0 0)
    else (UINT64_MAX, PC 0 0 0) in
  for_up (Z.to_nat (Z.min (srcsz - i) 271)) i (best_parse_step i bestm dp) init.

Record dp_state := { d_bestm : list match_choice; d_dp : list Z; d_pick : list parse_choice }.

Definition dp_step (srcsz : Z) (mch : list match_choice) (i : Z) (st : dp_state) : dp_state :=
  let bestm := st.(d_bestm).[i := best_match srcsz i mch.[i] st.(d_dp)] in
  let '(cost, choice) := best_parse srcsz i bestm st.(d_dp) in
  {| d_bestm := bestm; d_dp := st.(d_dp).[i := cost]; d_pick := st.(d_pick).[i := choice] |}.

(** ** Emission *)

(** [out] is the list of bytes written so far, [cap] is [out_end - dst]; [None]
    is the return value [-1]. *)
Definition encode_len_tail (out : list Z) (cap n : Z) : option (list Z) :=
  if n >=? 15 then
    if zlen out >=? cap then None else Some (out ++ [u8 (n - 15)])
  else Some out.

Definition encode_len_tail_ml (out : list Z) (cap n : Z) : option (list Z) :=
  if n >=? 7 then
    if zlen out >=? cap then None else Some (out ++ [u8 (n - 7)])
  else Some out.

(** One iteration of the emission loop: [None] is [goto fail]; [Some (out, i,
    true)] is the [break] with [terminated = 1]. *)
Definition emit_step (src : list Z) (srcsz cap : Z) (pick : list parse_choice)
    (i : Z) (out : list Z) : option (list Z * Z * bool) :=
  let '(PC lit ml off) := pick.[i] in
  if i + lit >? srcsz then None
  else if (i + lit <? srcsz) && (ml <? 4) then None
  else
    let tokenp := zlen out in
    if zlen out >=? cap then None
    else
      let out := out ++ [0] in
      let token_hi := if lit <? 15 then lit else 15 in
      out ← encode_len_tail out cap lit;
      if cap - zlen out <? lit then None
      else
        let out := out ++ take (Z.to_nat lit) (drop (Z.to_nat i) src) in
        let i := i + lit in
        if i >=? srcsz then Some (out.[tokenp := u8 (Z.shiftl token_hi 3)], i, true)
        else
          let mode_bit := if off >? 255 then 1 else 0 in
          let token_lo := if ml - 4 <? 7 then ml - 4 else 7 in
          let out := out.[tokenp := u8 (Z.lor (Z.lor (Z.shiftl mode_bit 7)
                                          (Z.shiftl token_hi 3)) token_lo)] in
          out ← (if off >? 255 then
                   if cap - zlen out <? 2 then None
                   else Some (out ++ [u8 (Z.land off 255); u8 (Z.shiftr off 8)])
                 else if zlen out >=? cap then None
                 else Some (out ++ [u8 off]));
          out ← encode_len_tail_ml out cap (ml - 4);
          Some (out, i + ml, false).

Fixpoint emit_loop (fuel : nat) (src : list Z) (srcsz cap : Z)
    (pick : list parse_choice) (i : Z) (out : list Z) : outcome (option (list Z * bool)) :=
  if i <? srcsz then
    match fuel with
    | O => Diverge
    | S fuel =>
        match emit_step src srcsz cap pick i out with
        | None => Ret None
        | Some (out, _, true) => Ret (Some (out, true))
        | Some (out, i, false) => emit_loop fuel src srcsz cap pick i out
        end
    end
  else Ret (Some (out, false)).

(** [limlzpack]: the bytes written to [dst] ([None] is the return value 0).
    [malloc_ok] covers this function's allocations and those of
    [longest_matches]. *)
Definition limlzpack (malloc_ok : bool) (dstcap : Z) (src : list Z)
    : outcome (option (list Z)) :=
  let srcsz := zlen src in
  if srcsz =? 0 then Ret (if dstcap <? 1 then None else Some [0])
  else if negb malloc_ok then Ret None
  else
    let n := length src in
    mch ← longest_matches malloc_ok src srcsz (replicate n (MC 0 0));
    match mch with
    | None => Ret None
    | Some mch =>
        let st := for_down n (dp_step srcsz mch)
          {| d_bestm := replicate n (MC 0 0);
             d_dp := (replicate (S n) 0).[srcsz := 0];
             d_pick := (replicate (S n) (PC 0 0 0)).[srcsz := PC 0 0 0] |} in
        r ← emit_loop n src srcsz dstcap st.(d_pick) 0 [];
        match r with
        | None => Ret None
        | Some (out, true) => Ret (Some out)
        | Some (out, false) =>
            Ret (if zlen out >=? dstcap then None else Some (out ++ [0]))
        end
    end.
End packer.

(** ** CRC-32 and the output file *)

Definition tab : list Z :=
  [0x00000000; 0x1DB71064; 0x3B6E20C8; 0x26D930AC;
   0x76DC4190; 0x6B6B51F4; 0x4DB26158; 0x5005713C;
   0xEDB88320; 0xF00F9344; 0xD6D6A3E8; 0xCB61B38C;
   0x9B64C2B0; 0x86D3D2D4; 0xA00AE278; 0xBDBDF21C].

Definition nibble_step (crc : Z) : Z :=
  Z.lxor (Z.shiftr crc 4) tab.[Z.land crc 0x0F].

Definition crc32_nibble (data : list Z) : Z :=
  u32 (Z.lnot (foldl (fun crc b => nibble_step (nibble_step (Z.lxor crc b)))
                 (u32 (Z.lnot 0)) data)).

(** [fwrite(&crc, sizeof(crc), 1, fout)]: the bytes of a [uint32_t] in memory. *)
Definition uint32_bytes (bigendian : bool) (v : Z) : list Z :=
  let le := [u8 v; u8 (Z.shiftr v 8); u8 (Z.shiftr v 16); u8 (Z.shiftr v 24)] in
  if bigendian then rev le else le.

(** [main] after the input file is read: the contents of the output file, or
    [None] for exit status 1. *)
Definition main (qsort : (Z -> Z -> Z) -> list Z -> list Z) (bigendian malloc_ok : bool)
    (inbuf : list Z) : outcome (option (list Z)) :=
  if negb malloc_ok then Ret None
  else
    out ← limlzpack qsort malloc_ok (zlen inbuf * 2) inbuf;
    match out with
    | None => Ret None
    | Some outbuf =>
        crc ← ENDSWAP bigendian 4 (crc32_nibble inbuf);
        Ret (Some (uint32_bytes bigendian crc ++ outbuf))
    end.

End Pack.

(** * The decompressor, [stage1/decompressor.asm] *)
Module Unpack.

Definition DEST : Z := 0xf000.

(** [rep movsb] with the direction flag clear (the [cld] at [_start]). *)
Fixpoint rep_movsb (ecx : nat) (esi edi : Z) (m : mem) : Z * Z * mem :=
  match ecx with
  | O => (esi, edi, m)
  | S ecx => rep_movsb ecx (u32 (esi + 1)) (u32 (edi + 1)) (mem_set m edi (m esi))
  end.

(** From [.Ltoken] back to [.Ltoken] ([inl]: the next [edx], [edi] and memory) or
    to [.Lcrc] ([inr]: [edi] and memory); [ebx] is [ipe]. *)
Definition token (ebx edx edi : Z) (m : mem) : (Z * Z * mem) + (Z * mem) :=
  let tok := m edx in
  let ecx := Z.land (Z.shiftr tok 3) 0xf in
  let '(ecx, esi) :=
    if ecx =? 0xf then (m (u32 (edx + 1)) + 0xf, u32 (edx + 2)) else (ecx, u32 (edx + 1)) in
  let '(esi, edi, m) := rep_movsb (Z.to_nat ecx) esi edi m in
  if ebx <=? esi then inr (edi, m)
  else
    let '(edx, off) :=
      if Z.testbit tok 7
      then (u32 (esi + 2), m esi + Z.shiftl (m (u32 (esi + 1))) 8)
      else (u32 (esi + 1), m esi) in
    let al := Z.land tok 7 in
    let '(eax, edx) :=
      if al =? 7 then (m edx + 7, u32 (edx + 1)) else (al, edx) in
    let '(_, edi, m) := rep_movsb (Z.to_nat (eax + 4)) (u32 (edi - off)) edi m in
    if ebx <=? edx then inr (edi, m) else inl (edx, edi, m).

Fixpoint token_loop (fuel : nat) (ebx edx edi : Z) (m : mem) : outcome (Z * mem) :=
  match fuel with
  | O => Diverge
  | S fuel =>
      match token ebx edx edi m with
      | inr r => Ret r
      | inl (edx, edi, m) => token_loop fuel ebx edx edi m
      end
  end.

(** [.Lcrc_bit]: one bit of the reflected CRC-32. *)
Definition crc_bit (eax : Z) : Z :=
  Z.lxor (Z.land (u32 (- Z.land eax 1)) 0xedb88320) (Z.shiftr eax 1).

Definition crc_byte (eax b : Z) : Z := Nat.iter 8 crc_bit (Z.lxor eax b).

(** [.Lcrc_byte]: runs until [edx] equals [edi]. *)
Fixpoint crc_loop (fuel : nat) (edx edi eax : Z) (m : mem) : outcome Z :=
  if edx =? edi then Ret eax
  else match fuel with
       | O => Diverge
       | S fuel => crc_loop fuel (u32 (edx + 1)) edi (crc_byte eax (m edx)) m
       end.

Definition load32 (m : mem) (a : Z) : Z :=
  m a + Z.shiftl (m (a + 1)) 8 + Z.shiftl (m (a + 2)) 16 + Z.shiftl (m (a + 3)) 24.

(** How [_start] ends: the jump to 0xf000 with the memory at that point, or the
    "limine integrity error" message followed by [cli; hlt]. *)
Inductive exit := Jump (m : mem) | IntegrityError (m : mem).

Definition errmsg : list Z := bytes "limine integrity error".

(** [.Lerror_loop]: character and attribute 0x4f in the VGA text buffer. *)
Definition error_screen (m : mem) : mem :=
  for_up (length errmsg) 0
    (fun k m => mem_set (mem_set m (0xb8000 + 2 * k) errmsg.[k]) (0xb8000 + 2 * k + 1) 0x4f) m.

Definition start (fuel : nat) (compressed_stage2 stage2_size : Z) (m : mem) : outcome exit :=
  let ebp := load32 m compressed_stage2 in
  '(edi, m) ← token_loop fuel (u32 (compressed_stage2 + stage2_size))
                (u32 (compressed_stage2 + 4)) DEST m;
  eax ← crc_loop fuel DEST edi (u32 (-1)) m;
  if u32 (Z.lnot eax) =? ebp then Ret (Jump m) else Ret (IntegrityError (error_screen m)).

End Unpack.
