(* ===== verification/SuffixArray.v ===== *)
(** The prefix-doubling suffix sort of [tools/limlzpack.c] ([saca]): it
    terminates and sorts the suffixes of its input. *)

From S2P Require Import Prelude Limlz.
Import Pack.

(** * Lexicographic order on byte strings *)

Fixpoint lex (a b : list Z) : comparison :=
  match a, b with
  | [], [] => Eq
  | [], _ :: _ => Lt
  | _ :: _, [] => Gt
  | x :: a, y :: b => match x ?= y with Eq => lex a b | c => c end
  end.

Lemma lex_refl a : lex a a = Eq.
Proof. induction a as [|x a IH]; simpl; [done |]. by rewrite Z.compare_refl. Qed.

Lemma lex_eq a b : lex a b = Eq -> a = b.
Proof.
  revert b; induction a as [|x a IH]; intros [|y b]; simpl; try done.
  destruct (x ?= y) eqn:E; try done. apply Z.compare_eq in E as ->. intros H. f_equal. auto.
Qed.

Lemma lex_antisym a b : lex b a = CompOpp (lex a b).
Proof.
  revert b; induction a as [|x a IH]; intros [|y b]; simpl; try done.
  rewrite (Z.compare_antisym x y). destruct (x ?= y); simpl; auto.
Qed.

Lemma lex_trans a b c r : lex a b = r -> lex b c = r -> lex a c = r.
Proof.
  revert b c; induction a as [|x a IH]; intros [|y b] [|z c]; simpl; try congruence.
  destruct (Z.compare_spec x y), (Z.compare_spec y z), (Z.compare_spec x z);
    subst; try (by eauto); try congruence; lia.
Qed.

(** Comparing [k + j] bytes is comparing [k] bytes, then the next [j]. *)
Lemma lex_split k j a b :
  lex (take (k + j) a) (take (k + j) b) =
  match lex (take k a) (take k b) with
  | Eq => lex (take j (drop k a)) (take j (drop k b))
  | c => c
  end.
Proof.
  revert a b; induction k as [|k IH]; intros [|x a] [|y b]; simpl; try done.
  - by destruct j.
  - destruct (x ?= y); [apply IH | done..].
Qed.

Lemma lex_take k a b c : lex (take k a) (take k b) = c -> c <> Eq -> lex a b = c.
Proof.
  intros H Hc. pose proof (lex_split k (length a + length b) a b) as Hs.
  rewrite !take_ge, H in Hs by lia. by destruct c.
Qed.

(** The first [k] bytes of the suffix at [i]. *)
Definition pre (s : list Z) (k i : Z) : list Z := take (Z.to_nat k) (drop (Z.to_nat i) s).

Definition suffix_lt (s : list Z) (i j : Z) : Prop :=
  lex (drop (Z.to_nat i) s) (drop (Z.to_nat j) s) = Lt.

Lemma pre_double s k i j :
  0 < k -> 0 <= i -> 0 <= j ->
  lex (pre s (2 * k) i) (pre s (2 * k) j) =
  match lex (pre s k i) (pre s k j) with
  | Eq => lex (pre s k (i + k)) (pre s k (j + k))
  | c => c
  end.
Proof.
  intros Hk Hi Hj. unfold pre.
  replace (Z.to_nat (2 * k)) with (Z.to_nat k + Z.to_nat k)%nat by lia.
  rewrite lex_split. rewrite !drop_drop.
  by replace (Z.to_nat (i + k)) with (Z.to_nat i + Z.to_nat k)%nat by lia;
     replace (Z.to_nat (j + k)) with (Z.to_nat j + Z.to_nat k)%nat by lia.
Qed.

Lemma pre_out s k i : zlen s <= i -> pre s k i = [].
Proof. intros H. unfold pre. rewrite drop_ge by (unfold zlen in H; lia). apply take_nil. Qed.

Lemma pre_in s k i : 0 < k -> 0 <= i < zlen s -> pre s k i <> [].
Proof.
  intros Hk Hi H. apply (f_equal length) in H. unfold pre in H.
  rewrite length_take, length_drop in H. unfold zlen in Hi. simpl in H. lia.
Qed.

Lemma pre_all_inj s k i j :
  zlen s <= k -> 0 <= i < zlen s -> 0 <= j < zlen s -> pre s k i = pre s k j -> i = j.
Proof.
  intros Hk Hi Hj H. apply (f_equal length) in H. unfold pre in H.
  rewrite !length_take, !length_drop in H. unfold zlen in *. lia.
Qed.

(** * The ranks *)

(** [rank] orders the suffixes by their first [k] bytes. *)
Record ranks (s : list Z) (k : Z) (rank : list Z) : Prop := {
  rk_len : length rank = length s;
  rk_bound : forall i, 0 <= i < zlen s -> 0 <= rank.[i] < 2 ^ 31 - 1;
  rk_lex : forall i j, 0 <= i < zlen s -> 0 <= j < zlen s ->
    (rank.[i] ?= rank.[j]) = lex (pre s k i) (pre s k j);
}.

Section cmp.
Context (s rank : list Z) (k : Z).
Hypothesis (Hn : zlen s <= 2 ^ 30) (Hk : 0 < k <= zlen s) (Hr : ranks s k rank).
Let g := {| sc_rank := rank; sc_n := zlen s; sc_k := k |}.

Lemma second_key i j :
  0 <= i < zlen s -> 0 <= j < zlen s ->
  let r x := if i32 (x + i32 k) <? i32 (zlen s) then rank.[x + k] else -1 in
  (r i ?= r j) = lex (pre s k (i + k)) (pre s k (j + k)) /\
  -1 <= r i < 2 ^ 31 - 1 /\ -1 <= r j < 2 ^ 31 - 1.
Proof.
  intros Hi Hj r. subst r. cbv beta. rewrite !i32_small by (rewrite ?i32_small; lia).
  destruct Hr as [_ Hb Hl].
  destruct (Z.ltb_spec (i + k) (zlen s)), (Z.ltb_spec (j + k) (zlen s)).
  - rewrite Hl by lia. pose proof (Hb (i + k) ltac:(lia)). pose proof (Hb (j + k) ltac:(lia)).
    split; [done | lia].
  - rewrite (pre_out s k (j + k)) by lia. pose proof (Hb (i + k) ltac:(lia)).
    pose proof (pre_in s k (i + k) ltac:(lia) ltac:(lia)).
    destruct (pre s k (i + k)); [done |]. split; [|lia]. apply Z.compare_gt_iff. lia.
  - rewrite (pre_out s k (i + k)) by lia. pose proof (Hb (j + k) ltac:(lia)).
    pose proof (pre_in s k (j + k) ltac:(lia) ltac:(lia)).
    destruct (pre s k (j + k)); [done |]. split; [|lia]. apply Z.compare_lt_iff. lia.
  - rewrite !pre_out by lia. split; [done | lia].
Qed.

(** The comparison of [sa_cmp_idx] orders by the first [2 k] bytes. *)
Lemma sa_cmp_lex i j :
  0 <= i < zlen s -> 0 <= j < zlen s ->
  (sa_cmp_idx g i j ?= 0) = lex (pre s (2 * k) i) (pre s (2 * k) j).
Proof.
  intros Hi Hj. rewrite pre_double by lia. destruct Hr as [_ Hb Hl].
  rewrite <- Hl by lia. unfold sa_cmp_idx. simpl.
  pose proof (Hb i Hi). pose proof (Hb j Hj).
  destruct (Z.eqb_spec rank.[i] rank.[j]) as [E|E]; simpl.
  - rewrite E, Z.compare_refl. destruct (second_key i j Hi Hj) as (<- & ? & ?).
    rewrite i32_small by lia. by rewrite <- Z.compare_sub.
  - rewrite i32_small, <- Z.compare_sub by lia. by destruct (Z.compare_spec rank.[i] rank.[j]).
Qed.
End cmp.

(** * One round of the doubling loop *)

(** What the C standard says of [qsort]: the array is permuted, and sorted when
    the comparison is consistent on its elements. *)
Class QsortSpec (qsort : (Z -> Z -> Z) -> list Z -> list Z) : Prop := {
  qsort_perm cmp l : qsort cmp l ≡ₚ l;
  qsort_sorted cmp l :
    (forall x y, x ∈ l -> y ∈ l -> (cmp y x ?= 0) = CompOpp (cmp x y ?= 0)) ->
    (forall x y z, x ∈ l -> y ∈ l -> z ∈ l -> cmp x y <= 0 -> cmp y z <= 0 -> cmp x z <= 0) ->
    forall t u, 0 <= t < u -> u < zlen l -> cmp (qsort cmp l).[t] (qsort cmp l).[u] <= 0;
}.

Lemma lex_le_trans a b c : lex a b <> Gt -> lex b c <> Gt -> lex a c <> Gt.
Proof.
  destruct (lex a b) eqn:E1, (lex b c) eqn:E2; try done; intros _ _.
  - by rewrite (lex_eq _ _ E1), E2.
  - by rewrite (lex_eq _ _ E1), E2.
  - by rewrite <- (lex_eq _ _ E2), E1.
  - by rewrite (lex_trans a b c Lt).
Qed.

Lemma sa_qsort_cmp_sign g a b : (sa_qsort_cmp g a b ?= 0) = (sa_cmp_idx g a b ?= 0).
Proof.
  unfold sa_qsort_cmp, b2z. destruct (Z.compare_spec (sa_cmp_idx g a b) 0) as [->| |]; [done |..];
    cases; apply Z.compare_lt_iff || apply Z.compare_gt_iff; lia.
Qed.

(** A permutation of the positions, as [sa] always is. *)
Record is_perm (s sa : list Z) : Prop := {
  ip_len : length sa = length s;
  ip_range : forall t, 0 <= t < zlen s -> 0 <= sa.[t] < zlen s;
  ip_inj : forall t u, 0 <= t < zlen s -> 0 <= u < zlen s -> sa.[t] = sa.[u] -> t = u;
  ip_onto : forall i, 0 <= i < zlen s -> exists t, 0 <= t < zlen s /\ sa.[t] = i;
}.

Lemma perm_is_perm s sa : sa ≡ₚ seqZ 0 (zlen s) -> is_perm s sa.
Proof.
  intros Hp. assert (Hlen : length sa = length s).
  { rewrite (Permutation_length Hp), length_seqZ. unfold zlen. lia. }
  assert (Hnd : NoDup sa) by (rewrite Hp; apply NoDup_seqZ).
  assert (Hzl : zlen sa = zlen s) by (unfold zlen; lia).
  split; [done |..].
  - intros t Ht. pose proof (aget_lookup sa t ltac:(lia)) as Hl.
    apply list_elem_of_lookup_2 in Hl.
    apply (elem_of_Permutation_proper _ _ _ Hp), elem_of_seqZ in Hl. lia.
  - intros t u Ht Hu E. pose proof (aget_lookup sa t ltac:(lia)) as H1.
    pose proof (aget_lookup sa u ltac:(lia)) as H2. rewrite E in H1.
    pose proof (NoDup_lookup _ _ _ _ Hnd H1 H2). lia.
  - intros i Hi. assert (Hin : i ∈ sa) by (rewrite Hp; apply elem_of_seqZ; lia).
    apply list_elem_of_lookup_1 in Hin as [t Ht]. exists (Z.of_nat t).
    split; [apply lookup_lt_Some in Ht; unfold zlen; lia |].
    unfold aget. rewrite Nat2Z.id. by apply list_lookup_total_correct.
Qed.

Section round.
Context (s sa : list Z) (g : sa_cmp_ctx) (k : Z).
Hypothesis (Hpos : 0 < zlen s) (Hperm : is_perm s sa).
Hypothesis (Hcmp : forall i j, 0 <= i < zlen s -> 0 <= j < zlen s ->
  (sa_cmp_idx g i j ?= 0) = lex (pre s k i) (pre s k j)).
Hypothesis (Hsort : forall t u, 0 <= t < u -> u < zlen s ->
  lex (pre s k sa.[t]) (pre s k sa.[u]) <> Gt).

(** After [i] entries: dense ranks, at most one apart. *)
Record ranked (i : Z) (tmp : list Z) : Prop := {
  rd_len : length tmp = length s;
  rd_bound : forall t, 0 <= t < i -> 0 <= tmp.[sa.[t]] <= t;
  rd_dense : forall t, 0 <= t < i - 1 -> tmp.[sa.[t + 1]] <= tmp.[sa.[t]] + 1;
  rd_lex : forall t u, 0 <= t < u -> u < i ->
    (tmp.[sa.[t]] ?= tmp.[sa.[u]]) = lex (pre s k sa.[t]) (pre s k sa.[u]);
}.

Lemma rank_pass_ranked tmp :
  length tmp = length s -> ranked (zlen s) (rank_pass g sa tmp).
Proof.
  intros Hl. unfold rank_pass. destruct Hperm as [Hlen Hrng Hinj _].
  replace (zlen s) with (1 + Z.of_nat (length sa - 1)) by (unfold zlen in *; lia).
  apply (for_up_ind ranked).
  - pose proof (Hrng 0 ltac:(lia)).
    split; [by rewrite length_aset | | lia | lia].
    intros t Ht. replace t with 0 by lia. rewrite aget_aset by (unfold zlen in *; lia).
    rewrite Z.eqb_refl. lia.
  - intros i tm Hi [Hl1 Hb Hd Hx].
    assert (Hi' : 1 <= i < zlen s) by (unfold zlen in *; lia).
    pose proof (Hrng i ltac:(lia)) as Hri. pose proof (Hrng (i - 1) ltac:(lia)) as Hri1.
    set (v := tm.[sa.[i - 1]] + _).
    assert (Hset : forall t, 0 <= t <= i ->
      (tm.[sa.[i] := v]).[sa.[t]] = if i =? t then v else tm.[sa.[t]]).
    { intros t Ht. pose proof (Hrng t ltac:(lia)).
      rewrite aget_aset by (unfold zlen in *; lia).
      destruct (Z.eqb_spec i t) as [->|]; [by rewrite Z.eqb_refl |].
      by rewrite (proj2 (Z.eqb_neq _ _)) by (intros E; apply Hinj in E; lia). }
    pose proof (Hsort (i - 1) i ltac:(lia) ltac:(lia)) as Hs1.
    pose proof (Hcmp sa.[i - 1] sa.[i] Hri1 Hri) as Hc1.
    pose proof (Hb (i - 1) ltac:(lia)) as Hb1.
    assert (Hv : v = tm.[sa.[i - 1]] + 1 /\ lex (pre s k sa.[i - 1]) (pre s k sa.[i]) = Lt \/
                 v = tm.[sa.[i - 1]] /\ lex (pre s k sa.[i - 1]) (pre s k sa.[i]) = Eq).
    { subst v. unfold b2z. rewrite <- Hc1 in *.
      destruct (Z.compare_spec (sa_cmp_idx g sa.[i - 1] sa.[i]) 0); [right|left|done];
        cases; split; lia || done. }
    clearbody v. clear Hc1. split; [by rewrite length_aset |..].
    + intros t Ht. rewrite Hset by lia. case_if; [lia | apply Hb; lia].
    + intros t Ht. rewrite !Hset by lia. rewrite (proj2 (Z.eqb_neq i t)) by lia.
      destruct (Z.eqb_spec i (t + 1)) as [E|]; [|apply Hd; lia].
      replace (i - 1) with t in Hv by lia. lia.
    + intros t u Htu Hu. rewrite !Hset by lia. rewrite (proj2 (Z.eqb_neq i t)) by lia.
      destruct (Z.eqb_spec i u) as [<-|]; [|apply Hx; lia].
      destruct (decide (t = i - 1)) as [->|].
      * destruct Hv as [[-> ->]|[-> ->]]; [apply Z.compare_lt_iff; lia | apply Z.compare_refl].
      * pose proof (Hx t (i - 1) ltac:(lia) ltac:(lia)) as Hxt.
        pose proof (Hsort t (i - 1) ltac:(lia) ltac:(lia)) as Hst.
        destruct (lex (pre s k sa.[t]) (pre s k sa.[i - 1])) eqn:E; [| |done].
        -- rewrite (lex_eq _ _ E). apply Z.compare_eq in Hxt.
           destruct Hv as [[-> ->]|[-> ->]]; [apply Z.compare_lt_iff; lia | apply Z.compare_eq_iff; lia].
        -- rewrite Z.compare_lt_iff in Hxt.
           destruct Hv as [[-> E2]|[-> E2]].
           ++ rewrite (lex_trans _ _ _ Lt E E2). apply Z.compare_lt_iff. lia.
           ++ rewrite <- (lex_eq _ _ E2), E. apply Z.compare_lt_iff. lia.
Qed.
End round.

(** Dense ranks of all the positions are ranks by the same prefix length. *)
Lemma ranked_ranks s sa k tmp :
  zlen s <= 2 ^ 30 -> is_perm s sa -> ranked s sa k (zlen s) tmp -> ranks s k tmp.
Proof.
  intros Hn Hp [Hl Hb _ Hx]. split; [done |..].
  - intros i Hi. destruct (ip_onto _ _ Hp i Hi) as (t & Ht & <-). specialize (Hb t Ht). lia.
  - intros i j Hi Hj. destruct (ip_onto _ _ Hp i Hi) as (t & Ht & <-).
    destruct (ip_onto _ _ Hp j Hj) as (u & Hu & <-).
    destruct (Z.lt_total t u) as [|[->|]]; [by apply Hx; lia | |].
    + by rewrite Z.compare_refl, lex_refl.
    + rewrite Z.compare_antisym, lex_antisym. f_equal. apply Hx; lia.
Qed.

Lemma rank_copy (tmp rank : list Z) n :
  length tmp = n -> length rank = n ->
  for_up n 0 (fun i rank => rank.[i := tmp.[i]]) rank = tmp.
Proof.
  intros H1 H2.
  pose proof (for_up_ind (fun k (r : list Z) => length r = n /\ forall i, 0 <= i < k -> r.[i] = tmp.[i])
    n 0 (fun i rank => rank.[i := tmp.[i]]) rank) as H.
  destruct H as [Hl Hi].
  - split; [done | lia].
  - intros i r Hi [Hl Hr]. rewrite length_aset. split; [done |].
    intros j Hj. rewrite aget_aset by (unfold zlen; lia).
    destruct (Z.eqb_spec i j) as [<-|]; [done | apply Hr; lia].
  - apply (list_eq_same_length _ _ n); [lia.. |]. intros i x y Hlt Hx Hy.
    specialize (Hi (Z.of_nat i) ltac:(lia)). unfold aget in Hi. rewrite Nat2Z.id in Hi.
    rewrite (list_lookup_total_correct _ _ _ Hx), (list_lookup_total_correct _ _ _ Hy) in Hi. done.
Qed.

(** The exit test: the greatest rank is [n - 1] iff all ranks differ. *)
Lemma ranked_top s sa k tmp :
  0 < zlen s -> ranked s sa k (zlen s) tmp -> tmp.[sa.[zlen s - 1]] = zlen s - 1 ->
  forall t, 0 <= t < zlen s -> tmp.[sa.[t]] = t.
Proof.
  intros Hn [_ Hb Hd _] Htop.
  assert (H : forall d, 0 <= d -> d < zlen s -> zlen s - 1 - d <= tmp.[sa.[zlen s - 1 - d]]).
  { apply (natlike_ind (fun d => d < zlen s -> zlen s - 1 - d <= tmp.[sa.[zlen s - 1 - d]])).
    - rewrite Z.sub_0_r. lia.
    - intros d Hd0 IH Hlt. specialize (Hd (zlen s - 1 - Z.succ d) ltac:(lia)).
      replace (zlen s - 1 - Z.succ d + 1) with (zlen s - 1 - d) in Hd by lia. lia. }
  intros t Ht. specialize (H (zlen s - 1 - t) ltac:(lia) ltac:(lia)).
  replace (zlen s - 1 - (zlen s - 1 - t)) with t in H by lia. specialize (Hb t Ht). lia.
Qed.

Lemma ranked_distinct s sa k tmp :
  0 < zlen s <= k -> is_perm s sa -> ranked s sa k (zlen s) tmp ->
  (forall t u, 0 <= t < u -> u < zlen s -> lex (pre s k sa.[t]) (pre s k sa.[u]) <> Gt) ->
  tmp.[sa.[zlen s - 1]] = zlen s - 1.
Proof.
  intros Hn Hp [_ Hb _ Hx] Hs.
  assert (H : forall t, 0 <= t -> t < zlen s -> t <= tmp.[sa.[t]]).
  { apply (natlike_ind (fun t => t < zlen s -> t <= tmp.[sa.[t]])).
    - intros H. apply (Hb 0). lia.
    - intros t Ht IH Hlt. pose proof (Hx t (Z.succ t) ltac:(lia) ltac:(lia)) as Hc.
      destruct (Z.compare_spec tmp.[sa.[t]] tmp.[sa.[Z.succ t]]); [|lia|].
      + symmetry in Hc. apply lex_eq in Hc. apply pre_all_inj in Hc;
          [|lia | apply (ip_range _ _ Hp); lia..].
        apply (ip_inj _ _ Hp) in Hc; lia.
      + by destruct (Hs t (Z.succ t) ltac:(lia) ltac:(lia)). }
  specialize (H (zlen s - 1) ltac:(lia) ltac:(lia)). specialize (Hb (zlen s - 1) ltac:(lia)). lia.
Qed.

Section saca.
Context (qsort : (Z -> Z -> Z) -> list Z -> list Z) `{!QsortSpec qsort}.
Context (s : list Z).
Hypothesis (Hn : 0 < zlen s <= 2 ^ 30).

Definition sa_ok (sa : list Z) : Prop :=
  sa ≡ₚ seqZ 0 (zlen s) /\ forall t u, 0 <= t < u -> u < zlen s -> suffix_lt s sa.[t] sa.[u].

(** The array after the [qsort] of a round. *)
Lemma qsort_round k sa rank :
  0 < k <= zlen s -> ranks s k rank -> sa ≡ₚ seqZ 0 (zlen s) ->
  let g := {| sc_rank := rank; sc_n := zlen s; sc_k := k |} in
  let sa' := qsort (sa_qsort_cmp g) sa in
  sa' ≡ₚ seqZ 0 (zlen s) /\
  forall t u, 0 <= t < u -> u < zlen s ->
    lex (pre s (2 * k) sa'.[t]) (pre s (2 * k) sa'.[u]) <> Gt.
Proof.
  intros Hk Hr Hp g sa'.
  assert (Hp' : sa' ≡ₚ seqZ 0 (zlen s)) by (etransitivity; [apply qsort_perm | done]).
  split; [done |].
  assert (Hlex : forall x y, 0 <= x < zlen s -> 0 <= y < zlen s ->
    (sa_qsort_cmp g x y ?= 0) = lex (pre s (2 * k) x) (pre s (2 * k) y)).
  { intros. rewrite sa_qsort_cmp_sign. apply sa_cmp_lex; done || lia. }
  assert (Hin : forall x, x ∈ sa -> 0 <= x < zlen s).
  { intros x Hx. apply (elem_of_Permutation_proper _ _ _ Hp), elem_of_seqZ in Hx. lia. }
  pose proof (perm_is_perm s sa' Hp') as Hip.
  intros t u Htu Hu. rewrite <- Hlex by (apply (ip_range _ _ Hip); lia).
  apply Z.compare_le_iff. apply qsort_sorted; [..|lia|].
  - intros x y Hx Hy. rewrite !Hlex by auto. apply lex_antisym.
  - intros x y z Hx Hy Hz. rewrite <- !Z.compare_le_iff, !Hlex by auto. apply lex_le_trans.
  - unfold zlen. rewrite (Permutation_length Hp), length_seqZ. lia.
Qed.

Lemma saca_loop_ok fuel k sa rank tmp :
  0 < k <= zlen s -> ranks s k rank -> sa ≡ₚ seqZ 0 (zlen s) -> length tmp = length s ->
  zlen s - k < Z.of_nat fuel ->
  exists sa', saca_loop qsort fuel (zlen s) k sa rank tmp = Ret sa' /\ sa_ok sa'.
Proof.
  revert k sa rank tmp; induction fuel as [|fuel IH]; intros k sa rank tmp Hk Hr Hp Ht Hf;
    [lia |]. simpl.
  destruct (qsort_round k sa rank Hk Hr Hp) as [Hp' Hs'].
  set (g := {| sc_rank := rank; sc_n := zlen s; sc_k := k |}) in *.
  set (sa' := qsort (sa_qsort_cmp g) sa) in *.
  pose proof (perm_is_perm s sa' Hp') as Hip.
  assert (Hrd : ranked s sa' (2 * k) (zlen s) (rank_pass g sa' tmp)).
  { apply rank_pass_ranked; [lia | done | | done | done].
    intros. apply sa_cmp_lex; done || lia. }
  set (tmp' := rank_pass g sa' tmp) in *.
  assert (Hrk := ranked_ranks s sa' (2 * k) tmp' ltac:(lia) Hip Hrd).
  rewrite rank_copy; [|rewrite (rd_len _ _ _ _ _ Hrd); unfold zlen; lia
                      |rewrite (rk_len _ _ _ Hr); unfold zlen; lia].
  pose proof (rk_bound _ _ _ Hrk sa'.[zlen s - 1] (ip_range _ _ Hip (zlen s - 1) ltac:(lia))).
  rewrite u64_small by lia.
  destruct (Z.eqb_spec tmp'.[sa'.[zlen s - 1]] (zlen s - 1)) as [E|E].
  - exists sa'. split; [done |]. split; [done |]. intros t u Htu Hu.
    pose proof (ranked_top s sa' (2 * k) tmp' (proj1 Hn) Hrd E) as Htop.
    apply (lex_take (Z.to_nat (2 * k))); [|done].
    transitivity (tmp'.[sa'.[t]] ?= tmp'.[sa'.[u]]).
    + symmetry. apply (rd_lex _ _ _ _ _ Hrd); lia.
    + rewrite !Htop by lia. apply Z.compare_lt_iff. lia.
  - destruct (decide (zlen s <= 2 * k)).
    { destruct E. apply (ranked_distinct s sa' (2 * k)); [lia | done..]. }
    rewrite Z.shiftl_mul_pow2 by lia. change (2 ^ 1) with 2. rewrite u64_small by lia.
    apply IH; [lia | by rewrite Z.mul_comm | done | by rewrite (rd_len _ _ _ _ _ Hrd) | lia].
Qed.

Lemma saca_sorts :
  Forall is_byte s -> exists sa, saca qsort s (zlen s) = Ret sa /\ sa_ok sa.
Proof.
  intros Hb. unfold saca. rewrite (proj2 (Z.eqb_neq _ 0)) by lia.
  assert (Hget : forall i, 0 <= i < zlen s -> (( λ i, i32 s.[i]) <$> seqZ 0 (zlen s)).[i] = s.[i]).
  { intros i Hi. unfold aget at 1. apply list_lookup_total_correct.
    rewrite list_lookup_fmap, lookup_seqZ_lt by lia. simpl. f_equal.
    replace (0 + Z.of_nat (Z.to_nat i)) with i by lia.
    pose proof (aget_Forall _ _ _ Hb Hi) as Hbi. unfold is_byte in Hbi. rewrite i32_small; lia. }
  apply saca_loop_ok; [lia | | | |lia].
  - split.
    + rewrite length_fmap, length_seqZ. unfold zlen. lia.
    + intros i Hi. rewrite Hget by done. pose proof (aget_Forall _ _ _ Hb Hi) as Hbi.
      unfold is_byte in Hbi. lia.
    + intros i j Hi Hj. rewrite !Hget by done. unfold pre.
      rewrite (drop_S s s.[i] (Z.to_nat i)), (drop_S s s.[j] (Z.to_nat j)) by (by apply aget_lookup).
      simpl. by destruct (s.[i] ?= s.[j]).
  - replace ((λ i, i32 i) <$> seqZ 0 (zlen s)) with (seqZ 0 (zlen s)); [done |].
    rewrite <- (list_fmap_id (seqZ 0 (zlen s))) at 1. apply list_fmap_ext.
    intros k x Hx. apply lookup_seqZ in Hx. unfold id. rewrite i32_small; lia.
  - rewrite length_replicate. unfold zlen. lia.
Qed.
End saca.

(** * A [qsort] that meets the specification: insertion sort *)

Fixpoint insert_by (cmp : Z -> Z -> Z) (x : Z) (l : list Z) : list Z :=
  match l with
  | [] => [x]
  | y :: l' => if cmp x y <=? 0 then x :: l else y :: insert_by cmp x l'
  end.
Definition insertion_sort (cmp : Z -> Z -> Z) (l : list Z) : list Z := foldr (insert_by cmp) [] l.

Lemma insert_by_perm cmp x l : insert_by cmp x l ≡ₚ x :: l.
Proof.
  induction l as [|y l IH]; simpl; [done |]. case_if; [done |]. rewrite IH. apply Permutation_swap.
Qed.

Lemma insertion_sort_perm cmp l : insertion_sort cmp l ≡ₚ l.
Proof. induction l as [|x l IH]; simpl; [done |]. by rewrite insert_by_perm, IH. Qed.

Section insertion_sort.
Context (cmp : Z -> Z -> Z) (D : Z -> Prop).
Hypothesis (Hopp : forall x y, D x -> D y -> (cmp y x ?= 0) = CompOpp (cmp x y ?= 0)).
Hypothesis (Htr : forall x y z, D x -> D y -> D z -> cmp x y <= 0 -> cmp y z <= 0 -> cmp x z <= 0).

Lemma insert_by_sorted x l :
  D x -> Forall D l -> StronglySorted (fun x y => cmp x y <= 0) l ->
  StronglySorted (fun x y => cmp x y <= 0) (insert_by cmp x l).
Proof.
  intros Hx Hl Hs. induction Hs as [|y l Hs IH Hy]; simpl; [by repeat constructor |].
  apply Forall_cons in Hl as [Dy Dl]. destruct (Z.leb_spec (cmp x y) 0) as [Hc|Hc].
  - constructor; [by constructor |]. constructor; [done |].
    apply Forall_forall. intros z Hz. rewrite Forall_forall in Hy, Dl. eauto.
  - constructor; [auto |]. rewrite insert_by_perm. constructor; [|done].
    specialize (Hopp x y Hx Dy). rewrite (proj2 (Z.compare_gt_iff _ _) Hc) in Hopp.
    apply (proj1 (Z.compare_lt_iff _ _)) in Hopp. lia.
Qed.

Lemma insertion_sort_sorted l :
  Forall D l -> StronglySorted (fun x y => cmp x y <= 0) (insertion_sort cmp l).
Proof.
  induction 1 as [|x l Hx Hl IH]; simpl; [constructor |].
  apply insert_by_sorted; [done | by rewrite insertion_sort_perm | done].
Qed.
End insertion_sort.

#[export] Instance insertion_sort_spec : QsortSpec insertion_sort.
Proof.
  split; [apply insertion_sort_perm |]. intros cmp l Hopp Htr t u Ht Hu.
  assert (Hs := insertion_sort_sorted cmp (fun x => x ∈ l) Hopp Htr l ltac:(by apply Forall_forall)).
  assert (Hl : zlen (insertion_sort cmp l) = zlen l).
  { unfold zlen. by rewrite (Permutation_length (insertion_sort_perm cmp l)). }
  apply (StronglySorted_aget _ _ t u Hs); lia.
Qed.

(** With a [qsort] that meets the C standard, [saca] terminates on every non-empty input
    of at most 1 GiB and returns its suffix array: every position once, in increasing order
    of the suffixes that start there. *)
Theorem saca_is_suffix_array qsort `{!QsortSpec qsort} s :
  Forall is_byte s -> 0 < zlen s <= 2 ^ 30 ->
  exists sa, saca qsort s (zlen s) = Ret sa /\ sa ≡ₚ seqZ 0 (zlen s) /\
    forall t u, 0 <= t < u -> u < zlen s -> suffix_lt s sa.[t] sa.[u].
Proof. intros Hb Hn. apply (saca_sorts qsort s Hn Hb). Qed.

Lemma saca_is_suffix_array_witness :
  exists sa, saca insertion_sort [98; 97; 110; 97; 110; 97] 6 = Ret sa /\ sa ≡ₚ seqZ 0 6 /\
    forall t u, 0 <= t < u -> u < 6 -> suffix_lt [98; 97; 110; 97; 110; 97] sa.[t] sa.[u].
Proof.
  apply (saca_is_suffix_array insertion_sort [98; 97; 110; 97; 110; 97]).
  - repeat constructor; unfold is_byte; lia.
  - vm_compute. split; [reflexivity | discriminate].
Defined.
