(* ===== verification/LimlzCorrect.v ===== *)
(** Correctness of the stage2 compressor and decompressor of [Limlz]. *)

From S2P Require Import Prelude Limlz SuffixArray.
Import Pack Unpack.


(** * What the packer may reference: a back reference that is in the source *)

Record valid_match (src : list Z) (i len off : Z) : Prop := {
  vm_off : 1 <= off <= 65535;
  vm_behind : off <= i;
  vm_len : 0 <= len;
  vm_fits : i + len <= zlen src;
  vm_eq : forall t, 0 <= t < len -> src.[i + t] = src.[i + t - off];
}.

Lemma valid_match_shorter src i len len' off :
  valid_match src i len off -> 0 <= len' <= len -> valid_match src i len' off.
Proof. intros [] ?. split; try lia. intros t Ht. apply vm_eq0. lia. Qed.

Lemma lcp_loop_spec s i j m l :
  l <= lcp_loop m s i j l <= l + Z.of_nat m /\
  forall t, l <= t < lcp_loop m s i j l -> s.[i + t] = s.[j + t].
Proof.
  revert l; induction m as [|m IH]; intros l; simpl; [split; lia |].
  destruct (Z.eqb_spec s.[i + l] s.[j + l]) as [E|]; [|split; lia].
  destruct (IH (l + 1)) as [Hb Ht]. split; [lia |].
  intros t Hlt. destruct (decide (t = l)) as [->|]; [done |]. apply Ht. lia.
Qed.

Lemma lcp_bytes_valid s i j :
  0 <= j < i -> i <= zlen s -> i - j <= 65535 ->
  valid_match s i (lcp_bytes s (zlen s) i j) (i - j).
Proof.
  intros Hj Hi Ho. unfold lcp_bytes. rewrite (proj2 (Z.gtb_lt i j)) by lia.
  destruct (lcp_loop_spec s i j (Z.to_nat (zlen s - i)) 0) as [Hb Ht].
  split; try lia. intros t Hlt. rewrite Ht by lia. f_equal. lia.
Qed.

(** A candidate [(best_len, best_off)] of [longest_matches] is 0 or a match. *)
Definition candidate (src : list Z) (i : Z) (best : Z * Z) : Prop :=
  best.1 = 0 \/ valid_match src i best.1 best.2.

Lemma neighbour_candidate src sa i r d best :
  0 <= i <= zlen src -> candidate src i best ->
  candidate src i (neighbour src (zlen src) sa i r d best).
Proof.
  intros Hi Hc. unfold neighbour. pose proof (u64_bound sa.[r + d]).
  repeat (case_if; [done |]). case_if; [|done].
  right. simpl. rewrite u16_small by lia. apply lcp_bytes_valid; lia.
Qed.

(** The entries of [mch] and [bestm]: no match, or a match of the source that
    the token format can express. *)
Definition choice_ok (src : list Z) (lim i : Z) (m : match_choice) : Prop :=
  m = MC 0 0 \/ 4 <= mc_len m <= lim /\ valid_match src i (mc_len m) (mc_off m).

Lemma longest_match_at_ok src sa inv i :
  0 <= i <= zlen src ->
  mc_len (longest_match_at src (zlen src) sa inv i) < 4 \/
  valid_match src i (mc_len (longest_match_at src (zlen src) sa inv i))
    (mc_off (longest_match_at src (zlen src) sa inv i)).
Proof.
  intros Hi. unfold longest_match_at.
  pose proof (for_up_ind (fun _ => candidate src i)
    (Z.to_nat (2 * LIMLZ_SA_NEIGHBORS + 1)) (- LIMLZ_SA_NEIGHBORS)
    (neighbour src (zlen src) sa i inv.[i]) (0, 0)) as H.
  destruct (for_up _ _ _ _) as [bl bo].
  destruct (Z.geb_spec bl 4); [|left; simpl; lia].
  destruct H as [H|H]; [by left | by intros; apply neighbour_candidate | simpl in H; lia |].
  right. simpl in *. eapply valid_match_shorter; [done |].
  split; [apply u32_bound | apply wrap_le; lia].
Qed.

Definition mch_ok (src : list Z) (mch : list match_choice) : Prop :=
  length mch = length src /\
  forall i, 0 <= i < zlen src ->
    mc_len mch.[i] < 4 \/ valid_match src i (mc_len mch.[i]) (mc_off mch.[i]).

Lemma longest_matches_ok qsort ok src mch r :
  length mch = length src -> src <> [] ->
  longest_matches qsort ok src (zlen src) mch = Ret (Some r) -> mch_ok src r.
Proof.
  intros Hl Hne. unfold longest_matches.
  destruct (Z.eqb_spec (zlen src) 0) as [E|_]; [destruct src; [done | unfold zlen in E; simpl in E; lia] |].
  case_if; [done |]. destruct (saca _ _ _) as [sa| |]; simpl; [|done..]. intros [= <-].
  set (inv := for_up _ _ _ (replicate _ _)).
  pose proof (for_up_ind (fun k l => length l = length src /\
    forall i, 0 <= i < k -> mc_len l.[i] < 4 \/ valid_match src i (mc_len l.[i]) (mc_off l.[i]))
    (Z.to_nat (zlen src)) 0
    (fun i mch => mch.[i := longest_match_at src (zlen src) sa inv i]) mch) as H.
  rewrite Z.add_0_l, Z2Nat.id in H by apply zlen_nonneg.
  destruct H as [H1 H2].
  - split; [done | lia].
  - intros i l Hi [Hll Hv]. rewrite length_aset. split; [done |].
    intros k Hk. rewrite aget_aset by (unfold zlen in *; lia).
    destruct (Z.eqb_spec i k) as [<-|]; [apply longest_match_at_ok; lia | apply Hv; lia].
  - by split.
Qed.

(** * The parse the dynamic program picks *)

Lemma best_mlen_range srcsz i m dp :
  best_mlen srcsz i m dp = 0 \/
  4 <= best_mlen srcsz i m dp <= Z.min 266 (Z.min (mc_len m) (srcsz - i)).
Proof.
  unfold best_mlen.
  set (lim := if i + _ >? srcsz then _ else _).
  set (n := Z.to_nat (lim - 3)).
  assert (Hlim : lim <= Z.min 266 (Z.min (mc_len m) (srcsz - i))) by (subst lim; cases).
  match goal with |- context [for_up n 4 ?body ?s0] =>
    pose proof (for_up_ind (fun _ (s : Z * Z) => s.2 = 0 \/ 4 <= s.2 <= lim) n 4 body s0) as H end.
  destruct (for_up _ _ _ _) as [c r]; simpl in *.
  destruct H as [H|H]; [by left | | by left | right; lia].
  intros ml [mcost mlen] Hml Hs. simpl in *. case_if; simpl; [|done].
  right. rewrite u32_small by lia. lia.
Qed.

Lemma best_match_ok src i m dp :
  mc_len m < 4 \/ valid_match src i (mc_len m) (mc_off m) ->
  choice_ok src 266 i (best_match (zlen src) i m dp).
Proof.
  intros Hm. unfold best_match.
  destruct (Z.geb_spec (mc_len m) 4) as [H4|]; [|by left].
  destruct Hm as [|Hm]; [lia |].
  destruct (best_mlen_range (zlen src) i m dp) as [->|Hr]; [by left |].
  rewrite (proj2 (Z.eqb_neq _ 0)) by lia. right. split; simpl; [lia |].
  eapply valid_match_shorter; [done | lia].
Qed.

(** What the emission loop relies on at position [i]. *)
Inductive pick_ok (src : list Z) (i : Z) : parse_choice -> Prop :=
| pick_none : pick_ok src i (PC 0 0 0)
| pick_last lit : lit = zlen src - i -> lit <= 270 -> pick_ok src i (PC lit 0 0)
| pick_match lit ml off :
    0 <= lit <= 270 -> 4 <= ml <= 266 -> valid_match src (i + lit) ml off ->
    pick_ok src i (PC lit ml off).

Lemma best_parse_ok src i bestm dp :
  0 <= i < zlen src ->
  (forall j, i <= j < zlen src -> choice_ok src 266 j bestm.[j]) ->
  pick_ok src i (best_parse (zlen src) i bestm dp).2.
Proof.
  intros Hi Hb. unfold best_parse.
  match goal with |- context [for_up ?n i ?body ?s0] =>
    pose proof (for_up_ind (fun _ (s : Z * parse_choice) => pick_ok src i s.2) n i body s0) as H end.
  apply H; clear H.
  - case_if; simpl; [|constructor]. rewrite u32_small by lia. constructor; lia.
  - intros j [cost p] Hj Hp. unfold best_parse_step.
    destruct (Hb j) as [-> | [Hlen Hv]]; [lia | done |].
    case_if; [done |]. case_if; [|done]. simpl. rewrite u32_small by lia.
    constructor; [lia.. |]. by replace (i + (j - i)) with j by lia.
Qed.

Record dp_ok (src : list Z) (i : Z) (st : dp_state) : Prop := {
  dp_len_bestm : length (d_bestm st) = length src;
  dp_len_pick : length (d_pick st) = S (length src);
  dp_bestm : forall j, i <= j < zlen src -> choice_ok src 266 j (d_bestm st).[j];
  dp_pick : forall j, i <= j < zlen src -> pick_ok src j (d_pick st).[j];
}.

Lemma dp_step_ok src mch i st :
  mch_ok src mch -> 0 <= i < zlen src ->
  dp_ok src (i + 1) st -> dp_ok src i (dp_step (zlen src) mch i st).
Proof.
  intros [Hml Hm] Hi [Hl1 Hl2 Hb Hp]. unfold dp_step.
  set (bestm := (d_bestm st).[i := _]).
  assert (Hb' : forall j, i <= j < zlen src -> choice_ok src 266 j bestm.[j]).
  { intros j Hj. subst bestm. rewrite aget_aset by (unfold zlen in *; lia).
    destruct (Z.eqb_spec i j) as [<-|]; [apply best_match_ok, Hm; lia | apply Hb; lia]. }
  pose proof (best_parse_ok src i bestm (d_dp st) Hi Hb') as Hbp.
  destruct (best_parse _ _ _ _) as [cost c]. split; simpl.
  - subst bestm. by rewrite length_aset.
  - by rewrite length_aset.
  - done.
  - intros j Hj. rewrite aget_aset by (unfold zlen in *; lia).
    destruct (Z.eqb_spec i j) as [<-|]; [done | apply Hp; lia].
Qed.

(** The parse computed by [limlzpack]'s loop from its initial arrays. *)
Lemma dp_run_ok src mch :
  mch_ok src mch ->
  dp_ok src 0 (for_down (length src) (dp_step (zlen src) mch)
    {| d_bestm := replicate (length src) (MC 0 0);
       d_dp := (replicate (S (length src)) 0).[zlen src := 0];
       d_pick := (replicate (S (length src)) (PC 0 0 0)).[zlen src := PC 0 0 0] |}).
Proof.
  intros Hm. apply (for_down_ind (dp_ok src)).
  - split; cbn [d_bestm d_pick]; [apply length_replicate | | unfold zlen; lia | unfold zlen; lia].
    rewrite length_aset. apply length_replicate.
  - intros i s Hi. by apply dp_step_ok.
Qed.

(** * The token stream *)

Definition nib (lit : Z) : Z := if lit <? 15 then lit else 15.
Definition tail15 (lit : Z) : list Z := if lit >=? 15 then [u8 (lit - 15)] else [].
Definition low3 (ml : Z) : Z := if ml - 4 <? 7 then ml - 4 else 7.
Definition tail7 (ml : Z) : list Z := if ml - 4 >=? 7 then [u8 (ml - 4 - 7)] else [].
Definition offset_bytes (off : Z) : list Z :=
  if off >? 255 then [u8 (Z.land off 255); u8 (Z.shiftr off 8)] else [u8 off].
Definition slice (src : list Z) (i n : Z) : list Z := take (Z.to_nat n) (drop (Z.to_nat i) src).
Definition token_byte (lit ml off : Z) : Z :=
  u8 (Z.lor (Z.lor (Z.shiftl (if off >? 255 then 1 else 0) 7) (Z.shiftl (nib lit) 3)) (low3 ml)).

(** [enc src i bs]: the bytes [bs] encode [src] from position [i] on. *)
Inductive enc (src : list Z) : Z -> list Z -> Prop :=
| enc_last i lit :
    lit = zlen src - i -> 0 <= lit <= 270 ->
    enc src i (u8 (Z.shiftl (nib lit) 3) :: tail15 lit ++ slice src i lit)
| enc_match i lit ml off rest :
    0 <= lit <= 270 -> 4 <= ml <= 266 -> valid_match src (i + lit) ml off ->
    enc src (i + lit + ml) rest ->
    enc src i (token_byte lit ml off :: tail15 lit ++ slice src i lit
                 ++ offset_bytes off ++ tail7 ml ++ rest).

Lemma encode_len_tail_spec out cap n out' :
  encode_len_tail out cap n = Some out' -> out' = out ++ tail15 n.
Proof. unfold encode_len_tail, tail15. intros. cases. by rewrite app_nil_r. Qed.

Lemma encode_len_tail_ml_spec out cap ml out' :
  encode_len_tail_ml out cap (ml - 4) = Some out' -> out' = out ++ tail7 ml.
Proof. unfold encode_len_tail_ml, tail7. intros. cases. by rewrite app_nil_r. Qed.

(** One iteration appends one token; [fin] is the [terminated] exit. *)
Lemma emit_step_spec src cap pick i out out' i' fin :
  0 <= i < zlen src -> pick_ok src i pick.[i] ->
  emit_step src (zlen src) cap pick i out = Some (out', i', fin) ->
  exists bs, out' = out ++ bs /\
    if fin then enc src i bs
    else i < i' <= zlen src /\ forall rest, enc src i' rest -> enc src i (bs ++ rest).
Proof.
  intros Hi Hp. unfold emit_step. destruct pick.[i] as [lit ml off].
  case_if; [done |]. case_if; [done |]. case_if; [done |].
  destruct (encode_len_tail _ _ _) as [o1|] eqn:E1; simpl; [|done].
  apply encode_len_tail_spec in E1 as ->. case_if; [done |].
  fold (slice src i lit).
  assert (Hpatch : forall t, ((((out ++ [0]) ++ tail15 lit) ++ slice src i lit).[zlen out := t]
      = out ++ t :: tail15 lit ++ slice src i lit)).
  { intros t. rewrite <- !app_assoc. apply aset_app. }
  rewrite !Hpatch. case_if.
  - intros [= <- <- <-]. eexists; split; [done |].
    inversion Hp as [| |lit' ml' off' H1 H2 H3]; simplify_eq/=.
    + lia.
    + apply (enc_last src i (zlen src - i)); lia.
    + destruct H3. lia.
  - inversion Hp as [| |lit' ml' off' H1 H2 H3]; simplify_eq/=; [lia.. |].
    match goal with |- context [if off >? 255 then ?a else ?b] =>
      destruct (if off >? 255 then a else b) as [o2|] eqn:E2 end; simpl; [|done].
    assert (E2' : o2 = (out ++ token_byte lit ml off :: tail15 lit ++ slice src i lit)
                     ++ offset_bytes off).
    { unfold offset_bytes, token_byte, nib, low3. destruct (off >? 255); cases. }
    clear E2. subst o2.
    destruct (encode_len_tail_ml _ _ _) as [o3|] eqn:E3; simpl; [|done].
    apply encode_len_tail_ml_spec in E3 as ->. intros [= <- <- <-].
    exists (token_byte lit ml off :: tail15 lit ++ slice src i lit ++ offset_bytes off ++ tail7 ml).
    split; [by rewrite <- !app_assoc; simpl; rewrite <- !app_assoc |].
    split; [destruct H3; lia |].
    intros rest Hr. simpl. rewrite <- !app_assoc. by apply enc_match.
Qed.

Lemma emit_loop_spec src cap pick fuel i out :
  (forall j, 0 <= j < zlen src -> pick_ok src j pick.[j]) ->
  0 <= i <= zlen src -> zlen src - i <= Z.of_nat fuel ->
  match emit_loop fuel src (zlen src) cap pick i out with
  | Ret (Some (out', fin)) =>
      exists bs, out' = out ++ bs /\ enc src i (if fin then bs else bs ++ [0])
  | Ret None => True
  | Panic | Diverge => False
  end.
Proof.
  intros Hp. revert i out; induction fuel as [|fuel IH]; intros i out Hi Hf; simpl;
    destruct (Z.ltb_spec i (zlen src)); try lia.
  2: destruct (emit_step src (zlen src) cap pick i out) as [[[out' i'] fin]|] eqn:E; [|done].
  2: eapply emit_step_spec in E as (bs & -> & Hb); [|lia|auto with lia].
  2: destruct fin; [by eauto |].
  2: destruct Hb as [Hi' Hb]; specialize (IH i' (out ++ bs) ltac:(lia) ltac:(lia)).
  2: destruct (emit_loop _ _ _ _ _ _ _) as [[[o3 [|]]|]| |]; try done;
     destruct IH as (bs' & -> & He); exists (bs ++ bs'); rewrite !app_assoc;
     split; try done; rewrite <- ?app_assoc; by apply Hb.
  all: exists []; rewrite app_nil_r; split; [done |];
    replace i with (zlen src) by lia;
    pose proof (enc_last src (zlen src) 0) as Hl; unfold slice in Hl; simpl in Hl;
    apply Hl; lia.
Qed.

Lemma limlzpack_enc qsort ok cap src out :
  limlzpack qsort ok cap src = Ret (Some out) -> enc src 0 out.
Proof.
  unfold limlzpack. destruct (Z.eqb_spec (zlen src) 0) as [E|Hne].
  { destruct src; [|unfold zlen in E; simpl in E; lia].
    case_if; intros [= <-]. apply (enc_last [] 0 0); done. }
  case_if; [done |].
  destruct (longest_matches _ _ _ _ _) as [[mch|]| |] eqn:Em; simpl; try done.
  apply longest_matches_ok in Em; [|by rewrite length_replicate | by intros ->].
  assert (Hst := dp_run_ok src mch Em). set (st := for_down _ _ _) in *.
  pose proof (emit_loop_spec src cap (d_pick st) (length src) 0 [] (dp_pick _ _ _ Hst)) as H.
  specialize (H ltac:(unfold zlen; lia) ltac:(unfold zlen; lia)).
  destruct (emit_loop _ _ _ _ _ _ _) as [[[o [|]]|]| |]; simpl; try done.
  - intros [= <-]. by destruct H as (bs & -> & H).
  - destruct H as (bs & -> & H). case_if; intros [= <-]. done.
Qed.

(** * Decompression *)

Lemma rep_movsb_spec c esi edi m :
  0 <= esi -> 0 <= edi -> esi + Z.of_nat c < 2 ^ 32 -> edi + Z.of_nat c < 2 ^ 32 ->
  esi < edi \/ edi + Z.of_nat c <= esi ->
  exists m', rep_movsb c esi edi m = (esi + Z.of_nat c, edi + Z.of_nat c, m') /\
    (forall x, ~ edi <= x < edi + Z.of_nat c -> m' x = m x) /\
    (forall t, 0 <= t < Z.of_nat c -> m' (edi + t) = m' (esi + t)).
Proof.
  revert esi edi m; induction c as [|c IH]; intros esi edi m He Hd H1 H2 Hs; simpl.
  { exists m. rewrite !Z.add_0_r. split; [done |]. split; [done | lia]. }
  rewrite !u32_small by lia.
  destruct (IH (esi + 1) (edi + 1) (mem_set m edi (m esi))) as (m' & -> & Hf & Ht); [lia.. |].
  exists m'. split; [by do 2 f_equal; lia |]. split.
  - intros x Hx. rewrite Hf by lia. unfold mem_set. case_if; [lia | done].
  - intros t Hlt. destruct (decide (t = 0)) as [->|].
    + rewrite !Z.add_0_r, !Hf by lia. unfold mem_set.
      rewrite Z.eqb_refl. by rewrite (proj2 (Z.eqb_neq esi edi)) by lia.
    + specialize (Ht (t - 1) ltac:(lia)).
      replace (edi + 1 + (t - 1)) with (edi + t) in Ht by lia.
      by replace (esi + 1 + (t - 1)) with (esi + t) in Ht by lia.
Qed.

Lemma slice_length src i n : 0 <= i -> 0 <= n -> i + n <= zlen src -> zlen (slice src i n) = n.
Proof. unfold zlen, slice. intros. rewrite length_take, length_drop. lia. Qed.

Lemma slice_lookup src i n t :
  0 <= i -> 0 <= t < n -> i + n <= zlen src -> slice src i n !! Z.to_nat t = Some src.[i + t].
Proof.
  intros Hi Ht Hn. unfold slice. rewrite lookup_take_lt, lookup_drop by lia.
  rewrite <- Z2Nat.inj_add by lia. apply aget_lookup. lia.
Qed.

(** The token byte's three fields are read back. *)
Lemma token_fields md nb lo :
  0 <= md < 2 -> 0 <= nb < 16 -> 0 <= lo < 8 ->
  let tok := u8 (Z.lor (Z.lor (Z.shiftl md 7) (Z.shiftl nb 3)) lo) in
  Z.land (Z.shiftr tok 3) 0xf = nb /\ Z.testbit tok 7 = (md =? 1) /\ Z.land tok 7 = lo.
Proof.
  intros Hm Hn Hl tok.
  assert (H : forallb (fun md => forallb (fun nb => forallb (fun lo =>
      let tok := u8 (Z.lor (Z.lor (Z.shiftl md 7) (Z.shiftl nb 3)) lo) in
      (Z.land (Z.shiftr tok 3) 0xf =? nb) && Bool.eqb (Z.testbit tok 7) (md =? 1)
      && (Z.land tok 7 =? lo))
      (seqZ 0 8)) (seqZ 0 16)) (seqZ 0 2) = true) by (vm_compute; reflexivity).
  apply (seqZ_forallb _ _ md) in H; [|done]. apply (seqZ_forallb _ _ nb) in H; [|done].
  apply (seqZ_forallb _ _ lo) in H; [|done]. cbv zeta in H. fold tok in H.
  apply andb_true_iff in H as [H H3]. apply andb_true_iff in H as [H1 H2].
  apply eqb_prop in H2. apply Z.eqb_eq in H1, H3. done.
Qed.

Lemma nib_range lit : 0 <= lit -> 0 <= nib lit < 16.
Proof. unfold nib. intros. cases. Qed.
Lemma low3_range ml : 4 <= ml -> 0 <= low3 ml < 8.
Proof. unfold low3. intros. cases. Qed.

Lemma offset_bytes_decode m a off :
  1 <= off <= 65535 -> bytes_at m a (offset_bytes off) ->
  (if off >? 255 then m a + Z.shiftl (m (a + 1)) 8 else m a) = off.
Proof.
  unfold offset_bytes. intros Ho. destruct (Z.gtb_spec off 255).
  - rewrite !bytes_at_cons. intros (-> & -> & _).
    change 255 with (Z.ones 8). rewrite Z.land_ones, Z.shiftr_div_pow2, Z.shiftl_mul_pow2 by lia.
    pose proof (Z.div_mod off 256 ltac:(lia)). pose proof (Z.mod_pos_bound off 256 ltac:(lia)).
    change (2 ^ 8) with 256. rewrite !u8_small; lia.
  - rewrite bytes_at_cons. intros [-> _]. apply u8_small. lia.
Qed.

Section decode.
Context (src : list Z) (ebx : Z).
Hypothesis (Hend : 0 <= ebx < 2 ^ 32) (Hdst : DEST + zlen src < 2 ^ 32).

(** The first [i] bytes are decompressed; [edx] lies outside the target. *)
Definition dst_ok (m : mem) (i : Z) : Prop :=
  forall k, 0 <= k < i -> m (DEST + k) = src.[k].
Definition apart (edx : Z) : Prop :=
  0 <= edx <= ebx /\ (ebx <= DEST \/ DEST + zlen src <= edx).
Definition same_outside (m m' : mem) : Prop :=
  forall x, ~ DEST <= x < DEST + zlen src -> m' x = m x.

Lemma copy_literals m i lit esi :
  0 <= i -> 0 <= lit -> i + lit <= zlen src -> dst_ok m i ->
  apart esi -> esi + lit <= ebx -> bytes_at m esi (slice src i lit) ->
  exists m', rep_movsb (Z.to_nat lit) esi (DEST + i) m = (esi + lit, DEST + (i + lit), m') /\
    dst_ok m' (i + lit) /\ same_outside m m'.
Proof.
  intros Hi Hl Hn Hd [Ha1 Ha2] He Hb. unfold DEST in *.
  destruct (rep_movsb_spec (Z.to_nat lit) esi (0xf000 + i) m) as (m' & -> & Hf & Ht);
    rewrite ?Z2Nat.id in * by lia; try lia.
  exists m'. split; [by do 2 f_equal; lia |]. split.
  - intros k Hk. destruct (decide (k < i)); [rewrite Hf by (unfold DEST; lia); apply Hd; lia |].
    unfold DEST. replace (0xf000 + k) with (0xf000 + i + (k - i)) by lia.
    rewrite Ht, Hf by lia.
    rewrite <- (Hb (Z.to_nat (k - i)) src.[k]).
    + f_equal. lia.
    + rewrite slice_lookup by lia. f_equal. f_equal. lia.
  - intros x Hx. apply Hf. unfold DEST in Hx. lia.
Qed.

Lemma copy_match m i ml off :
  0 <= i -> dst_ok m i -> valid_match src i ml off ->
  exists m', rep_movsb (Z.to_nat ml) (u32 (DEST + i - off)) (DEST + i) m
               = (DEST + i - off + ml, DEST + (i + ml), m') /\
    dst_ok m' (i + ml) /\ same_outside m m'.
Proof.
  intros Hi Hd [Ho Hb Hl Hn Heq]. unfold DEST in *. rewrite u32_small by lia.
  destruct (rep_movsb_spec (Z.to_nat ml) (0xf000 + i - off) (0xf000 + i) m)
    as (m' & -> & Hf & Ht); rewrite ?Z2Nat.id in * by lia; try lia.
  exists m'. split; [by do 2 f_equal; lia |]. split.
  - assert (H : forall k, 0 <= k -> 0 <= k < i + ml -> m' (0xf000 + k) = src.[k]).
    { apply (Z_lt_induction (fun k => 0 <= k < i + ml -> m' (0xf000 + k) = src.[k])).
      intros k IH Hk. destruct (decide (k < i)); [rewrite Hf by lia; apply (Hd k); lia |].
      replace (0xf000 + k) with (0xf000 + i + (k - i)) by lia. rewrite Ht by lia.
      replace (0xf000 + i - off + (k - i)) with (0xf000 + (k - off)) by lia.
      rewrite IH by lia. specialize (Heq (k - i) ltac:(lia)).
      replace (i + (k - i)) with k in Heq by lia. by rewrite Heq. }
    intros k Hk. apply H; lia.
  - intros x Hx. apply Hf. unfold DEST in Hx. lia.
Qed.

(** The literal count and the address of the literals, from a token. *)
Lemma literal_header m edx tok lit :
  0 <= lit <= 270 -> 0 <= edx -> edx + 1 + zlen (tail15 lit) < 2 ^ 32 -> m edx = tok ->
  Z.land (Z.shiftr tok 3) 0xf = nib lit -> bytes_at m (edx + 1) (tail15 lit) ->
  (if Z.land (Z.shiftr tok 3) 0xf =? 0xf
   then (m (u32 (edx + 1)) + 0xf, u32 (edx + 2))
   else (Z.land (Z.shiftr tok 3) 0xf, u32 (edx + 1)))
  = (lit, edx + 1 + zlen (tail15 lit)).
Proof.
  intros Hl He Hw Hm -> Hb. unfold nib, tail15 in *.
  destruct (Z.ltb_spec lit 15), (Z.geb_spec lit 15); try lia; unfold zlen in *; simpl in *.
  - rewrite (proj2 (Z.eqb_neq lit 0xf)), u32_small by lia. f_equal. lia.
  - apply bytes_at_cons in Hb as [Hb _]. rewrite !u32_small, Hb, u8_small by lia.
    f_equal; lia.
Qed.

Lemma offset_header m esi tok off :
  1 <= off <= 65535 -> 0 <= esi -> esi + zlen (offset_bytes off) < 2 ^ 32 ->
  Z.testbit tok 7 = (off >? 255) -> bytes_at m esi (offset_bytes off) ->
  (if Z.testbit tok 7
   then (u32 (esi + 2), m esi + Z.shiftl (m (u32 (esi + 1))) 8)
   else (u32 (esi + 1), m esi)) = (esi + zlen (offset_bytes off), off).
Proof.
  intros Ho He Hw -> Hb. pose proof (offset_bytes_decode m esi off Ho Hb) as Hd.
  unfold offset_bytes in *. destruct (off >? 255);
    unfold zlen in *; simpl in *; by rewrite !u32_small, Hd by lia.
Qed.

Lemma match_header m edx tok ml :
  4 <= ml <= 266 -> 0 <= edx -> edx + zlen (tail7 ml) < 2 ^ 32 ->
  Z.land tok 7 = low3 ml -> bytes_at m edx (tail7 ml) ->
  (if Z.land tok 7 =? 7 then (m edx + 7, u32 (edx + 1)) else (Z.land tok 7, edx))
  = (ml - 4, edx + zlen (tail7 ml)).
Proof.
  intros Hm He Hw -> Hb. unfold low3, tail7 in *.
  destruct (Z.ltb_spec (ml - 4) 7), (Z.geb_spec (ml - 4) 7); try lia;
    unfold zlen in *; simpl in *.
  - rewrite (proj2 (Z.eqb_neq _ 7)) by lia. by rewrite Z.add_0_r.
  - apply bytes_at_cons in Hb as [Hb _]. rewrite u32_small, Hb, u8_small by lia.
    f_equal. lia.
Qed.

Lemma apart_same m m' a l :
  apart a -> a + zlen l <= ebx -> same_outside m m' -> bytes_at m a l -> bytes_at m' a l.
Proof.
  intros [Ha1 Ha2] Hl Hs. apply bytes_at_ext. intros x Hx. apply Hs. lia.
Qed.

Lemma token_last m edx i lit :
  dst_ok m i -> apart edx -> 0 <= i -> lit = zlen src - i -> 0 <= lit <= 270 ->
  let bs := u8 (Z.shiftl (nib lit) 3) :: tail15 lit ++ slice src i lit in
  bytes_at m edx bs -> edx + zlen bs = ebx ->
  exists m', token ebx edx (DEST + i) m = inr (DEST + zlen src, m') /\
    dst_ok m' (zlen src) /\ same_outside m m'.
Proof.
  intros Hd Ha Hi Hlit Hl bs Hb Hlen. subst bs.
  apply bytes_at_cons in Hb as [Htok Hb]. apply bytes_at_app in Hb as [Hb1 Hb2].
  pose proof (nib_range lit ltac:(lia)).
  pose proof (token_fields 0 (nib lit) 0 ltac:(lia) ltac:(lia) ltac:(lia)) as (F1 & _ & _).
  rewrite Z.shiftl_0_l, Z.lor_0_l, Z.lor_0_r in F1.
  rewrite zlen_cons, zlen_app, slice_length in Hlen by lia.
  pose proof (zlen_nonneg (tail15 lit)).
  destruct (copy_literals m i lit (edx + 1 + zlen (tail15 lit))) as (m' & Hc & Hd' & Hs);
    [lia.. | done | unfold apart in *; lia | lia | done |].
  exists m'. unfold token. rewrite Htok.
  erewrite literal_header by (done || unfold apart in *; lia).
  rewrite Hc. rewrite (proj2 (Z.leb_le ebx _)) by lia.
  replace (i + lit) with (zlen src) in * by lia. done.
Qed.

Lemma token_match m edx i lit ml off rest :
  dst_ok m i -> apart edx -> 0 <= i ->
  0 <= lit <= 270 -> 4 <= ml <= 266 -> valid_match src (i + lit) ml off -> rest <> [] ->
  let bs := token_byte lit ml off :: tail15 lit ++ slice src i lit
              ++ offset_bytes off ++ tail7 ml ++ rest in
  bytes_at m edx bs -> edx + zlen bs = ebx ->
  exists m', token ebx edx (DEST + i) m
               = inl (ebx - zlen rest, DEST + (i + lit + ml), m') /\
    dst_ok m' (i + lit + ml) /\ same_outside m m'.
Proof.
  intros Hd Ha Hi Hl Hml Hv Hr bs Hb Hlen. subst bs.
  apply bytes_at_cons in Hb as [Htok Hb]. rewrite !bytes_at_app in Hb.
  destruct Hb as (Hb1 & Hb2 & Hb3 & Hb4 & _).
  pose proof (nib_range lit ltac:(lia)). pose proof (low3_range ml ltac:(lia)).
  pose proof (token_fields (if off >? 255 then 1 else 0) (nib lit) (low3 ml)
    ltac:(destruct (off >? 255); lia) ltac:(lia) ltac:(lia)) as (F1 & F2 & F3).
  fold (token_byte lit ml off) in F1, F2, F3.
  assert (Hvl := vm_fits _ _ _ _ Hv).
  rewrite zlen_cons, !zlen_app, slice_length in * by lia.
  pose proof (zlen_nonneg (tail15 lit)). pose proof (zlen_nonneg (offset_bytes off)).
  pose proof (zlen_nonneg (tail7 ml)). pose proof (zlen_nonneg rest).
  assert (0 < zlen rest) by (destruct rest; [done | rewrite zlen_cons in *; unfold zlen; lia]).
  destruct (copy_literals m i lit (edx + 1 + zlen (tail15 lit))) as (m1 & Hc & Hd1 & Hs1);
    [lia.. | done | unfold apart in *; lia | lia | done |].
  destruct (copy_match m1 (i + lit) ml off) as (m2 & Hc2 & Hd2 & Hs2); [lia | done.. |].
  exists m2. split; [|split; [done | intros x Hx; by rewrite Hs2, Hs1]].
  unfold token. rewrite Htok.
  erewrite literal_header by (done || unfold apart in *; lia).
  rewrite Hc. rewrite (proj2 (Z.leb_gt ebx _)) by lia.
  set (esi := edx + 1 + zlen (tail15 lit) + lit) in *.
  erewrite (offset_header _ esi _ off);
    [| destruct Hv; lia | unfold apart in *; lia | lia | by rewrite F2; destruct (off >? 255)
     | eapply apart_same; [| | done | done]; unfold apart in *; lia].
  erewrite (match_header _ (esi + zlen (offset_bytes off)) _ ml);
    [| done | unfold apart in *; lia | lia | done
     | eapply apart_same; [| | done | done]; unfold apart in *; lia].
  replace (ml - 4 + 4) with ml by lia. rewrite Hc2.
  rewrite (proj2 (Z.leb_gt ebx _)) by lia. do 3 f_equal. lia.
Qed.

Lemma enc_nonempty i bs : enc src i bs -> bs <> [].
Proof. by destruct 1. Qed.

Lemma token_loop_enc fuel m edx i bs :
  enc src i bs -> dst_ok m i -> apart edx -> 0 <= i <= zlen src ->
  bytes_at m edx bs -> edx + zlen bs = ebx -> zlen bs <= Z.of_nat fuel ->
  exists m', token_loop fuel ebx edx (DEST + i) m = Ret (DEST + zlen src, m') /\
    dst_ok m' (zlen src) /\ same_outside m m'.
Proof.
  intros He. revert fuel m edx; induction He as [i lit Hlit Hl|i lit ml off rest Hl Hml Hv He IH];
    intros fuel m edx Hd Ha Hi Hb Hlen Hf.
  all: destruct fuel as [|fuel]; [rewrite zlen_cons in Hf; pose proof (zlen_nonneg (A:=Z)); exfalso;
    match type of Hf with 1 + zlen ?l <= _ => specialize (H l); lia end |]; simpl.
  - destruct (token_last m edx i lit) as (m' & -> & ?); [done || lia.. |]. by exists m'.
  - pose proof (enc_nonempty _ _ He).
    destruct (token_match m edx i lit ml off rest) as (m1 & -> & Hd1 & Hs1); [done || lia.. |].
    pose proof (vm_fits _ _ _ _ Hv).
    rewrite zlen_cons, !zlen_app in Hlen, Hf.
    pose proof (zlen_nonneg (tail15 lit)). pose proof (zlen_nonneg (offset_bytes off)).
    pose proof (zlen_nonneg (tail7 ml)). pose proof (zlen_nonneg (slice src i lit)).
    pose proof (zlen_nonneg rest).
    assert (Ha' : apart (ebx - zlen rest)) by (unfold apart in *; lia).
    destruct (IH fuel m1 (ebx - zlen rest)) as (m' & -> & Hd' & Hs'); [done | done | lia | | lia | lia |].
    + eapply apart_same; [done | lia | done |].
      apply bytes_at_cons in Hb as [_ Hb]. rewrite !bytes_at_app in Hb.
      destruct Hb as (_ & _ & _ & _ & Hb).
      match type of Hb with bytes_at _ ?a _ => by replace (ebx - zlen rest) with a by lia end.
    + exists m'. split; [done |]. split; [done |]. intros x Hx. by rewrite Hs', Hs1.
Qed.
End decode.

(** * CRC-32: the packer's nibble table against the bit-serial loop *)

Lemma land_neg_bit x p : 0 <= p < 2 ^ 32 ->
  Z.land (u32 (- Z.land x 1)) p = if Z.testbit x 0 then p else 0.
Proof.
  intros Hp. assert (Z.land x 1 = x mod 2) as -> by (apply (Z.land_ones x 1); lia).
  rewrite Zmod_odd, <- Z.bit0_odd. destruct (Z.testbit x 0); [|done].
  replace (u32 _) with (Z.ones 32) by reflexivity. rewrite Z.land_comm, Z.land_ones by lia.
  by rewrite Z.mod_small.
Qed.

Lemma crc_bit_alt x :
  crc_bit x = Z.lxor (if Z.testbit x 0 then 0xedb88320 else 0) (Z.shiftr x 1).
Proof. unfold crc_bit. by rewrite land_neg_bit by lia. Qed.

Lemma crc_bit_lxor x y : crc_bit (Z.lxor x y) = Z.lxor (crc_bit x) (crc_bit y).
Proof.
  rewrite !crc_bit_alt, Z.shiftr_lxor, Z.lxor_spec.
  apply Z.bits_inj'; intros k Hk. rewrite !Z.lxor_spec.
  destruct (Z.testbit x 0), (Z.testbit y 0); simpl; rewrite ?Z.testbit_0_l; btauto.
Qed.

Lemma crc_bits_lxor n x y :
  Nat.iter n crc_bit (Z.lxor x y) = Z.lxor (Nat.iter n crc_bit x) (Nat.iter n crc_bit y).
Proof. induction n as [|n IH]; simpl; [done |]. by rewrite IH, crc_bit_lxor. Qed.

Lemma crc_bits_shift n x : Nat.iter n crc_bit (Z.shiftl x (Z.of_nat n)) = x.
Proof.
  revert x; induction n as [|n IH]; intros x; [apply Z.shiftl_0_r |].
  rewrite Nat.iter_succ_r, crc_bit_alt, Z.shiftl_spec_low by lia.
  rewrite Z.lxor_0_l, Z.shiftr_shiftl_l by lia.
  by replace (Z.of_nat (S n) - 1) with (Z.of_nat n) by lia.
Qed.

Lemma nibble_step_bits x : nibble_step x = Nat.iter 4 crc_bit x.
Proof.
  assert (Hx : x = Z.lxor (Z.shiftl (Z.shiftr x 4) (Z.of_nat 4)) (Z.land x 0x0F)).
  { apply Z.bits_inj'; intros k Hk. change 0x0F with (Z.ones 4). rewrite Z.lxor_spec, Z.land_spec.
    destruct (decide (k < 4)).
    - rewrite Z.shiftl_spec_low, Z.ones_spec_low by lia. btauto.
    - rewrite Z.shiftl_spec, Z.shiftr_spec, Z.ones_spec_high by lia.
      replace (k - Z.of_nat 4 + 4) with k by lia. btauto. }
  rewrite Hx at 2. rewrite crc_bits_lxor, crc_bits_shift. unfold nibble_step. f_equal.
  assert (Ht : forallb (fun v => tab.[v] =? Nat.iter 4 crc_bit v) (seqZ 0 16) = true)
    by (vm_compute; reflexivity).
  apply Z.eqb_eq. apply (seqZ_forallb _ _ (Z.land x 0x0F) Ht).
  change 0x0F with (Z.ones 4). rewrite Z.land_ones by lia. apply Z.mod_pos_bound. lia.
Qed.

Lemma crc_byte_nibble crc b :
  crc_byte crc b = nibble_step (nibble_step (Z.lxor crc b)).
Proof.
  unfold crc_byte. change 8%nat with (4 + 4)%nat. rewrite Nat.iter_add, !nibble_step_bits.
  reflexivity.
Qed.

Lemma crc_loop_spec src m fuel k eax :
  DEST + zlen src < 2 ^ 32 -> dst_ok src m (zlen src) ->
  0 <= k <= zlen src -> zlen src - k <= Z.of_nat fuel ->
  crc_loop fuel (DEST + k) (DEST + zlen src) eax m =
    Ret (foldl (fun crc b => nibble_step (nibble_step (Z.lxor crc b))) eax (drop (Z.to_nat k) src)).
Proof.
  intros Hw Hd. revert k eax; induction fuel as [|fuel IH]; intros k eax Hk Hf; simpl;
    destruct (Z.eqb_spec (DEST + k) (DEST + zlen src)) as [E|E].
  1, 3: rewrite drop_ge by (unfold zlen in *; lia); done.
  - lia.
  - unfold DEST in *. rewrite u32_small by lia.
    replace (0xf000 + k + 1) with (0xf000 + (k + 1)) by lia. rewrite IH by lia.
    rewrite (drop_S src src.[k] (Z.to_nat k)) by (apply aget_lookup; lia).
    pose proof (Hd k ltac:(lia)) as Hm. unfold DEST in Hm.
    rewrite Hm, crc_byte_nibble. simpl. do 3 f_equal. lia.
Qed.

(** Evaluates the bits of numerals. *)
Ltac testbit_const :=
  repeat match goal with
  | |- context [Z.testbit ?c ?i] =>
      let r := eval vm_compute in (Z.testbit c i) in
      match r with
      | true => change (Z.testbit c i) with true
      | false => change (Z.testbit c i) with false
      end
  end.

(** Byte [k] of [v] is byte [3 - k] of [endswap32 v]. *)
Lemma endswap32_byte v k :
  k = 0 \/ k = 8 \/ k = 16 \/ k = 24 ->
  u8 (Z.shiftr (endswap32 v) (24 - k)) = u8 (Z.shiftr v k).
Proof.
  intros Hk. unfold u8, wrap. apply Z.bits_inj'; intros b Hb.
  destruct (decide (b < 8)); [|by rewrite !Z.mod_pow2_bits_high by lia].
  rewrite !Z.mod_pow2_bits_low, !Z.shiftr_spec by lia. unfold endswap32.
  rewrite !Z.lor_spec, !Z.land_spec.
  assert (b = 0 \/ b = 1 \/ b = 2 \/ b = 3 \/ b = 4 \/ b = 5 \/ b = 6 \/ b = 7) as Hb8 by lia.
  destruct_or! Hk; destruct_or! Hb8; subst k b; testbit_const;
    rewrite ?andb_false_r, ?andb_true_r, ?orb_false_r, ?orb_false_l, ?Z.shiftr_spec, ?Z.shiftl_spec by lia;
    done.
Qed.

(** The header written by [main] is read back by [_start], on either host. *)
Lemma crc_header_load big v crc m a :
  0 <= v < 2 ^ 32 -> ENDSWAP big 4 v = Ret crc -> bytes_at m a (uint32_bytes big crc) ->
  load32 m a = v.
Proof.
  intros Hv He Hb.
  assert (Hle : bytes_at m a (uint32_bytes false v)).
  { destruct big; simplify_eq/=; [|done]. revert Hb. unfold uint32_bytes. simpl.
    rewrite !bytes_at_cons. intros (H0 & H1 & H2 & H3 & _).
    split_and!; try apply bytes_at_nil;
      (rewrite H0 || rewrite H1 || rewrite H2 || rewrite H3);
      [exact (endswap32_byte v 0 ltac:(lia)) | exact (endswap32_byte v 8 ltac:(lia))
       | exact (endswap32_byte v 16 ltac:(lia)) | exact (endswap32_byte v 24 ltac:(lia))]. }
  revert Hle. unfold uint32_bytes, load32. rewrite !bytes_at_cons.
  replace (a + 1 + 1) with (a + 2) by lia. replace (a + 2 + 1) with (a + 3) by lia.
  intros (-> & -> & -> & -> & _). unfold u8, wrap.
  rewrite !Z.shiftr_div_pow2, !Z.shiftl_mul_pow2 by lia.
  change (2 ^ 8) with 256. change (2 ^ 16) with (256 * 256). change (2 ^ 24) with (256 * 256 * 256).
  rewrite <- !Z.div_div by lia.
  pose proof (Z.div_mod v 256 ltac:(lia)). pose proof (Z.div_mod (v / 256) 256 ltac:(lia)).
  pose proof (Z.div_mod (v / 256 / 256) 256 ltac:(lia)).
  assert (v / 256 / 256 / 256 < 256).
  { rewrite !Z.div_div by lia. apply Z.div_lt_upper_bound; lia. }
  rewrite (Z.mod_small (v / 256 / 256 / 256)); [lia |].
  split; [|done]. rewrite !Z.div_div by lia. apply Z.div_pos; lia.
Qed.

Lemma crc32_nibble_range data : 0 <= crc32_nibble data < 2 ^ 32.
Proof. apply u32_bound. Qed.

(** * Theorems *)

Lemma main_file qsort big ok src file :
  main qsort big ok src = Ret (Some file) ->
  exists crc out, file = uint32_bytes big crc ++ out /\
    ENDSWAP big 4 (crc32_nibble src) = Ret crc /\ enc src 0 out.
Proof.
  unfold main. case_if; [done |].
  destruct (limlzpack _ _ _ _) as [[out|]| |] eqn:E; simpl; try done.
  apply limlzpack_enc in E.
  destruct (ENDSWAP _ _ _) as [crc| |] eqn:Ec; simpl; try done.
  intros [= <-]. eauto.
Qed.

(** C1: the stage2 file that [limlzpack] writes, placed anywhere in memory below 4 GiB that
    does not overlap the 0xf000 target, makes the decompressor verify the CRC and jump to
    0xf000 with exactly the packer's input there and no other byte of memory changed:
    for every input, every [qsort] and hosts of either byte order. *)
Theorem stage2_roundtrip qsort big ok src file m base fuel :
  main qsort big ok src = Ret (Some file) ->
  bytes_at m base file ->
  0 <= base -> base + zlen file < 2 ^ 32 -> DEST + zlen src < 2 ^ 32 ->
  base + zlen file <= DEST \/ DEST + zlen src <= base ->
  zlen file + zlen src <= Z.of_nat fuel ->
  exists m', start fuel base (zlen file) m = Ret (Jump m') /\
    load_bytes m' DEST (length src) = src /\
    forall x, ~ DEST <= x < DEST + zlen src -> m' x = m x.
Proof.
  intros Hmain Hb H0 Hw Hd Hsep Hf.
  apply main_file in Hmain as (crc & out & -> & Hcrc & He).
  apply bytes_at_app in Hb as [Hb1 Hb2].
  assert (Hu : zlen (uint32_bytes big crc) = 4) by by destruct big.
  rewrite zlen_app, Hu in *. pose proof (zlen_nonneg out). pose proof (zlen_nonneg src).
  unfold start. rewrite (crc_header_load big (crc32_nibble src) crc m base)
    by (done || apply crc32_nibble_range).
  rewrite (u32_small (base + (4 + _))), (u32_small (base + 4)) by lia.
  destruct (token_loop_enc src (base + (4 + zlen out)) ltac:(lia) Hd fuel m (base + 4) 0 out)
    as (m' & Ht & Hok & Hs); [done | intros k; lia | unfold apart; lia | lia | done | lia | lia |].
  rewrite Z.add_0_r in Ht. rewrite Ht. simpl.
  pose proof (crc_loop_spec src m' fuel 0 (u32 (-1)) Hd Hok ltac:(lia) ltac:(lia)) as Hc.
  rewrite Z.add_0_r in Hc. rewrite Hc. simpl.
  replace (crc32_nibble src) with (u32 (Z.lnot (foldl (fun crc b => nibble_step (nibble_step (Z.lxor crc b)))
    (u32 (-1)) src))) by reflexivity.
  rewrite Z.eqb_refl. exists m'. split; [done |]. split; [|done].
  apply load_bytes_at. intros k b Hk. rewrite Hok by (apply lookup_lt_Some in Hk; unfold zlen; lia).
  unfold aget. rewrite Nat2Z.id. by apply list_lookup_total_correct.
Qed.

Definition sample : list Z := [7; 1; 2; 3; 4; 5; 1; 2; 3; 4; 5; 1; 2; 3; 4; 5; 9; 9; 9; 9; 9; 9].
Definition sample_file : list Z :=
  Eval vm_compute in
    match main insertion_sort false true sample with Ret (Some f) => f | _ => [] end.

Lemma stage2_roundtrip_witness :
  exists m', start 100 0x80000 (zlen sample_file) (mem_of 0x80000 sample_file) = Ret (Jump m') /\
    load_bytes m' DEST (length sample) = sample /\
    forall x, ~ DEST <= x < DEST + zlen sample -> m' x = mem_of 0x80000 sample_file x.
Proof.
  apply (stage2_roundtrip insertion_sort false true sample sample_file).
  - vm_compute. reflexivity.
  - apply bytes_at_mem_of.
  - lia.
  - vm_compute. reflexivity.
  - vm_compute. reflexivity.
  - right. vm_compute. discriminate.
  - vm_compute. discriminate.
Defined.

(** With a [qsort] that meets the C standard, the packer terminates on every input of
    bytes up to 1 GiB (it returns the packed bytes or its failure value 0, and never panics). *)
Theorem limlzpack_terminates qsort `{!QsortSpec qsort} ok cap src :
  Forall is_byte src -> zlen src <= 2 ^ 30 ->
  exists r, limlzpack qsort ok cap src = Ret r.
Proof.
  intros Hb Hn. unfold limlzpack. destruct (Z.eqb_spec (zlen src) 0) as [|Hne]; [by eauto |].
  pose proof (zlen_nonneg src). case_if; [by eauto |].
  destruct (saca_sorts qsort src ltac:(lia) Hb) as (sa & Hsa & _).
  destruct (longest_matches qsort ok src (zlen src) (replicate (length src) (MC 0 0)))
    as [[mch|]| |] eqn:Em; simpl; [|by eauto |..].
  2, 3: unfold longest_matches in Em; rewrite (proj2 (Z.eqb_neq _ 0)), Hsa in Em by lia;
    by destruct (negb ok).
  apply longest_matches_ok in Em; [|by rewrite length_replicate | by intros ->].
  assert (Hst := dp_run_ok src mch Em). set (st := for_down _ _ _) in *.
  pose proof (emit_loop_spec src cap (d_pick st) (length src) 0 [] (dp_pick _ _ _ Hst)) as He.
  specialize (He ltac:(unfold zlen; lia) ltac:(unfold zlen; lia)).
  destruct (emit_loop _ _ _ _ _ _ _) as [[[o [|]]|]| |]; simpl; [by eauto.. | done | done].
Qed.

Lemma limlzpack_terminates_witness :
  exists r, limlzpack insertion_sort true 100 sample = Ret r.
Proof.
  apply (limlzpack_terminates insertion_sort true 100 sample).
  - repeat constructor; unfold is_byte; lia.
  - vm_compute. discriminate.
Defined.

(** The packer's table-driven CRC is the decompressor's bit-serial CRC-32 of the same
    bytes ("same result", says the comment on [crc32_nibble]). *)
Theorem crc32_nibble_bitwise data :
  crc32_nibble data = u32 (Z.lnot (foldl crc_byte (u32 (-1)) data)).
Proof.
  unfold crc32_nibble. do 2 f_equal. change (u32 (Z.lnot 0)) with (u32 (-1)).
  generalize (u32 (-1)). induction data as [|b data IH]; intros crc; simpl; [done |].
  by rewrite crc_byte_nibble.
Qed.

(** * A limit of the packer *)

(** An input of 290 bytes that has an encoding of 281 bytes. *)
Definition overflow_input : list Z :=
  seqZ 0 8 ++ seqZ 0 8 ++ seqZ 8 248 ++ ((fun t => 254 - 2 * t) <$> seqZ 0 22) ++ seqZ 0 4.
Definition overflow_encoding : list Z :=
  [token_byte 8 8 8] ++ seqZ 0 8 ++ offset_bytes 8
  ++ [token_byte 270 4 286; 255] ++ seqZ 8 248 ++ ((fun t => 254 - 2 * t) <$> seqZ 0 22)
  ++ offset_bytes 286 ++ [0].

(** [dp] marks a position without an encoding with the cost [(size_t)-1], and adding to
    it wraps around: the packer then prefers such a position, and fails on an input that has
    an encoding shorter than the input. *)
Theorem limlzpack_cost_overflow :
  limlzpack insertion_sort true (2 * zlen overflow_input) overflow_input = Ret None /\
  enc overflow_input 0 overflow_encoding /\ zlen overflow_encoding < zlen overflow_input.
Proof.
  split; [vm_compute; reflexivity |]. split; [|vm_compute; reflexivity].
  assert (Heq : forall i len off, forallb (fun t => overflow_input.[i + t] =? overflow_input.[i + t - off])
      (seqZ 0 len) = true -> forall t, 0 <= t < len -> overflow_input.[i + t] = overflow_input.[i + t - off]).
  { intros i len off H t Ht. apply Z.eqb_eq. by apply (seqZ_forallb _ _ t H). }
  assert (Hl : enc overflow_input 290 [0]) by (apply (enc_last _ 290 0); [vm_compute; reflexivity | lia]).
  assert (Hm2 := enc_match overflow_input 16 270 4 286 [0] ltac:(lia) ltac:(lia)).
  assert (Hm1 := fun rest => enc_match overflow_input 0 8 8 8 rest ltac:(lia) ltac:(lia)).
  specialize (Hm2 ltac:(split; [lia.. | vm_compute; discriminate | apply Heq; vm_compute; reflexivity]) Hl).
  specialize (Hm1 _ ltac:(split; [lia.. | vm_compute; discriminate | apply Heq; vm_compute; reflexivity]) Hm2).
  match type of Hm1 with enc _ _ ?l =>
    by replace overflow_encoding with l by (vm_compute; reflexivity) end.
Qed.
