(* ===== verification/Pmm.v ===== *)
(** The physical memory map and its allocators: [common/mm/pmm.s2.c], the entry
    type and the memory types of [common/mm/pmm.h], and [common/mm/pmm.c]'s
    [check_usable_memory]. *)

From S2P Require Import Prelude.

Module Pmm.

(** * Data *)

Definition PAGE_SIZE : Z := 4096.

Definition MEMMAP_USABLE : Z := 1.
Definition MEMMAP_RESERVED : Z := 2.
Definition MEMMAP_ACPI_RECLAIMABLE : Z := 3.
Definition MEMMAP_ACPI_NVS : Z := 4.
Definition MEMMAP_BAD_MEMORY : Z := 5.
Definition MEMMAP_BOOTLOADER_RECLAIMABLE : Z := 0x1000.
Definition MEMMAP_KERNEL_AND_MODULES : Z := 0x1001.
Definition MEMMAP_FRAMEBUFFER : Z := 0x1002.
Definition MEMMAP_RESERVED_MAPPED : Z := 0x1003.
Definition MEMMAP_EFI_RECLAIMABLE : Z := 0x2000.

(** [struct memmap_entry]; the [unused] field is padding no code reads. *)
Record entry := ME { e_base : Z; e_length : Z; e_type : Z }.
#[export] Instance entry_inh : Inhabited entry := populate (ME 0 0 0).
#[export] Instance entry_eq_dec : EqDecision entry.
Proof. solve_decision. Defined.

(** A map [m] with its count is the list of its first [count] entries. *)
Definition is_usable (e : entry) : bool := e.(e_type) =? MEMMAP_USABLE.

(** * [pmm_sanitise_entries] *)

(** [align_entry]: [None] is [false]. *)
Definition align_entry (base length : Z) : option (Z * Z) :=
  if length <? PAGE_SIZE then None
  else
    new_base ← ALIGN_UP base PAGE_SIZE;
    let length := u64 (length - (new_base - base)) in
    let length := ALIGN_DOWN length PAGE_SIZE in
    if length =? 0 then None else Some (new_base, length).

(** How the loop over [j] can end early. *)
Inductive clip_exit :=
| Break (m : list entry)
| GotoDel (m : list entry)
| NestedPanic.

(** One iteration over [j]: clip the usable entry [m[i]] against [m[j]]. *)
Definition clip_body (i j : Z) (m : list entry) : list entry + clip_exit :=
  if j =? i then inl m
  else
    let '(ME base length ty) := m.[i] in
    match CHECKED_ADD base length with
    | None => inr (GotoDel m)
    | Some top =>
        let '(ME res_base res_length _) := m.[j] in
        match CHECKED_ADD res_base res_length with
        | None => inl m
        | Some res_top =>
            if (res_base <=? base) && (res_top >=? top)
            then inr (Break m.[i := ME top 0 ty])
            else if ((res_base >=? base) && (res_base <? top))
                    && ((res_top >=? base) && (res_top <? top))
            then inr NestedPanic
            else
              let top := if (res_base >=? base) && (res_base <? top) then res_base else top in
              let base := if (res_top >=? base) && (res_top <? top) then res_top else base in
              inl m.[i := ME base (u64 (top - base)) ty]
        end
    end.

(** "Remove i from memmap": the last entry takes its place. *)
Definition remove_entry (m : list entry) (i : Z) : list entry :=
  let count := zlen m in
  let m := if i <? count - 1 then m.[i := m.[count - 1]] else m in
  take (Z.to_nat (count - 1)) m.

(** The first loop: clip the usable entries, restarting after each removal. *)
Fixpoint clip_usable (fuel : nat) (align_entries : bool) (m : list entry) (i : Z)
    : outcome (list entry) :=
  match fuel with
  | O => Diverge
  | S fuel =>
      if i <? zlen m then
        if negb (is_usable m.[i]) then clip_usable fuel align_entries m (i + 1)
        else
          match for_exit (length m) 0 (clip_body i) m with
          | inr NestedPanic => Panic
          | inr (GotoDel m) => clip_usable fuel align_entries (remove_entry m i) 0
          | inl m | inr (Break m) =>
              let '(ME base length ty) := m.[i] in
              if length =? 0 then clip_usable fuel align_entries (remove_entry m i) 0
              else if align_entries then
                match align_entry base length with
                | None => clip_usable fuel align_entries (remove_entry m i) 0
                | Some (base, length) =>
                    clip_usable fuel align_entries m.[i := ME base length ty] (i + 1)
                end
              else clip_usable fuel align_entries m (i + 1)
          end
      else Ret m
  end.

(** The second loop's body on [m[i]]: [None] is [goto del_mm1]. *)
Definition clip_first_page (keep_first_page : bool) (e : entry) : option entry :=
  if is_usable e && negb keep_first_page && (e.(e_base) <? 0x1000) then
    entry_top ← CHECKED_ADD e.(e_base) e.(e_length);
    if entry_top <=? 0x1000 then None
    else Some (ME 0x1000 (u64 (e.(e_length) - (0x1000 - e.(e_base)))) e.(e_type))
  else Some e.

Fixpoint drop_empty (fuel : nat) (keep_first_page : bool) (m : list entry) (i : Z)
    : outcome (list entry) :=
  match fuel with
  | O => Diverge
  | S fuel =>
      if i <? zlen m then
        match clip_first_page keep_first_page m.[i] with
        | None => drop_empty fuel keep_first_page (remove_entry m i) i
        | Some e =>
            if e.(e_length) =? 0 then drop_empty fuel keep_first_page (remove_entry m i) i
            else drop_empty fuel keep_first_page m.[i := e] (i + 1)
        end
      else Ret m
  end.

(** "Sort the entries": selection sort by base. *)
Definition min_index (m : list entry) (p : Z) : Z :=
  (for_up (Z.to_nat (zlen m - p)) p
     (fun i '(min, min_index) =>
        if e_base m.[i] <? min then (e_base m.[i], i) else (min, min_index))
     (e_base m.[p], p)).2.

Definition sort_step (p : Z) (m : list entry) : list entry :=
  let k := min_index m p in
  let min_e := m.[k] in
  (m.[k := m.[p]]).[p := min_e].

Definition sort_entries (m : list entry) : list entry := for_up (length m - 1) 0 sort_step m.

Definition mergeable (ty : Z) : bool :=
  (ty =? MEMMAP_BOOTLOADER_RECLAIMABLE) || (ty =? MEMMAP_RESERVED_MAPPED) || (ty =? MEMMAP_USABLE).

(** "Merge contiguous bootloader-reclaimable, reserved (mapped), usable entries". *)
Fixpoint merge_entries (fuel : nat) (m : list entry) (i : Z) : outcome (list entry) :=
  match fuel with
  | O => Diverge
  | S fuel =>
      if i + 1 <? zlen m then
        let '(ME base length ty) := m.[i] in
        let '(ME nbase nlength nty) := m.[i + 1] in
        if negb (mergeable ty) then merge_entries fuel m (i + 1)
        else
          match CHECKED_ADD base length with
          | None => merge_entries fuel m (i + 1)
          | Some merge_top =>
              if (nty =? ty) && (nbase =? merge_top) then
                match CHECKED_ADD length nlength with
                | None => merge_entries fuel m (i + 1)
                | Some len =>
                    merge_entries fuel
                      (take (Z.to_nat (i + 1)) m.[i := ME base len ty]
                         ++ drop (Z.to_nat (i + 2)) m) i
                end
              else merge_entries fuel m (i + 1)
          end
      else Ret m
  end.

Definition sanitise_fuel (m : list entry) : nat := S (length m * S (length m) + length m).

Definition pmm_sanitise_entries (keep_first_page align_entries : bool) (m : list entry)
    : outcome (list entry) :=
  m ← clip_usable (sanitise_fuel m) align_entries m 0;
  m ← drop_empty (S (length m)) keep_first_page m 0;
  let m := sort_entries m in
  merge_entries (S (length m)) m 0.

(** * [pmm_new_entry], [memmap_alloc_range_in], [pmm_check_type] *)

(** The loop over the overlapped entries. *)
Fixpoint carve (fuel : nat) (max_entries base top : Z) (m : list entry) (i : Z)
    : outcome (list entry) :=
  match fuel with
  | O => Diverge
  | S fuel =>
      if i <? zlen m then
        let '(ME entry_base length ty) := m.[i] in
        match CHECKED_ADD entry_base length with
        | None => carve fuel max_entries base top m (i + 1)
        | Some entry_top =>
            if (base <=? entry_base) && (top >=? entry_top)
            then carve fuel max_entries base top (remove_entry m i) i
            else if (base <=? entry_base) && (top <? entry_top) && (top >? entry_base)
            then carve fuel max_entries base top
                   m.[i := ME (u64 (entry_base + (top - entry_base)))
                             (u64 (length - (top - entry_base))) ty] (i + 1)
            else if (base >? entry_base) && (base <? entry_top) && (top >=? entry_top)
            then carve fuel max_entries base top
                   m.[i := ME entry_base (u64 (length - (entry_top - base))) ty] (i + 1)
            else if (base >? entry_base) && (top <? entry_top)
            then
              let m := m.[i := ME entry_base (u64 (length - (entry_top - base))) ty] in
              if zlen m >=? max_entries then Panic
              else carve fuel max_entries base top (m ++ [ME top (entry_top - top) ty]) (i + 1)
            else carve fuel max_entries base top m (i + 1)
        end
      else Ret m
  end.

Definition pmm_new_entry (max_entries : Z) (m : list entry) (base length type : Z)
    : outcome (list entry) :=
  top ← or_panic (CHECKED_ADD base length);
  m ← carve (S (2 * List.length m)) max_entries base top m 0;
  if zlen m >=? max_entries then Panic
  else Ret (m ++ [ME base length type]).

Fixpoint check_type (m : list entry) (addr : Z) : Z :=
  match m with
  | [] => UINT64_MAX
  | ME base length ty :: m =>
      match CHECKED_ADD base length with
      | None => check_type m addr
      | Some entry_top =>
          if (addr >=? base) && (addr <? entry_top) then ty else check_type m addr
      end
  end.

(** The search loop of [memmap_alloc_range_in]: does an entry of the overlay type
    (any type when it is 0) contain the range? *)
Definition range_fits (overlay_type base top : Z) (e : entry) : bool :=
  if negb (overlay_type =? 0) && negb (e.(e_type) =? overlay_type) then false
  else
    match CHECKED_ADD e.(e_base) e.(e_length) with
    | None => false
    | Some entry_top =>
        (base >=? e.(e_base)) && (base <? entry_top) && (top <=? entry_top)
    end.

(** [memmap_alloc_range_in]: the return value and the new map. [pmm_new_entry]
    returns [true] whenever it returns. *)
Definition memmap_alloc_range_in (keep_first_page : bool) (max_entries : Z) (m : list entry)
    (base length type overlay_type : Z) (do_panic simulation new_entry : bool)
    : outcome (bool * list entry) :=
  if length =? 0 then Ret (true, m)
  else if simulation && new_entry then Ret (true, m)
  else
    match CHECKED_ADD base length with
    | None => if do_panic then Panic else Ret (false, m)
    | Some top =>
        let success :=
          m ← pmm_new_entry max_entries m base length type;
          m ← pmm_sanitise_entries keep_first_page false m;
          Ret (true, m) in
        if existsb (range_fits overlay_type base top) m then
          if simulation then Ret (true, m) else success
        else if new_entry then success
        else if do_panic then Panic
        else Ret (false, m)
    end.

(** * The allocator state *)

(** The globals of [pmm.s2.c]: [memmap] (with [memmap_entries], its length),
    [memmap_max_entries], [allocations_disallowed],
    [pmm_sanitiser_keep_first_page], the static [base] of [conv_mem_alloc], and
    physical memory. *)
Record state := {
  memmap : list entry;
  max_entries : Z;
  allocations_disallowed : bool;
  keep_first_page : bool;
  conv_base : Z;
  ram : mem;
}.

Definition set_memmap (st : state) (m : list entry) : state :=
  {| memmap := m; max_entries := st.(max_entries);
     allocations_disallowed := st.(allocations_disallowed);
     keep_first_page := st.(keep_first_page); conv_base := st.(conv_base); ram := st.(ram) |}.
Definition set_ram (st : state) (r : mem) : state :=
  {| memmap := st.(memmap); max_entries := st.(max_entries);
     allocations_disallowed := st.(allocations_disallowed);
     keep_first_page := st.(keep_first_page); conv_base := st.(conv_base); ram := r |}.
Definition set_conv_base (st : state) (b : Z) : state :=
  {| memmap := st.(memmap); max_entries := st.(max_entries);
     allocations_disallowed := st.(allocations_disallowed);
     keep_first_page := st.(keep_first_page); conv_base := b; ram := st.(ram) |}.
Definition disallow (st : state) (b : bool) : state :=
  {| memmap := st.(memmap); max_entries := st.(max_entries);
     allocations_disallowed := b;
     keep_first_page := st.(keep_first_page); conv_base := st.(conv_base); ram := st.(ram) |}.

Definition pmm_check_type (st : state) (addr : Z) : Z := check_type st.(memmap) addr.

Definition memmap_alloc_range (st : state) (base length type overlay_type : Z)
    (do_panic simulation new_entry : bool) : outcome (bool * state) :=
  '(b, m) ← memmap_alloc_range_in st.(keep_first_page) st.(max_entries) st.(memmap)
              base length type overlay_type do_panic simulation new_entry;
  Ret (b, set_memmap st m).

Definition sanitise (st : state) (align_entries : bool) : outcome state :=
  m ← pmm_sanitise_entries st.(keep_first_page) align_entries st.(memmap);
  Ret (set_memmap st m).

(** * Allocation *)

(** The search of [ext_mem_alloc_type_aligned_mode] below [limit], from the last of
    the first [n] entries down: [(alloc_base, entry_top)]. *)
Fixpoint find_free (n : nat) (m : list entry) (limit count alignment : Z) : option (Z * Z) :=
  match n with
  | O => None
  | S n =>
      let e := m.[Z.of_nat n] in
      let found :=
        if negb (is_usable e) then None
        else
          entry_top ← CHECKED_ADD e.(e_base) e.(e_length);
          let top := if entry_top >? limit then limit else entry_top in
          if (entry_top >? limit) && (e.(e_base) >=? top) then None
          else if top - e.(e_base) <? count then None
          else
            let alloc_base := ALIGN_DOWN (top - count) alignment in
            if alloc_base <? e.(e_base) then None else Some (alloc_base, top) in
      match found with
      | Some r => Some r
      | None => find_free n m limit count alignment
      end
  end.

(** The x86 build: [i386] says whether it is the 32-bit one, in which a high
    allocation is not cleared (and is returned through a pointer to a 64-bit
    static: here, in both builds, the address itself is returned). *)
Definition ext_mem_alloc_type_aligned_mode (i386 : bool) (st : state)
    (count type alignment : Z) (allow_high_allocs : bool) : outcome (Z * state) :=
  count ← or_panic (CHECKED_ADD count (alignment - 1));
  let count := ALIGN_DOWN count alignment in
  if st.(allocations_disallowed) then Panic
  else
    let n := length st.(memmap) in
    let found :=
      match find_free n st.(memmap) 0x100000000 count alignment with
      | Some r => Some r
      | None =>
          if allow_high_allocs then find_free n st.(memmap) UINT64_MAX count alignment else None
      end in
    '(alloc_base, entry_top) ← or_panic found;
    '(_, st) ← memmap_alloc_range st alloc_base (entry_top - alloc_base) type MEMMAP_USABLE
                 true false false;
    let st := if i386 && allow_high_allocs then st
              else set_ram st (mem_fill st.(ram) alloc_base 0 count) in
    st ← sanitise st false;
    Ret (alloc_base, st).

Definition ext_mem_alloc_type_aligned (i386 : bool) (st : state) (count type alignment : Z) :=
  ext_mem_alloc_type_aligned_mode i386 st count type alignment false.
Definition ext_mem_alloc_type (i386 : bool) (st : state) (count type : Z) :=
  ext_mem_alloc_type_aligned i386 st count type 4096.
Definition ext_mem_alloc (i386 : bool) (st : state) (count : Z) :=
  ext_mem_alloc_type i386 st count MEMMAP_BOOTLOADER_RECLAIMABLE.
Definition ext_mem_alloc_counted (i386 : bool) (st : state) (count elem_size : Z)
    : outcome (Z * state) :=
  n ← or_panic (CHECKED_MUL count elem_size); ext_mem_alloc i386 st n.

(** [conv_mem_alloc]: tries every page below 1 MiB from the static [base] on. *)
Fixpoint conv_loop (fuel : nat) (st : state) (count : Z) : outcome (Z * state) :=
  match fuel with
  | O => Diverge
  | S fuel =>
      let base := st.(conv_base) in
      if u64 (base + count) >? 0x100000 then Panic
      else
        '(ok, st) ← memmap_alloc_range st base count MEMMAP_BOOTLOADER_RECLAIMABLE MEMMAP_USABLE
                      false false false;
        if ok : bool then
          let st := set_ram st (mem_fill st.(ram) base 0 count) in
          let st := set_conv_base st (u64 (base + count)) in
          st ← sanitise st false;
          Ret (base, st)
        else conv_loop fuel (set_conv_base st (u64 (base + 4096))) count
  end.

(** The bound on the iterations: see [conv_loop_lemma]. *)
Definition conv_fuel : nat := 516.

Definition conv_mem_alloc (st : state) (count : Z) : outcome (Z * state) :=
  if st.(allocations_disallowed) then Panic
  else
    count ← or_panic (ALIGN_UP count 4096);
    conv_loop conv_fuel st count.

Definition pmm_free (st : state) (ptr count : Z) : outcome state :=
  if negb (ptr mod 4096 =? 0) then Panic
  else
    count ← or_panic (ALIGN_UP count 4096);
    if st.(allocations_disallowed) then Panic
    else
      '(_, st) ← memmap_alloc_range st ptr count MEMMAP_USABLE 0 false false true;
      Ret st.

(** [pmm_realloc]: [NULL] is 0. *)
Definition pmm_realloc (i386 : bool) (st : state) (old_ptr old_size new_size : Z)
    : outcome (Z * state) :=
  if new_size =? 0 then
    if negb (old_ptr =? 0) then st ← pmm_free st old_ptr old_size; Ret (0, st)
    else Ret (0, st)
  else if old_ptr =? 0 then ext_mem_alloc i386 st new_size
  else
    '(new_ptr, st) ← ext_mem_alloc i386 st new_size;
    let st := set_ram st (mem_copy st.(ram) new_ptr old_ptr
                            (if new_size >? old_size then old_size else new_size)) in
    st ← pmm_free st old_ptr old_size;
    Ret (new_ptr, st).

(** * Start-up (BIOS) and hand-over *)

(** The loop body of the BIOS [init_memmap] on one E820 entry: [None] is [continue]. *)
Definition e820_entry (ebda : Z) (e : entry) : option entry :=
  let '(ME base length ty) := e in
  top ← CHECKED_ADD base length;
  if ty =? MEMMAP_USABLE then
    if (base >=? ebda) && (base <? 0x100000) && (top <=? 0x100000) then None
    else
      let '(base, length) :=
        if (base >=? ebda) && (base <? 0x100000)
        then (0x100000, u64 (length - (0x100000 - base))) else (base, length) in
      let length :=
        if (top >? ebda) && (top <=? 0x100000) then u64 (length - (top - ebda)) else length in
      Some (ME base length ty)
  else Some e.

Fixpoint init_entries (ebda max : Z) (e820_map : list entry) (m : list entry)
    : outcome (list entry) :=
  match e820_map with
  | [] => Ret m
  | e :: e820_map =>
      if zlen m =? max then Panic
      else
        match e820_entry ebda e with
        | None => init_entries ebda max e820_map m
        | Some e => init_entries ebda max e820_map (m ++ [e])
        end
  end.

Definition init_memmap (ebda bss_end : Z) (e820_map : list entry) (st : state) : outcome state :=
  m ← init_entries ebda st.(max_entries) e820_map st.(memmap);
  st ← sanitise (set_memmap st m) false;
  bl_end ← or_panic (ALIGN_UP bss_end 4096);
  '(_, st) ← memmap_alloc_range st 4096 (bl_end - 4096) MEMMAP_BOOTLOADER_RECLAIMABLE 0
               true false false;
  st ← sanitise st false;
  Ret (disallow st false).

(** [get_memmap], BIOS build. *)
Definition get_memmap (st : state) : outcome (list entry * state) :=
  st ← sanitise st true;
  Ret (st.(memmap), disallow st true).

(** * Queries *)

(** One pass of the [do ... while (progress)] loop of [mmap_get_info]. *)
Definition info_step (s : Z * Z * bool) (e : entry) : Z * Z * bool :=
  let '(lower_end, upper_end, progress) := s in
  if negb (is_usable e) then s
  else
    match CHECKED_ADD e.(e_base) e.(e_length) with
    | None => s
    | Some top =>
        let '(lower_end, progress) :=
          if (e.(e_base) <=? lower_end) && (top >? lower_end) then (top, true)
          else (lower_end, progress) in
        let '(upper_end, progress) :=
          if (e.(e_base) <=? upper_end) && (top >? upper_end) then (top, true)
          else (upper_end, progress) in
        (lower_end, upper_end, progress)
    end.

Fixpoint info_loop (fuel : nat) (m : list entry) (lower_end upper_end : Z) : outcome (Z * Z) :=
  match fuel with
  | O => Diverge
  | S fuel =>
      let '(lower_end, upper_end, progress) := foldl info_step (lower_end, upper_end, false) m in
      if progress : bool then info_loop fuel m lower_end upper_end else Ret (lower_end, upper_end)
  end.

(** [mmap_get_info]: [(lowermem, uppermem)]. *)
Definition mmap_get_info (m : list entry) : outcome (Z * Z) :=
  '(lower_end, upper_end) ← info_loop (S (2 * length m)) m 0 0x100000;
  Ret (if lower_end >? 0x100000 then 0x100000 else lower_end, upper_end - 0x100000).

Definition full_overlap_check (base1 top1 base2 top2 : Z) : bool :=
  (base1 >=? base2) && (base1 <? top2) && ((top1 >? base2) && (top1 <=? top2)).

Definition real_ram (uefi : bool) (ty : Z) : bool :=
  (ty =? MEMMAP_USABLE) || (uefi && (ty =? MEMMAP_EFI_RECLAIMABLE))
  || (ty =? MEMMAP_BOOTLOADER_RECLAIMABLE) || (ty =? MEMMAP_KERNEL_AND_MODULES).

(** The loop of [check_usable_memory], with [overlap_remaining]. *)
Fixpoint usable_loop (uefi : bool) (m : list entry) (base top overlap_remaining : Z) : bool :=
  match m with
  | [] => false
  | ME ebase elength ty :: m =>
      if negb (real_ram uefi ty) then usable_loop uefi m base top overlap_remaining
      else
        match CHECKED_ADD ebase elength with
        | None => usable_loop uefi m base top overlap_remaining
        | Some memmap_top =>
            if full_overlap_check base top ebase memmap_top then true
            else if (ebase <? top) && (memmap_top >? base) then
              let overlap_bottom := if ebase >? base then ebase else base in
              let overlap_top := if memmap_top <? top then memmap_top else top in
              let overlap_remaining := u64 (overlap_remaining - (overlap_top - overlap_bottom)) in
              if overlap_remaining =? 0 then true
              else usable_loop uefi m base top overlap_remaining
            else usable_loop uefi m base top overlap_remaining
        end
  end.

Definition check_usable_memory (uefi : bool) (st : state) (base top : Z) : bool :=
  usable_loop uefi st.(memmap) base top (u64 (top - base)).

End Pmm.
