(* ===== verification/PmmMap.v ===== *)
(** Lemmas on memory maps: which addresses a map covers, with which type, and
    what [pmm_sanitise_entries] and [pmm_new_entry] do to that. *)

From S2P Require Import Prelude Pmm.
Import Pmm.

(** * Entries as address ranges *)

Definition e_top (e : entry) : Z := e_base e + e_length e.
Definition covers (e : entry) (a : Z) : Prop := e_base e <= a < e_top e.

(** No wrap-around: the invariant of every entry that reaches the map. *)
Definition fits (e : entry) : Prop := 0 <= e_base e /\ 0 <= e_length e /\ e_top e < 2 ^ 64.
Definition disj (e f : entry) : Prop := e_top e <= e_base f \/ e_top f <= e_base e.

(** [has m ty a]: some entry of type [ty] covers [a]. *)
Definition has (m : list entry) (ty a : Z) : Prop :=
  exists e, e ∈ m /\ e_type e = ty /\ covers e a.
(** Covered by an entry that is not usable. *)
Definition taken (m : list entry) (a : Z) : Prop := exists ty, ty <> MEMMAP_USABLE /\ has m ty a.

#[export] Instance has_perm : Proper (Permutation ==> eq ==> eq ==> iff) has.
Proof.
  intros m m' Hm ty _ <- a _ <-. unfold has. setoid_rewrite Hm. done.
Qed.

Lemma has_nil ty a : has [] ty a <-> False.
Proof. unfold has. split; [|done]. intros (e & He & _). by apply not_elem_of_nil in He. Qed.
Lemma has_cons e m ty a : has (e :: m) ty a <-> (e_type e = ty /\ covers e a) \/ has m ty a.
Proof.
  unfold has. split.
  - intros (f & Hf & H). apply elem_of_cons in Hf as [->|Hf]; [by left | right; eauto].
  - intros [H|(f & Hf & H)]; [exists e | exists f]; rewrite elem_of_cons; tauto.
Qed.
Lemma has_app m1 m2 ty a : has (m1 ++ m2) ty a <-> has m1 ty a \/ has m2 ty a.
Proof.
  induction m1 as [|e m1 IH]; simpl; [rewrite has_nil; tauto |]. rewrite !has_cons, IH. tauto.
Qed.

(** ** Pairs of entries *)

Lemma disj_sym e f : disj e f -> disj f e.
Proof. unfold disj. tauto. Qed.

(** A usable entry is apart from every other entry. *)
Definition udisj (e f : entry) : Prop :=
  is_usable e = true \/ is_usable f = true -> disj e f.

Class SymRel (R : entry -> entry -> Prop) : Prop := sym_rel e f : R e f -> R f e.
#[export] Instance disj_symrel : SymRel disj := disj_sym.
#[export] Instance udisj_symrel : SymRel udisj.
Proof. intros e f H Hu. apply disj_sym, H. tauto. Qed.

Fixpoint pairwise (R : entry -> entry -> Prop) (m : list entry) : Prop :=
  match m with [] => True | e :: m => Forall (R e) m /\ pairwise R m end.

Section pairwise.
Context (R : entry -> entry -> Prop) `{!SymRel R}.

#[export] Instance pairwise_perm : Proper (Permutation ==> iff) (pairwise R).
Proof.
  assert (H : forall m m', m ≡ₚ m' -> pairwise R m -> pairwise R m').
  { induction 1 as [|e m m' Hm IH|e f m|]; simpl; [done |..].
    - intros [HF Hp]. split; [by rewrite <- Hm | auto].
    - intros [HF [HF2 Hp]]. apply Forall_cons in HF as [Hef HF].
      split; [constructor; [by apply sym_rel | done] | by split].
    - auto. }
  intros m m' Hm. split; apply H; [done | by symmetry].
Qed.

Lemma pairwise_app m1 m2 :
  pairwise R (m1 ++ m2) <->
  pairwise R m1 /\ pairwise R m2 /\ Forall (fun e => Forall (R e) m2) m1.
Proof.
  induction m1 as [|e m1 IH]; simpl.
  - split; [intros; split_and!; auto | tauto].
  - rewrite Forall_app, IH, Forall_cons. tauto.
Qed.

Lemma pairwise_of_index m :
  (forall t u, 0 <= t < u -> u < zlen m -> R m.[t] m.[u]) -> pairwise R m.
Proof.
  induction m as [|e m IH]; simpl; [done |]. intros H. split.
  - apply Forall_lookup. intros k f Hk. pose proof (lookup_lt_Some _ _ _ Hk).
    specialize (H 0 (Z.of_nat (S k)) ltac:(lia) ltac:(rewrite zlen_cons; unfold zlen; lia)).
    unfold aget in H. rewrite Nat2Z.id in H. simpl in H.
    by rewrite (list_lookup_total_correct _ _ _ Hk) in H.
  - apply IH. intros t u Htu Hu. specialize (H (t + 1) (u + 1)).
    unfold aget in *. replace (Z.to_nat (t + 1)) with (S (Z.to_nat t)) in H by lia.
    replace (Z.to_nat (u + 1)) with (S (Z.to_nat u)) in H by lia.
    apply H; rewrite ?zlen_cons; lia.
Qed.
End pairwise.

Lemma pairwise_impl (R R' : entry -> entry -> Prop) m :
  (forall e f, R e f -> R' e f) -> pairwise R m -> pairwise R' m.
Proof.
  intros H. induction m as [|e m IH]; simpl; [done |]. intros [HF Hp]. split; [|auto].
  eapply Forall_impl; [done |]. auto.
Qed.

(** * Index and permutation views of an update *)

Section update.
Context (m : list entry) (i : Z).
Hypothesis (Hi : 0 <= i < zlen m).

Lemma map_split : m = take (Z.to_nat i) m ++ m.[i] :: drop (S (Z.to_nat i)) m.
Proof. symmetry. apply take_drop_middle, aget_lookup. lia. Qed.

Lemma aset_split e : m.[i := e] = take (Z.to_nat i) m ++ e :: drop (S (Z.to_nat i)) m.
Proof. unfold aset. apply insert_take_drop. unfold zlen in Hi. lia. Qed.

Lemma remove_perm_end : m ≡ₚ remove_entry m i ++ [m.[i]].
Proof.
  unfold remove_entry. set (last := zlen m - 1).
  assert (Hlast : forall (l : list entry), length l = length m ->
    take (Z.to_nat last) l ++ [m.[i]] = l.[last := m.[i]]).
  { intros l Hl. unfold aset. rewrite insert_take_drop by (unfold last, zlen in *; lia).
    by rewrite (drop_ge l (S _)) by (unfold last, zlen in *; lia). }
  destruct (Z.ltb_spec i last).
  - rewrite Hlast by apply length_aset. unfold aset at 1 2. symmetry.
    apply Permutation_insert_swap; apply aget_lookup; unfold last in *; lia.
  - rewrite Hlast by done. assert (i = last) as <- by (unfold last in *; lia).
    rewrite aset_split, <- map_split. done.
Qed.

Lemma remove_perm : m ≡ₚ m.[i] :: remove_entry m i.
Proof. rewrite remove_perm_end at 1. by rewrite Permutation_app_comm. Qed.

Lemma others_perm : remove_entry m i ≡ₚ take (Z.to_nat i) m ++ drop (S (Z.to_nat i)) m.
Proof.
  apply (Permutation_cons_inv (a := m.[i])).
  rewrite Permutation_middle, <- map_split. symmetry. apply remove_perm.
Qed.

Lemma others_elem t : 0 <= t < zlen m -> t <> i -> m.[t] ∈ remove_entry m i.
Proof.
  intros Ht Hne. rewrite others_perm. apply elem_of_app.
  destruct (decide (t < i)); [left | right].
  - apply (list_elem_of_lookup_2 _ (Z.to_nat t)). rewrite lookup_take_lt by lia. by apply aget_lookup.
  - apply (list_elem_of_lookup_2 _ (Z.to_nat t - S (Z.to_nat i))).
    rewrite lookup_drop. replace (S (Z.to_nat i) + (Z.to_nat t - S (Z.to_nat i)))%nat
      with (Z.to_nat t) by lia. by apply aget_lookup.
Qed.

Lemma others_index e : e ∈ remove_entry m i -> exists t, 0 <= t < zlen m /\ t <> i /\ m.[t] = e.
Proof.
  rewrite others_perm, elem_of_app. intros [H|H]; apply list_elem_of_lookup_1 in H as [k Hk].
  - apply lookup_take_Some in Hk as [Hk Hlt]. exists (Z.of_nat k).
    pose proof (lookup_lt_Some _ _ _ Hk). split; [unfold zlen; lia |]. split; [lia |].
    unfold aget. rewrite Nat2Z.id. by apply list_lookup_total_correct.
  - rewrite lookup_drop in Hk. exists (Z.of_nat (S (Z.to_nat i) + k)).
    pose proof (lookup_lt_Some _ _ _ Hk). split; [unfold zlen; lia |]. split; [lia |].
    unfold aget. rewrite Nat2Z.id. by apply list_lookup_total_correct.
Qed.

Lemma aset_perm e : m.[i := e] ≡ₚ e :: remove_entry m i.
Proof.
  rewrite aset_split, <- Permutation_middle. constructor. by rewrite others_perm.
Qed.

Lemma Forall_remove (P : entry -> Prop) : Forall P m -> Forall P (remove_entry m i).
Proof.
  intros HF. assert (H : Forall P (m.[i] :: remove_entry m i)) by by rewrite <- remove_perm.
  by apply Forall_cons in H as [_ ?].
Qed.

Lemma Forall_aset (P : entry -> Prop) e : P e -> Forall P m -> Forall P m.[i := e].
Proof. intros He HF. rewrite aset_perm. constructor; [done | by apply Forall_remove]. Qed.

Lemma zlen_remove : zlen (remove_entry m i) = zlen m - 1.
Proof.
  pose proof (Permutation_length remove_perm) as H. simpl in H. unfold zlen in *. lia.
Qed.

Lemma take_remove : take (Z.to_nat i) (remove_entry m i) = take (Z.to_nat i) m.
Proof.
  unfold remove_entry. rewrite take_take, Nat.min_l by lia.
  case_if; [|done]. unfold aset. apply take_insert_ge. lia.
Qed.

Lemma take_snoc : take (Z.to_nat (i + 1)) m = take (Z.to_nat i) m ++ [m.[i]].
Proof.
  replace (Z.to_nat (i + 1)) with (S (Z.to_nat i)) by lia.
  apply take_S_r, aget_lookup. lia.
Qed.

Lemma take_snoc_aset e : take (Z.to_nat (i + 1)) m.[i := e] = take (Z.to_nat i) m ++ [e].
Proof.
  replace (Z.to_nat (i + 1)) with (S (Z.to_nat i)) by lia.
  rewrite aset_split, take_app, take_take, Nat.min_r by lia.
  rewrite length_take_le by (unfold zlen in Hi; lia).
  by replace (S (Z.to_nat i) - Z.to_nat i)%nat with 1%nat by lia.
Qed.
End update.

Lemma take_all_zlen (m : list entry) i : zlen m <= i -> take (Z.to_nat i) m = m.
Proof. intros H. apply take_ge. unfold zlen in H. lia. Qed.

(** * Clipping usable entries (the first loop of [pmm_sanitise_entries]) *)

(** [e'] is part of [e]. *)
Definition sub (e' e : entry) : Prop :=
  e_type e' = e_type e /\ e_base e <= e_base e' /\ e_top e' <= e_top e /\ 0 <= e_length e'.

Lemma sub_refl e : fits e -> sub e e.
Proof. unfold sub, fits. lia. Qed.
Lemma sub_fits e' e : sub e' e -> fits e -> fits e'.
Proof. unfold sub, fits. lia. Qed.
Lemma sub_covers e' e a : sub e' e -> covers e' a -> covers e a.
Proof. unfold sub, covers. lia. Qed.
Lemma sub_disj e' e f : sub e' e -> disj e f -> disj e' f.
Proof. unfold sub, disj. lia. Qed.

(** [clipped e r e']: [e'] is what is left of [e] beside the entries [r]. *)
Record clipped (e : entry) (r : list entry) (e' : entry) : Prop := {
  cl_sub : sub e' e;
  cl_lost : forall a, covers e a -> covers e' a \/ exists ty, has r ty a;
  cl_disj : e_length e' <> 0 -> Forall (disj e') r;
}.

Section clip_one.
Context (m : list entry) (i : Z).
Hypothesis (Hfits : Forall fits m) (Hi : 0 <= i < zlen m).

(** After the entries before [j]. *)
Definition clip_inv (j : Z) (m' : list entry) : Prop :=
  exists e', m' = m.[i := e'] /\ sub e' m.[i] /\
    (forall a, covers m.[i] a ->
       covers e' a \/ exists t, 0 <= t < zlen m /\ t <> i /\ covers m.[t] a) /\
    (forall t, 0 <= t < j -> t <> i -> disj e' m.[t]).

Definition clip_done (x : clip_exit) : Prop :=
  match x with
  | Break m' => exists e', m' = m.[i := e'] /\ sub e' m.[i] /\ e_length e' = 0 /\
      (forall a, covers m.[i] a ->
         covers e' a \/ exists t, 0 <= t < zlen m /\ t <> i /\ covers m.[t] a)
  | GotoDel _ => False
  | NestedPanic => True
  end.

Lemma clip_body_inv j m' :
  0 <= j < zlen m -> clip_inv j m' ->
  match clip_body i j m' with
  | inl m'' => clip_inv (j + 1) m''
  | inr x => clip_done x
  end.
Proof.
  intros Hj (e' & -> & Hs & Hlost & Hd). unfold clip_body.
  destruct (Z.eqb_spec j i) as [->|Hne].
  { exists e'. split_and!; auto. intros t Ht Hti. apply Hd; lia. }
  rewrite !aget_aset by lia. rewrite Z.eqb_refl, (proj2 (Z.eqb_neq i j)) by lia.
  pose proof (aget_Forall _ _ _ Hfits Hi) as Fi. pose proof (aget_Forall _ _ _ Hfits Hj) as Fj.
  pose proof (sub_fits _ _ Hs Fi) as Fe. destruct e' as [base length ty].
  destruct m.[j] as [rb rl rt] eqn:Ej. unfold fits, e_top in Fe, Fj. simpl in Fe, Fj.
  unfold CHECKED_ADD. rewrite (proj2 (Z.ltb_lt (base + length) _)), (proj2 (Z.ltb_lt (rb + rl) _)) by lia.
  assert (Hcov : forall a, rb <= a < rb + rl -> exists t, 0 <= t < zlen m /\ t <> i /\ covers m.[t] a).
  { intros a Ha. exists j. rewrite Ej. unfold covers, e_top. simpl. lia. }
  assert (Hsplit : forall b l, base <= b -> b + l <= base + length -> 0 <= l ->
    (forall a, base <= a < base + length -> ~ b <= a < b + l -> rb <= a < rb + rl) ->
    forall a, covers m.[i] a -> covers (ME b l ty) a \/
      exists t, 0 <= t < zlen m /\ t <> i /\ covers m.[t] a).
  { intros b l H1 H2 H3 H4 a Ha. destruct (Hlost a Ha) as [Hc|]; [|by right].
    unfold covers, e_top in Hc |- *. simpl in Hc |- *.
    destruct (decide (b <= a < b + l)); [by left | right; apply Hcov, H4; lia]. }
  assert (Hsub : forall b l, base <= b -> b + l <= base + length -> 0 <= l -> sub (ME b l ty) m.[i]).
  { intros b l H1 H2 H3. unfold sub, e_top in *. simpl in *. lia. }
  destruct ((rb <=? base) && (rb + rl >=? base + length)) eqn:E1.
  { exists (ME (base + length) 0 ty). unfold aset. rewrite list_insert_insert_eq.
    split_and!; [done | apply Hsub; lia | done | apply Hsplit; lia]. }
  case_if; [done |].
  unfold aset. rewrite list_insert_insert_eq.
  set (top' := if _ && _ then rb else _). set (base' := if _ && _ then _ else base).
  assert (Hr : base <= base' <= top' /\ top' <= base + length /\
    (forall a, base <= a < base + length -> ~ base' <= a < top' -> rb <= a < rb + rl) /\
    (top' <= rb \/ rb + rl <= base'))
    by (subst top' base'; repeat case_if; split_and!; intros; lia).
  clearbody top' base'. destruct Hr as (Hr1 & Hr2 & Hr3 & Hr4). rewrite u64_small by lia.
  exists (ME base' (top' - base') ty).
  split_and!; [done | apply Hsub; lia | apply Hsplit; [lia.. | intros a ? ?; apply Hr3; lia] |].
  intros t Ht Hti. destruct (decide (t = j)) as [->|].
  - rewrite Ej. unfold disj, e_top. simpl. lia.
  - apply (sub_disj _ (ME base length ty)); [|apply Hd; lia]. unfold sub, e_top. simpl. lia.
Qed.

Lemma clip_loop_clipped :
  match for_exit (length m) 0 (clip_body i) m with
  | inl m' | inr (Break m') =>
      exists e', m' = m.[i := e'] /\ clipped m.[i] (remove_entry m i) e'
  | inr (GotoDel _) => False
  | inr NestedPanic => True
  end.
Proof.
  pose proof (aget_Forall _ _ _ Hfits Hi) as Fi.
  assert (Hhas : forall a, (exists t, 0 <= t < zlen m /\ t <> i /\ covers m.[t] a) ->
    exists ty, has (remove_entry m i) ty a).
  { intros a (t & Ht & Hti & Hc). exists (e_type m.[t]), m.[t]. auto using others_elem. }
  pose proof (for_exit_ind clip_inv clip_done (length m) 0 (clip_body i) m) as H.
  assert (H0 : clip_inv 0 m).
  { exists m.[i]. rewrite aset_split, <- map_split by done.
    split_and!; [done | by apply sub_refl | by left | lia]. }
  specialize (H H0 ltac:(intros j m' Hj; apply clip_body_inv; unfold zlen; lia)).
  destruct (for_exit _ _ _ _) as [m'|[m'| |]]; try done.
  - destruct H as (e' & -> & Hs & Hl & Hd). exists e'. split; [done |]. split; [done |..].
    + intros a Ha. destruct (Hl a Ha); auto.
    + intros _. apply Forall_forall. intros f Hf.
      apply others_index in Hf as (t & Ht & Hti & <-); [|done]. apply Hd; unfold zlen in *; lia.
  - destruct H as (e' & -> & Hs & H0' & Hl). exists e'. split; [done |].
    split; [done | intros a Ha; destruct (Hl a Ha); auto | done].
Qed.
End clip_one.

(** ** The whole first loop *)

(** Usable and not covered by another type. *)
Definition vis (m : list entry) (a : Z) : Prop := has m MEMMAP_USABLE a /\ ~ taken m a.

(** What clipping may do to a map: other types stay, usable addresses are lost
    only to entries of other types (and, with [align], to page rounding). *)
Record clip_rel (align : bool) (m m' : list entry) : Prop := {
  cr_other : forall ty a, ty <> MEMMAP_USABLE -> has m' ty a <-> has m ty a;
  cr_sound : forall a, vis m' a -> vis m a;
  cr_complete : align = false -> forall a, vis m a -> vis m' a;
}.

Lemma clip_rel_refl align m : clip_rel align m m.
Proof. by split. Qed.
Lemma clip_rel_trans align m1 m2 m3 : clip_rel align m1 m2 -> clip_rel align m2 m3 -> clip_rel align m1 m3.
Proof.
  intros [H1 H2 H3] [G1 G2 G3]. split; [|by auto |by auto].
  intros ty a Hty. by rewrite G1, H1.
Qed.

Lemma taken_cons_usable e m a : e_type e = MEMMAP_USABLE -> taken (e :: m) a <-> taken m a.
Proof.
  intros He. unfold taken. split; intros (ty & Hty & H); exists ty; (split; [done |]);
    rewrite has_cons in *; [|by right]. destruct H as [[<- _]|]; [done | done].
Qed.

Lemma taken_perm m m' a : m ≡ₚ m' -> taken m a <-> taken m' a.
Proof. intros Hm. unfold taken. by setoid_rewrite Hm. Qed.

(** Replacing a usable entry by a part of it that [clipped] describes. *)
Lemma clip_rel_replace align m m' e e' r :
  m ≡ₚ e :: r -> m' ≡ₚ e' :: r -> e_type e = MEMMAP_USABLE -> e_type e' = MEMMAP_USABLE ->
  (forall a, covers e' a -> covers e a) ->
  (align = false -> forall a, covers e a -> covers e' a \/ exists ty, has r ty a) ->
  clip_rel align m m'.
Proof.
  intros Hm Hm' He He' Hs Hl.
  assert (Ht : forall a, taken m' a <-> taken m a).
  { intros a. by rewrite (taken_perm m' _ a Hm'), (taken_perm m _ a Hm), !taken_cons_usable. }
  split.
  - intros ty a Hty. rewrite Hm, Hm', !has_cons. split; (intros [[<- _]|]; [done | by right]).
  - intros a [Hu Hn]. rewrite Ht in Hn. split; [|done]. rewrite Hm', has_cons in Hu.
    rewrite Hm, has_cons. destruct Hu as [[_ Hc]|Hu]; [left; auto | by right].
  - intros Ha a [Hu Hn]. split; [|by rewrite Ht]. rewrite Hm, has_cons in Hu.
    rewrite Hm', has_cons. destruct Hu as [[_ Hc]|Hu]; [|by right].
    destruct (Hl Ha a Hc) as [|[ty Hty]]; [by left |].
    destruct (decide (ty = MEMMAP_USABLE)) as [->|Hne]; [by right |].
    destruct Hn. exists ty. split; [done |]. rewrite Hm, has_cons. by right.
Qed.

Lemma clip_rel_drop align m r e :
  m ≡ₚ e :: r -> e_type e = MEMMAP_USABLE ->
  (align = false -> forall a, covers e a -> exists ty, has r ty a) -> clip_rel align m r.
Proof.
  intros Hm He Hl.
  assert (Hr : clip_rel align m (ME 0 0 MEMMAP_USABLE :: r)).
  { apply (clip_rel_replace align m _ e (ME 0 0 MEMMAP_USABLE) r); try done.
    - unfold covers, e_top. simpl. lia.
    - intros Ha a Hc. right. by apply Hl. }
  assert (Hh : forall ty a, has (ME 0 0 MEMMAP_USABLE :: r) ty a <-> has r ty a).
  { intros ty a. rewrite has_cons. unfold covers, e_top. simpl. split; [intros [|]; [lia | done] | by right]. }
  destruct Hr as [H1 H2 H3]. unfold vis, taken in *. setoid_rewrite Hh in H1.
  setoid_rewrite Hh in H2. setoid_rewrite Hh in H3. by split.
Qed.

Lemma align_entry_spec e b l :
  fits e -> align_entry (e_base e) (e_length e) = Some (b, l) ->
  sub (ME b l (e_type e)) e /\ 0 < l /\ b mod PAGE_SIZE = 0 /\ l mod PAGE_SIZE = 0.
Proof.
  unfold fits, sub, e_top, align_entry, ALIGN_UP, DIV_ROUNDUP, ALIGN_DOWN, PAGE_SIZE.
  intros Hf. case_if; [done |].
  destruct (CHECKED_ADD _ _) as [c|] eqn:E; simpl; [|done].
  apply CHECKED_ADD_Some in E as [-> Hc].
  set (q := (e_base e + (4096 - 1)) / 4096).
  pose proof (Z.div_mod (e_base e + (4096 - 1)) 4096 ltac:(lia)) as Hq.
  pose proof (Z.mod_pos_bound (e_base e + (4096 - 1)) 4096 ltac:(lia)). fold q in Hq.
  rewrite (u64_small (q * 4096)), u64_small by lia.
  set (n := e_length e - (q * 4096 - e_base e)).
  pose proof (Z.div_mod n 4096 ltac:(lia)). pose proof (Z.mod_pos_bound n 4096 ltac:(lia)).
  case_if; [done |]. intros [= <- <-]. simpl. rewrite !Z.mod_mul by lia. lia.
Qed.

(** The processed usable entries: non-empty, apart from every other entry. *)
Definition clean_at (align : bool) (m : list entry) (t : Z) : Prop :=
  is_usable m.[t] = true ->
  0 < e_length m.[t] /\
  (align = true -> e_base m.[t] mod PAGE_SIZE = 0 /\ e_length m.[t] mod PAGE_SIZE = 0) /\
  forall u, 0 <= u < zlen m -> u <> t -> disj m.[t] m.[u].
Definition clean (align : bool) (m : list entry) (i : Z) : Prop :=
  forall t, 0 <= t < i -> clean_at align m t.

Lemma clean_step align m i e' :
  0 <= i < zlen m -> clean align m i -> sub e' m.[i] -> 0 < e_length e' ->
  (align = true -> e_base e' mod PAGE_SIZE = 0 /\ e_length e' mod PAGE_SIZE = 0) ->
  Forall (disj e') (remove_entry m i) -> clean align m.[i := e'] (i + 1).
Proof.
  intros Hi Hc Hs Hl Ha Hd t Ht. unfold clean_at. rewrite zlen_aset, aget_aset by lia.
  destruct (Z.eqb_spec i t) as [<-|Hne].
  - intros _. split_and!; [done.. |]. intros u Hu Hui. rewrite aget_aset by lia.
    rewrite (proj2 (Z.eqb_neq i u)) by lia. rewrite Forall_forall in Hd.
    apply Hd, others_elem; done || lia.
  - intros Hu. destruct (Hc t ltac:(lia) Hu) as (H1 & H2 & H3). split_and!; [done.. |].
    intros u Hur Hut. rewrite aget_aset by lia.
    destruct (Z.eqb_spec i u) as [<-|]; [|by apply H3].
    apply disj_sym, (sub_disj _ m.[i]); [done |]. apply disj_sym, H3; lia.
Qed.

Lemma usable_type e : is_usable e = true <-> e_type e = MEMMAP_USABLE.
Proof. unfold is_usable. apply Z.eqb_eq. Qed.

Definition clip_measure (m : list entry) (i : Z) : Z := zlen m * (zlen m + 1) + (zlen m - i).

(** The end of an iteration on a usable entry clipped to [e']: the three ways on. *)
Lemma clip_usable_tail fuel align m i e' (Q : outcome (list entry) -> Prop) :
  Forall fits m -> 0 <= i < zlen m -> clean align m i -> e_type m.[i] = MEMMAP_USABLE ->
  clipped m.[i] (remove_entry m i) e' ->
  (clip_rel align m (remove_entry m i) -> Q (clip_usable fuel align (remove_entry m i) 0)) ->
  (forall e, fits e -> clip_rel align m m.[i := e] -> clean align m.[i := e] (i + 1) ->
     Q (clip_usable fuel align m.[i := e] (i + 1))) ->
  Q (let '(ME base length ty) := (m.[i := e']).[i] in
     if length =? 0 then clip_usable fuel align (remove_entry m.[i := e'] i) 0
     else if align then
       match align_entry base length with
       | None => clip_usable fuel align (remove_entry m.[i := e'] i) 0
       | Some (base, length) =>
           clip_usable fuel align (m.[i := e']).[i := ME base length ty] (i + 1)
       end
     else clip_usable fuel align m.[i := e'] (i + 1)).
Proof.
  intros Hf Hi Hc Hu [Hs Hl Hd] Hdel Hgo.
  assert (Hrm : remove_entry m.[i := e'] i = remove_entry m i).
  { unfold remove_entry. rewrite zlen_aset. case_if.
    - rewrite aget_aset, (proj2 (Z.eqb_neq i (zlen m - 1))) by lia.
      unfold aset. by rewrite list_insert_insert_eq.
    - unfold aset. rewrite take_insert_ge by lia. done. }
  rewrite Hrm, aget_aset, Z.eqb_refl by lia.
  pose proof (sub_fits _ _ Hs (aget_Forall _ _ _ Hf Hi)) as Fe.
  assert (Ht : e_type e' = MEMMAP_USABLE) by (destruct Hs as [-> _]; done).
  assert (Hset : forall e, (m.[i := e']).[i := e] = m.[i := e])
    by (intros e; unfold aset; apply list_insert_insert_eq).
  destruct e' as [base length ty] eqn:Ee. rewrite <- Ee in *.
  assert (Hrel : forall al e, sub e e' -> (al = false -> e = e') -> clip_rel al m m.[i := e]).
  { intros al e Hse Hal. apply (clip_rel_replace al _ _ m.[i] e (remove_entry m i));
      [by apply remove_perm | by apply aset_perm | done | by destruct Hse as [-> _] | |].
    - intros a Ha. eapply sub_covers; [done |]. by eapply sub_covers.
    - intros Ha. rewrite (Hal Ha). exact Hl. }
  destruct (Z.eqb_spec length 0) as [H0|H0].
  { apply Hdel, (clip_rel_drop align m _ m.[i]); [by apply remove_perm | done |].
    intros _ a Ha. destruct (Hl a Ha) as [Hcv|]; [|done].
    subst e'. unfold covers, e_top in Hcv. simpl in Hcv. lia. }
  assert (Hd' : Forall (disj e') (remove_entry m i)) by (apply Hd; by subst e').
  destruct align.
  - replace base with (e_base e') by by subst e'. replace length with (e_length e') by by subst e'.
    destruct (align_entry _ _) as [[b l]|] eqn:Ea.
    + apply align_entry_spec in Ea as (Hse & Hl' & Hb); [|done].
      rewrite Hset. replace ty with (e_type e') by by subst e'.
      apply Hgo; [by eapply sub_fits | by apply Hrel |].
      apply clean_step; [done.. | | done | done |].
      * unfold sub in *. simpl in *. lia.
      * eapply Forall_impl; [exact Hd' |]. intros f. by apply sub_disj.
    + apply Hdel, (clip_rel_drop _ m _ m.[i]); [by apply remove_perm | done | done].
  - apply Hgo; [done | by apply Hrel; [apply sub_refl |] |].
    apply clean_step; try done. subst e'. unfold fits in Fe. simpl in *. lia.
Qed.

Lemma clip_usable_spec fuel align m i :
  Forall fits m -> 0 <= i <= zlen m -> clean align m i -> clip_measure m i < Z.of_nat fuel ->
  match clip_usable fuel align m i with
  | Ret m' => Forall fits m' /\ clip_rel align m m' /\ clean align m' (zlen m')
  | Panic => True
  | Diverge => False
  end.
Proof.
  revert m i; induction fuel as [|fuel IH]; intros m i Hf Hi Hc Hm;
    [pose proof (zlen_nonneg m); unfold clip_measure in Hm; nia |].
  cbn [clip_usable]. destruct (Z.ltb_spec i (zlen m)) as [Hlt|Hge].
  2: { split; [done |]. split; [apply clip_rel_refl |]. by replace (zlen m) with i by lia. }
  assert (Hnext : forall m1 j, Forall fits m1 -> 0 <= j <= zlen m1 -> clean align m1 j ->
    clip_measure m1 j < Z.of_nat fuel -> clip_rel align m m1 ->
    match clip_usable fuel align m1 j with
    | Ret m' => Forall fits m' /\ clip_rel align m m' /\ clean align m' (zlen m')
    | Panic => True | Diverge => False end).
  { intros m1 j H1 H2 H3 H4 H5. specialize (IH m1 j H1 H2 H3 H4).
    destruct (clip_usable fuel align m1 j); [|done..]. destruct IH as (? & ? & ?).
    split_and!; [done | by eapply clip_rel_trans | done]. }
  assert (Hf' : Forall fits (remove_entry m i)) by (apply Forall_remove; done || lia).
  assert (Hdel : clip_rel align m (remove_entry m i) ->
    match clip_usable fuel align (remove_entry m i) 0 with
    | Ret m' => Forall fits m' /\ clip_rel align m m' /\ clean align m' (zlen m')
    | Panic => True | Diverge => False end).
  { apply Hnext; [done | | intros t; lia |]; unfold clip_measure in *;
      rewrite ?zlen_remove by lia; nia. }
  destruct (is_usable m.[i]) eqn:Hu; simpl.
  2: { apply Hnext; [done | lia | | unfold clip_measure in *; lia | apply clip_rel_refl].
       intros t Ht. destruct (decide (t = i)) as [->|]; [|apply Hc; lia]. intros Hu'. congruence. }
  apply usable_type in Hu. pose proof (clip_loop_clipped m i Hf ltac:(lia)) as Hcl.
  destruct (for_exit _ _ _ _) as [m'|[m'| |]]; [| |done|done].
  1, 2: destruct Hcl as (e' & -> & Hcl);
    apply (clip_usable_tail fuel align m i e' (fun o => match o with
      | Ret m' => Forall fits m' /\ clip_rel align m m' /\ clean align m' (zlen m')
      | Panic => True | Diverge => False end)); try done; try lia;
    intros e He Hrel Hcl'; apply Hnext; try done;
    [apply Forall_aset; done || lia | rewrite zlen_aset; lia |
     unfold clip_measure in *; rewrite zlen_aset; lia].
Qed.

Lemma clean_pairwise align m : clean align m (zlen m) -> pairwise udisj m.
Proof.
  intros Hc. apply pairwise_of_index. intros t u Htu Hu [H|H].
  - apply (Hc t); done || lia.
  - apply disj_sym, (Hc u); done || lia.
Qed.

Lemma pairwise_index R `{!SymRel R} m t u :
  pairwise R m -> 0 <= t < zlen m -> 0 <= u < zlen m -> t <> u -> R m.[t] m.[u].
Proof.
  intros Hp Ht Hu Hne. assert (H : pairwise R (m.[t] :: remove_entry m t))
    by by rewrite <- remove_perm.
  destruct H as [HF _]. rewrite Forall_forall in HF. apply HF, others_elem; done || lia.
Qed.

Definition pos (e : entry) : Prop := 0 < e_length e.

Lemma clip_body_disjoint m i j :
  Forall fits m -> Forall pos m -> pairwise udisj m -> 0 <= i < zlen m -> 0 <= j < zlen m ->
  is_usable m.[i] = true -> clip_body i j m = inl m.
Proof.
  intros Hf Hp Hd Hi Hj Hu. unfold clip_body. destruct (Z.eqb_spec j i) as [|Hne]; [done |].
  pose proof (aget_Forall _ _ i Hf Hi) as Fi. pose proof (aget_Forall _ _ i Hp Hi) as Pi.
  pose proof (aget_Forall _ _ j Hf Hj) as Fj. pose proof (aget_Forall _ _ j Hp Hj) as Pj.
  pose proof (pairwise_index udisj m i j Hd Hi Hj ltac:(lia) (or_introl Hu)) as Dij.
  assert (Hid : m.[i := m.[i]] = m) by (rewrite aset_split, <- map_split; done).
  destruct m.[i] as [b l ty] eqn:Ei, m.[j] as [rb rl rt].
  unfold fits, pos, disj, e_top in *; simpl in *.
  unfold CHECKED_ADD; rewrite (proj2 (Z.ltb_lt (b + l) _)), (proj2 (Z.ltb_lt (rb + rl) _)) by lia.
  do 2 (case_if; [exfalso; lia |]).
  assert ((if (rb >=? b) && (rb <? b + l) then rb else b + l) = b + l) as -> by (case_if; lia).
  assert ((if (rb + rl >=? b) && (rb + rl <? b + l) then rb + rl else b) = b) as -> by (case_if; lia).
  replace (b + l - b) with l by lia. by rewrite u64_small, Hid by lia.
Qed.

Lemma clip_loop_disjoint m i : Forall fits m -> Forall pos m -> pairwise udisj m -> 0 <= i < zlen m -> is_usable m.[i] = true ->
  for_exit (length m) 0 (clip_body i) m = inl m.
Proof.
  intros Hf Hp Hd Hi Hu. pose proof (for_exit_ind (fun _ m' => m' = m) (fun _ => False) (length m) 0 (clip_body i) m eq_refl) as H.
  assert (Hb : forall j m', 0 <= j < 0 + Z.of_nat (length m) -> m' = m ->
    match clip_body i j m' with inl m'' => m'' = m | inr _ => False end).
  { intros j ? Hj ->. rewrite clip_body_disjoint by (done || unfold zlen in *; lia). done. }
  specialize (H Hb). destruct (for_exit _ _ _ _); [by f_equal | done].
Qed.

(** On a map of non-empty entries whose usable ones are apart from the others the
    first loop does nothing (in particular it does not panic). *)
Lemma clip_usable_disjoint fuel m i :
  Forall fits m -> Forall pos m -> pairwise udisj m -> 0 <= i <= zlen m ->
  clip_measure m i < Z.of_nat fuel -> clip_usable fuel false m i = Ret m.
Proof.
  intros Hf Hp Hd. revert i; induction fuel as [|fuel IH]; intros i Hi Hm;
    [pose proof (zlen_nonneg m); unfold clip_measure in Hm; nia |].
  cbn [clip_usable]. destruct (Z.ltb_spec i (zlen m)) as [Hlt|]; [|done].
  assert (Hnext : clip_usable fuel false m (i + 1) = Ret m)
    by (apply IH; [lia | unfold clip_measure in *; lia]).
  destruct (is_usable m.[i]) eqn:Hu; [|done]. simpl.
  rewrite clip_loop_disjoint by (done || lia). pose proof (aget_Forall _ _ i Hp ltac:(lia)) as Pi.
  unfold pos in Pi. destruct m.[i] as [b l ty]. simpl in Pi.
  by rewrite (proj2 (Z.eqb_neq l 0)) by lia.
Qed.

(** On such a map it does not panic either when the entries are aligned. *)
Lemma clip_usable_no_panic fuel align m i :
  Forall fits m -> Forall pos m -> pairwise udisj m -> 0 <= i -> clip_usable fuel align m i <> Panic.
Proof.
  revert m i; induction fuel as [|fuel IH]; intros m i Hf Hp Hd Hi; [done |]. cbn [clip_usable]. destruct (Z.ltb_spec i (zlen m)) as [Hlt|]; [|done].
  destruct (is_usable m.[i]) eqn:Hu; cbn [negb]; [|apply IH; done || lia]. rewrite clip_loop_disjoint by (done || lia).
  assert (Hrest : pairwise udisj (m.[i] :: remove_entry m i)) by by rewrite <- remove_perm by lia.
  assert (Hdel : clip_usable fuel align (remove_entry m i) 0 <> Panic) by (apply IH; [apply Forall_remove; done || lia | apply Forall_remove; done || lia | apply Hrest | lia]).
  destruct m.[i] as [b l ty] eqn:Ei. case_if; [done |]. destruct align; [|apply IH; done || lia]. destruct (align_entry b l) as [[b' l']|] eqn:Ea; [|done].
  pose proof (aget_Forall _ _ i Hf ltac:(lia)) as Fi. rewrite Ei in Fi. apply (align_entry_spec (ME b l ty)) in Ea as (Hs & Hl & _); [|done]. cbn [e_type] in Hs.
  apply IH; [| | | lia].
  - apply Forall_aset; [lia | by eapply sub_fits | done].
  - by apply Forall_aset; [lia | |].
  - rewrite aset_perm by lia. split; [|apply Hrest]. eapply Forall_impl; [apply Hrest |]. intros f Hf' Hu'. eapply sub_disj; [exact Hs |]. apply Hf'. unfold is_usable in *. by rewrite (proj1 Hs) in Hu'.
Qed.
