(* ===== verification/PmmSanitise.v ===== *)
(** The later loops of [pmm_sanitise_entries] (empty entries, sorting, merging) and
    the specification of the whole function. *)

From S2P Require Import Prelude Pmm PmmMap.
Import Pmm.

(** * Empty entries and the first page *)

(** What the second loop keeps of one entry. *)
Definition kept (keep : bool) (e : entry) : option entry :=
  match clip_first_page keep e with
  | None => None
  | Some e => if e_length e =? 0 then None else Some e
  end.

Lemma drop_remove (m : list entry) i :
  0 <= i < zlen m -> drop (Z.to_nat i) (remove_entry m i) ≡ₚ drop (S (Z.to_nat i)) m.
Proof.
  intros Hi. apply (Permutation_app_inv_l (take (Z.to_nat i) m)).
  rewrite <- (take_remove m i) at 1 by done. rewrite take_drop. by apply others_perm.
Qed.

Lemma drop_empty_perm fuel keep m i :
  0 <= i <= zlen m -> zlen m - i < Z.of_nat fuel ->
  exists m', drop_empty fuel keep m i = Ret m' /\
    m' ≡ₚ take (Z.to_nat i) m ++ omap (kept keep) (drop (Z.to_nat i) m).
Proof.
  revert m i; induction fuel as [|fuel IH]; intros m i Hi Hf; [lia |]. cbn [drop_empty].
  destruct (Z.ltb_spec i (zlen m)) as [Hlt|Hge].
  2: { exists m. split; [done |]. rewrite take_all_zlen, drop_ge by (unfold zlen in *; lia).
       simpl. by rewrite app_nil_r. }
  assert (Hdr : drop (Z.to_nat i) m = m.[i] :: drop (S (Z.to_nat i)) m)
    by (apply drop_S, aget_lookup; lia).
  assert (Hdel : kept keep m.[i] = None ->
    exists m', drop_empty fuel keep (remove_entry m i) i = Ret m' /\
      m' ≡ₚ take (Z.to_nat i) m ++ omap (kept keep) (drop (Z.to_nat i) m)).
  { intros Hk. destruct (IH (remove_entry m i) i) as (m' & -> & Hm'); [rewrite zlen_remove; lia.. |].
    exists m'. split; [done |]. rewrite Hm', take_remove, drop_remove, Hdr by lia.
    simpl. by rewrite Hk. }
  unfold kept in Hdel. destruct (clip_first_page keep m.[i]) as [e|] eqn:Ee; [|by apply Hdel].
  destruct (Z.eqb_spec (e_length e) 0) as [H0|H0]; [by apply Hdel |].
  destruct (IH m.[i := e] (i + 1)) as (m' & -> & Hm'); [rewrite zlen_aset; lia.. |].
  exists m'. split; [done |]. rewrite Hm', take_snoc_aset, Hdr, <- app_assoc by lia. simpl.
  unfold kept at 2. rewrite Ee, (proj2 (Z.eqb_neq _ 0)) by done. apply Permutation_app_head. simpl.
  unfold aset. replace (Z.to_nat (i + 1)) with (S (Z.to_nat i)) by lia.
  by rewrite drop_insert_lt by lia.
Qed.

(** The second loop hides the usable addresses below 0x1000 when asked to. *)
Definition hidden (keep : bool) (ty a : Z) : Prop :=
  keep = false /\ ty = MEMMAP_USABLE /\ a < 0x1000.

Lemma kept_spec keep e :
  fits e ->
  match kept keep e with
  | None => forall a, covers e a -> hidden keep (e_type e) a
  | Some e' => sub e' e /\ pos e' /\
      forall a, covers e a -> covers e' a <-> ~ hidden keep (e_type e) a
  end.
Proof.
  unfold kept, clip_first_page, hidden, fits, sub, pos, covers, e_top. intros Hf.
  destruct (is_usable e && negb keep && (e_base e <? 0x1000)) eqn:E.
  - apply andb_true_iff in E as [E E3]. apply andb_true_iff in E as [E1 E2].
    apply usable_type in E1. apply negb_true_iff in E2.
    unfold CHECKED_ADD. rewrite (proj2 (Z.ltb_lt _ _)) by lia. simpl.
    destruct (Z.leb_spec (e_base e + e_length e) 0x1000); [intros; split_and!; done || lia |].
    cbn [e_length e_base e_type]. rewrite u64_small by lia.
    rewrite (proj2 (Z.eqb_neq _ 0)) by lia. simpl. split_and!; try lia.
    intros a Ha. split; [lia |]. intros Hn. split; [|lia].
    destruct (Z.lt_ge_cases a 0x1000); [|lia]. by destruct Hn.
  - destruct (Z.eqb_spec (e_length e) 0); [intros; lia |]. split_and!; try lia.
    intros a Ha. split; [|intros; lia]. intros _ (-> & Ht & Hlt).
    apply usable_type in Ht. rewrite Ht in E. simpl in E. lia.
Qed.

Lemma has_omap keep m ty a :
  Forall fits m -> has (omap (kept keep) m) ty a <-> has m ty a /\ ~ hidden keep ty a.
Proof.
  induction 1 as [|e m Hf Hm IH]; simpl; [rewrite has_nil; tauto |].
  pose proof (kept_spec keep e Hf) as Hk. rewrite has_cons.
  destruct (kept keep e) as [e'|].
  - destruct Hk as (Hs & _ & Hc). rewrite has_cons, IH. destruct Hs as (Ht & Hs). rewrite Ht.
    split; [intros [[<- H]|[H Hh]] | intros [[[<- H]|H] Hh]].
    + assert (Hce : covers e a) by (by eapply sub_covers). specialize (Hc a Hce). tauto.
    + tauto.
    + left. split; [done |]. by apply Hc.
    + by right.
  - rewrite IH. split; [intros [H Hh]; tauto |]. intros [[[<- H]|H] Hh]; [|done].
    destruct Hh. by apply Hk.
Qed.

(** * A relation on entries that survives shrinking and merging *)

Class Shrinks (R : entry -> entry -> Prop) : Prop :=
  shrink e' e f : sub e' e -> R e f -> R e' f.
#[export] Instance disj_shrinks : Shrinks disj := sub_disj.
#[export] Instance udisj_shrinks : Shrinks udisj.
Proof.
  intros e' e f Hs H Hu. eapply sub_disj; [done |]. apply H.
  unfold is_usable in *. by destruct Hs as [<- _].
Qed.

Lemma omap_kept_Forall keep (P : entry -> Prop) m :
  Forall fits m -> (forall e e', sub e' e -> pos e' -> P e -> P e') -> Forall P m ->
  Forall P (omap (kept keep) m).
Proof.
  intros Hf Hsub HP. induction Hf as [|e m He Hm IH]; simpl; [done |].
  apply Forall_cons in HP as [Pe Pm]. pose proof (kept_spec keep e He) as Hk.
  destruct (kept keep e) as [e'|]; [|by auto]. destruct Hk as (? & ? & _).
  constructor; [by eapply Hsub | auto].
Qed.

Lemma omap_kept_fits keep m : Forall fits m -> Forall fits (omap (kept keep) m).
Proof. intros Hf. apply omap_kept_Forall; [done | | done]. intros. by eapply sub_fits. Qed.

Lemma omap_kept_pos keep m : Forall fits m -> Forall pos (omap (kept keep) m).
Proof.
  intros Hf. induction Hf as [|e m He Hm IH]; simpl; [constructor |].
  pose proof (kept_spec keep e He) as Hk.
  destruct (kept keep e) as [e'|]; [|done]. destruct Hk as (? & ? & _). by constructor.
Qed.

Lemma omap_kept_pairwise keep R `{!SymRel R, !Shrinks R} m :
  Forall fits m -> pairwise R m -> pairwise R (omap (kept keep) m).
Proof.
  intros Hf. induction Hf as [|e m He Hm IH]; simpl; [done |]. intros [HR Hp].
  pose proof (kept_spec keep e He) as Hk.
  destruct (kept keep e) as [e'|]; [|by apply IH]. destruct Hk as (Hs & _). split; [|by apply IH].
  apply omap_kept_Forall; [done | |].
  - intros f f' Hsf _ HRf. apply sym_rel. eapply shrink; [done |]. by apply sym_rel.
  - eapply Forall_impl; [exact HR |]. intros f. by apply shrink.
Qed.

(** * Sorting *)

Definition base_le (e f : entry) : Prop := e_base e <= e_base f.

Lemma min_index_spec m p :
  0 <= p < zlen m ->
  p <= min_index m p < zlen m /\
  forall u, p <= u < zlen m -> e_base m.[min_index m p] <= e_base m.[u].
Proof.
  intros Hp. unfold min_index.
  match goal with |- context [for_up ?n p ?body ?s0] =>
    pose proof (for_up_ind (fun i (s : Z * Z) => p <= s.2 /\ s.2 < Z.max i (p + 1) /\ s.1 = e_base m.[s.2] /\
      forall u, p <= u < i -> s.1 <= e_base m.[u]) n p body s0) as H end.
  destruct (for_up _ _ _ _) as [mn k]. simpl in *.
  replace (p + Z.of_nat (Z.to_nat (zlen m - p))) with (zlen m) in H by lia.
  destruct H as (H1 & H2 & H3 & H4).
  - split_and!; lia.
  - intros i [mn' k'] Hi (G1 & G2 & G3 & G4). simpl in *. case_if; simpl.
    + split_and!; [lia.. |]. intros u Hu. destruct (decide (u = i)) as [->|]; [lia |].
      specialize (G4 u ltac:(lia)). lia.
    + split_and!; [lia.. |]. intros u Hu. destruct (decide (u = i)) as [->|]; [lia |].
      apply G4. lia.
  - split; [lia |]. intros u Hu. rewrite <- H3. by apply H4.
Qed.

Lemma sort_step_perm m p : 0 <= p < zlen m -> sort_step p m ≡ₚ m.
Proof.
  intros Hp. unfold sort_step, aset. destruct (min_index_spec m p Hp) as [Hk _].
  apply Permutation_insert_swap; apply aget_lookup; lia.
Qed.

Lemma sort_step_get m p t :
  0 <= p < zlen m -> 0 <= t < zlen m ->
  (sort_step p m).[t] =
    if p =? t then m.[min_index m p] else if min_index m p =? t then m.[p] else m.[t].
Proof.
  intros Hp Ht. unfold sort_step. destruct (min_index_spec m p Hp) as [Hk _].
  rewrite !aget_aset by (rewrite ?zlen_aset; lia). done.
Qed.

Lemma sort_entries_spec m :
  sort_entries m ≡ₚ m /\ StronglySorted base_le (sort_entries m).
Proof.
  unfold sort_entries.
  pose proof (for_up_ind (fun p (l : list entry) => l ≡ₚ m /\
    forall t u, 0 <= t < p -> t < u -> u < zlen l -> base_le l.[t] l.[u])
    (length m - 1) 0 sort_step m) as H.
  destruct H as [Hp Hs].
  - split; [done | lia].
  - intros p l Hpr [Hl Hs]. assert (Hlen : zlen l = zlen m) by (unfold zlen; by rewrite Hl).
    assert (Hpl : 0 <= p < zlen l) by (unfold zlen in *; lia).
    pose proof (sort_step_perm l p Hpl) as Hpm. destruct (min_index_spec l p Hpl) as [Hk Hmin].
    split; [by rewrite Hpm |]. intros t u Ht Htu Hu.
    assert (Hu' : u < zlen l) by (unfold zlen in *; rewrite Hpm in Hu; done).
    unfold base_le in *. rewrite !sort_step_get by lia.
    destruct (Z.eqb_spec p t) as [->|Hpt].
    + rewrite (proj2 (Z.eqb_neq t u)) by lia. case_if; apply Hmin; lia.
    + rewrite (proj2 (Z.eqb_neq (min_index l p) t)) by lia.
      destruct (Z.eqb_spec p u); [apply Hs; lia |]. case_if; apply Hs; lia.
  - split; [done |].
    set (l := for_up _ _ _ _) in *. assert (Hlen : zlen l = zlen m) by (unfold zlen; by rewrite Hp).
    clearbody l. clear Hp.
    assert (Hx : forall t u, 0 <= t -> t < u -> u < zlen l -> base_le l.[t] l.[u]).
    { intros t u H1 H2 H3. apply Hs; unfold zlen in *; lia. }
    clear Hs Hlen. induction l as [|e l IH]; constructor.
    + apply IH. intros t u H1 H2 H3. specialize (Hx (t + 1) (u + 1)).
      unfold aget in *. replace (Z.to_nat (t + 1)) with (S (Z.to_nat t)) in Hx by lia.
      replace (Z.to_nat (u + 1)) with (S (Z.to_nat u)) in Hx by lia.
      apply Hx; rewrite ?zlen_cons; lia.
    + apply Forall_lookup. intros k f Hk. pose proof (lookup_lt_Some _ _ _ Hk).
      specialize (Hx 0 (Z.of_nat (S k)) ltac:(lia) ltac:(lia) ltac:(rewrite zlen_cons; unfold zlen; lia)).
      unfold aget in Hx. rewrite Nat2Z.id in Hx. simpl in Hx.
      by rewrite (list_lookup_total_correct _ _ _ Hk) in Hx.
Qed.

(** * Merging *)

Class Merges (R : entry -> entry -> Prop) : Prop :=
  merge_rel b l l' ty f :
    0 < l -> 0 < l' -> pos f ->
    R (ME b l ty) f -> R (ME (b + l) l' ty) f -> R (ME b (l + l') ty) f.
#[export] Instance disj_merges : Merges disj.
Proof. intros b l l' ty f. unfold pos, disj, e_top. simpl. lia. Qed.
#[export] Instance udisj_merges : Merges udisj.
Proof.
  intros b l l' ty f H1 H2 H3 HR HR' Hu. apply disj_merges; auto.
Qed.

(** The invariant of the merge loop; [R] relates any two entries. *)
Record merged (R : entry -> entry -> Prop) (m : list entry) : Prop := {
  mg_fits : Forall fits m;
  mg_pos : Forall pos m;
  mg_pair : pairwise R m;
  mg_sorted : StronglySorted base_le m;
}.

Section merge.
Context (R : entry -> entry -> Prop) `{!SymRel R, !Merges R}.

Lemma merged_merge l1 b l l' ty l2 :
  merged R (l1 ++ ME b l ty :: ME (b + l) l' ty :: l2) ->
  merged R (l1 ++ ME b (l + l') ty :: l2).
Proof.
  intros [Hf Hp Hr Hs].
  rewrite Forall_app, !Forall_cons in Hf, Hp. destruct Hf as (F1 & Fe & Fn & F2).
  destruct Hp as (P1 & Pe & Pn & P2).
  rewrite <- Permutation_middle in Hr. simpl in Hr. destruct Hr as [He Hr].
  rewrite <- Permutation_middle in Hr. simpl in Hr. destruct Hr as [Hn Hr].
  rewrite Forall_app, Forall_cons in He. destruct He as (He1 & _ & He2).
  rewrite Forall_app in Hn. destruct Hn as (Hn1 & Hn2).
  split.
  - apply Forall_app; split; [done |]. constructor; [|done].
    unfold fits, e_top in *. simpl in *. lia.
  - apply Forall_app; split; [done |]. constructor; [|done]. unfold pos in *. simpl in *. lia.
  - rewrite <- Permutation_middle. simpl. split; [|done].
    assert (Hm : forall f, pos f -> R (ME b l ty) f -> R (ME (b + l) l' ty) f ->
      R (ME b (l + l') ty) f) by (intros f Pf; by apply merge_rel).
    apply Forall_forall. intros f Hin. apply elem_of_app in Hin.
    rewrite !Forall_forall in *. destruct Hin; apply Hm; auto.
  - rewrite StronglySorted_app, !StronglySorted_cons in *.
    destruct Hs as (H1 & H2 & H3 & H4 & H5). split_and!; auto.
    + intros x y Hx Hy. apply elem_of_cons in Hy as [->|Hy].
      * apply (H1 x (ME b l ty)); [done |]. apply elem_of_cons. by left.
      * apply H1; [done |]. rewrite !elem_of_cons. by right; right.
    + apply Forall_cons in H3 as [_ H3]. eapply Forall_impl; [exact H3 |]. done.
Qed.

Lemma has_merge l1 b l l' ty l2 ty' a :
  0 <= l -> 0 <= l' ->
  has (l1 ++ ME b (l + l') ty :: l2) ty' a <->
  has (l1 ++ ME b l ty :: ME (b + l) l' ty :: l2) ty' a.
Proof.
  intros H1 H2. rewrite !has_app, !has_cons. unfold covers, e_top. simpl.
  split; intros [|[[Ht Hc]|]]; try tauto.
  - destruct (decide (a < b + l)); [right; left | right; right; left]; split; done || lia.
  - right; left. split; done || lia.
  - destruct H as [[Ht Hc]|]; [right; left; split; done || lia | tauto].
Qed.

Lemma split_two (m : list entry) i :
  0 <= i -> i + 1 < zlen m ->
  m = take (Z.to_nat i) m ++ m.[i] :: m.[i + 1] :: drop (Z.to_nat (i + 2)) m.
Proof.
  intros Hi Hl. rewrite (map_split m i) at 1 by lia. do 2 f_equal.
  replace (S (Z.to_nat i)) with (Z.to_nat (i + 1)) by lia.
  rewrite (drop_S m m.[i + 1]) by (apply aget_lookup; lia). do 2 f_equal. lia.
Qed.

Lemma merge_entries_spec (P : entry -> Prop) fuel m i :
  (forall b l l' ty, P (ME b l ty) -> P (ME (b + l) l' ty) -> P (ME b (l + l') ty)) ->
  merged R m -> Forall P m -> 0 <= i <= zlen m -> zlen m - i < Z.of_nat fuel ->
  exists m', merge_entries fuel m i = Ret m' /\ merged R m' /\ Forall P m' /\
    zlen m' <= zlen m /\ forall ty a, has m' ty a <-> has m ty a.
Proof.
  intros HP. revert m i; induction fuel as [|fuel IH]; intros m i Hm HF Hi Hf; [lia |].
  cbn [merge_entries]. destruct (Z.ltb_spec (i + 1) (zlen m)) as [Hlt|Hge].
  2: { exists m. by auto with lia. }
  specialize (IH m (i + 1) Hm HF ltac:(lia) ltac:(lia)) as Hnext.
  destruct m.[i] as [b l ty] eqn:Ei, m.[i + 1] as [nb nl nty] eqn:En.
  case_if; [done |]. destruct (CHECKED_ADD b l) as [top|] eqn:Et; [|done].
  apply CHECKED_ADD_Some in Et as [-> Ht].
  destruct ((nty =? ty) && (nb =? b + l)) eqn:E; [|done].
  apply andb_true_iff in E as [->%Z.eqb_eq ->%Z.eqb_eq].
  destruct (CHECKED_ADD l nl) as [len|] eqn:El; [|done].
  apply CHECKED_ADD_Some in El as [-> Hl].
  pose proof (split_two m i ltac:(lia) Hlt) as Hsp. rewrite Ei, En in Hsp.
  rewrite take_snoc_aset, <- app_assoc by lia. simpl.
  set (l1 := take _ m) in *. set (l2 := drop _ m) in *. clearbody l1 l2. subst m.
  pose proof (mg_fits _ _ Hm) as Hft. rewrite Forall_app, !Forall_cons in Hft, HF.
  destruct Hft as (_ & F1 & F2 & _), HF as (G1 & G2 & G3 & G4). unfold fits in F1, F2. simpl in F1, F2.
  rewrite !zlen_app, !zlen_cons in *. clear Hnext.
  destruct (IH (l1 ++ ME b (l + nl) ty :: l2) i) as (m' & -> & ? & ? & Hlen & Hh);
    [by apply merged_merge | | rewrite zlen_app, zlen_cons; lia.. |].
  - apply Forall_app. auto.
  - exists m'. split_and!; [done.. | rewrite zlen_app, zlen_cons in Hlen; lia |].
    intros ty' a. by rewrite Hh, has_merge by lia.
Qed.
End merge.

(** * The whole function *)

Definition page_aligned (align : bool) (e : entry) : Prop :=
  align = true -> is_usable e = true ->
  e_base e mod PAGE_SIZE = 0 /\ e_length e mod PAGE_SIZE = 0.

Lemma clean_aligned align m : clean align m (zlen m) -> Forall (page_aligned align) m.
Proof.
  intros Hc. apply Forall_lookup. intros k e Hk Ha Hu. pose proof (lookup_lt_Some _ _ _ Hk).
  assert (He : m.[Z.of_nat k] = e)
    by (unfold aget; rewrite Nat2Z.id; by apply list_lookup_total_correct).
  rewrite <- He in Hu |- *. destruct (Hc (Z.of_nat k) ltac:(unfold zlen; lia) Hu) as (_ & H' & _). auto.
Qed.

Lemma kept_aligned keep align e e' :
  fits e -> kept keep e = Some e' -> page_aligned align e -> page_aligned align e'.
Proof.
  unfold kept, clip_first_page, page_aligned, fits, e_top. intros Hf H HP Ha Hu.
  destruct (is_usable e && negb keep && (e_base e <? 0x1000)) eqn:E;
    [|case_if; simplify_eq; auto].
  unfold CHECKED_ADD in H. rewrite (proj2 (Z.ltb_lt _ _)) in H by lia. simpl in H.
  destruct (Z.leb_spec (e_base e + e_length e) 0x1000); [done |]. case_if; simplify_eq/=.
  destruct (is_usable e) eqn:Eu; [|done]. destruct (HP eq_refl eq_refl) as [Hb Hl].
  rewrite u64_small by lia. unfold PAGE_SIZE in *.
  assert (e_base e = 0) as -> by (rewrite Z.mod_small in Hb; lia).
  split; [done |]. by rewrite Zminus_mod, Hl.
Qed.

Lemma omap_kept_aligned keep align m :
  Forall fits m -> Forall (page_aligned align) m -> Forall (page_aligned align) (omap (kept keep) m).
Proof.
  intros Hf HP. rewrite !Forall_forall in *. intros e' He'.
  apply list_elem_of_omap in He' as (e & He & Hk). eapply kept_aligned; eauto.
Qed.

Lemma page_aligned_merge align b l l' ty :
  page_aligned align (ME b l ty) -> page_aligned align (ME (b + l) l' ty) ->
  page_aligned align (ME b (l + l') ty).
Proof.
  intros H H' Ha Hu. destruct (H Ha Hu) as [Hb Hl], (H' Ha Hu) as [_ Hl']. simpl in *.
  split; [done |]. rewrite Zplus_mod, Hl, Hl'. done.
Qed.

(** In a map of disjoint usable entries, a usable address has no other type. *)
Lemma udisj_vis m a : pairwise udisj m -> has m MEMMAP_USABLE a -> vis m a.
Proof.
  intros Hp Hu. split; [done |]. intros (ty & Hty & (f & Hf & <- & Hcf)).
  destruct Hu as (e & He & Het & Hce). apply list_elem_of_split in He as (l1 & l2 & ->).
  rewrite <- Permutation_middle in Hp. simpl in Hp. destruct Hp as [Hp _].
  rewrite <- Permutation_middle, elem_of_cons in Hf. destruct Hf as [->|Hf]; [done |].
  rewrite Forall_forall in Hp. specialize (Hp f Hf (or_introl (proj2 (usable_type e) Het))).
  unfold covers, disj in *. lia.
Qed.

(** What [pmm_sanitise_entries] promises of its result [m']. *)
Record sanitised (keep align : bool) (m m' : list entry) : Prop := {
  sn_fits : Forall fits m';
  sn_pos : Forall pos m';
  sn_udisj : pairwise udisj m';
  sn_sorted : StronglySorted base_le m';
  sn_other : forall ty a, ty <> MEMMAP_USABLE -> has m' ty a <-> has m ty a;
  sn_sound : forall a, has m' MEMMAP_USABLE a -> vis m a /\ ~ hidden keep MEMMAP_USABLE a;
  sn_complete : align = false -> forall a,
    vis m a -> ~ hidden keep MEMMAP_USABLE a -> has m' MEMMAP_USABLE a;
  sn_aligned : Forall (page_aligned align) m';
}.

Lemma hidden_other keep ty a : ty <> MEMMAP_USABLE -> ~ hidden keep ty a.
Proof. unfold hidden. tauto. Qed.

(** The loops after the first, on what the first leaves; [R] is any relation they keep. *)
Lemma sanitise_tail R `{!SymRel R, !Shrinks R, !Merges R} keep align m1 :
  Forall fits m1 -> pairwise R m1 -> Forall (page_aligned align) m1 ->
  exists m',
    (m ← drop_empty (S (length m1)) keep m1 0;
     merge_entries (S (length (sort_entries m))) (sort_entries m) 0) = Ret m' /\
    merged R m' /\ Forall (page_aligned align) m' /\
    forall ty a, has m' ty a <-> has m1 ty a /\ ~ hidden keep ty a.
Proof.
  intros Hf Hd Hal. pose proof (zlen_nonneg m1).
  destruct (drop_empty_perm (S (length m1)) keep m1 0) as (m2 & -> & Hm2); [lia | unfold zlen; lia |].
  simpl in Hm2. rewrite drop_0 in Hm2. cbn [mbind outcome_bind].
  destruct (sort_entries_spec m2) as [Hp Hs]. set (m3 := sort_entries m2) in *. clearbody m3.
  rewrite Hm2 in Hp.
  assert (Hmg : merged R m3).
  { split; [rewrite Hp; by apply omap_kept_fits | rewrite Hp; by apply omap_kept_pos | | done].
    rewrite Hp. by apply omap_kept_pairwise. }
  destruct (merge_entries_spec R (page_aligned align) (S (length m3)) m3 0)
    as (m' & -> & Hm' & HP & _ & Hh);
    [apply page_aligned_merge | done | rewrite Hp; by apply omap_kept_aligned |
     split; [done | apply zlen_nonneg] | unfold zlen; lia |].
  exists m'. split_and!; [done.. |]. intros ty a. rewrite Hh, Hp. by apply has_omap.
Qed.

Lemma sanitise_terminates_spec keep align m :
  Forall fits m ->
  match pmm_sanitise_entries keep align m with
  | Ret m' => sanitised keep align m m'
  | Panic => ~ (Forall pos m /\ pairwise udisj m)
  | Diverge => False
  end.
Proof.
  intros Hf. unfold pmm_sanitise_entries. pose proof (zlen_nonneg m).
  pose proof (clip_usable_spec (sanitise_fuel m) align m 0 Hf ltac:(lia) ltac:(intros t Ht; lia)) as Hc.
  specialize (Hc ltac:(unfold clip_measure, sanitise_fuel, zlen; lia)).
  destruct (clip_usable _ _ _ _) as [m1| |] eqn:E; [| |done].
  2: { intros [Hp Hd]. by apply (clip_usable_no_panic (sanitise_fuel m) align m 0) in E. }
  destruct Hc as (F1 & [C1 C2 C3] & Cl).
  cbn [mbind outcome_bind]. pose proof (clean_pairwise _ _ Cl) as U1.
  destruct (sanitise_tail udisj keep align m1 F1 U1 (clean_aligned _ _ Cl))
    as (m' & -> & [M1 M2 M3 M4] & Hal & Hh).
  split; try done.
  - intros ty a Hty. rewrite Hh, C1 by done. pose proof (hidden_other keep ty a Hty). tauto.
  - intros a Ha. apply Hh in Ha as [Ha Hn]. split; [|done]. apply C2. by apply udisj_vis.
  - intros -> a Hv Hn. apply Hh. split; [|done]. by apply C3.
Qed.

(** A relation between the entries of a map that every operation keeps: plain
    disjointness, or disjointness of the usable entries from the others. *)
Class MapRel (R : entry -> entry -> Prop) : Prop := {
  #[global] mr_sym :: SymRel R;
  #[global] mr_shrinks :: Shrinks R;
  #[global] mr_merges :: Merges R;
  of_disj e f : disj e f -> R e f;
  to_udisj e f : R e f -> udisj e f;
}.
#[export] Instance disj_maprel : MapRel disj.
Proof. split; try apply _; [done | intros e f H _; done]. Qed.
#[export] Instance udisj_maprel : MapRel udisj.
Proof. split; try apply _; [intros e f H _; done | done]. Qed.

(** On non-empty entries so related the function cannot panic, and the result is
    so related again. *)
Lemma sanitise_disjoint_spec R `{!MapRel R} keep m :
  Forall fits m -> Forall pos m -> pairwise R m ->
  exists m', pmm_sanitise_entries keep false m = Ret m' /\ merged R m' /\
    forall ty a, has m' ty a <-> has m ty a /\ ~ hidden keep ty a.
Proof.
  intros Hf Hp Hd. pose proof (pairwise_impl R udisj m to_udisj Hd) as Hu. unfold pmm_sanitise_entries. pose proof (zlen_nonneg m).
  rewrite clip_usable_disjoint by (done || (unfold clip_measure, sanitise_fuel, zlen in *; lia)).
  cbn [mbind outcome_bind].
  destruct (sanitise_tail R keep false m Hf Hd) as (m' & Hm' & ? & _ & ?).
  - apply Forall_true. done.
  - eauto.
Qed.
