(* ===== verification/PmmAlloc.v ===== *)
(** The allocators of [pmm.s2.c]: what [pmm_new_entry], [memmap_alloc_range] and the
    allocation and release functions do to the typed address space a map describes. *)

From S2P Require Import Prelude Pmm PmmMap PmmSanitise.
Import Pmm.

(** * [pmm_new_entry] *)

(** What the loop leaves of one entry. *)
Definition carved (base top : Z) (e : entry) : list entry :=
  let '(ME b l ty) := e in
  if (base <=? b) && (top >=? b + l) then []
  else if (base <=? b) && (top <? b + l) && (top >? b) then [ME top (b + l - top) ty]
  else if (base >? b) && (base <? b + l) && (top >=? b + l) then [ME b (base - b) ty]
  else if (base >? b) && (top <? b + l) then [ME b (base - b) ty; ME top (b + l - top) ty]
  else [e].

Section carve.
Context (base top : Z).
Hypothesis (Hbt : 0 <= base <= top).

Lemma carved_spec e :
  fits e -> pos e ->
  Forall (fun p => sub p e /\ pos p /\ (e_top p <= base \/ top <= e_base p)) (carved base top e) /\
  pairwise disj (carved base top e) /\
  forall a, (exists p, p ∈ carved base top e /\ covers p a) <->
    covers e a /\ ~ base <= a < top.
Proof.
  destruct e as [b l ty]. unfold carved, fits, pos, sub, disj, covers, e_top. simpl. intros Hf Hp.
  setoid_rewrite list_elem_of_In.
  repeat (case_if; [|]); simpl; rewrite ?Forall_cons, ?Forall_nil; simpl;
    do 2 (split; [try split_and!; first [done | lia] |]);
    intros a; split.
  all: try (intros (p & [|[]] & ?); subst; simpl in *; lia).
  all: try (intros (p & [] & ?); subst; simpl in *; lia).
  all: try (intros ?; exfalso; lia).
  all: intros ?.
  - exists (ME top (b + l - top) ty). simpl. split; [by left | lia].
  - exists (ME b (base - b) ty). simpl. split; [by left | lia].
  - destruct (decide (a < base)).
    + exists (ME b (base - b) ty). simpl. split; [by left | lia].
    + exists (ME top (b + l - top) ty). simpl. split; [by right; left | lia].
  - exists (ME b l ty). simpl. split; [by left | lia].
Qed.

(** The entries the loop may still split weigh 2, the others 1. *)
Definition weight (e : entry) : nat := if e_base e <? base then 2 else 1.
Definition weights (m : list entry) : nat := sum_list_with weight m.

Lemma weights_perm m m' : m ≡ₚ m' -> weights m = weights m'.
Proof. intros H. unfold weights. by rewrite H. Qed.

(** The number of entries that split in two. *)
Definition splits (e : entry) : bool := (base >? e_base e) && (top <? e_top e).
Definition nsplit (m : list entry) : Z := zlen (filter (fun e => splits e = true) m).

#[export] Instance nsplit_perm : Proper (Permutation ==> eq) nsplit.
Proof. intros m m' H. unfold nsplit, zlen. by rewrite H. Qed.

Lemma nsplit_cons e m : nsplit (e :: m) = b2z (splits e) + nsplit m.
Proof.
  unfold nsplit. rewrite filter_cons. destruct (splits e); simpl; [|done].
  by rewrite zlen_cons.
Qed.
Lemma nsplit_nonneg m : 0 <= nsplit m.
Proof. apply zlen_nonneg. Qed.

Definition carve_post (m : list entry) (i max : Z) (o : outcome (list entry)) : Prop :=
  match o with
  | Ret m' => m' ≡ₚ take (Z.to_nat i) m ++ (drop (Z.to_nat i) m ≫= carved base top) /\
      zlen m' <= zlen m + nsplit (drop (Z.to_nat i) m)
  | Panic => max < zlen m + nsplit (drop (Z.to_nat i) m)
  | Diverge => False
  end.

(** One entry becomes [e'] in place, with [extra] appended. *)
Lemma carve_post_next m i max e' extra o :
  0 <= i < zlen m -> carved base top m.[i] = e' :: extra ->
  Forall (fun r => carved base top r = [r] /\ splits r = false) extra ->
  zlen extra = b2z (splits m.[i]) ->
  carve_post (m.[i := e'] ++ extra) (i + 1) max o -> carve_post m i max o.
Proof.
  intros Hi Hc Hx Hl. unfold carve_post.
  assert (Hex : extra ≫= carved base top = extra).
  { clear Hc Hl. induction Hx as [|r x [Hr _] Hx IH]; [done |]. by rewrite bind_cons, Hr, IH. }
  assert (Hns : nsplit extra = 0).
  { clear Hc Hl Hex. induction Hx as [|r x [_ Hr] Hx IH]; [done |]. rewrite nsplit_cons, Hr, IH. done. }
  assert (Happ : forall a b, nsplit (a ++ b) = nsplit a + nsplit b)
    by (intros a b; unfold nsplit; by rewrite filter_app, zlen_app).
  assert (Hle : (Z.to_nat (i + 1) <= length m.[i := e'])%nat)
    by (rewrite length_aset; unfold zlen in Hi; lia).
  rewrite (take_app_le _ _ _ Hle), (drop_app_le _ _ _ Hle), take_snoc_aset by done.
  rewrite zlen_app, zlen_aset, Hl, bind_app, Hex, Happ, Hns.
  unfold aset. rewrite drop_insert_lt by lia. replace (Z.to_nat (i + 1)) with (S (Z.to_nat i)) by lia.
  rewrite (drop_S m m.[i] (Z.to_nat i)) by (apply aget_lookup; lia).
  rewrite bind_cons, Hc, nsplit_cons. destruct o as [m'| |]; [|lia|done].
  intros [Hp Hlen]. split; [|lia]. rewrite Hp. solve_Permutation.
Qed.

(** The loop from index [i]: it replaces each entry by what [carved] leaves. *)
Lemma carve_perm fuel max m i :
  Forall fits m -> Forall pos m -> top < 2 ^ 64 ->
  0 <= i <= zlen m -> (weights (drop (Z.to_nat i) m) < fuel)%nat ->
  carve_post m i max (carve fuel max base top m i).
Proof.
  intros Hf Hp Ht. revert m i Hf Hp. induction fuel as [|fuel IH]; intros m i Hf Hp Hi Hw; [lia |].
  cbn [carve]. destruct (Z.ltb_spec i (zlen m)) as [Hlt|Hge].
  2: { simpl. rewrite take_all_zlen, drop_ge by (unfold zlen in *; lia). simpl.
       rewrite app_nil_r. split; [done |]. pose proof (nsplit_nonneg []). lia. }
  pose proof (aget_Forall _ _ i Hf ltac:(lia)) as Fi. pose proof (aget_Forall _ _ i Hp ltac:(lia)) as Pi.
  assert (Hdr : drop (Z.to_nat i) m = m.[i] :: drop (S (Z.to_nat i)) m)
    by (apply drop_S, aget_lookup; lia).
  rewrite Hdr in Hw.
  assert (Hnext : forall e' extra, carved base top m.[i] = e' :: extra ->
    Forall (fun r => fits r /\ pos r /\ carved base top r = [r] /\ splits r = false /\ weight r = 1%nat) extra ->
    zlen extra = b2z (splits m.[i]) ->
    fits e' -> pos e' -> (weights extra < weight m.[i])%nat ->
    carve_post m i max (carve fuel max base top (m.[i := e'] ++ extra) (i + 1))).
  { intros e' extra Hc Hx Hl Fe Pe Hwx.
    apply (carve_post_next m i max e' extra); [lia | done | | done |].
    - eapply Forall_impl; [exact Hx |]. intros r. simpl. tauto.
    - apply IH.
      + apply Forall_app. split; [apply Forall_aset; done || lia |].
        eapply Forall_impl; [exact Hx |]. intros r. simpl. tauto.
      + apply Forall_app. split; [apply Forall_aset; done || lia |].
        eapply Forall_impl; [exact Hx |]. intros r. simpl. tauto.
      + rewrite zlen_app, zlen_aset. pose proof (zlen_nonneg extra). lia.
      + rewrite drop_app_le by (rewrite length_aset; unfold zlen in *; lia).
        unfold aset. rewrite drop_insert_lt by lia.
        replace (Z.to_nat (i + 1)) with (S (Z.to_nat i)) by lia.
        unfold weights in *. rewrite sum_list_with_app. simpl in Hw. lia. }
  assert (Hdel : carved base top m.[i] = [] ->
    carve_post m i max (carve fuel max base top (remove_entry m i) i)).
  { intros Hc. assert (Hpm := drop_remove m i ltac:(lia)).
    specialize (IH (remove_entry m i) i). unfold carve_post in *.
    rewrite zlen_remove, take_remove, (weights_perm _ _ Hpm), (nsplit_perm _ _ Hpm) in IH by lia.
    rewrite Hdr, bind_cons, Hc, nsplit_cons. simpl in Hw.
    assert (0 <= b2z (splits m.[i])) by (by destruct (splits _)).
    specialize (IH ltac:(apply Forall_remove; done || lia) ltac:(apply Forall_remove; done || lia)
      ltac:(lia) ltac:(unfold weights, weight in *; destruct (_ <? _); lia)).
    destruct (carve _ _ _ _ _ _); [|lia|done]. destruct IH as [IH ?]. rewrite Hpm in IH.
    split; [done | lia]. }
  destruct m.[i] as [b l ty] eqn:Ei. unfold fits, pos, e_top in Fi, Pi. simpl in Fi, Pi.
  unfold CHECKED_ADD. rewrite (proj2 (Z.ltb_lt _ _)) by lia.
  assert (Hone : forall e', carved base top (ME b l ty) = [e'] -> splits (ME b l ty) = false ->
    fits e' -> pos e' -> carve_post m i max (carve fuel max base top m.[i := e'] (i + 1))).
  { intros e' Hc Hs Fe Pe. specialize (Hnext e' [] Hc ltac:(constructor)).
    rewrite app_nil_r in Hnext. apply Hnext; try done; [by rewrite Hs |].
    unfold weight. simpl. case_if; lia. }
  unfold carved, splits, e_top in *. cbn [e_base e_length] in *.
  destruct ((base <=? b) && (top >=? b + l)) eqn:C1; [by apply Hdel |].
  destruct ((base <=? b) && (top <? b + l) && (top >? b)) eqn:C2.
  { rewrite !u64_small by lia.
    replace (b + (top - b)) with top by lia. replace (l - (top - b)) with (b + l - top) by lia.
    apply Hone; [done | lia | unfold fits, e_top; simpl; lia | unfold pos; simpl; lia]. }
  destruct ((base >? b) && (base <? b + l) && (top >=? b + l)) eqn:C3.
  { rewrite !u64_small by lia. replace (l - (b + l - base)) with (base - b) by lia.
    apply Hone; [done | lia | unfold fits, e_top; simpl; lia | unfold pos; simpl; lia]. }
  destruct ((base >? b) && (top <? b + l)) eqn:C4.
  - rewrite u64_small by lia. replace (l - (b + l - base)) with (base - b) by lia.
    rewrite zlen_aset. destruct (Z.geb_spec (zlen m) max).
    { simpl. rewrite Hdr, nsplit_cons. unfold splits, e_top. simpl. rewrite C4.
      pose proof (nsplit_nonneg (drop (S (Z.to_nat i)) m)). simpl. lia. }
    apply Hnext; try done; [|unfold fits, e_top; simpl; lia | unfold pos; simpl; lia |].
    + constructor; [|constructor]. unfold fits, pos, weight, e_top. simpl.
      split_and!; try lia; repeat (case_if; try lia); try done.
    + unfold weights, weight. simpl. repeat (case_if; try lia).
  - assert (Hid : m.[i := ME b l ty] = m) by (rewrite <- Ei, aset_split, <- map_split; done || lia).
    rewrite <- Hid at 2. apply Hone; [done | lia | unfold fits, e_top; simpl; lia | unfold pos; simpl; lia].
Qed.
End carve.

Lemma weights_le base m : (weights base m <= 2 * length m)%nat.
Proof.
  unfold weights, weight. induction m as [|e m IH]; simpl; [lia |]. case_if; lia.
Qed.

Definition in_range (base top a : Z) : Prop := base <= a < top.

(** [retyped base top type m m']: [m'] is [m] with the addresses from [base] to
    [top] given the type [type] and no other. *)
Definition retyped (base top type : Z) (m m' : list entry) : Prop :=
  forall ty a, has m' ty a <->
    (ty = type /\ in_range base top a) \/ (has m ty a /\ ~ in_range base top a).

Section new_entry.
Context (R : entry -> entry -> Prop) `{!MapRel R} (base top : Z).
Hypothesis (Hbt : 0 <= base <= top).

Lemma has_carved m ty a :
  Forall fits m -> Forall pos m ->
  has (m ≫= carved base top) ty a <-> has m ty a /\ ~ in_range base top a.
Proof.
  intros Hf. induction Hf as [|e m Fe Hf IH]; intros Hp; [change ([] ≫= carved base top) with (@nil entry); rewrite has_nil; tauto |].
  apply Forall_cons in Hp as [Pe Hp]. rewrite bind_cons, has_app, has_cons, IH by done.
  destruct (carved_spec base top Hbt e Fe Pe) as (HF & _ & Hc).
  assert (has (carved base top e) ty a <-> (e_type e = ty /\ covers e a) /\ ~ in_range base top a)
    as ->; [|tauto].
  unfold has, in_range. rewrite Forall_forall in HF. specialize (Hc a). split.
  - intros (p & Hin & <- & Hcp). destruct (HF p Hin) as [[-> _] _].
    destruct (proj1 Hc (ex_intro _ p (conj Hin Hcp))). done.
  - intros [[<- Hce] Hn]. destruct (proj2 Hc (conj Hce Hn)) as (p & Hin & Hcp).
    exists p. destruct (HF p Hin) as [[-> _] _]. done.
Qed.

Lemma carved_pairwise m :
  Forall fits m -> Forall pos m -> pairwise R m -> pairwise R (m ≫= carved base top).
Proof.
  intros Hf. induction Hf as [|e m Fe Hf IH]; intros Hp; [done |].
  apply Forall_cons in Hp as [Pe Hp]. rewrite bind_cons. intros [HR Hpw].
  destruct (carved_spec base top Hbt e Fe Pe) as (HF & Hpd & _).
  apply pairwise_app. split_and!; [by eapply pairwise_impl; [apply of_disj |] | by apply IH |].
  eapply Forall_impl; [exact HF |]. intros p (Hs & _). clear - MapRel0 Hbt Hf Hp HR Hs.
  rewrite Forall_forall in *. intros q Hq. apply list_elem_of_bind in Hq as (f & Hqf & Hin).
  destruct (carved_spec base top Hbt f (Hf f Hin) (Hp f Hin)) as (HFf & _).
  rewrite Forall_forall in HFf. destruct (HFf q Hqf) as (Hsq & _).
  eapply shrink; [exact Hs |]. apply sym_rel. eapply shrink; [exact Hsq |]. apply sym_rel. auto.
Qed.

Lemma carved_Forall m :
  Forall fits m -> Forall pos m ->
  Forall (fun p => fits p /\ pos p /\ (e_top p <= base \/ top <= e_base p)) (m ≫= carved base top).
Proof.
  intros Hf Hp. apply Forall_forall. rewrite Forall_forall in Hf, Hp. intros q Hq.
  apply list_elem_of_bind in Hq as (f & Hqf & Hin).
  destruct (carved_spec base top Hbt f (Hf f Hin) (Hp f Hin)) as (HF & _).
  rewrite Forall_forall in HF. destruct (HF q Hqf) as (Hs & ? & ?).
  split_and!; [|done..]. eapply sub_fits; eauto.
Qed.
End new_entry.

(** [pmm_new_entry] gives the range its type; it fails only when the map is full. *)
Lemma pmm_new_entry_spec R `{!MapRel R} max m base length type :
  Forall fits m -> Forall pos m -> pairwise R m ->
  0 <= base -> 0 < length -> base + length < 2 ^ 64 ->
  match pmm_new_entry max m base length type with
  | Ret m' => Forall fits m' /\ Forall pos m' /\ pairwise R m' /\
      retyped base (base + length) type m m'
  | Panic => max <= zlen m + nsplit base (base + length) m
  | Diverge => False
  end.
Proof.
  intros Hf Hp HR Hb Hl Ht. unfold pmm_new_entry.
  rewrite (proj2 (CHECKED_ADD_Some base length (base + length))) by done.
  cbn [or_panic mbind outcome_bind]. set (top := base + length) in *.
  assert (Hbt : 0 <= base <= top) by (subst top; lia).
  pose proof (carve_perm base top Hbt (S (2 * List.length m)) max m 0 Hf Hp Ht
    ltac:(pose proof (zlen_nonneg m); lia)) as Hc.
  rewrite drop_0 in Hc. specialize (Hc ltac:(pose proof (weights_le base m); lia)).
  unfold carve_post in Hc. change (Z.to_nat 0) with 0%nat in Hc. rewrite drop_0, take_0 in Hc. cbn [app] in Hc.
  destruct (carve _ _ _ _ _ _) as [m1| |]; cbn [mbind outcome_bind]; [|lia|done].
  destruct Hc as [Hm1 Hlen]. destruct (Z.geb_spec (zlen m1) max); [lia |].
  pose proof (carved_Forall base top Hbt m Hf Hp) as HC. rewrite <- Hm1 in HC.
  split_and!.
  - apply Forall_app. split; [eapply Forall_impl; [exact HC |]; naive_solver |].
    repeat constructor; simpl; done || lia.
  - apply Forall_app. split; [eapply Forall_impl; [exact HC |]; naive_solver |].
    repeat constructor; simpl; done || lia.
  - apply pairwise_app. split_and!; [rewrite Hm1; by apply carved_pairwise | done |].
    eapply Forall_impl; [exact HC |]. intros p (_ & _ & Hd). constructor; [|constructor].
    apply of_disj. unfold disj, e_top in *. simpl. lia.
  - intros ty a. rewrite has_app, Hm1, has_carved, has_cons, has_nil by done.
    unfold covers, e_top, in_range. simpl. fold top. naive_solver.
Qed.

(** * [memmap_alloc_range_in] *)

(** No usable address of the map is one the sanitiser would hide. *)
Definition visible (keep : bool) (m : list entry) : Prop :=
  forall a, has m MEMMAP_USABLE a -> ~ hidden keep MEMMAP_USABLE a.

(** The invariant of a map between two operations. *)
Record wf_map (R : entry -> entry -> Prop) (keep : bool) (m : list entry) : Prop := {
  wf_merged : merged R m;
  wf_visible : visible keep m;
}.

Lemma visible_hidden keep m ty a : visible keep m -> has m ty a -> ~ hidden keep ty a.
Proof.
  intros Hv Hh Hd. pose proof Hd as (_ & -> & _). by destruct (Hv a Hh).
Qed.

(** The step every successful call takes. *)
Definition alloc_success (keep : bool) (max : Z) (m : list entry) (base length type : Z)
    : outcome (bool * list entry) :=
  m ← pmm_new_entry max m base length type;
  m ← pmm_sanitise_entries keep false m;
  Ret (true, m).

(** The range is in an entry of the overlay type. *)
Definition inside (m : list entry) (overlay base top : Z) : Prop :=
  exists e, e ∈ m /\ (overlay = 0 \/ e_type e = overlay) /\ e_base e <= base < e_top e /\ top <= e_top e.

Lemma range_fits_inside m overlay base top :
  Forall fits m -> existsb (range_fits overlay base top) m = true <-> inside m overlay base top.
Proof.
  intros Hf. rewrite existsb_exists. unfold inside.
  assert (H : forall e, e ∈ m -> range_fits overlay base top e = true <->
    (overlay = 0 \/ e_type e = overlay) /\ e_base e <= base < e_top e /\ top <= e_top e).
  { intros e He. rewrite Forall_forall in Hf. specialize (Hf e He). unfold range_fits, fits, e_top in *.
    unfold CHECKED_ADD. rewrite (proj2 (Z.ltb_lt _ _)) by lia.
    destruct (Z.eqb_spec overlay 0), (Z.eqb_spec (e_type e) overlay); simpl; lia. }
  setoid_rewrite <- list_elem_of_In. split; intros (e & He & Hx); exists e; (split; [done |]); by apply H.
Qed.

Section alloc_range.
Context (R : entry -> entry -> Prop) `{!MapRel R} (keep : bool) (max : Z) (m : list entry)
  (base length type : Z).
Hypothesis (Hwf : wf_map R keep m).
Hypothesis (Hb : 0 <= base) (Hl : 0 < length) (Ht : base + length < 2 ^ 64).
Hypothesis (Hvis : forall a, in_range base (base + length) a -> ~ hidden keep type a).

Lemma alloc_success_spec :
  match alloc_success keep max m base length type with
  | Ret (b, m') => b = true /\ wf_map R keep m' /\ retyped base (base + length) type m m'
  | Panic => max <= zlen m + nsplit base (base + length) m
  | Diverge => False
  end.
Proof.
  unfold alloc_success. destruct Hwf as [[Hf Hp HR Hs] Hv].
  pose proof (pmm_new_entry_spec R max m base length type Hf Hp HR Hb Hl Ht) as Hn.
  destruct (pmm_new_entry _ _ _ _ _) as [m1| |]; cbn [mbind outcome_bind]; [|done..].
  destruct Hn as (F1 & P1 & R1 & Hr).
  destruct (sanitise_disjoint_spec R keep m1 F1 P1 R1) as (m2 & -> & Hm2 & Hh).
  cbn [mbind outcome_bind].
  assert (Hh' : forall ty a, has m2 ty a <-> has m1 ty a).
  { intros ty a. rewrite Hh. split; [tauto |]. intros Ha. split; [done |].
    apply Hr in Ha as [[-> Ha]|[Ha _]]; [by apply Hvis | by eapply visible_hidden]. }
  split_and!; [done | split; [done |] | intros ty a; by rewrite Hh'].
  intros a Ha. by apply Hh in Ha as [_ ?].
Qed.

(** A range inside a usable entry splits no other entry. *)
Lemma nsplit_usable : inside m MEMMAP_USABLE base (base + length) -> nsplit base (base + length) m <= 1.
Proof.
  intros (e & He & [?|Hty] & Hin). { done. }
  apply list_elem_of_split in He as (l1 & l2 & Hm). destruct Hwf as [[Hf Hp HR Hs] Hv].
  assert (Hpm : m ≡ₚ e :: (l1 ++ l2)) by (rewrite Hm; by rewrite <- Permutation_middle).
  rewrite Hpm, nsplit_cons. rewrite Hpm in HR, Hp. simpl in HR. destruct HR as [HR _].
  assert (nsplit base (base + length) (l1 ++ l2) = 0) as ->; [|destruct (splits _ _ _); simpl; lia].
  apply Forall_cons in Hp as [_ Hp].
  clear Hpm Hm. induction (l1 ++ l2) as [|f l IH]; [done |]. apply Forall_cons in HR as [Hef HR], Hp as [Pf Hp].
  rewrite nsplit_cons, IH by done. apply to_udisj in Hef.
  specialize (Hef (or_introl (proj2 (usable_type e) Hty))).
  unfold splits, disj, e_top, pos in *. destruct (_ && _) eqn:E; [|done].
  unfold e_top in *. lia.
Qed.
End alloc_range.

(** * [ext_mem_alloc_type_aligned_mode] *)

Definition align_up (count alignment : Z) : Z := ALIGN_DOWN (count + (alignment - 1)) alignment.

Lemma ALIGN_DOWN_spec x a : 0 < a -> ALIGN_DOWN x a <= x < ALIGN_DOWN x a + a /\ ALIGN_DOWN x a mod a = 0.
Proof.
  intros Ha. unfold ALIGN_DOWN. rewrite Z.mod_mul by lia.
  pose proof (Z.div_mod x a ltac:(lia)). pose proof (Z.mod_pos_bound x a Ha). lia.
Qed.

(** The largest multiple: no multiple of [a] lies between [ALIGN_DOWN x a] and [x]. *)
Lemma ALIGN_DOWN_max x a y : 0 < a -> y mod a = 0 -> y <= x -> y <= ALIGN_DOWN x a.
Proof.
  intros Ha Hy Hle. unfold ALIGN_DOWN. apply Z.div_exact in Hy; [|lia].
  rewrite Hy, Z.mul_comm. apply Z.mul_le_mono_nonneg_r; [lia |]. by apply Z.div_le_mono.
Qed.

Lemma align_up_spec count alignment :
  0 < alignment -> 0 < count ->
  count <= align_up count alignment < count + alignment /\ align_up count alignment mod alignment = 0.
Proof. intros Ha Hc. unfold align_up. pose proof (ALIGN_DOWN_spec (count + (alignment - 1)) alignment Ha). lia. Qed.

(** A usable entry has [count] bytes at a multiple of [alignment] below [limit]. *)
Definition room (m : list entry) (limit count alignment : Z) : Prop :=
  exists e a, e ∈ m /\ e_type e = MEMMAP_USABLE /\ a mod alignment = 0 /\
    e_base e <= a /\ a + count <= e_top e /\ a + count <= limit.

Lemma find_free_spec n m limit count alignment :
  Forall fits m -> (n <= length m)%nat -> 0 < alignment -> 0 < count ->
  match find_free n m limit count alignment with
  | Some (p, top) => p mod alignment = 0 /\ 0 <= p /\ p + count <= top < p + count + alignment /\ top <= limit /\
      inside m MEMMAP_USABLE p top
  | None => ~ room (take n m) limit count alignment
  end.
Proof.
  intros Hf. induction n as [|n IH]; intros Hn Ha Hc; cbn [find_free].
  { intros (e & a & He & _). by apply not_elem_of_nil in He. }
  specialize (IH ltac:(lia) Ha Hc). set (e := m.[Z.of_nat n]).
  assert (He : m !! n = Some e).
  { pose proof (aget_lookup m (Z.of_nat n) ltac:(unfold zlen; lia)) as H. by rewrite Nat2Z.id in H. }
  pose proof (Forall_lookup_1 _ _ _ _ Hf He) as Fe.
  assert (Hskip : (forall a, e_type e = MEMMAP_USABLE -> a mod alignment = 0 -> e_base e <= a ->
      a + count <= e_top e -> a + count <= limit -> False) ->
    match find_free n m limit count alignment with
    | Some (p, top) => p mod alignment = 0 /\ 0 <= p /\ p + count <= top < p + count + alignment /\ top <= limit /\
        inside m MEMMAP_USABLE p top
    | None => ~ room (take (S n) m) limit count alignment
    end).
  { intros Hno. destruct (find_free n m limit count alignment); [done |].
    intros (f & a & Hin & Hr). rewrite (take_S_r _ _ _ He), elem_of_app, list_elem_of_singleton in Hin.
    destruct Hin as [Hin| ->]; [apply IH; by exists f, a | destruct Hr as (?&?&?&?&?); by apply (Hno a)]. }
  destruct (is_usable e) eqn:Hu; cbn [negb].
  2: { apply Hskip. intros a Ht. apply usable_type in Ht. congruence. }
  unfold fits, e_top in *. unfold CHECKED_ADD. rewrite (proj2 (Z.ltb_lt _ _)) by lia. simpl.
  set (top := if _ >? limit then limit else _).
  assert (Htop : top <= limit /\ top <= e_base e + e_length e /\
    (top = limit \/ top = e_base e + e_length e)) by (subst top; case_if; lia).
  destruct ((e_base e + e_length e >? limit) && (e_base e >=? top)) eqn:E1; [apply Hskip; intros; lia |].
  destruct (Z.ltb_spec (top - e_base e) count); [apply Hskip; intros; lia |].
  pose proof (ALIGN_DOWN_spec (top - count) alignment Ha).
  destruct (Z.ltb_spec (ALIGN_DOWN (top - count) alignment) (e_base e)).
  - apply Hskip. intros a _ Hal Hb Ht Hlim.
    pose proof (ALIGN_DOWN_max (top - count) alignment a Ha Hal ltac:(lia)). lia.
  - split_and!; try lia. exists e. unfold e_top. split; [by eapply list_elem_of_lookup_2 |].
    split; [right; by apply usable_type | lia].
Qed.

(** The invariant of the allocator's state. *)
Definition wf (R : entry -> entry -> Prop) (st : state) : Prop :=
  wf_map R st.(keep_first_page) st.(memmap).

Lemma inside_has m base top a :
  inside m MEMMAP_USABLE base top -> in_range base top a -> has m MEMMAP_USABLE a.
Proof.
  intros (e & He & [?|Ht] & Hin) Ha; [discriminate |]. exists e. unfold covers, in_range in *.
  split_and!; done || lia.
Qed.

(** The state after an allocation: the map is retyped, the rest is as it was. *)
Record allocated (R : entry -> entry -> Prop) (st st' : state) (base top type : Z) : Prop := {
  al_wf : wf R st';
  al_types : retyped base top type st.(memmap) st'.(memmap);
  al_max : st'.(max_entries) = st.(max_entries);
  al_allowed : st'.(allocations_disallowed) = st.(allocations_disallowed);
  al_keep : st'.(keep_first_page) = st.(keep_first_page);
}.

Section alloc.
Context (R : entry -> entry -> Prop) `{!MapRel R}.

Lemma sanitise_wf st :
  wf R st -> exists m, sanitise st false = Ret (set_memmap st m) /\
    wf_map R st.(keep_first_page) m /\ forall ty a, has m ty a <-> has st.(memmap) ty a.
Proof.
  intros [[Hf Hp HR Hs] Hv]. unfold sanitise.
  destruct (sanitise_disjoint_spec R st.(keep_first_page) _ Hf Hp HR) as (m & -> & Hm & Hh).
  exists m. split; [done |].
  assert (Hh' : forall ty a, has m ty a <-> has (memmap st) ty a).
  { intros ty a. rewrite Hh. split; [tauto |]. eauto using visible_hidden. }
  split; [split; [done |] | done]. intros a Ha. by apply Hh in Ha as [_ ?].
Qed.

Lemma memmap_alloc_range_inside st base length type dp ne :
  wf R st -> 0 <= base -> 0 < length -> base + length < 2 ^ 64 ->
  (forall a, in_range base (base + length) a -> ~ hidden st.(keep_first_page) type a) ->
  inside st.(memmap) MEMMAP_USABLE base (base + length) ->
  match memmap_alloc_range st base length type MEMMAP_USABLE dp false ne with
  | Ret (b, st') => b = true /\ (exists m, st' = set_memmap st m) /\
      allocated R st st' base (base + length) type
  | Panic => st.(max_entries) <= zlen st.(memmap) + 1
  | Diverge => False
  end.
Proof.
  intros Hwf Hb Hl Ht Hvis Hin. unfold memmap_alloc_range, memmap_alloc_range_in.
  rewrite (proj2 (Z.eqb_neq length 0)) by lia. simpl.
  rewrite (proj2 (CHECKED_ADD_Some base length (base + length))) by done.
  destruct Hwf as [Hm Hv]. pose proof (mg_fits _ _ Hm) as Hf.
  rewrite (proj2 (range_fits_inside _ _ _ _ Hf) Hin).
  pose proof (alloc_success_spec R st.(keep_first_page) st.(max_entries) st.(memmap) base length type
    (Build_wf_map _ _ _ Hm Hv) Hb Hl Ht Hvis) as Hs. unfold alloc_success in Hs.
  pose proof (nsplit_usable R st.(keep_first_page) st.(memmap) base length
    (Build_wf_map _ _ _ Hm Hv) Hl Hin) as Hn.
  destruct (mbind _ (pmm_new_entry _ _ _ _ _)) as [[b m']| |]; cbn [mbind outcome_bind]; [|lia|done].
  destruct Hs as (-> & Hwf' & Hr). split_and!; [done | by eexists |]. by split.
Qed.

Lemma allocated_sanitise st st1 base top type r :
  allocated R st st1 base top type ->
  exists st2, sanitise (set_ram st1 r) false = Ret st2 /\ allocated R st st2 base top type /\
    st2.(ram) = r /\ st2.(conv_base) = st1.(conv_base).
Proof.
  intros [Hwf Ht H1 H2 H3]. destruct (sanitise_wf (set_ram st1 r) Hwf) as (m & -> & Hm & Hh).
  eexists. split; [done |]. split; [|done]. split; try done.
  intros ty a. simpl. by rewrite Hh.
Qed.

(** The search below [0x100000000], then, if allowed, anywhere. *)
Definition search (m : list entry) (count alignment : Z) (high : bool) : option (Z * Z) :=
  match find_free (length m) m 0x100000000 count alignment with
  | Some r => Some r
  | None => if high then find_free (length m) m UINT64_MAX count alignment else None
  end.

Lemma search_spec m count alignment high :
  Forall fits m -> 0 < alignment -> 0 < count ->
  match search m count alignment high with
  | Some (p, top) => p mod alignment = 0 /\ 0 <= p /\ p + count <= top < p + count + alignment /\ top < 2 ^ 64 /\
      (high = false -> top <= 0x100000000) /\ inside m MEMMAP_USABLE p top
  | None => ~ room m 0x100000000 count alignment /\
      (high = true -> ~ room m UINT64_MAX count alignment)
  end.
Proof.
  intros Hf Ha Hc. unfold search.
  pose proof (find_free_spec (length m) m 0x100000000 count alignment Hf ltac:(lia) Ha Hc) as H1.
  pose proof (find_free_spec (length m) m UINT64_MAX count alignment Hf ltac:(lia) Ha Hc) as H2.
  rewrite (take_ge m (length m)) in H1, H2 by lia. unfold UINT64_MAX in *.
  destruct (find_free _ m 0x100000000 _ _) as [[p top]|]; [split_and!; try apply H1; lia |].
  destruct high; [|done]. destruct (find_free _ m _ _ _) as [[p top]|]; [|done].
  split_and!; try apply H2; lia || done.
Qed.

Lemma ext_mem_alloc_lemma i386 st count type alignment high :
  wf R st -> 0 < alignment -> 0 < count ->
  match ext_mem_alloc_type_aligned_mode i386 st count type alignment high with
  | Ret (p, st') => exists top,
      p mod alignment = 0 /\ 0 <= p /\ p + align_up count alignment <= top < p + align_up count alignment + alignment /\ top < 2 ^ 64 /\
      (high = false -> top <= 0x100000000) /\
      inside st.(memmap) MEMMAP_USABLE p top /\ allocated R st st' p top type /\
      st'.(conv_base) = st.(conv_base) /\
      st'.(ram) = (if i386 && high then st.(ram)
                   else mem_fill st.(ram) p 0 (align_up count alignment))
  | Panic => 2 ^ 64 <= count + (alignment - 1) \/ st.(allocations_disallowed) = true \/
      (~ room st.(memmap) 0x100000000 (align_up count alignment) alignment /\
       (high = true -> ~ room st.(memmap) UINT64_MAX (align_up count alignment) alignment)) \/
      st.(max_entries) <= zlen st.(memmap) + 1
  | Diverge => False
  end.
Proof.
  intros Hwf Ha Hc. pose proof (align_up_spec count alignment Ha Hc) as Hup.
  unfold ext_mem_alloc_type_aligned_mode.
  destruct (CHECKED_ADD _ _) as [c|] eqn:Ec; cbn [or_panic mbind outcome_bind].
  2: { apply CHECKED_ADD_None in Ec. by left. }
  apply CHECKED_ADD_Some in Ec as [-> Hov]. fold (align_up count alignment).
  set (n := align_up count alignment) in *.
  destruct (allocations_disallowed st) eqn:Ed; [by right; left |].
  fold (search st.(memmap) n alignment high).
  pose proof (search_spec st.(memmap) n alignment high (mg_fits _ _ (wf_merged _ _ _ Hwf)) Ha ltac:(lia)) as Hs.
  destruct (search _ _ _ _) as [[p top]|]; cbn [or_panic mbind outcome_bind]; [|by right; right; left].
  destruct Hs as (Hal & H0 & Hpt & Htop & Hlow & Hin).
  replace top with (p + (top - p)) in Hin by lia.
  pose proof (memmap_alloc_range_inside st p (top - p) type true false Hwf H0 ltac:(lia) ltac:(lia)) as Hr.
  specialize (Hr ltac:(intros a Hra (Hk & -> & Hlt); eapply (wf_visible _ _ _ Hwf);
    [eapply inside_has; eassumption | done]) Hin).
  destruct (memmap_alloc_range _ _ _ _ _ _ _ _) as [[b st1]| |]; cbn [mbind outcome_bind]; [|by do 3 right|done].
  destruct Hr as (_ & (m & Hst1) & Hal1). replace (p + (top - p)) with top in * by lia.
  set (r := if i386 && high then st.(ram) else mem_fill st.(ram) p 0 n).
  assert (Hram : (if i386 && high then st1 else set_ram st1 (mem_fill (ram st1) p 0 n)) = set_ram st1 r).
  { subst r st1. destruct (i386 && high); by destruct st. }
  rewrite Hram. destruct (allocated_sanitise st st1 p top type r Hal1) as (st2 & -> & Hal2 & Hr2 & Hcb).
  exists top. rewrite Hcb, Hst1. split_and!; done || lia.
Qed.
End alloc.
