(* ===== verification/PmmOps.v ===== *)
(** The other operations of the physical memory manager: release, reallocation, conventional memory,
    start-up, and the queries on a memory map. *)

From S2P Require Import Prelude Pmm PmmMap PmmSanitise PmmAlloc.
Import Pmm.

(** * [memmap_alloc_range_in] on every branch *)

Section range.
Context (R : entry -> entry -> Prop) `{!MapRel R} (keep : bool) (max : Z) (m : list entry)
  (base length type overlay : Z) (dp ne : bool).
Hypothesis (Hwf : wf_map R keep m) (Hb : 0 <= base) (Hl : 0 < length).
Hypothesis (Hvis : forall a, in_range base (base + length) a -> ~ hidden keep type a).

(** The call succeeds exactly when the range does not wrap around and is in an
    entry of the overlay type, or may be anywhere. *)
Definition grantable : Prop :=
  base + length < 2 ^ 64 /\ (ne = true \/ inside m overlay base (base + length)).

Lemma memmap_alloc_range_in_lemma :
  match memmap_alloc_range_in keep max m base length type overlay dp false ne with
  | Ret (true, m') => grantable /\ wf_map R keep m' /\ retyped base (base + length) type m m'
  | Ret (false, m') => ~ grantable /\ dp = false /\ m' = m
  | Panic => (~ grantable /\ dp = true) \/
      (grantable /\ max <= zlen m + nsplit base (base + length) m)
  | Diverge => False
  end.
Proof.
  unfold memmap_alloc_range_in, grantable. rewrite (proj2 (Z.eqb_neq length 0)) by lia. simpl.
  destruct (CHECKED_ADD base length) as [top|] eqn:Et.
  2: { apply CHECKED_ADD_None in Et. destruct dp; [left | split_and!]; try done; lia. }
  apply CHECKED_ADD_Some in Et as [-> Ht].
  pose proof (alloc_success_spec R keep max m base length type Hwf Hb Hl Ht Hvis) as Hs.
  unfold alloc_success in Hs. set (o := mbind _ (pmm_new_entry _ _ _ _ _)) in *. clearbody o.
  pose proof (mg_fits _ _ (wf_merged _ _ _ Hwf)) as Hf.
  pose proof (range_fits_inside m overlay base (base + length) Hf) as Hin.
  assert (Hgo : ne = true \/ inside m overlay base (base + length) ->
    match o with
    | Ret (true, m') => (base + length < 2 ^ 64 /\ (ne = true \/ inside m overlay base (base + length)))
        /\ wf_map R keep m' /\ retyped base (base + length) type m m'
    | Ret (false, m') => ~ (base + length < 2 ^ 64 /\ (ne = true \/ inside m overlay base (base + length)))
        /\ dp = false /\ m' = m
    | Panic => (~ (base + length < 2 ^ 64 /\ (ne = true \/ inside m overlay base (base + length)))
        /\ dp = true) \/ ((base + length < 2 ^ 64 /\ (ne = true \/ inside m overlay base (base + length)))
        /\ max <= zlen m + nsplit base (base + length) m)
    | Diverge => False
    end).
  { intros Hg. destruct o as [[b m']| |]; [|by right|done]. by destruct Hs as (-> & ? & ?). }
  destruct (existsb _ m) eqn:Ex.
  - apply Hgo. right. by apply Hin.
  - assert (~ inside m overlay base (base + length)) by (intros Hi; apply Hin in Hi; congruence).
    destruct ne; [apply Hgo; by left |]. destruct dp; [left | split_and!]; try done; naive_solver.
Qed.
End range.

(** Two entries that are apart are not both split by one range. *)
Lemma nsplit_disj base top m : base <= top -> Forall pos m -> pairwise disj m -> nsplit base top m <= 1.
Proof.
  intros Hbt. induction m as [|e m IH]; [done |]. intros HP [HR Hp]. apply Forall_cons in HP as [Pe HP].
  rewrite nsplit_cons. specialize (IH HP Hp). destruct (splits base top e) eqn:E; simpl; [|done].
  assert (nsplit base top m = 0) as ->; [|done]. clear IH Hp.
  induction m as [|f m IH]; [done |]. apply Forall_cons in HR as [Hef HR], HP as [Pf HP].
  rewrite nsplit_cons, IH by done. unfold splits, disj, e_top in *.
  destruct ((base >? e_base f) && _) eqn:E'; [|done]. lia.
Qed.

(** * [pmm_free] *)

Lemma ALIGN_UP_spec x a :
  0 < a -> 0 <= x ->
  match ALIGN_UP x a with
  | Some y => y = align_up x a /\ x + (a - 1) < 2 ^ 64
  | None => 2 ^ 64 <= x + (a - 1)
  end.
Proof.
  intros Ha Hx. unfold ALIGN_UP, DIV_ROUNDUP, align_up, ALIGN_DOWN.
  destruct (CHECKED_ADD _ _) as [c|] eqn:E; simpl; [|by apply CHECKED_ADD_None in E].
  apply CHECKED_ADD_Some in E as [-> Hc]. split; [|done].
  pose proof (ALIGN_DOWN_spec (x + (a - 1)) a Ha). unfold ALIGN_DOWN in *.
  apply u64_small. split; [|lia]. apply Z.mul_nonneg_nonneg; [|lia]. apply Z.div_pos; lia.
Qed.

Section ops.
Context (R : entry -> entry -> Prop) `{!MapRel R}.

Lemma pmm_free_lemma st ptr count :
  wf R st -> 0 <= ptr -> 0 < count -> (st.(keep_first_page) = true \/ 0x1000 <= ptr) ->
  ptr + align_up count 4096 < 2 ^ 64 ->
  match pmm_free st ptr count with
  | Ret st' => ptr mod 4096 = 0 /\ st.(allocations_disallowed) = false /\
      allocated R st st' ptr (ptr + align_up count 4096) MEMMAP_USABLE /\
      st'.(ram) = st.(ram) /\ st'.(conv_base) = st.(conv_base)
  | Panic => ptr mod 4096 <> 0 \/ 2 ^ 64 <= count + 4095 \/ st.(allocations_disallowed) = true \/
      st.(max_entries) <= zlen st.(memmap) + nsplit ptr (ptr + align_up count 4096) st.(memmap)
  | Diverge => False
  end.
Proof.
  intros Hwf Hp Hc Hk Ht. pose proof (align_up_spec count 4096 ltac:(lia) Hc) as Hup.
  unfold pmm_free. destruct (Z.eqb_spec (ptr mod 4096) 0) as [Hm|]; [simpl | by left].
  pose proof (ALIGN_UP_spec count 4096 ltac:(lia) ltac:(lia)) as Ha.
  destruct (ALIGN_UP count 4096) as [n|]; cbn [or_panic mbind outcome_bind]; [|right; left; lia].
  destruct Ha as [-> Ha]. destruct (allocations_disallowed st) eqn:Ed; [by do 2 right; left |].
  unfold memmap_alloc_range.
  pose proof (memmap_alloc_range_in_lemma R st.(keep_first_page) st.(max_entries) st.(memmap)
    ptr (align_up count 4096) MEMMAP_USABLE 0 false true Hwf Hp ltac:(lia)) as H.
  specialize (H ltac:(intros a Hin (Hf & _ & Hlt); unfold in_range in Hin;
    destruct Hk; [congruence | lia])).
  unfold grantable in H.
  destruct (memmap_alloc_range_in _ _ _ _ _ _ _ _ _ _) as [[[] m']| |]; cbn [mbind outcome_bind].
  - destruct H as (_ & Hwf' & Hr). split_and!; try done.
  - destruct H as [[] _]. auto.
  - do 3 right. destruct H as [[H _]|H]; [destruct H; auto | tauto].
  - done.
Qed.

Lemma set_memmap_id st : set_memmap st st.(memmap) = st.
Proof. by destruct st. Qed.

(** * [conv_mem_alloc] *)

(** A block of conventional memory: below 1 MiB, cleared, and taken. *)
Record conv_post (st st' : state) (p n : Z) : Prop := {
  cv_base : st.(conv_base) <= p;
  cv_page : (p - st.(conv_base)) mod 4096 = 0;
  cv_low : p + n <= 0x100000;
  cv_inside : inside st.(memmap) MEMMAP_USABLE p (p + n);
  cv_alloc : allocated R st st' p (p + n) MEMMAP_BOOTLOADER_RECLAIMABLE;
  cv_ram : st'.(ram) = mem_fill st.(ram) p 0 n;
  cv_next : st'.(conv_base) = p + n;
}.

Lemma conv_post_next st st' p n :
  conv_post (set_conv_base st (st.(conv_base) + 4096)) st' p n -> conv_post st st' p n.
Proof.
  intros [H1 H2 H3 H4 [H5 H6 H7 H8 H9] H10 H11]. simpl in *. split; try done; [lia |].
  replace (p - conv_base st) with (p - (conv_base st + 4096) + 1 * 4096) by lia.
  by rewrite Z.mod_add by lia.
Qed.

(** When the length is close to [2^64] the guard's sum wraps around, and the loop
    runs past 1 MiB before it panics. *)
Lemma conv_loop_lemma fuel st n :
  wf R st -> 0 < n < 2 ^ 64 -> 0 <= st.(conv_base) <= 0x203000 ->
  st.(conv_base) <= 0x101000 \/ 2 ^ 64 <= n + 0x101000 ->
  0x203000 - st.(conv_base) < Z.of_nat fuel * 4096 ->
  match conv_loop fuel st n with
  | Ret (p, st') => conv_post st st' p n
  | Panic => True
  | Diverge => False
  end.
Proof.
  revert st; induction fuel as [|fuel IH]; intros st Hwf Hn Hb Hor Hf; [lia |]. cbn [conv_loop].
  destruct (Z.gtb_spec (u64 (conv_base st + n)) 0x100000) as [|Hle]; [done |].
  assert (Hg : conv_base st + n <= 0x100000 \/
    2 ^ 64 <= conv_base st + n /\ conv_base st + n - 2 ^ 64 <= 0x100000).
  { destruct (decide (conv_base st + n < 2 ^ 64)); [rewrite u64_small in Hle by lia; lia | right].
    unfold u64, wrap in Hle. rewrite <- (Z.mod_unique (conv_base st + n) (2 ^ 64) 1 (conv_base st + n - 2 ^ 64)) in Hle; lia. }
  unfold memmap_alloc_range.
  pose proof (memmap_alloc_range_in_lemma R st.(keep_first_page) st.(max_entries) st.(memmap)
    st.(conv_base) n MEMMAP_BOOTLOADER_RECLAIMABLE MEMMAP_USABLE false false Hwf ltac:(lia) ltac:(lia)
    ltac:(intros a _; by apply hidden_other)) as H. unfold grantable in H.
  destruct (memmap_alloc_range_in _ _ _ _ _ _ _ _ _ _) as [[[] m']| |]; cbn [mbind outcome_bind]; [| |done..].
  - destruct H as ((Hlt & [?|Hin]) & Hwf' & Hr); [done |].
    rewrite u64_small by lia.
    set (st1 := set_conv_base st (conv_base st + n)).
    change (set_conv_base _ _) with
      (set_ram (set_memmap st1 m') (mem_fill st.(ram) (conv_base st) 0 n)).
    destruct (allocated_sanitise R st (set_memmap st1 m') (conv_base st) (conv_base st + n)
      MEMMAP_BOOTLOADER_RECLAIMABLE (mem_fill st.(ram) (conv_base st) 0 n)) as (st2 & -> & Ha & Hr2 & Hc2);
      [by split |].
    cbn [mbind outcome_bind]. split; try done; [|lia]. by rewrite Z.sub_diag.
  - destruct H as (_ & _ & ->). rewrite set_memmap_id, u64_small by lia.
    specialize (IH (set_conv_base st (conv_base st + 4096)) Hwf Hn).
    simpl in IH. specialize (IH ltac:(lia) ltac:(lia) ltac:(lia)).
    destruct (conv_loop _ _ _) as [[p st']| |]; [|done..]. by apply conv_post_next.
Qed.

Lemma conv_mem_alloc_lemma st count :
  wf R st -> 0 < count -> 0 <= st.(conv_base) <= 0x101000 ->
  match conv_mem_alloc st count with
  | Ret (p, st') => st.(allocations_disallowed) = false /\ conv_post st st' p (align_up count 4096)
  | Panic => True
  | Diverge => False
  end.
Proof.
  intros Hwf Hc Hb. unfold conv_mem_alloc. destruct (allocations_disallowed st); [done |].
  pose proof (align_up_spec count 4096 ltac:(lia) Hc).
  pose proof (ALIGN_UP_spec count 4096 ltac:(lia) ltac:(lia)) as Ha.
  destruct (ALIGN_UP count 4096) as [n|]; cbn [or_panic mbind outcome_bind]; [|done].
  destruct Ha as [-> Ha].
  pose proof (conv_loop_lemma conv_fuel st (align_up count 4096) Hwf) as H'.
  assert (align_up count 4096 < 2 ^ 64)
    by (pose proof (ALIGN_DOWN_spec (count + (4096 - 1)) 4096 ltac:(lia)); unfold align_up; lia).
  specialize (H' ltac:(lia) ltac:(lia) ltac:(lia) ltac:(unfold conv_fuel; lia)).
  destruct (conv_loop _ _ _) as [[p st']| |]; auto.
Qed.

(** * [pmm_realloc] *)

(** Nothing of the range may be handed out. *)
Definition held (m : list entry) (base top : Z) : Prop :=
  forall a, in_range base top a -> ~ has m MEMMAP_USABLE a.

Lemma held_apart m base top p q :
  held m base top -> inside m MEMMAP_USABLE p q -> p < q -> base < top -> top <= p \/ q <= base.
Proof.
  intros Hh Hin Hpq Hbt. destruct (decide (top <= p)); [by left |].
  destruct (decide (q <= base)); [by right |]. exfalso.
  set (a := Z.max base p). apply (Hh a); [unfold in_range; lia |].
  eapply inside_has; [done |]. unfold in_range. lia.
Qed.

Record realloc_post (st st' : state) (old old_n n p : Z) (old_size new_size : Z) : Prop := {
  ra_wf : wf R st';
  ra_page : p mod 4096 = 0;
  ra_apart : old + old_n <= p \/ p + n <= old;
  ra_copied : forall k, 0 <= k < Z.min old_size new_size -> st'.(ram) (p + k) = st.(ram) (old + k);
  ra_cleared : forall k, Z.min old_size new_size <= k < n -> st'.(ram) (p + k) = 0;
  ra_freed : forall a, in_range old (old + old_n) a -> has st'.(memmap) MEMMAP_USABLE a;
  ra_held : held st'.(memmap) p (p + n);
}.

Lemma pmm_realloc_lemma i386 st old old_size new_size :
  wf R st -> 0 < old -> 0 < old_size -> 0 < new_size ->
  (st.(keep_first_page) = true \/ 0x1000 <= old) -> old + align_up old_size 4096 < 2 ^ 64 ->
  held st.(memmap) old (old + align_up old_size 4096) ->
  match pmm_realloc i386 st old old_size new_size with
  | Ret (p, st') =>
      realloc_post st st' old (align_up old_size 4096) (align_up new_size 4096) p old_size new_size
  | Panic => True
  | Diverge => False
  end.
Proof.
  intros Hwf Ho Hos Hns Hk Ht Hheld. unfold pmm_realloc.
  rewrite (proj2 (Z.eqb_neq new_size 0)), (proj2 (Z.eqb_neq old 0)) by lia.
  unfold ext_mem_alloc, ext_mem_alloc_type, ext_mem_alloc_type_aligned.
  pose proof (ext_mem_alloc_lemma R i386 st new_size MEMMAP_BOOTLOADER_RECLAIMABLE 4096 false Hwf ltac:(lia) Hns) as Ha.
  destruct (ext_mem_alloc_type_aligned_mode _ _ _ _ _ _) as [[p st1]| |]; cbn [mbind outcome_bind]; [|done..].
  destruct Ha as (top & Hal & Hp & Htop & _ & _ & Hin & [Hwf1 Hr1 _ _ Hk1] & _ & Hram).
  rewrite andb_false_r in Hram.
  pose proof (align_up_spec old_size 4096 ltac:(lia) Hos) as Hupo.
  pose proof (align_up_spec new_size 4096 ltac:(lia) Hns) as Hupn.
  set (on := align_up old_size 4096) in *. set (n := align_up new_size 4096) in *.
  pose proof (held_apart _ _ _ _ _ Hheld Hin ltac:(lia) ltac:(lia)) as Hap.
  set (len := if new_size >? old_size then old_size else new_size).
  assert (Hlen : len = Z.min old_size new_size) by (subst len; case_if; lia).
  set (st2 := set_ram st1 _).
  pose proof (pmm_free_lemma st2 old old_size Hwf1 ltac:(lia) Hos
    ltac:(simpl; rewrite Hk1; done) Ht) as Hfr. fold on in Hfr.
  destruct (pmm_free _ _ _) as [st3| |]; cbn [mbind outcome_bind]; [|done..].
  destruct Hfr as (_ & _ & [Hwf3 Hr3 _ _ _] & Hram3 & _).
  split; [done | done | lia | | | |].
  - intros k Hkr. rewrite Hram3. subst st2. simpl. unfold mem_copy. case_if; [|lia].
    rewrite Hram. unfold mem_fill. case_if; [lia |]. f_equal. lia.
  - intros k Hkr. rewrite Hram3. subst st2. simpl. unfold mem_copy. case_if; [lia |].
    rewrite Hram. unfold mem_fill. case_if; [done | lia].
  - intros a Ha. apply Hr3. by left.
  - intros a Ha Hu. apply Hr3 in Hu as [[_ Hu]|[Hu _]]; [unfold in_range in *; lia |].
    simpl in Hu. apply Hr1 in Hu as [[Hu _]|[_ Hu]]; [done |]. apply Hu. unfold in_range in *. lia.
Qed.
End ops.

(** * [pmm_check_type] *)

Lemma CHECKED_ADD_fits e : fits e -> CHECKED_ADD (e_base e) (e_length e) = Some (e_top e).
Proof. unfold fits, e_top. intros. apply CHECKED_ADD_Some. lia. Qed.

Lemma check_type_cons e m a :
  fits e -> check_type (e :: m) a =
    if (e_base e <=? a) && (a <? e_top e) then e_type e else check_type m a.
Proof.
  intros Hf. pose proof (CHECKED_ADD_fits e Hf) as H. destruct e as [b l ty]. simpl in *. rewrite H.
  by rewrite Z.geb_leb.
Qed.

(** In a map of disjoint entries it is the type of the entry that covers the address. *)
Lemma check_type_lemma m a ty :
  Forall fits m -> pairwise disj m -> ty <> UINT64_MAX ->
  check_type m a = ty <-> has m ty a.
Proof.
  intros Hf Hd Hty. induction Hf as [|e m Fe Hf IH].
  - rewrite has_nil. simpl. naive_solver.
  - destruct Hd as [HR Hd]. rewrite check_type_cons, has_cons by done. specialize (IH Hd).
    destruct ((e_base e <=? a) && (a <? e_top e)) eqn:E.
    + split; [intros <-; left; unfold covers; split; done || lia |].
      intros [[? _]|(f & Hin & _ & Hc)]; [done |]. rewrite Forall_forall in HR.
      specialize (HR f Hin). unfold disj, covers in *. lia.
    + rewrite IH. split; [by right |]. intros [[_ Hc]|]; [unfold covers in Hc; lia | done].
Qed.

(** * [mmap_get_info] *)

(** [x] is the first address from [start] on that no usable entry covers. *)
Definition first_gap (m : list entry) (start x : Z) : Prop :=
  start <= x /\ (forall a, start <= a < x -> has m MEMMAP_USABLE a) /\ ~ has m MEMMAP_USABLE x.

(** The usable entries that still reach past [x]. *)
Definition beyond (x : Z) (e : entry) : bool := is_usable e && (x <? e_top e).
Definition nbeyond (m : list entry) (x : Z) : nat := length (filter (fun e => beyond x e = true) m).

Lemma nbeyond_mono m x y : x <= y -> (nbeyond m y <= nbeyond m x)%nat.
Proof.
  intros Hxy. unfold nbeyond. induction m as [|e m IH]; [done |]. rewrite !filter_cons.
  assert (beyond y e = true -> beyond x e = true) by (unfold beyond; destruct (is_usable e); simpl; lia).
  repeat case_decide; simpl; try lia. tauto.
Qed.

Lemma nbeyond_lt m x y e :
  e ∈ m -> is_usable e = true -> x < e_top e -> e_top e <= y -> (nbeyond m y < nbeyond m x)%nat.
Proof.
  intros Hin Hu Hx Hy. apply list_elem_of_split in Hin as (l1 & l2 & ->).
  unfold nbeyond. rewrite !filter_app, !filter_cons, !length_app.
  rewrite (decide_True (P := beyond x e = true)), (decide_False (P := beyond y e = true))
    by (unfold beyond; rewrite Hu; simpl; lia). simpl.
  pose proof (nbeyond_mono l1 x y ltac:(lia)). pose proof (nbeyond_mono l2 x y ltac:(lia)).
  unfold nbeyond in *. lia.
Qed.

(** One end of the scan: [x0] before the pass, [x] now. *)
Definition extends (m : list entry) (start x0 x : Z) : Prop :=
  x0 <= x /\ (forall a, start <= a < x -> has m MEMMAP_USABLE a) /\
  (x <> x0 -> (nbeyond m x < nbeyond m x0)%nat).

Definition advance (e : entry) (x : Z) : Z :=
  if is_usable e && (e_base e <=? x) && (e_top e >? x) then e_top e else x.

Lemma info_step_advance e lo up p :
  fits e -> info_step (lo, up, p) e =
    (advance e lo, advance e up, p || negb (advance e lo =? lo) || negb (advance e up =? up)).
Proof.
  intros Hf. unfold info_step, advance. destruct (is_usable e); simpl.
  2: { rewrite !Z.eqb_refl. simpl. by rewrite !orb_false_r. }
  rewrite CHECKED_ADD_fits by done.
  assert (Hne : forall x, (e_top e >? x) = true -> (e_top e =? x) = false) by (intros; lia).
  destruct (e_base e <=? lo), (e_top e >? lo) eqn:E1, (e_base e <=? up), (e_top e >? up) eqn:E2;
    simpl; rewrite ?Z.eqb_refl, ?(Hne lo E1), ?(Hne up E2); simpl;
    by rewrite ?orb_false_r, ?orb_true_r.
Qed.

Lemma advance_extends m e start x0 x :
  e ∈ m -> start <= x0 -> extends m start x0 x -> extends m start x0 (advance e x).
Proof.
  intros Hin Hs (H1 & H2 & H3). unfold advance.
  destruct (is_usable e && (e_base e <=? x) && (e_top e >? x)) eqn:E; [|done].
  apply andb_true_iff in E as [[Hu Hb]%andb_true_iff Ht].
  assert (Htop : x < e_top e) by lia. split_and!; [lia | |].
  - intros a Ha. destruct (decide (a < x)); [apply H2; lia |].
    exists e. split_and!; [done | by apply usable_type | unfold covers; lia].
  - intros _. eapply Nat.lt_le_trans; [eapply nbeyond_lt; [exact Hin | done | exact Htop | done] |].
    by apply nbeyond_mono.
Qed.

(** A pass over the map. *)
Lemma info_pass m l lo0 up0 lo up p s1 s2 :
  Forall fits l -> (forall e, e ∈ l -> e ∈ m) -> s1 <= lo0 -> s2 <= up0 ->
  extends m s1 lo0 lo -> extends m s2 up0 up ->
  exists lo' up' p', foldl info_step (lo, up, p) l = (lo', up', p') /\
    extends m s1 lo0 lo' /\ extends m s2 up0 up' /\ lo <= lo' /\ up <= up' /\
    (p = true -> p' = true) /\
    (p' = true -> p = true \/ lo' <> lo \/ up' <> up) /\
    (p' = false -> lo' = lo /\ up' = up /\ forall e, e ∈ l -> advance e lo = lo /\ advance e up = up).
Proof.
  intros Hf. revert lo up p; induction Hf as [|e l Fe Hf IH]; intros lo up p Hsub H1 H2 E1 E2.
  { exists lo, up, p. split_and!; auto with lia. intros _. split_and!; try done.
    intros e He. by apply not_elem_of_nil in He. }
  cbn [foldl]. rewrite info_step_advance by done.
  assert (Hin : e ∈ m) by (apply Hsub, elem_of_cons; by left).
  set (p1 := p || negb (advance e lo =? lo) || negb (advance e up =? up)).
  assert (Hmono : forall x, x <= advance e x) by (intros x; unfold advance; case_if; lia).
  destruct (IH (advance e lo) (advance e up) p1) as (lo' & up' & p' & -> & G1 & G2 & G3 & G4 & G5 & G6 & G7).
  1-5: try done; try by apply advance_extends. { intros f Hf'. apply Hsub, elem_of_cons. by right. }
  pose proof (Hmono lo). pose proof (Hmono up).
  exists lo', up', p'. split_and!; try done; try lia.
  - intros ->. by apply G5.
  - intros Hp. destruct (G6 Hp) as [Hp1|[|]]; [|right; left; lia | right; right; lia].
    subst p1. destruct p; [by left | right]. simpl in Hp1.
    destruct (Z.eqb_spec (advance e lo) lo), (Z.eqb_spec (advance e up) up); try done; lia.
  - intros Hp. destruct (G7 Hp) as (-> & -> & Ha).
    assert (Hp1 : p1 = false) by (destruct p1; [by specialize (G5 eq_refl); congruence | done]).
    subst p1. apply orb_false_iff in Hp1 as [[-> ?]%orb_false_iff ?].
    assert (advance e lo = lo) as El by lia. assert (advance e up = up) as Eu by lia.
    rewrite El, Eu in *. split_and!; try done. intros f Hfin. apply elem_of_cons in Hfin as [->|]; auto.
Qed.

Lemma advance_gap m x :
  (forall e, e ∈ m -> advance e x = x) -> ~ has m MEMMAP_USABLE x.
Proof.
  intros H (e & He & Ht & Hc). specialize (H e He). unfold advance in H.
  rewrite (proj2 (usable_type e) Ht) in H. unfold covers in Hc. case_if; lia.
Qed.

Lemma info_loop_lemma fuel m lo up s1 s2 :
  Forall fits m -> s1 <= lo -> s2 <= up ->
  (forall a, s1 <= a < lo -> has m MEMMAP_USABLE a) ->
  (forall a, s2 <= a < up -> has m MEMMAP_USABLE a) ->
  (nbeyond m lo + nbeyond m up < fuel)%nat ->
  exists lo' up', info_loop fuel m lo up = Ret (lo', up') /\ first_gap m s1 lo' /\ first_gap m s2 up'.
Proof.
  intros Hf. revert lo up; induction fuel as [|fuel IH]; intros lo up H1 H2 A1 A2 Hn; [lia |].
  cbn [info_loop].
  destruct (info_pass m m lo up lo up false s1 s2) as (lo' & up' & p' & -> & E1 & E2 & L1 & L2 & _ & Hp & Hq);
    try done; try (by split_and!; [lia | auto | done]).
  destruct E1 as (_ & B1 & C1), E2 as (_ & B2 & C2). destruct p'.
  - apply IH; try done; try lia.
    pose proof (nbeyond_mono m lo lo' L1). pose proof (nbeyond_mono m up up' L2).
    destruct (Hp eq_refl) as [|[Hne|Hne]]; [done | specialize (C1 Hne); lia | specialize (C2 Hne); lia].
  - destruct (Hq eq_refl) as (-> & -> & Ha). exists lo, up.
    split; [done |]. unfold first_gap.
    split_and!; try done; apply advance_gap; intros e He; by apply Ha.
Qed.

Lemma nbeyond_le m x : (nbeyond m x <= length m)%nat.
Proof. apply length_filter. Qed.

Lemma mmap_get_info_lemma m :
  Forall fits m -> exists lower_end upper_end,
    mmap_get_info m = Ret (Z.min lower_end 0x100000, upper_end - 0x100000) /\
    first_gap m 0 lower_end /\ first_gap m 0x100000 upper_end.
Proof.
  intros Hf. unfold mmap_get_info.
  pose proof (nbeyond_le m 0). pose proof (nbeyond_le m 0x100000).
  destruct (info_loop_lemma (S (2 * length m)) m 0 0x100000 0 0x100000 Hf) as (lo & up & -> & G1 & G2);
    try lia. cbn [mbind outcome_bind].
  exists lo, up. split_and!; try done. do 2 f_equal. case_if; lia.
Qed.

(** * [check_usable_memory] *)

(** The part of an entry between [lo] and [hi]. *)
Definition overlap (lo hi : Z) (e : entry) : Z :=
  Z.max 0 (Z.min (e_top e) hi - Z.max (e_base e) lo).
Fixpoint osum (lo hi : Z) (m : list entry) : Z :=
  match m with [] => 0 | e :: m => overlap lo hi e + osum lo hi m end.
Definition covered (lo hi : Z) (m : list entry) : Prop :=
  forall a, lo <= a < hi -> exists e, e ∈ m /\ covers e a.

Lemma osum_nonneg lo hi m : 0 <= osum lo hi m.
Proof. induction m as [|e m IH]; simpl; [done |]. unfold overlap. lia. Qed.

(** An entry cuts the range in two for the entries apart from it. *)
Lemma osum_cut lo hi e m :
  overlap lo hi e <> 0 -> Forall (disj e) m ->
  let b := Z.max (e_base e) lo in let t := Z.min (e_top e) hi in
  lo <= b < t /\ t <= hi /\ overlap lo hi e = t - b /\
  osum lo hi m = osum lo b m + osum t hi m.
Proof.
  intros Ho HF. simpl. assert (Hr : overlap lo hi e = Z.min (e_top e) hi - Z.max (e_base e) lo)
    by (unfold overlap in *; lia).
  split_and!; [unfold overlap in *; lia.. |].
  induction HF as [|f m Hf HF IH]; simpl; [done |]. rewrite IH.
  unfold overlap, disj in *. lia.
Qed.

Lemma osum_le lo hi m : lo <= hi -> pairwise disj m -> osum lo hi m <= hi - lo.
Proof.
  revert lo hi; induction m as [|e m IH]; intros lo hi Hle Hp; simpl; [lia |].
  destruct Hp as [HF Hp]. destruct (decide (overlap lo hi e = 0)) as [->|Ho]; [by apply IH |].
  destruct (osum_cut lo hi e m Ho HF) as (H1 & H2 & H3 & H4). rewrite H4.
  pose proof (IH lo (Z.max (e_base e) lo) ltac:(lia) Hp).
  pose proof (IH (Z.min (e_top e) hi) hi ltac:(lia) Hp). lia.
Qed.

Lemma covered_osum lo hi m :
  lo <= hi -> pairwise disj m -> covered lo hi m -> osum lo hi m = hi - lo.
Proof.
  revert lo hi; induction m as [|e m IH]; intros lo hi Hle Hp Hc; simpl.
  { destruct (decide (lo < hi)); [|lia]. destruct (Hc lo ltac:(lia)) as (e & He & _).
    by apply not_elem_of_nil in He. }
  destruct Hp as [HF Hp].
  assert (Hrest : forall b t, lo <= b -> t <= hi ->
    (forall a, b <= a < t -> ~ covers e a) -> covered b t m).
  { intros b t Hb Ht Hn a Ha. destruct (Hc a ltac:(lia)) as (f & Hf & Hcf).
    apply elem_of_cons in Hf as [->|]; [by destruct (Hn a Ha) | eauto]. }
  destruct (decide (overlap lo hi e = 0)) as [H0|Ho].
  - rewrite H0. apply IH; [done.. |]. apply Hrest; [done.. |].
    intros a Ha. unfold overlap, covers in *. lia.
  - destruct (osum_cut lo hi e m Ho HF) as (H1 & H2 & H3 & H4). rewrite H4.
    rewrite (IH lo (Z.max (e_base e) lo)), (IH (Z.min (e_top e) hi) hi); try lia; try done;
      apply Hrest; try lia; intros a Ha; unfold covers; lia.
Qed.

Lemma osum_covered lo hi m : pairwise disj m -> osum lo hi m = hi - lo -> covered lo hi m.
Proof.
  intros Hp Hs a Ha.
  assert (Hd : (exists e, e ∈ m /\ covers e a) \/ Forall (fun e => ~ covers e a) m).
  { clear. induction m as [|e m IH]; [by right |].
    destruct (decide (e_base e <= a < e_top e)).
    - left. exists e. rewrite elem_of_cons. by auto.
    - destruct IH as [(f & ? & ?)|]; [left; exists f; rewrite elem_of_cons; by auto | right].
      by constructor. }
  destruct Hd as [|Hd]; [done | exfalso].
  pose proof (osum_le lo a m ltac:(lia) Hp). pose proof (osum_le (a + 1) hi m ltac:(lia) Hp).
  assert (osum lo hi m = osum lo a m + osum (a + 1) hi m); [|lia]. clear - Hd Ha.
  induction Hd as [|e m He Hd IH]; simpl; [done |]. rewrite IH. unfold overlap, covers in *. lia.
Qed.

Definition ram_entries (uefi : bool) (m : list entry) : list entry :=
  filter (fun e => real_ram uefi (e_type e) = true) m.

Lemma pairwise_filter (R : entry -> entry -> Prop) (P : entry -> Prop) `{!forall e, Decision (P e)} m :
  pairwise R m -> pairwise R (filter P m).
Proof.
  induction m as [|e m IH]; [done |]. intros [HF Hp]. rewrite filter_cons.
  case_decide; [split; [rewrite Forall_forall in *; intros f Hf; apply HF; by apply list_elem_of_filter in Hf as [_ ?] | auto] | auto].
Qed.

Lemma usable_loop_lemma uefi m base top rem :
  Forall fits m -> base < top -> 0 < rem < 2 ^ 64 -> osum base top (ram_entries uefi m) <= rem ->
  (usable_loop uefi m base top rem = true <->
   (exists e, e ∈ ram_entries uefi m /\ e_base e <= base /\ top <= e_top e) \/
   osum base top (ram_entries uefi m) = rem).
Proof.
  intros Hf Hbt. revert rem; induction Hf as [|e m Fe Hf IH]; intros rem Hr Hs.
  { unfold ram_entries in *. simpl in *. split; [done |]. intros [(e & He & _)|]; [|lia].
    by apply not_elem_of_nil in He. }
  pose proof (CHECKED_ADD_fits e Fe) as Hca. destruct e as [b l ty]. cbn [usable_loop].
  unfold ram_entries in *. rewrite filter_cons in *. cbn [e_type] in *.
  destruct (real_ram uefi ty) eqn:Er; cbn [negb].
  2: { rewrite decide_False in * by congruence. by apply IH. }
  rewrite decide_True in * by done. simpl in Hca. rewrite Hca. simpl in Hs |- *.
  set (l' := filter _ m) in *. unfold fits, e_top in *. cbn [e_base e_length] in *.
  pose proof (osum_nonneg base top l').
  assert (Hex : (exists e, e ∈ ME b l ty :: l' /\ e_base e <= base /\ top <= e_top e) <->
    (b <= base /\ top <= b + l) \/ exists e, e ∈ l' /\ e_base e <= base /\ top <= e_top e).
  { split; [intros (f & Hin & Hx); apply elem_of_cons in Hin as [->|]; [left; done | right; eauto] |].
    intros [Hx|(f & Hin & Hx)]; [exists (ME b l ty) | exists f]; rewrite elem_of_cons; auto. }
  unfold e_top in Hex. rewrite Hex.
  unfold full_overlap_check. destruct (_ && _) eqn:Efull; [split; [left; left; lia | done] |].
  destruct ((b <? top) && (b + l >? base)) eqn:Eo.
  - set (o := (if b + l <? top then b + l else top) - _).
    assert (Ho : o = overlap base top (ME b l ty)) by (subst o; unfold overlap, e_top; simpl; repeat case_if; lia).
    rewrite Ho. set (ov := overlap base top (ME b l ty)) in *.
    assert (0 <= ov) by (unfold ov, overlap, e_top; simpl; lia).
    rewrite u64_small by lia. destruct (Z.eqb_spec (rem - ov) 0).
    + split; [right; lia | done].
    + unfold e_top in IH. rewrite IH by lia. split; [intros [|]; [by left; right | right; lia] |].
      intros [[|]|]; [lia | by left | right; lia].
  - assert (overlap base top (ME b l ty) = 0) as Ho by (unfold overlap, e_top; simpl; lia).
    rewrite Ho in *. unfold e_top in IH. rewrite IH by lia. split; [intros [|]; [by left; right | right; lia] |].
    intros [[|]|]; [lia | by left | right; lia].
Qed.

Lemma check_usable_memory_lemma uefi st base top :
  Forall fits st.(memmap) -> pairwise disj st.(memmap) -> 0 <= base < top -> top < 2 ^ 64 ->
  (check_usable_memory uefi st base top = true <->
   forall a, base <= a < top -> exists ty, real_ram uefi ty = true /\ has st.(memmap) ty a).
Proof.
  intros Hf Hp Hb Ht. unfold check_usable_memory. rewrite u64_small by lia.
  set (l := ram_entries uefi st.(memmap)).
  assert (Hpl : pairwise disj l) by (by apply pairwise_filter).
  rewrite usable_loop_lemma by (done || lia || by apply osum_le; [lia |]). fold l.
  assert (Hcov : covered base top l <->
    forall a, base <= a < top -> exists ty, real_ram uefi ty = true /\ has (memmap st) ty a).
  { unfold covered, has, l, ram_entries. setoid_rewrite list_elem_of_filter. naive_solver. }
  rewrite <- Hcov. split.
  - intros [(e & He & H1 & H2)|Hs]; [|by apply osum_covered].
    intros a Ha. exists e. split; [done |]. unfold covers. lia.
  - intros Hc. right. apply covered_osum; done || lia.
Qed.
