(* ===== verification/PmmCorrect.v ===== *)
(** The properties of the physical memory manager, and the allocator as a state
    machine with its live blocks. *)

From S2P Require Import Prelude Pmm PmmMap PmmSanitise PmmAlloc PmmOps.
Import Pmm.

(** * Start-up (BIOS) *)

(** The entries of an E820 map as the firmware gives them: any 64-bit values, but
    for an empty usable entry at 1 MiB, whose length would underflow (below). *)
Definition raw (e : entry) : Prop :=
  is_u64 (e_base e) /\ is_u64 (e_length e) /\
  ~ (e_base e = 0x100000 /\ e_length e = 0 /\ e_type e = MEMMAP_USABLE).
(** A usable entry that spans the whole area between the EBDA and 1 MiB; it is not clipped. *)
Definition spans (ebda : Z) (e : entry) : Prop := e_base e < ebda /\ 0x100000 < e_top e.

Lemma e820_entry_spec ebda e :
  raw e -> 0 <= ebda <= 0x100000 ->
  match e820_entry ebda e with
  | None => 2 ^ 64 <= e_top e \/ (is_usable e = true /\ forall a, covers e a -> ebda <= a < 0x100000)
  | Some e' => fits e /\ fits e' /\ e_type e' = e_type e /\
      (is_usable e = false -> e' = e) /\
      forall a, covers e' a <-> covers e a /\ (is_usable e = true -> ~ ebda <= a < 0x100000 \/ spans ebda e)
  end.
Proof.
  destruct e as [b l ty]. unfold raw, is_u64, is_usable, spans, fits, covers, e_top, e820_entry. simpl.
  intros (Hb & Hl & Hne) Hebda. destruct (CHECKED_ADD b l) as [top|] eqn:E; simpl.
  2: { apply CHECKED_ADD_None in E. by left. }
  apply CHECKED_ADD_Some in E as [-> Ht].
  destruct (Z.eqb_spec ty MEMMAP_USABLE); simpl; [|split; [lia |]; split; [lia |]; split_and!; try done; intros a; split; [intros; split; done | by intros []]].
  destruct ((b >=? ebda) && (b <? 0x100000)) eqn:E1; simpl.
  - destruct (Z.leb_spec (b + l) 0x100000); [right; split; [done | lia] |].
    rewrite (u64_small (l - (0x100000 - b))) by lia.
    rewrite andb_false_r. simpl.
    split_and!; try done; try lia.
  - destruct ((b + l >? ebda) && (b + l <=? 0x100000)) eqn:E2; simpl; split_and!; try done; try lia.
    all: rewrite u64_small by lia; lia.
Qed.

Lemma init_entries_spec ebda max l m :
  match init_entries ebda max l m with
  | Ret m' => m' = m ++ omap (e820_entry ebda) l
  | Panic => True
  | Diverge => False
  end.
Proof.
  revert m; induction l as [|e l IH]; intros m; simpl; [by rewrite app_nil_r |].
  case_if; [done |]. destruct (e820_entry ebda e) as [e'|].
  - specialize (IH (m ++ [e'])). destruct (init_entries _ _ _ _); [|done..].
    by rewrite IH, <- app_assoc.
  - apply IH.
Qed.

Lemma init_fits ebda l :
  Forall raw l -> 0 <= ebda <= 0x100000 -> Forall fits (omap (e820_entry ebda) l).
Proof.
  intros Hl He. rewrite Forall_forall in *. intros e' Hin.
  apply list_elem_of_omap in Hin as (e & Hin & Hs). pose proof (e820_entry_spec ebda e (Hl e Hin) He) as H.
  rewrite Hs in H. tauto.
Qed.

(** What the firmware says of an address: an entry of the type covers it. *)
Lemma init_has ebda l ty a :
  Forall raw l -> 0 <= ebda <= 0x100000 -> has (omap (e820_entry ebda) l) ty a ->
  exists e, e ∈ l /\ fits e /\ e_type e = ty /\ covers e a /\
    (ty = MEMMAP_USABLE -> ~ ebda <= a < 0x100000 \/ spans ebda e).
Proof.
  intros Hl He (e' & Hin & <- & Hc). rewrite Forall_forall in Hl.
  apply list_elem_of_omap in Hin as (e & Hin & Hs).
  pose proof (e820_entry_spec ebda e (Hl e Hin) He) as H. rewrite Hs in H.
  destruct H as (Hf & _ & Ht & _ & Hcov). apply Hcov in Hc as [Hc Hx]. exists e.
  rewrite Ht. split_and!; try done. intros Hu. apply Hx. by apply usable_type.
Qed.

Lemma init_has_other ebda l e a :
  Forall raw l -> 0 <= ebda <= 0x100000 -> e ∈ l -> e_type e <> MEMMAP_USABLE -> fits e -> covers e a ->
  has (omap (e820_entry ebda) l) (e_type e) a.
Proof.
  intros Hl He Hin Ht Hf Hc. rewrite Forall_forall in Hl.
  assert (Hu : is_usable e = false) by (by apply not_true_iff_false; rewrite usable_type).
  pose proof (e820_entry_spec ebda e (Hl e Hin) He) as H.
  destruct (e820_entry ebda e) as [e'|] eqn:Es.
  - exists e'. destruct H as (_ & _ & Het & Hsame & _). rewrite (Hsame Hu) in *.
    split_and!; try done. apply list_elem_of_omap. eauto.
  - unfold fits in Hf. rewrite Hu in H. destruct H as [|[? _]]; [lia | done].
Qed.

(** What [init_memmap] establishes. *)
Record booted (ebda bss_end : Z) (l : list entry) (st' : state) : Prop := {
  bt_wf : wf udisj st';
  bt_allowed : st'.(allocations_disallowed) = false;
  bt_image : forall a, 0x1000 <= a < align_up bss_end 4096 ->
    has st'.(memmap) MEMMAP_BOOTLOADER_RECLAIMABLE a /\ ~ has st'.(memmap) MEMMAP_USABLE a;
  bt_usable : forall a, has st'.(memmap) MEMMAP_USABLE a ->
    0x1000 <= a /\
    (exists e, e ∈ l /\ e_type e = MEMMAP_USABLE /\ covers e a /\ (~ ebda <= a < 0x100000 \/ spans ebda e)) /\
    (forall e, e ∈ l -> fits e -> e_type e <> MEMMAP_USABLE -> ~ covers e a);
}.

Lemma sanitised_wf keep m m' : sanitised keep false m m' -> wf_map udisj keep m'.
Proof.
  intros H. split; [split; apply H |]. intros a Ha. by apply (sn_sound _ _ _ _ H) in Ha as [_ ?].
Qed.

Lemma init_memmap_lemma ebda bss_end l st :
  Forall raw l -> 0 <= ebda <= 0x100000 -> 0x1000 < bss_end ->
  st.(memmap) = [] -> st.(keep_first_page) = false ->
  match init_memmap ebda bss_end l st with
  | Ret st' => booted ebda bss_end l st'
  | Panic => True
  | Diverge => False
  end.
Proof.
  intros Hl He Hbss Hm0 Hk. unfold init_memmap. rewrite Hm0.
  pose proof (init_entries_spec ebda st.(max_entries) l []) as Hi.
  destruct (init_entries _ _ _ _) as [m| |]; cbn [mbind outcome_bind]; [|done..]. simpl in Hi. subst m.
  set (m := omap _ l) in *. unfold sanitise at 2. simpl. rewrite Hk.
  pose proof (sanitise_terminates_spec false false m (init_fits ebda l Hl He)) as Hs.
  destruct (pmm_sanitise_entries _ _ _) as [m1| |]; cbn [mbind outcome_bind]; [|done..].
  pose proof (ALIGN_UP_spec bss_end 4096 ltac:(lia) ltac:(lia)) as Ha.
  pose proof (align_up_spec bss_end 4096 ltac:(lia) ltac:(lia)) as Hup.
  destruct (ALIGN_UP bss_end 4096) as [n|]; cbn [or_panic mbind outcome_bind]; [|done].
  destruct Ha as [-> Ha]. set (n := align_up bss_end 4096) in *. unfold memmap_alloc_range. simpl. rewrite Hk.
  pose proof (memmap_alloc_range_in_lemma udisj false st.(max_entries) m1 4096 (n - 4096)
    MEMMAP_BOOTLOADER_RECLAIMABLE 0 true false (sanitised_wf _ _ _ Hs) ltac:(lia) ltac:(lia)
    ltac:(intros a _; by apply hidden_other)) as Hr. replace (4096 + (n - 4096)) with n in Hr by lia.
  destruct (memmap_alloc_range_in _ _ _ _ _ _ _ _ _ _) as [[[] m2]| |]; cbn [mbind outcome_bind];
    [|by destruct Hr as (_ & ? & _)|done..].
  destruct Hr as (_ & Hwf2 & Hr).
  destruct (sanitise_wf udisj (set_memmap (set_memmap (set_memmap st m) m1) m2)) as (m3 & -> & Hwf3 & Hh);
    [unfold wf; simpl; by rewrite Hk |]. simpl in Hwf3, Hh.
  split; [done | done | |]; simpl.
  - intros a Har. unfold retyped in Hr. rewrite !Hh, !Hr. split; [left; split; done |].
    intros [[? _]|[_ Hn]]; [done | by destruct Hn].
  - intros a Hu. pose proof (wf_visible _ _ _ Hwf3 a Hu) as Hv. rewrite Hk in Hv. unfold hidden in Hv.
    apply Hh, Hr in Hu as [[? _]|[Hu _]]; [done |]. apply (sn_sound _ _ _ _ Hs) in Hu as [[Hu Ht] _].
    split_and!.
    + destruct (decide (a < 0x1000)); [|lia]. by destruct Hv.
    + apply init_has in Hu as (e & ? & ? & ? & ? & Hx); [|done..]. exists e. auto.
    + intros e Hin Hf Hty Hc. destruct Ht. exists (e_type e). split; [done |].
      by apply init_has_other.
Qed.

(** * The allocator as a state machine *)

(** A state and the blocks handed out and not yet given back, as ranges. *)
Definition config : Type := state * list (Z * Z).

(** The calls a boot protocol can make. [step_write]: it may write anywhere it
    likes, which leaves the map alone. *)
Inductive step (i386 : bool) : config -> config -> Prop :=
| step_alloc st live count type alignment high p st' :
    0 < count -> 0 < alignment -> type <> MEMMAP_USABLE ->
    ext_mem_alloc_type_aligned_mode i386 st count type alignment high = Ret (p, st') ->
    step i386 (st, live) (st', (p, p + align_up count alignment) :: live)
| step_conv st live count p st' :
    0 < count -> conv_mem_alloc st count = Ret (p, st') ->
    step i386 (st, live) (st', (p, p + align_up count 4096) :: live)
| step_free st live1 live2 p count st' :
    0 < count -> pmm_free st p count = Ret st' ->
    step i386 (st, live1 ++ (p, p + align_up count 4096) :: live2) (st', live1 ++ live2)
| step_write st live r :
    step i386 (st, live) (set_ram st r, live).

Definition apart (b c : Z * Z) : Prop := b.2 <= c.1 \/ c.2 <= b.1.

(** A live block: part of the address space, and not usable. *)
Definition block_ok (st : state) (b : Z * Z) : Prop :=
  0 <= b.1 < b.2 /\ b.2 < 2 ^ 64 /\ (st.(keep_first_page) = true \/ 0x1000 <= b.1) /\
  held st.(memmap) b.1 b.2.

Record safe (c : config) : Prop := {
  sf_wf : wf udisj c.1;
  sf_conv : 0 <= c.1.(conv_base) <= 0x101000;
  sf_blocks : Forall (block_ok c.1) c.2;
  sf_apart : ForallPairs (fun b c => b = c \/ apart b c) c.2;
  sf_nodup : NoDup c.2;
}.

(** Adding a block carved out of usable memory. *)
Lemma safe_add st st' live p q top type :
  safe (st, live) -> 0 <= p -> p < q <= top -> top < 2 ^ 64 -> type <> MEMMAP_USABLE ->
  inside st.(memmap) MEMMAP_USABLE p top -> allocated udisj st st' p top type ->
  0 <= st'.(conv_base) <= 0x101000 -> safe (st', (p, q) :: live).
Proof.
  intros [Hwf Hcb Hbl Hap Hnd] Hp Hq Ht Hty Hin [Hwf' Hr _ _ Hk] Hcb'. simpl in *.
  assert (Hnew : Forall (fun b => apart (p, q) b) live).
  { eapply Forall_impl; [exact Hbl |]. intros [b c] (Hb1 & Hb2 & _ & Hh). simpl in *.
    unfold apart. simpl. pose proof (held_apart _ _ _ _ _ Hh Hin ltac:(lia) ltac:(lia)). lia. }
  assert (Hheld : forall b c, held (memmap st) b c -> held (memmap st') b c).
  { intros b c Hh a Ha Hu. apply Hr in Hu as [[? _]|[Hu _]]; [congruence | by apply (Hh a)]. }
  split; simpl; [done | done | | |].
  - constructor.
    + unfold block_ok. simpl. split_and!; try lia.
      * pose proof (wf_visible _ _ _ Hwf p ltac:(eapply inside_has; [done | unfold in_range; lia])) as Hv.
        rewrite Hk. unfold hidden in Hv. destruct (keep_first_page st); [by left | right].
        destruct (decide (p < 0x1000)); [by destruct Hv | lia].
      * intros a Ha Hu. apply Hr in Hu as [[? _]|[_ Hn]]; [congruence |]. apply Hn.
        unfold in_range in *. lia.
    + eapply Forall_impl; [exact Hbl |]. intros [b c] (Hb1 & Hb2 & Hb3 & Hh). simpl in *.
      unfold block_ok. rewrite Hk. simpl. auto.
  - rewrite Forall_forall in Hnew. intros b c Hb Hc. apply list_elem_of_In in Hb, Hc.
    apply elem_of_cons in Hb as [->|Hb], Hc as [->|Hc].
    + by left.
    + right. auto.
    + right. specialize (Hnew b Hb). unfold apart in *. lia.
    + apply Hap; by apply list_elem_of_In.
  - constructor; [|done]. intros Hin'. rewrite Forall_forall in Hnew. specialize (Hnew _ Hin').
    unfold apart in Hnew. simpl in Hnew. lia.
Qed.

Lemma safe_remove st st' live1 live2 p q :
  safe (st, live1 ++ (p, q) :: live2) -> allocated udisj st st' p q MEMMAP_USABLE ->
  st'.(conv_base) = st.(conv_base) -> safe (st', live1 ++ live2).
Proof.
  intros [Hwf Hcb Hbl Hap Hnd] [Hwf' Hr _ _ Hk] Hcb'. simpl in *.
  assert (Hsub : forall b, b ∈ live1 ++ live2 -> b ∈ live1 ++ (p, q) :: live2).
  { intros b Hb. rewrite elem_of_app, elem_of_cons. rewrite elem_of_app in Hb. tauto. }
  rewrite <- Permutation_middle in Hnd. apply NoDup_cons in Hnd as [Hnin Hnd].
  split; simpl; [done | by rewrite Hcb' | | | done].
  - rewrite Forall_forall in Hbl |- *. intros b Hb.
    destruct (Hbl b (Hsub b Hb)) as (H1 & H2 & H3 & Hh). unfold block_ok. rewrite Hk.
    split_and!; try lia; [tauto |]. intros a Ha Hu.
    apply Hr in Hu as [[_ Hu]|[Hu _]]; [|by apply (Hh a)].
    destruct (Hap b (p, q)) as [->|Hx]; [apply list_elem_of_In; auto | | done |].
    + apply list_elem_of_In. rewrite elem_of_app, elem_of_cons. by right; left.
    + unfold apart, in_range in *. simpl in *. lia.
  - intros b c Hb Hc. apply list_elem_of_In in Hb, Hc. apply Hap; apply list_elem_of_In; auto.
Qed.

Lemma step_safe i386 c c' : safe c -> step i386 c c' -> safe c'.
Proof.
  intros Hs Hst. destruct Hst as [st live count type alignment high p st' Hc Ha Hty Heq
    | st live count p st' Hc Heq | st live1 live2 p count st' Hc Heq | st live r].
  - pose proof (ext_mem_alloc_lemma udisj i386 st count type alignment high (sf_wf _ Hs) Ha Hc) as H.
    rewrite Heq in H. destruct H as (top & _ & Hp & Htop & Ht & _ & Hin & Hal & Hcb & _).
    pose proof (align_up_spec count alignment Ha Hc).
    eapply (safe_add st st' live p _ top type); try done; try lia.
    rewrite Hcb. apply (sf_conv _ Hs).
  - pose proof (conv_mem_alloc_lemma udisj st count (sf_wf _ Hs) Hc (sf_conv _ Hs)) as H.
    rewrite Heq in H. destruct H as (_ & [H1 H2 H3 H4 H5 H6 H7]). pose proof (sf_conv _ Hs) as Hcb. simpl in Hcb.
    pose proof (align_up_spec count 4096 ltac:(lia) Hc).
    eapply (safe_add st st' live p _ _ MEMMAP_BOOTLOADER_RECLAIMABLE); try done; try lia.
  - pose proof (sf_blocks _ Hs) as Hbl. simpl in Hbl. rewrite Forall_app, Forall_cons in Hbl.
    destruct Hbl as (_ & (H1 & H2 & H3 & _) & _). simpl in *.
    pose proof (pmm_free_lemma udisj st p count (sf_wf _ Hs) ltac:(lia) Hc H3 H2) as H.
    rewrite Heq in H. destruct H as (_ & _ & Hal & _ & Hcb). by eapply safe_remove.
  - destruct Hs as [H1 H2 H3 H4 H5]. by split.
Qed.

(** * A concrete machine *)

(** A PC with 16 MiB of memory: what [init_memmap] leaves, and the E820 map it read. *)
Definition pc_e820 : list entry :=
  [ME 0 0x9FC00 MEMMAP_USABLE; ME 0x9FC00 0x400 MEMMAP_RESERVED; ME 0xF0000 0x10000 MEMMAP_RESERVED;
   ME 0x100000 0xEE0000 MEMMAP_USABLE; ME 0xFE0000 0x20000 MEMMAP_ACPI_RECLAIMABLE].
Definition pc_map : list entry :=
  [ME 0x1000 0x4F000 MEMMAP_BOOTLOADER_RECLAIMABLE; ME 0x50000 0x4FC00 MEMMAP_USABLE;
   ME 0x9FC00 0x400 MEMMAP_RESERVED; ME 0xF0000 0x10000 MEMMAP_RESERVED;
   ME 0x100000 0xEE0000 MEMMAP_USABLE; ME 0xFE0000 0x20000 MEMMAP_ACPI_RECLAIMABLE].
Definition pc_state (m : list entry) (disallowed : bool) : state :=
  {| memmap := m; max_entries := 512; allocations_disallowed := disallowed; keep_first_page := false;
     conv_base := 0x1000; ram := fun a => a mod 256 |}.
Definition pc : state := pc_state pc_map false.

Lemma pc_fits : Forall fits pc_map.
Proof. repeat constructor; simpl; lia. Qed.
Lemma pc_disj : pairwise disj pc_map.
Proof. simpl. rewrite ?Forall_cons, ?Forall_nil. unfold disj, e_top. simpl. split_and!; done || lia. Qed.
Lemma pc_sorted : StronglySorted base_le pc_map.
Proof. repeat constructor; unfold base_le; simpl; lia. Qed.

Lemma pc_wf : wf udisj pc.
Proof.
  split; [split |].
  - apply pc_fits.
  - repeat constructor; unfold pos; simpl; lia.
  - eapply pairwise_impl; [|apply pc_disj]. intros e f H _. exact H.
  - apply pc_sorted.
  - intros a (e & He & Ht & Hc) (_ & _ & Hlt). unfold covers in Hc.
    repeat (apply elem_of_cons in He as [->|He]; [simpl in *; lia |]). by apply not_elem_of_nil in He.
Qed.

(** A block of the boot loader's own memory, which a client may give back. *)
Lemma pc_held : held pc_map 0x1000 0x50000.
Proof.
  intros a Ha (e & He & Ht & Hc). unfold covers, in_range, e_top in *.
  repeat (apply elem_of_cons in He as [->|He]; [simpl in *; done || lia |]). by apply not_elem_of_nil in He.
Qed.

(** * Properties *)



(** A second [pmm_sanitise_entries] on a map the function has returned (every
    allocation makes one) neither panics nor changes the type of any address. *)
Theorem sanitise_again keep align m m' :
  Forall fits m -> pmm_sanitise_entries keep align m = Ret m' ->
  exists m'', pmm_sanitise_entries keep false m' = Ret m'' /\ forall ty a, has m'' ty a <-> has m' ty a.
Proof.
  intros Hf Heq. pose proof (sanitise_terminates_spec keep align m Hf) as H. rewrite Heq in H.
  destruct (sanitise_disjoint_spec udisj keep m') as (m'' & Hm'' & _ & Hh); try apply H.
  exists m''. split; [done |]. intros ty a. rewrite Hh. split; [tauto |]. intros Ha. split; [done |].
  destruct (decide (ty = MEMMAP_USABLE)) as [->|]; [|by apply hidden_other].
  by apply (sn_sound _ _ _ _ H) in Ha as [_ ?].
Qed.

Lemma sanitise_again_witness :
  exists m'', pmm_sanitise_entries false false
      [ME 0x1000 0x9EC00 MEMMAP_USABLE; ME 0x9FC00 0x400 MEMMAP_RESERVED; ME 0xF0000 0x10000 MEMMAP_RESERVED;
       ME 0x100000 0xEE0000 MEMMAP_USABLE; ME 0xFE0000 0x20000 MEMMAP_ACPI_RECLAIMABLE] = Ret m'' /\
    forall ty a, has m'' ty a <-> has
      [ME 0x1000 0x9EC00 MEMMAP_USABLE; ME 0x9FC00 0x400 MEMMAP_RESERVED; ME 0xF0000 0x10000 MEMMAP_RESERVED;
       ME 0x100000 0xEE0000 MEMMAP_USABLE; ME 0xFE0000 0x20000 MEMMAP_ACPI_RECLAIMABLE] ty a.
Proof.
  apply (sanitise_again false false pc_e820).
  - repeat constructor; simpl; lia.
  - vm_compute. reflexivity.
Defined.

(** An empty entry strictly inside a usable one makes the function panic, although
    its next loop removes empty entries of any type. *)
Theorem sanitise_empty_entry_panics b l b' ty :
  0 <= b -> b < b' -> b' < b + l -> b + l < 2 ^ 64 ->
  pmm_sanitise_entries false false [ME b l MEMMAP_USABLE; ME b' 0 ty] = Panic.
Proof.
  intros H0 H1 H2 H3. unfold pmm_sanitise_entries. set (m := [_; _]).
  assert (Hp : forall n, clip_usable (S n) false m 0 = Panic); [|by unfold sanitise_fuel; rewrite Hp].
  intros n. cbn [clip_usable].
  change (0 <? zlen m) with true. change (is_usable m.[0]) with true. cbn [negb].
  change (length m) with 2%nat. cbn [for_exit].
  change (clip_body 0 0 m) with (inl (B := clip_exit) m). cbv beta iota.
  assert (clip_body 0 (0 + 1) m = inr NestedPanic) as ->; [|done].
  unfold clip_body. change (0 + 1 =? 0) with false.
  change m.[0] with (ME b l MEMMAP_USABLE). change m.[0 + 1] with (ME b' 0 ty). cbv beta iota.
  rewrite (proj2 (CHECKED_ADD_Some b l (b + l))), (proj2 (CHECKED_ADD_Some b' 0 (b' + 0))) by lia.
  assert (((b' <=? b) && (b' + 0 >=? b + l)) = false) as -> by lia.
  assert (((b' >=? b) && (b' <? b + l) && ((b' + 0 >=? b) && (b' + 0 <? b + l))) = true) as -> by lia.
  done.
Qed.

Lemma sanitise_empty_entry_panics_witness :
  pmm_sanitise_entries false false [ME 0x100000 0xF00000 MEMMAP_USABLE; ME 0x200000 0 MEMMAP_RESERVED] = Panic.
Proof. apply (sanitise_empty_entry_panics 0x100000 0xF00000 0x200000 MEMMAP_RESERVED); lia. Defined.

(** [memmap_alloc_range_in] on every branch. It grants a range exactly when the
    range does not wrap around and lies in an entry of the overlay type (or may be
    new); then the range has the new type and no other, and every other address keeps
    its types. Otherwise it returns false with the map untouched, or panics if it was
    told to; the only other panic is a full table. *)
Theorem memmap_alloc_range_in_correct keep max m base length type overlay dp ne :
  wf_map udisj keep m -> 0 <= base -> 0 < length ->
  (type <> MEMMAP_USABLE \/ keep = true \/ 0x1000 <= base) ->
  match memmap_alloc_range_in keep max m base length type overlay dp false ne with
  | Ret (true, m') => grantable m base length overlay ne /\ wf_map udisj keep m' /\
      retyped base (base + length) type m m'
  | Ret (false, m') => ~ grantable m base length overlay ne /\ dp = false /\ m' = m
  | Panic => (~ grantable m base length overlay ne /\ dp = true) \/
      (grantable m base length overlay ne /\ max <= zlen m + nsplit base (base + length) m)
  | Diverge => False
  end.
Proof.
  intros Hwf Hb Hl Hv. apply memmap_alloc_range_in_lemma; [apply _ | done..|].
  intros a Ha (Hk & Hty & Hlt). unfold in_range in Ha. destruct Hv as [|[|]]; [done | congruence | lia].
Qed.

Lemma memmap_alloc_range_in_correct_witness :
  memmap_alloc_range_in false 512 pc_map 0x60000 0x1000 MEMMAP_FRAMEBUFFER MEMMAP_USABLE true false false <> Panic /\
  match memmap_alloc_range_in false 512 pc_map 0x60000 0x1000 MEMMAP_FRAMEBUFFER MEMMAP_USABLE true false false with
  | Ret (true, m') => grantable pc_map 0x60000 0x1000 MEMMAP_USABLE false /\ wf_map udisj false m' /\
      retyped 0x60000 (0x60000 + 0x1000) MEMMAP_FRAMEBUFFER pc_map m'
  | Ret (false, m') => ~ grantable pc_map 0x60000 0x1000 MEMMAP_USABLE false /\ true = false /\ m' = pc_map
  | Panic => (~ grantable pc_map 0x60000 0x1000 MEMMAP_USABLE false /\ true = true) \/
      (grantable pc_map 0x60000 0x1000 MEMMAP_USABLE false /\
       512 <= zlen pc_map + nsplit 0x60000 (0x60000 + 0x1000) pc_map)
  | Diverge => False
  end.
Proof.
  split; [vm_compute; discriminate |].
  apply (memmap_alloc_range_in_correct false 512 pc_map 0x60000 0x1000 MEMMAP_FRAMEBUFFER MEMMAP_USABLE true false);
    [apply pc_wf | lia | lia | by left].
Defined.

(** [ext_mem_alloc_type_aligned_mode] returns a multiple of the alignment, below
    4 GiB unless high allocations are allowed, whose [count] bytes (and the less than
    one alignment unit up to [top]) were usable; it clears the bytes, retypes exactly
    that range, and keeps the map well formed. It panics only if the size overflows,
    allocations are disallowed, no usable entry has room, or the table is full. *)
Theorem ext_mem_alloc_correct i386 st count type alignment high :
  wf udisj st -> 0 < alignment -> 0 < count ->
  match ext_mem_alloc_type_aligned_mode i386 st count type alignment high with
  | Ret (p, st') => exists top,
      p mod alignment = 0 /\ 0 <= p /\
      p + align_up count alignment <= top < p + align_up count alignment + alignment /\ top < 2 ^ 64 /\
      (high = false -> top <= 0x100000000) /\
      inside st.(memmap) MEMMAP_USABLE p top /\ allocated udisj st st' p top type /\
      st'.(conv_base) = st.(conv_base) /\
      st'.(ram) = (if i386 && high then st.(ram)
                   else mem_fill st.(ram) p 0 (align_up count alignment))
  | Panic => 2 ^ 64 <= count + (alignment - 1) \/ st.(allocations_disallowed) = true \/
      (~ room st.(memmap) 0x100000000 (align_up count alignment) alignment /\
       (high = true -> ~ room st.(memmap) UINT64_MAX (align_up count alignment) alignment)) \/
      st.(max_entries) <= zlen st.(memmap) + 1
  | Diverge => False
  end.
Proof. apply ext_mem_alloc_lemma. apply _. Qed.

Lemma ext_mem_alloc_correct_witness :
  exists p st', ext_mem_alloc_type_aligned_mode true pc 5000 MEMMAP_KERNEL_AND_MODULES 4096 false = Ret (p, st') /\
    exists top, p mod 4096 = 0 /\ 0 <= p /\
      p + align_up 5000 4096 <= top < p + align_up 5000 4096 + 4096 /\ top < 2 ^ 64 /\
      (false = false -> top <= 0x100000000) /\
      inside pc.(memmap) MEMMAP_USABLE p top /\ allocated udisj pc st' p top MEMMAP_KERNEL_AND_MODULES /\
      st'.(conv_base) = pc.(conv_base) /\
      st'.(ram) = mem_fill pc.(ram) p 0 (align_up 5000 4096).
Proof.
  pose proof (ext_mem_alloc_correct true pc 5000 MEMMAP_KERNEL_AND_MODULES 4096 false pc_wf
    ltac:(lia) ltac:(lia)) as H.
  assert (Hp : match ext_mem_alloc_type_aligned_mode true pc 5000 MEMMAP_KERNEL_AND_MODULES 4096 false with
    | Ret (p, _) => p = 0xFDE000 | _ => False end) by (vm_compute; reflexivity).
  destruct (ext_mem_alloc_type_aligned_mode true pc 5000 MEMMAP_KERNEL_AND_MODULES 4096 false) as [[p st']| |];
    [|destruct Hp|destruct Hp].
  exists p, st'. split; [reflexivity | exact H].
Defined.

(** C2: in every state reachable from a well-formed one by allocations of any kind,
    conventional-memory allocations, releases of live blocks and arbitrary writes to
    memory, the live blocks are apart from one another, none of them is usable memory,
    and the map is well formed. *)
Theorem allocator_safe i386 st c :
  wf udisj st -> 0 <= st.(conv_base) <= 0x101000 -> rtc (step i386) (st, []) c ->
  safe c.
Proof.
  intros Hwf Hcb Hr. assert (Hs : safe (st, [])).
  { split; simpl; [done | done | constructor | intros b b' [] | constructor]. }
  revert Hs. induction Hr as [|c1 c2 c3 H12 H23 IH]; [done |]. intros H1. by eapply IH, step_safe.
Qed.

Lemma allocator_safe_witness :
  exists p q st', rtc (step true) (pc, []) (st', [(q, q + align_up 100 4096); (p, p + align_up 5000 4096)]) /\
    p <> q /\ safe (st', [(q, q + align_up 100 4096); (p, p + align_up 5000 4096)]).
Proof.
  assert (Hc : match ext_mem_alloc_type_aligned_mode true pc 5000 MEMMAP_KERNEL_AND_MODULES 4096 false with
    | Ret (p, st1) => match conv_mem_alloc st1 100 with
        | Ret (q, _) => (p =? 0xFDE000) && (q =? 0x50000) | _ => false end
    | _ => false end = true) by (vm_compute; reflexivity).
  destruct (ext_mem_alloc_type_aligned_mode true pc 5000 MEMMAP_KERNEL_AND_MODULES 4096 false)
    as [[p st1]| |] eqn:E1; [|discriminate..].
  destruct (conv_mem_alloc st1 100) as [[q st2]| |] eqn:E2; [|discriminate..].
  assert (Hr : rtc (step true) (pc, []) (st2, [(q, q + align_up 100 4096); (p, p + align_up 5000 4096)])).
  { eapply rtc_l; [apply (step_alloc true pc [] 5000 MEMMAP_KERNEL_AND_MODULES 4096 false p st1); [lia | lia | discriminate | exact E1] |].
    eapply rtc_l; [apply (step_conv true st1 _ 100 q st2); [lia | exact E2] |]. apply rtc_refl. }
  exists p, q, st2. split; [exact Hr |]. split; [lia |].
  apply (allocator_safe true pc); [exact pc_wf | simpl; lia | exact Hr].
Defined.

(** [ext_mem_alloc] followed by [pmm_free] of the same size gives the memory back:
    every address has the types it had before, but for the less than one page that the
    allocation took above the rounded size to reach the end of its entry. *)
Theorem alloc_free_roundtrip i386 st count p st1 st2 :
  wf udisj st -> 0 < count -> p + align_up count 4096 < 2 ^ 64 ->
  ext_mem_alloc i386 st count = Ret (p, st1) -> pmm_free st1 p count = Ret st2 ->
  exists top, p + align_up count 4096 <= top < p + align_up count 4096 + 4096 /\
    (forall ty a, ~ in_range (p + align_up count 4096) top a ->
       has st2.(memmap) ty a <-> has st.(memmap) ty a) /\
    (forall a, in_range p top a -> vis st.(memmap) a).
Proof.
  intros Hwf Hc Hlt Ha Hf. unfold ext_mem_alloc, ext_mem_alloc_type, ext_mem_alloc_type_aligned in Ha.
  pose proof (ext_mem_alloc_lemma udisj i386 st count MEMMAP_BOOTLOADER_RECLAIMABLE 4096 false Hwf ltac:(lia) Hc) as H.
  rewrite Ha in H. destruct H as (top & _ & Hp & Htop & Ht & _ & Hin & [Hwf1 Hr1 _ _ Hk] & _ & _).
  pose proof (align_up_spec count 4096 ltac:(lia) Hc) as Hup.
  assert (Hvis : forall a, in_range p top a -> vis st.(memmap) a).
  { intros a Hra. apply udisj_vis; [apply Hwf |]. by eapply inside_has. }
  assert (Hpage : st1.(keep_first_page) = true \/ 0x1000 <= p).
  { pose proof (wf_visible _ _ _ Hwf p ltac:(eapply inside_has; [done | unfold in_range; lia])) as Hv.
    unfold hidden in Hv. rewrite Hk. destruct (keep_first_page st); [by left | right].
    destruct (decide (p < 0x1000)); [by destruct Hv | lia]. }
  pose proof (pmm_free_lemma udisj st1 p count Hwf1 Hp Hc Hpage Hlt) as H. rewrite Hf in H.
  destruct H as (_ & _ & [_ Hr2 _ _ _] & _ & _).
  exists top. split_and!; try done; try lia. intros ty a Hn.
  rewrite (Hr2 ty a), (Hr1 ty a). unfold in_range in *. split.
  - intros [[-> Hra]|[[[_ Hra]|[Hh _]] Hx]]; [apply Hvis; lia | lia | done].
  - intros Hh.
    destruct (decide (p <= a < p + align_up count 4096)) as [Hra|Hra].
    + left. split; [|done]. destruct (Hvis a ltac:(lia)) as [_ Hnt].
      destruct (decide (ty = MEMMAP_USABLE)); [done |]. destruct Hnt. by exists ty.
    + right. split; [|done]. right. split; [done | lia].
Qed.

Lemma alloc_free_roundtrip_witness :
  exists p st1 st2, ext_mem_alloc true pc 5000 = Ret (p, st1) /\ pmm_free st1 p 5000 = Ret st2 /\
  exists top, p + align_up 5000 4096 <= top < p + align_up 5000 4096 + 4096 /\
    (forall ty a, ~ in_range (p + align_up 5000 4096) top a ->
       has st2.(memmap) ty a <-> has pc.(memmap) ty a) /\
    (forall a, in_range p top a -> vis pc.(memmap) a).
Proof.
  assert (Hc : match ext_mem_alloc true pc 5000 with
    | Ret (p, st1) => match pmm_free st1 p 5000 with
        | Ret _ => p =? 0xFDE000 | _ => false end
    | _ => false end = true) by (vm_compute; reflexivity).
  destruct (ext_mem_alloc true pc 5000) as [[p st1]| |] eqn:E1; [|discriminate..].
  destruct (pmm_free st1 p 5000) as [st2| |] eqn:E2; [|discriminate..].
  exists p, st1, st2. split; [reflexivity |]. split; [exact E2 |].
  apply (alloc_free_roundtrip true pc 5000 p st1 st2);
    [exact pc_wf | lia | apply Z.eqb_eq in Hc; subst p; vm_compute; reflexivity | exact E1 | exact E2].
Defined.

(** [pmm_realloc] of a held block returns a block apart from it that holds the
    old contents up to the smaller of the two sizes and zeros after them; the old block
    is usable again and the new one is not. *)
Theorem pmm_realloc_correct i386 st old old_size new_size :
  wf udisj st -> 0 < old -> 0 < old_size -> 0 < new_size ->
  (st.(keep_first_page) = true \/ 0x1000 <= old) -> old + align_up old_size 4096 < 2 ^ 64 ->
  held st.(memmap) old (old + align_up old_size 4096) ->
  match pmm_realloc i386 st old old_size new_size with
  | Ret (p, st') => realloc_post udisj st st' old (align_up old_size 4096) (align_up new_size 4096) p old_size new_size
  | Panic => True
  | Diverge => False
  end.
Proof. apply pmm_realloc_lemma. apply _. Qed.

Lemma pmm_realloc_correct_witness :
  exists p st', pmm_realloc true pc 0x10000 5000 9000 = Ret (p, st') /\
    realloc_post udisj pc st' 0x10000 (align_up 5000 4096) (align_up 9000 4096) p 5000 9000.
Proof.
  pose proof (pmm_realloc_correct true pc 0x10000 5000 9000 pc_wf ltac:(lia) ltac:(lia) ltac:(lia)
    ltac:(right; lia) ltac:(reflexivity)) as H.
  assert (Hh : held pc.(memmap) 0x10000 (0x10000 + align_up 5000 4096)).
  { intros a Ha. apply pc_held. unfold in_range in *.
    change (0x10000 + align_up 5000 4096) with 0x12000 in Ha. lia. }
  specialize (H Hh).
  assert (Hp : match pmm_realloc true pc 0x10000 5000 9000 with
    | Ret (p, _) => p =? 0xFDD000 | _ => false end = true) by (vm_compute; reflexivity).
  destruct (pmm_realloc true pc 0x10000 5000 9000) as [[p st']| |]; [|discriminate..].
  exists p, st'. split; [reflexivity | exact H].
Defined.

(** [conv_mem_alloc] terminates, whatever the size asked for (even where the
    guard's sum wraps around); a block it returns is usable memory below 1 MiB, at a page
    offset from the static base and not below it, cleared and taken, and the static
    base moves behind it. *)
Theorem conv_mem_alloc_correct st count :
  wf udisj st -> 0 < count -> 0 <= st.(conv_base) <= 0x101000 ->
  match conv_mem_alloc st count with
  | Ret (p, st') => st.(allocations_disallowed) = false /\ conv_post udisj st st' p (align_up count 4096)
  | Panic => True
  | Diverge => False
  end.
Proof. apply conv_mem_alloc_lemma. apply _. Qed.

Lemma conv_mem_alloc_correct_witness :
  exists p st', conv_mem_alloc pc 100 = Ret (p, st') /\
    pc.(allocations_disallowed) = false /\ conv_post udisj pc st' p (align_up 100 4096).
Proof.
  pose proof (conv_mem_alloc_correct pc 100 pc_wf ltac:(lia) ltac:(simpl; lia)) as H.
  assert (Hp : match conv_mem_alloc pc 100 with Ret (p, _) => p =? 0x50000 | _ => false end = true)
    by (vm_compute; reflexivity).
  destruct (conv_mem_alloc pc 100) as [[p st']| |]; [|discriminate..].
  exists p, st'. split; [reflexivity | exact H].
Defined.

(** The BIOS [init_memmap], on any E820 map, terminates; if it returns, the map is
    well formed, the loader's image (from 0x1000 to the end of its bss) is bootloader
    reclaimable and nothing in it is usable, and an address is usable only if it is at
    least 0x1000, some usable E820 entry covers it (outside the area from the EBDA to
    1 MiB, unless that entry spans it), and no other kind of E820 entry does. *)
Theorem init_memmap_correct ebda bss_end l st :
  Forall raw l -> 0 <= ebda <= 0x100000 -> 0x1000 < bss_end ->
  st.(memmap) = [] -> st.(keep_first_page) = false ->
  match init_memmap ebda bss_end l st with
  | Ret st' => booted ebda bss_end l st'
  | Panic => True
  | Diverge => False
  end.
Proof. apply init_memmap_lemma. Qed.

Lemma init_memmap_correct_witness :
  exists st', init_memmap 0x9FC00 0x4F123 pc_e820 (pc_state [] true) = Ret st' /\
    booted 0x9FC00 0x4F123 pc_e820 st'.
Proof.
  assert (Hr : Forall raw pc_e820).
  { repeat constructor; unfold raw, is_u64; simpl; try lia; intros (? & ? & ?); lia. }
  pose proof (init_memmap_correct 0x9FC00 0x4F123 pc_e820 (pc_state [] true) Hr ltac:(lia) ltac:(lia)
    eq_refl eq_refl) as H.
  assert (Hm : match init_memmap 0x9FC00 0x4F123 pc_e820 (pc_state [] true) with
    | Ret st' => bool_decide (st'.(memmap) = pc_map) | _ => false end = true) by (vm_compute; reflexivity).
  destruct (init_memmap 0x9FC00 0x4F123 pc_e820 (pc_state [] true)) as [st'| |]; [|discriminate..].
  exists st'. split; [reflexivity | exact H].
Defined.

(** [mmap_get_info] terminates; [lowermem] is the first address that no usable entry
    covers, at most 1 MiB, and [uppermem] the distance from 1 MiB to the first address
    above it that none covers. *)
Theorem mmap_get_info_correct m :
  Forall fits m -> exists lower_end upper_end,
    mmap_get_info m = Ret (Z.min lower_end 0x100000, upper_end - 0x100000) /\
    first_gap m 0 lower_end /\ first_gap m 0x100000 upper_end.
Proof. apply mmap_get_info_lemma. Qed.

Lemma mmap_get_info_correct_witness :
  mmap_get_info pc_e820 = Ret (0x9FC00, 0xEE0000) /\ exists lower_end upper_end,
    mmap_get_info pc_e820 = Ret (Z.min lower_end 0x100000, upper_end - 0x100000) /\
    first_gap pc_e820 0 lower_end /\ first_gap pc_e820 0x100000 upper_end.
Proof.
  split; [vm_compute; reflexivity |]. apply (mmap_get_info_correct pc_e820).
  repeat constructor; simpl; lia.
Defined.

(** On a map of disjoint entries [check_usable_memory] says whether every address of
    the range is memory the loader may overwrite: usable, reclaimable or the kernel's. *)
Theorem check_usable_memory_correct uefi st base top :
  Forall fits st.(memmap) -> pairwise disj st.(memmap) -> 0 <= base < top -> top < 2 ^ 64 ->
  (check_usable_memory uefi st base top = true <->
   forall a, base <= a < top -> exists ty, real_ram uefi ty = true /\ has st.(memmap) ty a).
Proof. apply check_usable_memory_lemma. Qed.

Lemma check_usable_memory_correct_witness :
  check_usable_memory false pc 0x4000 0x9F000 = true /\
  (check_usable_memory false pc 0x4000 0x9F000 = true <->
   forall a, 0x4000 <= a < 0x9F000 -> exists ty, real_ram false ty = true /\ has pc.(memmap) ty a).
Proof.
  split; [vm_compute; reflexivity |].
  apply (check_usable_memory_correct false pc 0x4000 0x9F000); [exact pc_fits | exact pc_disj | lia | lia].
Defined.

(** On a map of disjoint entries [pmm_check_type] returns the type of the entry that
    covers the address. *)
Theorem pmm_check_type_correct st a ty :
  Forall fits st.(memmap) -> pairwise disj st.(memmap) -> ty <> UINT64_MAX ->
  pmm_check_type st a = ty <-> has st.(memmap) ty a.
Proof. apply check_type_lemma. Qed.

Lemma pmm_check_type_correct_witness :
  pmm_check_type pc 0x100000 = MEMMAP_USABLE /\
  (pmm_check_type pc 0x100000 = MEMMAP_USABLE <-> has pc.(memmap) MEMMAP_USABLE 0x100000).
Proof.
  split; [vm_compute; reflexivity |].
  apply (pmm_check_type_correct pc 0x100000 MEMMAP_USABLE); [exact pc_fits | exact pc_disj | discriminate].
Defined.
