(* ===== verification/Console.v ===== *)
(** NebulaOS's own kernel: the console ([kernel/src/console.c]: COM1 and VGA text
    mode), [_start] ([kernel/src/main.c]) and the UEFI application
    ([uefi-bootloader/src/main.c]). *)

From S2P Require Import Prelude.

Module Console.

(** * State *)

(** The statics of [console.c], the cells of the VGA text buffer by index, the port
    writes made so far in order, and how many [inb] were made. *)
Record console := {
  vga : Z -> Z;
  cursor_row : Z;
  cursor_col : Z;
  attr : Z;
  serial_initialized : bool;
  outs : list (Z * Z);
  reads : nat;
}.

Definition outb (port val : Z) (st : console) : console :=
  {| vga := st.(vga); cursor_row := st.(cursor_row); cursor_col := st.(cursor_col);
     attr := st.(attr); serial_initialized := st.(serial_initialized);
     outs := st.(outs) ++ [(port, val)]; reads := st.(reads) |}.

Definition set_cursor (st : console) (row col : Z) : console :=
  {| vga := st.(vga); cursor_row := row; cursor_col := col; attr := st.(attr);
     serial_initialized := st.(serial_initialized); outs := st.(outs); reads := st.(reads) |}.
Definition set_vga (st : console) (v : Z -> Z) : console :=
  {| vga := v; cursor_row := st.(cursor_row); cursor_col := st.(cursor_col); attr := st.(attr);
     serial_initialized := st.(serial_initialized); outs := st.(outs); reads := st.(reads) |}.
Definition set_initialized (st : console) : console :=
  {| vga := st.(vga); cursor_row := st.(cursor_row); cursor_col := st.(cursor_col); attr := st.(attr);
     serial_initialized := true; outs := st.(outs); reads := st.(reads) |}.

(** * VGA text mode *)

Definition vga_set (v : Z -> Z) (i x : Z) : Z -> Z := fun k => if k =? i then x else v k.

(** [(uint16_t)(attr << 8) | (uint8_t)c] *)
Definition cell (attr c : Z) : Z := Z.lor (u16 (Z.shiftl attr 8)) (u8 c).

(** The two loops of the scroll. *)
Definition scroll_up (v : Z -> Z) : Z -> Z :=
  for_up 24 1
    (fun r v => for_up 80 0 (fun cc v => vga_set v ((r - 1) * 80 + cc) (v (r * 80 + cc))) v) v.
Definition clear_last (attr : Z) (v : Z -> Z) : Z -> Z :=
  for_up 80 0 (fun cc v => vga_set v (24 * 80 + cc) (cell attr 32)) v.

Definition vga_putc (c : Z) (st : console) : console :=
  let st :=
    if c =? 10 then set_cursor st (st.(cursor_row) + 1) 0
    else if c =? 13 then set_cursor st st.(cursor_row) 0
    else
      let i := st.(cursor_row) * 80 + st.(cursor_col) in
      let st := set_vga st (vga_set st.(vga) i (cell st.(attr) c)) in
      let st := set_cursor st st.(cursor_row) (st.(cursor_col) + 1) in
      if st.(cursor_col) >=? 80 then set_cursor st (st.(cursor_row) + 1) 0 else st in
  if st.(cursor_row) >=? 25 then
    set_cursor (set_vga st (clear_last st.(attr) (scroll_up st.(vga)))) 24 st.(cursor_col)
  else st.

(** * Serial *)

Section serial.
(** The machine's answer to the [n]-th [inb] of the program: the line status
    register of COM1, the only port read. *)
Context (lsr : nat -> Z).

Definition inb (st : console) : Z * console :=
  (lsr st.(reads),
   {| vga := st.(vga); cursor_row := st.(cursor_row); cursor_col := st.(cursor_col);
      attr := st.(attr); serial_initialized := st.(serial_initialized);
      outs := st.(outs); reads := S st.(reads) |}).

Definition serial_init (st : console) : console :=
  let base := 0x3F8 in
  let st := outb (base + 1) 0x00 st in
  let st := outb (base + 3) 0x80 st in
  let st := outb (base + 0) 0x03 st in
  let st := outb (base + 1) 0x00 st in
  let st := outb (base + 3) 0x03 st in
  let st := outb (base + 2) 0xC7 st in
  let st := outb (base + 4) 0x0B st in
  let '(_, st) := inb st in
  set_initialized st.

(** [while ((inb(base + 5) & 0x20) == 0)] *)
Fixpoint serial_wait (fuel : nat) (st : console) : outcome console :=
  match fuel with
  | O => Diverge
  | S fuel =>
      let '(v, st) := inb st in
      if Z.land v 0x20 =? 0 then serial_wait fuel st else Ret st
  end.

Definition serial_putc (fuel : nat) (c : Z) (st : console) : outcome console :=
  let st := if st.(serial_initialized) then st else serial_init st in
  st ← serial_wait fuel st;
  Ret (outb 0x3F8 (u8 c) st).

Definition console_putc (fuel : nat) (c : Z) (st : console) : outcome console :=
  st ← serial_putc fuel c st;
  Ret (vga_putc c st).

(** [for (; *s; s++)]: the end of the list is the terminator, too. *)
Fixpoint console_write (fuel : nat) (s : list Z) (st : console) : outcome console :=
  match s with
  | [] => Ret st
  | c :: s =>
      if c =? 0 then Ret st
      else st ← console_putc fuel c st; console_write fuel s st
  end.

Definition hex : list Z := bytes "0123456789ABCDEF".

(** [i] from 60 down to 0 in steps of 4: [n] steps are left and [i = 4 * (n - 1)]. *)
Fixpoint hex_loop (n : nat) (fuel : nat) (x : Z) (st : console) : outcome console :=
  match n with
  | O => Ret st
  | S n =>
      let i := 4 * Z.of_nat n in
      st ← console_putc fuel hex.[Z.land (Z.shiftr x i) 0xF] st;
      hex_loop n fuel x st
  end.
Definition console_write_hex (fuel : nat) (x : Z) (st : console) : outcome console :=
  hex_loop 16 fuel x st.

(** [_start]: the banner, then [hlt] for ever (the result is the state it halts in). *)
Definition banner : list (list Z) :=
  [ bytes "NebulaOS: minimal kernel booted" ++ [10];
    bytes "Serial+Screen console active." ++ [10];
    bytes "UEFI+Limine pipeline reaching stage 1." ++ [10];
    bytes "Kernel loop..." ++ [10] ].
Definition start (fuel : nat) (st : console) : outcome console :=
  foldl (fun o s => o ≫= console_write fuel s) (Ret st) banner.
End serial.

(** The console at boot: the statics' initial values. *)
Definition boot (v : Z -> Z) : console :=
  {| vga := v; cursor_row := 0; cursor_col := 0; attr := 0x0F; serial_initialized := false;
     outs := []; reads := 0 |}.

(** * [EfiMain] *)

(** The tables the firmware passes, [None] for a null pointer; [OutputString] is the
    firmware's function on its own state. *)
Section efi.
Context {FW : Type}.
Record EFI_SIMPLE_TEXT_OUTPUT_PROTOCOL := { OutputString : option (list Z -> FW -> FW) }.
Record EFI_SYSTEM_TABLE := { ConOutProtocol : option EFI_SIMPLE_TEXT_OUTPUT_PROTOCOL }.

Definition msg : list Z := bytes "NebulaOS Booting..." ++ [13; 10; 0].

Definition EfiMain (SystemTable : option EFI_SYSTEM_TABLE) (fw : FW) : Z * FW :=
  let fw :=
    match SystemTable with
    | None => fw
    | Some st =>
        match st.(ConOutProtocol) with
        | None => fw
        | Some p => match p.(OutputString) with None => fw | Some f => f msg fw end
        end
    end in
  (0, fw).
End efi.

End Console.
