(* ===== verification/ConsoleCorrect.v ===== *)
(** The console refines a terminal without end: a sheet of paper of which the screen
    shows the last 25 lines, and a serial line that carries the same characters. *)

From S2P Require Import Prelude Console.
Import Console.

(** * Scrolling *)

Lemma scroll_row r v k :
  for_up 80 0 (fun cc v => vga_set v ((r - 1) * 80 + cc) (v (r * 80 + cc))) v k =
    if ((r - 1) * 80 <=? k) && (k <? r * 80) then v (k + 80) else v k.
Proof.
  pose proof (for_up_ind (fun cc (v' : Z -> Z) => forall k, v' k =
    if ((r - 1) * 80 <=? k) && (k <? (r - 1) * 80 + cc) then v (k + 80) else v k)
    80 0 (fun cc v => vga_set v ((r - 1) * 80 + cc) (v (r * 80 + cc))) v) as H.
  rewrite H.
  - replace ((r - 1) * 80 + (0 + Z.of_nat 80)) with (r * 80) by lia. done.
  - intros j. case_if; [lia | done].
  - intros cc v' Hcc IH j. unfold vga_set. rewrite !IH.
    destruct (Z.eqb_spec j ((r - 1) * 80 + cc)) as [->|]; repeat (case_if; try done; try lia).
    f_equal. lia.
Qed.

Lemma scroll_up_spec v k :
  scroll_up v k = if (0 <=? k) && (k <? 1920) then v (k + 80) else v k.
Proof.
  unfold scroll_up.
  match goal with |- for_up 24 1 ?body v k = _ =>
    pose proof (for_up_ind (fun r (v' : Z -> Z) => forall k, v' k =
      if (0 <=? k) && (k <? (r - 1) * 80) then v (k + 80) else v k) 24 1 body v) as H end.
  rewrite H.
  - done.
  - intros j. case_if; [lia | done].
  - intros r v' Hr IH j. rewrite scroll_row, !IH.
    destruct ((0 <=? j) && (j <? (r + 1 - 1) * 80)) eqn:E.
    + repeat (case_if; try done; try lia).
    + repeat (case_if; try done; try lia).
Qed.

Lemma clear_last_spec a v k :
  clear_last a v k = if (1920 <=? k) && (k <? 2000) then cell a 32 else v k.
Proof.
  unfold clear_last.
  match goal with |- for_up 80 0 ?body v k = _ =>
    pose proof (for_up_ind (fun cc (v' : Z -> Z) => forall k, v' k =
      if (1920 <=? k) && (k <? 1920 + cc) then cell a 32 else v k) 80 0 body v) as H end.
  rewrite H.
  - done.
  - intros j. case_if; [lia | done].
  - intros cc v' Hcc IH j. unfold vga_set. rewrite IH.
    destruct (Z.eqb_spec j (24 * 80 + cc)) as [->|]; repeat (case_if; try done; try lia).
Qed.

(** * The paper *)

Record paper := { text : Z -> Z -> Z; line : Z; column : Z }.

Definition print_at (p : paper) (x : Z) : paper :=
  {| text := fun r c => if (r =? p.(line)) && (c =? p.(column)) then x else p.(text) r c;
     line := p.(line); column := p.(column) |}.
Definition move (p : paper) (r c : Z) : paper := {| text := p.(text); line := r; column := c |}.

(** A terminal that never scrolls. *)
Definition paper_putc (a c : Z) (p : paper) : paper :=
  if c =? 10 then move p (p.(line) + 1) 0
  else if c =? 13 then move p p.(line) 0
  else
    let p := print_at p (cell a c) in
    if p.(column) + 1 >=? 80 then move p (p.(line) + 1) 0 else move p p.(line) (p.(column) + 1).

Definition paper_write (a : Z) (s : list Z) (p : paper) : paper := foldl (fun p c => paper_putc a c p) p s.

(** The blank sheet: the screen as the kernel finds it, then empty lines. *)
Definition sheet (a : Z) (v : Z -> Z) : paper :=
  {| text := fun r c => if r <? 25 then v (r * 80 + c) else cell a 32; line := 0; column := 0 |}.

(** The first line on the screen. *)
Definition top (p : paper) : Z := Z.max 0 (p.(line) - 24).

(** The screen shows 25 lines of the paper from [top] on, nothing has been printed
    below the cursor's line or the screen, and memory outside the screen is as [v0]. *)
Record shows (v0 : Z -> Z) (st : console) (p : paper) : Prop := {
  sh_line : 0 <= p.(line);
  sh_column : 0 <= p.(column) < 80;
  sh_row : st.(cursor_row) = p.(line) - top p;
  sh_col : st.(cursor_col) = p.(column);
  sh_cells : forall r c, 0 <= r < 25 -> 0 <= c < 80 -> st.(vga) (r * 80 + c) = p.(text) (top p + r) c;
  sh_blank : forall r c, 25 <= r -> p.(line) < r -> p.(text) r c = cell st.(attr) 32;
  sh_frame : forall k, k < 0 \/ 2000 <= k -> st.(vga) k = v0 k;
}.

Lemma shows_boot v : shows v (boot v) (sheet 0x0F v).
Proof.
  split; simpl; try done.
  - intros r c Hr Hc. unfold top. simpl. case_if; [f_equal; lia | lia].
  - intros r c Hr _. case_if; [lia | done].
Qed.

(** Moving to the start of the next line, scrolling if it is below the screen. *)
Definition next_line (st : console) : console :=
  let st := set_cursor st (st.(cursor_row) + 1) 0 in
  if st.(cursor_row) >=? 25 then
    set_cursor (set_vga st (clear_last st.(attr) (scroll_up st.(vga)))) 24 st.(cursor_col)
  else st.

Lemma shows_next_line v0 st p :
  shows v0 st p -> shows v0 (next_line st) (move p (p.(line) + 1) 0).
Proof.
  intros [H1 H2 H3 H4 H5 H6 H7]. unfold next_line. unfold top in *. simpl.
  destruct (Z.geb_spec (st.(cursor_row) + 1) 25); split; simpl; unfold top; simpl; try lia.
  - intros r c Hr Hc. rewrite clear_last_spec, scroll_up_spec.
    destruct (decide (r = 24)) as [->|].
    + case_if; [|lia]. rewrite H6; [done | lia | lia].
    + case_if; [lia |]. case_if; [|lia]. replace (r * 80 + c + 80) with ((r + 1) * 80 + c) by lia.
      rewrite H5 by lia. f_equal. lia.
  - intros r c Hr Hl. apply H6; lia.
  - intros k Hk. rewrite clear_last_spec, scroll_up_spec. repeat (case_if; [lia |]). by apply H7.
  - intros r c Hr Hc. rewrite H5 by lia. f_equal. lia.
  - intros r c Hr Hl. apply H6; lia.
  - done.
Qed.

Lemma shows_print v0 st p x :
  shows v0 st p ->
  shows v0 (set_vga st (vga_set st.(vga) (st.(cursor_row) * 80 + st.(cursor_col)) x)) (print_at p x).
Proof.
  intros [H1 H2 H3 H4 H5 H6 H7]. split; simpl; try done.
  - intros r c Hr Hc. unfold vga_set. rewrite H3, H4. unfold top in *. simpl.
    destruct (Z.eqb_spec (Z.max 0 (line p - 24) + r) (line p)), (Z.eqb_spec c (column p)); simpl;
      case_if; try done; try (rewrite H5 by lia; done); try lia.
  - intros r c Hr Hl. rewrite (proj2 (Z.eqb_neq r (line p))) by lia. simpl. by apply H6.
  - intros k Hk. unfold vga_set. rewrite H3, H4. unfold top in *. case_if; [lia | by apply H7].
Qed.

(** [vga_putc] with the scroll at its end written per case. *)
Lemma vga_putc_cases c st :
  st.(cursor_row) < 25 ->
  vga_putc c st =
    if c =? 10 then next_line st
    else if c =? 13 then set_cursor st st.(cursor_row) 0
    else
      let st' := set_vga st (vga_set st.(vga) (st.(cursor_row) * 80 + st.(cursor_col)) (cell st.(attr) c)) in
      if st.(cursor_col) + 1 >=? 80 then next_line st'
      else set_cursor st' st.(cursor_row) (st.(cursor_col) + 1).
Proof.
  intros Hr. unfold vga_putc, next_line. simpl.
  assert (Hge : (st.(cursor_row) >=? 25) = false) by lia.
  destruct (c =? 10); [done |]. destruct (c =? 13); simpl; [by rewrite Hge |].
  destruct (st.(cursor_col) + 1 >=? 80); simpl; [done | by rewrite Hge].
Qed.

Lemma shows_putc v0 st p c :
  shows v0 st p -> shows v0 (vga_putc c st) (paper_putc st.(attr) c p).
Proof.
  intros Hs. pose proof Hs as [H1 H2 H3 H4 H5 H6 H7]. unfold top in H3.
  rewrite vga_putc_cases by lia. unfold paper_putc.
  destruct (c =? 10); [by apply shows_next_line |].
  destruct (c =? 13). { split; simpl; try done. }
  pose proof (shows_print v0 st p (cell st.(attr) c) Hs) as Hp. simpl. rewrite H4.
  destruct (Z.geb_spec (column p + 1) 80).
  - rewrite <- H4. by apply shows_next_line in Hp.
  - rewrite <- H4. destruct Hp as [G1 G2 G3 G4 G5 G6 G7]. split; simpl in *; try done; lia.
Qed.

Lemma attr_putc c st : (vga_putc c st).(attr) = st.(attr).
Proof. unfold vga_putc. repeat case_if; done. Qed.
Lemma outs_putc c st : (vga_putc c st).(outs) = st.(outs) /\ (vga_putc c st).(reads) = st.(reads) /\
  (vga_putc c st).(serial_initialized) = st.(serial_initialized).
Proof. unfold vga_putc. repeat case_if; done. Qed.

(** * The serial line *)

(** A 16550 as the program's port writes drive it: the line control register, the
    divisor latch, and the characters put on the line. *)
Record uart := { lcr : Z; dll : Z; dlm : Z; sent : list Z }.

Definition uart_write (u : uart) (w : Z * Z) : uart :=
  let '(port, val) := w in
  let dlab := Z.testbit u.(lcr) 7 in
  if port =? 0x3FB then {| lcr := val; dll := u.(dll); dlm := u.(dlm); sent := u.(sent) |}
  else if (port =? 0x3F8) && dlab then {| lcr := u.(lcr); dll := val; dlm := u.(dlm); sent := u.(sent) |}
  else if (port =? 0x3F9) && dlab then {| lcr := u.(lcr); dll := u.(dll); dlm := val; sent := u.(sent) |}
  else if port =? 0x3F8 then {| lcr := u.(lcr); dll := u.(dll); dlm := u.(dlm); sent := u.(sent) ++ [val] |}
  else u.
Definition uart_run (u : uart) (ws : list (Z * Z)) : uart := foldl uart_write u ws.

(** 38400 baud, 8 data bits, no parity, one stop bit. *)
Definition configured (u : uart) : Prop := u.(lcr) = 3 /\ u.(dll) = 3 /\ u.(dlm) = 0.

Lemma uart_init_tail u :
  uart_run u [(0x3FB, 0x80); (0x3F8, 3); (0x3F9, 0); (0x3FB, 3); (0x3FA, 0xC7); (0x3FC, 0x0B)] =
    {| lcr := 3; dll := 3; dlm := 0; sent := u.(sent) |}.
Proof. reflexivity. Qed.

(** The writes of [serial_init]. *)
Lemma uart_init u :
  let u' := uart_run u [(0x3F9, 0); (0x3FB, 0x80); (0x3F8, 3); (0x3F9, 0); (0x3FB, 3); (0x3FA, 0xC7); (0x3FC, 0x0B)] in
  configured u' /\ u'.(sent) = u.(sent).
Proof.
  intros u'. subst u'. match goal with |- context [uart_run u (?w :: ?ws)] =>
    change (uart_run u (w :: ws)) with (uart_run (uart_write u w) ws) end.
  rewrite uart_init_tail. split; [done |]. unfold uart_write. cbn [sent].
  by destruct (Z.testbit (lcr u) 7).
Qed.

Section serial.
Context (lsr : nat -> Z) (u0 : uart) (delay : nat).
(** The transmitter becomes ready after at most [delay] polls. *)
Hypothesis (Hready : forall n, exists k, (k < delay)%nat /\ Z.testbit (lsr (n + k)) 5 = true).

Lemma land_bit5 v : (Z.land v 0x20 =? 0) = negb (Z.testbit v 5).
Proof.
  destruct (Z.testbit v 5) eqn:E; simpl.
  - apply Z.eqb_neq. intros H. apply (f_equal (fun z => Z.testbit z 5)) in H.
    rewrite Z.land_spec, E in H. done.
  - apply Z.eqb_eq. apply Z.bits_inj'. intros i Hi. rewrite Z.land_spec, Z.bits_0.
    destruct (decide (i = 5)) as [->|]; [by rewrite E |].
    change 0x20 with (2 ^ 5). rewrite Z.pow2_bits_false by lia. apply andb_false_r.
Qed.

Lemma wait_steps k n st fuel :
  (k < fuel)%nat -> st.(reads) = n -> Z.testbit (lsr (n + k)) 5 = true ->
  exists st', serial_wait lsr fuel st = Ret st' /\ st'.(outs) = st.(outs) /\
    st'.(serial_initialized) = st.(serial_initialized) /\ st'.(attr) = st.(attr) /\
    st'.(vga) = st.(vga) /\ st'.(cursor_row) = st.(cursor_row) /\ st'.(cursor_col) = st.(cursor_col).
Proof.
  revert k n st; induction fuel as [|fuel IH]; intros k n st Hk Hn Hb; [lia |].
  cbn [serial_wait inb]. rewrite land_bit5, Hn.
  destruct (Z.testbit (lsr n) 5) eqn:E; simpl; [eexists; split; [done | done] |].
  destruct k as [|k]; [rewrite Nat.add_0_r in Hb; congruence |].
  match goal with |- context [serial_wait lsr fuel ?s] =>
    destruct (IH k (S n) s) as (st' & Hw & H') end;
    [lia | | |exists st'; split; [exact Hw | exact H']].
  - done.
  - by rewrite <- Nat.add_succ_comm in Hb.
Qed.

(** What [serial_init] leaves in the device. *)
Definition line_ok (st : console) (s : list Z) : Prop :=
  if st.(serial_initialized) then
    configured (uart_run u0 st.(outs)) /\ (uart_run u0 st.(outs)).(sent) = u0.(sent) ++ s
  else st.(outs) = [] /\ s = [].

Lemma shows_ext v0 st st' p :
  shows v0 st p -> st'.(attr) = st.(attr) -> st'.(vga) = st.(vga) ->
  st'.(cursor_row) = st.(cursor_row) -> st'.(cursor_col) = st.(cursor_col) -> shows v0 st' p.
Proof.
  intros [H1 H2 H3 H4 H5 H6 H7] Ha Hv Hr Hc. split; rewrite ?Ha, ?Hv, ?Hr, ?Hc; done.
Qed.

Lemma serial_putc_lemma c st s :
  line_ok st s -> exists st', serial_putc lsr delay c st = Ret st' /\
    line_ok st' (s ++ [u8 c]) /\ st'.(serial_initialized) = true /\ st'.(attr) = st.(attr) /\
    st'.(vga) = st.(vga) /\ st'.(cursor_row) = st.(cursor_row) /\ st'.(cursor_col) = st.(cursor_col).
Proof.
  intros Hl. unfold serial_putc. set (st1 := if st.(serial_initialized) then st else serial_init lsr st).
  assert (H1 : st1.(serial_initialized) = true /\ st1.(attr) = st.(attr) /\ st1.(vga) = st.(vga) /\
    st1.(cursor_row) = st.(cursor_row) /\ st1.(cursor_col) = st.(cursor_col) /\
    configured (uart_run u0 st1.(outs)) /\ (uart_run u0 st1.(outs)).(sent) = u0.(sent) ++ s).
  { subst st1. unfold line_ok in Hl. destruct (serial_initialized st) eqn:E; [destruct Hl; split_and!; done |].
    destruct Hl as [Ho ->]. split_and!; try done; simpl; rewrite Ho, ?app_nil_r; apply uart_init. }
  clearbody st1. destruct H1 as (I1 & A1 & V1 & R1 & C1 & U1 & S1).
  destruct (Hready st1.(reads)) as (k & Hk & Hb).
  destruct (wait_steps k _ st1 delay Hk eq_refl Hb) as (st2 & -> & O2 & I2 & A2 & V2 & R2 & C2).
  cbn [mbind outcome_bind]. eexists. split; [done |]. simpl. split_and!; try congruence.
  unfold line_ok. simpl. rewrite I2, I1, O2. unfold uart_run in *. rewrite foldl_app. simpl.
  destruct U1 as (L1 & D1 & D2). rewrite L1. simpl. split; [by split_and! |].
  by rewrite S1, <- app_assoc.
Qed.

Lemma console_putc_lemma v0 c st p s :
  shows v0 st p -> line_ok st s -> exists st', console_putc lsr delay c st = Ret st' /\
    shows v0 st' (paper_putc st.(attr) c p) /\ line_ok st' (s ++ [u8 c]) /\
    st'.(attr) = st.(attr) /\ st'.(serial_initialized) = true.
Proof.
  intros Hs Hl. unfold console_putc.
  destruct (serial_putc_lemma c st s Hl) as (st1 & -> & Hl1 & I1 & A1 & V1 & R1 & C1).
  cbn [mbind outcome_bind]. eexists. split; [done |].
  destruct (outs_putc c st1) as (Ho & Hr & Hi). split_and!.
  - rewrite <- A1. apply shows_putc. by eapply shows_ext.
  - unfold line_ok in *. rewrite Hi, I1, Ho in *. done.
  - by rewrite attr_putc.
  - by rewrite Hi.
Qed.

Lemma console_write_lemma v0 str st p s :
  Forall (fun c => c <> 0) str -> shows v0 st p -> line_ok st s ->
  exists st', console_write lsr delay str st = Ret st' /\
    shows v0 st' (paper_write st.(attr) str p) /\ line_ok st' (s ++ (u8 <$> str)) /\
    st'.(attr) = st.(attr).
Proof.
  intros Hz. revert st p s. induction Hz as [|c str Hc Hz IH]; intros st p s Hs Hl.
  { exists st. simpl. rewrite app_nil_r. done. }
  cbn [console_write]. rewrite (proj2 (Z.eqb_neq c 0)) by done.
  destruct (console_putc_lemma v0 c st p s Hs Hl) as (st1 & -> & Hs1 & Hl1 & A1 & _).
  cbn [mbind outcome_bind].
  destruct (IH st1 _ _ Hs1 Hl1) as (st2 & -> & Hs2 & Hl2 & A2).
  exists st2. split; [done |]. rewrite A1 in *. split_and!; try done; try congruence.
  simpl. by rewrite <- app_assoc in Hl2.
Qed.
End serial.

(** * Hexadecimal output *)

Definition hexdigs (n : nat) (x : Z) : list Z :=
  (fun k => hex.[Z.land (Z.shiftr x (4 * (Z.of_nat n - 1 - Z.of_nat k))) 0xF]) <$> seq 0 n.

Lemma hexdigs_S n x : hexdigs (S n) x = hex.[Z.land (Z.shiftr x (4 * Z.of_nat n)) 0xF] :: hexdigs n x.
Proof.
  unfold hexdigs. cbn [seq fmap list_fmap]. f_equal; [do 3 f_equal; lia |].
  rewrite <- seq_shift, <- list_fmap_compose. apply list_fmap_ext. intros i k _. simpl. do 3 f_equal. lia.
Qed.

(** A hexadecimal digit's value. *)
Definition digit_value (c : Z) : Z := if c <? 58 then c - 48 else c - 55.
Definition hex_value (s : list Z) : Z := foldl (fun acc c => acc * 16 + digit_value c) 0 s.

Lemma hex_digit d : 0 <= d < 16 -> hex.[d] <> 0 /\ digit_value hex.[d] = d /\ u8 hex.[d] = hex.[d].
Proof.
  intros Hd. pose proof (seqZ_forallb (fun d => negb (hex.[d] =? 0) && (digit_value hex.[d] =? d)
    && (u8 hex.[d] =? hex.[d])) 16 d ltac:(vm_compute; reflexivity) Hd) as H. cbv beta in H. lia.
Qed.

Lemma land_15 y : Z.land y 0xF = y mod 16.
Proof. change 0xF with (Z.ones 4). by rewrite Z.land_ones by lia. Qed.

Lemma foldl_hex s acc :
  foldl (fun acc c => acc * 16 + digit_value c) acc s = acc * 16 ^ zlen s + hex_value s.
Proof.
  unfold hex_value. revert acc; induction s as [|c s IH]; intros acc; cbn [foldl]; [unfold zlen; simpl; lia |].
  rewrite IH, (IH (0 * 16 + digit_value c)), zlen_cons, Z.pow_add_r by (pose proof (zlen_nonneg s); lia). lia.
Qed.

Lemma length_hexdigs n x : zlen (hexdigs n x) = Z.of_nat n.
Proof. unfold zlen, hexdigs. by rewrite length_fmap, length_seq. Qed.

Lemma hex_value_digits n x : 0 <= x -> hex_value (hexdigs n x) = x mod 16 ^ Z.of_nat n.
Proof.
  intros Hx. induction n as [|n IH]; [by rewrite Z.mod_1_r |].
  rewrite hexdigs_S. unfold hex_value. cbn [foldl]. rewrite foldl_hex, length_hexdigs, IH, land_15.
  destruct (hex_digit ((Z.shiftr x (4 * Z.of_nat n)) mod 16)) as (_ & -> & _); [apply Z.mod_pos_bound; lia |].
  rewrite Z.shiftr_div_pow2 by lia. replace (2 ^ (4 * Z.of_nat n)) with (16 ^ Z.of_nat n)
    by (rewrite Z.pow_mul_r by lia; done).
  replace (Z.of_nat (S n)) with (Z.succ (Z.of_nat n)) by lia. rewrite Z.pow_succ_r by lia.
  pose proof (Z.pow_pos_nonneg 16 (Z.of_nat n) ltac:(lia) ltac:(lia)).
  rewrite (Z.mul_comm 16 (16 ^ _)), Z.rem_mul_r by lia. lia.
Qed.

Lemma hexdigs_chars n x : Forall (fun c => c <> 0) (hexdigs n x) /\ u8 <$> hexdigs n x = hexdigs n x.
Proof.
  induction n as [|n [IH1 IH2]]; [done |]. rewrite hexdigs_S.
  destruct (hex_digit (Z.land (Z.shiftr x (4 * Z.of_nat n)) 0xF)) as (H1 & _ & H2);
    [rewrite land_15; apply Z.mod_pos_bound; lia |].
  split; [by constructor |]. cbn [fmap list_fmap]. by rewrite H2, IH2.
Qed.

Lemma hex_loop_write lsr n fuel x st :
  hex_loop lsr n fuel x st = console_write lsr fuel (hexdigs n x) st.
Proof.
  revert st; induction n as [|n IH]; intros st; [done |]. rewrite hexdigs_S. cbn [hex_loop console_write].
  destruct (hex_digit (Z.land (Z.shiftr x (4 * Z.of_nat n)) 0xF)) as (H1 & _);
    [rewrite land_15; apply Z.mod_pos_bound; lia |].
  rewrite (proj2 (Z.eqb_neq _ 0)) by done.
  destruct (console_putc _ _ _ _); cbn [mbind outcome_bind]; auto.
Qed.

Lemma start_write lsr fuel st :
  start lsr fuel st = console_write lsr fuel (concat banner) st.
Proof.
  assert (Happ : forall s1 s2 o, Forall (fun c => c <> 0) s1 ->
    (o ≫= console_write lsr fuel s1) ≫= console_write lsr fuel s2 = o ≫= console_write lsr fuel (s1 ++ s2)).
  { intros s1 s2 o Hs. destruct o as [st0| |]; [|done..]. cbn [mbind outcome_bind].
    revert st0; induction Hs as [|c s1 Hc Hs IH]; intros st0; [done |]. cbn [console_write app].
    rewrite (proj2 (Z.eqb_neq c 0)) by done. destruct (console_putc _ _ _ _); [apply IH | done..]. }
  assert (Hz : Forall (fun s => Forall (fun c => c <> 0) s) banner)
    by (repeat constructor; vm_compute; discriminate).
  unfold start, banner in *. repeat (apply Forall_cons in Hz as [? Hz]). cbn [foldl concat].
  rewrite !Happ by (repeat first [assumption | apply Forall_app_2]). by rewrite app_nil_r, <- !app_assoc.
Qed.

(** * Properties *)

(** C33: from boot, with a transmitter that becomes ready within [delay] polls,
    [console_write] of any string returns; the screen then shows the last 25 lines of
    what an endless terminal would hold, the cursor is at its place there, no memory
    outside the 80x25 cells was written, and COM1 is set up for 38400 baud 8N1 and has
    sent exactly the string. *)
Theorem console_write_correct lsr u delay v str :
  (forall n, exists k, (k < delay)%nat /\ Z.testbit (lsr (n + k)%nat) 5 = true) ->
  Forall (fun c => c <> 0) str -> str <> [] ->
  exists st, console_write lsr delay str (boot v) = Ret st /\
    shows v st (paper_write 0x0F str (sheet 0x0F v)) /\
    configured (uart_run u st.(outs)) /\ (uart_run u st.(outs)).(sent) = u.(sent) ++ (u8 <$> str).
Proof.
  intros Hr Hz Hne.
  destruct (console_write_lemma lsr u delay Hr v str (boot v) (sheet 0x0F v) [] Hz (shows_boot v))
    as (st & Hst & Hs & Hl & _); [done |].
  exists st. split_and!; try done; unfold line_ok in Hl;
    (destruct (serial_initialized st); [by destruct Hl |]); destruct Hl as [_ Hl];
    simpl in Hl; destruct str; done.
Qed.

Lemma console_write_correct_witness :
  exists st, console_write (fun n => if Nat.even n then 0x00 else 0x60) 2 (bytes "hello, world") (boot (fun _ => 0)) = Ret st /\
    shows (fun _ => 0) st (paper_write 0x0F (bytes "hello, world") (sheet 0x0F (fun _ => 0))) /\
    configured (uart_run {| lcr := 0; dll := 12; dlm := 0; sent := [] |} st.(outs)) /\
    (uart_run {| lcr := 0; dll := 12; dlm := 0; sent := [] |} st.(outs)).(sent) = [] ++ (u8 <$> bytes "hello, world").
Proof.
  apply (console_write_correct (fun n => if Nat.even n then 0x00 else 0x60)
    {| lcr := 0; dll := 12; dlm := 0; sent := [] |} 2 (fun _ => 0) (bytes "hello, world")).
  - intros n. destruct (Nat.even n) eqn:E.
    + exists 1%nat. split; [lia |]. rewrite Nat.even_add, E. reflexivity.
    + exists 0%nat. split; [lia |]. rewrite Nat.add_0_r, E. reflexivity.
  - vm_compute. repeat constructor; discriminate.
  - discriminate.
Defined.

(** [console_write_hex] prints 16 digits on both outputs, and the digits are the
    hexadecimal representation of the 64-bit argument. *)
Theorem console_write_hex_correct lsr u delay v x :
  (forall n, exists k, (k < delay)%nat /\ Z.testbit (lsr (n + k)%nat) 5 = true) -> is_u64 x ->
  exists st, console_write_hex lsr delay x (boot v) = Ret st /\
    shows v st (paper_write 0x0F (hexdigs 16 x) (sheet 0x0F v)) /\
    (uart_run u st.(outs)).(sent) = u.(sent) ++ hexdigs 16 x /\
    length (hexdigs 16 x) = 16%nat /\ hex_value (hexdigs 16 x) = x.
Proof.
  intros Hr Hx. unfold console_write_hex. rewrite hex_loop_write.
  destruct (hexdigs_chars 16 x) as [Hz Hu].
  destruct (console_write_lemma lsr u delay Hr v (hexdigs 16 x) (boot v) (sheet 0x0F v) [] Hz (shows_boot v))
    as (st & Hst & Hs & Hl & _); [done |].
  exists st. rewrite Hu in Hl. split_and!; try done.
  - unfold line_ok in Hl. destruct (serial_initialized st); [by destruct Hl |].
    destruct Hl as [_ Hl]. simpl in Hl. by rewrite hexdigs_S in Hl.
  - unfold is_u64 in Hx. rewrite hex_value_digits by lia. apply Z.mod_small. exact Hx.
Qed.

Lemma console_write_hex_correct_witness :
  exists st, console_write_hex (fun _ => 0x60) 1 0xDEADBEEF (boot (fun _ => 0)) = Ret st /\
    shows (fun _ => 0) st (paper_write 0x0F (hexdigs 16 0xDEADBEEF) (sheet 0x0F (fun _ => 0))) /\
    (uart_run {| lcr := 0; dll := 12; dlm := 0; sent := [] |} st.(outs)).(sent) = [] ++ hexdigs 16 0xDEADBEEF /\
    length (hexdigs 16 0xDEADBEEF) = 16%nat /\ hex_value (hexdigs 16 0xDEADBEEF) = 0xDEADBEEF.
Proof.
  apply (console_write_hex_correct (fun _ => 0x60) {| lcr := 0; dll := 12; dlm := 0; sent := [] |} 1
    (fun _ => 0) 0xDEADBEEF).
  - intros n. exists 0%nat. split; [lia | reflexivity].
  - vm_compute. split; discriminate || reflexivity.
Defined.

(** [_start] reaches its halt loop with the four lines of its banner on the first
    four lines of the screen, the cursor at the start of the fifth, and the banner sent
    over COM1. *)
Theorem start_correct lsr u delay v :
  (forall n, exists k, (k < delay)%nat /\ Z.testbit (lsr (n + k)%nat) 5 = true) ->
  exists st, start lsr delay (boot v) = Ret st /\
    st.(cursor_row) = 4 /\ st.(cursor_col) = 0 /\
    (forall (r : nat) (s : list Z), banner !! r = Some (s ++ [10]) ->
       (fun c => st.(vga) (Z.of_nat r * 80 + c)) <$> seqZ 0 (zlen s) = cell 0x0F <$> s) /\
    (uart_run u st.(outs)).(sent) = u.(sent) ++ concat banner.
Proof.
  intros Hr. rewrite start_write.
  assert (Hz : Forall (fun c => c <> 0) (concat banner)) by (vm_compute; repeat constructor; discriminate).
  assert (Hu : u8 <$> concat banner = concat banner) by (vm_compute; reflexivity).
  destruct (console_write_lemma lsr u delay Hr v (concat banner) (boot v) (sheet 0x0F v) [] Hz (shows_boot v))
    as (st & Hst & [H1 H2 H3 H4 H5 H6 H7] & Hl & _); [done |].
  assert (Hline : line (paper_write 0x0F (concat banner) (sheet 0x0F v)) = 4) by reflexivity.
  assert (Hcol : column (paper_write 0x0F (concat banner) (sheet 0x0F v)) = 0) by reflexivity.
  exists st. unfold top in *. simpl attr in *. rewrite Hline, Hcol in *.
  split; [exact Hst |]. split; [exact H3 |]. split; [exact H4 |]. split.
  - intros r s Hs.
    assert (Hb : (length s <= 80)%nat /\ (r < 4)%nat).
    { pose proof (lookup_lt_Some _ _ _ Hs) as Hlt. split; [|done].
      assert (Hlen : Forall (fun s : list Z => (length s <= 80)%nat) banner) by (vm_compute; repeat constructor).
      pose proof (Forall_lookup_1 _ _ _ _ Hlen Hs) as Hx. simpl in Hx. rewrite length_app in Hx. lia. }
    transitivity (text (paper_write 0x0F (concat banner) (sheet 0x0F v)) (Z.of_nat r) <$> seqZ 0 (zlen s)).
    { apply list_fmap_ext. intros i c Hc. apply lookup_seqZ in Hc as [-> Hc]. unfold zlen in Hc.
      rewrite H5 by lia. f_equal. }
    clear - Hs Hb. destruct Hb as [_ Hr].
    do 4 (destruct r as [|r]; [apply (f_equal (fmap (M := option) (@removelast Z))) in Hs; simpl in Hs;
      rewrite removelast_last in Hs; injection Hs as <-; vm_compute; reflexivity |]). lia.
  - rewrite Hu in Hl. unfold line_ok in Hl. destruct (serial_initialized st); [exact (proj2 Hl) |].
    destruct Hl as [_ Hl]. discriminate Hl.
Qed.

Lemma start_correct_witness :
  exists st, start (fun _ => 0x60) 1 (boot (fun _ => 0)) = Ret st /\
    st.(cursor_row) = 4 /\ st.(cursor_col) = 0 /\
    (forall (r : nat) (s : list Z), banner !! r = Some (s ++ [10]) ->
       (fun c => st.(vga) (Z.of_nat r * 80 + c)) <$> seqZ 0 (zlen s) = cell 0x0F <$> s) /\
    (uart_run {| lcr := 0; dll := 12; dlm := 0; sent := [] |} st.(outs)).(sent) = [] ++ concat banner.
Proof.
  apply (start_correct (fun _ => 0x60) {| lcr := 0; dll := 12; dlm := 0; sent := [] |} 1 (fun _ => 0)).
  intros n. exists 0%nat. split; [lia | reflexivity].
Defined.
