(* ===== verification/Vmm.v ===== *)
(** Page tables: [common/mm/vmm.c] and [common/mm/vmm.h] for the four architectures
    the loader supports. What the code shares is generic in the page-table format
    (the [PT_*] macros) and in the allocator it takes its tables from. *)

From S2P Require Import Prelude.

(** * The interfaces *)

(** The page allocator [vmm.c] calls ([ext_mem_alloc(PT_SIZE)]) and the memory its
    tables live in. *)
Class Allocator (S : Type) := {
  ram_of : S -> mem;
  put_ram : S -> mem -> S;
  alloc_table : S -> outcome (Z * S);
}.

(** The macros each architecture defines before [get_next_level]. *)
Class PtFormat := {
  VMM_MAX_LEVEL : Z;
  PT_TABLE_FLAGS : Z;
  PT_IS_TABLE : Z -> Z -> bool;
  PT_IS_LARGE : Z -> bool;
  PT_TO_VMM_FLAGS : Z -> Z;
  pte_new : Z -> Z -> Z;
  pte_addr : Z -> Z;
}.

Definition page_sizes : list Z := [0x1000; 0x200000; 0x40000000; 0x8000000000; 0x1000000000000].

(** [enum page_size] *)
Definition Size4KiB : Z := 0.
Definition Size2MiB : Z := 1.
Definition Size1GiB : Z := 2.
Definition Size512GiB : Z := 3.
Definition Size256TiB : Z := 4.

(** 64-bit little-endian accesses to memory. *)
Definition load64 (m : mem) (a : Z) : Z :=
  m a + Z.shiftl (m (a + 1)) 8 + Z.shiftl (m (a + 2)) 16 + Z.shiftl (m (a + 3)) 24
  + Z.shiftl (m (a + 4)) 32 + Z.shiftl (m (a + 5)) 40 + Z.shiftl (m (a + 6)) 48 + Z.shiftl (m (a + 7)) 56.
Definition store64 (m : mem) (a v : Z) : mem :=
  fun x => if (a <=? x) && (x <? a + 8) then u8 (Z.shiftr v (8 * (x - a))) else m x.

(** [for (uint64_t i = 0; i < bound; i += step)], as the iterations [k = i / step]. *)
Fixpoint for_each {S} (n : nat) (k : Z) (body : Z -> S -> outcome S) (s : S) : outcome S :=
  match n with
  | O => Ret s
  | Datatypes.S n => s ← body k s; for_each n (k + 1) body s
  end.
Definition iterations (bound step : Z) : nat := Z.to_nat ((bound + step - 1) / step).

Section generic.
Context {S : Type} `{!Allocator S} `{!PtFormat}.

Definition read_entry (s : S) (table entry : Z) : Z := load64 (ram_of s) (table + 8 * entry).
Definition write_entry (s : S) (table entry v : Z) : S :=
  put_ram s (store64 (ram_of s) (table + 8 * entry) v).

(** [get_next_level]: [remap] is the [map_page] of the architecture, on the same page map. *)
Definition get_next_level (remap : Z -> Z -> Z -> Z -> S -> outcome S)
    (s : S) (current_level virt desired_sz level_idx entry : Z) : outcome (Z * S) :=
  let e := read_entry s current_level entry in
  if PT_IS_TABLE level_idx e then Ret (pte_addr e, s)
  else if PT_IS_LARGE e then
    if (level_idx >=? VMM_MAX_LEVEL) || (level_idx =? 0) then Panic
    else if desired_sz >=? VMM_MAX_LEVEL then Panic
    else
      let old_page_size := page_sizes.[level_idx] in
      let new_page_size := page_sizes.[desired_sz] in
      let old_flags := PT_TO_VMM_FLAGS e in
      let old_phys := pte_addr e in
      let old_virt := Z.land virt (u64 (Z.lnot (old_page_size - 1))) in
      if negb (Z.land old_phys (old_page_size - 1) =? 0) then Panic
      else
        '(ret, s) ← alloc_table s;
        let s := write_entry s current_level entry (pte_new ret PT_TABLE_FLAGS) in
        s ← for_each (iterations old_page_size new_page_size) 0
              (fun k s => remap (u64 (old_virt + k * new_page_size)) (u64 (old_phys + k * new_page_size))
                            old_flags desired_sz s) s;
        Ret (ret, s)
  else
    '(ret, s) ← alloc_table s;
    Ret (ret, write_entry s current_level entry (pte_new ret PT_TABLE_FLAGS)).

(** [map_pages], given the architecture's [map_page]. *)
Fixpoint map_pages_loop (fuel : nat) (map_page : Z -> Z -> Z -> Z -> S -> outcome S)
    (virt phys flags count i : Z) (s : S) : outcome S :=
  if i <? count then
    match fuel with
    | O => Diverge
    | Datatypes.S fuel =>
        let aligned size :=
          (Z.land (u64 (phys + i)) (size - 1) =? 0) && (Z.land (u64 (virt + i)) (size - 1) =? 0)
          && (count - i >=? size) in
        if aligned 0x40000000 then
          s ← map_page (u64 (virt + i)) (u64 (phys + i)) flags Size1GiB s;
          map_pages_loop fuel map_page virt phys flags count (u64 (i + 0x40000000)) s
        else if aligned 0x200000 then
          s ← map_page (u64 (virt + i)) (u64 (phys + i)) flags Size2MiB s;
          map_pages_loop fuel map_page virt phys flags count (u64 (i + 0x200000)) s
        else
          s ← map_page (u64 (virt + i)) (u64 (phys + i)) flags Size4KiB s;
          map_pages_loop fuel map_page virt phys flags count (u64 (i + 0x1000)) s
    end
  else Ret s.

Definition map_pages (map_page : Z -> Z -> Z -> Z -> S -> outcome S)
    (virt phys flags count : Z) (s : S) : outcome S :=
  if negb (virt mod 0x1000 =? 0) || negb (phys mod 0x1000 =? 0) || negb (count mod 0x1000 =? 0) then Panic
  else map_pages_loop (Z.to_nat (count / 0x1000)) map_page virt phys flags count 0 s.
End generic.

(** * x86 *)
Module X86.

Definition VMM_FLAG_WRITE : Z := Z.shiftl 1 1.
Definition VMM_FLAG_NOEXEC : Z := Z.shiftl 1 63.
Definition VMM_FLAG_FB : Z := Z.lor (Z.shiftl 1 3) (Z.shiftl 1 12).
Definition PAGING_MODE_X86_64_4LVL : Z := 0.
Definition PAGING_MODE_X86_64_5LVL : Z := 1.

Definition paging_mode_va_bits (mode : Z) : Z := if mode =? 0 then 48 else 57.
Definition paging_mode_higher_half (paging_mode : Z) : Z :=
  if paging_mode =? PAGING_MODE_X86_64_5LVL then 0xff00000000000000 else 0xffff800000000000.

Record pagemap_t := { levels : Z; top_level : Z }.

Definition PT_FLAG_VALID : Z := Z.shiftl 1 0.
Definition PT_FLAG_WRITE : Z := Z.shiftl 1 1.
Definition PT_FLAG_USER : Z := Z.shiftl 1 2.
Definition PT_FLAG_LARGE : Z := Z.shiftl 1 7.
Definition PT_FLAG_NX : Z := Z.shiftl 1 63.
Definition PT_PADDR_MASK : Z := 0x0000FFFFFFFFF000.

#[export] Instance format : PtFormat := {|
  VMM_MAX_LEVEL := 3;
  PT_TABLE_FLAGS := Z.lor (Z.lor PT_FLAG_VALID PT_FLAG_WRITE) PT_FLAG_USER;
  PT_IS_TABLE _ x := Z.land x (Z.lor PT_FLAG_VALID PT_FLAG_LARGE) =? PT_FLAG_VALID;
  PT_IS_LARGE x := Z.land x (Z.lor PT_FLAG_VALID PT_FLAG_LARGE) =? Z.lor PT_FLAG_VALID PT_FLAG_LARGE;
  PT_TO_VMM_FLAGS x := Z.land x (Z.lor (Z.lor PT_FLAG_WRITE PT_FLAG_NX) VMM_FLAG_FB);
  pte_new addr flags := Z.lor addr flags;
  pte_addr pte := Z.land pte PT_PADDR_MASK;
|}.

Section x86.
Context {S : Type} `{!Allocator S}.
(** The processor: [edx] of [cpuid(leaf, 0)], [None] where the leaf does not exist.
    The statics that cache its answers are not needed. *)
Context (cpuid : Z -> option Z).

Definition new_pagemap (paging_mode : Z) (s : S) : outcome (pagemap_t * S) :=
  '(top, s) ← alloc_table s;
  Ret ({| levels := if paging_mode =? PAGING_MODE_X86_64_5LVL then 5 else 4; top_level := top |}, s).

Definition is_1gib_page_supported : bool :=
  match cpuid 0x80000001 with
  | None => false
  | Some edx => Z.land edx (Z.shiftl 1 26) =? Z.shiftl 1 26
  end.
Definition pat_supported : bool :=
  match cpuid 1 with
  | None => false
  | Some edx => negb (Z.land edx (Z.shiftl 1 16) =? 0)
  end.

Definition table_index (virt_addr shift : Z) : Z :=
  Z.shiftr (Z.land virt_addr (Z.shiftl 0x1ff shift)) shift.

(** The depth of the recursion through [get_next_level] is bounded: see [map_page_correct]. *)
Fixpoint map_page (fuel : nat) (pagemap : pagemap_t) (virt_addr phys_addr flags pg_size : Z) (s : S)
    : outcome S :=
  match fuel with
  | O => Diverge
  | Datatypes.S fuel =>
      let next := get_next_level (map_page fuel pagemap) in
      let pml5_entry := table_index virt_addr 48 in
      let pml4_entry := table_index virt_addr 39 in
      let pml3_entry := table_index virt_addr 30 in
      let pml2_entry := table_index virt_addr 21 in
      let pml1_entry := table_index virt_addr 12 in
      let flags := Z.lor flags PT_FLAG_VALID in
      let flags :=
        if negb (Z.land flags VMM_FLAG_FB =? 0) && negb pat_supported
        then Z.land flags (u64 (Z.lnot VMM_FLAG_FB)) else flags in
      '(pml4, s) ← (if pagemap.(levels) =? 5
                    then next s pagemap.(top_level) virt_addr pg_size 4 pml5_entry
                    else Ret (pagemap.(top_level), s));
      '(pml3, s) ← next s pml4 virt_addr pg_size 3 pml4_entry;
      if pg_size =? Size1GiB then
        if is_1gib_page_supported then
          Ret (write_entry s pml3 pml3_entry (Z.lor (Z.lor phys_addr flags) PT_FLAG_LARGE))
        else
          for_each (iterations 0x40000000 0x200000) 0
            (fun k s => map_page fuel pagemap (u64 (virt_addr + k * 0x200000)) (u64 (phys_addr + k * 0x200000))
                          flags Size2MiB s) s
      else
        '(pml2, s) ← next s pml3 virt_addr pg_size 2 pml3_entry;
        if pg_size =? Size2MiB then
          Ret (write_entry s pml2 pml2_entry (Z.lor (Z.lor phys_addr flags) PT_FLAG_LARGE))
        else
          '(pml1, s) ← next s pml2 virt_addr pg_size 1 pml2_entry;
          let flags :=
            if negb (Z.land flags (Z.shiftl 1 12) =? 0)
            then Z.lor (Z.land flags (u64 (Z.lnot (Z.shiftl 1 12)))) (Z.shiftl 1 7) else flags in
          Ret (write_entry s pml1 pml1_entry (Z.lor phys_addr flags))
  end.
End x86.
End X86.

(** * aarch64 *)
Module AArch64.

Definition VMM_FLAG_WRITE : Z := Z.shiftl 1 0.
Definition VMM_FLAG_NOEXEC : Z := Z.shiftl 1 1.
Definition VMM_FLAG_FB : Z := Z.shiftl 1 2.
Definition PAGING_MODE_AARCH64_4LVL : Z := 0.
Definition PAGING_MODE_AARCH64_5LVL : Z := 1.

Definition paging_mode_va_bits (mode : Z) : Z := if mode =? 0 then 49 else 53.
Definition paging_mode_higher_half (paging_mode : Z) : Z :=
  if paging_mode =? PAGING_MODE_AARCH64_5LVL then 0xfff0000000000000 else 0xffff000000000000.

Record pagemap_t := { levels : Z; top_level : bool -> Z }.

(** [id_aa64mmfr0_el1] is read from the processor. *)
Definition vmm_assert_4k_pages (aa64mmfr0 : Z) : outcome unit :=
  if Z.land (Z.shiftr aa64mmfr0 28) 15 =? 15 then Panic else Ret tt.

Definition PT_FLAG_VALID : Z := Z.shiftl 1 0.
Definition PT_FLAG_TABLE : Z := Z.shiftl 1 1.
Definition PT_FLAG_4K_PAGE : Z := Z.shiftl 1 1.
Definition PT_FLAG_BLOCK : Z := Z.shiftl 0 1.
Definition PT_FLAG_READONLY : Z := Z.shiftl 1 7.
Definition PT_FLAG_INNER_SH : Z := Z.shiftl 3 8.
Definition PT_FLAG_ACCESS : Z := Z.shiftl 1 10.
Definition PT_FLAG_XN : Z := Z.shiftl 1 54.
Definition PT_FLAG_WB : Z := Z.shiftl 0 2.
Definition PT_FLAG_FB : Z := Z.shiftl 1 2.
Definition PT_PADDR_MASK : Z := 0x0000FFFFFFFFF000.

Definition pt_to_vmm_flags_internal (entry : Z) : Z :=
  let flags := 0 in
  let flags := if Z.land entry PT_FLAG_READONLY =? 0 then Z.lor flags VMM_FLAG_WRITE else flags in
  let flags := if negb (Z.land entry PT_FLAG_XN =? 0) then Z.lor flags VMM_FLAG_NOEXEC else flags in
  if negb (Z.land entry PT_FLAG_FB =? 0) then Z.lor flags VMM_FLAG_FB else flags.

#[export] Instance format : PtFormat := {|
  VMM_MAX_LEVEL := 3;
  PT_TABLE_FLAGS := Z.lor PT_FLAG_VALID PT_FLAG_TABLE;
  PT_IS_TABLE _ x := Z.land x (Z.lor PT_FLAG_VALID PT_FLAG_TABLE) =? Z.lor PT_FLAG_VALID PT_FLAG_TABLE;
  PT_IS_LARGE x := Z.land x (Z.lor PT_FLAG_VALID PT_FLAG_TABLE) =? PT_FLAG_VALID;
  PT_TO_VMM_FLAGS := pt_to_vmm_flags_internal;
  pte_new addr flags := Z.lor addr flags;
  pte_addr pte := Z.land pte PT_PADDR_MASK;
|}.

Section aarch64.
Context {S : Type} `{!Allocator S}.

Definition new_pagemap (paging_mode : Z) (s : S) : outcome (pagemap_t * S) :=
  '(top0, s) ← alloc_table s;
  '(top1, s) ← alloc_table s;
  Ret ({| levels := if paging_mode =? PAGING_MODE_AARCH64_5LVL then 5 else 4;
          top_level := fun b => if b : bool then top1 else top0 |}, s).

(** The flags of a leaf entry. *)
Definition real_flags (flags : Z) : Z :=
  let real_flags := Z.lor (Z.lor (Z.lor PT_FLAG_VALID PT_FLAG_INNER_SH) PT_FLAG_ACCESS) PT_FLAG_WB in
  let real_flags := if Z.land flags VMM_FLAG_WRITE =? 0 then Z.lor real_flags PT_FLAG_READONLY else real_flags in
  let real_flags := if negb (Z.land flags VMM_FLAG_NOEXEC =? 0) then Z.lor real_flags PT_FLAG_XN else real_flags in
  if negb (Z.land flags VMM_FLAG_FB =? 0) then Z.lor real_flags PT_FLAG_FB else real_flags.

Fixpoint map_page (fuel : nat) (pagemap : pagemap_t) (virt_addr phys_addr flags pg_size : Z) (s : S)
    : outcome S :=
  match fuel with
  | O => Diverge
  | Datatypes.S fuel =>
      let next := get_next_level (map_page fuel pagemap) in
      let pml5_entry := Z.shiftr (Z.land virt_addr (Z.shiftl 0xf 48)) 48 in
      let pml4_entry := Z.shiftr (Z.land virt_addr (Z.shiftl 0x1ff 39)) 39 in
      let pml3_entry := Z.shiftr (Z.land virt_addr (Z.shiftl 0x1ff 30)) 30 in
      let pml2_entry := Z.shiftr (Z.land virt_addr (Z.shiftl 0x1ff 21)) 21 in
      let pml1_entry := Z.shiftr (Z.land virt_addr (Z.shiftl 0x1ff 12)) 12 in
      let is_higher_half := negb (Z.land virt_addr (Z.shiftl 1 63) =? 0) in
      let rf := real_flags flags in
      '(pml4, s) ← (if pagemap.(levels) =? 5
                    then next s (pagemap.(top_level) is_higher_half) virt_addr pg_size 4 pml5_entry
                    else Ret (pagemap.(top_level) is_higher_half, s));
      '(pml3, s) ← next s pml4 virt_addr pg_size 3 pml4_entry;
      if pg_size =? Size1GiB then
        Ret (write_entry s pml3 pml3_entry (Z.lor (Z.lor phys_addr rf) PT_FLAG_BLOCK))
      else
        '(pml2, s) ← next s pml3 virt_addr pg_size 2 pml3_entry;
        if pg_size =? Size2MiB then
          Ret (write_entry s pml2 pml2_entry (Z.lor (Z.lor phys_addr rf) PT_FLAG_BLOCK))
        else
          '(pml1, s) ← next s pml2 virt_addr pg_size 1 pml2_entry;
          Ret (write_entry s pml1 pml1_entry (Z.lor (Z.lor phys_addr rf) PT_FLAG_4K_PAGE))
  end.
End aarch64.
End AArch64.

(** * RISC-V *)
Module RiscV.

Definition VMM_FLAG_WRITE : Z := Z.shiftl 1 0.
Definition VMM_FLAG_NOEXEC : Z := Z.shiftl 1 1.
Definition VMM_FLAG_FB : Z := Z.shiftl 1 2.
Definition PAGING_MODE_RISCV_SV39 : Z := 8.
Definition PAGING_MODE_RISCV_SV48 : Z := 9.
Definition PAGING_MODE_RISCV_SV57 : Z := 10.

Record pagemap_t := { max_page_size : Z; paging_mode : Z; top_level : Z }.

Definition PT_FLAG_VALID : Z := Z.shiftl 1 0.
Definition PT_FLAG_READ : Z := Z.shiftl 1 1.
Definition PT_FLAG_WRITE : Z := Z.shiftl 1 2.
Definition PT_FLAG_EXEC : Z := Z.shiftl 1 3.
Definition PT_FLAG_ACCESSED : Z := Z.shiftl 1 6.
Definition PT_FLAG_DIRTY : Z := Z.shiftl 1 7.
Definition PT_FLAG_PBMT_NC : Z := Z.shiftl 1 62.
Definition PT_PADDR_MASK : Z := 0x003ffffffffffc00.
Definition PT_FLAG_RWX : Z := Z.lor (Z.lor PT_FLAG_READ PT_FLAG_WRITE) PT_FLAG_EXEC.

Definition pt_to_vmm_flags_internal (entry : Z) : Z :=
  let flags := 0 in
  let flags := if negb (Z.land entry PT_FLAG_WRITE =? 0) then Z.lor flags VMM_FLAG_WRITE else flags in
  let flags := if Z.land entry PT_FLAG_EXEC =? 0 then Z.lor flags VMM_FLAG_NOEXEC else flags in
  if negb (Z.land entry PT_FLAG_PBMT_NC =? 0) then Z.lor flags VMM_FLAG_FB else flags.

#[export] Instance format : PtFormat := {|
  VMM_MAX_LEVEL := 5;
  PT_TABLE_FLAGS := PT_FLAG_VALID;
  PT_IS_TABLE _ x := Z.land x (Z.lor PT_FLAG_VALID PT_FLAG_RWX) =? PT_FLAG_VALID;
  PT_IS_LARGE x := Z.land x (Z.lor PT_FLAG_VALID PT_FLAG_RWX) >? PT_FLAG_VALID;
  PT_TO_VMM_FLAGS := pt_to_vmm_flags_internal;
  pte_new addr flags := Z.lor (Z.land (Z.shiftr addr 2) PT_PADDR_MASK) flags;
  pte_addr pte := u64 (Z.shiftl (Z.land pte PT_PADDR_MASK) 2);
|}.

Definition paging_mode_higher_half (paging_mode : Z) : outcome Z :=
  if paging_mode =? PAGING_MODE_RISCV_SV39 then Ret 0xffffffc000000000
  else if paging_mode =? PAGING_MODE_RISCV_SV48 then Ret 0xffff800000000000
  else if paging_mode =? PAGING_MODE_RISCV_SV57 then Ret 0xff00000000000000
  else Panic.
Definition paging_mode_va_bits (paging_mode : Z) : outcome Z :=
  if paging_mode =? PAGING_MODE_RISCV_SV39 then Ret 39
  else if paging_mode =? PAGING_MODE_RISCV_SV48 then Ret 48
  else if paging_mode =? PAGING_MODE_RISCV_SV57 then Ret 57
  else Panic.
(** [bsp_hart]: its [flags & RISCV_HART_HAS_MMU] and its [mmu_type]. *)
Definition vmm_max_paging_mode (bsp_hart : option (bool * Z)) : outcome Z :=
  match bsp_hart with
  | Some (true, mmu_type) => Ret (PAGING_MODE_RISCV_SV39 + mmu_type)
  | _ => Panic
  end.

Section riscv.
Context {S : Type} `{!Allocator S}.

(** [svpbmt] is [riscv_check_isa_extension("svpbmt", ...)]; the third component of
    the result is the static [pbmt_nc], which is 0 until a call finds the extension. *)
Definition new_pagemap (svpbmt : bool) (pbmt_nc mode : Z) (s : S) : outcome (pagemap_t * S * Z) :=
  '(top, s) ← alloc_table s;
  Ret ({| max_page_size := mode - 6; paging_mode := mode; top_level := top |}, s,
       if svpbmt then PT_FLAG_PBMT_NC else pbmt_nc).

Definition leaf_flags (pbmt_nc flags : Z) : Z :=
  let ptflags := Z.lor (Z.lor (Z.lor PT_FLAG_VALID PT_FLAG_READ) PT_FLAG_ACCESSED) PT_FLAG_DIRTY in
  let ptflags := if negb (Z.land flags VMM_FLAG_WRITE =? 0) then Z.lor ptflags PT_FLAG_WRITE else ptflags in
  let ptflags := if Z.land flags VMM_FLAG_NOEXEC =? 0 then Z.lor ptflags PT_FLAG_EXEC else ptflags in
  if negb (Z.land flags VMM_FLAG_FB =? 0) then Z.lor ptflags pbmt_nc else ptflags.

(** The [for (;;)] over the levels: [n] bounds the levels left. *)
Fixpoint level_loop (n : nat) (remap : Z -> Z -> Z -> Z -> S -> outcome S)
    (virt_addr phys_addr ptflags page_size level table : Z) (s : S) : outcome S :=
  match n with
  | O => Diverge
  | Datatypes.S n =>
      let index := Z.land (Z.shiftr virt_addr (12 + 9 * level)) 0x1ff in
      if level =? page_size then Ret (write_entry s table index (pte_new phys_addr ptflags))
      else
        '(table, s) ← get_next_level remap s table virt_addr page_size level index;
        level_loop n remap virt_addr phys_addr ptflags page_size (level - 1) table s
  end.

Fixpoint map_page (fuel : nat) (pbmt_nc : Z) (pagemap : pagemap_t)
    (virt_addr phys_addr flags page_size : Z) (s : S) : outcome S :=
  match fuel with
  | O => Diverge
  | Datatypes.S fuel =>
      let page_size := if page_size >? pagemap.(max_page_size) then pagemap.(max_page_size) else page_size in
      level_loop (Z.to_nat (pagemap.(max_page_size) + 1)) (map_page fuel pbmt_nc pagemap)
        virt_addr phys_addr (leaf_flags pbmt_nc flags) page_size
        pagemap.(max_page_size) pagemap.(top_level) s
  end.
End riscv.
End RiscV.

(** * LoongArch *)
Module LoongArch.

Definition VMM_FLAG_WRITE : Z := Z.shiftl 1 0.
Definition VMM_FLAG_NOEXEC : Z := Z.shiftl 1 1.
Definition VMM_FLAG_FB : Z := Z.shiftl 1 2.
Definition PAGING_MODE_LOONGARCH64_4LVL : Z := 0.

(** From the [cpucfg] register 1. *)
Definition paging_mode_va_bits (cpucfg1 : Z) : Z := Z.land (Z.shiftr cpucfg1 12) 0xff + 1.
Definition paging_mode_higher_half (cpucfg1 : Z) : Z :=
  u64 (0 - Z.shiftl 1 (paging_mode_va_bits cpucfg1 - 1)).

Record pagemap_t := { pgd : bool -> Z }.

Definition INVALID_PAGE : Z := 0.
Definition PT_FLAG_VALID : Z := Z.shiftl 1 0.
Definition PT_FLAG_DIRTY : Z := Z.shiftl 1 1.
Definition PT_FLAG_MAT_CC : Z := Z.shiftl 1 4.
Definition PT_FLAG_MAT_WUC : Z := Z.shiftl 1 5.
Definition PT_FLAG_GLOBAL : Z := Z.shiftl 1 6.
Definition PT_FLAG_HUGE : Z := Z.shiftl 1 6.
Definition PT_FLAG_WRITE : Z := Z.shiftl 1 8.
Definition PT_FLAG_HGLOBAL : Z := Z.shiftl 1 12.
Definition PT_FLAG_NX : Z := Z.shiftl 1 62.
Definition PT_PADDR_MASK : Z := 0x0000FFFFFFFFF000.
Definition PT_PADDR_HMASK : Z := 0x0000FFFFFF000000.

Definition pt_is_large (x : Z) : bool :=
  Z.land x (Z.lor PT_FLAG_HGLOBAL PT_FLAG_HUGE) =? Z.lor PT_FLAG_HGLOBAL PT_FLAG_HUGE.
Definition pt_to_vmm_flags_internal (entry : Z) : Z :=
  let flags := 0 in
  let flags := if negb (Z.land entry PT_FLAG_WRITE =? 0) then Z.lor flags VMM_FLAG_WRITE else flags in
  let flags := if negb (Z.land entry PT_FLAG_NX =? 0) then Z.lor flags VMM_FLAG_NOEXEC else flags in
  if negb (Z.land entry PT_FLAG_MAT_WUC =? 0) then Z.lor flags VMM_FLAG_FB else flags.

#[export] Instance format : PtFormat := {|
  VMM_MAX_LEVEL := 3;
  PT_TABLE_FLAGS := 0;
  PT_IS_TABLE level_idx x :=
    (level_idx >? 0) && (Z.land x PT_FLAG_VALID =? 0) && negb (x =? INVALID_PAGE);
  PT_IS_LARGE := pt_is_large;
  PT_TO_VMM_FLAGS := pt_to_vmm_flags_internal;
  pte_new addr flags := Z.lor addr flags;
  pte_addr pte := if pt_is_large pte then Z.land pte PT_PADDR_HMASK else Z.land pte PT_PADDR_MASK;
|}.

Section loongarch.
Context {S : Type} `{!Allocator S}.

Definition new_pagemap (cpucfg1 : Z) (s : S) : outcome (pagemap_t * S) :=
  if paging_mode_va_bits cpucfg1 <? 48 then Panic
  else
    '(pgd0, s) ← alloc_table s;
    '(pgd1, s) ← alloc_table s;
    Ret ({| pgd := fun b => if b : bool then pgd1 else pgd0 |}, s).

Definition real_flags (flags : Z) : Z :=
  let real_flags := Z.lor PT_FLAG_VALID PT_FLAG_GLOBAL in
  let real_flags :=
    if negb (Z.land flags VMM_FLAG_WRITE =? 0)
    then Z.lor real_flags (Z.lor PT_FLAG_DIRTY PT_FLAG_WRITE) else real_flags in
  let real_flags := if negb (Z.land flags VMM_FLAG_NOEXEC =? 0) then Z.lor real_flags PT_FLAG_NX else real_flags in
  if negb (Z.land flags VMM_FLAG_FB =? 0) then Z.lor real_flags PT_FLAG_MAT_WUC
  else Z.lor real_flags PT_FLAG_MAT_CC.

Fixpoint map_page (fuel : nat) (pagemap : pagemap_t) (virt_addr phys_addr flags pg_size : Z) (s : S)
    : outcome S :=
  match fuel with
  | O => Diverge
  | Datatypes.S fuel =>
      let next := get_next_level (map_page fuel pagemap) in
      let pml4_entry := Z.shiftr (Z.land virt_addr (Z.shiftl 0x1ff 39)) 39 in
      let pml3_entry := Z.shiftr (Z.land virt_addr (Z.shiftl 0x1ff 30)) 30 in
      let pml2_entry := Z.shiftr (Z.land virt_addr (Z.shiftl 0x1ff 21)) 21 in
      let pml1_entry := Z.shiftr (Z.land virt_addr (Z.shiftl 0x1ff 12)) 12 in
      let is_higher_half := negb (Z.land virt_addr (Z.shiftl 1 63) =? 0) in
      let rf := real_flags flags in
      '(pml3, s) ← next s (pagemap.(pgd) is_higher_half) virt_addr pg_size 3 pml4_entry;
      if pg_size =? Size1GiB then
        Ret (write_entry s pml3 pml3_entry (pte_new phys_addr (Z.lor (Z.lor rf PT_FLAG_HGLOBAL) PT_FLAG_HUGE)))
      else
        '(pml2, s) ← next s pml3 virt_addr pg_size 2 pml3_entry;
        if pg_size =? Size2MiB then
          Ret (write_entry s pml2 pml2_entry (pte_new phys_addr (Z.lor (Z.lor rf PT_FLAG_HGLOBAL) PT_FLAG_HUGE)))
        else
          '(pml1, s) ← next s pml2 virt_addr pg_size 1 pml2_entry;
          Ret (write_entry s pml1 pml1_entry (pte_new phys_addr rf))
  end.
End loongarch.
End LoongArch.
