(* ===== verification/VmmWalk.v ===== *)
(** Page-table trees: the processor's walk, the invariant of the tables in memory, and
    what the two kinds of writes to them do to the translation. *)

From S2P Require Import Prelude Vmm.

(** * 64-bit accesses *)

Lemma load_store_same m a v : is_u64 v -> load64 (store64 m a v) a = v.
Proof.
  intros Hv. unfold load64, store64.
  repeat (case_if; [|exfalso; lia]).
  replace (8 * (a - a)) with 0 by lia. replace (8 * (a + 1 - a)) with 8 by lia.
  replace (8 * (a + 2 - a)) with 16 by lia. replace (8 * (a + 3 - a)) with 24 by lia.
  replace (8 * (a + 4 - a)) with 32 by lia. replace (8 * (a + 5 - a)) with 40 by lia.
  replace (8 * (a + 6 - a)) with 48 by lia. replace (8 * (a + 7 - a)) with 56 by lia.
  rewrite !Z.shiftl_mul_pow2, !Z.shiftr_div_pow2 by lia. unfold u8, wrap.
  assert (Hd : forall k, 0 <= k -> v / 2 ^ k = 256 * (v / 2 ^ (k + 8)) + (v / 2 ^ k) mod 2 ^ 8).
  { intros k Hk. rewrite Z.pow_add_r, <- Z.div_div by lia. apply Z.div_mod. lia. }
  pose proof (Hd 0 ltac:(lia)) as H0. pose proof (Hd 8 ltac:(lia)) as H1. pose proof (Hd 16 ltac:(lia)) as H2.
  pose proof (Hd 24 ltac:(lia)) as H3. pose proof (Hd 32 ltac:(lia)) as H4. pose proof (Hd 40 ltac:(lia)) as H5.
  pose proof (Hd 48 ltac:(lia)) as H6. pose proof (Hd 56 ltac:(lia)) as H7. clear Hd.
  change (0 + 8) with 8 in *. change (8 + 8) with 16 in *. change (16 + 8) with 24 in *.
  change (24 + 8) with 32 in *. change (32 + 8) with 40 in *. change (40 + 8) with 48 in *.
  change (48 + 8) with 56 in *. change (56 + 8) with 64 in *.
  rewrite (Z.div_small v (2 ^ 64)) in H7 by exact Hv. change (2 ^ 0) with 1 in *. rewrite Z.div_1_r in *. lia.
Qed.

Lemma load_ext m m' a : (forall x, a <= x < a + 8 -> m' x = m x) -> load64 m' a = load64 m a.
Proof. intros H. unfold load64. rewrite !H by lia. done. Qed.

Lemma load_store_other m a b v : a + 8 <= b \/ b + 8 <= a -> load64 (store64 m a v) b = load64 m b.
Proof. intros H. apply load_ext. intros x Hx. unfold store64. case_if; [lia | done]. Qed.

(** * What the allocator promises *)

Definition is_page (p : Z) : Prop := 0 < p < 2 ^ 48 /\ p mod 4096 = 0.

Class AllocatorOk (S : Type) `{!Allocator S} := {
  al_ok : S -> Prop;
  al_holds : S -> Z -> Prop;
  al_put_ram s m : ram_of (put_ram s m) = m;
  al_put_get s : put_ram s (ram_of s) = s;
  al_put_put s m m' : put_ram (put_ram s m) m' = put_ram s m';
  al_put_ok s m : al_ok s -> al_ok (put_ram s m);
  al_put_holds s m p : al_holds s p -> al_holds (put_ram s m) p;
  al_alloc s : al_ok s ->
    match alloc_table s with
    | Ret (p, s') => al_ok s' /\ al_holds s' p /\ is_page p /\
        (forall q, is_page q -> al_holds s q -> al_holds s' q /\ q <> p) /\
        (forall x, ram_of s' x = mem_fill (ram_of s) p 0 4096 x)
    | Panic => True
    | Diverge => False
    end;
}.

Section serve.
Context {S : Type} `{!Allocator S, !AllocatorOk S}.

(** The allocator can serve [n] more tables, whatever is written to memory meanwhile. *)
Fixpoint can_serve (n : nat) (s : S) : Prop :=
  match n with
  | O => True
  | Datatypes.S n => forall m, match alloc_table (put_ram s m) with Ret (_, s') => can_serve n s' | _ => False end
  end.
(** Going from [s] to [s'] took at most [c] tables. *)
Definition uses (c : nat) (s s' : S) : Prop := forall n, can_serve (c + n) s -> can_serve n s'.

Lemma can_serve_put n s m : can_serve n s -> can_serve n (put_ram s m).
Proof. destruct n; [done |]. cbn [can_serve]. intros H m'. rewrite al_put_put. apply H. Qed.
Lemma can_serve_less n d s : can_serve (n + d) s -> can_serve n s.
Proof.
  revert s; induction n as [|n IH]; intros s; [done |]. cbn [can_serve Nat.add]. intros H m. specialize (H m).
  destruct (alloc_table _) as [[q s']| |]; [|done..]. eauto.
Qed.
Lemma can_serve_le n c s : (n <= c)%nat -> can_serve c s -> can_serve n s.
Proof. intros Hle. replace c with (n + (c - n))%nat by lia. apply can_serve_less. Qed.

Lemma uses_refl s : uses 0 s s.
Proof. by intros n. Qed.
Lemma uses_trans a b s1 s2 s3 : uses a s1 s2 -> uses b s2 s3 -> uses (a + b) s1 s3.
Proof. intros H1 H2 n Hn. apply H2, H1. by rewrite Nat.add_assoc. Qed.
Lemma uses_le a b s s' : (a <= b)%nat -> uses a s s' -> uses b s s'.
Proof. intros Hle H n Hn. apply H. eapply can_serve_le; [|exact Hn]. lia. Qed.
Lemma uses_write s t i v : uses 0 s (write_entry s t i v).
Proof. intros n Hn. by apply can_serve_put. Qed.
Lemma uses_alloc s q s' : alloc_table s = Ret (q, s') -> uses 1 s s'.
Proof. intros Ha n Hn. specialize (Hn (ram_of s)). by rewrite al_put_get, Ha in Hn. Qed.
Lemma alloc_panic s : alloc_table s = Panic -> ~ can_serve 1 s.
Proof. intros Ha Hn. specialize (Hn (ram_of s)). by rewrite al_put_get, Ha in Hn. Qed.
Lemma uses_panic a b s s' : uses a s s' -> ~ can_serve b s' -> ~ can_serve (a + b) s.
Proof. intros Hu Hn H. apply Hn, Hu, H. Qed.
Lemma serve_panic_le a b s : (a <= b)%nat -> ~ can_serve a s -> ~ can_serve b s.
Proof. intros Hle Hn H. apply Hn. by apply (can_serve_le a b). Qed.
End serve.

(** * What the processor reads in an entry *)

Inductive decoded := Invalid | Next (q : Z) | Page (phys fl : Z).

(** The size of a page at a level. *)
Definition size (l : nat) : Z := 2 ^ (12 + 9 * Z.of_nat l).

(** [leaf l phys fl] is the entry [map_page] writes for a page of level [l] with the
    flags [fl]; [decode] is the architecture's reading of an entry; [ok_leaf] are the
    pages the format can express. *)
Class HwFormat `{!PtFormat} := {
  leaf : nat -> Z -> Z -> Z;
  decode : nat -> Z -> decoded;
  ok_leaf : nat -> Z -> Z -> Prop;
  hw_empty l : decode l 0 = Invalid;
  hw_empty_table l : PT_IS_TABLE (Z.of_nat (S l)) 0 = false;
  hw_empty_large : PT_IS_LARGE 0 = false;
  hw_table l q : is_page q ->
    let e := pte_new q PT_TABLE_FLAGS in
    is_u64 e /\ PT_IS_TABLE (Z.of_nat (S l)) e = true /\ pte_addr e = q /\ decode (S l) e = Next q;
  hw_leaf l phys fl : ok_leaf l phys fl ->
    is_u64 (leaf l phys fl) /\ decode l (leaf l phys fl) = Page phys fl;
  hw_large l phys fl : ok_leaf (S l) phys fl ->
    let e := leaf (S l) phys fl in
    PT_IS_TABLE (Z.of_nat (S l)) e = false /\ PT_IS_LARGE e = true /\
    Z.of_nat (S l) < VMM_MAX_LEVEL /\ phys mod size (S l) = 0 /\
    (Z.land (pte_addr e) (size (S l) - 1) <> 0 \/ (pte_addr e = phys /\ PT_TO_VMM_FLAGS e = fl));
  hw_split l l' phys fl k : ok_leaf l phys fl -> (l' <= l)%nat ->
    0 <= k -> (k + 1) * size l' <= size l -> ok_leaf l' (phys + k * size l') fl;
  hw_phys l phys fl : ok_leaf l phys fl -> 0 <= phys /\ phys + size l <= 2 ^ 64;
  hw_max : 0 <= VMM_MAX_LEVEL <= 5;
}.

(** * Levels and indices *)

Definition idx (l : nat) (n : Z) : Z := n / size l mod 512.

Lemma size_pos l : 0 < size l.
Proof. unfold size. lia. Qed.
Lemma size_S l : size (S l) = size l * 512.
Proof.
  unfold size. replace (12 + 9 * Z.of_nat (S l)) with (12 + 9 * Z.of_nat l + 9) by lia.
  by rewrite Z.pow_add_r by lia.
Qed.
Lemma div_size_S l n : n / size (S l) = n / size l / 512.
Proof. rewrite size_S, Z.div_div by (pose proof (size_pos l); lia). done. Qed.
Lemma block_index l n : n / size l = n / size (S l) * 512 + idx l n.
Proof. rewrite div_size_S. unfold idx. pose proof (Z.div_mod (n / size l) 512). lia. Qed.
Lemma idx_range l n : 0 <= idx l n < 512.
Proof. apply Z.mod_pos_bound. lia. Qed.
Lemma page_sizes_size l : (l < 5)%nat -> page_sizes.[Z.of_nat l] = size l.
Proof. intros Hl. do 5 (destruct l as [|l]; [reflexivity |]). lia. Qed.

(** * Keys of tables *)

(** Which table, if any, is at a level for a prefix of the address. *)
Definition tables : Type := nat -> Z -> option Z.

(** The keys below block [blk] of level [l]. *)
Definition under (l : nat) (blk : Z) (l0 : nat) (p0 : Z) : bool :=
  (l0 <? l)%nat && (p0 / 512 ^ Z.of_nat (l - 1 - l0) =? blk).
Definition prune (tabs : tables) (l : nat) (blk : Z) : tables :=
  fun l0 p0 => if under l blk l0 p0 then None else tabs l0 p0.

Lemma under_parent l blk l0 p0 :
  (Datatypes.S l0 < l)%nat -> under l blk l0 p0 = under l blk (Datatypes.S l0) (p0 / 512).
Proof.
  intros Hl. unfold under. rewrite (proj2 (Nat.ltb_lt l0 l)), (proj2 (Nat.ltb_lt (Datatypes.S l0) l)) by lia.
  simpl. rewrite Z.div_div by lia. do 2 f_equal.
  replace (Z.of_nat (l - 1 - l0)) with (1 + Z.of_nat (l - 1 - Datatypes.S l0)) by lia.
  by rewrite Z.pow_add_r by lia.
Qed.
Lemma under_child l blk l0 p0 i0 :
  0 <= i0 < 512 -> (Datatypes.S l0 < l)%nat ->
  under l blk l0 (p0 * 512 + i0) = under l blk (Datatypes.S l0) p0.
Proof.
  intros Hi Hl. rewrite under_parent by done. f_equal.
  rewrite Z.div_add_l by lia. rewrite (Z.div_small i0) by lia. lia.
Qed.
Lemma under_top l blk l0 p0 : Datatypes.S l0 = l -> under l blk l0 p0 = (p0 =? blk).
Proof.
  intros <-. unfold under. rewrite (proj2 (Nat.ltb_lt _ _)) by lia.
  replace (Datatypes.S l0 - 1 - l0)%nat with O by lia. simpl. by rewrite Z.div_1_r.
Qed.
Lemma under_high l blk l0 p0 : (l <= l0)%nat -> under l blk l0 p0 = false.
Proof. intros Hle. unfold under. by rewrite (proj2 (Nat.ltb_ge _ _)) by lia. Qed.

Lemma prune_Some tabs l blk l0 p0 t :
  prune tabs l blk l0 p0 = Some t <-> under l blk l0 p0 = false /\ tabs l0 p0 = Some t.
Proof. unfold prune. destruct (under l blk l0 p0); split; try done; [by intros [? _] | by intros [_ ?]]. Qed.

(** A new table for block [blk]. *)
Definition link (tabs : tables) (l1 : nat) (blk q : Z) : tables :=
  fun l0 p0 => if bool_decide (l0 = l1 /\ p0 = blk) then Some q else tabs l0 p0.

Lemma link_same tabs l1 blk q : link tabs l1 blk q l1 blk = Some q.
Proof. unfold link. by rewrite bool_decide_true. Qed.
Lemma link_other tabs l1 blk q l0 p0 :
  ~ (l0 = l1 /\ p0 = blk) -> link tabs l1 blk q l0 p0 = tabs l0 p0.
Proof. intros Hn. unfold link. by rewrite bool_decide_false. Qed.

(** * The tables in memory *)

Section tables.
Context {S : Type} `{!Allocator S, !AllocatorOk S} `{FM : !PtFormat} `{HW : !HwFormat}.

Definition tab (q : Z) : Z := pte_new q PT_TABLE_FLAGS.

Lemma read_write_same s t i v :
  is_u64 v -> read_entry (write_entry s t i v) t i = v.
Proof. intros Hv. unfold read_entry, write_entry. rewrite al_put_ram. by apply load_store_same. Qed.

Lemma page_apart p q i j :
  is_page p -> is_page q -> 0 <= i < 512 -> 0 <= j < 512 -> p <> q \/ i <> j ->
  p + 8 * i + 8 <= q + 8 * j \/ q + 8 * j + 8 <= p + 8 * i.
Proof.
  intros [_ Hp] [_ Hq] Hi Hj Hne.
  pose proof (Z.div_mod p 4096 ltac:(lia)). pose proof (Z.div_mod q 4096 ltac:(lia)). lia.
Qed.

Lemma read_write_other s t i v t' i' :
  is_page t -> is_page t' -> 0 <= i < 512 -> 0 <= i' < 512 -> t <> t' \/ i <> i' ->
  read_entry (write_entry s t i v) t' i' = read_entry s t' i'.
Proof.
  intros Ht Ht' Hi Hi' Hne. unfold read_entry, write_entry. rewrite al_put_ram.
  apply load_store_other. by apply page_apart.
Qed.

Lemma read_fresh s s' p i :
  (forall x, ram_of s' x = mem_fill (ram_of s) p 0 4096 x) -> 0 <= i < 512 -> read_entry s' p i = 0.
Proof.
  intros Hr Hi. unfold read_entry, load64. rewrite !Hr. unfold mem_fill.
  repeat (case_if; [|exfalso; lia]). reflexivity.
Qed.

Lemma read_kept s s' p q i :
  (forall x, ram_of s' x = mem_fill (ram_of s) p 0 4096 x) -> is_page p -> is_page q -> q <> p ->
  0 <= i < 512 -> read_entry s' q i = read_entry s q i.
Proof.
  intros Hr [_ Hp] [_ Hq] Hne Hi. unfold read_entry. apply load_ext. intros x Hx. rewrite Hr.
  unfold mem_fill. pose proof (Z.div_mod p 4096 ltac:(lia)). pose proof (Z.div_mod q 4096 ltac:(lia)).
  case_if; [lia | done].
Qed.

(** The walk from a table of level [l]: the address, the flags and the level of the
    page that maps [n]. *)
Fixpoint walk (s : S) (l : nat) (t n : Z) : option (Z * Z * nat) :=
  match decode l (read_entry s t (idx l n)) with
  | Invalid => None
  | Page phys fl => Some (phys + n mod size l, fl, l)
  | Next q => match l with O => None | Datatypes.S l => walk s l q n end
  end.

Lemma walk_invalid s l t n : decode l (read_entry s t (idx l n)) = Invalid -> walk s l t n = None.
Proof. intros Hd. destruct l; cbn [walk]; by rewrite Hd. Qed.
Lemma walk_page s l t n phys fl :
  decode l (read_entry s t (idx l n)) = Page phys fl -> walk s l t n = Some (phys + n mod size l, fl, l).
Proof. intros Hd. destruct l; cbn [walk]; by rewrite Hd. Qed.

(** [L] levels under [nroots] root tables: the number of an address is its root and
    its indices. *)
Context (L : nat) (nroots : Z) (root : Z -> Z).
Hypothesis (HL : (0 < L)%nat).

Definition in_space (n : Z) : Prop := 0 <= n < nroots * size L.
Definition translate (s : S) (n : Z) : option (Z * Z * nat) := walk s (L - 1) (root (n / size L)) n.

Inductive entry_ok (s : S) (tabs : tables) (l : nat) (p t i : Z) : Prop :=
| e_empty :
    read_entry s t i = 0 -> (forall l', l = Datatypes.S l' -> tabs l' (p * 512 + i) = None) ->
    entry_ok s tabs l p t i
| e_leaf phys fl :
    read_entry s t i = leaf l phys fl -> ok_leaf l phys fl ->
    (forall l', l = Datatypes.S l' -> tabs l' (p * 512 + i) = None) ->
    entry_ok s tabs l p t i
| e_table l' q :
    l = Datatypes.S l' -> tabs l' (p * 512 + i) = Some q -> read_entry s t i = tab q ->
    entry_ok s tabs l p t i.

Record inv (s : S) (tabs : tables) : Prop := {
  i_ok : al_ok s;
  i_page l p t : tabs l p = Some t -> is_page t /\ al_holds s t /\ (l < L)%nat;
  i_inj l p l' p' t : tabs l p = Some t -> tabs l' p' = Some t -> l = l' /\ p = p';
  i_entry l p t i : tabs l p = Some t -> 0 <= i < 512 -> entry_ok s tabs l p t i;
  i_parent l p t : tabs l p = Some t -> (Datatypes.S l < L)%nat ->
    exists t', tabs (Datatypes.S l) (p / 512) = Some t' /\ read_entry s t' (p mod 512) = tab t;
  i_root h : 0 <= h < nroots -> tabs (L - 1)%nat h = Some (root h);
}.

Lemma in_space_root n : in_space n -> 0 <= n / size L < nroots.
Proof.
  intros Hn. unfold in_space in Hn. pose proof (size_pos L). split; [apply Z.div_pos; lia |].
  apply Z.div_lt_upper_bound; lia.
Qed.

(** The walk from the root passes through the tables of the address. *)
Lemma reach s tabs l n t :
  inv s tabs -> in_space n -> tabs l (n / size (Datatypes.S l)) = Some t -> translate s n = walk s l t n.
Proof.
  intros HI Hn. remember (L - 1 - l)%nat as d eqn:Ed. revert l t Ed; induction d as [|d IH]; intros l t Ed Ht.
  - destruct (i_page _ _ HI _ _ _ Ht) as (_ & _ & Hl). assert (l = (L - 1)%nat) as -> by lia.
    replace (Datatypes.S (L - 1)) with L in Ht by lia. unfold translate.
    rewrite (i_root _ _ HI _ (in_space_root n Hn)) in Ht. by simplify_eq.
  - destruct (i_page _ _ HI _ _ _ Ht) as (Hpg & _ & Hl).
    destruct (i_parent _ _ HI _ _ _ Ht ltac:(lia)) as (t' & Ht' & He).
    rewrite <- div_size_S in Ht'. rewrite (IH (Datatypes.S l) t') by (done || lia). cbn [walk].
    change (idx (Datatypes.S l) n) with (n / size (Datatypes.S l) mod 512). rewrite He.
    unfold tab. by destruct (hw_table l t Hpg) as (_ & _ & _ & ->).
Qed.

(** Walks that do not pass through a changed entry are as before. *)
Lemma walk_frame s s' tabs l p i :
  inv s tabs ->
  (forall l0 p0 t0 i0, tabs l0 p0 = Some t0 -> 0 <= i0 < 512 -> l0 <> l \/ p0 <> p \/ i0 <> i ->
     read_entry s' t0 i0 = read_entry s t0 i0) ->
  forall l0 t0 n, tabs l0 (n / size (Datatypes.S l0)) = Some t0 -> n / size l <> p * 512 + i ->
  walk s' l0 t0 n = walk s l0 t0 n.
Proof.
  intros HI Hsame l0. induction l0 as [|l0 IH]; intros t0 n Ht Hn.
  - cbn [walk]. rewrite (Hsame O (n / size 1)); [done | done | apply idx_range |].
    destruct (decide (l = O)) as [->|]; [right | left; congruence].
    pose proof (block_index 0 n). destruct (decide (n / size 1 = p)); [right; lia | by left].
  - cbn [walk]. pose proof (idx_range (Datatypes.S l0) n) as Hir.
    rewrite (Hsame (Datatypes.S l0) (n / size (Datatypes.S (Datatypes.S l0)))); [|done..|].
    + destruct (i_entry _ _ HI _ _ _ _ Ht Hir) as [He _|phys fl He Hok _|l' q [= <-] Hq He]; rewrite He.
      * by rewrite hw_empty.
      * by destruct (hw_leaf _ _ _ Hok) as [_ ->].
      * destruct (i_page _ _ HI _ _ _ Hq) as (Hpg & _).
        destruct (hw_table l0 q Hpg) as (_ & _ & _ & Hd). unfold tab. rewrite Hd. apply IH; [|done].
        by rewrite <- block_index in Hq.
    + destruct (decide (l = Datatypes.S l0)) as [->|]; [right | left; congruence].
      pose proof (block_index (Datatypes.S l0) n).
      destruct (decide (n / size (Datatypes.S (Datatypes.S l0)) = p)); [right; lia | by left].
Qed.

(** ** Writing a leaf *)

Section update.
Context (s : S) (tabs : tables) (l : nat) (p t i : Z).
Hypothesis (HI : inv s tabs) (Ht : tabs l p = Some t) (Hi : 0 <= i < 512).

(** The entries other than the written one. *)
Lemma write_elsewhere v l0 p0 t0 i0 :
  tabs l0 p0 = Some t0 -> 0 <= i0 < 512 -> l0 <> l \/ p0 <> p \/ i0 <> i ->
  read_entry (write_entry s t i v) t0 i0 = read_entry s t0 i0.
Proof.
  intros Ht0 Hi0 Hne. destruct (i_page _ _ HI _ _ _ Ht) as (Hp & _), (i_page _ _ HI _ _ _ Ht0) as (Hp0 & _).
  apply read_write_other; try done. destruct (decide (t = t0)) as [<-|]; [|by left].
  destruct (i_inj _ _ HI _ _ _ _ _ Ht Ht0) as [-> ->]. right. naive_solver.
Qed.

Lemma set_leaf_entry phys fl l0 p0 t0 i0 :
  ok_leaf l phys fl -> prune tabs l (p * 512 + i) l0 p0 = Some t0 -> 0 <= i0 < 512 ->
  entry_ok (write_entry s t i (leaf l phys fl)) (prune tabs l (p * 512 + i)) l0 p0 t0 i0.
Proof.
  intros Hok Ht0 Hi0. apply prune_Some in Ht0 as [Hu Ht0].
  destruct (hw_leaf _ _ _ Hok) as [Hu64 _].
  destruct (decide (l0 = l /\ p0 = p /\ i0 = i)) as [(-> & -> & ->)|Hne].
  - rewrite Ht in Ht0. injection Ht0 as <-. apply (e_leaf _ _ _ _ _ _ phys fl); [by apply read_write_same | done |].
    intros l' ->. unfold prune. by rewrite under_top, Z.eqb_refl.
  - assert (Hread : read_entry (write_entry s t i (leaf l phys fl)) t0 i0 = read_entry s t0 i0)
      by (apply (write_elsewhere _ l0 p0); [done | done |];
          destruct (decide (l0 = l)), (decide (p0 = p)), (decide (i0 = i)); tauto).
    assert (Hnone : forall l', l0 = Datatypes.S l' -> tabs l' (p0 * 512 + i0) = None ->
      prune tabs l (p * 512 + i) l' (p0 * 512 + i0) = None).
    { intros l' _ Hn. unfold prune. case_if; done. }
    destruct (i_entry _ _ HI _ _ _ _ Ht0 Hi0) as [He Hn|phys' fl' He Hok' Hn|l' q -> Hq He].
    + apply e_empty; [by rewrite Hread | naive_solver].
    + apply (e_leaf _ _ _ _ _ _ phys' fl'); [by rewrite Hread | done | naive_solver].
    + apply (e_table _ _ _ _ _ _ l' q); [done | | by rewrite Hread].
      apply prune_Some. split; [|done].
      destruct (decide (Datatypes.S l' < l)%nat); [by rewrite under_child|].
      destruct (decide (Datatypes.S l' = l)) as [<-|]; [|apply under_high; lia].
      rewrite under_top by done. apply Z.eqb_neq. intros Heq. apply Hne. split; [done |]. lia.
Qed.

Lemma set_leaf_inv phys fl :
  ok_leaf l phys fl ->
  inv (write_entry s t i (leaf l phys fl)) (prune tabs l (p * 512 + i)).
Proof.
  intros Hok. destruct (i_page _ _ HI _ _ _ Ht) as (Hpg & Hh & HlL). split.
  - apply al_put_ok, HI.
  - intros l0 p0 t0 G0. apply prune_Some in G0 as [_ G0].
    destruct (i_page _ _ HI _ _ _ G0) as (? & ? & ?). split_and!; try done. by apply al_put_holds.
  - intros l0 p0 l1 p1 t0 G0 G1. apply prune_Some in G0 as [_ G0]. apply prune_Some in G1 as [_ G1].
    by eapply (i_inj _ _ HI).
  - intros l0 p0 t0 i0 G0 Hi0. by apply set_leaf_entry.
  - intros l0 p0 t0 G0 Hl0. apply prune_Some in G0 as [Hu G0].
    destruct (i_parent _ _ HI _ _ _ G0 Hl0) as (t' & Ht' & He). exists t'.
    pose proof (Z.mod_pos_bound p0 512 ltac:(lia)) as Hm. pose proof (Z.div_mod p0 512 ltac:(lia)) as Hdm.
    split.
    + apply prune_Some. split; [|done].
      destruct (decide (Datatypes.S l0 < l)%nat); [by rewrite <- under_parent | apply under_high; lia].
    + rewrite (write_elsewhere _ (Datatypes.S l0) (p0 / 512)); [done | done | done |].
      destruct (decide (Datatypes.S l0 = l)) as [<-|]; [right | by left].
      rewrite under_top in Hu by done. apply Z.eqb_neq in Hu. lia.
  - intros h Hh'. apply prune_Some. split; [apply under_high; lia | by apply HI].
Qed.

Lemma set_leaf_translate phys fl n :
  ok_leaf l phys fl -> in_space n ->
  translate (write_entry s t i (leaf l phys fl)) n =
    if n / size l =? p * 512 + i then Some (phys + n mod size l, fl, l) else translate s n.
Proof.
  intros Hok Hn. destruct (hw_leaf _ _ _ Hok) as [Hu64 Hdec].
  destruct (Z.eqb_spec (n / size l) (p * 512 + i)) as [Heq|Hne].
  - assert (Hp : n / size (Datatypes.S l) = p /\ idx l n = i).
    { unfold idx. rewrite div_size_S, Heq. split.
      - rewrite Z.div_add_l by lia. rewrite (Z.div_small i) by lia. lia.
      - rewrite Z.add_comm, Z.mod_add by lia. by apply Z.mod_small. }
    destruct Hp as [Hp Hix].
    rewrite (reach _ _ l n t (set_leaf_inv phys fl Hok) Hn).
    + apply walk_page. by rewrite Hix, read_write_same by done.
    + apply prune_Some. rewrite Hp. split; [apply under_high; lia | done].
  - unfold translate. apply (walk_frame s _ tabs l p i HI).
    + intros. by eapply write_elsewhere.
    + replace (Datatypes.S (L - 1)) with L by lia. apply HI. by apply in_space_root.
    + done.
Qed.
End update.

(** ** Adding an empty table *)

Section add.
Context (s s1 : S) (tabs : tables) (l1 : nat) (p t i q : Z).
Hypothesis (HI : inv s tabs) (Ht : tabs (Datatypes.S l1) p = Some t) (Hi : 0 <= i < 512).
Hypothesis (Hnone : tabs l1 (p * 512 + i) = None).
Hypothesis (Hq : is_page q) (Hok1 : al_ok s1) (Hhq : al_holds s1 q).
Hypothesis (Hkeep : forall q', is_page q' -> al_holds s q' -> al_holds s1 q' /\ q' <> q).
Hypothesis (Hram : forall x, ram_of s1 x = mem_fill (ram_of s) q 0 4096 x).

Notation s2 := (write_entry s1 t i (tab q)).
Notation tabs2 := (link tabs l1 (p * 512 + i) q).

Lemma add_fresh l0 p0 t0 : tabs l0 p0 = Some t0 -> is_page t0 /\ al_holds s1 t0 /\ t0 <> q.
Proof. intros G. destruct (i_page _ _ HI _ _ _ G) as (Hp & Hh & _). destruct (Hkeep t0 Hp Hh). done. Qed.

Lemma add_elsewhere l0 p0 t0 i0 :
  tabs l0 p0 = Some t0 -> 0 <= i0 < 512 -> l0 <> Datatypes.S l1 \/ p0 <> p \/ i0 <> i ->
  read_entry s2 t0 i0 = read_entry s t0 i0.
Proof.
  intros G Hi0 Hne. destruct (add_fresh _ _ _ G) as (Hp0 & _ & Hne0).
  destruct (add_fresh _ _ _ Ht) as (Hpt & _ & _). rewrite read_write_other; try done.
  - by apply (read_kept s s1 q).
  - destruct (decide (t = t0)) as [<-|]; [|by left]. right.
    destruct (i_inj _ _ HI _ _ _ _ _ Ht G) as [? ?]. intros ->. naive_solver.
Qed.

Lemma add_new_entry i0 : 0 <= i0 < 512 -> read_entry s2 q i0 = 0.
Proof.
  intros Hi0. destruct (add_fresh _ _ _ Ht) as (Hpt & _ & Hne). rewrite read_write_other; try done; [|by left].
  by apply (read_fresh s s1).
Qed.

Lemma add_written : read_entry s2 t i = tab q.
Proof. apply read_write_same. by destruct (hw_table l1 q Hq). Qed.

(** The new table's children are no keys yet. *)
Lemma add_no_children l0 i0 : l1 = Datatypes.S l0 -> 0 <= i0 < 512 -> tabs l0 ((p * 512 + i) * 512 + i0) = None.
Proof.
  intros Hl1 Hi0. destruct (tabs l0 ((p * 512 + i) * 512 + i0)) as [t0|] eqn:E; [|done].
  destruct (i_page _ _ HI _ _ _ Ht) as (_ & _ & HlL).
  destruct (i_parent _ _ HI _ _ _ E ltac:(lia)) as (t' & Ht' & _).
  rewrite Z.div_add_l, (Z.div_small i0), Z.add_0_r, <- Hl1 in Ht' by lia. congruence.
Qed.

Lemma add_entry l0 p0 t0 i0 :
  tabs2 l0 p0 = Some t0 -> 0 <= i0 < 512 -> entry_ok s2 tabs2 l0 p0 t0 i0.
Proof.
  intros G Hi0. destruct (decide (l0 = l1 /\ p0 = p * 512 + i)) as [[-> ->]|Hnk].
  { rewrite link_same in G. injection G as <-. apply e_empty; [by apply add_new_entry |].
    intros l' Hl'. rewrite link_other by lia. by apply add_no_children. }
  rewrite link_other in G by done.
  destruct (decide (l0 = Datatypes.S l1 /\ p0 = p /\ i0 = i)) as [(-> & -> & ->)|Hne].
  { rewrite Ht in G. injection G as <-. apply (e_table _ _ _ _ _ _ l1 q); [done | by rewrite link_same | apply add_written]. }
  assert (Hread : read_entry s2 t0 i0 = read_entry s t0 i0).
  { apply (add_elsewhere l0 p0); [done | done |].
    destruct (decide (l0 = Datatypes.S l1)), (decide (p0 = p)), (decide (i0 = i)); tauto. }
  assert (Hchild : forall l', l0 = Datatypes.S l' -> link tabs l1 (p * 512 + i) q l' (p0 * 512 + i0) = tabs l' (p0 * 512 + i0)).
  { intros l' ->. apply link_other. intros [-> Heq]. apply Hne. split; [done | lia]. }
  destruct (i_entry _ _ HI _ _ _ _ G Hi0) as [He Hn|phys' fl' He Hok' Hn|l' q' -> Hq' He].
  - apply e_empty; [by rewrite Hread | intros l' Hl'; rewrite Hchild by done; auto].
  - apply (e_leaf _ _ _ _ _ _ phys' fl'); [by rewrite Hread | done | intros l' Hl'; rewrite Hchild by done; auto].
  - apply (e_table _ _ _ _ _ _ l' q'); [done | by rewrite Hchild | by rewrite Hread].
Qed.

Lemma add_inv : inv s2 tabs2.
Proof.
  destruct (i_page _ _ HI _ _ _ Ht) as (Hpt & _ & HlL).
  assert (Hcase : forall l0 p0 t0, tabs2 l0 p0 = Some t0 ->
    (l0 = l1 /\ p0 = p * 512 + i /\ t0 = q) \/ (~ (l0 = l1 /\ p0 = p * 512 + i) /\ tabs l0 p0 = Some t0)).
  { intros l0 p0 t0 G. destruct (decide (l0 = l1 /\ p0 = p * 512 + i)) as [[-> ->]|Hn].
    - rewrite link_same in G. left. naive_solver.
    - rewrite link_other in G by done. by right. }
  split.
  - by apply al_put_ok.
  - intros l0 p0 t0 G. apply Hcase in G as [(-> & -> & ->)|[_ G]].
    + split_and!; [apply Hq.. | by apply al_put_holds | lia].
    + destruct (i_page _ _ HI _ _ _ G) as (? & ? & ?), (add_fresh _ _ _ G) as (? & ? & ?).
      split_and!; try done. by apply al_put_holds.
  - intros l0 p0 l2 p2 t0 G G2. apply Hcase in G as [(-> & -> & ->)|[Hn G]].
    + apply Hcase in G2 as [(-> & -> & _)|[_ G2]]; [done |]. by destruct (add_fresh _ _ _ G2) as (_ & _ & ?).
    + apply Hcase in G2 as [(-> & -> & ->)|[_ G2]]; [|by eapply (i_inj _ _ HI)].
      by destruct (add_fresh _ _ _ G) as (_ & _ & ?).
  - intros. by apply add_entry.
  - intros l0 p0 t0 G Hl0. pose proof (Z.mod_pos_bound p0 512 ltac:(lia)) as Hm.
    pose proof (Z.div_mod p0 512 ltac:(lia)) as Hdm.
    apply Hcase in G as [(-> & -> & ->)|[Hn G]].
    + exists t. rewrite Z.div_add_l, (Z.div_small i), Z.add_0_r by lia. split; [rewrite link_other by lia; done |].
      rewrite Z.add_comm, Z.mod_add, Z.mod_small by lia. apply add_written.
    + destruct (i_parent _ _ HI _ _ _ G Hl0) as (t' & Ht' & He). exists t'. split.
      * rewrite link_other; [done |]. intros [Heq Heq'].
        rewrite Heq, Heq' in Ht'. congruence.
      * rewrite (add_elsewhere (Datatypes.S l0) (p0 / 512)); try done.
        destruct (decide (l0 = l1)) as [->|]; [right | left; congruence].
        destruct (decide (p0 / 512 = p)); [right | by left]. intros Hx. apply Hn. split; [done | lia].
  - intros h Hh. rewrite link_other; [by apply HI |]. lia.
Qed.

Lemma add_translate n :
  in_space n -> translate s2 n = if n / size (Datatypes.S l1) =? p * 512 + i then None else translate s n.
Proof.
  intros Hn. destruct (Z.eqb_spec (n / size (Datatypes.S l1)) (p * 512 + i)) as [Heq|Hne].
  - rewrite (reach _ _ l1 n q add_inv Hn) by (rewrite Heq; apply link_same).
    apply walk_invalid. rewrite add_new_entry by apply idx_range. apply hw_empty.
  - unfold translate. apply (walk_frame s _ tabs (Datatypes.S l1) p i HI); [intros; by eapply add_elsewhere | | done].
    replace (Datatypes.S (L - 1)) with L by lia. apply HI. by apply in_space_root.
Qed.
End add.
End tables.
