(* ===== verification/VmmMap.v ===== *)
(** [get_next_level] and the descent to the level of the page, for any format and any
    allocator: splitting a large page keeps every translation, and writing the page
    changes exactly its own block. *)

From S2P Require Import Prelude Vmm VmmWalk.

(** * Blocks of a number *)

Lemma size_le l l' : (l' <= l)%nat -> size l = size l' * 512 ^ Z.of_nat (l - l').
Proof.
  intros Hl. replace l with (l' + (l - l'))%nat at 1 by lia. generalize (l - l')%nat. intros d.
  induction d as [|d IH]; [rewrite Nat.add_0_r; change (512 ^ Z.of_nat 0) with 1; lia |].
  rewrite Nat.add_succ_r, size_S, IH, Nat2Z.inj_succ, Z.pow_succ_r by lia. lia.
Qed.

(** The sub-blocks of size [A] in the block of size [A * M] that holds [n]. *)
Lemma subblock A M n blk k :
  0 < A -> 0 < M -> 0 <= k < M ->
  (n / A = (blk * (A * M) + k * A) / A <-> n / (A * M) = blk /\ n mod (A * M) / A = k).
Proof.
  intros HA HM Hk. replace (blk * (A * M) + k * A) with ((blk * M + k) * A) by lia.
  rewrite Z.div_mul by lia.
  pose proof (Z.div_mod n (A * M) ltac:(nia)) as Hd. pose proof (Z.mod_pos_bound n (A * M) ltac:(nia)) as Hb.
  assert (Hn : n / A = n / (A * M) * M + n mod (A * M) / A).
  { rewrite Hd at 1. replace (A * M * (n / (A * M)) + n mod (A * M)) with (n mod (A * M) + n / (A * M) * M * A) by lia.
    rewrite Z.div_add by lia. lia. }
  assert (Hq : 0 <= n mod (A * M) / A < M)
    by (split; [apply Z.div_pos; lia | apply Z.div_lt_upper_bound; lia]).
  rewrite Hn. split; [|intros [-> ->]; lia]. intros Heq.
  assert (n / (A * M) = blk) by nia. split; [done | nia].
Qed.

Lemma mod_subblock A M n : 0 < A -> 0 < M -> n mod (A * M) = n mod (A * M) / A * A + n mod A.
Proof.
  intros HA HM. pose proof (Z.div_mod (n mod (A * M)) A ltac:(lia)) as Hd.
  assert (n mod (A * M) mod A = n mod A) as Hm.
  { rewrite (Z.div_mod n (A * M)) at 2 by nia.
    replace (A * M * (n / (A * M)) + n mod (A * M)) with (n mod (A * M) + M * (n / (A * M)) * A) by lia.
    by rewrite Z.mod_add by lia. }
  lia.
Qed.

Lemma iterations_size l l' :
  (l' <= l)%nat -> iterations (size l) (size l') = Z.to_nat (512 ^ Z.of_nat (l - l')).
Proof.
  intros Hl. unfold iterations. f_equal. rewrite (size_le l l' Hl). pose proof (size_pos l').
  replace (size l' * 512 ^ Z.of_nat (l - l') + size l' - 1)
    with (512 ^ Z.of_nat (l - l') * size l' + (size l' - 1)) by lia.
  rewrite Z.div_add_l by lia. rewrite (Z.div_small (size l' - 1)) by lia. lia.
Qed.

(** Masking the low bits of a 64-bit number. *)
Lemma land_clear v k : is_u64 v -> 0 <= k <= 64 -> Z.land v (u64 (Z.lnot (2 ^ k - 1))) = v / 2 ^ k * 2 ^ k.
Proof.
  intros Hv Hk. apply Z.bits_inj'. intros j Hj.
  rewrite <- Z.shiftl_mul_pow2, Z.shiftl_spec, <- Z.shiftr_div_pow2, Z.land_spec by lia.
  replace (2 ^ k - 1) with (Z.ones k) by (rewrite Z.ones_equiv; lia).
  unfold u64, wrap. destruct (decide (j < 64)).
  - rewrite Z.mod_pow2_bits_low, Z.lnot_spec by lia. destruct (decide (j < k)).
    + rewrite Z.ones_spec_low, andb_false_r, Z.testbit_neg_r by lia. done.
    + rewrite Z.ones_spec_high, andb_true_r, Z.shiftr_spec by lia. f_equal. lia.
  - rewrite (testbit_high 64 v) by (done || lia). simpl. symmetry.
    rewrite Z.shiftr_spec by lia. apply (testbit_high 64); [done | lia].
Qed.

Lemma land_size_mask v l : Z.land v (size l - 1) = v mod size l.
Proof.
  unfold size. rewrite <- Z.land_ones by lia. f_equal. rewrite Z.ones_equiv. lia.
Qed.

(** A translation without the level of its page. *)
Definition strip (r : option (Z * Z * nat)) : option (Z * Z) :=
  match r with Some (a, fl, _) => Some (a, fl) | None => None end.

(** * Tables that exist *)

Section path.
Context (L : nat).

(** The tables for [n] of level [h] and above exist. *)
Definition path (tabs : tables) (h : nat) (n : Z) : Prop :=
  forall l, (h <= l < L)%nat -> exists t, tabs l (n / size (Datatypes.S l)) = Some t.

Lemma div_size_le l h n n' : (h <= l)%nat -> n / size h = n' / size h -> n / size l = n' / size l.
Proof.
  intros Hl Heq. pose proof (size_pos h). rewrite (size_le l h Hl). rewrite <- !Z.div_div by lia. by rewrite Heq.
Qed.
Lemma path_same tabs h n n' :
  n / size (Datatypes.S h) = n' / size (Datatypes.S h) -> path tabs h n -> path tabs h n'.
Proof.
  intros Heq Hp l Hl. rewrite <- (div_size_le (Datatypes.S l) (Datatypes.S h) n n') by (done || lia). by apply Hp.
Qed.
Lemma path_up tabs h h' n : (h <= h')%nat -> path tabs h n -> path tabs h' n.
Proof. intros Hh Hp l Hl. apply Hp. lia. Qed.
Lemma path_down tabs h n t : tabs h (n / size (Datatypes.S h)) = Some t -> path tabs (Datatypes.S h) n -> path tabs h n.
Proof.
  intros Ht Hp l Hl. destruct (decide (l = h)) as [->|]; [by exists t |]. apply Hp. lia.
Qed.

(** Tables of level [sz] and above stay. *)
Definition keeps (sz : nat) (tabs tabs' : tables) : Prop :=
  forall l p t, (sz <= l)%nat -> tabs l p = Some t -> tabs' l p = Some t.

Lemma keeps_refl sz tabs : keeps sz tabs tabs.
Proof. by intros l p t. Qed.
Lemma keeps_trans sz t1 t2 t3 : keeps sz t1 t2 -> keeps sz t2 t3 -> keeps sz t1 t3.
Proof. intros K1 K2 l p t Hl Ht. auto. Qed.
Lemma keeps_link sz tabs l1 blk q : tabs l1 blk = None -> keeps sz tabs (link tabs l1 blk q).
Proof.
  intros Hn l p t _ Ht. rewrite link_other; [done |]. intros [-> ->]. congruence.
Qed.
Lemma keeps_prune sz tabs blk : keeps sz tabs (prune tabs sz blk).
Proof. intros l p t Hl Ht. apply prune_Some. split; [by apply under_high | done]. Qed.

Lemma path_keeps sz tabs tabs' h n : keeps sz tabs tabs' -> (sz <= h)%nat -> path tabs h n -> path tabs' h n.
Proof. intros Hk Hh Hp l Hl. destruct (Hp l Hl) as [t Ht]. exists t. apply Hk; [lia | done]. Qed.

(** The tables known one level down. *)
Lemma path_next l h n tabs q :
  tabs l (n / size (Datatypes.S l)) = Some q -> (h <= Datatypes.S l)%nat -> path tabs h n -> path tabs (Nat.min h l) n.
Proof.
  intros Hq Hh Hp. destruct (decide (h <= l)%nat) as [?|?]; [by rewrite Nat.min_l by lia |].
  rewrite Nat.min_r by lia. assert (h = Datatypes.S l) as -> by lia. by eapply path_down.
Qed.
Lemma path_missing l h n tabs :
  tabs l (n / size (Datatypes.S l)) = None -> (l < L)%nat -> (h <= Datatypes.S l)%nat -> path tabs h n -> h = Datatypes.S l.
Proof.
  intros Hq Hl Hh Hp. destruct (decide (h <= l)%nat); [|lia]. destruct (Hp l ltac:(lia)) as [t Ht]. congruence.
Qed.

End path.

Section map.
Context {S : Type} `{!Allocator S, !AllocatorOk S} `{FM : !PtFormat} `{HW : !HwFormat}.
Context (L : nat) (nroots : Z) (root : Z -> Z) (HL : (0 < L)%nat) (HL5 : (L <= 5)%nat).

(** The number of a virtual address. *)
Context (vn : Z -> Z).
Hypothesis (Hvn_space : forall virt, is_u64 virt -> in_space L nroots (vn virt)).
Hypothesis (Hvn_block : forall virt l off, is_u64 virt -> (l < L)%nat -> 0 <= off < size l ->
  vn (u64 (Z.land virt (u64 (Z.lnot (size l - 1))) + off)) = vn virt / size l * size l + off).

Notation inv := (inv L nroots root).
Notation path := (path L).
Notation translate := (translate L root).
Notation in_space := (in_space L nroots).

(** No page larger than [sz] maps [n]. *)
Definition plain (s : S) (sz : nat) (n : Z) : Prop :=
  forall a fl l, translate s n = Some (a, fl, l) -> (l <= sz)%nat.
(** The page that maps [n] is too large, and its entry does not give its address back. *)
Definition unsplittable (s : S) (sz : nat) (n : Z) : Prop :=
  exists phys fl l, translate s n = Some (phys + n mod size l, fl, l) /\ (sz < l)%nat /\
    Z.land (pte_addr (leaf l phys fl)) (size l - 1) <> 0.

(** One page of level [sz] for the block of [n], and nothing else changed. *)
Definition mapped (s s' : S) (sz : nat) (n phys fl : Z) : Prop :=
  forall n', in_space n' -> translate s' n' =
    if n' / size sz =? n / size sz then Some (phys + n' mod size sz, fl, sz) else translate s n'.

(** What a [map_page] does when it has nothing to split: it takes a table for each level
    that has none. *)
Definition remap_ok (remap : Z -> Z -> Z -> Z -> S -> outcome S) (sz : nat) : Prop :=
  forall s tabs virt phys fl h, inv s tabs -> is_u64 virt -> ok_leaf sz phys fl -> plain s sz (vn virt) ->
  (sz <= h < L)%nat -> path tabs h (vn virt) ->
  match remap virt phys fl (Z.of_nat sz) s with
  | Ret s' => exists tabs', inv s' tabs' /\ keeps sz tabs tabs' /\ mapped s s' sz (vn virt) phys fl /\
      path tabs' sz (vn virt) /\ uses (h - sz) s s'
  | Panic => ~ can_serve (h - sz) s
  | Diverge => False
  end.

(** * Splitting *)

Section split.
Context (remap : Z -> Z -> Z -> Z -> S -> outcome S) (l sz : nat) (virt phys fl : Z) (s : S).
Hypothesis (Hremap : remap_ok remap sz) (Hsz : (sz <= l)%nat) (HlL : (Datatypes.S l < L)%nat).
Hypothesis (Hvirt : is_u64 virt) (Hleaf : ok_leaf (Datatypes.S l) phys fl).

Notation A := (size sz).
Notation M := (512 ^ Z.of_nat (Datatypes.S l - sz)).
Notation blk := (vn virt / size (Datatypes.S l)).

(** After [k] of the smaller pages. *)
Definition split_upto (k : Z) (s' : S) : Prop :=
  forall n, in_space n -> translate s' n =
    if n / size (Datatypes.S l) =? blk then
      if n mod size (Datatypes.S l) / A <? k then Some (phys + n mod size (Datatypes.S l), fl, sz) else None
    else translate s n.

(** The tables of the first [k] of them exist. *)
Definition split_paths (k : Z) (tabs' : tables) : Prop :=
  path tabs' l (vn virt) /\ forall j, 0 <= j < k -> path tabs' sz (blk * size (Datatypes.S l) + j * A).
(** The tables they took: one for each missing level, each time 512 pages are full. *)
Definition split_tables (k : Z) : nat := (l - sz) * Z.to_nat ((k + 511) / 512).

Lemma split_tables_step k : 0 <= k ->
  split_tables (k + 1) = (split_tables k + if (k mod 512 =? 0)%Z then l - sz else 0)%nat.
Proof.
  intros Hk. unfold split_tables. pose proof (Z.div_mod k 512 ltac:(lia)). pose proof (Z.mod_pos_bound k 512 ltac:(lia)).
  replace (k + 1 + 511) with (k + 1 * 512) by lia. rewrite Z.div_add by lia.
  destruct (Z.eqb_spec (k mod 512) 0) as [Hk0|Hk0].
  - assert ((k + 511) / 512 = k / 512) as -> by (symmetry; apply (Z.div_unique _ _ _ 511); lia).
    rewrite Z2Nat.inj_add by lia. lia.
  - assert ((k + 511) / 512 = k / 512 + 1) as -> by (symmetry; apply (Z.div_unique _ _ _ (k mod 512 - 1)); lia). lia.
Qed.
Lemma split_tables_le k k' : 0 <= k <= k' -> (split_tables k <= split_tables k')%nat.
Proof.
  intros Hk. unfold split_tables. apply Nat.mul_le_mono_l.
  assert ((k + 511) / 512 <= (k' + 511) / 512) by (apply Z.div_le_mono; lia).
  pose proof (Z.div_pos (k + 511) 512). apply Z2Nat.inj_le; lia.
Qed.

(** The tables that exist before the [k]th page. *)
Lemma split_path k tabs' : 0 <= k < M -> split_paths k tabs' ->
  exists h, (sz <= h < L)%nat /\ path tabs' h (blk * size (Datatypes.S l) + k * A) /\
    (h - sz <= if (k mod 512 =? 0)%Z then l - sz else 0)%nat.
Proof.
  intros Hk [Hpl Hps]. pose proof (size_pos sz) as HA. pose proof (size_le (Datatypes.S l) sz ltac:(lia)) as Hsize.
  destruct (Z.eqb_spec (k mod 512) 0) as [Hk0|Hk0].
  - exists l. split; [lia |]. split; [|lia]. eapply path_same; [|exact Hpl].
    pose proof (size_pos (Datatypes.S l)). rewrite Z.div_add_l by lia.
    rewrite (Z.div_small (k * A)) by (rewrite Hsize; nia). lia.
  - exists sz. split; [lia |]. split; [|lia].
    pose proof (Z.div_mod k 512 ltac:(lia)). pose proof (Z.mod_pos_bound k 512 ltac:(lia)).
    assert (0 < k) by (destruct (Z.eq_dec k 0) as [->|]; [done | lia]).
    eapply path_same; [|apply (Hps (k - 1)); lia]. generalize blk. intros b.
    rewrite Hsize, !div_size_S. replace (b * (A * M) + (k - 1) * A) with ((b * M + (k - 1)) * A) by lia.
    replace (b * (A * M) + k * A) with ((b * M + k) * A) by lia. rewrite !Z.div_mul by lia.
    destruct (decide (sz = l)) as [->|Hne].
    + replace (Datatypes.S l - l)%nat with 1%nat in * by lia. change (512 ^ Z.of_nat 1) with 512 in *.
      rewrite !Z.div_add_l by lia. rewrite !Z.div_small by lia. done.
    + replace (512 ^ Z.of_nat (Datatypes.S l - sz)) with (512 ^ Z.of_nat (l - sz) * 512).
      2:{ replace (Datatypes.S l - sz)%nat with (Datatypes.S (l - sz)) by lia.
          rewrite Nat2Z.inj_succ, Z.pow_succ_r by lia. lia. }
      rewrite !Z.mul_assoc, !Z.div_add_l by lia. f_equal.
      symmetry. apply (Z.div_unique _ _ _ (k mod 512 - 1)); [lia |]. lia.
Qed.

Lemma split_step k s2 s' tabs' :
  0 <= k < M -> inv s' tabs' -> split_upto k s' -> split_paths k tabs' -> uses (split_tables k) s2 s' ->
  match remap (u64 (Z.land virt (u64 (Z.lnot (size (Datatypes.S l) - 1))) + k * A)) (u64 (phys + k * A)) fl
          (Z.of_nat sz) s' with
  | Ret s'' => exists tabs'', inv s'' tabs'' /\ keeps sz tabs' tabs'' /\ split_upto (k + 1) s'' /\
      split_paths (k + 1) tabs'' /\ uses (split_tables (k + 1)) s2 s''
  | Panic => ~ can_serve (split_tables (k + 1)) s2
  | Diverge => False
  end.
Proof.
  intros Hk HI Hup Hpa Hu. pose proof (size_pos sz) as HA. pose proof (size_le (Datatypes.S l) sz ltac:(lia)) as Hsize.
  assert (Hoff : 0 <= k * A < size (Datatypes.S l)) by (rewrite Hsize; nia).
  destruct (hw_phys _ _ _ Hleaf) as [Hp0 Hp1].
  rewrite (u64_small (phys + k * A)) by lia.
  assert (Hok : ok_leaf sz (phys + k * A) fl)
    by (apply (hw_split (Datatypes.S l)); [done | lia | lia | rewrite Hsize; nia]).
  set (v := u64 (Z.land virt _ + k * A)).
  assert (Hv : is_u64 v) by apply u64_bound.
  assert (Hvn : vn v = blk * size (Datatypes.S l) + k * A) by (unfold v; by rewrite Hvn_block by done).
  destruct (split_path k tabs' Hk Hpa) as (h & Hh & Hph & Hcost). rewrite <- Hvn in Hph.
  pose proof (fun n => subblock A M n blk k HA ltac:(lia) Hk) as Hsub. rewrite <- Hsize in Hsub.
  assert (Hplain : plain s' sz (vn v)).
  { intros a f l0 Htr. rewrite Hup in Htr by (by apply Hvn_space).
    destruct (proj1 (Hsub (vn v)) ltac:(by rewrite Hvn)) as [E1 E2].
    rewrite E1, E2, Z.eqb_refl, Z.ltb_irrefl in Htr. done. }
  specialize (Hremap s' tabs' v (phys + k * A) fl h HI Hv Hok Hplain Hh Hph).
  destruct (remap _ _ _ _ _) as [s''| |]; [| |done].
  2:{ rewrite split_tables_step by lia. eapply serve_panic_le; [|by eapply uses_panic]. lia. }
  destruct Hremap as (tabs'' & HI'' & Hk'' & Hm & Hp'' & Hu''). exists tabs''. split_and!; [done.. | | |].
  - intros n Hn. rewrite Hm, Hup by done. rewrite Hvn.
    pose proof (mod_subblock A M n HA ltac:(lia)) as Hmod. rewrite <- Hsize in Hmod. specialize (Hsub n).
    destruct (Z.eqb_spec (n / A) ((blk * size (Datatypes.S l) + k * A) / A)) as [Heq|Hne].
    + apply Hsub in Heq as [-> Hq]. rewrite Z.eqb_refl, (proj2 (Z.ltb_lt _ (k + 1))) by lia.
      do 3 f_equal. rewrite Hmod, Hq. lia.
    + destruct (Z.eqb_spec (n / size (Datatypes.S l)) blk) as [Hb|]; [|done].
      assert (n mod size (Datatypes.S l) / A <> k) by (intros Hq; apply Hne, Hsub; done).
      assert ((n mod size (Datatypes.S l) / A <? k + 1) = (n mod size (Datatypes.S l) / A <? k)) as -> by lia. done.
  - destruct Hpa as [Hpl Hps]. split; [by eapply path_keeps |]. intros j Hj.
    destruct (decide (j = k)) as [->|]; [by rewrite <- Hvn |]. eapply path_keeps; [done.. |]. apply Hps. lia.
  - rewrite split_tables_step by lia. eapply uses_le; [|by eapply uses_trans]. lia.
Qed.

Lemma split_loop d k s2 s' tabs' :
  0 <= k -> k + Z.of_nat d = M -> inv s' tabs' -> split_upto k s' -> split_paths k tabs' -> uses (split_tables k) s2 s' ->
  match for_each d k (fun k s => remap (u64 (Z.land virt (u64 (Z.lnot (size (Datatypes.S l) - 1))) + k * A))
          (u64 (phys + k * A)) fl (Z.of_nat sz) s) s' with
  | Ret s'' => exists tabs'', inv s'' tabs'' /\ keeps sz tabs' tabs'' /\ split_upto M s'' /\
      split_paths M tabs'' /\ uses (split_tables M) s2 s''
  | Panic => ~ can_serve (split_tables M) s2
  | Diverge => False
  end.
Proof.
  revert k s' tabs'; induction d as [|d IH]; intros k s' tabs' Hk Hd HI Hup Hpa Hu; cbn [for_each].
  { exists tabs'. replace M with k by lia. split_and!; (done || apply keeps_refl). }
  pose proof (split_step k s2 s' tabs' ltac:(lia) HI Hup Hpa Hu) as Hs.
  destruct (remap _ _ _ _ _) as [s1| |]; cbn [mbind outcome_bind]; [| |done].
  2:{ eapply serve_panic_le; [|exact Hs]. apply split_tables_le. lia. }
  destruct Hs as (tabs1 & HI1 & Hk1 & Hup1 & Hpa1 & Hu1).
  specialize (IH (k + 1) s1 tabs1 ltac:(lia) ltac:(lia) HI1 Hup1 Hpa1 Hu1).
  destruct (for_each _ _ _ _) as [s3| |]; [|done..]. destruct IH as (tabs2 & ? & ? & ? & ? & ?).
  exists tabs2. split_and!; try done. by eapply keeps_trans.
Qed.
End split.

(** * [get_next_level] *)

(** [n] translates as before, by the same page or by one of size [sz]. *)
Definition refines (sz : nat) (s s' : S) (n : Z) : Prop :=
  strip (translate s' n) = strip (translate s n) /\
  (translate s' n = translate s n \/ exists a fl, translate s' n = Some (a, fl, sz)).
Definition same_map (sz : nat) (s s' : S) : Prop := forall n, in_space n -> refines sz s s' n.
Definition same_walks (s s' : S) : Prop := forall n, in_space n -> translate s' n = translate s n.

(** The tables a split takes below its own, at most. *)
Definition split_cost (l sz : nat) : nat := (l - sz) * Z.to_nat (512 ^ Z.of_nat (l - sz)).

Lemma split_tables_cost l sz : (sz <= l)%nat -> split_tables l sz (512 ^ Z.of_nat (Datatypes.S l - sz)) = split_cost l sz.
Proof.
  intros Hsz. unfold split_tables, split_cost. do 2 f_equal.
  replace (Datatypes.S l - sz)%nat with (Datatypes.S (l - sz)) by lia. rewrite Nat2Z.inj_succ, Z.pow_succ_r by lia.
  symmetry. apply (Z.div_unique _ _ _ 511); lia.
Qed.
Lemma split_cost_le l l' sz : (l <= l')%nat -> (split_cost l sz <= split_cost l' sz)%nat.
Proof.
  intros Hl. unfold split_cost. apply Nat.mul_le_mono; [lia |]. apply Z2Nat.inj_le; [lia.. |].
  apply Z.pow_le_mono_r; lia.
Qed.

(** Either nothing was split, or the page of [n] now has the size asked for. *)
Definition next_post (s : S) (tabs : tables) (l sz : nat) (n : Z) (r : Z * S) : Prop :=
  exists tabs', inv r.2 tabs' /\ keeps sz tabs tabs' /\ tabs' l (n / size (Datatypes.S l)) = Some r.1 /\
    ((same_walks s r.2 /\ uses 1 s r.2) \/
     (~ plain s sz n /\ same_map sz s r.2 /\ plain r.2 sz n /\ path tabs' sz n /\
      Z.of_nat (Datatypes.S l) < VMM_MAX_LEVEL /\ uses (1 + split_cost l sz) s r.2)).
Definition next_panic (s : S) (l sz : nat) (n : Z) : Prop :=
  ~ can_serve 1 s \/ (~ plain s sz n /\
    (unsplittable s sz n \/ (Z.of_nat (Datatypes.S l) < VMM_MAX_LEVEL /\ ~ can_serve (1 + split_cost l sz) s))).

Section next.
Context (remap : Z -> Z -> Z -> Z -> S -> outcome S) (l sz : nat) (virt : Z) (s : S) (tabs : tables) (t : Z).
Hypothesis (HI : inv s tabs) (Hsz : (sz <= l)%nat) (Hvirt : is_u64 virt).
Hypothesis (Ht : tabs (Datatypes.S l) (vn virt / size (Datatypes.S (Datatypes.S l))) = Some t).
Notation n := (vn virt).
Notation i := (idx (Datatypes.S l) n).
Notation next := (get_next_level remap s t virt (Z.of_nat sz) (Z.of_nat (Datatypes.S l)) i).

Lemma next_level_lt : (Datatypes.S l < L)%nat.
Proof. by destruct (i_page _ _ _ _ _ HI _ _ _ Ht) as (_ & _ & ?). Qed.

(** Allocating the table and writing its entry. *)
Lemma next_alloc (o : Z * S -> outcome (Z * S)) (P : outcome (Z * S) -> Prop) :
  tabs l (n / size (Datatypes.S l)) = None ->
  (forall q s1, inv (write_entry s1 t i (tab q)) (link tabs l (n / size (Datatypes.S l)) q) ->
     (forall n', in_space n' -> translate (write_entry s1 t i (tab q)) n' =
        if n' / size (Datatypes.S l) =? n / size (Datatypes.S l) then None else translate s n') ->
     uses 1 s (write_entry s1 t i (tab q)) ->
     P (o (q, s1))) ->
  (~ can_serve 1 s -> P Panic) ->
  P (alloc_table s ≫= o).
Proof.
  intros Hnone Hgo Hpanic. pose proof (al_alloc s (i_ok _ _ _ _ _ HI)) as Ha.
  pose proof (idx_range (Datatypes.S l) n) as Hi. pose proof (block_index (Datatypes.S l) n) as Hb.
  rewrite Hb in Hnone, Hgo.
  destruct (alloc_table s) as [[q s1]| |] eqn:Ea; cbn [mbind outcome_bind]; [| |done].
  - destruct Ha as (Hok & Hh & Hpg & Hkeep & Hram). apply Hgo.
    + by apply (add_inv L nroots root HL s s1 tabs l).
    + intros n' Hn'. by apply (add_translate L nroots root HL s s1 tabs l).
    + apply (uses_trans 1 0 s s1); [by eapply uses_alloc | apply uses_write].
  - apply Hpanic. by apply alloc_panic.
Qed.

Lemma next_empty :
  read_entry s t i = 0 -> tabs l (n / size (Datatypes.S l)) = None ->
  match next with
  | Ret r => next_post s tabs l sz n r | Panic => next_panic s l sz n | Diverge => False
  end.
Proof.
  intros He Hnone. unfold get_next_level. rewrite He, hw_empty_table, hw_empty_large.
  apply next_alloc; [done | | by left].
  intros q s1 HI2 Htr Hu. cbn [fst snd]. eexists. split_and!; [exact HI2 | by apply keeps_link | apply link_same |].
  left. split; [|done].
  intros n' Hn'. rewrite Htr by done. destruct (Z.eqb_spec (n' / size (Datatypes.S l)) (n / size (Datatypes.S l))) as [Heq|]; [|done].
  symmetry. rewrite (reach L nroots root HL s tabs (Datatypes.S l) n' t HI Hn') by (rewrite !div_size_S in *; by rewrite Heq).
  apply walk_invalid. assert (idx (Datatypes.S l) n' = i) as -> by (unfold idx; by rewrite Heq).
  rewrite He. apply hw_empty.
Qed.

(** The table exists already. *)
Lemma next_known q : tabs l (n / size (Datatypes.S l)) = Some q -> next = Ret (q, s).
Proof.
  intros Hq. pose proof (idx_range (Datatypes.S l) n) as Hi. rewrite block_index in Hq.
  destruct (i_entry _ _ _ _ _ HI _ _ _ _ Ht Hi) as [_ Hno|phys fl _ _ Hno|l' q' [= <-] Hq' He].
  1, 2: rewrite Hno in Hq by done; discriminate.
  rewrite Hq in Hq'. injection Hq' as <-. destruct (i_page _ _ _ _ _ HI _ _ _ Hq) as (Hpg & _).
  destruct (hw_table l q Hpg) as (_ & Hit & Hpa & _). unfold get_next_level. rewrite He. unfold tab. by rewrite Hit, Hpa.
Qed.

(** The large page's own translations, before and after the split. *)
Lemma large_translate phys fl n' :
  read_entry s t i = leaf (Datatypes.S l) phys fl -> ok_leaf (Datatypes.S l) phys fl ->
  in_space n' -> n' / size (Datatypes.S l) = n / size (Datatypes.S l) ->
  translate s n' = Some (phys + n' mod size (Datatypes.S l), fl, Datatypes.S l).
Proof.
  intros He Hok Hn' Heq.
  rewrite (reach L nroots root HL s tabs (Datatypes.S l) n' t HI Hn') by (rewrite !div_size_S in *; by rewrite Heq).
  apply walk_page. assert (idx (Datatypes.S l) n' = i) as -> by (unfold idx; by rewrite Heq).
  rewrite He. by apply hw_leaf.
Qed.

Lemma split_done phys fl s3 :
  read_entry s t i = leaf (Datatypes.S l) phys fl -> ok_leaf (Datatypes.S l) phys fl ->
  split_upto l sz virt phys fl s (512 ^ Z.of_nat (Datatypes.S l - sz)) s3 ->
  same_map sz s s3 /\ plain s3 sz n.
Proof.
  intros He Hok Hup. pose proof (Hvn_space virt Hvirt) as Hn.
  assert (Hlast : forall n', in_space n' -> n' / size (Datatypes.S l) = n / size (Datatypes.S l) ->
    translate s3 n' = Some (phys + n' mod size (Datatypes.S l), fl, sz)).
  { intros n' Hn' Heq. rewrite Hup, Heq, Z.eqb_refl by done.
    pose proof (size_pos sz). pose proof (size_pos (Datatypes.S l)).
    assert (n' mod size (Datatypes.S l) / size sz < 512 ^ Z.of_nat (Datatypes.S l - sz)).
    { apply Z.div_lt_upper_bound; [lia |]. rewrite <- size_le by lia. apply Z.mod_pos_bound. lia. }
    by rewrite (proj2 (Z.ltb_lt _ _)) by lia. }
  split.
  - intros n' Hn'. destruct (Z.eq_dec (n' / size (Datatypes.S l)) (n / size (Datatypes.S l))) as [Heq|Hne].
    + unfold refines. rewrite (Hlast n' Hn' Heq), (large_translate phys fl n' He Hok Hn' Heq). split; [done | eauto].
    + unfold refines. rewrite Hup, (proj2 (Z.eqb_neq _ _) Hne) by done. auto.
  - intros a f l0 Hx. rewrite (Hlast n Hn eq_refl) in Hx. by simplify_eq.
Qed.

(** The tables for [n] exist once its block is split. *)
Lemma split_paths_here tabs' :
  split_paths l sz virt (512 ^ Z.of_nat (Datatypes.S l - sz)) tabs' -> path tabs' sz n.
Proof.
  intros [_ Hps]. pose proof (size_pos sz) as HA. pose proof (size_le (Datatypes.S l) sz ltac:(lia)) as Hsize.
  set (M := 512 ^ Z.of_nat (Datatypes.S l - sz)) in *. assert (HM : 0 < M) by (unfold M; lia).
  pose proof (Z.mod_pos_bound n (size (Datatypes.S l)) (size_pos _)) as Hmod.
  set (j := n mod size (Datatypes.S l) / size sz).
  assert (Hj : 0 <= j < M) by (unfold j; split; [apply Z.div_pos; lia | apply Z.div_lt_upper_bound; lia]).
  eapply path_same; [|apply (Hps j Hj)]. apply div_size_le with sz; [lia |].
  rewrite Hsize. symmetry. apply (subblock (size sz) M n _ j HA HM Hj). rewrite <- Hsize. done.
Qed.

Lemma next_large phys fl :
  remap_ok remap sz -> (Z.of_nat sz < VMM_MAX_LEVEL) -> path tabs (Datatypes.S l) n ->
  read_entry s t i = leaf (Datatypes.S l) phys fl -> ok_leaf (Datatypes.S l) phys fl ->
  tabs l (n / size (Datatypes.S l)) = None ->
  match next with
  | Ret r => next_post s tabs l sz n r | Panic => next_panic s l sz n | Diverge => False
  end.
Proof.
  intros Hremap Hszmax Hpath He Hok Hnone. pose proof next_level_lt as HlL. pose proof (Hvn_space virt Hvirt) as Hn.
  destruct (hw_large l phys fl Hok) as (Hit & Hil & Hmax & Hal & Hcase).
  pose proof (large_translate phys fl n He Hok Hn eq_refl) as Htr.
  assert (Hnp : ~ plain s sz n) by (intros Hpl; specialize (Hpl _ _ _ Htr); lia).
  unfold get_next_level. rewrite He, Hit, Hil. cbv zeta.
  assert (Hc1 : (Z.of_nat (Datatypes.S l) >=? VMM_MAX_LEVEL) || (Z.of_nat (Datatypes.S l) =? 0) = false).
  { destruct (Z.geb_spec (Z.of_nat (Datatypes.S l)) VMM_MAX_LEVEL); [lia |]. simpl orb. lia. }
  assert (Hc2 : (Z.of_nat sz >=? VMM_MAX_LEVEL) = false) by lia.
  rewrite Hc1, Hc2, !page_sizes_size by lia.
  destruct Hcase as [Hbad|[Hpa Hfl]].
  { rewrite (proj2 (Z.eqb_neq _ 0) Hbad). right. split; [done |]. left.
    exists phys, fl, (Datatypes.S l). split_and!; [done | lia | done]. }
  rewrite Hpa, Hfl, land_size_mask, Hal. cbn [Z.eqb negb].
  apply next_alloc; [done | | by left].
  intros q s1 HI2 Htr2 Hu1. rewrite iterations_size by lia.
  set (s2 := write_entry s1 t i (tab q)) in *. fold (tab q). fold s2.
  assert (Hup : split_upto l sz virt phys fl s 0 s2).
  { intros n' Hn'. rewrite Htr2 by done. case_if; [|done].
    assert (0 <= n' mod size (Datatypes.S l) / size sz).
    { pose proof (size_pos sz). pose proof (size_pos (Datatypes.S l)).
      apply Z.div_pos; [apply Z.mod_pos_bound; lia | lia]. }
    by rewrite (proj2 (Z.ltb_ge _ 0)) by lia. }
  assert (Hpaths : split_paths l sz virt 0 (link tabs l (n / size (Datatypes.S l)) q)).
  { split; [|lia]. eapply path_down; [apply link_same |]. eapply (path_keeps L sz); [by apply keeps_link | lia | done]. }
  assert (Hu0 : uses (split_tables l sz 0) s2 s2).
  { unfold split_tables. change (Z.to_nat ((0 + 511) / 512)) with O. rewrite Nat.mul_0_r. apply uses_refl. }
  pose proof (split_loop remap l sz virt phys fl s Hremap Hsz HlL Hvirt Hok
    (Z.to_nat (512 ^ Z.of_nat (Datatypes.S l - sz))) 0 s2 s2 _ ltac:(lia) ltac:(lia) HI2 Hup Hpaths Hu0) as Hloop.
  rewrite split_tables_cost in Hloop by done.
  destruct (for_each _ _ _ _) as [s3| |]; cbn [mbind outcome_bind]; [| |done].
  - destruct Hloop as (tabs3 & HI3 & Hk3 & Hup3 & Hpa3 & Hu3). exists tabs3. cbn [fst snd]. split_and!; [done | | |].
    + eapply keeps_trans; [by apply keeps_link | exact Hk3].
    + apply Hk3; [lia |]. apply link_same.
    + right. destruct (split_done phys fl s3 He Hok Hup3). split_and!; try done; [by apply split_paths_here |].
      by eapply uses_trans.
  - right. split; [done |]. right. split; [done |]. by eapply uses_panic.
Qed.

Lemma next_lemma :
  plain s sz n \/ (remap_ok remap sz /\ Z.of_nat sz < VMM_MAX_LEVEL /\ path tabs (Datatypes.S l) n) ->
  tabs l (n / size (Datatypes.S l)) = None ->
  match next with
  | Ret r => next_post s tabs l sz n r | Panic => next_panic s l sz n | Diverge => False
  end.
Proof.
  intros Hor Hnone. pose proof (idx_range (Datatypes.S l) n) as Hi. pose proof (block_index (Datatypes.S l) n) as Hb.
  destruct (i_entry _ _ _ _ _ HI _ _ _ _ Ht Hi) as [He Hno|phys fl He Hok Hno|l' q [= <-] Hq He].
  - by apply next_empty.
  - destruct Hor as [Hpl|(Hr & Hm & Hp)].
    + exfalso. pose proof (large_translate phys fl n He Hok (Hvn_space virt Hvirt) eq_refl) as Htr.
      apply Hpl in Htr. lia.
    + by apply (next_large phys fl).
  - rewrite <- Hb in Hq. congruence.
Qed.
End next.

(** * The descent *)

(** From the table [t] of level [l] down to the page's level. *)
Fixpoint descend (l : nat) (remap : Z -> Z -> Z -> Z -> S -> outcome S) (sz : nat) (t virt phys fl : Z) (s : S)
    : outcome S :=
  if (l =? sz)%nat then Ret (write_entry s t (idx l (vn virt)) (leaf l phys fl))
  else match l with
       | O => Diverge
       | Datatypes.S l' =>
           '(t, s) ← get_next_level remap s t virt (Z.of_nat sz) (Z.of_nat l) (idx l (vn virt));
           descend l' remap sz t virt phys fl s
       end.

(** The tables any split on the way takes, at most. *)
Definition split_max (sz : nat) : nat := split_cost (Z.to_nat VMM_MAX_LEVEL - 2) sz.
(** The allocator cannot serve [c] tables, or the page in the way cannot be split. *)
Definition may_panic (c : nat) (s : S) (sz : nat) (n : Z) : Prop := ~ can_serve c s \/ unsplittable s sz n.

Lemma plain_same s s' sz n : in_space n -> same_walks s s' -> plain s sz n -> plain s' sz n.
Proof. intros Hn Hs Hp a fl l Htr. rewrite Hs in Htr by done. eauto. Qed.
Lemma may_panic_same a b c s s' sz n :
  in_space n -> same_walks s s' -> uses a s s' -> (a + b <= c)%nat -> may_panic b s' sz n -> may_panic c s sz n.
Proof.
  intros Hn Hs Hu Hle [Ha|(phys & fl & l & Htr & Hx)].
  - left. eapply serve_panic_le; [exact Hle |]. by eapply uses_panic.
  - right. rewrite Hs in Htr by done. by exists phys, fl, l.
Qed.

Lemma descend_here remap l sz t virt phys fl s tabs h :
  l = sz -> inv s tabs -> is_u64 virt -> ok_leaf sz phys fl -> tabs l (vn virt / size (Datatypes.S l)) = Some t ->
  (h <= l)%nat -> path tabs h (vn virt) ->
  exists s' tabs', descend l remap sz t virt phys fl s = Ret s' /\ inv s' tabs' /\ keeps sz tabs tabs' /\
    mapped s s' sz (vn virt) phys fl /\ path tabs' sz (vn virt) /\ uses 0 s s'.
Proof.
  intros -> HI Hv Hok Ht Hh Hp. pose proof (idx_range sz (vn virt)) as Hi. pose proof (block_index sz (vn virt)) as Hb.
  eexists _, _. split; [destruct sz; cbn [descend]; rewrite Nat.eqb_refl; reflexivity |].
  split; [by apply (set_leaf_inv L nroots root HL s tabs sz _ t _ HI Ht Hi) |]. split; [apply keeps_prune |].
  split_and!; [| |apply uses_write].
  - intros n' Hn'. rewrite (set_leaf_translate L nroots root HL s tabs sz _ t _ HI Ht Hi) by done. by rewrite Hb.
  - eapply path_keeps; [apply keeps_prune | done |]. by eapply path_up.
Qed.

Lemma descend_step l remap sz t virt phys fl s :
  (sz < Datatypes.S l)%nat ->
  descend (Datatypes.S l) remap sz t virt phys fl s =
    ('(t, s) ← get_next_level remap s t virt (Z.of_nat sz) (Z.of_nat (Datatypes.S l)) (idx (Datatypes.S l) (vn virt));
     descend l remap sz t virt phys fl s).
Proof. intros Hl. cbn [descend]. by rewrite (proj2 (Nat.eqb_neq (Datatypes.S l) sz)) by lia. Qed.

(** Nothing to split on the way. *)
Lemma descend_plain l remap sz t virt phys fl s tabs h :
  inv s tabs -> (sz <= h <= l)%nat -> is_u64 virt -> ok_leaf sz phys fl ->
  tabs l (vn virt / size (Datatypes.S l)) = Some t -> plain s sz (vn virt) -> path tabs h (vn virt) ->
  match descend l remap sz t virt phys fl s with
  | Ret s' => exists tabs', inv s' tabs' /\ keeps sz tabs tabs' /\ mapped s s' sz (vn virt) phys fl /\
      path tabs' sz (vn virt) /\ uses (h - sz) s s'
  | Panic => ~ can_serve (h - sz) s
  | Diverge => False
  end.
Proof.
  revert t s tabs h; induction l as [|l IH]; intros t s tabs h HI Hl Hv Hok Ht Hp Hpath.
  { destruct (descend_here remap 0 sz t virt phys fl s tabs h) as (s' & tabs' & -> & ? & ? & ? & ? & ?); try done; try lia.
    exists tabs'. replace (h - sz)%nat with O by lia. done. }
  destruct (decide (sz = Datatypes.S l)) as [->|Hne].
  { destruct (descend_here remap (Datatypes.S l) (Datatypes.S l) t virt phys fl s tabs h)
      as (s' & tabs' & -> & ? & ? & ? & ? & ?); try done; try lia.
    exists tabs'. replace (h - Datatypes.S l)%nat with O by lia. done. }
  rewrite descend_step by lia. pose proof (Hvn_space virt Hv) as Hn.
  destruct (i_page _ _ _ _ _ HI _ _ _ Ht) as (_ & _ & HlL).
  destruct (tabs l (vn virt / size (Datatypes.S l))) as [q|] eqn:Eq.
  { rewrite (next_known remap l sz virt s tabs t HI Ht q Eq). cbn [mbind outcome_bind].
    specialize (IH q s tabs (Nat.min h l) HI ltac:(lia) Hv Hok Eq Hp ltac:(eapply path_next; [done | lia | done])).
    destruct (descend _ _ _ _ _ _ _ _) as [s2| |]; [| |done].
    - destruct IH as (tabs2 & ? & ? & ? & ? & Hu). exists tabs2. split_and!; try done. eapply uses_le; [|exact Hu]. lia.
    - eapply serve_panic_le; [|exact IH]. lia. }
  assert (h = Datatypes.S l) as -> by (eapply (path_missing L); [done | lia | lia | done]).
  pose proof (next_lemma remap l sz virt s tabs t HI ltac:(lia) Hv Ht (or_introl Hp) Eq) as Hnx.
  destruct (get_next_level _ _ _ _ _ _ _) as [[t1 s1]| |]; cbn [mbind outcome_bind]; [| |done].
  2:{ destruct Hnx as [Hc|[? _]]; [|done]. eapply serve_panic_le; [|exact Hc]. lia. }
  destruct Hnx as (tabs1 & HI1 & Hk1 & Ht1 & [[Hw Hu1]|(Hnp & _)]); [|done]. cbn [fst snd] in *.
  assert (Hp1 : path tabs1 l (vn virt)) by (eapply path_down; [done |]; eapply path_keeps; [done | lia | done]).
  specialize (IH t1 s1 tabs1 l HI1 ltac:(lia) Hv Hok Ht1 (plain_same _ _ _ _ Hn Hw Hp) Hp1).
  replace (Datatypes.S l - sz)%nat with (1 + (l - sz))%nat by lia.
  destruct (descend _ _ _ _ _ _ _ _) as [s2| |]; [| by eapply uses_panic | done].
  destruct IH as (tabs2 & HI2 & Hk2 & Hm & Hp2 & Hu2). exists tabs2. split_and!; [done | | | done |].
  - by eapply keeps_trans.
  - intros n' Hn'. rewrite Hm by done. case_if; [done | by apply Hw].
  - by eapply uses_trans.
Qed.

(** One page of level [sz] for the block of [n]; every other address translates as before. *)
Definition mapped_over (s s' : S) (sz : nat) (n phys fl : Z) : Prop :=
  forall n', in_space n' ->
    if n' / size sz =? n / size sz then translate s' n' = Some (phys + n' mod size sz, fl, sz)
    else refines sz s s' n'.

Lemma mapped_mapped_over s s1 s' sz n phys fl :
  mapped s1 s' sz n phys fl -> same_map sz s s1 -> mapped_over s s' sz n phys fl.
Proof.
  intros Hm Hs n' Hn'. specialize (Hm n' Hn'). case_if; [done |]. specialize (Hs n' Hn').
  unfold refines in *. by rewrite Hm.
Qed.
Lemma mapped_over_same s s1 s' sz n phys fl :
  same_walks s s1 -> mapped_over s1 s' sz n phys fl -> mapped_over s s' sz n phys fl.
Proof.
  intros Hw Hm n' Hn'. specialize (Hm n' Hn'). case_if; [done |]. unfold refines in *. by rewrite <- (Hw n' Hn').
Qed.
Lemma same_walks_map sz s s' : same_walks s s' -> same_map sz s s'.
Proof. intros Hw n Hn. unfold refines. rewrite Hw by done. auto. Qed.

Definition over_post (s : S) (tabs : tables) (c sz : nat) (n phys fl : Z) (r : outcome S) : Prop :=
  match r with
  | Ret s' => exists tabs', inv s' tabs' /\ keeps sz tabs tabs' /\ mapped_over s s' sz n phys fl /\
      path tabs' sz n /\ uses c s s'
  | Panic => may_panic c s sz n
  | Diverge => False
  end.

Lemma over_post_same s s1 tabs tabs1 a b c sz n phys fl r :
  in_space n -> same_walks s s1 -> uses a s s1 -> (a + b <= c)%nat -> keeps sz tabs tabs1 ->
  over_post s1 tabs1 b sz n phys fl r -> over_post s tabs c sz n phys fl r.
Proof.
  intros Hn Hw Hu Hle Hk. unfold over_post. destruct r as [s'| |]; [|by eapply may_panic_same|done].
  intros (tabs' & ? & ? & ? & ? & ?). exists tabs'. split_and!; try done.
  - by eapply keeps_trans.
  - by eapply mapped_over_same.
  - eapply uses_le; [exact Hle |]. by eapply uses_trans.
Qed.

Lemma descend_lemma l remap sz t virt phys fl s tabs h :
  inv s tabs -> (sz <= h <= l)%nat -> is_u64 virt -> ok_leaf sz phys fl ->
  tabs l (vn virt / size (Datatypes.S l)) = Some t -> path tabs h (vn virt) ->
  remap_ok remap sz -> Z.of_nat sz < VMM_MAX_LEVEL ->
  over_post s tabs (h - sz + split_max sz) sz (vn virt) phys fl (descend l remap sz t virt phys fl s).
Proof.
  intros HI Hl Hv Hok Ht Hpath Hr Hmax. pose proof (Hvn_space virt Hv) as Hn.
  revert t s tabs h HI Hl Ht Hpath; induction l as [|l IH]; intros t s tabs h HI Hl Ht Hpath.
  { destruct (descend_here remap 0 sz t virt phys fl s tabs h) as (s' & tabs' & -> & ? & ? & ? & ? & Hu); try done; try lia.
    exists tabs'. split_and!; try done; [eapply mapped_mapped_over; [done |]; by apply same_walks_map |].
    eapply uses_le; [|exact Hu]. lia. }
  destruct (decide (sz = Datatypes.S l)) as [->|Hne].
  { destruct (descend_here remap (Datatypes.S l) (Datatypes.S l) t virt phys fl s tabs h)
      as (s' & tabs' & -> & ? & ? & ? & ? & Hu); try done; try lia.
    exists tabs'. split_and!; try done; [eapply mapped_mapped_over; [done |]; by apply same_walks_map |].
    eapply uses_le; [|exact Hu]. lia. }
  rewrite descend_step by lia. destruct (i_page _ _ _ _ _ HI _ _ _ Ht) as (_ & _ & HlL).
  destruct (tabs l (vn virt / size (Datatypes.S l))) as [q|] eqn:Eq.
  { rewrite (next_known remap l sz virt s tabs t HI Ht q Eq). cbn [mbind outcome_bind].
    eapply (over_post_same s s tabs tabs 0); [done | done | apply uses_refl | | apply keeps_refl |
      apply (IH q s tabs (Nat.min h l) HI ltac:(lia) Eq ltac:(eapply path_next; [done | lia | done]))]. lia. }
  assert (h = Datatypes.S l) as -> by (eapply (path_missing L); [done | lia | lia | done]).
  assert (Hcost : Z.of_nat (Datatypes.S l) < VMM_MAX_LEVEL -> (split_cost l sz <= split_max sz)%nat).
  { intros Hx. apply split_cost_le. pose proof hw_max. lia. }
  pose proof (next_lemma remap l sz virt s tabs t HI ltac:(lia) Hv Ht (or_intror (conj Hr (conj Hmax Hpath))) Eq) as Hnx.
  destruct (get_next_level _ _ _ _ _ _ _) as [[t1 s1]| |]; cbn [mbind outcome_bind]; [| |done].
  2:{ destruct Hnx as [Hc|[_ [Hc|[Hx Hc]]]]; [left | by right | left]; (eapply serve_panic_le; [|exact Hc]).
      - lia.
      - specialize (Hcost Hx). lia. }
  destruct Hnx as (tabs1 & HI1 & Hk1 & Ht1 & Hcase); cbn [fst snd] in *.
  assert (Hp1 : path tabs1 l (vn virt)) by (eapply path_down; [done |]; eapply path_keeps; [done | lia | done]).
  destruct Hcase as [[Hw Hu1]|(Hnp & Hsm & Hpl & Hpz & Hx & Hu1)].
  - eapply (over_post_same s s1 tabs tabs1 1); [done | done | done | | done | apply (IH t1 s1 tabs1 l HI1 ltac:(lia) Ht1 Hp1)]. lia.
  - pose proof (descend_plain l remap sz t1 virt phys fl s1 tabs1 sz HI1 ltac:(lia) Hv Hok Ht1 Hpl Hpz) as Hd.
    specialize (Hcost Hx). rewrite Nat.sub_diag in Hd.
    destruct (descend _ _ _ _ _ _ _ _) as [s2| |]; [| by destruct Hd |done].
    destruct Hd as (tabs2 & HI2 & Hk2 & Hm & Hp2 & Hu2). exists tabs2.
    split_and!; [done | by eapply keeps_trans | by eapply mapped_mapped_over | done |].
    eapply uses_le; [|by eapply uses_trans]. lia.
Qed.

(** * A large page made of smaller ones *)

Definition remap_over (remap : Z -> Z -> Z -> Z -> S -> outcome S) (sz : nat) : Prop :=
  forall s tabs virt phys fl h, inv s tabs -> is_u64 virt -> ok_leaf sz phys fl ->
  (sz <= h < L)%nat -> path tabs h (vn virt) ->
  over_post s tabs (h - sz + split_max sz) sz (vn virt) phys fl (remap virt phys fl (Z.of_nat sz) s).

Section emulate.
Context (remap : Z -> Z -> Z -> Z -> S -> outcome S) (sz : nat) (virt phys fl : Z) (s : S).
Notation l := (Datatypes.S sz).
Hypothesis (Hremap : remap_over remap sz) (HlL : (l < L)%nat).
Hypothesis (Hvirt : is_u64 virt) (Haligned : virt mod size l = 0) (Hleaf : ok_leaf l phys fl).
Hypothesis (Hl64 : 12 + 9 * Z.of_nat l <= 64).

Notation A := (size sz).

(** After [k] of the smaller pages. *)
Definition emulated (k : Z) (s' : S) : Prop :=
  forall n, in_space n ->
    if (n / size l =? vn virt / size l) && (n mod size l / A <? k)
    then translate s' n = Some (phys + n mod size l, fl, sz) else refines sz s s' n.
(** One table for the block, and what the pages in the way cost. *)
Definition emulate_tables (k : Z) : nat := 1 + Z.to_nat k * split_max sz.
Definition emulate_path (k : Z) (tabs' : tables) : Prop :=
  path tabs' (if k =? 0 then l else sz) (vn virt).
(** The allocator, or some address of the block is on a page that cannot be split. *)
Definition may_panic_block (c : nat) (s1 : S) : Prop :=
  ~ can_serve c s1 \/ exists n, in_space n /\ n / size l = vn virt / size l /\ unsplittable s sz n.

Lemma emulate_virt off : 0 <= off < size l -> vn (u64 (virt + off)) = vn virt / size l * size l + off.
Proof.
  intros Hoff. rewrite <- Hvn_block by done. do 3 f_equal. unfold size. rewrite land_clear by (done || lia).
  fold (size l). apply Z.div_exact in Haligned; [|pose proof (size_pos l); lia]. lia.
Qed.

(** What one page does to the pages before and after it. *)
Lemma emulated_step k s' s'' v :
  0 <= k < 512 -> vn v = vn virt / size l * (A * 512) + k * A -> emulated k s' ->
  mapped_over s' s'' sz (vn v) (phys + k * A) fl -> emulated (k + 1) s''.
Proof.
  intros Hk Hvn Hup Hm n Hn. pose proof (size_pos sz) as HA. pose proof (size_S sz) as Hsize.
  specialize (Hm n Hn). specialize (Hup n Hn). rewrite Hvn in Hm.
  pose proof (subblock A 512 n (vn virt / size l) k HA ltac:(lia) Hk) as Hsub.
  pose proof (mod_subblock A 512 n HA ltac:(lia)) as Hmod. rewrite <- Hsize in Hmod, Hsub, Hm.
  destruct (Z.eqb_spec (n / A) ((vn virt / size l * size l + k * A) / A)) as [Heq|Hne].
  - apply Hsub in Heq as [-> Hq]. rewrite Z.eqb_refl, (proj2 (Z.ltb_lt _ (k + 1))) by lia. simpl.
    rewrite Hm. do 3 f_equal. rewrite Hmod, Hq. lia.
  - assert (Htrans : refines sz s s' n -> refines sz s s'' n).
    { intros [Hst' Hor']. destruct Hm as [Hst Hor]. split; [congruence |]. destruct Hor as [->|]; [done | by right]. }
    destruct (Z.eqb_spec (n / size l) (vn virt / size l)) as [Hb|]; simpl in *; [|auto].
    assert (n mod size l / A <> k) by (intros Hq; apply Hne, Hsub; done).
    assert ((n mod size l / A <? k + 1) = (n mod size l / A <? k)) as -> by lia.
    destruct (n mod size l / A <? k); [|auto].
    destruct Hm as [Hst [->|(a & f & Hx)]]; [done |]. rewrite Hx, Hup in *. simpl in Hst. by simplify_eq.
Qed.

Lemma emulate_step k s1 s' tabs' :
  0 <= k < 512 -> inv s' tabs' -> emulated k s' -> emulate_path k tabs' ->
  uses (if k =? 0 then 0 else emulate_tables k) s1 s' ->
  match remap (u64 (virt + k * A)) (u64 (phys + k * A)) fl (Z.of_nat sz) s' with
  | Ret s'' => exists tabs'', inv s'' tabs'' /\ emulated (k + 1) s'' /\ emulate_path (k + 1) tabs'' /\
      uses (emulate_tables (k + 1)) s1 s''
  | Panic => may_panic_block (emulate_tables (k + 1)) s1
  | Diverge => False
  end.
Proof.
  intros Hk HI Hup Hpath Hu. pose proof (size_pos sz) as HA. pose proof (size_S sz) as Hsize.
  assert (Hoff : 0 <= k * A < size l) by (rewrite Hsize; nia).
  destruct (hw_phys _ _ _ Hleaf) as [Hp0 Hp1]. rewrite (u64_small (phys + k * A)) by lia.
  assert (Hok : ok_leaf sz (phys + k * A) fl)
    by (apply (hw_split l); [done | lia | lia | rewrite Hsize; nia]).
  set (v := u64 (virt + k * A)). assert (Hv : is_u64 v) by apply u64_bound.
  assert (Hvn : vn v = vn virt / size l * (A * 512) + k * A) by (unfold v; rewrite emulate_virt, Hsize by done; done).
  pose proof (subblock A 512 (vn v) (vn virt / size l) k HA ltac:(lia) Hk) as Hsub. rewrite <- Hsize in Hsub.
  pose proof (Hvn_space v Hv) as Hvs. destruct (proj1 Hsub ltac:(by rewrite Hvn, <- Hsize)) as [E1 E2].
  set (h := if k =? 0 then l else sz). assert (Hh : (sz <= h <= l)%nat) by (unfold h; case_if; lia).
  assert (Hcost : forall c, c = (if k =? 0 then O else emulate_tables k) ->
    (c + (h - sz + split_max sz) <= emulate_tables (k + 1))%nat).
  { intros c ->. unfold h, emulate_tables. rewrite Z2Nat.inj_add by lia. destruct (k =? 0); lia. }
  specialize (Hcost _ eq_refl).
  assert (Hpv : path tabs' h (vn v)).
  { apply (path_same L tabs' h (vn virt)); [|exact Hpath]. symmetry. eapply div_size_le; [|exact E1]. lia. }
  specialize (Hremap s' tabs' v (phys + k * A) fl h HI Hv Hok ltac:(lia) Hpv).
  destruct (remap _ _ _ _ _) as [s''| |]; [| |done].
  - destruct Hremap as (tabs'' & HI'' & _ & Hm & Hp'' & Hu''). exists tabs''. split_and!; [done | | |].
    + by eapply emulated_step.
    + unfold emulate_path. rewrite (proj2 (Z.eqb_neq (k + 1) 0)) by lia.
      apply (path_same L tabs'' sz (vn v)); [exact E1 | done].
    + eapply uses_le; [exact Hcost |]. by eapply uses_trans.
  - destruct Hremap as [Hc|(ph & f & l0 & Htr & Hl0 & Hbad)].
    { left. eapply serve_panic_le; [exact Hcost |]. by eapply uses_panic. }
    right. exists (vn v). split_and!; [done | done |].
    specialize (Hup _ Hvs). rewrite E1, E2, Z.eqb_refl, Z.ltb_irrefl in Hup. simpl in Hup.
    destruct Hup as [_ [Heq|(a & f' & Hx)]]; [|rewrite Hx in Htr; simplify_eq; lia].
    exists ph, f, l0. by rewrite <- Heq.
Qed.

Lemma emulate_loop d k s1 s' tabs' :
  0 <= k -> k + Z.of_nat d = 512 -> inv s' tabs' -> emulated k s' -> emulate_path k tabs' ->
  uses (if k =? 0 then 0 else emulate_tables k) s1 s' ->
  match for_each d k (fun k s => remap (u64 (virt + k * A)) (u64 (phys + k * A)) fl (Z.of_nat sz) s) s' with
  | Ret s'' => (exists tabs'', inv s'' tabs'') /\ emulated 512 s'' /\ uses (emulate_tables 512) s1 s''
  | Panic => may_panic_block (emulate_tables 512) s1
  | Diverge => False
  end.
Proof.
  revert k s' tabs'; induction d as [|d IH]; intros k s' tabs' Hk Hd HI Hup Hp Hu; cbn [for_each].
  { assert (k = 512) as -> by lia. split_and!; [by exists tabs' | done | done]. }
  pose proof (emulate_step k s1 s' tabs' ltac:(lia) HI Hup Hp Hu) as Hs.
  destruct (remap _ _ _ _ _) as [s2| |]; cbn [mbind outcome_bind]; [| |done].
  - destruct Hs as (tabs2 & HI2 & Hup2 & Hp2 & Hu2). apply (IH (k + 1) s2 tabs2); try done; try lia.
    by rewrite (proj2 (Z.eqb_neq (k + 1) 0)) by lia.
  - destruct Hs as [Hc|Hn]; [left | by right]. eapply serve_panic_le; [|exact Hc].
    unfold emulate_tables. apply Nat.add_le_mono_l, Nat.mul_le_mono_r, Z2Nat.inj_le; lia.
Qed.
End emulate.
End map.
