(* ===== verification/VmmX86.v ===== *)
(** The x86 page tables: the format's laws and the correctness of [map_page]. *)

From S2P Require Import Prelude Vmm VmmWalk VmmMap.

(** * Bits of an aligned address *)

(** An address below [2^48] that is a multiple of [2^a] only has bits of this window. *)
Definition window (a : Z) : Z := 2 ^ 48 - 2 ^ a.

Lemma window_bits a j : 0 <= a <= 48 -> 0 <= j -> Z.testbit (window a) j = (a <=? j) && (j <? 48).
Proof.
  intros Ha Hj. unfold window. replace (2 ^ 48 - 2 ^ a) with (Z.shiftl (Z.ones (48 - a)) a).
  - rewrite Z.shiftl_spec by done. destruct (decide (a <= j)).
    + rewrite (proj2 (Z.leb_le a j)) by lia. simpl.
      destruct (decide (j < 48)); [rewrite Z.ones_spec_low by lia | rewrite Z.ones_spec_high by lia]; lia.
    + rewrite Z.testbit_neg_r by lia. lia.
  - rewrite Z.shiftl_mul_pow2, Z.ones_equiv, <- Z.sub_1_r, Z.mul_sub_distr_r, <- Z.pow_add_r by lia.
    replace (48 - a + a) with 48 by lia. lia.
Qed.

Section aligned.
Context (phys a : Z).
Hypothesis (Ha : 0 <= a <= 48) (Hr : 0 <= phys < 2 ^ 48) (Hal : phys mod 2 ^ a = 0).

Lemma aligned_bit j : 0 <= j -> j < a \/ 48 <= j -> Z.testbit phys j = false.
Proof.
  intros Hj [Hlt|Hge]; [|by apply (testbit_high 48)].
  rewrite <- (Z.mod_pow2_bits_low phys a j) by lia. by rewrite Hal, Z.bits_0.
Qed.

Lemma land_window K : Z.land phys K = Z.land phys (Z.land K (window a)).
Proof.
  apply Z.bits_inj'. intros j Hj. rewrite !Z.land_spec, window_bits by lia.
  destruct (decide (a <= j < 48)); [rewrite (proj2 (Z.leb_le a j)), (proj2 (Z.ltb_lt j 48)) by lia; by rewrite andb_true_r |].
  by rewrite aligned_bit by lia.
Qed.

Lemma land_none K : Z.land K (window a) = 0 -> Z.land phys K = 0.
Proof. intros HK. by rewrite land_window, HK, Z.land_0_r. Qed.

Lemma land_all K : Z.land K (window a) = window a -> Z.land phys K = phys.
Proof.
  intros HK. rewrite land_window, HK. apply Z.bits_inj'. intros j Hj. rewrite Z.land_spec, window_bits by lia.
  destruct (decide (a <= j < 48)); [rewrite (proj2 (Z.leb_le a j)), (proj2 (Z.ltb_lt j 48)) by lia; by rewrite andb_true_r |].
  by rewrite aligned_bit by lia.
Qed.
End aligned.

Lemma lor_u64 x y : is_u64 x -> is_u64 y -> is_u64 (Z.lor x y).
Proof.
  intros Hx Hy. split; [apply Z.lor_nonneg; split; [apply Hx | apply Hy] |].
  destruct (Z.eq_dec (Z.lor x y) 0) as [->|Hne]; [lia |].
  apply Z.log2_lt_pow2; [assert (0 <= Z.lor x y) by (apply Z.lor_nonneg; split; [apply Hx | apply Hy]); lia |].
  rewrite Z.log2_lor by (apply Hx || apply Hy). unfold is_u64 in *.
  apply Z.max_lub_lt.
  - destruct (Z.eq_dec x 0) as [->|]; [done |]. apply Z.log2_lt_pow2; lia.
  - destruct (Z.eq_dec y 0) as [->|]; [done |]. apply Z.log2_lt_pow2; lia.
Qed.

(** * The x86 format *)

Section x86.
Import X86.
(** Whether the processor has the PAT, without which [map_page] drops [VMM_FLAG_FB]. *)
Context (pat : bool).

Definition mkfl (w nx fb : bool) : Z :=
  Z.lor (Z.lor (if w then VMM_FLAG_WRITE else 0) (if nx then VMM_FLAG_NOEXEC else 0))
    (if fb then VMM_FLAG_FB else 0).

(** The entry that [map_page] writes; the PAT bit of a 4 KiB page is bit 7. *)
Definition x86_leaf (l : nat) (phys fl : Z) : Z :=
  let fl := Z.lor fl PT_FLAG_VALID in
  match l with
  | O => Z.lor phys (if negb (Z.land fl (Z.shiftl 1 12) =? 0)
                     then Z.lor (Z.land fl (u64 (Z.lnot (Z.shiftl 1 12)))) (Z.shiftl 1 7) else fl)
  | S _ => Z.lor (Z.lor phys fl) PT_FLAG_LARGE
  end.

(** The processor's reading of an entry (Intel SDM volume 3, paging). *)
Definition x86_decode (l : nat) (e : Z) : decoded :=
  if negb (Z.testbit e 0) then Invalid
  else match l with
       | O => Page (Z.land e (window 12)) (mkfl (Z.testbit e 1) (Z.testbit e 63) (Z.testbit e 3 && Z.testbit e 7))
       | S _ =>
           if Z.testbit e 7 then
             if (l <=? 2)%nat
             then Page (Z.land e (window (12 + 9 * Z.of_nat l)))
                    (mkfl (Z.testbit e 1) (Z.testbit e 63) (Z.testbit e 3 && Z.testbit e 12))
             else Invalid
           else Next (Z.land e (window 12))
       end.

Definition x86_ok (l : nat) (phys fl : Z) : Prop :=
  (l <= 2)%nat /\ phys mod size l = 0 /\ 0 <= phys /\ phys + size l <= 2 ^ 48 /\
  exists w nx fb, fl = mkfl w nx fb /\ (fb = true -> pat = true).

Lemma x86_ok_range l phys fl :
  x86_ok l phys fl -> 0 <= 12 + 9 * Z.of_nat l <= 48 /\ 0 <= phys < 2 ^ 48 /\ phys mod 2 ^ (12 + 9 * Z.of_nat l) = 0.
Proof. intros (Hl & Hm & H0 & H1 & _). unfold size in *. split_and!; try lia. Qed.

Lemma x86_small_leaf phys w nx fb :
  0 <= phys < 2 ^ 48 -> phys mod 2 ^ 12 = 0 ->
  is_u64 (x86_leaf 0 phys (mkfl w nx fb)) /\ x86_decode 0 (x86_leaf 0 phys (mkfl w nx fb)) = Page phys (mkfl w nx fb).
Proof.
  intros Hr Hal. unfold x86_leaf. set (c := if negb _ then _ else _).
  assert (Hc : is_u64 c) by (destruct w, nx, fb; vm_compute; split; discriminate || reflexivity).
  split; [apply lor_u64; [unfold is_u64; lia | done] |]. unfold x86_decode.
  rewrite !Z.lor_spec, !(aligned_bit phys 12) by (done || lia).
  rewrite Z.land_lor_distr_l, (land_all phys 12) by (done || lia).
  destruct w, nx, fb; vm_compute c; cbn [orb negb andb Z.testbit Pos.testbit]; vm_compute (Z.land _ (window 12));
    rewrite ?Z.lor_0_r; reflexivity.
Qed.

Lemma x86_large_leaf l phys w nx fb :
  (l <= 1)%nat -> 0 <= phys < 2 ^ 48 -> phys mod 2 ^ (12 + 9 * Z.of_nat (S l)) = 0 ->
  let e := x86_leaf (S l) phys (mkfl w nx fb) in
  is_u64 e /\ x86_decode (S l) e = Page phys (mkfl w nx fb) /\
  PT_IS_TABLE (Z.of_nat (S l)) e = false /\ PT_IS_LARGE e = true /\
  (if fb then Z.land (pte_addr e) (size (S l) - 1) <> 0
   else pte_addr e = phys /\ PT_TO_VMM_FLAGS e = mkfl w nx false).
Proof.
  intros Hl Hr Hal e. set (a := 12 + 9 * Z.of_nat (S l)) in *.
  assert (Ha : 0 <= a <= 48) by (subst a; lia).
  assert (Hla : (l = 0%nat /\ a = 21) \/ (l = 1%nat /\ a = 30)) by (subst a; lia).
  subst e. unfold x86_leaf. rewrite <- Z.lor_assoc. set (c := Z.lor (Z.lor _ _) _).
  assert (Hlow : Z.land phys (size (S l) - 1) = 0) by (by rewrite land_size_mask).
  assert (Hc : is_u64 c) by (destruct w, nx, fb; vm_compute; split; discriminate || reflexivity).
  assert (Hnone : forall K, Z.land K (window a) = 0 -> Z.land (Z.lor phys c) K = Z.land c K).
  { intros K HK. by rewrite Z.land_lor_distr_l, (land_none phys a). }
  assert (Hfull : forall K, Z.land K (window a) = window a -> Z.land (Z.lor phys c) K = Z.lor phys (Z.land c K)).
  { intros K HK. by rewrite Z.land_lor_distr_l, (land_all phys a). }
  assert (Hbit : forall j, 0 <= j -> j < a \/ 48 <= j -> Z.testbit (Z.lor phys c) j = Z.testbit c j).
  { intros j Hj Hja. by rewrite Z.lor_spec, (aligned_bit phys a). }
  assert (Hw : Z.land c (window a) = 0 /\ Z.land PT_PADDR_MASK (window a) = window a /\
    Z.land 129 (window a) = 0 /\ (l <=? 1)%nat = true /\
    Z.land (Z.lor (Z.lor PT_FLAG_WRITE PT_FLAG_NX) VMM_FLAG_FB) (window a) = 0).
  { destruct Hla as [[-> Ea]|[-> Ea]]; rewrite Ea; destruct w, nx, fb; vm_compute; split_and!; reflexivity. }
  destruct Hw as (Hcw & Hmw & Hkw & Hl1 & Hfw).
  split; [apply lor_u64; [unfold is_u64; lia | done] |]. split; [|split; [|split]].
  - unfold x86_decode. rewrite !Hbit by lia. change (S l <=? 2)%nat with (l <=? 1)%nat. rewrite Hl1. fold a.
    rewrite (Hfull (window a)) by apply Z.land_diag. rewrite Hcw, Z.lor_0_r.
    destruct w, nx, fb; reflexivity.
  - cbn [PT_IS_TABLE format]. change (Z.lor PT_FLAG_VALID PT_FLAG_LARGE) with 129. rewrite (Hnone 129) by done.
    destruct w, nx, fb; reflexivity.
  - cbn [PT_IS_LARGE format]. change (Z.lor PT_FLAG_VALID PT_FLAG_LARGE) with 129. rewrite (Hnone 129) by done.
    destruct w, nx, fb; reflexivity.
  - cbn [pte_addr PT_TO_VMM_FLAGS format]. rewrite (Hfull PT_PADDR_MASK), Hnone by done.
    destruct fb.
    + rewrite Z.land_lor_distr_l, Hlow, Z.lor_0_l.
      destruct Hla as [[-> _]|[-> _]]; destruct w, nx; vm_compute; discriminate.
    + split; destruct w, nx; (reflexivity || (vm_compute (Z.land _ _); by rewrite Z.lor_0_r)).
Qed.

Lemma x86_table q l :
  is_page q ->
  let e := pte_new q PT_TABLE_FLAGS in
  is_u64 e /\ PT_IS_TABLE (Z.of_nat (S l)) e = true /\ pte_addr e = q /\ x86_decode (S l) e = Next q.
Proof.
  intros [Hq Hal]. assert (Hr : 0 <= q < 2 ^ 48) by lia. assert (Hal' : q mod 2 ^ 12 = 0) by exact Hal.
  change (pte_new q PT_TABLE_FLAGS) with (Z.lor q 7). intros e. subst e.
  assert (Hbit : forall j, 0 <= j -> j < 12 \/ 48 <= j -> Z.testbit (Z.lor q 7) j = Z.testbit 7 j).
  { intros j Hj Hja. by rewrite Z.lor_spec, (aligned_bit q 12) by (done || lia). }
  assert (Hfull : forall K, Z.land K (window 12) = window 12 -> Z.land (Z.lor q 7) K = Z.lor q (Z.land 7 K)).
  { intros K HK. by rewrite Z.land_lor_distr_l, (land_all q 12) by (done || lia). }
  split; [apply lor_u64; unfold is_u64; lia |]. split; [|split].
  - change (PT_IS_TABLE (Z.of_nat (S l)) (Z.lor q 7)) with (Z.land (Z.lor q 7) 129 =? 1).
    by rewrite Z.land_lor_distr_l, (land_none q 12) by (reflexivity || lia).
  - change (pte_addr (Z.lor q 7)) with (Z.land (Z.lor q 7) PT_PADDR_MASK).
    rewrite Hfull by reflexivity. apply Z.lor_0_r.
  - unfold x86_decode. rewrite !Hbit by lia. change (Z.testbit 7 0) with true. change (Z.testbit 7 7) with false. cbn [negb].
    rewrite Hfull by reflexivity. f_equal. apply Z.lor_0_r.
Qed.

#[local] Instance x86_hw : HwFormat.
Proof.
  refine {| leaf := x86_leaf; decode := x86_decode; ok_leaf := x86_ok |}.
  - done.
  - done.
  - done.
  - intros l q Hq. by apply x86_table.
  - intros l phys fl Hok. destruct (x86_ok_range _ _ _ Hok) as (Ha & Hr & Hm).
    destruct Hok as (Hl & _ & _ & _ & w & nx & fb & -> & _). destruct l as [|l].
    + by apply x86_small_leaf.
    + destruct (x86_large_leaf l phys w nx fb ltac:(lia) Hr Hm) as (? & ? & _). done.
  - intros l phys fl Hok. destruct (x86_ok_range _ _ _ Hok) as (Ha & Hr & Hm).
    destruct Hok as (Hl & Hms & _ & _ & w & nx & fb & -> & _).
    destruct (x86_large_leaf l phys w nx fb ltac:(lia) Hr Hm) as (? & ? & ? & ? & ?).
    cbn [VMM_MAX_LEVEL format]. split_and!; try done; [lia |]. destruct fb; [by left | by right].
  - intros l l' phys fl k (Hl & Hm & H0 & H1 & Hfl) Hll Hk Hks.
    pose proof (size_pos l'). split_and!; try done; try lia.
    apply Z.mod_divide; [lia |]. apply Z.divide_add_r; [|by apply Z.divide_factor_r].
    apply Z.mod_divide in Hm; [|pose proof (size_pos l); lia].
    eapply Z.divide_trans; [|exact Hm]. rewrite (size_le l l' Hll). apply Z.divide_factor_l.
  - intros l phys fl (_ & _ & H0 & H1 & _). split; [done | lia].
  - cbn [VMM_MAX_LEVEL format]. lia.
Defined.
End x86.

(** * Numbers of virtual addresses *)

Lemma size_u64 l : (l <= 5)%nat -> 2 ^ 64 = size l * 2 ^ (52 - 9 * Z.of_nat l).
Proof. intros Hl. unfold size. rewrite <- Z.pow_add_r by lia. f_equal. lia. Qed.

(** The start of a block of a 64-bit address. *)
Lemma block_start virt l : is_u64 virt -> (l <= 5)%nat ->
  Z.land virt (u64 (Z.lnot (size l - 1))) = virt / size l * size l.
Proof. intros Hv Hl. unfold size. apply land_clear; [done | lia]. Qed.

Lemma block_fits virt l off : is_u64 virt -> (l <= 5)%nat -> 0 <= off < size l ->
  0 <= virt / size l * size l + off < 2 ^ 64.
Proof.
  intros Hv Hl Hoff. pose proof (size_pos l) as Hs. pose proof (size_u64 l Hl) as H64. unfold is_u64 in Hv.
  pose proof (Z.div_pos virt (size l) ltac:(lia) Hs).
  assert (virt / size l < 2 ^ (52 - 9 * Z.of_nat l)) by (apply Z.div_lt_upper_bound; lia). nia.
Qed.

Lemma mod_block A M v off : 0 < A -> 0 < M -> 0 <= off < A ->
  (v / A * A + off) mod (A * M) = v mod (A * M) / A * A + off.
Proof.
  intros HA HM Hoff. pose proof (mod_subblock A M (v / A * A + off) HA HM) as Hm.
  replace ((v / A * A + off) mod A) with off in Hm.
  2:{ rewrite Z.add_comm, Z.mod_add by lia. symmetry. by apply Z.mod_small. }
  rewrite Hm. do 2 f_equal. rewrite !Z.rem_mul_r by lia.
  rewrite Z.div_add_l by lia. rewrite (Z.div_small off) by lia. rewrite Z.add_0_r.
  replace ((v / A * A + off) mod A) with off.
  2:{ rewrite Z.add_comm, Z.mod_add by lia. symmetry. by apply Z.mod_small. }
  rewrite (Z.mul_comm A), !Z.div_add by lia. rewrite (Z.div_small off) by lia.
  rewrite (Z.div_small (v mod A)) by (apply Z.mod_pos_bound; lia). done.
Qed.

Lemma vn_block L virt l off : is_u64 virt -> (l < L)%nat -> (L <= 5)%nat -> 0 <= off < size l ->
  u64 (Z.land virt (u64 (Z.lnot (size l - 1))) + off) mod size L = virt mod size L / size l * size l + off.
Proof.
  intros Hv Hl HL Hoff. rewrite block_start by (done || lia). rewrite u64_small by (apply block_fits; done || lia).
  pose proof (size_pos l). rewrite (size_le L l) by lia. apply mod_block; lia.
Qed.

Lemma vn_idx L virt l : (l < L)%nat ->
  Z.shiftr (Z.land virt (Z.shiftl 0x1ff (12 + 9 * Z.of_nat l))) (12 + 9 * Z.of_nat l) = idx l (virt mod size L).
Proof.
  intros Hl. unfold idx, size. rewrite <- Z.shiftr_div_pow2 by lia. change 512 with (2 ^ 9).
  apply Z.bits_inj'. intros j Hj. rewrite Z.shiftr_spec, Z.land_spec, Z.shiftl_spec by lia.
  replace (j + (12 + 9 * Z.of_nat l) - (12 + 9 * Z.of_nat l)) with j by lia. change 0x1ff with (Z.ones 9).
  destruct (decide (j < 9)).
  - rewrite Z.mod_pow2_bits_low, Z.shiftr_spec, Z.mod_pow2_bits_low, Z.ones_spec_low by lia. apply andb_true_r.
  - rewrite Z.mod_pow2_bits_high, Z.ones_spec_high by lia. apply andb_false_r.
Qed.

(** The addresses with sign-extended numbers. *)
Definition canonical (L : nat) (v : Z) : Prop :=
  0 <= v < size L / 2 \/ 2 ^ 64 - size L / 2 <= v < 2 ^ 64.

Lemma half_size L : (0 < L)%nat -> size L / 2 = size (L - 1) * 256 /\ size L = 2 * (size L / 2).
Proof.
  intros HL. assert (size L = size (L - 1) * 256 * 2) as E.
  { replace L with (S (L - 1)) at 1 by lia. rewrite size_S. lia. }
  rewrite E, Z.div_mul by lia. lia.
Qed.

Lemma canonical_u64 L v : (0 < L <= 5)%nat -> canonical L v -> is_u64 v.
Proof.
  intros HL Hc. pose proof (half_size L ltac:(lia)). pose proof (size_u64 L ltac:(lia)). pose proof (size_pos (L - 1)).
  unfold canonical, is_u64 in *. nia.
Qed.

Lemma sign_split D a a' c c' :
  0 < D -> 0 <= a < D -> 0 <= a' < D -> (a = a' -> c = c') ->
  (a' = a <-> a' + c' * D = a + c * D).
Proof.
  intros HD Ha Ha' Hc. split; [intros ->; by rewrite Hc |]. intros Heq.
  rewrite <- (Z.mod_small a D), <- (Z.mod_small a' D), <- (Z.mod_add a c D), <- (Z.mod_add a' c' D) by lia.
  by rewrite Heq.
Qed.

(** The number of a canonical address and its sign extension. *)
Lemma canonical_number L l : (l < L <= 5)%nat ->
  exists M, 0 < M /\ size L / 2 = M * size l /\ forall v, canonical L v ->
    let a := v mod size L / size l in
    let c := if a <? M then 0 else 2 ^ (52 - 9 * Z.of_nat L) - 1 in
    0 <= a < 2 * M /\ v / size l = a + c * (2 * M).
Proof.
  intros HL. pose proof (size_pos l) as Hs. pose proof (size_le (L - 1) l ltac:(lia)) as Hle.
  destruct (half_size L ltac:(lia)) as [Hh Hh2]. pose proof (size_u64 L ltac:(lia)) as H64.
  set (M := 512 ^ Z.of_nat (L - 1 - l)) in *. assert (HM : 0 < M) by (unfold M; lia).
  set (K := 2 ^ (52 - 9 * Z.of_nat L)) in *. assert (HK : 0 < K) by (unfold K; lia). clearbody M K.
  exists (256 * M). split; [lia |]. assert (Hh' : size L / 2 = 256 * M * size l) by lia. split; [done |].
  intros x Hx. cbv zeta. unfold canonical in Hx. rewrite Hh' in *.
  destruct Hx as [Hx|Hx].
  - assert (0 <= x / size l < 256 * M) by (split; [apply Z.div_pos; lia | apply Z.div_lt_upper_bound; lia]).
    rewrite (Z.mod_small x) by lia. rewrite (proj2 (Z.ltb_lt _ _)) by lia. lia.
  - assert (Hm : x mod size L = x - (K - 1) * size L) by (symmetry; apply (Z.mod_unique _ _ (K - 1)); lia).
    assert (Hd : x / size l = x mod size L / size l + (K - 1) * (2 * (256 * M))).
    { rewrite <- Z.div_add by lia. f_equal. rewrite Hm, Hh2. lia. }
    assert (256 * M <= x mod size L / size l < 2 * (256 * M)).
    { split; [apply Z.div_le_lower_bound; lia | apply Z.div_lt_upper_bound; lia]. }
    rewrite (proj2 (Z.ltb_ge _ _)) by lia. lia.
Qed.

(** Canonical addresses are in the same block exactly when their numbers are. *)
Lemma canonical_block L l v v' : (l < L <= 5)%nat -> canonical L v -> canonical L v' ->
  (v' mod size L / size l = v mod size L / size l <-> v' / size l = v / size l).
Proof.
  intros HL Hc Hc'. destruct (canonical_number L l HL) as (M & HM & _ & Hnum).
  destruct (Hnum v Hc) as [Ha ->], (Hnum v' Hc') as [Ha' ->].
  apply sign_split; [lia | done | done |]. by intros ->.
Qed.
