(* ===== verification/VmmX86Map.v ===== *)
(** [map_page] and [map_pages] of x86: the descent of the code is the generic one, and
    what the processor translates afterwards. *)

From S2P Require Import Prelude Vmm VmmWalk VmmMap VmmX86.
Import X86.

(** * Flags *)

(** The flags of a page as the processor sees them: without the PAT, [VMM_FLAG_FB] is dropped. *)
Definition effective (pat : bool) (w nx fb : bool) : Z := mkfl w nx (fb && pat).

Lemma flags_valid (pat w nx fb : bool) :
  let flags := Z.lor (mkfl w nx fb) PT_FLAG_VALID in
  (if negb (Z.land flags VMM_FLAG_FB =? 0) && negb pat then Z.land flags (u64 (Z.lnot VMM_FLAG_FB)) else flags)
  = Z.lor (effective pat w nx fb) PT_FLAG_VALID.
Proof. destruct pat, w, nx, fb; reflexivity. Qed.

Section x86.
Context {S : Type} `{!Allocator S, !AllocatorOk S} (cpuid : Z -> option Z) (pm : pagemap_t).
Hypothesis (Hlevels : pm.(levels) = 4 \/ pm.(levels) = 5).

Notation pat := (pat_supported cpuid).
#[local] Existing Instance x86_hw.
#[local] Instance hw : @HwFormat format := x86_hw pat.

Definition nlevels : nat := Z.to_nat pm.(levels).
Definition number (virt : Z) : Z := virt mod size nlevels.
Definition top (_ : Z) : Z := pm.(top_level).

Lemma nlevels_range : (4 <= nlevels <= 5)%nat.
Proof. unfold nlevels. lia. Qed.
Lemma number_space virt : is_u64 virt -> in_space nlevels 1 (number virt).
Proof. intros _. pose proof (size_pos nlevels). unfold in_space, number. pose proof (Z.mod_pos_bound virt (size nlevels)). lia. Qed.
Lemma number_block virt l off : is_u64 virt -> (l < nlevels)%nat -> 0 <= off < size l ->
  number (u64 (Z.land virt (u64 (Z.lnot (size l - 1))) + off)) = number virt / size l * size l + off.
Proof. intros Hv Hl Hoff. pose proof nlevels_range. apply vn_block; done || lia. Qed.
Lemma table_index_idx virt l : (l < nlevels)%nat ->
  table_index virt (12 + 9 * Z.of_nat l) = idx l (number virt).
Proof. apply vn_idx. Qed.

Notation descend := (descend number).
Notation inv := (inv nlevels 1 top).
Notation translate := (translate nlevels top).

(** The page sizes the processor has. *)
Definition supported (sz : nat) : Prop := (sz <= 1)%nat \/ (sz = 2%nat /\ is_1gib_page_supported cpuid = true).

Lemma map_page_descend fuel virt phys w nx fb sz s :
  supported sz ->
  map_page cpuid (Datatypes.S fuel) pm virt phys (mkfl w nx fb) (Z.of_nat sz) s =
  descend (nlevels - 1) (map_page cpuid fuel pm) sz pm.(top_level) virt phys (effective pat w nx fb) s.
Proof.
  intros Hsz. cbn [map_page]. cbv zeta. rewrite flags_valid. pose proof nlevels_range.
  change (table_index virt 12) with (table_index virt (12 + 9 * Z.of_nat 0)).
  change (table_index virt 21) with (table_index virt (12 + 9 * Z.of_nat 1)).
  change (table_index virt 30) with (table_index virt (12 + 9 * Z.of_nat 2)).
  change (table_index virt 39) with (table_index virt (12 + 9 * Z.of_nat 3)).
  rewrite !table_index_idx by lia.
  assert (sz = 0 \/ sz = 1 \/ (sz = 2 /\ is_1gib_page_supported cpuid = true))%nat as Hc
    by (unfold supported in Hsz; lia || naive_solver lia).
  destruct Hlevels as [H4|H5].
  - assert (nlevels - 1 = 3)%nat as -> by (unfold nlevels; rewrite H4; reflexivity). rewrite H4.
    destruct Hc as [->|[->|[-> ->]]]; reflexivity.
  - assert (nlevels - 1 = 4)%nat as -> by (unfold nlevels; rewrite H5; reflexivity). rewrite H5.
    change (table_index virt 48) with (table_index virt (12 + 9 * Z.of_nat 4)).
    rewrite table_index_idx by (unfold nlevels; rewrite H5; lia).
    destruct Hc as [->|[->|[-> ->]]]; reflexivity.
Qed.

Lemma supported_max sz : supported sz -> Z.of_nat sz < 3 /\ (sz <= nlevels - 1)%nat.
Proof. pose proof nlevels_range. unfold supported. intros [?|[-> _]]; lia. Qed.

Lemma ok_effective sz phys fl : ok_leaf sz phys fl -> exists w nx fb, fl = mkfl w nx fb /\ effective pat w nx fb = fl.
Proof.
  intros (_ & _ & _ & _ & w & nx & fb & -> & Hfb). exists w, nx, fb. split; [done |].
  unfold effective. destruct fb; [by rewrite Hfb | done].
Qed.

Lemma top_table s tabs virt : inv s tabs -> is_u64 virt ->
  tabs (nlevels - 1)%nat (number virt / size (Datatypes.S (nlevels - 1))) = Some pm.(top_level).
Proof.
  intros HI Hv. pose proof nlevels_range. replace (Datatypes.S (nlevels - 1)) with nlevels by lia.
  apply (i_root _ _ _ _ _ HI). apply in_space_root; [lia |]. by apply number_space.
Qed.

Notation remap_ok := (remap_ok nlevels 1 top number).
Notation remap_over := (remap_over nlevels 1 top number).

Lemma map_page_plain fuel sz : supported sz -> remap_ok (map_page cpuid (Datatypes.S fuel) pm) sz.
Proof.
  intros Hs s tabs virt phys fl h HI Hv Hok Hp Hh Hpath. pose proof nlevels_range.
  destruct (ok_effective _ _ _ Hok) as (w & nx & fb & -> & He). rewrite map_page_descend, He by done.
  apply (descend_plain nlevels 1 top ltac:(lia) ltac:(lia) number number_space number_block (nlevels - 1)
    (map_page cpuid fuel pm) sz pm.(top_level) virt phys _ s tabs h HI ltac:(lia) Hv Hok
    (top_table _ _ _ HI Hv) Hp Hpath).
Qed.

Lemma map_page_over fuel sz : supported sz -> remap_over (map_page cpuid (Datatypes.S (Datatypes.S fuel)) pm) sz.
Proof.
  intros Hs s tabs virt phys fl h HI Hv Hok Hh Hpath. pose proof nlevels_range.
  destruct (ok_effective _ _ _ Hok) as (w & nx & fb & -> & He). rewrite map_page_descend, He by done.
  apply (descend_lemma nlevels 1 top ltac:(lia) ltac:(lia) number number_space number_block (nlevels - 1)
    _ sz pm.(top_level) virt phys _ s tabs h HI ltac:(lia) Hv Hok
    (top_table _ _ _ HI Hv) Hpath (map_page_plain fuel sz Hs) (proj1 (supported_max _ Hs))).
Qed.

(** ** 1 GiB pages where the processor has none *)

Lemma walk_max s l t n a fl l' : walk s l t n = Some (a, fl, l') -> (l' <= 2)%nat.
Proof.
  assert (Hd : forall l e ph f, decode l e = Page ph f -> (l <= 2)%nat).
  { intros l0 e ph f. cbn [decode hw x86_hw]. unfold x86_decode. destruct l0; [lia |]. repeat case_if; try done.
    intros _. by apply Nat.leb_le. }
  revert t; induction l as [|l IH]; intros t; cbn [walk]; destruct (decode _ _) eqn:E; try done.
  - intros [= <- <- <-]. eauto.
  - apply IH.
  - intros [= <- <- <-]. eauto.
Qed.

(** The tables above the level of a 1 GiB page hold no pages. *)
Lemma next_high remap l virt s tabs t :
  inv s tabs -> is_u64 virt -> (2 <= l)%nat -> tabs (Datatypes.S l) (number virt / size (Datatypes.S (Datatypes.S l))) = Some t ->
  path nlevels tabs (Datatypes.S l) (number virt) ->
  match get_next_level remap s t virt 2 (Z.of_nat (Datatypes.S l)) (idx (Datatypes.S l) (number virt)) with
  | Ret (t', s') => exists tabs', inv s' tabs' /\ tabs' l (number virt / size (Datatypes.S l)) = Some t' /\
      path nlevels tabs' l (number virt) /\ same_walks nlevels 1 top s s' /\ uses 1 s s'
  | Panic => ~ can_serve 1 s
  | Diverge => False
  end.
Proof.
  intros HI Hv Hl Ht Hpath. pose proof nlevels_range.
  destruct (tabs l (number virt / size (Datatypes.S l))) as [q|] eqn:Eq.
  { pose proof (next_known nlevels 1 top number remap l 2 virt s tabs t HI Ht q Eq) as Hk.
    change (Z.of_nat 2) with 2 in Hk. rewrite Hk. exists tabs. split_and!; try done; [by eapply path_down |].
    apply (uses_le 0 1); [lia | apply uses_refl]. }
  assert (Hp : plain nlevels top s 2 (number virt)) by (intros a f l0; apply walk_max).
  pose proof (next_lemma nlevels 1 top ltac:(lia) ltac:(lia) number number_space number_block remap l 2 virt s tabs t
    HI Hl Hv Ht (or_introl Hp) Eq) as Hn.
  change (Z.of_nat 2) with 2 in Hn. destruct (get_next_level _ _ _ _ _ _ _) as [[t' s']| |]; [| |done].
  - destruct Hn as (tabs' & HI' & Hk' & Ht' & [[Hw Hu]|(Hnp & _)]); [|done]. exists tabs'. split_and!; try done.
    eapply path_down; [done |]. eapply path_keeps; [done | lia | done].
  - by destruct Hn as [|[? _]].
Qed.

Lemma top_path s tabs virt : inv s tabs -> is_u64 virt -> path nlevels tabs (nlevels - 1) (number virt).
Proof.
  intros HI Hv l Hl. assert (l = (nlevels - 1)%nat) as -> by lia. exists pm.(top_level). by eapply top_table.
Qed.

(** [map_page] above the 1 GiB level, then the loop over the 2 MiB pages. *)
Lemma map_page_emulated fuel virt phys w nx fb s tabs :
  is_1gib_page_supported cpuid = false -> inv s tabs -> is_u64 virt ->
  (exists s1 tabs1, inv s1 tabs1 /\ same_walks nlevels 1 top s s1 /\
    path nlevels tabs1 2 (number virt) /\ uses 2 s s1 /\
    map_page cpuid (Datatypes.S fuel) pm virt phys (mkfl w nx fb) 2 s =
    for_each 512 0 (fun k s => map_page cpuid fuel pm (u64 (virt + k * 0x200000)) (u64 (phys + k * 0x200000))
      (Z.lor (effective pat w nx fb) PT_FLAG_VALID) 1 s) s1) \/
  (map_page cpuid (Datatypes.S fuel) pm virt phys (mkfl w nx fb) 2 s = Panic /\ ~ can_serve 2 s).
Proof.
  intros H1g HI Hv. cbn [map_page]. cbv zeta. rewrite flags_valid, H1g. pose proof nlevels_range.
  change (table_index virt 39) with (table_index virt (12 + 9 * Z.of_nat 3)). rewrite !table_index_idx by lia.
  assert (Hlow : forall t s1 tabs1, inv s1 tabs1 -> tabs1 3%nat (number virt / size 4) = Some t ->
    path nlevels tabs1 3 (number virt) -> same_walks nlevels 1 top s s1 -> uses 1 s s1 ->
    (exists s2 tabs2 pml3, inv s2 tabs2 /\ same_walks nlevels 1 top s s2 /\
      path nlevels tabs2 2 (number virt) /\ uses 2 s s2 /\
      get_next_level (map_page cpuid fuel pm) s1 t virt 2 3 (idx 3 (number virt)) = Ret (pml3, s2)) \/
    (get_next_level (map_page cpuid fuel pm) s1 t virt 2 3 (idx 3 (number virt)) = Panic /\ ~ can_serve 2 s)).
  { intros t s1 tabs1 HI1 Ht1 Hp1 Hw1 Hu1.
    pose proof (next_high (map_page cpuid fuel pm) 2 virt s1 tabs1 t HI1 Hv ltac:(lia) Ht1 Hp1) as Hn.
    change (Z.of_nat 3) with 3 in Hn. destruct (get_next_level _ _ _ _ _ _ _) as [[t' s']| |]; [left | right | done].
    - destruct Hn as (tabs' & HI' & _ & Hp' & Hw' & Hu'). exists s', tabs', t'. split_and!; try done.
      + intros n Hn. by rewrite Hw', Hw1.
      + by apply (uses_trans 1 1 s s1).
    - split; [done |]. by apply (uses_panic 1 1 s s1). }
  pose proof (top_table _ _ _ HI Hv) as Ht. pose proof (top_path _ _ _ HI Hv) as Hp.
  destruct Hlevels as [H4|H5].
  - assert (nlevels = 4)%nat as Hn4 by (unfold nlevels; by rewrite H4). rewrite H4. cbn [Z.eqb Pos.eqb mbind outcome_bind].
    rewrite Hn4 in Ht at 1 2. assert (Hp3 : path nlevels tabs 3 (number virt)) by (by replace 3%nat with (nlevels - 1)%nat by lia).
    destruct (Hlow _ s tabs HI Ht Hp3 ltac:(done) ltac:(apply (uses_le 0 1); [lia | apply uses_refl]))
      as [(s2 & tabs2 & pml3 & HI2 & Hw2 & Hp2 & Hu2 & E)|[E Ha]]; rewrite E; [left | by right].
    by exists s2, tabs2.
  - assert (nlevels = 5)%nat as Hn5 by (unfold nlevels; by rewrite H5). rewrite H5. cbn [Z.eqb Pos.eqb].
    change (table_index virt 48) with (table_index virt (12 + 9 * Z.of_nat 4)). rewrite table_index_idx by lia.
    rewrite Hn5 in Ht at 1 2. assert (Hp4 : path nlevels tabs 4 (number virt)) by (by replace 4%nat with (nlevels - 1)%nat by lia).
    pose proof (next_high (map_page cpuid fuel pm) 3 virt s tabs _ HI Hv ltac:(lia) Ht Hp4) as Hn.
    change (Z.of_nat 4) with 4 in Hn. change Size1GiB with 2.
    destruct (get_next_level (map_page cpuid fuel pm) s _ _ _ _ _) as [[t' s']| |]; [| right | done].
    2:{ split; [done |]. by apply (serve_panic_le 1 2); [lia |]. }
    destruct Hn as (tabs' & HI' & Ht' & Hp' & Hw' & Hu'). cbn [mbind outcome_bind].
    destruct (Hlow _ s' tabs' HI' Ht' Hp' Hw' Hu')
      as [(s2 & tabs2 & pml3 & HI2 & Hw2 & Hp2 & Hu2 & E)|[E Ha]]; rewrite E; [left | by right].
    by exists s2, tabs2.
Qed.

Lemma map_page_valid fuel virt phys fl sz s :
  map_page cpuid fuel pm virt phys (Z.lor fl PT_FLAG_VALID) sz s = map_page cpuid fuel pm virt phys fl sz s.
Proof. destruct fuel; [done |]. cbn [map_page]. by rewrite <- (Z.lor_assoc fl PT_FLAG_VALID PT_FLAG_VALID), Z.lor_diag. Qed.

(** ** What the processor translates *)

Definition pages_ok (s : S) : Prop := exists tabs, inv s tabs.
(** The physical address and the flags the processor finds for a virtual address. *)
Definition virt_to_phys (s : S) (v : Z) : option (Z * Z) := strip (translate s (number v)).
(** The address is mapped with [VMM_FLAG_FB]. *)
Definition fb_at (s : S) (v : Z) : Prop := exists a w nx, virt_to_phys s v = Some (a, mkfl w nx true).

Lemma walk_ok s tabs l t n a fl l' :
  inv s tabs -> tabs l (n / size (Datatypes.S l)) = Some t -> walk s l t n = Some (a, fl, l') ->
  exists phys, a = phys + n mod size l' /\ ok_leaf l' phys fl.
Proof.
  intros HI. revert t; induction l as [|l IH]; intros t Ht; cbn [walk].
  - destruct (i_entry _ _ _ _ _ HI _ _ _ _ Ht (idx_range 0 n)) as [He _|phys f He Hok _|l0 q Hl0 _ _]; [..|done]; rewrite He.
    + by rewrite hw_empty.
    + destruct (hw_leaf _ _ _ Hok) as [_ ->]. intros [= <- <- <-]. by exists phys.
  - destruct (i_entry _ _ _ _ _ HI _ _ _ _ Ht (idx_range (Datatypes.S l) n)) as [He _|phys f He Hok _|l0 q Hl0 Hq He]; rewrite He.
    + by rewrite hw_empty.
    + destruct (hw_leaf _ _ _ Hok) as [_ ->]. intros [= <- <- <-]. by exists phys.
    + injection Hl0 as <-. destruct (i_page _ _ _ _ _ HI _ _ _ Hq) as (Hpg & _).
      destruct (hw_table l q Hpg) as (_ & _ & _ & Hd). unfold tab. rewrite Hd. apply IH. by rewrite block_index.
Qed.

Lemma unsplittable_fb s tabs sz n :
  inv s tabs -> in_space nlevels 1 n -> unsplittable nlevels top s sz n ->
  exists a w nx, strip (translate s n) = Some (a, mkfl w nx true).
Proof.
  intros HI Hn (phys & fl & l & Htr & Hsz & Hbad). pose proof nlevels_range.
  assert (Hok : ok_leaf l phys fl).
  { edestruct (walk_ok s tabs (nlevels - 1) (top (n / size nlevels)) n) as (ph & Heq & Hok); [exact HI | | exact Htr |].
    - replace (Datatypes.S (nlevels - 1)) with nlevels by lia. apply HI. apply in_space_root; [lia | done].
    - assert (ph = phys) as -> by lia. done. }
  rewrite Htr. destruct l as [|l]; [lia |]. destruct (x86_ok_range _ _ _ _ Hok) as (_ & Hr & Hm).
  destruct Hok as (Hl & Hms & _ & _ & w & nx & fb & -> & _). exists (phys + n mod size (Datatypes.S l)), w, nx.
  destruct fb; [done |]. exfalso.
  destruct (x86_large_leaf l phys w nx false ltac:(lia) Hr Hm) as (_ & _ & _ & _ & Ha & _).
  apply Hbad. cbn [leaf hw x86_hw]. by rewrite Ha, land_size_mask.
Qed.

Lemma number_of virt off sz :
  (sz <= 2)%nat -> is_u64 virt -> virt mod size sz = 0 -> 0 <= off < size sz ->
  number (virt + off) = number virt / size sz * size sz + off.
Proof.
  intros Hsz Hv Hal Hoff. pose proof nlevels_range. rewrite <- number_block by (done || lia).
  rewrite block_start by (done || lia). pose proof (size_pos sz).
  apply Z.div_exact in Hal; [|lia]. rewrite u64_small; [f_equal; lia |].
  pose proof (block_fits virt sz off Hv ltac:(lia) Hoff). done.
Qed.

(** An address in the block of [virt], in terms of the addresses themselves. *)
Lemma same_block virt v sz :
  (sz <= 2)%nat -> canonical nlevels virt -> canonical nlevels v -> virt mod size sz = 0 ->
  (number v / size sz =? number virt / size sz) = (virt <=? v) && (v <? virt + size sz).
Proof.
  intros Hsz Hc Hc' Hal. pose proof nlevels_range. pose proof (size_pos sz) as Hp.
  pose proof (canonical_block nlevels sz virt v ltac:(lia) Hc Hc') as Hb.
  apply Z.div_exact in Hal; [|lia].
  pose proof (Z.div_mod v (size sz) ltac:(lia)). pose proof (Z.mod_pos_bound v (size sz) ltac:(lia)).
  unfold number. apply eq_true_iff_eq. rewrite Z.eqb_eq, andb_true_iff, Z.leb_le, Z.ltb_lt, Hb.
  split; intros; nia.
Qed.

Lemma number_mod v l : (l < nlevels)%nat -> number v mod size l = v mod size l.
Proof.
  intros Hl. pose proof (size_pos l). unfold number. rewrite (size_le nlevels l) by lia.
  rewrite Z.rem_mul_r by lia. rewrite Z.mul_comm, Z.mod_add by lia. apply Z.mod_mod. lia.
Qed.

(** The range [virt, virt + count) translates to the range at [phys]; every other address
    as before. *)
Definition range_mapped (s s' : S) (virt phys count fl : Z) : Prop :=
  forall v, canonical nlevels v -> virt_to_phys s' v =
    if (virt <=? v) && (v <? virt + count) then Some (phys + (v - virt), fl) else virt_to_phys s v.
(** Panic is for an allocator that cannot serve [c] tables, or for a page of the range
    mapped with [VMM_FLAG_FB]. *)
Definition panic_ok (c : nat) (s : S) (virt count : Z) : Prop :=
  ~ can_serve c s \/ exists v, virt <= v < virt + count /\ fb_at s v.
Definition range_post (c : nat) (s : S) (virt phys count fl : Z) (r : outcome S) : Prop :=
  match r with
  | Ret s' => pages_ok s' /\ range_mapped s s' virt phys count fl /\ uses c s s'
  | Panic => panic_ok c s virt count
  | Diverge => False
  end.
(** The tables a page takes at most: one for each level below the root, and 512 to split
    a 1 GiB page into 4 KiB pages. *)
Definition page_tables (sz : nat) : nat := match sz with O => 516 | _ => 3 end.

Lemma page_u64 virt : canonical nlevels virt -> is_u64 virt.
Proof. pose proof nlevels_range. apply canonical_u64. lia. Qed.

Lemma block_offset virt v sz : virt mod size sz = 0 -> virt <= v < virt + size sz -> v mod size sz = v - virt.
Proof.
  intros Hal Hv. pose proof (size_pos sz). apply Z.div_exact in Hal; [|lia].
  symmetry. apply (Z.mod_unique _ _ (virt / size sz)); lia.
Qed.

Section page.
Context (s : S) (tabs : tables) (virt phys fl : Z) (sz : nat).
Hypothesis (HI : inv s tabs) (Hsz : (sz <= 2)%nat) (Hc : canonical nlevels virt).
Hypothesis (Hal : virt mod size sz = 0).

(** From the numbers to the addresses. *)
Lemma page_mapped s' :
  (forall n, in_space nlevels 1 n -> if n / size sz =? number virt / size sz
     then strip (translate s' n) = Some (phys + n mod size sz, fl)
     else strip (translate s' n) = strip (translate s n)) ->
  range_mapped s s' virt phys (size sz) fl.
Proof.
  intros Hn v Hv. pose proof nlevels_range. pose proof (canonical_u64 nlevels v ltac:(lia) Hv) as Hu.
  specialize (Hn _ (number_space v Hu)). rewrite same_block in Hn by done. unfold virt_to_phys.
  destruct ((virt <=? v) && (v <? virt + size sz)) eqn:E; [|done]. rewrite Hn, number_mod by lia.
  by rewrite (block_offset virt) by (done || lia).
Qed.

Lemma page_unsplittable c l n :
  in_space nlevels 1 n -> n / size sz = number virt / size sz -> unsplittable nlevels top s l n ->
  panic_ok c s virt (size sz).
Proof.
  intros Hn Hb Hu. right. pose proof (size_pos sz). pose proof (Z.mod_pos_bound n (size sz) ltac:(lia)) as Hm.
  exists (virt + n mod size sz). split; [lia |]. unfold fb_at, virt_to_phys.
  rewrite (number_of virt _ sz) by (done || by apply page_u64). rewrite <- Hb.
  replace (n / size sz * size sz + n mod size sz) with n by (pose proof (Z.div_mod n (size sz)); lia).
  by apply (unsplittable_fb s tabs l).
Qed.
End page.

Lemma map_page_effective fuel virt phys w nx fb sz s :
  supported sz ->
  map_page cpuid (Datatypes.S fuel) pm virt phys (mkfl w nx fb) (Z.of_nat sz) s =
  map_page cpuid (Datatypes.S fuel) pm virt phys (effective pat w nx fb) (Z.of_nat sz) s.
Proof.
  intros Hs. unfold effective at 1. rewrite !map_page_descend by done. unfold effective.
  by rewrite <- andb_assoc, andb_diag.
Qed.

Lemma for_each_ext {T} n k (f g : Z -> T -> outcome T) s :
  (forall k s, f k s = g k s) -> for_each n k f s = for_each n k g s.
Proof.
  intros Hfg. revert k s; induction n as [|n IH]; intros k s; cbn [for_each]; [done |]. rewrite Hfg.
  destruct (g k s); cbn [mbind outcome_bind]; auto.
Qed.

(** 512 pages of 2 MiB in place of one of 1 GiB. *)
Lemma map_page_loop fuel s s1 tabs tabs1 virt phys fl :
  inv s tabs -> inv s1 tabs1 -> same_walks nlevels 1 top s s1 -> path nlevels tabs1 2 (number virt) -> uses 2 s s1 ->
  canonical nlevels virt -> virt mod size 2 = 0 -> x86_ok pat 2 phys fl ->
  range_post 3 s virt phys (size 2) fl
    (for_each 512 0 (fun k s => map_page cpuid (Datatypes.S (Datatypes.S fuel)) pm (u64 (virt + k * 0x200000))
       (u64 (phys + k * 0x200000)) (Z.lor fl PT_FLAG_VALID) 1 s) s1).
Proof.
  intros HI HI1 Hw Hp1 Hu Hc Hal Hok. pose proof nlevels_range as HL. pose proof (page_u64 virt Hc) as Hv.
  erewrite for_each_ext by (intros; apply map_page_valid).
  assert (Hstart : emulated nlevels 1 top number 1 virt phys fl s 0 s1).
  { intros n Hn. rewrite (proj2 (Z.ltb_ge _ 0)), andb_false_r; [by apply (same_walks_map nlevels 1 top 1 s s1 Hw) |].
    apply Z.div_pos; [apply Z.mod_pos_bound, size_pos | apply size_pos]. }
  pose proof (emulate_loop nlevels 1 top ltac:(lia) ltac:(lia) number number_space number_block
    (map_page cpuid (Datatypes.S (Datatypes.S fuel)) pm) 1 virt phys fl s
    (map_page_over fuel 1 ltac:(left; lia)) ltac:(lia) Hv Hal Hok ltac:(lia) 512 0 s1 s1 tabs1
    ltac:(lia) ltac:(reflexivity) HI1 Hstart Hp1 (uses_refl s1)) as Hloop.
  assert (emulate_tables 1 512 = 1%nat) as Hone
    by (unfold emulate_tables; replace (split_max 1) with O by reflexivity; lia).
  rewrite Hone in Hloop. change (size 1) with 0x200000 in Hloop. change (Z.of_nat 1) with 1 in Hloop.
  destruct (for_each _ _ _ _) as [s'| |].
  - destruct Hloop as ([tabs' HI'] & Hm & Hu'). split; [by exists tabs' |].
    split; [|by apply (uses_trans 2 1 s s1)].
    apply page_mapped; [lia | done | done |]. intros n Hn. specialize (Hm n Hn).
    rewrite (proj2 (Z.ltb_lt (n mod size 2 / _) _)) in Hm.
    2:{ apply Z.div_lt_upper_bound; [apply size_pos |]. change (size 1 * _) with (size 2). apply Z.mod_pos_bound, size_pos. }
    rewrite andb_true_r in Hm. case_if; [by rewrite Hm | apply Hm].
  - destruct Hloop as [Hx|(n & Hn & Hb & Hx)]; [left; by apply (uses_panic 2 1 s s1) |].
    by apply (page_unsplittable s tabs virt 2 HI ltac:(lia) Hc Hal 3 1 n Hn Hb).
  - done.
Qed.

Lemma page_tables_enough sz : supported sz -> (nlevels - 1 - sz + split_max sz <= page_tables sz)%nat.
Proof.
  intros Hs. pose proof nlevels_range. assert (split_max 0 = 512%nat /\ split_max 1 = O /\ split_max 2 = O) as (E0 & E1 & E2) by done.
  destruct sz as [|[|[|sz]]]; cbn [page_tables]; rewrite ?E0, ?E1, ?E2; try lia. unfold supported in Hs. lia.
Qed.

Lemma map_page_lemma fuel s virt phys w nx fb sz :
  pages_ok s -> (sz <= 2)%nat -> canonical nlevels virt -> virt mod size sz = 0 ->
  x86_ok pat sz phys (effective pat w nx fb) ->
  range_post (page_tables sz) s virt phys (size sz) (effective pat w nx fb)
    (map_page cpuid (3 + fuel) pm virt phys (mkfl w nx fb) (Z.of_nat sz) s).
Proof.
  intros [tabs HI] Hsz Hc Hal Hok. pose proof nlevels_range as HL. pose proof (page_u64 virt Hc) as Hv.
  change (3 + fuel)%nat with (Datatypes.S (Datatypes.S (Datatypes.S fuel))).
  destruct (decide (sz = 2%nat /\ is_1gib_page_supported cpuid = false)) as [[-> H1g]|Hs].
  - destruct (map_page_emulated (Datatypes.S (Datatypes.S fuel)) virt phys w nx fb s tabs H1g HI Hv)
      as [(s1 & tabs1 & HI1 & Hw & Hp & Hu & E)|[E Ha]]; change (Z.of_nat 2) with 2; rewrite E.
    + by apply (map_page_loop fuel s s1 tabs tabs1).
    + left. by apply (serve_panic_le 2 3); [lia |].
  - assert (Hsup : supported sz) by (unfold supported; destruct (is_1gib_page_supported cpuid); lia || naive_solver lia).
    rewrite map_page_effective by done. pose proof (page_tables_enough sz Hsup) as Hle.
    pose proof (map_page_over (Datatypes.S fuel) sz Hsup s tabs virt phys _ (nlevels - 1)%nat HI Hv Hok ltac:(lia)
      (top_path _ _ _ HI Hv)) as Hpost.
    destruct (map_page _ _ _ _ _ _ _ _) as [s'| |]; [| |done].
    + destruct Hpost as (tabs' & HI' & _ & Hm & _ & Hu). split; [by exists tabs' |].
      split; [|by eapply uses_le]. apply page_mapped; try done.
      intros n Hn. specialize (Hm n Hn). case_if; [by rewrite Hm | apply Hm].
    + destruct Hpost as [Hx|Hu]; [left; by eapply serve_panic_le |].
      by apply (page_unsplittable s tabs virt sz HI Hsz Hc Hal _ sz (number virt) (number_space _ Hv)).
Qed.

(** ** [map_pages] *)

(** A range of addresses in one half of the address space. *)
Definition canonical_range (virt count : Z) : Prop :=
  (0 <= virt /\ virt + count <= size nlevels / 2) \/
  (2 ^ 64 - size nlevels / 2 <= virt /\ virt + count <= 2 ^ 64).

Lemma range_canonical virt count v : canonical_range virt count -> virt <= v < virt + count -> canonical nlevels v.
Proof. unfold canonical_range, canonical. lia. Qed.

Lemma range_bound virt count i : canonical_range virt count -> 0 <= i <= count -> 0 <= count < 2 ^ 57 /\ 0 <= virt + i <= 2 ^ 64 /\ 0 <= virt.
Proof.
  intros Hr Hi. pose proof nlevels_range as HL.
  assert (size nlevels / 2 <= 2 ^ 56).
  { assert (nlevels = 4 \/ nlevels = 5)%nat as [E|E] by lia; rewrite E; vm_compute; discriminate. }
  unfold canonical_range in Hr. lia.
Qed.

Section pages.
Context (virt phys count : Z) (w nx fb : bool) (s : S).
Hypothesis (Hrange : canonical_range virt count).
Hypothesis (Hphys : 0 <= phys /\ phys + count <= 2 ^ 48).
Notation fl := (effective pat w nx fb).

(** The tables the pages before [i] take, at most. *)
Definition range_tables (i : Z) : nat := 516 * Z.to_nat (i / 4096).

Lemma range_tables_step i sz : 0 <= i -> i mod 4096 = 0 -> (range_tables i + page_tables sz <= range_tables (i + size sz))%nat.
Proof.
  intros Hi Him. unfold range_tables. pose proof (size_pos sz) as Hs.
  assert (Hsz : 4096 * 1 <= size sz) by (unfold size; rewrite Z.pow_add_r by lia; apply Z.mul_le_mono_nonneg_l; lia).
  assert (i / 4096 + 1 <= (i + size sz) / 4096).
  { rewrite <- Z.div_add by lia. apply Z.div_le_mono; lia. }
  assert (0 <= i / 4096) by (apply Z.div_pos; lia).
  assert (page_tables sz <= 516)%nat by (destruct sz; simpl; lia).
  assert (Z.to_nat (i / 4096) + 1 <= Z.to_nat ((i + size sz) / 4096))%nat by lia. nia.
Qed.
Lemma range_tables_le i j : 0 <= i <= j -> (range_tables i <= range_tables j)%nat.
Proof.
  intros Hij. unfold range_tables. apply Nat.mul_le_mono_l.
  assert (i / 4096 <= j / 4096) by (apply Z.div_le_mono; lia).
  assert (0 <= i / 4096) by (apply Z.div_pos; lia). lia.
Qed.

Lemma pages_compose s' s'' i d :
  0 <= i -> 0 <= d -> range_mapped s s' virt phys i fl -> range_mapped s' s'' (virt + i) (phys + i) d fl ->
  range_mapped s s'' virt phys (i + d) fl.
Proof.
  intros Hi Hd H1 H2 v Hv. rewrite H2, H1 by done.
  destruct (Z.leb_spec virt v), (Z.leb_spec (virt + i) v), (Z.ltb_spec v (virt + i)),
    (Z.ltb_spec v (virt + i + d)), (Z.ltb_spec v (virt + (i + d))); simpl; try lia; try done.
  do 2 f_equal. lia.
Qed.

Lemma pages_panic a b s' i d :
  0 <= i -> i + d <= count -> uses a s s' -> (a + b <= range_tables count)%nat ->
  range_mapped s s' virt phys i fl -> panic_ok b s' (virt + i) d -> panic_ok (range_tables count) s virt count.
Proof.
  intros Hi Hd Hu Hle Hm [Hc|(v & Hv & x & w' & nx' & Hfb)].
  { left. eapply serve_panic_le; [exact Hle |]. by eapply uses_panic. }
  right. exists v. split; [lia |].
  exists x, w', nx'. rewrite Hm in Hfb by (apply (range_canonical virt count); [done | lia]).
  by rewrite (proj2 (Z.ltb_ge v _)), andb_false_r in Hfb by lia.
Qed.

(** One iteration. *)
Lemma pages_step s' i sz (k : S -> outcome S) :
  (sz <= 2)%nat -> 0 <= i -> i mod 4096 = 0 -> i + size sz <= count ->
  (virt + i) mod size sz = 0 -> (phys + i) mod size sz = 0 ->
  pages_ok s' -> range_mapped s s' virt phys i fl -> uses (range_tables i) s s' ->
  (forall s'', pages_ok s'' -> range_mapped s s'' virt phys (i + size sz) fl -> uses (range_tables (i + size sz)) s s'' ->
     range_post (range_tables count) s virt phys count fl (k s'')) ->
  range_post (range_tables count) s virt phys count fl
    (map_page cpuid 3 pm (virt + i) (phys + i) (mkfl w nx fb) (Z.of_nat sz) s' ≫= k).
Proof.
  intros Hsz Hi Him Hd Hav Hap Hok Hm Hu Hk. pose proof (size_pos sz) as Hs. pose proof nlevels_range.
  pose proof (map_page_lemma 0 s' (virt + i) (phys + i) w nx fb sz Hok Hsz) as Hl.
  assert (Hc : canonical nlevels (virt + i)) by (apply (range_canonical virt count); [done | lia]).
  assert (Hx : x86_ok pat sz (phys + i) fl).
  { split_and!; [done | done | lia | lia |]. exists w, nx, (fb && pat). split; [done |]. by intros [_ ?]%andb_true_iff. }
  specialize (Hl Hc Hav Hx). change (3 + 0)%nat with 3%nat in Hl.
  pose proof (range_tables_step i sz Hi Him) as Hstep. pose proof (range_tables_le (i + size sz) count ltac:(lia)) as Hle.
  destruct (map_page _ _ _ _ _ _ _ _) as [s''| |]; cbn [mbind outcome_bind]; [| |done].
  - destruct Hl as (Hok'' & Hm'' & Hu''). apply Hk; [done | apply (pages_compose s'); done || lia |].
    eapply uses_le; [exact Hstep |]. by eapply uses_trans.
  - eapply (pages_panic (range_tables i) (page_tables sz) s' i (size sz)); try done. lia.
Qed.

Hypothesis (Hcount : count mod 4096 = 0) (Hav : virt mod 4096 = 0) (Hap : phys mod 4096 = 0).

Lemma pages_loop fuel i s' :
  0 <= i <= count -> i mod 4096 = 0 -> count - i <= 4096 * Z.of_nat fuel ->
  pages_ok s' -> range_mapped s s' virt phys i fl -> uses (range_tables i) s s' ->
  range_post (range_tables count) s virt phys count fl
    (map_pages_loop fuel (map_page cpuid 3 pm) virt phys (mkfl w nx fb) count i s').
Proof.
  revert i s'; induction fuel as [|fuel IH]; intros i s' Hi Him Hf Hok Hm Hu; cbn [map_pages_loop].
  { rewrite (proj2 (Z.ltb_ge i count)) by lia. assert (i = count) as -> by lia. done. }
  destruct (Z.ltb_spec i count) as [Hlt|]; [|assert (i = count) as -> by lia; done].
  destruct (range_bound virt count i Hrange Hi) as (Hcb & Hvb & Hv0).
  assert (Hlt4 : virt + i < 2 ^ 64) by (unfold canonical_range in Hrange; pose proof (range_bound virt count count Hrange); lia).
  rewrite !(u64_small (phys + i)), !(u64_small (virt + i)) by lia. cbv zeta.
  assert (Hgo : forall sz : nat, (sz <= 2)%nat -> (virt + i) mod size sz = 0 -> (phys + i) mod size sz = 0 ->
    i + size sz <= count -> size sz mod 4096 = 0 ->
    range_post (range_tables count) s virt phys count fl (map_page cpuid 3 pm (virt + i) (phys + i) (mkfl w nx fb) (Z.of_nat sz) s' ≫=
      fun s'' => map_pages_loop fuel (map_page cpuid 3 pm) virt phys (mkfl w nx fb) count (u64 (i + size sz)) s'')).
  { intros sz Hsz H1 H2 H3 H4. pose proof (size_pos sz).
    assert (4096 <= size sz) by (pose proof (Z.div_mod (size sz) 4096 ltac:(lia)); lia).
    apply pages_step; try done; [lia |]. intros s'' Hok'' Hm'' Hu''. rewrite u64_small by lia.
    apply IH; try done; [lia | | lia]. rewrite Z.add_mod, Him, H4 by lia. done. }
  change 0x40000000 with (size 2). change 0x200000 with (size 1). rewrite !land_size_mask.
  repeat case_match; try lia.
  - apply (Hgo 2%nat); [lia.. | reflexivity].
  - apply (Hgo 1%nat); [lia.. | reflexivity].
  - apply (Hgo 0%nat); [lia | | | | reflexivity]; change (size 0) with 4096.
    1, 2: rewrite Z.add_mod, Him, ?Hav, ?Hap by lia; done.
    pose proof (Z.div_mod i 4096 ltac:(lia)). pose proof (Z.div_mod count 4096 ltac:(lia)). lia.
Qed.

Lemma map_pages_lemma :
  0 <= count -> pages_ok s ->
  range_post (range_tables count) s virt phys count fl
    (map_pages (map_page cpuid 3 pm) virt phys (mkfl w nx fb) count s).
Proof.
  intros H0 Hok. unfold map_pages. rewrite Hav, Hap, Hcount. cbn [Z.eqb negb orb].
  pose proof (Z.div_mod count 4096 ltac:(lia)) as Hd. pose proof (Z.div_pos count 4096 ltac:(lia) ltac:(lia)).
  apply pages_loop; try done; [rewrite Z2Nat.id, Z.sub_0_r by done; rewrite Hcount in Hd; lia | |].
  - intros v Hv. destruct (Z.leb_spec virt v), (Z.ltb_spec v (virt + 0)); done || lia.
  - apply uses_refl.
Qed.
End pages.

(** ** [new_pagemap] *)

Lemma fresh_pagemap s p :
  al_ok s -> al_holds s p -> is_page p -> (forall i, 0 <= i < 512 -> read_entry s p i = 0) -> pm.(top_level) = p ->
  pages_ok s /\ forall v, virt_to_phys s v = None.
Proof.
  intros Hok Hh Hp Hz Htop. pose proof nlevels_range as HL. split.
  - exists (fun l b => if bool_decide (l = (nlevels - 1)%nat /\ b = 0) then Some p else None).
    assert (Hone : forall l b t, (if bool_decide (l = (nlevels - 1)%nat /\ b = 0) then Some p else None) = Some t ->
      t = p /\ l = (nlevels - 1)%nat /\ b = 0).
    { intros l b t. case_bool_decide; naive_solver. }
    split.
    + done.
    + intros l b t (-> & -> & ->)%Hone. split_and!; [done.. | lia].
    + intros l b l' b' t (-> & -> & ->)%Hone (_ & -> & ->)%Hone. done.
    + intros l b t i (-> & -> & ->)%Hone Hi. apply e_empty; [by apply Hz |]. intros l' Hl'. rewrite bool_decide_false; [done | lia].
    + intros l b t (-> & -> & ->)%Hone Hl. lia.
    + intros h Hh'. assert (h = 0) as -> by lia. rewrite bool_decide_true by done. unfold top. by rewrite Htop.
  - intros v. unfold virt_to_phys. unfold VmmWalk.translate, top. rewrite Htop, walk_invalid; [done |].
    rewrite Hz by apply idx_range. apply hw_empty.
Qed.
End x86.
