(* ===== verification/VmmCorrect.v ===== *)
(** The properties of the page-table code, with the physical memory manager as its
    allocator. *)

From S2P Require Import Prelude Pmm PmmMap PmmSanitise PmmAlloc PmmOps PmmCorrect.
From S2P Require Import Vmm VmmWalk VmmMap VmmX86 VmmX86Map.

(** * The physical memory manager behind the interface *)

#[export] Instance pmm_allocator : Allocator Pmm.state := {|
  ram_of := Pmm.ram;
  put_ram := Pmm.set_ram;
  alloc_table st := Pmm.ext_mem_alloc true st 0x1000;
|}.

(** The tables of a page map are memory that is not usable; page 0 is hidden. *)
#[export] Instance pmm_allocator_ok : AllocatorOk Pmm.state.
Proof.
  refine {| al_ok st := wf udisj st /\ Pmm.keep_first_page st = false;
            al_holds st p := held st.(Pmm.memmap) p (p + 4096) |}.
  - done.
  - by intros [].
  - done.
  - done.
  - done.
  - intros st [Hwf Hk]. cbn [alloc_table pmm_allocator].
    pose proof (ext_mem_alloc_lemma udisj true st 0x1000 Pmm.MEMMAP_BOOTLOADER_RECLAIMABLE 4096 false Hwf
      ltac:(lia) ltac:(lia)) as H.
    unfold Pmm.ext_mem_alloc, Pmm.ext_mem_alloc_type, Pmm.ext_mem_alloc_type_aligned.
    destruct (Pmm.ext_mem_alloc_type_aligned_mode _ _ _ _ _ _) as [[p st']| |]; [|done..].
    destruct H as (top & Hal & H0 & Htop & _ & Hlow & Hin & Ha & _ & Hram).
    change (align_up 0x1000 4096) with 4096 in *. cbn [andb] in Hram. specialize (Hlow eq_refl).
    destruct Ha as [Hwf' Hr _ _ Hk'].
    assert (Hpos : 0 < p).
    { pose proof (wf_visible _ _ _ Hwf p ltac:(eapply inside_has; [exact Hin | unfold in_range; lia])) as Hv.
      rewrite Hk in Hv. unfold hidden in Hv. destruct (decide (p = 0)) as [->|]; [by destruct Hv | lia]. }
    split_and!.
    + done.
    + by rewrite Hk'.
    + intros a Ha Hu. apply Hr in Hu as [[? _]|[_ Hn]]; [done |]. apply Hn. unfold in_range in *. lia.
    + split; [lia | done].
    + intros q [_ Hq] Hh. split.
      * intros a Ha Hu. apply Hr in Hu as [[? _]|[Hu _]]; [done | by apply (Hh a)].
      * pose proof (held_apart _ _ _ _ _ Hh Hin ltac:(lia) ltac:(lia)). lia.
    + intros x. change (Pmm.ram st' x = mem_fill (Pmm.ram st) p 0 4096 x). by rewrite Hram.
Defined.

(** * A concrete machine *)

(** A processor with the PAT and without 1 GiB pages. *)
Definition old_cpu (leaf : Z) : option Z :=
  if leaf =? 1 then Some (Z.shiftl 1 16) else if leaf =? 0x80000001 then Some 0 else None.
Definition pc_start : Pmm.state := PmmCorrect.pc.

Lemma pc_start_ok : al_ok pc_start.
Proof. split; [exact pc_wf | done]. Qed.

(** * Lemmas of the properties *)

Section lemmas.
Context {S : Type} `{!Allocator S, !AllocatorOk S}.
Import X86.

(** What [new_pagemap] promises. *)
Definition new_pagemap_post (mode : Z) (s : S) (r : outcome (pagemap_t * S)) : Prop :=
  match r with
  | Ret (pm, s') =>
      pm.(levels) = (if mode =? PAGING_MODE_X86_64_5LVL then 5 else 4) /\ is_page pm.(top_level) /\
      al_holds s' pm.(top_level) /\ uses 1 s s' /\
      forall cpuid, pages_ok cpuid pm s' /\ forall v, virt_to_phys cpuid pm s' v = None
  | Panic => ~ can_serve 1 s
  | Diverge => False
  end.

Lemma new_pagemap_lemma (mode : Z) (s : S) : al_ok s -> new_pagemap_post mode s (new_pagemap mode s).
Proof.
  intros Hok. unfold new_pagemap. pose proof (al_alloc s Hok) as Ha.
  destruct (alloc_table s) as [[p s']| |] eqn:E; cbn [mbind outcome_bind]; [|by apply alloc_panic|done].
  destruct Ha as (Hok' & Hh & Hp & _ & Hram). split; [done |]. split; [done |]. split; [done |].
  split; [by eapply uses_alloc |]. intros cpuid.
  apply (fun H => fresh_pagemap cpuid _ H s' p); try done; [simpl; destruct (mode =? _); tauto |].
  intros i Hi. by apply (read_fresh s).
Qed.

Lemma x86_ok_effective cpuid sz phys w nx fb :
  (sz <= 2)%nat -> 0 <= phys -> phys mod size sz = 0 -> phys + size sz <= 2 ^ 48 ->
  x86_ok (pat_supported cpuid) sz phys (effective (pat_supported cpuid) w nx fb).
Proof.
  intros. split_and!; try done. exists w, nx, (fb && pat_supported cpuid). split; [done |].
  by intros [_ ?]%andb_true_iff.
Qed.
End lemmas.

(** The concrete machine with an empty page map of four levels. *)
Definition pc_pm : X86.pagemap_t := {| X86.levels := 4; X86.top_level := 0xFDF000 |}.
Definition pc_paged : Pmm.state :=
  match X86.new_pagemap 0 pc_start with Ret (_, s) => s | _ => pc_start end.

Lemma pc_new : X86.new_pagemap 0 pc_start = Ret (pc_pm, pc_paged).
Proof.
  unfold pc_paged.
  assert (H : match X86.new_pagemap 0 pc_start with Ret (pm, _) => pm = pc_pm | _ => False end) by (vm_compute; reflexivity).
  destruct (X86.new_pagemap 0 pc_start) as [[pm s]| |]; [|done..]. by rewrite H.
Qed.
Lemma pc_pages_ok : pages_ok old_cpu pc_pm pc_paged.
Proof.
  pose proof (new_pagemap_lemma 0 pc_start pc_start_ok) as H. rewrite pc_new in H.
  destruct H as (_ & _ & _ & _ & H). apply H.
Qed.

(** * Properties *)

Section claims.
Context {S : Type} `{!Allocator S, !AllocatorOk S}.
Import X86.

(** [new_pagemap] returns a map with four levels, or five when asked for, whose root
    is a table of the allocator's, in which no address is mapped and whose tables are
    well formed. It panics only if the allocator cannot serve one table. *)
Theorem new_pagemap_correct (mode : Z) (s : S) : al_ok s -> new_pagemap_post mode s (new_pagemap mode s).
Proof. apply new_pagemap_lemma. Qed.

(** C5: [map_page] (x86, four or five levels, any of the three page sizes, with or without
    PAT and 1 GiB support in the processor): afterwards the processor translates exactly
    the page's addresses to the physical page with the flags asked for, and every other
    canonical address as before, also where a larger page had to be split or a 1 GiB
    page is made of 2 MiB pages; the tables stay well formed. It terminates, and panics
    only if the allocator cannot serve the tables of one page or if the page lies on one
    mapped with [VMM_FLAG_FB]. *)
Theorem map_page_correct (cpuid : Z -> option Z) (pm : pagemap_t) (fuel : nat) (s : S)
    (virt phys : Z) (w nx fb : bool) (sz : nat) :
  pm.(levels) = 4 \/ pm.(levels) = 5 -> pages_ok cpuid pm s -> (sz <= 2)%nat ->
  canonical (nlevels pm) virt -> virt mod size sz = 0 ->
  0 <= phys -> phys mod size sz = 0 -> phys + size sz <= 2 ^ 48 ->
  match map_page cpuid (3 + fuel) pm virt phys (mkfl w nx fb) (Z.of_nat sz) s with
  | Ret s' =>
      pages_ok cpuid pm s' /\ uses (page_tables sz) s s' /\
      forall v, canonical (nlevels pm) v -> virt_to_phys cpuid pm s' v =
        if (virt <=? v) && (v <? virt + size sz)
        then Some (phys + (v - virt), mkfl w nx (fb && pat_supported cpuid))
        else virt_to_phys cpuid pm s v
  | Panic => ~ can_serve (page_tables sz) s \/
      exists v, virt <= v < virt + size sz /\ fb_at cpuid pm s v
  | Diverge => False
  end.
Proof.
  intros Hl Hok Hsz Hc Hal H0 Hp H48.
  pose proof (map_page_lemma cpuid pm Hl fuel s virt phys w nx fb sz Hok Hsz Hc Hal
    (x86_ok_effective cpuid sz phys w nx fb Hsz H0 Hp H48)) as H.
  destruct (map_page _ _ _ _ _ _ _ _) as [s'| |]; cbn [range_post] in H; [|done..].
  by destruct H as (? & ? & ?).
Qed.

(** C4: [map_pages] over a page-aligned range within one half of the address space:
    afterwards the processor translates exactly the range to the physical range with the
    flags asked for, and every other canonical address as before, whatever mixture of
    page sizes the loop chose; it terminates within one iteration per 4 KiB. *)
Theorem map_pages_correct (cpuid : Z -> option Z) (pm : pagemap_t) (s : S) (virt phys count : Z) (w nx fb : bool) :
  pm.(levels) = 4 \/ pm.(levels) = 5 -> pages_ok cpuid pm s ->
  0 <= count -> canonical_range pm virt count -> 0 <= phys -> phys + count <= 2 ^ 48 ->
  virt mod 4096 = 0 -> phys mod 4096 = 0 -> count mod 4096 = 0 ->
  match map_pages (map_page cpuid 3 pm) virt phys (mkfl w nx fb) count s with
  | Ret s' =>
      pages_ok cpuid pm s' /\ uses (range_tables count) s s' /\
      forall v, canonical (nlevels pm) v -> virt_to_phys cpuid pm s' v =
        if (virt <=? v) && (v <? virt + count)
        then Some (phys + (v - virt), mkfl w nx (fb && pat_supported cpuid))
        else virt_to_phys cpuid pm s v
  | Panic => ~ can_serve (range_tables count) s \/
      exists v, virt <= v < virt + count /\ fb_at cpuid pm s v
  | Diverge => False
  end.
Proof.
  intros Hl Hok H0 Hr Hp0 Hp1 Hav Hap Hc.
  pose proof (map_pages_lemma cpuid pm Hl virt phys count w nx fb s Hr (conj Hp0 Hp1) Hc Hav Hap H0 Hok) as H.
  destruct (map_pages _ _ _ _ _ _) as [s'| |]; cbn [range_post] in H; [|done..].
  by destruct H as (? & ? & ?).
Qed.
End claims.

Lemma new_pagemap_correct_witness :
  (exists pm s, X86.new_pagemap 0 pc_start = Ret (pm, s)) /\ new_pagemap_post 0 pc_start (X86.new_pagemap 0 pc_start).
Proof.
  split; [eexists _, _; exact pc_new |]. apply (new_pagemap_correct 0 pc_start). exact pc_start_ok.
Defined.

Lemma map_page_correct_witness :
  exists s', X86.map_page old_cpu 3 pc_pm 0xffff800000003000 0x5000 (mkfl true true true) (Z.of_nat 0) pc_paged = Ret s' /\
    forall v, canonical 4 v -> virt_to_phys old_cpu pc_pm s' v =
      if (0xffff800000003000 <=? v) && (v <? 0xffff800000003000 + size 0)
      then Some (0x5000 + (v - 0xffff800000003000), mkfl true true true)
      else virt_to_phys old_cpu pc_pm pc_paged v.
Proof.
  pose proof (map_page_correct old_cpu pc_pm 0 pc_paged 0xffff800000003000 0x5000 true true true 0
    (or_introl eq_refl) pc_pages_ok ltac:(lia) ltac:(right; vm_compute; split; [discriminate | reflexivity])
    ltac:(reflexivity) ltac:(lia) ltac:(reflexivity) ltac:(vm_compute; discriminate)) as H.
  assert (Hc : match X86.map_page old_cpu 3 pc_pm 0xffff800000003000 0x5000 (mkfl true true true) (Z.of_nat 0) pc_paged with
    | Ret _ => True | _ => False end) by (vm_compute; exact I).
  change (3 + 0)%nat with 3%nat in H.
  destruct (X86.map_page old_cpu 3 pc_pm 0xffff800000003000 0x5000 (mkfl true true true) (Z.of_nat 0) pc_paged) as [s'| |];
    [|destruct Hc|destruct Hc].
  exists s'. split; [reflexivity | exact (proj2 (proj2 H))].
Defined.

Lemma map_pages_correct_witness :
  exists s', map_pages (X86.map_page old_cpu 3 pc_pm) 0x1FF000 0x3FF000 (mkfl true false false) 0x202000 pc_paged = Ret s' /\
    forall v, canonical 4 v -> virt_to_phys old_cpu pc_pm s' v =
      if (0x1FF000 <=? v) && (v <? 0x1FF000 + 0x202000)
      then Some (0x3FF000 + (v - 0x1FF000), mkfl true false false)
      else virt_to_phys old_cpu pc_pm pc_paged v.
Proof.
  pose proof (map_pages_correct old_cpu pc_pm pc_paged 0x1FF000 0x3FF000 0x202000 true false false
    (or_introl eq_refl) pc_pages_ok ltac:(lia) ltac:(left; vm_compute; split; discriminate)
    ltac:(lia) ltac:(vm_compute; discriminate) ltac:(reflexivity) ltac:(reflexivity) ltac:(reflexivity)) as H.
  assert (Hc : match map_pages (X86.map_page old_cpu 3 pc_pm) 0x1FF000 0x3FF000 (mkfl true false false) 0x202000 pc_paged with
    | Ret _ => True | _ => False end) by (vm_compute; exact I).
  destruct (map_pages (X86.map_page old_cpu 3 pc_pm) 0x1FF000 0x3FF000 (mkfl true false false) 0x202000 pc_paged) as [s'| |];
    [|destruct Hc|destruct Hc].
  exists s'. split; [reflexivity | exact (proj2 (proj2 H))].
Defined.

(** * Two entries that do not survive a split *)

Lemma land_high_window a phys :
  0 <= a <= 48 -> 0 <= phys < 2 ^ 48 -> Z.land phys (window a) = phys - phys mod 2 ^ a.
Proof.
  intros Ha Hp. replace (phys - phys mod 2 ^ a) with (phys / 2 ^ a * 2 ^ a) by (pose proof (Z.div_mod phys (2 ^ a) ltac:(lia)); lia).
  apply Z.bits_inj'. intros j Hj.
  rewrite <- Z.shiftl_mul_pow2, Z.shiftl_spec, <- Z.shiftr_div_pow2, Z.land_spec, window_bits by lia.
  destruct (decide (j < a)).
  - rewrite (proj2 (Z.leb_gt a j)), (Z.testbit_neg_r _ (j - a)) by lia. apply andb_false_r.
  - rewrite (proj2 (Z.leb_le a j)), Z.shiftr_spec by lia. replace (j - a + a) with j by lia.
    destruct (decide (j < 48)); [rewrite (proj2 (Z.ltb_lt j 48)) by lia; apply andb_true_r |].
    by rewrite (testbit_high 48 phys) by (done || lia).
Qed.

(** The LoongArch entry of a huge page. *)
Definition la_huge (phys flags : Z) : Z :=
  Z.lor phys (Z.lor (Z.lor (LoongArch.real_flags flags) LoongArch.PT_FLAG_HGLOBAL) LoongArch.PT_FLAG_HUGE).

Lemma la_huge_spec phys flags :
  0 <= phys < 2 ^ 48 -> phys mod size 1 = 0 ->
  let e := la_huge phys flags in
  LoongArch.pt_is_large e = true /\ Z.land e LoongArch.PT_FLAG_VALID = LoongArch.PT_FLAG_VALID /\
  Z.land e LoongArch.PT_PADDR_HMASK = phys - phys mod 2 ^ 24.
Proof.
  intros Hp Hal. unfold la_huge. set (c := Z.lor (Z.lor _ _) _).
  assert (Hal' : phys mod 2 ^ 21 = 0) by exact Hal.
  assert (Hc : Z.land c 4160 = 4160 /\ Z.land c 1 = 1 /\ Z.land c LoongArch.PT_PADDR_HMASK = 0).
  { subst c. unfold LoongArch.real_flags. repeat case_match; vm_compute; done. }
  destruct Hc as (Hc1 & Hc2 & Hc3). cbv zeta. unfold LoongArch.pt_is_large.
  change (Z.lor LoongArch.PT_FLAG_HGLOBAL LoongArch.PT_FLAG_HUGE) with 4160. change LoongArch.PT_FLAG_VALID with 1.
  rewrite !Z.land_lor_distr_l, Hc1, Hc2, Hc3, Z.lor_0_r.
  rewrite (land_none phys 21 ltac:(lia) Hp Hal' 4160), (land_none phys 21 ltac:(lia) Hp Hal' 1) by reflexivity.
  split; [done |]. split; [done |]. by apply (land_high_window 24).
Qed.

(** On x86, a large page mapped with [VMM_FLAG_FB] cannot be split: the entry's PAT
    bit (bit 12) is inside [PT_PADDR_MASK], so the address read back is not aligned and
    [get_next_level] panics, whatever smaller page is asked for. *)
Theorem fb_split_panics {S : Type} `{!Allocator S} (remap : Z -> Z -> Z -> Z -> S -> outcome S) (s : S)
    (t i virt phys sz : Z) (w nx : bool) (l : nat) :
  (l <= 1)%nat -> 0 <= phys < 2 ^ 48 -> phys mod size (Datatypes.S l) = 0 ->
  read_entry s t i = Z.lor (Z.lor phys (Z.lor (mkfl w nx true) X86.PT_FLAG_VALID)) X86.PT_FLAG_LARGE ->
  @get_next_level S _ X86.format remap s t virt sz (Z.of_nat (Datatypes.S l)) i = Panic.
Proof.
  intros Hl Hp Hal He. destruct (x86_large_leaf l phys w nx true Hl Hp Hal) as (_ & _ & Ht & Hg & Hbad).
  unfold get_next_level. change (Z.lor (Z.lor phys _) X86.PT_FLAG_LARGE) with (x86_leaf (Datatypes.S l) phys (mkfl w nx true)) in He.
  rewrite He, Ht, Hg. case_match; [done |]. case_match; [done |].
  rewrite page_sizes_size by lia. by rewrite (proj2 (Z.eqb_neq _ 0) Hbad).
Qed.

Lemma fb_split_panics_witness :
  exists s : Pmm.state, X86.map_page old_cpu 3 pc_pm 0x200000 0x80000000 (mkfl true true true) 1 pc_paged = Ret s /\
    exists t, @get_next_level _ _ X86.format (X86.map_page old_cpu 3 pc_pm) s t 0x200000 0 (Z.of_nat 1) 1 = Panic.
Proof.
  pose (e := Z.lor (Z.lor 0x80000000 (Z.lor (mkfl true true true) X86.PT_FLAG_VALID)) X86.PT_FLAG_LARGE).
  assert (Hc : match X86.map_page old_cpu 3 pc_pm 0x200000 0x80000000 (mkfl true true true) 1 pc_paged with
    | Ret s => read_entry s 0xFDD000 1 =? e | _ => false end = true) by (vm_compute; reflexivity).
  destruct (X86.map_page old_cpu 3 pc_pm 0x200000 0x80000000 (mkfl true true true) 1 pc_paged) as [s| |];
    [|discriminate..].
  exists s. split; [reflexivity |]. exists 0xFDD000.
  apply (fb_split_panics _ s _ _ _ 0x80000000 0 true true 0); [lia | lia | reflexivity | by apply Z.eqb_eq].
Defined.

(** On LoongArch, splitting a 2 MiB page recreates it from the physical address
    rounded down to 16 MiB: [PT_PADDR_HMASK] leaves out bits 21 to 23, and the check on
    the old address does not notice. *)
Theorem loongarch_split_address {S : Type} `{!Allocator S} (remap : Z -> Z -> Z -> Z -> S -> outcome S) (s : S)
    (t i virt phys flags : Z) :
  0 <= phys < 2 ^ 48 -> phys mod size 1 = 0 -> read_entry s t i = la_huge phys flags ->
  @get_next_level S _ LoongArch.format remap s t virt Size4KiB 1 i =
    ('(ret, s) ← alloc_table s;
     s ← for_each 512 0 (fun k s => remap (u64 (Z.land virt (u64 (Z.lnot (0x200000 - 1))) + k * 0x1000))
           (u64 (phys - phys mod 2 ^ 24 + k * 0x1000)) (LoongArch.pt_to_vmm_flags_internal (la_huge phys flags)) Size4KiB s)
         (write_entry s t i ret);
     Ret (ret, s)).
Proof.
  intros Hp Hal He. destruct (la_huge_spec phys flags Hp Hal) as (Hlg & Hv & Ha).
  unfold get_next_level. rewrite He. cbn [PT_IS_TABLE PT_IS_LARGE PT_TO_VMM_FLAGS pte_addr LoongArch.format VMM_MAX_LEVEL].
  rewrite Hv, Hlg, Ha. cbv zeta. change (LoongArch.PT_FLAG_VALID =? 0) with false. cbn [andb orb].
  change (page_sizes.[1]) with (size 1). change (page_sizes.[Size4KiB]) with 0x1000.
  change ((1 >=? 3) || (1 =? 0)) with false. change (Size4KiB >=? 3) with false. rewrite andb_false_r. cbn [andb].
  assert (Hdiv : (phys - phys mod 2 ^ 24) mod size 1 = 0).
  { apply Z.mod_divide; [by vm_compute |]. replace (phys - phys mod 2 ^ 24) with (phys / 2 ^ 24 * 8 * size 1).
    - apply Z.divide_factor_r.
    - pose proof (Z.div_mod phys (2 ^ 24) ltac:(lia)). change (size 1) with (2 ^ 21). lia. }
  rewrite land_size_mask, Hdiv. cbn [Z.eqb negb]. change (iterations (size 1) 0x1000) with 512%nat.
  destruct (alloc_table s) as [[ret s']| |]; cbn [mbind outcome_bind]; [|done..].
  cbn [pte_new PT_TABLE_FLAGS]. by rewrite Z.lor_0_r.
Qed.

Lemma loongarch_split_address_witness :
  let s := Pmm.set_ram pc_start (store64 (Pmm.ram pc_start) 0x1000 (la_huge 0x600000 3)) in
  let pm := {| LoongArch.pgd := fun _ => 0x2000 |} in
  0x600000 - 0x600000 mod 2 ^ 24 = 0 /\
  @get_next_level _ _ LoongArch.format (LoongArch.map_page 3 pm) s 0x1000 0x600000 Size4KiB 1 0 =
    ('(ret, s) ← alloc_table s;
     s ← for_each 512 0 (fun k s => LoongArch.map_page 3 pm (u64 (Z.land 0x600000 (u64 (Z.lnot (0x200000 - 1))) + k * 0x1000))
           (u64 (0x600000 - 0x600000 mod 2 ^ 24 + k * 0x1000))
           (LoongArch.pt_to_vmm_flags_internal (la_huge 0x600000 3)) Size4KiB s)
         (write_entry s 0x1000 0 ret);
     Ret (ret, s)).
Proof.
  intros s pm. split; [reflexivity |].
  apply (loongarch_split_address (LoongArch.map_page 3 pm) s 0x1000 0 0x600000 0x600000 3); [lia | reflexivity | vm_compute; reflexivity].
Defined.
