(* ===== verification/Libc.v ===== *)
(** The freestanding C library: [common/lib/libc.s2.c], [common/lib/libc.c],
    [common/lib/memory.s2.c] and the string helpers of [common/lib/misc.s2.c].

    A [const char *] that is only read is the function from an index to the byte at
    that index; functions that write take the memory. Strings end at a byte 0; the loops
    that run until it have a fuel, and the theorems say that more fuel than the string is
    long is enough. [char] is signed, as on x86. *)

From S2P Require Import Prelude.

Module Libc.

(** [char] from a byte, and a pointer into memory as a string. *)
Definition schar (b : Z) : Z := if b <? 128 then b else b - 256.
Definition str (m : mem) (p : Z) : Z -> Z := fun i => m (p + i).
Definition lit (s : string) : Z -> Z := fun i => default 0 (bytes s !! Z.to_nat i).
Definition tail (s : Z -> Z) (k : Z) : Z -> Z := fun i => s (k + i).

(** * Characters *)

Definition isprint (c : Z) : bool := (c >=? 32) && (c <=? 126).
Definition isspace (c : Z) : bool := ((c >=? 9) && (c <=? 0xD)) || (c =? 32).
Definition isalpha (c : Z) : bool := ((c >=? 97) && (c <=? 122)) || ((c >=? 65) && (c <=? 90)).
Definition isdigit (c : Z) : bool := (c >=? 48) && (c <=? 57).
Definition toupper (c : Z) : Z := if (c >=? 97) && (c <=? 122) then c - 0x20 else c.
Definition tolower (c : Z) : Z := if (c >=? 65) && (c <=? 90) then c + 0x20 else c.
Definition abs (i : Z) : Z := if i <? 0 then - i else i.

(** * Strings *)

Fixpoint strcpy_loop (fuel : nat) (m : mem) (dest src i : Z) : outcome mem :=
  if m (src + i) =? 0 then Ret (mem_set m (dest + i) 0)
  else match fuel with
       | O => Diverge
       | S fuel => strcpy_loop fuel (mem_set m (dest + i) (m (src + i))) dest src (i + 1)
       end.
Definition strcpy (fuel : nat) (m : mem) (dest src : Z) : outcome mem := strcpy_loop fuel m dest src 0.

(** [k] is [n - i]: the iterations left. *)
Fixpoint strncpy_loop (k : nat) (m : mem) (dest src i : Z) : mem :=
  match k with
  | O => m
  | S k' =>
      if m (src + i) =? 0 then for_up k i (fun i m => mem_set m (dest + i) 0) m
      else strncpy_loop k' (mem_set m (dest + i) (m (src + i))) dest src (i + 1)
  end.
Definition strncpy (m : mem) (dest src n : Z) : mem := strncpy_loop (Z.to_nat n) m dest src 0.

Definition cmp (c1 c2 : Z) : Z := if c1 <? c2 then -1 else 1.

Fixpoint strcmp_loop (fuel : nat) (s1 s2 : Z -> Z) (i : Z) : outcome Z :=
  let c1 := s1 i in let c2 := s2 i in
  if negb (c1 =? c2) then Ret (cmp c1 c2)
  else if c1 =? 0 then Ret 0
  else match fuel with O => Diverge | S fuel => strcmp_loop fuel s1 s2 (i + 1) end.
Definition strcmp (fuel : nat) (s1 s2 : Z -> Z) : outcome Z := strcmp_loop fuel s1 s2 0.

Fixpoint strcasecmp_loop (fuel : nat) (s1 s2 : Z -> Z) (i : Z) : outcome Z :=
  let c1 := s1 i in let c2 := s2 i in
  if negb (tolower c1 =? tolower c2) then Ret (cmp c1 c2)
  else if c1 =? 0 then Ret 0
  else match fuel with O => Diverge | S fuel => strcasecmp_loop fuel s1 s2 (i + 1) end.
Definition strcasecmp (fuel : nat) (s1 s2 : Z -> Z) : outcome Z := strcasecmp_loop fuel s1 s2 0.

Fixpoint strncmp_loop (k : nat) (s1 s2 : Z -> Z) (i : Z) : Z :=
  match k with
  | O => 0
  | S k =>
      let c1 := s1 i in let c2 := s2 i in
      if negb (c1 =? c2) then cmp c1 c2
      else if c1 =? 0 then 0
      else strncmp_loop k s1 s2 (i + 1)
  end.
Definition strncmp (s1 s2 : Z -> Z) (n : Z) : Z := strncmp_loop (Z.to_nat n) s1 s2 0.

Fixpoint strncasecmp_loop (k : nat) (s1 s2 : Z -> Z) (i : Z) : Z :=
  match k with
  | O => 0
  | S k =>
      let c1 := s1 i in let c2 := s2 i in
      if negb (tolower c1 =? tolower c2) then cmp c1 c2
      else if c1 =? 0 then 0
      else strncasecmp_loop k s1 s2 (i + 1)
  end.
Definition strncasecmp (s1 s2 : Z -> Z) (n : Z) : Z := strncasecmp_loop (Z.to_nat n) s1 s2 0.

Fixpoint strlen_loop (fuel : nat) (s : Z -> Z) (len : Z) : outcome Z :=
  if s len =? 0 then Ret len
  else match fuel with O => Diverge | S fuel => strlen_loop fuel s (len + 1) end.
Definition strlen (fuel : nat) (s : Z -> Z) : outcome Z := strlen_loop fuel s 0.

Fixpoint strnlen_loop (k : nat) (s : Z -> Z) (len : Z) : Z :=
  match k with
  | O => len
  | S k => if s len =? 0 then len else strnlen_loop k s (len + 1)
  end.
Definition strnlen (s : Z -> Z) (maxlen : Z) : Z := strnlen_loop (Z.to_nat maxlen) s 0.

(** The results are indices from the start; [None] is [NULL]. *)
Fixpoint memchr_loop (k : nat) (p : Z -> Z) (ch i : Z) : option Z :=
  match k with
  | O => None
  | S k => if p i =? ch then Some i else memchr_loop k p ch (i + 1)
  end.
Definition memchr (p : Z -> Z) (ch n : Z) : option Z := memchr_loop (Z.to_nat n) p ch 0.

Fixpoint strchr_loop (fuel : nat) (s : Z -> Z) (ch i : Z) : outcome (option Z) :=
  if schar (s i) =? schar (u8 ch) then Ret (Some i)
  else if s i =? 0 then Ret None
  else match fuel with O => Diverge | S fuel => strchr_loop fuel s ch (i + 1) end.
Definition strchr (fuel : nat) (s : Z -> Z) (ch : Z) : outcome (option Z) := strchr_loop fuel s ch 0.

Fixpoint strrchr_loop (fuel : nat) (s : Z -> Z) (ch i : Z) (p : option Z) : outcome (option Z) :=
  let p := if schar (s i) =? schar (u8 ch) then Some i else p in
  if s i =? 0 then Ret p
  else match fuel with O => Diverge | S fuel => strrchr_loop fuel s ch (i + 1) p end.
Definition strrchr (fuel : nat) (s : Z -> Z) (ch : Z) : outcome (option Z) := strrchr_loop fuel s ch 0 None.

(** * Memory *)

Definition memcpy (m : mem) (dest src n : Z) : mem :=
  for_up (Z.to_nat n) 0 (fun i m => mem_set m (dest + i) (m (src + i))) m.
Definition memset (m : mem) (s c n : Z) : mem :=
  for_up (Z.to_nat n) 0 (fun i m => mem_set m (s + i) (u8 c)) m.
Definition memmove (m : mem) (dest src n : Z) : mem :=
  if src >? dest then for_up (Z.to_nat n) 0 (fun i m => mem_set m (dest + i) (m (src + i))) m
  else if src <? dest then for_down (Z.to_nat n) (fun i m => mem_set m (dest + i) (m (src + i))) m
  else m.

Fixpoint memcmp_loop (k : nat) (p1 p2 : Z -> Z) (i : Z) : Z :=
  match k with
  | O => 0
  | S k => if negb (p1 i =? p2 i) then cmp (p1 i) (p2 i) else memcmp_loop k p1 p2 (i + 1)
  end.
Definition memcmp (p1 p2 : Z -> Z) (n : Z) : Z := memcmp_loop (Z.to_nat n) p1 p2 0.

(** [strdup], given the allocator. *)
Definition strdup {St} (alloc : St -> Z -> outcome (Z * St)) (ram : St -> mem) (put : St -> mem -> St)
    (fuel : nat) (st : St) (s : Z) : outcome (Z * St) :=
  len ← strlen fuel (str (ram st) s);
  let len := len + 1 in
  '(buf, st) ← alloc st len;
  Ret (buf, put st (memcpy (ram st) buf s len)).

(** * Numbers *)

Definition bcd_to_int (val : Z) : Z := u8 (Z.land val 0x0f + Z.shiftr (Z.land val 0xf0) 4 * 10).
Definition int_to_bcd (val : Z) : Z := u8 (Z.lor (val mod 10) (Z.shiftl (val / 10) 4)).

Definition digit_to_int (c : Z) : Z :=
  if (c >=? 97) && (c <=? 102) then c - 97 + 10
  else if (c >=? 65) && (c <=? 70) then c - 65 + 10
  else if (c >=? 48) && (c <=? 57) then c - 48
  else -1.

(** The value and the index of [*end]. *)
Fixpoint strtoui_loop (fuel : nat) (s : Z -> Z) (base n i : Z) : outcome (Z * Z) :=
  let d := digit_to_int (schar (s i)) in
  if (d =? -1) || (d >=? base) then Ret (n, i)
  else match CHECKED_MUL n base with
       | None => Ret (UINT64_MAX, i)
       | Some mul_result =>
           match CHECKED_ADD mul_result d with
           | None => Ret (UINT64_MAX, i)
           | Some n => match fuel with O => Diverge | S fuel => strtoui_loop fuel s base n (i + 1) end
           end
       end.
Definition strtoui (fuel : nat) (s : Z -> Z) (base : Z) : outcome (Z * Z) := strtoui_loop fuel s base 0 0.

(** [strtoul]. [s] is the index of the next character, as the code's [s++]. *)
Fixpoint skip_spaces (fuel : nat) (str : Z -> Z) (s : Z) : outcome (Z * Z) :=
  let c := str s in
  if isspace c then match fuel with O => Diverge | S fuel => skip_spaces fuel str (s + 1) end
  else Ret (schar c, s + 1).

Definition ULONG_MAX : Z := UINT64_MAX.
Definition is_hex (c : Z) : bool :=
  ((c >=? 48) && (c <=? 57)) || ((c >=? 65) && (c <=? 70)) || ((c >=? 97) && (c <=? 102)).

Definition ul_digit (c : Z) : option Z :=
  if (c >=? 48) && (c <=? 57) then Some (c - 48)
  else if (c >=? 65) && (c <=? 90) then Some (c - (65 - 10))
  else if (c >=? 97) && (c <=? 122) then Some (c - (97 - 10))
  else None.

Fixpoint strtoul_loop (fuel : nat) (str : Z -> Z) (base cutoff cutlim c s acc any : Z) : outcome (Z * Z * Z) :=
  match ul_digit c with
  | None => Ret (acc, any, s)
  | Some c =>
      if c >=? base then Ret (acc, any, s)
      else
        let '(acc, any) :=
          if (any <? 0) || (acc >? cutoff) || ((acc =? cutoff) && (c >? cutlim)) then (acc, -1)
          else (u64 (u64 (acc * base) + c), 1) in
        match fuel with
        | O => Diverge
        | S fuel => strtoul_loop fuel str base cutoff cutlim (schar (str s)) (s + 1) acc any
        end
  end.

Definition strtoul (fuel : nat) (str : Z -> Z) (base : Z) : outcome (Z * Z) :=
  '(c, s) ← skip_spaces fuel str 0;
  let '(neg, c, s) :=
    if c =? 45 then (true, schar (str s), s + 1)
    else if c =? 43 then (false, schar (str s), s + 1) else (false, c, s) in
  let '(c, s, base) :=
    if ((base =? 0) || (base =? 16)) && (c =? 48) && ((str s =? 120) || (str s =? 88)) && is_hex (schar (str (s + 1)))
    then (schar (str (s + 1)), s + 2, 16) else (c, s, base) in
  let base := if base =? 0 then if c =? 48 then 8 else 10 else base in
  if (base <? 2) || (base >? 36) then Ret (0, 0)
  else
    '(acc, any, s) ← strtoul_loop fuel str base (ULONG_MAX / base) (ULONG_MAX mod base) c s 0 0;
    let acc :=
      if any <? 0 then ULONG_MAX else if any =? 0 then acc else if neg then u64 (- acc) else acc in
    Ret (acc, if any =? 0 then 0 else s - 1).

(** [inet_pton]: [None] is the result -1, [Some array] the bytes written to [dst]. *)
Fixpoint inet_loop (fuel : nat) (src : Z -> Z) (k : nat) (current : Z) (array : list Z) : outcome (option (list Z)) :=
  match k with
  | O => Ret (Some array)
  | S k =>
      '(value, len) ← strtoui fuel (tail src current) 10;
      if len =? 0 then Ret None
      else
        let current := current + len in
        if negb (src current =? if (0 <? k)%nat then 46 else 0) then Ret None
        else if value >? 255 then Ret None
        else inet_loop fuel src k (current + b2z (0 <? k)%nat) (array ++ [value])
  end.
Definition inet_pton (fuel : nat) (src : Z -> Z) : outcome (option (list Z)) := inet_loop fuel src 4 0 [].

(** * Paths *)

(** [while (path_ptr > orig_ptr && *path_ptr != '/') path_ptr--;
     if (path_ptr == orig_ptr) path_ptr++;] *)
Fixpoint back_up (k : nat) (m : mem) (orig_ptr path_ptr : Z) : Z :=
  match k with
  | O => path_ptr
  | S k => if (path_ptr >? orig_ptr) && negb (m path_ptr =? 47) then back_up k m orig_ptr (path_ptr - 1) else path_ptr
  end.
Definition parent (m : mem) (orig_ptr path_ptr : Z) : Z :=
  let path_ptr := back_up (Z.to_nat (path_ptr - orig_ptr)) m orig_ptr path_ptr in
  if path_ptr =? orig_ptr then path_ptr + 1 else path_ptr.

(** The label [term]. *)
Definition term (m : mem) (orig_ptr path_ptr : Z) : bool * mem :=
  let path_ptr :=
    if (path_ptr >? orig_ptr) && (m (path_ptr - 1) =? 47) && negb (path_ptr - 1 =? orig_ptr)
    then path_ptr - 1 else path_ptr in
  (true, mem_set m path_ptr 0).

(** The [for (;;)]; [first_run] is the entry by [goto]. *)
Fixpoint path_loop (fuel : nat) (m : mem) (orig_ptr end_ptr path path_ptr : Z) (first_run : bool)
    : outcome (bool * mem) :=
  let continue m path path_ptr :=
    match fuel with O => Diverge | S fuel => path_loop fuel m orig_ptr end_ptr path path_ptr false end in
  if first_run || (m path =? 47) then
    let path := if first_run then path else path + 1 in
    let p := str m path in
    if m path =? 47 then continue m path path_ptr
    else if (strncmp p (lit ".") 2 =? 0) || (strncmp p (lit "./") 3 =? 0) then
      Ret (term m orig_ptr path_ptr)
    else if (strncmp p (lit "..") 3 =? 0) || (strncmp p (lit "../") 4 =? 0) then
      Ret (term m orig_ptr (parent m orig_ptr path_ptr))
    else if strncmp p (lit "../") 3 =? 0 then
      let path_ptr := parent m orig_ptr path_ptr in
      continue (mem_set m path_ptr 0) (path + 2) path_ptr
    else if strncmp p (lit "./") 2 =? 0 then continue m (path + 1) path_ptr
    else if (path_ptr >? orig_ptr) && negb (path_ptr - 1 =? orig_ptr) && negb (m (path_ptr - 1) =? 47) then
      if path_ptr >=? end_ptr then Ret (false, m)
      else continue (mem_set m path_ptr 47) path (path_ptr + 1)
    else continue m path path_ptr
  else if m path =? 0 then Ret (term m orig_ptr path_ptr)
  else if path_ptr >=? end_ptr then Ret (false, m)
  else continue (mem_set m path_ptr (m path)) (path + 1) (path_ptr + 1).

Definition get_absolute_path (fuel : nat) (m : mem) (path_ptr path pwd size : Z) : outcome (bool * mem) :=
  let orig_ptr := path_ptr in
  let end_ptr := path_ptr + size - 1 in
  if size =? 0 then Ret (false, m)
  else if m path =? 0 then
    pwd_len ← strlen fuel (str m pwd);
    if pwd_len >=? size then Ret (false, m)
    else Ret (true, mem_copy m path_ptr pwd (pwd_len + 1))
  else if negb (m path =? 47) then
    pwd_len ← strlen fuel (str m pwd);
    if pwd_len >=? size then Ret (false, m)
    else path_loop fuel (mem_copy m path_ptr pwd (pwd_len + 1)) orig_ptr end_ptr path (path_ptr + pwd_len) true
  else path_loop fuel (mem_set m path_ptr 47) orig_ptr end_ptr (path + 1) (path_ptr + 1) true.

End Libc.
