(* ===== verification/LibcCorrect.v ===== *)
(** The C library against lists of bytes. *)

From S2P Require Import Prelude Libc.
Import Libc.

(** * Strings as lists *)

(** [s] is the string [l]: its bytes, none of them 0, then a 0. *)
Record cstr (s : Z -> Z) (l : list Z) : Prop := {
  cs_bytes : Forall (fun b => 0 < b < 256) l;
  cs_at k b : l !! k = Some b -> s (Z.of_nat k) = b;
  cs_end : s (zlen l) = 0;
}.

Lemma cstr_ext s s' l : (forall i, 0 <= i -> s' i = s i) -> cstr s l -> cstr s' l.
Proof.
  intros He [Hb Ha Hz]. split; [done | |].
  - intros k b Hk. rewrite He by lia. by apply Ha.
  - rewrite He; [done |]. apply zlen_nonneg.
Qed.

Lemma cstr_nil s : cstr s [] <-> s 0 = 0.
Proof. split; [by intros [_ _ ?] |]. intros H. split; [done | by intros k b | done]. Qed.

Lemma cstr_cons s b l : cstr s (b :: l) <-> s 0 = b /\ 0 < b < 256 /\ cstr (tail s 1) l.
Proof.
  split.
  - intros [Hb Ha Hz]. apply Forall_cons in Hb as [Hb0 Hb]. split; [by apply (Ha 0%nat) |]. split; [done |].
    split; [done | |].
    + intros k c Hk. unfold tail. rewrite <- (Ha (S k) c Hk). f_equal. lia.
    + unfold tail. rewrite <- Hz. f_equal. rewrite zlen_cons. lia.
  - intros (H0 & Hb & [Hb' Ha Hz]). split.
    + by constructor.
    + intros [|k] c Hk; simplify_eq/=; [done |]. rewrite <- (Ha k c Hk). unfold tail. f_equal. lia.
    + rewrite zlen_cons, <- Hz. unfold tail. f_equal.
Qed.

(** One character further. *)
Lemma cstr_next s i b l : cstr (tail s i) (b :: l) -> s i = b /\ 0 < b < 256 /\ cstr (tail s (i + 1)) l.
Proof.
  intros (H0 & Hb & Hl)%cstr_cons. unfold tail in H0. rewrite Z.add_0_r in H0. split_and!; try done; try lia.
  eapply cstr_ext; [|exact Hl]. intros j Hj. unfold tail. f_equal. lia.
Qed.
Lemma cstr_stop s i : cstr (tail s i) [] -> s i = 0.
Proof. intros H%cstr_nil. unfold tail in H. by rewrite Z.add_0_r in H. Qed.
Lemma cstr_tail0 s l : cstr s l -> cstr (tail s 0) l.
Proof. apply cstr_ext. intros i Hi. unfold tail. by f_equal. Qed.

(** A string in memory. *)
Lemma cstr_mem_of a l : Forall (fun b => 0 < b < 256) l -> cstr (str (mem_of a (l ++ [0])) a) l.
Proof.
  intros Hb. pose proof (bytes_at_mem_of a (l ++ [0])) as H. apply bytes_at_app in H as [H1 H2].
  split; [done | intros k b Hk; by apply H1 |]. pose proof (H2 0%nat 0 eq_refl) as H0. by rewrite Z.add_0_r in H0.
Qed.

Lemma strlen_loop_spec fuel s i l :
  cstr (tail s i) l -> (length l <= fuel)%nat -> strlen_loop fuel s i = Ret (i + zlen l).
Proof.
  revert fuel i; induction l as [|b l IH]; intros fuel i Hs Hf.
  - apply cstr_stop in Hs. destruct fuel; simpl; rewrite Hs; simpl; do 2 f_equal; unfold zlen; simpl; lia.
  - apply cstr_next in Hs as (H0 & Hb & Hs). destruct fuel as [|fuel]; simpl in Hf; [lia |]. simpl.
    rewrite H0, (proj2 (Z.eqb_neq b 0)) by lia. rewrite (IH fuel (i + 1)) by (done || lia).
    f_equal. rewrite zlen_cons. lia.
Qed.
Lemma strlen_spec fuel s l : cstr s l -> (length l <= fuel)%nat -> strlen fuel s = Ret (zlen l).
Proof. intros Hs Hf. unfold strlen. by rewrite (strlen_loop_spec fuel s 0 l) by (done || by apply cstr_tail0). Qed.

(** * Comparisons *)

(** Lexicographic order, as the sign [strcmp] returns. *)
Fixpoint lex (l1 l2 : list Z) : Z :=
  match l1, l2 with
  | [], [] => 0
  | [], _ :: _ => -1
  | _ :: _, [] => 1
  | a :: l1, b :: l2 => if a <? b then -1 else if b <? a then 1 else lex l1 l2
  end.

Lemma lex_zero_eq l1 l2 : lex l1 l2 = 0 <-> l1 = l2.
Proof.
  revert l2; induction l1 as [|a l1 IH]; intros [|b l2]; simpl; try done.
  destruct (Z.ltb_spec a b); [split; intros; simplify_eq; lia |].
  destruct (Z.ltb_spec b a); [split; intros; simplify_eq; lia |].
  assert (a = b) as -> by lia. rewrite IH. split; [by intros -> | by intros [= ->]].
Qed.

(** A string's next character, 0 at its end. *)
Lemma cstr_head s i l : cstr (tail s i) l -> s i = match l with [] => 0 | b :: _ => b end.
Proof. destruct l; [by intros ?%cstr_stop | by intros (? & _)%cstr_next]. Qed.

Lemma strcmp_loop_spec fuel s1 s2 i l1 l2 :
  cstr (tail s1 i) l1 -> cstr (tail s2 i) l2 -> (length l1 <= fuel)%nat ->
  strcmp_loop fuel s1 s2 i = Ret (lex l1 l2).
Proof.
  revert fuel i l2; induction l1 as [|a l1 IH]; intros fuel i l2 H1 H2 Hf.
  - pose proof (cstr_head _ _ _ H1) as E1. pose proof (cstr_head _ _ _ H2) as E2.
    destruct fuel; cbn [strcmp_loop]; rewrite E1, E2; (destruct l2 as [|b l2]; [done |]);
      apply cstr_next in H2 as (_ & Hb & _); rewrite (proj2 (Z.eqb_neq 0 b)) by lia;
      unfold cmp; rewrite (proj2 (Z.ltb_lt 0 b)) by lia; done.
  - pose proof (cstr_head _ _ _ H2) as E2. apply cstr_next in H1 as (E1 & Ha & H1).
    destruct fuel as [|fuel]; cbn [length] in Hf; [lia |]. cbn [strcmp_loop]. rewrite E1, E2.
    destruct l2 as [|b l2].
    + rewrite (proj2 (Z.eqb_neq a 0)) by lia. simpl. unfold cmp. by rewrite (proj2 (Z.ltb_ge a 0)) by lia.
    + apply cstr_next in H2 as (_ & Hb & H2). cbn [lex]. destruct (Z.eqb_spec a b) as [->|Hne]; cbn [negb].
      * rewrite (proj2 (Z.eqb_neq b 0)), Z.ltb_irrefl by lia. apply IH; done || lia.
      * unfold cmp. destruct (Z.ltb_spec a b); [done |]. by rewrite (proj2 (Z.ltb_lt b a)) by lia.
Qed.

Lemma strncmp_loop_spec k s1 s2 i l1 l2 :
  cstr (tail s1 i) l1 -> cstr (tail s2 i) l2 -> strncmp_loop k s1 s2 i = lex (take k l1) (take k l2).
Proof.
  revert i l1 l2; induction k as [|k IH]; intros i l1 l2 H1 H2; [by rewrite !take_0 |]. cbn [strncmp_loop].
  pose proof (cstr_head _ _ _ H1) as E1. pose proof (cstr_head _ _ _ H2) as E2. rewrite E1, E2.
  destruct l1 as [|a l1], l2 as [|b l2]; cbn [take lex].
  - done.
  - apply cstr_next in H2 as (_ & Hb & _). rewrite (proj2 (Z.eqb_neq 0 b)) by lia. unfold cmp.
    by rewrite (proj2 (Z.ltb_lt 0 b)) by lia.
  - apply cstr_next in H1 as (_ & Hb & _). rewrite (proj2 (Z.eqb_neq a 0)) by lia. unfold cmp. simpl.
    by rewrite (proj2 (Z.ltb_ge a 0)) by lia.
  - apply cstr_next in H1 as (_ & Ha & H1). apply cstr_next in H2 as (_ & Hb & H2).
    destruct (Z.eqb_spec a b) as [->|Hne]; cbn [negb].
    + rewrite (proj2 (Z.eqb_neq b 0)), Z.ltb_irrefl by lia. by apply IH.
    + unfold cmp. destruct (Z.ltb_spec a b); [done |]. by rewrite (proj2 (Z.ltb_lt b a)) by lia.
Qed.

(** ** Up to case *)

(** The C string in a buffer. *)
Fixpoint text_of (l : list Z) : list Z :=
  match l with
  | [] => []
  | b :: l => if b =? 0 then [] else b :: text_of l
  end.

Lemma text_of_cstr l k : Forall is_byte l -> l !! k = Some 0 -> cstr (fun i => l.[i]) (text_of l) /\ (length (text_of l) <= k)%nat.
Proof.
  intros HF. revert k. induction HF as [|b l Hb HF IH]; intros k Hk; [done |]. cbn [text_of].
  destruct (Z.eqb_spec b 0) as [->|Hne]; [split; [by apply cstr_nil | simpl; lia] |].
  destruct k as [|k]; [by injection Hk as -> |]. destruct (IH k Hk) as [Hc Hl]. split; [|simpl; lia].
  apply cstr_cons. split; [done |]. unfold is_byte in Hb. split; [lia |]. eapply cstr_ext; [|exact Hc].
  intros i Hi. unfold tail, aget. by replace (Z.to_nat (1 + i)) with (S (Z.to_nat i)) by lia.
Qed.

Definition same (ci : bool) (a b : list Z) : bool :=
  if ci then bool_decide (tolower <$> a = tolower <$> b) else bool_decide (a = b).

Lemma tolower_zero b : 0 <= b -> tolower b = 0 -> b = 0.
Proof. unfold tolower. intros Hb. destruct ((b >=? 65) && (b <=? 90)); lia. Qed.

Lemma strcasecmp_loop_spec fuel s1 s2 i l1 l2 :
  cstr (tail s1 i) l1 -> cstr (tail s2 i) l2 -> (length l1 <= fuel)%nat ->
  exists r, strcasecmp_loop fuel s1 s2 i = Ret r /\ (r = 0 <-> tolower <$> l1 = tolower <$> l2).
Proof.
  assert (forall a b, cmp a b <> 0) as Hcmp by (intros; unfold cmp; case_if; lia).
  revert fuel i l2; induction l1 as [|a l1 IH]; intros fuel i l2 H1 H2 Hf.
  - pose proof (cstr_head _ _ _ H1) as E1. pose proof (cstr_head _ _ _ H2) as E2.
    destruct l2 as [|b l2]; [exists 0; destruct fuel; cbn [strcasecmp_loop]; rewrite E1, E2; done |].
    apply cstr_next in H2 as (_ & Hb & _). exists (cmp 0 b).
    assert ((tolower 0 =? tolower b) = false) as Hne.
    { apply Z.eqb_neq. change (tolower 0) with 0. intros Hz. symmetry in Hz. apply tolower_zero in Hz; lia. }
    destruct fuel; cbn [strcasecmp_loop]; rewrite E1, E2, Hne; (split; [done |]); (split; [by intros ?%Hcmp | done]).
  - pose proof (cstr_head _ _ _ H2) as E2. apply cstr_next in H1 as (E1 & Ha & H1).
    destruct fuel as [|fuel]; cbn [length] in Hf; [lia |]. cbn [strcasecmp_loop]. rewrite E1, E2.
    destruct l2 as [|b l2].
    + assert ((tolower a =? tolower 0) = false) as ->.
      { apply Z.eqb_neq. change (tolower 0) with 0. intros Hz. apply tolower_zero in Hz; lia. }
      simpl. eexists. split; [done |]. split; [by intros ?%Hcmp | done].
    + apply cstr_next in H2 as (_ & Hb & H2). destruct (Z.eqb_spec (tolower a) (tolower b)) as [He|Hne]; cbn [negb].
      * rewrite (proj2 (Z.eqb_neq a 0)) by lia. destruct (IH fuel (i + 1) l2 H1 H2 ltac:(lia)) as (r & -> & Hr).
        exists r. split; [done |]. rewrite Hr. cbn. rewrite He. split; [by intros -> | by intros [=]].
      * eexists. split; [done |]. split; [by intros ?%Hcmp | cbn; by intros [=]].
Qed.

Lemma compare_spec (ci : bool) s1 s2 l1 l2 fuel :
  cstr s1 l1 -> cstr s2 l2 -> (length l1 <= fuel)%nat ->
  exists r, (if ci then strcasecmp else strcmp) fuel s1 s2 = Ret r /\ (r =? 0) = same ci l1 l2.
Proof.
  intros H1%cstr_tail0 H2%cstr_tail0 Hf. destruct ci.
  - destruct (strcasecmp_loop_spec fuel s1 s2 0 l1 l2 H1 H2 Hf) as (r & Hr & Heq). exists r. split; [exact Hr |]. unfold same.
    case_bool_decide; [apply Z.eqb_eq | apply Z.eqb_neq]; tauto.
  - exists (lex l1 l2). split; [by apply strcmp_loop_spec |]. unfold same. pose proof (lex_zero_eq l1 l2).
    case_bool_decide; [apply Z.eqb_eq | apply Z.eqb_neq]; tauto.
Qed.

Lemma text_of_app name r : Forall (fun b => 0 < b < 256) name -> text_of (name ++ 0 :: r) = name.
Proof. induction 1 as [|b name Hb HF IH]; [done |]. cbn [app text_of]. rewrite (proj2 (Z.eqb_neq b 0)) by lia. by rewrite IH. Qed.

Lemma cstr_zero_end name : Forall (fun b => 0 < b < 256) name -> cstr (fun i => (name ++ [0]).[i]) name.
Proof.
  intros HF. destruct (text_of_cstr (name ++ [0]) (length name)) as [Hc _].
  - apply Forall_app. split; [|by constructor]. eapply Forall_impl; [exact HF |]. unfold is_byte. simpl. lia.
  - by apply list_lookup_middle.
  - rewrite text_of_app in Hc by done. exact Hc.
Qed.

Lemma cstr_drop path i name b l : cstr (tail path i) (name ++ b :: l) -> cstr (tail path (i + zlen name + 1)) l.
Proof.
  revert i; induction name as [|c name IH]; intros i Hs; cbn [app] in Hs; apply cstr_next in Hs as (_ & _ & Hs).
  - by rewrite Z.add_0_r.
  - apply IH in Hs. rewrite zlen_cons. by replace (i + (1 + zlen name) + 1) with (i + 1 + zlen name + 1) by lia.
Qed.

Lemma strip_slashes k k' (p p' : list Z) : replicate k 47 ++ p = replicate k' 47 ++ p' ->
  p !! 0%nat <> Some 47 -> p' !! 0%nat <> Some 47 -> p = p'.
Proof.
  revert k'; induction k as [|k IH]; intros [|k'] He Hp Hp'; simpl in He; try (by subst). injection He as He. by eapply IH.
Qed.

(** * Numbers *)

(** The leading digits of a string in a base, as numbers. *)
Fixpoint digits (base : Z) (l : list Z) : list Z :=
  match l with
  | [] => []
  | c :: l => let d := digit_to_int (schar c) in
      if (d =? -1) || (d >=? base) then [] else d :: digits base l
  end.
(** The number they stand for, after a number [n]. *)
Definition value (base n : Z) (ds : list Z) : Z := foldl (fun n d => n * base + d) n ds.

Lemma digit_range c : digit_to_int c = -1 \/ 0 <= digit_to_int c < 16.
Proof. unfold digit_to_int. repeat case_match; lia. Qed.
Lemma digits_range base l : Forall (fun d => 0 <= d < base) (digits base l).
Proof.
  induction l as [|c l IH]; cbn [digits]; [constructor |]. pose proof (digit_range (schar c)).
  destruct ((digit_to_int (schar c) =? -1) || (digit_to_int (schar c) >=? base)) eqn:E; [constructor |].
  apply orb_false_iff in E as [E1 E2]. constructor; [lia | done].
Qed.
Lemma digits_length base l : zlen (digits base l) <= zlen l.
Proof.
  induction l as [|c l IH]; cbn [digits]; [done |].
  case_match; [apply zlen_nonneg |]. rewrite !zlen_cons. lia.
Qed.

Lemma value_ge base n ds : 1 <= base -> 0 <= n -> Forall (fun d => 0 <= d < base) ds -> n <= value base n ds.
Proof.
  intros Hb Hn Hd. revert n Hn; induction Hd as [|d ds Hd _ IH]; intros n Hn; cbn; [lia |].
  etransitivity; [|apply IH; nia]. nia.
Qed.

(** Two hexadecimal digits. *)
Lemma nibbles a b : 0 <= a < 16 -> 0 <= b < 16 -> u8 (Z.lor (Z.shiftl a 4) b) = 16 * a + b.
Proof.
  intros Ha Hb. pose proof (seqZ_forallb (fun a => forallb (fun b => u8 (Z.lor (Z.shiftl a 4) b) =? 16 * a + b) (seqZ 0 16)) 16 a ltac:(vm_compute; reflexivity) Ha) as H.
  cbv beta in H. apply (seqZ_forallb _ 16 b) in H; [by apply Z.eqb_eq in H | done].
Qed.

(** What [strtoui] returns from the [i]th character on, with [n] read so far. *)
Definition strtoui_post (base n i : Z) (ds : list Z) (r : outcome (Z * Z)) : Prop :=
  if value base n ds <? 2 ^ 64 then r = Ret (value base n ds, i + zlen ds)
  else exists k, r = Ret (UINT64_MAX, i + Z.of_nat k) /\ (k < length ds)%nat /\
    value base n (take k ds) < 2 ^ 64 <= value base n (take (S k) ds).

Lemma strtoui_loop_spec fuel s base n i l :
  1 <= base -> is_u64 n -> cstr (tail s i) l -> (length l <= fuel)%nat ->
  strtoui_post base n i (digits base l) (strtoui_loop fuel s base n i).
Proof.
  intros Hb. revert fuel n i; induction l as [|c l IH]; intros fuel n i Hn Hs Hf.
  - apply cstr_stop in Hs. unfold strtoui_post. cbn [digits]. change (value base n []) with n.
    rewrite (proj2 (Z.ltb_lt n _)) by apply Hn. destruct fuel; cbn [strtoui_loop]; rewrite Hs; simpl; do 2 f_equal; unfold zlen; simpl; lia.
  - apply cstr_next in Hs as (Hc & _ & Hs). destruct fuel as [|fuel]; cbn [length] in Hf; [lia |].
    cbn [strtoui_loop digits]. rewrite Hc. pose proof (digits_range base (c :: l)) as Hd. cbn [digits] in Hd. cbv zeta in Hd.
    set (d := digit_to_int (schar c)) in *. destruct ((d =? -1) || (d >=? base)) eqn:Ed.
    { unfold strtoui_post. change (value base n []) with n. rewrite (proj2 (Z.ltb_lt n _)) by apply Hn.
      do 2 f_equal. unfold zlen. simpl. lia. }
    apply Forall_cons in Hd as [Hd Hds]. unfold is_u64 in Hn. unfold strtoui_post, CHECKED_MUL, CHECKED_ADD.
    change (value base n (d :: digits base l)) with (value base (n * base + d) (digits base l)).
    pose proof (value_ge base (n * base + d) (digits base l) Hb ltac:(nia) Hds) as Hge.
    assert (Hover : 2 ^ 64 <= n * base + d ->
      exists k, Ret (UINT64_MAX, i) = Ret (UINT64_MAX, i + Z.of_nat k) /\ (k < length (d :: digits base l))%nat /\
        value base n (take k (d :: digits base l)) < 2 ^ 64 <= value base n (take (S k) (d :: digits base l))).
    { intros Ho. exists O. split; [do 2 f_equal; lia |]. split; [simpl; lia |]. split; [apply Hn | exact Ho]. }
    destruct (Z.ltb_spec (n * base) (2 ^ 64)) as [Hm|Hm].
    2:{ rewrite (proj2 (Z.ltb_ge _ _)) by lia. apply Hover. lia. }
    destruct (Z.ltb_spec (n * base + d) (2 ^ 64)) as [Ha|Ha].
    2:{ rewrite (proj2 (Z.ltb_ge _ _)) by lia. apply Hover. lia. }
    specialize (IH fuel (n * base + d) (i + 1) ltac:(unfold is_u64; nia) Hs ltac:(lia)). unfold strtoui_post in IH.
    destruct (value base (n * base + d) (digits base l) <? 2 ^ 64).
    + rewrite IH. do 2 f_equal. rewrite zlen_cons. lia.
    + destruct IH as (k & -> & Hk & Hv). exists (S k). split; [do 2 f_equal; lia |]. split; [simpl; lia |]. done.
Qed.

Lemma strtoui_spec fuel s base l :
  1 <= base -> cstr s l -> (length l <= fuel)%nat -> strtoui_post base 0 0 (digits base l) (strtoui fuel s base).
Proof. intros Hb Hs Hf. apply strtoui_loop_spec; [done | unfold is_u64; lia | by apply cstr_tail0 | done]. Qed.

(** * Overlapping copies *)

(** Copying upwards from a source above the destination, or downwards from one below. *)
Lemma move_up m dest src k :
  dest <= src ->
  forall x, for_up k 0 (fun i m => mem_set m (dest + i) (m (src + i))) m x = mem_copy m dest src (Z.of_nat k) x.
Proof.
  intros Hle.
  pose proof (for_up_ind (fun i m' => forall x, m' x = mem_copy m dest src i x) k 0
    (fun i m => mem_set m (dest + i) (m (src + i))) m) as H.
  replace (0 + Z.of_nat k) with (Z.of_nat k) in H by lia. apply H.
  - intros x. unfold mem_copy. case_if; [lia | done].
  - intros i m' Hi IH x. unfold mem_set. rewrite !IH. unfold mem_copy.
    destruct (Z.eqb_spec x (dest + i)) as [->|Hne].
    + case_if; [lia |]. case_if; [|lia]. f_equal. lia.
    + repeat case_if; try lia; done.
Qed.
Lemma move_down m dest src k :
  src <= dest ->
  forall x, for_down k (fun i m => mem_set m (dest + i) (m (src + i))) m x = mem_copy m dest src (Z.of_nat k) x.
Proof.
  intros Hle. set (n := Z.of_nat k).
  pose proof (for_down_ind (fun i m' => forall x,
    m' x = if (dest + i <=? x) && (x <? dest + n) then m (src + (x - dest)) else m x) k
    (fun i m => mem_set m (dest + i) (m (src + i))) m) as H.
  intros x. rewrite H.
  - unfold mem_copy. by rewrite Z.add_0_r.
  - intros y. fold n. case_if; [lia | done].
  - intros i m' Hi IH y. unfold mem_set. rewrite !IH. destruct (Z.eqb_spec y (dest + i)) as [->|Hne].
    + case_if; [lia |]. case_if; [|lia]. f_equal. lia.
    + repeat case_if; try lia; done.
Qed.

(** * Dotted quads *)

Lemma cstr_app s i l1 l2 : cstr (tail s i) (l1 ++ l2) -> cstr (tail s (i + zlen l1)) l2.
Proof.
  revert i; induction l1 as [|b l1 IH]; intros i Hs.
  - eapply cstr_ext; [|exact Hs]. intros j Hj. unfold tail. f_equal. unfold zlen. simpl. lia.
  - apply cstr_next in Hs as (_ & _ & Hs). apply IH in Hs. eapply cstr_ext; [|exact Hs].
    intros j Hj. unfold tail. f_equal. rewrite zlen_cons. lia.
Qed.

Definition is_dec (c : Z) : Prop := 48 <= c <= 57.
Lemma dec_digit c : 0 < c < 256 ->
  (is_dec c /\ digit_to_int (schar c) = c - 48) \/
  (~ is_dec c /\ (digit_to_int (schar c) =? -1) || (digit_to_int (schar c) >=? 10) = true).
Proof.
  intros Hc. unfold is_dec, digit_to_int, schar. destruct (Z.ltb_spec c 128); repeat case_match; try lia.
Qed.

(** The decimal digits at the front of a string. *)
Lemma decimal_split l : Forall (fun b => 0 < b < 256) l ->
  exists l1 l2, l = l1 ++ l2 /\ Forall is_dec l1 /\ digits 10 l = ((fun c => c - 48) <$> l1) /\
    (forall c l', l2 = c :: l' -> ~ is_dec c).
Proof.
  induction l as [|c l IH]; intros Hb.
  - exists [], []. by split_and!.
  - apply Forall_cons in Hb as [Hc Hb]. cbn [digits]. destruct (dec_digit c Hc) as [[Hd E]|[Hd E]].
    + destruct (IH Hb) as (l1 & l2 & -> & H1 & H2 & H3). exists (c :: l1), l2. rewrite E.
      assert ((c - 48 =? -1) || (c - 48 >=? 10) = false) as ->.
      { unfold is_dec in Hd. apply orb_false_iff. lia. }
      split_and!; [done | by constructor | by rewrite H2 | done].
    + exists [], (c :: l). rewrite E. split_and!; [done | by constructor | done |]. by intros ? ? [= <- <-].
Qed.

(** A non-empty decimal number up to 255, and [k] of them with dots between. *)
Definition octet (l : list Z) (a : Z) : Prop :=
  l <> [] /\ Forall is_dec l /\ a = value 10 0 ((fun c => c - 48) <$> l) /\ a <= 255.
Fixpoint dotted (k : nat) (l : list Z) (arr : list Z) : Prop :=
  match k with
  | O => False
  | S O => exists a, octet l a /\ arr = [a]
  | S k => exists l1 l2 a arr', l = l1 ++ 46 :: l2 /\ octet l1 a /\ dotted k l2 arr' /\ arr = a :: arr'
  end.

(** Two ways to cut a string after its digits agree. *)
Lemma split_unique l1 l2 r1 r2 :
  l1 ++ r1 = l2 ++ r2 -> Forall is_dec l1 -> Forall is_dec l2 ->
  (forall c l', r1 = c :: l' -> ~ is_dec c) -> (forall c l', r2 = c :: l' -> ~ is_dec c) -> l1 = l2 /\ r1 = r2.
Proof.
  revert l2; induction l1 as [|a l1 IH]; intros [|b l2] He H1 H2 N1 N2; simpl in He.
  - done.
  - apply Forall_cons in H2 as [H2 _]. by destruct (N1 b (l2 ++ r2) He).
  - apply Forall_cons in H1 as [H1 _]. by destruct (N2 a (l1 ++ r1) (eq_sym He)).
  - injection He as -> He. apply Forall_cons in H1 as [_ H1]. apply Forall_cons in H2 as [_ H2].
    by destruct (IH l2 He H1 H2 N1 N2) as [-> ->].
Qed.

(** What comes after the digits decides. *)
Definition delimited (k : nat) (l2 : list Z) : Prop :=
  match k with O => l2 = [] | S _ => exists l', l2 = 46 :: l' end.

Lemma dotted_inv k l arr l1 l2 :
  l = l1 ++ l2 -> Forall is_dec l1 -> (forall c l', l2 = c :: l' -> ~ is_dec c) ->
  dotted (S k) l arr -> delimited k l2 /\ exists a, octet l1 a.
Proof.
  intros -> H1 N. assert (Hdot : forall c l' l0, 46 :: l0 = c :: l' -> ~ is_dec c)
    by (intros c l' l0 [= <- _]; unfold is_dec; lia).
  destruct k as [|k]; cbn [dotted].
  - intros (a & Ho & _). destruct (split_unique l1 (l1 ++ l2) l2 []) as [E ->]; [by rewrite app_nil_r | done | apply Ho | done | done |].
    split; [done |]. exists a. by rewrite app_nil_r in Ho.
  - intros (l1' & l2' & a & arr' & E & Ho & _). destruct (split_unique l1 l1' l2 (46 :: l2')) as [-> ->]; try done; [apply Ho | eauto |].
    split; [by eexists | by exists a].
Qed.

Lemma delimited_head k s i l2 : cstr (tail s i) l2 ->
  (s i = (if (0 <? k)%nat then 46 else 0)) <-> delimited k l2.
Proof.
  intros Hs. rewrite (cstr_head _ _ _ Hs). destruct k as [|k]; cbn [delimited].
  - change (0 <? 0)%nat with false. destruct l2 as [|b l2]; [done |]. apply cstr_next in Hs as (_ & Hb & _).
    split; [lia | done].
  - change (0 <? S k)%nat with true. destruct l2 as [|b l2]; [by split; [|intros [? ?]] |].
    split; [intros ->; by eexists | by intros [l' [= -> _]]].
Qed.

(** One octet. *)
Lemma inet_step fuel src k current acc l :
  cstr (tail src current) l -> (length l <= fuel)%nat ->
  (inet_loop fuel src (S k) current acc = Ret None /\ ~ exists arr, dotted (S k) l arr) \/
  exists l1 l2 a, l = l1 ++ l2 /\ octet l1 a /\ delimited k l2 /\ cstr (tail src (current + zlen l1)) l2 /\
    inet_loop fuel src (S k) current acc =
      inet_loop fuel src k (current + zlen l1 + b2z (0 <? k)%nat) (acc ++ [a]).
Proof.
  intros Hs Hf. destruct (decimal_split l (cs_bytes _ _ Hs)) as (l1 & l2 & El & H1 & Hd & N).
  pose proof (strtoui_spec fuel (tail src current) 10 l ltac:(lia) Hs Hf) as Hp. rewrite Hd in Hp.
  assert (Hlen : zlen ((fun c => c - 48) <$> l1) = zlen l1) by (unfold zlen; by rewrite length_fmap).
  assert (Hinv : forall arr, dotted (S k) l arr -> delimited k l2 /\ exists a, octet l1 a)
    by (intros arr; by apply dotted_inv).
  assert (Hs2 : cstr (tail src (current + zlen l1)) l2) by (apply cstr_app; by rewrite <- El).
  unfold strtoui_post in Hp. cbn [inet_loop]. set (v := value 10 0 ((fun c => c - 48) <$> l1)) in *.
  destruct (Z.ltb_spec v (2 ^ 64)) as [Hv|Hv].
  - rewrite Hp, Hlen. cbn [mbind outcome_bind]. replace (0 + zlen l1) with (zlen l1) by lia.
    destruct (Z.eqb_spec (zlen l1) 0) as [H0|H0].
    { left. split; [done |]. intros [arr Harr]. destruct (Hinv arr Harr) as (_ & a & Hne & _). apply Hne.
      destruct l1; [done |]. rewrite zlen_cons in H0. pose proof (zlen_nonneg l1). lia. }
    pose proof (delimited_head k src _ l2 Hs2) as Hdel.
    destruct (Z.eqb_spec (src (current + zlen l1)) (if (0 <? k)%nat then 46 else 0)) as [Hc|Hc]; cbn [negb].
    2:{ left. split; [done |]. intros [arr Harr]. destruct (Hinv arr Harr) as (Hx & _). by apply Hc, Hdel. }
    destruct (v >? 255) eqn:E255.
    { left. split; [done |]. intros [arr Harr]. destruct (Hinv arr Harr) as (_ & a & _ & _ & -> & Ha). fold v in Ha. lia. }
    right. exists l1, l2, v. split_and!; try done; [|by apply Hdel].
    split_and!; [|done|done|lia]. intros ->. by apply H0.
  - left. split.
    + destruct Hp as (j & -> & Hj & _). rewrite length_fmap in Hj. cbn [mbind outcome_bind].
      case_match; [done |]. replace (current + (0 + Z.of_nat j)) with (current + Z.of_nat j) by lia.
      destruct (lookup_lt_is_Some_2 l1 j Hj) as [c Hc].
      assert (src (current + Z.of_nat j) = c) as ->.
      { change (tail src current (Z.of_nat j) = c). apply (cs_at _ _ Hs). rewrite El. by apply lookup_app_l_Some. }
      pose proof (Forall_lookup_1 _ _ _ _ H1 Hc) as Hdec. unfold is_dec in Hdec.
      rewrite (proj2 (Z.eqb_neq c _)); [done |]. case_match; lia.
    + intros [arr Harr]. destruct (Hinv arr Harr) as (_ & a & _ & _ & -> & Ha). fold v in Ha. lia.
Qed.

Lemma inet_loop_spec fuel src k current acc l :
  cstr (tail src current) l -> (length l <= fuel)%nat ->
  match inet_loop fuel src (S k) current acc with
  | Ret (Some arr) => exists arr', dotted (S k) l arr' /\ arr = acc ++ arr'
  | Ret None => ~ exists arr', dotted (S k) l arr'
  | _ => False
  end.
Proof.
  revert current acc l; induction k as [|k IH]; intros current acc l Hs Hf.
  - destruct (inet_step fuel src 0 current acc l Hs Hf) as [[-> Hn]|(l1 & l2 & a & El & Ho & Hdel & _ & ->)]; [done |].
    cbn [delimited] in Hdel. subst l2 l. exists [a]. split; [|done]. exists a. by rewrite app_nil_r.
  - destruct (inet_step fuel src (S k) current acc l Hs Hf) as [[-> Hn]|(l1 & l2 & a & -> & Ho & (l' & ->) & Hs2 & ->)]; [done |].
    apply cstr_next in Hs2 as (_ & _ & Hs2). change (b2z (0 <? S k)%nat) with 1.
    rewrite length_app in Hf. cbn [length] in Hf.
    specialize (IH (current + zlen l1 + 1) (acc ++ [a]) l' Hs2 ltac:(lia)).
    destruct (inet_loop _ _ _ _ _) as [[arr|]| |]; try done.
    + destruct IH as (arr' & Hd & ->). exists (a :: arr'). rewrite <- app_assoc. split; [|done].
      by exists l1, l', a, arr'.
    + intros [arr Harr]. apply IH. destruct Harr as (l1' & l2' & a' & arr' & E & Ho' & Hd & _).
      destruct (split_unique l1 l1' (46 :: l') (46 :: l2')) as [-> [= ->]]; try apply Ho; try apply Ho'; try done;
        [intros c l0 [= <- _]; unfold is_dec; lia.. | by exists arr'].
Qed.

(** * Absolute paths *)

Lemma cstr_local s s' l : (forall i, 0 <= i <= zlen l -> s' i = s i) -> cstr s l -> cstr s' l.
Proof.
  intros He [Hb Ha Hz]. split; [done | |].
  - intros k b Hk. pose proof (lookup_lt_Some _ _ _ Hk). rewrite He by (unfold zlen; lia). by apply Ha.
  - rewrite He; [done |]. pose proof (zlen_nonneg l). lia.
Qed.

Lemma cstr_lit s : Forall (fun b => 0 < b < 256) (bytes s) -> cstr (lit s) (bytes s).
Proof.
  intros Hb. split; [done | |].
  - intros k b Hk. unfold lit. by rewrite Nat2Z.id, Hk.
  - unfold lit, zlen. by rewrite Nat2Z.id, lookup_ge_None_2 by lia.
Qed.

(** [strncmp] with a literal finds it at the front of the string. *)
Lemma strncmp_prefix p l s :
  cstr p l -> Forall (fun b => 0 < b < 256) (bytes s) ->
  strncmp p (lit s) (zlen (bytes s)) = 0 -> exists l', l = bytes s ++ l'.
Proof.
  intros Hp Hb Hc. unfold strncmp in Hc.
  rewrite (strncmp_loop_spec _ p (lit s) 0 l (bytes s)), lex_zero_eq in Hc by (apply cstr_tail0; [done..] || apply cstr_tail0, cstr_lit, Hb).
  unfold zlen in Hc. rewrite Nat2Z.id, (take_ge (bytes s)) in Hc by lia.
  exists (drop (length (bytes s)) l). rewrite <- Hc at 1. by rewrite take_drop.
Qed.

(** A string in a buffer, and what it begins with. *)
Lemma cstr_prefix text r : Forall (fun b => 0 < b < 256) text -> cstr (fun i => (text ++ 0 :: r).[i]) text.
Proof.
  intros HF. eapply cstr_local; [|by apply cstr_zero_end]. intros i Hi. cbn. destruct (decide (i = zlen text)) as [->|]; [by rewrite !aget_here |]. by rewrite !aget_app_l by lia.
Qed.
Fixpoint begins (w l : list Z) : bool :=
  match w, l with [], _ => true | _, [] => false | a :: w, b :: l => (a =? b) && begins w l end.
Lemma begins_take w l : begins w l = bool_decide (take (length w) l = w).
Proof.
  revert l; induction w as [|a w IH]; intros l; [by rewrite bool_decide_true |]. destruct l as [|b l]; cbn [begins length take]; [by rewrite bool_decide_false |].
  rewrite IH. destruct (Z.eqb_spec a b) as [->|Hne]; cbn [andb]; [apply bool_decide_ext; split; congruence |]. symmetry. apply bool_decide_eq_false. congruence.
Qed.
Lemma strncmp_begins p l s : cstr p l -> Forall (fun b => 0 < b < 256) (bytes s) -> (strncmp p (lit s) (zlen (bytes s)) =? 0) = begins (bytes s) l.
Proof.
  intros Hp Hb. unfold strncmp, zlen. rewrite Nat2Z.id, (strncmp_loop_spec _ p (lit s) 0 l (bytes s)); [| by apply cstr_tail0 | by apply cstr_tail0, cstr_lit].
  rewrite firstn_all, begins_take. case_bool_decide as E; [apply Z.eqb_eq; by apply lex_zero_eq | apply Z.eqb_neq]. by rewrite lex_zero_eq.
Qed.

Lemma back_up_range k m orig p : orig <= p -> orig <= back_up k m orig p <= p.
Proof.
  revert p; induction k as [|k IH]; intros p Hp; cbn [back_up]; [lia |].
  case_if; [|lia]. assert (orig <= p - 1) by lia. specialize (IH (p - 1)). lia.
Qed.

Section path.
Context (m0 : mem) (orig size : Z).
Hypothesis (Hsize : 2 <= size).
Notation end_ptr := (orig + size - 1).
Definition in_buffer (x : Z) : Prop := orig <= x < orig + size.
(** Nothing outside the buffer has changed. *)
Definition framed (m : mem) : Prop := forall x, ~ in_buffer x -> m x = m0 x.

Lemma framed_set m a v : framed m -> in_buffer a -> framed (mem_set m a v).
Proof. intros Hf Ha x Hx. unfold mem_set. destruct (Z.eqb_spec x a) as [->|]; [done | auto]. Qed.

Lemma parent_range m p : orig <= p <= end_ptr -> orig <= parent m orig p <= end_ptr.
Proof.
  intros Hp. unfold parent. pose proof (back_up_range (Z.to_nat (p - orig)) m orig p).
  destruct (Z.eqb_spec (back_up (Z.to_nat (p - orig)) m orig p) orig); lia.
Qed.

Definition path_post (r : outcome (bool * mem)) : Prop :=
  match r with
  | Ret (b, m') => framed m' /\ (b = true -> exists x, in_buffer x /\ m' x = 0)
  | _ => False
  end.

Lemma term_post m p : framed m -> orig <= p <= end_ptr -> path_post (Ret (term m orig p)).
Proof.
  intros Hf Hp. unfold term. cbv zeta.
  set (q := if (p >? orig) && (m (p - 1) =? 47) && negb (p - 1 =? orig) then p - 1 else p).
  assert (Hq : in_buffer q) by (unfold q, in_buffer; destruct (p >? orig) eqn:?; cbn [andb]; [case_match|]; lia).
  split; [by apply framed_set |]. intros _. exists q. split; [done |]. unfold mem_set. by rewrite Z.eqb_refl.
Qed.

(** The path is a string outside the buffer. *)
Record path_str (m : mem) (path : Z) (l : list Z) : Prop := {
  ps_str : cstr (str m path) l;
  ps_apart : forall i, 0 <= i <= zlen l -> ~ in_buffer (path + i);
}.

Lemma path_str_set m path l a v : path_str m path l -> in_buffer a -> path_str (mem_set m a v) path l.
Proof.
  intros [Hs Ha] Hb. split; [|done]. eapply cstr_local; [|exact Hs]. intros i Hi. unfold str, mem_set.
  destruct (Z.eqb_spec (path + i) a) as [<-|]; [by destruct (Ha i Hi) | done].
Qed.
Lemma path_str_drop m path l1 l2 : path_str m path (l1 ++ l2) -> path_str m (path + zlen l1) l2.
Proof.
  intros [Hs Ha]. pose proof (zlen_nonneg l1). split.
  - apply cstr_tail0, cstr_app in Hs. eapply cstr_ext; [|exact Hs]. intros i Hi. unfold str, tail. f_equal. lia.
  - intros i Hi. replace (path + zlen l1 + i) with (path + (zlen l1 + i)) by lia. apply Ha. rewrite zlen_app. lia.
Qed.
Lemma path_str_head m path l b : path_str m path l -> m path = b -> b <> 0 -> exists l', l = b :: l'.
Proof.
  intros [Hs _] Hb Hn. apply cstr_tail0, cstr_head in Hs. unfold str in Hs. rewrite Z.add_0_r in Hs.
  destruct l as [|c l]; [congruence |]. exists l. congruence.
Qed.

(** One iteration, with the next ones as [cont]. *)
Definition path_body (cont : mem -> Z -> Z -> outcome (bool * mem)) (m : mem) (path p : Z) (first : bool) : outcome (bool * mem) :=
  if first || (m path =? 47) then
    let path := if first then path else path + 1 in
    let s := str m path in
    if m path =? 47 then cont m path p
    else if (strncmp s (lit ".") 2 =? 0) || (strncmp s (lit "./") 3 =? 0) then Ret (term m orig p)
    else if (strncmp s (lit "..") 3 =? 0) || (strncmp s (lit "../") 4 =? 0) then Ret (term m orig (parent m orig p))
    else if strncmp s (lit "../") 3 =? 0 then cont (mem_set m (parent m orig p) 0) (path + 2) (parent m orig p)
    else if strncmp s (lit "./") 2 =? 0 then cont m (path + 1) p
    else if (p >? orig) && negb (p - 1 =? orig) && negb (m (p - 1) =? 47) then
      if p >=? end_ptr then Ret (false, m) else cont (mem_set m p 47) path (p + 1)
    else cont m path p
  else if m path =? 0 then Ret (term m orig p)
  else if p >=? end_ptr then Ret (false, m)
  else cont (mem_set m p (m path)) (path + 1) (p + 1).

Lemma path_loop_body fuel m path p first :
  path_loop fuel m orig end_ptr path p first =
  path_body (fun m path p => match fuel with O => Diverge | S fuel => path_loop fuel m orig end_ptr path p false end)
    m path p first.
Proof. by destruct fuel. Qed.

Lemma path_body_safe cont m path p first l :
  framed m -> orig <= p <= end_ptr -> path_str m path l ->
  (forall m' path' p' l', framed m' -> orig <= p' <= end_ptr -> path_str m' path' l' ->
     (length l' < length l + Nat.b2n first)%nat -> path_post (cont m' path' p')) ->
  path_post (path_body cont m path p first).
Proof.
  intros Hf Hp Hs Hcont. pose proof (parent_range m p Hp) as Hpar. unfold path_body.
  destruct (first || (m path =? 47)) eqn:E1.
  - assert (exists l1, path_str m (if first then path else path + 1) l1 /\ (length l1 < length l + Nat.b2n first)%nat)
      as (l1 & Hs1 & Hlt).
    { destruct first; [exists l; split; [done | simpl; lia] |]. cbn [orb] in E1. apply Z.eqb_eq in E1.
      destruct (path_str_head m path l 47 Hs E1) as [l' ->]; [lia |]. exists l'. split; [|simpl; lia].
      by apply (path_str_drop m path [47] l'). }
    cbv zeta. set (q := if first then path else path + 1) in *.
    destruct (m q =? 47); [by apply (Hcont m q p l1) |].
    case_match; [by apply term_post |]. case_match; [by apply term_post |].
    destruct (Z.eqb_spec (strncmp (str m q) (lit "../") 3) 0) as [E2|_].
    { destruct (strncmp_prefix (str m q) l1 "../" (ps_str _ _ _ Hs1)) as [l2 El]; [repeat constructor; lia | done |].
      assert (Hb : in_buffer (parent m orig p)) by (unfold in_buffer; lia).
      apply (Hcont _ _ _ (47 :: l2)); [by apply framed_set | done | | subst l1; simpl in *; lia].
      apply path_str_set; [|done]. subst l1. by apply (path_str_drop m q [46; 46] (47 :: l2)). }
    destruct (Z.eqb_spec (strncmp (str m q) (lit "./") 2) 0) as [E2|_].
    { destruct (strncmp_prefix (str m q) l1 "./" (ps_str _ _ _ Hs1)) as [l2 El]; [repeat constructor; lia | done |].
      apply (Hcont _ _ _ (47 :: l2)); [done | done | | subst l1; simpl in *; lia].
      subst l1. by apply (path_str_drop m q [46] (47 :: l2)). }
    case_match; [|by apply (Hcont m q p l1)].
    destruct (p >=? end_ptr) eqn:Ee; [by split |].
    assert (Hb : in_buffer p) by (unfold in_buffer; lia).
    apply (Hcont _ _ _ l1); [by apply framed_set | lia | by apply path_str_set | done].
  - destruct first; [done |]. cbn [orb] in E1.
    destruct (Z.eqb_spec (m path) 0) as [E2|E2]; [by apply term_post |].
    destruct (p >=? end_ptr) eqn:Ee; [by split |].
    destruct (path_str_head m path l (m path) Hs eq_refl E2) as [l' El]. assert (Hb : in_buffer p) by (unfold in_buffer; lia).
    apply (Hcont _ _ _ l'); [by apply framed_set | lia | | rewrite El; simpl; lia].
    apply path_str_set; [|done]. rewrite El in Hs. by apply (path_str_drop m path [m path] l').
Qed.

Lemma path_loop_safe fuel m path p first l :
  framed m -> orig <= p <= end_ptr -> path_str m path l -> (length l + Nat.b2n first <= fuel)%nat ->
  path_post (path_loop fuel m orig end_ptr path p first).
Proof.
  revert m path p first l; induction fuel as [|fuel IH]; intros m path p first l Hf Hp Hs Hfuel;
    rewrite path_loop_body; apply (path_body_safe _ m path p first l Hf Hp Hs); intros m' path' p' l' Hf' Hp' Hs' Hlt.
  - lia.
  - apply (IH m' path' p' false l'); try done. simpl. lia.
Qed.
End path.

Lemma path_str_frame m m' orig size path l :
  path_str orig size m path l -> framed m orig size m' -> path_str orig size m' path l.
Proof.
  intros [Hs Ha] Hf. split; [|done]. eapply cstr_local; [|exact Hs]. intros i Hi. unfold str. by apply Hf, Ha.
Qed.

Lemma copy_framed m dst src n size : n <= size -> framed m dst size (mem_copy m dst src n).
Proof. intros Hn x Hx. unfold mem_copy, in_buffer in *. case_if; [lia | done]. Qed.

Lemma get_absolute_path_lemma fuel m orig path pwd size l lp :
  2 <= size -> path_str orig size m path l -> cstr (str m pwd) lp -> (length l < fuel)%nat -> (length lp <= fuel)%nat ->
  path_post m orig size (get_absolute_path fuel m orig path pwd size).
Proof.
  intros Hsize Hs Hpwd Hf1 Hf2. unfold get_absolute_path. rewrite (proj2 (Z.eqb_neq size 0)) by lia.
  assert (H0 : framed m orig size m) by done. pose proof (zlen_nonneg lp).
  destruct (m path =? 0); [|destruct (m path =? 47) eqn:E47; cbn [negb]].
  - rewrite (strlen_spec fuel _ lp) by done. cbn [mbind outcome_bind]. destruct (zlen lp >=? size) eqn:E; [by split |].
    split; [apply copy_framed; lia |]. intros _. exists (orig + zlen lp). split; [unfold in_buffer; lia |].
    unfold mem_copy. case_if; [|lia]. replace (pwd + (orig + zlen lp - orig)) with (pwd + zlen lp) by lia. exact (cs_end _ _ Hpwd).
  - destruct (path_str_head orig size m path l 47 Hs ltac:(lia) ltac:(lia)) as [l' ->].
    assert (Hb : in_buffer orig size orig) by (unfold in_buffer; lia).
    apply (path_loop_safe m orig size Hsize _ _ _ _ _ l'); [by apply framed_set | lia | | simpl in *; lia].
    apply path_str_set; [|done]. by apply (path_str_drop orig size m path [47] l').
  - rewrite (strlen_spec fuel _ lp) by done. cbn [mbind outcome_bind]. destruct (zlen lp >=? size) eqn:E; [by split |].
    assert (Hcf : framed m orig size (mem_copy m orig pwd (zlen lp + 1))) by (apply copy_framed; lia).
    apply (path_loop_safe m orig size Hsize _ _ _ _ _ l); [done | lia | by eapply path_str_frame | simpl; lia].
Qed.

(** * [strtoul] *)

Lemma ul_digit_range c d : ul_digit c = Some d -> 0 <= d < 36.
Proof. unfold ul_digit. repeat case_match; intros; simplify_eq; lia. Qed.

(** The leading digits, in bases up to 36. *)
Fixpoint ul_digits (base : Z) (l : list Z) : list Z :=
  match l with
  | [] => []
  | c :: l => match ul_digit (schar c) with
              | Some d => if d >=? base then [] else d :: ul_digits base l
              | None => []
              end
  end.
Lemma ul_digits_range base l : Forall (fun d => 0 <= d < base) (ul_digits base l).
Proof.
  induction l as [|c l IH]; cbn [ul_digits]; [constructor |]. destruct (ul_digit (schar c)) as [d|] eqn:E; [|constructor].
  apply ul_digit_range in E. destruct (d >=? base) eqn:Eb; [constructor |]. constructor; [lia | done].
Qed.

(** The accumulator: the number so far, or the mark of an overflow. *)
Definition ul_state (base n : Z) (acc any : Z) : Prop :=
  (any = -1 /\ 2 ^ 64 <= n) \/ (any <> -1 /\ 0 <= any <= 1 /\ acc = n /\ 0 <= n < 2 ^ 64).

Lemma cutoff_exact base acc c :
  2 <= base <= 36 -> 0 <= acc < 2 ^ 64 -> 0 <= c < base ->
  ((acc >? ULONG_MAX / base) || ((acc =? ULONG_MAX / base) && (c >? ULONG_MAX mod base))) = (2 ^ 64 <=? acc * base + c).
Proof.
  intros Hb Ha Hc. unfold ULONG_MAX, UINT64_MAX. set (U := 2 ^ 64 - 1) in *.
  pose proof (Z.div_mod U base ltac:(lia)) as Hd. pose proof (Z.mod_pos_bound U base ltac:(lia)) as Hm.
  set (q := U / base) in *. set (r := U mod base) in *. assert (HU : 2 ^ 64 = U + 1) by (unfold U; lia).
  rewrite HU. clearbody U q r. destruct (Z.gtb_spec acc q) as [H1|H1]; cbn [orb].
  - symmetry. apply Z.leb_le. nia.
  - destruct (Z.eqb_spec acc q) as [->|H2]; cbn [andb].
    + destruct (Z.gtb_spec c r); symmetry; [apply Z.leb_le | apply Z.leb_gt]; nia.
    + symmetry. apply Z.leb_gt. nia.
Qed.

Lemma strtoul_loop_spec fuel str base s acc any n l :
  2 <= base <= 36 -> cstr (tail str s) l -> (length l <= fuel)%nat -> ul_state base n acc any -> 0 <= n ->
  exists acc' any', strtoul_loop fuel str base (ULONG_MAX / base) (ULONG_MAX mod base) (schar (str s)) (s + 1) acc any
    = Ret (acc', any', s + 1 + zlen (ul_digits base l)) /\
    ul_state base (value base n (ul_digits base l)) acc' any' /\
    (ul_digits base l = [] -> any' = any /\ acc' = acc) /\ (ul_digits base l <> [] -> any' <> 0).
Proof.
  intros Hb. revert fuel s acc any n; induction l as [|c l IH]; intros fuel s acc any n Hs Hf Hst Hn.
  - apply cstr_stop in Hs. exists acc, any. cbn [ul_digits]. split; [|done].
    destruct fuel; cbn [strtoul_loop]; rewrite Hs; simpl; do 2 f_equal; unfold zlen; simpl; lia.
  - apply cstr_next in Hs as (Hc & _ & Hs). destruct fuel as [|fuel]; cbn [length] in Hf; [lia |].
    cbn [strtoul_loop ul_digits]. rewrite Hc. destruct (ul_digit (schar c)) as [d|] eqn:Ed.
    2:{ exists acc, any. split; [do 2 f_equal; unfold zlen; simpl; lia |]. done. }
    pose proof (ul_digit_range _ _ Ed) as Hd. destruct (d >=? base) eqn:Edb.
    { exists acc, any. split; [do 2 f_equal; unfold zlen; simpl; lia |]. done. }
    change (value base n (d :: ul_digits base l)) with (value base (n * base + d) (ul_digits base l)).
    assert (Hnext : forall acc1 any1, ul_state base (n * base + d) acc1 any1 -> any1 <> 0 ->
      exists acc' any', strtoul_loop fuel str base (ULONG_MAX / base) (ULONG_MAX mod base) (schar (str (s + 1))) (s + 1 + 1) acc1 any1
        = Ret (acc', any', s + 1 + zlen (d :: ul_digits base l)) /\
        ul_state base (value base (n * base + d) (ul_digits base l)) acc' any' /\
        (d :: ul_digits base l = [] -> any' = any /\ acc' = acc) /\ (d :: ul_digits base l <> [] -> any' <> 0)).
    { intros acc1 any1 Hst1 Hany1. destruct (IH fuel (s + 1) acc1 any1 (n * base + d) Hs ltac:(lia) Hst1 ltac:(nia))
        as (acc' & any' & -> & Hst' & He & Hne). exists acc', any'. split; [do 2 f_equal; rewrite zlen_cons; lia |].
      split; [done |]. split; [done |]. intros _. destruct (ul_digits base l) as [|x xs]; [destruct (He eq_refl); congruence | by apply Hne]. }
    destruct Hst as [[-> Hov]|(Hany & Hany' & -> & Hn64)].
    + change (-1 <? 0) with true. cbn [orb]. apply Hnext; [left; split; [done | nia] | lia].
    + rewrite (proj2 (Z.ltb_ge any 0)) by lia. cbn [orb]. rewrite cutoff_exact by lia.
      destruct (Z.leb_spec (2 ^ 64) (n * base + d)) as [Ho|Ho]; cbv zeta beta iota.
      * apply Hnext; [left; split; [done | lia] | lia].
      * apply Hnext; [right | lia]. rewrite (u64_small (n * base)), u64_small by nia. split_and!; lia.
Qed.

Lemma skip_spaces_spec fuel str s sp l :
  cstr (tail str s) (sp ++ l) -> (length sp <= fuel)%nat -> Forall (fun c => isspace c = true) sp ->
  (forall c l', l = c :: l' -> isspace c = false) ->
  skip_spaces fuel str s = Ret (schar (str (s + zlen sp)), s + zlen sp + 1).
Proof.
  revert fuel s; induction sp as [|c sp IH]; intros fuel s Hs Hf Hsp Hl.
  - replace (s + zlen []) with s by (unfold zlen; simpl; lia).
    assert (isspace (str s) = false) as E.
    { rewrite (cstr_head _ _ _ Hs). destruct l as [|b l]; [done | by eapply Hl]. }
    destruct fuel; cbn [skip_spaces]; by rewrite E.
  - apply Forall_cons in Hsp as [Hc Hsp]. apply cstr_next in Hs as (E & _ & Hs).
    destruct fuel as [|fuel]; cbn [length] in Hf; [lia |]. cbn [skip_spaces]. rewrite E, Hc.
    rewrite (IH fuel (s + 1)) by (done || lia). rewrite zlen_cons. do 3 f_equal; [f_equal |]; lia.
Qed.

(** What [strtoul] makes of the digits [ds] after [skip] characters. *)
Definition strtoul_result (base : Z) (neg : bool) (skip : Z) (ds : list Z) : Z * Z :=
  let v := value base 0 ds in
  match ds with
  | [] => (0, 0)
  | _ => (if 2 ^ 64 <=? v then ULONG_MAX else if neg then u64 (- v) else v, skip + zlen ds)
  end.

Lemma strtoul_tail fuel str base s l (neg : bool) :
  2 <= base <= 36 -> cstr (tail str s) l -> (length l <= fuel)%nat ->
  ('(acc, any, s) ← strtoul_loop fuel str base (ULONG_MAX / base) (ULONG_MAX mod base) (schar (str s)) (s + 1) 0 0;
   let acc := if any <? 0 then ULONG_MAX else if any =? 0 then acc else if neg then u64 (- acc) else acc in
   Ret (acc, if any =? 0 then 0 else s - 1)) = Ret (strtoul_result base neg s (ul_digits base l)).
Proof.
  intros Hb Hs Hf. assert (Hst : ul_state base 0 0 0) by (right; lia).
  destruct (strtoul_loop_spec fuel str base s 0 0 0 l Hb Hs Hf Hst ltac:(lia)) as (acc & any & -> & Hst' & He & Hne).
  cbn [mbind outcome_bind]. unfold strtoul_result. destruct (ul_digits base l) as [|d ds].
  - destruct (He eq_refl) as [-> ->]. done.
  - specialize (Hne ltac:(done)). rewrite (proj2 (Z.eqb_neq any 0)) by done.
    replace (s + 1 + zlen (d :: ds) - 1) with (s + zlen (d :: ds)) by lia.
    destruct Hst' as [[-> Ho]|(Hx & Hr & -> & Hv)].
    + change (-1 <? 0) with true. by rewrite (proj2 (Z.leb_le _ _)) by done.
    + rewrite (proj2 (Z.ltb_ge any 0)), (proj2 (Z.leb_gt _ _)) by lia. done.
Qed.

(** * Properties *)

(** A string in memory for the witnesses. *)
Definition text (s : string) : Z -> Z := str (mem_of 0x1000 (bytes s ++ [0])) 0x1000.
Lemma text_cstr s : forallb (fun b => (0 <? b) && (b <? 256)) (bytes s) = true -> cstr (text s) (bytes s).
Proof.
  intros H. apply cstr_mem_of. rewrite Forall_forall. intros b Hb. rewrite forallb_forall in H.
  specialize (H b ltac:(by apply list_elem_of_In)). lia.
Qed.

(** [strcmp] returns the lexicographic comparison of two strings, so 0 exactly for
    equal ones, and [strncmp] that of their first [n] characters. *)
Theorem strcmp_correct fuel s1 s2 l1 l2 :
  cstr s1 l1 -> cstr s2 l2 -> (length l1 <= fuel)%nat ->
  strcmp fuel s1 s2 = Ret (lex l1 l2) /\ (lex l1 l2 = 0 <-> l1 = l2) /\
  forall n, strncmp s1 s2 n = lex (take (Z.to_nat n) l1) (take (Z.to_nat n) l2).
Proof.
  intros H1 H2 Hf. split; [by apply strcmp_loop_spec; try apply cstr_tail0 |]. split; [apply lex_zero_eq |].
  intros n. by apply strncmp_loop_spec; apply cstr_tail0.
Qed.

Lemma strcmp_correct_witness :
  strcmp 10 (text "hdd") (text "hdx") = Ret (-1) /\ strncmp (text "hdd") (text "hdx") 2 = 0.
Proof.
  destruct (strcmp_correct 10 (text "hdd") (text "hdx") (bytes "hdd") (bytes "hdx")
    (text_cstr "hdd" eq_refl) (text_cstr "hdx" eq_refl) ltac:(vm_compute; lia)) as (H1 & _ & H3).
  split; [exact H1 | exact (H3 2)].
Defined.

(** [strtoui] reads the longest run of digits of the base: it returns their number and
    the index after them, or [UINT64_MAX] and the index of the digit at which the number
    leaves 64 bits. *)
Theorem strtoui_correct fuel s base l :
  1 <= base -> cstr s l -> (length l <= fuel)%nat ->
  if value base 0 (digits base l) <? 2 ^ 64
  then strtoui fuel s base = Ret (value base 0 (digits base l), zlen (digits base l))
  else exists k, strtoui fuel s base = Ret (UINT64_MAX, Z.of_nat k) /\ (k < length (digits base l))%nat /\
    value base 0 (take k (digits base l)) < 2 ^ 64 <= value base 0 (take (S k) (digits base l)).
Proof. exact (strtoui_spec fuel s base l). Qed.

Lemma strtoui_correct_witness :
  strtoui 10 (text "1f4G") 16 = Ret (500, 3).
Proof.
  exact (strtoui_correct 10 (text "1f4G") 16 (bytes "1f4G") ltac:(lia) (text_cstr "1f4G" eq_refl) ltac:(vm_compute; lia)).
Defined.

(** [strtoul] (bases 2 to 36 other than 16) skips white space, takes a sign, and
    returns the number of the digits that follow, negated modulo 2^64 after a minus,
    [ULONG_MAX] if it does not fit, and the index after the digits; without digits it
    returns 0 and the start. *)
Theorem strtoul_correct fuel str base sp sg l :
  2 <= base <= 36 -> base <> 16 -> cstr str (sp ++ sg ++ l) -> (length (sp ++ sg ++ l) <= fuel)%nat ->
  Forall (fun c => isspace c = true) sp -> sg = [] \/ sg = [45] \/ sg = [43] ->
  (forall c l', sg ++ l = c :: l' -> isspace c = false) ->
  (forall c l', sg = [] -> l = c :: l' -> c <> 45 /\ c <> 43) ->
  strtoul fuel str base = Ret (strtoul_result base (bool_decide (sg = [45])) (zlen sp + zlen sg) (ul_digits base l)).
Proof.
  intros Hb H16 Hs Hf Hsp Hsg Hns Hsign. rewrite !length_app in Hf. apply cstr_tail0 in Hs.
  unfold strtoul. rewrite (skip_spaces_spec fuel str 0 sp (sg ++ l)) by (done || lia). cbn [mbind outcome_bind].
  apply cstr_app in Hs. replace (0 + zlen sp) with (zlen sp) in * by lia.
  assert (Hbase : (base =? 0) || (base =? 16) = false) by (apply orb_false_iff; lia).
  assert (Hrange : (base <? 2) || (base >? 36) = false) by (apply orb_false_iff; lia).
  destruct Hsg as [->|Hsg].
  - cbn [app] in *. rewrite (bool_decide_false ([] = [45])) by done.
    assert (Hc : (schar (str (zlen sp)) =? 45) = false /\ (schar (str (zlen sp)) =? 43) = false).
    { rewrite (cstr_head _ _ _ Hs). destruct l as [|c l]; [done |].
      destruct (Hsign c l eq_refl eq_refl). pose proof (cs_bytes _ _ Hs) as Hby. apply Forall_cons in Hby as [Hby _].
      unfold schar. case_match; lia. }
    destruct Hc as [-> ->]. rewrite Hbase. cbn [andb]. rewrite (proj2 (Z.eqb_neq base 0)) by lia. rewrite Hrange.
    replace (zlen sp + zlen []) with (zlen sp) by (unfold zlen; simpl; lia).
    exact (strtoul_tail fuel str base (zlen sp) l false Hb Hs ltac:(simpl in Hf; lia)).
  - assert (Hs' : str (zlen sp) = (if bool_decide (sg = [45]) then 45 else 43) /\ cstr (tail str (zlen sp + 1)) l /\ zlen sg = 1).
    { destruct Hsg as [->| ->]; (apply cstr_next in Hs as (? & _ & ?); done). }
    destruct Hs' as (E & Hs2 & ->). rewrite E.
    assert (Hsplit : (if schar (if bool_decide (sg = [45]) then 45 else 43) =? 45
        then (true, schar (str (zlen sp + 1)), zlen sp + 1 + 1)
        else if schar (if bool_decide (sg = [45]) then 45 else 43) =? 43
             then (false, schar (str (zlen sp + 1)), zlen sp + 1 + 1)
             else (false, schar (if bool_decide (sg = [45]) then 45 else 43), zlen sp + 1))
      = (bool_decide (sg = [45]), schar (str (zlen sp + 1)), zlen sp + 1 + 1)) by (destruct Hsg as [->| ->]; reflexivity).
    rewrite Hsplit, Hbase. cbn [andb]. rewrite (proj2 (Z.eqb_neq base 0)) by lia. rewrite Hrange.
    exact (strtoul_tail fuel str base (zlen sp + 1) l _ Hb Hs2 ltac:(lia)).
Qed.

Lemma strtoul_correct_witness :
  strtoul 10 (text "  -12x") 10 = Ret (2 ^ 64 - 12, 5).
Proof.
  refine (strtoul_correct 10 (text "  -12x") 10 (bytes "  ") (bytes "-") (bytes "12x") ltac:(lia) ltac:(lia)
    (text_cstr "  -12x" eq_refl) ltac:(vm_compute; lia) ltac:(repeat constructor) ltac:(right; left; reflexivity) _ _).
  - intros c l' [= <- _]. reflexivity.
  - intros c l' [=].
Defined.

(** [memmove] copies the [n] bytes as they were before, also where the ranges overlap. *)
Theorem memmove_correct m dest src n x : memmove m dest src n x = mem_copy m dest src n x.
Proof.
  unfold memmove. destruct (decide (0 <= n)) as [Hn|Hn].
  - destruct (src >? dest) eqn:E1; [rewrite move_up, Z2Nat.id by lia; done |].
    destruct (src <? dest) eqn:E2; [rewrite move_down, Z2Nat.id by lia; done |].
    assert (src = dest) as -> by lia. unfold mem_copy. case_if; [f_equal; lia | done].
  - replace (Z.to_nat n) with O by lia. unfold mem_copy. destruct ((dest <=? x) && (x <? dest + n)) eqn:E; [lia |].
    by repeat case_if.
Qed.

(** [inet_pton] accepts exactly four decimal numbers up to 255 with dots between and
    nothing after them, and returns those numbers. *)
Theorem inet_pton_correct fuel src l :
  cstr src l -> (length l <= fuel)%nat ->
  match inet_pton fuel src with
  | Ret (Some arr) => dotted 4 l arr
  | Ret None => ~ exists arr, dotted 4 l arr
  | _ => False
  end.
Proof.
  intros Hs Hf. pose proof (inet_loop_spec fuel src 3 0 [] l (cstr_tail0 _ _ Hs) Hf) as H. unfold inet_pton.
  destruct (inet_loop fuel src 4 0 []) as [[arr|]| |]; try done. by destruct H as (arr' & H & ->).
Qed.

Lemma inet_pton_correct_witness :
  inet_pton 20 (text "10.0.2.15") = Ret (Some [10; 0; 2; 15]) /\ dotted 4 (bytes "10.0.2.15") [10; 0; 2; 15].
Proof.
  assert (E : inet_pton 20 (text "10.0.2.15") = Ret (Some [10; 0; 2; 15])) by (vm_compute; reflexivity).
  split; [exact E |].
  pose proof (inet_pton_correct 20 (text "10.0.2.15") (bytes "10.0.2.15") (text_cstr "10.0.2.15" eq_refl) ltac:(vm_compute; lia)) as H.
  rewrite E in H. exact H.
Defined.

(** With a buffer of at least two bytes, [get_absolute_path] terminates, writes
    nothing outside the buffer, and leaves a terminated string in it when it returns
    [true], for every path and working directory. *)
Theorem get_absolute_path_safe fuel m orig path pwd size l lp :
  2 <= size -> cstr (str m path) l -> (forall i, 0 <= i <= zlen l -> ~ orig <= path + i < orig + size) ->
  cstr (str m pwd) lp -> (length l < fuel)%nat -> (length lp <= fuel)%nat ->
  match get_absolute_path fuel m orig path pwd size with
  | Ret (b, m') => (forall x, ~ orig <= x < orig + size -> m' x = m x) /\
      (b = true -> exists x, orig <= x < orig + size /\ m' x = 0)
  | _ => False
  end.
Proof.
  intros Hsize Hs Ha Hpwd Hf1 Hf2.
  exact (get_absolute_path_lemma fuel m orig path pwd size l lp Hsize (Build_path_str _ _ _ _ _ Hs Ha) Hpwd Hf1 Hf2).
Qed.

(** Memory for the paths: the path at 0x1000, the working directory at 0x2000, a buffer
    full of [fill] at 0x3000. *)
Definition path_mem (path pwd : string) (fill : Z) : mem := fun x =>
  if x <? 0x2000 then mem_of 0x1000 (bytes path ++ [0]) x
  else if x <? 0x3000 then mem_of 0x2000 (bytes pwd ++ [0]) x else fill.

Lemma get_absolute_path_safe_witness :
  match get_absolute_path 20 (path_mem "mods/../x" "/boot" 0) 0x3000 0x1000 0x2000 32 with
  | Ret (b, m') => b = true /\ load_bytes m' 0x3000 8 = bytes "/boot/x" ++ [0] /\
      (forall x, ~ 0x3000 <= x < 0x3000 + 32 -> m' x = path_mem "mods/../x" "/boot" 0 x)
  | _ => False
  end.
Proof.
  pose proof (get_absolute_path_safe 20 (path_mem "mods/../x" "/boot" 0) 0x3000 0x1000 0x2000 32
    (bytes "mods/../x") (bytes "/boot") ltac:(lia)) as H.
  assert (E : match get_absolute_path 20 (path_mem "mods/../x" "/boot" 0) 0x3000 0x1000 0x2000 32 with
    | Ret (b, m') => b = true /\ load_bytes m' 0x3000 8 = bytes "/boot/x" ++ [0] | _ => False end)
    by (vm_compute; split; reflexivity).
  assert (H1 : cstr (str (path_mem "mods/../x" "/boot" 0) 0x1000) (bytes "mods/../x")).
  { eapply cstr_local; [|exact (text_cstr "mods/../x" eq_refl)]. intros i Hi.
    change (zlen (bytes "mods/../x")) with 9 in Hi. unfold str, text, path_mem.
    rewrite (proj2 (Z.ltb_lt (0x1000 + i) 0x2000)) by lia. reflexivity. }
  assert (H2 : cstr (str (path_mem "mods/../x" "/boot" 0) 0x2000) (bytes "/boot")).
  { eapply cstr_local; [|exact (cstr_mem_of 0x2000 (bytes "/boot") ltac:(repeat constructor; lia))]. intros i Hi.
    change (zlen (bytes "/boot")) with 5 in Hi. unfold str, path_mem.
    rewrite (proj2 (Z.ltb_ge (0x2000 + i) 0x2000)), (proj2 (Z.ltb_lt (0x2000 + i) 0x3000)) by lia. reflexivity. }
  specialize (H H1 ltac:(intros i Hi; change (zlen (bytes "mods/../x")) with 9 in Hi; lia) H2
    ltac:(vm_compute; lia) ltac:(vm_compute; lia)).
  destruct (get_absolute_path 20 (path_mem "mods/../x" "/boot" 0) 0x3000 0x1000 0x2000 32) as [[b m']| |];
    [|destruct E|destruct E].
  split; [apply E |]. split; [apply E | apply H].
Defined.

(** What [get_absolute_path] returns depends on what the buffer held before: the scan
    for the parent directory starts one byte past the path built so far. For the path
    [/a/..] a cleared buffer gives [/], one that holds slashes gives [/a]. *)
Theorem get_absolute_path_stale :
  match get_absolute_path 20 (path_mem "/a/.." "" 0) 0x3000 0x1000 0x2000 16,
        get_absolute_path 20 (path_mem "/a/.." "" 47) 0x3000 0x1000 0x2000 16 with
  | Ret (true, m1), Ret (true, m2) =>
      load_bytes m1 0x3000 2 = bytes "/" ++ [0] /\ load_bytes m2 0x3000 3 = bytes "/a" ++ [0]
  | _, _ => False
  end.
Proof. vm_compute. split; reflexivity. Qed.
