(* ===== verification/Guid.v ===== *)
(** GUIDs and their text form: [common/lib/guid.c] and [common/lib/guid.h]. A buffer that
    is written is the list of its bytes. *)

From S2P Require Import Prelude Libc.
Import Libc.

Module Guid.

Record guid := { a : Z; b : Z; c : Z; d : list Z }.

(** The bytes of a [struct guid] in memory (little endian), and back. *)
Definition le_bytes (n : nat) (x : Z) : list Z := (fun i => u8 (Z.shiftr x (8 * Z.of_nat i))) <$> seq 0 n.
Definition of_le (l : list Z) : Z := foldr (fun b n => b + 256 * n) 0 l.
Definition guid_bytes (g : guid) : list Z := le_bytes 4 g.(a) ++ le_bytes 2 g.(b) ++ le_bytes 2 g.(c) ++ g.(d).
Definition bytes_guid (l : list Z) : guid :=
  {| a := of_le (take 4 l); b := of_le (take 2 (drop 4 l)); c := of_le (take 2 (drop 6 l)); d := take 8 (drop 8 l) |}.

(** The loop returns at [i == 36] at the latest. *)
Fixpoint valid_loop (k : nat) (s : Z -> Z) (i : Z) : bool :=
  if (i =? 8) || (i =? 13) || (i =? 18) || (i =? 23) then
    if negb (schar (s i) =? 45) then false else match k with O => false | S k => valid_loop k s (i + 1) end
  else if i =? 36 then s i =? 0
  else if digit_to_int (schar (s i)) =? -1 then false
  else match k with O => false | S k => valid_loop k s (i + 1) end.
Definition is_valid_guid (s : Z -> Z) : bool := valid_loop 36 s 0.

(** [dest] is at offset [off] of the buffer; the state is the buffer and [p]. *)
Definition guid_convert_le_cluster (buf : list Z) (off : Z) (s : Z -> Z) (len : nat) : list Z :=
  fst (for_down len (fun i '(buf, p) =>
    let val := digit_to_int (schar (s i)) in
    if negb (i mod 2 =? 0) then (buf.[off + p := u8 val], p)
    else (buf.[off + p := Z.lor buf.[off + p] (u8 (Z.shiftl val 4))], p + 1)) (buf, 0)).
Definition guid_convert_be_cluster (buf : list Z) (off : Z) (s : Z -> Z) (len : nat) : list Z :=
  fst (for_up len 0 (fun i '(buf, p) =>
    let val := digit_to_int (schar (s i)) in
    if negb (i mod 2 =? 0) then (buf.[off + p := Z.lor buf.[off + p] (u8 val)], p + 1)
    else (buf.[off + p := u8 (Z.shiftl val 4)], p)) (buf, 0)).

(** [None] is [false]; the buffer is the [struct guid] before. *)
Definition string_to_guid_be (buf : list Z) (s : Z -> Z) : option (list Z) :=
  if negb (is_valid_guid s) then None
  else
    let buf := guid_convert_be_cluster buf 0 s 8 in
    let buf := guid_convert_be_cluster buf 4 (tail s 9) 4 in
    let buf := guid_convert_be_cluster buf 6 (tail s 14) 4 in
    let buf := guid_convert_be_cluster buf 8 (tail s 19) 4 in
    Some (guid_convert_be_cluster buf 10 (tail s 24) 12).
Definition string_to_guid_mixed (buf : list Z) (s : Z -> Z) : option (list Z) :=
  if negb (is_valid_guid s) then None
  else
    let buf := guid_convert_le_cluster buf 0 s 8 in
    let buf := guid_convert_le_cluster buf 4 (tail s 9) 4 in
    let buf := guid_convert_le_cluster buf 6 (tail s 14) 4 in
    let buf := guid_convert_be_cluster buf 8 (tail s 19) 4 in
    Some (guid_convert_be_cluster buf 10 (tail s 24) 12).

Definition hex_digits : list Z := bytes "0123456789abcdef".
Definition uint_to_hex (num : Z) (buf : list Z) (off : Z) (len : nat) : list Z :=
  for_up len 0 (fun i buf =>
    buf.[off + i := hex_digits.[Z.land (Z.shiftr num ((Z.of_nat len - 1 - i) * 4)) 0xf]]) buf.

Definition guid_to_string (g : guid) (s : list Z) : list Z :=
  let s := uint_to_hex g.(a) s 0 8 in
  let s := s.[8 := 45] in
  let s := uint_to_hex g.(b) s 9 4 in
  let s := s.[13 := 45] in
  let s := uint_to_hex g.(c) s 14 4 in
  let s := s.[18 := 45] in
  let s := uint_to_hex g.(d).[0] s 19 2 in
  let s := uint_to_hex g.(d).[1] s 21 2 in
  let s := s.[23 := 45] in
  let s := uint_to_hex g.(d).[2] s 24 2 in
  let s := uint_to_hex g.(d).[3] s 26 2 in
  let s := uint_to_hex g.(d).[4] s 28 2 in
  let s := uint_to_hex g.(d).[5] s 30 2 in
  let s := uint_to_hex g.(d).[6] s 32 2 in
  let s := uint_to_hex g.(d).[7] s 34 2 in
  s.[36 := 0].

End Guid.

Module Clock.
(** [common/lib/time.c]: [int] division truncates. *)

Definition get_jdn (days months years : Z) : Z :=
  Z.quot (1461 * (years + 4800 + Z.quot (months - 14) 12)) 4
  + Z.quot (367 * (months - 2 - 12 * Z.quot (months - 14) 12)) 12
  - Z.quot (3 * Z.quot (years + 4900 + Z.quot (months - 14) 12) 100) 4
  + days - 32075.

Definition get_unix_epoch (seconds minutes hours days months years : Z) : Z :=
  let jdn_current := u64 (get_jdn days months years) in
  let jdn_1970 := u64 (get_jdn 1 1 1970) in
  let jdn_diff := u64 (jdn_current - jdn_1970) in
  u64 (u64 (jdn_diff * (60 * 60 * 24)) + hours * 3600 + minutes * 60 + seconds).

(** [time] of the BIOS build: [rm_int n eax] are the [ecx] and [edx] the [n]th call of
    interrupt 0x1a returns. *)
Fixpoint time (fuel : nat) (rm_int : nat -> Z -> Z * Z) (n : nat) : outcome Z :=
  let '(ecx, edx) := rm_int n 0x0400 in
  let day := bcd_to_int (Z.land edx 0x00ff) in
  let month := bcd_to_int (Z.shiftr (Z.land edx 0xff00) 8) in
  let year := u16 (bcd_to_int (Z.land ecx 0x00ff) + bcd_to_int (Z.shiftr (Z.land ecx 0xff00) 8) * 100) in
  let '(ecx, edx) := rm_int (n + 1)%nat 0x0200 in
  let second := bcd_to_int (Z.shiftr (Z.land edx 0xff00) 8) in
  let minute := bcd_to_int (Z.land ecx 0x00ff) in
  let hour := bcd_to_int (Z.shiftr (Z.land ecx 0xff00) 8) in
  let '(ecx, edx) := rm_int (n + 2)%nat 0x0400 in
  if negb (bcd_to_int (Z.land edx 0x00ff) =? day) then
    match fuel with O => Diverge | S fuel => time fuel rm_int (n + 3)%nat end
  else Ret (get_unix_epoch second minute hour day month year).

End Clock.
