(* ===== verification/GuidCorrect.v ===== *)
(** GUIDs survive their text form, and dates their conversion to seconds. *)

From S2P Require Import Prelude Libc Guid.
Import Libc Guid.

(** * Digits *)

Definition hex_digit (x : Z) : Z := hex_digits.[Z.land x 0xf].

Lemma nibble_range x : 0 <= Z.land x 15 < 16.
Proof. change 15 with (Z.ones 4). rewrite Z.land_ones by lia. apply Z.mod_pos_bound. lia. Qed.
Lemma hex_digit_val x : digit_to_int (schar (hex_digit x)) = Z.land x 15.
Proof.
  unfold hex_digit. pose proof (nibble_range x) as H. set (y := Z.land x 15) in *.
  apply (Z.eqb_eq (digit_to_int (schar hex_digits.[y])) y).
  exact (seqZ_forallb (fun y => digit_to_int (schar hex_digits.[y]) =? y) 16 y eq_refl H).
Qed.

(** ** The text of a GUID *)

Definition guid_ok (g : guid) : Prop :=
  0 <= g.(a) < 2 ^ 32 /\ 0 <= g.(b) < 2 ^ 16 /\ 0 <= g.(c) < 2 ^ 16 /\ length g.(d) = 8%nat /\ Forall is_byte g.(d).

(** The digits of the [n] most significant nibbles first. *)
Definition hex (n : nat) (x : Z) : list Z :=
  (fun i => hex_digit (Z.shiftr x ((Z.of_nat n - 1 - Z.of_nat i) * 4))) <$> seq 0 n.

(** The usual form, 8-4-4-4-12, with its terminator. *)
Definition guid_text (g : guid) : list Z :=
  hex 8 g.(a) ++ [45] ++ hex 4 g.(b) ++ [45] ++ hex 4 g.(c) ++ [45] ++
  hex 2 g.(d).[0] ++ hex 2 g.(d).[1] ++ [45] ++
  hex 2 g.(d).[2] ++ hex 2 g.(d).[3] ++ hex 2 g.(d).[4] ++ hex 2 g.(d).[5] ++ hex 2 g.(d).[6] ++ hex 2 g.(d).[7] ++ [0].


Lemma guid_to_string_text g s : length s = 37%nat -> guid_to_string g s = guid_text g.
Proof.
  intros Hs. do 37 (destruct s as [|? s]; [discriminate |]). destruct s; [reflexivity | discriminate].
Qed.

(** ** Reading it back *)

Lemma hex_digit_ok x : (digit_to_int (schar (hex_digit x)) =? -1) = false.
Proof. rewrite hex_digit_val. pose proof (nibble_range x). lia. Qed.

Lemma u8_shiftl x : u8 (Z.shiftl (Z.land x 15) 4) = Z.shiftl (Z.land x 15) 4.
Proof. apply u8_small. rewrite Z.shiftl_mul_pow2 by lia. pose proof (nibble_range x). lia. Qed.
Lemma u8_land x : u8 (Z.land x 15) = Z.land x 15.
Proof. apply u8_small. pose proof (nibble_range x). lia. Qed.

Lemma lor_nibbles lo hi : 0 <= lo < 16 -> 0 <= hi < 16 -> Z.lor lo (Z.shiftl hi 4) = lo + 16 * hi.
Proof.
  intros Hl Hh. apply Z.eqb_eq.
  pose proof (seqZ_forallb (fun lo => forallb (fun hi => Z.lor lo (Z.shiftl hi 4) =? lo + 16 * hi) (seqZ 0 16))
    16 lo eq_refl Hl) as H.
  exact (seqZ_forallb (fun hi => Z.lor lo (Z.shiftl hi 4) =? lo + 16 * hi) 16 hi H Hh).
Qed.
Lemma nibbles_byte x k k' : 0 <= k -> k' = k + 4 ->
  Z.lor (Z.land (Z.shiftr x k) 15) (Z.shiftl (Z.land (Z.shiftr x k') 15) 4) = u8 (Z.shiftr x k).
Proof.
  intros Hk ->. rewrite lor_nibbles by apply nibble_range.
  rewrite <- Z.shiftr_shiftr by lia. unfold u8, wrap. set (y := Z.shiftr x k). clearbody y.
  change 15 with (Z.ones 4). rewrite !Z.land_ones, Z.shiftr_div_pow2 by lia.
  change (2 ^ 8) with (2 ^ 4 * 2 ^ 4). rewrite Z.rem_mul_r by lia. lia.
Qed.

Definition dash (i : Z) : bool := (i =? 8) || (i =? 13) || (i =? 18) || (i =? 23).
Definition well_formed (s : Z -> Z) (i : Z) : Prop :=
  if dash i then s i = 45 else exists x, s i = hex_digit x.

Lemma valid_loop_ok s k i :
  i + Z.of_nat k = 36 -> s 36 = 0 -> (forall j, i <= j < 36 -> well_formed s j) -> valid_loop k s i = true.
Proof.
  revert i; induction k as [|k IH]; intros i Hi H0 Hw.
  - assert (i = 36) as -> by lia. simpl. by rewrite H0.
  - assert (valid_loop k s (i + 1) = true) as Hk by (apply IH; [lia | done | intros; apply Hw; lia]).
    pose proof (Hw i ltac:(lia)) as Hc. unfold well_formed, dash in Hc. simpl.
    destruct ((i =? 8) || (i =? 13) || (i =? 18) || (i =? 23)); [by rewrite Hc |].
    destruct Hc as [x ->]. rewrite hex_digit_ok. by destruct (Z.eqb_spec i 36); [lia |].
Qed.

Lemma is_valid_guid_text g : is_valid_guid (fun i => (guid_text g).[i]) = true.
Proof.
  apply valid_loop_ok; [done | done |]. intros j Hj.
  assert (Forall (well_formed (fun i => (guid_text g).[i])) (seqZ 0 36)) as H.
  { let l := eval vm_compute in (seqZ 0 36) in change (seqZ 0 36) with l.
    repeat (apply Forall_cons; split; [first [reflexivity | eexists; reflexivity] |]). constructor. }
  rewrite Forall_forall in H. apply H, elem_of_seqZ. lia.
Qed.


(** The two digits of a byte at [i] and [i + 1]. *)
Definition dig (s : Z -> Z) (i : Z) : Z := digit_to_int (schar (s i)).
Definition pair_byte (s : Z -> Z) (i : Z) : Z := Z.lor (u8 (Z.shiftl (dig s i) 4)) (u8 (dig s (i + 1))).
Definition pair_byte_le (s : Z -> Z) (i : Z) : Z := Z.lor (u8 (dig s (i + 1))) (u8 (Z.shiftl (dig s i) 4)).

Lemma string_to_guid_mixed_bytes s buf :
  length buf = 16%nat -> is_valid_guid s = true ->
  string_to_guid_mixed buf s = Some ((pair_byte_le s <$> [6; 4; 2; 0; 11; 9; 16; 14]) ++
    (pair_byte s <$> [19; 21; 24; 26; 28; 30; 32; 34])).
Proof.
  intros Hb Hv. do 16 (destruct buf as [|? buf]; [discriminate |]). destruct buf; [|discriminate].
  unfold string_to_guid_mixed. rewrite Hv. cbv -[digit_to_int schar u8 Z.lor Z.shiftl]. reflexivity.
Qed.

Lemma pair_byte_text g i x k :
  0 <= k -> (guid_text g).[i] = hex_digit (Z.shiftr x (k + 4)) -> (guid_text g).[i + 1] = hex_digit (Z.shiftr x k) ->
  pair_byte_le (fun i => (guid_text g).[i]) i = u8 (Z.shiftr x k) /\
  pair_byte (fun i => (guid_text g).[i]) i = u8 (Z.shiftr x k).
Proof.
  intros Hk H0 H1. unfold pair_byte, pair_byte_le, dig. rewrite H0, H1, !hex_digit_val, u8_shiftl, u8_land.
  split; [| rewrite Z.lor_comm]; by apply nibbles_byte.
Qed.

Lemma guid_ok_data g : guid_ok g -> g.(d) = (fun i => u8 (Z.shiftr g.(d).[i] 0)) <$> [0; 1; 2; 3; 4; 5; 6; 7].
Proof.
  intros (_ & _ & _ & Hl & HF). destruct g as [a b c d]; simpl in *.
  do 8 (destruct d as [|? d]; [discriminate |]). destruct d; [|discriminate].
  cbn -[u8 Z.shiftr]. rewrite !Z.shiftr_0_r.
  repeat (apply Forall_cons in HF as [? HF]). by rewrite !u8_small by done.
Qed.

Lemma guid_text_bytes g buf : guid_ok g -> length buf = 16%nat ->
  string_to_guid_mixed buf (fun i => (guid_text g).[i]) = Some (guid_bytes g).
Proof.
  intros Hg Hb. rewrite string_to_guid_mixed_bytes by (done || apply is_valid_guid_text).
  f_equal. unfold guid_bytes. rewrite (guid_ok_data g) at 1 by done. 
  cbn [fmap list_fmap app le_bytes seq Z.of_nat Z.mul].
  change (8 * Z.of_nat 0) with 0. change (8 * Z.of_nat 1) with 8.
  change (8 * Z.of_nat 2) with 16. change (8 * Z.of_nat 3) with 24.
  repeat first [reflexivity | apply (f_equal2 cons); [
    match goal with |- _ _ ?i = u8 (Z.shiftr ?x ?k) =>
      first [exact (proj1 (pair_byte_text g i x k ltac:(done) eq_refl eq_refl))
        | exact (proj2 (pair_byte_text g i x k ltac:(done) eq_refl eq_refl))] end |]].
Qed.

(** ** The bytes of the structure *)

Lemma zlen_le_bytes n v : zlen (le_bytes n v) = Z.of_nat n.
Proof. unfold zlen, le_bytes. by rewrite length_fmap, length_seq. Qed.
Lemma of_le_bytes n x : 0 <= x < 256 ^ Z.of_nat n -> of_le (le_bytes n x) = x.
Proof.
  intros Hx. unfold le_bytes. enough (forall k, 0 <= k ->
    of_le ((fun i => u8 (Z.shiftr x (8 * Z.of_nat i))) <$> seq (Z.to_nat k) n) = Z.shiftr x (8 * k) mod 256 ^ Z.of_nat n) as H.
  { specialize (H 0 ltac:(lia)). simpl in H. rewrite Z.shiftr_0_r, Z.mod_small in H by done. done. }
  clear Hx. induction n as [|n IH]; intros k Hk; [by rewrite Z.mod_1_r |].
  simpl. replace (S (Z.to_nat k)) with (Z.to_nat (k + 1)) by lia. rewrite IH by lia.
  rewrite Z2Nat.id, Nat2Z.inj_succ, Z.pow_succ_r by lia. unfold u8, wrap.
  rewrite Z.rem_mul_r by lia. f_equal. f_equal. f_equal.
  replace (8 * (k + 1)) with (8 * k + 8) by lia. rewrite <- Z.shiftr_shiftr by lia.
  by rewrite (Z.shiftr_div_pow2 (Z.shiftr x (8 * k)) 8) by lia.
Qed.

Lemma bytes_guid_bytes g : guid_ok g -> bytes_guid (guid_bytes g) = g.
Proof.
  intros (Ha & Hb & Hc & Hl & HF). destruct g as [a b c d]; simpl in *.
  do 8 (destruct d as [|? d]; [discriminate |]). destruct d; [|discriminate].
  unfold bytes_guid. f_equal; [exact (of_le_bytes 4 a Ha) | exact (of_le_bytes 2 b Hb) | exact (of_le_bytes 2 c Hc)].
Qed.

(** [guid_to_string] writes exactly 37 bytes of text that [string_to_guid_mixed]
    accepts, and reading that text into any 16-byte buffer gives back the same GUID. *)
Theorem guid_roundtrip g s buf :
  guid_ok g -> length s = 37%nat -> length buf = 16%nat ->
  length (guid_to_string g s) = 37%nat /\
  is_valid_guid (fun i => (guid_to_string g s).[i]) = true /\
  bytes_guid <$> string_to_guid_mixed buf (fun i => (guid_to_string g s).[i]) = Some g.
Proof.
  intros Hg Hs Hb. rewrite guid_to_string_text by done. split; [done |].
  split; [apply is_valid_guid_text |]. rewrite guid_text_bytes by done. simpl. f_equal. by apply bytes_guid_bytes.
Qed.

Lemma guid_roundtrip_witness :
  bytes_guid <$> string_to_guid_mixed (replicate 16 0) (fun i => (guid_to_string
    {| a := 0xc12a7328; b := 0xf81f; c := 0x11d2; d := [0xba; 0x4b; 0; 0xa0; 0xc9; 0x3e; 0xc9; 0x3b] |}
    (replicate 37 7)).[i]) =
  Some {| a := 0xc12a7328; b := 0xf81f; c := 0x11d2; d := [0xba; 0x4b; 0; 0xa0; 0xc9; 0x3e; 0xc9; 0x3b] |}.
Proof.
  apply guid_roundtrip; [| done | done]. split_and!; simpl; try lia; try done.
  repeat (apply Forall_cons; split; [unfold is_byte; lia |]). constructor.
Defined.

(** * Dates *)

Import Clock.

(** The proleptic Gregorian calendar, counted day by day from 1 January 1970. *)
Definition leap (y : Z) : bool := (y mod 4 =? 0) && (negb (y mod 100 =? 0) || (y mod 400 =? 0)).
Definition month_days (y m : Z) : Z :=
  if m =? 2 then (if leap y then 29 else 28)
  else if (m =? 4) || (m =? 6) || (m =? 9) || (m =? 11) then 30 else 31.
Definition year_days (y : Z) : Z := if leap y then 366 else 365.
Definition sum_over (f : Z -> Z) (l : list Z) : Z := foldr (fun x n => f x + n) 0 l.
Definition day_number (d m y : Z) : Z :=
  sum_over year_days (seqZ 1970 (y - 1970)) + sum_over (month_days y) (seqZ 1 (m - 1)) + (d - 1).

Lemma sum_over_app f l1 l2 : sum_over f (l1 ++ l2) = sum_over f l1 + sum_over f l2.
Proof. induction l1 as [|x l1 IH]; simpl; [done | lia]. Qed.

Lemma div_step k y : 0 < k -> y / k = (y - 1) / k + b2z (y mod k =? 0).
Proof.
  intros Hk. pose proof (Z.div_mod y k ltac:(lia)). pose proof (Z.mod_pos_bound y k Hk).
  destruct (Z.eqb_spec (y mod k) 0); simpl.
  - assert ((y - 1) / k = y / k - 1) as ->; [|lia]. symmetry. apply Z.div_unique with (k - 1); lia.
  - assert ((y - 1) / k = y / k) as ->; [|lia]. symmetry. apply Z.div_unique with (y mod k - 1); lia.
Qed.
Lemma mod_divides y k q : 0 < k -> 0 < q -> y mod (k * q) = 0 -> y mod k = 0.
Proof. intros Hk Hq H. rewrite Z.rem_mul_r in H by lia. pose proof (Z.mod_pos_bound y k). pose proof (Z.mod_pos_bound (y / k) q). nia. Qed.

(** A year is a leap year when the counts of multiples say so. *)
Lemma leap_count y : b2z (leap y) = b2z (y mod 4 =? 0) - b2z (y mod 100 =? 0) + b2z (y mod 400 =? 0).
Proof.
  unfold leap. pose proof (mod_divides y 4 25 eq_refl eq_refl : y mod 100 = 0 -> y mod 4 = 0) as H1.
  pose proof (mod_divides y 100 4 eq_refl eq_refl : y mod 400 = 0 -> y mod 100 = 0) as H2.
  destruct (Z.eqb_spec (y mod 4) 0), (Z.eqb_spec (y mod 100) 0), (Z.eqb_spec (y mod 400) 0); simpl; naive_solver.
Qed.

Lemma years_closed n : 0 <= n ->
  sum_over year_days (seqZ 1970 n) =
    365 * n + ((n + 1969) / 4 - 492) - ((n + 1969) / 100 - 19) + ((n + 1969) / 400 - 4).
Proof.
  revert n. apply natlike_ind; [done |]. intros n Hn IH. rewrite <- Z.add_1_r.
  rewrite seqZ_app by lia. rewrite sum_over_app, IH.
  replace (sum_over year_days (seqZ (1970 + n) 1)) with (365 + b2z (leap (n + 1970))).
  - rewrite leap_count. replace (n + 1 + 1969) with (n + 1970) by lia.
    rewrite (div_step 4 (n + 1970)), (div_step 100 (n + 1970)), (div_step 400 (n + 1970)) by lia.
    replace (n + 1970 - 1) with (n + 1969) by lia. lia.
  - unfold sum_over, year_days. simpl. replace (Z.of_nat 0 + (1970 + n)) with (n + 1970) by lia. by destruct (leap (n + 1970)).
Qed.

Lemma months_closed y m : 1 <= m <= 12 ->
  sum_over (month_days y) (seqZ 1 (m - 1)) =
    (367 * m - 362) / 12 + (if m <=? 2 then 0 else if leap y then -1 else -2).
Proof.
  intros Hm. assert (m = 1 \/ m = 2 \/ m = 3 \/ m = 4 \/ m = 5 \/ m = 6 \/ m = 7 \/ m = 8 \/ m = 9 \/ m = 10 \/ m = 11 \/ m = 12)
    as Hc by lia.
  destruct_or! Hc; subst m; cbn -[leap Z.div]; unfold month_days; simpl; by destruct (leap y).
Qed.

(** The Julian day of the 1st of March of year [p], in counts of multiples. *)
Lemma jdn_year p : 0 <= p ->
  1461 * (p + 4800) / 4 - 3 * ((p + 4900) / 100) / 4 = 365 * p + p / 4 - p / 100 + p / 400 + 1753164.
Proof.
  intros Hp. replace (p / 400) with (p / 100 / 4) by (rewrite Z.div_div by lia; f_equal).
  replace ((p + 4900) / 100) with (p / 100 + 49) by (rewrite <- (Z.div_add p 49 100) by lia; done).
  replace (1461 * (p + 4800)) with (p + (365 * p + 1461 * 1200) * 4) by lia. rewrite Z.div_add by lia.
  set (c := p / 100). clearbody c. set (k := p / 4). clearbody k. Z.to_euclidean_division_equations. lia.
Qed.

Lemma get_jdn_closed d m y : 0 <= y -> 1 <= m <= 12 ->
  let p := if m <=? 2 then y - 1 else y in
  0 <= p ->
  get_jdn d m y =
    365 * p + p / 4 - p / 100 + p / 400 + 1753164 + (367 * (if m <=? 2 then m + 10 else m - 2)) / 12 + d - 32075.
Proof.
  intros Hy Hm p Hp. unfold get_jdn. rewrite <- jdn_year by done.
  assert (Z.quot (m - 14) 12 = if m <=? 2 then -1 else 0) as ->.
  { assert (m = 1 \/ m = 2 \/ 2 < m) as [-> | [-> | Hm']] by lia; [done.. |].
    destruct (Z.leb_spec m 2); [lia |]. apply Z.quot_small_iff; lia. }
  assert (0 <= (p + 4900) / 100) by (apply Z.div_pos; lia). unfold p in *.
  destruct (m <=? 2) eqn:?.
  - replace (y + 4900 + -1) with (y - 1 + 4900) by lia. replace (y + 4800 + -1) with (y - 1 + 4800) by lia.
    rewrite (Z.quot_div_nonneg (y - 1 + 4900) 100), !Z.quot_div_nonneg by lia.
    replace (m - 2 - 12 * -1) with (m + 10) by lia. lia.
  - rewrite !Z.add_0_r. rewrite (Z.quot_div_nonneg (y + 4900) 100), !Z.quot_div_nonneg by lia.
    replace (m - 2 - 12 * 0) with (m - 2) by lia. lia.
Qed.

Lemma get_jdn_days d m y :
  1970 <= y -> 1 <= m <= 12 -> get_jdn d m y = get_jdn 1 1 1970 + day_number d m y.
Proof.
  intros Hy Hm. unfold day_number. rewrite years_closed, months_closed by lia.
  rewrite (get_jdn_closed d m y) by (try lia; destruct (m <=? 2); lia).
  change (get_jdn 1 1 1970) with 2440588. replace (y - 1970 + 1969) with (y - 1) by lia.
  destruct (Z.leb_spec m 2).
  - assert (m = 1 \/ m = 2) as [-> | ->] by lia; simpl; Z.to_euclidean_division_equations; lia.
  - replace (if leap y then -1 else -2) with (b2z (leap y) - 2) by by destruct (leap y).
    rewrite leap_count, (div_step 4 y), (div_step 100 y), (div_step 400 y) by lia.
    replace ((367 * m - 362) / 12) with ((367 * (m - 2)) / 12 + 31); [lia |].
    Z.to_euclidean_division_equations. lia.
Qed.

Definition valid_date (d m y : Z) : Prop := 1970 <= y < 2 ^ 16 /\ 1 <= m <= 12 /\ 1 <= d <= month_days y m.

Lemma day_number_range d m y : valid_date d m y -> 0 <= day_number d m y < 2 ^ 25.
Proof.
  intros (Hy & Hm & Hd). unfold day_number. rewrite years_closed, months_closed by lia.
  assert (d <= 31) by (unfold month_days in Hd; repeat case_if; lia).
  repeat case_if; Z.to_euclidean_division_equations; lia.
Qed.

(** [get_unix_epoch] of a calendar date and a time of day is the number of seconds since
    1 January 1970: 86400 for each day the Gregorian calendar counts up to that date, plus
    the time of day; neither the 64-bit arithmetic nor the 32-bit one of the Julian day
    number overflows. *)
Theorem get_unix_epoch_correct s mi h d m y :
  valid_date d m y -> 0 <= s < 60 -> 0 <= mi < 60 -> 0 <= h < 24 ->
  get_unix_epoch s mi h d m y = 86400 * day_number d m y + 3600 * h + 60 * mi + s /\
  0 <= 1461 * (y + 4800) < 2 ^ 31.
Proof.
  intros Hv Hs Hmi Hh. pose proof (day_number_range _ _ _ Hv) as Hr. destruct Hv as (Hy & Hm & Hd). split; [|lia].
  unfold get_unix_epoch. rewrite (get_jdn_days d m y) by lia. change (get_jdn 1 1 1970) with 2440588.
  set (n := day_number d m y) in *. clearbody n.
  rewrite (u64_small (2440588 + n)), (u64_small 2440588) by lia. replace (2440588 + n - 2440588) with n by lia.
  rewrite (u64_small n), (u64_small (n * _)), u64_small by lia. lia.
Qed.

Lemma get_unix_epoch_correct_witness :
  get_unix_epoch 56 34 12 29 2 2024 = 86400 * day_number 29 2 2024 + 3600 * 12 + 60 * 34 + 56.
Proof.
  refine (proj1 (get_unix_epoch_correct 56 34 12 29 2 2024 _ _ _ _)); [| lia..].
  unfold valid_date. split_and!; [lia.. | vm_compute; discriminate].
Defined.
