(* ===== verification/Part.v ===== *)
(** Volumes and partition tables: [common/lib/part.s2.c], [common/lib/part.h] and
    [fs_get_guid] of [common/fs/file.s2.c].

    A [struct volume] is a record; its sector cache is a record of its own, since reading is
    the only operation that changes a volume. A buffer is the list of its bytes, and a packed
    structure read from disk is that list with its fields at their offsets. The device is
    behind the class [BlockDev]: the driver's state and [disk_read_sectors]. A division by
    zero is a processor exception, which ends in [panic] ([common/sys/exceptions.s2.c]). The
    memory allocations succeed and return zeroed memory; [fs_get_label] asks the FAT driver
    and is a parameter. *)

From S2P Require Import Prelude Libc Guid.
Import Libc Guid.

Module Part.

Definition NO_PARTITION : Z := -1.
Definition INVALID_TABLE : Z := -2.
Definition END_OF_TABLE : Z := -3.

Inductive cache_state := CACHE_NOT_READY | CACHE_READY.
Inductive disk_status := DISK_SUCCESS | DISK_NO_MEDIA | DISK_FAILURE.
#[export] Instance cache_state_eq_dec : EqDecision cache_state.
Proof. solve_decision. Defined.
#[export] Instance disk_status_eq_dec : EqDecision disk_status.
Proof. solve_decision. Defined.

Record vcache := { cache_status : cache_state; cache : option (list Z); cached_block : Z }.

(** [drive] is the BIOS drive number, [efi_handle] and [block_io] the handles of the UEFI
    build; pointers to volumes are their addresses. *)
Record volume := {
  efi_handle : Z; block_io : Z; drive : Z;
  fastest_xfer_size : Z; index : Z; is_optical : bool; pxe : bool;
  partition : Z; sector_size : Z; backing_dev : option Z; max_partition : Z;
  vc : vcache;
  first_sect : Z; sect_count : Z;
  guid_valid : bool; vguid : list Z;
  part_guid_valid : bool; part_guid : list Z;
  fslabel_valid : bool; fslabel : Z -> Z }.

Definition set_vc (v : volume) (c : vcache) : volume :=
  {| efi_handle := v.(efi_handle); block_io := v.(block_io); drive := v.(drive);
     fastest_xfer_size := v.(fastest_xfer_size); index := v.(index); is_optical := v.(is_optical); pxe := v.(pxe);
     partition := v.(partition); sector_size := v.(sector_size); backing_dev := v.(backing_dev);
     max_partition := v.(max_partition); vc := c; first_sect := v.(first_sect); sect_count := v.(sect_count);
     guid_valid := v.(guid_valid); vguid := v.(vguid); part_guid_valid := v.(part_guid_valid);
     part_guid := v.(part_guid); fslabel_valid := v.(fslabel_valid); fslabel := v.(fslabel) |}.

(** [struct volume v = {0};] *)
Definition zero_volume : volume :=
  {| efi_handle := 0; block_io := 0; drive := 0; fastest_xfer_size := 0; index := 0; is_optical := false; pxe := false;
     partition := 0; sector_size := 0; backing_dev := None; max_partition := 0;
     vc := {| cache_status := CACHE_NOT_READY; cache := None; cached_block := 0 |};
     first_sect := 0; sect_count := 0; guid_valid := false; vguid := replicate 16 0; part_guid_valid := false;
     part_guid := replicate 16 0; fslabel_valid := false; fslabel := fun _ => 0 |}.

(** The driver: its state [D], the width of [size_t], and [disk_read_sectors], which takes
    the buffer as it is and returns it as it leaves it. *)
Class BlockDev (D : Type) := {
  size_t : Z -> Z;
  disk_read_sectors : D -> volume -> list Z -> Z -> Z -> outcome (D * list Z * disk_status) }.

(** A little-endian field of a packed structure. *)
Definition field (l : list Z) (off n : Z) : Z := of_le (slice l off n).

Section part.
Context {D : Type} `{!BlockDev D}.

(** * Reading through the cache *)

(** The sectors to transfer, clamped to the ones left in the volume. *)
Definition clamp (v : volume) (k first_sect read_sector xfer_size : Z) : option Z :=
  if negb (v.(sect_count) =? UINT64_MAX) then
    let volume_sectors := v.(sect_count) / k in
    let end_sector := default UINT64_MAX (CHECKED_ADD first_sect volume_sectors) in
    if read_sector >=? end_sector then None
    else
      let remaining := end_sector - read_sector in
      Some (if xfer_size >? remaining then remaining else xfer_size)
  else Some xfer_size.

Definition cache_block (d : D) (v : volume) (block : Z) : outcome (D * volume * bool) :=
  let c := v.(vc) in
  if bool_decide (c.(cache_status) = CACHE_READY) && (block =? c.(cached_block)) then Ret (d, v, true)
  else
    buf ← match c.(cache) with
          | None => size ← or_panic (CHECKED_MUL v.(fastest_xfer_size) v.(sector_size)); Ret (replicate (Z.to_nat size) 0)
          | Some buf => Ret buf
          end;
    let v := set_vc v {| cache_status := CACHE_NOT_READY; cache := Some buf; cached_block := c.(cached_block) |} in
    let k := u64 (Z.quot v.(sector_size) 512) in
    if k =? 0 then Panic
    else if negb (v.(first_sect) mod k =? 0) then Ret (d, v, false)
    else
      let first_sect := v.(first_sect) / k in
      match CHECKED_MUL block v.(fastest_xfer_size) with
      | None => Ret (d, v, false)
      | Some block_offset =>
      match CHECKED_ADD first_sect block_offset with
      | None => Ret (d, v, false)
      | Some read_sector =>
      match clamp v k first_sect read_sector v.(fastest_xfer_size) with
      | None => Ret (d, v, false)
      | Some xfer_size =>
          '(d, buf, ret) ← disk_read_sectors d v buf read_sector (size_t xfer_size);
          if bool_decide (ret = DISK_SUCCESS)
          then Ret (d, set_vc v {| cache_status := CACHE_READY; cache := Some buf; cached_block := block |}, true)
          else Ret (d, set_vc v {| cache_status := CACHE_NOT_READY; cache := Some buf; cached_block := c.(cached_block) |}, false)
      end end end.

Fixpoint read_loop (fuel : nat) (d : D) (v : volume) (buffer : list Z) (loc count block_size progress : Z)
    : outcome (D * volume * list Z * bool) :=
  if progress <? count then
    match fuel with
    | O => Diverge
    | S fuel =>
        if block_size =? 0 then Panic
        else
          let block := u64 (loc + progress) / block_size in
          '(d, v, ok) ← cache_block d v block;
          if negb ok then Ret (d, v, buffer, false)
          else
            let chunk := count - progress in
            let offset := u64 (loc + progress) mod block_size in
            let chunk := if chunk >? block_size - offset then block_size - offset else chunk in
            let buffer := blit buffer progress (slice (default [] v.(vc).(cache)) offset chunk) in
            read_loop fuel d v buffer loc count block_size (progress + chunk)
    end
  else Ret (d, v, buffer, true).

(** Every iteration moves [progress] by at least one byte: [count] iterations are enough. *)
Definition volume_read (d : D) (v : volume) (buffer : list Z) (loc count : Z) : outcome (D * volume * list Z * bool) :=
  if v.(pxe) then Panic
  else
    let in_range :=
      if negb (v.(sect_count) =? UINT64_MAX) then
        match CHECKED_MUL v.(sect_count) 512 with
        | None => false
        | Some part_size => negb ((loc >=? part_size) || (count >? part_size - loc))
        end
      else true in
    if negb in_range then Ret (d, v, buffer, false)
    else
      let block_size := size_t (v.(fastest_xfer_size) * v.(sector_size)) in
      read_loop (Z.to_nat count) d v buffer loc count block_size 0.

Definition partition_range_valid (v : volume) (first_sect sect_count : Z) : bool :=
  if sect_count =? 0 then false
  else match CHECKED_ADD first_sect sect_count with
       | None => false
       | Some end_sect => negb (negb (v.(Part.sect_count) =? UINT64_MAX) && (end_sect >? v.(Part.sect_count)))
       end.

(** * GUID partition tables *)

(** [struct gpt_table_header] (92 bytes) and [struct gpt_entry] (128 bytes). *)
Definition sizeof_gpt_header : Z := 92.
Definition signature (h : list Z) : Z -> Z := fun i => h.[i].
Definition revision (h : list Z) : Z := field h 8 4.
Definition disk_guid (h : list Z) : list Z := slice h 56 16.
Definition partition_entry_lba (h : list Z) : Z := field h 72 8.
Definition number_of_partition_entries (h : list Z) : Z := field h 80 4.
Definition size_of_partition_entry (h : list Z) : Z := field h 84 4.
Definition sizeof_gpt_entry : Z := 128.
Definition unique_partition_guid (e : list Z) : list Z := slice e 16 16.
Definition starting_lba (e : list Z) : Z := field e 32 8.
Definition ending_lba (e : list Z) : Z := field e 40 8.

(** The loop over [lb_guesses]: the header buffer is the same for both. *)
Fixpoint find_header (lb_guesses : list Z) (d : D) (v : volume) (header : list Z)
    : outcome (D * volume * list Z * option Z) :=
  match lb_guesses with
  | [] => Ret (d, v, header, None)
  | lb :: rest =>
      '(d, v, header, ok) ← volume_read d v header lb sizeof_gpt_header;
      if negb ok then find_header rest d v header
      else if negb (strncmp (signature header) (lit "EFI PART") 8 =? 0) then find_header rest d v header
      else Ret (d, v, header, Some lb)
  end.

(** The GUID is [None] for [false]. *)
Definition gpt_get_guid (d : D) (v : volume) : outcome (D * volume * option (list Z)) :=
  '(d, v, header, lb_size) ← find_header [512; 4096] d v (replicate 92 0);
  match lb_size with
  | None => Ret (d, v, None)
  | Some _ => Ret (d, v, if negb (revision header =? 0x00010000) then None else Some (disk_guid header))
  end.

(** [fs_get_guid] of [fs/file.s2.c]: no file system has one. *)
Definition fs_get_guid (v : volume) : option (list Z) := None.

Variable fs_get_label : D -> volume -> outcome (D * volume * option (Z -> Z)).

(** The assignments to [*ret] shared by the three kinds of partition: from [src], the volume
    read from, with [backing] its backing device. *)
Definition fill (ret src : volume) (backing : option Z) (part first count : Z) : volume :=
  {| efi_handle := src.(efi_handle); block_io := src.(block_io); drive := src.(drive);
     fastest_xfer_size := src.(fastest_xfer_size); index := src.(index); is_optical := src.(is_optical);
     pxe := ret.(pxe); partition := part; sector_size := src.(sector_size); backing_dev := backing;
     max_partition := ret.(max_partition); vc := ret.(vc); first_sect := first; sect_count := count;
     guid_valid := ret.(guid_valid); vguid := ret.(vguid); part_guid_valid := ret.(part_guid_valid);
     part_guid := ret.(part_guid); fslabel_valid := ret.(fslabel_valid); fslabel := ret.(fslabel) |}.
Definition set_guid (v : volume) (g : option (list Z)) : volume :=
  {| efi_handle := v.(efi_handle); block_io := v.(block_io); drive := v.(drive);
     fastest_xfer_size := v.(fastest_xfer_size); index := v.(index); is_optical := v.(is_optical); pxe := v.(pxe);
     partition := v.(partition); sector_size := v.(sector_size); backing_dev := v.(backing_dev);
     max_partition := v.(max_partition); vc := v.(vc); first_sect := v.(first_sect); sect_count := v.(sect_count);
     guid_valid := match g with Some _ => true | None => false end; vguid := default v.(vguid) g;
     part_guid_valid := v.(part_guid_valid); part_guid := v.(part_guid);
     fslabel_valid := v.(fslabel_valid); fslabel := v.(fslabel) |}.
Definition set_names (v : volume) (label : option (Z -> Z)) (pg : option (list Z)) : volume :=
  {| efi_handle := v.(efi_handle); block_io := v.(block_io); drive := v.(drive);
     fastest_xfer_size := v.(fastest_xfer_size); index := v.(index); is_optical := v.(is_optical); pxe := v.(pxe);
     partition := v.(partition); sector_size := v.(sector_size); backing_dev := v.(backing_dev);
     max_partition := v.(max_partition); vc := v.(vc); first_sect := v.(first_sect); sect_count := v.(sect_count);
     guid_valid := v.(guid_valid); vguid := v.(vguid);
     part_guid_valid := match pg with Some _ => true | None => false end; part_guid := default v.(part_guid) pg;
     fslabel_valid := match label with Some _ => true | None => false end; fslabel := default v.(fslabel) label |}.

(** The end of the three functions: ask the file system for a GUID and a label. *)
Definition identify (d : D) (ret : volume) (pg : option (list Z)) : outcome (D * volume) :=
  let ret := set_guid ret (fs_get_guid ret) in
  '(d, ret, label) ← fs_get_label d ret;
  Ret (d, set_names ret label pg).

(** The result is the code and the two volumes, [*ret] and [*volume]; [vp] is the address of
    [*volume]. *)
Definition gpt_get_part (d : D) (ret : volume) (vp : Z) (v : volume) (part : Z) : outcome (D * volume * volume * Z) :=
  '(d, v, header, lb_size) ← find_header [512; 4096] d v (replicate 92 0);
  match lb_size with
  | None => Ret (d, ret, v, INVALID_TABLE)
  | Some lb_size =>
      if negb (revision header =? 0x00010000) then Ret (d, ret, v, INVALID_TABLE)
      else if u32 part >=? number_of_partition_entries header then Ret (d, ret, v, END_OF_TABLE)
      else
        let entry_size := size_of_partition_entry header in
        if entry_size <? sizeof_gpt_entry then Ret (d, ret, v, INVALID_TABLE)
        else
          match CHECKED_MUL (partition_entry_lba header) lb_size with
          | None => Ret (d, ret, v, INVALID_TABLE)
          | Some entry_offset =>
          match CHECKED_ADD entry_offset (u64 (u64 part * entry_size)) with
          | None => Ret (d, ret, v, INVALID_TABLE)
          | Some entry_offset =>
              '(d, v, entry, ok) ← volume_read d v (replicate 128 0) entry_offset sizeof_gpt_entry;
              if negb ok then Ret (d, ret, v, END_OF_TABLE)
              else if memcmp (fun i => (unique_partition_guid entry).[i]) (fun _ => 0) 16 =? 0
              then Ret (d, ret, v, NO_PARTITION)
              else if ending_lba entry <? starting_lba entry then Ret (d, ret, v, NO_PARTITION)
              else
                let sect_multiplier := lb_size / 512 in
                match CHECKED_MUL (starting_lba entry) sect_multiplier with
                | None => Ret (d, ret, v, NO_PARTITION)
                | Some first_sect_result =>
                    let partition_size := ending_lba entry - starting_lba entry in
                    if partition_size =? UINT64_MAX then Ret (d, ret, v, NO_PARTITION)
                    else
                      match CHECKED_MUL (partition_size + 1) sect_multiplier with
                      | None => Ret (d, ret, v, NO_PARTITION)
                      | Some sect_count_result =>
                          if negb (partition_range_valid v first_sect_result sect_count_result)
                          then Ret (d, ret, v, NO_PARTITION)
                          else
                            '(d, ret) ← identify d (fill ret v (Some vp) (part + 1) first_sect_result sect_count_result)
                                          (Some (unique_partition_guid entry));
                            Ret (d, ret, v, 0)
                      end
                end
          end end
  end.

(** * Master boot records *)

(** [struct mbr_entry] (16 bytes). *)
Definition sizeof_mbr_entry : Z := 16.
Definition mbr_type (e : list Z) : Z := field e 4 1.
Definition mbr_first_sect (e : list Z) : Z := field e 8 4.
Definition mbr_sect_count (e : list Z) : Z := field e 12 4.
Definition is_extended (e : list Z) : bool := (mbr_type e =? 0x0f) || (mbr_type e =? 0x05).

(** One check of [is_valid_mbr]: read [n] bytes at [loc] into the buffer, then test it;
    [None] is [return false]. *)
Definition check (d : D) (v : volume) (buf : list Z) (loc n : Z) (bad : list Z -> bool)
    : outcome (D * volume * option (list Z)) :=
  '(d, v, buf, ok) ← volume_read d v buf loc n;
  Ret (d, v, if negb ok then None else if bad buf then None else Some buf).
Fixpoint checks (l : list (Z * Z * (list Z -> bool))) (d : D) (v : volume) (buf : list Z)
    : outcome (D * volume * option (list Z)) :=
  match l with
  | [] => Ret (d, v, Some buf)
  | (loc, n, bad) :: l =>
      '(d, v, r) ← check d v buf loc n bad;
      match r with None => Ret (d, v, None) | Some buf => checks l d v buf end
  end.
Definition not_status (hint : list Z) : bool := negb (hint.[0] =? 0x00) && negb (hint.[0] =? 0x80).
Definition starts (s : string) (n : Z) (buf : list Z) : bool := memcmp (fun i => buf.[i]) (lit s) n =? 0.

(** [hint] is 2 bytes, initially 0; [hintc] is 64 bytes, not initialised. *)
Definition is_valid_mbr (hintc : list Z) (d : D) (v : volume) : outcome (D * volume * bool) :=
  '(d, v, r) ← checks [(446, 1, not_status); (462, 1, not_status); (478, 1, not_status); (494, 1, not_status)]
                 d v [0; 0];
  match r with
  | None => Ret (d, v, false)
  | Some hint =>
      '(d, v, r) ← checks [(3, 4, starts "NTFS" 4); (54, 3, starts "FAT" 3); (82, 3, starts "FAT" 3);
                           (3, 5, starts "FAT32" 5)] d v hintc;
      match r with
      | None => Ret (d, v, false)
      | Some _ =>
          '(d, v, r) ← check d v hint 1080 2 (fun hint => of_le hint =? 0xef53);
          Ret (d, v, match r with None => false | Some _ => true end)
      end
  end.

(** [ret] is 4 bytes, not initialised. *)
Definition mbr_get_id (hintc ret : list Z) (d : D) (v : volume) : outcome (D * volume * Z) :=
  '(d, v, valid) ← is_valid_mbr hintc d v;
  if negb valid then Ret (d, v, 0)
  else
    '(d, v, ret, ok) ← volume_read d v ret 0x1b8 4;
    Ret (d, v, if negb ok then 0 else of_le ret).

Definition MAX_LOGICAL_PARTITIONS : Z := 256.

(** The walk along the chain of extended boot records; [n] is the number of iterations
    left, [i] the iteration. [None] is [return END_OF_TABLE]. *)
Fixpoint ebr_loop (n : nat) (i : Z) (d : D) (ext : volume) (entry : list Z) (ebr_sector : Z)
    : outcome (D * volume * list Z * option Z) :=
  match n with
  | O => Ret (d, ext, entry, Some ebr_sector)
  | S n =>
      let entry_offset := u64 (ebr_sector * 512 + 0x1ce) in
      '(d, ext, entry, ok) ← volume_read d ext entry entry_offset sizeof_mbr_entry;
      if negb ok then Ret (d, ext, entry, None)
      else if negb (is_extended entry) then Ret (d, ext, entry, None)
      else
        let prev_ebr_sector := ebr_sector in
        let ebr_sector := mbr_first_sect entry in
        if (ebr_sector =? 0) || ((i >? 0) && (ebr_sector <=? prev_ebr_sector)) then Ret (d, ext, entry, None)
        else if ebr_sector >=? ext.(sect_count) then Ret (d, ext, entry, None)
        else ebr_loop n (i + 1) d ext entry ebr_sector
  end.

(** [backing] is [*extended_part->backing_dev]; [entry] is not initialised. *)
Definition mbr_get_logical_part (entry : list Z) (d : D) (ret : volume) (backing ext : volume) (part : Z)
    : outcome (D * volume * Z) :=
  if part >=? MAX_LOGICAL_PARTITIONS then Ret (d, ret, END_OF_TABLE)
  else
    '(d, ext, entry, r) ← ebr_loop (Z.to_nat part) 0 d ext entry 0;
    match r with
    | None => Ret (d, ret, END_OF_TABLE)
    | Some ebr_sector =>
        let entry_offset := u64 (ebr_sector * 512 + 0x1be) in
        '(d, ext, entry, ok) ← volume_read d ext entry entry_offset sizeof_mbr_entry;
        if negb ok then Ret (d, ret, END_OF_TABLE)
        else if mbr_type entry =? 0 then Ret (d, ret, NO_PARTITION)
        else if mbr_sect_count entry =? 0 then Ret (d, ret, NO_PARTITION)
        else
          match CHECKED_ADD ebr_sector (mbr_first_sect entry) with
          | None => Ret (d, ret, NO_PARTITION)
          | Some logical_rel_first =>
              if negb (partition_range_valid ext logical_rel_first (mbr_sect_count entry)) then Ret (d, ret, NO_PARTITION)
              else
                match CHECKED_ADD ext.(first_sect) logical_rel_first with
                | None => Ret (d, ret, NO_PARTITION)
                | Some first_sect_64 =>
                    if negb (partition_range_valid backing first_sect_64 (mbr_sect_count entry))
                    then Ret (d, ret, NO_PARTITION)
                    else
                      '(d, ret) ← identify d (fill ret ext ext.(backing_dev) (part + 4 + 1) first_sect_64 (mbr_sect_count entry))
                                    None;
                      Ret (d, ret, 0)
                end
          end
    end.

(** The search for the extended partition among the four entries from [i] on: [Some] is the
    [extended_part] of the first that fits. *)
Fixpoint find_extended (n : nat) (i : Z) (d : D) (vp : Z) (v : volume) (entry : list Z)
    : outcome (D * volume * list Z * option volume) :=
  match n with
  | O => Ret (d, v, entry, None)
  | S n =>
      let entry_offset := 0x1be + sizeof_mbr_entry * i in
      '(d, v, entry, ok) ← volume_read d v entry entry_offset sizeof_mbr_entry;
      if negb ok then find_extended n (i + 1) d vp v entry
      else if negb (is_extended entry) then find_extended n (i + 1) d vp v entry
      else if mbr_sect_count entry =? 0 then find_extended n (i + 1) d vp v entry
      else if negb (partition_range_valid v (mbr_first_sect entry) (mbr_sect_count entry))
      then find_extended n (i + 1) d vp v entry
      else Ret (d, v, entry, Some (fill zero_volume v (Some vp) (i + 1) (mbr_first_sect entry) (mbr_sect_count entry)))
  end.

Definition mbr_get_part (hintc entry : list Z) (d : D) (ret : volume) (vp : Z) (v : volume) (part : Z)
    : outcome (D * volume * volume * Z) :=
  '(d, v, valid) ← is_valid_mbr hintc d v;
  if negb valid then Ret (d, ret, v, INVALID_TABLE)
  else if part >? 3 then
    '(d, v, entry, r) ← find_extended 4 0 d vp v entry;
    match r with
    | None => Ret (d, ret, v, END_OF_TABLE)
    | Some ext =>
        '(d, ret, code) ← mbr_get_logical_part entry d ret v ext (part - 4);
        Ret (d, ret, v, code)
    end
  else
    let entry_offset := 0x1be + sizeof_mbr_entry * part in
    '(d, v, entry, ok) ← volume_read d v entry entry_offset sizeof_mbr_entry;
    if negb ok then Ret (d, ret, v, END_OF_TABLE)
    else if mbr_type entry =? 0 then Ret (d, ret, v, NO_PARTITION)
    else if mbr_sect_count entry =? 0 then Ret (d, ret, v, NO_PARTITION)
    else if negb (partition_range_valid v (mbr_first_sect entry) (mbr_sect_count entry)) then Ret (d, ret, v, NO_PARTITION)
    else
      '(d, ret) ← identify d (fill ret v (Some vp) (part + 1) (mbr_first_sect entry) (mbr_sect_count entry)) None;
      Ret (d, ret, v, 0).

(** [junk] is what the stack holds where [hintc] and the [mbr_entry]s are. *)
Definition part_get (junk : list Z * list Z) (d : D) (ret : volume) (vp : Z) (v : volume) (part : Z)
    : outcome (D * volume * volume * Z) :=
  if part <? 0 then Ret (d, ret, v, NO_PARTITION)
  else
    '(d, ret, v, code) ← gpt_get_part d ret vp v part;
    if negb (code =? INVALID_TABLE) then Ret (d, ret, v, code)
    else
      '(d, ret, v, code) ← mbr_get_part junk.1 junk.2 d ret vp v part;
      if negb (code =? INVALID_TABLE) then Ret (d, ret, v, code)
      else Ret (d, ret, v, INVALID_TABLE).

End part.

(** * The index of volumes: the searches return the position of the first match *)

Fixpoint find_volume (p : volume -> bool) (volume_index : list volume) : option Z :=
  match volume_index with
  | [] => None
  | v :: l => if p v then Some 0 else Z.succ <$> find_volume p l
  end.

Definition volume_get_by_guid (volume_index : list volume) (guid : list Z) : option Z :=
  find_volume (fun v =>
    (v.(guid_valid) && (memcmp (fun i => v.(vguid).[i]) (fun i => guid.[i]) 16 =? 0))
    || (v.(part_guid_valid) && (memcmp (fun i => v.(part_guid).[i]) (fun i => guid.[i]) 16 =? 0))) volume_index.

(** [fuel] bounds the labels' lengths. *)
Definition volume_get_by_fslabel (fuel : nat) (volume_index : list volume) (fslabel : Z -> Z) : option Z :=
  find_volume (fun v => v.(fslabel_valid) && bool_decide (strcmp fuel v.(Part.fslabel) fslabel = Ret 0)) volume_index.

Definition volume_get_by_coord (volume_index : list volume) (optical : bool) (drive partition : Z) : option Z :=
  find_volume (fun v => (v.(index) =? drive) && Bool.eqb v.(is_optical) optical && (v.(Part.partition) =? partition))
    volume_index.

Definition volume_get_by_bios_drive (volume_index : list volume) (drive : Z) : option Z :=
  find_volume (fun v => v.(Part.drive) =? drive) volume_index.

End Part.
