(* ===== verification/PartCorrect.v ===== *)
(** What the partition code guarantees, for any driver that keeps the promises of
    [BlockDevOk]: reads through the cache return the bytes on the device, and the partitions
    found lie inside the volume they are on. *)

From S2P Require Import Prelude Libc Guid Part.
Import Libc Guid Part.

(** * The promise of a driver *)

Definition dev (v : volume) : Z * Z * Z := (v.(efi_handle), v.(block_io), v.(drive)).

Class BlockDevOk (D : Type) `{BlockDev D} := {
  dev_inv : D -> Prop;
  (** The byte at an offset of the device, its sector size, the sectors that can be read. *)
  contents : Z * Z * Z -> Z -> Z;
  dev_sector : Z * Z * Z -> Z;
  readable : Z * Z * Z -> Z -> Prop;
  max_xfer : Z;
  max_xfer_small : max_xfer < 2 ^ 32;
  size_t_small x : 0 <= x < 2 ^ 32 -> size_t x = x;
  disk_read_sectors_ok d v buf block count :
    dev_inv d -> v.(sector_size) = dev_sector (dev v) -> 0 < v.(sector_size) -> 0 <= block < 2 ^ 64 -> 0 < count ->
    count * v.(sector_size) <= max_xfer -> count * v.(sector_size) <= zlen buf ->
    exists d' buf' st, disk_read_sectors d v buf block count = Ret (d', buf', st) /\ dev_inv d' /\
      zlen buf' = zlen buf /\ (Forall is_byte buf -> Forall is_byte buf') /\
      (st = DISK_SUCCESS -> slice buf' 0 (count * v.(sector_size)) =
        load_bytes (contents (dev v)) (block * v.(sector_size)) (Z.to_nat (count * v.(sector_size)))) /\
      ((forall s, block <= s < block + count -> readable (dev v) s) -> st = DISK_SUCCESS) }.

(** * Lists *)

Lemma length_load m a n : length (load_bytes m a n) = n.
Proof. unfold load_bytes. rewrite length_fmap, length_seqZ. lia. Qed.

Lemma load_slice m a n l off k :
  0 <= off -> 0 <= k -> off + k <= Z.of_nat n -> slice l 0 (Z.of_nat n) = load_bytes m a n ->
  slice l off k = load_bytes m (a + off) (Z.to_nat k).
Proof.
  intros Ho Hk Hn He. apply list_eq. intros i.
  destruct (decide (i < Z.to_nat k)%nat) as [Hi|Hi].
  - assert (slice l off k !! i = slice l 0 (Z.of_nat n) !! (Z.to_nat off + i)%nat) as ->.
    { unfold slice. rewrite !lookup_take_lt, !lookup_drop by lia. done. }
    rewrite He. unfold load_bytes. rewrite !list_lookup_fmap, !lookup_seqZ_lt by lia. simpl. do 2 f_equal. lia.
  - rewrite !lookup_ge_None_2; [done | rewrite length_load; lia | unfold slice; rewrite length_take; lia].
Qed.

Lemma load_app m a n k : load_bytes m a (n + k) = load_bytes m a n ++ load_bytes m (a + Z.of_nat n) k.
Proof.
  unfold load_bytes. rewrite <- fmap_app, Nat2Z.inj_add, seqZ_app by lia. done.
Qed.

Lemma load_bytes_ext m m' a a' n : (forall i, 0 <= i < Z.of_nat n -> m (a + i) = m' (a' + i)) -> load_bytes m a n = load_bytes m' a' n.
Proof.
  intros He. unfold load_bytes. apply list_eq. intros i. rewrite !list_lookup_fmap.
  destruct (decide (Z.of_nat i < Z.of_nat n)); [rewrite !lookup_seqZ_lt by lia | rewrite !lookup_seqZ_ge by lia; done].
  simpl. f_equal. apply He. lia.
Qed.


(** * Volumes *)

Section volumes.
Context {D : Type} `{BlockDevOk D}.
Implicit Types (d : D) (v : volume).

(** 512-byte units in a sector, bytes in a block of the cache. *)
Definition units v : Z := v.(sector_size) / 512.
Definition bsize v : Z := v.(fastest_xfer_size) * v.(sector_size).
(** The bytes of the whole sectors of a volume of known size. *)
Definition whole v : Z := v.(sect_count) / units v * v.(sector_size).

Record geometry v : Prop := {
  g_units : exists k, 1 <= k /\ v.(sector_size) = 512 * k;
  g_sector : v.(sector_size) = dev_sector (dev v);
  g_xfer : 1 <= v.(fastest_xfer_size);
  g_max : bsize v <= max_xfer;
  g_first : 0 <= v.(first_sect) < 2 ^ 64;
  g_count : 0 <= v.(sect_count) < 2 ^ 64;
  g_end : v.(sect_count) <> UINT64_MAX -> v.(first_sect) + v.(sect_count) < 2 ^ 64;
  g_disk : v.(pxe) = false }.

(** [b] holds the sectors of block [blk] that are in the volume. *)
Definition block_data v (blk : Z) (b : list Z) : Prop :=
  v.(first_sect) mod units v = 0 /\ 0 <= blk /\
  exists n, clamp v (units v) (v.(first_sect) / units v) (v.(first_sect) / units v + blk * v.(fastest_xfer_size))
      v.(fastest_xfer_size) = Some n /\
    slice b 0 (n * v.(sector_size)) =
      load_bytes (contents (dev v)) (v.(first_sect) * 512 + blk * bsize v) (Z.to_nat (n * v.(sector_size))).

Definition cache_ok v : Prop :=
  (forall b, v.(vc).(cache) = Some b -> zlen b = bsize v /\ Forall is_byte b) /\
  (v.(vc).(cache_status) = CACHE_READY -> exists b, v.(vc).(cache) = Some b /\ block_data v v.(vc).(cached_block) b).

Definition vol_ok v : Prop := geometry v /\ cache_ok v.

Lemma geometry_set_vc v c : geometry (set_vc v c) <-> geometry v.
Proof. split; intros []; by constructor. Qed.
Lemma block_data_set_vc v c blk b : block_data (set_vc v c) blk b <-> block_data v blk b.
Proof. done. Qed.

Lemma units_pos v : geometry v -> 1 <= units v /\ v.(sector_size) = 512 * units v /\ u64 (Z.quot v.(sector_size) 512) = units v.
Proof.
  intros Hg. destruct (g_units v Hg) as (k & Hk & Hs). pose proof (g_max v Hg). pose proof max_xfer_small.
  pose proof (g_xfer v Hg). unfold bsize, units in *. rewrite Z.quot_div_nonneg by lia. rewrite Hs.
  rewrite Z.mul_comm, Z.div_mul by lia. rewrite u64_small by nia. lia.
Qed.

Lemma clamp_range v k f r n :
  1 <= v.(fastest_xfer_size) -> clamp v k f r v.(fastest_xfer_size) = Some n -> 1 <= n <= v.(fastest_xfer_size).
Proof. unfold clamp. intros. cases. Qed.

(** The sectors transferred for a block that starts in the volume reach as far as the
    block and the whole sectors of the volume do. *)
Lemma clamp_cover v blk n :
  geometry v -> clamp v (units v) (v.(first_sect) / units v) (v.(first_sect) / units v + blk * v.(fastest_xfer_size))
      v.(fastest_xfer_size) = Some n ->
  n * v.(sector_size) =
    if v.(sect_count) =? UINT64_MAX then bsize v else Z.min (bsize v) (whole v - blk * bsize v).
Proof.
  intros Hg. destruct (units_pos v Hg) as (Hu & Hs & _). pose proof (g_end v Hg) as He. pose proof (g_first v Hg).
  pose proof (g_count v Hg). unfold clamp, whole, bsize. destruct (Z.eqb_spec v.(sect_count) UINT64_MAX) as [|Hne]; simpl.
  { intros [= <-]. done. }
  assert (CHECKED_ADD (v.(first_sect) / units v) (v.(sect_count) / units v) =
    Some (v.(first_sect) / units v + v.(sect_count) / units v)) as ->.
  { apply CHECKED_ADD_Some. split; [done |].
    pose proof (Z.div_le_upper_bound v.(first_sect) (units v) v.(first_sect)).
    pose proof (Z.div_le_upper_bound v.(sect_count) (units v) v.(sect_count)). nia. }
  simpl. intros Hn. cases; nia.
Qed.

Lemma CHECKED_MUL_Some a b c : CHECKED_MUL a b = Some c <-> c = a * b /\ a * b < 2 ^ 64.
Proof. unfold CHECKED_MUL. destruct (Z.ltb_spec (a * b) (2 ^ 64)); naive_solver lia. Qed.

Lemma xfer_small v : geometry v -> 0 < v.(fastest_xfer_size) < 2 ^ 32 /\ 512 <= v.(sector_size) < 2 ^ 32 /\ 0 < bsize v < 2 ^ 32.
Proof.
  intros Hg. destruct (units_pos v Hg) as (Hu & Hs & _). pose proof (g_max v Hg). pose proof (g_xfer v Hg).
  pose proof max_xfer_small. unfold bsize in *. nia.
Qed.

Definition not_ready v (b : list Z) : vcache :=
  {| cache_status := CACHE_NOT_READY; cache := Some b; cached_block := v.(vc).(cached_block) |}.

Lemma not_ready_ok v b : geometry v -> zlen b = bsize v -> Forall is_byte b -> vol_ok (set_vc v (not_ready v b)).
Proof. intros Hg Hb HF. split; [by apply geometry_set_vc |]. split; [by intros b' [= <-] | done]. Qed.

(** The buffer the cache has, or the one it gets. *)
Lemma cache_buffer v : vol_ok v -> exists b, (zlen b = bsize v /\ Forall is_byte b) /\
  match v.(vc).(cache) with
  | None => size ← or_panic (CHECKED_MUL v.(fastest_xfer_size) v.(sector_size)); Ret (replicate (Z.to_nat size) 0)
  | Some buf => Ret buf
  end = Ret b.
Proof.
  intros [Hg [Hb _]]. pose proof (xfer_small v Hg) as (Hx & Hs & Hbs).
  destruct (v.(vc).(cache)) as [b|]; [exists b; split; [by apply Hb | done] |].
  exists (replicate (Z.to_nat (bsize v)) 0). unfold zlen. rewrite length_replicate. split; [split; [lia | by apply Forall_replicate] |].
  rewrite (proj2 (CHECKED_MUL_Some _ _ (bsize v))) by (unfold bsize in *; lia). done.
Qed.

(** The sectors of the volume can be read. *)
Definition all_readable v : Prop :=
  v.(first_sect) mod units v = 0 /\
  forall s, v.(first_sect) / units v <= s < v.(first_sect) / units v + v.(sect_count) / units v -> readable (dev v) s.

Lemma div_sum_small v : geometry v -> v.(sect_count) <> UINT64_MAX ->
  0 <= v.(first_sect) / units v /\ 0 <= v.(sect_count) / units v /\
  v.(first_sect) / units v + v.(sect_count) / units v < 2 ^ 64.
Proof.
  intros Hg Hne. destruct (units_pos v Hg) as (Hu & _). pose proof (g_end v Hg Hne). pose proof (g_first v Hg).
  pose proof (g_count v Hg). pose proof (Z.div_pos v.(first_sect) (units v)). pose proof (Z.div_pos v.(sect_count) (units v)).
  pose proof (Z.div_le_upper_bound v.(first_sect) (units v) v.(first_sect)).
  pose proof (Z.div_le_upper_bound v.(sect_count) (units v) v.(sect_count)). nia.
Qed.

(** A block that starts inside the volume is transferred whole or up to its end. *)
Lemma clamp_inside v blk : geometry v -> v.(sect_count) <> UINT64_MAX -> 0 <= blk -> blk * bsize v < whole v ->
  exists n, clamp v (units v) (v.(first_sect) / units v) (v.(first_sect) / units v + blk * v.(fastest_xfer_size))
      v.(fastest_xfer_size) = Some n /\
    v.(first_sect) / units v + blk * v.(fastest_xfer_size) + n <= v.(first_sect) / units v + v.(sect_count) / units v.
Proof.
  intros Hg Hne Hb Hw. pose proof (div_sum_small v Hg Hne) as (Hf & Hc & Hs). pose proof (xfer_small v Hg) as (Hx & Hss & _).
  unfold clamp. rewrite (proj2 (Z.eqb_neq _ _) Hne). simpl.
  rewrite (proj2 (CHECKED_ADD_Some _ _ _) (conj eq_refl Hs)). simpl. unfold whole, bsize in Hw.
  assert (blk * v.(fastest_xfer_size) < v.(sect_count) / units v) by nia.
  repeat case_if; try lia; eexists; (split; [done | lia]).
Qed.

(** What [cache_block] promises. *)
Definition inside v (blk : Z) : Prop := all_readable v /\ v.(sect_count) <> UINT64_MAX /\ blk * bsize v < whole v.
Definition cached v (blk : Z) (o : outcome (D * volume * bool)) : Prop :=
  exists d' c' ok, o = Ret (d', set_vc v c', ok) /\ dev_inv d' /\ vol_ok (set_vc v c') /\
    (ok = true -> exists b, c'.(cache) = Some b /\ zlen b = bsize v /\ Forall is_byte b /\ block_data v blk b) /\
    (inside v blk -> ok = true).

Lemma cached_fail d v blk b :
  dev_inv d -> geometry v -> zlen b = bsize v -> Forall is_byte b -> ~ inside v blk -> cached v blk (Ret (d, set_vc v (not_ready v b), false)).
Proof.
  intros Hd Hg Hb HF Hno. exists d, (not_ready v b), false. split_and!; try done. by apply not_ready_ok.
Qed.

Lemma cached_hit d v blk :
  dev_inv d -> vol_ok v -> v.(vc).(cache_status) = CACHE_READY -> blk = v.(vc).(cached_block) ->
  cached v blk (Ret (d, v, true)).
Proof.
  intros Hd Hv Hr ->. pose proof Hv as [Hg [Hcb Hcr]]. destruct (Hcr Hr) as (b & Hb & Hdata).
  exists d, v.(vc), true. split_and!; [by destruct v | done | by destruct v | | done]. intros _. destruct (Hcb b Hb). eauto.
Qed.

(** The transfer of [n] sectors into the cache. *)
Lemma cached_read d v blk b n :
  dev_inv d -> geometry v -> zlen b = bsize v -> Forall is_byte b -> 0 <= blk -> v.(first_sect) mod units v = 0 ->
  v.(first_sect) / units v + blk * v.(fastest_xfer_size) < 2 ^ 64 ->
  clamp v (units v) (v.(first_sect) / units v) (v.(first_sect) / units v + blk * v.(fastest_xfer_size))
      v.(fastest_xfer_size) = Some n ->
  cached v blk ('(d, buf, ret) ← disk_read_sectors d (set_vc v (not_ready v b)) b
                   (v.(first_sect) / units v + blk * v.(fastest_xfer_size)) (size_t n);
     if bool_decide (ret = DISK_SUCCESS)
     then Ret (d, set_vc v {| cache_status := CACHE_READY; cache := Some buf; cached_block := blk |}, true)
     else Ret (d, set_vc v (not_ready v buf), false)).
Proof.
  intros Hd Hg Hlen HF Hblk Hm Hadd Hclamp. destruct (units_pos v Hg) as (Hu & Hs & _).
  pose proof (xfer_small v Hg) as (Hx & Hss & Hbs). pose proof (clamp_range _ _ _ _ _ (g_xfer v Hg) Hclamp) as Hn.
  assert (0 <= v.(first_sect) / units v) by (apply Z.div_pos; [apply (g_first v Hg) | lia]).
  rewrite size_t_small by lia.
  destruct (disk_read_sectors_ok d (set_vc v (not_ready v b)) b (v.(first_sect) / units v + blk * v.(fastest_xfer_size)) n)
    as (d' & b' & st & -> & Hd' & Hlb & HF' & Hok & Hsucc); simpl; try done; try apply (g_sector v Hg); try lia.
  { pose proof (g_max v Hg). unfold bsize in *. nia. } { unfold bsize in *. nia. }
  case_bool_decide as Hst.
  - exists d', {| cache_status := CACHE_READY; cache := Some b'; cached_block := blk |}, true.
    assert (block_data v blk b') as Hdata.
    { split; [done |]. split; [done |]. exists n. split; [done |]. etransitivity; [exact (Hok Hst) |]. simpl. f_equal.
      unfold bsize. rewrite (Z.div_mod v.(first_sect) (units v)) at 2 by lia. rewrite Hm, Hs. lia. }
    split_and!; [done | done | | by intros _; exists b'; split_and!; eauto with lia | done].
    split; [by apply geometry_set_vc |]. split; [intros ? [= <-]; rewrite Hlb; eauto | eauto].
  - apply cached_fail; [done | done | lia | by apply HF' |]. intros (Hread & Hne & Hw).
    apply Hst, Hsucc. intros s Hs'. destruct Hread as [_ Hread]. apply Hread.
    destruct (clamp_inside v blk Hg Hne Hblk Hw) as (n' & Hn' & Hle). simplify_eq. lia.
Qed.

Lemma cache_block_spec d v blk : dev_inv d -> vol_ok v -> 0 <= blk -> cached v blk (cache_block d v blk).
Proof.
  intros Hd Hv Hblk. pose proof Hv as [Hg _]. unfold cache_block.
  destruct (bool_decide (v.(vc).(cache_status) = CACHE_READY) && (blk =? v.(vc).(cached_block))) eqn:Hhit.
  { apply andb_true_iff in Hhit as [Hr Hb]. apply bool_decide_eq_true in Hr. apply Z.eqb_eq in Hb. by apply cached_hit. }
  destruct (cache_buffer v Hv) as (b & [Hlen HF] & ->). cbn [mbind outcome_bind sector_size set_vc first_sect fastest_xfer_size].
  destruct (units_pos v Hg) as (Hu & Hs & ->). rewrite (proj2 (Z.eqb_neq (units v) 0)) by lia.
  assert (inside v blk -> v.(first_sect) / units v + blk * v.(fastest_xfer_size) < 2 ^ 64 /\ blk * v.(fastest_xfer_size) < 2 ^ 64)
    as Hsmall.
  { intros (_ & Hne & Hw). destruct (clamp_inside v blk Hg Hne Hblk Hw) as (n & Hn & Hle).
    pose proof (clamp_range _ _ _ _ _ (g_xfer v Hg) Hn). pose proof (div_sum_small v Hg Hne). lia. }
  destruct (Z.eqb_spec (v.(first_sect) mod units v) 0) as [Hm|Hm]; simpl;
    [|apply cached_fail; try done; by intros ([? _] & _)].
  destruct (CHECKED_MUL blk _) as [off|] eqn:Hmul.
  2: { apply cached_fail; try done. intros Hin. unfold CHECKED_MUL in Hmul. case_if; [done | specialize (Hsmall Hin); lia]. }
  apply CHECKED_MUL_Some in Hmul as [-> Hmul].
  destruct (CHECKED_ADD _ _) as [r|] eqn:Hadd.
  2: { apply cached_fail; try done. intros Hin. apply CHECKED_ADD_None in Hadd. specialize (Hsmall Hin). lia. }
  apply CHECKED_ADD_Some in Hadd as [-> Hadd].
  change (clamp (set_vc v ?c)) with (clamp v).
  destruct (clamp v _ _ _ _) as [n|] eqn:Hclamp.
  2: { apply cached_fail; try done. intros (_ & Hne & Hw). destruct (clamp_inside v blk Hg Hne Hblk Hw) as (n & Hn & _). congruence. }
  exact (cached_read d v blk b n Hd Hg Hlen HF Hblk Hm Hadd Hclamp).
Qed.

(** * Reading *)

(** [buffer] after a read of [count] bytes at [loc]. *)
Definition got v (loc count : Z) (buffer : list Z) : list Z :=
  load_bytes (contents (dev v)) (v.(first_sect) * 512 + loc) (Z.to_nat count) ++ drop (Z.to_nat count) buffer.
Definition in_whole v (x : Z) : Prop := v.(sect_count) = UINT64_MAX \/ x <= whole v.

(** One chunk: the bytes of the cache at [offset] are the ones asked for. *)
Lemma chunk_data v blk b offset chunk :
  geometry v -> block_data v blk b -> 0 <= offset -> 0 <= chunk -> offset + chunk <= bsize v ->
  in_whole v (blk * bsize v + offset + chunk) ->
  slice b offset chunk = load_bytes (contents (dev v)) (v.(first_sect) * 512 + (blk * bsize v + offset)) (Z.to_nat chunk).
Proof.
  intros Hg (_ & Hb & n & Hn & Hs) Ho Hc Hbs Hw. pose proof (clamp_cover v blk n Hg Hn) as Hcov.
  rewrite Z.add_assoc. apply (load_slice _ _ (Z.to_nat (n * v.(sector_size)))); try lia.
  - unfold in_whole in Hw. destruct (Z.eqb_spec v.(sect_count) UINT64_MAX); lia.
  - destruct (xfer_small v Hg) as (? & ? & ?). pose proof (clamp_range _ _ _ _ _ (g_xfer v Hg) Hn).
    rewrite Z2Nat.id by nia. done.
Qed.

(** What a read promises: on success of a range in the whole sectors, the [count] bytes from
    [p] on are the device's and the rest of the buffer is as it was. *)
Definition reads v (loc count p : Z) (buffer : list Z) (o : outcome (D * volume * list Z * bool)) : Prop :=
  exists d' c' buffer' ok, o = Ret (d', set_vc v c', buffer', ok) /\ dev_inv d' /\ vol_ok (set_vc v c') /\
    zlen buffer' = zlen buffer /\ (Forall is_byte buffer -> Forall is_byte buffer') /\
    (ok = true -> loc + count <= 2 ^ 64 -> in_whole v (loc + count) -> buffer' = take (Z.to_nat p) buffer ++
      load_bytes (contents (dev v)) (v.(first_sect) * 512 + (loc + p)) (Z.to_nat (count - p)) ++ drop (Z.to_nat count) buffer) /\
    (all_readable v -> v.(sect_count) < 2 ^ 55 -> 0 < count -> loc + count <= whole v -> ok = true).

(** After one chunk, the rest of the loop completes the buffer. *)
Lemma reads_step v c loc count p chunk buffer data o :
  0 <= p -> 0 < chunk -> p + chunk <= count -> count <= zlen buffer -> zlen data = chunk -> Forall is_byte data ->
  (loc + count <= 2 ^ 64 -> in_whole v (loc + count) -> data = load_bytes (contents (dev v)) (v.(first_sect) * 512 + (loc + p)) (Z.to_nat chunk)) ->
  reads (set_vc v c) loc count (p + chunk) (blit buffer p data) o -> reads v loc count p buffer o.
Proof.
  intros Hp Hc Hle Hlen Hz HFd Hdata (d' & c' & buffer' & ok & -> & Hd & Hv & Hzb & HF & Hok & Hs).
  exists d', c', buffer', ok. split_and!; try done.
  - rewrite Hzb. apply zlen_blit; lia.
  - intros HFb. by apply HF, Forall_blit.
  - intros Ht Hlc Hw. rewrite (Hok Ht Hlc Hw).
    assert (take (Z.to_nat (p + chunk)) (blit buffer p data) = take (Z.to_nat p) buffer ++ data) as ->.
    { unfold blit. unfold zlen in *. rewrite app_assoc. rewrite take_app_length'; [done |].
      rewrite length_app, length_take. lia. }
    assert (drop (Z.to_nat count) (blit buffer p data) = drop (Z.to_nat count) buffer) as ->.
    { unfold blit, zlen in *. rewrite app_assoc, drop_app_ge; [|rewrite length_app, length_take; lia].
      rewrite drop_drop. f_equal. rewrite length_app, length_take. lia. }
    rewrite (Hdata Hlc Hw), <- !app_assoc. f_equal. rewrite app_assoc. f_equal.
    change (contents (dev (set_vc v c))) with (contents (dev v)). change (first_sect (set_vc v c)) with (first_sect v).
    replace (Z.to_nat (count - p)) with (Z.to_nat chunk + Z.to_nat (count - (p + chunk)))%nat by lia.
    rewrite load_app. do 2 f_equal. lia.
Qed.

Lemma whole_le v : geometry v -> whole v <= v.(sect_count) * 512.
Proof.
  intros Hg. destruct (units_pos v Hg) as (Hu & Hss & _). pose proof (g_count v Hg).
  unfold whole. rewrite Hss. pose proof (Z.mul_div_le v.(sect_count) (units v)). nia.
Qed.
Lemma whole_small v : geometry v -> v.(sect_count) < 2 ^ 55 -> whole v < 2 ^ 64.
Proof. intros Hg Hs. pose proof (whole_le v Hg). lia. Qed.

Lemma read_loop_spec fuel d v buffer loc count p :
  dev_inv d -> vol_ok v -> 0 <= loc -> 0 <= p <= count -> count - p <= Z.of_nat fuel -> count <= zlen buffer -> reads v loc count p buffer (read_loop fuel d v buffer loc count (bsize v) p).
Proof.
  revert d v buffer p. induction fuel as [|fuel IH]; intros d v buffer p Hd Hv Hloc Hp Hf Hlen; simpl.
  - assert (p = count) as -> by lia. rewrite Z.ltb_irrefl.
    exists d, v.(vc), buffer, true. split_and!; try done; try by destruct v.
    intros _ _ _. rewrite Z.sub_diag. simpl. by rewrite take_drop.
  - destruct (Z.ltb_spec p count) as [Hlt|Hge].
    2: { assert (p = count) as -> by lia. exists d, v.(vc), buffer, true. split_and!; try done; try by destruct v.
         intros _ _ _. rewrite Z.sub_diag. simpl. by rewrite take_drop. }
    pose proof Hv as [Hg _]. pose proof (xfer_small v Hg) as (_ & _ & Hbs).
    rewrite (proj2 (Z.eqb_neq (bsize v) 0)) by lia. set (x := u64 (loc + p)).
    assert (loc + count <= 2 ^ 64 -> x = loc + p) as Hx by (intros; apply u64_small; lia).
    pose proof (u64_bound (loc + p) : 0 <= x < 2 ^ 64) as Hxb. clearbody x.
    pose proof (Z.div_mod x (bsize v) ltac:(lia)) as Hdm. pose proof (Z.mod_pos_bound x (bsize v) ltac:(lia)) as Hmb.
    pose proof (Z.div_pos x (bsize v) ltac:(lia) ltac:(lia)) as Hdp.
    set (blk := x / bsize v) in *. set (off := x mod bsize v) in *.
    destruct (cache_block_spec d v blk Hd Hv Hdp) as (d' & c' & ok & -> & Hd' & Hv' & Hok & Hin). simpl.
    destruct ok; simpl.
    2: { exists d', c', buffer, false. split_and!; try done. intros Hr Hne Hc0 Hw. apply Hin. split; [done |].
         pose proof (whole_small v Hg Hne). unfold UINT64_MAX. lia. }
    destruct (Hok eq_refl) as (b & Hb & Hzb & HFb & Hdata). rewrite Hb. simpl.
    set (chunk := if count - p >? bsize v - off then bsize v - off else count - p).
    assert (0 < chunk /\ p + chunk <= count /\ off + chunk <= bsize v) as (Hc0 & Hc1 & Hc2)
      by (unfold chunk; case_if; lia).
    assert (zlen (slice b off chunk) = chunk) as Hzs by (unfold zlen; rewrite length_slice; lia).
    eapply (reads_step v c' _ _ _ chunk); try done; try lia; [by apply Forall_slice | |].
    + intros Hlc Hw. rewrite (chunk_data v blk); try done; try lia; [do 2 f_equal; lia |].
      destruct Hw as [?|?]; [by left | right; lia].
    + refine (IH d' (set_vc v c') _ (p + chunk) Hd' Hv' Hloc _ _ _); try lia. rewrite zlen_blit; lia.
Qed.

Lemma volume_read_spec d v buffer loc count :
  dev_inv d -> vol_ok v -> 0 <= loc -> 0 <= count -> count <= zlen buffer ->
  reads v loc count 0 buffer (volume_read d v buffer loc count).
Proof.
  intros Hd Hv Hloc Hc Hlen. pose proof Hv as [Hg _]. unfold volume_read. rewrite (g_disk v Hg).
  match goal with |- context [negb ?r] => destruct r eqn:Hr end; simpl.
  - rewrite size_t_small by (destruct (xfer_small v Hg) as (_ & _ & Hb); unfold bsize in Hb; lia). apply read_loop_spec; try done; lia.
  - exists d, v.(vc), buffer, false. split_and!; try done; try by destruct v.
    intros [Hm _] Hs Hc0 Hw. exfalso. destruct (units_pos v Hg) as (Hu & Hss & _). pose proof (g_count v Hg).
    pose proof (whole_le v Hg).
    assert (v.(sect_count) * 512 < 2 ^ 64) as Hmul by lia.
    rewrite (proj2 (CHECKED_MUL_Some _ _ _) (conj eq_refl Hmul)) in Hr.
    destruct (Z.eqb_spec v.(sect_count) UINT64_MAX); simpl in Hr; [done |]. lia.
Qed.

Lemma volume_read_range d v buffer loc count d' v' buffer' :
  volume_read d v buffer loc count = Ret (d', v', buffer', true) -> v.(sect_count) <> UINT64_MAX ->
  loc + count <= v.(sect_count) * 512.
Proof.
  unfold volume_read. intros Hr Hne. rewrite (proj2 (Z.eqb_neq _ _) Hne) in Hr. simpl in Hr.
  destruct (pxe v); [done |]. destruct (CHECKED_MUL _ 512) as [sz|] eqn:Hm; [|done].
  apply CHECKED_MUL_Some in Hm as [-> _]. case_if; simpl in *; [done |]. lia.
Qed.

(** C6: [volume_read] always returns, and leaves the driver and the cache consistent. When it
    reports success, the range is inside the volume, and if it is inside the volume's whole
    sectors then the [count] bytes at the start of the buffer are the bytes of the device from
    the volume's start plus [loc] on, whatever the cache held, and the rest of the buffer is
    unchanged. When the device can read the volume's sectors, every such read succeeds. *)
Theorem volume_read_correct d v buffer loc count :
  dev_inv d -> vol_ok v -> 0 <= loc -> 0 < count -> loc + count <= 2 ^ 64 -> count <= zlen buffer ->
  exists d' c' buffer' ok, volume_read d v buffer loc count = Ret (d', set_vc v c', buffer', ok) /\
    dev_inv d' /\ vol_ok (set_vc v c') /\ zlen buffer' = zlen buffer /\
    (ok = true -> v.(sect_count) <> UINT64_MAX -> loc + count <= v.(sect_count) * 512) /\
    (ok = true -> in_whole v (loc + count) -> buffer' = got v loc count buffer) /\
    (all_readable v -> v.(sect_count) < 2 ^ 55 -> loc + count <= whole v -> ok = true).
Proof.
  intros Hd Hv Hl Hc Hlc Hz.
  destruct (volume_read_spec d v buffer loc count) as (d' & c' & b' & ok & Hr & Hd' & Hv' & Hzb & _ & Hok & Hs); try done; try lia.
  exists d', c', b', ok. split_and!; try done.
  - intros -> Hne. by eapply volume_read_range.
  - intros Ht Hw. rewrite (Hok Ht Hlc Hw). unfold got. simpl. by rewrite Z.add_0_r, Z.sub_0_r.
  - intros. by apply Hs.
Qed.

(** * Reading a volume *)

(** A byte of a volume; reads below [x] succeed. *)
Definition vbyte v (x : Z) : Z := contents (dev v) (v.(first_sect) * 512 + x).
Definition good v (x : Z) : Prop := all_readable v /\ v.(sect_count) < 2 ^ 55 /\ x <= whole v.

Lemma good_in_whole v x y : good v y -> x <= y -> in_whole v x.
Proof. intros (_ & _ & ?) ?. right. lia. Qed.
Lemma good_mono v x y : good v y -> x <= y -> good v x.
Proof. intros (? & ? & ?) ?. split_and!; try done. lia. Qed.
Lemma in_whole_mono v x y : in_whole v y -> x <= y -> in_whole v x.
Proof. intros [?|?] ?; [by left | right; lia]. Qed.

Lemma load_vbyte v loc n : load_bytes (contents (dev v)) (v.(first_sect) * 512 + loc) n = load_bytes (vbyte v) loc n.
Proof.
  unfold load_bytes. apply list_eq. intros i. rewrite !list_lookup_fmap.
  destruct (decide (Z.of_nat i < Z.of_nat n)); [rewrite !lookup_seqZ_lt by lia | rewrite !lookup_seqZ_ge by lia; done].
  simpl. unfold vbyte. do 2 f_equal. lia.
Qed.

Lemma volume_read_at d v buf loc n :
  dev_inv d -> vol_ok v -> 0 <= loc -> 0 < n <= zlen buf -> loc + n <= 2 ^ 64 -> Forall is_byte buf ->
  exists d' k buf' ok, volume_read d v buf loc n = Ret (d', set_vc v k, buf', ok) /\ dev_inv d' /\ vol_ok (set_vc v k) /\
    zlen buf' = zlen buf /\ Forall is_byte buf' /\
    (ok = true -> in_whole v (loc + n) -> buf' = load_bytes (vbyte v) loc (Z.to_nat n) ++ drop (Z.to_nat n) buf) /\
    (good v (loc + n) -> ok = true).
Proof.
  intros Hd Hv Hl Hn Hl2 HF.
  destruct (volume_read_spec d v buf loc n) as (d' & k & b' & ok & Hr & Hd' & Hv' & Hz & HF' & Hok & Hs); try done; try lia.
  exists d', k, b', ok. split_and!; auto.
  - intros Ht Hw. rewrite (Hok Ht Hl2 Hw), Z.add_0_r, Z.sub_0_r. by rewrite load_vbyte.
  - intros (Hr1 & Hr2 & Hr3). apply Hs; try done. lia.
Qed.

(** What an operation promises: it returns, nothing but the cache of the volume has changed,
    and the result satisfies [Q]. *)
Definition keeps {A} v (o : outcome (D * volume * A)) (Q : A -> Prop) : Prop :=
  exists d' k a, o = Ret (d', set_vc v k, a) /\ dev_inv d' /\ vol_ok (set_vc v k) /\ Q a.

Lemma keeps_ret {A} d v (a : A) (Q : A -> Prop) : dev_inv d -> vol_ok v -> Q a -> keeps v (Ret (d, v, a)) Q.
Proof. intros. exists d, v.(vc), a. split_and!; try done; by destruct v. Qed.
Lemma keeps_set {A} v k (o : outcome (D * volume * A)) Q : keeps (set_vc v k) o Q -> keeps v o Q.
Proof. intros (d' & k' & a & -> & ?). exists d', k', a. done. Qed.
Lemma keeps_bind {A B} v (o : outcome (D * volume * A)) (f : D * volume * A -> outcome (D * volume * B)) Q R :
  keeps v o Q -> (forall d k a, dev_inv d -> vol_ok (set_vc v k) -> Q a -> keeps (set_vc v k) (f (d, set_vc v k, a)) R) ->
  keeps v (o ≫= f) R.
Proof. intros (d' & k' & a & -> & Hd & Hv & Ha) Hf. simpl. eapply keeps_set, Hf; done. Qed.
Lemma keeps_impl {A} v (o : outcome (D * volume * A)) (Q R : A -> Prop) : keeps v o Q -> (forall a, Q a -> R a) -> keeps v o R.
Proof. intros (d' & k' & a & -> & Hd & Hv & Ha) Hf. exists d', k', a. auto. Qed.

(** * Tables *)

Lemma of_le_range l : Forall is_byte l -> 0 <= of_le l < 256 ^ zlen l.
Proof.
  induction 1 as [|b l Hb HF IH]; [done |]. rewrite zlen_cons, Z.pow_add_r by (unfold zlen; lia).
  change (of_le (b :: l)) with (b + 256 * of_le l). unfold is_byte in Hb. lia.
Qed.
Lemma field_range l off n : Forall is_byte l -> 0 <= n -> 0 <= field l off n < 256 ^ n.
Proof.
  intros HF Hn. pose proof (of_le_range (slice l off n) (Forall_slice _ _ _ _ HF)) as Hr. unfold field.
  assert (256 ^ zlen (slice l off n) <= 256 ^ n); [|lia]. apply Z.pow_le_mono_r; [lia |].
  unfold zlen, slice. rewrite length_take. lia.
Qed.

(** A read into a buffer of bytes. *)
Lemma vread d v buf loc n :
  dev_inv d -> vol_ok v -> 0 <= loc -> 0 <= n <= zlen buf -> Forall is_byte buf ->
  exists d' c' buf' ok, volume_read d v buf loc n = Ret (d', set_vc v c', buf', ok) /\ dev_inv d' /\ vol_ok (set_vc v c') /\
    zlen buf' = zlen buf /\ Forall is_byte buf' /\
    (ok = true -> n = zlen buf -> loc + n <= 2 ^ 64 -> in_whole v (loc + n) ->
      buf' = load_bytes (contents (dev v)) (v.(first_sect) * 512 + loc) (Z.to_nat n)).
Proof.
  intros Hd Hv Hl Hn HF. destruct (volume_read_spec d v buf loc n) as (d' & c' & b' & ok & Hr & Hd' & Hv' & Hz & HF' & Hok & _);
    try done; try lia. exists d', c', b', ok. split_and!; auto. intros Ht -> Hl2 Hw. rewrite (Hok Ht Hl2 Hw).
  rewrite Z.add_0_r, Z.sub_0_r. simpl. rewrite drop_ge by (unfold zlen; lia). by rewrite app_nil_r.
Qed.

Lemma find_header_spec guesses : Forall (Z.le 0) guesses -> forall d v header,
  dev_inv d -> vol_ok v -> zlen header = 92 -> Forall is_byte header ->
  exists d' c' header' lb, find_header guesses d v header = Ret (d', set_vc v c', header', lb) /\ dev_inv d' /\
    vol_ok (set_vc v c') /\ Forall is_byte header' /\
    (forall x, lb = Some x -> x ∈ guesses /\ (x + 92 <= 2 ^ 64 -> in_whole v (x + 92) ->
      header' = load_bytes (contents (dev v)) (v.(first_sect) * 512 + x) 92)).
Proof.
  induction 1 as [|g guesses Hg HF IH]; intros d v header Hd Hv Hz HFh; simpl.
  { exists d, v.(vc), header, None. split_and!; try done; by destruct v. }
  destruct (vread d v header g 92) as (d' & c' & h' & ok & Hr & Hd' & Hv' & Hz' & HF' & Hdata); try done; try lia.
  unfold sizeof_gpt_header. rewrite Hr. simpl.
  destruct (IH d' (set_vc v c') h' Hd' Hv' ltac:(lia) HF') as (d2 & c2 & h2 & lb & He & Hd2 & Hv2 & HF2 & Hlb).
  destruct (negb ok || negb (strncmp (signature h') (lit "EFI PART") 8 =? 0)) eqn:Hb.
  - exists d2, c2, h2, lb. split_and!; try done; [| intros x Hx; destruct (Hlb x Hx); split; [by right | done]].
    destruct ok; simpl in *; [rewrite Hb |]; exact He.
  - destruct ok; [|done]. simpl in Hb |- *. rewrite Hb. exists d', c', h', (Some g). split_and!; try done. intros x [= <-].
    split; [left |]. intros. apply Hdata; done.
Qed.

(** A volume that has just been set up: nothing in its cache, and not a network one. *)
Definition fresh v : Prop :=
  v.(pxe) = false /\ v.(vc).(cache_status) = CACHE_NOT_READY /\ v.(vc).(cache) = None.

(** [r] is partition [num] of [v]: on the same device, not empty, inside it. *)
Record placed (vp : Z) (num : Z) v (r : volume) : Prop := {
  p_dev : dev r = dev v;
  p_coord : r.(index) = v.(index) /\ r.(is_optical) = v.(is_optical);
  p_backing : r.(backing_dev) = Some vp;
  p_number : r.(partition) = num;
  p_count : 1 <= r.(sect_count);
  p_inside : v.(sect_count) <> UINT64_MAX -> r.(first_sect) + r.(sect_count) <= v.(sect_count);
  p_ok : vol_ok r }.

Definition same_place (r r' : volume) : Prop :=
  dev r' = dev r /\ r'.(backing_dev) = r.(backing_dev) /\ r'.(partition) = r.(partition) /\
  r'.(first_sect) = r.(first_sect) /\ r'.(sect_count) = r.(sect_count) /\
  r'.(index) = r.(index) /\ r'.(is_optical) = r.(is_optical).

Lemma placed_same vp num v r r' : placed vp num v r -> same_place r r' -> vol_ok r' -> placed vp num v r'.
Proof. intros [] (H1 & H2 & H3 & H4 & H5 & H6 & H7) Hok. constructor; rewrite ?H1, ?H2, ?H3, ?H4, ?H5, ?H6, ?H7; done. Qed.

Lemma placed_set_vc vp num v c r : placed vp num (set_vc v c) r -> placed vp num v r.
Proof. by intros []; constructor. Qed.

Lemma range_valid_spec v first count : 0 <= first -> 0 <= count ->
  partition_range_valid v first count = true ->
  1 <= count /\ first + count < 2 ^ 64 /\ (v.(sect_count) <> UINT64_MAX -> first + count <= v.(sect_count)).
Proof.
  unfold partition_range_valid. intros Hf Hc Hv. destruct (Z.eqb_spec count 0); [done |].
  destruct (CHECKED_ADD first count) as [e|] eqn:He; [|done]. apply CHECKED_ADD_Some in He as [-> He].
  split_and!; try lia.
Qed.

(** The volume [part_get] fills in is a partition, when the range is. *)
Lemma fill_placed vp v src ret part first count :
  vol_ok src -> dev src = dev v -> src.(index) = v.(index) /\ src.(is_optical) = v.(is_optical) -> fresh ret ->
  0 <= first -> 1 <= count -> first + count < 2 ^ 64 ->
  (v.(sect_count) <> UINT64_MAX -> first + count <= v.(sect_count)) ->
  placed vp (part + 1) v (fill ret src (Some vp) (part + 1) first count).
Proof.
  intros [Hg _] Hdev Hco (Hpxe & Hst & Hc) Hf Hcount Hend Hin. destruct Hg as [? ? ? ? ? ? ? ?].
  constructor; simpl; try done; try lia. split.
  - constructor; simpl; try done; lia.
  - split; simpl; [by rewrite Hc | by rewrite Hst].
Qed.

Section tables.
Variable fs_get_label : D -> volume -> outcome (D * volume * option (Z -> Z)).
(** The FAT driver only reads the volume. *)
Hypothesis label_reads : forall d v, dev_inv d -> vol_ok v ->
  exists d' c' l, fs_get_label d v = Ret (d', set_vc v c', l) /\ dev_inv d' /\ vol_ok (set_vc v c').

Lemma vol_ok_set_guid v g : vol_ok (set_guid v g) <-> vol_ok v.
Proof. split; intros [[] ?]; (split; [by constructor | done]). Qed.
Lemma vol_ok_set_names v l g : vol_ok (set_names v l g) <-> vol_ok v.
Proof. split; intros [[] ?]; (split; [by constructor | done]). Qed.

Lemma identify_spec d r pg : dev_inv d -> vol_ok r ->
  exists d' r', identify fs_get_label d r pg = Ret (d', r') /\ dev_inv d' /\ vol_ok r' /\ same_place r r'.
Proof.
  intros Hd Hr. unfold identify.
  destruct (label_reads d (set_guid r (fs_get_guid r)) Hd) as (d' & c' & l & -> & Hd' & Hv'); [by apply vol_ok_set_guid |].
  simpl. eexists d', _. split; [done |]. split; [done |]. split; [by apply vol_ok_set_names | done].
Qed.

(** What the three parsers promise. *)
Definition finds vp (num : Z) v ret (o : outcome (D * volume * volume * Z)) : Prop :=
  exists d' ret' c' code, o = Ret (d', ret', set_vc v c', code) /\ dev_inv d' /\ vol_ok (set_vc v c') /\
    (((code = NO_PARTITION \/ code = INVALID_TABLE \/ code = END_OF_TABLE) /\ ret' = ret) \/
     (code = 0 /\ placed vp num v ret')).

Lemma finds_not d v c vp num ret code :
  dev_inv d -> vol_ok (set_vc v c) -> code = NO_PARTITION \/ code = INVALID_TABLE \/ code = END_OF_TABLE ->
  finds vp num v ret (Ret (d, ret, set_vc v c, code)).
Proof. intros. exists d, ret, c, code. split_and!; try done. by left. Qed.

Lemma finds_one d v c vp ret src part first count pg :
  dev_inv d -> vol_ok (set_vc v c) -> vol_ok src -> dev src = dev v ->
  src.(index) = v.(index) /\ src.(is_optical) = v.(is_optical) -> fresh ret -> 0 <= first -> 0 <= count ->
  partition_range_valid v first count = true ->
  finds vp (part + 1) v ret ('(d, ret) ← identify fs_get_label d (fill ret src (Some vp) (part + 1) first count) pg;
     Ret (d, ret, set_vc v c, 0)).
Proof.
  intros Hd Hv Hsrc Hdev Hco Hf Hf0 Hc0 Hr. destruct (range_valid_spec v first count Hf0 Hc0 Hr) as (Hc & He & Hin).
  pose proof (fill_placed vp v src ret part first count Hsrc Hdev Hco Hf Hf0 Hc He Hin) as Hpl.
  destruct (identify_spec d _ pg Hd (p_ok _ _ _ _ Hpl)) as (d' & r' & -> & Hd' & Hr' & Hsame). simpl.
  exists d', r', c, 0. split_and!; try done. right. split; [done |]. by eapply placed_same.
Qed.

Ltac flat :=
  repeat match goal with
  | H : context [set_vc (set_vc ?v ?c) ?c'] |- _ => change (set_vc (set_vc v c) c') with (set_vc v c') in H
  | |- context [set_vc (set_vc ?v ?c) ?c'] => change (set_vc (set_vc v c) c') with (set_vc v c')
  end.
Ltac none := by (apply finds_not; [assumption | assumption | tauto]).

Lemma zeros_bytes n : Forall is_byte (replicate n 0).
Proof. by apply Forall_replicate. Qed.

Lemma gpt_get_part_spec d ret vp v part :
  dev_inv d -> vol_ok v -> fresh ret -> 0 <= part < 2 ^ 31 ->
  finds vp (part + 1) v ret (gpt_get_part fs_get_label d ret vp v part).
Proof.
  intros Hd Hv Hf Hp. unfold gpt_get_part.
  destruct (find_header_spec [512; 4096] ltac:(repeat constructor; lia) d v (replicate 92 0) Hd Hv (zlen_replicate 92 0) (zeros_bytes 92))
    as (d1 & c1 & h & lb & -> & Hd1 & Hv1 & HFh & Hlb). cbn [mbind outcome_bind].
  destruct lb as [lb|]; [|none]. destruct (Hlb lb eq_refl) as [Hlb' _].
  assert (1 <= lb / 512 /\ 0 <= lb) as [Hlb1 Hlb0].
  { rewrite !elem_of_cons, elem_of_nil in Hlb'. by destruct Hlb' as [-> | [-> | []]]. }
  repeat (case_if; [none |]).
  destruct (CHECKED_MUL _ lb) as [eo|] eqn:Hm; [|none]. apply CHECKED_MUL_Some in Hm as [-> Hm].
  destruct (CHECKED_ADD _ _) as [eo|] eqn:Ha; [|none]. apply CHECKED_ADD_Some in Ha as [-> Ha].
  pose proof (field_range h 72 8 HFh ltac:(lia)) as Hlba. fold (partition_entry_lba h) in Hlba.
  pose proof (u64_bound (u64 part * size_of_partition_entry h)).
  destruct (vread d1 (set_vc v c1) (replicate 128 0) (partition_entry_lba h * lb + u64 (u64 part * size_of_partition_entry h)) 128)
    as (d2 & c2 & e & ok & Hr & Hd2 & Hv2 & _ & HFe & _); try done; try nia; [apply zeros_bytes |].
  unfold sizeof_gpt_entry. rewrite Hr. simpl. flat. repeat (case_if; [none |]).
  destruct (CHECKED_MUL _ (lb / 512)) as [fs|] eqn:Hm1; [|none]. apply CHECKED_MUL_Some in Hm1 as [-> Hm1].
  case_if; [none |]. destruct (CHECKED_MUL _ (lb / 512)) as [sc|] eqn:Hm2; [|none]. apply CHECKED_MUL_Some in Hm2 as [-> Hm2].
  case_if; [none |].
  pose proof (field_range e 32 8 HFe ltac:(lia)) as Hst. fold (starting_lba e) in Hst.
  apply (finds_one _ _ _ _ _ (set_vc v c2)); try done; try nia.
  by match goal with H : negb _ = false |- _ => apply negb_false_iff in H end.
Qed.

(** ** Master boot records *)

Lemma checks_spec l : Forall (fun c => 0 <= c.1.1 /\ 0 <= c.1.2 <= 64) l -> forall d v buf,
  Forall (fun c => c.1.2 <= zlen buf) l -> dev_inv d -> vol_ok v -> Forall is_byte buf ->
  exists d' c' r, checks l d v buf = Ret (d', set_vc v c', r) /\ dev_inv d' /\ vol_ok (set_vc v c') /\
    (forall b, r = Some b -> zlen b = zlen buf /\ Forall is_byte b).
Proof.
  induction 1 as [|[[loc n] bad] l [Hl Hn] HF IH]; intros d v buf Hz Hd Hv HFb; simpl.
  { exists d, v.(vc), (Some buf). split_and!; try done; try by destruct v. by intros b [= <-]. }
  apply Forall_cons in Hz as [Hz1 Hz]. simpl in *.
  destruct (vread d v buf loc n) as (d1 & c1 & b1 & ok & Hr & Hd1 & Hv1 & Hz' & HF1 & _); try done; try lia.
  unfold check. rewrite Hr. simpl.
  destruct (negb ok || bad b1) eqn:Hbad.
  { exists d1, c1, None. split_and!; try done. destruct ok; simpl in *; [by rewrite Hbad | done]. }
  destruct ok; [simpl in *; rewrite Hbad | done].
  rewrite <- Hz' in Hz. destruct (IH d1 (set_vc v c1) b1 Hz Hd1 Hv1 HF1) as (d2 & c2 & r & -> & Hd2 & Hv2 & Hr2).
  exists d2, c2, r. split_and!; try done. intros b Hb. destruct (Hr2 b Hb). split; [congruence | done].
Qed.

Lemma is_valid_mbr_spec hintc d v : dev_inv d -> vol_ok v -> zlen hintc = 64 -> Forall is_byte hintc ->
  exists d' c' ok, is_valid_mbr hintc d v = Ret (d', set_vc v c', ok) /\ dev_inv d' /\ vol_ok (set_vc v c').
Proof.
  intros Hd Hv Hz HF. unfold is_valid_mbr.
  match goal with |- context [checks ?l d v [0; 0]] =>
    destruct (checks_spec l ltac:(repeat constructor; simpl; lia) d v [0; 0]
      ltac:(repeat constructor; simpl; unfold zlen; simpl; lia) Hd Hv (zeros_bytes 2)) as (d1 & c1 & r1 & -> & Hd1 & Hv1 & Hr1) end.
  cbn [mbind outcome_bind]. destruct r1 as [hint|]; [|by exists d1, c1, false].
  destruct (Hr1 hint eq_refl) as [Hz1 HF1].
  match goal with |- context [checks ?l d1 _ hintc] =>
    destruct (checks_spec l ltac:(repeat constructor; simpl; lia) d1 (set_vc v c1) hintc
      ltac:(repeat constructor; simpl; lia) Hd1 Hv1 HF) as (d2 & c2 & r2 & -> & Hd2 & Hv2 & _) end.
  cbn [mbind outcome_bind]. flat. destruct r2 as [b2|]; [|by exists d2, c2, false].
  destruct (vread d2 (set_vc v c2) hint 1080 2) as (d3 & c3 & b3 & ok & Hr & Hd3 & Hv3 & _); try done;
    [change (zlen [0; 0]) with 2 in Hz1; lia |].
  unfold check. rewrite Hr. simpl. eexists d3, c3, _. split; [done |]. done.
Qed.

Lemma mbr_first_range e : Forall is_byte e -> 0 <= mbr_first_sect e < 2 ^ 32.
Proof. intros HF. exact (field_range e 8 4 HF ltac:(lia)). Qed.
Lemma mbr_count_range e : Forall is_byte e -> 0 <= mbr_sect_count e < 2 ^ 32.
Proof. intros HF. exact (field_range e 12 4 HF ltac:(lia)). Qed.

Lemma ebr_loop_spec n : forall i d ext entry ebr,
  dev_inv d -> vol_ok ext -> zlen entry = 16 -> Forall is_byte entry -> 0 <= ebr ->
  exists d' c' entry' r, ebr_loop n i d ext entry ebr = Ret (d', set_vc ext c', entry', r) /\ dev_inv d' /\
    vol_ok (set_vc ext c') /\ zlen entry' = 16 /\ Forall is_byte entry' /\ (forall x, r = Some x -> 0 <= x).
Proof.
  induction n as [|n IH]; intros i d ext entry ebr Hd Hv Hz HF He; simpl.
  { exists d, ext.(vc), entry, (Some ebr). split_and!; try done; try by destruct ext. by intros x [= <-]. }
  pose proof (u64_bound (ebr * 512 + 462)).
  destruct (vread d ext entry (u64 (ebr * 512 + 462)) 16) as (d1 & c1 & e1 & ok & Hr & Hd1 & Hv1 & Hz1 & HF1 & _); try done; try lia.
  unfold sizeof_mbr_entry. rewrite Hr. simpl.
  pose proof (mbr_first_range e1 HF1).
  destruct (IH (i + 1) d1 (set_vc ext c1) e1 (mbr_first_sect e1) Hd1 Hv1 ltac:(lia) HF1 ltac:(lia))
    as (d2 & c2 & e2 & r & He2 & Hd2 & Hv2 & Hz2 & HF2 & Hx). flat.
  repeat (case_if; [exists d1, c1, e1, None; split_and!; try done; lia |]).
  exists d2, c2, e2, r. done.
Qed.

(** A logical partition is placed on [v], the backing device of the extended one. *)
Lemma mbr_get_logical_part_spec entry d ret vp v ext part :
  dev_inv d -> vol_ok v -> vol_ok ext -> dev ext = dev v ->
  ext.(index) = v.(index) /\ ext.(is_optical) = v.(is_optical) -> ext.(backing_dev) = Some vp -> fresh ret -> 0 <= part ->
  zlen entry = 16 -> Forall is_byte entry ->
  finds vp (part + 4 + 1) v ret ('(d, ret, code) ← mbr_get_logical_part fs_get_label entry d ret v ext part; Ret (d, ret, v, code)).
Proof.
  intros Hd Hv Hext Hdev Hco Hb Hf Hp Hz HF. unfold mbr_get_logical_part.
  assert (v = set_vc v v.(vc)) as Hvv by by destruct v. rewrite Hvv in Hv.
  assert (forall d code, dev_inv d -> code = NO_PARTITION \/ code = INVALID_TABLE \/ code = END_OF_TABLE ->
    finds vp (part + 4 + 1) v ret ('(d, ret, code) ← Ret (d, ret, code); Ret (d, ret, v, code))) as Hno.
  { intros d0 code Hd0 Hcode. simpl. rewrite Hvv at 2. by apply finds_not. }
  case_if; [apply Hno; tauto |].
  destruct (ebr_loop_spec (Z.to_nat part) 0 d ext entry 0) as (d1 & c1 & e1 & r & -> & Hd1 & Hv1 & Hz1 & HF1 & Hr); try done.
  cbn [mbind outcome_bind]. destruct r as [ebr|]; [|apply Hno; tauto]. specialize (Hr ebr eq_refl).
  pose proof (u64_bound (ebr * 512 + 446)).
  destruct (vread d1 (set_vc ext c1) e1 (u64 (ebr * 512 + 446)) 16) as (d2 & c2 & e2 & ok & Hrd & Hd2 & Hv2 & Hz2 & HF2 & _); try done; try lia.
  unfold sizeof_mbr_entry. rewrite Hrd. cbn [mbind outcome_bind]. flat. repeat (case_if; [apply Hno; tauto |]).
  pose proof (mbr_first_range e2 HF2). pose proof (mbr_count_range e2 HF2).
  destruct (CHECKED_ADD ebr _) as [rel|] eqn:Ha; [|apply Hno; tauto]. apply CHECKED_ADD_Some in Ha as [-> Ha].
  case_if; [apply Hno; tauto |].
  destruct (CHECKED_ADD (first_sect _) _) as [fs|] eqn:Ha2; [|apply Hno; tauto]. apply CHECKED_ADD_Some in Ha2 as [-> Ha2].
  case_if; [apply Hno; tauto |].
  change (backing_dev (set_vc ext c2)) with (backing_dev ext). rewrite Hb.
  pose proof (g_first ext ltac:(apply Hext)). simpl in Ha2 |- *.
  pose proof (finds_one d2 v v.(vc) vp ret (set_vc ext c2) (part + 4) (ext.(first_sect) + (ebr + mbr_first_sect e2)) (mbr_sect_count e2) None) as Hfo.
  rewrite <- Hvv in Hfo. 
  destruct (identify _ _ _ _) as [[d3 r3]| |] eqn:Hid; simpl in *; apply Hfo; try done; try lia;
    try (by rewrite Hvv); by match goal with H : negb (partition_range_valid v _ _) = false |- _ => apply negb_false_iff in H end.
Qed.

(** The extended partition is itself inside the volume. *)
Lemma find_extended_spec n : forall i d vp v entry,
  dev_inv d -> vol_ok v -> 0 <= i -> zlen entry = 16 -> Forall is_byte entry ->
  exists d' c' entry' r, find_extended n i d vp v entry = Ret (d', set_vc v c', entry', r) /\ dev_inv d' /\
    vol_ok (set_vc v c') /\ zlen entry' = 16 /\ Forall is_byte entry' /\
    (forall ext, r = Some ext -> exists num, placed vp num v ext).
Proof.
  induction n as [|n IH]; intros i d vp v entry Hd Hv Hi Hz HF; simpl.
  { exists d, v.(vc), entry, None. split_and!; try done; by destruct v. }
  destruct (vread d v entry (446 + 16 * i) 16) as (d1 & c1 & e1 & ok & Hr & Hd1 & Hv1 & Hz1 & HF1 & _); try done; try lia.
  unfold sizeof_mbr_entry. rewrite Hr. cbn [mbind outcome_bind].
  destruct (IH (i + 1) d1 vp (set_vc v c1) e1 Hd1 Hv1 ltac:(lia) ltac:(lia) HF1)
    as (d2 & c2 & e2 & r & He2 & Hd2 & Hv2 & Hz2 & HF2 & Hx). flat.
  repeat (case_if; [exists d2, c2, e2, r; split_and!; try done; intros ext ->;
    destruct (Hx ext eq_refl) as [num Hpl]; exists num; by eapply placed_set_vc |]).
  eexists d1, c1, e1, _. split_and!; try done; [lia |]. intros ext [= <-].
  pose proof (mbr_first_range e1 HF1). pose proof (mbr_count_range e1 HF1).
  destruct (range_valid_spec (set_vc v c1) (mbr_first_sect e1) (mbr_sect_count e1)) as (? & ? & ?); try lia;
    [by match goal with H : negb _ = false |- _ => apply negb_false_iff in H end |].
  eexists. apply (placed_set_vc _ _ _ c1), fill_placed; try done; lia.
Qed.

Lemma mbr_get_part_spec hintc entry d ret vp v part :
  dev_inv d -> vol_ok v -> fresh ret -> 0 <= part -> zlen hintc = 64 -> Forall is_byte hintc ->
  zlen entry = 16 -> Forall is_byte entry ->
  finds vp (part + 1) v ret (mbr_get_part fs_get_label hintc entry d ret vp v part).
Proof.
  intros Hd Hv Hf Hp Hzh HFh Hz HF. unfold mbr_get_part.
  destruct (is_valid_mbr_spec hintc d v Hd Hv Hzh HFh) as (d1 & c1 & ok & -> & Hd1 & Hv1). cbn [mbind outcome_bind].
  case_if; [none |]. case_if.
  - destruct (find_extended_spec 4 0 d1 vp (set_vc v c1) entry) as (d2 & c2 & e2 & r & -> & Hd2 & Hv2 & Hz2 & HF2 & Hx); try done.
    cbn [mbind outcome_bind]. flat. destruct r as [ext|]; [|none]. destruct (Hx ext eq_refl) as [num Hpl0].
    destruct (mbr_get_logical_part_spec e2 d2 ret vp (set_vc v c2) ext (part - 4))
      as (d3 & r3 & c3 & code & He & Hd3 & Hv3 & Hcode); try done; try apply Hpl0; try lia.
    exists d3, r3, c3, code. split_and!; try done. destruct Hcode as [?|[? Hpl]]; [by left | right].
    split; [done |]. replace (part + 1) with (part - 4 + 4 + 1) by lia. by eapply placed_set_vc.
  - destruct (vread d1 (set_vc v c1) entry (446 + 16 * part) 16) as (d2 & c2 & e2 & ok2 & Hr & Hd2 & Hv2 & Hz2 & HF2 & _); try done; try lia.
    unfold sizeof_mbr_entry. rewrite Hr. cbn [mbind outcome_bind]. flat. repeat (case_if; [none |]).
    pose proof (mbr_first_range e2 HF2). pose proof (mbr_count_range e2 HF2).
    apply (finds_one _ _ _ _ _ (set_vc v c2)); try done; try lia.
    by match goal with H : negb _ = false |- _ => apply negb_false_iff in H end.
Qed.

Lemma part_get_lemma junk d ret vp v part :
  dev_inv d -> vol_ok v -> fresh ret -> part < 2 ^ 31 -> zlen junk.1 = 64 -> Forall is_byte junk.1 ->
  zlen junk.2 = 16 -> Forall is_byte junk.2 ->
  finds vp (part + 1) v ret (part_get fs_get_label junk d ret vp v part).
Proof.
  intros Hd Hv Hf Hp Hz1 HF1 Hz2 HF2. unfold part_get. destruct (Z.ltb_spec part 0).
  { exists d, ret, v.(vc), NO_PARTITION. split_and!; try done; try by destruct v. left. tauto. }
  destruct (gpt_get_part_spec d ret vp v part) as (d1 & r1 & c1 & code & -> & Hd1 & Hv1 & Hc); try done.
  cbn [mbind outcome_bind]. destruct (Z.eqb_spec code INVALID_TABLE) as [->|Hne]; simpl.
  2: { exists d1, r1, c1, code. done. }
  destruct Hc as [[_ ->] | [? _]]; [|done].
  destruct (mbr_get_part_spec junk.1 junk.2 d1 ret vp (set_vc v c1) part) as (d2 & r2 & c2 & code2 & -> & Hd2 & Hv2 & Hc2); try done.
  cbn [mbind outcome_bind]. flat. destruct (Z.eqb_spec code2 INVALID_TABLE) as [->|Hne]; exists d2, r2, c2; eexists; split_and!; try done;
    (destruct Hc2 as [?|[? Hpl]]; [by left | right; split; [done | by eapply placed_set_vc]]).
Qed.

(** C7: [part_get] always returns: one of its error codes, with [*part] untouched, or 0, and
    then [*part] is a partition on the volume's device, backed by the volume, with at least
    one sector, whose range neither wraps around nor leaves the volume; reading it through
    its (empty) cache is safe. This holds for any bytes on the disk and whatever the
    uninitialised buffers hold. *)
Theorem part_get_inside junk d ret vp v part :
  dev_inv d -> vol_ok v -> fresh ret -> part < 2 ^ 31 -> zlen junk.1 = 64 -> Forall is_byte junk.1 ->
  zlen junk.2 = 16 -> Forall is_byte junk.2 ->
  finds vp (part + 1) v ret (part_get fs_get_label junk d ret vp v part).
Proof. apply part_get_lemma. Qed.

End tables.

End volumes.

(** * A device in memory *)

Definition ram_dev (c : Z -> Z) : BlockDev unit :=
  {| size_t := u32;
     disk_read_sectors d v buf block count :=
       Ret (d, blit buf 0 (load_bytes c (block * v.(sector_size)) (Z.to_nat (count * v.(sector_size)))), DISK_SUCCESS) |}.

Lemma load_forall (P : Z -> Prop) m a n : (forall x, P (m x)) -> Forall P (load_bytes m a n).
Proof. intros Hm. apply Forall_forall. intros x Hx. apply list_elem_of_fmap in Hx as (y & -> & _). apply Hm. Qed.

Definition ram_dev_ok (c : Z -> Z) (Hc : forall a, is_byte (c a)) : @BlockDevOk unit (ram_dev c).
Proof.
  refine {| dev_inv _ := True; contents _ := c; dev_sector _ := 512; readable _ _ := True; max_xfer := 2 ^ 20 |}; simpl.
  - lia.
  - intros x Hx. by apply u32_small.
  - intros d v buf block count _ _ Hs Hb Hcount _ Hz.
    assert (zlen (load_bytes c (block * v.(sector_size)) (Z.to_nat (count * v.(sector_size)))) = count * v.(sector_size)) as Hl
      by (unfold zlen; rewrite length_load; lia).
    eexists d, _, DISK_SUCCESS. split; [done |]. split; [done |].
    split; [rewrite zlen_blit; lia |]. split; [intros; apply Forall_blit; [done |]; by apply load_forall |]. split; [|done].
    intros _. unfold slice, blit. simpl. apply take_app_length'. unfold zlen in Hl. lia.
Defined.

(** A disk of 16 sectors, with [n] 512-byte units. *)
Definition ram_disk : volume := fill zero_volume
  {| efi_handle := 0; block_io := 0; drive := 0x80; fastest_xfer_size := 2; index := 1; is_optical := false; pxe := false;
     partition := 0; sector_size := 512; backing_dev := None; max_partition := -1; vc := zero_volume.(vc);
     first_sect := 0; sect_count := 0; guid_valid := false; vguid := []; part_guid_valid := false;
     part_guid := []; fslabel_valid := false; fslabel := fun _ => 0 |} None 0 0 16.

Lemma ram_disk_ok c Hc : @vol_ok unit (ram_dev c) (ram_dev_ok c Hc) ram_disk.
Proof.
  split; [|by split].
  constructor; simpl; unfold bsize, UINT64_MAX; simpl; try done; try lia. exists 1. lia.
Qed.

Definition wave (a : Z) : Z := a mod 256.
Lemma wave_byte a : is_byte (wave a).
Proof. unfold wave, is_byte. apply Z.mod_pos_bound. lia. Qed.

Lemma volume_read_correct_witness :
  exists d' c' buffer' ok, volume_read (BlockDev0 := ram_dev wave) tt ram_disk (replicate 8 7) 1022 4 = Ret (d', set_vc ram_disk c', buffer', ok) /\
    ok = true /\ buffer' = [254; 255; 0; 1; 7; 7; 7; 7].
Proof.
  destruct (@volume_read_correct unit (ram_dev wave) (ram_dev_ok wave wave_byte) tt ram_disk (replicate 8 7) 1022 4)
    as (d' & c' & b' & ok & Hr & _ & _ & _ & _ & Hb & Hs).
  { done. } { apply ram_disk_ok. } { lia. } { lia. } { lia. } { vm_compute. discriminate. }
  assert (ok = true) as Hok.
  { apply Hs; [split; done | vm_compute; reflexivity | vm_compute; discriminate]. }
  exists d', c', b', ok. split; [exact Hr |]. split; [exact Hok |].
  rewrite (Hb Hok); [vm_compute; reflexivity | right; vm_compute; discriminate].
Defined.

Definition no_label (d : unit) (v : volume) : outcome (unit * volume * option (Z -> Z)) := Ret (d, v, None).
Lemma no_label_reads c Hc d v : @dev_inv unit (ram_dev c) (ram_dev_ok c Hc) d -> @vol_ok unit (ram_dev c) (ram_dev_ok c Hc) v ->
  exists d' c' l, no_label d v = Ret (d', set_vc v c', l) /\ @dev_inv unit (ram_dev c) (ram_dev_ok c Hc) d' /\
    @vol_ok unit (ram_dev c) (ram_dev_ok c Hc) (set_vc v c').
Proof. intros Hd Hv. exists d, v.(vc), None. by destruct v. Qed.

Lemma part_get_inside_witness :
  @finds unit (ram_dev wave) (ram_dev_ok wave wave_byte) 0 1 ram_disk zero_volume
    (part_get (BlockDev0 := ram_dev wave) no_label (replicate 64 0, replicate 16 0) tt zero_volume 0 ram_disk 0).
Proof.
  apply (@part_get_inside unit (ram_dev wave) (ram_dev_ok wave wave_byte) no_label (no_label_reads wave wave_byte)
    (replicate 64 0, replicate 16 0) tt zero_volume 0 ram_disk 0); try done.
  - apply ram_disk_ok.
  - by apply Forall_replicate.
  - by apply Forall_replicate.
Defined.

(** On a device with 2048-byte sectors, the end of a volume whose size is not a multiple of
    the sector size is never transferred, but a read of it succeeds when it is in the block
    of the last whole sector: here every byte of the device is 7, and 512 zeros are read. *)
Definition odd_volume : volume := fill zero_volume
  {| efi_handle := 0; block_io := 0; drive := 0x80; fastest_xfer_size := 2; index := 1; is_optical := true; pxe := false;
     partition := 0; sector_size := 2048; backing_dev := None; max_partition := -1; vc := zero_volume.(vc);
     first_sect := 0; sect_count := 0; guid_valid := false; vguid := []; part_guid_valid := false;
     part_guid := []; fslabel_valid := false; fslabel := fun _ => 0 |} (Some 0) 1 0 6.
Lemma volume_read_stale_tail :
  match volume_read (BlockDev0 := ram_dev (fun _ => 7)) tt odd_volume (replicate 512 1) 2048 512 with
  | Ret (_, _, buffer, ok) => ok = true /\ buffer = replicate 512 0
  | _ => False
  end.
Proof. vm_compute. split; reflexivity. Qed.
