(* ===== verification/Disk.v ===== *)
(** The disk driver and the index of volumes: [common/drivers/disk.s2.c], and
    [volume_iterate_parts] of [common/lib/part.h].

    The firmware is a parameter: [int13 n drive count lba] is what the [n]th firmware call
    does when it is an extended read (interrupt 0x13, function 0x42) into the transfer buffer:
    the bytes it writes there and the carry flag; [params] is function 0x48, [tsc] the time
    stamp counter and [read_blocks] the UEFI block protocol. The address of a volume is its
    position in [volume_index]. *)

From S2P Require Import Prelude Libc Guid Part.
Import Libc Guid Part.

Module Disk.

Definition xfer_sizes : list Z := [1; 2; 4; 8; 16; 24; 32; 48; 64].
Definition XFER_BUF_SIZE : Z := 64 * 512.

(** The driver's state: [xfer_buf], which is NULL at first, and the number of firmware calls. *)
Record bios := { xfer_buf : option (list Z); calls : nat }.
(** [xfer_buf], allocated (and zeroed) on first use. *)
Definition buf_of (b : bios) : list Z := default (replicate (Z.to_nat XFER_BUF_SIZE) 0) b.(xfer_buf).

Section bios.
Variable int13 : nat -> Z -> Z -> Z -> list Z * bool.
Variable tsc : nat -> Z.

(** One extended read into the buffer [x]. *)
Definition read_call (b : bios) (x : list Z) (drive count lba : Z) : bios * bool :=
  let '(data, cf) := int13 b.(calls) drive (u16 count) lba in
  ({| xfer_buf := Some (blit x 0 data); calls := S b.(calls) |}, cf).

Definition bios_read_sectors (b : bios) (v : volume) (buf : list Z) (block count : Z)
    : outcome (bios * list Z * disk_status) :=
  if u32 (count * v.(sector_size)) >? XFER_BUF_SIZE then Panic
  else
    let '(b, cf) := read_call b (buf_of b) v.(drive) count block in
    if (cf : bool) then Ret (b, buf, DISK_FAILURE)
    else Ret (b, blit buf 0 (slice (buf_of b) 0 (u32 (count * v.(sector_size)))), DISK_SUCCESS).

#[export] Instance bios_dev : BlockDev bios := {| size_t := u32; disk_read_sectors := bios_read_sectors |}.

(** One more than the index of the last byte of the first [n] that is not [pat]; 0 if none. *)
Fixpoint last_not (n : nat) (x : list Z) (pat : Z) : Z :=
  match n with
  | O => 0
  | S n => if negb (x.[Z.of_nat n] =? pat) then Z.of_nat n + 1 else last_not n x pat
  end.

Definition set_sector_size (v : volume) (s : Z) : volume :=
  {| efi_handle := v.(efi_handle); block_io := v.(block_io); drive := v.(drive);
     fastest_xfer_size := v.(fastest_xfer_size); index := v.(index); is_optical := v.(is_optical); pxe := v.(pxe);
     partition := v.(partition); sector_size := s; backing_dev := v.(backing_dev);
     max_partition := v.(max_partition); vc := v.(vc); first_sect := v.(first_sect); sect_count := v.(sect_count);
     guid_valid := v.(guid_valid); vguid := v.(vguid); part_guid_valid := v.(part_guid_valid);
     part_guid := v.(part_guid); fslabel_valid := v.(fslabel_valid); fslabel := v.(fslabel) |}.

Definition detect_sector_size (b : bios) (v : volume) : bios * volume * bool :=
  let size := Z.to_nat XFER_BUF_SIZE in
  let '(b, cf) := read_call b (replicate size 0) v.(drive) 1 0 in
  if (cf : bool) then (b, v, false)
  else
    let sector_size_a := last_not size (buf_of b) 0 in
    let '(b, cf) := read_call b (replicate size 0xff) v.(drive) 1 0 in
    if (cf : bool) then (b, v, false)
    else
      let sector_size_b := last_not size (buf_of b) 0xff in
      let v := set_sector_size v (if sector_size_a >? sector_size_b then sector_size_a else sector_size_b) in
      (b, v, negb (v.(sector_size) =? 0)).

(** The reads of one timing run, from [j] and [lba] on; [false] is a disk error. *)
Fixpoint time_reads (fuel : nat) (b : bios) (drive size j lba : Z) : bios * bool :=
  if j <? XFER_BUF_SIZE / 512 then
    match fuel with
    | O => (b, true)
    | S fuel =>
        let '(b, cf) := read_call b (buf_of b) drive size lba in
        if (cf : bool) then (b, false) else time_reads fuel b drive size (j + size) (u64 (lba + size))
    end
  else (b, true).

Definition tick (b : bios) : bios * Z := ({| xfer_buf := b.(xfer_buf); calls := S b.(calls) |}, tsc b.(calls)).

Fixpoint fastest_loop (sizes : list Z) (b : bios) (v : volume) (fastest_size last_speed : Z) : bios * Z :=
  match sizes with
  | [] => (b, fastest_size)
  | size :: sizes =>
      if u32 (size * v.(sector_size)) >? XFER_BUF_SIZE then (b, fastest_size)
      else
        let '(b, start_timestamp) := tick b in
        let '(b, ok) := time_reads 64 b v.(drive) size 0 0 in
        if negb ok then (b, 8)
        else
          let '(b, end_timestamp) := tick b in
          let speed := u64 (end_timestamp - start_timestamp) in
          if speed <? last_speed then fastest_loop sizes b v size speed
          else fastest_loop sizes b v fastest_size last_speed
  end.
Definition fastest_xfer_size (b : bios) (v : volume) : bios * Z :=
  fastest_loop xfer_sizes {| xfer_buf := Some (buf_of b); calls := b.(calls) |} v 1 UINT64_MAX.

End bios.

(** * The partitions of a drive *)

Section scan.
Context {D : Type} `{!BlockDev D}.
Variable fs_get_label : D -> volume -> outcome (D * volume * option (Z -> Z)).
Variable junk : list Z * list Z.

Definition set_max_partition (v : volume) (m : Z) : volume :=
  {| efi_handle := v.(efi_handle); block_io := v.(block_io); drive := v.(drive);
     Part.fastest_xfer_size := v.(Part.fastest_xfer_size); index := v.(index); is_optical := v.(is_optical); pxe := v.(pxe);
     partition := v.(partition); sector_size := v.(sector_size); backing_dev := v.(backing_dev);
     max_partition := m; vc := v.(vc); first_sect := v.(first_sect); sect_count := v.(sect_count);
     guid_valid := v.(guid_valid); vguid := v.(vguid); part_guid_valid := v.(part_guid_valid);
     part_guid := v.(part_guid); fslabel_valid := v.(fslabel_valid); fslabel := v.(fslabel) |}.

(** The loop [for (int part = 0; ; part++)]: the partitions it appends to the index, and the
    drive's volume, at address [vp]. *)
Fixpoint scan (fuel : nat) (d : D) (vp : Z) (block : volume) (part : Z) (found : list volume)
    : outcome (D * volume * list volume) :=
  match fuel with
  | O => Diverge
  | S fuel =>
      '(d, p, block, ret) ← part_get fs_get_label junk d zero_volume vp block part;
      if (ret =? END_OF_TABLE) || (ret =? INVALID_TABLE) then Ret (d, block, found)
      else if ret =? NO_PARTITION then scan fuel d vp block (part + 1) found
      else scan fuel d vp (set_max_partition block (block.(max_partition) + 1)) (part + 1) (found ++ [p])
  end.

End scan.

(** * The BIOS drives *)

Record bios_drive_params := {
  buf_size : Z; info_flags : Z; lba_count : Z; dpte_off : Z; dpte_seg : Z }.

Section index.
Variable int13 : nat -> Z -> Z -> Z -> list Z * bool.
Variable tsc : nat -> Z.
Variable params : nat -> Z -> option bios_drive_params.
Variable low_mem : mem.
Variable fs_get_label : bios -> volume -> outcome (bios * volume * option (Z -> Z)).
Variable junk : list Z * list Z.
#[local] Existing Instance bios_dev.

(** The [dpte] of a drive, as its [control_port] and [flags]; [None] is NULL. *)
Definition get_dpte (p : bios_drive_params) : option (Z * Z) :=
  if (p.(buf_size) >=? 0x1e)
     && (negb (p.(dpte_seg) =? 0) || negb (p.(dpte_off) =? 0))
     && (negb (p.(dpte_seg) =? 0xffff) || negb (p.(dpte_off) =? 0xffff))
  then
    let a := p.(dpte_seg) * 16 + p.(dpte_off) in
    Some (low_mem (a + 2) + 256 * low_mem (a + 3), low_mem (a + 10) + 256 * low_mem (a + 11))
  else None.

Definition drive_removable (p : bios_drive_params) (dpte : option (Z * Z)) : bool :=
  Z.testbit p.(info_flags) 2 ||
  match dpte with
  | Some (control_port, flags) =>
      negb (Z.land control_port 0xff00 =? 0xa000) && (Z.testbit flags 5 || Z.testbit flags 6)
  | None => false
  end.

(** The volume of a whole drive. *)
Definition new_block (drive : Z) : volume :=
  {| efi_handle := 0; block_io := 0; drive := drive; Part.fastest_xfer_size := 0; index := 0; is_optical := false; pxe := false;
     partition := 0; sector_size := 0; backing_dev := None; max_partition := -1; vc := zero_volume.(vc);
     first_sect := 0; sect_count := 0; guid_valid := false; vguid := replicate 16 0; part_guid_valid := false;
     part_guid := replicate 16 0; fslabel_valid := false; fslabel := fun _ => 0 |}.
Definition set_drive (v : volume) (count idx xfer : Z) (optical : bool) : volume :=
  {| efi_handle := v.(efi_handle); block_io := v.(block_io); drive := v.(drive);
     Part.fastest_xfer_size := xfer; index := idx; is_optical := optical; pxe := v.(pxe);
     partition := v.(partition); sector_size := v.(sector_size); backing_dev := v.(backing_dev);
     max_partition := v.(max_partition); vc := v.(vc); first_sect := v.(first_sect); sect_count := count;
     guid_valid := v.(guid_valid); vguid := v.(vguid); part_guid_valid := v.(part_guid_valid);
     part_guid := v.(part_guid); fslabel_valid := v.(fslabel_valid); fslabel := v.(fslabel) |}.
Definition set_block_guid (v : volume) (g : option (list Z)) : volume :=
  match g with Some _ => set_guid v g | None => v end.

Record indices := { optical_indices : Z; hdd_indices : Z; consumed_bda_disks : Z }.

(** The size of a drive in 512-byte sectors. *)
Definition drive_sectors (p : bios_drive_params) (sector_size : Z) : Z :=
  if (p.(lba_count) =? UINT64_MAX) || (p.(lba_count) =? 0) then UINT64_MAX
  else u64 (p.(lba_count) * u64 (Z.quot sector_size 512)).

(** The body of the loop over the drives. *)
Definition add_drive (fuel : nat) (bda_disk_count drive : Z) (b : bios) (ix : indices) (volume_index : list volume)
    : outcome (bios * indices * list volume) :=
  let n := b.(calls) in
  let b := {| xfer_buf := b.(xfer_buf); calls := S n |} in
  match params n drive with
  | None => Ret (b, ix, volume_index)
  | Some p =>
      let dpte := get_dpte p in
      let is_removable := drive_removable p dpte in
      let '(b, block, ok) := detect_sector_size int13 b (new_block drive) in
      if negb ok then Ret (b, ix, volume_index)
      else
        let count := drive_sectors p block.(sector_size) in
        let is_atapi := match dpte with Some (_, flags) => Z.testbit flags 6 | None => false end in
        let vmware := (drive =? 0x9f) && (block.(sector_size) =? 2048) in
        let optical := is_atapi || ((block.(sector_size) =? 2048) && is_removable) || vmware in
        let is_removable := is_removable || vmware in
        let hard := negb is_removable && negb optical in
        if hard && (ix.(consumed_bda_disks) =? bda_disk_count) then Ret (b, ix, volume_index)
        else
          let ix := {| optical_indices := if optical then ix.(optical_indices) + 1 else ix.(optical_indices);
                       hdd_indices := if optical then ix.(hdd_indices) else ix.(hdd_indices) + 1;
                       consumed_bda_disks := if hard then ix.(consumed_bda_disks) + 1 else ix.(consumed_bda_disks) |} in
          let idx := if optical then ix.(optical_indices) - 1 else ix.(hdd_indices) - 1 in
          let '(b, xfer) := fastest_xfer_size int13 tsc b (set_drive block count idx 0 optical) in
          let block := set_drive block count idx xfer optical in
          '(b, block, g) ← gpt_get_guid (D := bios) (BlockDev0 := bios_dev int13) b block;
          let block := set_block_guid block g in
          '(b, block, parts) ← scan (BlockDev0 := bios_dev int13) fs_get_label junk fuel b (zlen volume_index) block 0 [];
          Ret (b, ix, volume_index ++ block :: parts)
  end.

Fixpoint drives (n : nat) (fuel : nat) (bda_disk_count drive : Z) (b : bios) (ix : indices) (volume_index : list volume)
    : outcome (bios * indices * list volume) :=
  match n with
  | O => Ret (b, ix, volume_index)
  | S n =>
      '(b, ix, volume_index) ← add_drive fuel bda_disk_count drive b ix volume_index;
      drives n fuel bda_disk_count (drive + 1) b ix volume_index
  end.
(** Drives 0x80 to 0xef; the number of disks is the byte at 0040:0075. *)
Definition disk_create_index (fuel : nat) (b : bios) : outcome (bios * indices * list volume) :=
  drives 0x70 fuel (low_mem (0x40 * 16 + 0x75)) 0x80 b
    {| optical_indices := 1; hdd_indices := 1; consumed_bda_disks := 0 |} [].

End index.

(** * The UEFI driver *)

Section uefi.
(** The status of the block protocol: 0 is success. *)
Variable read_blocks : nat -> Z -> Z -> Z -> list Z * Z.
Definition EFI_NO_MEDIA : Z := 2 ^ 63 + 12.

Definition uefi_read_sectors (n : nat) (v : volume) (buf : list Z) (block count : Z) : outcome (nat * list Z * disk_status) :=
  let '(data, status) := read_blocks n v.(block_io) block (u64 (count * v.(sector_size))) in
  Ret (S n, blit buf 0 data,
    if status =? 0 then DISK_SUCCESS else if status =? EFI_NO_MEDIA then DISK_NO_MEDIA else DISK_FAILURE).

#[export] Instance uefi_dev : BlockDev nat := {| size_t := u64; disk_read_sectors := uefi_read_sectors |}.
End uefi.

(** * [volume_iterate_parts]: the positions in the index of the volumes it visits *)

Fixpoint backing (fuel : nat) (volume_index : list volume) (v : volume) : outcome volume :=
  match v.(backing_dev) with
  | None => Ret v
  | Some p =>
      match fuel with
      | O => Diverge
      | S fuel => match volume_index !! Z.to_nat p with Some v => backing fuel volume_index v | None => Panic end
      end
  end.

(** [_PARTNO] is a [size_t], and the parameter of [volume_get_by_coord] an [int]. *)
Fixpoint iterate (fuel : nat) (volume_index : list volume) (v : volume) (cnt partno : Z) : outcome (list Z) :=
  if cnt >? v.(max_partition) then Ret []
  else match fuel with
  | O => Diverge
  | S fuel =>
      match volume_get_by_coord volume_index v.(is_optical) v.(index) (i32 partno) with
      | None => iterate fuel volume_index v cnt (partno + 1)
      | Some i => l ← iterate fuel volume_index v (cnt + 1) (partno + 1); Ret (i :: l)
      end
  end.

(** [i] is the volume asked for. *)
Definition volume_iterate_parts (fuel : nat) (volume_index : list volume) (i : Z) : outcome (list Z) :=
  match volume_index !! Z.to_nat i with
  | None => Panic
  | Some v =>
      if v.(pxe) then Ret [i]
      else v ← backing fuel volume_index v; iterate fuel volume_index v (-1) 0
  end.

End Disk.
