(* ===== verification/DiskCorrect.v ===== *)
(** The BIOS and UEFI drivers keep the promise of [BlockDevOk], the sector size is found
    exactly, the transfer size fits the buffer, and the loops over partitions end. *)

From S2P Require Import Prelude Libc Guid Part PartCorrect Disk.
Import Libc Guid Part Disk.

(** * Buffers *)

Lemma slice_blit_0 buf data : zlen data <= zlen buf -> slice (blit buf 0 data) 0 (zlen data) = data.
Proof. intros. unfold slice, blit, zlen. simpl. rewrite Nat2Z.id, drop_0. by apply take_app_length'. Qed.

Lemma bytes_load m a n : (forall x, is_byte (m x)) -> Forall is_byte (load_bytes m a n).
Proof. intros Hm. apply Forall_forall. intros x Hx. apply list_elem_of_fmap in Hx as (y & -> & _). apply Hm. Qed.
Lemma zlen_load m a n : 0 <= n -> zlen (load_bytes m a (Z.to_nat n)) = n.
Proof. intros. unfold zlen. rewrite length_load. lia. Qed.

(** * The BIOS driver *)

Section bios.
Context (int13 : nat -> Z -> Z -> Z -> list Z * bool) (tsc : nat -> Z).
Context (disk : Z -> Z -> Z) (bps : Z -> Z) (good : Z -> Z -> Prop).

(** An extended read that reports success has written the sectors asked for; one that fails
    has written no more than that; sectors that are [good] are read. *)
Class firmware : Prop := {
  disk_byte drv a : is_byte (disk drv a);
  bps_pos drv : 0 < bps drv;
  int13_data n drv c lba data : 0 < c < 2 ^ 16 -> 0 <= lba < 2 ^ 64 -> int13 n drv c lba = (data, false) ->
    data = load_bytes (disk drv) (lba * bps drv) (Z.to_nat (c * bps drv));
  int13_size n drv c lba data cf : 0 < c < 2 ^ 16 -> int13 n drv c lba = (data, cf) ->
    zlen data <= c * bps drv /\ Forall is_byte data;
  int13_good n drv c lba : 0 < c < 2 ^ 16 -> 0 <= lba < 2 ^ 64 ->
    (forall s, lba <= s < lba + c -> good drv s) -> (int13 n drv c lba).2 = false }.

Context `{!firmware}.

Definition bios_inv (b : bios) : Prop := forall x, b.(xfer_buf) = Some x -> zlen x = XFER_BUF_SIZE /\ Forall is_byte x.

Lemma buf_of_ok b : bios_inv b -> zlen (buf_of b) = XFER_BUF_SIZE /\ Forall is_byte (buf_of b).
Proof.
  unfold buf_of, bios_inv. destruct (xfer_buf b) as [x|]; [eauto |]. intros _.
  unfold from_option. split; [| apply zeros_bytes]. rewrite zlen_replicate, Z2Nat.id; [reflexivity |]. unfold XFER_BUF_SIZE. lia.
Qed.

(** One read: the buffer afterwards starts with the sectors, when it succeeds. *)
Lemma read_call_spec b x drv c lba :
  zlen x = XFER_BUF_SIZE -> Forall is_byte x -> 0 < c < 2 ^ 16 -> 0 <= lba < 2 ^ 64 -> c * bps drv <= XFER_BUF_SIZE ->
  exists data cf, read_call int13 b x drv c lba = ({| xfer_buf := Some (blit x 0 data); calls := S b.(calls) |}, cf) /\
    zlen data <= c * bps drv /\ Forall is_byte data /\ zlen (blit x 0 data) = XFER_BUF_SIZE /\ Forall is_byte (blit x 0 data) /\
    (cf = false -> data = load_bytes (disk drv) (lba * bps drv) (Z.to_nat (c * bps drv))) /\
    ((forall s, lba <= s < lba + c -> good drv s) -> cf = false).
Proof.
  intros Hx HF Hc Hl Hs. unfold read_call. rewrite u16_small by lia.
  destruct (int13 (calls b) drv c lba) as [data cf] eqn:Hi. exists data, cf.
  destruct (int13_size _ _ _ _ _ _ Hc Hi) as [Hz HFd]. split_and!; try done.
  - rewrite zlen_blit; [done | lia |]. lia.
  - by apply Forall_blit.
  - intros ->. by eapply int13_data.
  - intros Hg. pose proof (int13_good (calls b) drv c lba Hc Hl Hg) as Hf. by rewrite Hi in Hf.
Qed.

#[export] Instance bios_dev_ok : @BlockDevOk bios (bios_dev int13).
Proof using All.
  refine {| dev_inv := bios_inv; contents p := disk p.2; dev_sector p := bps p.2; readable p := good p.2;
            max_xfer := XFER_BUF_SIZE |}.
  - done.
  - intros x Hx. by apply u32_small.
  - intros b v buf block count Hb Hsec Hs Hblk Hc Hmax Hlen. simpl in *. unfold dev in *; simpl in *.
    destruct (buf_of_ok b Hb) as [Hz HF]. unfold XFER_BUF_SIZE in Hmax. unfold bios_read_sectors.
    rewrite u32_small by lia.
    destruct (read_call_spec b (buf_of b) v.(drive) count block) as (data & cf & -> & Hzd & HFd & Hzb & HFb & Hok & Hgood);
      try done; try nia; [rewrite <- Hsec; unfold XFER_BUF_SIZE; lia |].
    destruct (Z.gtb_spec (count * sector_size v) XFER_BUF_SIZE); [unfold XFER_BUF_SIZE in *; lia |].
    assert (bios_inv {| xfer_buf := Some (blit (buf_of b) 0 data); calls := S (calls b) |}) by by intros x [= <-].
    destruct cf.
    + eexists _, buf, DISK_FAILURE. split_and!; try done. intros Hg. by specialize (Hgood Hg).
    + specialize (Hok eq_refl). assert (zlen data = count * sector_size v) as Hzd'.
      { rewrite Hok, zlen_load by nia. by rewrite Hsec. }
      change (buf_of {| xfer_buf := Some ?x; calls := _ |}) with x. rewrite <- Hzd', slice_blit_0 by lia.
      eexists _, (blit buf 0 data), DISK_SUCCESS. split_and!; try done.
      * by rewrite zlen_blit by lia.
      * intros. by apply Forall_blit.
      * intros _. rewrite slice_blit_0 by lia. rewrite Hok at 1. rewrite Hzd', <- Hsec. done.
Defined.

(** ** The sector size *)

Lemma last_not_spec n x pat : let r := last_not n x pat in
  0 <= r <= Z.of_nat n /\ (forall j, r <= j < Z.of_nat n -> x.[j] = pat) /\ (0 < r -> x.[r - 1] <> pat).
Proof.
  induction n as [|n IH]; cbn [last_not]; [split_and!; lia |].
  destruct (Z.eqb_spec x.[Z.of_nat n] pat) as [He|He]; cbn [negb].
  - destruct IH as (Hr & Ht & Hl). split; [lia |]. split; [|done]. intros j Hj.
    destruct (decide (j = Z.of_nat n)) as [->|]; [done |]. apply Ht. lia.
  - split; [lia |]. split; [lia |]. intros _. by replace (Z.of_nat n + 1 - 1) with (Z.of_nat n) by lia.
Qed.

Lemma aget_replicate n (x : Z) i : 0 <= i < Z.of_nat n -> (replicate n x).[i] = x.
Proof. unfold aget. intros. apply lookup_total_replicate_2. lia. Qed.

(** The last byte of what was read, unless it is the pattern. *)
Lemma last_not_blit n data pat :
  0 < zlen data <= Z.of_nat n ->
  let r := last_not n (blit (replicate n pat) 0 data) pat in
  r <= zlen data /\ (data.[zlen data - 1] <> pat -> r = zlen data).
Proof.
  intros Hz r. assert (blit (replicate n pat) 0 data = data ++ replicate (n - length data) pat) as Hb.
  { unfold blit. simpl. by rewrite drop_replicate. }
  destruct (last_not_spec n (blit (replicate n pat) 0 data) pat) as (Hr & Ht & Hl). fold r in Hr, Ht, Hl. rewrite Hb in Ht, Hl.
  split.
  - destruct (decide (r <= zlen data)); [done |]. exfalso. apply Hl; [lia |].
    rewrite aget_app_r by lia. apply aget_replicate. unfold zlen in *. lia.
  - intros Hne. destruct (decide (r <= zlen data - 1)).
    + exfalso. apply Hne. rewrite <- (Ht (zlen data - 1)) by lia. by rewrite aget_app_l by lia.
    + destruct (decide (r <= zlen data)); [lia |]. exfalso. apply Hl; [lia |].
      rewrite aget_app_r by lia. apply aget_replicate. unfold zlen in *. lia.
Qed.

Lemma pattern_ok size pat : is_byte pat -> zlen (replicate size pat) = Z.of_nat size /\ Forall is_byte (replicate size pat).
Proof. intros Hp. rewrite zlen_replicate. split; [done | by apply Forall_replicate]. Qed.

Lemma detect_sector_size_spec b v :
  good v.(drive) 0 -> bps v.(drive) <= XFER_BUF_SIZE ->
  exists b', detect_sector_size int13 b v = (b', set_sector_size v (bps v.(drive)), true) /\ bios_inv b'.
Proof.
  intros Hg Hs. pose proof (bps_pos v.(drive)) as Hp.
  assert (forall s, 0 <= s < 0 + 1 -> good v.(drive) s) as Hg0 by (intros s Hs0; by replace s with 0 by lia).
  unfold detect_sector_size. cbv zeta.
  assert (Z.of_nat (Z.to_nat XFER_BUF_SIZE) = XFER_BUF_SIZE) as Hsz by (apply Z2Nat.id; unfold XFER_BUF_SIZE; lia).
  set (size := Z.to_nat XFER_BUF_SIZE) in *. clearbody size.
  destruct (pattern_ok size 0 ltac:(unfold is_byte; lia)) as [Hz0 HF0].
  destruct (pattern_ok size 0xff ltac:(unfold is_byte; lia)) as [Hz1 HF1].
  destruct (read_call_spec b (replicate size 0) v.(drive) 1 0) as (d0 & cf & -> & _ & _ & _ & _ & Ha & Hcf);
    [lia | done | lia | lia | lia |]. rewrite (Hcf Hg0) in *. cbv iota. specialize (Ha eq_refl).
  match goal with |- context [read_call _ ?b (replicate _ 0xff)] =>
    destruct (read_call_spec b (replicate size 0xff) v.(drive) 1 0) as (d1 & cf1 & -> & _ & _ & Hz & HF & Hb & Hcf1);
    [lia | done | lia | lia | lia |] end.
  rewrite (Hcf1 Hg0) in *. cbv iota. specialize (Hb eq_refl). rewrite <- Ha in Hb. subst d1.
  change (buf_of {| xfer_buf := Some ?x; calls := _ |}) with x.
  assert (zlen d0 = bps v.(drive)) as Hzd by (rewrite Ha, zlen_load by lia; lia).
  destruct (last_not_blit size d0 0) as [H0 H0']; [lia |]. destruct (last_not_blit size d0 0xff) as [H1 H1']; [lia |].
  set (ra := last_not _ _ 0) in *. set (rb := last_not _ _ 0xff) in *. clearbody ra rb.
  assert ((if ra >? rb then ra else rb) = bps v.(drive)) as ->.
  { destruct (decide (d0.[zlen d0 - 1] = 0)) as [E|E].
    - rewrite E in H1'. specialize (H1' ltac:(lia)). case_if; lia.
    - specialize (H0' E). case_if; lia. }
  eexists. rewrite (proj2 (Z.eqb_neq (sector_size _) 0)) by (simpl; lia). split; [done |]. intros x [= <-]. done.
Qed.

(** ** The transfer size *)

Lemma time_reads_inv fuel b drv size j lba :
  bios_inv b -> 0 < size < 2 ^ 16 -> 0 <= lba < 2 ^ 64 -> size * bps drv <= XFER_BUF_SIZE ->
  bios_inv (time_reads int13 fuel b drv size j lba).1.
Proof.
  revert b j lba; induction fuel as [|fuel IH]; intros b j lba Hb Hs Hl Hm; cbn [time_reads]; case_if; try done.
  destruct (buf_of_ok b Hb) as [Hz HF].
  destruct (read_call_spec b (buf_of b) drv size lba) as (data & cf & -> & _ & _ & Hz' & HF' & _); try done.
  destruct cf; cbn [fst]; [by intros x [= <-] |]. apply IH; try done; [by intros x [= <-] | apply u64_bound].
Qed.

Definition fits v (s : Z) : Prop := s ∈ xfer_sizes /\ s * v.(sector_size) <= XFER_BUF_SIZE.

Lemma fastest_loop_spec sizes b v f sp :
  bios_inv b -> (forall s, s ∈ sizes -> s ∈ xfer_sizes) -> fits v f -> 0 < v.(sector_size) < 2 ^ 16 ->
  v.(sector_size) = bps v.(drive) ->
  let r := fastest_loop int13 tsc sizes b v f sp in bios_inv r.1 /\ (fits v r.2 \/ r.2 = 8).
Proof.
  revert b f sp; induction sizes as [|s sizes IH]; intros b f sp Hb Hin Hf Hss Hbps; cbn [fastest_loop]; [auto |].
  assert (0 < s <= 64) as Hs64.
  { pose proof (Hin s ltac:(left)) as Hs. unfold xfer_sizes in Hs. rewrite !elem_of_cons, elem_of_nil in Hs. lia. }
  rewrite u32_small by nia. destruct (Z.gtb_spec (s * v.(sector_size)) XFER_BUF_SIZE); [auto |].
  cbn [tick]. pose proof (time_reads_inv 64 {| xfer_buf := xfer_buf b; calls := S (calls b) |} v.(drive) s 0 0) as Ht.
  destruct (time_reads _ 64 _ _ _ _ _) as [b1 ok]. cbn [fst] in Ht.
  assert (bios_inv b1) as Hb1 by (apply Ht; try done; rewrite <- ?Hbps; lia).
  destruct ok; cbn [negb]; [|auto].
  assert (forall s, s ∈ sizes -> s ∈ xfer_sizes) by (intros; apply Hin; by right).
  case_if; apply IH; try done. split; [apply Hin; left | done].
Qed.

Lemma fastest_xfer_size_spec b v :
  bios_inv b -> 0 < v.(sector_size) <= XFER_BUF_SIZE -> v.(sector_size) = bps v.(drive) ->
  let r := Disk.fastest_xfer_size int13 tsc b v in bios_inv r.1 /\ (fits v r.2 \/ r.2 = 8).
Proof.
  intros Hb Hs Hbps. apply fastest_loop_spec; try done; try (unfold XFER_BUF_SIZE in Hs; lia).
  - intros x [= <-]. by apply buf_of_ok.
  - split; [left | lia].
Qed.

(** For any drive whose sectors fit the 32 KiB transfer buffer and whose first sector
    can be read, [detect_sector_size] finds its sector size exactly, whatever that sector
    holds; and the size [fastest_xfer_size] then returns is one of [xfer_sizes] whose
    transfer fits the buffer, or 8 after a disk error: up to 4096-byte sectors,
    [disk_read_sectors] with it never reaches its panic. *)
Theorem drive_probe_correct b v :
  good v.(drive) 0 -> bps v.(drive) <= XFER_BUF_SIZE ->
  exists b', detect_sector_size int13 b v = (b', set_sector_size v (bps v.(drive)), true) /\ bios_inv b' /\
    let r := Disk.fastest_xfer_size int13 tsc b' (set_sector_size v (bps v.(drive))) in
    bios_inv r.1 /\
    ((r.2 ∈ xfer_sizes /\ r.2 * bps v.(drive) <= XFER_BUF_SIZE) \/ r.2 = 8) /\
    (bps v.(drive) <= 4096 -> 1 <= r.2 /\ r.2 * bps v.(drive) <= XFER_BUF_SIZE).
Proof.
  intros Hg Hs. destruct (detect_sector_size_spec b v Hg Hs) as (b' & Hdet & Hb'). exists b'. split; [done |]. split; [done |].
  pose proof (bps_pos v.(drive)) as Hp.
  destruct (fastest_xfer_size_spec b' (set_sector_size v (bps v.(drive))) Hb') as [Hi Hr]; [simpl; lia | done |].
  cbv zeta. set (r := Disk.fastest_xfer_size _ _ _ _) in *. clearbody r. destruct r as [b2 s]; simpl in *.
  split_and!; try done. intros H4. destruct Hr as [[Hin Hle] | ->]; simpl in *.
  - unfold xfer_sizes in Hin. rewrite !elem_of_cons, elem_of_nil in Hin. lia.
  - unfold XFER_BUF_SIZE. lia.
Qed.

End bios.

(** * The loop over the partitions of a drive *)

Section scan.
Context {D : Type} `{BlockDevOk D}.
Variable fs_get_label : D -> volume -> outcome (D * volume * option (Z -> Z)).
Hypothesis label_reads : forall d v, dev_inv d -> vol_ok v ->
  exists d' c' l, fs_get_label d v = Ret (d', set_vc v c', l) /\ dev_inv d' /\ vol_ok (set_vc v c').
Variable junk : list Z * list Z.
Hypothesis junk_ok : (zlen junk.1 = 64 /\ Forall is_byte junk.1) /\ (zlen junk.2 = 16 /\ Forall is_byte junk.2).

(** Whatever GPT headers the drive has, they announce at most [N] entries. *)
Definition entries_le (v : volume) (N : Z) : Prop :=
  in_whole v 4188 /\
  forall x, x ∈ [512; 4096] -> number_of_partition_entries (load_bytes (contents (dev v)) (v.(first_sect) * 512 + x) 92) <= N.

Definition ends (v ret : volume) (o : outcome (D * volume * volume * Z)) : Prop :=
  exists d' c' code, o = Ret (d', ret, set_vc v c', code) /\ dev_inv d' /\ vol_ok (set_vc v c') /\
    (code = END_OF_TABLE \/ code = INVALID_TABLE).

Lemma gpt_get_part_end d ret vp v part N :
  dev_inv d -> vol_ok v -> entries_le v N -> N <= part < 2 ^ 31 -> ends v ret (gpt_get_part fs_get_label d ret vp v part).
Proof.
  intros Hd Hv [Hw Hn] Hp. unfold gpt_get_part.
  destruct (find_header_spec [512; 4096] ltac:(repeat constructor; lia) d v (replicate 92 0) Hd Hv (zlen_replicate 92 0) (zeros_bytes 92))
    as (d1 & c1 & h & lb & -> & Hd1 & Hv1 & HFh & Hlb). cbn [mbind outcome_bind].
  destruct lb as [lb|]; [|exists d1, c1, INVALID_TABLE; auto].
  case_if; [exists d1, c1, INVALID_TABLE; auto |]. destruct (Hlb lb eq_refl) as [Hin Hh].
  assert (lb <= 4096) by (rewrite !elem_of_cons, elem_of_nil in Hin; lia).
  assert (in_whole v (lb + 92)) as Hw' by (destruct Hw as [?|?]; [by left | right; lia]).
  specialize (Hh ltac:(lia) Hw'). specialize (Hn lb Hin). pose proof (field_range h 80 4 HFh ltac:(lia)) as Hr. fold (number_of_partition_entries h) in Hr.
  rewrite <- Hh in Hn. rewrite u32_small by lia. case_if; [exists d1, c1, END_OF_TABLE; auto | lia].
Qed.

Lemma mbr_get_part_end d ret vp v part :
  dev_inv d -> vol_ok v -> 260 <= part -> ends v ret (mbr_get_part fs_get_label junk.1 junk.2 d ret vp v part).
Proof.
  intros Hd Hv Hp. destruct junk_ok as [[Hz1 HF1] [Hz2 HF2]]. unfold mbr_get_part.
  destruct (is_valid_mbr_spec junk.1 d v Hd Hv Hz1 HF1) as (d1 & c1 & ok & -> & Hd1 & Hv1). cbn [mbind outcome_bind].
  case_if; [exists d1, c1, INVALID_TABLE; auto |]. case_if; [|lia].
  destruct (find_extended_spec 4 0 d1 vp (set_vc v c1) junk.2) as (d2 & c2 & e2 & r & -> & Hd2 & Hv2 & _); try done.
  cbn [mbind outcome_bind]. destruct r as [ext|]; [|exists d2, c2, END_OF_TABLE; auto].
  unfold mbr_get_logical_part, MAX_LOGICAL_PARTITIONS. case_if; [|lia]. exists d2, c2, END_OF_TABLE. auto.
Qed.

Lemma entries_le_set_vc v c N : entries_le v N -> entries_le (set_vc v c) N.
Proof. done. Qed.

Lemma part_get_end d ret vp v part N :
  dev_inv d -> vol_ok v -> entries_le v N -> N <= part < 2 ^ 31 -> 260 <= part ->
  ends v ret (part_get fs_get_label junk d ret vp v part).
Proof.
  intros Hd Hv Hn Hp Hp2. unfold part_get. destruct (Z.ltb_spec part 0); [lia |].
  destruct (gpt_get_part_end d ret vp v part N Hd Hv Hn Hp) as (d1 & c1 & code & -> & Hd1 & Hv1 & Hc). cbn [mbind outcome_bind].
  destruct Hc as [-> | ->]; [exists d1, c1, END_OF_TABLE; auto |]. simpl.
  destruct (mbr_get_part_end d1 ret vp (set_vc v c1) part Hd1 Hv1 Hp2) as (d2 & c2 & code & -> & Hd2 & Hv2 & Hc). cbn [mbind outcome_bind].
  destruct Hc as [-> | ->]; simpl; eexists d2, c2, _; split_and!; eauto.
Qed.

Lemma vol_ok_set_max v m : vol_ok (set_max_partition v m) <-> vol_ok v.
Proof. split; intros [[] ?]; (split; [by constructor | done]). Qed.
Lemma placed_set_max vp num v m r : placed vp num (set_max_partition v m) r -> placed vp num v r.
Proof. by intros []; constructor. Qed.

(** The partitions found from [part] on, in the order of their numbers. *)
Definition found_ok (vp part N : Z) (block : volume) (parts : list volume) : Prop :=
  Forall (fun p => part < p.(partition) <= Z.max N 260 /\ placed vp p.(partition) block p) parts /\
  StronglySorted (fun p q => p.(partition) < q.(partition)) parts.

Lemma found_ok_mono vp part part' N block parts : part' <= part -> found_ok vp part N block parts -> found_ok vp part' N block parts.
Proof. intros Hle [HF HS]. split; [|done]. eapply Forall_impl; [exact HF |]. intros p [? ?]. split; [lia | done]. Qed.

Lemma found_ok_cons vp part N block p parts :
  part < Z.max N 260 -> placed vp (part + 1) block p -> found_ok vp (part + 1) N block parts -> found_ok vp part N block (p :: parts).
Proof.
  intros Hlt Hp [HF HS]. pose proof (p_number _ _ _ _ Hp) as Hn. split.
  - constructor; [rewrite Hn; split; [lia | done] |]. eapply Forall_impl; [exact HF |]. intros q [? ?]. split; [lia | done].
  - constructor; [done |]. eapply Forall_impl; [exact HF |]. intros q [? ?]. lia.
Qed.

Definition scanned (vp part N : Z) (block : volume) (found : list volume) (o : outcome (D * volume * list volume)) : Prop :=
  exists d' c' parts, o = Ret (d', set_vc (set_max_partition block (block.(max_partition) + zlen parts)) c', found ++ parts) /\
    dev_inv d' /\ vol_ok (set_vc block c') /\ found_ok vp part N block parts.

Lemma scanned_skip vp part N block c found o : scanned vp (part + 1) N (set_vc block c) found o -> scanned vp part N block found o.
Proof.
  intros (d' & c' & parts & -> & Hd & Hv & [HF HS]). exists d', c', parts. split_and!; try done.
  eapply found_ok_mono with (part := part + 1); [lia |]. split; [|done]. eapply Forall_impl; [exact HF |].
  intros p [? ?]. split; [done | by eapply placed_set_vc].
Qed.

Lemma scanned_add vp part N block c p found o :
  part < Z.max N 260 -> placed vp (part + 1) block p ->
  scanned vp (part + 1) N (set_max_partition (set_vc block c) (block.(max_partition) + 1)) (found ++ [p]) o ->
  scanned vp part N block found o.
Proof.
  intros Hlt Hp (d' & c' & parts & -> & Hd & Hv & [HF HS]). exists d', c', (p :: parts). split_and!; try done.
  - rewrite <- app_assoc, zlen_cons. simpl. unfold set_vc, set_max_partition. simpl. do 4 f_equal. lia.
  - apply (proj1 (vol_ok_set_max (set_vc block c') (block.(max_partition) + 1))). exact Hv.
  - apply found_ok_cons; try done. split; [|done]. eapply Forall_impl; [exact HF |].
    intros q [? ?]. split; [done |]. by eapply placed_set_vc, placed_set_max.
Qed.

Lemma scan_spec N vp fuel d block part found :
  dev_inv d -> vol_ok block -> entries_le block N -> 0 <= part -> Z.max N 260 < part + Z.of_nat fuel ->
  part <= Z.max N 260 < 2 ^ 31 -> scanned vp part N block found (scan fs_get_label junk fuel d vp block part found).
Proof.
  revert d block part found. induction fuel as [|fuel IH]; intros d block part found Hd Hv Hn Hp Hf HN; [lia |].
  cbn [scan]. destruct (decide (part = Z.max N 260)) as [He|Hne].
  - destruct (part_get_end d zero_volume vp block part N Hd Hv Hn ltac:(lia) ltac:(lia)) as (d1 & c1 & code & -> & Hd1 & Hv1 & Hc).
    cbn [mbind outcome_bind]. replace ((code =? END_OF_TABLE) || (code =? INVALID_TABLE)) with true
      by (destruct Hc as [-> | ->]; done).
    exists d1, c1, []. rewrite app_nil_r. split_and!; try done; [| split; constructor].
    do 3 f_equal. unfold set_vc, set_max_partition. simpl. f_equal. change (zlen []) with 0. lia.
  - destruct (part_get_lemma fs_get_label label_reads junk d zero_volume vp block part) as (d1 & p & c1 & code & -> & Hd1 & Hv1 & Hc);
      try done; try apply junk_ok; try lia.
    cbn [mbind outcome_bind]. destruct ((code =? END_OF_TABLE) || (code =? INVALID_TABLE)) eqn:Hend.
    { exists d1, c1, []. rewrite app_nil_r. split_and!; try done; [| split; constructor].
      do 3 f_equal. unfold set_vc, set_max_partition. simpl. f_equal. change (zlen []) with 0. lia. }
    destruct Hc as [[Hc Hret] | [-> Hpl]].
    + destruct (Z.eqb_spec code NO_PARTITION); [|exfalso; by destruct_or! Hc; subst].
      apply (scanned_skip _ _ _ _ c1), IH; try done; lia.
    + cbn [Z.eqb]. change (0 =? NO_PARTITION) with false. cbv iota.
      apply (scanned_add _ _ _ _ c1 p); [lia | done |]. apply IH; try done; try lia. by apply vol_ok_set_max.
Qed.

(** the scan of a drive's partitions ends: for any contents of a drive of at least 4188
    bytes whose GPT headers (if any) announce at most [N] entries, at most [max N 260] + 1
    calls of [part_get] are made; the partitions appended to the index are non-empty, inside
    the drive, in strictly increasing order of their numbers, and the drive's [max_partition]
    is one less than their number. *)
Lemma scan_ends N vp d block :
  dev_inv d -> vol_ok block -> block.(max_partition) = -1 -> entries_le block N -> Z.max N 260 < 2 ^ 31 ->
  exists d' c' parts,
    scan fs_get_label junk (Z.to_nat (Z.max N 260 + 1)) d vp block 0 [] =
      Ret (d', set_vc (set_max_partition block (zlen parts - 1)) c', parts) /\
    dev_inv d' /\ found_ok vp 0 N block parts.
Proof.
  intros Hd Hv Hm Hn HN. destruct (scan_spec N vp (Z.to_nat (Z.max N 260 + 1)) d block 0 []) as (d' & c' & parts & -> & Hd' & _ & Hf);
    try done; try lia. exists d', c', parts. split_and!; try done. rewrite Hm.
  by replace (-1 + zlen parts) with (zlen parts - 1) by lia.
Qed.

End scan.

(** * Visiting the partitions of a drive *)

Lemma find_volume_none p l : Forall (fun v => p v = false) l -> find_volume p l = None.
Proof. induction 1 as [|v l Hv _ IH]; simpl; [done |]. by rewrite Hv, IH. Qed.
Lemma find_volume_first p l1 v l2 :
  Forall (fun v => p v = false) l1 -> p v = true -> find_volume p (l1 ++ v :: l2) = Some (zlen l1).
Proof.
  induction 1 as [|u l1 Hu _ IH]; intros Hv; simpl; [by rewrite Hv |]. rewrite Hu, IH by done. simpl. rewrite zlen_cons. f_equal. lia.
Qed.

Section iterate.
Definition on_disk (v u : volume) : Prop := u.(index) = v.(index) /\ u.(is_optical) = v.(is_optical).
Definition coord (v : volume) (n : Z) (u : volume) : bool :=
  (u.(index) =? v.(index)) && Bool.eqb u.(is_optical) v.(is_optical) && (u.(partition) =? n).
Lemma coord_spec v n u : coord v n u = true <-> on_disk v u /\ u.(partition) = n.
Proof. unfold coord, on_disk. rewrite !andb_true_iff, !Z.eqb_eq, eqb_true_iff. tauto. Qed.
Lemma coord_false v n l : Forall (fun u => on_disk v u -> u.(partition) <> n) l -> Forall (fun u => coord v n u = false) l.
Proof.
  intros HF. eapply Forall_impl; [exact HF |]. intros u Hu. apply not_true_is_false. rewrite coord_spec. intros [? ?]. by apply Hu.
Qed.

Context (pre post : list volume) (block : volume) (parts : list volume) (M : Z).
Hypothesis others : Forall (fun u => ~ on_disk block u) (pre ++ post).
Hypothesis parts_here : Forall (on_disk block) parts.
Hypothesis block_max : block.(max_partition) = zlen parts - 1.

Let all := block :: parts.
Let idx := pre ++ all ++ post.

(** The next volume of the drive is found exactly at its number. *)
Lemma coord_next don r rest partno :
  all = don ++ r :: rest -> Forall (fun u => u.(partition) < partno) don -> partno <= r.(partition) ->
  Forall (fun u => r.(partition) < u.(partition)) rest ->
  find_volume (coord block partno) idx = if decide (r.(partition) = partno) then Some (zlen pre + zlen don) else None.
Proof using others parts_here.
  clear block_max. intros Hall Hdon Hr Hlt. apply Forall_app in others as [Hpre Hpost].
  assert (on_disk block r) as Hon.
  { assert (r ∈ all) as Hin by (rewrite Hall; set_solver). unfold all in Hin. apply elem_of_cons in Hin as [-> | Hin]; [done |].
    by eapply Forall_forall in parts_here. }
  assert (Forall (fun u => coord block partno u = false) (pre ++ don)) as Hbefore.
  { apply coord_false, Forall_app. split; [eapply Forall_impl; [exact Hpre |]; by intros u Hu ? |].
    eapply Forall_impl; [exact Hdon |]. simpl. intros u Hu _. lia. }
  assert (idx = (pre ++ don) ++ r :: rest ++ post) as -> by (unfold idx; rewrite Hall; by rewrite <- !app_assoc).
  case_decide as He; [rewrite find_volume_first, zlen_app; [done | done | by apply coord_spec] |].
  apply find_volume_none, Forall_app. split; [done |]. apply coord_false. rewrite app_comm_cons. apply Forall_app. split.
  - apply Forall_cons. split; [done |]. eapply Forall_impl; [exact Hlt |]. simpl. intros; lia.
  - eapply Forall_impl; [exact Hpost |]. by intros u Hu ?.
Qed.

Lemma above r rest partno : Forall (fun u => r.(partition) < u.(partition)) rest ->
  Forall (fun u => partno <= u.(partition) <= M) rest -> partno <= r.(partition) ->
  Forall (fun u => partno + 1 <= u.(partition) <= M) rest.
Proof using Type.
  clear block_max others parts_here. intros H1 H2 Hr. apply Forall_and. split; [eapply Forall_impl; [exact H1 |]; simpl; intros; lia |].
  eapply Forall_impl; [exact H2 |]. simpl. intros; lia.
Qed.

Lemma iterate_spec fuel don rest partno :
  all = don ++ rest -> Forall (fun u => u.(partition) < partno) don ->
  Forall (fun u => partno <= u.(partition) <= M) rest -> StronglySorted (fun p q => p.(partition) < q.(partition)) rest ->
  M - partno + 1 <= Z.of_nat fuel -> 0 <= partno -> M < 2 ^ 31 ->
  iterate fuel idx block (zlen don - 1) partno = Ret (seqZ (zlen pre + zlen don) (zlen rest)).
Proof using others parts_here block_max.
  revert don rest partno. induction fuel as [|fuel IH]; intros don rest partno Hall Hdon Hrest Hsort Hf H0 HM.
  all: assert (zlen don + zlen rest = zlen parts + 1) as Hlen
    by (rewrite <- zlen_app, <- Hall; unfold all; rewrite zlen_cons; lia).
  all: destruct rest as [|r rest].
  1, 3: assert (zlen (@nil volume) = 0) as Hz0 by done; rewrite Hz0 in *; cbn [iterate];
    rewrite block_max; destruct (Z.gtb_spec (zlen don - 1) (zlen parts - 1)); [done | lia].
  - apply Forall_cons in Hrest as [Hr _]. lia.
  - rewrite zlen_cons in Hlen |- *. pose proof (zlen_nonneg rest). cbn [iterate]. rewrite block_max.
    destruct (Z.gtb_spec (zlen don - 1) (zlen parts - 1)); [lia |].
    apply Forall_cons in Hrest as [Hr Hrest]. rewrite i32_small by lia.
    change (volume_get_by_coord idx _ _ partno) with (find_volume (coord block partno) idx). apply StronglySorted_inv in Hsort as [Hsort Hlt].
    rewrite (coord_next don r rest partno) by (done || lia).
    assert (Forall (fun u => u.(partition) < partno + 1) don) as Hdon' by (eapply Forall_impl; [exact Hdon |]; simpl; lia).
    pose proof (above r rest partno Hlt Hrest ltac:(lia)) as Habove. case_decide as He.
    + replace (zlen don - 1 + 1) with (zlen (don ++ [r]) - 1) by (rewrite zlen_app; change (zlen [r]) with 1; lia).
      rewrite (IH (don ++ [r]) rest (partno + 1)); [| by rewrite Hall, <- app_assoc | | done | done | lia..].
      * simpl. rewrite !zlen_app. rewrite (seqZ_cons _ (1 + zlen rest)) by lia. change (zlen [r]) with 1. do 2 f_equal; [].
        f_equal; lia.
      * apply Forall_app. split; [done |]. apply Forall_singleton. lia.
    + rewrite (IH don (r :: rest) (partno + 1)); [by rewrite zlen_cons | done | done | | by constructor | lia..].
      apply Forall_cons. split; [lia | done].
Qed.

End iterate.

(** [volume_iterate_parts] ends. In an index where [block] is followed by its partitions
    in increasing order of their numbers, as the scan leaves it, and no other volume has the
    drive's coordinates, starting from the drive or from any of its partitions it visits the
    drive and then each partition exactly once, in order, however many numbers are missing. *)
Lemma volume_iterate_parts_spec pre post block parts M fuel i :
  Forall (fun u => ~ on_disk block u) (pre ++ post) -> block.(partition) = 0 -> block.(backing_dev) = None ->
  block.(pxe) = false -> block.(max_partition) = zlen parts - 1 ->
  Forall (fun p => on_disk block p /\ 0 < p.(partition) <= M /\ p.(backing_dev) = Some (zlen pre) /\ p.(pxe) = false) parts ->
  StronglySorted (fun p q => p.(partition) < q.(partition)) parts -> 0 <= M < Z.of_nat fuel -> M < 2 ^ 31 ->
  zlen pre <= i <= zlen pre + zlen parts ->
  volume_iterate_parts fuel (pre ++ (block :: parts) ++ post) i = Ret (seqZ (zlen pre) (zlen parts + 1)).
Proof.
  intros Hothers Hb0 Hback Hpxe Hmax Hparts Hsort HM HM' Hi.
  assert (iterate fuel (pre ++ (block :: parts) ++ post) block (-1) 0 = Ret (seqZ (zlen pre) (zlen parts + 1))) as Hit.
  { rewrite Z.add_comm, <- (zlen_cons block parts), <- (Z.add_0_r (zlen pre)).
    apply (iterate_spec pre post block parts M Hothers) with (don := []); try done; try lia.
    - eapply Forall_impl; [exact Hparts |]. by intros p (? & _).
    - apply Forall_cons. split; [lia |]. eapply Forall_impl; [exact Hparts |]. simpl. lia.
    - constructor; [done |]. eapply Forall_impl; [exact Hparts |]. simpl. lia. }
  assert (forall n, (pre ++ (block :: parts) ++ post) !! (Z.to_nat (zlen pre) + n)%nat = ((block :: parts) ++ post) !! n) as Hl.
  { intros n. unfold zlen. rewrite Nat2Z.id. by rewrite lookup_app_r, Nat.add_comm, Nat.add_sub by lia. }
  assert (exists v, (pre ++ (block :: parts) ++ post) !! Z.to_nat i = Some v /\ v.(pxe) = false /\
    (v = block \/ v.(backing_dev) = Some (zlen pre))) as (v & Hv & Hvp & Hvb).
  { pose proof (Hl (Z.to_nat (i - zlen pre))) as Hli. replace (_ + _)%nat with (Z.to_nat i) in Hli by (unfold zlen in *; lia).
    rewrite Hli. destruct (decide (i = zlen pre)) as [->|Hne].
    - rewrite Z.sub_diag. exists block. auto.
    - replace (Z.to_nat (i - zlen pre)) with (S (Z.to_nat (i - zlen pre - 1))) by lia. simpl.
      rewrite lookup_app_l by (unfold zlen in *; lia).
      destruct (lookup_lt_is_Some_2 parts (Z.to_nat (i - zlen pre - 1))) as [p Hp]; [unfold zlen in *; lia |].
      exists p. destruct (Forall_lookup_1 _ _ _ _ Hparts Hp) as (_ & _ & ? & ?). auto. }
  specialize (Hl 0%nat). rewrite Nat.add_0_r in Hl.
  change (((block :: parts) ++ post) !! 0%nat) with (Some block) in Hl.
  set (idx := pre ++ (block :: parts) ++ post) in *. clearbody idx.
  unfold volume_iterate_parts. rewrite Hv, Hvp. destruct fuel as [|fuel]; [lia |].
  destruct Hvb as [-> | Hvb]; simpl; [rewrite Hback; exact Hit |].
  rewrite Hvb, Hl.
  destruct fuel; simpl; rewrite Hback; exact Hit.
Qed.

(** * The UEFI driver *)

Section uefi.
Context (read_blocks : nat -> Z -> Z -> Z -> list Z * Z) (disk : Z -> Z -> Z) (bps : Z -> Z) (good : Z -> Z -> Prop).

(** [ReadBlocks] writes at most the bytes asked for, and these when it reports success. *)
Class block_protocol : Prop := {
  blocks_data n io lba size data : 0 <= lba < 2 ^ 64 -> 0 < size -> read_blocks n io lba size = (data, 0) ->
    data = load_bytes (disk io) (lba * bps io) (Z.to_nat size);
  blocks_size n io lba size data st : 0 < size -> read_blocks n io lba size = (data, st) ->
    zlen data <= size /\ Forall is_byte data;
  blocks_good n io lba size : 0 <= lba < 2 ^ 64 -> 0 < size ->
    (forall s, lba <= s -> s * bps io < lba * bps io + size -> good io s) -> (read_blocks n io lba size).2 = 0 }.

Context `{!block_protocol}.

#[export] Instance uefi_dev_ok : @BlockDevOk nat (uefi_dev read_blocks).
Proof using All.
  refine {| dev_inv _ := True; contents p := disk p.1.2; dev_sector p := bps p.1.2; readable p := good p.1.2;
            max_xfer := 2 ^ 32 - 1 |}.
  - lia.
  - intros x Hx. apply u64_small. lia.
  - intros n v buf block count _ Hsec Hs Hblk Hc Hmax Hlen. simpl in *. unfold dev in *; simpl in *.
    unfold uefi_read_sectors. rewrite u64_small by lia.
    destruct (read_blocks n (block_io v) block (count * sector_size v)) as [data st] eqn:Hr.
    assert (0 < count * sector_size v) as Hpos by nia.
    destruct (blocks_size _ _ _ _ _ _ Hpos Hr) as [Hz HF].
    eexists _, _, _. split_and!; [reflexivity | done | rewrite zlen_blit; lia | intros; by apply Forall_blit | |].
    + destruct (Z.eqb_spec st 0) as [-> |]; [intros _ | by destruct (st =? EFI_NO_MEDIA)].
      pose proof (blocks_data _ _ _ _ _ Hblk Hpos Hr) as Hd.
      assert (zlen data = count * sector_size v) as Hzd by (rewrite Hd, zlen_load; lia).
      rewrite <- Hzd, slice_blit_0 by lia. rewrite Hzd, Hsec at 1. exact Hd.
    + intros Hg. pose proof (blocks_good n (block_io v) block (count * sector_size v) Hblk Hpos) as H0.
      rewrite Hr in H0. simpl in H0. rewrite H0; [done |]. intros s ? ?. apply Hg. rewrite <- Hsec in *. nia.
Qed.
End uefi.

(** * Examples *)

#[export] Instance toy_block_protocol :
  block_protocol (fun _ _ lba size => (load_bytes wave (lba * 512) (Z.to_nat size), 0)) (fun _ => wave) (fun _ => 512) (fun _ _ => True).
Proof.
  constructor; [by intros n io lba size data _ _ [= <-] | | done].
  intros n io lba size data st Hs [= <- _]. split; [rewrite zlen_load; lia |]. apply bytes_load. apply wave_byte.
Qed.

Definition toy_int13 (n : nat) (drv c lba : Z) : list Z * bool :=
  (load_bytes wave (lba * 512) (Z.to_nat (c * 512)), false).

#[export] Instance toy_firmware : firmware toy_int13 (fun _ => wave) (fun _ => 512) (fun _ _ => True).
Proof.
  constructor; unfold toy_int13; try done.
  - intros. apply wave_byte.
  - by intros n drv c lba data _ _ [= <-].
  - intros n drv c lba data cf Hc [= <- _]. split; [rewrite zlen_load; lia |]. apply bytes_load. apply wave_byte.
Qed.

Lemma drive_probe_correct_witness :
  exists b', detect_sector_size toy_int13 {| xfer_buf := None; calls := 0 |} (new_block 0x80) =
    (b', set_sector_size (new_block 0x80) 512, true).
Proof.
  destruct (drive_probe_correct toy_int13 (fun n => Z.of_nat n) (fun _ => wave) (fun _ => 512) (fun _ _ => True)
    {| xfer_buf := None; calls := 0 |} (new_block 0x80)) as (b' & Hb & _).
  - done.
  - vm_compute. discriminate.
  - exists b'. exact Hb.
Defined.

Lemma scan_example :
  exists d' c' parts, scan (BlockDev0 := ram_dev (fun _ => 0)) no_label (replicate 64 0, replicate 16 0) 261 tt 0
      (set_max_partition ram_disk (-1)) 0 [] =
    Ret (d', set_vc (set_max_partition ram_disk (zlen parts - 1)) c', parts).
Proof.
  assert (forall a : Z, is_byte ((fun _ => 0) a)) as Hc by (intros; unfold is_byte; lia).
  destruct (@scan_ends unit (ram_dev (fun _ => 0)) (ram_dev_ok (fun _ => 0) Hc) no_label (no_label_reads (fun _ => 0) Hc)
    (replicate 64 0, replicate 16 0)) with (N := 0) (vp := 0) (d := tt) (block := set_max_partition ram_disk (-1))
    as (d' & c' & parts & Hs & _).
  - split; (split; [done | by apply Forall_replicate]).
  - done.
  - apply vol_ok_set_max, ram_disk_ok.
  - done.
  - split; [right; vm_compute; discriminate |]. intros x Hx. vm_compute. discriminate.
  - lia.
  - exists d', c', parts. exact Hs.
Qed.

(** Partitions 1 and 3 of the drive, and another drive. *)
Definition ex_part (n : Z) : volume := fill zero_volume ram_disk (Some 1) n 1 1.
Definition ex_other : volume := fill zero_volume (set_drive ram_disk 16 2 2 false) None 0 0 16.

Lemma volume_iterate_parts_example :
  volume_iterate_parts 10 ([ex_other] ++ (set_max_partition ram_disk 1 :: [ex_part 1; ex_part 3]) ++ []) 3 = Ret [1; 2; 3].
Proof.
  apply (volume_iterate_parts_spec [ex_other] [] (set_max_partition ram_disk 1) [ex_part 1; ex_part 3] 3 10 3);
    try done; try lia.
  - apply Forall_cons. split; [intros [? _]; done | constructor].
  - repeat (apply Forall_cons; split; [done |]). constructor.
  - repeat constructor.
Qed.
