(* ===== verification/Iso9660.v ===== *)
(** The ISO 9660 driver, [common/fs/iso9660.s2.c]: the primary volume descriptor, directories
    with Rock Ridge names, paths, files of several extents.

    A [struct iso9660_directory_entry *] is an offset in the buffer of its directory, and the
    list of the bytes from there on where only the record is looked at. As in the FAT driver a
    volume is passed along with the driver's state; [vol] is its address, by which the
    cached root directories are found. A name in a buffer is the list of the bytes before the
    terminating 0 that was stored last. Closing a file only releases its memory. *)

From S2P Require Import Prelude Libc Guid Part.
Import Libc Guid Part.

Module Iso9660.

Definition SECTOR_SIZE : Z := 2 * 2 ^ 10.
Definition FLAG_DIRECTORY : Z := 0x02.
Definition FLAG_MULTI_EXTENT : Z := 0x80.
Definition FIRST_VOLUME_DESCRIPTOR : Z := 0x10.
Definition ROCK_RIDGE_MAX_FILENAME : Z := 255.
Definition MAX_EXTENT_COUNT : Z := 65536.
Definition MAX_VOLUME_DESCRIPTORS : Z := 256.
Definition MAX_DIR_SIZE : Z := 64 * 1024 * 1024.
Definition VDT_PRIMARY : Z := 1.
Definition VDT_TERMINATOR : Z := 255.

Record iso9660_context := { vol : Z; root : list Z; root_size : Z }.
(** The address on disk and the size of an extent. *)
Definition iso9660_extent : Type := Z * Z.
Record iso9660_file_handle := {
  context : iso9660_context; total_size : Z; extent_count : Z; extents : list iso9660_extent }.

(** * Directory records *)

Definition sizeof_entry : Z := 33.
Definition extent_little (e : list Z) : Z := field e 2 4.
Definition extent_size_little (e : list Z) : Z := field e 10 4.
Definition flags (e : list Z) : Z := e.[25].
Definition filename_size (e : list Z) : Z := e.[32].

(** The record of the root directory in the primary volume descriptor. *)
Definition pv_root (desc : list Z) : list Z := slice desc 156 sizeof_entry.

(** * Names *)

(** The Rock Ridge name, in [NM] fields of the system use area: [buf] is what has been copied
    so far. Every field that is passed is at least a byte long. *)
Fixpoint nm_loop (fuel : nat) (limit : Z) (sysarea : list Z) (sysarea_len : Z) (buf : list Z) (found_nm : bool)
    : outcome (list Z * bool) :=
  if (sysarea_len >=? 4) && (sysarea.[3] =? 1) then
    match fuel with
    | O => Diverge
    | S fuel =>
        let next buf found_nm :=
          nm_loop fuel limit (drop (Z.to_nat sysarea.[2]) sysarea) (sysarea_len - sysarea.[2]) buf found_nm in
        if (sysarea.[2] >? sysarea_len) || (sysarea.[2] =? 0) then Ret (buf, found_nm)
        else if (sysarea.[0] =? 78) && (sysarea.[1] =? 77) && (sysarea.[2] >=? 5) then
          let frag_len := sysarea.[2] - 5 in
          if zlen buf + frag_len >=? limit then Panic
          else
            let buf := buf ++ slice sysarea 5 frag_len in
            if Z.land sysarea.[4] 1 =? 0 then Ret (buf, true) else next buf true
        else next buf found_nm
    end
  else Ret (buf, found_nm).

(** The identifier up to its version: the loop over [j], with [n] characters left. *)
Fixpoint iso_name (n : nat) (name : list Z) (j name_len : Z) : list Z :=
  match n with
  | O => []
  | S n =>
      if name.[j] =? 59 then []
      else if (name.[j] =? 46) && (j + 1 <? name_len) && (name.[j + 1] =? 59) then []
      else name.[j] :: iso_name n name (j + 1) name_len
  end.

Definition use_iso_name (limit : Z) (entry : list Z) : outcome (list Z * bool) :=
  let name_len := filename_size entry in
  if name_len >=? limit then Panic
  else
    let length := entry.[0] in
    let name_len :=
      if length <? sizeof_entry + name_len then
        if length <=? sizeof_entry then 0 else length - sizeof_entry
      else name_len in
    Ret (iso_name (Z.to_nat name_len) (drop (Z.to_nat sizeof_entry) entry) 0 name_len, false).

(** The name, and whether it is a Rock Ridge name. *)
Definition load_name (limit : Z) (entry : list Z) : outcome (list Z * bool) :=
  let length := entry.[0] in
  if length <? sizeof_entry + filename_size entry then use_iso_name limit entry
  else
    let sysarea := drop (Z.to_nat (sizeof_entry + filename_size entry)) entry in
    let sysarea_len := length - sizeof_entry - filename_size entry in
    let even := Z.land (filename_size entry) 1 =? 0 in
    if even && (sysarea_len =? 0) then use_iso_name limit entry
    else
      let sysarea := if even then drop 1 sysarea else sysarea in
      let sysarea_len := if even then sysarea_len - 1 else sysarea_len in
      '(buf, found_nm) ← nm_loop (Z.to_nat sysarea_len) limit sysarea sysarea_len [] false;
      if (found_nm : bool) then Ret (buf, true) else use_iso_name limit entry.

(** A name in a buffer as a string. *)
Definition name_str (name : list Z) : Z -> Z := fun i => (name ++ [0]).[i].

(** * Directories *)

(** The record after the one at [current] in a directory at the address [base]. *)
Definition iso9660_next_entry (base : Z) (dir : list Z) (current : Z) : option Z :=
  let buffer_end := base + zlen dir in
  let next_sector (p : Z) : option Z :=
    a ← ALIGN_UP (base + p + 1) SECTOR_SIZE;
    if a >=? buffer_end then None
    else if dir.[a - base] =? 0 then None else Some (a - base) in
  if dir.[current] =? 0 then next_sector current
  else
    let next := current + dir.[current] in
    if base + next >=? buffer_end then None
    else
      entry ← (if dir.[next] =? 0 then next_sector next else Some next);
      if dir.[entry] <? sizeof_entry then None
      else if dir.[entry] >? zlen dir - entry then None
      else Some entry.

(** [off] is where [buffer] points to, [size] the bytes left; [case_insensitive] is the global
    [case_insensitive_fopen]. The file's name is at most 254 bytes long, which bounds the
    comparisons. Every iteration moves on. *)
Fixpoint iso9660_find (fuel : nat) (case_insensitive : bool) (dir : list Z) (off size : Z) (filename : Z -> Z)
    : outcome (option Z) :=
  if size =? 0 then Ret None
  else match fuel with
  | O => Diverge
  | S fuel =>
      let length := dir.[off] in
      if length =? 0 then
        if size <=? SECTOR_SIZE then Ret None
        else
          let prev_size := size in
          let size := ALIGN_DOWN size SECTOR_SIZE in
          if prev_size =? size then
            if size <=? SECTOR_SIZE then Ret None
            else iso9660_find fuel case_insensitive dir (off + SECTOR_SIZE) (size - SECTOR_SIZE) filename
          else iso9660_find fuel case_insensitive dir (off + (prev_size - size)) size filename
      else if length >? size then Ret None
      else if length <? sizeof_entry then Ret None
      else
        '(name, rr) ← load_name 256 (drop (Z.to_nat off) dir);
        r ← (if rr && negb case_insensitive then strcmp else strcasecmp) 254%nat filename (name_str name);
        if r =? 0 then Ret (Some off)
        else iso9660_find fuel case_insensitive dir (off + length) (size - length) filename
  end.

(** * Extents *)

(** The first pass over the records of a file, which returns [extent_count] and [total_size]. *)
Fixpoint count_extents (fuel : nat) (base : Z) (dir base_name : list Z) (e extent_count total_size : Z)
    : outcome (Z * Z) :=
  if Z.land (flags (drop (Z.to_nat e) dir)) FLAG_MULTI_EXTENT =? 0 then Ret (extent_count, total_size)
  else match fuel with
  | O => Diverge
  | S fuel =>
      match iso9660_next_entry base dir e with
      | None => Ret (extent_count, total_size)
      | Some next =>
          '(next_name, _) ← load_name 256 (drop (Z.to_nat next) dir);
          differ ← (if name_str base_name 0 =? 0 then Ret true
                    else r ← strcmp 256%nat (name_str base_name) (name_str next_name); Ret (negb (r =? 0)));
          if (differ : bool) then Ret (extent_count, total_size)
          else
            let e := next in
            let extent_count := extent_count + 1 in
            let total_size := total_size + extent_size_little (drop (Z.to_nat e) dir) in
            if extent_count >=? MAX_EXTENT_COUNT then Ret (extent_count, total_size)
            else count_extents fuel base dir base_name e extent_count total_size
      end
  end.

(** The second: [n] extents are left to fill in. The array is cleared when it is allocated. *)
Fixpoint fill_extents (n : nat) (base : Z) (dir : list Z) (e : Z) : list iso9660_extent :=
  match n with
  | O => []
  | S n =>
      let entry := drop (Z.to_nat e) dir in
      (extent_little entry, extent_size_little entry) ::
        match n with
        | O => []
        | S _ =>
            match iso9660_next_entry base dir e with
            | None => replicate n (0, 0)
            | Some next => fill_extents n base dir next
            end
        end
  end.

(** * Paths *)

Fixpoint skip_slashes (fuel : nat) (path : Z -> Z) (i : Z) : outcome Z :=
  if path i =? 47 then match fuel with O => Diverge | S fuel => skip_slashes fuel path (i + 1) end else Ret i.

(** The component at [i], of which [aux] has been copied: [n] bytes are left in the buffer. *)
Fixpoint component (n : nat) (path : Z -> Z) (i : Z) (aux : list Z) : outcome (list Z * Z) :=
  if (path i =? 47) || (path i =? 0) then Ret (aux, i)
  else match n with
  | O => Panic
  | S n => component n path (i + 1) (aux ++ [path i])
  end.

Section iso9660.
Context {D : Type} `{!BlockDev D}.

(** [n] descriptors are left; [desc] is overwritten before it is looked at. *)
Fixpoint iso9660_find_PVD (n : nat) (d : D) (v : volume) (desc : list Z) (lba : Z) : outcome (D * volume * list Z) :=
  match n with
  | O => Panic
  | S n =>
      '(d, v, desc, ok) ← volume_read d v desc (lba * SECTOR_SIZE) SECTOR_SIZE;
      if negb ok then Panic
      else if desc.[0] =? VDT_PRIMARY then Ret (d, v, desc)
      else if desc.[0] =? VDT_TERMINATOR then Panic
      else iso9660_find_PVD n d v desc (lba + 1)
  end.

Definition dir_size_valid (size : Z) : bool :=
  negb ((size =? 0) || (size >? MAX_DIR_SIZE) || negb (size mod SECTOR_SIZE =? 0)).

(** The root directory and its size. *)
Definition iso9660_cache_root (d : D) (v : volume) : outcome (D * volume * (list Z * Z)) :=
  '(d, v, pv) ← iso9660_find_PVD (Z.to_nat MAX_VOLUME_DESCRIPTORS) d v (replicate (Z.to_nat SECTOR_SIZE) 0)
                  FIRST_VOLUME_DESCRIPTOR;
  let root_size := extent_size_little (pv_root pv) in
  if negb (dir_size_valid root_size) then Panic
  else
    '(d, v, root, ok) ← volume_read d v (replicate (Z.to_nat root_size) 0) (extent_little (pv_root pv) * SECTOR_SIZE) root_size;
    if negb ok then Panic else Ret (d, v, (root, root_size)).

Definition iso9660_get_context (contexts : list iso9660_context) (d : D) (vol : Z) (v : volume)
    : outcome (D * volume * (list iso9660_context * iso9660_context)) :=
  match list_find (fun c => c.(Iso9660.vol) = vol) contexts with
  | Some (_, c) => Ret (d, v, (contexts, c))
  | None =>
      '(d, v, (root, root_size)) ← iso9660_cache_root d v;
      let c := {| Iso9660.vol := vol; root := root; root_size := root_size |} in
      Ret (d, v, (c :: contexts, c))
  end.

(** The walk down the tree from the directory [current]: the directory the path ends in and
    the offset of the record found there. *)
Fixpoint walk (fuel : nat) (case_insensitive : bool) (d : D) (v : volume) (path : Z -> Z) (i : Z) (current : list Z)
    : outcome (D * volume * option (list Z * Z)) :=
  match fuel with
  | O => Diverge
  | S fuel =>
      i ← skip_slashes fuel path i;
      if path i =? 0 then Ret (d, v, None)
      else
        '(filename, i) ← component (Z.to_nat (ROCK_RIDGE_MAX_FILENAME - 1)) path i [];
        r ← iso9660_find (length current) case_insensitive current 0 (zlen current) (name_str filename);
        match r with
        | None => Ret (d, v, None)
        | Some off =>
            let entry := drop (Z.to_nat off) current in
            let next_sector := extent_little entry in
            let next_size := extent_size_little entry in
            if negb (path i =? 0) && (Z.land (flags entry) FLAG_DIRECTORY =? 0) then Ret (d, v, None)
            else if path i =? 0 then Ret (d, v, Some (current, off))
            else if negb (dir_size_valid next_size) then Ret (d, v, None)
            else
              '(d, v, current, ok) ← volume_read d v (replicate (Z.to_nat next_size) 0) (next_sector * SECTOR_SIZE) next_size;
              if negb ok then Ret (d, v, None)
              else walk fuel case_insensitive d v path (i + 1) current
        end
  end.

(** The extents of the file at [off] in the directory [dir], which is at the address [base];
    [fuel] bounds their number. *)
Definition open_extents (fuel : nat) (base : Z) (context : iso9660_context) (dir : list Z) (off : Z) : outcome iso9660_file_handle :=
  let entry := drop (Z.to_nat off) dir in
  '(base_name, _) ← load_name 256 entry;
  '(extent_count, total_size) ← count_extents fuel base dir base_name off 1 (extent_size_little entry);
  Ret {| context := context; total_size := total_size; extent_count := extent_count;
         extents := fill_extents (Z.to_nat extent_count) base dir off |}.

(** The handle's [fd]; [None] is NULL. [base] is the address [ext_mem_alloc] returned for
    the directory the file is in. *)
Definition iso9660_open (fuel : nat) (base : Z) (case_insensitive : bool) (contexts : list iso9660_context)
    (d : D) (vol : Z) (v : volume) (path : Z -> Z)
    : outcome (D * volume * (list iso9660_context * option iso9660_file_handle)) :=
  '(d, v, buf, ok) ← volume_read d v (replicate 6 0) (FIRST_VOLUME_DESCRIPTOR * SECTOR_SIZE + 1) 5;
  if negb ok then Ret (d, v, (contexts, None))
  else
    let buf := buf.[5 := 0] in
    r ← strcmp 5 (fun i => buf.[i]) (lit "CD001");
    if negb (r =? 0) then Ret (d, v, (contexts, None))
    else
      '(d, v, (contexts, c)) ← iso9660_get_context contexts d vol v;
      i ← skip_slashes fuel path 0;
      '(d, v, r) ← walk fuel case_insensitive d v path i c.(root);
      match r with
      | None => Ret (d, v, (contexts, None))
      | Some (dir, off) =>
          f ← open_extents (Z.to_nat MAX_EXTENT_COUNT) base c dir off;
          Ret (d, v, (contexts, Some f))
      end.

(** The loop of [iso9660_read]: [progress] bytes of [buf] are filled. *)
Fixpoint read_extents (l : list iso9660_extent) (d : D) (v : volume) (buf : list Z) (progress loc count extent_start : Z)
    : outcome (D * volume * (list Z * Z)) :=
  match l with
  | [] => Ret (d, v, (buf, count))
  | (lba, extent_size) :: l =>
      if negb (count >? 0) then Ret (d, v, (buf, count))
      else
        let extent_end := u64 (extent_start + extent_size) in
        if loc <? extent_end then
          let offset_in_extent := if loc >? extent_start then loc - extent_start else 0 in
          let bytes_available := extent_size - offset_in_extent in
          let to_read := if count <? bytes_available then count else bytes_available in
          '(d, v, rest, ok) ← volume_read d v (drop (Z.to_nat progress) buf) (lba * SECTOR_SIZE + offset_in_extent) to_read;
          if negb ok then Panic
          else
            read_extents l d v (take (Z.to_nat progress) buf ++ rest) (progress + to_read) (loc + to_read) (count - to_read)
              extent_end
        else read_extents l d v buf progress loc count extent_end
  end.

Definition iso9660_read (f : iso9660_file_handle) (d : D) (v : volume) (buf : list Z) (loc count : Z)
    : outcome (D * volume * list Z * Z) :=
  '(d, v, (buf, unread)) ← read_extents f.(extents) d v buf 0 loc count 0;
  if unread >? 0 then Panic else Ret (d, v, buf, count).

End iso9660.
End Iso9660.
