(* ===== verification/Iso9660Dir.v ===== *)
(** Names and directories of the ISO 9660 driver: what it finds in a directory laid out as
    ECMA-119 and the system use sharing protocol prescribe, and that it stays inside the
    directory's buffer whatever that holds. *)

From S2P Require Import Prelude Libc LibcCorrect Guid Part PartCorrect Iso9660.
Import Libc Guid Part Iso9660.

(** * Bytes *)



Lemma text_of_zero n : text_of (n ++ [0]) = text_of n.
Proof. induction n as [|b n IH]; [done |]. cbn [app text_of]. by rewrite IH. Qed.
Lemma name_str_cstr n : Forall is_byte n -> cstr (name_str n) (text_of n) /\ (length (text_of n) <= length n)%nat.
Proof.
  intros HF. rewrite <- text_of_zero. apply text_of_cstr; [|by apply list_lookup_middle].
  apply Forall_app. split; [done |]. by repeat constructor.
Qed.

(** * Names of any record *)

Lemma nm_loop_total fuel limit sysarea len buf found :
  Forall is_byte sysarea -> Forall is_byte buf -> len <= Z.of_nat fuel -> zlen buf + Z.max 0 len < limit ->
  exists n b, nm_loop fuel limit sysarea len buf found = Ret (n, b) /\ Forall is_byte n /\ zlen n < limit.
Proof.
  revert sysarea len buf found. induction fuel as [|fuel IH]; intros sysarea len buf found HF HB Hf Hl; cbn [nm_loop].
  { destruct (Z.geb_spec len 4); [lia |]. exists buf, found. split_and!; done || lia. }
  destruct ((len >=? 4) && _) eqn:Hc; [|exists buf, found; split_and!; done || lia].
  apply andb_prop in Hc as [Hc _]. pose proof (aget_byte sysarea 2 HF) as H2. unfold is_byte in H2.
  destruct ((sysarea.[2] >? len) || _) eqn:Hb; [exists buf, found; split_and!; done || lia |]. apply orb_false_iff in Hb as [Hb1 Hb2].
  assert (forall b f, Forall is_byte b -> zlen b + (len - sysarea.[2]) < limit -> exists n x,
    nm_loop fuel limit (drop (Z.to_nat sysarea.[2]) sysarea) (len - sysarea.[2]) b f = Ret (n, x) /\ Forall is_byte n /\ zlen n < limit) as Hnext
    by (intros; apply IH; [by apply Forall_drop | done | lia | lia]).
  destruct ((sysarea.[0] =? 78) && _ && (sysarea.[2] >=? 5)) eqn:Hnm; [|apply Hnext; [done | lia]].
  apply andb_prop in Hnm as [_ H5]. destruct (Z.geb_spec (zlen buf + (sysarea.[2] - 5)) limit); [lia |].
  assert (zlen (slice sysarea 5 (sysarea.[2] - 5)) <= sysarea.[2] - 5) as Hsl by (apply zlen_slice_le; lia).
  assert (Forall is_byte (buf ++ slice sysarea 5 (sysarea.[2] - 5))) by (apply Forall_app; split; [done | by apply Forall_slice]).
  destruct (Z.land sysarea.[4] 1 =? 0); [eexists _, true; split_and!; [done | done | rewrite zlen_app; lia] |]. apply Hnext; [done |]. rewrite zlen_app. lia.
Qed.

Lemma iso_name_bytes n name j len : Forall is_byte name -> Forall is_byte (iso_name n name j len) /\ (length (iso_name n name j len) <= n)%nat.
Proof.
  intros HF. revert j. induction n as [|n IH]; intros j; [done |]. cbn [iso_name]. pose proof (IH (j + 1)) as [IH1 IH2].
  repeat case_if; try (split; [done | simpl; lia]). split; [constructor; [by apply aget_byte | done] | simpl; lia].
Qed.

Lemma use_iso_name_total entry : Forall is_byte entry ->
  exists n b, use_iso_name 256 entry = Ret (n, b) /\ Forall is_byte n /\ zlen n < 256.
Proof.
  intros HF. unfold use_iso_name, filename_size, sizeof_entry. pose proof (aget_byte entry 32 HF) as H1. pose proof (aget_byte entry 0 HF) as H2.
  unfold is_byte in *. destruct (Z.geb_spec entry.[32] 256); [lia |]. cbv zeta. set (len := if entry.[0] <? _ then _ else _).
  assert (0 <= len < 256) by (unfold len; repeat case_if; lia).
  destruct (iso_name_bytes (Z.to_nat len) (drop (Z.to_nat 33) entry) 0 len (Forall_drop _ _ _ HF)) as [? ?].
  eexists _, _. split_and!; [done | done |]. unfold zlen. lia.
Qed.

(** No record has a name that is too long, and reading it does not loop. *)
Lemma load_name_total entry : Forall is_byte entry -> exists n b, load_name 256 entry = Ret (n, b) /\ Forall is_byte n /\ zlen n < 256.
Proof.
  intros HF. pose proof (use_iso_name_total entry HF) as Hi. unfold load_name, filename_size, sizeof_entry in *.
  pose proof (aget_byte entry 32 HF) as H1. pose proof (aget_byte entry 0 HF) as H2. unfold is_byte in *.
  destruct (Z.ltb_spec entry.[0] (33 + entry.[32])); [done |]. cbv zeta.
  set (even := Z.land _ 1 =? 0). destruct (even && _) eqn:He; [done |].
  set (sys := if even then drop _ _ else _). set (len := if even then _ - _ else _).
  assert (Forall is_byte sys) by (unfold sys; case_if; repeat apply Forall_drop; done).
  assert (0 <= len <= 222) by (unfold len; destruct even; simpl in He; lia).
  destruct (nm_loop_total (Z.to_nat len) 256 sys len [] false) as (n & b & -> & Hn & Hl); try done; [lia | change (zlen (@nil Z)) with 0; lia |].
  simpl. destruct b; [eexists _, _; done | done].
Qed.

(** * Comparing names *)

Definition matches (ci : bool) (name : list Z) (nm : list Z * bool) : bool :=
  same (negb (nm.2 && negb ci)) name (text_of nm.1).

Lemma match_spec (ci rr : bool) f name n :
  cstr f name -> (length name <= 254)%nat -> Forall is_byte n ->
  exists r, (if rr && negb ci then strcmp else strcasecmp) 254%nat f (name_str n) = Ret r /\ (r =? 0) = matches ci name (n, rr).
Proof.
  intros Hf Hl Hn. destruct (name_str_cstr n Hn) as [Hc _].
  destruct (compare_spec (negb (rr && negb ci)) f (name_str n) name (text_of n) 254 Hf Hc Hl) as (r & Hr & He).
  exists r. split; [|done]. by destruct (rr && negb ci).
Qed.

(** * Any directory *)

(** A record that is in the buffer. *)
Definition inside (dir : list Z) (o : Z) : Prop := 0 <= o /\ sizeof_entry <= dir.[o] /\ o + dir.[o] <= zlen dir.

Lemma find_total ci dir f name fuel off size :
  Forall is_byte dir -> cstr f name -> (length name <= 254)%nat -> 0 <= off -> 0 <= size -> off + size <= zlen dir -> size <= Z.of_nat fuel ->
  exists r, iso9660_find fuel ci dir off size f = Ret r /\ forall o, r = Some o -> inside dir o.
Proof.
  intros HF Hc Hl. revert off size. induction fuel as [|fuel IH]; intros off size Ho Hs Hz Hf; cbn [iso9660_find];
    destruct (Z.eqb_spec size 0) as [|Hne]; try (exists None; done); [lia |].
  pose proof (aget_byte dir off HF) as Hb. unfold is_byte, sizeof_entry in *.
  destruct (Z.eqb_spec dir.[off] 0) as [H0|H0].
  - destruct (Z.leb_spec size SECTOR_SIZE) as [|Hgt]; [by exists None |]. change SECTOR_SIZE with 2048 in *.
    unfold ALIGN_DOWN. pose proof (Z.div_mod size 2048) as Hd. pose proof (Z.mod_pos_bound size 2048).
    destruct (Z.eqb_spec size (size / 2048 * 2048)) as [He|Hne2]; [rewrite <- He; destruct (Z.leb_spec size 2048); [lia |] |]; apply IH; lia.
  - destruct (Z.gtb_spec dir.[off] size); [by exists None |]. destruct (Z.ltb_spec dir.[off] 33); [by exists None |].
    destruct (load_name_total (drop (Z.to_nat off) dir) (Forall_drop _ _ _ HF)) as (n & b & -> & Hn & _). cbn [mbind outcome_bind].
    destruct (match_spec ci b f name n Hc Hl Hn) as (r & -> & He). cbn [mbind outcome_bind]. rewrite He.
    destruct (matches _ _ _); [|apply IH; lia]. eexists. split; [done |]. intros o [= <-]. unfold inside, sizeof_entry. lia.
Qed.

Lemma next_total base dir o o' : Forall is_byte dir -> inside dir o -> iso9660_next_entry base dir o = Some o' -> 0 <= base -> inside dir o'.
Proof.
  intros HF (Ho & Hl & Hz) Hn Hbase. unfold iso9660_next_entry in Hn. unfold sizeof_entry in *.
  destruct (Z.eqb_spec dir.[o] 0); [lia |]. destruct (Z.geb_spec (base + (o + dir.[o])) (base + zlen dir)); [done |].
  destruct (if dir.[o + dir.[o]] =? 0 then _ else _) as [e|] eqn:He; [|done]. cbn [mbind option_bind] in Hn.
  destruct (Z.ltb_spec dir.[e] 33); [done |]. destruct (Z.gtb_spec dir.[e] (zlen dir - e)); [done |]. injection Hn as <-.
  unfold inside, sizeof_entry. split_and!; try lia. destruct (dir.[o + dir.[o]] =? 0); [|injection He as <-; lia].
  destruct (ALIGN_UP _ _) as [a|] eqn:Ha; [|done]. cbn [mbind option_bind] in He.
  destruct (_ >=? _); [done |]. destruct (_ =? 0); [done |]. injection He as <-.
  unfold ALIGN_UP, DIV_ROUNDUP in Ha. destruct (CHECKED_ADD _ _) as [s|] eqn:Hs; [|done]. cbn [mbind option_bind] in Ha. injection Ha as <-.
  apply CHECKED_ADD_Some in Hs as [-> Hs]. change SECTOR_SIZE with 2048 in *. set (x := base + (o + dir.[o]) + 1 + (2048 - 1)) in *.
  pose proof (Z.div_mod x 2048). pose proof (Z.mod_pos_bound x 2048). rewrite u64_small by lia. lia.
Qed.

(** * Records as the standards prescribe *)

(** A field of the system use area: two characters, a length, version 1 and the data. *)
Record susp := { s_sig : Z * Z; s_data : list Z }.
Definition enc_susp (f : susp) : list Z := [f.(s_sig).1; f.(s_sig).2; 4 + zlen f.(s_data); 1] ++ f.(s_data).

(** The head of a record has 33 bytes; after the identifier comes a byte of padding if its
    length is even, then the system use area, whose fields may be followed by bytes that are
    none. *)
Record rec := { r_head : list Z; r_id : list Z; r_pad : Z; r_fields : list susp; r_tail : list Z }.
Definition area (r : rec) : list Z := mjoin (enc_susp <$> r.(r_fields)) ++ r.(r_tail).
Definition enc (r : rec) : list Z :=
  r.(r_head) ++ r.(r_id) ++ (if Z.even (zlen r.(r_id)) then [r.(r_pad)] else []) ++ area r.

Record rec_ok (r : rec) : Prop := {
  ro_bytes : Forall is_byte (enc r);
  ro_head : zlen r.(r_head) = sizeof_entry;
  ro_length : r.(r_head).[0] = zlen (enc r);
  ro_id : r.(r_head).[32] = zlen r.(r_id);
  ro_tail : zlen r.(r_tail) < 4 \/ r.(r_tail).[3] <> 1 }.

(** The Rock Ridge name: the fragments of the [NM] fields, up to the first that is not
    continued. *)
Definition is_nm (f : susp) : bool := (f.(s_sig).1 =? 78) && (f.(s_sig).2 =? 77) && (0 <? zlen f.(s_data)).
Fixpoint rock_ridge (l : list susp) : option (list Z) :=
  match l with
  | [] => None
  | f :: l =>
      if is_nm f
      then Some (drop 1 f.(s_data) ++ if Z.odd f.(s_data).[0] then default [] (rock_ridge l) else [])
      else rock_ridge l
  end.
(** The identifier without version, and without the dot before it. *)
Fixpoint strip (l : list Z) : list Z :=
  match l with
  | [] => []
  | b :: l =>
      if b =? 59 then []
      else if (b =? 46) && (match l with c :: _ => c =? 59 | [] => false end) then [] else b :: strip l
  end.
Definition name_of (r : rec) : list Z * bool :=
  match rock_ridge r.(r_fields) with Some n => (n, true) | None => (strip r.(r_id), false) end.

Lemma land_1 x : (Z.land x 1 =? 0) = negb (Z.odd x).
Proof. change 1 with (Z.ones 1). rewrite Z.land_ones by lia. change (2 ^ 1) with 2. rewrite Zmod_odd. by destruct (Z.odd x). Qed.

Lemma nm_loop_spec fs : forall fuel limit tl rest buf found,
  zlen tl < 4 \/ tl.[3] <> 1 -> (length fs <= fuel)%nat ->
  zlen buf + zlen (mjoin (enc_susp <$> fs)) < limit ->
  nm_loop fuel limit (mjoin (enc_susp <$> fs) ++ tl ++ rest) (zlen (mjoin (enc_susp <$> fs)) + zlen tl) buf found =
  Ret (match rock_ridge fs with Some n => (buf ++ n, true) | None => (buf, found) end).
Proof.
  induction fs as [|f fs IH]; intros fuel limit tl rest buf found Ht Hf Hl.
  - change (mjoin (enc_susp <$> []) ++ tl ++ rest) with (tl ++ rest). change (zlen (mjoin (enc_susp <$> [])) + zlen tl) with (zlen tl).
    assert ((zlen tl >=? 4) && ((tl ++ rest).[3] =? 1) = false) as Hc.
    { destruct (Z.geb_spec (zlen tl) 4); [|done]. rewrite aget_app_l by lia. apply Z.eqb_neq. lia. }
    destruct fuel; cbn [nm_loop]; by rewrite Hc.
  - destruct fuel as [|fuel]; cbn [length] in Hf; [lia |]. change (mjoin (enc_susp <$> f :: fs)) with (enc_susp f ++ mjoin (enc_susp <$> fs)) in *. rewrite zlen_app in *.
    assert (zlen (enc_susp f) = 4 + zlen (s_data f)) as Hz by (unfold enc_susp; rewrite zlen_app; done).
    set (more := mjoin (enc_susp <$> fs)) in *. rewrite Hz in *. pose proof (zlen_nonneg (s_data f)). pose proof (zlen_nonneg more). pose proof (zlen_nonneg tl).
    rewrite <- app_assoc. set (suffix := more ++ tl ++ rest). cbn [nm_loop].
    change ((enc_susp f ++ suffix).[0]) with (s_sig f).1. change ((enc_susp f ++ suffix).[1]) with (s_sig f).2.
    change ((enc_susp f ++ suffix).[2]) with (4 + zlen (s_data f)). change ((enc_susp f ++ suffix).[3]) with 1.
    rewrite Z.eqb_refl, andb_true_r. destruct (Z.geb_spec (4 + zlen (s_data f) + zlen more + zlen tl) 4); [|lia].
    destruct (Z.gtb_spec (4 + zlen (s_data f)) (4 + zlen (s_data f) + zlen more + zlen tl)); [lia |].
    destruct (Z.eqb_spec (4 + zlen (s_data f)) 0); [lia |]. cbn [orb]. rewrite (drop_zlen _ _ _ (eq_sym Hz)).
    replace (4 + zlen (s_data f) + zlen more + zlen tl - (4 + zlen (s_data f))) with (zlen more + zlen tl) by lia.
    cbn [rock_ridge]. unfold is_nm.
    replace (4 + zlen (s_data f) >=? 5) with (0 <? zlen (s_data f))
      by (destruct (Z.ltb_spec 0 (zlen (s_data f))), (Z.geb_spec (4 + zlen (s_data f)) 5); done || lia).
    destruct (_ && _ && (0 <? zlen (s_data f))) eqn:Hnm; [|unfold suffix; apply IH; done || lia].
    apply andb_prop in Hnm as [_ Hd]. apply Z.ltb_lt in Hd.
    destruct (Z.geb_spec (zlen buf + (4 + zlen (s_data f) - 5)) limit); [lia |].
    destruct (s_data f) as [|fl frag] eqn:Ed; [done |]. rewrite zlen_cons in *.
    assert (slice (enc_susp f ++ suffix) 5 (4 + (1 + zlen frag) - 5) = frag) as ->.
    { unfold enc_susp, slice. rewrite Ed. replace (4 + (1 + zlen frag) - 5) with (zlen frag) by lia. unfold zlen. rewrite Nat2Z.id.
      simpl. rewrite drop_0. apply take_app_length. }
    assert ((enc_susp f ++ suffix).[4] = fl) as -> by (unfold enc_susp; by rewrite Ed).
    rewrite land_1. change ((fl :: frag).[0]) with fl. cbn [drop]. destruct (Z.odd fl); cbn [negb].
    + unfold suffix. rewrite IH; [|done | lia | rewrite zlen_app; lia]. destruct (rock_ridge fs); simpl; [by rewrite app_assoc | by rewrite app_nil_r].
    + by rewrite app_nil_r.
Qed.

Lemma iso_name_spec l : forall pre rest,
  iso_name (length l) (pre ++ l ++ rest) (zlen pre) (zlen pre + zlen l) = strip l.
Proof.
  induction l as [|b l IH]; intros pre rest; [done |]. cbn [length iso_name strip]. rewrite zlen_cons.
  assert ((pre ++ (b :: l) ++ rest).[zlen pre] = b) as -> by (rewrite aget_app_r, Z.sub_diag by lia; done).
  destruct (b =? 59); [done |].
  assert (match l with c :: _ => c =? 59 | [] => false end =
    (zlen pre + 1 <? zlen pre + (1 + zlen l)) && ((pre ++ (b :: l) ++ rest).[zlen pre + 1] =? 59)) as ->.
  { destruct l as [|c l]; [by destruct (Z.ltb_spec (zlen pre + 1) (zlen pre + (1 + zlen (@nil Z)))) as [Hx|]; [change (zlen (@nil Z)) with 0 in Hx; lia |] |].
    rewrite zlen_cons. pose proof (zlen_nonneg l). destruct (Z.ltb_spec (zlen pre + 1) (zlen pre + (1 + (1 + zlen l)))); [|lia].
    rewrite aget_app_r by lia. by replace (zlen pre + 1 - zlen pre) with 1 by lia. }
  rewrite andb_assoc. destruct (_ && _); [done |]. f_equal.
  specialize (IH (pre ++ [b]) rest). rewrite <- app_assoc in IH. rewrite zlen_app in IH. change (zlen [b]) with 1 in IH.
  replace (zlen pre + (1 + zlen l)) with (zlen pre + 1 + zlen l) by lia. exact IH.
Qed.

Lemma area_zlen r : zlen (area r) = zlen (mjoin (enc_susp <$> r.(r_fields))) + zlen r.(r_tail).
Proof. apply zlen_app. Qed.
Lemma enc_zlen r : rec_ok r -> zlen (enc r) = 33 + zlen r.(r_id) + (if Z.even (zlen r.(r_id)) then 1 else 0) + zlen (area r) /\ zlen (enc r) < 256.
Proof.
  intros Hr. split.
  - unfold enc. rewrite !zlen_app, (ro_head r Hr). unfold sizeof_entry. destruct (Z.even _); [change (zlen [r_pad r]) with 1 | change (zlen (@nil Z)) with 0]; lia.
  - rewrite <- (ro_length r Hr). pose proof (ro_bytes r Hr) as HF. unfold enc in HF. apply Forall_app in HF as [HF _].
    pose proof (aget_byte _ 0 HF). unfold is_byte in *. lia.
Qed.
(** Bytes of the head, whatever follows the record. *)
Lemma enc_head r rest i : rec_ok r -> 0 <= i < 33 -> (enc r ++ rest).[i] = r.(r_head).[i].
Proof. intros Hr Hi. unfold enc. rewrite <- app_assoc. apply aget_app_l. by rewrite (ro_head r Hr). Qed.

Lemma use_iso_name_spec r rest : rec_ok r -> use_iso_name 256 (enc r ++ rest) = Ret (strip r.(r_id), false).
Proof.
  intros Hr. destruct (enc_zlen r Hr) as [Hz Hlt]. pose proof (zlen_nonneg (area r)). pose proof (zlen_nonneg (r_id r)).
  assert (zlen (r_id r) < 256) by (destruct (Z.even _); lia).
  unfold use_iso_name, filename_size, sizeof_entry. rewrite !enc_head, (ro_length r Hr), (ro_id r Hr) by (done || lia).
  destruct (Z.geb_spec (zlen (r_id r)) 256); [lia |]. cbv zeta.
  destruct (Z.ltb_spec (zlen (enc r)) (33 + zlen (r_id r))); [destruct (Z.even _); lia |]. do 2 f_equal.
  unfold enc. rewrite <- app_assoc, drop_zlen by (by rewrite (ro_head r Hr)). rewrite <- app_assoc.
  assert (Z.to_nat (zlen (r_id r)) = length (r_id r)) as -> by (unfold zlen; lia). exact (iso_name_spec (r_id r) [] _).
Qed.

Lemma fields_count fs : Z.of_nat (length fs) <= zlen (mjoin (enc_susp <$> fs)).
Proof.
  induction fs as [|f fs IH]; [done |]. change (mjoin (enc_susp <$> f :: fs)) with (enc_susp f ++ mjoin (enc_susp <$> fs)).
  rewrite zlen_app. unfold enc_susp at 1. rewrite zlen_app. pose proof (zlen_nonneg (s_data f)). cbn [length].
  change (zlen [(s_sig f).1; (s_sig f).2; 4 + zlen (s_data f); 1]) with 4. lia.
Qed.

(** The name of a record, whatever follows it. *)
Lemma load_name_spec r rest : rec_ok r -> load_name 256 (enc r ++ rest) = Ret (name_of r).
Proof.
  intros Hr. destruct (enc_zlen r Hr) as [Hz Hlt]. pose proof (area_zlen r) as Ha. pose proof (zlen_nonneg (area r)). pose proof (zlen_nonneg (r_id r)).
  pose proof (fields_count (r_fields r)) as Hfc. pose proof (zlen_nonneg (r_tail r)).
  unfold load_name. rewrite (use_iso_name_spec r rest Hr). unfold filename_size, sizeof_entry.
  rewrite !enc_head, (ro_length r Hr), (ro_id r Hr) by (done || lia).
  destruct (Z.ltb_spec (zlen (enc r)) (33 + zlen (r_id r))); [destruct (Z.even _); lia |]. cbv zeta.
  rewrite land_1, Z.negb_odd.
  assert (drop (Z.to_nat (33 + zlen (r_id r))) (enc r ++ rest) = (if Z.even (zlen (r_id r)) then [r_pad r] else []) ++ area r ++ rest) as ->.
  { unfold enc. rewrite (app_assoc (r_head r)), <- !app_assoc, (app_assoc (r_head r)). apply drop_zlen. rewrite zlen_app, (ro_head r Hr). done. }
  set (ev := Z.even (zlen (r_id r))) in *. clearbody ev.
  assert (nm_loop (Z.to_nat (zlen (area r))) 256 (area r ++ rest) (zlen (area r)) [] false =
    Ret (match rock_ridge (r_fields r) with Some n => (n, true) | None => ([], false) end)) as Hnm.
  { rewrite Ha. unfold area. rewrite <- app_assoc. apply nm_loop_spec; [apply Hr | lia | change (zlen (@nil Z)) with 0; destruct ev; lia]. }
  assert (zlen (enc r) - 33 - zlen (r_id r) = (if ev then 1 else 0) + zlen (area r)) as -> by lia. unfold name_of.
  destruct ev; cbn [andb].
  - destruct (Z.eqb_spec (1 + zlen (area r)) 0); [lia |]. replace (1 + zlen (area r) - 1) with (zlen (area r)) by lia.
    change (drop 1 ([r_pad r] ++ area r ++ rest)) with (area r ++ rest). rewrite Hnm. by destruct (rock_ridge _).
  - change ([] ++ area r ++ rest) with (area r ++ rest). rewrite Z.add_0_l, Hnm. by destruct (rock_ridge _).
Qed.

(** * Directories as the standard prescribes: the records of a sector, then zeros *)

Definition recs (rs : list rec) : list Z := mjoin (enc <$> rs).
Definition sector (rs : list rec) : list Z := recs rs ++ replicate (Z.to_nat (2048 - zlen (recs rs))) 0.
Definition sector_ok (rs : list rec) : Prop := Forall rec_ok rs /\ zlen (recs rs) <= 2048.
Definition dir_of (ss : list (list rec)) : list Z := mjoin (sector <$> ss).

(** The records with their offsets. *)
Fixpoint place (off : Z) (rs : list rec) : list (Z * rec) :=
  match rs with [] => [] | r :: rs => (off, r) :: place (off + zlen (enc r)) rs end.
Fixpoint places (off : Z) (ss : list (list rec)) : list (Z * rec) :=
  match ss with [] => [] | rs :: ss => place off rs ++ places (off + 2048) ss end.

(** The first record of the name, with the ones that follow it. *)
Fixpoint pick (ci : bool) (name : list Z) (l : list (Z * rec)) : option (Z * rec * list (Z * rec)) :=
  match l with
  | [] => None
  | x :: l => if matches ci name (name_of x.2) then Some (x, l) else pick ci name l
  end.

Lemma recs_cons r rs : recs (r :: rs) = enc r ++ recs rs.
Proof. done. Qed.
Lemma dir_of_cons rs ss : dir_of (rs :: ss) = sector rs ++ dir_of ss.
Proof. done. Qed.
Lemma sector_zlen rs : sector_ok rs -> zlen (sector rs) = 2048.
Proof. intros [_ Hl]. unfold sector. rewrite zlen_app. unfold zlen in *. rewrite length_replicate. lia. Qed.
Lemma dir_zlen ss : Forall sector_ok ss -> zlen (dir_of ss) = 2048 * zlen ss.
Proof. induction 1 as [|rs ss Hs HF IH]; [done |]. rewrite dir_of_cons, zlen_app, sector_zlen, IH, zlen_cons by done. lia. Qed.

(** What is left of a directory at the offset [off]: records, zeros, whole sectors. *)
Record rest_of (dir : list Z) (off : Z) (rs : list rec) (z : Z) (ss : list (list rec)) : Prop := {
  re_bytes : dir = take (Z.to_nat off) dir ++ recs rs ++ replicate (Z.to_nat z) 0 ++ dir_of ss;
  re_off : 0 <= off <= zlen dir;
  re_recs : Forall rec_ok rs;
  re_sectors : Forall sector_ok ss;
  re_z : 0 <= z <= 2048;
  re_align : (off + zlen (recs rs) + z) mod 2048 = 0 }.

Lemma rest_drop dir off rs z ss : rest_of dir off rs z ss -> drop (Z.to_nat off) dir = recs rs ++ replicate (Z.to_nat z) 0 ++ dir_of ss.
Proof.
  intros Hr. rewrite (re_bytes _ _ _ _ _ Hr) at 1. rewrite drop_app_ge by (rewrite length_take; lia). rewrite length_take.
  pose proof (re_off _ _ _ _ _ Hr). unfold zlen in *. by replace (Z.to_nat off - Z.to_nat off `min` length dir)%nat with 0%nat by lia.
Qed.
Lemma rest_zlen dir off rs z ss : rest_of dir off rs z ss -> zlen dir = off + zlen (recs rs) + z + 2048 * zlen ss.
Proof.
  intros Hr. pose proof (rest_drop _ _ _ _ _ Hr) as Hd. apply (f_equal zlen) in Hd. pose proof (re_off _ _ _ _ _ Hr).
  rewrite zlen_drop in Hd by done. rewrite !zlen_app, (dir_zlen ss (re_sectors _ _ _ _ _ Hr)) in Hd. pose proof (re_z _ _ _ _ _ Hr).
  assert (zlen (replicate (Z.to_nat z) 0) = z) by (unfold zlen; rewrite length_replicate; lia). lia.
Qed.
Lemma rest_get dir off rs z ss i : rest_of dir off rs z ss -> 0 <= i -> dir.[off + i] = (recs rs ++ replicate (Z.to_nat z) 0 ++ dir_of ss).[i].
Proof. intros Hr Hi. rewrite <- (rest_drop _ _ _ _ _ Hr). symmetry. apply aget_drop; [apply Hr | done]. Qed.

(** One move at a time: over a record, over the zeros, into a sector. *)
Lemma rest_move dir off rs z ss rs' z' ss' n (mid : list Z) :
  rest_of dir off rs z ss -> n = zlen mid ->
  recs rs ++ replicate (Z.to_nat z) 0 ++ dir_of ss = mid ++ recs rs' ++ replicate (Z.to_nat z') 0 ++ dir_of ss' ->
  Forall rec_ok rs' -> Forall sector_ok ss' -> 0 <= z' <= 2048 -> (off + n + zlen (recs rs') + z') mod 2048 = 0 ->
  rest_of dir (off + n) rs' z' ss'.
Proof.
  intros Hr -> He Hrs Hss Hz Ha. pose proof (rest_drop _ _ _ _ _ Hr) as Hd. pose proof (re_off _ _ _ _ _ Hr) as Ho.
  pose proof (zlen_nonneg mid).
  assert (drop (Z.to_nat (off + zlen mid)) dir = recs rs' ++ replicate (Z.to_nat z') 0 ++ dir_of ss') as Hd'.
  { rewrite Z2Nat.inj_add, <- drop_drop, Hd, He by lia. by apply drop_zlen. }
  split; try done.
  - rewrite <- Hd'. by rewrite take_drop.
  - split; [lia |]. apply (f_equal zlen) in Hd. rewrite zlen_drop, He, zlen_app in Hd by done.
    pose proof (zlen_nonneg (recs rs' ++ replicate (Z.to_nat z') 0 ++ dir_of ss')). lia.
Qed.
Lemma rest_rec dir off r rs z ss : rest_of dir off (r :: rs) z ss -> rest_of dir (off + zlen (enc r)) rs z ss.
Proof.
  intros Hr. pose proof Hr as [_ _ HF Hs Hz Ha]. inversion HF. eapply rest_move; try done; [by rewrite recs_cons, <- app_assoc |].
  rewrite recs_cons, zlen_app in Ha. by rewrite <- Ha; f_equal; lia.
Qed.
Lemma rest_enter dir off rs ss : rest_of dir off [] 0 (rs :: ss) -> rest_of dir off rs (2048 - zlen (recs rs)) ss.
Proof.
  intros Hr. pose proof Hr as [_ _ _ Hs _ Ha]. inversion Hs as [|? ? [Hs1 Hs2] Hs3]; subst. pose proof (zlen_nonneg (recs rs)).
  rewrite <- (Z.add_0_r off). eapply (rest_move _ _ _ _ _ _ _ _ 0 []); try done; try lia.
  - change (recs [] ++ replicate (Z.to_nat 0) 0 ++ dir_of (rs :: ss)) with (sector rs ++ dir_of ss). unfold sector. by rewrite <- app_assoc.
  - change (zlen (recs [])) with 0 in Ha. replace (off + 0 + zlen (recs rs) + (2048 - zlen (recs rs))) with (off + 0 + 0 + 1 * 2048) by lia.
    by rewrite Z.mod_add.
Qed.
Lemma rest_zeros dir off z ss : rest_of dir off [] z ss -> rest_of dir (off + z) [] 0 ss.
Proof.
  intros Hr. pose proof Hr as [_ _ HF Hs Hz Ha]. eapply (rest_move _ _ _ _ _ _ _ _ z (replicate (Z.to_nat z) 0)); try done; try lia.
  - unfold zlen. rewrite length_replicate. lia.
  - change (zlen (recs [])) with 0 in *. rewrite <- Ha. f_equal. lia.
Qed.

(** * The search *)

Lemma rec_first r : rec_ok r -> 33 <= zlen (enc r) < 256.
Proof.
  intros Hr. destruct (enc_zlen r Hr) as [Hz ?]. pose proof (zlen_nonneg (area r)). pose proof (zlen_nonneg (r_id r)).
  destruct (Z.even (zlen (r_id r))); lia.
Qed.
Lemma rest_first dir off r rs z ss : rest_of dir off (r :: rs) z ss -> dir.[off] = zlen (enc r).
Proof.
  intros Hr. pose proof (re_recs _ _ _ _ _ Hr) as HF. inversion HF as [|? ? Hok _]; subst. rewrite <- (Z.add_0_r off), (rest_get _ _ _ _ _ _ Hr) by lia.
  rewrite recs_cons, <- app_assoc, enc_head by (done || lia). by apply ro_length.
Qed.
Lemma rest_zero dir off z ss : rest_of dir off [] z ss -> 0 < z -> dir.[off] = 0.
Proof.
  intros Hr Hz. rewrite <- (Z.add_0_r off), (rest_get _ _ _ _ _ _ Hr) by lia.
  change (recs [] ++ replicate (Z.to_nat z) 0 ++ dir_of ss) with (replicate (Z.to_nat z) 0 ++ dir_of ss).
  destruct (Z.to_nat z) eqn:E; [lia | done].
Qed.

Lemma name_of_bytes r : rec_ok r -> Forall is_byte (name_of r).1.
Proof.
  intros Hr. destruct (load_name_total (enc r ++ [])) as (n & b & He & Hn & _).
  - rewrite app_nil_r. apply Hr.
  - rewrite load_name_spec in He by done. by injection He as ->.
Qed.

(** The offset found is that of the first record with the name. *)
Definition first_of (o : option (Z * rec * list (Z * rec))) : option Z :=
  match o with Some (x, _, _) => Some x | None => None end.

Section find.
Context (ci : bool) (f : Z -> Z) (name dir : list Z) (Hc : cstr f name) (Hl : (length name <= 254)%nat).

Definition finds_at (rs : list rec) (z : Z) (ss : list (list rec)) : Prop := forall fuel off,
  rest_of dir off rs z ss -> zlen dir - off <= Z.of_nat fuel ->
  iso9660_find fuel ci dir off (zlen dir - off) f =
  Ret (first_of (pick ci name (place off rs ++ places (off + zlen (recs rs) + z) ss))).

Lemma find_rec r rs z ss : finds_at rs z ss -> finds_at (r :: rs) z ss.
Proof using Hc Hl.
  intros IH fuel off Hr Hf. pose proof (rest_zlen _ _ _ _ _ Hr) as Hz. pose proof (re_z _ _ _ _ _ Hr). pose proof (zlen_nonneg ss).
  pose proof (re_recs _ _ _ _ _ Hr) as HF. inversion HF as [|? ? Hok _]; subst. pose proof (rec_first r Hok). pose proof (zlen_nonneg (recs rs)).
  rewrite recs_cons, zlen_app in *. destruct fuel as [|fuel]; [lia |]. cbn [iso9660_find].
  destruct (Z.eqb_spec (zlen dir - off) 0); [lia |]. rewrite (rest_first _ _ _ _ _ _ Hr). unfold sizeof_entry.
  destruct (Z.eqb_spec (zlen (enc r)) 0); [lia |]. destruct (Z.gtb_spec (zlen (enc r)) (zlen dir - off)); [lia |].
  destruct (Z.ltb_spec (zlen (enc r)) 33); [lia |].
  rewrite (rest_drop _ _ _ _ _ Hr), recs_cons, <- app_assoc, load_name_spec by done. pose proof (name_of_bytes r Hok) as Hn.
  cbn [place app pick]. cbn [snd]. destruct (name_of r) as [nm rr]. cbn [mbind outcome_bind]. cbn [fst] in Hn.
  destruct (match_spec ci rr f name nm Hc Hl Hn) as (x & -> & Hx). cbn [mbind outcome_bind]. rewrite Hx.
  destruct (matches ci name (nm, rr)); [done |]. replace (zlen dir - off - zlen (enc r)) with (zlen dir - (off + zlen (enc r))) by lia.
  rewrite IH; [|by apply rest_rec | lia]. do 5 f_equal. lia.
Qed.

Lemma find_zeros z ss : finds_at [] 0 ss -> finds_at [] z ss.
Proof using Hc Hl.
  intros IH fuel off Hr Hf. pose proof (rest_zlen _ _ _ _ _ Hr) as Hz. pose proof (re_z _ _ _ _ _ Hr) as Hz0. pose proof (zlen_nonneg ss).
  change (zlen (recs [])) with 0 in *. destruct (Z.eqb_spec z 0) as [->|Hne]; [by apply IH |].
  destruct fuel as [|fuel]; [lia |]. cbn [iso9660_find]. destruct (Z.eqb_spec (zlen dir - off) 0); [lia |].
  rewrite (rest_zero _ _ _ _ Hr) by lia. cbn [Z.eqb]. change SECTOR_SIZE with 2048.
  destruct (Z.leb_spec (zlen dir - off) 2048); [destruct ss; [done |]; rewrite zlen_cons in *; pose proof (zlen_nonneg ss); lia |].
  assert (zlen dir - off = z + zlen ss * 2048) as Hs by lia.
  assert (iso9660_find fuel ci dir (off + z) (zlen dir - (off + z)) f =
    Ret (first_of (pick ci name (place off [] ++ places (off + 0 + z) ss)))) as Hrest.
  { rewrite IH; [|by apply rest_zeros | lia]. change (zlen (recs [])) with 0. cbn [place app]. do 4 f_equal. lia. }
  unfold ALIGN_DOWN. destruct (decide (z = 2048)) as [->|Hz2].
  - assert ((zlen dir - off) / 2048 = 1 + zlen ss) as -> by (rewrite Hs; symmetry; apply (Z.div_unique _ _ _ 0); lia).
    destruct (Z.eqb_spec (zlen dir - off) ((1 + zlen ss) * 2048)); [|lia]. destruct (Z.leb_spec ((1 + zlen ss) * 2048) 2048); [lia |].
    replace ((1 + zlen ss) * 2048 - 2048) with (zlen dir - (off + 2048)) by lia. exact Hrest.
  - assert ((zlen dir - off) / 2048 = zlen ss) as -> by (rewrite Hs; symmetry; apply (Z.div_unique _ _ _ z); lia).
    destruct (Z.eqb_spec (zlen dir - off) (zlen ss * 2048)); [lia |].
    replace (off + (zlen dir - off - zlen ss * 2048)) with (off + z) by lia. replace (zlen ss * 2048) with (zlen dir - (off + z)) by lia. exact Hrest.
Qed.

Lemma find_spec ss : forall rs z, finds_at rs z ss.
Proof using Hc Hl.
  induction ss as [|s ss IH]; (intros rs z; induction rs as [|r rs IHr]; [apply find_zeros | by apply find_rec]); intros fuel off Hr Hf;
    change (zlen (recs [])) with 0 in *; rewrite !Z.add_0_r.
  - pose proof (rest_zlen _ _ _ _ _ Hr) as Hz. change (zlen (recs [])) with 0 in *. change (zlen (@nil (list rec))) with 0 in Hz.
    replace (zlen dir - off) with 0 by lia. by destruct fuel.
  - rewrite (IH _ _ fuel off (rest_enter _ _ _ _ Hr) Hf). cbn [place app places]. do 5 f_equal. lia.
Qed.
End find.

Lemma dir_rest ss : Forall sector_ok ss -> rest_of (dir_of ss) 0 [] 0 ss.
Proof. intros HF. split; try done. pose proof (zlen_nonneg (dir_of ss)). lia. Qed.

(** * The next record *)

(** Where a record is, and what comes after it. *)
Lemma place_split dir rs : forall off z ss l1 o r l2, rest_of dir off rs z ss -> place off rs = l1 ++ (o, r) :: l2 ->
  exists rs', rest_of dir o (r :: rs') z ss /\ l2 = place (o + zlen (enc r)) rs' /\ o + zlen (enc r) + zlen (recs rs') = off + zlen (recs rs).
Proof.
  induction rs as [|r0 rs IH]; intros off z ss l1 o r l2 Hr He; [by destruct l1 |]. destruct l1 as [|x l1]; cbn [place app] in He.
  - injection He as <- <- <-. exists rs. rewrite recs_cons, zlen_app. split_and!; done || lia.
  - injection He as <- He. destruct (IH _ _ _ _ _ _ _ (rest_rec _ _ _ _ _ _ Hr) He) as (rs' & ? & ? & ?). exists rs'. rewrite recs_cons, zlen_app. split_and!; done || lia.
Qed.
Lemma rest_skip dir rs : forall off z ss, rest_of dir off rs z ss -> rest_of dir (off + zlen (recs rs) + z) [] 0 ss.
Proof.
  induction rs as [|r rs IH]; intros off z ss Hr; [rewrite Z.add_0_r; by apply rest_zeros |].
  rewrite recs_cons, zlen_app, Z.add_assoc. by apply IH, rest_rec.
Qed.
Lemma places_split dir ss : forall off l1 o r l2, rest_of dir off [] 0 ss -> places off ss = l1 ++ (o, r) :: l2 ->
  exists rs' z ss', rest_of dir o (r :: rs') z ss' /\ ss' `suffix_of` ss /\
    l2 = place (o + zlen (enc r)) rs' ++ places (o + zlen (enc r) + zlen (recs rs') + z) ss'.
Proof.
  induction ss as [|s ss IH]; intros off l1 o r l2 Hr He; cbn [places] in He; [by destruct l1 |].
  pose proof (rest_enter _ _ _ _ Hr) as Hin. pose proof (rest_skip _ _ _ _ _ Hin) as Hout.
  replace (off + zlen (recs s) + (2048 - zlen (recs s))) with (off + 2048) in Hout by lia.
  assert (forall l, places (off + 2048) ss = l ++ (o, r) :: l2 -> exists rs' z ss', rest_of dir o (r :: rs') z ss' /\ ss' `suffix_of` s :: ss /\
    l2 = place (o + zlen (enc r)) rs' ++ places (o + zlen (enc r) + zlen (recs rs') + z) ss') as Hlater.
  { intros l Hp. destruct (IH _ _ _ _ _ Hout Hp) as (rs' & z & ss' & H1 & H2 & H3). exists rs', z, ss'. split_and!; [done | by apply suffix_cons_r | done]. }
  apply app_eq_inv in He as [([|x k] & He1 & He2)|(k & He1 & He2)]; [by apply (Hlater []) | | by apply (Hlater k)].
  injection He2 as <- ->. destruct (place_split _ _ _ _ _ _ _ _ _ Hin He1) as (rs' & H1 & -> & H2).
  exists rs', (2048 - zlen (recs s)), ss. split_and!; [done | by apply suffix_cons_r |]. do 2 f_equal. lia.
Qed.

(** [ALIGN_UP] of an address before the end of a sector. *)
Lemma align_sector base o z : 0 <= base -> 0 <= o -> base mod 2048 = 0 -> (o + z) mod 2048 = 0 -> 0 < z <= 2048 -> base + o + 2048 < 2 ^ 64 ->
  ALIGN_UP (base + o + 1) SECTOR_SIZE = Some (base + (o + z)).
Proof.
  intros Hb Ho Hm1 Hm2 Hz Hlt. change SECTOR_SIZE with 2048. unfold ALIGN_UP, DIV_ROUNDUP, CHECKED_ADD.
  rewrite (proj2 (Z.ltb_lt _ _)) by lia. cbn [mbind option_bind]. f_equal.
  apply Z.div_exact in Hm1, Hm2; [|lia..].
  assert ((base + o + 1 + (2048 - 1)) / 2048 = base / 2048 + (o + z) / 2048) as -> by (symmetry; apply (Z.div_unique _ _ _ (2048 - z)); lia).
  rewrite u64_small; lia.
Qed.

Lemma next_spec base ss l1 o r l2 : Forall sector_ok ss -> Forall (fun rs => rs <> []) ss -> 0 <= base -> base mod 2048 = 0 ->
  base + zlen (dir_of ss) + 2048 <= 2 ^ 64 -> places 0 ss = l1 ++ (o, r) :: l2 ->
  iso9660_next_entry base (dir_of ss) o = match l2 with [] => None | (o', _) :: _ => Some o' end.
Proof.
  intros Hok Hne Hb Hbm Hbe He. destruct (places_split _ _ _ _ _ _ _ (dir_rest ss Hok) He) as (rs & z & ss' & Hr & [pre Hsuf] & ->).
  rewrite Hsuf, Forall_app in Hne. destruct Hne as [_ Hne]. set (dir := dir_of ss) in *. clearbody dir. clear He Hok Hsuf l1.
  pose proof (re_recs _ _ _ _ _ Hr) as HF. inversion HF as [|? ? Hrok HF']; subst. pose proof (rec_first r Hrok) as Hlen.
  unfold iso9660_next_entry. rewrite (rest_first _ _ _ _ _ _ Hr). destruct (Z.eqb_spec (zlen (enc r)) 0); [lia |].
  pose proof (re_off _ _ _ _ _ Hr) as Ho. apply rest_rec in Hr. set (p := o + zlen (enc r)) in *. assert (0 <= p) by lia.
  assert (forall q r' rs' z' ss'', rest_of dir q (r' :: rs') z' ss'' -> 0 <= q /\ base + q < base + zlen dir /\ 33 <= dir.[q] /\ dir.[q] <= zlen dir - q) as Hin.
  { intros q r' rs' z' ss'' Hq. pose proof (rest_zlen _ _ _ _ _ Hq) as Hz. rewrite (rest_first _ _ _ _ _ _ Hq). rewrite recs_cons, zlen_app in Hz.
    pose proof (re_off _ _ _ _ _ Hq). pose proof (re_z _ _ _ _ _ Hq). pose proof (zlen_nonneg (recs rs')). pose proof (zlen_nonneg ss'').
    pose proof (re_recs _ _ _ _ _ Hq) as HFq. inversion HFq as [|? ? Hq1 _]; subst. pose proof (rec_first r' Hq1). lia. }
  destruct rs as [|r' rs].
  - change (zlen (recs [])) with 0. cbn [place app]. pose proof (rest_zlen _ _ _ _ _ Hr) as Hz. change (zlen (recs [])) with 0 in Hz.
    pose proof (re_z _ _ _ _ _ Hr) as Hz0. pose proof (re_align _ _ _ _ _ Hr) as Ha. change (zlen (recs [])) with 0 in Ha.
    pose proof (rest_zeros _ _ _ _ Hr) as Hr0. rewrite Z.add_0_r in *. destruct ss' as [|s ss'].
    + change (zlen (@nil (list rec))) with 0 in Hz. cbn [places]. destruct (Z.geb_spec (base + p) (base + zlen dir)); [done |].
      rewrite (rest_zero _ _ _ _ Hr) by lia. cbn [Z.eqb]. rewrite (align_sector base p z) by (done || lia). cbn [mbind option_bind].
      destruct (Z.geb_spec (base + (p + z)) (base + zlen dir)); [done | lia].
    + inversion Hne as [|? ? Hs _]; subst. destruct s as [|r' s]; [done |]. cbn [places place app].
      apply rest_enter in Hr0. destruct (Hin _ _ _ _ _ Hr0) as (? & ? & ? & ?). rewrite zlen_cons in Hz. pose proof (zlen_nonneg ss').
      destruct (Z.geb_spec (base + p) (base + zlen dir)); [lia |].
      assert ((if dir.[p] =? 0 then a ← ALIGN_UP (base + p + 1) SECTOR_SIZE; if a >=? base + zlen dir then None
        else if dir.[a - base] =? 0 then None else Some (a - base) else Some p) = Some (p + z)) as ->.
      { destruct (Z.eqb_spec z 0) as [->|Hz1]; [rewrite Z.add_0_r in *; by rewrite (proj2 (Z.eqb_neq _ _)) by lia |].
        rewrite (rest_zero _ _ _ _ Hr) by lia. cbn [Z.eqb]. rewrite (align_sector base p z) by (done || lia). cbn [mbind option_bind].
        destruct (Z.geb_spec (base + (p + z)) (base + zlen dir)); [lia |]. replace (base + (p + z) - base) with (p + z) by lia.
        by rewrite (proj2 (Z.eqb_neq _ _)) by lia. }
      cbn [mbind option_bind]. unfold sizeof_entry. rewrite (proj2 (Z.ltb_ge _ _)) by lia.
      destruct (Z.gtb_spec dir.[p + z] (zlen dir - (p + z))); [lia | done].
  - destruct (Hin _ _ _ _ _ Hr) as (? & ? & ? & ?). cbn [place app]. destruct (Z.geb_spec (base + p) (base + zlen dir)); [lia |].
    rewrite (proj2 (Z.eqb_neq _ _)) by lia. cbn [mbind option_bind]. unfold sizeof_entry. rewrite (proj2 (Z.ltb_ge _ _)) by lia.
    destruct (Z.gtb_spec dir.[p] (zlen dir - p)); [lia | done].
Qed.
