(* ===== verification/Iso9660Correct.v ===== *)
(** The ISO 9660 driver on a volume: the extents of a file, the walk along a path, opening and
    reading; and that it returns or stops with a message on any other contents. *)

From S2P Require Import Prelude Libc LibcCorrect Guid Part PartCorrect Iso9660 Iso9660Dir.
Import Libc Guid Part Iso9660.

(** * The extents of a file *)

Definition lba (r : rec) : Z := extent_little r.(r_head).
Definition size (r : rec) : Z := extent_size_little r.(r_head).
Definition is_dir (r : rec) : bool := negb (Z.land (flags r.(r_head)) FLAG_DIRECTORY =? 0).
Definition is_multi (r : rec) : bool := negb (Z.land (flags r.(r_head)) FLAG_MULTI_EXTENT =? 0).
Definition ext (r : rec) : iso9660_extent := (lba r, size r).

(** The records of a file from [r] on, when [l] are the ones that follow it: while a record
    announces another extent, the next one belongs to the file if it has the same name [nm];
    [n] more are accepted. *)
Fixpoint run (n : nat) (nm : list Z) (r : rec) (l : list (Z * rec)) : list rec :=
  r :: (if is_multi r then
          match n, l with
          | S n, (_, r') :: l => if bool_decide (nm <> [] /\ text_of (name_of r').1 = nm) then run n nm r' l else []
          | _, _ => []
          end
        else []).
Definition max_more : nat := Z.to_nat (MAX_EXTENT_COUNT - 1).
Lemma max_more_spec : Z.of_nat max_more = MAX_EXTENT_COUNT - 1 /\ Z.of_nat (Z.to_nat MAX_EXTENT_COUNT) = MAX_EXTENT_COUNT.
Proof. unfold max_more. by split; apply Z2Nat.id. Qed.
#[global] Opaque max_more.
Definition file_recs (r : rec) (l : list (Z * rec)) : list rec := run max_more (text_of (name_of r).1) r l.
Definition total (rs : list rec) : Z := foldr (fun r => Z.add (size r)) 0 rs.

Lemma field_app (l k : list Z) off n : 0 <= off -> 0 <= n -> off + n <= zlen l -> field (l ++ k) off n = field l off n.
Proof. intros. unfold field. by rewrite slice_app_l. Qed.

Lemma enc_fields r rest : rec_ok r ->
  extent_little (enc r ++ rest) = lba r /\ extent_size_little (enc r ++ rest) = size r /\ flags (enc r ++ rest) = flags r.(r_head).
Proof.
  intros Hr. pose proof (ro_head r Hr) as Hh. unfold sizeof_entry in Hh. unfold lba, size, extent_little, extent_size_little, flags.
  rewrite enc_head by (done || lia). unfold enc. rewrite <- !app_assoc, !field_app by lia. done.
Qed.
Lemma head_bytes r : rec_ok r -> Forall is_byte r.(r_head).
Proof. intros Hr. pose proof (ro_bytes r Hr) as HF. unfold enc in HF. by apply Forall_app in HF as [? _]. Qed.
Lemma lba_range r : rec_ok r -> 0 <= lba r < 2 ^ 32.
Proof. intros Hr. apply (field_range _ 2 4 (head_bytes r Hr)). lia. Qed.
Lemma size_range r : rec_ok r -> 0 <= size r < 2 ^ 32.
Proof. intros Hr. apply (field_range _ 10 4 (head_bytes r Hr)). lia. Qed.

Lemma run_length n nm r l : (1 <= length (run n nm r l) <= S n)%nat.
Proof.
  revert r l; induction n as [|n IH]; intros r l; cbn [run length]; [destruct (is_multi r); simpl; lia |].
  destruct (is_multi r); [|simpl; lia]. destruct l as [|[o r'] l]; [simpl; lia |]. specialize (IH r' l). case_bool_decide; simpl; lia.
Qed.

Lemma name_differs bn nm r' : Forall is_byte bn -> zlen bn < 256 -> text_of bn = nm -> rec_ok r' ->
  (if name_str bn 0 =? 0 then Ret true else x ← strcmp 256%nat (name_str bn) (name_str (name_of r').1); Ret (negb (x =? 0))) =
  Ret (negb (bool_decide (nm <> [] /\ text_of (name_of r').1 = nm))).
Proof.
  intros HF Hz <- Hr. destruct (name_str_cstr bn HF) as [Hc Hl]. destruct (name_str_cstr _ (name_of_bytes r' Hr)) as [Hc' _].
  pose proof (cstr_head (name_str bn) 0 (text_of bn) (cstr_tail0 _ _ Hc)) as H0. rewrite H0.
  destruct (text_of bn) as [|b l] eqn:E; [by rewrite bool_decide_false by naive_solver |].
  pose proof (cs_bytes _ _ Hc) as Hb. apply Forall_cons in Hb as [Hb _]. rewrite (proj2 (Z.eqb_neq b 0)) by lia.
  destruct (compare_spec false (name_str bn) _ (b :: l) _ 256 Hc Hc') as (x & Hx & He); [unfold zlen in Hz; lia |]. cbn [same] in Hx, He. rewrite Hx.
  cbn [mbind outcome_bind]. rewrite He. unfold same. do 2 f_equal. apply bool_decide_ext. naive_solver.
Qed.

Section extents.
Context (base : Z) (ss : list (list rec)).
Hypothesis Hok : Forall sector_ok ss.
Hypothesis Hne : Forall (fun rs => rs <> []) ss.
Hypothesis Hbase : 0 <= base /\ base mod 2048 = 0 /\ base + zlen (dir_of ss) + 2048 <= 2 ^ 64.

Lemma at_place l1 o r l2 : places 0 ss = l1 ++ (o, r) :: l2 -> rec_ok r /\ exists rest, drop (Z.to_nat o) (dir_of ss) = enc r ++ rest.
Proof using Hok.
  intros He. destruct (places_split _ _ _ _ _ _ _ (dir_rest ss Hok) He) as (rs & z & ss' & Hr & _).
  pose proof (re_recs _ _ _ _ _ Hr) as HF. inversion HF; subst. split; [done |].
  rewrite (rest_drop _ _ _ _ _ Hr), recs_cons, <- app_assoc. by eexists.
Qed.

Lemma all_places_ok : Forall (fun x : Z * rec => rec_ok x.2) (places 0 ss).
Proof using Hok.
  apply Forall_forall. intros [o r] Hx. apply list_elem_of_split in Hx as (l1 & l2 & He). by destruct (at_place _ _ _ _ He).
Qed.

Lemma next_place l1 o r l2 : places 0 ss = l1 ++ (o, r) :: l2 ->
  iso9660_next_entry base (dir_of ss) o = match l2 with [] => None | (o', _) :: _ => Some o' end.
Proof using Hok Hne Hbase. destruct Hbase as (? & ? & ?). by apply next_spec. Qed.

Lemma count_spec n nm bn : Forall is_byte bn -> zlen bn < 256 -> text_of bn = nm -> forall fuel l1 o r l2 cnt tot,
  places 0 ss = l1 ++ (o, r) :: l2 -> (n <= fuel)%nat -> (0 < n)%nat -> cnt + Z.of_nat n = MAX_EXTENT_COUNT ->
  count_extents fuel base (dir_of ss) bn o cnt tot = Ret (cnt + zlen (run n nm r l2) - 1, tot + total (run n nm r l2) - size r).
Proof using Hok Hne Hbase.
  intros HF Hz Hnm. induction n as [|n IH]; intros fuel l1 o r l2 cnt tot He Hf Hn Hcnt; [lia |].
  destruct (at_place _ _ _ _ He) as [Hr [rest Hd]]. destruct (enc_fields r rest Hr) as (_ & _ & Hfl).
  assert (forall x y, cnt + 1 - 1 = x -> tot + (size r + 0) - size r = y -> Ret (cnt, tot) = Ret (x, y)) as Hstop by (intros; do 2 f_equal; lia).
  destruct fuel as [|fuel]; [lia |]. cbn [count_extents]. rewrite Hd, Hfl. cbn [run]. unfold is_multi at 1 2.
  destruct (Z.land (flags (r_head r)) FLAG_MULTI_EXTENT =? 0); cbn [negb]; [by apply Hstop |].
  rewrite (next_place _ _ _ _ He). destruct l2 as [|[o' r'] l2]; [by apply Hstop |].
  assert (places 0 ss = (l1 ++ [(o, r)]) ++ (o', r') :: l2) as He' by by rewrite <- app_assoc.
  destruct (at_place _ _ _ _ He') as [Hr' [rest' Hd']]. rewrite Hd', load_name_spec by done.
  pose proof (name_differs bn nm r' HF Hz Hnm Hr') as Hdiff. destruct (name_of r') as [nm' rr'] eqn:En. cbn [mbind outcome_bind fst] in *.
  rewrite Hdiff. cbn [mbind outcome_bind]. case_bool_decide; cbn [negb]; [|by apply Hstop].
  destruct (enc_fields r' rest' Hr') as (_ & -> & _). cbn [total foldr]. fold (total (run n nm r' l2)). rewrite zlen_cons.
  destruct (Z.geb_spec (cnt + 1) MAX_EXTENT_COUNT) as [Hge|Hlt].
  - assert (n = 0%nat) as -> by lia. cbn [run]. destruct (is_multi r'); cbn [total foldr]; change (zlen [r']) with 1; do 2 f_equal; lia.
  - rewrite (IH fuel _ _ _ _ _ _ He') by lia. do 2 f_equal; lia.
Qed.

Lemma fill_spec n nm : forall l1 o r l2, places 0 ss = l1 ++ (o, r) :: l2 ->
  fill_extents (length (run n nm r l2)) base (dir_of ss) o = ext <$> run n nm r l2.
Proof using Hok Hne Hbase.
  induction n as [|n IH]; intros l1 o r l2 He; destruct (at_place _ _ _ _ He) as [Hr [rest Hd]];
    destruct (enc_fields r rest Hr) as (Hl & Hs & _); cbn [run].
  - assert ((if is_multi r then [] else @nil rec) = []) as -> by by destruct (is_multi r). cbn [length fill_extents fmap list_fmap]. by rewrite Hd, Hl, Hs.
  - destruct (is_multi r); [|cbn [length fill_extents fmap list_fmap]; by rewrite Hd, Hl, Hs].
    destruct l2 as [|[o' r'] l2]; [cbn [length fill_extents fmap list_fmap]; by rewrite Hd, Hl, Hs |].
    case_bool_decide; [|cbn [length fill_extents fmap list_fmap]; by rewrite Hd, Hl, Hs].
    assert (places 0 ss = (l1 ++ [(o, r)]) ++ (o', r') :: l2) as He' by by rewrite <- app_assoc. specialize (IH _ _ _ _ He').
    pose proof (run_length n nm r' l2) as Hlen. cbn [length]. remember (length (run n nm r' l2)) as m eqn:Em. destruct m as [|m]; [lia |].
    cbn [fill_extents] in *. rewrite (next_place _ _ _ _ He). cbn [fmap list_fmap]. f_equal; [by rewrite Hd, Hl, Hs | exact IH].
Qed.

(** Opening the record at [o] finds the extents of all its records. *)
Lemma open_extents_run fuel n c l1 o r l2 :
  (n <= fuel)%nat -> (0 < n)%nat -> 1 + Z.of_nat n = MAX_EXTENT_COUNT -> places 0 ss = l1 ++ (o, r) :: l2 ->
  let rs := run n (text_of (name_of r).1) r l2 in
  open_extents fuel base c (dir_of ss) o = Ret {| context := c; total_size := total rs; extent_count := zlen rs; extents := ext <$> rs |}.
Proof using Hok Hne Hbase.
  intros Hm2 Hm3 Hm1 He. destruct (at_place _ _ _ _ He) as [Hr [rest Hd]]. destruct (enc_fields r rest Hr) as (_ & Hs & _).
  destruct (load_name_total (enc r ++ [])) as (bn & rr & Hl & HF & Hz); [rewrite app_nil_r; apply Hr |].
  rewrite load_name_spec in Hl by done. unfold open_extents. rewrite Hd, load_name_spec by done. injection Hl as Hl. rewrite Hl. cbn [mbind outcome_bind].
  rewrite (count_spec n (text_of bn) bn HF Hz eq_refl _ _ _ _ _ _ _ He Hm2 Hm3 Hm1). cbn [mbind outcome_bind fst]. rewrite Hs.
  pose proof (fill_spec n (text_of bn) _ _ _ _ He) as Hfill. set (rs := run _ _ _ _) in *. clearbody rs. cbv zeta.
  assert (Z.to_nat (1 + zlen rs - 1) = length rs) as -> by (unfold zlen; lia). rewrite Hfill. do 2 f_equal; lia.
Qed.
Lemma open_extents_spec c l1 o r l2 : places 0 ss = l1 ++ (o, r) :: l2 ->
  open_extents (Z.to_nat MAX_EXTENT_COUNT) base c (dir_of ss) o = Ret {| context := c; total_size := total (file_recs r l2);
    extent_count := zlen (file_recs r l2); extents := ext <$> file_recs r l2 |}.
Proof using Hok Hne Hbase.
  unfold file_recs. destruct max_more_spec as [Hm Hm']. generalize dependent max_more. generalize dependent (Z.to_nat MAX_EXTENT_COUNT).
  intros fuel Hf n Hn He. unfold MAX_EXTENT_COUNT in *. eapply open_extents_run; try exact He; unfold MAX_EXTENT_COUNT; lia.
Qed.

End extents.

Section volume.
Context {D : Type} `{BlockDevOk D}.
Implicit Types (d : D) (v : volume).

(** * Reading *)

(** The contents of a file: its extents one after the other. *)
Definition extent_bytes v (e : iso9660_extent) : list Z := load_bytes (vbyte v) (e.1 * 2048) (Z.to_nat e.2).
Definition file_bytes v (l : list iso9660_extent) : list Z := mjoin (extent_bytes v <$> l).
Definition extent_ok v (e : iso9660_extent) : Prop := 0 <= e.1 < 2 ^ 32 /\ 0 <= e.2 < 2 ^ 32 /\ good v (e.1 * 2048 + e.2).

Lemma slice_join (l k : list Z) off n m : 0 <= off <= zlen l -> 0 <= m <= n -> m <= zlen l - off -> (m < n -> m = zlen l - off) ->
  slice (l ++ k) off n = slice l off m ++ slice k (off + m - zlen l) (n - m).
Proof.
  unfold slice, zlen. intros Ho Hm Hm2 Hlt. rewrite drop_app_le, take_app by lia. rewrite length_drop. f_equal.
  - destruct (decide (m < n)); [rewrite !take_ge; [done | rewrite length_drop; lia..] |]. by replace m with n by lia.
  - destruct (decide (m < n)); [|replace (Z.to_nat n - (length l - Z.to_nat off))%nat with 0%nat by lia; by replace (Z.to_nat (n - m)) with 0%nat by lia].
    replace (Z.to_nat (off + m - Z.of_nat (length l))) with 0%nat by lia. rewrite drop_0. f_equal. lia.
Qed.
Lemma slice_none l off n : n <= 0 -> slice l off n = [].
Proof. intros. unfold slice. by replace (Z.to_nat n) with 0%nat by lia. Qed.
Lemma slice_load (m : mem) a n off k : 0 <= off -> 0 <= k -> off + k <= n -> slice (load_bytes m a (Z.to_nat n)) off k = load_bytes m (a + off) (Z.to_nat k).
Proof.
  intros. apply (load_slice m a (Z.to_nat n)); [done | done | lia |]. unfold slice. rewrite drop_0, take_ge; [done |]. rewrite length_load. lia.
Qed.

Lemma read_extents_spec l : forall d v buf p loc count start,
  dev_inv d -> vol_ok v -> Forall is_byte buf -> Forall (extent_ok v) l -> 0 <= p -> 0 <= count -> p + count <= zlen buf ->
  0 <= start -> start + 2 ^ 32 * zlen l <= 2 ^ 64 -> 0 <= loc -> (0 < count -> start <= loc) -> loc + count <= start + zlen (file_bytes v l) \/ count = 0 ->
  keeps v (read_extents l d v buf p loc count start)
    (fun r => r = (take (Z.to_nat p) buf ++ slice (file_bytes v l) (loc - start) count ++ drop (Z.to_nat (p + count)) buf, 0)).
Proof.
  induction l as [|[a n] l IH]; intros d v buf p loc count start Hd Hv HF Hl Hp Hc Hlen Hst Hsum Hloc Hle Hin; cbn [read_extents].
  - assert (count = 0) as -> by (change (zlen (file_bytes v [])) with 0 in Hin; lia). apply keeps_ret; try done.
    rewrite slice_none, Z.add_0_r by lia. cbn [app]. by rewrite take_drop.
  - destruct (Z.gtb_spec count 0) as [Hpos|]; cbn [negb]; [|assert (count = 0) as -> by lia; apply keeps_ret; try done;
      rewrite slice_none, Z.add_0_r by lia; cbn [app]; by rewrite take_drop].
    apply Forall_cons in Hl as [(Ha & Hn & Hg) Hl]. cbn [fst snd] in *. rewrite zlen_cons in Hsum. pose proof (zlen_nonneg l).
    change (file_bytes v ((a, n) :: l)) with (extent_bytes v (a, n) ++ file_bytes v l) in *.
    assert (zlen (extent_bytes v (a, n)) = n) as Hz by (unfold extent_bytes, zlen; rewrite length_load; simpl; lia).
    rewrite zlen_app, Hz in Hin. rewrite u64_small by lia. specialize (Hle Hpos). destruct Hin as [Hin|]; [|lia].
    destruct (Z.ltb_spec loc (start + n)) as [Hlt|Hge].
    + assert ((if loc >? start then loc - start else 0) = loc - start) as -> by (destruct (Z.gtb_spec loc start); lia).
      set (m := if count <? _ then _ else _). assert (0 < m <= count /\ m <= n - (loc - start) /\ (m < count -> m = n - (loc - start))) as (Hm1 & Hm2 & Hm3)
        by (unfold m; destruct (Z.ltb_spec count (n - (loc - start))); lia). clearbody m.
      change SECTOR_SIZE with 2048. pose proof (good_mono v (a * 2048 + (loc - start) + m) _ Hg ltac:(lia)) as Hg'.
      assert (zlen (drop (Z.to_nat p) buf) = zlen buf - p) as Hzd by (unfold zlen in *; rewrite length_drop; lia).
      destruct (volume_read_at d v (drop (Z.to_nat p) buf) (a * 2048 + (loc - start)) m) as (d' & k & rest & ok & -> & Hd' & Hv' & Hzr & HFr & Hok & Hgood);
        try done; try lia; [by apply Forall_drop |]. cbn [mbind outcome_bind]. rewrite (Hgood Hg') in *. cbn [negb].
      specialize (Hok eq_refl (good_in_whole _ _ _ Hg' (Z.le_refl _))). subst rest. clear Hgood. eapply keeps_set.
      assert (zlen (take (Z.to_nat p) buf) = p) as Hzt by (unfold zlen in *; rewrite length_take; lia).
      eapply keeps_impl; [apply IH; try done; try lia |].
      * apply Forall_app. split; [by apply Forall_take | done].
      * rewrite zlen_app, Hzr, Hzd, Hzt. lia.
      * destruct (decide (m < count)); [left; change (file_bytes (set_vc v k) l) with (file_bytes v l); lia | right; lia].
      * intros r ->. f_equal. change (file_bytes (set_vc v k) l) with (file_bytes v l).
        rewrite (slice_join _ _ (loc - start) count m) by (rewrite ?Hz; lia). rewrite Hz.
        unfold extent_bytes. cbn [fst snd]. rewrite slice_load by lia.
        set (got := load_bytes _ _ _). assert (length got = Z.to_nat m) as Hgot by apply length_load.
        rewrite take_app, drop_app. unfold zlen in Hzt. assert (length (take (Z.to_nat p) buf) = Z.to_nat p) as Htl by lia.
        rewrite Htl, (take_ge (take _ _)) by (rewrite Htl; lia). rewrite (drop_ge (take _ _)) by (rewrite Htl; lia). cbn [app].
        replace (Z.to_nat (p + m) - Z.to_nat p)%nat with (length got) by lia. rewrite take_app_length, <- !app_assoc. do 3 f_equal.
        { f_equal; lia. }
        rewrite drop_app, (drop_ge got) by lia. cbn [app]. rewrite !drop_drop. f_equal. lia.
    + eapply keeps_impl; [apply IH; try done; lia |]. intros r ->. do 3 f_equal. unfold slice. rewrite drop_app_ge by (unfold zlen in Hz; lia).
      do 2 f_equal. unfold zlen in Hz. lia.
Qed.

Lemma file_bytes_total v rs : Forall rec_ok rs -> zlen (file_bytes v (ext <$> rs)) = total rs.
Proof.
  induction 1 as [|r rs Hr HF IH]; [done |]. change (file_bytes v (ext <$> r :: rs)) with (extent_bytes v (ext r) ++ file_bytes v (ext <$> rs)).
  rewrite zlen_app, IH. cbn [total foldr]. f_equal. unfold extent_bytes, zlen. rewrite length_load. simpl. pose proof (size_range r Hr). lia.
Qed.

(** * The root directory *)

Definition vsector v (n : Z) : list Z := load_bytes (vbyte v) (n * 2048) 2048.

(** [desc] is the first primary descriptor from the sector [n] on, with at most [k] to look at;
    the sectors are [sec], and [ok x] says that the volume can be read up to [x]. *)
Inductive primary (sec : Z -> list Z) (ok : Z -> Prop) : nat -> Z -> list Z -> Prop :=
| pv_here k n : ok (n * 2048 + 2048) -> (sec n).[0] = VDT_PRIMARY -> primary sec ok (S k) n (sec n)
| pv_next k n desc : ok (n * 2048 + 2048) -> (sec n).[0] <> VDT_PRIMARY -> (sec n).[0] <> VDT_TERMINATOR ->
    primary sec ok k (n + 1) desc -> primary sec ok (S k) n desc.

(** A directory of [size] bytes at the sector [n] of the volume. *)
Definition iso_dir v (n size : Z) (ss : list (list rec)) : Prop :=
  Forall sector_ok ss /\ dir_size_valid size = true /\ good v (n * 2048 + size) /\ load_bytes (vbyte v) (n * 2048) (Z.to_nat size) = dir_of ss.

Definition iso_volume v (ss : list (list rec)) : Prop :=
  good v 0x8006 /\ load_bytes (vbyte v) 0x8001 5 = bytes "CD001" /\
  exists desc, primary (vsector v) (good v) (Z.to_nat MAX_VOLUME_DESCRIPTORS) FIRST_VOLUME_DESCRIPTOR desc /\
    iso_dir v (extent_little (pv_root desc)) (extent_size_little (pv_root desc)) ss.

(** The outcome of an operation that may stop with a message. *)
Definition stops {A} v (o : outcome (D * volume * A)) (Q : A -> Prop) : Prop := o = Panic \/ keeps v o Q.
Lemma stops_panic {A} v (Q : A -> Prop) : stops v Panic Q.
Proof. by left. Qed.
Lemma stops_ret {A} d v (a : A) (Q : A -> Prop) : dev_inv d -> vol_ok v -> Q a -> stops v (Ret (d, v, a)) Q.
Proof. intros. right. by apply keeps_ret. Qed.
Lemma stops_set {A} v k (o : outcome (D * volume * A)) Q : stops (set_vc v k) o Q -> stops v o Q.
Proof. intros [-> | Hk]; [by left | right; by eapply keeps_set]. Qed.
Lemma stops_bind {A B} v (o : outcome (D * volume * A)) (f : D * volume * A -> outcome (D * volume * B)) Q R :
  stops v o Q -> (forall d k a, dev_inv d -> vol_ok (set_vc v k) -> Q a -> stops (set_vc v k) (f (d, set_vc v k, a)) R) ->
  stops v (o ≫= f) R.
Proof. intros [-> | (d' & k' & a & -> & Hd & Hv & Ha)] Hf; [by left |]. simpl. eapply stops_set, Hf; done. Qed.

(** A whole buffer is read, or the read fails. *)
Lemma read_whole d v (n loc : Z) : dev_inv d -> vol_ok v -> 0 <= loc < 2 ^ 63 -> 0 < n < 2 ^ 63 ->
  exists d' k buf ok, volume_read d v (replicate (Z.to_nat n) 0) loc n = Ret (d', set_vc v k, buf, ok) /\ dev_inv d' /\ vol_ok (set_vc v k) /\
    zlen buf = n /\ Forall is_byte buf /\ (good v (loc + n) -> ok = true /\ buf = load_bytes (vbyte v) loc (Z.to_nat n)).
Proof.
  intros Hd Hv Hl Hn. assert (zlen (replicate (Z.to_nat n) 0) = n) as Hz by (unfold zlen; rewrite length_replicate; lia).
  destruct (volume_read_at d v (replicate (Z.to_nat n) 0) loc n) as (d' & k & buf & ok & Hr & Hd' & Hv' & Hzb & HF & Hok & Hgood); try done; try lia.
  { by apply Forall_replicate. }
  exists d', k, buf, ok. split_and!; [done.. | lia | done |]. intros Hg. split; [by apply Hgood |].
  rewrite (Hok (Hgood Hg) (good_in_whole _ _ _ Hg (Z.le_refl _))). by rewrite drop_ge, app_nil_r by (rewrite length_replicate; lia).
Qed.

Lemma dir_size_range n : dir_size_valid n = true -> 0 <= n -> 0 < n <= MAX_DIR_SIZE.
Proof. unfold dir_size_valid. intros Hv Hn. apply negb_true_iff, orb_false_iff in Hv as [[]%orb_false_iff _]. lia. Qed.

Lemma find_PVD_total n : forall d v desc lba, dev_inv d -> vol_ok v -> zlen desc = 2048 -> Forall is_byte desc -> 0 <= lba -> lba + Z.of_nat n <= 2 ^ 32 ->
  stops v (iso9660_find_PVD n d v desc lba) (fun desc => Forall is_byte desc /\ zlen desc = 2048).
Proof.
  induction n as [|n IH]; intros d v desc lba0 Hd Hv Hz HF Hl Hlt; cbn [iso9660_find_PVD]; [apply stops_panic |]. change SECTOR_SIZE with 2048.
  destruct (volume_read_at d v desc (lba0 * 2048) 2048) as (d' & k & desc' & ok & -> & Hd' & Hv' & Hz' & HF' & _); try done; try lia.
  cbn [mbind outcome_bind]. destruct ok; cbn [negb]; [|apply stops_panic]. eapply stops_set.
  destruct (_ =? VDT_PRIMARY); [apply stops_ret; try done; split; [done | lia] |]. destruct (_ =? VDT_TERMINATOR); [apply stops_panic |].
  apply IH; done || lia.
Qed.
Lemma find_PVD_spec v0 n lba0 r : primary (vsector v0) (good v0) n lba0 r -> forall d k desc, dev_inv d -> vol_ok (set_vc v0 k) -> zlen desc = 2048 -> Forall is_byte desc ->
  0 <= lba0 -> lba0 + Z.of_nat n <= 2 ^ 32 -> keeps (set_vc v0 k) (iso9660_find_PVD n d (set_vc v0 k) desc lba0) (fun desc => desc = r /\ Forall is_byte desc).
Proof.
  induction 1 as [n lba0 Hg H1|n lba0 r Hg H1 H2 Hp IH]; intros d k desc Hd Hv Hz HF Hl Hlt; cbn [iso9660_find_PVD]; change SECTOR_SIZE with 2048;
    (destruct (volume_read_at d (set_vc v0 k) desc (lba0 * 2048) 2048) as (d' & k' & desc' & ok & -> & Hd' & Hv' & Hz' & HF' & Hok & Hgood); try done; try lia);
    cbn [mbind outcome_bind]; pose proof (Hgood Hg) as ->; cbn [negb]; specialize (Hok eq_refl (good_in_whole v0 _ _ Hg (Z.le_refl _)));
    rewrite drop_ge, app_nil_r in Hok by (unfold zlen in Hz; lia); change (desc' = vsector v0 lba0) in Hok; subst desc'; eapply keeps_set.
  - rewrite H1. cbn [Z.eqb]. by apply keeps_ret.
  - rewrite (proj2 (Z.eqb_neq _ _) H1), (proj2 (Z.eqb_neq _ _) H2). apply (IH d' k'); try done; lia.
Qed.

Lemma pv_root_range desc : Forall is_byte desc -> 0 <= extent_little (pv_root desc) < 2 ^ 32 /\ 0 <= extent_size_little (pv_root desc) < 2 ^ 32.
Proof. intros HF. pose proof (Forall_slice _ desc 156 sizeof_entry HF) as HF'. split; by apply (field_range _ _ 4 HF'). Qed.

Lemma pvd_start : zlen (replicate (Z.to_nat SECTOR_SIZE) 0) = 2048 /\ Forall is_byte (replicate (Z.to_nat SECTOR_SIZE) 0) /\
  FIRST_VOLUME_DESCRIPTOR + Z.of_nat (Z.to_nat MAX_VOLUME_DESCRIPTORS) <= 2 ^ 32.
Proof. split_and!; [by vm_compute | by apply Forall_replicate | by vm_compute]. Qed.

Lemma cache_root_total d v : dev_inv d -> vol_ok v -> stops v (iso9660_cache_root d v) (fun r => Forall is_byte r.1).
Proof.
  intros Hd Hv. destruct pvd_start as (Hz & HF & Hn). unfold iso9660_cache_root.
  eapply stops_bind; [apply find_PVD_total; done |]. intros d1 k1 pv Hd1 Hv1 [HFp Hzp]. destruct (pv_root_range pv HFp) as [Hr1 Hr2].
  destruct (dir_size_valid _) eqn:Hs; cbn [negb]; [|apply stops_panic]. apply dir_size_range in Hs; [|lia]. unfold MAX_DIR_SIZE in Hs.
  change SECTOR_SIZE with 2048.
  destruct (read_whole d1 (set_vc v k1) (extent_size_little (pv_root pv)) (extent_little (pv_root pv) * 2048))
    as (d2 & k2 & buf & ok & -> & Hd2 & Hv2 & Hzb & HFb & _); try done; try lia. cbn [mbind outcome_bind].
  destruct ok; cbn [negb]; [|apply stops_panic]. eapply stops_set, stops_ret; done.
Qed.
Lemma cache_root_spec d v ss : dev_inv d -> vol_ok v -> iso_volume v ss ->
  keeps v (iso9660_cache_root d v) (fun r => r.1 = dir_of ss).
Proof.
  intros Hd Hv (_ & _ & desc & Hp & Hok & Hs & Hg & Hb). destruct pvd_start as (Hz & HF & Hn). unfold iso9660_cache_root.
  assert (v = set_vc v v.(vc)) as Hvc by by destruct v.
  eapply keeps_bind.
  { rewrite Hvc at 1 2. apply (find_PVD_spec v _ _ desc Hp); try done. by rewrite <- Hvc. }
  intros d1 k1 pv Hd1 Hv1 [-> HFd]. destruct (pv_root_range desc HFd) as [Hr1 Hr2]. pose proof (dir_size_range _ Hs ltac:(lia)) as Hs'.
  rewrite Hs. cbn [negb]. unfold MAX_DIR_SIZE in Hs'. change SECTOR_SIZE with 2048.
  destruct (read_whole d1 (set_vc v k1) (extent_size_little (pv_root desc)) (extent_little (pv_root desc) * 2048))
    as (d2 & k2 & buf & ok & -> & Hd2 & Hv2 & Hzb & HFb & Hgood); try done; try lia. cbn [mbind outcome_bind].
  destruct (Hgood Hg) as [-> ->]. cbn [negb]. eapply keeps_set, keeps_ret; done.
Qed.

(** * Cached root directories *)

(** The cache holds directories, and the volume's own root directory [ss] for the volume at [vol]. *)
Definition ctxs_ok (cs : list iso9660_context) : Prop := Forall (fun c => Forall is_byte c.(root)) cs.
Definition cached_root (vol : Z) (ss : list (list rec)) (cs : list iso9660_context) : Prop :=
  Forall (fun c => c.(Iso9660.vol) = vol -> c.(root) = dir_of ss) cs.

Lemma get_context_total cs d vol v : dev_inv d -> vol_ok v -> ctxs_ok cs ->
  stops v (iso9660_get_context cs d vol v) (fun r => ctxs_ok r.1 /\ Forall is_byte r.2.(root)).
Proof.
  intros Hd Hv Hcs. unfold iso9660_get_context. destruct (list_find _ cs) as [[i c]|] eqn:E.
  - apply list_find_Some in E as (Hi & _ & _). apply stops_ret; try done. split; [done |]. by eapply Forall_lookup_1 in Hcs.
  - eapply stops_bind; [by apply cache_root_total |]. intros d1 k1 [rt n] Hd1 Hv1 Hr. apply stops_ret; try done. split; [by constructor | done].
Qed.
Lemma get_context_spec cs d vol v ss : dev_inv d -> vol_ok v -> iso_volume v ss -> cached_root vol ss cs ->
  keeps v (iso9660_get_context cs d vol v) (fun r => cached_root vol ss r.1 /\ r.2.(root) = dir_of ss).
Proof.
  intros Hd Hv Hi Hcs. unfold iso9660_get_context. destruct (list_find _ cs) as [[i c]|] eqn:E.
  - apply list_find_Some in E as (Hi' & Hvol & _). apply keeps_ret; try done. split; [done |]. eapply Forall_lookup_1 in Hcs; [|exact Hi']. by apply Hcs.
  - eapply keeps_bind; [by eapply cache_root_spec |]. intros d1 k1 [rt n] Hd1 Hv1 Hr. cbn [fst] in Hr. apply keeps_ret; try done.
    split; [by constructor | done].
Qed.

(** * Paths *)

(** A path: components, each with the number of extra slashes before it. *)
Fixpoint path_text (l : list (nat * list Z)) : list Z :=
  match l with
  | [] => []
  | (k, n) :: l => replicate k 47 ++ n ++ match l with [] => [] | _ => 47 :: path_text l end
  end.
Definition comp_ok (n : list Z) : Prop := n <> [] /\ 47 ∉ n /\ (length n <= 254)%nat.

Lemma iso_skip_slashes fuel path i l : cstr (tail path i) l -> (length l <= fuel)%nat ->
  exists k l', l = replicate k 47 ++ l' /\ l' !! 0%nat <> Some 47 /\ skip_slashes fuel path i = Ret (i + Z.of_nat k) /\ cstr (tail path (i + Z.of_nat k)) l'.
Proof.
  revert fuel i. induction l as [|b l IH]; intros fuel i Hs Hf; pose proof (cstr_head _ _ _ Hs) as Hh.
  - exists 0%nat, []. rewrite Z.add_0_r. split_and!; try done. destruct fuel; cbn [skip_slashes]; by rewrite Hh.
  - destruct fuel as [|fuel]; cbn [length] in Hf; [lia |]. cbn [skip_slashes]. rewrite Hh. destruct (Z.eqb_spec b 47) as [->|Hne].
    + apply cstr_next in Hs as (_ & _ & Hs). destruct (IH fuel (i + 1) Hs ltac:(lia)) as (k & l' & -> & H1 & H2 & H3). exists (S k), l'.
      replace (i + Z.of_nat (S k)) with (i + 1 + Z.of_nat k) by lia. done.
    + exists 0%nat, (b :: l). rewrite Z.add_0_r. split_and!; try done. simpl. congruence.
Qed.

Lemma iso_component n : forall path i aux l, cstr (tail path i) l ->
  component n path i aux = Panic \/
  exists nm l', l = nm ++ l' /\ 47 ∉ nm /\ (length nm <= n)%nat /\ (l' = [] \/ l' !! 0%nat = Some 47) /\
    component n path i aux = Ret (aux ++ nm, i + zlen nm) /\ cstr (tail path (i + zlen nm)) l'.
Proof.
  induction n as [|n IH]; intros path i aux l Hs; pose proof (cstr_head _ _ _ Hs) as Hh; cbn [component]; rewrite Hh;
    (destruct l as [|b l]; [right; exists [], []; rewrite (app_nil_r aux), Z.add_0_r; split_and!; [done | set_solver | simpl; lia | by left | done..] |]);
    (destruct (Z.eqb_spec b 47) as [->|Hne]; [right; exists [], (47 :: l); rewrite (app_nil_r aux), Z.add_0_r; split_and!; [done | set_solver | simpl; lia | by right | done..] |]);
    cbn [orb]; pose proof Hs as (_ & Hb & Hs')%cstr_next; rewrite (proj2 (Z.eqb_neq b 0)) by lia; [by left |].
  destruct (IH path (i + 1) (aux ++ [b]) l Hs') as [-> | (nm & l' & -> & H1 & H2 & H3 & -> & H4)]; [by left |].
  right. exists (b :: nm), l'. rewrite zlen_cons, <- app_assoc. replace (i + (1 + zlen nm)) with (i + 1 + zlen nm) by lia.
  split_and!; [done | set_solver | simpl; lia | done..].
Qed.
(** A component that fits is taken whole. *)
Lemma iso_component_fits n nm rest path i : cstr (tail path i) (nm ++ rest) -> 47 ∉ nm -> (length nm <= n)%nat -> rest = [] \/ rest !! 0%nat = Some 47 ->
  forall aux, component n path i aux = Ret (aux ++ nm, i + zlen nm).
Proof.
  revert nm i. induction n as [|n IH]; intros nm i Hs Hnm Hl Hrest aux; pose proof (cstr_head _ _ _ Hs) as Hh; cbn [component]; rewrite Hh;
    (destruct nm as [|b nm]; [rewrite app_nil_r, Z.add_0_r; destruct Hrest as [-> | Hr]; [done | destruct rest; [done | by injection Hr as ->]] |]);
    [simpl in Hl; lia |].
  cbn [app] in Hs |- *. apply cstr_next in Hs as (_ & Hb & Hs). assert (b <> 47) by set_solver.
  rewrite (proj2 (Z.eqb_neq b 47)), (proj2 (Z.eqb_neq b 0)) by lia. cbn [orb]. cbn [length] in Hl.
  rewrite (IH nm) by (done || set_solver || lia). rewrite zlen_cons, <- app_assoc. do 2 f_equal. lia.
Qed.

(** * The walk *)

Lemma path_bytes path i l : cstr (tail path i) l -> forall nm l', l = nm ++ l' -> cstr (name_str nm) nm.
Proof. intros Hs nm l' ->. pose proof (cs_bytes _ _ Hs) as HF. apply Forall_app in HF as [HF _]. by apply cstr_zero_end. Qed.

Definition walked (r : option (list Z * Z)) : Prop :=
  match r with Some (dir, off) => Forall is_byte dir /\ inside dir off | None => True end.

Lemma walk_total ci path fuel : forall d v i l current, dev_inv d -> vol_ok v -> cstr (tail path i) l -> (length l < fuel)%nat ->
  Forall is_byte current -> stops v (walk fuel ci d v path i current) walked.
Proof.
  induction fuel as [|fuel IH]; intros d v i l current Hd Hv Hs Hf HF; [lia |]. cbn [walk].
  destruct (iso_skip_slashes fuel path i l Hs ltac:(lia)) as (k & l1 & -> & _ & -> & Hs1). cbn [mbind outcome_bind].
  set (j := i + Z.of_nat k) in *. clearbody j. destruct (path j =? 0); [by apply stops_ret |].
  destruct (iso_component (Z.to_nat (ROCK_RIDGE_MAX_FILENAME - 1)) path j [] l1 Hs1) as [-> | (nm & l2 & -> & _ & Hlen & Hl2 & -> & Hs2)];
    [apply stops_panic |]. cbn [mbind outcome_bind app]. change (Z.to_nat (ROCK_RIDGE_MAX_FILENAME - 1)) with 254%nat in Hlen.
  destruct (find_total ci current (name_str nm) nm (length current) 0 (zlen current) HF (path_bytes _ _ _ Hs1 nm l2 eq_refl) Hlen) as (r & -> & Hr);
    try done; try (unfold zlen; lia). cbn [mbind outcome_bind]. destruct r as [off|]; [|by apply stops_ret]. specialize (Hr off eq_refl).
  pose proof (Forall_drop _ (Z.to_nat off) _ HF) as HFe. set (entry := drop (Z.to_nat off) current) in *. clearbody entry.
  pose proof (cstr_head _ _ _ Hs2) as Hh. destruct (negb (path _ =? 0) && _); [by apply stops_ret |].
  destruct Hl2 as [-> | Hl2]; [rewrite Hh; cbn [Z.eqb]; apply stops_ret; try done; by split |].
  destruct l2 as [|b l3]; [done |]. injection Hl2 as ->. rewrite Hh. cbn [Z.eqb].
  destruct (dir_size_valid _) eqn:Hv1; cbn [negb]; [|by apply stops_ret]. change SECTOR_SIZE with 2048.
  pose proof (field_range entry 10 4 HFe ltac:(lia)) as H10. pose proof (field_range entry 2 4 HFe ltac:(lia)) as H2.
  fold (extent_size_little entry) in H10. fold (extent_little entry) in H2. apply dir_size_range in Hv1; [|lia]. unfold MAX_DIR_SIZE in Hv1.
  destruct (read_whole d v (extent_size_little entry) (extent_little entry * 2048)) as (d2 & k2 & buf & ok & -> & Hd2 & Hv2 & _ & HFb & _); try done; try lia.
  cbn [mbind outcome_bind]. destruct ok; cbn [negb]; eapply stops_set; [|by apply stops_ret].
  apply cstr_next in Hs2 as (_ & _ & Hs3). apply (IH _ _ _ l3); try done. rewrite !length_app in Hf. cbn [length] in Hf. lia.
Qed.

(** The record a path leads to: [ss'] is the directory it is in, [o] its offset, [l] what
    follows it there. *)
Inductive iso_resolves ci (dirs : Z -> Z -> list (list rec) -> Prop) :
    list (list rec) -> list (nat * list Z) -> list (list rec) -> Z -> rec -> list (Z * rec) -> Prop :=
| iso_file ss k n o r l : comp_ok n -> pick ci n (places 0 ss) = Some (o, r, l) -> iso_resolves ci dirs ss [(k, n)] ss o r l
| iso_sub ss k n o r l ss1 p c ss2 o' r' l' : comp_ok n -> pick ci n (places 0 ss) = Some (o, r, l) -> is_dir r = true ->
    dirs (lba r) (size r) ss1 -> iso_resolves ci dirs ss1 (p :: c) ss2 o' r' l' -> iso_resolves ci dirs ss ((k, n) :: p :: c) ss2 o' r' l'.

Lemma pick_split ci name l o r l2 : pick ci name l = Some (o, r, l2) -> exists l1, l = l1 ++ (o, r) :: l2.
Proof.
  induction l as [|x l IH]; [done |]. cbn [pick]. destruct (matches _ _ _); [intros [= -> ->]; by exists [] |].
  intros Hp. destruct (IH Hp) as [l1 ->]. by exists (x :: l1).
Qed.

Lemma resolved_place ci dirs ss comps ss' o r l : iso_resolves ci dirs ss comps ss' o r l -> exists l1, places 0 ss' = l1 ++ (o, r) :: l.
Proof. induction 1; [by eapply pick_split | done]. Qed.

(** The slashes before the first component do not matter. *)
Lemma skipped ci dirs ss comps ss' o r l : iso_resolves ci dirs ss comps ss' o r l -> forall k l', path_text comps = replicate k 47 ++ l' ->
  l' !! 0%nat <> Some 47 -> exists comps', l' = path_text comps' /\ iso_resolves ci dirs ss comps' ss' o r l.
Proof.
  intros Hres k l' He Hl. assert (forall k0 n rest, comp_ok n -> replicate k0 47 ++ n ++ rest = replicate k 47 ++ l' -> l' = n ++ rest) as Hstrip.
  { intros k0 n rest (Hn & H47 & _) Hx. symmetry. eapply strip_slashes; [exact Hx | | done]. destruct n; [done |]. simpl. set_solver. }
  destruct Hres as [ss k0 n o r l Hn Hp|ss k0 n o r l ss1 p c ss2 o' r' l2 Hn Hp Hd Hdir Hres].
  - exists [(0%nat, n)]. split; [exact (Hstrip _ _ _ Hn He) | by econstructor].
  - exists ((0%nat, n) :: p :: c). split; [exact (Hstrip _ _ _ Hn He) | by econstructor].
Qed.

(** One step of the walk in a well-formed directory. *)
Lemma find_in ci ss n o r l : Forall sector_ok ss -> cstr (name_str n) n -> (length n <= 254)%nat -> pick ci n (places 0 ss) = Some (o, r, l) ->
  iso9660_find (length (dir_of ss)) ci (dir_of ss) 0 (zlen (dir_of ss)) (name_str n) = Ret (Some o).
Proof.
  intros Hok Hc Hl Hp. pose proof (find_spec ci (name_str n) n (dir_of ss) Hc Hl ss [] 0 (length (dir_of ss)) 0 (dir_rest ss Hok)) as Hf.
  rewrite Z.sub_0_r in Hf. rewrite Hf by (unfold zlen; lia). change (0 + zlen (recs []) + 0) with 0. cbn [place app]. by rewrite Hp.
Qed.

Lemma walk_step ci fuel d v path i ss k n rest o r l :
  comp_ok n -> pick ci n (places 0 ss) = Some (o, r, l) -> Forall sector_ok ss -> rest = [] \/ rest !! 0%nat = Some 47 ->
  cstr (tail path i) (replicate k 47 ++ n ++ rest) -> (length (replicate k 47%Z ++ n ++ rest) <= fuel)%nat ->
  exists j, cstr (tail path j) rest /\ walk (S fuel) ci d v path i (dir_of ss) =
    match rest with
    | [] => Ret (d, v, Some (dir_of ss, o))
    | _ =>
        if negb (is_dir r) then Ret (d, v, None)
        else if negb (dir_size_valid (size r)) then Ret (d, v, None)
        else '(d, v, current, ok) ← volume_read d v (replicate (Z.to_nat (size r)) 0) (lba r * SECTOR_SIZE) (size r);
             if negb ok then Ret (d, v, None) else walk fuel ci d v path (j + 1) current
    end.
Proof.
  intros (Hn & H47 & Hlen) Hp Hok Hrest Hs Hf. cbn [walk].
  destruct (iso_skip_slashes fuel path i _ Hs Hf) as (k1 & l1 & He & H1 & -> & Hs1). cbn [mbind outcome_bind].
  destruct n as [|b n]; [done |]. assert (b <> 47) by set_solver.
  assert (l1 = (b :: n) ++ rest) as -> by (eapply strip_slashes; [symmetry; exact He | done | simpl; congruence]).
  set (j := i + Z.of_nat k1) in *. clearbody j. pose proof (cstr_head _ _ _ Hs1) as Hh. pose proof (cs_bytes _ _ Hs1) as Hb.
  cbn [app] in Hh, Hb. apply Forall_cons in Hb as [Hb _]. rewrite Hh, (proj2 (Z.eqb_neq b 0)) by lia.
  rewrite (iso_component_fits _ (b :: n) rest path j Hs1 H47) by done. cbn [mbind outcome_bind app].
  rewrite (find_in ci ss (b :: n) o r l Hok (path_bytes _ _ _ Hs1 _ rest eq_refl) Hlen Hp). cbn [mbind outcome_bind].
  destruct (pick_split _ _ _ _ _ _ Hp) as [l0 Hl0]. destruct (at_place ss Hok _ _ _ _ Hl0) as [Hr [tl ->]].
  destruct (enc_fields r tl Hr) as (-> & -> & ->). fold (is_dir r).
  assert (cstr (tail path (j + zlen (b :: n))) rest) as Hs2.
  { clear -Hs1. revert j Hs1. generalize (b :: n). intros m. induction m as [|c m IH]; intros j Hs1; [by rewrite Z.add_0_r |].
    cbn [app] in Hs1. apply cstr_next in Hs1 as (_ & _ & Hs1). rewrite zlen_cons. replace (j + (1 + zlen m)) with (j + 1 + zlen m) by lia. by apply IH. }
  exists (j + zlen (b :: n)). split; [done |]. pose proof (cstr_head _ _ _ Hs2) as Hh2. unfold is_dir.
  destruct Hrest as [-> | Hrest]; [by rewrite Hh2 |]. destruct rest as [|c rest]; [done |]. injection Hrest as ->. rewrite Hh2.
  cbn [Z.eqb negb andb]. destruct (Z.land (flags (r_head r)) FLAG_DIRECTORY =? 0); done.
Qed.

Lemma walk_resolves ci v0 ss comps ss' o r l : iso_resolves ci (iso_dir v0) ss comps ss' o r l -> forall path fuel d k i,
  dev_inv d -> vol_ok (set_vc v0 k) -> Forall sector_ok ss -> cstr (tail path i) (path_text comps) -> (length (path_text comps) < fuel)%nat ->
  keeps (set_vc v0 k) (walk fuel ci d (set_vc v0 k) path i (dir_of ss)) (fun x => x = Some (dir_of ss', o) /\ Forall sector_ok ss').
Proof.
  induction 1 as [ss k0 n o r l Hn Hp|ss k0 n o r l ss1 p c ss2 o' r' l' Hn Hp Hdir Hd1 Hres IH];
    intros path fuel d k i Hd Hv Hok Hs Hf; (destruct fuel as [|fuel]; [lia |]).
  - cbn [path_text] in *. destruct (walk_step ci fuel d (set_vc v0 k) path i ss k0 n [] o r l) as (j & _ & ->); try done; [by left | lia |].
    by apply keeps_ret.
  - change (path_text ((k0, n) :: p :: c)) with (replicate k0 47 ++ n ++ 47 :: path_text (p :: c)) in *.
    destruct (walk_step ci fuel d (set_vc v0 k) path i ss k0 n (47 :: path_text (p :: c)) o r l) as (j & Hs2 & ->); try done; [by right | lia |].
    rewrite Hdir. cbn [negb]. destruct Hd1 as (Hok1 & Hval & Hg & Hb). rewrite Hval. cbn [negb].
    destruct (pick_split _ _ _ _ _ _ Hp) as [l0 Hl0]. destruct (at_place ss Hok _ _ _ _ Hl0) as [Hr _].
    pose proof (lba_range r Hr). pose proof (size_range r Hr). apply dir_size_range in Hval; [|lia]. unfold MAX_DIR_SIZE in Hval. change SECTOR_SIZE with 2048.
    destruct (read_whole d (set_vc v0 k) (size r) (lba r * 2048)) as (d2 & k2 & buf & ok & -> & Hd2 & Hv2 & _ & _ & Hgood); try done; try lia.
    cbn [mbind outcome_bind]. destruct (Hgood Hg) as [-> Hbuf]. change (load_bytes (vbyte (set_vc v0 k))) with (load_bytes (vbyte v0)) in Hbuf.
    rewrite Hbuf, Hb. cbn [negb]. apply cstr_next in Hs2 as (_ & _ & Hs3). eapply keeps_set. apply (IH path fuel d2 k2); try done.
    rewrite !length_app in Hf. cbn [length] in Hf. lia.
Qed.

(** * Opening *)

Lemma signature_read d v : dev_inv d -> vol_ok v -> exists d' k buf ok,
  volume_read d v (replicate 6 0) (FIRST_VOLUME_DESCRIPTOR * SECTOR_SIZE + 1) 5 = Ret (d', set_vc v k, buf, ok) /\ dev_inv d' /\ vol_ok (set_vc v k) /\
  (exists x, strcmp 5 (fun i => buf.[5 := 0].[i]) (lit "CD001") = Ret x) /\
  (good v 0x8006 -> load_bytes (vbyte v) 0x8001 5 = bytes "CD001" -> ok = true /\ strcmp 5 (fun i => buf.[5 := 0].[i]) (lit "CD001") = Ret 0).
Proof.
  intros Hd Hv. change (FIRST_VOLUME_DESCRIPTOR * SECTOR_SIZE + 1) with 0x8001.
  destruct (volume_read_at d v (replicate 6 0) 0x8001 5) as (d' & k & buf & ok & Hr & Hd' & Hv' & Hz & HF & Hok & Hgood); try done; try (by apply Forall_replicate).
  change (zlen (replicate 6 0)) with 6 in Hz. exists d', k, buf, ok. split_and!; try done.
  - destruct (text_of_cstr buf.[5 := 0] 5) as [Hc Hl].
    + apply Forall_insert; [done | by vm_compute].
    + unfold aset. apply list_lookup_insert_eq. unfold zlen in Hz. lia.
    + destruct (compare_spec false _ (lit "CD001") _ (bytes "CD001") 5 Hc (cstr_lit "CD001" ltac:(by repeat constructor)) Hl) as (x & Hx & _). by exists x.
  - intros Hg Hb. pose proof (Hgood Hg) as ->. split; [done |]. rewrite (Hok eq_refl (good_in_whole v _ _ Hg (Z.le_refl _))).
    change (Z.to_nat 5) with 5%nat. rewrite Hb. by vm_compute.
Qed.

(** Whatever the directory holds, a record in it has its extents counted. *)
Lemma count_total base dir bn : Forall is_byte dir -> 0 <= base -> Forall is_byte bn -> zlen bn < 256 -> forall fuel e cnt tot,
  inside dir e -> MAX_EXTENT_COUNT - cnt <= Z.of_nat fuel -> cnt < MAX_EXTENT_COUNT ->
  exists c t, count_extents fuel base dir bn e cnt tot = Ret (c, t) /\ cnt <= c <= MAX_EXTENT_COUNT.
Proof.
  intros HF Hb HFn Hzn. induction fuel as [|fuel IH]; intros e cnt tot He Hf Hc; [lia |]. cbn [count_extents].
  assert (exists c t, Ret (cnt, tot) = Ret (c, t) /\ cnt <= c <= MAX_EXTENT_COUNT) as Hstop by (exists cnt, tot; split; [done | lia]).
  destruct (_ =? 0); [done |]. destruct (iso9660_next_entry base dir e) as [e'|] eqn:En; [|done].
  pose proof (next_total base dir e e' HF He En Hb) as He'.
  destruct (load_name_total (drop (Z.to_nat e') dir) (Forall_drop _ _ _ HF)) as (n & b & -> & Hn & _). cbn [mbind outcome_bind].
  destruct (name_str_cstr bn HFn) as [Hc1 Hl1]. destruct (name_str_cstr n Hn) as [Hc2 _].
  destruct (compare_spec false _ _ _ _ 256 Hc1 Hc2) as (x & Hx & _); [unfold zlen in Hzn; lia |]. cbn [same] in Hx. rewrite Hx.
  destruct (name_str bn 0 =? 0); cbn [mbind outcome_bind]; [done |]. destruct (negb (x =? 0)); [done |].
  destruct (Z.geb_spec (cnt + 1) MAX_EXTENT_COUNT); [eexists _, _; split; [done | lia] |].
  destruct (IH e' (cnt + 1) (tot + extent_size_little (drop (Z.to_nat e') dir)) He') as (c & t & -> & ?); [lia.. |]. eexists _, _. split; [done | lia].
Qed.
Lemma open_extents_total fuel base c dir off : Forall is_byte dir -> 0 <= base -> inside dir off -> MAX_EXTENT_COUNT <= Z.of_nat fuel ->
  exists f, open_extents fuel base c dir off = Ret f /\ 1 <= f.(extent_count) <= MAX_EXTENT_COUNT.
Proof.
  intros HF Hb Hi Hf. unfold open_extents.
  destruct (load_name_total (drop (Z.to_nat off) dir) (Forall_drop _ _ _ HF)) as (n & b & -> & Hn & Hz). cbn [mbind outcome_bind].
  destruct (count_total base dir n HF Hb Hn Hz fuel off 1 (extent_size_little (drop (Z.to_nat off) dir)) Hi) as (k & t & -> & Hk);
    [lia | done |]. cbn [mbind outcome_bind]. eexists. split; [reflexivity | done].
Qed.

Lemma iso9660_open_total fuel base ci cs d vol v path l :
  dev_inv d -> vol_ok v -> ctxs_ok cs -> cstr path l -> (length l < fuel)%nat -> 0 <= base ->
  stops v (iso9660_open fuel base ci cs d vol v path) (fun r => ctxs_ok r.1).
Proof.
  intros Hd Hv Hcs Hs Hf Hb. unfold iso9660_open.
  destruct (signature_read d v Hd Hv) as (d1 & k1 & buf & ok & -> & Hd1 & Hv1 & (x & Hx) & _). cbn [mbind outcome_bind].
  eapply stops_set. destruct ok; cbn [negb]; [|by apply stops_ret]. rewrite Hx. cbn [mbind outcome_bind].
  destruct (negb (x =? 0)); [by apply stops_ret |]. eapply stops_bind; [by apply get_context_total |].
  intros d2 k2 [cs' c] Hd2 Hv2 [Hcs' Hr]. cbn [fst snd] in Hcs', Hr.
  destruct (iso_skip_slashes fuel path 0 l (cstr_tail0 _ _ Hs) ltac:(lia)) as (k & l' & -> & _ & -> & Hs'). cbn [mbind outcome_bind].
  eapply stops_bind; [apply (walk_total ci path fuel _ _ _ l'); try done; rewrite length_app in Hf; lia |].
  intros d3 k3 [[dir off]|] Hd3 Hv3 Hw; [|by apply stops_ret]. destruct Hw as [HFd Hin]. destruct max_more_spec as [_ Hm].
  destruct (open_extents_total (Z.to_nat MAX_EXTENT_COUNT) base c dir off HFd Hb Hin) as (f & -> & _); [by rewrite Hm |]. by apply stops_ret.
Qed.

Lemma iso9660_open_spec fuel base ci cs d vol v path ss comps ss' o r l :
  dev_inv d -> vol_ok v -> iso_volume v ss -> cached_root vol ss cs -> iso_resolves ci (iso_dir v) ss comps ss' o r l ->
  cstr path (path_text comps) -> (length (path_text comps) < fuel)%nat -> Forall (fun rs => rs <> []) ss' ->
  0 <= base -> base mod 2048 = 0 -> base + zlen (dir_of ss') + 2048 <= 2 ^ 64 ->
  keeps v (iso9660_open fuel base ci cs d vol v path) (fun x => cached_root vol ss x.1 /\
    exists f, x.2 = Some f /\ f.(total_size) = total (file_recs r l) /\ f.(extents) = ext <$> file_recs r l).
Proof.
  intros Hd Hv Hiso Hcs Hres Hs Hf Hne Hb Hbm Hbe. unfold iso9660_open. pose proof Hiso as (Hg & Hsig & desc & _ & Hok & _).
  destruct (signature_read d v Hd Hv) as (d1 & k1 & buf & ok & -> & Hd1 & Hv1 & _ & Hx). destruct (Hx Hg Hsig) as [-> Hcmp]. cbn [mbind outcome_bind negb].
  rewrite Hcmp. cbn [mbind outcome_bind Z.eqb negb]. eapply keeps_set, keeps_bind; [by apply (get_context_spec cs d1 vol (set_vc v k1) ss) |].
  intros d2 k2 [cs' c] Hd2 Hv2 [Hcs' Hr]. cbn [fst snd] in Hcs', Hr. rewrite Hr.
  destruct (iso_skip_slashes fuel path 0 _ (cstr_tail0 _ _ Hs) ltac:(lia)) as (k & l' & He & H1 & -> & Hs'). cbn [mbind outcome_bind].
  destruct (skipped _ _ _ _ _ _ _ _ Hres k l' He H1) as (comps' & Hl' & Hres').
  eapply keeps_bind; [apply (walk_resolves ci v _ comps' _ _ _ _ Hres'); try done; [by rewrite <- Hl' | rewrite <- Hl'; apply (f_equal length) in He; rewrite length_app in He; lia] |].
  intros d3 k3 x Hd3 Hv3 [-> Hok']. destruct (resolved_place _ _ _ _ _ _ _ _ Hres) as [l1 Hl1].
  rewrite (open_extents_spec base ss' Hok' Hne ltac:(done) c _ _ _ _ Hl1). apply keeps_ret; try done. split; [done |]. by eexists.
Qed.

Lemma text_of_full l : length (text_of l) = length l -> text_of l = l.
Proof. induction l as [|b l IH]; [done |]. cbn [text_of]. destruct (b =? 0); [done |]. cbn [length]. intros [= Hl]. by rewrite IH. Qed.
Lemma text_of_length l : (length (text_of l) <= length l)%nat.
Proof. induction l as [|b l IH]; [done |]. cbn [text_of]. destruct (b =? 0); cbn [length]; lia. Qed.

(** A volume without the signature is left to the other drivers. *)
Lemma iso9660_open_other fuel base ci cs d vol v path : dev_inv d -> vol_ok v -> good v 0x8006 -> load_bytes (vbyte v) 0x8001 5 <> bytes "CD001" ->
  keeps v (iso9660_open fuel base ci cs d vol v path) (fun r => r = (cs, None)).
Proof.
  intros Hd Hv Hg Hne. unfold iso9660_open. change (FIRST_VOLUME_DESCRIPTOR * SECTOR_SIZE + 1) with 0x8001.
  destruct (volume_read_at d v (replicate 6 0) 0x8001 5) as (d' & k & buf & ok & -> & Hd' & Hv' & Hz & HF & Hok & Hgood); try done; try (by apply Forall_replicate).
  cbn [mbind outcome_bind]. pose proof (Hgood Hg) as ->. cbn [negb]. specialize (Hok eq_refl (good_in_whole v _ _ Hg (Z.le_refl _))).
  change (drop (Z.to_nat 5) (replicate 6 0)) with [0] in Hok. change (Z.to_nat 5) with 5%nat in Hok. subst buf.
  set (sig := load_bytes (vbyte v) 0x8001 5) in *. assert (length sig = 5%nat) as Hsig by apply length_load. clearbody sig.
  assert ((sig ++ [0]).[5 := 0] = sig ++ [0]) as -> by (destruct sig as [|? [|? [|? [|? [|? [|]]]]]]; simplify_eq/=; done).
  apply Forall_app in HF as [HF _]. destruct (name_str_cstr sig HF) as [Hc Hl]. change (fun i => (sig ++ [0]).[i]) with (name_str sig).
  destruct (compare_spec false (name_str sig) (lit "CD001") _ (bytes "CD001") 5 Hc (cstr_lit "CD001" ltac:(by repeat constructor))) as (x & Hx & He); [lia |].
  cbn [same] in Hx. rewrite Hx. cbn [mbind outcome_bind]. rewrite He. unfold same. rewrite bool_decide_false.
  - cbn [negb]. eapply keeps_set, keeps_ret; done.
  - intros Ht. apply Hne. rewrite <- Ht. symmetry. apply text_of_full. rewrite Ht, Hsig. done.
Qed.

Lemma run_ok n nm r l : rec_ok r -> Forall (fun x : Z * rec => rec_ok x.2) l -> Forall rec_ok (run n nm r l).
Proof.
  revert r l; induction n as [|n IH]; intros r l Hr Hl; cbn [run]; constructor; try done; destruct (is_multi r); try done.
  destruct l as [|[o r'] l]; [done |]. apply Forall_cons in Hl as [Hr' Hl]. case_bool_decide; [by apply IH | done].
Qed.

Lemma iso9660_read_spec f rs d v buf loc count :
  dev_inv d -> vol_ok v -> Forall is_byte buf -> Forall rec_ok rs -> zlen rs <= MAX_EXTENT_COUNT -> f.(extents) = ext <$> rs ->
  Forall (fun r => good v (lba r * 2048 + size r)) rs -> 0 <= loc -> 0 <= count <= zlen buf -> loc + count <= total rs ->
  exists d' k, iso9660_read f d v buf loc count =
      Ret (d', set_vc v k, slice (file_bytes v (ext <$> rs)) loc count ++ drop (Z.to_nat count) buf, count) /\ dev_inv d' /\ vol_ok (set_vc v k).
Proof.
  intros Hd Hv HF Hrs Hn He Hg Hl Hc Hin. unfold iso9660_read. rewrite He. unfold MAX_EXTENT_COUNT in Hn.
  destruct (read_extents_spec (ext <$> rs) d v buf 0 loc count 0) as (d' & k & a & -> & Hd' & Hv' & ->); try done; try lia.
  - apply Forall_fmap. eapply Forall_impl; [apply Forall_and; split; [exact Hrs | exact Hg] |]. intros r [Hr Hgr].
    split; [by apply lba_range |]. split; [by apply size_range | done].
  - unfold zlen in *. rewrite length_fmap. lia.
  - left. rewrite file_bytes_total by done. lia.
  - cbn [mbind outcome_bind]. exists d', k. cbn [Z.gtb Z.compare]. rewrite Z.sub_0_r, Z.add_0_l. done.
Qed.

(** Opening a file by its path and reading it. *)
Lemma iso9660_file_spec fuel base ci cs d vol v path ss comps ss' o r l :
  dev_inv d -> vol_ok v -> iso_volume v ss -> cached_root vol ss cs -> iso_resolves ci (iso_dir v) ss comps ss' o r l ->
  cstr path (path_text comps) -> (length (path_text comps) < fuel)%nat -> Forall (fun rs => rs <> []) ss' ->
  0 <= base -> base mod 2048 = 0 -> base + zlen (dir_of ss') + 2048 <= 2 ^ 64 ->
  Forall (fun r => good v (lba r * 2048 + size r)) (file_recs r l) -> Forall sector_ok ss' ->
  exists d' k cs' f, iso9660_open fuel base ci cs d vol v path = Ret (d', set_vc v k, (cs', Some f)) /\ dev_inv d' /\ vol_ok (set_vc v k) /\
    cached_root vol ss cs' /\ f.(total_size) = total (file_recs r l) /\
    forall d1 k1 buf loc count, dev_inv d1 -> vol_ok (set_vc v k1) -> Forall is_byte buf -> 0 <= loc -> 0 <= count <= zlen buf ->
      loc + count <= f.(total_size) ->
      exists d2 k2, iso9660_read f d1 (set_vc v k1) buf loc count =
          Ret (d2, set_vc v k2, slice (file_bytes v (ext <$> file_recs r l)) loc count ++ drop (Z.to_nat count) buf, count) /\
        dev_inv d2 /\ vol_ok (set_vc v k2).
Proof.
  intros Hd Hv Hi Hcs Hres Hs Hf Hne Hb Hbm Hbe Hg Hok.
  destruct (iso9660_open_spec fuel base ci cs d vol v path ss comps ss' o r l Hd Hv Hi Hcs Hres Hs Hf Hne Hb Hbm Hbe)
    as (d' & k & [cs' f'] & Ho & Hd' & Hv' & Hcs' & f & Hx & Ht & He). cbn [fst snd] in Hcs', Hx. subst f'.
  exists d', k, cs', f. split_and!; try done. intros d1 k1 buf loc count Hd1 Hv1 HF Hl Hc Hin. rewrite Ht in Hin.
  destruct (resolved_place _ _ _ _ _ _ _ _ Hres) as [l1 Hl1]. pose proof (all_places_ok ss' Hok) as Hall. rewrite Hl1 in Hall.
  apply Forall_app in Hall as [_ [Hr Hl2]%Forall_cons].
  apply (iso9660_read_spec f (file_recs r l) d1 (set_vc v k1) buf loc count); try done; [by apply run_ok |].
  destruct max_more_spec as [Hm _]. pose proof (run_length max_more (text_of (name_of r).1) r l). unfold file_recs, zlen. lia.
Qed.

End volume.
