(* ===== verification/Iso9660Files.v ===== *)
(** What the ISO 9660 driver guarantees: directories are searched by Rock Ridge or plain name,
    files of several extents are opened by path and read as one; on any other contents it
    returns or stops with a message. *)

From S2P Require Import Prelude Libc LibcCorrect Guid Part PartCorrect Iso9660 Iso9660Dir Iso9660Correct.
Import Libc Guid Part Iso9660.

(** In a directory whose sectors hold records as ECMA-119 prescribes and zeros after
    them, [iso9660_find] returns the offset of the first record with the name asked for: the
    Rock Ridge name, joined from its fragments, compared exactly unless configured otherwise,
    or the identifier without its version, compared up to case; and NULL if there is none. *)
Theorem iso9660_find_correct ci ss f name :
  Forall sector_ok ss -> cstr f name -> (length name <= 254)%nat ->
  iso9660_find (length (dir_of ss)) ci (dir_of ss) 0 (zlen (dir_of ss)) f = Ret (first_of (pick ci name (places 0 ss))).
Proof.
  intros Hok Hc Hl. pose proof (find_spec ci f name (dir_of ss) Hc Hl ss [] 0 (length (dir_of ss)) 0 (dir_rest ss Hok)) as Hf.
  rewrite Z.sub_0_r in Hf. rewrite Hf by (unfold zlen; lia). done.
Qed.

Section files.
Context {D : Type} `{BlockDevOk D}.
Implicit Types (d : D) (v : volume).

(** C32: whatever a volume holds and whatever the path, [iso9660_open] returns or stops with a
    message, and changes nothing but the caches; a volume without the signature is left to the
    next driver, with the cache of root directories as it was. *)
Theorem iso9660_total fuel base ci cs d vol v path l :
  dev_inv d -> vol_ok v -> ctxs_ok cs -> cstr path l -> (length l < fuel)%nat -> 0 <= base ->
  (iso9660_open fuel base ci cs d vol v path = Panic \/
    exists d' k cs' r, iso9660_open fuel base ci cs d vol v path = Ret (d', set_vc v k, (cs', r)) /\ dev_inv d' /\ vol_ok (set_vc v k) /\ ctxs_ok cs') /\
  (good v 0x8006 -> load_bytes (vbyte v) 0x8001 5 <> bytes "CD001" ->
    exists d' k, iso9660_open fuel base ci cs d vol v path = Ret (d', set_vc v k, (cs, None)) /\ dev_inv d' /\ vol_ok (set_vc v k)).
Proof.
  intros Hd Hv Hcs Hs Hf Hb. split.
  - destruct (iso9660_open_total fuel base ci cs d vol v path l Hd Hv Hcs Hs Hf Hb) as [? | (d' & k & [cs' r] & Ho & Hd' & Hv' & Hc)]; [by left |].
    right. exists d', k, cs', r. done.
  - intros Hg Hne. destruct (iso9660_open_other fuel base ci cs d vol v path Hd Hv Hg Hne) as (d' & k & x & Ho & Hd' & Hv' & ->). by exists d', k.
Qed.

End files.

(** * An example: a volume of 22 sectors *)

Definition ex_rec (lba size flags : Z) (id : list Z) (fields : list susp) : rec :=
  let len := 33 + zlen id + (if Z.even (zlen id) then 1 else 0) + zlen (mjoin (enc_susp <$> fields)) in
  {| r_head := [len; 0] ++ le_bytes 4 lba ++ replicate 4 0 ++ le_bytes 4 size ++ replicate 4 0 ++ replicate 7 0 ++ [flags] ++ replicate 6 0 ++ [zlen id];
     r_id := id; r_pad := 0; r_fields := fields; r_tail := [] |}.
Definition nm_field (flags : Z) (name : string) : susp := {| s_sig := (78, 77); s_data := flags :: bytes name |}.

Definition ex_root_dir : list rec :=
  [ex_rec 17 2048 2 [0] []; ex_rec 17 2048 2 [1] []; ex_rec 18 2048 2 (bytes "BOOT") [nm_field 0 "boot"]].
Definition ex_extent (n size flags : Z) : rec := ex_rec n size flags (bytes "KERNEL.BIN;1") [nm_field 1 "kernel-"; nm_field 0 "image"].
Definition ex_boot_dir : list rec :=
  [ex_rec 18 2048 2 [0] []; ex_rec 17 2048 2 [1] []; ex_rec 21 5 0 (bytes "CONF.TXT;1") []; ex_extent 19 2048 0x80; ex_extent 20 1000 0].
Definition ex_pvd : list Z := [1] ++ bytes "CD001" ++ [1] ++ replicate 149 0 ++ (ex_rec 17 2048 2 [0] []).(r_head).

Definition ex_sectors (n : Z) : list Z :=
  if n =? 16 then ex_pvd else if n =? 17 then sector ex_root_dir else if n =? 18 then sector ex_boot_dir
  else if n =? 19 then replicate 2048 0xaa else if n =? 20 then replicate 2048 0xbb else [].
Definition ex_iso (a : Z) : Z := default 0 (ex_sectors (a / 2048) !! Z.to_nat (a mod 2048)).

Definition byteb (b : Z) : bool := (0 <=? b) && (b <? 256).
Lemma bytes_check l : forallb byteb l = true -> Forall is_byte l.
Proof.
  intros HF. rewrite forallb_forall in HF. apply Forall_forall. intros x Hx. apply list_elem_of_In, HF in Hx. unfold byteb, is_byte in *. lia.
Qed.
Lemma ex_iso_byte a : is_byte (ex_iso a).
Proof.
  unfold ex_iso. destruct (_ !! _) as [b|] eqn:Hb; [|done]. simpl. eapply Forall_lookup_1; [|exact Hb]. unfold ex_sectors.
  repeat (case_if; [apply bytes_check; vm_compute; reflexivity |]). constructor.
Qed.

Definition rec_check (r : rec) : bool :=
  forallb byteb (enc r) && (zlen r.(r_head) =? 33) && (r.(r_head).[0] =? zlen (enc r)) && (r.(r_head).[32] =? zlen r.(r_id)) && (zlen r.(r_tail) <? 4).
Lemma rec_check_ok r : rec_check r = true -> rec_ok r.
Proof. unfold rec_check. rewrite !andb_true_iff. intros [[[[H1 H2] H3] H4] H5]. constructor; [by apply bytes_check | unfold sizeof_entry; lia | lia | lia | left; lia]. Qed.
Lemma sector_check rs : forallb rec_check rs && (zlen (recs rs) <=? 2048) = true -> sector_ok rs.
Proof.
  rewrite andb_true_iff, forallb_forall. intros [HF Hl]. split; [|lia]. apply Forall_forall. intros x Hx. apply rec_check_ok, HF. by apply list_elem_of_In.
Qed.

Definition ex_volume : volume := fill zero_volume
  {| efi_handle := 0; block_io := 0; drive := 0xe0; fastest_xfer_size := 4; index := 1; is_optical := true; pxe := false;
     partition := 0; sector_size := 512; backing_dev := None; max_partition := -1; vc := zero_volume.(vc);
     first_sect := 0; sect_count := 0; guid_valid := false; vguid := []; part_guid_valid := false;
     part_guid := []; fslabel_valid := false; fslabel := fun _ => 0 |} None 0 0 88.
Definition ex_iso_dev : BlockDev unit := ram_dev ex_iso.
Definition ex_iso_ok : @BlockDevOk unit ex_iso_dev := ram_dev_ok ex_iso ex_iso_byte.

Lemma iso_volume_ok : @vol_ok unit ex_iso_dev ex_iso_ok ex_volume.
Proof. split; [|by split]. constructor; simpl; unfold bsize, UINT64_MAX; simpl; try done; try lia. exists 1. lia. Qed.
Lemma iso_good x : x <= 45056 -> @good unit ex_iso_dev ex_iso_ok ex_volume x.
Proof. intros Hx. split; [by split |]. split; [done |]. exact Hx. Qed.
Lemma iso_root_ok : Forall sector_ok [ex_root_dir].
Proof. apply Forall_singleton, sector_check. vm_compute. reflexivity. Qed.
Lemma iso_boot_ok : Forall sector_ok [ex_boot_dir].
Proof. apply Forall_singleton, sector_check. vm_compute. reflexivity. Qed.

Lemma ex_iso_volume : @iso_volume unit ex_iso_dev ex_iso_ok ex_volume [ex_root_dir].
Proof.
  split; [by apply iso_good |]. split; [vm_compute; reflexivity |]. eexists. split.
  - apply (pv_here _ _ 255 16); [by apply iso_good | vm_compute; reflexivity].
  - split; [exact iso_root_ok |]. split; [vm_compute; reflexivity |]. split; [apply iso_good; vm_compute; discriminate | vm_compute; reflexivity].
Qed.

Lemma ex_pick : pick false (bytes "kernel-image") (places 0 [ex_boot_dir]) = Some (112, ex_extent 19 2048 0x80, [(180, ex_extent 20 1000 0)]).
Proof. vm_compute. reflexivity. Qed.
Lemma ex_iso_resolves : iso_resolves false (@iso_dir unit ex_iso_dev ex_iso_ok ex_volume) [ex_root_dir] [(1%nat, bytes "boot"); (0%nat, bytes "kernel-image")]
  [ex_boot_dir] 112 (ex_extent 19 2048 0x80) [(180, ex_extent 20 1000 0)].
Proof.
  eapply (iso_sub _ _ _ _ _ 68 (ex_rec 18 2048 2 (bytes "BOOT") [nm_field 0 "boot"]) []).
  - split; [done |]. split; [by vm_compute; set_solver | vm_compute; lia].
  - vm_compute. reflexivity.
  - vm_compute. reflexivity.
  - split; [exact iso_boot_ok |]. split; [vm_compute; reflexivity |]. split; [apply iso_good; vm_compute; discriminate | vm_compute; reflexivity].
  - apply iso_file; [|exact ex_pick]. split; [done |]. split; [vm_compute; set_solver | vm_compute; lia].
Qed.
Lemma ex_file_recs : file_recs (ex_extent 19 2048 0x80) [(180, ex_extent 20 1000 0)] = [ex_extent 19 2048 0x80; ex_extent 20 1000 0].
Proof.
  unfold file_recs. destruct max_more_spec as [Hm _]. destruct max_more as [|n]; [done |]. clear Hm.
  assert (text_of (name_of (ex_extent 19 2048 0x80)).1 = bytes "kernel-image") as -> by (vm_compute; reflexivity).
  cbn [run]. assert (is_multi (ex_extent 19 2048 0x80) = true) as -> by (vm_compute; reflexivity).
  rewrite bool_decide_true by (split; [done | vm_compute; reflexivity]).
  assert (is_multi (ex_extent 20 1000 0) = false) as Hn by (vm_compute; reflexivity). destruct n; cbn [run]; by rewrite Hn.
Qed.

Lemma iso9660_find_correct_witness :
  iso9660_find 2048 false (dir_of [ex_boot_dir]) 0 2048 (text "Conf.txt") = Ret (Some 68).
Proof.
  assert (length (dir_of [ex_boot_dir]) = 2048%nat) as Hl by (vm_compute; reflexivity).
  pose proof (iso9660_find_correct false [ex_boot_dir] (text "Conf.txt") (bytes "Conf.txt") iso_boot_ok (text_cstr "Conf.txt" eq_refl) ltac:(vm_compute; lia)) as Hf.
  unfold zlen in Hf. rewrite Hl in Hf. etransitivity; [exact Hf |]. vm_compute. reflexivity.
Defined.

Lemma iso9660_total_witness :
  exists d' k, @iso9660_open unit (ram_dev (fun _ => 0)) 30 0x100000 true [] tt 7 ex_volume (text "/limine.conf") = Ret (d', set_vc ex_volume k, ([], None)).
Proof.
  assert (forall a : Z, is_byte ((fun _ => 0) a)) as H0 by done.
  destruct (@iso9660_total unit (ram_dev (fun _ => 0)) (ram_dev_ok (fun _ => 0) H0) 30 0x100000 true [] tt 7 ex_volume (text "/limine.conf") (bytes "/limine.conf"))
    as [_ Hother].
  - done.
  - split; [|by split]. constructor; simpl; unfold bsize, UINT64_MAX; simpl; try done; try lia. exists 1. lia.
  - constructor.
  - exact (text_cstr "/limine.conf" eq_refl).
  - vm_compute. lia.
  - lia.
  - destruct Hother as (d' & k & Ho & _); [split; [by split |]; by split | vm_compute; discriminate |]. exists d', k. exact Ho.
Defined.
