(* ===== verification/Fat32.v ===== *)
(** The FAT driver, [common/fs/fat32.s2.c]: the boot parameter block, the file allocation
    table, cluster chains, directories with long and short names, paths.

    [struct fat32_context]'s [part] is the volume, which is passed along with the driver [d],
    since reading it changes its cache. Memory for chains and directories is a list: the
    allocations and releases are not modelled. A C string is a function from an index to a
    byte. *)

From S2P Require Import Prelude Libc Guid Part.
Import Libc Guid Part.

Module Fat32.

Definition LFN_MAX_ENTRIES : Z := 20.
Definition LFN_MAX_FILENAME_LENGTH : Z := LFN_MAX_ENTRIES * 13 + 1.
Definition ATTRIBUTE_SUBDIRECTORY : Z := 0x10.
Definition LFN_ATTRIBUTE : Z := 0x0F.
Definition ATTRIBUTE_VOLLABEL : Z := 0x08.

Definition UINT32_MAX : Z := 2 ^ 32 - 1.
(** [CHECKED_ADD] of two 32-bit operands. *)
Definition CHECKED_ADD32 (a b : Z) : option Z := if a + b <? 2 ^ 32 then Some (a + b) else None.

Record fat32_context := {
  type : Z; label : option (list Z); bytes_per_sector : Z; sectors_per_cluster : Z; reserved_sectors : Z;
  number_of_fats : Z; hidden_sectors : Z; sectors_per_fat : Z; fat_start_lba : Z; data_start_lba : Z;
  root_directory_cluster : Z; root_entries : Z; root_start : Z; root_size : Z }.

Record fat32_file_handle := {
  context : fat32_context; first_cluster : Z; size_bytes : Z; cluster_chain : list Z; chain_len : Z }.

(** * The boot parameter block: 512 bytes *)

Definition sizeof_bpb : Z := 512.
Definition bpb_bytes_per_sector (b : list Z) : Z := field b 11 2.
Definition bpb_sectors_per_cluster (b : list Z) : Z := field b 13 1.
Definition bpb_reserved_sectors (b : list Z) : Z := field b 14 2.
Definition fats_count (b : list Z) : Z := field b 16 1.
Definition root_entries_count (b : list Z) : Z := field b 17 2.
Definition sectors_count_16 (b : list Z) : Z := field b 19 2.
Definition sectors_per_fat_16 (b : list Z) : Z := field b 22 2.
Definition hidden_sectors_count (b : list Z) : Z := field b 28 4.
Definition sectors_count_32 (b : list Z) : Z := field b 32 4.
Definition sectors_per_fat_32 (b : list Z) : Z := field b 36 4.
Definition bpb_root_directory_cluster (b : list Z) : Z := field b 44 4.

Definition signature_valid (b : list Z) : bool :=
  (strncmp (fun i => b.[0x36 + i]) (lit "FAT") 3 =? 0)
  || (strncmp (fun i => b.[0x52 + i]) (lit "FAT") 3 =? 0)
  || (strncmp (fun i => b.[0x03 + i]) (lit "FAT32") 5 =? 0).

(** The type by the number of clusters, "from the FAT spec at paragraph 3.5". *)
Definition type_of (clusters_count : Z) : Z :=
  if clusters_count <? 4085 then 12 else if clusters_count <? 65525 then 16 else 32.

(** The checks of [fat32_init_context] and the fields it fills in; [None] is [return 1]. *)
Definition make_context (b : list Z) : option fat32_context :=
  let bps := bpb_bytes_per_sector b in
  let spc := bpb_sectors_per_cluster b in
  if negb (signature_valid b) then None
  else if negb (existsb (Z.eqb spc) [1; 2; 4; 8; 16; 32; 64; 128]) then None
  else if negb (existsb (Z.eqb bps) [512; 1024; 2048; 4096]) then None
  else if (fats_count b =? 0) || (fats_count b >? 4) then None
  else if bpb_reserved_sectors b =? 0 then None
  else
    let root_dir_sects := (root_entries_count b * 32 + (bps - 1)) / bps in
    let total_sects := if negb (sectors_count_16 b =? 0) then sectors_count_16 b else sectors_count_32 b in
    let sects_per_fat := if negb (sectors_per_fat_16 b =? 0) then sectors_per_fat_16 b else sectors_per_fat_32 b in
    let metadata_sects := bpb_reserved_sectors b + fats_count b * sects_per_fat + root_dir_sects in
    if metadata_sects >=? total_sects then None
    else
      let data_sects := total_sects - metadata_sects in
      let t := type_of (data_sects / spc) in
      let spf := if t =? 32 then sectors_per_fat_32 b else sectors_per_fat_16 b in
      if spf =? 0 then None
      else if negb (t =? 32) && (root_entries_count b =? 0) then None
      else
        let root_start_64 := bpb_reserved_sectors b + fats_count b * spf in
        if root_start_64 >? UINT32_MAX then None
        else
          size ← DIV_ROUNDUP (root_entries_count b * 32) bps;
          data ← (if t =? 32 then Some root_start_64 else CHECKED_ADD32 root_start_64 (u32 size));
          Some {| type := t; label := None; bytes_per_sector := bps; sectors_per_cluster := spc;
                  reserved_sectors := bpb_reserved_sectors b; number_of_fats := fats_count b;
                  hidden_sectors := hidden_sectors_count b; sectors_per_fat := spf;
                  fat_start_lba := bpb_reserved_sectors b; data_start_lba := data;
                  root_directory_cluster := bpb_root_directory_cluster b; root_entries := root_entries_count b;
                  root_start := root_start_64; root_size := u32 size |}.

Definition with_label (c : fat32_context) (l : option (list Z)) : fat32_context :=
  {| type := c.(type); label := l; bytes_per_sector := c.(bytes_per_sector); sectors_per_cluster := c.(sectors_per_cluster);
     reserved_sectors := c.(reserved_sectors); number_of_fats := c.(number_of_fats); hidden_sectors := c.(hidden_sectors);
     sectors_per_fat := c.(sectors_per_fat); fat_start_lba := c.(fat_start_lba); data_start_lba := c.(data_start_lba);
     root_directory_cluster := c.(root_directory_cluster); root_entries := c.(root_entries);
     root_start := c.(root_start); root_size := c.(root_size) |}.

(** * Directory entries: 32 bytes *)

Definition sizeof_entry : Z := 32.
Definition file_name_and_ext (e : list Z) : list Z := slice e 0 11.
Definition attribute (e : list Z) : Z := field e 11 1.
Definition cluster_num_high (e : list Z) : Z := field e 20 2.
Definition cluster_num_low (e : list Z) : Z := field e 26 2.
Definition file_size_bytes (e : list Z) : Z := field e 28 4.
Definition sequence_number (e : list Z) : Z := field e 0 1.
Definition name1 (e : list Z) : list Z := slice e 1 10.
Definition name2 (e : list Z) : list Z := slice e 14 12.
Definition name3 (e : list Z) : list Z := slice e 28 4.

(** * Names *)

(** [source] is UCS-2: every second byte is taken. *)
Definition fat32_lfncpy (destination : list Z) (dest_offset : Z) (source : list Z) (size : nat) : list Z :=
  for_up size 0 (fun i l => if dest_offset + i >=? zlen l then l else l.[dest_offset + i := source.[i * 2]]) destination.

Fixpoint to_8_3_loop (fuel : nat) (src : Z -> Z) (dest : list Z) (i j : Z) (ext : bool) : outcome (list Z * bool) :=
  if src i =? 0 then Ret (dest, true)
  else match fuel with
  | O => Diverge
  | S fuel =>
      if src i =? 46 then
        if ext then Ret (dest, false) else to_8_3_loop fuel src dest (i + 1) 8 true
      else if (j >=? 8 + 3) || ((j >=? 8) && negb ext) then Ret (dest, false)
      else to_8_3_loop fuel src dest.[j := toupper (src i)] (i + 1) (j + 1) ext
  end.
(** Eleven characters and one dot at most are taken: 13 iterations are enough. *)
Definition fat32_filename_to_8_3 (src : Z -> Z) : outcome (list Z * bool) :=
  to_8_3_loop 13 src (replicate 11 32) 0 0 false.

(** "remove trailing spaces": of a label from [r[n - 1]] down, of a long name from
    [l[n - 1]] down. *)
Fixpoint trim_label (n : nat) (r : list Z) : list Z :=
  match n with
  | O => r
  | S n => if r.[Z.of_nat n] =? 32 then trim_label n r.[Z.of_nat n := 0] else r
  end.
Fixpoint trim_lfn (n : nat) (l : list Z) : list Z :=
  match n with
  | O => l.[0 := 0]
  | S k => if negb (l.[Z.of_nat k] =? 32) then l.[Z.of_nat n := 0] else trim_lfn k l
  end.

(** The treatment of an entry of a long name: go on with the next entry, or compare the name. *)
Inductive lfn_result :=
| Continue (current_lfn : list Z) (lfn_expected : Z)
| Compare (current_lfn : list Z) (lfn_expected : Z).

Definition lfn_step (e current_lfn : list Z) (lfn_expected : Z) : lfn_result :=
  if e.[0] =? 0xE5 then Continue current_lfn 0
  else
    let seq_num := Z.land (sequence_number e) 0x1f in
    let '(current_lfn, lfn_expected) :=
      if Z.testbit (sequence_number e) 6
      then (replicate (Z.to_nat LFN_MAX_FILENAME_LENGTH) 32, seq_num) else (current_lfn, lfn_expected) in
    if (seq_num =? 0) || negb (seq_num =? lfn_expected) then Continue current_lfn 0
    else
      let lfn_index := (seq_num - 1) * 13 in
      if lfn_index >=? LFN_MAX_ENTRIES * 13 then Continue current_lfn 0
      else
        let current_lfn := fat32_lfncpy current_lfn (lfn_index + 0) (name1 e) 5 in
        let current_lfn := fat32_lfncpy current_lfn (lfn_index + 5) (name2 e) 6 in
        let current_lfn := fat32_lfncpy current_lfn (lfn_index + 11) (name3 e) 2 in
        if negb (seq_num =? 1) then Continue current_lfn (lfn_expected - 1)
        else Compare (trim_lfn 260 current_lfn) (lfn_expected - 1).

(** What [fat32_open_in] stores through [file]: the label, when no name is given, or an entry. *)
Inductive found := Label (r : list Z) | Entry (e : list Z).

(** The loop over the [total] entries of a directory; [case_insensitive] is the global
    [case_insensitive_fopen]. The long name is terminated within its 261 bytes, which bounds
    the comparison. *)
Fixpoint dir_loop (n : nat) (i total : Z) (case_insensitive : bool) (directory_entries : list Z)
    (name : option (Z -> Z)) (current_lfn : list Z) (lfn_expected : Z) : outcome (option found) :=
  match n with
  | O => Ret None
  | S n =>
      let entry i := slice directory_entries (i * sizeof_entry) sizeof_entry in
      let e := entry i in
      let next l x := dir_loop n (i + 1) total case_insensitive directory_entries name l x in
      let sfn name l x :=
        if Z.testbit (attribute e) 3 then next l x
        else
          '(fn, ok) ← fat32_filename_to_8_3 name;
          if negb ok then next l x
          else if strncmp (fun k => (file_name_and_ext e).[k]) (fun k => fn.[k]) 11 =? 0 then Ret (Some (Entry e))
          else next l x in
      if e.[0] =? 0 then Ret None
      else match name with
      | None =>
          if negb (attribute e =? ATTRIBUTE_VOLLABEL) then next current_lfn lfn_expected
          else Ret (Some (Label (trim_label 11 (blit (replicate 12 0) 0 (file_name_and_ext e)))))
      | Some name =>
          if attribute e =? LFN_ATTRIBUTE then
            match lfn_step e current_lfn lfn_expected with
            | Continue l x => next l x
            | Compare l x =>
                r ← (if case_insensitive then strcasecmp else strcmp) 261%nat (fun k => l.[k]) name;
                if r =? 0 then
                  if i + 1 >=? total then Ret None
                  else
                    let sfn_entry := entry (i + 1) in
                    if (sfn_entry.[0] =? 0) || (sfn_entry.[0] =? 0xE5) || (attribute sfn_entry =? LFN_ATTRIBUTE)
                    then Ret None else Ret (Some (Entry sfn_entry))
                else sfn name l x
            end
          else sfn name current_lfn lfn_expected
      end
  end.

(** * Chains of clusters *)

Definition cluster_limit (c : fat32_context) : Z :=
  Z.lor (Z.lor (if c.(type) =? 12 then 0xfef else 0) (if c.(type) =? 16 then 0xffef else 0))
    (if c.(type) =? 32 then 0xfffffef else 0).
Definition MAX_CHAIN_LENGTH : Z := 64 * 1024 * 1024 / 4.

(** [2, cluster_limit] are the clusters of files: the loops stop at any other number. *)
Definition in_chain (c : fat32_context) (cluster : Z) : bool := negb ((cluster <? 2) || (cluster >? cluster_limit c)).

Section fat32.
Context {D : Type} `{!BlockDev D}.

(** [None] is -1. The type is 12, 16 or 32: anything else is [__builtin_unreachable]. *)
Definition read_cluster_from_map (c : fat32_context) (d : D) (v : volume) (cluster : Z) : outcome (D * volume * option Z) :=
  let fat_base := c.(fat_start_lba) * c.(bytes_per_sector) in
  let fat_size := c.(sectors_per_fat) * c.(bytes_per_sector) in
  if c.(type) =? 12 then
    let offset := cluster + cluster / 2 in
    if offset + 2 >? fat_size then Ret (d, v, None)
    else
      '(d, v, tmp, ok) ← volume_read d v (replicate 2 0) (fat_base + offset) 2;
      if negb ok then Ret (d, v, None)
      else Ret (d, v, Some (if cluster mod 2 =? 0 then Z.land (of_le tmp) 0xfff else Z.shiftr (of_le tmp) 4))
  else if c.(type) =? 16 then
    let offset := cluster * 2 in
    if offset + 2 >? fat_size then Ret (d, v, None)
    else
      '(d, v, out, ok) ← volume_read d v (replicate 4 0) (fat_base + offset) 2;
      if negb ok then Ret (d, v, None) else Ret (d, v, Some (of_le out))
  else if c.(type) =? 32 then
    let offset := cluster * 4 in
    if offset + 4 >? fat_size then Ret (d, v, None)
    else
      '(d, v, out, ok) ← volume_read d v (le_bytes 4 cluster) (fat_base + offset) 4;
      if negb ok then Ret (d, v, None) else Ret (d, v, Some (Z.land (of_le out) 0x0fffffff))
  else Panic.

(** The first loop of [cache_cluster_chain]: [n] iterations are left; the length it ends with. *)
Fixpoint count_chain (n : nat) (c : fat32_context) (d : D) (v : volume) (cluster chain_length : Z)
    : outcome (D * volume * option Z) :=
  match n with
  | O => Ret (d, v, Some chain_length)
  | S n =>
      '(d, v, out) ← read_cluster_from_map c d v cluster;
      match out with
      | None => Ret (d, v, None)
      | Some cluster =>
          if negb (in_chain c cluster) then Ret (d, v, Some chain_length)
          else count_chain n c d v cluster (chain_length + 1)
      end
  end.
(** The second: the clusters from [cluster] on. *)
Fixpoint fill_chain (n : nat) (c : fat32_context) (d : D) (v : volume) (cluster : Z) : outcome (D * volume * option (list Z)) :=
  match n with
  | O => Ret (d, v, Some [])
  | S n =>
      '(d, v, out) ← read_cluster_from_map c d v cluster;
      match out with
      | None => Ret (d, v, None)
      | Some next =>
          '(d, v, l) ← fill_chain n c d v next;
          Ret (d, v, match l with Some l => Some (cluster :: l) | None => None end)
      end
  end.

(** [None] is NULL; the length of the list is [*_chain_length]. *)
Definition cache_cluster_chain (c : fat32_context) (d : D) (v : volume) (initial_cluster : Z)
    : outcome (D * volume * option (list Z)) :=
  if negb (in_chain c initial_cluster) then Ret (d, v, None)
  else
    let max_clusters := cluster_limit c - 1 in
    let max_clusters := if max_clusters >? MAX_CHAIN_LENGTH then MAX_CHAIN_LENGTH else max_clusters in
    '(d, v, len) ← count_chain (Z.to_nat max_clusters) c d v initial_cluster 1;
    match len with
    | None => Ret (d, v, None)
    | Some chain_length =>
        if chain_length >? max_clusters then Ret (d, v, None)
        else fill_chain (Z.to_nat chain_length) c d v initial_cluster
    end.

(** [buf + progress] is what is left of the buffer. Every iteration reads at least a byte. *)
Fixpoint chain_loop (fuel : nat) (c : fat32_context) (d : D) (v : volume) (chain buf : list Z)
    (chain_len loc count block_size progress : Z) : outcome (D * volume * list Z * bool) :=
  if progress <? count then
    match fuel with
    | O => Diverge
    | S fuel =>
        if block_size =? 0 then Panic
        else
          let block := u64 (loc + progress) / block_size in
          if block >=? chain_len then Ret (d, v, buf, false)
          else
            let cluster := chain.[block] in
            if cluster <? 2 then Ret (d, v, buf, false)
            else
              let chunk := count - progress in
              let offset := u64 (loc + progress) mod block_size in
              let chunk := if chunk >? block_size - offset then block_size - offset else chunk in
              let base := (c.(data_start_lba) + (cluster - 2) * c.(sectors_per_cluster)) * c.(bytes_per_sector) in
              '(d, v, rest, ok) ← volume_read d v (drop (Z.to_nat progress) buf) (base + offset) chunk;
              let buf := take (Z.to_nat progress) buf ++ rest in
              if negb ok then Ret (d, v, buf, false)
              else chain_loop fuel c d v chain buf chain_len loc count block_size (progress + chunk)
    end
  else Ret (d, v, buf, true).
Definition read_cluster_chain (c : fat32_context) (d : D) (v : volume) (cluster_chain : list Z) (chain_len : Z)
    (buf : list Z) (loc count : Z) : outcome (D * volume * list Z * bool) :=
  chain_loop (Z.to_nat count) c d v cluster_chain buf chain_len loc count
    (c.(sectors_per_cluster) * c.(bytes_per_sector)) 0.

(** * Directories *)

(** [directory] is the pair of [cluster_num_low] and [cluster_num_high], or NULL for the root
    directory of FAT12 and FAT16. [None] is the error. A product too large for a 32-bit
    [size_t] is an error too, as it is above 256 MiB. *)
Definition read_directory (c : fat32_context) (d : D) (v : volume) (directory : option (Z * Z))
    : outcome (D * volume * option (list Z)) :=
  let block_size := c.(sectors_per_cluster) * c.(bytes_per_sector) in
  match directory with
  | Some (low, high) =>
      let current_cluster_number := if c.(type) =? 32 then Z.lor low (Z.shiftl high 16) else low in
      '(d, v, chain) ← cache_cluster_chain c d v current_cluster_number;
      match chain with
      | None => Ret (d, v, None)
      | Some chain =>
          match CHECKED_MUL (zlen chain) block_size with
          | None => Ret (d, v, None)
          | Some alloc_size =>
              if alloc_size >? 256 * 1024 * 1024 then Ret (d, v, None)
              else
                '(d, v, entries, ok) ← read_cluster_chain c d v chain (zlen chain) (replicate (Z.to_nat alloc_size) 0) 0 alloc_size;
                Ret (d, v, if negb ok then None else Some entries)
          end
      end
  | None =>
      match DIV_ROUNDUP (c.(root_entries) * sizeof_entry) block_size with
      | None => Ret (d, v, None)
      | Some dir_chain_len =>
          match CHECKED_MUL dir_chain_len block_size with
          | None => Ret (d, v, None)
          | Some alloc_size =>
              if alloc_size >? 256 * 1024 * 1024 then Ret (d, v, None)
              else
                '(d, v, entries, ok) ← volume_read d v (replicate (Z.to_nat alloc_size) 0)
                    (c.(root_start) * c.(bytes_per_sector)) (c.(root_entries) * sizeof_entry);
                Ret (d, v, if negb ok then None else Some entries)
          end
      end
  end.

Definition fat32_open_in (case_insensitive : bool) (c : fat32_context) (d : D) (v : volume) (directory : option (Z * Z))
    (name : option (Z -> Z)) : outcome (D * volume * option found) :=
  '(d, v, dir) ← read_directory c d v directory;
  match dir with
  | None => Ret (d, v, None)
  | Some entries =>
      let total := zlen entries / sizeof_entry in
      r ← dir_loop (Z.to_nat total) 0 total case_insensitive entries name
            (replicate (Z.to_nat LFN_MAX_FILENAME_LENGTH) 0) 0;
      Ret (d, v, r)
  end.

(** The root directory, where the search starts. *)
Definition root_directory (c : fat32_context) : option (Z * Z) :=
  if c.(type) =? 32
  then Some (Z.land c.(root_directory_cluster) 0xFFFF, u16 (Z.shiftr c.(root_directory_cluster) 16)) else None.

Definition fat32_init_context (case_insensitive : bool) (d : D) (v : volume) : outcome (D * volume * option fat32_context) :=
  '(d, v, bpb, ok) ← volume_read d v (replicate (Z.to_nat sizeof_bpb) 0) 0 sizeof_bpb;
  if negb ok then Ret (d, v, None)
  else match make_context bpb with
  | None => Ret (d, v, None)
  | Some c =>
      '(d, v, r) ← fat32_open_in case_insensitive c d v (root_directory c) None;
      Ret (d, v, Some (with_label c (match r with Some (Label l) => Some l | _ => None end)))
  end.

Definition fat32_get_label (case_insensitive : bool) (d : D) (v : volume) : outcome (D * volume * option (Z -> Z)) :=
  '(d, v, c) ← fat32_init_context case_insensitive d v;
  Ret (d, v, match c with
             | Some c => match c.(label) with Some l => Some (fun i => l.[i]) | None => None end
             | None => None
             end).

(** [common/fs/file.s2.c]: FAT is the only file system with a label. *)
Definition fs_get_label (case_insensitive : bool) (d : D) (v : volume) : outcome (D * volume * option (Z -> Z)) :=
  fat32_get_label case_insensitive d v.

(** * Paths *)

Fixpoint skip_slashes (fuel : nat) (path : Z -> Z) (current_index : Z) : outcome Z :=
  if path current_index =? 47 then
    match fuel with O => Diverge | S fuel => skip_slashes fuel path (u32 (current_index + 1)) end
  else Ret current_index.

(** The component at [current_index]: its text, where the next one starts, and whether there
    is a next one. [n] more characters are looked at; [None] is [return NULL]. *)
Fixpoint component (n : nat) (path : Z -> Z) (current_index i : Z) : option (list Z * Z * bool) :=
  match n with
  | O => None
  | S n =>
      path_idx ← CHECKED_ADD32 i current_index;
      let current_part := load_bytes path current_index (Z.to_nat i) ++ [0] in
      if path path_idx =? 0 then Some (current_part, current_index, false)
      else if path path_idx =? 47 then
        next ← CHECKED_ADD32 current_index (i + 1);
        Some (current_part, next, true)
      else component n path current_index (i + 1)
  end.

(** The walk down the directory tree, to the entry of the file. *)
Fixpoint walk (fuel : nat) (case_insensitive : bool) (c : fat32_context) (d : D) (v : volume) (path : Z -> Z)
    (current_index : Z) (directory : option (Z * Z)) : outcome (D * volume * option (list Z)) :=
  match fuel with
  | O => Diverge
  | S fuel =>
      match component 260 path current_index 0 with
      | None => Ret (d, v, None)
      | Some (current_part, next, expect_directory) =>
          '(d, v, r) ← fat32_open_in case_insensitive c d v directory (Some (fun i => current_part.[i]));
          match r with
          | Some (Entry e) =>
              if expect_directory then
                if Z.land (attribute e) ATTRIBUTE_SUBDIRECTORY =? 0 then Ret (d, v, None)
                else walk fuel case_insensitive c d v path next (Some (cluster_num_low e, cluster_num_high e))
              else Ret (d, v, Some e)
          | _ => Ret (d, v, None)
          end
      end
  end.

(** The handle's [fd]; [None] is NULL. *)
Definition fat32_open (fuel : nat) (case_insensitive : bool) (d : D) (v : volume) (path : Z -> Z)
    : outcome (D * volume * option fat32_file_handle) :=
  '(d, v, c) ← fat32_init_context case_insensitive d v;
  match c with
  | None => Ret (d, v, None)
  | Some c =>
      i ← skip_slashes fuel path 0;
      '(d, v, e) ← walk fuel case_insensitive c d v path i (root_directory c);
      match e with
      | None => Ret (d, v, None)
      | Some e =>
          let first_cluster :=
            if c.(type) =? 32 then Z.lor (cluster_num_low e) (Z.shiftl (cluster_num_high e) 16) else cluster_num_low e in
          '(d, v, chain) ← cache_cluster_chain c d v first_cluster;
          match chain with
          | None =>
              if negb (file_size_bytes e =? 0) then Ret (d, v, None)
              else Ret (d, v, Some {| context := c; first_cluster := first_cluster; size_bytes := file_size_bytes e;
                                      cluster_chain := []; chain_len := 0 |})
          | Some chain =>
              Ret (d, v, Some {| context := c; first_cluster := first_cluster; size_bytes := file_size_bytes e;
                                 cluster_chain := chain; chain_len := zlen chain |})
          end
      end
  end.

Definition fat32_read (f : fat32_file_handle) (d : D) (v : volume) (buf : list Z) (loc count : Z) : outcome (D * volume * list Z * Z) :=
  '(d, v, buf, ok) ← read_cluster_chain f.(context) d v f.(cluster_chain) f.(chain_len) buf loc count;
  if negb ok then Panic else Ret (d, v, buf, count).

End fat32.
End Fat32.
