(* ===== verification/Fat32Dir.v ===== *)
(** Names and directories of the FAT driver, as operations on lists of bytes: what the scan of
    a directory finds in one that is laid out as the format prescribes, and that it returns on
    any other. *)

From S2P Require Import Prelude Libc LibcCorrect Guid Part Fat32.
Import Libc Guid Part Fat32.

(** * Short names *)

Definition pad (n : nat) (l : list Z) : list Z := l ++ replicate (n - length l) 32.

(** The part before the first dot, and the part after it. *)
Fixpoint split_dot (l : list Z) : list Z * option (list Z) :=
  match l with
  | [] => ([], None)
  | b :: l => if b =? 46 then ([], Some l) else let '(base, ext) := split_dot l in (b :: base, ext)
  end.

(** The eleven characters of a directory entry for a name, when it has such a form. *)
Definition short_name (l : list Z) : option (list Z) :=
  let '(base, ext) := split_dot l in
  let ext := default [] ext in
  if (zlen base <=? 8) && (zlen ext <=? 3) && negb (existsb (Z.eqb 46) ext)
  then Some (pad 8 (toupper <$> base) ++ pad 3 (toupper <$> ext)) else None.

Lemma aset_pad P k x : (P ++ replicate (S k) 32).[zlen P := x] = (P ++ [x]) ++ replicate k 32.
Proof. cbn [replicate]. by rewrite aset_app, <- app_assoc. Qed.

Definition names_as (o : outcome (list Z * bool)) (r : option (list Z)) : Prop :=
  match r with
  | Some s => o = Ret (s, true)
  | None => exists s, o = Ret (s, false)
  end.

(** After the dot. *)
Lemma to_8_3_ext fuel src P i l :
  cstr (tail src i) l -> (8 <= length P <= 11)%nat -> (12 - length P <= fuel)%nat ->
  names_as (to_8_3_loop fuel src (P ++ replicate (11 - length P) 32) i (zlen P) true)
    (if (zlen P + zlen l <=? 11) && negb (existsb (Z.eqb 46) l)
     then Some (P ++ (toupper <$> l) ++ replicate (11 - length P - length l) 32) else None).
Proof.
  revert fuel P i. induction l as [|b l IH]; intros fuel P i Hs HP Hf.
  - pose proof (cstr_stop _ _ Hs) as H0. rewrite (proj2 (Z.leb_le _ _)) by (unfold zlen; simpl; lia).
    destruct fuel; cbn [to_8_3_loop existsb negb andb fmap list_fmap app length]; rewrite H0, Nat.sub_0_r; done.
  - apply cstr_next in Hs as (H0 & Hb & Hs). destruct fuel as [|fuel]; [lia |]. cbn [to_8_3_loop]. rewrite H0.
    rewrite (proj2 (Z.eqb_neq b 0)) by lia. cbn [existsb]. rewrite (Z.eqb_sym 46).
    destruct (b =? 46); [cbn [orb negb]; rewrite andb_false_r; eexists; done |]. cbn [orb negb]. rewrite andb_false_r, orb_false_r.
    destruct (Z.geb_spec (zlen P) (8 + 3)) as [Hge|Hlt].
    { rewrite (proj2 (Z.leb_gt _ _)) by (rewrite zlen_cons; pose proof (zlen_nonneg l); lia). simpl. by eexists. }
    unfold zlen in Hlt. destruct (11 - length P)%nat as [|k] eqn:Hk; [lia |]. rewrite aset_pad.
    assert (length (P ++ [toupper b]) = S (length P)) as HPl by (rewrite length_app; simpl; lia).
    specialize (IH fuel (P ++ [toupper b]) (i + 1) Hs ltac:(lia) ltac:(lia)). rewrite HPl in IH.
    replace (11 - S (length P))%nat with k in IH by lia.
    rewrite zlen_app in IH. change (zlen [toupper b]) with 1 in IH.
    rewrite zlen_cons. replace (zlen P + (1 + zlen l)) with (zlen P + 1 + zlen l) by lia.
    destruct (_ && _); [|done]. rewrite <- !(app_assoc P) in IH. rewrite <- (app_assoc P). exact IH.
Qed.

(** Before it. *)
Lemma to_8_3_base fuel src P i l :
  cstr (tail src i) l -> (length P <= 8)%nat -> (13 - length P <= fuel)%nat ->
  names_as (to_8_3_loop fuel src (P ++ replicate (11 - length P) 32) i (zlen P) false)
    (let '(base, ext) := split_dot l in
     let ext := default [] ext in
     if (zlen P + zlen base <=? 8) && (zlen ext <=? 3) && negb (existsb (Z.eqb 46) ext)
     then Some (pad 8 (P ++ (toupper <$> base)) ++ pad 3 (toupper <$> ext)) else None).
Proof.
  revert fuel P i. induction l as [|b l IH]; intros fuel P i Hs HP Hf.
  - pose proof (cstr_stop _ _ Hs) as H0. cbn [split_dot default fmap list_fmap existsb].
    rewrite app_nil_r, (proj2 (Z.leb_le _ _)) by (unfold zlen; simpl; lia).
    destruct fuel; cbn [to_8_3_loop]; rewrite H0; simpl; unfold pad; rewrite <- app_assoc; simpl;
      change [32; 32; 32] with (replicate 3 32); rewrite <- replicate_add; do 4 f_equal; lia.
  - apply cstr_next in Hs as (H0 & Hb & Hs). destruct fuel as [|fuel]; [lia |]. cbn [to_8_3_loop split_dot]. rewrite H0.
    rewrite (proj2 (Z.eqb_neq b 0)) by lia. destruct (Z.eqb_spec b 46) as [->|Hne].
    { cbn [default]. rewrite app_nil_r, (proj2 (Z.leb_le _ 8)) by (unfold zlen; simpl; lia). cbn [andb].
      assert (length (P ++ replicate (8 - length P) 32) = 8%nat) as H8 by (rewrite length_app, length_replicate; lia).
      pose proof (to_8_3_ext fuel src (P ++ replicate (8 - length P) 32) (i + 1) l Hs ltac:(lia) ltac:(lia)) as He.
      unfold zlen in He at 1 2. rewrite H8 in He. rewrite <- app_assoc, <- replicate_add in He.
      replace (8 - length P + (11 - 8))%nat with (11 - length P)%nat in He by lia.
      replace (Z.of_nat 8 + zlen l <=? 11) with (zlen l <=? 3) in He by (destruct (Z.leb_spec (zlen l) 3), (Z.leb_spec (Z.of_nat 8 + zlen l) 11); lia || done).
      destruct (_ && _); [|done]. unfold pad. rewrite length_fmap. exact He. }
    specialize (IH fuel (P ++ [toupper b]) (i + 1) Hs). destruct (split_dot l) as [base ext]. cbv zeta in IH |- *.
    rewrite zlen_app in IH. change (zlen [toupper b]) with 1 in IH.
    rewrite length_app in IH. cbn [length] in IH.
    destruct (Z.geb_spec (zlen P) (8 + 3)); [unfold zlen in *; lia |]. cbn [orb negb]. rewrite andb_true_r.
    destruct (Z.geb_spec (zlen P) 8) as [Hge|Hlt].
    { rewrite (proj2 (Z.leb_gt _ _)) by (rewrite zlen_cons; pose proof (zlen_nonneg base); lia). simpl. by eexists. }
    unfold zlen in Hlt. destruct (11 - length P)%nat as [|k] eqn:Hk; [lia |]. rewrite aset_pad.
    replace (11 - (length P + 1))%nat with k in IH by lia. specialize (IH ltac:(lia) ltac:(lia)).
    rewrite zlen_cons. replace (zlen P + (1 + zlen base)) with (zlen P + 1 + zlen base) by lia.
    destruct (_ && _); [|done]. rewrite <- !(app_assoc P) in IH. rewrite <- (app_assoc P). exact IH.
Qed.

Lemma filename_to_8_3_spec src l : cstr src l -> names_as (fat32_filename_to_8_3 src) (short_name l).
Proof.
  intros Hs. pose proof (to_8_3_base 13 src [] 0 l (cstr_tail0 _ _ Hs) ltac:(simpl; lia) ltac:(simpl; lia)) as H.
  unfold short_name. destruct (split_dot l) as [base ext]. cbv zeta in H |- *. rewrite Z.add_0_l in H. exact H.
Qed.

(** * Copies *)

Lemma blit_blit l o A B : 0 <= o -> o + zlen A + zlen B <= zlen l -> blit (blit l o A) (o + zlen A) B = blit l o (A ++ B).
Proof.
  intros Ho Hl. unfold blit, zlen in *. rewrite length_app.
  assert (length (take (Z.to_nat o) l) = Z.to_nat o) as Ht by (rewrite length_take; lia).
  replace (Z.to_nat (o + Z.of_nat (length A))) with (Z.to_nat o + length A)%nat by lia.
  rewrite (app_assoc (take _ l)).
  rewrite take_app_length' by (rewrite length_app; lia). rewrite drop_app_ge by (rewrite length_app; lia).
  rewrite drop_drop, length_app, Ht, <- !app_assoc. do 3 f_equal. f_equal. lia.
Qed.

Lemma aset_blit l o D x : 0 <= o -> o + zlen D < zlen l -> (blit l o D).[o + zlen D := x] = blit l o (D ++ [x]).
Proof.
  intros Ho Hl. unfold blit at 1. unfold zlen in *. destruct (drop (Z.to_nat o + length D) l) as [|y r] eqn:Hd.
  { apply (f_equal length) in Hd. rewrite length_drop in Hd. simpl in Hd. lia. }
  assert (zlen (take (Z.to_nat o) l ++ D) = o + zlen D) as Hz by (unfold zlen; rewrite length_app, length_take; lia).
  unfold zlen in Hz at 2. rewrite app_assoc, <- Hz, aset_app. unfold blit.
  rewrite length_app. cbn [length]. rewrite Nat.add_assoc, <- drop_drop, Hd. simpl. by rewrite drop_0, <- !app_assoc.
Qed.

Lemma lfncpy_blit l off src n : 0 <= off -> off + Z.of_nat n <= zlen l ->
  fat32_lfncpy l off src n = blit l off ((fun i => src.[i * 2]) <$> seqZ 0 (Z.of_nat n)).
Proof.
  intros Ho Hn. unfold fat32_lfncpy.
  pose proof (for_up_ind (fun i s => s = blit l off ((fun i => src.[i * 2]) <$> seqZ 0 i)) n 0
    (fun i l => if off + i >=? zlen l then l else l.[off + i := src.[i * 2]]) l) as H.
  rewrite Z.add_0_l in H. apply H.
  - change (seqZ 0 0) with (@nil Z). unfold blit. simpl. by rewrite Nat.add_0_r, take_drop.
  - intros i s Hi ->. assert (zlen ((fun i => src.[i * 2]) <$> seqZ 0 i) = i) as Hz by (unfold zlen; rewrite length_fmap, length_seqZ; lia).
    rewrite zlen_blit by lia. destruct (Z.geb_spec (off + i) (zlen l)); [lia |].
    rewrite <- Hz at 2. rewrite aset_blit by lia. rewrite seqZ_app by lia. by rewrite fmap_app, Z.add_0_l.
Qed.

(** * Long names *)

(** The thirteen characters of an entry of a long name, without their high bytes. *)
Definition lfn_chars (e : list Z) : list Z :=
  ((fun i => (name1 e).[i * 2]) <$> seqZ 0 5) ++ ((fun i => (name2 e).[i * 2]) <$> seqZ 0 6) ++
  ((fun i => (name3 e).[i * 2]) <$> seqZ 0 2).

Lemma lfn_chars_length e : length (lfn_chars e) = 13%nat.
Proof. reflexivity. Qed.

Lemma lfncpy_chars l off e : 0 <= off -> off + 13 <= zlen l ->
  fat32_lfncpy (fat32_lfncpy (fat32_lfncpy l (off + 0) (name1 e) 5) (off + 5) (name2 e) 6) (off + 11) (name3 e) 2 =
  blit l off (lfn_chars e).
Proof.
  intros Ho Hl. rewrite Z.add_0_r. rewrite (lfncpy_blit l) by lia. set (A := _ <$> seqZ 0 (Z.of_nat 5)).
  assert (zlen A = 5) as HA by reflexivity.
  rewrite (lfncpy_blit (blit l off A)) by (rewrite ?zlen_blit; lia). set (B := _ <$> seqZ 0 (Z.of_nat 6)).
  assert (zlen B = 6) as HB by reflexivity.
  replace (off + 5) with (off + zlen A) by lia. rewrite blit_blit by lia.
  assert (zlen (A ++ B) = 11) as HAB by reflexivity.
  rewrite (lfncpy_blit (blit l off (A ++ B))) by (rewrite ?zlen_blit; lia). set (C := _ <$> seqZ 0 (Z.of_nat 2)).
  assert (zlen C = 2) as HC by reflexivity.
  replace (off + 11) with (off + zlen (A ++ B)) by lia. rewrite blit_blit by lia. by rewrite <- app_assoc.
Qed.

Definition lfn_len : nat := Z.to_nat LFN_MAX_FILENAME_LENGTH.

(** The buffer keeps its size. *)
Lemma trim_lfn_length n l : length (trim_lfn n l) = length l.
Proof. induction n as [|n IH]; cbn [trim_lfn]; [apply length_aset |]. case_if; [apply length_aset | done]. Qed.

Definition step_ok (r : lfn_result) : Prop :=
  match r with
  | Continue l _ => length l = lfn_len /\ Forall is_byte l
  | Compare l _ => length l = lfn_len /\ Forall is_byte l /\ exists k, (k < lfn_len)%nat /\ l !! k = Some 0
  end.

Lemma trim_lfn_zero n l : (n < length l)%nat -> exists k, (k <= n)%nat /\ trim_lfn n l !! k = Some 0.
Proof.
  induction n as [|n IH]; intros Hn; cbn [trim_lfn].
  - exists 0%nat. split; [done |]. unfold aset. by apply list_lookup_insert_eq.
  - case_if; [|destruct IH as (k & ? & ?); [lia |]; exists k; split; [lia | done]].
    exists (S n). split; [done |]. unfold aset. rewrite Nat2Z.id. by apply list_lookup_insert_eq.
Qed.

Lemma Forall_aset_bytes (P : Z -> Prop) l i x : Forall P l -> P x -> Forall P l.[i := x].
Proof. intros. by apply Forall_insert. Qed.
Lemma trim_lfn_bytes n l : Forall is_byte l -> Forall is_byte (trim_lfn n l).
Proof. intros HF. induction n as [|n IH]; cbn [trim_lfn]; [by apply Forall_aset_bytes |]. case_if; [by apply Forall_aset_bytes | done]. Qed.


Lemma lfn_chars_bytes e : Forall is_byte e -> Forall is_byte (lfn_chars e).
Proof.
  intros HF. unfold lfn_chars. rewrite !Forall_app, !Forall_fmap. unfold name1, name2, name3.
  split_and!; apply Forall_forall; intros i _; simpl; by apply aget_byte, Forall_slice.
Qed.

Lemma lfn_step_ok e l x : Forall is_byte e -> length l = lfn_len -> Forall is_byte l -> step_ok (lfn_step e l x).
Proof.
  intros He Hl HF. unfold lfn_step. destruct (e.[0] =? 0xE5); [done |]. cbv zeta.
  set (seq := Z.land _ 31). assert (0 <= seq < 32) as Hseq by (unfold seq; change 31 with (Z.ones 5); rewrite Z.land_ones by lia; by apply Z.mod_pos_bound).
  clearbody seq. fold lfn_len.
  assert (exists l' x', (if Z.testbit (sequence_number e) 6 then (replicate lfn_len 32, seq) else (l, x)) = (l', x') /\
    length l' = lfn_len /\ Forall is_byte l') as (l' & x' & -> & Hl' & HF').
  { destruct (Z.testbit _ 6); [|by exists l, x]. exists (replicate lfn_len 32), seq. split; [done |]. split; [apply length_replicate | by apply Forall_replicate]. }
  destruct (Z.eqb_spec seq 0); cbn [orb]; [done |].
  destruct (negb _); [done |]. destruct (Z.geb_spec ((seq - 1) * 13) (LFN_MAX_ENTRIES * 13)) as [|Hlt]; [done |]. unfold LFN_MAX_ENTRIES in Hlt.
  assert (zlen l' = 261) as Hz by (unfold zlen; rewrite Hl'; reflexivity).
  rewrite lfncpy_chars by lia. set (b := blit _ _ _).
  assert (length b = lfn_len) as Hb.
  { assert (zlen b = zlen l') as Hzb by (apply zlen_blit; change (zlen (lfn_chars e)) with 13; lia). unfold zlen in Hzb. lia. }
  assert (Forall is_byte b) by by apply Forall_blit, lfn_chars_bytes. clearbody b.
  destruct (negb _); [done |]. split; [by rewrite trim_lfn_length |]. split; [by apply trim_lfn_bytes |].
  destruct (trim_lfn_zero 260 b) as (k & ? & ?); [rewrite Hb; vm_compute; lia |]. exists k. split; [|done]. change lfn_len with 261%nat. lia.
Qed.

(** * Comparisons *)

(** The comparison of short names: [b] has no zero. *)
Lemma strncmp_lists a b :
  length a = length b -> Forall (fun x => x <> 0) b ->
  (strncmp (fun k => a.[k]) (fun k => b.[k]) (zlen b) =? 0) = bool_decide (a = b).
Proof.
  intros Hl Hb. unfold strncmp, zlen. rewrite Nat2Z.id.
  assert (forall pre1 pre2 : list Z, length pre1 = length pre2 ->
    (strncmp_loop (length b) (fun k => (pre1 ++ a).[k]) (fun k => (pre2 ++ b).[k]) (zlen pre1) =? 0) = bool_decide (a = b)) as H;
    [|exact (H [] [] eq_refl)].
  revert a Hl. induction Hb as [|y b Hy Hb IH]; intros [|x a] Hl pre1 pre2 Hp; simplify_eq/=; [done |].
  assert ((pre1 ++ x :: a).[zlen pre1] = x) as -> by (unfold aget, zlen; rewrite Nat2Z.id; apply list_lookup_total_middle; done).
  assert ((pre2 ++ y :: b).[zlen pre1] = y) as -> by (unfold aget, zlen; rewrite Nat2Z.id, Hp; apply list_lookup_total_middle; done).
  destruct (Z.eqb_spec x y) as [->|Hne]; cbn [negb].
  - rewrite (proj2 (Z.eqb_neq y 0)) by done. specialize (IH a Hl (pre1 ++ [y]) (pre2 ++ [y])).
    rewrite <- !app_assoc, zlen_app in IH. change (zlen [y]) with 1 in IH. simpl in IH. rewrite IH by (rewrite !length_app; lia).
    apply bool_decide_ext. split; [by intros -> | by intros [=]].
  - rewrite bool_decide_false by congruence. unfold cmp. by case_if.
Qed.

(** The name itself is always shorter than the entry's characters when it has a short form. *)
Lemma short_name_shape l s : Forall (fun b => 0 < b < 256) l -> short_name l = Some s -> length s = 11%nat /\ Forall (fun x => x <> 0) s.
Proof.
  intros HF. unfold short_name. destruct (split_dot l) as [base ext] eqn:Hs.
  assert (Forall (fun b => 0 < b < 256) base /\ Forall (fun b => 0 < b < 256) (default [] ext)) as [Hb He].
  { revert base ext Hs. induction HF as [|b l Hb HF IH]; intros base ext; cbn [split_dot]; [by intros [= <- <-] |].
    destruct (b =? 46); [by intros [= <- <-] |]. destruct (split_dot l) as [base' ext'].
    intros [= <- <-]. destruct (IH base' ext' eq_refl). split; [by constructor | done]. }
  set (x := default [] ext) in *. clearbody x. cbv zeta. destruct (_ && _) eqn:Hc; [|done]. intros [= <-].
  apply andb_true_iff in Hc as [[H8 H3]%andb_true_iff _]. apply Z.leb_le in H8, H3. unfold zlen in *. unfold pad.
  rewrite !length_app, !length_replicate, !length_fmap. split; [lia |]. rewrite !Forall_app, !Forall_fmap.
  assert (forall b, 0 < b < 256 -> toupper b <> 0) as Hup by (intros b Hbb; unfold toupper; destruct ((b >=? 97) && (b <=? 122)) eqn:E; lia).
  split_and!; try (by apply Forall_replicate); eapply Forall_impl; eauto.
Qed.

(** * The scan of a directory *)

(** The entries of a directory, and the search in a list of them. *)
Definition entries_of (dir : list Z) : list (list Z) :=
  (fun i => slice dir (i * sizeof_entry) sizeof_entry) <$> seqZ 0 (zlen dir / sizeof_entry).

Definition not_sfn (e : list Z) : bool := (e.[0] =? 0) || (e.[0] =? 0xE5) || (attribute e =? LFN_ATTRIBUTE).

Fixpoint search (ci : bool) (name : list Z) (E : list (list Z)) (l : list Z) (x : Z) : option (list Z) :=
  match E with
  | [] => None
  | e :: E =>
      let sfn l x :=
        if Z.testbit (attribute e) 3 then search ci name E l x
        else if bool_decide (short_name name = Some (file_name_and_ext e)) then Some e
        else search ci name E l x in
      if e.[0] =? 0 then None
      else if attribute e =? LFN_ATTRIBUTE then
        match lfn_step e l x with
        | Continue l x => search ci name E l x
        | Compare l x =>
            if same ci (text_of l) name
            then match E with s :: _ => if not_sfn s then None else Some s | [] => None end
            else sfn l x
        end
      else sfn l x
  end.

Lemma entries_drop dir i e E : drop i (entries_of dir) = e :: E ->
  e = slice dir (Z.of_nat i * sizeof_entry) sizeof_entry /\ Z.of_nat i < zlen dir / sizeof_entry /\ drop (S i) (entries_of dir) = E.
Proof.
  intros Hd. assert (entries_of dir !! i = Some e) as He by (rewrite <- (Nat.add_0_r i), <- lookup_drop, Hd; done).
  unfold entries_of in He. rewrite list_lookup_fmap in He. destruct (seqZ 0 _ !! i) as [z|] eqn:Hz; [|done].
  apply lookup_seqZ in Hz as [-> Hz]. injection He as <-. split; [by rewrite Z.add_0_l |]. split; [done |].
  by rewrite <- Nat.add_1_r, <- drop_drop, Hd.
Qed.

Lemma entries_length dir : length (entries_of dir) = Z.to_nat (zlen dir / sizeof_entry).
Proof. unfold entries_of. by rewrite length_fmap, length_seqZ. Qed.

Lemma entry_shape dir i : 0 <= i < zlen dir / sizeof_entry -> length (slice dir (i * sizeof_entry) sizeof_entry) = 32%nat.
Proof. unfold sizeof_entry. intros Hi. rewrite length_slice; try lia. Z.to_euclidean_division_equations; lia. Qed.

Lemma dir_loop_search E : forall dir i ci name nl l x,
  drop i (entries_of dir) = E -> Forall is_byte dir -> cstr name nl -> length l = lfn_len -> Forall is_byte l ->
  dir_loop (length E) (Z.of_nat i) (zlen dir / sizeof_entry) ci dir (Some name) l x =
  Ret (match search ci nl E l x with Some e => Some (Entry e) | None => None end).
Proof.
  induction E as [|e E IH]; intros dir i ci name nl l x HE HF Hn Hl HFl; [done |].
  apply entries_drop in HE as (He & Hi & HE). cbn [length dir_loop]. rewrite <- He. pose proof (entry_shape dir (Z.of_nat i) ltac:(lia)) as Hlen.
  rewrite <- He in Hlen. assert (Forall is_byte e) as HFe by (rewrite He; by apply Forall_slice).
  assert (forall l x, length l = lfn_len -> Forall is_byte l ->
    dir_loop (length E) (Z.of_nat i + 1) (zlen dir / sizeof_entry) ci dir (Some name) l x =
    Ret (match search ci nl E l x with Some e => Some (Entry e) | None => None end)) as Hnext.
  { intros l0 x0 ? ?. replace (Z.of_nat i + 1) with (Z.of_nat (S i)) by lia. by apply IH. }
  assert (forall l x, length l = lfn_len -> Forall is_byte l ->
    (if Z.testbit (attribute e) 3 then dir_loop (length E) (Z.of_nat i + 1) (zlen dir / sizeof_entry) ci dir (Some name) l x
     else '(fn, ok) ← fat32_filename_to_8_3 name;
          if negb ok then dir_loop (length E) (Z.of_nat i + 1) (zlen dir / sizeof_entry) ci dir (Some name) l x
          else if strncmp (fun k => (file_name_and_ext e).[k]) (fun k => fn.[k]) 11 =? 0 then Ret (Some (Entry e))
          else dir_loop (length E) (Z.of_nat i + 1) (zlen dir / sizeof_entry) ci dir (Some name) l x) =
    Ret (match (if Z.testbit (attribute e) 3 then search ci nl E l x
                else if bool_decide (short_name nl = Some (file_name_and_ext e)) then Some e else search ci nl E l x)
         with Some e => Some (Entry e) | None => None end)) as Hsfn.
  { intros l0 x0 ? ?. destruct (Z.testbit _ 3); [by apply Hnext |].
    pose proof (filename_to_8_3_spec name nl Hn) as H83. destruct (short_name nl) as [s|] eqn:Hs; simpl in H83.
    - rewrite H83. cbn [mbind outcome_bind negb]. destruct (short_name_shape nl s (cs_bytes _ _ Hn) Hs) as [Hsl Hs0].
      replace 11 with (zlen s) by (unfold zlen; lia). rewrite strncmp_lists; [| unfold file_name_and_ext; rewrite length_slice; unfold zlen; lia | done].
      rewrite (bool_decide_ext (Some s = _) (file_name_and_ext e = s)) by (split; [by intros [= ->] | by intros ->]).
      case_bool_decide; [done | by apply Hnext].
    - destruct H83 as [s' ->]. cbn [mbind outcome_bind negb]. rewrite bool_decide_false by done. by apply Hnext. }
  cbn [search]. destruct (e.[0] =? 0); [done |]. destruct (attribute e =? LFN_ATTRIBUTE); [|by apply Hsfn].
  pose proof (lfn_step_ok e l x HFe Hl HFl) as Hok. destruct (lfn_step e l x) as [l1 x1|l1 x1]; simpl in Hok.
  - apply Hnext; apply Hok.
  - destruct Hok as (Hl1 & HF1 & k & Hk & Hz). destruct (text_of_cstr l1 k HF1 Hz) as [Hcs Hcl].
    change lfn_len with 261%nat in Hk. destruct (compare_spec ci _ name _ nl 261 Hcs Hn ltac:(lia)) as (r & Hr & Hrs).
    rewrite Hr. cbn [mbind outcome_bind]. rewrite Hrs. destruct (same ci (text_of l1) nl); [|by apply Hsfn].
    destruct E as [|s E].
    + apply (f_equal length) in HE. rewrite length_drop, entries_length in HE. simpl in HE.
      destruct (Z.geb_spec (Z.of_nat i + 1) (zlen dir / sizeof_entry)); [done | lia].
    + apply entries_drop in HE as (Hs & Hi2 & _). destruct (Z.geb_spec (Z.of_nat i + 1) (zlen dir / sizeof_entry)); [lia |].
      replace (Z.of_nat i + 1) with (Z.of_nat (S i)) by lia. rewrite <- Hs. fold (not_sfn s). by destruct (not_sfn s).
Qed.

(** The label: the first entry of that kind. *)
Fixpoint search_label (E : list (list Z)) : option (list Z) :=
  match E with
  | [] => None
  | e :: E =>
      if e.[0] =? 0 then None
      else if attribute e =? ATTRIBUTE_VOLLABEL then Some (trim_label 11 (blit (replicate 12 0) 0 (file_name_and_ext e)))
      else search_label E
  end.

Lemma dir_loop_label E : forall dir i ci l x, drop i (entries_of dir) = E ->
  dir_loop (length E) (Z.of_nat i) (zlen dir / sizeof_entry) ci dir None l x =
  Ret (match search_label E with Some r => Some (Label r) | None => None end).
Proof.
  induction E as [|e E IH]; intros dir i ci l x HE; [done |]. apply entries_drop in HE as (He & Hi & HE).
  cbn [length dir_loop search_label]. rewrite <- He. destruct (e.[0] =? 0); [done |].
  destruct (attribute e =? ATTRIBUTE_VOLLABEL); cbn [negb]; [done |].
  replace (Z.of_nat i + 1) with (Z.of_nat (S i)) by lia. by apply IH.
Qed.

Lemma search_elem ci name E l x e : search ci name E l x = Some e -> e ∈ E.
Proof.
  revert l x. induction E as [|f E IH]; intros l x; cbn [search]; [done |].
  assert (forall l x, (if Z.testbit (attribute f) 3 then search ci name E l x
     else if bool_decide (short_name name = Some (file_name_and_ext f)) then Some f else search ci name E l x) = Some e -> e ∈ f :: E) as Hsfn.
  { intros l0 x0. case_match; [intros; right; by eapply IH |]. case_bool_decide; [intros [= ->]; left | intros; right; by eapply IH]. }
  destruct (f.[0] =? 0); [done |]. destruct (attribute f =? LFN_ATTRIBUTE); [|apply Hsfn].
  destruct (lfn_step f l x) as [l1 x1|l1 x1]; [intros; right; by eapply IH |]. destruct (same ci (text_of l1) name); [|apply Hsfn]. destruct E as [|s E]; [done |]. destruct (not_sfn s); [done |]. intros [= ->]. right. left.
Qed.

(** * Directories as the format prescribes them *)

(** An entry of a long name with its number, the first on the disk marked by bit 6; a run of
    them down to number 1, with the text they hold; the text of a name: it ends with a zero,
    or fills its last entry. *)
Record lfn_entry (e : list Z) (seq : Z) (first : bool) : Prop := {
  le_attribute : attribute e = LFN_ATTRIBUTE;
  le_used : e.[0] <> 0 /\ e.[0] <> 0xE5;
  le_seq : Z.land (sequence_number e) 0x1f = seq;
  le_first : Z.testbit (sequence_number e) 6 = first }.
Inductive lfn_run : bool -> Z -> list (list Z) -> list Z -> Prop :=
| run_nil : lfn_run false 0 [] []
| run_cons first s e es text :
    1 <= s <= LFN_MAX_ENTRIES -> lfn_entry e s first -> lfn_run false (s - 1) es text ->
    lfn_run first s (e :: es) (text ++ lfn_chars e).
Definition lfn_text (text name : list Z) : Prop :=
  (exists r, text = name ++ 0 :: r) \/ (text = name /\ last name <> Some 32).

Record sfn_entry (e : list Z) : Prop := {
  se_used : e.[0] <> 0 /\ e.[0] <> 0xE5;
  se_file : Z.testbit (attribute e) 3 = false }.
(** Deleted entries and labels. *)
Definition skipped (e : list Z) : Prop :=
  e.[0] <> 0 /\ (if attribute e =? LFN_ATTRIBUTE then e.[0] = 0xE5 else Z.testbit (attribute e) 3 = true \/ e.[0] = 0xE5).

(** The files listed: their long names, and the entries with their short ones. *)
Inductive listing : list (list Z) -> list (option (list Z) * list Z) -> Prop :=
| list_nil : listing [] []
| list_end e E : e.[0] = 0 -> listing (e :: E) []
| list_skip e E items : skipped e -> listing E items -> listing (e :: E) items
| list_short e E items : sfn_entry e -> listing E items -> listing (e :: E) ((None, e) :: items)
| list_long s es text name e E items :
    lfn_run true s es text -> lfn_text text name -> Forall (fun b => 0 < b < 256) name -> sfn_entry e -> listing E items ->
    listing (es ++ e :: E) ((Some name, e) :: items).

(** The first file with the name. *)
Fixpoint lookup (ci : bool) (name : list Z) (items : list (option (list Z) * list Z)) : option (list Z) :=
  match items with
  | [] => None
  | (long, e) :: items =>
      if match long with Some n => same ci n name | None => false end
         || bool_decide (short_name name = Some (file_name_and_ext e))
      then Some e else lookup ci name items
  end.

Lemma run_bounds first s es text : lfn_run first s es text -> 0 <= s <= LFN_MAX_ENTRIES /\ zlen text = 13 * s.
Proof.
  induction 1 as [|first s e es text Hs He Hr [_ IH]]; [done |]. split; [lia |]. rewrite zlen_app, IH.
  change (zlen (lfn_chars e)) with 13. lia.
Qed.

Lemma lfn_step_entry e l x s first : lfn_entry e s first -> 1 <= s <= LFN_MAX_ENTRIES -> length l = lfn_len ->
  (first = false -> x = s) ->
  let b := blit (if first then replicate lfn_len 32 else l) ((s - 1) * 13) (lfn_chars e) in
  lfn_step e l x = if s =? 1 then Compare (trim_lfn 260 b) 0 else Continue b (s - 1).
Proof.
  intros [Ha [H0 HE] Hs Hf] Hr Hl Hx. unfold LFN_MAX_ENTRIES in *. cbv zeta. unfold lfn_step.
  rewrite (proj2 (Z.eqb_neq _ _) HE). cbv zeta. rewrite Hs, Hf. fold lfn_len.
  assert ((if first then (replicate lfn_len 32, s) else (l, x)) = (if first then replicate lfn_len 32 else l, s)) as ->
    by (destruct first; [done | by rewrite Hx]).
  rewrite (proj2 (Z.eqb_neq s 0)), Z.eqb_refl by lia. cbn [orb negb]. unfold LFN_MAX_ENTRIES.
  destruct (Z.geb_spec ((s - 1) * 13) (20 * 13)); [lia |].
  assert (zlen (if first then replicate lfn_len 32 else l) = 261) as Hz.
  { destruct first; [by rewrite zlen_replicate | unfold zlen; by rewrite Hl]. }
  rewrite lfncpy_chars by lia. destruct (Z.eqb_spec s 1) as [->|]; done.
Qed.

Lemma attr_lfn_bit3 e : attribute e = LFN_ATTRIBUTE -> Z.testbit (attribute e) 3 = true.
Proof. by intros ->. Qed.

(** A run of entries ends in a comparison with its text, and is then done with. *)
Lemma search_run ci name first s es text : lfn_run first s es text -> forall E l x,
  0 < s -> length l = lfn_len -> (first = false -> x = s) ->
  let L := text ++ drop (Z.to_nat (13 * s)) (if first then replicate lfn_len 32 else l) in
  length L = lfn_len /\
  search ci name (es ++ E) l x =
    if same ci (text_of (trim_lfn 260 L)) name
    then match E with f :: _ => if not_sfn f then None else Some f | [] => None end
    else search ci name E (trim_lfn 260 L) 0.
Proof.
  induction 1 as [|first s e es text Hs He Hr IH]; intros E l x Hpos Hl Hx; [lia |]. cbv zeta.
  pose proof (run_bounds _ _ _ _ Hr) as [_ Hz]. set (l0 := if first then replicate lfn_len 32 else l).
  assert (length l0 = lfn_len) as Hl0 by (unfold l0; destruct first; [apply length_replicate | done]).
  assert (zlen l0 = 261) as Hz0 by (unfold zlen; by rewrite Hl0). unfold LFN_MAX_ENTRIES in Hs.
  set (b := blit l0 ((s - 1) * 13) (lfn_chars e)). assert (zlen b = 261) as Hzb by (unfold b; rewrite zlen_blit; change (zlen (lfn_chars e)) with 13; lia).
  assert (length b = lfn_len) as Hlb by (unfold zlen in Hzb; change lfn_len with 261%nat; lia).
  assert (drop (Z.to_nat (13 * (s - 1))) b = lfn_chars e ++ drop (Z.to_nat (13 * s)) l0) as Hdrop.
  { unfold b, blit. rewrite drop_app_ge by (rewrite length_take; unfold zlen in Hz0; lia). rewrite length_take.
    replace (_ - _ `min` _)%nat with 0%nat by (unfold zlen in Hz0; lia). rewrite drop_0. f_equal. f_equal. change (length (lfn_chars e)) with 13%nat. lia. }
  pose proof (lfn_step_entry e l x s first He Hs Hl Hx) as Hstep. cbv zeta in Hstep. fold l0 b in Hstep.
  cbn [search app]. rewrite (proj2 (Z.eqb_neq _ _) (proj1 (le_used _ _ _ He))), (le_attribute _ _ _ He), Z.eqb_refl.
  change (Z.testbit LFN_ATTRIBUTE 3) with true. rewrite Hstep, <- app_assoc, <- Hdrop. destruct (Z.eqb_spec s 1) as [->|Hne].
  - inversion Hr as [|first' s' e' es' text' Hs' ? Hr']; subst; [|lia]. cbn [app] in *. rewrite Hdrop. fold b in Hdrop.
    assert (lfn_chars e ++ drop (Z.to_nat (13 * 1)) l0 = b) as ->; [|done].
    rewrite <- Hdrop. by rewrite Z.mul_0_r, drop_0.
  - destruct (IH E b (s - 1) ltac:(lia) Hlb ltac:(done)) as [HL Hsr]. cbv zeta in HL, Hsr. split; [exact HL |]. exact Hsr.
Qed.


(** The zero is put after the last of the first [n] characters that is not a space. *)
Lemma trim_lfn_spec n l : (n < length l)%nat -> exists m, (m <= n)%nat /\ trim_lfn n l = <[m := 0]> l /\
  (m = 0%nat \/ l !! (m - 1)%nat <> Some 32) /\ forall k, (m <= k < n)%nat -> l !! k = Some 32.
Proof.
  induction n as [|n IH]; intros Hn; cbn [trim_lfn].
  - exists 0%nat. split; [done |]. split; [done |]. split; [by left |]. intros; lia.
  - destruct (list_lookup_lookup_total_lt l n ltac:(lia)) as []. unfold aget. rewrite Nat2Z.id.
    destruct (Z.eqb_spec (l !!! n) 32) as [He|Hne]; cbn [negb].
    + destruct (IH ltac:(lia)) as (m & Hm & Ht & Hlast & Hsp). exists m. split; [lia |]. split; [done |]. split; [done |].
      intros k Hk. destruct (decide (k = n)) as [->|]; [|apply Hsp; lia]. by rewrite list_lookup_lookup_total_lt, He by lia.
    + exists (S n). split; [done |]. split; [unfold aset; by rewrite Nat2Z.id |]. split; [|intros; lia]. right.
      replace (S n - 1)%nat with n by lia. rewrite list_lookup_lookup_total_lt by lia. congruence.
Qed.

Lemma text_of_insert m l : (m < length l)%nat -> text_of (<[m := 0]> l) = text_of (take m l).
Proof.
  revert m; induction l as [|b l IH]; intros [|m] Hm; simpl in *; try lia; [done |]. destruct (b =? 0); [done |]. by rewrite IH by lia.
Qed.

Lemma text_of_id name : Forall (fun b => 0 < b < 256) name -> text_of name = name.
Proof. induction 1 as [|b name Hb HF IH]; [done |]. cbn [text_of]. rewrite (proj2 (Z.eqb_neq b 0)) by lia. by rewrite IH. Qed.

(** So the buffer holds the name as a C string. *)
Lemma trim_text text name k : Forall (fun b => 0 < b < 256) name -> lfn_text text name -> text <> [] ->
  (length text + k = 261)%nat -> (0 < k)%nat -> text_of (trim_lfn 260 (text ++ replicate k 32)) = name.
Proof.
  intros HF Ht Hne Hlen Hk. set (l := text ++ replicate k 32).
  assert (length l = 261%nat) as Hl by (unfold l; rewrite length_app, length_replicate; lia).
  destruct (trim_lfn_spec 260 l) as (m & Hm & -> & Hlast & Hsp); [lia |]. rewrite text_of_insert by lia.
  destruct Ht as [[r ->]|[-> Hl32]].
  - assert (l !! length name = Some 0) as H0 by (unfold l; rewrite <- app_assoc; by apply list_lookup_middle).
    rewrite length_app in Hlen. simpl in Hlen.
    destruct (decide (m <= length name)%nat) as [Hle|Hgt]; [rewrite (Hsp (length name)) in H0; [done | lia] |].
    unfold l. rewrite <- app_assoc, take_app_ge by lia.
    destruct (m - length name)%nat as [|j] eqn:Hj; [lia |]. cbn [app take]. by rewrite text_of_app.
  - assert (m = length name) as ->.
    { destruct (decide (m = length name)) as [|Hnem]; [done |]. exfalso.
      assert (0 < length name)%nat by (destruct name; [done | simpl; lia]).
      destruct (decide (m < length name)%nat) as [Hlt|Hge].
      - rewrite last_lookup in Hl32. apply Hl32. rewrite <- (Hsp (length name - 1)%nat) by lia.
        unfold l. rewrite lookup_app_l by lia. f_equal. lia.
      - destruct Hlast as [->|Hlast]; [lia |]. apply Hlast. unfold l. rewrite lookup_app_r by lia. apply lookup_replicate. split; [done | lia]. }
    unfold l. rewrite take_app_length'; [|done]. by apply text_of_id.
Qed.

Lemma short_name_first name s : Forall (fun b => 0 < b < 256) name -> name !! 0%nat <> Some 0xE5 -> short_name name = Some s -> s !! 0%nat <> Some 0xE5.
Proof.
  intros HF Hn. unfold short_name. destruct name as [|b name]; [by intros [= <-] |]. cbn [split_dot].
  destruct (b =? 46); [|destruct (split_dot name) as [base ext]]; cbv zeta; (destruct (_ && _); [|done]); intros [= <-]; [done |].
  simpl in *. intros [= Hu]. apply Hn. f_equal. apply Forall_cons in HF as [Hb _]. unfold toupper in Hu.
  destruct ((b >=? 97) && (b <=? 122)) eqn:E; lia.
Qed.

Lemma search_listing ci name E items : listing E items ->
  Forall (fun e => length e = 32%nat) E -> Forall (fun b => 0 < b < 256) name -> name !! 0%nat <> Some 0xE5 ->
  forall l x, length l = lfn_len -> search ci name E l x = lookup ci name items.
Proof.
  intros HL HE HF Hname. assert (forall e, sfn_entry e -> attribute e =? LFN_ATTRIBUTE = false) as Hattr.
  { intros e [_ Hb]. apply Z.eqb_neq. intros Ha. rewrite (attr_lfn_bit3 e Ha) in Hb. done. }
  assert (forall e, length e = 32%nat -> e.[0] = 0xE5 -> short_name name <> Some (file_name_and_ext e)) as Hdel.
  { intros e Hle He Hs. apply (short_name_first name _ HF Hname Hs). unfold file_name_and_ext, slice. destruct e as [|b e]; [done |].
    unfold aget in He. simpl in He |- *. by rewrite He. }
  induction HL as [|e E He|e E items [H0 Hsk] HL IH|e E items Hs HL IH|s es text nm e E items Hr Ht HFn Hs HL IH]; intros l x Hl.
  - done.
  - cbn [search]. by rewrite He.
  - apply Forall_cons in HE as [Hle HE]. cbn [search]. rewrite (proj2 (Z.eqb_neq _ _) H0).
    destruct (attribute e =? LFN_ATTRIBUTE).
    + unfold lfn_step. rewrite Hsk. cbn [Z.eqb Pos.eqb]. by apply IH.
    + destruct (Z.testbit (attribute e) 3); [by apply IH |]. destruct Hsk as [|Hsk]; [done |].
      rewrite bool_decide_false by by apply Hdel. by apply IH.
  - apply Forall_cons in HE as [Hle HE]. cbn [search lookup]. rewrite (proj2 (Z.eqb_neq _ _) (proj1 (se_used _ Hs))), (Hattr e Hs), (se_file _ Hs).
    cbn [orb]. case_bool_decide; [done |]. by apply IH.
  - apply Forall_app in HE as [_ HE]. apply Forall_cons in HE as [Hle HE]. pose proof (run_bounds _ _ _ _ Hr) as [Hsr Hz].
    unfold LFN_MAX_ENTRIES in Hsr. assert (0 < s) as Hpos by (inversion Hr; subst; lia).
    destruct (search_run ci name true s es text Hr (e :: E) l x Hpos Hl ltac:(done)) as [HLl ->].
    rewrite drop_replicate in HLl |- *. rewrite trim_text with (name := nm); try done.
    + cbn [lookup]. assert (not_sfn e = false) as ->.
      { unfold not_sfn. rewrite (Hattr e Hs). destruct (se_used _ Hs) as [H1 H2].
        by rewrite (proj2 (Z.eqb_neq _ _) H1), (proj2 (Z.eqb_neq _ _) H2). }
      destruct (same ci nm name); cbn [orb]; [done |].
      cbn [search]. rewrite (proj2 (Z.eqb_neq _ _) (proj1 (se_used _ Hs))), (Hattr e Hs), (se_file _ Hs).
      case_bool_decide; [done |]. apply IH; [done |]. by rewrite trim_lfn_length.
    + intros ->. unfold zlen in Hz. simpl in Hz. lia.
    + unfold zlen in Hz. change lfn_len with 261%nat. lia.
    + change lfn_len with 261%nat. lia.
Qed.
