(* ===== verification/Fat32Correct.v ===== *)
(** The FAT driver on any volume contents: every operation returns and changes nothing but
    the volume's cache; entries of the file allocation table are the 12-, 16- or 32-bit
    numbers of the table; chains are followed to their end, without repetition; a file's
    bytes are those of its clusters in order. *)

From S2P Require Import Prelude Libc LibcCorrect Guid Part PartCorrect Fat32 Fat32Dir.
Import Libc Guid Part Fat32.

(** * Numbers in a table of bits *)

(** Bit [i] of the bytes [m], least significant bits first, and the [n]-bit number at bit [i]. *)
Definition bit_at (m : Z -> Z) (i : Z) : bool := Z.testbit (m (i / 8)) (i mod 8).
Fixpoint number_at (m : Z -> Z) (i : Z) (n : nat) : Z :=
  match n with
  | O => 0
  | S k => number_at m i k + (if bit_at m (i + Z.of_nat k) then 2 ^ Z.of_nat k else 0)
  end.

Lemma number_at_range m i n : 0 <= number_at m i n < 2 ^ Z.of_nat n.
Proof.
  induction n as [|n IH]; [simpl; lia |]. cbn [number_at]. rewrite Nat2Z.inj_succ, Z.pow_succ_r by lia.
  destruct (bit_at _ _); lia.
Qed.

Lemma add_pow2_testbit x n k : 0 <= n -> 0 <= x < 2 ^ n -> Z.testbit (x + 2 ^ n) k = (k =? n) || Z.testbit x k.
Proof.
  intros Hn Hx. assert (Z.land x (2 ^ n) = 0) as Hl.
  { apply Z.bits_inj_0. intros j. rewrite Z.land_spec, Z.pow2_bits_eqb by done. destruct (Z.eqb_spec n j) as [<-|]; [|apply andb_false_r].
    by rewrite (testbit_high n) by lia. }
  rewrite Z.add_nocarry_lxor, Z.lxor_lor, Z.lor_spec, Z.pow2_bits_eqb by done.
  by rewrite orb_comm, (Z.eqb_sym k).
Qed.

Lemma ltb_succ k n : k <> n -> (k <? n) = (k <? Z.succ n).
Proof. intros. destruct (Z.ltb_spec k n), (Z.ltb_spec k (Z.succ n)); lia || done. Qed.

Lemma number_at_testbit m i n k : 0 <= k -> Z.testbit (number_at m i n) k = (k <? Z.of_nat n) && bit_at m (i + k).
Proof.
  intros Hk. induction n as [|n IH]; [change (Z.of_nat 0) with 0; cbn [number_at]; by rewrite Z.testbit_0_l, (proj2 (Z.ltb_ge k 0)) by lia |].
  cbn [number_at]. pose proof (number_at_range m i n) as Hr. rewrite Nat2Z.inj_succ.
  destruct (bit_at m (i + Z.of_nat n)) eqn:Hb.
  - rewrite add_pow2_testbit, IH by lia. destruct (Z.eqb_spec k (Z.of_nat n)) as [->|Hne]; simpl.
    + rewrite Hb. destruct (Z.ltb_spec (Z.of_nat n) (Z.succ (Z.of_nat n))); [done | lia].
    + by rewrite ltb_succ.
  - rewrite Z.add_0_r, IH. destruct (Z.eqb_spec k (Z.of_nat n)) as [->|Hne]; [by rewrite Hb, !andb_false_r | by rewrite ltb_succ].
Qed.

Lemma of_le_cons b l : of_le (b :: l) = b + 256 * of_le l.
Proof. done. Qed.

Lemma of_le_testbit l k : Forall is_byte l -> 0 <= k < 8 * zlen l -> Z.testbit (of_le l) k = bit_at (fun i => l.[i]) k.
Proof.
  intros HF. revert k. induction HF as [|b l Hb HF IH]; intros k Hk; [unfold zlen in Hk; simpl in Hk; lia |].
  rewrite zlen_cons in Hk. rewrite of_le_cons. unfold is_byte in Hb. unfold bit_at.
  replace (b + 256 * of_le l) with (of_le l * 2 ^ 8 + b) by lia.
  destruct (Z.ltb_spec k 8) as [H8|H8].
  - rewrite Z.div_small, Z.mod_small by lia. change ((b :: l).[0]) with b.
    rewrite <- (Z.mod_pow2_bits_low _ 8) by lia. rewrite Z.add_comm, Z.mod_add by lia. by rewrite Z.mod_small by lia.
  - replace (Z.testbit _ k) with (Z.testbit (of_le l) (k - 8)).
    + rewrite IH by lia. unfold bit_at.
      assert ((k - 8) / 8 = k / 8 - 1 /\ (k - 8) mod 8 = k mod 8) as [-> ->] by (Z.to_euclidean_division_equations; lia).
      f_equal. unfold aget. assert (1 <= k / 8) by (apply Z.div_le_lower_bound; lia).
      by replace (Z.to_nat (k / 8)) with (S (Z.to_nat (k / 8 - 1))) by lia.
    + replace (of_le l) with ((of_le l * 2 ^ 8 + b) / 2 ^ 8) at 1 by (rewrite Z.div_add_l, Z.div_small by lia; lia).
      rewrite <- Z.shiftr_div_pow2 by lia. rewrite Z.shiftr_spec by lia. f_equal. lia.
Qed.

(** A part of the bytes loaded from [m] at [a], as a number of the table. *)
Lemma of_le_number m a n lo w :
  Forall is_byte (load_bytes m a n) -> 0 <= lo -> lo + Z.of_nat w <= 8 * Z.of_nat n ->
  Z.land (Z.shiftr (of_le (load_bytes m a n)) lo) (Z.ones (Z.of_nat w)) = number_at (fun x => m (a + x)) lo w.
Proof.
  intros Hm Hlo Hw. apply Z.bits_inj'. intros k Hk. rewrite number_at_testbit by done.
  rewrite Z.land_spec, Z.testbit_ones_nonneg, andb_comm by lia.
  destruct (Z.ltb_spec k (Z.of_nat w)); [|done]. rewrite !andb_true_l, Z.shiftr_spec by done.
  assert (zlen (load_bytes m a n) = Z.of_nat n) as Hz by (unfold zlen; by rewrite length_load).
  rewrite of_le_testbit; [| done | lia]. unfold bit_at. rewrite Z.add_comm. f_equal.
  assert (0 <= (lo + k) / 8 < Z.of_nat n) by (Z.to_euclidean_division_equations; lia).
  unfold load_bytes, aget. apply list_lookup_total_correct. rewrite list_lookup_fmap, lookup_seqZ_lt by lia. simpl. do 2 f_equal. lia.
Qed.

Lemma number_at_shift m i j n : (8 | i) -> number_at (fun x => m (i / 8 + x)) j n = number_at m (i + j) n.
Proof.
  intros [q ->]. induction n as [|n IH]; [done |]. cbn [number_at]. rewrite IH. f_equal.
  unfold bit_at. rewrite Z.div_mul by lia.
  replace (q * 8 + j + Z.of_nat n) with (j + Z.of_nat n + q * 8) by lia. rewrite Z.div_add, Z.mod_add by lia.
  by rewrite (Z.add_comm q).
Qed.

(** The number at bit [8 * off + lo] of the table at [base], from the bytes it is in. *)
Lemma table_number m base off n lo w :
  Forall is_byte (load_bytes m (base + off) n) -> 0 <= lo -> lo + Z.of_nat w <= 8 * Z.of_nat n ->
  Z.land (Z.shiftr (of_le (load_bytes m (base + off) n)) lo) (Z.ones (Z.of_nat w)) =
  number_at (fun x => m (base + x)) (off * 8 + lo) w.
Proof.
  intros Hb Hlo Hw. rewrite of_le_number by done. rewrite <- number_at_shift by by exists off.
  rewrite Z.div_mul by lia. clear. induction w as [|w IH]; [done |]. cbn [number_at]. rewrite IH. f_equal.
  unfold bit_at. by rewrite Z.add_assoc.
Qed.

Lemma of_le_zeros l k : of_le (l ++ replicate k 0) = of_le l.
Proof.
  induction l as [|b l IH]; cbn [app]; [|by rewrite !of_le_cons, IH]. induction k as [|k IH]; [done |].
  cbn [replicate]. by rewrite of_le_cons, IH.
Qed.

Section fat.
Context {D : Type} `{BlockDevOk D}.
Implicit Types (d : D) (v : volume) (c : fat32_context).

(** * Contexts *)

Record ctx_ok c : Prop := {
  c_type : c.(type) = 12 \/ c.(type) = 16 \/ c.(type) = 32;
  c_bps : 512 <= c.(bytes_per_sector) <= 4096;
  c_spc : 1 <= c.(sectors_per_cluster) <= 128;
  c_fat : 0 < c.(fat_start_lba) < 2 ^ 16;
  c_spf : 0 < c.(sectors_per_fat) < 2 ^ 32;
  c_data : 0 <= c.(data_start_lba) < 2 ^ 32;
  c_root : 0 <= c.(root_start) < 2 ^ 32;
  c_entries : 0 <= c.(root_entries) < 2 ^ 16;
  c_entries_pos : c.(type) <> 32 -> 0 < c.(root_entries);
  c_cluster : 0 <= c.(root_directory_cluster) < 2 ^ 32 }.

Lemma make_context_ok b c : Forall is_byte b -> make_context b = Some c -> ctx_ok c.
Proof.
  intros HF. assert (forall off n, 0 <= n -> 0 <= field b off n < 256 ^ n) as Hf by (intros; by apply field_range).
  pose proof (Hf 11 2) as H1. pose proof (Hf 13 1) as H2. pose proof (Hf 14 2) as H3. pose proof (Hf 16 1) as H4.
  pose proof (Hf 17 2) as H5. pose proof (Hf 36 4) as H6. pose proof (Hf 22 2) as H7. pose proof (Hf 44 4) as H8.
  unfold make_context, bpb_bytes_per_sector, bpb_sectors_per_cluster, bpb_reserved_sectors, fats_count, root_entries_count,
    sectors_per_fat_32, sectors_per_fat_16, bpb_root_directory_cluster.
  set (bps := field b 11 2) in *. set (spc := field b 13 1) in *. set (res := field b 14 2) in *. set (nf := field b 16 1) in *.
  set (re := field b 17 2) in *. set (s32 := field b 36 4) in *. set (s16 := field b 22 2) in *. set (rc := field b 44 4) in *.
  clearbody bps spc res nf re s32 s16 rc. cbv zeta.
  destruct (negb (signature_valid b)); [done |].
  destruct (existsb (Z.eqb spc) _) eqn:Es; [|done]. destruct (existsb (Z.eqb bps) _) eqn:Eb; [|done]. cbn [negb].
  assert (1 <= spc <= 128) by (simpl in Es; rewrite !orb_true_iff, !Z.eqb_eq in Es; intuition lia).
  assert (512 <= bps <= 4096) by (simpl in Eb; rewrite !orb_true_iff, !Z.eqb_eq in Eb; intuition lia). clear Es Eb.
  destruct ((nf =? 0) || _) eqn:En; [done |]. destruct (Z.eqb_spec res 0); [done |].
  destruct (_ >=? _); [done |]. set (t := type_of _).
  assert (t = 12 \/ t = 16 \/ t = 32) as Ht by (unfold t, type_of; repeat case_if; lia). clearbody t.
  destruct (Z.eqb_spec (if t =? 32 then s32 else s16) 0) as [|Hspf]; [done |].
  destruct (negb (t =? 32) && (re =? 0)) eqn:Er; [done |]. destruct (Z.gtb_spec (res + nf * (if t =? 32 then s32 else s16)) UINT32_MAX) as [|Hrs]; [done |].
  destruct (DIV_ROUNDUP _ _) as [size|]; [|done]. simpl. pose proof (u32_bound size).
  assert (0 < (if t =? 32 then s32 else s16) < 2 ^ 32) as Hspf2 by (case_if; lia). unfold UINT32_MAX in Hrs.
  set (spf := if t =? 32 then s32 else s16) in *. clearbody spf.
  destruct (if t =? 32 then _ else _) as [data|] eqn:Ed; [|done]. simpl. intros [= <-].
  assert (0 <= data < 2 ^ 32).
  { destruct (t =? 32); [injection Ed as <-; nia |]. unfold CHECKED_ADD32 in Ed. case_if; [|done]. injection Ed as <-. nia. }
  constructor; simpl; try lia; nia.
Qed.

Lemma make_context_label b c : make_context b = Some c -> c.(label) = None.
Proof.
  unfold make_context. cbv zeta. repeat (case_if; [done |]). destruct (DIV_ROUNDUP _ _); cbn [mbind option_bind]; [|done].
  destruct (type_of _ =? 32); [by intros [= <-] |]. destruct (CHECKED_ADD32 _ _); cbn [mbind option_bind]; [by intros [= <-] | done].
Qed.

(** * The file allocation table *)

Definition fat_base c : Z := c.(fat_start_lba) * c.(bytes_per_sector).
Definition fat_size c : Z := c.(sectors_per_fat) * c.(bytes_per_sector).
Definition entry_bytes c : Z := if c.(type) =? 32 then 4 else 2.
Definition entry_bits c : nat := if c.(type) =? 32 then 28%nat else Z.to_nat c.(type).
(** The table as a sequence of numbers of [type] bits (of which 28 count in FAT32), and
    whether the bytes of a number are in it. *)
Definition fat_entry c v (cluster : Z) : Z :=
  number_at (fun x => vbyte v (fat_base c + x)) (c.(type) * cluster) (entry_bits c).
Definition in_fat c (cluster : Z) : Prop := c.(type) * cluster / 8 + entry_bytes c <= fat_size c.
Definition fat_end c : Z := fat_base c + fat_size c.

Lemma fat_small c : ctx_ok c -> 0 < fat_base c < 2 ^ 28 /\ 0 < fat_size c < 2 ^ 44 + 1.
Proof. intros []. unfold fat_base, fat_size. nia. Qed.

Definition map_post c v (cluster : Z) (out : option Z) : Prop :=
  (forall x, out = Some x -> 0 <= x < 2 ^ 32 /\ in_fat c cluster /\ (in_whole v (fat_end c) -> x = fat_entry c v cluster)) /\
  (in_fat c cluster -> good v (fat_end c) -> out <> None).

(** Reading [n] bytes of the table and cutting [w] bits out of them. *)
Lemma map_read c d v cluster lo (n : nat) buf (f : list Z -> Z) :
  dev_inv d -> vol_ok v -> ctx_ok c -> 0 <= cluster < 2 ^ 32 -> 0 <= lo ->
  entry_bytes c = Z.of_nat n -> c.(type) * cluster = c.(type) * cluster / 8 * 8 + lo ->
  lo + Z.of_nat (entry_bits c) <= 8 * Z.of_nat n -> (entry_bits c <= 28)%nat ->
  Z.of_nat n <= zlen buf -> Forall is_byte buf ->
  (forall l, Forall is_byte l -> zlen l = zlen buf -> 0 <= f l < 2 ^ 32) ->
  (forall l, Forall is_byte l -> length l = n ->
    f (l ++ drop n buf) = Z.land (Z.shiftr (of_le l) lo) (Z.ones (Z.of_nat (entry_bits c)))) ->
  keeps v (if c.(type) * cluster / 8 + Z.of_nat n >? fat_size c then Ret (d, v, None)
           else '(d, v, tmp, ok) ← volume_read d v buf (fat_base c + c.(type) * cluster / 8) (Z.of_nat n);
                if negb ok then Ret (d, v, None) else Ret (d, v, Some (f tmp)))
    (map_post c v cluster).
Proof.
  intros Hd Hv Hc Hcl Hlo Hn Hbits Hw Hw28 Hbuf HF Hrange Hf. pose proof (fat_small c Hc) as [Hfb Hfs].
  assert (0 < Z.of_nat n) by (unfold entry_bytes in Hn; case_if; lia).
  assert (0 <= c.(type) * cluster / 8) by (apply Z.div_pos; [|lia]; destruct (c_type c Hc) as [-> | [-> | ->]]; lia).
  destruct (Z.gtb_spec (c.(type) * cluster / 8 + Z.of_nat n) (fat_size c)) as [Hout|Hin].
  { apply keeps_ret; try done. split; [done |]. unfold in_fat. lia. }
  set (off := c.(type) * cluster / 8) in *.
  destruct (volume_read_at d v buf (fat_base c + off) (Z.of_nat n)) as (d' & k & buf' & ok & -> & Hd' & Hv' & Hz & HF' & Hok & Hs);
    try done; try lia. simpl. rewrite Nat2Z.id in Hok. apply (keeps_set v k).
  destruct ok; simpl; (apply keeps_ret; [done | done |]).
  - split; [|done]. intros x [= <-]. split; [by apply Hrange |]. split; [unfold in_fat; fold off; lia |].
    intros Hwh. rewrite (Hok eq_refl) by (eapply in_whole_mono; [done |]; unfold fat_end; lia).
    assert (Forall is_byte (load_bytes (vbyte v) (fat_base c + off) n)) as HFl.
    { rewrite (Hok eq_refl) in HF' by (eapply in_whole_mono; [done |]; unfold fat_end; lia). by apply Forall_app in HF' as [? _]. }
    rewrite Hf, table_number by (done || apply length_load). unfold fat_entry. rewrite Hbits. by fold off.
  - split; [done |]. intros _ Hg. exfalso. by specialize (Hs (good_mono v (fat_base c + off + Z.of_nat n) (fat_end c) Hg ltac:(unfold fat_end; lia))).
Qed.

Lemma land_ones_small x n : 0 <= n -> 0 <= x < 2 ^ n -> Z.land x (Z.ones n) = x.
Proof. intros. rewrite Z.land_ones by done. by apply Z.mod_small. Qed.

Lemma of_le_small l n : Forall is_byte l -> length l = n -> 0 <= of_le l < 2 ^ (8 * Z.of_nat n).
Proof. intros HF <-. pose proof (of_le_range l HF). rewrite Z.pow_mul_r by lia. unfold zlen in *. change (2 ^ 8) with 256. lia. Qed.

Lemma shiftr_range x n k : 0 <= n -> 0 <= k -> 0 <= x < 2 ^ (n + k) -> 0 <= Z.shiftr x k < 2 ^ n.
Proof.
  intros Hn Hk Hx. rewrite Z.shiftr_div_pow2 by done. split; [apply Z.div_pos; lia |].
  apply Z.div_lt_upper_bound; [lia |]. rewrite <- Z.pow_add_r by lia. rewrite Z.add_comm. lia.
Qed.

Lemma land_range x n : 0 <= n -> 0 <= Z.land x (Z.ones n) < 2 ^ n.
Proof. intros. rewrite Z.land_ones by done. apply Z.mod_pos_bound. lia. Qed.

Lemma read_cluster_from_map_spec c d v cluster :
  dev_inv d -> vol_ok v -> ctx_ok c -> 0 <= cluster < 2 ^ 32 ->
  keeps v (read_cluster_from_map c d v cluster) (map_post c v cluster).
Proof.
  intros Hd Hv Hc Hcl. unfold read_cluster_from_map. cbv zeta. fold (fat_base c) (fat_size c).
  assert (Z.ones 12 = 0xfff /\ Z.ones 28 = 0x0fffffff /\ Z.ones 16 = 0xffff) as (H12 & H28 & H16) by done.
  destruct (c_type c Hc) as [Ht | [Ht | Ht]]; rewrite Ht; cbn [Z.eqb Pos.eqb].
  - assert (cluster + cluster / 2 = c.(type) * cluster / 8) as -> by (rewrite Ht; Z.to_euclidean_division_equations; lia).
    apply (map_read c d v cluster (if cluster mod 2 =? 0 then 0 else 4) 2 _
      (fun tmp => if cluster mod 2 =? 0 then Z.land (of_le tmp) 0xfff else Z.shiftr (of_le tmp) 4)); try done;
      unfold entry_bytes, entry_bits; rewrite ?Ht; try (case_if; done); try by repeat constructor.
    + destruct (Z.eqb_spec (cluster mod 2) 0); Z.to_euclidean_division_equations; lia.
    + intros l Hl Hz. pose proof (of_le_small l 2 Hl ltac:(unfold zlen in Hz; simpl in Hz; lia)) as Hr. case_if.
      * pose proof (land_range (of_le l) 12). rewrite <- H12. lia.
      * pose proof (shiftr_range (of_le l) 12 4). lia.
    + intros l Hl Hn. rewrite app_nil_r. change (Z.ones _) with (Z.ones 12). rewrite <- H12. case_if; [done |].
      rewrite land_ones_small; [done | lia |]. apply shiftr_range; try lia. exact (of_le_small l 2 Hl Hn).
  - assert (cluster * 2 = c.(type) * cluster / 8) as -> by (rewrite Ht; Z.to_euclidean_division_equations; lia).
    apply (map_read c d v cluster 0 2 _ of_le); try done; unfold entry_bytes, entry_bits; rewrite ?Ht; try done; try by repeat constructor.
    + Z.to_euclidean_division_equations; lia.
    + intros l Hl Hz. exact (of_le_small l 4 Hl ltac:(unfold zlen in Hz; simpl in Hz; lia)).
    + intros l Hl Hn. change (drop 2 _) with (replicate 2 0). rewrite of_le_zeros, Z.shiftr_0_r, land_ones_small; [done | lia |].
      exact (of_le_small l 2 Hl Hn).
  - assert (cluster * 4 = c.(type) * cluster / 8) as -> by (rewrite Ht; Z.to_euclidean_division_equations; lia).
    apply (map_read c d v cluster 0 4 _ (fun out => Z.land (of_le out) 0x0fffffff)); try done;
      unfold entry_bytes, entry_bits; rewrite ?Ht; try done.
    + Z.to_euclidean_division_equations; lia.
    + apply Forall_forall. intros x Hx. apply list_elem_of_fmap in Hx as (i & -> & _). apply u8_bound.
    + intros l Hl Hz. pose proof (land_range (of_le l) 28). rewrite <- H28. lia.
    + intros l Hl Hn. by rewrite app_nil_r.
Qed.

(** * Chains *)

(** [l] is the chain from [x] to its end, in a table that has [next]: the numbers that are [ok]. *)
Inductive chain_from (ok : Z -> bool) (next : Z -> Z) : Z -> list Z -> Prop :=
| chain_last x : ok x = true -> ok (next x) = false -> chain_from ok next x [x]
| chain_more x l : ok x = true -> chain_from ok next (next x) l -> chain_from ok next x (x :: l).

Lemma chain_from_head ok next x l : chain_from ok next x l -> ok x = true /\ exists l', l = x :: l'.
Proof. destruct 1; eauto. Qed.
Lemma chain_from_unique ok next x l : chain_from ok next x l -> forall l', chain_from ok next x l' -> l = l'.
Proof.
  induction 1 as [x Hx Hn | x l Hx Hl IH]; intros l' Hl'; inversion Hl' as [y Hy Hny | y l2 Hy Hl2]; subst; try done.
  - apply chain_from_head in Hl2 as [? _]. congruence.
  - apply chain_from_head in Hl as [? _]. congruence.
  - f_equal. by apply IH.
Qed.
Lemma chain_from_elem ok next x l y : chain_from ok next x l -> y ∈ l -> exists l', chain_from ok next y l' /\ (length l' <= length l)%nat.
Proof.
  induction 1 as [x Hx Hn | x l Hx Hl IH]; intros Hy.
  - apply list_elem_of_singleton in Hy as ->. exists [x]. split; [by constructor | done].
  - apply elem_of_cons in Hy as [-> | Hy]; [exists (x :: l); split; [by constructor | done] |].
    destruct (IH Hy) as (l' & ? & ?). exists l'. split; [done | simpl; lia].
Qed.
Lemma chain_from_NoDup ok next x l : chain_from ok next x l -> NoDup l.
Proof.
  induction 1 as [x Hx Hn | x l Hx Hl IH]; [apply NoDup_singleton |]. constructor; [|done]. intros Hin.
  destruct (chain_from_elem ok next _ l x Hl Hin) as (l' & Hl' & Hlen).
  pose proof (chain_from_unique ok next x l' Hl' (x :: l) (chain_more ok next x l Hx Hl)) as ->. simpl in Hlen. lia.
Qed.

Definition max_clusters c : Z :=
  if cluster_limit c - 1 >? MAX_CHAIN_LENGTH then MAX_CHAIN_LENGTH else cluster_limit c - 1.

Definition is_u32 (x : Z) : Prop := 0 <= x < 2 ^ 32.

Lemma cluster_limit_range c : ctx_ok c -> 0xfef <= cluster_limit c <= 0xfffffef.
Proof. intros Hc. unfold cluster_limit. destruct (c_type c Hc) as [-> | [-> | ->]]; vm_compute; intuition congruence. Qed.
Lemma max_clusters_range c : ctx_ok c -> 1 <= max_clusters c <= MAX_CHAIN_LENGTH.
Proof. intros Hc. pose proof (cluster_limit_range c Hc). unfold max_clusters. change MAX_CHAIN_LENGTH with 0x1000000. case_if; lia. Qed.
Lemma in_chain_u32 c x : ctx_ok c -> in_chain c x = true -> is_u32 x.
Proof. intros Hc. pose proof (cluster_limit_range c Hc). unfold in_chain, is_u32. intros Hx. apply negb_true_iff, orb_false_iff in Hx as [Hx1 Hx2]. apply Z.ltb_ge in Hx1. rewrite Z.gtb_ltb in Hx2. apply Z.ltb_ge in Hx2. lia. Qed.

(** The length of the chain, or [n] more when it has not ended by then. *)
Definition count_post c v (n : nat) (cluster len : Z) (r : option Z) : Prop :=
  (forall L, r = Some L -> len <= L <= len + Z.of_nat n /\
    (in_whole v (fat_end c) -> L = len + Z.of_nat n \/ exists l, chain_from (in_chain c) (fat_entry c v) cluster l /\ L = len + zlen l - 1)) /\
  (good v (fat_end c) -> forall l, chain_from (in_chain c) (fat_entry c v) cluster l -> Forall (in_fat c) l -> (length l <= n)%nat -> r = Some (len + zlen l - 1)).

Lemma count_chain_spec n c : ctx_ok c -> forall d v cluster len,
  dev_inv d -> vol_ok v -> in_chain c cluster = true ->
  keeps v (count_chain n c d v cluster len) (count_post c v n cluster len).
Proof.
  intros Hc. induction n as [|n IH]; intros d v cluster len Hd Hv Hcl; cbn [count_chain].
  - apply keeps_ret; try done. split.
    + intros L [= <-]. split; [lia |]. intros _. left. lia.
    + intros _ l Hl _ Hlen. apply chain_from_head in Hl as (_ & l' & ->). simpl in Hlen. lia.
  - eapply keeps_bind; [by apply read_cluster_from_map_spec, (in_chain_u32 c) |]. simpl. intros d' k out Hd' Hv' [Hx Hs].
    change (in_whole (set_vc v k)) with (in_whole v) in *.
    destruct out as [x|].
    2: { apply keeps_ret; try done. split; [done |]. intros Hg l Hl Hin _. exfalso. apply Hs; [|done |done].
         apply chain_from_head in Hl as (_ & l' & ->). by apply Forall_cons in Hin as [? _]. }
    destruct (Hx x eq_refl) as (Hxr & Hfat & Hxe). destruct (in_chain c x) eqn:Hix; cbn [negb].
    + eapply keeps_impl; [by apply IH |]. intros r [H1 H2]. split.
      * intros L HL. destruct (H1 L HL) as [HLr Hch]. split; [lia |]. intros Hw. destruct (Hch Hw) as [->|(l & Hl & ->)]; [left; lia |].
        right. exists (cluster :: l). rewrite zlen_cons. split; [|lia]. constructor; [done |]. rewrite <- Hxe by done. exact Hl.
      * intros Hg l Hl Hin Hlen. assert (x = fat_entry c v cluster) as He by (apply Hxe; by eapply good_in_whole).
        inversion Hl as [y Hy Hny | y l2 Hy Hl2]; subst; [congruence |]. apply Forall_cons in Hin as [_ Hin].
        simpl in Hlen. rewrite (H2 Hg l2 Hl2 Hin ltac:(lia)). rewrite zlen_cons. f_equal. lia.
    + apply keeps_ret; try done. split.
      * intros L [= <-]. split; [lia |]. intros Hw. right. exists [cluster]. split; [constructor; [done |] | unfold zlen; simpl; lia].
        by rewrite <- Hxe.
      * intros Hg l Hl Hin Hlen. assert (x = fat_entry c v cluster) as He by (apply Hxe; by eapply good_in_whole).
        inversion Hl as [y Hy Hny | y l2 Hy Hl2]; subst; [unfold zlen; simpl; f_equal; lia |].
        apply chain_from_head in Hl2 as [? _]. congruence.
Qed.

Definition fill_post c v (n : nat) (cluster : Z) (r : option (list Z)) : Prop :=
  (forall l, r = Some l -> length l = n /\ Forall is_u32 l /\
    (in_whole v (fat_end c) -> forall l', chain_from (in_chain c) (fat_entry c v) cluster l' -> length l' = n -> l = l')) /\
  (good v (fat_end c) -> forall l, chain_from (in_chain c) (fat_entry c v) cluster l -> Forall (in_fat c) l -> length l = n -> r = Some l) /\
  (n = O -> r = Some []).

Lemma fill_chain_spec n c : ctx_ok c -> forall d v cluster,
  dev_inv d -> vol_ok v -> is_u32 cluster -> keeps v (fill_chain n c d v cluster) (fill_post c v n cluster).
Proof.
  intros Hc. induction n as [|n IH]; intros d v cluster Hd Hv Hcl; cbn [fill_chain].
  { apply keeps_ret; try done. split.
    - intros l [= <-]. split_and!; try done. by intros _ [|? l'].
    - split; [|done]. intros _ [|? l]; [done | by intros]. }
  eapply keeps_bind; [by apply read_cluster_from_map_spec |]. simpl. intros d' k out Hd' Hv' [Hx Hs].
  change (in_whole (set_vc v k)) with (in_whole v) in *.
  destruct out as [x|].
  2: { apply keeps_ret; try done. split; [done |]. split; [|done]. intros Hg l Hl Hin Hlen. exfalso. apply Hs; [|done |done].
       apply chain_from_head in Hl as (_ & l' & ->). by apply Forall_cons in Hin as [? _]. }
  destruct (Hx x eq_refl) as (Hxr & Hfat & Hxe). eapply keeps_bind; [by apply IH |].
  simpl. intros d2 k2 r Hd2 Hv2 (H1 & H2 & H3). apply keeps_ret; try done. split_and!; [| |done].
  - intros l Hr. destruct r as [l0|]; [|done]. injection Hr as <-. destruct (H1 l0 eq_refl) as (Hlen & HF & Hch).
    split; [simpl; lia |]. split; [by constructor |]. intros Hw l' Hl' Hn.
    inversion Hl' as [y Hy Hny | y l2 Hy Hl2]; subst; simpl in Hn.
    + destruct l0; [done | simpl in *; lia].
    + f_equal. apply (Hch Hw); [by rewrite Hxe | lia].
  - intros Hg l Hl Hin Hlen. assert (x = fat_entry c v cluster) as He by (apply Hxe; by eapply good_in_whole).
    inversion Hl as [y Hy Hny | y l2 Hy Hl2]; subst; simpl in Hlen.
    + by rewrite H3 by lia.
    + apply Forall_cons in Hin as [_ Hin]. by rewrite (H2 Hg l2 Hl2 Hin ltac:(lia)).
Qed.

Definition chain_post c v (initial : Z) (r : option (list Z)) : Prop :=
  (forall l, r = Some l -> 1 <= zlen l <= max_clusters c /\ Forall is_u32 l /\
    (in_whole v (fat_end c) -> chain_from (in_chain c) (fat_entry c v) initial l)) /\
  (good v (fat_end c) -> forall l, chain_from (in_chain c) (fat_entry c v) initial l -> Forall (in_fat c) l ->
    zlen l <= max_clusters c -> r = Some l).

Lemma cache_cluster_chain_spec c d v initial :
  dev_inv d -> vol_ok v -> ctx_ok c -> keeps v (cache_cluster_chain c d v initial) (chain_post c v initial).
Proof.
  intros Hd Hv Hc. unfold cache_cluster_chain. cbv zeta. fold (max_clusters c). pose proof (max_clusters_range c Hc) as Hmax.
  destruct (in_chain c initial) eqn:Hi; cbn [negb].
  2: { apply keeps_ret; try done. split; [done |]. intros _ l Hl. apply chain_from_head in Hl as [? _]. congruence. }
  eapply keeps_bind; [by apply count_chain_spec |]. simpl. intros d' k r Hd' Hv' [H1 H2].
  destruct r as [L|].
  2: { apply keeps_ret; try done. split; [done |]. intros Hg l Hl Hin Hm.
       specialize (H2 Hg l Hl Hin ltac:(unfold zlen in Hm; lia)). done. }
  destruct (H1 L eq_refl) as [HL Hch]. destruct (Z.gtb_spec L (max_clusters c)).
  { apply keeps_ret; try done. split; [done |]. intros Hg l Hl Hin Hm.
    specialize (H2 Hg l Hl Hin ltac:(unfold zlen in Hm; lia)). injection H2 as ->. lia. }
  eapply keeps_impl; [apply fill_chain_spec; try done; by apply (in_chain_u32 c) |].
  intros r (F1 & F2 & _). split.
  - intros l ->. destruct (F1 l eq_refl) as (Hlen & HF & Heq). unfold zlen. split; [lia |]. split; [done |].
    intros Hw. destruct (Hch Hw) as [?|(l' & Hl' & ->)]; [lia |].
    rewrite (Heq Hw l' Hl'); [done |]. unfold zlen. lia.
  - intros Hg l Hl Hin Hm. specialize (H2 Hg l Hl Hin ltac:(unfold zlen in Hm; lia)). injection H2 as ->.
    apply F2; try done. unfold zlen. lia.
Qed.

(** * The bytes of a chain *)

Definition csize c : Z := c.(sectors_per_cluster) * c.(bytes_per_sector).
Definition cluster_base c (x : Z) : Z := (c.(data_start_lba) + (x - 2) * c.(sectors_per_cluster)) * c.(bytes_per_sector).
(** Byte [x] of the clusters of a chain, one after the other. *)
Definition file_byte c v (chain : list Z) (x : Z) : Z :=
  vbyte v (cluster_base c chain.[x / csize c] + x mod csize c).

Lemma csize_range c : ctx_ok c -> 512 <= csize c <= 2 ^ 19.
Proof. intros []. unfold csize. nia. Qed.
Lemma cluster_base_range c x : ctx_ok c -> is_u32 x -> 2 <= x -> 0 <= cluster_base c x < 2 ^ 60.
Proof. intros [] Hx H2. unfold is_u32 in Hx. unfold cluster_base. nia. Qed.

(** The result of a loop that has read [p] of [count] bytes at [loc]. *)
Definition chain_reads c v chain (loc count p : Z) (buf : list Z) (o : outcome (D * volume * list Z * bool)) : Prop :=
  exists d' k buf' ok, o = Ret (d', set_vc v k, buf', ok) /\ dev_inv d' /\ vol_ok (set_vc v k) /\
    zlen buf' = zlen buf /\ Forall is_byte buf' /\
    (ok = true -> (p = 0 \/ loc + p <= zlen chain * csize c) -> count = 0 \/ loc + count <= zlen chain * csize c) /\
    (ok = true -> Forall (fun x => in_whole v (cluster_base c x + csize c)) chain ->
      buf' = take (Z.to_nat p) buf ++ load_bytes (file_byte c v chain) (loc + p) (Z.to_nat (count - p)) ++ drop (Z.to_nat count) buf) /\
    (loc + count <= zlen chain * csize c -> Forall (fun x => 2 <= x /\ good v (cluster_base c x + csize c)) chain -> ok = true).

Lemma chain_reads_fail c d v chain loc count p buf k :
  dev_inv d -> vol_ok (set_vc v k) -> Forall is_byte buf ->
  ~ (loc + count <= zlen chain * csize c /\ Forall (fun x => 2 <= x /\ good v (cluster_base c x + csize c)) chain) ->
  chain_reads c v chain loc count p buf (Ret (d, set_vc v k, buf, false)).
Proof. intros Hd Hv HF Hno. exists d, k, buf, false. split_and!; try done. intros ? ?. by destruct Hno. Qed.

(** After one chunk, the rest of the loop completes the buffer. *)
Lemma chain_reads_step c v k chain loc count p chunk buf rest o :
  0 <= p -> 0 < chunk -> p + chunk <= count -> count <= zlen buf -> zlen rest = zlen (drop (Z.to_nat p) buf) ->
  loc + (p + chunk) <= zlen chain * csize c ->
  (Forall (fun x => in_whole v (cluster_base c x + csize c)) chain ->
    rest = load_bytes (file_byte c v chain) (loc + p) (Z.to_nat chunk) ++ drop (Z.to_nat chunk) (drop (Z.to_nat p) buf)) ->
  chain_reads c (set_vc v k) chain loc count (p + chunk) (take (Z.to_nat p) buf ++ rest) o -> chain_reads c v chain loc count p buf o.
Proof.
  intros Hp Hc Hle Hz Hzr Hin Hdata (d' & k' & buf' & ok & -> & Hd & Hv & Hzb & HF & Hr & Hok & Hs).
  assert (length (take (Z.to_nat p) buf) = Z.to_nat p) as Htl by (rewrite length_take; unfold zlen in *; lia).
  exists d', k', buf', ok. split_and!; try done.
  - rewrite Hzb, zlen_app, Hzr. unfold zlen in *. rewrite length_take, length_drop. lia.
  - intros Ht _. apply (Hr Ht). by right.
  - intros Ht HW. rewrite (Hok Ht HW), (Hdata HW). change (file_byte c (set_vc v k) chain) with (file_byte c v chain).
    set (L := load_bytes (file_byte c v chain) (loc + p) (Z.to_nat chunk)). assert (length L = Z.to_nat chunk) as HLl by apply length_load.
    rewrite (app_assoc (take _ buf) L). rewrite (take_app_length' (take (Z.to_nat p) buf ++ L)) by (rewrite length_app; lia).
    assert (drop (Z.to_nat count) ((take (Z.to_nat p) buf ++ L) ++ drop (Z.to_nat chunk) (drop (Z.to_nat p) buf)) = drop (Z.to_nat count) buf) as ->.
    { rewrite drop_app_ge by (rewrite length_app; lia). rewrite length_app, !drop_drop. f_equal. lia. }
    rewrite <- app_assoc. f_equal. rewrite app_assoc. f_equal.
    replace (Z.to_nat (count - p)) with (Z.to_nat chunk + Z.to_nat (count - (p + chunk)))%nat by lia.
    rewrite load_app. unfold L. do 2 f_equal. lia.
Qed.

(** The bytes of one cluster. *)
Lemma cluster_bytes c v chain x off (n : nat) : ctx_ok c -> 0 <= x -> off = x mod csize c -> off + Z.of_nat n <= csize c ->
  load_bytes (vbyte v) (cluster_base c chain.[x / csize c] + off) n = load_bytes (file_byte c v chain) x n.
Proof.
  intros Hc Hx -> Hn. pose proof (csize_range c Hc) as Hcs. apply load_bytes_ext. intros i Hi. unfold file_byte.
  pose proof (Z.div_mod x (csize c) ltac:(lia)) as Hdm. pose proof (Z.mod_pos_bound x (csize c) ltac:(lia)) as Hmb.
  assert (x + i = x / csize c * csize c + (x mod csize c + i)) as He by lia.
  rewrite He at 1 2. rewrite Z.div_add_l, (Z.div_small (_ + i)), Z.add_0_r by lia.
  rewrite (Z.add_comm (x / csize c * csize c)), Z.mod_add, (Z.mod_small (_ + i)) by lia. f_equal. lia.
Qed.

Lemma chain_loop_spec fuel c chain : ctx_ok c -> Forall is_u32 chain -> forall d v buf loc count p,
  dev_inv d -> vol_ok v -> 0 <= loc -> loc + count <= 2 ^ 64 -> 0 <= p <= count -> count <= zlen buf -> count - p <= Z.of_nat fuel ->
  Forall is_byte buf ->
  chain_reads c v chain loc count p buf (chain_loop fuel c d v chain buf (zlen chain) loc count (csize c) p).
Proof.
  intros Hc Hch. pose proof (csize_range c Hc) as Hcs.
  assert (forall d v (buf : list Z) loc count p, dev_inv d -> vol_ok v -> Forall is_byte buf -> p = count ->
    chain_reads c v chain loc count p buf (Ret (d, v, buf, true))) as Hdone.
  { intros d v buf loc count p Hd Hv HF ->. exists d, v.(vc), buf, true. split_and!; try done; try by destruct v.
    intros _ _. rewrite Z.sub_diag. simpl. by rewrite take_drop. }
  induction fuel as [|fuel IH]; intros d v buf loc count p Hd Hv Hloc Hlc Hp Hz Hf HF; cbn [chain_loop].
  { assert (p = count) as -> by lia. rewrite Z.ltb_irrefl. by apply Hdone. }
  destruct (Z.ltb_spec p count) as [Hlt|Hge]; [|apply Hdone; try done; lia].
  rewrite (proj2 (Z.eqb_neq (csize c) 0)) by lia. rewrite u64_small by lia.
  pose proof (Z.div_mod (loc + p) (csize c) ltac:(lia)) as Hdm. pose proof (Z.mod_pos_bound (loc + p) (csize c) ltac:(lia)) as Hmb.
  pose proof (Z.div_pos (loc + p) (csize c) ltac:(lia) ltac:(lia)) as Hdp.
  assert (v = set_vc v v.(vc)) as Hvv by by destruct v.
  destruct (Z.geb_spec ((loc + p) / csize c) (zlen chain)) as [Hout|Hin].
  { rewrite Hvv at 2. apply chain_reads_fail; try done; [by destruct v |]. intros [Hle _]. nia. }
  pose proof (cluster_bytes c v chain (loc + p) _ (Z.to_nat (if count - p >? csize c - (loc + p) mod csize c
    then csize c - (loc + p) mod csize c else count - p)) Hc ltac:(lia) eq_refl) as Hbytes.
  assert (chain !! Z.to_nat ((loc + p) / csize c) = Some chain.[(loc + p) / csize c]) as Hlk by by apply aget_lookup.
  pose proof (Forall_lookup_1 _ _ _ _ Hch Hlk) as Hcl. simpl in Hcl.
  set (cluster := chain.[(loc + p) / csize c]) in *. set (off := (loc + p) mod csize c) in *.
  destruct (Z.ltb_spec cluster 2) as [H2|H2].
  { rewrite Hvv at 2. apply chain_reads_fail; try done; [by destruct v |]. intros [_ HG].
    destruct (proj1 (Forall_lookup _ _) HG _ _ Hlk) as [Hge2 _]. lia. }
  fold (cluster_base c cluster). pose proof (cluster_base_range c cluster Hc Hcl H2) as Hb.
  set (chunk := if count - p >? csize c - off then csize c - off else count - p) in *.
  assert (0 < chunk /\ p + chunk <= count /\ off + chunk <= csize c) as (Hc0 & Hc1 & Hc2) by (unfold chunk; case_if; lia).
  destruct (volume_read_at d v (drop (Z.to_nat p) buf) (cluster_base c cluster + off) chunk)
    as (d' & k & rest & ok & -> & Hd' & Hv' & Hzr & HF' & Hok & Hs); try done; try lia.
  { unfold zlen in *. rewrite length_drop. lia. } { by apply Forall_drop. }
  cbn [mbind outcome_bind].
  assert (zlen (take (Z.to_nat p) buf ++ rest) = zlen buf) as Hzb.
  { rewrite zlen_app, Hzr. unfold zlen in *. rewrite length_take, length_drop. lia. }
  assert (Forall is_byte (take (Z.to_nat p) buf ++ rest)) as HFb by (apply Forall_app; split; [by apply Forall_take | done]).
  destruct ok; cbn [negb].
  - apply (chain_reads_step c v k chain loc count p chunk buf rest); try done; try lia; [nia | |].
    + intros HW. pose proof (proj1 (Forall_lookup _ _) HW _ _ Hlk) as Hwc.
      rewrite (Hok eq_refl), Hbytes by (lia || (eapply in_whole_mono; [exact Hwc | lia])). done.
    + apply IH; try done; lia.
  - exists d', k, (take (Z.to_nat p) buf ++ rest), false. split_and!; try done. intros Hle HG.
    destruct (proj1 (Forall_lookup _ _) HG _ _ Hlk) as [_ Hg]. apply Hs. eapply good_mono; [exact Hg | lia].
Qed.

(** * Directories *)

Definition start_of c (low high : Z) : Z := if c.(type) =? 32 then Z.lor low (Z.shiftl high 16) else low.

(** A chain that can be followed and read. *)
Definition holds c v (start : Z) (chain : list Z) : Prop :=
  chain_from (in_chain c) (fat_entry c v) start chain /\ Forall (in_fat c) chain /\ zlen chain <= max_clusters c /\
  Forall (fun x => good v (cluster_base c x + csize c)) chain.

Lemma chain_from_ge2 c next x l : chain_from (in_chain c) next x l -> Forall (fun x => 2 <= x) l.
Proof.
  assert (forall x, in_chain c x = true -> 2 <= x) as H2 by (intros y; unfold in_chain; destruct (Z.ltb_spec y 2); [done | lia]).
  induction 1; repeat constructor; auto.
Qed.
Lemma holds_good c v start chain : holds c v start chain ->
  Forall (fun x => 2 <= x /\ good v (cluster_base c x + csize c)) chain /\
  Forall (fun x => in_whole v (cluster_base c x + csize c)) chain.
Proof.
  intros (Hc & _ & _ & Hd). split; [apply Forall_and; split; [by eapply chain_from_ge2 | done] |].
  eapply Forall_impl; [exact Hd |]. intros x Hx. by apply (good_in_whole v _ _ Hx).
Qed.

(** The bytes of a directory: those of its chain, or of the fixed root directory. *)
Definition dir_bytes c v (directory : option (Z * Z)) (es : list Z) : Prop :=
  match directory with
  | Some (low, high) =>
      exists chain, holds c v (start_of c low high) chain /\ zlen chain * csize c <= 256 * 1024 * 1024 /\
        es = load_bytes (file_byte c v chain) 0 (Z.to_nat (zlen chain * csize c))
  | None =>
      c.(type) <> 32 /\ good v (c.(root_start) * c.(bytes_per_sector) + c.(root_entries) * 32) /\
      exists k, es = load_bytes (vbyte v) (c.(root_start) * c.(bytes_per_sector)) (Z.to_nat (c.(root_entries) * 32)) ++ replicate k 0
        /\ zlen es = (c.(root_entries) * 32 + (csize c - 1)) / csize c * csize c
  end.

Definition dir_post c v directory (r : option (list Z)) : Prop :=
  (forall es, r = Some es -> Forall is_byte es) /\
  (good v (fat_end c) -> forall es, dir_bytes c v directory es -> r = Some es).

Lemma read_directory_chain c d v low high :
  dev_inv d -> vol_ok v -> ctx_ok c -> keeps v (read_directory c d v (Some (low, high))) (dir_post c v (Some (low, high))).
Proof.
  intros Hd Hv Hc. unfold read_directory. fold (csize c) (start_of c low high). pose proof (csize_range c Hc) as Hcs.
  eapply keeps_bind; [by apply cache_cluster_chain_spec |]. simpl. intros d' k r Hd' Hv' [H1 H2].
  destruct r as [chain|].
  2: { apply keeps_ret; try done. split; [done |]. intros Hg es (chain & (Hch & Hfat & Hlen & _) & _).
       by specialize (H2 Hg chain Hch Hfat Hlen). }
  destruct (H1 chain eq_refl) as (Hlen & HF & _). pose proof (max_clusters_range c Hc) as Hm. change MAX_CHAIN_LENGTH with 0x1000000 in Hm.
  assert (0 < zlen chain * csize c < 2 ^ 64) as Hprod by nia. rewrite (proj2 (CHECKED_MUL_Some _ _ _) (conj eq_refl (proj2 Hprod))).
  assert (good v (fat_end c) -> forall chain', holds c v (start_of c low high) chain' -> chain' = chain) as Hsame.
  { intros Hg chain' (Hch & Hfat & Hlen' & _). specialize (H2 Hg chain' Hch Hfat Hlen'). by injection H2. }
  destruct (Z.gtb_spec (zlen chain * csize c) (256 * 1024 * 1024)) as [Hbig|Hsmall].
  { apply keeps_ret; try done. split; [done |]. intros Hg es (chain' & Hh & Hsz & _). rewrite (Hsame Hg chain' Hh) in Hsz. lia. }
  unfold read_cluster_chain. fold (csize c).
  destruct (chain_loop_spec (Z.to_nat (zlen chain * csize c)) c chain Hc HF d' (set_vc v k)
    (replicate (Z.to_nat (zlen chain * csize c)) 0) 0 (zlen chain * csize c) 0)
    as (d2 & k2 & es & ok & -> & Hd2 & Hv2 & Hz & HFe & _ & Hok & Hs); try done; try (rewrite ?zlen_replicate; nia).
  { by apply Forall_replicate. }
  simpl. apply (keeps_set _ k2). apply keeps_ret; try done. destruct ok; simpl.
  - split; [by intros es' [= <-] |]. intros Hg es' (chain' & Hh & _ & ->). pose proof (Hsame Hg chain' Hh) as ->.
    rewrite (Hok eq_refl) by exact (proj2 (holds_good _ _ _ _ Hh)). simpl. rewrite Z.sub_0_r, drop_replicate, Nat.sub_diag. by rewrite app_nil_r.
  - split; [done |]. intros Hg es' (chain' & Hh & _). pose proof (Hsame Hg chain' Hh) as ->.
    by specialize (Hs ltac:(lia) (proj1 (holds_good _ _ _ _ Hh))).
Qed.

Lemma read_directory_root c d v :
  dev_inv d -> vol_ok v -> ctx_ok c -> c.(type) <> 32 -> keeps v (read_directory c d v None) (dir_post c v None).
Proof.
  intros Hd Hv Hc Ht. unfold read_directory. fold (csize c). pose proof (csize_range c Hc) as Hcs. pose proof (c_entries c Hc) as He.
  pose proof (c_entries_pos c Hc Ht) as Hpos. pose proof (c_root c Hc) as Hr. pose proof (c_bps c Hc) as Hb. unfold sizeof_entry, DIV_ROUNDUP.
  assert (root_entries c * 32 + (csize c - 1) < 2 ^ 64) as Hadd by lia. rewrite (proj2 (CHECKED_ADD_Some _ _ _) (conj eq_refl Hadd)). cbn [mbind option_bind].
  set (q := (root_entries c * 32 + (csize c - 1)) / csize c).
  assert (root_entries c * 32 <= q * csize c < root_entries c * 32 + csize c) as Hq
    by (unfold q; Z.to_euclidean_division_equations; nia).
  assert (q * csize c < 2 ^ 64) as Hmul by lia. rewrite (proj2 (CHECKED_MUL_Some _ _ _) (conj eq_refl Hmul)).
  destruct (Z.gtb_spec (q * csize c) (256 * 1024 * 1024)); [lia |].
  destruct (volume_read_at d v (replicate (Z.to_nat (q * csize c)) 0) (root_start c * bytes_per_sector c) (root_entries c * 32))
    as (d2 & k2 & es & ok & -> & Hd2 & Hv2 & Hz & HFe & Hok & Hs); try done; try (rewrite ?zlen_replicate; nia).
  { by apply Forall_replicate. }
  simpl. apply (keeps_set _ k2). apply keeps_ret; try done. destruct ok; simpl.
  - split; [by intros es' [= <-] |]. intros _ es' (_ & Hg & k & -> & Hze). f_equal.
    rewrite (Hok eq_refl) by by eapply good_in_whole. f_equal. rewrite drop_replicate. f_equal.
    fold q in Hze. rewrite zlen_app, zlen_replicate in Hze. unfold zlen in Hze. rewrite length_load in Hze. lia.
  - split; [done |]. intros _ es' (_ & Hg & _). by specialize (Hs Hg).
Qed.

(** Which directories are asked for: NULL is the root of FAT12 and FAT16. *)
Definition dir_ok c (directory : option (Z * Z)) : Prop := directory = None -> c.(type) <> 32.

Lemma read_directory_spec c d v directory :
  dev_inv d -> vol_ok v -> ctx_ok c -> dir_ok c directory -> keeps v (read_directory c d v directory) (dir_post c v directory).
Proof.
  intros Hd Hv Hc Hdir. destruct directory as [[low high]|]; [by apply read_directory_chain | by apply read_directory_root, Hdir].
Qed.

Definition zero_lfn : list Z := replicate lfn_len 0.

(** What is found, from the bytes of the directory. *)
Definition found_in ci (name : option (list Z)) (es : list Z) : option found :=
  match name with
  | Some nl => match search ci nl (entries_of es) zero_lfn 0 with Some e => Some (Entry e) | None => None end
  | None => match search_label (entries_of es) with Some r => Some (Label r) | None => None end
  end.

Definition names (name : option (Z -> Z)) (nl : option (list Z)) : Prop :=
  match name, nl with
  | Some s, Some l => cstr s l
  | None, None => True
  | _, _ => False
  end.

Definition found_bytes (r : option found) : Prop := match r with Some (Entry e) => Forall is_byte e | _ => True end.

Lemma fat32_open_in_spec ci c d v directory name nl :
  dev_inv d -> vol_ok v -> ctx_ok c -> dir_ok c directory -> names name nl ->
  keeps v (fat32_open_in ci c d v directory name)
    (fun r => found_bytes r /\ (forall e, r = Some (Entry e) -> is_Some nl) /\
       (good v (fat_end c) -> forall es, dir_bytes c v directory es -> r = found_in ci nl es)).
Proof.
  intros Hd Hv Hc Hdir Hn. unfold fat32_open_in. eapply keeps_bind; [by apply read_directory_spec |].
  intros d' k r Hd' Hv' [H1 H2]. cbn beta iota. destruct r as [es|].
  2: { apply keeps_ret; try done. split; [done |]. split; [done |]. intros Hg es Hes. by specialize (H2 Hg es Hes). }
  fold lfn_len zero_lfn. rewrite <- entries_length. pose proof (H1 es eq_refl) as HF.
  assert (dir_loop (length (entries_of es)) 0 (zlen es / sizeof_entry) ci es name zero_lfn 0 = Ret (found_in ci nl es)) as ->.
  { destruct name as [s|], nl as [l|]; simpl in Hn; try done.
    - apply (dir_loop_search (entries_of es) es 0 ci s l zero_lfn 0); try done; by apply Forall_replicate.
    - exact (dir_loop_label (entries_of es) es 0 ci zero_lfn 0 eq_refl). }
  cbn [mbind outcome_bind]. apply keeps_ret; try done. split; [|split].
  - destruct nl as [l|]; simpl; [|by destruct (search_label _)].
    destruct (search ci l (entries_of es) zero_lfn 0) as [e|] eqn:Hs; [|done]. apply search_elem in Hs.
    unfold entries_of in Hs. apply list_elem_of_fmap in Hs as (i & -> & _). by apply Forall_slice.
  - intros e He. destruct nl; [done |]. simpl in He. by destruct (search_label _).
  - intros Hg es' Hes. specialize (H2 Hg es' Hes). by injection H2 as ->.
Qed.

Lemma root_directory_ok c : dir_ok c (root_directory c).
Proof. unfold dir_ok, root_directory. destruct (Z.eqb_spec c.(type) 32); done. Qed.

Lemma with_label_ok c l : ctx_ok c -> ctx_ok (with_label c l).
Proof. by intros []; constructor. Qed.

(** The boot sector of the volume. *)
Definition boot_sector v : list Z := load_bytes (vbyte v) 0 512.

Lemma fat32_init_context_spec ci d v :
  dev_inv d -> vol_ok v ->
  keeps v (fat32_init_context ci d v)
    (fun r => (forall c, r = Some c -> ctx_ok c) /\
       (good v 512 -> option_map (fun c => with_label c None) r = make_context (boot_sector v))).
Proof.
  intros Hd Hv. unfold fat32_init_context.
  destruct (volume_read_at d v (replicate (Z.to_nat sizeof_bpb) 0) 0 sizeof_bpb) as (d' & k & b & ok & -> & Hd' & Hv' & Hz & HF & Hok & Hs);
    try done; [by apply Forall_replicate |]. cbn [mbind outcome_bind]. apply (keeps_set v k).
  destruct ok; cbn [negb].
  2: { apply keeps_ret; try done. split; [done |]. intros Hg. by specialize (Hs Hg). }
  assert (good v 512 -> b = boot_sector v) as Hb.
  { intros Hg. rewrite (Hok eq_refl) by by apply (good_in_whole v _ _ Hg). rewrite drop_replicate. by rewrite app_nil_r. }
  clear Hok. destruct (make_context b) as [c|] eqn:Hm.
  2: { apply keeps_ret; try done. split; [done |]. intros Hg. by rewrite <- Hb, Hm. }
  pose proof (make_context_ok b c HF Hm) as Hc.
  eapply keeps_bind; [apply (fat32_open_in_spec ci c _ _ _ None None); try done; apply root_directory_ok |].
  simpl. intros d2 k2 r Hd2 Hv2 _. apply keeps_ret; try done. split; [intros c' [= <-]; by apply with_label_ok |].
  intros Hg. rewrite <- Hb, Hm by done. simpl. f_equal.
  pose proof (make_context_label b c Hm) as Hl.
  destruct c. simpl in *. by rewrite Hl.
Qed.

(** The driver's label function keeps the promise the partition code relies on. *)
Lemma fs_get_label_reads ci d v : dev_inv d -> vol_ok v ->
  exists d' k l, fs_get_label ci d v = Ret (d', set_vc v k, l) /\ dev_inv d' /\ vol_ok (set_vc v k).
Proof.
  intros Hd Hv. unfold fs_get_label, fat32_get_label.
  destruct (fat32_init_context_spec ci d v Hd Hv) as (d' & k & r & -> & Hd' & Hv' & _). simpl. by eexists d', k, _.
Qed.

(** * Paths *)

(** A path up to its first slash, and after it. *)
Fixpoint split_slash (l : list Z) : list Z * option (list Z) :=
  match l with
  | [] => ([], None)
  | b :: l => if b =? 47 then ([], Some l) else let '(name, rest) := split_slash l in (b :: name, rest)
  end.

Lemma split_slash_length l name rest : split_slash l = (name, rest) ->
  zlen l = zlen name + match rest with Some r => 1 + zlen r | None => 0 end.
Proof.
  revert name rest; induction l as [|b l IH]; intros name rest; cbn [split_slash]; [by intros [= <- <-] |].
  destruct (b =? 47); [intros [= <- <-]; by rewrite zlen_cons |]. destruct (split_slash l) as [n r] eqn:E. intros [= <- <-].
  rewrite !zlen_cons. specialize (IH n r eq_refl). lia.
Qed.

Lemma CHECKED_ADD32_small a b : a + b < 2 ^ 32 -> CHECKED_ADD32 a b = Some (a + b).
Proof. intros. unfold CHECKED_ADD32. by rewrite (proj2 (Z.ltb_lt _ _)). Qed.

Lemma component_spec n path base i l :
  0 <= base -> 0 <= i -> cstr (tail path (base + i)) l -> base + i + zlen l + 1 < 2 ^ 32 ->
  component n path base i = let '(name, rest) := split_slash l in
    if zlen name <? Z.of_nat n
    then Some (load_bytes path base (Z.to_nat i) ++ name ++ [0], match rest with Some _ => base + i + zlen name + 1 | None => base end,
               match rest with Some _ => true | None => false end)
    else None.
Proof.
  intros Hb. revert n i. induction l as [|b l IH]; intros n i Hi Hs Hlen; (destruct n as [|n];
    [first [reflexivity | cbn [component]; destruct (split_slash (b :: l)) as [nm r];
       destruct (Z.ltb_spec (zlen nm) (Z.of_nat 0)); [pose proof (zlen_nonneg nm); lia | done]] |]).
  - cbn [component]. change (zlen (@nil Z)) with 0 in Hlen. rewrite (CHECKED_ADD32_small i base) by lia. cbn [mbind option_bind].
    rewrite (Z.add_comm i), (cstr_stop _ _ Hs). done.
  - rewrite zlen_cons in Hlen. pose proof (zlen_nonneg l). cbn [component]. rewrite (CHECKED_ADD32_small i base) by lia.
    cbn [mbind option_bind]. rewrite (Z.add_comm i). apply cstr_next in Hs as (Hx & Hbb & Hs). rewrite Hx. cbn [split_slash].
    rewrite (proj2 (Z.eqb_neq b 0)) by lia. destruct (Z.eqb_spec b 47) as [->|Hne].
    { rewrite CHECKED_ADD32_small by lia. cbn [mbind option_bind]. change (zlen (@nil Z)) with 0.
      replace (base + (i + 1)) with (base + i + 0 + 1) by lia. done. }
    rewrite (IH n (i + 1)); [| lia | by rewrite Z.add_assoc | lia]. destruct (split_slash l) as [nm r]. rewrite zlen_cons.
    assert ((zlen nm <? Z.of_nat n) = (1 + zlen nm <? Z.of_nat (S n))) as ->
      by (destruct (Z.ltb_spec (zlen nm) (Z.of_nat n)), (Z.ltb_spec (1 + zlen nm) (Z.of_nat (S n))); lia || done).
    destruct (_ <? _); [|done]. do 2 f_equal. f_equal.
    + replace (Z.to_nat (i + 1)) with (Z.to_nat i + 1)%nat by lia. rewrite load_app, <- app_assoc. f_equal. simpl.
      unfold load_bytes. simpl. f_equal. rewrite <- Hx. f_equal. lia.
    + destruct r; lia.
Qed.

Lemma skip_slashes_spec fuel path k i l :
  0 <= i -> cstr (tail path i) (replicate k 47 ++ l) -> l !! 0%nat <> Some 47 -> (k <= fuel)%nat -> i + Z.of_nat k < 2 ^ 32 ->
  skip_slashes fuel path i = Ret (i + Z.of_nat k) /\ cstr (tail path (i + Z.of_nat k)) l.
Proof.
  revert fuel i. induction k as [|k IH]; intros fuel i Hi Hs Hl Hf Hlt.
  - rewrite Z.add_0_r. split; [|exact Hs]. pose proof (cstr_head _ _ _ Hs) as Hh. simpl in Hh.
    destruct fuel; cbn [skip_slashes]; rewrite Hh; (destruct l as [|b l]; [done |]); simpl in Hl; by destruct (Z.eqb_spec b 47) as [->|].
  - destruct fuel as [|fuel]; [lia |]. cbn [replicate app] in Hs. apply cstr_next in Hs as (Hx & _ & Hs). cbn [skip_slashes]. rewrite Hx.
    cbn [Z.eqb Pos.eqb]. rewrite u32_small by lia. replace (i + Z.of_nat (S k)) with (i + 1 + Z.of_nat k) by lia. apply IH; try done; lia.
Qed.

Lemma split_slash_bytes l name rest : Forall (fun b => 0 < b < 256) l -> split_slash l = (name, rest) ->
  Forall (fun b => 0 < b < 256) name.
Proof.
  intros HF. revert name rest; induction HF as [|b l Hb HF IH]; intros name rest; cbn [split_slash]; [by intros [= <- <-] |].
  destruct (b =? 47); [by intros [= <- <-] |]. destruct (split_slash l) as [n r]. intros [= <- <-]. constructor; [done |]. by eapply IH.
Qed.

Lemma split_slash_app l name r : split_slash l = (name, Some r) -> l = name ++ 47 :: r.
Proof.
  revert name; induction l as [|b l IH]; intros name; cbn [split_slash]; [done |].
  destruct (Z.eqb_spec b 47) as [->|Hb47]; [by intros [= <- ->] |]. destruct (split_slash l) as [nm q]. intros [= <- ->]. simpl. f_equal. by apply IH.
Qed.

(** * The walk through the tree *)

(** The entry a path leads to, on a volume whose directories on the way are as the format
    prescribes; [dirs] are the directories. A component of more than 259 characters is refused. *)
Inductive resolves ci (dirs : option (Z * Z) -> list Z -> Prop) : option (Z * Z) -> list Z -> list Z -> Prop :=
| res_file directory es items path e :
    dirs directory es -> listing (entries_of es) items ->
    split_slash path = (path, None) -> zlen path < 260 -> path !! 0%nat <> Some 0xE5 ->
    lookup ci path items = Some e -> resolves ci dirs directory path e
| res_dir directory es items path name rest e f :
    dirs directory es -> listing (entries_of es) items ->
    split_slash path = (name, Some rest) -> zlen name < 260 -> name !! 0%nat <> Some 0xE5 ->
    lookup ci name items = Some e -> Z.land (attribute e) ATTRIBUTE_SUBDIRECTORY <> 0 ->
    resolves ci dirs (Some (cluster_num_low e, cluster_num_high e)) rest f -> resolves ci dirs directory path f.

Lemma entries_shape es : Forall (fun e => length e = 32%nat) (entries_of es).
Proof.
  apply Forall_forall. intros e He. apply list_elem_of_fmap in He as (i & -> & Hi). apply elem_of_seqZ in Hi. by apply entry_shape.
Qed.

Lemma found_listing ci name es items : listing (entries_of es) items -> Forall (fun b => 0 < b < 256) name -> name !! 0%nat <> Some 0xE5 ->
  found_in ci (Some name) es = match lookup ci name items with Some e => Some (Entry e) | None => None end.
Proof. intros HL HF Hn. simpl. by rewrite (search_listing ci name _ items HL (entries_shape es) HF Hn zero_lfn 0 (length_replicate _ _)). Qed.

Ltac use_lookup :=
  match goal with Hl : lookup _ _ _ = Some _, Hr : good _ _ -> _, Hg : good _ _ |- _ =>
    specialize (Hr Hg _ _ ltac:(eassumption) ltac:(eassumption) ltac:(eassumption)); rewrite Hl in Hr; simplify_eq end.
Ltac same_split :=
  match goal with H1 : split_slash ?l = _, H2 : split_slash ?l = _ |- _ => rewrite H1 in H2; simplify_eq end.

Lemma walk_spec ci c : ctx_ok c -> forall fuel d v path i l directory,
  dev_inv d -> vol_ok v -> dir_ok c directory -> 0 <= i -> cstr (tail path i) l -> i + zlen l + 1 < 2 ^ 32 -> (length l < fuel)%nat ->
  keeps v (walk fuel ci c d v path i directory)
    (fun r => (forall e, r = Some e -> Forall is_byte e) /\
       (good v (fat_end c) -> forall e, resolves ci (dir_bytes c v) directory l e -> r = Some e)).
Proof.
  intros Hc. induction fuel as [|fuel IH]; intros d v path i l directory Hd Hv Hdir Hi Hs Hlen Hf; [lia |]. cbn [walk].
  rewrite (component_spec 260 path i 0 l) by (done || lia || by rewrite Z.add_0_r). rewrite !Z.add_0_r. change (load_bytes path i (Z.to_nat 0)) with (@nil Z).
  destruct (split_slash l) as [name rest] eqn:Hsp. pose proof (split_slash_bytes l name rest (cs_bytes _ _ Hs) Hsp) as HFn.
  pose proof (split_slash_length l name rest Hsp) as Hll. change (Z.of_nat 260) with 260. cbn [app].
  destruct (Z.ltb_spec (zlen name) 260) as [Hshort|Hlong].
  2: { apply keeps_ret; try done. split; [done |]. intros _ e Hr. inversion Hr; subst; same_split; lia. }
  eapply keeps_bind; [apply (fat32_open_in_spec ci c d v directory _ (Some name)); try done; by apply cstr_zero_end |].
  intros d' k r Hd' Hv' (Hok & _ & Hfound). cbn beta iota.
  assert (good v (fat_end c) -> forall es items, dir_bytes c v directory es -> listing (entries_of es) items -> name !! 0%nat <> Some 0xE5 ->
    r = match lookup ci name items with Some e => Some (Entry e) | None => None end) as Hr.
  { intros Hg es items Hes HL Hn. rewrite (Hfound Hg es Hes). by apply found_listing. }
  destruct r as [[lb|e]|].
  - apply keeps_ret; try done. split; [done |]. intros Hg f Hres. exfalso. inversion Hres; subst; same_split;
      by use_lookup.
  - destruct rest as [rest|].
    + assert (good v (fat_end c) -> forall f, resolves ci (dir_bytes c v) directory l f -> Z.land (attribute e) ATTRIBUTE_SUBDIRECTORY <> 0 /\
        resolves ci (dir_bytes c v) (Some (cluster_num_low e, cluster_num_high e)) rest f) as Hdown.
      { intros Hg f Hres. inversion Hres as [|? es items ? name' rest' e' ? Hes HL Hsp' ? Hn Hl Ha Hrest]; subst; same_split.
        specialize (Hr Hg _ _ Hes HL Hn). rewrite Hl in Hr. injection Hr as ->. done. }
      destruct (Z.eqb_spec (Z.land (attribute e) ATTRIBUTE_SUBDIRECTORY) 0) as [Hz|Hz].
      { apply keeps_ret; try done. split; [done |]. intros Hg f Hres. by destruct (Hdown Hg f Hres) as [? _]. }
      pose proof (split_slash_app l name rest Hsp) as ->. rewrite zlen_app, zlen_cons in Hlen. pose proof (zlen_nonneg name).
      rewrite length_app in Hf. simpl in Hf.
      eapply keeps_impl; [apply (IH d' (set_vc v k) path (i + zlen name + 1) rest); try done; try lia; by eapply cstr_drop |].
      intros r [Hbytes Hres2]. split; [done |]. intros Hg f Hres. apply Hres2; [done |]. by destruct (Hdown Hg f Hres).
    + apply keeps_ret; try done. split; [by intros ? [= <-] |]. intros Hg f Hres. inversion Hres; subst; same_split.
      by use_lookup.
  - apply keeps_ret; try done. split; [done |]. intros Hg f Hres. exfalso. inversion Hres; subst; same_split;
      by use_lookup.
Qed.

(** * Files *)

Lemma leading_slashes l : exists k p, l = replicate k 47 ++ p /\ p !! 0%nat <> Some 47.
Proof.
  induction l as [|b l (k & p & -> & Hp)]; [by exists 0%nat, [] |].
  destruct (decide (b = 47)) as [->|Hne]; [by exists (S k), p |]. exists 0%nat, (b :: replicate k 47 ++ p). split; [done |]. simpl. congruence.
Qed.

Definition open_post ci v (l : list Z) (r : option fat32_file_handle) : Prop :=
  (forall f, r = Some f -> ctx_ok f.(context) /\ Forall is_u32 f.(cluster_chain) /\ f.(chain_len) = zlen f.(cluster_chain)) /\
  (forall c k p e chain, good v 512 -> make_context (boot_sector v) = Some c -> good v (fat_end c) ->
    l = replicate k 47 ++ p -> p !! 0%nat <> Some 47 -> resolves ci (dir_bytes c v) (root_directory c) p e ->
    holds c v (start_of c (cluster_num_low e) (cluster_num_high e)) chain ->
    exists lb, r = Some {| context := with_label c lb; first_cluster := start_of c (cluster_num_low e) (cluster_num_high e);
                           size_bytes := file_size_bytes e; cluster_chain := chain; chain_len := zlen chain |}).

Lemma fat32_open_spec ci d v path l fuel :
  dev_inv d -> vol_ok v -> cstr path l -> zlen l + 1 < 2 ^ 32 -> (length l < fuel)%nat ->
  keeps v (fat32_open fuel ci d v path) (open_post ci v l).
Proof.
  intros Hd Hv Hs Hlen Hf. unfold fat32_open. eapply keeps_bind; [by apply fat32_init_context_spec |].
  intros d1 k1 r Hd1 Hv1 [Hctx Hinit]. cbn beta iota. destruct r as [c|].
  2: { apply keeps_ret; try done. split; [done |]. intros c k p e chain Hg Hm. specialize (Hinit Hg). simpl in Hinit. congruence. }
  pose proof (Hctx c eq_refl) as Hc. destruct (leading_slashes l) as (k & p & -> & Hp).
  rewrite zlen_app, zlen_replicate in Hlen. rewrite length_app, length_replicate in Hf. pose proof (zlen_nonneg p) as Hzp.
  destruct (skip_slashes_spec fuel path k 0 p) as [-> Hsp]; try done; try lia. cbn [mbind outcome_bind].
  rewrite Z.add_0_l in *.
  eapply keeps_bind; [apply (walk_spec ci c Hc fuel d1 (set_vc v k1) path (Z.of_nat k) p); try done; try lia; apply root_directory_ok |].
  intros d2 k2 r Hd2 Hv2 [Hbytes Hres]. cbn beta iota.
  assert (forall c0 k0 p0 e chain, good v 512 -> make_context (boot_sector v) = Some c0 -> good v (fat_end c0) ->
    replicate k 47 ++ p = replicate k0 47 ++ p0 -> p0 !! 0%nat <> Some 47 -> resolves ci (dir_bytes c0 v) (root_directory c0) p0 e ->
    holds c0 v (start_of c0 (cluster_num_low e) (cluster_num_high e)) chain ->
    c0 = with_label c None /\ r = Some e /\ good v (fat_end c) /\ holds c v (start_of c (cluster_num_low e) (cluster_num_high e)) chain) as Hwell.
  { intros c0 k0 p0 e chain Hg Hm Hgf Heq Hp0 Hr Hh. specialize (Hinit Hg). rewrite Hm in Hinit. injection Hinit as <-.
    pose proof (strip_slashes k k0 p p0 Heq Hp Hp0) as <-. split_and!; try done. by apply Hres. }
  destruct r as [e|].
  2: { apply keeps_ret; try done. split; [done |]. intros c0 k0 p0 e chain ? ? ? ? ? ? ?.
       by destruct (Hwell c0 k0 p0 e chain) as (_ & ? & _). }
  fold (start_of c (cluster_num_low e) (cluster_num_high e)).
  eapply keeps_bind; [by apply cache_cluster_chain_spec |]. intros d3 k3 r Hd3 Hv3 [Hch Hfull]. cbn beta iota.
  assert (forall c0 k0 p0 e0 chain, good v 512 -> make_context (boot_sector v) = Some c0 -> good v (fat_end c0) ->
    replicate k 47 ++ p = replicate k0 47 ++ p0 -> p0 !! 0%nat <> Some 47 -> resolves ci (dir_bytes c0 v) (root_directory c0) p0 e0 ->
    holds c0 v (start_of c0 (cluster_num_low e0) (cluster_num_high e0)) chain -> c0 = with_label c None /\ e0 = e /\ r = Some chain) as Hwell2.
  { intros c0 k0 p0 e0 chain ? ? ? ? ? ? ?. destruct (Hwell c0 k0 p0 e0 chain) as (? & He & Hg & Hh1 & Hh2 & Hh3 & Hh4); try done.
    injection He as ->. split_and!; try done. by apply Hfull. }
  destruct r as [chain|]; [|destruct (file_size_bytes e =? 0); cbn [negb]]; (apply keeps_ret; [done | done |]); (split;
    [intros f Hf'; try done; injection Hf' as <- |
     intros c0 k0 p0 e0 chain0 ? ? ? ? ? ? ?; destruct (Hwell2 c0 k0 p0 e0 chain0) as (-> & -> & Hr); try done]).
  - destruct (Hch chain eq_refl) as (_ & ? & _). done.
  - injection Hr as ->. exists c.(label). f_equal. by destruct c.
  - done.
Qed.

Lemma fat32_read_spec f d v buf loc count :
  dev_inv d -> vol_ok v -> ctx_ok f.(context) -> Forall is_u32 f.(cluster_chain) -> f.(chain_len) = zlen f.(cluster_chain) ->
  0 <= loc -> 0 <= count <= zlen buf -> loc + count <= 2 ^ 64 -> Forall is_byte buf ->
  loc + count <= zlen f.(cluster_chain) * csize f.(context) ->
  Forall (fun x => 2 <= x /\ good v (cluster_base f.(context) x + csize f.(context))) f.(cluster_chain) ->
  exists d' k, fat32_read f d v buf loc count = Ret (d', set_vc v k,
      load_bytes (file_byte f.(context) v f.(cluster_chain)) loc (Z.to_nat count) ++ drop (Z.to_nat count) buf, count) /\
    dev_inv d' /\ vol_ok (set_vc v k).
Proof.
  intros Hd Hv Hc HF Hlen Hloc Hcount Hlc HFb Hin HG. unfold fat32_read, read_cluster_chain. rewrite Hlen. fold (csize f.(context)).
  destruct (chain_loop_spec (Z.to_nat count) f.(context) f.(cluster_chain) Hc HF d v buf loc count 0)
    as (d' & k & buf' & ok & -> & Hd' & Hv' & _ & _ & _ & Hok & Hs); try done; try lia.
  cbn [mbind outcome_bind]. rewrite (Hs Hin HG). cbn [negb]. exists d', k. split_and!; try done. rewrite (Hok (Hs Hin HG)).
  - by rewrite Z.add_0_r, Z.sub_0_r.
  - eapply Forall_impl; [exact HG |]. intros x [_ Hx]. by apply (good_in_whole v _ _ Hx).
Qed.

(** Opening a file by its path and reading it. *)
Lemma fat32_file_spec ci fuel d v c path k (p e chain : list Z) :
  dev_inv d -> vol_ok v -> good v 512 -> make_context (boot_sector v) = Some c -> good v (fat_end c) ->
  cstr path (replicate k 47 ++ p) -> p !! 0%nat <> Some 47 -> zlen (replicate k 47 ++ p) + 1 < 2 ^ 32 ->
  (length (replicate k 47%Z ++ p) < fuel)%nat ->
  resolves ci (dir_bytes c v) (root_directory c) p e ->
  holds c v (start_of c (cluster_num_low e) (cluster_num_high e)) chain ->
  exists d' k' f, fat32_open fuel ci d v path = Ret (d', set_vc v k', Some f) /\ dev_inv d' /\ vol_ok (set_vc v k') /\
    f.(size_bytes) = file_size_bytes e /\
    forall d1 k1 buf loc count, dev_inv d1 -> vol_ok (set_vc v k1) -> Forall is_byte buf -> 0 <= loc -> 0 <= count <= zlen buf ->
      loc + count <= zlen chain * csize c ->
      exists d2 k2, fat32_read f d1 (set_vc v k1) buf loc count =
          Ret (d2, set_vc v k2, load_bytes (file_byte c v chain) loc (Z.to_nat count) ++ drop (Z.to_nat count) buf, count) /\
        dev_inv d2 /\ vol_ok (set_vc v k2).
Proof.
  intros Hd Hv Hg Hm Hgf Hs Hp Hlen Hf Hr Hh.
  destruct (fat32_open_spec ci d v path _ fuel Hd Hv Hs Hlen Hf) as (d' & k' & r & Ho & Hd' & Hv' & Hok & Hw).
  destruct (Hw c k p e chain Hg Hm Hgf eq_refl Hp Hr Hh) as (lb & ->). eexists d', k', _. split_and!; try done.
  destruct (Hok _ eq_refl) as (Hc & HF & _). simpl in Hc, HF.
  intros d1 k1 buf loc count Hd1 Hv1 HFb Hloc Hcount Hin.
  assert (zlen chain * csize c <= 2 ^ 64) as Hbound.
  { pose proof (csize_range _ Hc) as Hcs. pose proof (max_clusters_range _ Hc) as Hm'. change MAX_CHAIN_LENGTH with 0x1000000 in Hm'.
    destruct Hh as (_ & _ & Hl & _). pose proof (zlen_nonneg chain). change (csize (with_label c lb)) with (csize c) in Hcs.
    change (max_clusters (with_label c lb)) with (max_clusters c) in Hm'. nia. }
  refine (fat32_read_spec {| context := with_label c lb; first_cluster := start_of c (cluster_num_low e) (cluster_num_high e);
      size_bytes := file_size_bytes e; cluster_chain := chain; chain_len := zlen chain |} d1 (set_vc v k1) buf loc count
    Hd1 Hv1 Hc HF eq_refl Hloc Hcount _ HFb Hin (proj1 (holds_good c v _ _ Hh))). lia.
Qed.

End fat.
