(* ===== verification/Fat32Files.v ===== *)
(** What the FAT driver guarantees: directories are searched by long and short name, chains
    are followed to their end, files are opened by path and read; on any other contents it
    returns without harm. Finally the partition scan with the driver's own label function. *)

From S2P Require Import Prelude Libc LibcCorrect Guid Part PartCorrect Disk DiskCorrect Fat32 Fat32Dir Fat32Correct.
Import Libc Guid Part Disk Fat32.


(** In a directory laid out as the format prescribes (runs of long-name entries in
    descending order before the short entry they belong to, deleted entries and labels
    anywhere), the scan returns the entry of the first file whose long name is the name
    asked for, up to case if so configured, or whose short name is its 8.3 form, and nothing
    if there is none. *)
Theorem directory_lookup_correct ci dir items name nl :
  Forall is_byte dir -> listing (entries_of dir) items -> cstr name nl -> nl !! 0%nat <> Some 0xE5 ->
  dir_loop (length (entries_of dir)) 0 (zlen dir / sizeof_entry) ci dir (Some name) (replicate lfn_len 0) 0 =
  Ret (match lookup ci nl items with Some e => Some (Entry e) | None => None end).
Proof.
  intros HF HL Hn H0. pose proof (dir_loop_search (entries_of dir) dir 0 ci name nl (replicate lfn_len 0) 0) as H.
  rewrite drop_0 in H. specialize (H eq_refl HF Hn (length_replicate _ _) ltac:(by apply Forall_replicate)).
  etransitivity; [exact H |].
  by rewrite (search_listing ci nl _ items HL (entries_shape dir) (cs_bytes _ _ Hn) H0 _ 0 (length_replicate _ _)).
Qed.

Section files.
Context {D : Type} `{BlockDevOk D}.
Implicit Types (d : D) (v : volume) (c : fat32_context).

(** [cache_cluster_chain] returns on any table, circular ones included, and changes
    nothing but the volume's cache. What it returns is the chain of the table's 12-, 16- or
    28-bit numbers from the cluster given to the first number that is no cluster, without
    repetition; and it does return it when the chain is no longer than the limit and its
    entries are in the table. *)
Theorem cluster_chain_correct c d v initial :
  dev_inv d -> vol_ok v -> ctx_ok c ->
  exists d' k r, cache_cluster_chain c d v initial = Ret (d', set_vc v k, r) /\ dev_inv d' /\ vol_ok (set_vc v k) /\
    (forall l, r = Some l -> in_whole v (fat_end c) -> chain_from (in_chain c) (fat_entry c v) initial l /\ NoDup l) /\
    (good v (fat_end c) -> forall l, chain_from (in_chain c) (fat_entry c v) initial l -> Forall (in_fat c) l ->
      zlen l <= max_clusters c -> r = Some l).
Proof.
  intros Hd Hv Hc. destruct (cache_cluster_chain_spec c d v initial Hd Hv Hc) as (d' & k & r & He & Hd' & Hv' & H1 & H2).
  exists d', k, r. split_and!; try done. intros l -> Hw. destruct (H1 l eq_refl) as (_ & _ & Hch). specialize (Hch Hw).
  split; [done |]. by eapply chain_from_NoDup.
Qed.

(** C37: whatever a volume holds and whatever the path, [fat32_open] and the label function
    return, without a panic, and change nothing but the volume's cache. *)
Theorem fat32_total ci fuel d v path l :
  dev_inv d -> vol_ok v -> cstr path l -> zlen l + 1 < 2 ^ 32 -> (length l < fuel)%nat ->
  (exists d' k r, fat32_open fuel ci d v path = Ret (d', set_vc v k, r) /\ dev_inv d' /\ vol_ok (set_vc v k)) /\
  (exists d' k r, fs_get_label ci d v = Ret (d', set_vc v k, r) /\ dev_inv d' /\ vol_ok (set_vc v k)).
Proof.
  intros Hd Hv Hs Hlen Hf. split; [|by apply fs_get_label_reads].
  destruct (fat32_open_spec ci d v path l fuel Hd Hv Hs Hlen Hf) as (d' & k & r & Ho & Hd' & Hv' & _). by exists d', k, r.
Qed.

End files.

(** * The index of a drive *)

Section index.
Context {D : Type} `{BlockDevOk D}.
Variable junk : list Z * list Z.
Hypothesis junk_ok : (zlen junk.1 = 64 /\ Forall is_byte junk.1) /\ (zlen junk.2 = 16 /\ Forall is_byte junk.2).

(** C36: the scan of a drive's partitions, with the FAT driver reading their labels, ends for
    any contents of a drive of at least 4188 bytes whose GPT headers (if any) announce at most
    [N] entries, less than 2^31, after at most [max N 260] + 1 calls of [part_get]; the partitions found are
    not empty, inside the drive, and in increasing order of their numbers. In the index it
    leaves, [volume_iterate_parts] ends from the drive and from each of its partitions, and
    visits the drive and every partition exactly once, in order. *)
Theorem drive_scan_correct ci N d pre block :
  dev_inv d -> vol_ok block -> block.(max_partition) = -1 -> block.(partition) = 0 -> block.(backing_dev) = None ->
  entries_le block N -> Z.max N 260 < 2 ^ 31 -> Forall (fun u => ~ on_disk block u) pre ->
  exists d' block' parts,
    scan (fs_get_label ci) junk (Z.to_nat (Z.max N 260 + 1)) d (zlen pre) block 0 [] = Ret (d', block', parts) /\ dev_inv d' /\
    DiskCorrect.found_ok (zlen pre) 0 N block parts /\
    forall i, zlen pre <= i <= zlen pre + zlen parts ->
      volume_iterate_parts (Z.to_nat (Z.max N 260 + 1)) (pre ++ block' :: parts) i = Ret (seqZ (zlen pre) (zlen parts + 1)).
Proof using junk_ok.
  intros Hd Hv Hm Hb0 Hback Hn HN Hpre.
  destruct (scan_spec (fs_get_label ci) (fs_get_label_reads ci) junk junk_ok N (zlen pre) (Z.to_nat (Z.max N 260 + 1)) d block 0 [])
    as (d' & k & parts & -> & Hd' & Hv' & Hf); try done; try lia. eexists d', _, parts. split_and!; try done.
  set (block' := set_vc (set_max_partition block _) k). intros i Hi. destruct Hf as [HF HS].
  rewrite <- (app_nil_r parts) at 1. rewrite app_comm_cons.
  apply (volume_iterate_parts_spec pre [] block' parts (Z.max N 260)); try done; try lia.
  - by rewrite app_nil_r.
  - apply (g_disk block), Hv.
  - simpl. rewrite Hm. lia.
  - eapply Forall_impl; [exact HF |]. intros p [Hnum Hpl]. split_and!; try lia.
    + split; apply (p_coord _ _ _ _ Hpl).
    + apply (p_backing _ _ _ _ Hpl).
    + apply (g_disk p), (p_ok _ _ _ _ Hpl).
Qed.

End index.

(** * An example: a FAT12 volume of 16 sectors *)

(** A short entry; an entry of a long name, from its 13 UCS-2 characters; a sector. *)
Definition ex_sfn (name : string) (attr cluster size : Z) : list Z :=
  bytes name ++ [attr] ++ replicate 14 0 ++ le_bytes 2 cluster ++ le_bytes 4 size.
Definition ex_lfn (seq : Z) (chars : list Z) : list Z :=
  let u := mjoin (le_bytes 2 <$> chars) in
  [seq] ++ slice u 0 10 ++ [LFN_ATTRIBUTE; 0; 0] ++ slice u 10 12 ++ [0; 0] ++ slice u 22 4.
Definition ex_sector (l : list Z) : list Z := l ++ replicate (512 - length l) 0.

Definition ex_bpb : list Z :=
  [0xeb; 0x3c; 0x90] ++ bytes "LIMINE  " ++ le_bytes 2 512 ++ [1] ++ le_bytes 2 1 ++ [1] ++ le_bytes 2 16 ++ le_bytes 2 16 ++
  [0xf8] ++ le_bytes 2 1 ++ replicate 30 0 ++ bytes "FAT12   ".
(** The entries 0xff8, 0xfff, 0xfff, 0x004 and 0xfff of 12 bits. *)
Definition ex_fat : list Z := [0xf8; 0xff; 0xff; 0xff; 0x4f; 0x00; 0xff; 0x0f].
Definition ex_boot : list Z := ex_sfn "BOOT       " 0x10 2 0.
Definition ex_kernel : list Z := ex_sfn "KERNEL~1BIN" 0x20 3 600.
Definition ex_root : list Z := ex_sfn "NEBULA     " 0x08 0 0 ++ ex_boot.
Definition ex_bootdir : list Z :=
  ex_lfn 0x42 (bytes "bin" ++ [0] ++ replicate 9 0xffff) ++ ex_lfn 0x01 (bytes "kernel-image.") ++ ex_kernel.
Definition ex_image : list Z :=
  ex_sector ex_bpb ++ ex_sector ex_fat ++ ex_sector ex_root ++ ex_sector ex_bootdir ++ replicate 512 0xaa ++ replicate 512 0xbb.
Definition ex_disk (a : Z) : Z := default 0 (ex_image !! Z.to_nat a).

Lemma ex_disk_byte a : is_byte (ex_disk a).
Proof.
  assert (forallb (fun b => (0 <=? b) && (b <? 256)) ex_image = true) as HF by (vm_compute; reflexivity).
  rewrite forallb_forall in HF. unfold ex_disk. destruct (ex_image !! Z.to_nat a) as [b|] eqn:Hb; [|done]. simpl.
  apply list_elem_of_lookup_2, list_elem_of_In, HF in Hb. unfold is_byte. lia.
Qed.
Definition ex_dev : BlockDev unit := ram_dev ex_disk.
Definition ex_ok : @BlockDevOk unit ex_dev := ram_dev_ok ex_disk ex_disk_byte.

Lemma ex_good x : x <= 8192 -> @good unit ex_dev ex_ok ram_disk x.
Proof. intros Hx. split; [by split |]. split; [done |]. exact Hx. Qed.

Definition ex_context : fat32_context :=
  {| type := 12; label := None; bytes_per_sector := 512; sectors_per_cluster := 1; reserved_sectors := 1; number_of_fats := 1;
     hidden_sectors := 0; sectors_per_fat := 1; fat_start_lba := 1; data_start_lba := 3; root_directory_cluster := 0;
     root_entries := 16; root_start := 2; root_size := 1 |}.

Lemma ex_make_context : make_context (@boot_sector unit ex_dev ex_ok ram_disk) = Some ex_context.
Proof. vm_compute. reflexivity. Qed.

(** The two directories. *)
Lemma ex_bootdir_listing : listing (entries_of (ex_sector ex_bootdir)) [(Some (bytes "kernel-image.bin"), ex_kernel)].
Proof.
  assert (entries_of (ex_sector ex_bootdir) = [ex_lfn 0x42 (bytes "bin" ++ [0] ++ replicate 9 0xffff); ex_lfn 0x01 (bytes "kernel-image.")] ++
    ex_kernel :: replicate 13 (replicate 32 0)) as -> by (vm_compute; reflexivity).
  eapply (list_long 2).
  - apply run_cons; [unfold LFN_MAX_ENTRIES; lia | by split |].
    apply (run_cons false 1); [unfold LFN_MAX_ENTRIES; lia | by split | constructor].
  - left. exists (replicate 9 0xff). vm_compute. reflexivity.
  - exact (cs_bytes _ _ (text_cstr "kernel-image.bin" eq_refl)).
  - by split.
  - by apply list_end.
Qed.
Lemma ex_root_listing : listing (entries_of (ex_sector ex_root)) [(None, ex_boot)].
Proof.
  assert (entries_of (ex_sector ex_root) = ex_sfn "NEBULA     " 0x08 0 0 :: ex_boot :: replicate 14 (replicate 32 0)) as ->
    by (vm_compute; reflexivity).
  apply list_skip; [split; [done | vm_compute; by left] |]. apply list_short; [by split |]. by apply list_end.
Qed.

Lemma directory_lookup_correct_witness :
  dir_loop 16 0 16 true (ex_sector ex_bootdir) (Some (text "Kernel-Image.bin")) (replicate lfn_len 0) 0 = Ret (Some (Entry ex_kernel)).
Proof.
  refine (directory_lookup_correct true (ex_sector ex_bootdir) _ (text "Kernel-Image.bin") (bytes "Kernel-Image.bin") _ ex_bootdir_listing _ _).
  - apply Forall_forall. intros x Hx. assert (forallb (fun b => (0 <=? b) && (b <? 256)) (ex_sector ex_bootdir) = true) as HF by (vm_compute; reflexivity).
    rewrite forallb_forall in HF. apply list_elem_of_In, HF in Hx. unfold is_byte. lia.
  - exact (text_cstr "Kernel-Image.bin" eq_refl).
  - done.
Defined.

(** The file's chain, and the way to it. *)
Lemma ex_ctx_ok : ctx_ok ex_context.
Proof. constructor; simpl; lia. Qed.
Lemma ex_chain : @holds unit ex_dev ex_ok ex_context ram_disk 3 [3; 4].
Proof.
  split; [apply chain_more; [done |]; apply chain_last; by vm_compute |].
  split; [repeat (apply Forall_cons; split; [unfold in_fat; vm_compute; discriminate |]); constructor |].
  split; [vm_compute; discriminate |]. repeat (apply Forall_cons; split; [apply ex_good; vm_compute; discriminate |]). constructor.
Qed.
Lemma ex_resolves :
  resolves false (@dir_bytes unit ex_dev ex_ok ex_context ram_disk) (root_directory ex_context) (bytes "boot/kernel-image.bin") ex_kernel.
Proof.
  eapply (res_dir _ _ _ (ex_sector ex_root) _ _ (bytes "boot") (bytes "kernel-image.bin") ex_boot); [| exact ex_root_listing | done..|].
  - split; [done |]. split; [apply ex_good; vm_compute; discriminate |]. exists 0%nat. split; [vm_compute; reflexivity |]. vm_compute. reflexivity.
  - eapply (res_file _ _ _ (ex_sector ex_bootdir)); [| exact ex_bootdir_listing | done..].
    exists [2]. split; [|split; [vm_compute; discriminate | vm_compute; reflexivity]].
    split; [apply chain_last; by vm_compute |]. split; [apply Forall_singleton; unfold in_fat; vm_compute; discriminate |].
    split; [vm_compute; discriminate |]. apply Forall_singleton, ex_good. vm_compute. discriminate.
Qed.

Lemma cluster_chain_correct_witness :
  exists d' k, cache_cluster_chain (BlockDev0 := ex_dev) ex_context tt ram_disk 3 = Ret (d', set_vc ram_disk k, Some [3; 4]).
Proof.
  destruct (@cluster_chain_correct unit ex_dev ex_ok ex_context tt ram_disk 3) as (d' & k & r & Hr & _ & _ & _ & Hs).
  - done.
  - apply ram_disk_ok.
  - exact ex_ctx_ok.
  - destruct ex_chain as (Hc & Hf & Hl & _). exists d', k.
    assert (fat_end ex_context <= 8192) as Hend by (vm_compute; discriminate).
    specialize (Hs (ex_good _ Hend) [3; 4] Hc Hf Hl). subst r. exact Hr.
Defined.

Lemma fat32_total_witness :
  exists d' k r, @fat32_open unit ex_dev 30 true tt ram_disk (text "/no/such/file") = Ret (d', set_vc ram_disk k, r).
Proof.
  destruct (@fat32_total unit ex_dev ex_ok true 30 tt ram_disk (text "/no/such/file") (bytes "/no/such/file"))
    as [(d' & k & r & Hr & _) _].
  - done.
  - apply ram_disk_ok.
  - exact (text_cstr "/no/such/file" eq_refl).
  - vm_compute. reflexivity.
  - vm_compute. lia.
  - exists d', k, r. exact Hr.
Defined.

(** The example disk has no partition table. *)
Lemma drive_scan_correct_witness :
  exists d' block' parts, @scan unit ex_dev (@fs_get_label unit ex_dev false) (replicate 64 0, replicate 16 0) 261 tt 0
      (set_max_partition ram_disk (-1)) 0 [] = Ret (d', block', parts) /\
    volume_iterate_parts 261 (block' :: parts) 0 = Ret (seqZ 0 (zlen parts + 1)).
Proof.
  destruct (@drive_scan_correct unit ex_dev ex_ok (replicate 64 0, replicate 16 0)) with
    (ci := false) (N := 0) (d := tt) (pre := @nil volume) (block := set_max_partition ram_disk (-1))
    as (d' & block' & parts & Hs & _ & _ & Hi).
  - split; (split; [done | by apply Forall_replicate]).
  - done.
  - apply vol_ok_set_max, ram_disk_ok.
  - done.
  - done.
  - done.
  - split; [right; vm_compute; discriminate |]. intros x Hx. rewrite !elem_of_cons, elem_of_nil in Hx.
    destruct Hx as [-> | [-> | []]]; vm_compute; discriminate.
  - lia.
  - done.
  - exists d', block', parts. split; [exact Hs |]. apply (Hi 0). pose proof (zlen_nonneg parts). change (zlen (@nil volume)) with 0. lia.
Defined.

(** A deleted entry is not skipped in the search for the label: of a volume whose label was
    deleted, the old one is returned with its first character replaced by the mark 0xe5. *)
Lemma deleted_label_found :
  dir_loop 1 0 1 false ((ex_sfn "NEBULA     " 0x08 0 0).[0 := 0xE5]) None (replicate lfn_len 0) 0 =
  Ret (Some (Label (0xE5 :: bytes "EBULA" ++ replicate 6 0))).
Proof. vm_compute. reflexivity. Qed.
