(* ===== verification/File.v ===== *)
(** The file layer, [common/fs/file.s2.c]: [fopen] tries the file systems in turn, and a
    read goes to the driver that opened the file. The network driver is a parameter. Closing
    a file only releases memory. *)

From S2P Require Import Prelude Libc Guid Part Iso9660 Fat32.
Import Libc Guid Part.

Module File.

(** What a handle's [fd] points to, with the [read] function that belongs to it. *)
Inductive open_file :=
| IsoFile (f : Iso9660.iso9660_file_handle)
| FatFile (f : Fat32.fat32_file_handle)
| MemFile (data : list Z).

Record file_handle := { fd : open_file; file_size : Z; path : option (list Z); path_len : Z }.

Section file.
Context {D : Type} `{!BlockDev D}.
(** [tftp_open(part, "", filename)]: the contents of the file. *)
Variable tftp_open : (Z -> Z) -> option (list Z).

Definition iso_handle (f : Iso9660.iso9660_file_handle) (path : list Z) : file_handle :=
  {| fd := IsoFile f; file_size := f.(Iso9660.total_size); path := Some path; path_len := zlen path |}.
Definition fat_handle (f : Fat32.fat32_file_handle) (path : list Z) : file_handle :=
  {| fd := FatFile f; file_size := f.(Fat32.size_bytes); path := Some path; path_len := zlen path |}.

(** The handle [tftp_open] returns for the file [name], with what the server has sent: its path is
    the name with a slash before it, whether it has one or not, and a 0 after it. *)
Definition tftp_file (fuel : nat) (contents : option (list Z)) (name : Z -> Z) : outcome (option file_handle) :=
  match contents with
  | None => Ret None
  | Some data =>
      name_len ← strlen fuel name;
      Ret (Some {| fd := MemFile data; file_size := zlen data;
                   path := Some (47 :: load_bytes name 0 (Z.to_nat name_len) ++ [0]); path_len := 1 + name_len + 1 |})
  end.

(** [filename_new]: the file's name with a slash before it, if it has none. The buffer has
    [strlen(filename) + 2] bytes, the last of which are 0. *)
Definition filename_new (filename : Z -> Z) (len : Z) : list Z :=
  if negb (filename 0 =? 47) then 47 :: load_bytes filename 0 (Z.to_nat len) ++ [0]
  else load_bytes filename 0 (Z.to_nat len) ++ [0; 0].

Definition fopen (fuel : nat) (base : Z) (case_insensitive : bool) (contexts : list Iso9660.iso9660_context)
    (d : D) (vol : Z) (part : volume) (filename : Z -> Z)
    : outcome (D * volume * (list Iso9660.iso9660_context * option file_handle)) :=
  len ← strlen fuel filename;
  let name := filename_new filename len in
  let str := fun i => name.[i] in
  if part.(pxe) then
    r ← tftp_file (length name) (tftp_open str) str;
    Ret (d, part, (contexts, r))
  else
    '(d, part, (contexts, r)) ← Iso9660.iso9660_open fuel base case_insensitive contexts d vol part str;
    match r with
    | Some f => Ret (d, part, (contexts, Some (iso_handle f name)))
    | None =>
        '(d, part, r) ← Fat32.fat32_open fuel case_insensitive d part str;
        Ret (d, part, (contexts, match r with Some f => Some (fat_handle f name) | None => None end))
    end.

(** The files of this layer that are in memory are below 4 GiB. *)
Definition fread (h : file_handle) (d : D) (v : volume) (buf : list Z) (loc count : Z) : outcome (D * volume * list Z * Z) :=
  match h.(fd) with
  | MemFile data =>
      if (loc >=? h.(file_size)) || (count >? h.(file_size) - loc) then Panic
      else Ret (d, v, blit buf 0 (slice data loc count), count)
  | IsoFile f => Iso9660.iso9660_read f d v buf loc count
  | FatFile f => Fat32.fat32_read f d v buf loc count
  end.

End file.
End File.
