(* ===== verification/FileFiles.v ===== *)
(** [fopen] finds a file on the volume's file system, and reads return its bytes; files through [fopen]
    and [fread] on the volumes of the two file systems. *)

From S2P Require Import Prelude Libc LibcCorrect Guid Part PartCorrect Iso9660 Iso9660Dir Iso9660Correct Iso9660Files Fat32 Fat32Dir Fat32Correct Fat32Files File.
Import Libc Guid Part File.

(** A string in memory that ends where [n] of its bytes have been copied. *)
Lemma load_cstr f l : cstr f l -> load_bytes f 0 (length l) = l.
Proof.
  intros Hc. apply list_eq. intros i. unfold load_bytes. rewrite list_lookup_fmap. destruct (decide (i < length l)%nat) as [Hi|Hi].
  - rewrite lookup_seqZ_lt by lia. destruct (lookup_lt_is_Some_2 l i Hi) as [b Hb]. rewrite Hb. simpl. f_equal. apply (cs_at _ _ Hc _ _ Hb).
  - rewrite lookup_seqZ_ge, (lookup_ge_None_2 l) by lia. done.
Qed.

(** The path that is looked up: the name with a slash in front. *)
Definition rooted (l : list Z) : list Z := if bool_decide (l !! 0%nat = Some 47) then l else 47 :: l.

Lemma filename_new_cstr f l : cstr f l -> cstr (fun i => (filename_new f (zlen l)).[i]) (rooted l).
Proof.
  intros Hc. pose proof (cs_bytes _ _ Hc) as HF. unfold filename_new, rooted, zlen. rewrite Nat2Z.id, (load_cstr _ _ Hc).
  assert (f 0 = match l with [] => 0 | b :: _ => b end) as H0 by apply (cstr_head f 0 l), cstr_tail0, Hc.
  assert (forall n, Forall (fun b => 0 < b < 256) n -> forall k, cstr (fun i => (n ++ replicate (S k) 0).[i]) n) as Hz.
  { intros n Hn k. destruct (text_of_cstr (n ++ replicate (S k) 0) (length n)) as [Hx _].
    - apply Forall_app. split; [|by apply Forall_replicate]. eapply Forall_impl; [exact Hn |]. unfold is_byte. simpl. lia.
    - by apply list_lookup_middle.
    - cbn [replicate] in Hx |- *. by rewrite text_of_app in Hx. }
  destruct l as [|b l]; [rewrite H0; cbn [Z.eqb negb app]; apply (Hz [47]) with (k := 0%nat); by repeat constructor |].
  rewrite H0. destruct (Z.eqb_spec b 47) as [->|Hne]; cbn [negb].
  - rewrite bool_decide_true by done. apply (Hz (47 :: l) HF 1%nat).
  - rewrite bool_decide_false by (simpl; congruence). apply (Hz (47 :: b :: l)) with (k := 0%nat). by constructor.
Qed.
Lemma rooted_length l : (length (rooted l) <= S (length l))%nat.
Proof. unfold rooted. case_bool_decide; simpl; lia. Qed.

Section file.
Context {D : Type} `{BlockDevOk D}.
Implicit Types (d : D) (v : volume).

(** The volume is not an ISO 9660 volume: it is too small, or the signature is not there. *)
Definition not_iso v : Prop :=
  v.(sect_count) * 512 < 0x8006 \/ (good v 0x8006 /\ load_bytes (vbyte v) 0x8001 5 <> bytes "CD001").

Lemma iso9660_open_not fuel base ci cs d vol v path : dev_inv d -> vol_ok v -> not_iso v ->
  keeps v (Iso9660.iso9660_open fuel base ci cs d vol v path) (fun r => r = (cs, None)).
Proof.
  intros Hd Hv [Hs | [Hg Hne]]; [|by apply iso9660_open_other]. unfold Iso9660.iso9660_open. destruct Hv as [Hgeo Hc].
  change (Iso9660.FIRST_VOLUME_DESCRIPTOR * Iso9660.SECTOR_SIZE + 1) with 0x8001.
  unfold volume_read. rewrite (g_disk v Hgeo). pose proof (g_count v Hgeo). unfold UINT64_MAX.
  rewrite (proj2 (Z.eqb_neq (sect_count v) _)) by lia. cbn [negb]. unfold CHECKED_MUL. rewrite (proj2 (Z.ltb_lt _ _)) by lia.
  replace (negb ((0x8001 >=? sect_count v * 512) || (5 >? sect_count v * 512 - 0x8001))) with false
    by (destruct (Z.geb_spec 0x8001 (sect_count v * 512)), (Z.gtb_spec 5 (sect_count v * 512 - 0x8001)); done || lia).
  cbn [negb mbind outcome_bind]. by apply keeps_ret.
Qed.

(** * The files of a volume *)

(** [path] leads to a file of [n] bytes, which are [data]. *)
Inductive file_at (ci : bool) (base : Z) (cs : list Iso9660.iso9660_context) (vol : Z) v : list Z -> Z -> list Z -> Prop :=
| on_iso ss comps ss' o r l :
    iso_volume v ss -> cached_root vol ss cs -> iso_resolves ci (iso_dir v) ss comps ss' o r l -> Forall sector_ok ss' -> Forall (fun rs => rs <> []) ss' ->
    Forall (fun r => good v (lba r * 2048 + size r)) (file_recs r l) ->
    0 <= base -> base mod 2048 = 0 -> base + zlen (dir_of ss') + 2048 <= 2 ^ 64 ->
    file_at ci base cs vol v (path_text comps) (total (file_recs r l)) (file_bytes v (ext <$> file_recs r l))
| on_fat c k p e chain :
    not_iso v -> good v 512 -> Fat32.make_context (boot_sector v) = Some c -> good v (fat_end c) -> p !! 0%nat <> Some 47 ->
    resolves ci (dir_bytes c v) (Fat32.root_directory c) p e ->
    holds c v (start_of c (Fat32.cluster_num_low e) (Fat32.cluster_num_high e)) chain ->
    Fat32.file_size_bytes e <= zlen chain * csize c ->
    file_at ci base cs vol v (replicate k 47 ++ p) (Fat32.file_size_bytes e) (load_bytes (file_byte c v chain) 0 (Z.to_nat (Fat32.file_size_bytes e))).

Lemma fopen_spec (tftp : (Z -> Z) -> option (list Z)) fuel base ci cs d vol v filename name n data :
  dev_inv d -> vol_ok v -> cstr filename name -> zlen name + 2 < 2 ^ 32 -> (S (length name) < fuel)%nat ->
  file_at ci base cs vol v (rooted name) n data ->
  exists d' k cs' h, fopen tftp fuel base ci cs d vol v filename = Ret (d', set_vc v k, (cs', Some h)) /\ dev_inv d' /\ vol_ok (set_vc v k) /\
    h.(file_size) = n /\
    forall d1 k1 buf loc count, dev_inv d1 -> vol_ok (set_vc v k1) -> Forall is_byte buf -> 0 <= loc -> 0 <= count <= zlen buf -> loc + count <= n ->
      exists d2 k2, fread h d1 (set_vc v k1) buf loc count = Ret (d2, set_vc v k2, slice data loc count ++ drop (Z.to_nat count) buf, count) /\
        dev_inv d2 /\ vol_ok (set_vc v k2).
Proof.
  intros Hd Hv Hs Hlen Hf Hat. pose proof (filename_new_cstr filename name Hs) as Hpath. pose proof (rooted_length name) as Hrl.
  unfold fopen. rewrite (strlen_spec fuel filename name Hs ltac:(lia)). cbn [mbind outcome_bind]. rewrite (g_disk v (proj1 Hv)).
  set (str := fun i => (filename_new filename (zlen name)).[i]) in *. set (nm := filename_new filename (zlen name)) in *.
  destruct Hat as [ss comps ss' o r l Hi Hcs Hres Hok Hne Hg Hb Hbm Hbe|c k p e chain Hno Hg Hm Hgf Hp Hres Hh Hsz].
  - destruct (iso9660_file_spec fuel base ci cs d vol v str ss comps ss' o r l) as (d' & k & cs' & f & -> & Hd' & Hv' & _ & Ht & Hread); try done; try lia.
    cbn [mbind outcome_bind]. exists d', k, cs', (iso_handle f nm). split_and!; try done.
    intros d1 k1 buf loc count Hd1 Hv1 HF Hl Hc Hin. apply Hread; try done. lia.
  - destruct (iso9660_open_not fuel base ci cs d vol v str Hd Hv Hno) as (d0 & k0 & x & -> & Hd0 & Hv0 & ->). cbn [mbind outcome_bind].
    destruct (fat32_file_spec ci fuel d0 (set_vc v k0) c str k p e chain) as (d' & k' & f & -> & Hd' & Hv' & Ht & Hread); try done;
      [unfold zlen in *; lia | lia |]. cbn [mbind outcome_bind].
    exists d', k', cs, (fat_handle f nm). split_and!; try done. intros d1 k1 buf loc count Hd1 Hv1 HF Hl Hc Hin.
    destruct (Hread d1 k1 buf loc count) as (d2 & k2 & Hr & Hd2 & Hv2); try done; [lia |].
    exists d2, k2. split; [|done]. rewrite slice_load by lia. exact Hr.
Qed.

End file.

Section files.
Context {D : Type} `{BlockDevOk D}.
Implicit Types (d : D) (v : volume).

(** C25: [fopen] of the path of a file, with or without the first slash, on an ISO 9660 volume or
    on a FAT volume whose directories and chains are laid out as the formats prescribe, finds that
    file; a read of a range of it returns exactly the file's bytes there, in the order of its
    extents or of the chain of its clusters, whatever the block cache held. *)
Theorem fopen_correct (tftp : (Z -> Z) -> option (list Z)) fuel base ci cs d vol v filename name n data :
  dev_inv d -> vol_ok v -> cstr filename name -> zlen name + 2 < 2 ^ 32 -> (S (length name) < fuel)%nat ->
  file_at ci base cs vol v (rooted name) n data ->
  exists d' k cs' h, fopen tftp fuel base ci cs d vol v filename = Ret (d', set_vc v k, (cs', Some h)) /\ dev_inv d' /\ vol_ok (set_vc v k) /\
    h.(file_size) = n /\
    forall d1 k1 buf loc count, dev_inv d1 -> vol_ok (set_vc v k1) -> Forall is_byte buf -> 0 <= loc -> 0 <= count <= zlen buf -> loc + count <= n ->
      exists d2 k2, fread h d1 (set_vc v k1) buf loc count = Ret (d2, set_vc v k2, slice data loc count ++ drop (Z.to_nat count) buf, count) /\
        dev_inv d2 /\ vol_ok (set_vc v k2).
Proof. apply fopen_spec. Qed.
End files.

(** A file on a FAT volume: its first cluster is full of 0xaa, its second of 0xbb. *)
Lemma ex_fat_file base cs vol : exists data, @file_at unit ex_dev ex_ok false base cs vol ram_disk (rooted (bytes "boot/kernel-image.bin")) 600 data /\ zlen data = 600 /\ slice data 510 4 = [0xaa; 0xaa; 0xbb; 0xbb].
Proof.
  eexists. split; [|split].
  - apply (on_fat false base cs vol ram_disk ex_context 1 (bytes "boot/kernel-image.bin") ex_kernel [3; 4]).
    + left. done.
    + by apply ex_good.
    + exact ex_make_context.
    + apply ex_good. vm_compute. discriminate.
    + done.
    + exact ex_resolves.
    + exact ex_chain.
    + vm_compute. discriminate.
  - vm_compute. reflexivity.
  - vm_compute. reflexivity.
Qed.
(** A file on an ISO 9660 volume: its first extent is full of 0xaa, its second of 0xbb. *)
Lemma ex_iso_file : exists data, @file_at unit ex_iso_dev ex_iso_ok false 0x100000 [] 7 ex_volume (rooted (bytes "/boot/kernel-image")) 3048 data /\ slice data 2046 4 = [0xaa; 0xaa; 0xbb; 0xbb].
Proof.
  assert (zlen (dir_of [ex_boot_dir]) = 2048) as Hz by (vm_compute; reflexivity).
  pose proof (@on_iso unit ex_iso_dev ex_iso_ok false 0x100000 [] 7 ex_volume [ex_root_dir] [(1%nat, bytes "boot"); (0%nat, bytes "kernel-image")] [ex_boot_dir] 112
    (ex_extent 19 2048 0x80) [(180, ex_extent 20 1000 0)]) as H. rewrite ex_file_recs, Hz in H. eexists. split; [apply H |].
  - exact ex_iso_volume.
  - constructor.
  - exact ex_iso_resolves.
  - exact iso_boot_ok.
  - by constructor.
  - apply Forall_cons. split; [apply iso_good; vm_compute; discriminate |]. apply Forall_singleton, iso_good. vm_compute. discriminate.
  - lia.
  - done.
  - lia.
  - vm_compute. reflexivity.
Qed.

Lemma fopen_correct_witness :
  (exists d' k cs' h d2 k2, @fopen unit ex_dev (fun _ => None) 30 0x100000 false [] tt 7 ram_disk (text "boot/kernel-image.bin") = Ret (d', set_vc ram_disk k, (cs', Some h)) /\
    @fread unit ex_dev h d' (set_vc ram_disk k) (replicate 5 0) 510 4 = Ret (d2, set_vc ram_disk k2, [0xaa; 0xaa; 0xbb; 0xbb; 0], 4)) /\
  (exists d' k cs' h d2 k2, @fopen unit ex_iso_dev (fun _ => None) 30 0x100000 false [] tt 7 ex_volume (text "/boot/kernel-image") = Ret (d', set_vc ex_volume k, (cs', Some h)) /\
    @fread unit ex_iso_dev h d' (set_vc ex_volume k) (replicate 5 0) 2046 4 = Ret (d2, set_vc ex_volume k2, [0xaa; 0xaa; 0xbb; 0xbb; 0], 4)).
Proof.
  assert (Forall is_byte (replicate 5 0)) as HF by by apply Forall_replicate. assert (0 <= 4 <= zlen (replicate 5 0)) as Hc by (split; by vm_compute).
  assert (0 <= 510) as H0 by lia. assert (0 <= 2046) as H0' by lia. assert (510 + 4 <= 600) as Hl by lia. assert (2046 + 4 <= 3048) as Hl' by lia. split.
  - destruct (ex_fat_file 0x100000 [] 7) as (data & Hat & _ & Hs).
    destruct (@fopen_correct unit ex_dev ex_ok (fun _ => None) 30 0x100000 false [] tt 7 ram_disk (text "boot/kernel-image.bin") (bytes "boot/kernel-image.bin") 600 data)
      as (d' & k & cs' & h & Ho & Hd & Hv & _ & Hread); [done | apply ram_disk_ok | exact (text_cstr "boot/kernel-image.bin" eq_refl) | by vm_compute | vm_compute; lia | exact Hat |].
    destruct (Hread d' k (replicate 5 0) 510 4 Hd Hv HF H0 Hc Hl) as (d2 & k2 & Hr & _). rewrite Hs in Hr. exists d', k, cs', h, d2, k2. split; [exact Ho | exact Hr].
  - destruct ex_iso_file as (data & Hat & Hs).
    destruct (@fopen_correct unit ex_iso_dev ex_iso_ok (fun _ => None) 30 0x100000 false [] tt 7 ex_volume (text "/boot/kernel-image") (bytes "/boot/kernel-image") 3048 data)
      as (d' & k & cs' & h & Ho & Hd & Hv & _ & Hread); [done | exact iso_volume_ok | exact (text_cstr "/boot/kernel-image" eq_refl) | by vm_compute | vm_compute; lia | exact Hat |].
    destruct (Hread d' k (replicate 5 0) 2046 4 Hd Hv HF H0' Hc Hl') as (d2 & k2 & Hr & _). rewrite Hs in Hr. exists d', k, cs', h, d2, k2. split; [exact Ho | exact Hr].
Defined.
