(* ===== verification/Blake2b.v ===== *)
(** BLAKE2b and the hashing filter: [common/crypt/blake2b.c], and [fread] of
    [common/fs/file.s2.c]. Integers are 64-bit words; the byte order is little endian, as
    [load64_le] and [store64_le] assume. *)

From S2P Require Import Prelude Libc Guid.
Import Libc Guid.

Module Blake2b.

Definition BLOCK_BYTES : Z := 128.
Definition OUT_BYTES : Z := 64.

Definition blake2b_iv : list Z :=
  [0x6a09e667f3bcc908; 0xbb67ae8584caa73b; 0x3c6ef372fe94f82b; 0xa54ff53a5f1d36f1;
   0x510e527fade682d1; 0x9b05688c2b3e6c1f; 0x1f83d9abfb41bd6b; 0x5be0cd19137e2179].

Definition blake2b_sigma : list (list Z) :=
  [[0; 1; 2; 3; 4; 5; 6; 7; 8; 9; 10; 11; 12; 13; 14; 15];
   [14; 10; 4; 8; 9; 15; 13; 6; 1; 12; 0; 2; 11; 7; 5; 3];
   [11; 8; 12; 0; 5; 2; 15; 13; 10; 14; 3; 6; 7; 1; 9; 4];
   [7; 9; 3; 1; 13; 12; 11; 14; 2; 6; 5; 10; 4; 0; 15; 8];
   [9; 0; 5; 7; 2; 4; 10; 15; 14; 1; 11; 12; 6; 8; 3; 13];
   [2; 12; 6; 10; 0; 11; 8; 3; 4; 13; 7; 5; 15; 14; 1; 9];
   [12; 5; 1; 15; 14; 13; 4; 10; 0; 7; 6; 3; 9; 2; 8; 11];
   [13; 11; 7; 14; 12; 1; 3; 9; 5; 0; 15; 4; 8; 6; 2; 10];
   [6; 15; 14; 9; 11; 3; 0; 8; 12; 2; 13; 7; 1; 4; 10; 5];
   [10; 2; 8; 4; 7; 6; 1; 5; 15; 11; 9; 14; 3; 12; 13; 0];
   [0; 1; 2; 3; 4; 5; 6; 7; 8; 9; 10; 11; 12; 13; 14; 15];
   [14; 10; 4; 8; 9; 15; 13; 6; 1; 12; 0; 2; 11; 7; 5; 3]].

(** [last_node] is never read. *)
Record state := { h : list Z; t0 : Z; t1 : Z; f0 : Z; f1 : Z; buf : list Z; buf_len : Z }.

Definition load64_le (src : list Z) (off : Z) : Z := of_le (slice src off 8).
Definition store64_le (dst : list Z) (off val : Z) : list Z := blit dst off (le_bytes 8 val).

Definition blake2b_increment_counter (s : state) (inc : Z) : state :=
  let t0' := u64 (s.(t0) + inc) in
  {| h := s.(h); t0 := t0'; t1 := u64 (s.(t1) + b2z (t0' <? inc)); f0 := s.(f0); f1 := s.(f1);
     buf := s.(buf); buf_len := s.(buf_len) |}.

Definition rotr64 (w c : Z) : Z := Z.lor (Z.shiftr w c) (u64 (Z.shiftl w (64 - c))).

(** The macro [G]; [a] to [d] are indices into [v]. *)
Definition G (m : list Z) (r i a b c d : Z) (v : list Z) : list Z :=
  let v := v.[a := u64 (v.[a] + v.[b] + m.[(blake2b_sigma.[r]).[2 * i + 0]])] in
  let v := v.[d := rotr64 (Z.lxor v.[d] v.[a]) 32] in
  let v := v.[c := u64 (v.[c] + v.[d])] in
  let v := v.[b := rotr64 (Z.lxor v.[b] v.[c]) 24] in
  let v := v.[a := u64 (v.[a] + v.[b] + m.[(blake2b_sigma.[r]).[2 * i + 1]])] in
  let v := v.[d := rotr64 (Z.lxor v.[d] v.[a]) 16] in
  let v := v.[c := u64 (v.[c] + v.[d])] in
  v.[b := rotr64 (Z.lxor v.[b] v.[c]) 63].

Definition ROUND (m : list Z) (r : Z) (v : list Z) : list Z :=
  let v := G m r 0 0 4 8 12 v in
  let v := G m r 1 1 5 9 13 v in
  let v := G m r 2 2 6 10 14 v in
  let v := G m r 3 3 7 11 15 v in
  let v := G m r 4 0 5 10 15 v in
  let v := G m r 5 1 6 11 12 v in
  let v := G m r 6 2 7 8 13 v in
  G m r 7 3 4 9 14 v.

Definition blake2b_compress (s : state) (block : list Z) : state :=
  let m := (fun i => load64_le block (i * 8)) <$> seqZ 0 16 in
  let v := take 8 s.(h) ++
    [blake2b_iv.[0]; blake2b_iv.[1]; blake2b_iv.[2]; blake2b_iv.[3];
     Z.lxor blake2b_iv.[4] s.(t0); Z.lxor blake2b_iv.[5] s.(t1);
     Z.lxor blake2b_iv.[6] s.(f0); Z.lxor blake2b_iv.[7] s.(f1)] in
  let v := for_up 12 0 (ROUND m) v in
  {| h := (fun i => Z.lxor (Z.lxor s.(h).[i] v.[i]) v.[i + 8]) <$> seqZ 0 8;
     t0 := s.(t0); t1 := s.(t1); f0 := s.(f0); f1 := s.(f1); buf := s.(buf); buf_len := s.(buf_len) |}.

(** [struct blake2b_param]: the fields that are set are its first four bytes. *)
Definition param : list Z := [OUT_BYTES; 0; 1; 1] ++ replicate 60 0.

Definition blake2b_init : state :=
  {| h := (fun i => Z.lxor blake2b_iv.[i] (load64_le param (8 * i))) <$> seqZ 0 8;
     t0 := 0; t1 := 0; f0 := 0; f1 := 0; buf := replicate 128 0; buf_len := 0 |}.

Definition set_buf (s : state) (b : list Z) (n : Z) : state :=
  {| h := s.(h); t0 := s.(t0); t1 := s.(t1); f0 := s.(f0); f1 := s.(f1); buf := b; buf_len := n |}.

(** The [while] loop: each iteration takes a block of [inp]. *)
Fixpoint update_loop (fuel : nat) (s : state) (inp : list Z) : outcome (state * list Z) :=
  if zlen inp >? BLOCK_BYTES then
    match fuel with
    | O => Diverge
    | S fuel =>
        let s := blake2b_increment_counter s BLOCK_BYTES in
        let s := blake2b_compress s (take 128 inp) in
        update_loop fuel s (drop 128 inp)
    end
  else Ret (s, inp).

Definition blake2b_update (s : state) (inp : list Z) : outcome state :=
  if zlen inp =? 0 then Ret s
  else
    let left := s.(buf_len) in
    let fill := BLOCK_BYTES - left in
    '(s, inp) ←
      (if zlen inp >? fill then
         let s := set_buf s (blit s.(buf) left (slice inp 0 fill)) 0 in
         let s := blake2b_increment_counter s BLOCK_BYTES in
         let s := blake2b_compress s s.(buf) in
         update_loop (length inp) s (drop (Z.to_nat fill) inp)
       else Ret (s, inp));
    Ret (set_buf s (blit s.(buf) s.(buf_len) inp) (s.(buf_len) + zlen inp)).

(** The state it leaves and the digest. *)
Definition blake2b_final (s : state) : state * list Z :=
  let s := blake2b_increment_counter s s.(buf_len) in
  let s := {| h := s.(h); t0 := s.(t0); t1 := s.(t1); f0 := UINT64_MAX; f1 := s.(f1);
              buf := blit s.(buf) s.(buf_len) (replicate (Z.to_nat (BLOCK_BYTES - s.(buf_len))) 0); buf_len := s.(buf_len) |} in
  let s := blake2b_compress s s.(buf) in
  (s, for_up 8 0 (fun i buffer => store64_le buffer (8 * i) s.(h).[i]) (replicate 64 0)).

Definition blake2b (inp : list Z) : outcome (list Z) :=
  s ← blake2b_update blake2b_init inp; Ret (blake2b_final s).2.

(** * The filter *)

(** [struct file_handle]: the data a memory file points to, or the driver's [read]. *)
Record file_handle := {
  is_memfile : bool; is_high_mem : bool; size : Z; fd : list Z; read : Z -> Z -> outcome (list Z) }.

(** The bytes read; their number is the result. *)
Definition fread (fh : file_handle) (loc count : Z) : outcome (list Z) :=
  if fh.(is_memfile) then
    if fh.(is_high_mem) then Panic
    else if (loc >=? fh.(size)) || (count >? fh.(size) - loc) then Panic
    else Ret (slice fh.(fd) loc count)
  else fh.(read) loc count.

Record blake2b_handle := { source : file_handle; hstate : state; pos : Z; finalized : bool; digest : list Z }.

Definition blake2b_open (source : file_handle) : blake2b_handle :=
  {| source := source; hstate := blake2b_init; pos := 0; finalized := false; digest := replicate 64 0 |}.

Definition blake2b_read (hd : blake2b_handle) (loc count : Z) : outcome (blake2b_handle * list Z) :=
  if negb (loc =? hd.(pos)) then Panic
  else
    got ← fread hd.(source) loc count;
    s ← blake2b_update hd.(hstate) got;
    Ret ({| source := hd.(source); hstate := s; pos := u64 (hd.(pos) + zlen got); finalized := hd.(finalized);
            digest := hd.(digest) |}, got).

Definition blake2b_check_hash (hd : blake2b_handle) (reference_hash : list Z) : blake2b_handle * bool :=
  let hd :=
    if negb hd.(finalized) then
      let '(s, out) := blake2b_final hd.(hstate) in
      {| source := hd.(source); hstate := s; pos := hd.(pos); finalized := true; digest := out |}
    else hd in
  (hd, memcmp (fun i => hd.(digest).[i]) (fun i => reference_hash.[i]) OUT_BYTES =? 0).

End Blake2b.
