(* ===== verification/Blake2bSpec.v ===== *)
(** BLAKE2b's compression function as RFC 7693 defines it (sections 2.1 to 3.2), apart from the
    code: words are numbers, the working vector is four rows of four words, mixed by columns and
    by diagonals. [compress_F]: [blake2b_compress] computes it. *)

From S2P Require Import Prelude Libc Guid Blake2b.
Import Libc Guid Blake2b.

Module Rfc7693.

(** The initialization vector: the fractional parts of the square roots of the first eight
    primes, to 64 bits. *)
Definition IV : list Z := (fun p => Z.sqrt (p * 2 ^ 128) mod 2 ^ 64) <$> [2; 3; 5; 7; 11; 13; 17; 19].

(** The message schedule, its rows written in hexadecimal. *)
Definition schedule : list (list Z) :=
  (fun row => (fun c => if c <? 58 then c - 48 else c - 55) <$> bytes row) <$>
  ["0123456789ABCDEF"; "EA489FD61C02B753"; "B8C052FDAE367194"; "7931DCBE265A40F8"; "905724AFE1BC683D";
   "2C6A0B834D75FE19"; "C51FED4A0763928B"; "DB7EC13950F4862A"; "6FE9B308C2D714A5"; "A2847615FB9E3CD0"]%string.

(** [x >>> n]. *)
Definition ror (n x : Z) : Z := x / 2 ^ n + x mod 2 ^ n * 2 ^ (64 - n).

(** The mixing function, with two message words. *)
Definition mix (x y a b c d : Z) : Z * Z * Z * Z :=
  let a := (a + b + x) mod 2 ^ 64 in
  let d := ror 32 (Z.lxor d a) in
  let c := (c + d) mod 2 ^ 64 in
  let b := ror 24 (Z.lxor b c) in
  let a := (a + b + y) mod 2 ^ 64 in
  let d := ror 16 (Z.lxor d a) in
  let c := (c + d) mod 2 ^ 64 in
  let b := ror 63 (Z.lxor b c) in
  (a, b, c, d).

Definition rows : Type := list Z * list Z * list Z * list Z.

(** The columns of four rows, each mixed with two words chosen by [s]. *)
Fixpoint columns (m s A B C D : list Z) : rows :=
  match s, A, B, C, D with
  | x :: y :: s, a :: A, b :: B, c :: C, d :: D =>
      let '(a, b, c, d) := mix m.[x] m.[y] a b c d in
      let '(A, B, C, D) := columns m s A B C D in
      (a :: A, b :: B, c :: C, d :: D)
  | _, _, _, _, _ => ([], [], [], [])
  end.

Definition left_by (n : nat) (row : list Z) : list Z := drop n row ++ take n row.

(** A round: the columns, then the diagonals, which are the columns of the rows moved to the
    left by none, one, two and three places. *)
Definition round (m : list Z) (v : rows) (r : Z) : rows :=
  let s := schedule.[r mod 10] in
  let '(A, B, C, D) := v in
  let '(A, B, C, D) := columns m (take 8 s) A B C D in
  let '(A, B, C, D) := columns m (drop 8 s) A (left_by 1 B) (left_by 2 C) (left_by 3 D) in
  (A, left_by 3 B, left_by 2 C, left_by 1 D).

(** The compression function: the chain value [hs], a block, the offset [t] and the flag of the
    last block. *)
Definition F (hs block : list Z) (t : Z) (last : bool) : list Z :=
  let m := (fun i => of_le (slice block (8 * i) 8)) <$> seqZ 0 16 in
  let D := [Z.lxor IV.[4] (t mod 2 ^ 64); Z.lxor IV.[5] (t / 2 ^ 64);
            Z.lxor IV.[6] (if last then 2 ^ 64 - 1 else 0); IV.[7]] in
  let '(A, B, C, D) := foldl (round m) (take 4 hs, drop 4 hs, take 4 IV, D) (seqZ 0 12) in
  (fun i => Z.lxor (Z.lxor hs.[i] (A ++ B).[i]) (C ++ D).[i]) <$> seqZ 0 8.

(** The first chain value, for a digest of [nn] bytes and no key. *)
Definition h0 (nn : Z) : list Z := Z.lxor IV.[0] (0x01010000 + nn) :: drop 1 IV.

End Rfc7693.
Import Rfc7693.

(** * Words *)

Definition word (x : Z) : Prop := 0 <= x < 2 ^ 64.

Lemma word_mod x : word (x mod 2 ^ 64).
Proof. apply Z.mod_pos_bound. lia. Qed.

Lemma word_iff x : word x <-> 0 <= x /\ forall i, 64 <= i -> Z.testbit x i = false.
Proof.
  unfold word. split.
  - intros Hx. split; [lia |]. intros i Hi. rewrite <- (Z.mod_small x (2 ^ 64)) by lia. apply Z.mod_pow2_bits_high. lia.
  - intros [H0 Hb]. split; [done |]. enough (x = x mod 2 ^ 64) as -> by (apply Z.mod_pos_bound; lia).
    apply Z.bits_inj'. intros i Hi. destruct (decide (i < 64)); [by rewrite Z.mod_pow2_bits_low by lia |].
    rewrite Z.mod_pow2_bits_high by lia. apply Hb. lia.
Qed.

Lemma word_lxor x y : word x -> word y -> word (Z.lxor x y).
Proof.
  rewrite !word_iff. intros [Hx Hxb] [Hy Hyb]. split; [apply Z.lxor_nonneg; lia |].
  intros i Hi. by rewrite Z.lxor_spec, Hxb, Hyb by done.
Qed.

(** A rotation by shifts is one by division. *)
Lemma rotr64_ror x n : word x -> 0 < n < 64 -> rotr64 x n = ror n x.
Proof.
  intros Hx Hn. unfold rotr64, ror, u64, wrap. rewrite Z.shiftr_div_pow2, Z.shiftl_mul_pow2 by lia.
  replace (x * 2 ^ (64 - n)) with (x * 2 ^ (64 - n)) by done.
  replace (2 ^ 64) with (2 ^ n * 2 ^ (64 - n)) by (rewrite <- Z.pow_add_r by lia; f_equal; lia).
  rewrite Z.mul_mod_distr_r by lia. rewrite <- Z.lxor_lor, <- Z.add_nocarry_lxor; try done.
  all: apply Z.bits_inj'; intros i Hi; rewrite Z.land_spec, Z.bits_0, <- Z.shiftl_mul_pow2, Z.shiftl_spec by lia.
  all: destruct (decide (i < 64 - n)); [by rewrite (Z.testbit_neg_r _ (i - (64 - n))), andb_false_r by lia |].
  all: rewrite Z.div_pow2_bits by lia; apply word_iff in Hx as [_ Hx]; by rewrite Hx by lia.
Qed.

Lemma word_ror x n : word x -> 0 < n < 64 -> word (ror n x).
Proof.
  intros Hx Hn. rewrite <- rotr64_ror by done. unfold rotr64. rewrite word_iff. pose proof Hx as [H0 _].
  apply word_iff in Hx as [_ Hx]. split; [apply Z.lor_nonneg; split; [apply Z.shiftr_nonneg; lia | apply word_mod] |].
  intros i Hi. rewrite Z.lor_spec, Z.shiftr_spec, Hx by lia. unfold u64, wrap. apply Z.mod_pow2_bits_high. lia.
Qed.

#[local] Hint Resolve word_mod word_lxor word_ror : words.

Lemma mix_words x y a b c d : word a -> word b -> word c -> word d ->
  let '(a', b', c', d') := mix x y a b c d in word a' /\ word b' /\ word c' /\ word d'.
Proof. intros. unfold mix. split_and!; auto 20 with words lia. Qed.

(** * The code's rounds *)

Definition quarters : list (Z * Z * Z * Z) :=
  [(0, 4, 8, 12); (1, 5, 9, 13); (2, 6, 10, 14); (3, 7, 11, 15); (0, 5, 10, 15); (1, 6, 11, 12); (2, 7, 8, 13); (3, 4, 9, 14)].

Definition mix_code (x y a b c d : Z) : Z * Z * Z * Z :=
  let a := u64 (a + b + x) in
  let d := rotr64 (Z.lxor d a) 32 in
  let c := u64 (c + d) in
  let b := rotr64 (Z.lxor b c) 24 in
  let a := u64 (a + b + y) in
  let d := rotr64 (Z.lxor d a) 16 in
  let c := u64 (c + d) in
  let b := rotr64 (Z.lxor b c) 63 in
  (a, b, c, d).

(** The macro on an array is the mixing function on four of its elements. *)
Lemma G_code m r i ia ib ic id v : (ia, ib, ic, id) ∈ quarters -> length v = 16%nat ->
  G m r i ia ib ic id v =
  let '(a, b, c, d) := mix_code m.[(blake2b_sigma.[r]).[2 * i + 0]] m.[(blake2b_sigma.[r]).[2 * i + 1]]
                                v.[ia] v.[ib] v.[ic] v.[id] in
  v.[ia := a].[ib := b].[ic := c].[id := d].
Proof.
  intros Hq Hl. do 16 (destruct v as [|? v]; [discriminate |]). destruct v; [|discriminate].
  unfold quarters in Hq. rewrite !elem_of_cons in Hq.
  destruct_or! Hq; [.. | by apply elem_of_nil in Hq]; injection Hq as -> -> -> ->; reflexivity.
Qed.

Lemma mix_code_mix x y a b c d : word a -> word b -> word c -> word d -> mix_code x y a b c d = mix x y a b c d.
Proof.
  intros. unfold mix_code, mix, u64, wrap. by rewrite !rotr64_ror by (auto 20 with words lia).
Qed.

(** Four rows of four words. *)
Definition row_ok (row : list Z) : Prop := length row = 4%nat /\ Forall word row.
Definition rows_ok (v : rows) : Prop :=
  let '(A, B, C, D) := v in row_ok A /\ row_ok B /\ row_ok C /\ row_ok D.
Definition flat (v : rows) : list Z := let '(A, B, C, D) := v in A ++ B ++ C ++ D.

Lemma schedule_sigma r : 0 <= r < 12 -> schedule.[r mod 10] = blake2b_sigma.[r] /\ length blake2b_sigma.[r] = 16%nat.
Proof.
  intros Hr. assert (r = 0 \/ r = 1 \/ r = 2 \/ r = 3 \/ r = 4 \/ r = 5 \/ r = 6 \/ r = 7 \/ r = 8 \/ r = 9 \/ r = 10 \/ r = 11) as Hi by lia.
  destruct_or! Hi; by subst.
Qed.

(** Reads and writes of an array whose elements are written out. *)
Ltac array_ops :=
  repeat match goal with
  | |- context [(?x :: ?l).[?i]] => let y := eval vm_compute in ((x :: l).[i]) in change ((x :: l).[i]) with y
  | |- context [(?x :: ?l).[?i := ?w]] => let y := eval vm_compute in ((x :: l).[i := w]) in change ((x :: l).[i := w]) with y
  end.

(** One quarter of a round, in the array and in the rows. *)
Ltac quarter m r Es :=
  match goal with
  | |- context [G m r ?i ?ia ?ib ?ic ?id (?x :: ?l)] =>
      rewrite (G_code m r i ia ib ic id (x :: l)) by (reflexivity || (unfold quarters; rewrite !elem_of_cons; tauto))
  end;
  rewrite <- Es; array_ops; rewrite mix_code_mix by assumption;
  match goal with
  | |- context [mix ?x ?y ?a ?b ?c ?d] =>
      let H := fresh in
      pose proof (mix_words x y a b c d ltac:(assumption) ltac:(assumption) ltac:(assumption) ltac:(assumption)) as H;
      destruct (mix x y a b c d) as [[[? ?] ?] ?]; destruct H as (? & ? & ? & ?)
  end; array_ops.

Lemma ROUND_round m r v : 0 <= r < 12 -> rows_ok v ->
  rows_ok (round m v r) /\ ROUND m r (flat v) = flat (round m v r).
Proof.
  intros Hr. destruct v as [[[A B] C] D]. intros ([HA HAw] & [HB HBw] & [HC HCw] & [HD HDw]).
  unfold round, ROUND. destruct (schedule_sigma r Hr) as [-> Hs].
  remember (blake2b_sigma.[r]) as s eqn:Es.
  do 4 (destruct A as [|? A]; [discriminate |]); destruct A; [|discriminate].
  do 4 (destruct B as [|? B]; [discriminate |]); destruct B; [|discriminate].
  do 4 (destruct C as [|? C]; [discriminate |]); destruct C; [|discriminate].
  do 4 (destruct D as [|? D]; [discriminate |]); destruct D; [|discriminate].
  do 16 (destruct s as [|? s]; [discriminate |]); destruct s; [|discriminate].
  rewrite !Forall_cons in *. destruct_and!. cbn [flat app take drop columns]. cbv zeta.
  do 4 quarter m r Es. unfold left_by. cbn [app take drop columns]. do 4 quarter m r Es.
  cbn [app take drop]. split; [|reflexivity]. unfold rows_ok, row_ok. rewrite !Forall_cons, !Forall_nil. tauto.
Qed.

Lemma rounds_spec m rs : Forall (fun r => 0 <= r < 12) rs -> forall v, rows_ok v ->
  rows_ok (foldl (round m) v rs) /\ foldl (fun v r => ROUND m r v) (flat v) rs = flat (foldl (round m) v rs).
Proof.
  induction 1 as [|r rs Hr _ IH]; intros v Hv; [done |]. cbn [foldl].
  destruct (ROUND_round m r v Hr Hv) as [Hv' ->]. by apply IH.
Qed.

(** * The code's compression function *)

(** A chain value. *)
Definition words (hs : list Z) : Prop := length hs = 8%nat /\ Forall word hs.

Lemma iv_IV : blake2b_iv = IV.
Proof. vm_compute. reflexivity. Qed.

Lemma init_h0 : blake2b_init.(h) = h0 OUT_BYTES.
Proof. vm_compute. reflexivity. Qed.

Lemma init_words : words blake2b_init.(h).
Proof. split; [done |]. repeat (constructor; [vm_compute; by split |]). constructor. Qed.

#[local] Opaque ROUND round.

(** The working vector at the start. *)
Definition start (s : state) : rows :=
  (take 4 s.(h), drop 4 s.(h), take 4 IV,
   [Z.lxor IV.[4] s.(t0); Z.lxor IV.[5] s.(t1); Z.lxor IV.[6] s.(f0); IV.[7]]).

Lemma start_ok s : words s.(h) -> word s.(t0) -> word s.(t1) -> word s.(f0) -> rows_ok (start s).
Proof.
  intros [Hl Hw] H0 H1 Hf.
  assert (Forall word IV) as Hiv by (repeat (constructor; [vm_compute; by split |]); constructor).
  split_and!; unfold row_ok; rewrite ?length_take, ?length_drop, ?Hl; split; try done;
    [by apply Forall_take | by apply Forall_drop | by apply Forall_take |].
  repeat constructor; try apply word_lxor; auto; by apply (aget_Forall word).
Qed.

(** The code in terms of its vector after the rounds. *)
Lemma compress_flat s block : words s.(h) -> s.(f1) = 0 ->
  let v := foldl (fun v r => ROUND ((fun i => of_le (slice block (8 * i) 8)) <$> seqZ 0 16) r v) (flat (start s)) (seqZ 0 12) in
  (blake2b_compress s block).(h) = (fun i => Z.lxor (Z.lxor s.(h).[i] v.[i]) v.[i + 8]) <$> seqZ 0 8.
Proof.
  intros [Hl _] Hf1. cbv zeta. unfold blake2b_compress. cbn [h]. unfold load64_le.
  replace ((fun i : Z => of_le (slice block (i * 8) 8)) <$> seqZ 0 16)
    with ((fun i : Z => of_le (slice block (8 * i) 8)) <$> seqZ 0 16)
    by (apply list_fmap_ext; intros i x _; by rewrite Z.mul_comm).
  rewrite Hf1, Z.lxor_0_r, iv_IV. unfold start, flat. rewrite (app_assoc (take 4 (h s))), take_drop.
  rewrite (firstn_all2 (h s)) by lia. reflexivity.
Qed.

Lemma compress_F s block t (last : bool) :
  words s.(h) -> 0 <= t < 2 ^ 128 -> s.(t0) = t mod 2 ^ 64 -> s.(t1) = t / 2 ^ 64 ->
  s.(f0) = (if last then UINT64_MAX else 0) -> s.(f1) = 0 ->
  (blake2b_compress s block).(h) = F s.(h) block t last /\ words (F s.(h) block t last).
Proof.
  intros Hw Ht H0 H1 Hf0 Hf1.
  assert (rows_ok (start s)) as Hv.
  { apply start_ok; [done | rewrite H0; apply word_mod | rewrite H1; split | rewrite Hf0; by destruct last].
    - apply Z.div_pos; lia.
    - apply Z.div_lt_upper_bound; lia. }
  rewrite compress_flat by done. unfold F. rewrite <- H0, <- H1. replace (if last then 2 ^ 64 - 1 else 0) with s.(f0) by done.
  fold (start s). set (m := (fun i => of_le (slice block (8 * i) 8)) <$> seqZ 0 16).
  destruct (rounds_spec m (seqZ 0 12) ltac:(apply Forall_seqZ; lia) _ Hv) as [Hv' ->].
  destruct (foldl (round m) (start s) (seqZ 0 12)) as [[[A B] C] D].
  destruct Hv' as ([HA HAw] & [HB HBw] & [HC HCw] & [HD HDw]), Hw as [Hl Hw]. cbn [flat]. split.
  - apply list_fmap_ext. intros j i Hi. apply list_elem_of_lookup_2, elem_of_seqZ in Hi. f_equal.
    + f_equal. unfold aget. rewrite app_assoc. apply lookup_total_app_l. rewrite length_app. lia.
    + unfold aget. rewrite app_assoc, lookup_total_app_r by (rewrite length_app; lia). f_equal. rewrite length_app. lia.
  - split; [by rewrite length_fmap, length_seqZ |]. apply Forall_fmap, Forall_seqZ. intros i Hi. cbn.
    repeat apply word_lxor; apply (aget_Forall word); rewrite ?Forall_app; unfold zlen; rewrite ?length_app; auto; lia.
Qed.
