(* ===== verification/Blake2bCorrect.v ===== *)
(** Hashing in pieces is hashing at once: the state machine of [blake2b_update] against the
    definition of BLAKE2b (RFC 7693, section 3.3), built on the compression function as
    [Blake2bSpec] defines it; and the filter over it. *)

From S2P Require Import Prelude Libc LibcCorrect Guid Blake2b Blake2bSpec.
Import Libc Guid Blake2b Rfc7693.

(** * The definition *)

(** The chain value after the first [n] blocks, none of them the last one. *)
Definition chain (n : nat) (msg : list Z) : list Z :=
  for_up n 0 (fun i hs => F hs (slice msg (128 * i) 128) (128 * (i + 1)) false) (h0 64).
(** Every block but the last, which is padded with zeros; the empty message has one block. *)
Definition blake2b_spec (msg : list Z) : list Z :=
  let n := (zlen msg - 1) / 128 in
  let n := Z.max n 0 in
  let rest := drop (Z.to_nat (128 * n)) msg in
  mjoin (le_bytes 8 <$> F (chain (Z.to_nat n) msg) (rest ++ replicate (128 - length rest) 0) (zlen msg) true).

#[local] Opaque ROUND.

(** * Counters and blocks *)

Lemma for_up_ext {S} n i0 (f g : Z -> S -> S) s :
  (forall i s, i0 <= i < i0 + Z.of_nat n -> f i s = g i s) -> for_up n i0 f s = for_up n i0 g s.
Proof.
  revert i0 s; induction n as [|n IH]; intros i0 s He; simpl; [done |]. rewrite He by lia. apply IH. intros. apply He. lia.
Qed.
Lemma for_up_S {S} n i0 (f : Z -> S -> S) s : for_up (Datatypes.S n) i0 f s = f (i0 + Z.of_nat n) (for_up n i0 f s).
Proof.
  revert i0 s; induction n as [|n IH]; intros i0 s; [simpl; by rewrite Z.add_0_r |].
  change (for_up (Datatypes.S n) (i0 + 1) f (f i0 s) = f (i0 + Z.of_nat (Datatypes.S n)) (for_up n (i0 + 1) f (f i0 s))).
  rewrite IH. f_equal. lia.
Qed.

Lemma slice_app_r l1 l2 n : slice (l1 ++ l2) (zlen l1) n = take (Z.to_nat n) l2.
Proof. unfold slice, zlen. by rewrite Nat2Z.id, drop_app_length. Qed.

Lemma chain_app n l1 l2 : 128 * Z.of_nat n <= zlen l1 -> chain n (l1 ++ l2) = chain n l1.
Proof. intros Hn. apply for_up_ext. intros i s Hi. by rewrite slice_app_l by lia. Qed.

Lemma chain_next n don block : zlen don = 128 * Z.of_nat n -> length block = 128%nat ->
  chain (S n) (don ++ block) = F (chain n don) block (128 * (Z.of_nat n + 1)) false.
Proof.
  intros Hd Hb. unfold chain. rewrite for_up_S. fold (chain n (don ++ block)). rewrite chain_app by lia.
  rewrite Z.add_0_l, <- Hd, slice_app_r. change (Z.to_nat 128) with 128%nat. by rewrite <- Hb, firstn_all.
Qed.

(** The counter as one number. *)
Definition counter (s : state) : Z := s.(t0) + 2 ^ 64 * s.(t1).
Definition counter_ok (s : state) : Prop := 0 <= s.(t0) < 2 ^ 64 /\ 0 <= s.(t1) < 2 ^ 64.

Lemma increment_spec s inc : counter_ok s -> 0 <= inc < 2 ^ 64 -> counter s + inc < 2 ^ 128 ->
  let s' := blake2b_increment_counter s inc in
  counter_ok s' /\ counter s' = counter s + inc.
Proof.
  intros [H0 H1] Hi Hc. unfold blake2b_increment_counter, counter_ok, counter in *. simpl.
  assert (u64 (t0 s + inc) = t0 s + inc - (if t0 s + inc <? 2 ^ 64 then 0 else 2 ^ 64)) as ->.
  { unfold u64, wrap. case_if; [rewrite Z.mod_small; lia |].
    rewrite <- (Z.mod_unique (t0 s + inc) (2 ^ 64) 1 (t0 s + inc - 2 ^ 64)); lia. }
  destruct (Z.ltb_spec (t0 s + inc) (2 ^ 64)).
  - destruct (Z.ltb_spec (t0 s + inc - 0) inc); [lia |]. simpl. rewrite u64_small by lia. lia.
  - destruct (Z.ltb_spec (t0 s + inc - 2 ^ 64) inc); [|lia]. simpl. rewrite u64_small by lia. lia.
Qed.

(** Compressing is [F] on the chain value, at the offset the counter has. *)
Lemma compress_counter s block (last : bool) : words s.(h) -> counter_ok s -> s.(f0) = (if last then UINT64_MAX else 0) -> s.(f1) = 0 ->
  (blake2b_compress s block).(h) = F s.(h) block (counter s) last /\ words (F s.(h) block (counter s) last).
Proof.
  intros Hw [H0 H1] Hf0 Hf1. unfold counter. apply compress_F; try done; [lia | ..].
  - by rewrite Z.mul_comm, Z.mod_add, Z.mod_small by lia.
  - by rewrite Z.mul_comm, Z.div_add, Z.div_small by lia.
Qed.

(** * The state after some input *)

(** [n] blocks, the bytes [don], have been compressed. *)
Record core (s : state) (n : nat) (don : list Z) : Prop := {
  c_len : zlen don = 128 * Z.of_nat n;
  c_h : s.(h) = chain n don;
  c_words : words s.(h);
  c_ok : counter_ok s;
  c_t : counter s = 128 * Z.of_nat n;
  c_f : s.(f0) = 0 /\ s.(f1) = 0;
  c_buf : length s.(buf) = 128%nat }.

Lemma core_compress s n don block :
  core s n don -> length block = 128%nat -> 128 * (Z.of_nat n + 1) < 2 ^ 128 ->
  core (blake2b_compress (blake2b_increment_counter s BLOCK_BYTES) block) (S n) (don ++ block).
Proof.
  intros [Hl Hh Hw Ho Ht [Hf0 Hf1] Hb] Hblk Hn.
  destruct (increment_spec s BLOCK_BYTES Ho) as [Ho' Ht']; [unfold BLOCK_BYTES; lia.. |].
  destruct (compress_counter (blake2b_increment_counter s BLOCK_BYTES) block false Hw Ho' Hf0 Hf1) as [Hc Hcw].
  constructor.
  - rewrite zlen_app, Hl. unfold zlen. rewrite Hblk. lia.
  - rewrite Hc. rewrite chain_next by assumption. rewrite Ht', Ht.
    change (h (blake2b_increment_counter s BLOCK_BYTES)) with (h s). rewrite Hh.
    replace (128 * Z.of_nat n + BLOCK_BYTES) with (128 * (Z.of_nat n + 1)) by (unfold BLOCK_BYTES; lia). reflexivity.
  - rewrite Hc. exact Hcw.
  - exact Ho'.
  - change (counter (blake2b_compress ?x block)) with (counter x). rewrite Ht', Ht. unfold BLOCK_BYTES. lia.
  - split; assumption.
  - exact Hb.
Qed.

Lemma core_set_buf s n don b k : core s n don -> length b = 128%nat -> core (set_buf s b k) n don.
Proof. intros [] Hb. by constructor. Qed.

(** [msg] has been given to the hash: all but the last bytes, between 1 and 128 of them
    unless there are none at all, are compressed, and those are in the buffer. *)
Definition absorbed (s : state) (msg : list Z) : Prop :=
  exists n don rest, msg = don ++ rest /\ core s n don /\ s.(buf_len) = zlen rest /\ zlen rest <= 128 /\
    (rest = [] -> don = []) /\ slice s.(buf) 0 (zlen rest) = rest.

Lemma absorbed_init : absorbed blake2b_init [].
Proof.
  exists 0%nat, [], []. split_and!; try done. constructor; try done. apply init_words.
Qed.

Lemma take_blit b off d : 0 <= off -> off + zlen d <= zlen b ->
  slice (blit b off d) 0 (off + zlen d) = slice b 0 off ++ d.
Proof.
  intros H1 H2. unfold slice, blit, zlen in *. simpl. rewrite app_assoc. apply take_app_length'.
  rewrite length_app, length_take, length_drop. lia.
Qed.

Lemma blit_full b l d : slice b 0 (zlen l) = l -> zlen b = zlen l + zlen d -> blit b (zlen l) d = l ++ d.
Proof.
  intros Hs Hz. rewrite <- Hs at 2. pose proof (zlen_nonneg l). pose proof (zlen_nonneg d).
  rewrite <- take_blit by lia. symmetry. apply slice_all. rewrite zlen_blit; lia.
Qed.

Lemma absorb_rest s n don rest : core s n don -> 0 < zlen rest <= 128 ->
  absorbed (set_buf s (blit s.(buf) 0 rest) (zlen rest)) (don ++ rest).
Proof.
  intros Hc Hr. pose proof (c_buf _ _ _ Hc) as Hb. exists n, don, rest. split_and!; try done; try lia.
  - apply core_set_buf; [done |]. enough (zlen (blit s.(buf) 0 rest) = 128) by (unfold zlen in *; lia).
    rewrite zlen_blit; unfold zlen in *; lia.
  - intros ->. change (zlen []) with 0 in Hr. lia.
  - simpl. rewrite <- (Z.add_0_l (zlen rest)). rewrite take_blit; [done | lia |]. unfold zlen in *. lia.
Qed.

Lemma update_loop_spec fuel s n don inp :
  core s n don -> 0 < zlen inp -> zlen inp <= Z.of_nat fuel -> zlen don + zlen inp < 2 ^ 128 -> s.(buf_len) = 0 ->
  exists s' n' don' rest, update_loop fuel s inp = Ret (s', rest) /\ core s' n' don' /\ don ++ inp = don' ++ rest /\
    0 < zlen rest <= 128 /\ s'.(buf_len) = 0.
Proof.
  revert s n don inp. induction fuel as [|fuel IH]; intros s n don inp Hc Hi Hf Ht Hbl; [lia |].
  cbn [update_loop]. destruct (Z.gtb_spec (zlen inp) BLOCK_BYTES) as [Hgt|Hle].
  - unfold BLOCK_BYTES in Hgt. pose proof (c_len _ _ _ Hc) as Hl.
    assert (length (take 128 inp) = 128%nat) as Htk by (rewrite length_take; unfold zlen in *; lia).
    pose proof (core_compress s n don (take 128 inp) Hc Htk ltac:(lia)) as Hc'.
    assert (zlen (drop 128 inp) = zlen inp - 128) as Hd by (unfold zlen in *; rewrite length_drop; lia).
    assert (zlen (don ++ take 128 inp) = zlen don + 128) as Hdz by (rewrite zlen_app; unfold zlen in *; lia).
    destruct (IH _ _ _ (drop 128 inp) Hc' ltac:(lia) ltac:(lia) ltac:(lia) Hbl) as (s' & n' & don' & rest & -> & Hc2 & He & Hr & Hb).
    exists s', n', don', rest. split_and!; try done; try lia. rewrite <- He, <- app_assoc. by rewrite take_drop.
  - exists s, n, don, inp. unfold BLOCK_BYTES in Hle. split_and!; try done; lia.
Qed.

(** Input that stays in the buffer. *)
Lemma update_small s n don rest inp :
  core s n don -> s.(buf_len) = zlen rest -> slice s.(buf) 0 (zlen rest) = rest -> 0 < zlen inp -> zlen rest + zlen inp <= 128 ->
  absorbed (set_buf s (blit s.(buf) s.(buf_len) inp) (s.(buf_len) + zlen inp)) ((don ++ rest) ++ inp).
Proof.
  intros Hc Hbl Hs Hi Hle. pose proof (zlen_nonneg rest). pose proof (c_buf _ _ _ Hc) as Hb. rewrite Hbl.
  exists n, don, (rest ++ inp). rewrite zlen_app. split_and!; try done; try lia.
  - by rewrite app_assoc.
  - apply core_set_buf; [done |]. enough (zlen (blit s.(buf) (zlen rest) inp) = 128) by (unfold zlen in *; lia).
    rewrite zlen_blit; unfold zlen in *; lia.
  - intros Hn. apply app_nil in Hn as [-> ->]. change (zlen []) with 0 in Hi. lia.
  - simpl. rewrite take_blit by (unfold zlen in *; lia). by rewrite Hs.
Qed.

(** Input that fills it: the block in the buffer is completed and compressed. *)
Lemma update_fill s n don rest inp fill :
  core s n don -> slice s.(buf) 0 (zlen rest) = rest -> fill = 128 - zlen rest -> 0 <= fill < zlen inp ->
  zlen don + zlen rest + zlen inp < 2 ^ 128 ->
  let s' := set_buf s (blit s.(buf) (zlen rest) (slice inp 0 fill)) 0 in
  let s' := blake2b_increment_counter s' BLOCK_BYTES in
  core (blake2b_compress s' s'.(buf)) (S n) (don ++ rest ++ slice inp 0 fill).
Proof.
  intros Hc Hs -> Hf Ht. set (fill := 128 - zlen rest) in *. cbv zeta.
  pose proof (zlen_nonneg rest). pose proof (c_buf _ _ _ Hc) as Hb. pose proof (c_len _ _ _ Hc) as Hdl.
  assert (zlen (slice inp 0 fill) = fill) as Hzf by (unfold zlen; rewrite length_slice; lia).
  assert (blit s.(buf) (zlen rest) (slice inp 0 fill) = rest ++ slice inp 0 fill) as ->.
  { apply blit_full; [done |]. unfold zlen in *. lia. }
  assert (length (rest ++ slice inp 0 fill) = 128%nat) as Hlb by (rewrite length_app; unfold zlen in *; lia).
  refine (core_compress _ _ _ (rest ++ slice inp 0 fill) (core_set_buf s n don _ 0 Hc Hlb) Hlb _). lia.
Qed.

Lemma update_spec s msg inp : absorbed s msg -> zlen msg + zlen inp < 2 ^ 128 ->
  exists s', blake2b_update s inp = Ret s' /\ absorbed s' (msg ++ inp).
Proof.
  intros (n & don & rest & -> & Hc & Hbl & Hr & Hnil & Hs) Ht. unfold blake2b_update.
  pose proof (zlen_nonneg rest). pose proof (zlen_nonneg inp).
  destruct (Z.eqb_spec (zlen inp) 0) as [Hz0|Hz0].
  { destruct inp; [|unfold zlen in Hz0; simpl in Hz0; lia]. exists s. rewrite app_nil_r. split; [done |]. exists n, don, rest. done. }
  rewrite zlen_app in Ht. destruct (Z.gtb_spec (zlen inp) (BLOCK_BYTES - s.(buf_len))) as [Hgt|Hle].
  - rewrite Hbl in *. cbv zeta. set (fill := BLOCK_BYTES - zlen rest) in *. unfold BLOCK_BYTES in fill.
    pose proof (update_fill s n don rest inp fill Hc Hs eq_refl ltac:(lia) ltac:(lia)) as Hc'. cbv zeta in Hc'.
    assert (zlen (drop (Z.to_nat fill) inp) = zlen inp - fill) as Hd by (unfold zlen in *; rewrite length_drop; lia).
    assert (zlen (slice inp 0 fill) = fill) as Hzf by (unfold zlen; rewrite length_slice; lia).
    assert ((don ++ rest ++ slice inp 0 fill) ++ drop (Z.to_nat fill) inp = (don ++ rest) ++ inp) as He.
    { rewrite <- !app_assoc. unfold slice. simpl. by rewrite drop_0, take_drop. }
    destruct (update_loop_spec (length inp) _ _ _ (drop (Z.to_nat fill) inp) Hc') as (s' & n' & don' & rest' & -> & Hc2 & He2 & Hr2 & Hb2);
      try done; try (unfold zlen in *; lia).
    { rewrite !zlen_app. lia. }
    cbn [mbind outcome_bind]. eexists. split; [done |]. rewrite Hb2, Z.add_0_l, <- He, He2. by apply (absorb_rest s' n').
  - unfold BLOCK_BYTES in Hle. cbn [mbind outcome_bind]. eexists. split; [done |]. apply (update_small s n); try done; lia.
Qed.

(** * The digest *)

Lemma F_length hs block t last : length (F hs block t last) = 8%nat.
Proof. unfold F. by destruct (foldl _ _ _) as [[[? ?] ?] ?]. Qed.

Lemma store_all (hs : list Z) : length hs = 8%nat ->
  for_up 8 0 (fun i buffer => store64_le buffer (8 * i) hs.[i]) (replicate 64 0) = mjoin (le_bytes 8 <$> hs).
Proof.
  intros Hl. do 8 (destruct hs as [|? hs]; [discriminate |]). destruct hs; [|discriminate]. reflexivity.
Qed.

Lemma final_spec s msg : absorbed s msg -> zlen msg < 2 ^ 128 -> (blake2b_final s).2 = blake2b_spec msg.
Proof.
  intros (n & don & rest & -> & Hc & Hbl & Hr & Hnil & Hs) Ht. unfold blake2b_final, blake2b_spec. cbv zeta. cbn [snd].
  pose proof (zlen_nonneg rest). pose proof (zlen_nonneg don). destruct Hc as [Hl Hh Hw Ho Htt [Hf0 Hf1] Hb].
  rewrite zlen_app in *.
  assert (Z.max ((zlen don + zlen rest - 1) / 128) 0 = Z.of_nat n) as ->.
  { destruct (decide (zlen rest = 0)) as [Hz|Hz].
    - assert (rest = []) as -> by (destruct rest; [done | unfold zlen in Hz; simpl in Hz; lia]).
      rewrite (Hnil eq_refl) in *. change (zlen []) with 0 in *. by assert (n = 0%nat) as -> by lia.
    - rewrite Hl. replace (128 * Z.of_nat n + zlen rest - 1) with (zlen rest - 1 + Z.of_nat n * 128) by lia.
      rewrite Z.div_add, Z.div_small by lia. lia. }
  rewrite Nat2Z.id, chain_app by lia.
  replace (drop (Z.to_nat (128 * Z.of_nat n)) (don ++ rest)) with rest
    by (rewrite <- Hl; unfold zlen; by rewrite Nat2Z.id, drop_app_length).
  destruct (increment_spec s s.(buf_len) Ho) as [Ho' Ht']; [lia.. |].
  rewrite store_all by reflexivity.
  match goal with |- context [blake2b_compress ?x ?b] => destruct (compress_counter x b true Hw Ho' eq_refl Hf1) as [-> _] end.
  change (counter {| h := _; t0 := ?a; t1 := ?b; f0 := _; f1 := _; buf := _; buf_len := _ |}) with (a + 2 ^ 64 * b).
  change (t0 ?x + 2 ^ 64 * t1 ?x) with (counter x). rewrite Ht', Htt, Hbl, Hl. do 2 f_equal.
  cbn [h buf buf_len blake2b_increment_counter]. rewrite Hh, Hbl.
  rewrite blit_full; [| done | unfold BLOCK_BYTES; rewrite zlen_replicate; unfold zlen in *; lia].
  replace (Z.to_nat (BLOCK_BYTES - zlen rest)) with (128 - length rest)%nat by (unfold BLOCK_BYTES, zlen in *; lia). reflexivity.
Qed.

(** * Hashing in pieces *)

Fixpoint feed (s : state) (chunks : list (list Z)) : outcome state :=
  match chunks with
  | [] => Ret s
  | c :: chunks => s ← blake2b_update s c; feed s chunks
  end.

Lemma feed_spec chunks : forall s msg, absorbed s msg -> zlen msg + zlen (mjoin chunks) < 2 ^ 128 ->
  exists s', feed s chunks = Ret s' /\ absorbed s' (msg ++ mjoin chunks).
Proof.
  induction chunks as [|c chunks IH]; intros s msg Hs Ht; simpl in *.
  { exists s. by rewrite app_nil_r. }
  rewrite zlen_app in Ht. pose proof (zlen_nonneg (mjoin chunks)). pose proof (zlen_nonneg c).
  destruct (update_spec s msg c Hs ltac:(lia)) as (s1 & -> & Hs1). simpl.
  destruct (IH s1 (msg ++ c) Hs1) as (s2 & -> & Hs2); [rewrite zlen_app; lia |].
  exists s2. split; [done |]. by rewrite app_assoc.
Qed.

Lemma blake2b_whole msg : zlen msg < 2 ^ 128 -> blake2b msg = Ret (blake2b_spec msg).
Proof.
  intros Ht. unfold blake2b. destruct (update_spec blake2b_init [] msg absorbed_init Ht) as (s & -> & Hs).
  cbn [mbind outcome_bind]. f_equal. by apply final_spec.
Qed.

(** C35: however a message of less than 2^128 bytes is cut into pieces, giving them to
    [blake2b_update] one after the other returns, and [blake2b_final] then gives the BLAKE2b
    digest of 64 bytes, without a key, of the whole message, as RFC 7693 defines it: block by
    block with a 128-bit offset, with the compression function of [Rfc7693], which shares no
    definition with the code's; in particular [blake2b] does. *)
Theorem blake2b_stream_correct chunks :
  zlen (mjoin chunks) < 2 ^ 128 ->
  (exists s, feed blake2b_init chunks = Ret s /\ (blake2b_final s).2 = blake2b_spec (mjoin chunks)) /\
  blake2b (mjoin chunks) = Ret (blake2b_spec (mjoin chunks)).
Proof.
  intros Ht. split.
  - destruct (feed_spec chunks blake2b_init [] absorbed_init Ht) as (s & -> & Hs). exists s. split; [done |].
    by apply final_spec.
  - by apply blake2b_whole.
Qed.

Lemma blake2b_stream_correct_witness :
  blake2b (bytes "abc") = Ret (blake2b_spec (bytes "abc")) /\
  slice (blake2b_spec (bytes "abc")) 0 4 = [0xba; 0x80; 0xa5; 0x3f].
Proof.
  split; [|vm_compute; reflexivity].
  apply (blake2b_stream_correct [bytes "a"; bytes "bc"]). vm_compute. reflexivity.
Defined.

(** ** The filter *)

Definition reads_ok (hd : blake2b_handle) (data : list Z) (p : Z) : Prop :=
  hd.(pos) = p /\ hd.(finalized) = false /\ absorbed hd.(hstate) (take (Z.to_nat p) data).

Fixpoint read_seq (hd : blake2b_handle) (counts : list Z) : outcome (blake2b_handle * list Z) :=
  match counts with
  | [] => Ret (hd, [])
  | c :: counts =>
      '(hd, l) ← blake2b_read hd hd.(pos) c;
      '(hd, l') ← read_seq hd counts;
      Ret (hd, l ++ l')
  end.

Definition memfile (data : list Z) : file_handle :=
  {| is_memfile := true; is_high_mem := false; size := zlen data; fd := data; read _ _ := Panic |}.

Lemma memcmp_loop_zero k p1 p2 i :
  memcmp_loop k p1 p2 i = 0 <-> forall j, i <= j < i + Z.of_nat k -> p1 j = p2 j.
Proof.
  revert i; induction k as [|k IH]; intros i; simpl; [split; [lia | done] |].
  destruct (Z.eqb_spec (p1 i) (p2 i)) as [He|Hne]; simpl.
  - rewrite IH. split; intros Hj j Hr; [|apply Hj; lia].
    destruct (decide (j = i)) as [->|]; [done |]. apply Hj. lia.
  - unfold cmp. split; [case_if; done |]. intros Hj. exfalso. apply Hne, Hj. lia.
Qed.
Lemma memcmp_lists l1 l2 : length l1 = length l2 ->
  (memcmp (fun i => l1.[i]) (fun i => l2.[i]) (zlen l1) =? 0) = true <-> l1 = l2.
Proof.
  intros Hl. rewrite Z.eqb_eq. unfold memcmp. rewrite memcmp_loop_zero, Z2Nat.id by (unfold zlen; lia). split; [|by intros ->].
  intros Hj. apply list_eq_same_length with (length l1); [done.. |]. intros i x y Hi Hx Hy.
  specialize (Hj (Z.of_nat i)). unfold aget in Hj. rewrite !Nat2Z.id in Hj.
  rewrite (list_lookup_total_correct _ _ _ Hx), (list_lookup_total_correct _ _ _ Hy) in Hj. apply Hj. unfold zlen. lia.
Qed.

Lemma read_seq_spec data counts : zlen data < 2 ^ 64 -> Forall (Z.lt 0) counts -> forall hd p,
  hd.(source) = memfile data -> reads_ok hd data p -> 0 <= p -> p + foldr Z.add 0 counts <= zlen data ->
  exists hd', read_seq hd counts = Ret (hd', slice data p (foldr Z.add 0 counts)) /\
    reads_ok hd' data (p + foldr Z.add 0 counts).
Proof.
  intros Hd. induction 1 as [|c counts Hc HF IH]; intros hd p Hsrc (Hp & Hfin & Ha) Hp0 Hle; cbn [read_seq foldr] in *.
  { exists hd. rewrite Z.add_0_r. by split. }
  assert (0 <= foldr Z.add 0 counts) as Hsum by (clear -HF; induction HF; simpl; lia).
  unfold blake2b_read. rewrite Hp, Z.eqb_refl, Hsrc. cbn [negb]. unfold fread, memfile. cbn [is_memfile is_high_mem size fd].
  replace ((p >=? zlen data) || (c >? zlen data - p)) with false by lia. cbn [mbind outcome_bind].
  assert (zlen (slice data p c) = c) as Hzs by (unfold zlen; rewrite length_slice; lia).
  assert (take (Z.to_nat p) data ++ slice data p c = take (Z.to_nat (p + c)) data) as Htk.
  { unfold slice. rewrite take_take_drop. f_equal. lia. }
  destruct (update_spec hd.(hstate) (take (Z.to_nat p) data) (slice data p c) Ha) as (s & -> & Hs).
  { rewrite <- zlen_app, Htk. unfold zlen in *. rewrite length_take. lia. }
  cbn [mbind outcome_bind]. rewrite Hzs, u64_small by lia.
  match goal with |- context [read_seq ?hd1 counts] => destruct (IH hd1 (p + c)) as (hd' & -> & Hr) end; try done; try lia.
  { split_and!; try done. simpl. by rewrite <- Htk. }
  cbn [mbind outcome_bind]. exists hd'. rewrite Z.add_assoc. split; [|done]. do 2 f_equal.
  unfold slice. replace (Z.to_nat (p + c)) with (Z.to_nat p + Z.to_nat c)%nat by lia.
  rewrite <- drop_drop, take_take_drop. f_equal. lia.
Qed.

Lemma spec_length msg : length (blake2b_spec msg) = 64%nat.
Proof.
  unfold blake2b_spec. cbv zeta. pose proof F_length as Hl.
  match goal with |- context [F ?a ?b ?c ?d] => specialize (Hl a b c d); destruct (F a b c d) as [|? l] end; [done |].
  do 7 (destruct l as [|? l]; [done |]). by destruct l.
Qed.
Lemma check_hash_spec hd msg reference : hd.(finalized) = false -> absorbed hd.(hstate) msg -> zlen msg < 2 ^ 128 -> length reference = 64%nat ->
  (blake2b_check_hash hd reference).2 = true <-> reference = blake2b_spec msg.
Proof.
  intros Hfin Ha Ht Hl. pose proof (final_spec _ _ Ha Ht) as Hs. unfold blake2b_check_hash. rewrite Hfin. cbn [negb].
  destruct (blake2b_final (hstate hd)) as [s out]. cbn [snd] in Hs. subst out. cbn [snd digest].
  assert (OUT_BYTES = zlen (blake2b_spec msg)) as -> by (unfold zlen; by rewrite spec_length).
  rewrite memcmp_lists by by rewrite Hl, spec_length. naive_solver.
Qed.

(** The hashing filter over a file in memory: whatever sizes it is read with, as long as
    the reads are sequential and within the file, it hands on the file's bytes unchanged, and
    after the last one [blake2b_check_hash] accepts a 64-byte reference exactly when it is
    the BLAKE2b digest of the file; asking again gives the same answer. A read that is not
    where the last one ended panics. *)
Theorem blake2b_filter_correct data counts reference :
  zlen data < 2 ^ 64 -> Forall (Z.lt 0) counts -> foldr Z.add 0 counts = zlen data -> length reference = 64%nat ->
  exists hd, read_seq (blake2b_open (memfile data)) counts = Ret (hd, data) /\
    ((blake2b_check_hash hd reference).2 = true <-> reference = blake2b_spec data) /\
    (blake2b_check_hash (blake2b_check_hash hd reference).1 reference).2 = (blake2b_check_hash hd reference).2 /\
    (forall loc count, loc <> zlen data -> blake2b_read hd loc count = Panic).
Proof.
  intros Hd HF Hsum Hl.
  destruct (read_seq_spec data counts Hd HF (blake2b_open (memfile data)) 0) as (hd & Hr & Hp & Hfin & Ha); try done; try lia.
  { split_and!; try done. simpl. apply absorbed_init. }
  rewrite Z.add_0_l, Hsum in Hp, Ha. rewrite Hsum in Hr. rewrite slice_all in Hr by done. rewrite firstn_all2 in Ha by (unfold zlen; lia).
  exists hd. split; [done |]. split; [by apply check_hash_spec; [..|lia|]|]. split.
  - unfold blake2b_check_hash. rewrite Hfin. by destruct (blake2b_final (hstate hd)).
  - intros loc count Hne. unfold blake2b_read. rewrite Hp. by rewrite (proj2 (Z.eqb_neq _ _) Hne).
Qed.

Lemma blake2b_filter_correct_witness :
  exists hd, read_seq (blake2b_open (memfile (bytes "abc"))) [2; 1] = Ret (hd, bytes "abc") /\
    ((blake2b_check_hash hd (replicate 64 0)).2 = true <-> replicate 64 0 = blake2b_spec (bytes "abc")).
Proof.
  destruct (blake2b_filter_correct (bytes "abc") [2; 1] (replicate 64 0)) as (hd & H1 & H2 & _).
  - vm_compute. reflexivity.
  - repeat constructor.
  - vm_compute. reflexivity.
  - vm_compute. reflexivity.
  - exists hd. split; [exact H1 | exact H2].
Defined.
