(* ===== verification/Gzip.v ===== *)
(** Compressed files, [common/compress/gzip.c]: the decoder behind a file handle that can be read
    at any offset. The decoder, [pdgzip], is fetched when the program is built: it is a class, and
    [DecoderOk] is what its interface promises. *)

From S2P Require Import Prelude.

Module Gzip.

(** [pdgzip_read] calls back with the user's state to get compressed bytes; [None] is a negative
    result. *)
Class Decoder := {
  pdgzip_t : Type;
  pdgzip_init : pdgzip_t;
  pdgzip_read : forall U : Type, (U -> Z -> outcome (U * list Z)) -> U -> pdgzip_t -> Z -> outcome (U * pdgzip_t * option (list Z)) }.
Arguments pdgzip_read {_} U _ _ _ _.

(** A callback that answers reads of [n] bytes with the next [n] of [comp], or with what is left;
    [I c u]: in the state [u], [c] bytes have been delivered. *)
Definition delivers {U : Type} (comp : list Z) (I : Z -> U -> Prop) (rd : U -> Z -> outcome (U * list Z)) : Prop :=
  forall c u len, I c u -> 0 <= c <= zlen comp -> 0 <= len -> exists u', let k := Z.min len (zlen comp - c) in
    rd u len = Ret (u', slice comp c k) /\ I (c + k) u'.

(** [decodes comp dec g c n]: the decoder's state [g] has taken [c] bytes of the compressed
    [comp] and given out [n] of the stream [dec]. A read gives the next bytes, and none only at
    the end; whatever the callback keeps is kept. *)
Class DecoderOk `{Decoder} := {
  decodes : list Z -> list Z -> pdgzip_t -> Z -> Z -> Prop;
  decodes_bounds comp dec g c n : decodes comp dec g c n -> 0 <= c <= zlen comp /\ 0 <= n <= zlen dec;
  decodes_restart comp dec g c n : decodes comp dec g c n -> decodes comp dec pdgzip_init 0 0;
  decodes_read comp dec g c n (U : Type) I (rd : U -> Z -> outcome (U * list Z)) u len :
    decodes comp dec g c n -> delivers comp I rd -> I c u -> 0 < len ->
    exists u' g' c' k, pdgzip_read U rd u g len = Ret (u', g', Some (slice dec n k)) /\ I c' u' /\ decodes comp dec g' c' (n + k) /\
      0 <= k <= len /\ (k = 0 -> n = zlen dec);
  read_keeps (U : Type) (I : U -> Prop) (rd : U -> Z -> outcome (U * list Z)) u g len u' g' r :
    (forall u len u' got, I u -> rd u len = Ret (u', got) -> I u') -> I u -> pdgzip_read U rd u g len = Ret (u', g', r) -> I u' }.

Section gzip.
Context `{!Decoder}.
(** The compressed file: its size and [fread] of it. *)
Context {U : Type} (size : Z) (fread : U -> Z -> Z -> outcome (U * list Z)).

Record gzip_handle := { source : U; gz : pdgzip_t; src_pos : Z; dec_pos : Z }.

(** The callback works on [source] and [src_pos]. *)
Definition gz_source_read (gh : U * Z) (len : Z) : outcome ((U * Z) * list Z) :=
  let '(source, src_pos) := gh in
  let avail := u64 (size - src_pos) in
  let len := if len >? avail then avail else len in
  if len =? 0 then Ret ((source, src_pos), [])
  else
    '(source, got) ← fread source src_pos len;
    Ret ((source, u64 (src_pos + zlen got)), got).

Definition gz_reset (gh : gzip_handle) : gzip_handle := {| source := gh.(source); gz := pdgzip_init; src_pos := 0; dec_pos := 0 |}.

(** [pdgzip_read(gh->gz, _, chunk)] and the step of [dec_pos]; an error is the caller's panic. *)
Definition gz_step (gh : gzip_handle) (chunk : Z) : outcome (gzip_handle * list Z) :=
  '(u, g, r) ← pdgzip_read _ gz_source_read (gh.(source), gh.(src_pos)) gh.(gz) chunk;
  match r with
  | None => Panic
  | Some got => Ret ({| source := u.1; gz := g; src_pos := u.2; dec_pos := u64 (gh.(dec_pos) + zlen got) |}, got)
  end.

(** [false]: the stream ends before [loc]. *)
Fixpoint gz_skip (fuel : nat) (gh : gzip_handle) (loc : Z) : outcome (gzip_handle * bool) :=
  if gh.(dec_pos) <? loc then
    match fuel with
    | O => Diverge
    | S fuel =>
        let gap := loc - gh.(dec_pos) in
        let chunk := if gap >? 4096 then 4096 else gap in
        '(gh, got) ← gz_step gh chunk;
        if zlen got =? 0 then Ret (gh, false) else gz_skip fuel gh loc
    end
  else Ret (gh, true).
Fixpoint gz_fill (fuel : nat) (gh : gzip_handle) (dst : list Z) (remaining : Z) : outcome (gzip_handle * list Z) :=
  if remaining >? 0 then
    match fuel with
    | O => Diverge
    | S fuel =>
        let chunk := if remaining >? 65536 then 65536 else remaining in
        '(gh, got) ← gz_step gh chunk;
        if zlen got =? 0 then Ret (gh, dst) else gz_fill fuel gh (dst ++ got) (remaining - zlen got)
    end
  else Ret (gh, dst).
(** The bytes read; their number is the result. *)
Definition gzip_read (fuel : nat) (gh : gzip_handle) (loc count : Z) : outcome (gzip_handle * list Z) :=
  let gh := if loc <? gh.(dec_pos) then gz_reset gh else gh in
  '(gh, more) ← gz_skip fuel gh loc;
  if negb more then Ret (gh, []) else gz_fill fuel gh [] count.

Definition gzip_open (compressed : U) : gzip_handle :=
  gz_reset {| source := compressed; gz := pdgzip_init; src_pos := 0; dec_pos := 0 |}.

Definition gzip_check (fd : U) : outcome (U * bool) :=
  if size <? 18 then Ret (fd, false)
  else
    '(fd, magic) ← fread fd 0 2;
    Ret (fd, (magic.[0] =? 0x1F) && (magic.[1] =? 0x8B)).
End gzip.
Arguments gzip_handle {_} U.
End Gzip.
