(* ===== verification/GzipCorrect.v ===== *)
(** Reads of a compressed file against the decompressed stream. *)

From S2P Require Import Prelude Gzip.
Import Gzip.

Lemma zlen_slice l off n : 0 <= off -> 0 <= n -> off + n <= zlen l -> zlen (slice l off n) = n.
Proof. intros. unfold zlen. rewrite length_slice by done. lia. Qed.
Lemma slice_past l off n : zlen l <= off -> slice l off n = [].
Proof. intros. unfold slice. rewrite drop_ge; [apply take_nil | unfold zlen in *; lia]. Qed.
Lemma slice_split l off k n : 0 <= off -> 0 <= k <= n -> slice l off n = slice l off k ++ slice l (off + k) (n - k).
Proof.
  intros. unfold slice. replace (Z.to_nat (off + k)) with (Z.to_nat off + Z.to_nat k)%nat by lia. rewrite <- drop_drop.
  replace (Z.to_nat n) with (Z.to_nat k + Z.to_nat (n - k))%nat at 1 by lia. by rewrite <- take_take_drop.
Qed.

Section correct.
Context `{DecoderOk} {U : Type} (comp dec : list Z) (fread : U -> Z -> Z -> outcome (U * list Z)).
(** [J c u]: the compressed file can be read from [c] on. *)
Context (J : Z -> U -> Prop).
Hypothesis source_reads : forall c u len, J c u -> 0 <= c -> 0 < len -> c + len <= zlen comp ->
  exists u', fread u c len = Ret (u', slice comp c len) /\ J (c + len) u'.
Hypotheses (Hcomp : zlen comp < 2 ^ 64) (Hdec : zlen dec < 2 ^ 64).
Notation size := (zlen comp).

(** The decoder has given out [n] bytes of [dec]. *)
Definition gz_at (gh : gzip_handle U) (n : Z) : Prop :=
  exists c, decodes comp dec gh.(gz) c n /\ gh.(src_pos) = c /\ gh.(dec_pos) = n /\ J c gh.(source).

Lemma gz_at_bounds gh n : gz_at gh n -> 0 <= n <= zlen dec /\ gh.(dec_pos) = n.
Proof. intros (c & Hd & _ & Hn & _). split; [apply (decodes_bounds _ _ _ _ _ Hd) | done]. Qed.

Lemma source_delivers : delivers comp (fun c u => u.2 = c /\ J c u.1) (gz_source_read size fread).
Proof.
  intros c [u p] len [E HJ] Hc Hlen. cbn [fst snd] in *. subst p. cbn [gz_source_read]. rewrite (u64_small (size - c)) by lia.
  set (k := Z.min len (zlen comp - c)). assert ((if len >? size - c then size - c else len) = k) as ->.
  { unfold k. rewrite Z.gtb_ltb. destruct (Z.ltb_spec (size - c) len); lia. }
  destruct (Z.eqb_spec k 0) as [->|Hk].
  - eexists. split; [done |]. cbn. by rewrite Z.add_0_r.
  - destruct (source_reads c u k HJ) as (u' & -> & HJ'); [lia | unfold k in *; lia | unfold k; lia |]. cbn [mbind outcome_bind].
    eexists. split; [done |]. cbn [fst snd]. rewrite zlen_slice by (unfold k in *; lia). rewrite u64_small by (unfold k in *; lia). done.
Qed.

Lemma gz_step_spec gh n chunk : gz_at gh n -> 0 < chunk ->
  exists gh' k, gz_step size fread gh chunk = Ret (gh', slice dec n k) /\ gz_at gh' (n + k) /\ 0 <= k <= chunk /\ (k = 0 -> n = zlen dec) /\ zlen (slice dec n k) = k.
Proof.
  intros (c & Hd & Hs & Hn & HJ) Hc. unfold gz_step.
  destruct (decodes_read _ _ _ _ _ _ _ _ (gh.(source), gh.(src_pos)) chunk Hd source_delivers (conj Hs HJ) Hc) as (u' & g' & c' & k & -> & [Hs' HJ'] & Hd' & Hk & Hend).
  cbn [mbind outcome_bind]. apply decodes_bounds in Hd' as Hb. apply decodes_bounds in Hd as Hb0. assert (zlen (slice dec n k) = k) as Hz by (apply zlen_slice; lia).
  eexists _, k. split; [done |]. split; [|done]. exists c'. rewrite Hz, Hn, u64_small by lia. done.
Qed.

Lemma gz_skip_spec loc : forall fuel gh n, gz_at gh n -> n <= loc -> (Z.to_nat (loc - n) <= fuel)%nat ->
  exists gh', gz_skip size fread fuel gh loc = Ret (gh', bool_decide (loc <= zlen dec)) /\ gz_at gh' (Z.min loc (zlen dec)).
Proof.
  induction fuel as [|fuel IH]; intros gh n Hat Hn Hf; destruct (gz_at_bounds _ _ Hat) as [Hb Hp]; cbn [gz_skip]; rewrite Hp.
  1, 2: destruct (Z.ltb_spec n loc) as [Hlt|Hge]; [|assert (n = loc) as -> by lia; exists gh; rewrite bool_decide_true, Z.min_l by lia; done].
  - lia.
  - cbv zeta. set (chunk := if loc - n >? 4096 then 4096 else loc - n).
    assert (0 < chunk <= loc - n) as Hc by (unfold chunk; rewrite Z.gtb_ltb; destruct (Z.ltb_spec 4096 (loc - n)); lia).
    destruct (gz_step_spec gh n chunk Hat) as (gh' & k & -> & Hat' & Hk & Hend & Hz); [lia |]. cbn [mbind outcome_bind]. rewrite Hz.
    destruct (Z.eqb_spec k 0) as [->|Hk0].
    + specialize (Hend eq_refl). exists gh'. rewrite bool_decide_false, Z.min_r by lia. rewrite Z.add_0_r, Hend in Hat'. done.
    + apply (IH gh' (n + k)); [done | lia | lia].
Qed.

Lemma gz_fill_spec : forall fuel gh n dst remaining, gz_at gh n -> 0 <= remaining -> (Z.to_nat remaining <= fuel)%nat ->
  exists gh', gz_fill size fread fuel gh dst remaining = Ret (gh', dst ++ slice dec n remaining) /\ gz_at gh' (Z.min (n + remaining) (zlen dec)).
Proof.
  induction fuel as [|fuel IH]; intros gh n dst remaining Hat Hr Hf; destruct (gz_at_bounds _ _ Hat) as [Hb Hp]; cbn [gz_fill]; rewrite Z.gtb_ltb.
  1, 2: destruct (Z.ltb_spec 0 remaining) as [Hlt|Hge]; [|assert (remaining = 0) as -> by lia; exists gh; cbn [slice]; rewrite Z.add_0_r, Z.min_l by lia; split; [by rewrite app_nil_r | done]].
  - lia.
  - cbv zeta. set (chunk := if remaining >? 65536 then 65536 else remaining).
    assert (0 < chunk <= remaining) as Hc by (unfold chunk; rewrite Z.gtb_ltb; destruct (Z.ltb_spec 65536 remaining); lia).
    destruct (gz_step_spec gh n chunk Hat) as (gh' & k & -> & Hat' & Hk & Hend & Hz); [lia |]. cbn [mbind outcome_bind]. rewrite Hz.
    destruct (gz_at_bounds _ _ Hat') as [Hb' _]. destruct (Z.eqb_spec k 0) as [->|Hk0].
    + specialize (Hend eq_refl). exists gh'. rewrite Hend, slice_past, app_nil_r by lia. rewrite Z.add_0_r, Hend in Hat'. rewrite Z.min_r by lia. done.
    + destruct (IH gh' (n + k) (dst ++ slice dec n k) (remaining - k)) as (gh2 & -> & Hat2); [done | lia | lia |].
      exists gh2. replace (n + k + (remaining - k)) with (n + remaining) in Hat2 by lia. split; [|done].
      by rewrite <- app_assoc, <- slice_split by lia.
Qed.

(** A read at [loc]; one before the decoder's position starts again, which the compressed file has
    to allow. *)
Lemma gzip_read_spec fuel gh n loc count : gz_at gh n -> 0 <= loc -> 0 <= count ->
  (loc < n -> forall c u, J c u -> J 0 u) -> (Z.to_nat loc <= fuel)%nat -> (Z.to_nat count <= fuel)%nat ->
  exists gh', gzip_read size fread fuel gh loc count = Ret (gh', slice dec loc count) /\ gz_at gh' (Z.min (loc + count) (zlen dec)).
Proof.
  intros Hat Hloc Hcount Hrew Hf1 Hf2. destruct (gz_at_bounds _ _ Hat) as [Hb Hp]. unfold gzip_read. cbv zeta. rewrite Hp.
  assert (exists m, gz_at (if loc <? n then gz_reset gh else gh) m /\ 0 <= m <= loc) as (m & Hm & Hml).
  { destruct (Z.ltb_spec loc n) as [Hlt|Hge]; [|exists n; split; [done | lia]]. exists 0. split; [|lia]. destruct Hat as (c & Hd & _ & _ & HJ). exists 0. split; [by eapply decodes_restart |].
    split; [done |]. split; [done |]. by apply (Hrew Hlt c). }
  destruct (gz_skip_spec loc fuel _ m Hm) as (gh1 & -> & Hat1); [lia | lia |]. cbn [mbind outcome_bind].
  destruct (bool_decide_reflect (loc <= zlen dec)) as [Hle|Hgt]; cbn [negb].
  - rewrite Z.min_l in Hat1 by done. destruct (gz_fill_spec fuel gh1 loc [] count Hat1) as (gh2 & -> & Hat2); [done | lia |]. by exists gh2.
  - exists gh1. rewrite slice_past by lia. rewrite Z.min_r in Hat1 |- * by lia. done.
Qed.

Lemma gzip_open_at u : decodes comp dec pdgzip_init 0 0 -> J 0 u -> gz_at (gzip_open u) 0.
Proof. intros Hd HJ. by exists 0. Qed.
End correct.

(** * What the reads of the compressed file keep *)

Section keeps.
Context `{DecoderOk} {U : Type} (size : Z) (fread : U -> Z -> Z -> outcome (U * list Z)) (P : U -> Prop).
Hypothesis fread_keeps : forall u loc len u' got, P u -> fread u loc len = Ret (u', got) -> P u'.

Lemma gz_step_keeps gh chunk gh' got : P gh.(source) -> gz_step size fread gh chunk = Ret (gh', got) -> P gh'.(source).
Proof.
  intros HP. unfold gz_step. destruct (pdgzip_read _ _ _ _ _) as [[[u g] r]| |] eqn:E; [|done..]. cbn [mbind outcome_bind].
  apply (read_keeps _ (fun u => P u.1)) in E; [|clear -fread_keeps|done].
  - destruct r; [|done]. by intros [= <- <-].
  - intros [u p] len [u' p'] got HP. cbn [gz_source_read fst] in *. cbv zeta. case_if; [by intros [= <- <- <-] |].
    destruct (fread _ _ _) as [[u1 l]| |] eqn:E; [|done..]. cbn [mbind outcome_bind]. intros [= <- <- <-]. eauto.
Qed.
Lemma gz_skip_keeps loc : forall fuel gh gh' b, P gh.(source) -> gz_skip size fread fuel gh loc = Ret (gh', b) -> P gh'.(source).
Proof.
  induction fuel as [|fuel IH]; intros gh gh' b HP; cbn [gz_skip]; (destruct (_ <? _); [|by intros [= <- <-]]); [done |]. cbv zeta.
  destruct (gz_step _ _ _ _) as [[gh1 got]| |] eqn:E; [|done..]. cbn [mbind outcome_bind]. apply gz_step_keeps in E; [|done]. case_if; [by intros [= <- <-] | eauto].
Qed.
Lemma gz_fill_keeps : forall fuel gh dst remaining gh' l, P gh.(source) -> gz_fill size fread fuel gh dst remaining = Ret (gh', l) -> P gh'.(source).
Proof.
  induction fuel as [|fuel IH]; intros gh dst remaining gh' l HP; cbn [gz_fill]; (destruct (_ >? 0); [|by intros [= <- <-]]); [done |]. cbv zeta.
  destruct (gz_step _ _ _ _) as [[gh1 got]| |] eqn:E; [|done..]. cbn [mbind outcome_bind]. apply gz_step_keeps in E; [|done]. case_if; [by intros [= <- <-] | eauto].
Qed.
Lemma gzip_read_keeps fuel gh loc count gh' l : P gh.(source) -> gzip_read size fread fuel gh loc count = Ret (gh', l) -> P gh'.(source).
Proof.
  intros HP. unfold gzip_read. cbv zeta. destruct (gz_skip _ _ _ _ _) as [[gh1 b]| |] eqn:E; [|done..]. cbn [mbind outcome_bind].
  apply gz_skip_keeps in E; [|by case_if]. destruct b; cbn [negb]; [apply gz_fill_keeps, E | by intros [= <- <-]].
Qed.
End keeps.

(** * Reads in any order *)

Fixpoint gzip_reads `{!Decoder} {U : Type} (size : Z) (fread : U -> Z -> Z -> outcome (U * list Z)) (fuel : nat) (gh : gzip_handle U) (reqs : list (Z * Z))
    : outcome (list (list Z)) :=
  match reqs with
  | [] => Ret []
  | (loc, count) :: reqs =>
      '(gh, got) ← gzip_read size fread fuel gh loc count;
      rest ← gzip_reads size fread fuel gh reqs;
      Ret (got :: rest)
  end.

(** C28: on a file whose contents the decoder decodes to [dec], reads of any ranges in any order,
    each of which starts the decoder again if it is before the last one, return exactly the bytes
    of [dec] in these ranges, fewer at its end and none after it, and every loop ends. *)
Theorem gzip_random_access `{DecoderOk} {U : Type} (comp dec : list Z) (fread : U -> Z -> Z -> outcome (U * list Z)) (V : U -> Prop) u fuel reqs :
  (forall u loc len, V u -> 0 <= loc -> 0 < len -> loc + len <= zlen comp -> exists u', fread u loc len = Ret (u', slice comp loc len) /\ V u') ->
  zlen comp < 2 ^ 64 -> zlen dec < 2 ^ 64 -> decodes comp dec pdgzip_init 0 0 -> V u ->
  Forall (fun r => 0 <= r.1 <= Z.of_nat fuel /\ 0 <= r.2 <= Z.of_nat fuel) reqs ->
  gzip_reads (zlen comp) fread fuel (gzip_open u) reqs = Ret ((fun r => slice dec r.1 r.2) <$> reqs).
Proof.
  intros Hr Hc Hd Hinit Hu HF.
  assert (forall c u len, V u -> 0 <= c -> 0 < len -> c + len <= zlen comp -> exists u', fread u c len = Ret (u', slice comp c len) /\ V u') as Hsrc by (intros c v len Hv ? ? ?; by apply Hr).
  assert (exists n, gz_at comp dec (fun _ => V) (gzip_open u) n) as [n Hat] by (exists 0; by apply gzip_open_at).
  generalize dependent n. generalize (gzip_open u) as gh. induction HF as [|[loc count] reqs [Hl Hcnt] HF IH]; intros gh n Hat; [done |]. cbn [gzip_reads fst snd] in *.
  destruct (gzip_read_spec comp dec fread (fun _ => V) Hsrc Hc Hd fuel gh n loc count Hat) as (gh' & -> & Hat'); try done; try lia.
  cbn [mbind outcome_bind]. by rewrite (IH _ _ Hat').
Qed.

(** A decoder of stored data. *)
Definition stored : Decoder := {|
  pdgzip_t := unit; pdgzip_init := tt; pdgzip_read U rd u g len := '(u, got) ← rd u len; Ret (u, g, Some got) |}.
Definition stored_ok : @DecoderOk stored.
Proof.
  refine (@Build_DecoderOk stored (fun comp dec _ c n => dec = comp /\ c = n /\ 0 <= n <= zlen comp) _ _ _ _).
  - intros comp dec g c n (-> & -> & Hn). done.
  - intros comp dec g c n (-> & _ & _). pose proof (zlen_nonneg comp). split; [done |]. split; [done | lia].
  - intros comp dec g c n U I rd u len (-> & -> & Hn) Hdel HI Hlen. destruct (Hdel n u len HI Hn ltac:(lia)) as (u' & Hrd & HI').
    exists u', g, (n + Z.min len (zlen comp - n)), (Z.min len (zlen comp - n)). cbn. rewrite Hrd. cbn. split; [done |]. split; [done |]. split; [split; [done |]; split; [done | lia] |]. split; lia.
  - intros U I rd u g len u' g' r Hrd HI. cbn. destruct (rd u len) as [[u1 got]| |] eqn:E; [|done..]. cbn. intros [= <- _ _]. eauto.
Defined.

(** Ten bytes, read backwards: the second and the third read start again. *)
Lemma gzip_random_access_witness :
  @gzip_reads stored unit 10 (fun u loc count => Ret (u, slice (seqZ 0 10) loc count)) 10 (gzip_open tt) [(8, 4); (3, 2); (0, 3); (3, 2); (10, 1)] = Ret [[8; 9]; [3; 4]; [0; 1; 2]; [3; 4]; []].
Proof.
  apply (@gzip_random_access stored stored_ok unit (seqZ 0 10) (seqZ 0 10) (fun u loc count => Ret (u, slice (seqZ 0 10) loc count)) (fun _ => True) tt 10).
  - intros u loc len _ _ _ _. exists u. done.
  - vm_compute. reflexivity.
  - vm_compute. reflexivity.
  - split; [done |]. split; [done |]. split; vm_compute; discriminate.
  - done.
  - repeat constructor; cbn; lia.
Defined.
