(* ===== verification/Uri.v ===== *)
(** URIs, [common/lib/uri.c]: [resource(root):/path#hash].

    The volumes are a list, the index of one is its address. A [tftp] file, the decoder of
    compressed files and the key the user presses are parameters. The buffer a file is read into
    is a list: where it is allocated is not modelled. *)

From S2P Require Import Prelude Libc Guid Part Iso9660 Fat32 File Blake2b Gzip.
Import Libc Guid Part.

Module Uri.

(** * Splitting *)

Definition URI_BUF_SIZE : Z := 4096.
(** Offsets into the buffer. *)
Record uri_parts := { resource : Z; root : Z; path : Z; hash : option Z }.

Definition at_ (buf : list Z) (p : Z) : Z -> Z := fun i => buf.[p + i].

(** The two loops that look for a mark: from [i] on, up to where fewer characters are left than it
    has. *)
Fixpoint find_mark (fuel : nat) (buf : list Z) (uri : Z) (mark : string) (i : Z) : outcome (option Z) :=
  match fuel with
  | O => Diverge
  | S fuel =>
      len ← strlen (length buf) (at_ buf (uri + i));
      if len <? zlen (bytes mark) then Ret None
      else if strncmp (at_ buf (uri + i)) (lit mark) (zlen (bytes mark)) =? 0 then Ret (Some i)
      else find_mark fuel buf uri mark (i + 1)
  end.
(** [for (int i = strlen(uri) - 1; i >= 0; i--)]; [n] is [i + 1]. *)
Fixpoint find_hash (n : nat) (buf : list Z) (uri : Z) : option Z :=
  match n with
  | O => None
  | S n => if buf.[uri + Z.of_nat n] =? 35 then Some (Z.of_nat n) else find_hash n buf uri
  end.
Definition is_hex_digit (c : Z) : bool :=
  ((c >=? 48) && (c <=? 57)) || ((c >=? 97) && (c <=? 102)) || ((c >=? 65) && (c <=? 70)).

(** The buffer and where the parts are; [None] is [false]. *)
Definition uri_resolve (fuel : nat) (uri : Z -> Z) : outcome (option (list Z * uri_parts)) :=
  len ← strlen fuel uri;
  let length := len + 1 in
  if length >? URI_BUF_SIZE then Panic
  else
    let buf := load_bytes uri 0 (Z.to_nat length) in
    let n := List.length buf in
    r ← find_mark n buf 0 "(" 0;
    match r with
    | None => Ret None
    | Some i =>
        let buf := buf.[i := 0] in
        let root := i + 1 in
        r ← find_mark n buf root "):/" 0;
        match r with
        | None => Ret None
        | Some j =>
            let buf := buf.[root + j := 0] in
            let path := root + j + 3 in
            if buf.[path] =? 0 then Ret None
            else
              len ← strlen n (at_ buf path);
              match find_hash (Z.to_nat len) buf path with
              | None => Ret (Some (buf, {| resource := 0; root := root; path := path; hash := None |}))
              | Some k =>
                  let buf := buf.[path + k := 0] in
                  let hash := path + k + 1 in
                  len ← strlen n (at_ buf hash);
                  if negb (len =? 128) then Panic
                  else if negb (forallb (fun j => is_hex_digit buf.[hash + j]) (seqZ 0 128)) then Panic
                  else Ret (Some (buf, {| resource := 0; root := root; path := path; hash := Some hash |}))
              end
        end
    end.

(** * Volumes *)

(** [None] is [false]. [loc] is the string in the buffer, up to its terminator. *)
Fixpoint find_colon (fuel : nat) (loc : Z -> Z) (i : Z) : outcome (option Z) :=
  if loc i =? 0 then Ret None
  else if loc i =? 58 then Ret (Some i)
  else match fuel with O => Diverge | S fuel => find_colon fuel loc (i + 1) end.
Definition parse_bios_partition (fuel : nat) (loc : Z -> Z) : outcome (option (Z * Z)) :=
  r ← find_colon fuel loc 0;
  match r with
  | None => Ret None
  | Some i =>
      (* the drive's number ends where the colon was *)
      let cut := fun k => if k =? i then 0 else loc k in
      if cut 0 =? 0 then Panic
      else
        '(drive, _) ← strtoui fuel cut 10;
        if (drive <? 1) || (drive >? 256) then Panic
        else
          '(partition, _) ← strtoui fuel (tail loc (i + 1)) 10;
          if partition >? 256 then Panic else Ret (Some (drive, partition))
  end.

Section open.
Context {D : Type} `{!BlockDev D} `{!Gzip.Decoder}.
Variable case_insensitive_fopen : bool.
(** [tftp_open(boot_volume, root, path)]: the contents of the file. *)
Variable tftp_open : (Z -> Z) -> (Z -> Z) -> option (list Z).

Record world := { dev : D; volumes : list volume; contexts : list Iso9660.iso9660_context }.

(** [fopen] on a volume of the index; a handle comes with its volume. *)
Definition open_on (fuel : nat) (base : Z) (w : world) (volume : option Z) (path : Z -> Z) : outcome (world * option (Z * File.file_handle)) :=
  match volume with
  | None => Ret (w, None)
  | Some k =>
      match w.(volumes) !! Z.to_nat k with
      | None => Panic
      | Some v =>
          '(d, v, (cs, r)) ← File.fopen (tftp_open (lit "")) fuel base case_insensitive_fopen w.(contexts) w.(dev) k v path;
          Ret ({| dev := d; volumes := <[Z.to_nat k := v]> w.(volumes); contexts := cs |}, match r with Some h => Some (k, h) | None => None end)
      end
  end.

Definition uri_hdd_dispatch (fuel : nat) (base : Z) (w : world) (optical : bool) (loc path : Z -> Z) : outcome (world * option (Z * File.file_handle)) :=
  r ← parse_bios_partition fuel loc;
  match r with
  | None => Ret (w, None)
  | Some (drive, partition) => open_on fuel base w (volume_get_by_coord w.(volumes) optical drive partition) path
  end.
(** [guid] is on the stack: [junk] is what was there. *)
Definition uri_guid_dispatch (fuel : nat) (base : Z) (w : world) (junk : list Z) (guid_str path : Z -> Z) : outcome (world * option (Z * File.file_handle)) :=
  match string_to_guid_be junk guid_str with
  | None => Ret (w, None)
  | Some guid =>
      match volume_get_by_guid w.(volumes) guid with
      | Some k => open_on fuel base w (Some k) path
      | None =>
          match string_to_guid_mixed guid guid_str with
          | None => Ret (w, None)
          | Some guid => open_on fuel base w (volume_get_by_guid w.(volumes) guid) path
          end
      end
  end.
Definition uri_fslabel_dispatch (fuel : nat) (base : Z) (w : world) (fslabel path : Z -> Z) : outcome (world * option (Z * File.file_handle)) :=
  open_on fuel base w (volume_get_by_fslabel fuel w.(volumes) fslabel) path.
Definition uri_tftp_dispatch (fuel : nat) (w : world) (root path : Z -> Z) : outcome (world * option (Z * File.file_handle)) :=
  r ← strcmp fuel root (lit "");
  ip ← (if r =? 0 then Ret (Some []) else inet_pton fuel root);
  match ip with
  | None => Panic
  | Some _ =>
      f ← File.tftp_file fuel (tftp_open root path) path;
      Ret (w, match f with Some h => Some (0, h) | None => None end)
  end.
Definition uri_boot_dispatch (fuel : nat) (base : Z) (w : world) (boot_volume : volume) (s_part path : Z -> Z) : outcome (world * option (Z * File.file_handle)) :=
  if boot_volume.(pxe) then uri_tftp_dispatch fuel w s_part path
  else
    partition ← (if negb (s_part 0 =? 0) then
                   '(val, _) ← strtoui fuel s_part 10;
                   if val >? 256 then Panic else Ret val
                 else Ret boot_volume.(Part.partition));
    open_on fuel base w (volume_get_by_coord w.(volumes) boot_volume.(is_optical) boot_volume.(index) partition) path.

(** The resources of a URI. *)
Definition dispatch (fuel : nat) (base : Z) (w : world) (boot_volume : volume) (junk : list Z) (resource root path : Z -> Z)
    : outcome (world * option (Z * File.file_handle)) :=
  let named name := r ← strcmp fuel resource (lit name); Ret (r =? 0) in
  b ← named "hdd"; if b : bool then uri_hdd_dispatch fuel base w false root path else
  b ← named "odd"; if b : bool then uri_hdd_dispatch fuel base w true root path else
  b ← named "boot"; if b : bool then uri_boot_dispatch fuel base w boot_volume root path else
  b ← named "guid"; if b : bool then uri_guid_dispatch fuel base w junk root path else
  b ← named "uuid"; if b : bool then uri_guid_dispatch fuel base w junk root path else
  b ← named "fslabel"; if b : bool then uri_fslabel_dispatch fuel base w root path else
  b ← named "tftp"; if b : bool then uri_tftp_dispatch fuel w root path else
  Panic.

(** * Opening *)

(** [Opened]: the memory file that is returned; [NullCall]: a call of a null function pointer;
    [BackToMenu]: the user did not accept a file whose hash differs. *)
Inductive uri_result := NotFound | Opened (out : File.file_handle) | NullCall | BackToMenu.

(** [fread] of the file. *)
Definition file_read (k : Z) (h : File.file_handle) (w : world) (loc count : Z) : outcome (world * list Z) :=
  match h.(File.fd) with
  | File.MemFile data => if (loc >=? h.(File.file_size)) || (count >? h.(File.file_size) - loc) then Panic else Ret (w, slice data loc count)
  | _ =>
      match w.(volumes) !! Z.to_nat k with
      | None => Panic
      | Some v =>
          '(d, v, buf, got) ← File.fread h w.(dev) v (replicate (Z.to_nat count) 0) loc count;
          Ret ({| dev := d; volumes := <[Z.to_nat k := v]> w.(volumes); contexts := w.(contexts) |}, take (Z.to_nat got) buf)
      end
  end.

(** The file behind the hashing filter, if there is a hash. The filter's source answers what
    [fread] of the file has just given. *)
Definition source_of (sz : Z) (got : list Z) : Blake2b.file_handle :=
  {| Blake2b.is_memfile := false; Blake2b.is_high_mem := false; Blake2b.size := sz; Blake2b.fd := []; Blake2b.read := fun _ _ => Ret got |}.
Definition on_source (hd : Blake2b.blake2b_handle) (f : Blake2b.file_handle) : Blake2b.blake2b_handle :=
  {| Blake2b.source := f; Blake2b.hstate := hd.(Blake2b.hstate); Blake2b.pos := hd.(Blake2b.pos);
     Blake2b.finalized := hd.(Blake2b.finalized); Blake2b.digest := hd.(Blake2b.digest) |}.
Definition stream : Type := world * option Blake2b.blake2b_handle.
Definition stream_read (k : Z) (h : File.file_handle) (s : stream) (loc count : Z) : outcome (stream * list Z) :=
  '(w, got) ← file_read k h s.1 loc count;
  match s.2 with
  | None => Ret ((w, None), got)
  | Some hd =>
      '(hd, got) ← Blake2b.blake2b_read (on_source hd (source_of h.(File.file_size) got)) loc count;
      Ret ((w, Some hd), got)
  end.

(** A file that is not compressed, in one read through the [read] function of the handle, which a
    memory file without a filter does not have: [None]. *)
Definition read_plain (k : Z) (h : File.file_handle) (s : stream) : outcome (stream * option (list Z)) :=
  let sz := h.(File.file_size) in
  if sz >? 0 then
    match h.(File.fd), s.2 with
    | File.MemFile _, None => Ret (s, None)
    | _, _ =>
        '(s, got) ← stream_read k h s 0 sz;
        if negb (zlen got =? sz) then Panic else Ret (s, Some got)
    end
  else Ret (s, Some []).

(** A compressed file, whose length is not known: the buffer's capacity doubles up to 64 MiB, and
    grows by 64 MiB from then on. *)
Definition new_cap (buf_cap : Z) : Z := if buf_cap <? 0x4000000 then buf_cap * 2 else u64 (buf_cap + 0x4000000).
Fixpoint drain (fuel : nat) (k : Z) (h : File.file_handle) (top : Gzip.gzip_handle stream) (buf : list Z) (buf_cap : Z)
    : outcome (Gzip.gzip_handle stream * list Z * Z) :=
  match fuel with
  | O => Diverge
  | S fuel' =>
      let buf_cap := if zlen buf =? buf_cap then new_cap buf_cap else buf_cap in
      let want := u64 (buf_cap - zlen buf) in
      let want := if want >? 65536 then 65536 else want in
      '(top, got) ← Gzip.gzip_read h.(File.file_size) (stream_read k h) fuel top (zlen buf) want;
      if zlen got =? 0 then Ret (top, buf, buf_cap) else drain fuel' k h top (buf ++ got) buf_cap
  end.
(** The capacity that is kept; the rest of it is given back. *)
Definition kept (buf_len buf_cap : Z) : outcome Z :=
  k ← or_panic (ALIGN_UP buf_len 4096);
  let k := if k =? 0 then 4096 else k in
  Ret (if k <? buf_cap then k else buf_cap).
Definition read_gzip (fuel : nat) (k : Z) (h : File.file_handle) (s : stream) : outcome (stream * list Z) :=
  '(top, buf, buf_cap) ← drain fuel k h (Gzip.gzip_open s) [] 0x100000;
  _ ← kept (zlen buf) buf_cap;
  Ret (top.(Gzip.source), buf).

(** The hash of the URI as bytes; its digits have been checked. *)
Definition hash_bytes (hash : Z -> Z) : list Z :=
  (fun i => u8 (Z.lor (Z.shiftl (digit_to_int (schar (hash (i * 2)))) 4) (digit_to_int (schar (hash (i * 2 + 1)))))) <$> seqZ 0 64.

(** [out]: the path of the file is copied. *)
Definition opened (h : File.file_handle) (data : list Z) : File.file_handle :=
  let copy := match h.(File.path) with Some _ => h.(File.path_len) >? 0 | None => false end in
  {| File.fd := File.MemFile data; File.file_size := zlen data;
     File.path := if copy then h.(File.path) else None; File.path_len := if copy then h.(File.path_len) else 0 |}.

(** The rest of [uri_open], once the file is open. *)
Definition deliver (fuel : nat) (k : Z) (h : File.file_handle) (gz_compressed : bool) (hash_buf : option (list Z)) (hash_mismatch_panic : bool) (key : Z) (w : world)
    : outcome (world * uri_result) :=
  let s := (w, (fun _ => Blake2b.blake2b_open (source_of h.(File.file_size) [])) <$> hash_buf) in
  '(s, r) ← (if gz_compressed then '(s, data) ← read_gzip fuel k h s; Ret (s, Some data) else read_plain k h s);
  match r with
  | None => Ret (s.1, NullCall)
  | Some data =>
      match s.2, hash_buf with
      | Some hash_fh, Some hash_buf =>
          let '(_, ok) := Blake2b.blake2b_check_hash hash_fh hash_buf in
          if negb ok then
            if hash_mismatch_panic then Panic
            else if negb (key =? 89) && negb (key =? 121) then Ret (s.1, BackToMenu)
            else Ret (s.1, Opened (opened h data))
          else Ret (s.1, Opened (opened h data))
      | _, _ => Ret (s.1, Opened (opened h data))
      end
  end.

Definition uri_open (fuel : nat) (base : Z) (w : world) (boot_volume : volume) (junk : list Z)
    (secure_boot_active hash_mismatch_panic : bool) (key : Z) (uri : Z -> Z) : outcome (world * uri_result) :=
  r ← uri_resolve fuel uri;
  match r with
  | None => Ret (w, NotFound)
  | Some (buf, u) =>
      let gz_compressed := buf.[u.(resource)] =? 36 in
      let resource := u.(resource) + b2z gz_compressed in
      '(w, raw) ← dispatch fuel base w boot_volume junk (at_ buf resource) (at_ buf u.(root)) (at_ buf u.(path));
      match raw with
      | None => Ret (w, NotFound)
      | Some (k, h) =>
          if secure_boot_active && bool_decide (u.(hash) = None) then Panic
          else
            deliver fuel k h gz_compressed ((fun p => hash_bytes (at_ buf p)) <$> u.(hash)) hash_mismatch_panic key w
      end
  end.
End open.
End Uri.
