(* ===== verification/UriCorrect.v ===== *)
(** URIs against lists of characters, and what [uri_open] gives. *)

From S2P Require Import Prelude Libc LibcCorrect Guid Part PartCorrect Iso9660 Fat32 Fat32Dir Fat32Correct Fat32Files File FileFiles Blake2b Blake2bCorrect Gzip GzipCorrect Uri.
Import Libc Guid Part Uri.

(** * The form of a URI *)

(** What is before and after the first [mark], and the last [b]. *)
Fixpoint split_mark (mark l : list Z) : option (list Z * list Z) :=
  if begins mark l then Some ([], drop (length mark) l)
  else match l with [] => None | b :: l => prod_map (cons b) id <$> split_mark mark l end.
Fixpoint split_last (b : Z) (l : list Z) : option (list Z * list Z) :=
  match l with
  | [] => None
  | c :: l => match split_last b l with Some (x, y) => Some (c :: x, y) | None => if c =? b then Some ([], l) else None end
  end.

Record uri_text := { t_resource : list Z; t_root : list Z; t_path : list Z; t_hash : option (list Z) }.
(** [resource(root):/path#hash]: a hash has 128 hexadecimal digits, anything else after the last
    number sign is an error. *)
Definition parse_uri (l : list Z) : outcome (option uri_text) :=
  match split_mark (bytes "(") l with
  | None => Ret None
  | Some (res, l) =>
      match split_mark (bytes "):/") l with
      | None => Ret None
      | Some (_, []) => Ret None
      | Some (root, p) =>
          match split_last 35 p with
          | None => Ret (Some {| t_resource := res; t_root := root; t_path := p; t_hash := None |})
          | Some (path, h) =>
              if (zlen h =? 128) && forallb is_hex_digit h
              then Ret (Some {| t_resource := res; t_root := root; t_path := path; t_hash := Some h |}) else Panic
          end
      end
  end.

(** The parts in the buffer. *)
Definition parts_at (buf : list Z) (u : uri_parts) (t : uri_text) : Prop :=
  cstr (at_ buf u.(resource)) t.(t_resource) /\ cstr (at_ buf u.(root)) t.(t_root) /\ cstr (at_ buf u.(path)) t.(t_path) /\
  match t.(t_hash) with None => u.(hash) = None | Some h => exists p, u.(hash) = Some p /\ cstr (at_ buf p) h end.

Lemma split_mark_some mark l x y : split_mark mark l = Some (x, y) -> l = x ++ mark ++ y.
Proof.
  revert x; induction l as [|b l IH]; intros x; cbn [split_mark]; (destruct (begins _ _) eqn:E; [rewrite begins_take in E; apply bool_decide_eq_true in E; intros [= <- <-]; rewrite <- (take_drop (length mark) _), E at 1; by rewrite ?drop_nil |]).
  - done.
  - destruct (split_mark mark l) as [[x' y']|]; [|done]. cbn. intros [= <- <-]. by rewrite (IH x' eq_refl).
Qed.
Lemma split_mark_short mark l : (length l < length mark)%nat -> split_mark mark l = None.
Proof.
  induction l as [|b l IH]; intros Hl; cbn [split_mark]; rewrite begins_take, bool_decide_false; try done;
    try (by intros E; apply (f_equal length) in E; rewrite length_take in E; cbn [length] in *; lia).
  rewrite IH; [done | simpl in Hl; lia].
Qed.
Lemma split_last_some b l x y : split_last b l = Some (x, y) -> l = x ++ b :: y.
Proof.
  revert x; induction l as [|c l IH]; intros x; cbn [split_last]; [done |]. destruct (split_last b l) as [[x' y']|]; [intros [= <- <-]; by rewrite (IH x' eq_refl) |].
  destruct (Z.eqb_spec c b) as [->|]; [by intros [= <- <-] | done].
Qed.
Lemma split_last_snoc b l c : split_last b (l ++ [c]) = if c =? b then Some (l, []) else prod_map id (fun y => y ++ [c]) <$> split_last b l.
Proof.
  induction l as [|a l IH]; cbn [app split_last]; [by destruct (c =? b) |]. rewrite IH. destruct (c =? b); [done |]. destruct (split_last b l) as [[x y]|]; [done |]. cbn. by destruct (a =? b).
Qed.

(** * Splitting *)

Lemma at_cstr pre l r : Forall (fun b => 0 < b < 256) l -> cstr (at_ (pre ++ l ++ 0 :: r) (zlen pre)) l.
Proof.
  intros HF. eapply cstr_ext; [|by apply (cstr_prefix l r)]. intros i Hi. cbn. unfold at_. rewrite aget_app_r by lia. f_equal. lia.
Qed.
Lemma at_strlen pre l r n : Forall (fun b => 0 < b < 256) l -> (length l <= n)%nat -> strlen n (at_ (pre ++ l ++ 0 :: r) (zlen pre)) = Ret (zlen l).
Proof. intros HF Hn. apply strlen_spec; [by apply at_cstr | done]. Qed.

Lemma find_mark_spec mark pre r b : forall fuel a, Forall (fun b => 0 < b < 256) (a ++ b) -> Forall (fun b => 0 < b < 256) (bytes mark) -> (length b < fuel)%nat ->
  find_mark fuel (pre ++ (a ++ b) ++ 0 :: r) (zlen pre) mark (zlen a) = Ret ((fun xy => zlen a + zlen xy.1) <$> split_mark (bytes mark) b).
Proof.
  induction b as [|c b IH]; intros fuel a HF Hm Hf; (destruct fuel as [|fuel]; [lia |]); cbn [find_mark].
  - rewrite app_nil_r in *. rewrite <- zlen_app. pose proof (at_cstr (pre ++ a) [] r ltac:(constructor)) as Hc. cbn [app] in Hc. rewrite <- app_assoc in Hc.
    rewrite (strlen_spec _ _ [] Hc) by (simpl; lia). cbn [mbind outcome_bind]. rewrite (strncmp_begins _ _ _ Hc Hm). cbn [split_mark].
    destruct (bytes mark) as [|m ms] eqn:Em; cbn [begins].
    + change (zlen (@nil Z)) with 0. cbn. by rewrite Z.add_0_r.
    + rewrite (proj2 (Z.ltb_lt _ _)); [done |]. rewrite zlen_cons. change (zlen (@nil Z)) with 0. pose proof (zlen_nonneg ms). lia.
  - rewrite <- zlen_app. pose proof HF as HF0. apply Forall_app in HF as [HFa HFb]. pose proof (at_cstr (pre ++ a) (c :: b) r HFb) as Hc.
    replace ((pre ++ a) ++ (c :: b) ++ 0 :: r) with (pre ++ (a ++ c :: b) ++ 0 :: r) in Hc by app_solve.
    rewrite (strlen_spec _ _ _ Hc) by (rewrite !length_app; lia). cbn [mbind outcome_bind]. rewrite (strncmp_begins _ _ _ Hc Hm).
    destruct (Z.ltb_spec (zlen (c :: b)) (zlen (bytes mark))) as [Hlt|Hge]; [rewrite split_mark_short; [done | unfold zlen in Hlt; lia] |].
    cbn [split_mark]. destruct (begins (bytes mark) (c :: b)); [cbn; change (zlen (@nil Z)) with 0; by rewrite Z.add_0_r |].
    rewrite (zlen_snoc a c). replace (pre ++ (a ++ c :: b) ++ 0 :: r) with (pre ++ ((a ++ [c]) ++ b) ++ 0 :: r) by app_solve.
    rewrite IH; [| by rewrite <- app_assoc | done | simpl in Hf; lia]. destruct (split_mark (bytes mark) b) as [[x y]|]; [|done]. cbn. rewrite <- zlen_snoc, zlen_cons. do 2 f_equal. lia.
Qed.
Lemma find_hash_spec pre r l : find_hash (length l) (pre ++ l ++ r) (zlen pre) = (fun xy => zlen xy.1) <$> split_last 35 l.
Proof.
  revert r; induction l as [|c l IH] using rev_ind; intros r; [done |]. rewrite length_app, Nat.add_1_r. cbn [find_hash].
  assert ((pre ++ (l ++ [c]) ++ r).[zlen pre + Z.of_nat (length l)] = c) as ->.
  { change (Z.of_nat (length l)) with (zlen l). rewrite <- zlen_app. replace (pre ++ (l ++ [c]) ++ r) with ((pre ++ l) ++ c :: r) by app_solve. apply aget_here. }
  rewrite split_last_snoc. destruct (c =? 35); [done |]. rewrite <- (app_assoc l), IH. by destruct (split_last 35 l) as [[x y]|].
Qed.
Lemma hex_check pre h r : zlen h = 128 -> forallb (fun j => is_hex_digit (pre ++ h ++ r).[zlen pre + j]) (seqZ 0 128) = forallb is_hex_digit h.
Proof.
  intros Hl. apply eq_true_iff_eq. rewrite !forallb_forall. split; intros H x Hx.
  - apply list_elem_of_In, list_elem_of_lookup in Hx as [i Hi]. pose proof (lookup_lt_Some _ _ _ Hi). specialize (H (Z.of_nat i)).
    rewrite aget_app_r, aget_app_l in H by (unfold zlen in *; lia). unfold aget in H. replace (Z.to_nat (zlen pre + Z.of_nat i - zlen pre)) with i in H by lia.
    rewrite (list_lookup_total_correct _ _ _ Hi) in H. apply H. apply list_elem_of_In, elem_of_seqZ. unfold zlen in Hl. lia.
  - apply list_elem_of_In, elem_of_seqZ in Hx. rewrite aget_app_r, aget_app_l by lia. apply H. apply list_elem_of_In, list_elem_of_lookup. exists (Z.to_nat (zlen pre + x - zlen pre)). apply aget_lookup. lia.
Qed.

Definition resolves_to (l : list Z) (o : outcome (option (list Z * uri_parts))) : Prop :=
  match parse_uri l with
  | Ret None => o = Ret None
  | Ret (Some t) => exists buf u, o = Ret (Some (buf, u)) /\ parts_at buf u t
  | Panic => o = Panic
  | Diverge => False
  end.

(** The last part: the path and the hash. [pre] is the buffer before them, where the resource and
    the root are. *)
Lemma resolve_path pre p root_at res rt n : Forall (fun b => 0 < b < 256) p -> p <> [] -> (length p <= n)%nat ->
  cstr (at_ (pre ++ p ++ [0]) 0) res -> cstr (at_ (pre ++ p ++ [0]) root_at) rt ->
  (forall k, zlen pre <= k < zlen pre + zlen p -> cstr (at_ (pre ++ p ++ [0]).[k := 0] 0) res /\ cstr (at_ (pre ++ p ++ [0]).[k := 0] root_at) rt) ->
  let buf := pre ++ p ++ [0] in
  let o := len ← strlen n (at_ buf (zlen pre));
    match find_hash (Z.to_nat len) buf (zlen pre) with
    | None => Ret (Some (buf, {| resource := 0; root := root_at; path := zlen pre; hash := None |}))
    | Some k =>
        let buf := buf.[zlen pre + k := 0] in
        let hash := zlen pre + k + 1 in
        len ← strlen n (at_ buf hash);
        if negb (len =? 128) then Panic
        else if negb (forallb (fun j => is_hex_digit buf.[hash + j]) (seqZ 0 128)) then Panic
        else Ret (Some (buf, {| resource := 0; root := root_at; path := zlen pre; hash := Some hash |}))
    end in
  match split_last 35 p with
  | None => exists buf u, o = Ret (Some (buf, u)) /\ parts_at buf u {| t_resource := res; t_root := rt; t_path := p; t_hash := None |}
  | Some (path, h) =>
      if (zlen h =? 128) && forallb is_hex_digit h
      then exists buf u, o = Ret (Some (buf, u)) /\ parts_at buf u {| t_resource := res; t_root := rt; t_path := path; t_hash := Some h |}
      else o = Panic
  end.
Proof.
  intros HF Hne Hn Hres Hroot Hkeep buf o. unfold o. pose proof (at_strlen pre p [] n HF Hn) as Hsl. fold buf in Hsl. rewrite Hsl. cbn [mbind outcome_bind].
  replace (Z.to_nat (zlen p)) with (length p) by (unfold zlen; lia).
  pose proof (find_hash_spec pre [0] p) as Hfh. fold buf in Hfh. rewrite Hfh. destruct (split_last 35 p) as [[x h]|] eqn:Es.
  - apply split_last_some in Es as Hp. cbn [fmap option_fmap option_map fst]. rewrite Hp in HF. apply Forall_app in HF as [HFx HFh]. apply Forall_cons in HFh as [_ HFh].
    assert (buf.[zlen pre + zlen x := 0] = (pre ++ x ++ [0]) ++ h ++ [0]) as Hb.
    { unfold buf. rewrite Hp, <- zlen_app. replace (pre ++ (x ++ 35 :: h) ++ [0]) with ((pre ++ x) ++ 35 :: h ++ [0]) by app_solve. rewrite aset_app. app_solve. }
    destruct (Hkeep (zlen pre + zlen x)) as [Hres' Hroot']; [rewrite Hp, zlen_app, zlen_cons; pose proof (zlen_nonneg x); pose proof (zlen_nonneg h); lia |].
    fold buf in Hres', Hroot'. rewrite Hb in *. replace (zlen pre + zlen x + 1) with (zlen (pre ++ x ++ [0])) by (rewrite !zlen_app; change (zlen [0]) with 1; lia).
    rewrite at_strlen; [| done | rewrite Hp, length_app in Hn; simpl in Hn; lia]. cbn [mbind outcome_bind].
    destruct (Z.eqb_spec (zlen h) 128) as [Hl|Hl]; cbn [negb andb]; [|done]. rewrite hex_check by done. destruct (forallb is_hex_digit h); cbn [negb]; [|done].
    eexists _, _. split; [done |]. split; [done |]. split; [done |]. cbn [path Uri.hash t_path t_hash]. split; [|eexists; split; [done | by apply at_cstr]].
    rewrite <- !app_assoc. cbn [app]. by apply at_cstr.
  - cbn. eexists _, _. split; [done |]. split; [done |]. split; [done |]. split; [by apply at_cstr | done].
Qed.
Lemma uri_resolve_spec fuel uri l : cstr uri l -> zlen l < 4096 -> (length l <= fuel)%nat -> resolves_to l (uri_resolve fuel uri).
Proof.
  intros Hu Hl Hf. pose proof (cs_bytes _ _ Hu) as HF. unfold resolves_to, parse_uri, uri_resolve. rewrite (strlen_spec _ _ l) by done. cbn [mbind outcome_bind]. cbv zeta.
  rewrite Z.gtb_ltb, (proj2 (Z.ltb_ge _ _)) by (unfold URI_BUF_SIZE; lia).
  assert (load_bytes uri 0 (Z.to_nat (zlen l + 1)) = l ++ [0]) as ->.
  { replace (Z.to_nat (zlen l + 1)) with (length (l ++ [0])) by (rewrite length_app; unfold zlen; simpl; lia). apply load_bytes_at. intros k b Hk.
    apply lookup_app_Some in Hk as [Hk|[Hk E]]; [by apply (cs_at _ _ Hu)|].
    apply list_lookup_singleton_Some in E as [E <-]. replace (0 + Z.of_nat k) with (zlen l) by (unfold zlen; lia). exact (cs_end _ _ Hu). }
  pose proof (find_mark_spec "(" [] [] l (length (l ++ [0])) [] HF ltac:(by apply (bool_decide_unpack _)) ltac:(rewrite length_app; simpl; lia)) as H1.
  cbn [app] in H1. change (zlen (@nil Z)) with 0 in H1. rewrite H1. cbn [mbind outcome_bind]. clear H1.
  destruct (split_mark (bytes "(") l) as [[res l1]|] eqn:E1; [|done]. apply split_mark_some in E1. cbn [fmap option_fmap option_map fst]. rewrite Z.add_0_l.
  change (bytes "(") with [40] in E1. cbn [app] in E1. subst l. rewrite <- app_assoc, <- app_comm_cons, aset_app. apply Forall_app in HF as [HFr HF1]. apply Forall_cons in HF1 as [_ HF1].
  set (n := length (res ++ 40 :: l1 ++ [0])). rewrite (zlen_snoc res 0).
  pose proof (find_mark_spec "):/" (res ++ [0]) [] l1 n [] HF1 ltac:(by apply (bool_decide_unpack _)) ltac:(unfold n; rewrite !length_app; simpl; rewrite length_app; lia)) as H2.
  cbn [app] in H2. change (zlen (@nil Z)) with 0 in H2. replace (res ++ 0 :: l1 ++ [0]) with ((res ++ [0]) ++ l1 ++ [0]) by app_solve. rewrite H2. cbn [mbind outcome_bind]. clear H2.
  destruct (split_mark (bytes "):/") l1) as [[rt p]|] eqn:E2; [|done]. apply split_mark_some in E2. cbn [fmap option_fmap option_map fst]. rewrite Z.add_0_l.
  change (bytes "):/") with [41; 58; 47] in E2. cbn [app] in E2. subst l1. apply Forall_app in HF1 as [HFrt HFp]. do 3 (apply Forall_cons in HFp as [_ HFp]).
  set (pre := res ++ 0 :: rt ++ [0; 58; 47]). set (ra := zlen (res ++ [0])).
  assert (((res ++ [0]) ++ (rt ++ 41 :: 58 :: 47 :: p) ++ [0]).[ra + zlen rt := 0] = pre ++ p ++ [0]) as ->.
  { unfold ra. rewrite <- zlen_app. replace ((res ++ [0]) ++ (rt ++ 41 :: 58 :: 47 :: p) ++ [0]) with (((res ++ [0]) ++ rt) ++ 41 :: 58 :: 47 :: p ++ [0]) by app_solve. rewrite aset_app. unfold pre. app_solve. }
  assert (ra + zlen rt + 3 = zlen pre) as -> by (unfold ra, pre, zlen; rewrite !length_app; cbn [length]; rewrite ?length_app; cbn [length]; lia).
  destruct p as [|b p]; [cbn [app]; by rewrite aget_here |]. set (q := b :: p) in *.
  assert ((pre ++ q ++ [0]).[zlen pre] = b) as -> by (unfold q; cbn [app]; apply aget_here). apply Forall_cons in HFp as Hb. destruct Hb as [Hb _]. rewrite (proj2 (Z.eqb_neq b 0)) by lia.
  assert (forall y, cstr (at_ (pre ++ y) 0) res) as Hres.
  { intros y. pose proof (at_cstr [] res (rt ++ [0; 58; 47] ++ y) HFr) as H. cbn [app] in H. change (zlen (@nil Z)) with 0 in H. replace (pre ++ y) with (res ++ 0 :: rt ++ 0 :: 58 :: 47 :: y) by (unfold pre; app_solve). exact H. }
  assert (forall y, cstr (at_ (pre ++ y) ra) rt) as Hrt.
  { intros y. pose proof (at_cstr (res ++ [0]) rt (58 :: 47 :: y) HFrt) as H. replace (pre ++ y) with ((res ++ [0]) ++ rt ++ 0 :: 58 :: 47 :: y) by (unfold pre; app_solve). exact H. }
  pose proof (resolve_path pre q ra res rt n HFp ltac:(done)) as Hp. cbv zeta in Hp. specialize (Hp ltac:(unfold n; rewrite length_app; simpl; rewrite !length_app; simpl; lia) (Hres _) (Hrt _)).
  destruct (split_last 35 q) as [[x h]|]; [destruct ((zlen h =? 128) && forallb is_hex_digit h)|]; apply Hp; intros k Hk; unfold aset; rewrite insert_app_r_alt by (unfold zlen in Hk; lia); split; (apply Hres || apply Hrt).
Qed.

(** * The hash *)

Definition hex_value (c : Z) : Z := if c <=? 57 then c - 48 else if c <=? 70 then c - 55 else c - 87.
Definition hex_bytes (h : list Z) : list Z := (fun i => 16 * hex_value h.[i * 2] + hex_value h.[i * 2 + 1]) <$> seqZ 0 64.

Lemma hex_digit_value c : 0 <= c < 256 -> is_hex_digit c = true -> digit_to_int (schar c) = hex_value c /\ 0 <= hex_value c < 16.
Proof.
  intros Hc Hx. pose proof (seqZ_forallb (fun c => implb (is_hex_digit c) ((digit_to_int (schar c) =? hex_value c) && (0 <=? hex_value c) && (hex_value c <? 16))) 256 c ltac:(vm_compute; reflexivity) Hc) as H.
  cbv beta in H. rewrite Hx in H. cbn [implb] in H. lia.
Qed.
Lemma hash_bytes_spec s h : cstr s h -> zlen h = 128 -> forallb is_hex_digit h = true -> hash_bytes s = hex_bytes h.
Proof.
  intros Hs Hl Hx. unfold hash_bytes, hex_bytes. apply list_fmap_ext. intros j i Hi. apply lookup_seqZ in Hi as [-> Hj].
  assert (forall x, 0 <= x < 128 -> digit_to_int (schar (s x)) = hex_value h.[x] /\ 0 <= hex_value h.[x] < 16) as Hd.
  { intros x Hxr. pose proof (aget_lookup h x ltac:(lia)) as Hlk. rewrite forallb_forall in Hx. pose proof (cs_at _ _ Hs (Z.to_nat x) _ Hlk) as He. rewrite Z2Nat.id in He by lia. rewrite He.
    apply hex_digit_value; [|by apply Hx, list_elem_of_In, (list_elem_of_lookup_2 _ _ _ Hlk)]. pose proof (proj1 (Forall_lookup _ _) (cs_bytes _ _ Hs) _ _ Hlk) as Hb. cbv beta in Hb. lia. }
  destruct (Hd ((0 + Z.of_nat j) * 2)) as [-> ?]; [lia |]. destruct (Hd ((0 + Z.of_nat j) * 2 + 1)) as [-> ?]; [lia |]. by apply nibbles.
Qed.

(** * Reading *)

Section reading.
Context {D : Type} `{!BlockDev D} `{!Gzip.Decoder} `{!Gzip.DecoderOk}.
Implicit Types (w : world (D := D)) (s : stream (D := D)).

(** [pulls k h w pulled w']: [pulled] are the bytes of the file, from its start on, as reads one
    after the other give them; they take the world from [w] to [w']. The position is a 64-bit
    number. *)
Inductive pulls (k : Z) (h : File.file_handle) (w : world (D := D)) : list Z -> world (D := D) -> Prop :=
  | pulls_none : pulls k h w [] w
  | pulls_more pulled w1 count got w2 :
      pulls k h w pulled w1 -> file_read k h w1 (u64 (zlen pulled)) count = Ret (w2, got) -> pulls k h w (pulled ++ got) w2.

(** The stream of a file that has just been opened, with the filter. *)
Definition filtered (h : File.file_handle) w : stream (D := D) :=
  (w, Some (Blake2b.blake2b_open (source_of h.(File.file_size) []))).

(** The filter has seen [pulled]; and this is what the file gave since [w]. *)
Definition seen s (pulled : list Z) : Prop :=
  exists hd, s.2 = Some hd /\ hd.(Blake2b.finalized) = false /\ hd.(Blake2b.pos) = u64 (zlen pulled) /\
    (zlen pulled < 2 ^ 128 -> absorbed hd.(Blake2b.hstate) pulled).
Definition hashed k h w s (pulled : list Z) : Prop := pulls k h w pulled s.1 /\ seen s pulled.

Lemma seen_open w sz : seen (w, Some (Blake2b.blake2b_open (source_of sz []))) [].
Proof. eexists. split_and!; try done. intros _. apply absorbed_init. Qed.
Lemma hashed_open k h w : hashed k h w (filtered h w) [].
Proof. split; [constructor | apply seen_open]. Qed.
Lemma stream_read_hashed k h w s loc count s' got pulled :
  hashed k h w s pulled -> stream_read k h s loc count = Ret (s', got) -> hashed k h w s' (pulled ++ got).
Proof.
  intros (Hp & hd & E & Hfin & Hpos & Ha). unfold stream_read. destruct (file_read k h s.1 loc count) as [[w1 l]| |] eqn:Er; [|done..]. cbn [mbind outcome_bind]. rewrite E.
  unfold Blake2b.blake2b_read. cbn [on_source Blake2b.pos Blake2b.source Blake2b.hstate].
  destruct (Z.eqb_spec loc (Blake2b.pos hd)) as [->|]; cbn [negb]; [|done].
  unfold Blake2b.fread. cbn [source_of Blake2b.is_memfile Blake2b.read mbind outcome_bind].
  destruct (Blake2b.blake2b_update hd.(Blake2b.hstate) l) as [st| |] eqn:Eu; [|done..]. cbn [mbind outcome_bind]. intros [= <- <-].
  rewrite Hpos in Er. split; [by eapply pulls_more |].
  eexists. split; [done |]. split; [done |]. cbn [Blake2b.hstate Blake2b.pos]. rewrite zlen_app. split.
  { rewrite Hpos. unfold u64, wrap. by rewrite Z.add_mod_idemp_l. }
  intros Hl. pose proof (zlen_nonneg l).
  destruct (update_spec _ _ l (Ha ltac:(lia)) Hl) as (st' & Eu' & Ha'). rewrite Eu in Eu'. by injection Eu' as <-.
Qed.

Lemma drain_hashed k h w : forall fuel top buf cap top' buf' cap', (exists pulled, hashed k h w top.(Gzip.source) pulled) ->
  drain fuel k h top buf cap = Ret (top', buf', cap') -> exists pulled, hashed k h w top'.(Gzip.source) pulled.
Proof.
  induction fuel as [|fuel IH]; intros top buf cap top' buf' cap' HP; cbn [drain]; [done |]. cbv zeta.
  destruct (Gzip.gzip_read _ _ _ _ _ _) as [[top1 got]| |] eqn:E; [|done..]. cbn [mbind outcome_bind].
  apply (gzip_read_keeps _ _ (fun s => exists pulled, hashed k h w s pulled)) in E; [| |done].
  - case_if; [by intros [= <- <- <-] | by apply IH].
  - intros s loc len s' l [p Hp] Er. eauto using stream_read_hashed.
Qed.
Lemma read_gzip_hashed fuel k h w s data :
  read_gzip fuel k h (filtered h w) = Ret (s, data) -> exists pulled, hashed k h w s pulled.
Proof.
  unfold read_gzip. destruct (drain _ _ _ _ _ _) as [[[top buf] cap]| |] eqn:E; [|done..]. cbn [mbind outcome_bind].
  apply (drain_hashed _ _ w) in E as [p Hp]; [|exists []; apply hashed_open].
  destruct (kept _ _); [|done..]. cbn [mbind outcome_bind]. intros [= <- <-]. by exists p.
Qed.
Lemma read_plain_hashed k h w s data :
  read_plain k h (filtered h w) = Ret (s, Some data) -> hashed k h w s data /\ zlen data = Z.max 0 h.(File.file_size).
Proof.
  unfold read_plain. rewrite Z.gtb_ltb. destruct (Z.ltb_spec 0 (File.file_size h)); cbn [filtered snd].
  - assert (('(s, got) ← stream_read k h (filtered h w) 0 (File.file_size h); if negb (zlen got =? File.file_size h) then Panic else Ret (s, Some got))
      = Ret (s, Some data) -> hashed k h w s data /\ zlen data = Z.max 0 h.(File.file_size)) as Hr; [|destruct (File.fd h); exact Hr].
    destruct (stream_read _ _ _ _ _) as [[s1 got]| |] eqn:E; [|done..]. cbn [mbind outcome_bind].
    destruct (Z.eqb_spec (zlen got) (File.file_size h)) as [Hz|]; cbn [negb]; [|done]. intros [= <- <-].
    split; [|lia]. apply (stream_read_hashed _ _ _ _ _ _ _ _ [] (hashed_open _ _ _) E).
  - intros [= <- <-]. split; [apply hashed_open |]. change (zlen (@nil Z)) with 0. lia.
Qed.

(** The file [h] is what is returned: [data] is what was read, or decoded from what was read, and
    [ref] the digest of what was read. *)
Definition verified fuel k h (gz : bool) (ref : list Z) w w' (data : list Z) : Prop :=
  exists pulled, pulls k h w pulled w' /\ (zlen pulled < 2 ^ 128 -> ref = blake2b_spec pulled) /\
    (if gz then exists hd, read_gzip fuel k h (filtered h w) = Ret ((w', Some hd), data) /\ seen (w', Some hd) pulled
     else data = pulled /\ zlen data = Z.max 0 h.(File.file_size)).

Lemma deliver_secure fuel k h gz ref key w w' out : length ref = 64%nat ->
  deliver fuel k h gz (Some ref) true key w = Ret (w', Opened out) ->
  exists data, out = opened h data /\ verified fuel k h gz ref w w' data.
Proof.
  intros Hl. unfold deliver. cbv zeta. cbn [fmap option_fmap option_map]. fold (filtered h w).
  match goal with |- ?o ≫= _ = _ -> _ => assert (forall s data, o = Ret (s, Some data) -> exists pulled, hashed k h w s pulled /\
    (if gz then read_gzip fuel k h (filtered h w) = Ret (s, data) else data = pulled /\ zlen data = Z.max 0 h.(File.file_size))) as Ho;
    [|destruct o as [[s r]| |]; [|done..]] end.
  { intros s data. destruct gz.
    - destruct (read_gzip _ _ _ _) as [[s1 d]| |] eqn:E; [|done..]. cbn [mbind outcome_bind]. intros [= <- <-].
      destruct (read_gzip_hashed _ _ _ _ _ _ E) as [p Hp]. by exists p.
    - intros E. exists data. by destruct (read_plain_hashed _ _ _ _ _ E). }
  cbn [mbind outcome_bind]. destruct r as [data|]; [|done]. destruct (Ho s data eq_refl) as (pulled & (Hpl & hd & E & Hfin & Hpos & Ha) & Hd).
  destruct s as [w1 so]. cbn [fst snd] in *. subst so.
  destruct (Blake2b.blake2b_check_hash hd ref) as [hd' ok] eqn:Ec. destruct ok; cbn [negb]; [|done]. intros [= <- <-]. exists data. split; [done |].
  exists pulled. split; [done |]. split.
  - intros Hp. apply (check_hash_spec hd pulled ref Hfin (Ha Hp) Hp Hl). by rewrite Ec.
  - destruct gz; [|done]. exists hd. split; [done |]. by exists hd.
Qed.
End reading.

(** * Splitting, as a whole *)

(** [uri_resolve] splits a URI of less than 4096 characters at the first opening parenthesis,
    the first [):/] after it and the last number sign of the rest: each part is a string in the
    buffer, and the hash has 128 hexadecimal digits, otherwise it panics; it returns [false] when a
    mark or the path is missing. *)
Theorem uri_resolve_correct fuel uri l : cstr uri l -> zlen l < 4096 -> (length l <= fuel)%nat -> resolves_to l (uri_resolve fuel uri).
Proof. apply uri_resolve_spec. Qed.

Lemma uri_resolve_correct_witness : exists buf u, uri_resolve 20 (text "hdd(1:2):/a(b):/c") = Ret (Some (buf, u)) /\
  parts_at buf u {| t_resource := bytes "hdd"; t_root := bytes "1:2"; t_path := bytes "a(b):/c"; t_hash := None |}.
Proof.
  exact (uri_resolve_correct 20 (text "hdd(1:2):/a(b):/c") (bytes "hdd(1:2):/a(b):/c") (text_cstr "hdd(1:2):/a(b):/c" eq_refl) ltac:(vm_compute; reflexivity) ltac:(vm_compute; lia)).
Defined.

Lemma uri_resolve_long fuel uri l : cstr uri l -> (length l <= fuel)%nat -> 4096 <= zlen l -> uri_resolve fuel uri = Panic.
Proof.
  intros Hu Hf Hl. unfold uri_resolve. rewrite (strlen_spec _ _ l) by done. cbn [mbind outcome_bind]. cbv zeta.
  by rewrite Z.gtb_ltb, (proj2 (Z.ltb_lt _ _)) by (unfold URI_BUF_SIZE; lia).
Qed.
Lemma parse_hash l t h : parse_uri l = Ret (Some t) -> t.(t_hash) = Some h -> zlen h = 128 /\ forallb is_hex_digit h = true.
Proof.
  unfold parse_uri. destruct (split_mark _ l) as [[res l1]|]; [|done]. destruct (split_mark _ l1) as [[rt [|c p]]|]; [done | | done].
  destruct (split_last _ _) as [[x y]|]; [|by intros [= <-]]. destruct (_ && _) eqn:E; [|done]. intros [= <-]. cbn. intros [= <-].
  apply andb_true_iff in E as [E1 E2]. split; [lia | done].
Qed.
(** What [uri_open] gets from [uri_resolve]. *)
Lemma uri_resolve_inv fuel uri l buf u : cstr uri l -> (length l <= fuel)%nat -> uri_resolve fuel uri = Ret (Some (buf, u)) ->
  exists t, parse_uri l = Ret (Some t) /\ parts_at buf u t /\ (fun p => hash_bytes (at_ buf p)) <$> u.(hash) = hex_bytes <$> t.(t_hash) /\ bool_decide (u.(hash) = None) = bool_decide (t.(t_hash) = None).
Proof.
  intros Hu Hf E. destruct (Z.ltb_spec (zlen l) 4096) as [Hl|Hl]; [|by rewrite (uri_resolve_long _ _ _ Hu Hf Hl) in E].
  pose proof (uri_resolve_spec _ _ _ Hu Hl Hf) as H. unfold resolves_to in H. rewrite E in H. destruct (parse_uri l) as [[t|]| |] eqn:Ep; try done.
  destruct H as (buf' & u' & [= <- <-] & Hp). exists t. split; [done |]. split; [done |]. destruct Hp as (_ & _ & _ & Hh). destruct (t_hash t) as [h|] eqn:Eh.
  - destruct Hh as (p & -> & Hc). destruct (parse_hash _ _ _ Ep Eh) as [Hl1 Hx]. cbn. split; [f_equal; by apply hash_bytes_spec | done].
  - by rewrite Hh.
Qed.
Lemma parts_dollar buf u t : parts_at buf u t -> (buf.[u.(resource)] =? 36) = bool_decide (head t.(t_resource) = Some 36).
Proof.
  intros (Hr & _). destruct (t_resource t) as [|c r] eqn:E; cbn [head].
  - pose proof (cs_end _ _ Hr) as H. unfold at_ in H. rewrite Z.add_0_r in H. rewrite H, bool_decide_false; done.
  - pose proof (cs_at _ _ Hr 0%nat c eq_refl) as H. unfold at_ in H. rewrite Z.add_0_r in H. rewrite H. destruct (Z.eqb_spec c 36) as [->|]; [by rewrite bool_decide_true |]. rewrite bool_decide_false; [done | congruence].
Qed.
Lemma length_hex_bytes h : length (hex_bytes h) = 64%nat.
Proof. reflexivity. Qed.

Section secure.
Context {D : Type} `{!BlockDev D} `{!Gzip.Decoder} `{!Gzip.DecoderOk}.

(** C27: when secure boot is active and hash mismatches are fatal, whatever the URI, the volumes,
    the network and the decoder give: if [uri_open] returns a file, then the URI has a hash, and that
    is the BLAKE2b digest of [pulled], the bytes that the file its resource, root and path name gave
    from its start on while it was read once. The contents of what is returned are these bytes, the
    whole file, or after a dollar what [read_gzip] decoded while the filter saw exactly them. *)
Theorem uri_open_secure ci tftp fuel base (w : world (D := D)) boot junk key uri l w' out :
  cstr uri l -> (length l <= fuel)%nat ->
  uri_open ci tftp fuel base w boot junk true true key uri = Ret (w', Opened out) ->
  exists t h buf u w1 k hd data,
    let gz := bool_decide (head t.(t_resource) = Some 36) in
    parse_uri l = Ret (Some t) /\ t.(t_hash) = Some h /\ parts_at buf u t /\
    dispatch ci tftp fuel base w boot junk (at_ buf (u.(resource) + b2z gz)) (at_ buf u.(root)) (at_ buf u.(path)) = Ret (w1, Some (k, hd)) /\
    out.(File.fd) = File.MemFile data /\ out.(File.file_size) = zlen data /\
    exists pulled, pulls k hd w1 pulled w' /\ (zlen pulled < 2 ^ 128 -> hex_bytes h = blake2b_spec pulled) /\
      (if gz then exists filter, read_gzip fuel k hd (filtered hd w1) = Ret ((w', Some filter), data) /\ seen (w', Some filter) pulled
       else data = pulled /\ zlen data = Z.max 0 hd.(File.file_size)).
Proof.
  intros Hu Hf. unfold uri_open. destruct (uri_resolve fuel uri) as [[[buf u]|]| |] eqn:E; [|done..]. cbn [mbind outcome_bind]. cbv zeta.
  destruct (uri_resolve_inv _ _ _ _ _ Hu Hf E) as (t & Hp & Hat & Hh & Hnone). rewrite Hh, Hnone, (parts_dollar _ _ _ Hat).
  destruct (dispatch _ _ _ _ _ _ _ _ _ _) as [[w1 [[k hd]|]]| |] eqn:Ed; [|done..]. cbn [mbind outcome_bind andb].
  destruct (t_hash t) as [h|] eqn:Et; [|by rewrite bool_decide_true]. rewrite bool_decide_false by done. cbn [fmap option_fmap option_map].
  intros Hd. destruct (deliver_secure _ _ _ _ _ _ _ _ _ (length_hex_bytes h) Hd) as (data & -> & Hv).
  exists t, h, buf, u, w1, k, hd, data. split_and!; done.
Qed.
End secure.

(** * A boot over the network *)

Definition hex_text (l : list Z) : list Z := mjoin ((fun b => (fun n => if n <? 10 then 48 + n else 87 + n) <$> [b / 16; b mod 16]) <$> l).
Definition pxe_volume : volume :=
  {| efi_handle := 0; block_io := 0; drive := 0; fastest_xfer_size := 0; index := 1; is_optical := false; pxe := true;
     partition := 0; sector_size := 0; backing_dev := None; max_partition := 0;
     vc := {| cache_status := CACHE_NOT_READY; cache := None; cached_block := 0 |};
     first_sect := 0; sect_count := 0; guid_valid := false; vguid := []; part_guid_valid := false; part_guid := []; fslabel_valid := false; fslabel := fun _ => 0 |}.
Definition kernel_uri : list Z := Eval vm_compute in bytes "boot():/kernel#" ++ hex_text (blake2b_spec (bytes "payload")).
Definition in_buffer (l : list Z) : Z -> Z := fun i => (l ++ [0]).[i].
Lemma kernel_uri_cstr : cstr (in_buffer kernel_uri) kernel_uri.
Proof. apply (cstr_prefix kernel_uri []). by apply (bool_decide_unpack _). Qed.
Definition net_world : world (D := unit) := {| dev := tt; volumes := []; contexts := [] |}.
Definition net_open := @uri_open unit Fat32Files.ex_dev stored false (fun _ _ => Some (bytes "payload")) 200 0x100000 net_world pxe_volume [] true true 0 (in_buffer kernel_uri).
Definition is_opened (o : outcome (world (D := unit) * uri_result)) : bool := match o with Ret (_, Opened _) => true | _ => false end.

Lemma uri_open_secure_witness :
  exists w out t h w1 k hd data pulled, net_open = Ret (w, Opened out) /\ parse_uri kernel_uri = Ret (Some t) /\ t.(t_hash) = Some h /\
    out.(File.fd) = File.MemFile data /\ @pulls unit Fat32Files.ex_dev k hd w1 pulled w /\ (zlen pulled < 2 ^ 128 -> hex_bytes h = blake2b_spec pulled).
Proof.
  assert (is_opened net_open = true) as Ho by (vm_compute; reflexivity).
  destruct net_open as [[w [|out| |]]| |] eqn:E; try discriminate Ho.
  destruct (@uri_open_secure unit Fat32Files.ex_dev stored stored_ok false (fun _ _ => Some (bytes "payload")) 200 0x100000 net_world pxe_volume [] 0 (in_buffer kernel_uri) kernel_uri w out)
    as (t & h & buf & u & w1 & k & hd & data & H1 & H2 & _ & _ & H3 & _ & pulled & H4 & H5 & _); [exact kernel_uri_cstr | vm_compute; lia | exact E |].
  exists w, out, t, h, w1, k, hd, data, pulled. split_and!; try done.
Defined.
