(* ===== verification/UriFiles.v ===== *)
(** Files opened by their URI: the drive and the partition, the file's contents, the hash and the
    decoder. *)

From S2P Require Import Prelude Libc LibcCorrect PmmOps Guid Part PartCorrect Iso9660 Iso9660Files Fat32 Fat32Files File FileFiles Blake2b Blake2bCorrect Gzip GzipCorrect Uri UriCorrect.
Import Libc Guid Part Uri.

(** * Drives and partitions *)

(** The number a string starts with. *)
Definition number (l : list Z) : Z := value 10 0 (digits 10 l).

(** [located boot res root optical drive partition]: the volume that [res(root)] names. *)
Inductive located (boot : volume) : list Z -> list Z -> bool -> Z -> Z -> Prop :=
| at_boot : boot.(pxe) = false -> located boot (bytes "boot") [] boot.(is_optical) boot.(index) boot.(Part.partition)
| at_boot_part root : boot.(pxe) = false -> root <> [] -> number root <= 256 ->
    located boot (bytes "boot") root boot.(is_optical) boot.(index) (number root)
| at_drive (optical : bool) (a b : list Z) : a <> [] -> 58 ∉ a -> 1 <= number a <= 256 -> number b <= 256 ->
    located boot (bytes (if optical then "odd" else "hdd")) (a ++ 58 :: b) optical (number a) (number b).

Lemma strtoui_number fuel s l : cstr s l -> (length l <= fuel)%nat -> number l < 2 ^ 64 -> exists n, strtoui fuel s 10 = Ret (number l, n).
Proof.
  intros Hs Hf Hn. pose proof (strtoui_spec fuel s 10 l ltac:(lia) Hs Hf) as H. unfold strtoui_post in H. fold (number l) in H.
  rewrite (proj2 (Z.ltb_lt _ _) Hn) in H. eauto.
Qed.
Lemma number_nonneg l : 0 <= number l.
Proof. apply value_ge; [lia | lia | apply digits_range]. Qed.

Lemma find_colon_spec b loc : forall (a : list Z) fuel i, 58 ∉ a -> cstr (tail loc i) (a ++ 58 :: b) -> (length a <= fuel)%nat -> find_colon fuel loc i = Ret (Some (i + zlen a)).
Proof.
  intros a; induction a as [|c a IH]; intros fuel i Hni Hc Hf; pose proof (cstr_head _ _ _ Hc) as Hh; cbn [app] in Hh.
  - change (zlen (@nil Z)) with 0. rewrite Z.add_0_r. by destruct fuel; cbn [find_colon]; rewrite Hh.
  - apply not_elem_of_cons in Hni as [Hne Hni]. cbn [app] in Hc. apply cstr_next in Hc as (_ & Hb & Hc). destruct fuel as [|fuel]; [simpl in Hf; lia |]. cbn [find_colon]. rewrite Hh.
    rewrite (proj2 (Z.eqb_neq c 0)), (proj2 (Z.eqb_neq c 58)) by lia. rewrite (IH fuel (i + 1)); [| done | done | simpl in Hf; lia]. rewrite zlen_cons. do 2 f_equal. lia.
Qed.
Lemma parse_bios_partition_spec fuel loc a b : cstr loc (a ++ 58 :: b) -> a <> [] -> 58 ∉ a -> 1 <= number a <= 256 -> number b <= 256 -> (length a + S (length b) <= fuel)%nat ->
  parse_bios_partition fuel loc = Ret (Some (number a, number b)).
Proof.
  intros Hc Hne Hni Ha Hb Hf. unfold parse_bios_partition.
  rewrite (find_colon_spec b loc a fuel 0 Hni (cstr_tail0 _ _ Hc)) by lia. cbn [mbind outcome_bind]. rewrite Z.add_0_l. cbv zeta. set (cut := fun k => if k =? zlen a then 0 else loc k).
  pose proof (cs_bytes _ _ Hc) as HF. apply Forall_app in HF as [HFa _].
  assert (cstr cut a) as Hcut.
  { constructor; [done | |]; unfold cut; [|by rewrite Z.eqb_refl]. intros k x Hk. pose proof (lookup_lt_Some _ _ _ Hk).
    rewrite (proj2 (Z.eqb_neq _ _)) by (unfold zlen; lia). apply (cs_at _ _ Hc). by apply lookup_app_l_Some. }
  assert (cut 0 <> 0) as H0 by (destruct a as [|c a]; [done |]; rewrite (cstr_head cut 0 _ (cstr_tail0 _ _ Hcut)); apply Forall_cons in HFa as [? _]; lia).
  change (if 0 =? zlen a then 0 else loc 0) with (cut 0). rewrite (proj2 (Z.eqb_neq _ _) H0). destruct (strtoui_number fuel cut a Hcut) as [n ->]; [lia | lia |]. cbn [mbind outcome_bind].
  replace ((number a <? 1) || (number a >? 256)) with false by (symmetry; apply orb_false_iff; lia).
  assert (cstr (tail loc (zlen a + 1)) b) as Hcb.
  { pose proof (cstr_app loc 0 (a ++ [58]) b) as H. rewrite <- app_assoc in H. specialize (H (cstr_tail0 _ _ Hc)). by rewrite Z.add_0_l, <- zlen_snoc in H. }
  destruct (strtoui_number fuel (tail loc (zlen a + 1)) b Hcb) as [n' ->]; [lia | lia |]. cbn [mbind outcome_bind].
  by replace (number b >? 256) with false by lia.
Qed.

Section files.
Context {D : Type} `{BlockDevOk D} `{!Gzip.Decoder} `{!Gzip.DecoderOk}.
Variables (ci : bool) (tftp : (Z -> Z) -> (Z -> Z) -> option (list Z)) (base : Z).
Implicit Types (w : world (D := D)) (s : stream (D := D)) (v : volume).

Lemma named_spec fuel resource l name : cstr resource l -> Forall (fun b => 0 < b < 256) (bytes name) -> (length l <= fuel)%nat ->
  strcmp fuel resource (lit name) = Ret (lex l (bytes name)).
Proof. intros Hr Hn Hf. apply strcmp_loop_spec; [by apply cstr_tail0 | by apply cstr_tail0, cstr_lit | done]. Qed.

Lemma dispatch_spec fuel w boot junk resource root path res rt optical drive partition :
  cstr resource res -> cstr root rt -> located boot res rt optical drive partition -> (4 <= fuel)%nat -> (length rt <= fuel)%nat ->
  dispatch ci tftp fuel base w boot junk resource root path = open_on ci tftp fuel base w (volume_get_by_coord w.(volumes) optical drive partition) path.
Proof.
  intros Hres Hroot Hl Hf Hfr.
  assert (forall name, Forall (fun b => 0 < b < 256) (bytes name) -> strcmp fuel resource (lit name) = Ret (lex res (bytes name))) as Hn.
  { intros name Hb. apply named_spec; [done | done |]. destruct Hl as [| |[]]; cbn; lia. }
  unfold dispatch. cbv zeta. rewrite (Hn "hdd"), (Hn "odd"), (Hn "boot") by by apply (bool_decide_unpack _). clear Hn Hres.
  destruct Hl as [Hpxe|rt Hpxe Hne Hnum|opt a b Hne Hni Ha Hb].
  - cbn. unfold uri_boot_dispatch. rewrite Hpxe, (cstr_head root 0 _ (cstr_tail0 _ _ Hroot)). done.
  - cbn. unfold uri_boot_dispatch. rewrite Hpxe, (cstr_head root 0 _ (cstr_tail0 _ _ Hroot)). destruct rt as [|c rt]; [done |].
    pose proof (cs_bytes _ _ Hroot) as HF. apply Forall_cons in HF as [Hc _]. rewrite (proj2 (Z.eqb_neq c 0)) by lia. cbn [negb].
    destruct (strtoui_number fuel root (c :: rt) Hroot Hfr) as [n ->]; [lia |]. cbn [mbind outcome_bind]. by replace (number (c :: rt) >? 256) with false by lia.
  - rewrite length_app in Hfr. cbn [length] in Hfr.
    destruct opt; cbn; unfold uri_hdd_dispatch; by rewrite (parse_bios_partition_spec fuel root a b Hroot Hne Hni Ha Hb Hfr).
Qed.

(** The file [data] on the volume [k]: what an open handle needs of the world. *)
Definition ready (k : Z) v w : Prop :=
  dev_inv w.(dev) /\ exists c, w.(volumes) !! Z.to_nat k = Some (set_vc v c) /\ vol_ok (set_vc v c).
Definition serves (h : File.file_handle) v (data : list Z) : Prop :=
  (forall l, h.(File.fd) <> File.MemFile l) /\ h.(File.file_size) = zlen data /\
  forall d1 k1 buf loc count, dev_inv d1 -> vol_ok (set_vc v k1) -> Forall is_byte buf -> 0 <= loc -> 0 <= count <= zlen buf -> loc + count <= zlen data ->
    exists d2 k2, File.fread h d1 (set_vc v k1) buf loc count = Ret (d2, set_vc v k2, slice data loc count ++ drop (Z.to_nat count) buf, count) /\
      dev_inv d2 /\ vol_ok (set_vc v k2).

Lemma fopen_not_mem fuel cs d k v f d' v' cs' h : v.(pxe) = false ->
  File.fopen (tftp (lit "")) fuel base ci cs d k v f = Ret (d', v', (cs', Some h)) -> forall l, h.(File.fd) <> File.MemFile l.
Proof.
  intros Hp. unfold File.fopen. destruct (strlen fuel f) as [n| |]; [|done..]. cbn [mbind outcome_bind]. rewrite Hp.
  destruct (Iso9660.iso9660_open _ _ _ _ _ _ _ _) as [[[d1 v1] [cs1 [x|]]]| |]; [| |done..]; cbn [mbind outcome_bind]; [by intros [= <- <- <- <-] |].
  destruct (Fat32.fat32_open _ _ _ _ _) as [[[d2 v2] [x|]]| |]; [|done..]. cbn [mbind outcome_bind]. by intros [= <- <- <- <-].
Qed.
Lemma open_on_spec fuel w k v path name data : dev_inv w.(dev) -> w.(volumes) !! Z.to_nat k = Some v -> vol_ok v -> cstr path name -> zlen name + 2 < 2 ^ 32 -> (S (length name) < fuel)%nat ->
  file_at ci base w.(contexts) k v (rooted name) (zlen data) data ->
  exists w' h, open_on ci tftp fuel base w (Some k) path = Ret (w', Some (k, h)) /\ ready k v w' /\ serves h v data.
Proof.
  intros Hd Hk Hv Hp Hn Hf Hat. unfold open_on. rewrite Hk.
  destruct (fopen_spec (tftp (lit "")) fuel base ci w.(contexts) w.(dev) k v path name (zlen data) data Hd Hv Hp Hn Hf Hat) as (d' & c & cs' & h & E & Hd' & Hv' & Hsz & Hread).
  rewrite E. cbn [mbind outcome_bind]. eexists _, h. split; [done |]. split.
  - split; [done |]. exists c. split; [|done]. cbn. apply list_lookup_insert_eq. by eapply lookup_lt_Some.
  - split; [|done]. eapply fopen_not_mem; [|exact E]. apply (g_disk v (proj1 Hv)).
Qed.

Lemma file_read_spec k h v data w loc count : serves h v data -> ready k v w -> 0 <= loc -> 0 <= count -> loc + count <= zlen data ->
  exists w', file_read k h w loc count = Ret (w', slice data loc count) /\ ready k v w'.
Proof.
  intros (Hnm & Hsz & Hread) (Hd & c & Hk & Hv) Hl Hc Hle. unfold file_read.
  destruct (Hread w.(dev) c (replicate (Z.to_nat count) 0) loc count) as (d2 & k2 & Hr & Hd2 & Hv2); [done | done | by apply Forall_replicate | done | rewrite zlen_replicate; lia | done |].
  assert (take (Z.to_nat count) (slice data loc count ++ drop (Z.to_nat count) (replicate (Z.to_nat count) 0)) = slice data loc count) as Ht.
  { rewrite take_app_length'; [done |]. rewrite length_slice; lia. }
  destruct (File.fd h) eqn:E; [| |by destruct (Hnm data0)]; rewrite Hk, Hr; cbn [mbind outcome_bind]; rewrite Ht; (eexists; split; [done |]);
    (split; [done |]); exists k2; (split; [|done]); cbn; apply list_lookup_insert_eq; by eapply lookup_lt_Some.
Qed.

Lemma stream_read_spec k h v data s loc count : serves h v data -> ready k v s.1 -> 0 <= loc -> 0 <= count -> loc + count <= zlen data ->
  (forall hd, s.2 = Some hd -> hd.(Blake2b.pos) = loc /\ seen s (slice data 0 loc)) -> zlen data < 2 ^ 128 ->
  exists s', stream_read k h s loc count = Ret (s', slice data loc count) /\ ready k v s'.1 /\ (s.2 = None -> s'.2 = None) /\ (is_Some s.2 -> seen s' (slice data 0 (loc + count))).
Proof.
  intros Hs Hr Hl Hc Hle Hh Hz. unfold stream_read. destruct (file_read_spec k h v data s.1 loc count Hs Hr Hl Hc Hle) as (w' & -> & Hr'). cbn [mbind outcome_bind].
  destruct (s.2) as [hd|] eqn:E; [|eexists; split; [done |]; split; [done |]; split; [done | by intros [? ?]]].
  destruct (Hh hd eq_refl) as [Hpos (hd' & E' & Hfin & _ & Ha)]. rewrite E in E'. injection E' as <-. unfold Blake2b.blake2b_read. cbn [on_source Blake2b.pos Blake2b.source Blake2b.hstate].
  rewrite Hpos, Z.eqb_refl. cbn [negb]. unfold Blake2b.fread. cbn [source_of Blake2b.is_memfile Blake2b.read mbind outcome_bind].
  rewrite zlen_slice in Ha by lia. destruct (update_spec _ _ (slice data loc count) (Ha ltac:(lia))) as (st & -> & Ha'); [rewrite !zlen_slice by lia; lia |].
  cbn [mbind outcome_bind]. eexists. split; [done |]. split; [done |]. split; [done |]. intros _. eexists. split; [done |]. split; [done |].
  cbn [Blake2b.hstate Blake2b.pos]. split; [rewrite !zlen_slice by lia; reflexivity |]. intros _.
  rewrite (slice_split data 0 loc (loc + count)) by lia. rewrite Z.add_0_l. by replace (loc + count - loc) with count by lia.
Qed.

Lemma read_plain_spec k h v data w hash_buf : serves h v data -> ready k v w -> zlen data < 2 ^ 128 ->
  exists s', read_plain k h (w, (fun _ : list Z => Blake2b.blake2b_open (source_of h.(File.file_size) [])) <$> hash_buf) = Ret (s', Some data) /\
    (hash_buf = None -> s'.2 = None) /\ (is_Some hash_buf -> seen s' data).
Proof.
  intros Hs Hr Hz. unfold read_plain. pose proof Hs as (Hnm & Hsz & _). rewrite Hsz, Z.gtb_ltb.
  destruct (Z.ltb_spec 0 (zlen data)) as [Hpos|Hle].
  - destruct (stream_read_spec k h v data (w, (fun _ => Blake2b.blake2b_open (source_of (zlen data) [])) <$> hash_buf) 0 (zlen data)) as (s' & Hr' & _ & Hnone & Hsome); try done; try lia.
    { intros hd. destruct hash_buf; [|done]. cbn. intros [= <-]. split; [done |]. change (slice data 0 0) with (@nil Z). apply seen_open. }
    rewrite Z.add_0_l in Hsome. rewrite slice_all in Hr', Hsome by done. exists s'. split; [|split; [intros ->; by apply Hnone | intros [x ->]; by apply Hsome]].
    destruct (File.fd h) eqn:E; [| |by destruct (Hnm data0)]; rewrite Hr'; cbn [mbind outcome_bind]; by rewrite Z.eqb_refl.
  - assert (data = []) as -> by (destruct data; [done |]; rewrite zlen_cons in Hle; pose proof (zlen_nonneg data); lia).
    eexists. split; [done |]. split; [by intros -> |]. intros [x ->]. apply seen_open.
Qed.

Lemma drain_spec k h v comp dec : serves h v comp -> zlen comp < 2 ^ 64 -> zlen dec < 2 ^ 62 ->
  forall fuel top n cap, gz_at comp dec (fun _ s => ready k v s.1 /\ s.2 = None) top n -> n <= cap -> 0 < cap <= 2 * zlen dec + 2 ^ 27 -> 2 * zlen dec + 65537 - n <= Z.of_nat fuel ->
  exists top' cap', drain fuel k h top (slice dec 0 n) cap = Ret (top', dec, cap') /\ ready k v top'.(Gzip.source).1 /\ top'.(Gzip.source).2 = None.
Proof.
  intros Hs Hc Hd. assert (h.(File.file_size) = zlen comp) as Hsz by apply Hs.
  assert (forall c s len, (ready k v s.1 /\ s.2 = None) -> 0 <= c -> 0 < len -> c + len <= zlen comp -> exists s', stream_read k h s c len = Ret (s', slice comp c len) /\ ready k v s'.1 /\ s'.2 = None) as Hsrc.
  { intros c s len [Hr Hn] Hc0 Hl Hle. destruct (stream_read_spec k h v comp s c len) as (s' & Hr' & Hq1 & Hq2 & _); try done; try lia; [by rewrite Hn |]. exists s'. auto. }
  induction fuel as [|fuel IH]; intros top n cap Hat Hn Hcap Hf; pose proof (gz_at_bounds _ _ _ _ _ Hat) as [Hb _]; [lia |]. cbn [drain]. cbv zeta. rewrite zlen_slice by lia.
  set (cap1 := if n =? cap then new_cap cap else cap). assert (n < cap1 <= 2 * zlen dec + 2 ^ 27) as Hcap1.
  { unfold cap1, new_cap. destruct (Z.eqb_spec n cap) as [->|]; [|lia]. destruct (Z.ltb_spec cap 0x4000000); [lia |]. rewrite u64_small; lia. }
  rewrite (u64_small (cap1 - n)) by lia. set (want := if cap1 - n >? 65536 then 65536 else cap1 - n).
  assert (0 < want <= 65536) as Hw by (unfold want; rewrite Z.gtb_ltb; destruct (Z.ltb_spec 65536 (cap1 - n)); lia). assert (want <= cap1 - n) as Hw2 by (unfold want; rewrite Z.gtb_ltb; destruct (Z.ltb_spec 65536 (cap1 - n)); lia).
  destruct (gzip_read_spec comp dec (stream_read k h) _ Hsrc Hc ltac:(lia) (S fuel) top n n want Hat) as (top' & Hg & Hat'); [lia | lia | lia | lia | lia |].
  rewrite Hsz, Hg. cbn [mbind outcome_bind]. set (m := Z.min (n + want) (zlen dec)) in *.
  assert (zlen (slice dec n want) = m - n) as Hzl by (unfold m, slice; unfold zlen in Hb |- *; rewrite length_take, length_drop; lia). rewrite Hzl.
  destruct (Z.eqb_spec (m - n) 0) as [Hz|Hz].
  - assert (n = zlen dec) as -> by lia. rewrite slice_all by done. eexists _, _. split; [done |]. destruct Hat' as (c & _ & _ & _ & HJ). done.
  - assert (slice dec 0 n ++ slice dec n want = slice dec 0 m) as ->; [|apply (IH top' m cap1); [done | lia | lia | lia]].
    pose proof (slice_split dec 0 n (n + want)) as Hsp. replace (n + want - n) with want in Hsp by lia. rewrite Z.add_0_l in Hsp. rewrite <- Hsp by lia.
    unfold m. destruct (Z.le_gt_cases (n + want) (zlen dec)) as [Hle|Hgt]; [by rewrite Z.min_l by lia |]. rewrite Z.min_r by lia. unfold slice. unfold zlen in Hgt |- *. rewrite !take_ge; rewrite ?length_drop; [done | lia | lia].
Qed.

Lemma read_gzip_spec fuel k h v comp dec w : serves h v comp -> ready k v w -> zlen comp < 2 ^ 64 -> zlen dec < 2 ^ 62 ->
  Gzip.decodes comp dec Gzip.pdgzip_init 0 0 -> 2 * zlen dec + 65537 <= Z.of_nat fuel ->
  exists s', read_gzip fuel k h (w, None) = Ret (s', dec) /\ s'.2 = None.
Proof.
  intros Hs Hr Hc Hd Hinit Hf. pose proof (zlen_nonneg dec) as Hnn. unfold read_gzip.
  destruct (drain_spec k h v comp dec Hs Hc Hd fuel (Gzip.gzip_open (U := stream (D := D)) (w, None)) 0 0x100000) as (top & cap & E & _ & Hn); [|lia..|].
  { by apply gzip_open_at. }
  change (slice dec 0 0) with (@nil Z) in E. rewrite E. cbn [mbind outcome_bind]. unfold kept.
  pose proof (ALIGN_UP_spec (zlen dec) 4096 ltac:(lia) Hnn) as Ha. destruct (ALIGN_UP (zlen dec) 4096); [|lia]. cbn. by eexists.
Qed.

Lemma parse_lengths l t : parse_uri l = Ret (Some t) -> (length t.(t_root) + length t.(t_path) <= length l)%nat.
Proof.
  unfold parse_uri. destruct (split_mark _ l) as [[res l1]|] eqn:E1; [|done]. destruct (split_mark _ l1) as [[rt p]|] eqn:E2; [|done].
  apply split_mark_some in E1 as ->. apply split_mark_some in E2 as ->. rewrite !length_app. destruct p as [|c p]; [done |].
  destruct (split_last _ _) as [[x y]|] eqn:E3; [apply split_last_some in E3; rewrite E3, length_app; case_if; [|done] |]; intros [= <-]; cbn [t_root t_path length]; lia.
Qed.

(** [uri_open] after [uri_resolve]. *)
Lemma uri_open_split fuel w boot junk secure mismatch key uri l t gz res :
  cstr uri l -> zlen l < 4096 -> (length l <= fuel)%nat -> parse_uri l = Ret (Some t) -> t.(t_resource) = (if gz : bool then 36 :: res else res) -> head res <> Some 36 ->
  exists r rt p, cstr r res /\ cstr rt t.(t_root) /\ cstr p t.(t_path) /\
    uri_open ci tftp fuel base w boot junk secure mismatch key uri =
      ('(w, raw) ← dispatch ci tftp fuel base w boot junk r rt p;
       match raw with
       | None => Ret (w, NotFound)
       | Some (k, h) => if secure && bool_decide (t.(t_hash) = None) then Panic else deliver fuel k h gz (hex_bytes <$> t.(t_hash)) mismatch key w
       end).
Proof.
  intros Hu Hl Hf Hp Hres Hdollar. pose proof (uri_resolve_spec fuel uri l Hu Hl Hf) as Hr. unfold resolves_to in Hr. rewrite Hp in Hr.
  destruct Hr as (buf & u & E & Hparts). destruct (uri_resolve_inv fuel uri l buf u Hu Hf E) as (t' & Hp' & _ & Hh & Hnone). rewrite Hp in Hp'. injection Hp' as <-.
  exists (at_ buf (resource u + b2z gz)), (at_ buf (root u)), (at_ buf (path u)). unfold uri_open. rewrite E. cbn [mbind outcome_bind]. cbv zeta. rewrite Hh, Hnone, (parts_dollar _ _ _ Hparts).
  assert (bool_decide (head (t_resource t) = Some 36) = gz) as -> by (rewrite Hres; destruct gz; [done |]; by apply bool_decide_false).
  destruct Hparts as (Hcr & Hcroot & Hcpath & _). split; [|done]. rewrite Hres in Hcr. destruct gz; cbn [b2z]; [|by rewrite Z.add_0_r].
  apply cstr_cons in Hcr as (_ & _ & Hcr). eapply cstr_ext; [|exact Hcr]. intros i Hi. unfold at_, tail. by rewrite Z.add_assoc.
Qed.
(** After the dispatch, what is left is [deliver]. *)
Lemma uri_open_reaches fuel w boot junk secure mismatch key uri l t gz res optical drive partition k v data :
  dev_inv w.(dev) -> cstr uri l -> zlen l < 4096 -> (length l + 4 <= fuel)%nat ->
  parse_uri l = Ret (Some t) -> t.(t_resource) = (if gz : bool then 36 :: res else res) -> located boot res t.(t_root) optical drive partition ->
  volume_get_by_coord w.(volumes) optical drive partition = Some k -> w.(volumes) !! Z.to_nat k = Some v -> vol_ok v ->
  file_at ci base w.(contexts) k v (rooted t.(t_path)) (zlen data) data -> (secure = true -> t.(t_hash) <> None) ->
  exists w1 h, uri_open ci tftp fuel base w boot junk secure mismatch key uri = deliver fuel k h gz (hex_bytes <$> t.(t_hash)) mismatch key w1 /\ ready k v w1 /\ serves h v data.
Proof.
  intros Hdev Hu Hl Hf Hp Hres Hloc Hget Hk Hv Hat Hsec. pose proof (parse_lengths _ _ Hp) as Hlen.
  destruct (uri_open_split fuel w boot junk secure mismatch key uri l t gz res Hu Hl ltac:(lia) Hp Hres) as (r & rt & p & Hcr & Hcroot & Hcpath & ->); [by destruct Hloc as [| |[]] |].
  rewrite (dispatch_spec fuel w boot junk r rt p res t.(t_root) optical drive partition Hcr Hcroot Hloc) by lia. rewrite Hget.
  destruct (open_on_spec fuel w k v p t.(t_path) data Hdev Hk Hv Hcpath) as (w1 & h & -> & Hready & Hserves); [unfold zlen in *; lia | lia | done |].
  cbn [mbind outcome_bind]. exists w1, h. split; [|done]. destruct secure; cbn [andb]; [|done]. by rewrite bool_decide_false by auto.
Qed.
(** The check of the hash. *)
Lemma check_hash_ok (hd : Blake2b.blake2b_handle) data hx : hd.(Blake2b.finalized) = false -> absorbed hd.(Blake2b.hstate) data -> zlen data < 2 ^ 128 ->
  (Blake2b.blake2b_check_hash hd (hex_bytes hx)).2 = bool_decide (hex_bytes hx = blake2b_spec data).
Proof.
  intros Hfin Ha Hz. pose proof (check_hash_spec hd data (hex_bytes hx) Hfin Ha Hz (length_hex_bytes hx)) as Hck.
  destruct (bool_decide_reflect (hex_bytes hx = blake2b_spec data)) as [He|He]; [exact (proj2 Hck He) |]. apply not_true_iff_false. intros Ht. exact (He (proj1 Hck Ht)).
Qed.
Lemma check_hash_deliver (hd : Blake2b.blake2b_handle) s data hx h mismatch key : hd.(Blake2b.finalized) = false -> absorbed hd.(Blake2b.hstate) data -> zlen data < 2 ^ 128 ->
  let o := let '(_, ok) := Blake2b.blake2b_check_hash hd (hex_bytes hx) in
    if negb ok then
      if mismatch : bool then Panic else if negb (key =? 89) && negb (key =? 121) then Ret (s.1, BackToMenu) else Ret (s.1, Opened (opened h data))
    else Ret (s.1, Opened (opened h data)) in
  if bool_decide (hex_bytes hx = blake2b_spec data) then o = Ret (s.1, Opened (opened h data)) else mismatch = true -> o = Panic.
Proof.
  intros Hfin Ha Hz o. unfold o. pose proof (check_hash_ok hd data hx Hfin Ha Hz) as Hck. destruct (Blake2b.blake2b_check_hash hd (hex_bytes hx)) as [hd' ok]. cbn [snd] in Hck. rewrite Hck.
  destruct (bool_decide (hex_bytes hx = blake2b_spec data)); [reflexivity | intros ->; reflexivity].
Qed.

(** C26: [uri_open] of a URI that names a drive and a partition ([boot], [hdd] or [odd]), where the
    volume of that place holds the file [data]: it returns a memory file with exactly these bytes
    if the URI has their hash, or no hash outside secure boot; another hash is a panic when
    mismatches are fatal. After a dollar, and without a hash, it returns what the decoder makes of
    the bytes, whatever its length. *)
Theorem uri_open_correct fuel w boot junk secure mismatch key uri l t gz res optical drive partition k v data :
  dev_inv w.(dev) -> cstr uri l -> zlen l < 4096 -> (length l + 4 <= fuel)%nat ->
  parse_uri l = Ret (Some t) -> t.(t_resource) = (if gz : bool then 36 :: res else res) -> located boot res t.(t_root) optical drive partition ->
  volume_get_by_coord w.(volumes) optical drive partition = Some k -> w.(volumes) !! Z.to_nat k = Some v -> vol_ok v ->
  file_at ci base w.(contexts) k v (rooted t.(t_path)) (zlen data) data -> zlen data < 2 ^ 64 -> (secure = true -> t.(t_hash) <> None) ->
  let o := uri_open ci tftp fuel base w boot junk secure mismatch key uri in
  if gz then
    forall dec, t.(t_hash) = None -> Gzip.decodes data dec Gzip.pdgzip_init 0 0 -> zlen dec < 2 ^ 62 -> 2 * zlen dec + 65537 <= Z.of_nat fuel ->
    exists w' out, o = Ret (w', Opened out) /\ out.(File.fd) = File.MemFile dec /\ out.(File.file_size) = zlen dec
  else if match hex_bytes <$> t.(t_hash) with None => true | Some h => bool_decide (h = blake2b_spec data) end then
    exists w' out, o = Ret (w', Opened out) /\ out.(File.fd) = File.MemFile data /\ out.(File.file_size) = zlen data
  else mismatch = true -> o = Panic.
Proof.
  intros Hdev Hu Hl Hf Hp Hres Hloc Hget Hk Hv Hat Hz Hsec o.
  destruct (uri_open_reaches fuel w boot junk secure mismatch key uri l t gz res optical drive partition k v data) as (w1 & h & E & Hready & Hserves); try done. unfold o. rewrite E. clear o E. unfold deliver. cbv zeta.
  destruct gz.
  - intros dec Hnone Hdec Hzd Hfd. rewrite Hnone. cbn [fmap option_fmap option_map].
    destruct (read_gzip_spec fuel k h v data dec w1 Hserves Hready Hz Hzd Hdec Hfd) as (s' & -> & Hs'). cbn [mbind outcome_bind]. rewrite Hs'. by eexists _, _.
  - destruct (read_plain_spec k h v data w1 (hex_bytes <$> t.(t_hash)) Hserves Hready ltac:(lia)) as (s' & Hr & Hnone & Hsome).
    rewrite Hr. cbn [mbind outcome_bind]. destruct (t.(t_hash)) as [hx|]; cbn [fmap option_fmap option_map] in *.
    + destruct (Hsome ltac:(by eexists)) as (hd & -> & Hfin & _ & Ha). pose proof (check_hash_deliver hd s' data hx h mismatch key Hfin (Ha ltac:(lia)) ltac:(lia)) as Hck. cbv zeta in Hck.
      destruct (bool_decide (hex_bytes hx = blake2b_spec data)); [|exact Hck]. eexists _, _. split; [exact Hck | done].
    + rewrite Hnone by done. by eexists _, _.
Qed.

(** C39: a boot over the network: [boot():/path] of a non-empty file [data] of the server. With the
    hash of the file it is returned, with another hash that is a panic when mismatches are fatal;
    without a hash, outside secure boot, the function pointer [read] of its handle is called, which
    is null. *)
Theorem uri_open_network fuel w boot junk secure mismatch key uri l t data :
  boot.(pxe) = true -> cstr uri l -> zlen l < 4096 -> (length l + 4 <= fuel)%nat -> parse_uri l = Ret (Some t) -> t.(t_resource) = bytes "boot" -> t.(t_root) = [] ->
  (forall root path, cstr root [] -> cstr path t.(t_path) -> tftp root path = Some data) -> data <> [] -> zlen data < 2 ^ 64 ->
  let o := uri_open ci tftp fuel base w boot junk secure mismatch key uri in
  match hex_bytes <$> t.(t_hash) with
  | None => secure = false -> o = Ret (w, NullCall)
  | Some h =>
      if bool_decide (h = blake2b_spec data) then exists out, o = Ret (w, Opened out) /\ out.(File.fd) = File.MemFile data
      else mismatch = true -> o = Panic
  end.
Proof.
  intros Hpxe Hu Hl Hf Hp Hres Hroot Htftp Hne Hz o.
  assert (0 < zlen data) as Hpos by (destruct data; [done |]; rewrite zlen_cons; pose proof (zlen_nonneg data); lia).
  destruct (uri_open_split fuel w boot junk secure mismatch key uri l t false (bytes "boot") Hu Hl ltac:(lia) Hp Hres ltac:(done)) as (r & rt & p & Hcr & Hcroot & Hcpath & E). unfold o. rewrite E. clear o E. rewrite Hroot in Hcroot.
  set (h := {| File.fd := File.MemFile data; File.file_size := zlen data;
    File.path := Some (47 :: load_bytes p 0 (Z.to_nat (zlen (t_path t))) ++ [0]); File.path_len := 1 + zlen (t_path t) + 1 |}).
  assert (dispatch ci tftp fuel base w boot junk r rt p = Ret (w, Some (0, h))) as ->.
  { pose proof (parse_lengths _ _ Hp). unfold dispatch. cbv zeta. rewrite !(named_spec fuel r (bytes "boot")) by (done || (by apply (bool_decide_unpack _)) || (cbn; lia)). cbn.
    unfold uri_boot_dispatch, uri_tftp_dispatch. rewrite Hpxe, (named_spec fuel rt [] "" Hcroot) by (done || (simpl; lia)). cbn. rewrite (Htftp rt p) by done.
    cbn [File.tftp_file]. by rewrite (strlen_spec _ _ _ Hcpath) by lia. }
  cbn [mbind outcome_bind]. unfold deliver, read_plain. cbv zeta. cbn [h File.file_size File.fd]. rewrite Z.gtb_ltb, (proj2 (Z.ltb_lt _ _) Hpos).
  destruct (t_hash t) as [hx|]; cbn [fmap option_fmap option_map snd]; [|intros ->; done]. rewrite (bool_decide_false (Some hx = None)), andb_false_r by done.
  unfold stream_read, file_read. cbn [h File.file_size File.fd fst snd]. replace ((0 >=? zlen data) || (zlen data >? zlen data - 0)) with false by (symmetry; apply orb_false_iff; lia).
  cbn [mbind outcome_bind]. rewrite slice_all by done. unfold Blake2b.blake2b_read. cbn [on_source Blake2b.blake2b_open Blake2b.pos Blake2b.source Blake2b.hstate Blake2b.finalized Blake2b.digest Z.eqb negb].
  unfold Blake2b.fread. cbn [source_of Blake2b.is_memfile Blake2b.read mbind outcome_bind].
  destruct (update_spec _ [] data absorbed_init ltac:(change (zlen (@nil Z)) with 0; lia)) as (st & -> & Ha). cbn [app] in Ha. cbn [mbind outcome_bind]. rewrite Z.eqb_refl. cbn [negb mbind outcome_bind snd].
  match goal with |- context [Blake2b.blake2b_check_hash ?hd _] => pose proof (check_hash_deliver hd (w, Some hd) data hx h mismatch key eq_refl Ha ltac:(lia)) as Hck end.
  cbv zeta in Hck. cbn [fst] in Hck |- *. destruct (bool_decide (hex_bytes hx = blake2b_spec data)); [|exact Hck]. eexists. split; [exact Hck | done].
Qed.
End files.

(** * Examples *)

(** The file of 600 bytes on a disk with a FAT volume. *)
Definition disk_world : world (D := unit) := {| dev := tt; volumes := [ram_disk]; contexts := [] |}.

Lemma uri_open_correct_witness : exists data w out,
  @uri_open unit Fat32Files.ex_dev stored false (fun _ _ => None) 40 0x100000 disk_world ram_disk [] false true 0 (text "boot():/boot/kernel-image.bin") = Ret (w, Opened out) /\
  out.(File.fd) = File.MemFile data /\ zlen data = 600 /\ slice data 510 4 = [0xaa; 0xaa; 0xbb; 0xbb].
Proof.
  destruct (ex_fat_file 0x100000 [] 0) as (data & Hat & Hz & Hs). rewrite <- Hz in Hat.
  destruct (@uri_open_correct unit Fat32Files.ex_dev Fat32Files.ex_ok stored stored_ok false (fun _ _ => None) 0x100000 40 disk_world ram_disk [] false true 0
    (text "boot():/boot/kernel-image.bin") (bytes "boot():/boot/kernel-image.bin") {| t_resource := bytes "boot"; t_root := []; t_path := bytes "boot/kernel-image.bin"; t_hash := None |}
    false (bytes "boot") ram_disk.(is_optical) ram_disk.(index) ram_disk.(Part.partition) 0 ram_disk data) as (w & out & Ho & Hfd & _).
  - done.
  - exact (text_cstr "boot():/boot/kernel-image.bin" eq_refl).
  - vm_compute. reflexivity.
  - vm_compute. lia.
  - vm_compute. reflexivity.
  - done.
  - by constructor.
  - vm_compute. reflexivity.
  - done.
  - apply ram_disk_ok.
  - exact Hat.
  - rewrite Hz. vm_compute. reflexivity.
  - done.
  - exists data, w, out. auto.
Defined.

(** The same URI over the network, without and with the hash. *)
Lemma uri_open_network_witness :
  @uri_open unit Fat32Files.ex_dev stored false (fun _ _ => Some (bytes "payload")) 200 0x100000 net_world pxe_volume [] false true 0 (text "boot():/kernel") = Ret (net_world, NullCall) /\
  exists out, net_open = Ret (net_world, Opened out) /\ out.(File.fd) = File.MemFile (bytes "payload").
Proof.
  split.
  - apply (@uri_open_network unit Fat32Files.ex_dev stored false (fun _ _ => Some (bytes "payload")) 0x100000 200 net_world pxe_volume [] false true 0
      (text "boot():/kernel") (bytes "boot():/kernel") {| t_resource := bytes "boot"; t_root := []; t_path := bytes "kernel"; t_hash := None |} (bytes "payload"));
      try done; [exact (text_cstr "boot():/kernel" eq_refl) | vm_compute; lia].
  - pose proof (@uri_open_network unit Fat32Files.ex_dev stored false (fun _ _ => Some (bytes "payload")) 0x100000 200 net_world pxe_volume [] true true 0
      (in_buffer kernel_uri) kernel_uri {| t_resource := bytes "boot"; t_root := []; t_path := bytes "kernel"; t_hash := Some (hex_text (blake2b_spec (bytes "payload"))) |} (bytes "payload") eq_refl kernel_uri_cstr
      ltac:(vm_compute; reflexivity) ltac:(vm_compute; lia) ltac:(vm_compute; reflexivity) eq_refl eq_refl ltac:(done) ltac:(done) ltac:(vm_compute; reflexivity)) as H.
    cbn [t_hash fmap option_fmap option_map] in H. rewrite bool_decide_true in H by (vm_compute; reflexivity). exact H.
Defined.
