(* ===== verification/Config.v ===== *)
(** The configuration file, [common/lib/config.c]: clean-up of the text, macros, the tree of
    menu entries, key lookup; and the SMBIOS table as a source of the text.

    [config_addr] is the list of the bytes allocated for the text; the text proper is its first
    [config_size] bytes. Where a key is looked up, text is memory and pointers are addresses.
    The checksum embedded in the executable ([config_b2sum]), the names of the architecture and
    of the firmware are parameters. *)

From S2P Require Import Prelude Libc Guid Blake2b.
Import Libc Guid.

Module Config.

Definition is_blank (b : Z) : bool := (b =? 32) || (b =? 9).

(** * Carriage returns, and spaces at the start and end of lines *)

(** The blanks from [i + skip] on. *)
Fixpoint count_blanks (fuel : nat) (c : list Z) (config_size i skip : Z) : Z :=
  match fuel with
  | O => skip
  | S fuel => if (i + skip <? config_size) && is_blank c.[i + skip] then count_blanks fuel c config_size i (skip + 1) else skip
  end.
(** What is to be removed at [i]. *)
Fixpoint count_skip (fuel : nat) (c : list Z) (config_size i skip : Z) : Z :=
  match fuel with
  | O => skip
  | S fuel =>
      if (i + skip <? config_size)
         && ((c.[i + skip] =? 13) || (((i =? 0) || (c.[i - 1] =? 10)) && is_blank c.[i + skip]))
      then count_skip fuel c config_size i (skip + 1) else skip
  end.
Definition to_skip (c : list Z) (config_size i : Z) : Z :=
  let n := Z.to_nat (config_size - i) in
  let blanks := if is_blank c.[i] then count_blanks n c config_size i 0 else 0 in
  if is_blank c.[i] && (i + blanks <? config_size) && (c.[i + blanks] =? 10) then blanks
  else count_skip n c config_size i 0.

(** [for (j = i; j < config_size - skip; j++) config_addr[j] = config_addr[j + skip];] *)
Definition shift_down (c : list Z) (config_size i skip : Z) : list Z :=
  for_up (Z.to_nat (config_size - skip - i)) i (fun j c => c.[j := c.[j + skip]]) c.

(** Every iteration brings [i] and [config_size] closer. *)
Fixpoint trim_loop (fuel : nat) (c : list Z) (config_size i : Z) : outcome (list Z * Z) :=
  if i <? config_size then
    match fuel with
    | O => Diverge
    | S fuel =>
        let skip := to_skip c config_size i in
        if negb (skip =? 0) then trim_loop fuel (shift_down c config_size i skip) (config_size - skip) i
        else trim_loop fuel c config_size (i + 1)
    end
  else Ret (c, config_size).

(** * Macros *)

Definition MACRO_NAME_SIZE : Z := 1024.
Definition MACRO_VALUE_SIZE : Z := 2048.
Definition macro : Type := list Z * list Z.

(** [memcmp(config_addr + i, s, n) == 0] *)
Definition looking_at (c : list Z) (i : Z) (s : string) : bool :=
  memcmp (fun k => c.[i + k]) (lit s) (zlen (bytes s)) =? 0.

Definition newline_mark : string := String (Ascii.ascii_of_nat 10) "${".
(** The start of a line that may define a macro. *)
Definition macro_line (c : list Z) (config_size i : Z) : bool :=
  ((config_size - i >=? 3) && looking_at c i newline_mark)
  || ((config_size - i >=? 2) && (i =? 0) && looking_at c 0 "${").
Definition after_mark (i : Z) : Z := i + (if i =? 0 then 2 else 3).

(** Bytes from [i] on up to one of [stop]; [limit] of them fit, one more is an error. *)
Fixpoint take_until (fuel : nat) (c : list Z) (stop : Z -> bool) (limit i : Z) (acc : list Z) : outcome (list Z * Z) :=
  if stop c.[i] then Ret (acc, i)
  else match fuel with
  | O => Diverge
  | S fuel => if zlen acc >=? limit then Panic else take_until fuel c stop limit (i + 1) (acc ++ [c.[i]])
  end.
Definition name_end (b : Z) : bool := (b =? 125) || (b =? 10) || (b =? 0).
Definition line_end (b : Z) : bool := (b =? 10) || (b =? 0).

Fixpoint load_macros (fuel : nat) (c : list Z) (config_size i : Z) (macros : list macro) : outcome (list macro) :=
  if i <? config_size then
    match fuel with
    | O => Diverge
    | S fuel =>
        if macro_line c config_size i then
          '(name, i) ← take_until (length c) c name_end (MACRO_NAME_SIZE - 1) (after_mark i) [];
          if line_end c.[i] || negb (c.[i + 1] =? 61) then load_macros fuel c config_size i macros
          else
            '(value, i) ← take_until (length c) c line_end (MACRO_VALUE_SIZE - 1) (i + 2) [];
            load_macros fuel c config_size i ((name, value) :: macros)
        else load_macros fuel c config_size (i + 1) macros
    end
  else Ret macros.

(** [while (i < config_size && config_addr[i] != '}') i++;] *)
Fixpoint seek_brace (n : nat) (c : list Z) (i : Z) : Z :=
  match n with
  | O => i
  | S n => if c.[i] =? 125 then i else seek_brace n c (i + 1)
  end.
(** The rest of a definition; [None] is the error. *)
Fixpoint seek_line_end (fuel : nat) (c : list Z) (config_size i : Z) : outcome Z :=
  if line_end c.[i] then Ret i
  else match fuel with
  | O => Diverge
  | S fuel => if i + 1 >=? config_size then Panic else seek_line_end fuel c config_size (i + 1)
  end.

(** The name of a macro that is used: at most 1023 bytes of it are taken. *)
Fixpoint use_name (n : nat) (c : list Z) (i : Z) (acc : list Z) : list Z * Z :=
  match n with
  | O => (acc, i)
  | S n => if name_end c.[i] then (acc, i) else use_name n c (i + 1) (acc ++ [c.[i]])
  end.

(** [strcmp] of two arrays that hold a name: 1024 bytes bound it. *)
Definition array_str (l : list Z) : Z -> Z := fun i => (l ++ [0]).[i].
Fixpoint find_macro (macros : list macro) (name : list Z) : outcome (list Z) :=
  match macros with
  | [] => Ret []
  | (n, value) :: macros =>
      r ← strcmp 1024 (array_str n) (array_str name);
      if r =? 0 then Ret value else find_macro macros name
  end.
(** The value up to its terminator. *)
Definition value_text (value : list Z) : outcome (list Z) :=
  len ← strlen 2048 (array_str value); Ret (take (Z.to_nat len) value).

(** [in] is the number of bytes written. *)
Fixpoint expand_macros (fuel : nat) (macros : list macro) (c : list Z) (config_size new_config_size i : Z) (new_config : list Z)
    : outcome (list Z) :=
  if i <? config_size then
    match fuel with
    | O => Diverge
    | S fuel =>
        let continue i new_config := expand_macros fuel macros c config_size new_config_size i new_config in
        let ordinary i :=
          if (config_size - i >=? 2) && looking_at c i "${" then
            let '(name, i) := use_name 1023 c (i + 2) [] in
            if negb (c.[i] =? 125) then Panic
            else
              value ← find_macro macros name;
              text ← value_text value;
              if zlen new_config + zlen text >? new_config_size then Panic
              else continue (i + 1) (new_config ++ text)
          else if zlen new_config >=? new_config_size then Panic
          else continue (i + 1) (new_config ++ [c.[i]]) in
        if macro_line c config_size i then
          let j := seek_brace (Z.to_nat (config_size - after_mark i)) c (after_mark i) in
          if j >=? config_size then Panic
          else if (j + 1 >=? config_size) || negb (c.[j + 1] =? 61) then ordinary i
          else j ← seek_line_end (length c) c config_size (j + 2); continue j new_config
        else ordinary i
    end
  else Ret new_config.

(** * Entries *)

(** [config_get_value] on the text at the address [config]: the value, and [lastkey], where it
    is. [None] is NULL. *)
Fixpoint skip_blanks (fuel : nat) (m : mem) (i : Z) : outcome Z :=
  if is_blank (m i) then match fuel with O => Diverge | S fuel => skip_blanks fuel m (i + 1) end else Ret i.
Fixpoint value_length (fuel : nat) (m : mem) (i value_len : Z) : outcome Z :=
  if line_end (m (i + value_len)) then Ret value_len
  else match fuel with O => Diverge | S fuel => value_length fuel m i (value_len + 1) end.
Definition CONFIG_VALUE_BUF_SIZE : Z := 4096.

Fixpoint value_loop (fuel : nat) (m : mem) (config key_len : Z) (key : Z -> Z) (i index : Z) : outcome (option (list Z * Z)) :=
  if m (config + i) =? 0 then Ret None
  else match fuel with
  | O => Diverge
  | S fuel =>
      if (strncasecmp (str m (config + i)) key key_len =? 0) && (m (config + i + key_len) =? 58) then
        if negb (i =? 0) && negb (m (config + i - 1) =? 10) then value_loop fuel m config key_len key (i + 1) index
        else if negb (index =? 0) then value_loop fuel m config key_len key (i + 1) (index - 1)
        else
          p ← skip_blanks fuel m (config + i + key_len + 1);
          value_len ← value_length fuel m p 0;
          let value_len := if value_len >=? CONFIG_VALUE_BUF_SIZE then CONFIG_VALUE_BUF_SIZE - 1 else value_len in
          Ret (Some (load_bytes m p (Z.to_nat value_len), p))
      else value_loop fuel m config key_len key (i + 1) index
  end.

(** The globals of the lookup. *)
Record globals := { config_ready : bool; config_addr : Z; lastkey : Z }.

Definition config_get_value (fuel : nat) (m : mem) (g : globals) (config : option Z) (index : Z) (key : option (Z -> Z))
    : outcome (globals * option (list Z)) :=
  match key with
  | None => Ret (g, None)
  | Some key =>
      if negb g.(config_ready) then Ret (g, None)
      else
        let config := default g.(config_addr) config in
        key_len ← strlen fuel key;
        r ← value_loop fuel m config key_len key 0 index;
        match r with
        | None => Ret (g, None)
        | Some (value, p) => Ret ({| config_ready := true; config_addr := g.(config_addr); lastkey := p |}, Some value)
        end
  end.

(** The values are copied to buffers of 4096 bytes, which they fit. *)
Definition config_get_tuple (fuel : nat) (m : mem) (g : globals) (config : option Z) (index : Z) (key1 key2 : Z -> Z)
    : outcome (globals * (option (list Z) * option (list Z))) :=
  '(g, value1) ← config_get_value fuel m g config index (Some key1);
  match value1 with
  | None => Ret (g, (None, None))
  | Some value1 =>
      let lk1 := g.(lastkey) in
      '(g, value2) ← config_get_value fuel m g (Some lk1) 0 (Some key2);
      let lk2 := g.(lastkey) in
      '(g, next_value1) ← config_get_value fuel m g config (index + 1) (Some key1);
      let lk3 := g.(lastkey) in
      let value2 := match value2, next_value1 with
                    | Some _, Some _ => if lk2 >? lk3 then None else value2
                    | _, _ => value2
                    end in
      Ret (g, (Some value1, value2))
  end.

(** The position of a slash from [p] on. *)
Fixpoint seek_slash (fuel : nat) (c : list Z) (p : Z) : outcome (option Z) :=
  if c.[p] =? 47 then Ret (Some p)
  else if c.[p] =? 0 then Ret None
  else match fuel with O => Diverge | S fuel => seek_slash fuel c (p + 1) end.
(** The slash the entry [index] starts with, counting from [p]: the ones at the start of a line. *)
Fixpoint nth_entry (fuel : nat) (c : list Z) (p index : Z) : outcome (option Z) :=
  match fuel with
  | O => Diverge
  | S fuel =>
      r ← seek_slash (length c) c p;
      match r with
      | None => Ret None
      | Some q =>
          if negb (q =? 0) && negb (c.[q - 1] =? 10) then nth_entry fuel c (q + 1) index
          else if index =? 0 then Ret (Some q)
          else nth_entry fuel c (q + 1) (index - 1)
      end
  end.

Fixpoint line_length (fuel : nat) (c : list Z) (p len : Z) : outcome Z :=
  if c.[p + len] =? 10 then Ret len
  else match fuel with O => Diverge | S fuel => line_length fuel c p (len + 1) end.
(** The line of the entry; [None] is NULL. *)
Definition config_get_entry_name (c : list Z) (index : Z) : outcome (option (list Z)) :=
  r ← nth_entry (length c) c 0 index;
  match r with
  | None => Ret None
  | Some p => len ← line_length (length c) c p 0; Ret (Some (slice c p len))
  end.

(** [do p++; while ( *p != '\n' && *p != 0)], and the end of the entry's text. *)
Fixpoint seek_end (fuel : nat) (c : list Z) (p : Z) : outcome Z :=
  if line_end c.[p] then Ret p else match fuel with O => Diverge | S fuel => seek_end fuel c (p + 1) end.
Fixpoint entry_end (fuel : nat) (c : list Z) (p : Z) : outcome Z :=
  match fuel with
  | O => Diverge
  | S fuel =>
      if negb (c.[p] =? 47) && negb (c.[p] =? 0) then entry_end fuel c (p + 1)
      else if negb (c.[p] =? 0) && negb (c.[p - 1] =? 10) then entry_end fuel c (p + 1)
      else Ret p
  end.
(** Where the text of the entry starts and its length. *)
Definition config_get_entry (c : list Z) (index : Z) : outcome (option (Z * Z)) :=
  r ← nth_entry (length c) c 0 index;
  match r with
  | None => Ret None
  | Some q => p ← seek_end (length c) c (q + 2); e ← entry_end (S (length c)) c p; Ret (Some (p, e - p))
  end.

(** * The menu *)

Inductive kinship := NOT_CHILD | DIRECT_CHILD | INDIRECT_CHILD.
Definition is_child (c : list Z) (current_depth index : Z) : outcome kinship :=
  r ← config_get_entry_name c index;
  match r with
  | None => Ret NOT_CHILD
  | Some buf =>
      len ← strlen (length buf) (array_str buf);
      if len <? current_depth + 1 then Ret NOT_CHILD
      else if negb (forallb (fun b => b =? 47) (take (Z.to_nat current_depth) buf)) then Ret NOT_CHILD
      else if buf.[current_depth] =? 47 then Ret INDIRECT_CHILD
      else Ret DIRECT_CHILD
  end.
Definition is_directory (c : list Z) (current_depth index : Z) : outcome bool :=
  k ← is_child c (current_depth + 1) (index + 1);
  match k with NOT_CHILD => Ret false | INDIRECT_CHILD => Panic | DIRECT_CHILD => Ret true end.

Inductive menu_entry :=
| Menu (name body : list Z) (comment : option (list Z)) (expanded : bool) (sub : list menu_entry).

Definition MAX_MENU_NESTING : Z := 64.

(** [strdup(n)] for the name after the slashes, a plus sign and spaces. *)
Fixpoint drop_spaces (l : list Z) : list Z :=
  match l with b :: l' => if b =? 32 then drop_spaces l' else l | [] => [] end.
Definition menu_name (name : list Z) (current_depth : Z) : outcome (list Z * bool) :=
  let default_expanded := (array_str name current_depth =? 43) in
  let n := drop_spaces (drop (Z.to_nat (current_depth + b2z default_expanded)) name) in
  len ← strlen (length n) (array_str n);
  Ret (take (Z.to_nat len) n, default_expanded).
Definition menu_comment (body : list Z) : outcome (option (list Z)) :=
  r ← value_loop (S (length body)) (array_str body) 0 7 (lit "COMMENT") 0 0;
  match r with Some (v, _) => Ret (Some v) | None => Ret None end.

(** The loop of [create_menu_tree] from the entry [i] on; the list is linked by [next]. *)
Fixpoint tree_loop (fuel : nat) (c : list Z) (current_depth i : Z) : outcome (list menu_entry) :=
  match fuel with
  | O => Diverge
  | S fuel =>
      k ← is_child c current_depth i;
      match k with
      | NOT_CHILD => Ret []
      | INDIRECT_CHILD => tree_loop fuel c current_depth (i + 1)
      | DIRECT_CHILD =>
          r ← config_get_entry_name c i;
          '(name, default_expanded) ← menu_name (default [] r) current_depth;
          e ← config_get_entry c i;
          let '(p, size) := default (0, 0) e in
          let body := slice c p size in
          dir ← is_directory c current_depth i;
          sub ← (if (dir : bool)
                 then if current_depth + 1 >? MAX_MENU_NESTING then Panic else tree_loop fuel c (current_depth + 1) (i + 1)
                 else Ret []);
          comment ← menu_comment body;
          rest ← tree_loop fuel c current_depth (i + 1);
          Ret (Menu name body comment (dir && default_expanded) sub :: rest)
      end
  end.
Definition create_menu_tree (c : list Z) (current_depth index : Z) : outcome (list menu_entry) :=
  if current_depth >? MAX_MENU_NESTING then Panic else tree_loop (S (length c)) c current_depth index.

(** * [init_config] *)

(** The text before the first entry, which is ended where the entry starts. *)
Fixpoint back_to_slash (n : nat) (c : list Z) : Z :=
  match n with
  | O => 0
  | S n' => if c.[Z.of_nat n] =? 47 then Z.of_nat n else back_to_slash n' c
  end.
Definition cut_globals (c : list Z) : outcome (list Z) :=
  e ← config_get_entry c 0;
  match e with
  | None => Ret c
  | Some (p, _) =>
      let p := back_to_slash (Z.to_nat p) c in
      Ret (if (c.[p] =? 47) && (p >? 0) then c.[p - 1 := 0] else c)
  end.

Section init.
Variables (SIZE_MAX : Z) (config_b2sum : list Z) (arch firmware : list Z).

(** The digits of the checksum, as bytes; [None] is the error. *)
Definition hash_of_digits : option (list Z) :=
  foldr (fun i r => l ← r;
           let hi := digit_to_int (schar config_b2sum.[Z.of_nat i * 2]) in
           let lo := digit_to_int (schar config_b2sum.[Z.of_nat i * 2 + 1]) in
           if (hi =? -1) || (lo =? -1) then None else Some (u8 (Z.lor (Z.shiftl hi 4) lo) :: l)) (Some []) (seq 0 64).

(** Whether the text may be edited: an executable without a checksum allows it. *)
Definition check_b2sum (text : list Z) : outcome bool :=
  if memcmp (fun i => config_b2sum.[i]) (fun _ => 48) 128 =? 0 then Ret true
  else
    out ← Blake2b.blake2b text;
    hash ← or_panic hash_of_digits;
    if negb (memcmp (fun i => hash.[i]) (fun i => out.[i]) Blake2b.OUT_BYTES =? 0) then Panic else Ret false.

(** The configuration as it is afterwards, the menu, and whether the editor is left enabled. *)
Definition init_config (c : list Z) : outcome (list Z * list menu_entry * bool) :=
  let config_size := zlen c in
  editor ← check_b2sum (take (Z.to_nat (config_size - 2)) c);
  let c := c.[config_size - 2 := 10] in
  '(c, config_size) ← trim_loop (length c) c config_size 0;
  macros ← load_macros (length c) c config_size 0 [(bytes "FW_TYPE", firmware); (bytes "ARCH", arch)];
  if config_size >? SIZE_MAX / 4 then Panic
  else
    let new_config_size := config_size * 4 in
    text ← expand_macros (length c) macros c config_size new_config_size 0 [];
    let c := text ++ replicate (Z.to_nat new_config_size - length text) 0 in
    menu_tree ← create_menu_tree c 1 0;
    c ← cut_globals c;
    Ret (c, menu_tree, editor).

(** * SMBIOS *)

(** The size of a structure at [hdr], of which [remaining] bytes are in the table; 0 is the
    error. [i] is the loop's variable. *)
Fixpoint string_area (fuel : nat) (m : mem) (string_data string_area_max i : Z) : Z :=
  match fuel with
  | O => i
  | S fuel =>
      if (i <? string_area_max) && (negb (m (string_data + i - 1) =? 0) || negb (m (string_data + i) =? 0))
      then string_area fuel m string_data string_area_max (i + 1) else i
  end.
Definition smbios_struct_size (m : mem) (hdr remaining : Z) : Z :=
  let length := m (hdr + 1) in
  if remaining <? 4 then 0
  else if length <? 4 then 0
  else if length >? remaining then 0
  else
    let string_area_max := remaining - length in
    let i := string_area (Z.to_nat string_area_max) m (hdr + length) string_area_max 1 in
    if i >=? string_area_max then 0 else length + i + 1.

(** The search of the table: the text of the configuration, as [init_config] is given it. *)
Fixpoint smbios_loop (fuel : nat) (m : mem) (table_length struct_count hdr processed struct_num : Z) : outcome (option (list Z)) :=
  match fuel with
  | O => Diverge
  | S fuel =>
      if negb ((struct_count =? 0) || (struct_num <? struct_count)) then Ret None
      else
        let remaining := table_length - processed in
        if remaining <? 4 then Ret None
        else if m hdr =? 127 then Ret None
        else
          let struct_size := smbios_struct_size m hdr remaining in
          if struct_size =? 0 then Ret None
          else
            let length := m (hdr + 1) in
            let string_data := hdr + length in
            let string_area_size := struct_size - length in
            let prefix_len := zlen (bytes "limine:config:") in
            let found := (m hdr =? 11) && (length >=? 4) && (string_area_size >? prefix_len)
                         && (strncmp (str m string_data) (lit "limine:config:") prefix_len =? 0) in
            let total_len := strnlen (str m string_data) string_area_size in
            if found && negb (total_len <=? prefix_len) then
              let config_size := total_len - prefix_len + 2 in
              Ret (Some (load_bytes m (string_data + prefix_len) (Z.to_nat (config_size - 1)) ++ [0]))
            else if found then
              (* [continue]: the same structure is looked at again *)
              smbios_loop fuel m table_length struct_count hdr processed (struct_num + 1)
            else
              let processed := processed + struct_size in
              if processed >=? table_length then Ret None
              else smbios_loop fuel m table_length struct_count (hdr + struct_size) processed (struct_num + 1)
  end.
Definition smbios_config (fuel : nat) (m : mem) (table_length struct_count hdr : Z) : outcome (option (list Z)) :=
  if (hdr =? 0) || (table_length =? 0) then Ret None
  else smbios_loop fuel m table_length struct_count hdr 0 0.

(** [acpi_get_smbios]: the entry points the firmware has. *)
Record smbios_entry_point_32 := { number_of_structures : Z; table_length : Z; table_address_32 : Z }.
Record smbios_entry_point_64 := { table_maximum_size : Z; table_address_64 : Z }.
(** [None] is [false]. *)
Definition init_config_smbios (fuel : nat) (m : mem) (smbios_entry_32 : option smbios_entry_point_32) (smbios_entry_64 : option smbios_entry_point_64)
    : outcome (option (list Z * list menu_entry * bool)) :=
  r ← match smbios_entry_64, smbios_entry_32 with
      | Some e, _ => smbios_config fuel m e.(table_maximum_size) 0 e.(table_address_64)
      | None, Some e => smbios_config fuel m e.(table_length) e.(number_of_structures) e.(table_address_32)
      | None, None => Ret None
      end;
  match r with
  | None => Ret None
  | Some c => config ← init_config c; Ret (Some config)
  end.
End init.

End Config.
