(* ===== verification/ConfigText.v ===== *)
(** The text of the configuration: the clean-up in place is a pass over the lines, and macros
    are expanded as the lines that define and use them say. *)

From S2P Require Import Prelude Libc LibcCorrect Guid Blake2b Config.
Import Libc Guid Config.

(** * Runs *)

(** The length of the longest prefix of elements with [p]. *)
Fixpoint span (p : Z -> bool) (l : list Z) : nat :=
  match l with b :: l => if p b then S (span p l) else O | [] => O end.

Lemma span_le p l : (span p l <= length l)%nat.
Proof. induction l as [|b l IH]; cbn [span length]; [lia |]. destruct (p b); lia. Qed.
Lemma span_forall p l : Forall (fun b => p b = true) (take (span p l) l).
Proof. induction l as [|b l IH]; cbn [span]; [constructor |]. destruct (p b) eqn:E; [by constructor | constructor]. Qed.
Lemma span_next p l : match drop (span p l) l with [] => True | b :: _ => p b = false end.
Proof. induction l as [|b l IH]; cbn [span]; [done |]. by destruct (p b) eqn:E. Qed.
Lemma span_app p l r : Forall (fun b => p b = true) l -> (match r with [] => True | b :: _ => p b = false end) -> span p (l ++ r) = length l.
Proof.
  intros HF Hr. induction HF as [|b l Hb HF IH]; cbn [app span length]; [destruct r; [done | cbn [span]; by rewrite Hr] |]. by rewrite Hb, IH.
Qed.

(** Bytes of a text with something before it and something after it. *)
Lemma aget_mid (pre l post : list Z) k : 0 <= k < zlen l -> (pre ++ l ++ post).[zlen pre + k] = l.[k].
Proof. intros Hk. rewrite aget_app_r by (unfold zlen in *; lia). replace (zlen pre + k - zlen pre) with k by lia. by apply aget_app_l. Qed.
Lemma aget_prev (pre : list Z) a l : (pre ++ [a] ++ l).[zlen (pre ++ [a]) - 1] = a.
Proof. rewrite zlen_app. change (zlen [a]) with 1. rewrite aget_app_r by lia. by replace (zlen pre + 1 - 1 - zlen pre) with 0 by lia. Qed.

(** A loop that counts: [p] is its test at the offset [k]. *)
Lemma count_span (f : nat -> Z -> Z) (p : Z -> bool) l (test : Z -> bool) :
  (forall n k, f (S n) k = if test k then f n (k + 1) else k) -> (forall k, f O k = k) ->
  (forall k, 0 <= k < zlen l -> test k = p l.[k]) -> test (zlen l) = false ->
  forall n k, zlen l <= k + Z.of_nat n -> 0 <= k <= zlen l -> f n k = k + Z.of_nat (span p (drop (Z.to_nat k) l)).
Proof.
  intros HS HO Ht He n. induction n as [|n IH]; intros k Hn Hk.
  - rewrite HO. rewrite drop_ge by (unfold zlen in *; lia). simpl. lia.
  - rewrite HS. destruct (decide (k = zlen l)) as [->|Hne].
    + rewrite He, drop_ge by (unfold zlen; lia). simpl. lia.
    + rewrite Ht by lia. pose proof (aget_lookup l k ltac:(lia)) as Hx. rewrite (drop_S _ _ _ Hx). cbn [span].
      destruct (p l.[k]); [|lia]. rewrite IH by lia. replace (Z.to_nat (k + 1)) with (S (Z.to_nat k)) by lia. lia.
Qed.

(** * Cleaning up *)

(** The text without carriage returns, without blanks at the start of a line ([bol]) and
    without blanks right before the end of a line. *)
Fixpoint before_newline (l : list Z) : bool :=
  match l with [] => false | b :: l => if is_blank b then before_newline l else b =? 10 end.
Fixpoint clean (bol : bool) (l : list Z) : list Z :=
  match l with
  | [] => []
  | b :: l =>
      if (b =? 13) || (is_blank b && (bol || before_newline l)) then clean bol l
      else b :: clean (b =? 10) l
  end.

Definition starts_line (pre : list Z) : bool := match last pre with None => true | Some b => b =? 10 end.

Lemma blank_not_newline b : is_blank b = true -> (b =? 10) = false /\ (b =? 13) = false.
Proof. unfold is_blank. destruct (Z.eqb_spec b 32), (Z.eqb_spec b 9); split; lia. Qed.

Lemma before_newline_span l : before_newline l = match drop (span is_blank l) l with b :: _ => b =? 10 | [] => false end.
Proof. induction l as [|b l IH]; cbn [before_newline span]; [done |]. by destruct (is_blank b). Qed.

Lemma clean_blanks bol x y : Forall (fun b => is_blank b = true) x -> before_newline y = true -> clean bol (x ++ y) = clean bol y.
Proof.
  intros HF Hy. assert (before_newline (x ++ y) = true /\ clean bol (x ++ y) = clean bol y) as [_ ?]; [|done].
  induction HF as [|b x Hb HF [IH1 IH2]]; [done |]. cbn [app before_newline clean]. rewrite Hb, IH1. split; [done |].
  by rewrite orb_true_r, andb_true_r, orb_true_r.
Qed.
Definition skipped_byte (bol : bool) (b : Z) : bool := (b =? 13) || (bol && is_blank b).
Lemma clean_skipped bol x y : Forall (fun b => skipped_byte bol b = true) x -> clean bol (x ++ y) = clean bol y.
Proof.
  induction 1 as [|b x Hb HF IH]; [done |]. cbn [app clean]. unfold skipped_byte in Hb.
  destruct (b =? 13); cbn [orb] in *; [done |]. apply andb_prop in Hb as [-> ->]. done.
Qed.

Section trim.
Context (pre rest stale : list Z).
Let c := pre ++ rest ++ stale.
Let n := zlen pre + zlen rest.
Let bol := starts_line pre.

Lemma bol_test : (zlen pre =? 0) || (c.[zlen pre - 1] =? 10) = bol.
Proof.
  unfold bol, starts_line, c. destruct pre as [|a l _] using rev_ind; [done |]. rewrite last_snoc, <- app_assoc, aget_prev.
  rewrite zlen_app. change (zlen [a]) with 1. pose proof (zlen_nonneg l). by rewrite (proj2 (Z.eqb_neq _ 0)) by lia.
Qed.

Lemma count_blanks_spec : count_blanks (length rest) c n (zlen pre) 0 = Z.of_nat (span is_blank rest).
Proof.
  rewrite (count_span (fun f k => count_blanks f c n (zlen pre) k) is_blank rest (fun k => (zlen pre + k <? n) && is_blank c.[zlen pre + k]));
    [done | done | done | | | unfold zlen; lia..].
  - intros k Hk. rewrite (proj2 (Z.ltb_lt _ _)) by (unfold n; lia). cbn [andb]. unfold c. by rewrite aget_mid.
  - by rewrite (proj2 (Z.ltb_ge _ _)) by (unfold n; lia).
Qed.
Lemma count_skip_spec : count_skip (length rest) c n (zlen pre) 0 = Z.of_nat (span (skipped_byte bol) rest).
Proof.
  rewrite (count_span (fun f k => count_skip f c n (zlen pre) k) (skipped_byte bol) rest
    (fun k => (zlen pre + k <? n) && ((c.[zlen pre + k] =? 13) || (((zlen pre =? 0) || (c.[zlen pre - 1] =? 10)) && is_blank c.[zlen pre + k]))));
    [done | done | done | | | unfold zlen; lia..].
  - intros k Hk. rewrite bol_test, (proj2 (Z.ltb_lt _ _)) by (unfold n; lia). cbn [andb]. unfold c. by rewrite aget_mid.
  - by rewrite (proj2 (Z.ltb_ge _ _)) by (unfold n; lia).
Qed.

(** What is removed at a position is what [clean] leaves out there. *)
Lemma to_skip_spec : rest <> [] -> exists x y, rest = x ++ y /\ to_skip c n (zlen pre) = zlen x /\ clean bol rest = clean bol y /\
  (x = [] -> exists b l, rest = b :: l /\ clean bol rest = b :: clean (b =? 10) l).
Proof.
  intros Hne. assert (Z.to_nat (n - zlen pre) = length rest) as Hn by (unfold n, zlen; lia).
  assert (is_blank c.[zlen pre] = match rest with b :: _ => is_blank b | [] => false end) as Hb.
  { destruct rest as [|b l]; [done |]. unfold c. rewrite <- (Z.add_0_r (zlen pre)), aget_mid by (rewrite zlen_cons; pose proof (zlen_nonneg l); lia). done. }
  unfold to_skip. rewrite Hn, count_blanks_spec, count_skip_spec. set (k := span is_blank rest).
  assert (is_blank c.[zlen pre] && (zlen pre + (if is_blank c.[zlen pre] then Z.of_nat k else 0) <? n)
    && (c.[zlen pre + (if is_blank c.[zlen pre] then Z.of_nat k else 0)] =? 10) = match rest with b :: l => is_blank b && before_newline l | [] => false end) as ->.
  { rewrite Hb. destruct rest as [|b l]; [done |]. destruct (is_blank b) eqn:Eb; [|done]. cbn [andb].
    assert (before_newline l = before_newline (b :: l)) as -> by (cbn [before_newline]; by rewrite Eb).
    rewrite before_newline_span. fold k. pose proof (span_le is_blank (b :: l)) as Hk. fold k in Hk.
    set (w := b :: l) in *. clearbody w k. destruct (drop k w) as [|d r'] eqn:Ed.
    - apply (f_equal length) in Ed. rewrite length_drop in Ed. simpl in Ed. by rewrite (proj2 (Z.ltb_ge _ _)) by (unfold n, zlen; lia).
    - assert (w !! k = Some d) as Hd by (rewrite <- (Nat.add_0_r k), <- lookup_drop, Ed; done).
      pose proof (lookup_lt_Some _ _ _ Hd). rewrite (proj2 (Z.ltb_lt _ _)) by (unfold n, zlen; lia). cbn [andb]. unfold c. rewrite aget_mid by (unfold zlen; lia).
      unfold aget. rewrite Nat2Z.id. by rewrite (list_lookup_total_correct _ _ _ Hd). }
  destruct rest as [|b l]; [done |]. destruct (is_blank b && before_newline l) eqn:Ebn.
  - apply andb_prop in Ebn as [Eb Ebn]. rewrite Hb, Eb. exists (take k (b :: l)), (drop k (b :: l)). rewrite take_drop. split; [done |].
    pose proof (span_le is_blank (b :: l)) as Hk. fold k in Hk. split; [unfold zlen; rewrite length_take; lia |]. split.
    + rewrite <- (take_drop k (b :: l)) at 1. apply clean_blanks; [apply span_forall |]. pose proof (before_newline_span (b :: l)) as Hbn. fold k in Hbn.
      cbn [before_newline] in Hbn. rewrite Eb, Ebn in Hbn. pose proof (span_next is_blank (b :: l)) as Hnx. fold k in Hnx.
      destruct (drop k (b :: l)); [done |]. cbn [before_newline]. by rewrite Hnx.
    + unfold k. cbn [span]. by rewrite Eb.
  - exists (take (span (skipped_byte bol) (b :: l)) (b :: l)), (drop (span (skipped_byte bol) (b :: l)) (b :: l)). rewrite take_drop. split; [done |].
    pose proof (span_le (skipped_byte bol) (b :: l)). split; [unfold zlen; rewrite length_take; lia |]. split.
    + rewrite <- (take_drop (span (skipped_byte bol) (b :: l)) (b :: l)) at 1. apply clean_skipped, span_forall.
    + cbn [span]. destruct (skipped_byte bol b) eqn:Es; [done |]. intros _. exists b, l. split; [done |]. cbn [clean].
      unfold skipped_byte in Es. apply orb_false_iff in Es as [-> Es]. cbn [orb]. rewrite andb_orb_distrib_r, Ebn, orb_false_r, andb_comm, Es. done.
Qed.
End trim.

Lemma shift_down_spec y : forall pre x z, x <> [] ->
  exists z', shift_down (pre ++ x ++ y ++ z) (zlen pre + zlen x + zlen y) (zlen pre) (zlen x) = pre ++ y ++ z' /\ length z' = (length x + length z)%nat.
Proof.
  induction y as [|b y IH]; intros pre x z Hx; unfold shift_down.
  - change (zlen (@nil Z)) with 0. replace (Z.to_nat _) with 0%nat by lia. exists (x ++ z). cbn [for_up app]. split; [done |]. by rewrite length_app.
  - destruct x as [|a x]; [done |]. rewrite !zlen_cons. pose proof (zlen_nonneg y). pose proof (zlen_nonneg x).
    replace (Z.to_nat (zlen pre + (1 + zlen x) + (1 + zlen y) - (1 + zlen x) - zlen pre)) with (S (length y)) by (unfold zlen; lia). cbn [for_up].
    assert ((pre ++ (a :: x) ++ (b :: y) ++ z).[zlen pre + (1 + zlen x)] = b) as ->.
    { rewrite aget_app_r by lia. replace (zlen pre + (1 + zlen x) - zlen pre) with (zlen (a :: x)) by (rewrite zlen_cons; lia).
      rewrite aget_app_r by lia. by rewrite Z.sub_diag. }
    assert ((pre ++ (a :: x) ++ (b :: y) ++ z).[zlen pre := b] = (pre ++ [b]) ++ (x ++ [b]) ++ y ++ z) as ->.
    { cbn [app]. rewrite aset_app. rewrite <- !app_assoc. done. }
    destruct (IH (pre ++ [b]) (x ++ [b]) z) as (z' & Hz & Hlen); [by destruct x |]. unfold shift_down in Hz. rewrite !zlen_app in Hz. change (zlen [b]) with 1 in Hz.
    replace (Z.to_nat _) with (length y) in Hz by (unfold zlen; lia). exists z'. rewrite length_app in Hlen. cbn [length] in *.
    split; [|lia]. replace (1 + zlen x) with (zlen x + 1) by lia. rewrite Hz, <- app_assoc. done.
Qed.

(** The clean-up in place. *)
Lemma trim_loop_spec fuel : forall pre rest stale, (length rest <= fuel)%nat ->
  exists c', trim_loop fuel (pre ++ rest ++ stale) (zlen pre + zlen rest) (zlen pre) =
    Ret (pre ++ clean (starts_line pre) rest ++ c', zlen (pre ++ clean (starts_line pre) rest)) /\
    length (pre ++ clean (starts_line pre) rest ++ c') = length (pre ++ rest ++ stale).
Proof.
  induction fuel as [|fuel IH]; intros pre rest stale Hf; cbn [trim_loop].
  - destruct rest; [|simpl in Hf; lia]. change (zlen (@nil Z)) with 0. rewrite Z.add_0_r, Z.ltb_irrefl. exists stale. cbn [clean app]. by rewrite app_nil_r.
  - destruct rest as [|b l] eqn:Er.
    { change (zlen (@nil Z)) with 0. rewrite Z.add_0_r, Z.ltb_irrefl. exists stale. cbn [clean app]. by rewrite app_nil_r. }
    rewrite <- Er in *. assert (rest <> []) as Hne by by rewrite Er.
    assert (0 < zlen rest) by (rewrite Er, zlen_cons; pose proof (zlen_nonneg l); lia). rewrite (proj2 (Z.ltb_lt _ _)) by lia.
    destruct (to_skip_spec pre rest stale Hne) as (x & y & Hxy & Hsk & Hcl & Hz). rewrite Hsk.
    destruct (Z.eqb_spec (zlen x) 0) as [Hx|Hx]; cbn [negb].
    + destruct x; [|rewrite zlen_cons in Hx; pose proof (zlen_nonneg x); lia]. destruct (Hz eq_refl) as (b' & l' & Hr & Hc). rewrite Hc, Hr in *.
      destruct (IH (pre ++ [b']) l' stale) as (c' & Ht & Hlen); [simpl in Hf; lia |]. rewrite zlen_app in Ht. change (zlen [b']) with 1 in Ht.
      rewrite <- !app_assoc in Ht. rewrite zlen_cons, Z.add_assoc. cbn [app] in *. exists c'.
      assert (starts_line (pre ++ [b']) = (b' =? 10)) as Hs by (unfold starts_line; by rewrite last_snoc). rewrite Hs in *.
      rewrite Ht. split; [done |]. rewrite <- !app_assoc in Hlen. done.
    + rewrite Hcl, Hxy, <- app_assoc, zlen_app, Z.add_assoc. destruct (shift_down_spec y pre x stale) as (z' & -> & Hl); [by intros ->; apply Hx |].
      replace (zlen pre + zlen x + zlen y - zlen x) with (zlen pre + zlen y) by lia. rewrite Hxy, length_app in Hf. unfold zlen in Hx.
      destruct (IH pre y z') as (c' & Ht & Hlen); [lia |]. exists c'. split; [done |]. rewrite Hlen, !length_app. lia.
Qed.

(** ** By lines *)

Definition no_newline (l : list Z) : Prop := Forall (fun b => b <> 10) l.
(** A line without its carriage returns, and without the blanks around it: those before the
    first other character, where carriage returns do not count, and those after the last. *)
Definition lstrip (l : list Z) : list Z := drop (span (skipped_byte true) l) l.
Fixpoint rstrip (l : list Z) : list Z :=
  match l with [] => [] | b :: l' => if forallb is_blank l then [] else b :: rstrip l' end.
Definition clean_line (l : list Z) : list Z := filter (fun b => b <> 13) (rstrip (lstrip l)).

Lemma before_newline_line l r : no_newline l -> before_newline (l ++ 10 :: r) = forallb is_blank l.
Proof.
  induction 1 as [|b l Hb HF IH]; [done |]. cbn [app before_newline forallb]. rewrite IH.
  destruct (is_blank b); [done |]. by rewrite (proj2 (Z.eqb_neq b 10)).
Qed.
Lemma clean_middle l r : no_newline l -> clean false (l ++ 10 :: r) = filter (fun b => b <> 13) (rstrip l) ++ 10 :: clean true r.
Proof.
  induction 1 as [|b l Hb HF IH]; [done |]. cbn [app clean rstrip forallb]. rewrite before_newline_line by done. cbn [orb].
  destruct (Z.eqb_spec b 13) as [->|H13]; cbn [orb].
  - change (is_blank 13) with false. cbn [andb]. rewrite filter_cons_False by naive_solver. exact IH.
  - destruct (is_blank b) eqn:Eb; cbn [andb]; [|rewrite (proj2 (Z.eqb_neq b 10)), IH by done; by rewrite filter_cons_True].
    destruct (forallb is_blank l) eqn:Ef; [|rewrite (proj2 (Z.eqb_neq b 10)), IH by done; by rewrite filter_cons_True].
    rewrite IH. assert (rstrip l = []) as -> by (destruct l; [done |]; cbn [rstrip]; by rewrite Ef). done.
Qed.
Lemma clean_first l r : no_newline l -> clean true (l ++ 10 :: r) = clean_line l ++ 10 :: clean true r.
Proof.
  intros HF. unfold clean_line, lstrip. rewrite <- (take_drop (span (skipped_byte true) l) l) in HF |- * at 1. apply Forall_app in HF as [_ HF].
  rewrite <- app_assoc, clean_skipped by apply span_forall. pose proof (span_next (skipped_byte true) l) as Hn.
  set (d := drop _ l) in *. clearbody d. destruct d as [|b d]; [done |]. apply Forall_cons in HF as [Hb HF].
  unfold skipped_byte in Hn. apply orb_false_iff in Hn as [H13 Hbl]. cbn [andb] in Hbl. cbn [app clean]. rewrite H13, Hbl. cbn [andb orb].
  rewrite (proj2 (Z.eqb_neq b 10)) by done. rewrite clean_middle by done. cbn [rstrip forallb]. rewrite Hbl. cbn [andb].
  by rewrite filter_cons_True by (apply Z.eqb_neq in H13; done).
Qed.

Fixpoint text_of_lines (ls : list (list Z)) : list Z :=
  match ls with [] => [] | l :: ls => l ++ 10 :: text_of_lines ls end.
Lemma clean_lines ls : Forall no_newline ls -> clean true (text_of_lines ls ++ [0]) = text_of_lines (clean_line <$> ls) ++ [0].
Proof.
  induction 1 as [|l ls Hl HF IH]; [done |]. cbn [text_of_lines fmap list_fmap]. rewrite <- !app_assoc. cbn [app].
  by rewrite clean_first, IH.
Qed.
