(* ===== verification/ConfigMacros.v ===== *)
(** Macros: a text is lines that define macros and lines of characters and uses; what the two
    passes over it leave is the lines of characters, with the values in the place of the uses. *)

From S2P Require Import Prelude Libc LibcCorrect Guid Blake2b Config ConfigText.
Import Libc Guid Config.

(** * Texts *)

Inductive piece := Chr (b : Z) | Use (name : list Z).
Inductive line := Text (ps : list piece) | Define (name value : list Z).

Definition piece_text (p : piece) : list Z := match p with Chr b => [b] | Use name => 36 :: 123 :: name ++ [125] end.
Fixpoint pieces_text (ps : list piece) : list Z := match ps with [] => [] | p :: ps => piece_text p ++ pieces_text ps end.
Definition line_text (l : line) : list Z :=
  match l with Text ps => pieces_text ps | Define name value => 36 :: 123 :: name ++ 125 :: 61 :: value end.
(** The lines after the first. *)
Fixpoint rest_text (ls : list line) : list Z := match ls with [] => [] | l :: ls => 10 :: line_text l ++ rest_text ls end.
(** The text as it is cleaned up: its last line ends, and a 0 follows. *)
Definition doc_text (first : line) (rest : list line) : list Z := line_text first ++ rest_text rest ++ [10; 0].

(** Names and values fit their arrays. A dollar sign that does not start a use is not followed by
    a brace, and what looks like a definition is one. *)
Definition ok_name (n : list Z) : Prop := Forall (fun b => 0 < b < 256 /\ b <> 125 /\ b <> 10) n /\ zlen n <= 1023.
Definition ok_value (v : list Z) : Prop := Forall (fun b => 0 < b < 256 /\ b <> 10) v /\ zlen v <= 2047.
Fixpoint ok_pieces (ps : list piece) : Prop :=
  match ps with
  | [] => True
  | Chr b :: ps => 0 < b < 256 /\ b <> 10 /\ (b = 36 -> match ps with Chr c :: _ => c <> 123 | _ => True end) /\ ok_pieces ps
  | Use n :: ps => ok_name n /\ ok_pieces ps
  end.
Definition not_define (ps : list piece) : Prop := match ps with Use _ :: Chr b :: _ => b <> 61 | _ => True end.
Definition ok_line (l : line) : Prop :=
  match l with Text ps => ok_pieces ps /\ not_define ps | Define n v => ok_name n /\ ok_value v end.

#[export] Instance ok_name_dec n : Decision (ok_name n).
Proof. unfold ok_name. apply _. Defined.
#[export] Instance ok_value_dec v : Decision (ok_value v).
Proof. unfold ok_value. apply _. Defined.
#[export] Instance ok_pieces_dec ps : Decision (ok_pieces ps).
Proof. induction ps as [|[b|n] ps IH]; cbn [ok_pieces]; [apply _ | destruct ps as [|[] ?]; apply _ | apply _]. Defined.
#[export] Instance not_define_dec ps : Decision (not_define ps).
Proof. destruct ps as [|[b|n] [|[c|m] ps]]; cbn [not_define]; apply _. Defined.
#[export] Instance ok_line_dec l : Decision (ok_line l).
Proof. destruct l; cbn [ok_line]; apply _. Defined.

(** ** What they mean *)

Fixpoint defined (ls : list line) (ms : list macro) : list macro :=
  match ls with [] => ms | Text _ :: ls => defined ls ms | Define n v :: ls => defined ls ((n, v) :: ms) end.
(** The latest definition counts, wherever the use is; a macro without one is empty. *)
Fixpoint macro_value (ms : list macro) (name : list Z) : list Z :=
  match ms with [] => [] | (n, v) :: ms => if decide (n = name) then v else macro_value ms name end.
Definition piece_out (ms : list macro) (p : piece) : list Z := match p with Chr b => [b] | Use n => macro_value ms n end.
Fixpoint pieces_out (ms : list macro) (ps : list piece) : list Z :=
  match ps with [] => [] | p :: ps => piece_out ms p ++ pieces_out ms ps end.
Definition first_out (ms : list macro) (l : line) : list Z := match l with Text ps => pieces_out ms ps | Define _ _ => [] end.
Fixpoint rest_out (ms : list macro) (ls : list line) : list Z :=
  match ls with
  | [] => []
  | Text ps :: ls => 10 :: pieces_out ms ps ++ rest_out ms ls
  | Define _ _ :: ls => rest_out ms ls
  end.
(** A definition goes with its newline, except in the first line, which is left empty. *)
Definition doc_out (ms : list macro) (first : line) (rest : list line) : list Z := first_out ms first ++ rest_out ms rest ++ [10; 0].

(** * Reading at a position *)





Lemma memcmp_starts w : forall pre r i j p2, Forall (fun b => b <> inhabitant) w -> (forall k b, w !! k = Some b -> p2 (j + Z.of_nat k) = b) -> i + j = zlen pre ->
  (memcmp_loop (length w) (fun k => (pre ++ r).[i + k]) p2 j =? 0) = begins w r.
Proof.
  induction w as [|a w IH]; intros pre r i j p2 HF Hp Hj; cbn [length memcmp_loop begins]; [done |]. apply Forall_cons in HF as [Ha HF].
  assert (p2 j = a) as -> by (rewrite <- (Z.add_0_r j) at 1; by apply (Hp 0%nat)). rewrite Hj. destruct r as [|d r].
  - rewrite app_nil_r. assert (pre.[zlen pre] = inhabitant) as ->.
    { unfold aget, zlen. rewrite Nat2Z.id. by rewrite list_lookup_total_alt, lookup_ge_None_2. }
    rewrite (proj2 (Z.eqb_neq _ a)) by done. cbn [negb]. unfold cmp. by destruct (_ <? a).
  - rewrite aget_here. rewrite (Z.eqb_sym d a). destruct (Z.eqb_spec a d) as [->|Hne]; cbn [negb andb].
    + rewrite (cons_middle d pre r), app_assoc. apply (IH (pre ++ [d])); [done | | rewrite zlen_app; change (zlen [d]) with 1; lia].
      intros k b Hk. replace (j + 1 + Z.of_nat k) with (j + Z.of_nat (S k)) by lia. by apply Hp.
    + unfold cmp. by destruct (d <? a).
Qed.
Lemma looking_at_starts pre r s : Forall (fun b => b <> inhabitant) (bytes s) -> looking_at (pre ++ r) (zlen pre) s = begins (bytes s) r.
Proof.
  intros HF. unfold looking_at, memcmp. replace (Z.to_nat (zlen (bytes s))) with (length (bytes s)) by (unfold zlen; lia). apply memcmp_starts; [done | | lia].
  intros k b Hk. unfold lit. by rewrite Z.add_0_l, Nat2Z.id, Hk.
Qed.
Lemma starts_app w l r : (zlen l >=? zlen w) && begins w (l ++ r) = begins w l.
Proof.
  revert l; induction w as [|a w IH]; intros l; [cbn [begins]; rewrite andb_true_r; apply Z.geb_le, zlen_nonneg |].
  destruct l as [|b l]; cbn [begins app].
  - rewrite zlen_cons. change (zlen (@nil Z)) with 0. pose proof (zlen_nonneg w). by rewrite Z.geb_leb, (proj2 (Z.leb_gt _ _)) by lia.
  - rewrite !zlen_cons, <- (IH l). assert ((1 + zlen l >=? 1 + zlen w) = (zlen l >=? zlen w)) as -> by (rewrite !Z.geb_leb; destruct (Z.leb_spec (zlen w) (zlen l)); lia).
    destruct (a =? b); cbn [andb]; [done |]. apply andb_false_r.
Qed.

Definition at_start (pre : list Z) : bool := match pre with [] => true | _ => false end.
Lemma at_start_zlen pre : (zlen pre =? 0) = at_start pre.
Proof. destruct pre; [done |]. rewrite zlen_cons. pose proof (zlen_nonneg pre). apply Z.eqb_neq. lia. Qed.

Lemma macro_line_spec pre r stale : macro_line (pre ++ r ++ stale) (zlen pre + zlen r) (zlen pre) = begins [10; 36; 123] r || (at_start pre && begins [36; 123] r).
Proof.
  unfold macro_line. replace (zlen pre + zlen r - zlen pre) with (zlen r) by lia. rewrite at_start_zlen.
  rewrite looking_at_starts by (repeat constructor; done). change (bytes newline_mark) with [10; 36; 123]. change 3 with (zlen [10; 36; 123]). rewrite starts_app. f_equal.
  destruct pre; cbn [at_start andb]; [|by rewrite andb_false_r]. rewrite andb_true_r. change 2 with (zlen [36; 123]).
  rewrite <- (starts_app [36; 123] r stale). f_equal. apply (looking_at_starts [] (r ++ stale) "${"). repeat constructor; done.
Qed.

Lemma take_until_spec stop limit x : forall fuel pre d r acc, Forall (fun b => stop b = false) x -> stop d = true -> zlen acc + zlen x <= limit ->
  (length x <= fuel)%nat -> take_until fuel (pre ++ x ++ d :: r) stop limit (zlen pre) acc = Ret (acc ++ x, zlen pre + zlen x).
Proof.
  induction x as [|b x IH]; intros fuel pre d r acc HF Hd Hl Hf.
  - destruct fuel; cbn [take_until app]; rewrite aget_here, Hd, app_nil_r; change (zlen (@nil Z)) with 0; by rewrite Z.add_0_r.
  - apply Forall_cons in HF as [Hb HF]. destruct fuel as [|fuel]; [simpl in Hf; lia |]. cbn [take_until app]. rewrite aget_here, Hb. rewrite zlen_cons in *.
    pose proof (zlen_nonneg x). rewrite Z.geb_leb, (proj2 (Z.leb_gt _ _)) by lia. rewrite (cons_middle b pre), app_assoc.
    pose proof (IH fuel (pre ++ [b]) d r (acc ++ [b]) HF Hd) as Hi. rewrite !zlen_app, <- (app_assoc acc) in Hi. change (zlen [b]) with 1 in Hi.
    rewrite Hi by (simpl in Hf; lia). do 2 f_equal. lia.
Qed.
Lemma seek_brace_spec x : forall n pre r, Forall (fun b => b <> 125) x -> (length x < n)%nat ->
  seek_brace n (pre ++ x ++ 125 :: r) (zlen pre) = zlen pre + zlen x.
Proof.
  induction x as [|b x IH]; intros n pre r HF Hn; destruct n as [|n]; try (simpl in Hn; lia); cbn [seek_brace app]; rewrite aget_here.
  - change (zlen (@nil Z)) with 0. by rewrite Z.add_0_r.
  - apply Forall_cons in HF as [Hb HF]. rewrite (proj2 (Z.eqb_neq b 125)) by done. rewrite (cons_middle b pre), app_assoc.
    pose proof (IH n (pre ++ [b]) r HF) as Hi. rewrite zlen_app in Hi. change (zlen [b]) with 1 in Hi. rewrite Hi by (simpl in Hn; lia). rewrite zlen_cons. lia.
Qed.
Lemma seek_line_end_spec x : forall fuel pre d r size, Forall (fun b => line_end b = false) x -> line_end d = true -> (length x <= fuel)%nat ->
  zlen pre + zlen x < size -> seek_line_end fuel (pre ++ x ++ d :: r) size (zlen pre) = Ret (zlen pre + zlen x).
Proof.
  induction x as [|b x IH]; intros fuel pre d r size HF Hd Hf Hs.
  - destruct fuel; cbn [seek_line_end app]; rewrite aget_here, Hd; change (zlen (@nil Z)) with 0; by rewrite Z.add_0_r.
  - apply Forall_cons in HF as [Hb HF]. destruct fuel as [|fuel]; [simpl in Hf; lia |]. cbn [seek_line_end app]. rewrite aget_here, Hb. rewrite zlen_cons in *.
    pose proof (zlen_nonneg x). rewrite Z.geb_leb, (proj2 (Z.leb_gt _ _)) by lia. rewrite (cons_middle b pre), app_assoc.
    pose proof (IH fuel (pre ++ [b]) d r size HF Hd) as Hi. rewrite zlen_app in Hi. change (zlen [b]) with 1 in Hi. rewrite Hi by (simpl in Hf; lia). f_equal. lia.
Qed.
Lemma use_name_spec x : forall n pre r acc, Forall (fun b => name_end b = false) x -> (length x <= n)%nat ->
  use_name n (pre ++ x ++ 125 :: r) (zlen pre) acc = (acc ++ x, zlen pre + zlen x).
Proof.
  induction x as [|b x IH]; intros n pre r acc HF Hn.
  - rewrite app_nil_r. change (zlen (@nil Z)) with 0. rewrite Z.add_0_r. destruct n; [done |]. cbn [use_name app]. by rewrite aget_here.
  - apply Forall_cons in HF as [Hb HF]. destruct n as [|n]; [simpl in Hn; lia |]. cbn [use_name app]. rewrite aget_here, Hb. rewrite (cons_middle b pre), app_assoc.
    pose proof (IH n (pre ++ [b]) r (acc ++ [b]) HF) as Hi. rewrite !zlen_app, <- (app_assoc acc) in Hi. change (zlen [b]) with 1 in Hi.
    rewrite Hi by (simpl in Hn; lia). rewrite zlen_cons. f_equal. lia.
Qed.

(** * Shapes *)

Lemma rest_head ls : exists r, rest_text ls ++ [10; 0] = 10 :: r.
Proof. destruct ls as [|l ls]; [by exists [0] |]. by exists ((line_text l ++ rest_text ls) ++ [10; 0]). Qed.

Lemma name_ends n : ok_name n -> Forall (fun b => name_end b = false) n.
Proof. intros [HF _]. eapply Forall_impl; [exact HF |]. intros b (? & ? & ?). unfold name_end. by rewrite !(proj2 (Z.eqb_neq _ _)) by lia. Qed.
Lemma value_ends v : ok_value v -> Forall (fun b => line_end b = false) v.
Proof. intros [HF _]. eapply Forall_impl; [exact HF |]. intros b (? & ?). unfold line_end. by rewrite !(proj2 (Z.eqb_neq _ _)) by lia. Qed.
Lemma name_brace n : ok_name n -> Forall (fun b => b <> 125) n.
Proof. intros [HF _]. eapply Forall_impl; [exact HF |]. by intros b (? & ? & ?). Qed.
Lemma pieces_no_newline ps : ok_pieces ps -> no_newline (pieces_text ps).
Proof.
  induction ps as [|[b|n] ps IH]; cbn [ok_pieces pieces_text piece_text]; [constructor | intros (? & ? & ? & ?); constructor; [done | by apply IH] |].
  intros ([Hn _] & Hps). apply Forall_app. split; [|by apply IH]. do 2 (constructor; [done |]). apply Forall_app. split; [|by constructor].
  eapply Forall_impl; [exact Hn |]. by intros b (? & ? & ?).
Qed.
Lemma pieces_length ps : (length ps <= length (pieces_text ps))%nat.
Proof. induction ps as [|p ps IH]; cbn [pieces_text length]; [lia |]. rewrite length_app. destruct p; simpl; lia. Qed.
(** A text line that does not start with a use does not look like a definition. *)
Lemma pieces_start ps r : ok_pieces ps -> match ps with Use _ :: _ => True | _ => begins [36; 123] (pieces_text ps ++ 10 :: r) = false end.
Proof.
  destruct ps as [|[b|n] ps]; [done | | done]. intros (_ & _ & Hd & _). cbn [pieces_text piece_text app begins].
  destruct (Z.eqb_spec 36 b) as [<-|]; [|done]. specialize (Hd eq_refl). cbn [andb]. destruct ps as [|[c|n] ps]; [done | | done].
  cbn [pieces_text piece_text app begins]. by rewrite (proj2 (Z.eqb_neq 123 c)).
Qed.
(** What follows the use a text line begins with. *)
Lemma after_use n ps r : not_define (Use n :: ps) -> exists d r', pieces_text ps ++ 10 :: r = d :: r' /\ d <> 61.
Proof. destruct ps as [|[b|m] ps]; intros H; cbn [pieces_text piece_text app]; eauto. Qed.

(** The characters a definition begins with. *)
Definition mark (pre : list Z) : list Z := if at_start pre then [36; 123] else [10; 36; 123].
Lemma zlen_mark pre : after_mark (zlen pre) = zlen (pre ++ mark pre).
Proof. unfold after_mark, mark. rewrite at_start_zlen, zlen_app. by destruct (at_start pre). Qed.
Lemma mark_line pre r : begins [10; 36; 123] (mark pre ++ r) || (at_start pre && begins [36; 123] (mark pre ++ r)) = true.
Proof. unfold mark. by destruct (at_start pre). Qed.

(** * Loading *)

Definition load (fuel : nat) (pre r stale : list Z) (ms : list macro) : outcome (list macro) :=
  load_macros fuel (pre ++ r ++ stale) (zlen pre + zlen r) (zlen pre) ms.
Lemma load_at fuel pre x r stale ms i : i = zlen pre + zlen x ->
  load_macros fuel (pre ++ (x ++ r) ++ stale) (zlen pre + zlen (x ++ r)) i ms = load fuel (pre ++ x) r stale ms.
Proof. intros ->. unfold load. by rewrite !zlen_app, <- !app_assoc, Z.add_assoc. Qed.

Lemma load_step fuel pre b r stale ms : begins [10; 36; 123] (b :: r) || (at_start pre && begins [36; 123] (b :: r)) = false ->
  load (S fuel) pre (b :: r) stale ms = load fuel (pre ++ [b]) r stale ms.
Proof.
  intros Hm. unfold load at 1. cbn [load_macros]. rewrite macro_line_spec, Hm, (proj2 (Z.ltb_lt _ _)) by (rewrite zlen_cons; pose proof (zlen_nonneg r); lia).
  by apply (load_at fuel pre [b]).
Qed.
Lemma load_skip x : forall fuel pre r stale ms, no_newline x -> pre <> [] -> (length x <= fuel)%nat ->
  load fuel pre (x ++ r) stale ms = load (fuel - length x) (pre ++ x) r stale ms.
Proof.
  induction x as [|b x IH]; intros fuel pre r stale ms HF Hp Hf; cbn [app length] in *; [by rewrite app_nil_r, Nat.sub_0_r |].
  apply Forall_cons in HF as [Hb HF]. destruct fuel as [|fuel]; [lia |]. rewrite load_step.
  - rewrite IH; [by rewrite <- app_assoc | done | by destruct pre | lia].
  - destruct pre; [done |]. cbn [begins at_start]. by rewrite (proj2 (Z.eqb_neq 10 b)).
Qed.

(** A line that begins with a macro's name in braces. *)
Lemma load_mark fuel pre name r stale ms : ok_name name ->
  load (S fuel) pre (mark pre ++ name ++ 125 :: r) stale ms =
  (let c := pre ++ (mark pre ++ name ++ 125 :: r) ++ stale in let i := zlen (pre ++ mark pre ++ name) in
   let n := zlen pre + zlen (mark pre ++ name ++ 125 :: r) in
   if negb (c.[i + 1] =? 61) then load_macros fuel c n i ms
   else '(value, i) ← take_until (length c) c line_end (MACRO_VALUE_SIZE - 1) (i + 2) []; load_macros fuel c n i ((name, value) :: ms)).
Proof.
  intros Hn. set (c := pre ++ _ ++ stale). unfold load. cbn [load_macros]. rewrite macro_line_spec, mark_line, zlen_mark.
  rewrite (proj2 (Z.ltb_lt _ _)) by (rewrite !zlen_app, zlen_cons; pose proof (zlen_nonneg (mark pre)); pose proof (zlen_nonneg name); pose proof (zlen_nonneg r); lia).
  assert (c = (pre ++ mark pre) ++ name ++ 125 :: (r ++ stale)) as Hc by (unfold c; app_solve).
  fold c. rewrite Hc at 2. rewrite take_until_spec; [| by apply name_ends | done | destruct Hn as [_ Hn]; change (zlen (@nil Z)) with 0; unfold MACRO_NAME_SIZE; lia |].
  - cbn [mbind outcome_bind app]. rewrite <- zlen_app, <- app_assoc. cbv zeta.
    assert (c.[zlen (pre ++ mark pre ++ name)] = 125) as ->; [|done].
    rewrite Hc, <- app_assoc, app_assoc, app_assoc, <- (app_assoc pre). by rewrite aget_here.
  - rewrite Hc, !length_app. lia.
Qed.
Lemma load_define fuel pre name value r stale ms : ok_name name -> ok_value value ->
  load (S fuel) pre (mark pre ++ name ++ 125 :: 61 :: value ++ 10 :: r) stale ms =
  load fuel (pre ++ mark pre ++ name ++ 125 :: 61 :: value) (10 :: r) stale ((name, value) :: ms).
Proof.
  intros Hn Hv. rewrite load_mark by done. set (c := pre ++ _ ++ stale). set (p := pre ++ mark pre ++ name). cbv zeta.
  assert (c = (p ++ [125]) ++ 61 :: value ++ 10 :: r ++ stale) as Hc by (unfold c, p; app_solve).
  assert (c = (p ++ [125; 61]) ++ value ++ 10 :: r ++ stale) as Hc' by (unfold c, p; app_solve).
  rewrite (zlen_snoc p 125), (zlen_snoc2 p 125 61).
  rewrite Hc at 1. rewrite aget_here. cbn [Z.eqb Pos.eqb negb]. rewrite Hc' at 2.
  rewrite take_until_spec; [| by apply value_ends | done | destruct Hv as [_ Hv]; change (zlen (@nil Z)) with 0; unfold MACRO_VALUE_SIZE; lia | rewrite Hc', !length_app; lia].
  cbn [mbind outcome_bind app]. unfold c. replace (mark pre ++ name ++ 125 :: 61 :: value ++ 10 :: r) with ((mark pre ++ name ++ 125 :: 61 :: value) ++ 10 :: r) by app_solve.
  apply load_at. unfold p. rewrite !zlen_app, !zlen_cons. change (zlen (@nil Z)) with 0. lia.
Qed.
Lemma load_use fuel pre name d r stale ms : ok_name name -> d <> 61 ->
  load (S fuel) pre (mark pre ++ name ++ 125 :: d :: r) stale ms = load fuel (pre ++ mark pre ++ name) (125 :: d :: r) stale ms.
Proof.
  intros Hn Hd. rewrite load_mark by done. set (p := pre ++ mark pre ++ name). cbv zeta.
  assert ((pre ++ (mark pre ++ name ++ 125 :: d :: r) ++ stale).[zlen p + 1] = d) as ->.
  { rewrite (zlen_snoc p 125).
    replace (pre ++ (mark pre ++ name ++ 125 :: d :: r) ++ stale) with ((p ++ [125]) ++ d :: r ++ stale) by (unfold p; app_solve). by rewrite aget_here. }
  rewrite (proj2 (Z.eqb_neq d 61)) by done. cbn [negb]. rewrite (app_assoc (mark pre)). apply load_at. unfold p. by rewrite zlen_app.
Qed.

(** From the newline before a line, or from the start of the text, to the newline after it. *)
Definition line_mark (pre : list Z) : list Z := if at_start pre then [] else [10].
Definition defines (l : line) (ms : list macro) : list macro := match l with Text _ => ms | Define n v => (n, v) :: ms end.

Lemma load_text fuel pre ps r stale ms : ok_pieces ps -> not_define ps -> (pre = [] -> ps <> []) ->
  (length (line_mark pre ++ pieces_text ps) <= fuel)%nat ->
  exists fuel', (fuel - length (line_mark pre ++ pieces_text ps) <= fuel')%nat /\
  load fuel pre (line_mark pre ++ pieces_text ps ++ 10 :: r) stale ms = load fuel' (pre ++ line_mark pre ++ pieces_text ps) (10 :: r) stale ms.
Proof.
  intros Hok Hd He Hf. pose proof (pieces_no_newline _ Hok) as Hnn. pose proof (pieces_start ps r Hok) as Hst.
  destruct ps as [|[b|n] ps'] eqn:Eps.
  - destruct pre as [|a pre']; [by destruct He |]. destruct fuel as [|fuel]; [simpl in Hf; lia |]. exists fuel. split; [simpl; lia |].
    unfold line_mark. cbn [at_start app pieces_text]. rewrite load_step by done. done.
  - exists (fuel - length (line_mark pre ++ pieces_text ps))%nat. rewrite <- Eps in *. split; [lia |]. unfold line_mark in *. destruct pre as [|a pre'].
    + cbn [at_start app] in *. destruct (pieces_text ps) as [|d t] eqn:Et; [by rewrite Eps in Et |]. apply Forall_cons in Hnn as [Hd10 Hnn].
      destruct fuel as [|fuel]; [simpl in Hf; lia |]. cbn [app]. rewrite load_step.
      * rewrite load_skip; [done | done | done | simpl in Hf; lia].
      * cbn [at_start]. rewrite orb_false_iff. split; [cbn [begins]; by rewrite (proj2 (Z.eqb_neq 10 d)) by done |]. exact Hst.
    + cbn [at_start app] in *. destruct fuel as [|fuel]; [simpl in Hf; lia |]. rewrite load_step.
      * rewrite load_skip; [by rewrite <- app_assoc | done | done | simpl in Hf; lia].
      * cbn [at_start]. rewrite andb_false_l, orb_false_r. exact Hst.
  - destruct fuel as [|fuel]; [rewrite length_app in Hf; simpl in Hf; lia |]. destruct Hok as [Hn Hok]. destruct (after_use n ps' r Hd) as (d & r' & Hr' & Hd61).
    exists (fuel - length (125%Z :: pieces_text ps'))%nat. split; [unfold line_mark, mark in *; destruct (at_start pre); cbn [pieces_text piece_text] in *; rewrite ?length_app; simpl; rewrite ?length_app; simpl; lia |].
    assert (line_mark pre ++ pieces_text (Use n :: ps') ++ 10 :: r = mark pre ++ n ++ 125 :: d :: r') as ->.
    { rewrite <- Hr'. cbn [pieces_text piece_text app]. unfold line_mark, mark. destruct (at_start pre); app_solve. }
    rewrite load_use by done. rewrite <- Hr'. change (125 :: pieces_text ps' ++ 10 :: r) with ((125 :: pieces_text ps') ++ 10 :: r).
    rewrite load_skip; [| constructor; [done |]; by apply pieces_no_newline | unfold mark; by destruct pre |].
    + f_equal. unfold mark, line_mark. cbn [pieces_text piece_text]. destruct (at_start pre); app_solve.
    + rewrite length_app in Hf. cbn [pieces_text piece_text app] in Hf. simpl in Hf. rewrite !length_app in Hf. simpl in *. lia.
Qed.
Lemma load_line fuel pre l r stale ms : ok_line l -> (pre = [] -> line_text l <> []) ->
  (length (line_mark pre ++ line_text l) <= fuel)%nat ->
  exists fuel', (fuel - length (line_mark pre ++ line_text l) <= fuel')%nat /\
  load fuel pre (line_mark pre ++ line_text l ++ 10 :: r) stale ms = load fuel' (pre ++ line_mark pre ++ line_text l) (10 :: r) stale (defines l ms).
Proof.
  destruct l as [ps|n v]; cbn [line_text defines ok_line].
  - intros [Hok Hd] He Hf. apply load_text; try done. intros -> ->. by apply He.
  - intros [Hn Hv] _ Hf. destruct fuel as [|fuel]; [rewrite length_app in Hf; simpl in Hf; lia |]. exists fuel. split; [rewrite length_app; simpl; lia |].
    assert (line_mark pre ++ (36 :: 123 :: n ++ 125 :: 61 :: v) ++ 10 :: r = mark pre ++ n ++ 125 :: 61 :: v ++ 10 :: r) as ->.
    { unfold line_mark, mark. destruct (at_start pre); app_solve. }
    rewrite load_define by done. f_equal. unfold line_mark, mark. by destruct (at_start pre).
Qed.

Lemma load_rest ls : forall fuel pre stale ms, Forall ok_line ls -> pre <> [] -> (length (rest_text ls) + 2 <= fuel)%nat ->
  load fuel pre (rest_text ls ++ [10; 0]) stale ms = Ret (defined ls ms).
Proof.
  induction ls as [|l ls IH]; intros fuel pre stale ms HF Hp Hf.
  - destruct fuel as [|[|fuel]]; [simpl in Hf; lia.. |]. cbn [rest_text app defined].
    rewrite load_step by (by destruct pre). rewrite load_step by (by destruct pre). unfold load. change (zlen (@nil Z)) with 0.
    destruct fuel; cbn [load_macros]; by rewrite Z.add_0_r, Z.ltb_irrefl.
  - apply Forall_cons in HF as [Hl HF]. cbn [rest_text] in Hf. cbn [length] in Hf. rewrite length_app in Hf. destruct (rest_head ls) as [r Hr].
    assert (line_mark pre = [10]) as Hm by (unfold line_mark; by destruct pre).
    destruct (load_line fuel pre l r stale ms Hl) as (fuel' & Hf' & He); [done | rewrite Hm; simpl; lia |].
    rewrite Hm in He, Hf'. rewrite <- Hr in He. cbn [rest_text]. rewrite <- app_comm_cons, <- app_assoc. cbn [app] in He. rewrite He.
    rewrite IH; [destruct l; done | done | by destruct pre | cbn [app length] in Hf'; lia].
Qed.
(** An empty first line, and no macro at the start of the next. *)
Definition blank_start (ls : list line) : Prop :=
  match ls with Text (Use _ :: _) :: _ | Define _ _ :: _ => False | _ => True end.
Lemma blank_shape ls : Forall ok_line ls -> blank_start ls -> ls = [] \/ exists ps ls' r, ls = Text ps :: ls' /\ rest_text ls' ++ [10; 0] = 10 :: r /\
  rest_text ls ++ [10; 0] = 10 :: pieces_text ps ++ 10 :: r /\ ok_pieces ps /\ Forall ok_line ls' /\ begins [36; 123] (pieces_text ps ++ 10 :: r) = false.
Proof.
  intros HF Hb. destruct ls as [|l ls']; [by left |]. right. apply Forall_cons in HF as [Hl HF]. destruct l as [ps|]; [|done]. destruct Hl as [Hok _].
  destruct (rest_head ls') as [r Hr]. exists ps, ls', r. split; [done |]. split; [done |]. split; [cbn [rest_text line_text app]; by rewrite <- app_assoc, Hr |].
  split; [done |]. split; [done |]. pose proof (pieces_start ps r Hok). by destruct ps as [|[]].
Qed.
Lemma load_blank ls fuel stale ms : Forall ok_line ls -> blank_start ls -> (length (rest_text ls) + 2 <= fuel)%nat ->
  load fuel [] (rest_text ls ++ [10; 0]) stale ms = Ret (defined ls ms).
Proof.
  intros HF Hb Hf. destruct (blank_shape ls HF Hb) as [->|(ps & ls' & r & -> & Hr & Hd & Hok & HF' & Hst)].
  - destruct fuel as [|[|fuel]]; [simpl in Hf; lia.. |]. cbn [rest_text app]. rewrite !load_step by done. unfold load.
    destruct fuel; cbn [load_macros]; by rewrite Z.add_0_r, Z.ltb_irrefl.
  - assert (length (rest_text (Text ps :: ls')) + 2 = S (length (pieces_text ps) + (length (rest_text ls') + 2)))%nat as Hlen by (simpl; rewrite length_app; lia).
    destruct fuel as [|fuel]; [lia |]. rewrite Hd, load_step by (cbn [at_start begins Z.eqb andb orb]; by rewrite orb_false_r). rewrite load_skip; [| by apply pieces_no_newline | done | lia].
    rewrite <- Hr, load_rest; [done | done | done | lia].
Qed.
Lemma load_doc first ls stale ms : Forall ok_line (first :: ls) -> (line_text first = [] -> blank_start ls) ->
  let c := doc_text first ls ++ stale in
  load_macros (length c) c (zlen (doc_text first ls)) 0 ms = Ret (defined (first :: ls) ms).
Proof.
  intros [Hl HF]%Forall_cons Hne c. destruct (rest_head ls) as [r Hr].
  destruct (decide (line_text first = [])) as [He|Hne'].
  { assert (first = Text []) as -> by (destruct first as [[|[] ?]|]; done). unfold c, doc_text. cbn [line_text pieces_text app defined].
    apply (load_blank ls _ stale ms); [done | by apply Hne |]. rewrite !length_app. simpl. lia. }
  destruct (load_line (length c) [] first r stale ms Hl) as (fuel & Hf & He); [done | unfold c, doc_text; rewrite !length_app; cbn; lia |].
  rewrite <- Hr in He. unfold load in He at 1. cbn [line_mark at_start app] in He. unfold c, doc_text in *. change (zlen (@nil Z)) with 0 in He. rewrite Z.add_0_l in He. rewrite He.
  rewrite load_rest; [by destruct first | done | done |]. cbn [line_mark at_start app] in Hf. rewrite !length_app in Hf. simpl in Hf. lia.
Qed.

(** * Expanding *)

Definition ok_macros (ms : list macro) : Prop := Forall (fun m => ok_name m.1 /\ ok_value m.2) ms.
Lemma defined_ok ls ms : Forall ok_line ls -> ok_macros ms -> ok_macros (defined ls ms).
Proof.
  intros HF. revert ms. induction HF as [|[ps|n v] ls Hl HF IH]; intros ms Hm; cbn [defined]; [done | by apply IH |]. apply IH. by constructor.
Qed.
Lemma find_macro_spec ms n : ok_macros ms -> ok_name n -> find_macro ms n = Ret (macro_value ms n).
Proof.
  intros HF [Hn Hl]. induction HF as [|[n' v] ms [[Hn' Hl'] _] HF IH]; [done |]. cbn [find_macro macro_value fst] in *.
  unfold strcmp. rewrite (strcmp_loop_spec _ _ _ 0 n' n).
  - cbn [mbind outcome_bind]. destruct (decide (n' = n)) as [->|Hne]; [by rewrite (proj2 (lex_zero_eq n n) eq_refl) |].
    destruct (Z.eqb_spec (lex n' n) 0) as [E|E]; [by apply lex_zero_eq in E | done].
  - apply cstr_tail0, cstr_zero_end. eapply Forall_impl; [exact Hn' |]. by intros b (? & _).
  - apply cstr_tail0, cstr_zero_end. eapply Forall_impl; [exact Hn |]. by intros b (? & _).
  - unfold zlen in Hl'. lia.
Qed.
Lemma macro_value_ok ms n : ok_macros ms -> ok_value (macro_value ms n).
Proof. induction 1 as [|[n' v] ms [_ Hv] HF IH]; cbn [macro_value]; [by split | by destruct (decide _)]. Qed.
Lemma value_text_spec v : ok_value v -> value_text v = Ret v.
Proof.
  intros [Hv Hl]. unfold value_text. rewrite (strlen_spec _ _ v).
  - cbn [mbind outcome_bind]. unfold zlen. by rewrite Nat2Z.id, firstn_all.
  - apply cstr_zero_end. eapply Forall_impl; [exact Hv |]. by intros b (? & _).
  - unfold zlen in Hl. lia.
Qed.

(** Bytes are added to the new text while they fit. *)
Definition emit (size : Z) (acc out : list Z) (k : list Z -> outcome (list Z)) : outcome (list Z) :=
  if zlen acc + zlen out <=? size then k (acc ++ out) else Panic.
Lemma emit_nil size acc k : zlen acc <= size -> emit size acc [] k = k acc.
Proof. intros H. unfold emit. change (zlen (@nil Z)) with 0. by rewrite Z.add_0_r, (proj2 (Z.leb_le _ _)), app_nil_r. Qed.
Lemma emit_app size acc a b k : emit size acc (a ++ b) k = emit size acc a (fun acc => emit size acc b k).
Proof.
  unfold emit. rewrite !zlen_app, Z.add_assoc, app_assoc. pose proof (zlen_nonneg b).
  destruct (Z.leb_spec (zlen acc + zlen a) size); [done |]. by rewrite (proj2 (Z.leb_gt _ _)) by lia.
Qed.
Lemma emit_ext size acc out k k' : (forall acc', zlen acc' <= size -> k acc' = k' acc') -> emit size acc out k = emit size acc out k'.
Proof. intros H. unfold emit. destruct (Z.leb_spec (zlen acc + zlen out) size); [|done]. apply H. by rewrite zlen_app. Qed.

Section expand.
Context (ms : list macro) (size : Z) (stale : list Z) (Hms : ok_macros ms).

Definition expand (fuel : nat) (pre r acc : list Z) : outcome (list Z) :=
  expand_macros fuel ms (pre ++ r ++ stale) (zlen pre + zlen r) size (zlen pre) acc.
Lemma expand_at fuel pre x r acc i : i = zlen pre + zlen x ->
  expand_macros fuel ms (pre ++ (x ++ r) ++ stale) (zlen pre + zlen (x ++ r)) size i acc = expand fuel (pre ++ x) r acc.
Proof. intros ->. unfold expand. by rewrite !zlen_app, <- !app_assoc, Z.add_assoc. Qed.

(** What happens where no definition begins. *)
Definition ordinary (fuel : nat) (c : list Z) (n i : Z) (acc : list Z) : outcome (list Z) :=
  if (n - i >=? 2) && looking_at c i "${" then
    let '(name, i) := use_name 1023 c (i + 2) [] in
    if negb (c.[i] =? 125) then Panic
    else
      value ← find_macro ms name;
      text ← value_text value;
      if zlen acc + zlen text >? size then Panic else expand_macros fuel ms c n size (i + 1) (acc ++ text)
  else if zlen acc >=? size then Panic
  else expand_macros fuel ms c n size (i + 1) (acc ++ [c.[i]]).

(** The position is not at a definition. *)
Definition plain (pre r : list Z) : Prop :=
  begins [10; 36; 123] r || (at_start pre && begins [36; 123] r) = false \/
  exists name d r', r = mark pre ++ name ++ 125 :: d :: r' /\ ok_name name /\ d <> 61.

Lemma find_brace pre name r : ok_name name ->
  seek_brace (Z.to_nat (zlen pre + zlen (mark pre ++ name ++ 125 :: r) - after_mark (zlen pre))) (pre ++ (mark pre ++ name ++ 125 :: r) ++ stale)
    (after_mark (zlen pre)) = zlen (pre ++ mark pre ++ name).
Proof.
  intros Hn. rewrite zlen_mark. replace (pre ++ (mark pre ++ name ++ 125 :: r) ++ stale) with ((pre ++ mark pre) ++ name ++ 125 :: r ++ stale) by app_solve.
  rewrite seek_brace_spec; [rewrite !zlen_app; lia | by apply name_brace |]. rewrite !zlen_app, zlen_cons. unfold zlen. lia.
Qed.
Lemma expand_plain fuel pre r acc : r <> [] -> plain pre r ->
  expand (S fuel) pre r acc = ordinary fuel (pre ++ r ++ stale) (zlen pre + zlen r) (zlen pre) acc.
Proof.
  intros Hne Hp. assert (0 < zlen r) by (destruct r; [done |]; rewrite zlen_cons; pose proof (zlen_nonneg r); lia).
  unfold expand. cbn [expand_macros]. rewrite macro_line_spec, (proj2 (Z.ltb_lt _ _)) by lia. destruct Hp as [->|(name & d & r' & -> & Hn & Hd)]; [done |].
  rewrite mark_line, find_brace by done. set (p := pre ++ mark pre ++ name). set (c := pre ++ _ ++ stale).
  assert (c = (p ++ [125]) ++ d :: r' ++ stale) as Hc by (unfold c, p; app_solve).
  assert (c.[zlen p + 1] = d) as -> by (rewrite (zlen_snoc p 125), Hc; by rewrite aget_here).
  rewrite (proj2 (Z.eqb_neq d 61)) by done. cbn [negb]. rewrite orb_true_r, Z.geb_leb, (proj2 (Z.leb_gt _ _)); [done |].
  unfold p. rewrite !zlen_app, !zlen_cons. pose proof (zlen_nonneg r'). lia.
Qed.

Lemma use_test pre r : (zlen pre + zlen r - zlen pre >=? 2) && looking_at (pre ++ r ++ stale) (zlen pre) "${" = begins [36; 123] r.
Proof.
  replace (zlen pre + zlen r - zlen pre) with (zlen r) by lia. rewrite looking_at_starts by (repeat constructor; done). apply (starts_app [36; 123]).
Qed.
Lemma expand_chr fuel pre b r acc : plain pre (b :: r) -> begins [36; 123] (b :: r) = false ->
  expand (S fuel) pre (b :: r) acc = emit size acc [b] (fun acc => expand fuel (pre ++ [b]) r acc).
Proof.
  intros Hp Hs. rewrite expand_plain by done. unfold ordinary. rewrite use_test, Hs. unfold emit. change (zlen [b]) with 1.
  rewrite Z.geb_leb. destruct (Z.leb_spec size (zlen acc)); [by rewrite (proj2 (Z.leb_gt _ _)) by lia |]. rewrite (proj2 (Z.leb_le _ _)) by lia.
  cbn [app]. rewrite aget_here. by apply (expand_at fuel pre [b]).
Qed.
Lemma expand_use fuel pre n r acc : plain pre (36 :: 123 :: n ++ 125 :: r) -> ok_name n ->
  expand (S fuel) pre (36 :: 123 :: n ++ 125 :: r) acc = emit size acc (macro_value ms n) (fun acc => expand fuel (pre ++ 36 :: 123 :: n ++ [125]) r acc).
Proof.
  intros Hp Hn. rewrite expand_plain by done. unfold ordinary. rewrite use_test. cbn [begins Z.eqb Pos.eqb andb]. set (c := pre ++ _ ++ stale).
  assert (c = (pre ++ [36; 123]) ++ n ++ 125 :: r ++ stale) as Hc by (unfold c; app_solve).
  rewrite (zlen_snoc2 pre 36 123). rewrite Hc at 1. rewrite use_name_spec; [| by apply name_ends | destruct Hn as [_ Hn]; unfold zlen in Hn; lia].
  assert (c.[zlen (pre ++ [36; 123]) + zlen n] = 125) as ->.
  { rewrite <- zlen_app, Hc, app_assoc. by rewrite aget_here. }
  cbn [Z.eqb Pos.eqb negb app]. rewrite find_macro_spec by done. cbn [mbind outcome_bind]. rewrite value_text_spec by (by apply macro_value_ok). cbn [mbind outcome_bind].
  unfold emit. rewrite Z.gtb_ltb. destruct (Z.ltb_spec size (zlen acc + zlen (macro_value ms n))); [by rewrite (proj2 (Z.leb_gt _ _)) by lia |].
  rewrite (proj2 (Z.leb_le _ _)) by lia. unfold c. replace (36 :: 123 :: n ++ 125 :: r) with ((36 :: 123 :: n ++ [125]) ++ r) by app_solve.
  apply expand_at. rewrite !zlen_app, !zlen_cons, zlen_app. change (zlen [125]) with 1. change (zlen (@nil Z)) with 0. lia.
Qed.
Lemma expand_define fuel pre n v r acc : ok_name n -> ok_value v ->
  expand (S fuel) pre (mark pre ++ n ++ 125 :: 61 :: v ++ 10 :: r) acc = expand fuel (pre ++ mark pre ++ n ++ 125 :: 61 :: v) (10 :: r) acc.
Proof.
  intros Hn Hv. unfold expand at 1. cbn [expand_macros]. rewrite macro_line_spec, mark_line, find_brace by done.
  set (p := pre ++ mark pre ++ n). set (c := pre ++ _ ++ stale).
  assert (c = (p ++ [125]) ++ 61 :: v ++ 10 :: r ++ stale) as Hc by (unfold c, p; app_solve).
  assert (c = (p ++ [125; 61]) ++ v ++ 10 :: r ++ stale) as Hc' by (unfold c, p; app_solve).
  assert (zlen pre + zlen (mark pre ++ n ++ 125 :: 61 :: v ++ 10 :: r) = zlen p + 3 + zlen v + zlen r) as Hz by (unfold p; rewrite !zlen_app, !zlen_cons, zlen_app, zlen_cons; lia).
  pose proof (zlen_nonneg r). pose proof (zlen_nonneg v). pose proof (zlen_nonneg p).
  rewrite (proj2 (Z.ltb_lt _ _)) by (rewrite Hz; unfold p; rewrite zlen_app; pose proof (zlen_nonneg (mark pre ++ n)); lia).
  rewrite Hz at 1. rewrite Z.geb_leb, (proj2 (Z.leb_gt _ _)) by lia. rewrite Hz at 1. rewrite Z.geb_leb, (proj2 (Z.leb_gt _ _)) by lia.
  rewrite (zlen_snoc p 125), (zlen_snoc2 p 125 61). rewrite Hc at 1. rewrite aget_here. cbn [Z.eqb Pos.eqb negb orb].
  rewrite Hc' at 2. rewrite seek_line_end_spec; [| by apply value_ends | done | rewrite Hc', !length_app; lia | rewrite Hz, zlen_app; change (zlen [125; 61]) with 2; lia].
  cbn [mbind outcome_bind]. unfold c. replace (mark pre ++ n ++ 125 :: 61 :: v ++ 10 :: r) with ((mark pre ++ n ++ 125 :: 61 :: v) ++ 10 :: r) by app_solve.
  apply expand_at. unfold p. rewrite !zlen_app, !zlen_cons. change (zlen (@nil Z)) with 0. lia.
Qed.

Lemma plain_inside pre b r : pre <> [] -> b <> 10 -> plain pre (b :: r).
Proof. intros Hp Hb. left. destruct pre; [done |]. cbn [begins at_start]. by rewrite (proj2 (Z.eqb_neq 10 b)). Qed.
(** At the start of a line of text. *)
Lemma plain_text pre ps r : ok_pieces ps -> not_define ps -> plain pre (line_mark pre ++ pieces_text ps ++ 10 :: r) \/ (pre = [] /\ ps = []).
Proof.
  intros Hok Hd. pose proof (pieces_start ps r Hok) as Hst. destruct ps as [|[b|n] ps'] eqn:Eps.
  - destruct pre; [by right |]. left. by left.
  - left. left. destruct pre as [|a pre]; unfold line_mark; cbn [at_start app].
    + rewrite Hst, orb_false_r. destruct Hok as (_ & Hb & _). cbn [pieces_text piece_text app begins]. by rewrite (proj2 (Z.eqb_neq 10 b)).
    + rewrite orb_false_r. exact Hst.
  - left. right. destruct (after_use n ps' r Hd) as (d & r' & Hr & Hd'). exists n, d, r'. destruct Hok as [Hn _]. split; [|done].
    rewrite <- Hr. unfold line_mark, mark. cbn [pieces_text piece_text]. destruct (at_start pre); app_solve.
Qed.

Lemma expand_piece fuel pre p r acc : plain pre (piece_text p ++ r) -> ok_pieces [p] -> match p with Chr _ => begins [36; 123] (piece_text p ++ r) = false | _ => True end ->
  expand (S fuel) pre (piece_text p ++ r) acc = emit size acc (piece_out ms p) (expand fuel (pre ++ piece_text p) r).
Proof.
  intros Hp Hok Hst. destruct p as [b|n]; cbn [piece_text piece_out] in *; [by apply expand_chr |].
  replace ((36 :: 123 :: n ++ [125]) ++ r) with (36 :: 123 :: n ++ 125 :: r) in * by app_solve. apply expand_use; [done | by destruct Hok].
Qed.
Lemma expand_pieces ps : forall fuel pre r acc, ok_pieces ps -> zlen acc <= size -> (pre = [] -> not_define ps) -> (length ps <= fuel)%nat ->
  expand fuel pre (pieces_text ps ++ 10 :: r) acc = emit size acc (pieces_out ms ps) (expand (fuel - length ps) (pre ++ pieces_text ps) (10 :: r)).
Proof.
  induction ps as [|p ps IH]; intros fuel pre r acc Hok Ha Hd Hf.
  - cbn [pieces_text pieces_out length app]. by rewrite emit_nil, app_nil_r, Nat.sub_0_r.
  - assert (plain pre (pieces_text (p :: ps) ++ 10 :: r)) as Hp.
    { destruct pre as [|a pre]; [by destruct (plain_text [] (p :: ps) r Hok (Hd eq_refl)) as [?|[_ ?]] |].
      destruct p as [b|n]; cbn [pieces_text piece_text app]; apply plain_inside; try done. by destruct Hok as (_ & ? & _). }
    pose proof (pieces_start (p :: ps) r Hok) as Hst.
    destruct fuel as [|fuel]; cbn [length] in Hf; [lia |]. cbn [pieces_text pieces_out] in *. rewrite <- app_assoc in *.
    rewrite expand_piece; [| done | destruct p; cbn [ok_pieces] in *; naive_solver | by destruct p].
    rewrite emit_app. apply emit_ext. intros acc' Ha'. rewrite IH.
    + cbn [length Nat.sub]. by rewrite <- app_assoc.
    + destruct p; [by destruct Hok as (_ & _ & _ & ?) | by destruct Hok].
    + done.
    + by destruct pre, p.
    + lia.
Qed.

(** What a line leaves: its text if it is one, after the newline before it. *)
Definition line_out (pre : list Z) (l : line) : list Z := match l with Text ps => line_mark pre ++ pieces_out ms ps | Define _ _ => [] end.
Definition line_steps (pre : list Z) (l : line) : nat := match l with Text ps => length (line_mark pre) + length ps | Define _ _ => 1 end.

Lemma expand_line fuel pre l r acc : ok_line l -> zlen acc <= size -> (line_steps pre l <= fuel)%nat ->
  expand fuel pre (line_mark pre ++ line_text l ++ 10 :: r) acc = emit size acc (line_out pre l) (expand (fuel - line_steps pre l) (pre ++ line_mark pre ++ line_text l) (10 :: r)).
Proof.
  destruct l as [ps|n v]; cbn [ok_line line_steps line_out line_text].
  - intros [Hok Hd] Ha Hf. pose proof (plain_text pre ps r Hok Hd) as Hp. unfold line_mark in *. destruct pre as [|a pre']; cbn [at_start app length] in *.
    + by rewrite expand_pieces.
    + destruct Hp as [Hp|[? _]]; [|done]. destruct fuel as [|fuel]; [lia |]. rewrite expand_chr by done.
      rewrite (emit_app _ _ [10] (pieces_out ms ps)). apply emit_ext. intros acc' Ha'.
      rewrite expand_pieces by (done || lia). cbn [Nat.add Nat.sub]. by rewrite <- app_assoc.
  - intros [Hn Hv] Ha Hf. destruct fuel as [|fuel]; [lia |]. cbn [Nat.sub]. rewrite emit_nil, Nat.sub_0_r by done.
    assert (line_mark pre ++ (36 :: 123 :: n ++ 125 :: 61 :: v) ++ 10 :: r = mark pre ++ n ++ 125 :: 61 :: v ++ 10 :: r) as ->.
    { unfold line_mark, mark. destruct (at_start pre); app_solve. }
    rewrite expand_define by done. f_equal. unfold line_mark, mark. by destruct (at_start pre).
Qed.
Lemma steps_le pre l : pre <> [] -> ok_line l -> (line_steps pre l <= S (length (line_text l)))%nat.
Proof.
  intros Hp Hok. destruct l as [ps|n v]; cbn [line_steps line_text]; [|simpl; lia]. unfold line_mark. destruct pre; [done |]. cbn [at_start length Nat.add]. pose proof (pieces_length ps). lia.
Qed.
Lemma expand_end fuel pre acc : plain pre [10; 0] -> expand (S (S fuel)) pre [10; 0] acc = emit size acc [10; 0] Ret.
Proof.
  intros Hp. rewrite expand_chr by done. rewrite (emit_app _ _ [10] [0]). apply emit_ext. intros acc' Ha'.
  rewrite expand_chr; [| left; by destruct pre | done]. apply emit_ext. intros acc'' _. unfold expand. change (zlen (@nil Z)) with 0.
  destruct fuel; cbn [expand_macros]; by rewrite Z.add_0_r, Z.ltb_irrefl.
Qed.
Lemma expand_rest ls : forall fuel pre acc, Forall ok_line ls -> zlen acc <= size -> pre <> [] -> (length (rest_text ls) + 2 <= fuel)%nat ->
  expand fuel pre (rest_text ls ++ [10; 0]) acc = emit size acc (rest_out ms ls ++ [10; 0]) Ret.
Proof.
  induction ls as [|l ls IH]; intros fuel pre acc HF Ha Hp Hf.
  - destruct fuel as [|[|fuel]]; [simpl in Hf; lia.. |]. apply expand_end. left. by destruct pre.
  - apply Forall_cons in HF as [Hl HF]. cbn [rest_text length] in *. rewrite length_app in Hf. destruct (rest_head ls) as [r Hr].
    assert (line_mark pre = [10]) as Hm by (unfold line_mark; by destruct pre). pose proof (steps_le pre l Hp Hl).
    pose proof (expand_line fuel pre l r acc Hl Ha) as He. rewrite Hm, <- Hr in He. rewrite <- app_comm_cons, <- app_assoc. cbn [app] in He. rewrite He by lia.
    assert (rest_out ms (l :: ls) = line_out pre l ++ rest_out ms ls) as ->.
    { destruct l; cbn [rest_out line_out]; [|done]. by rewrite Hm, <- app_assoc. }
    rewrite <- app_assoc, (emit_app _ _ (line_out pre l)). apply emit_ext. intros acc' Ha'. apply IH; [done | done | by destruct pre | lia].
Qed.
Lemma expand_blank ls fuel acc : Forall ok_line ls -> blank_start ls -> zlen acc <= size -> (length (rest_text ls) + 2 <= fuel)%nat ->
  expand fuel [] (rest_text ls ++ [10; 0]) acc = emit size acc (rest_out ms ls ++ [10; 0]) Ret.
Proof.
  intros HF Hb Ha Hf. destruct (blank_shape ls HF Hb) as [->|(ps & ls' & r & -> & Hr & Hd & Hok & HF' & Hst)].
  - destruct fuel as [|[|fuel]]; [simpl in Hf; lia.. |]. apply expand_end. by left.
  - assert (length (rest_text (Text ps :: ls')) + 2 = S (length (pieces_text ps) + (length (rest_text ls') + 2)))%nat as Hlen by (simpl; rewrite length_app; lia).
    pose proof (pieces_length ps). destruct fuel as [|fuel]; [lia |]. rewrite Hd, expand_chr; [| left; cbn [at_start begins Z.eqb andb orb]; by rewrite orb_false_r | done].
    cbn [rest_out]. rewrite <- app_comm_cons, <- app_assoc, (emit_app _ _ [10] (pieces_out ms ps ++ rest_out ms ls' ++ [10; 0])). apply emit_ext. intros acc' Ha'.
    rewrite expand_pieces by (done || lia). rewrite emit_app. apply emit_ext. intros acc'' Ha''. rewrite <- Hr. apply expand_rest; [done | done | done | lia].
Qed.
Lemma expand_doc first ls : 0 <= size -> Forall ok_line (first :: ls) -> (line_text first = [] -> blank_start ls) ->
  let c := doc_text first ls ++ stale in
  expand_macros (length c) ms c (zlen (doc_text first ls)) size 0 [] = emit size [] (doc_out ms first ls) Ret.
Proof.
  intros Hs [Hl HF]%Forall_cons Hne c. destruct (rest_head ls) as [r Hr].
  destruct (decide (line_text first = [])) as [He|Hne'].
  { assert (first = Text []) as -> by (destruct first as [[|[] ?]|]; done). unfold c, doc_text, doc_out. cbn [line_text pieces_text app first_out pieces_out].
    apply expand_blank; [done | by apply Hne | done |]. rewrite !length_app. simpl. lia. }
  assert (line_steps [] first <= length (line_text first))%nat as Hst.
  { destruct first as [ps|n v]; cbn [line_steps line_text]; [|simpl; lia]. unfold line_mark. cbn [at_start length Nat.add]. apply pieces_length. }
  pose proof (expand_line (length c) [] first r [] Hl Hs) as He. rewrite <- Hr in He. unfold expand in He at 1. cbn [line_mark at_start app] in He.
  change (zlen (@nil Z)) with 0 in He. rewrite Z.add_0_l in He. unfold c, doc_text in *. rewrite !length_app in *. rewrite He by lia.
  assert (doc_out ms first ls = line_out [] first ++ rest_out ms ls ++ [10; 0]) as -> by (destruct first; done).
  rewrite emit_app. apply emit_ext. intros acc' Ha'. apply expand_rest; [done | done | done |]. cbn [length]. lia.
Qed.
End expand.

(** * The two passes *)

Definition builtin (arch firmware : list Z) : list macro := [(bytes "FW_TYPE", firmware); (bytes "ARCH", arch)].
Lemma builtin_ok arch firmware : ok_value arch -> ok_value firmware -> ok_macros (builtin arch firmware).
Proof.
  intros Ha Hf. constructor; [split; [|done] | constructor; [split; [|done] | constructor]]; by apply (bool_decide_unpack _).
Qed.

Lemma macros_spec first rest stale arch firmware : Forall ok_line (first :: rest) -> (line_text first = [] -> blank_start rest) ->
  ok_value arch -> ok_value firmware ->
  let text := doc_text first rest in let c := text ++ stale in let ms := defined (first :: rest) (builtin arch firmware) in
  load_macros (length c) c (zlen text) 0 (builtin arch firmware) = Ret ms /\
  expand_macros (length c) ms c (zlen text) (zlen text * 4) 0 [] =
    if zlen (doc_out ms first rest) <=? zlen text * 4 then Ret (doc_out ms first rest) else Panic.
Proof.
  intros HF Hb Ha Hf text c ms. split; [by apply load_doc |]. unfold c, text. rewrite expand_doc; [done | | | done | done].
  - apply defined_ok; [done |]. by apply builtin_ok.
  - pose proof (zlen_nonneg (doc_text first rest)). lia.
Qed.

Lemma macro_value_defined ls : forall ms k v n, k <> n -> macro_value (defined ls ((k, v) :: ms)) n = macro_value (defined ls ms) n.
Proof.
  assert (forall ls ms, defined ls ms = defined ls [] ++ ms) as Hd.
  { intros l. induction l as [|[ps|n v] l IH]; intros ms; [done | apply IH |].
    cbn [defined]. etransitivity; [apply IH |]. etransitivity; [|symmetry; apply (f_equal (fun x => x ++ ms)), IH]. app_solve. }
  intros ms k v n Hne. rewrite Hd, (Hd _ ms). induction (defined ls []) as [|[k' v'] l IH]; cbn [app macro_value]; [by rewrite decide_False |].
  by rewrite IH.
Qed.
(** A definition after an empty first line. *)
Lemma load_second name value rest stale ms : ok_name (123 :: name) -> ok_value value -> Forall ok_line rest ->
  let text := doc_text (Text []) (Define name value :: rest) in let c := text ++ stale in
  load_macros (length c) c (zlen text) 0 ms = Ret (defined rest ((123 :: name, value) :: ms)).
Proof.
  intros Hn Hv HF text c. destruct (rest_head rest) as [r Hr].
  assert (text = [10; 36] ++ (123 :: name) ++ 125 :: 61 :: value ++ 10 :: r) as Ht.
  { unfold text, doc_text. cbn [line_text pieces_text rest_text app]. do 3 f_equal. rewrite <- Hr. app_solve. }
  assert (c = [10; 36] ++ (123 :: name) ++ 125 :: 61 :: value ++ 10 :: r ++ stale) as Hc by (unfold c; rewrite Ht; app_solve).
  set (p := [10; 36] ++ 123 :: name). assert (c = (p ++ [125; 61]) ++ value ++ 10 :: r ++ stale) as Hc2 by (rewrite Hc; unfold p; app_solve).
  assert (length c = S (length c - 1)) as Hl by (rewrite Hc; simpl; lia). rewrite Hl. cbn [load_macros].
  pose proof (macro_line_spec [] text stale) as Hm. change (zlen (@nil Z)) with 0 in Hm. rewrite Z.add_0_l in Hm. cbn [app] in Hm. fold c in Hm. rewrite Hm.
  assert (begins [10; 36; 123] text = true) as -> by (by rewrite Ht). cbn [orb].
  assert (0 < zlen text) as Hpos by (rewrite Ht, zlen_app; change (zlen [10; 36]) with 2; match goal with |- context [2 + zlen ?x] => pose proof (zlen_nonneg x) end; lia).
  rewrite (proj2 (Z.ltb_lt _ _)) by done. change (after_mark 0) with (zlen [10; 36]).
  rewrite Hc at 2. rewrite take_until_spec; [| by apply name_ends | done | destruct Hn as [_ Hn]; change (zlen (@nil Z)) with 0; unfold MACRO_NAME_SIZE; lia | rewrite Hc, !length_app; lia].
  cbn [mbind outcome_bind]. rewrite <- zlen_app. fold p.
  assert (c.[zlen p] = 125) as -> by (rewrite Hc2, <- app_assoc; cbn [app]; by rewrite aget_here).
  assert (c.[zlen p + 1] = 61) as ->.
  { rewrite (zlen_snoc p 125). replace c with ((p ++ [125]) ++ 61 :: value ++ 10 :: r ++ stale) by (rewrite Hc2; app_solve). by rewrite aget_here. }
  cbn [line_end Z.eqb Pos.eqb negb orb]. rewrite (zlen_snoc2 p 125 61). rewrite Hc2 at 2.
  rewrite take_until_spec; [| by apply value_ends | done | destruct Hv as [_ Hv]; change (zlen (@nil Z)) with 0; unfold MACRO_VALUE_SIZE; lia | rewrite Hc2, !length_app; lia].
  cbn [mbind outcome_bind app]. pose proof (load_rest rest (length c - 1) ((p ++ [125; 61]) ++ value) stale ((123 :: name, value) :: ms) HF) as Hlr.
  rewrite Hr in Hlr. unfold load in Hlr. replace (((p ++ [125; 61]) ++ value) ++ (10 :: r) ++ stale) with c in Hlr by (rewrite Hc2; app_solve).
  rewrite <- zlen_app in Hlr. replace (((p ++ [125; 61]) ++ value) ++ 10 :: r) with text in Hlr by (rewrite Ht; unfold p; app_solve).
  rewrite <- zlen_app. apply Hlr; [done |]. unfold c, text, doc_text. rewrite !length_app. cbn [line_text rest_text pieces_text length]. rewrite !length_app. simpl. rewrite length_app. simpl. lia.
Qed.
