(* ===== verification/ConfigValue.v ===== *)
(** Keys: looking one up in a text is looking for its line. *)

From S2P Require Import Prelude Libc LibcCorrect Guid Blake2b Config ConfigText.
Import Libc Guid Config.

(** * Lines and keys *)

(** [key:] at the start, in any case. *)
Fixpoint starts_ci (k l : list Z) : bool :=
  match k, l with [], _ => true | _, [] => false | a :: k, b :: l => (tolower b =? tolower a) && starts_ci k l end.
Definition has_key (k l : list Z) : bool := starts_ci k l && (default 0 (l !! length k) =? 58).
(** The value, after the colon. *)
Definition not_end (b : Z) : bool := negb (b =? 10).
Definition value_text_at (r : list Z) : list Z :=
  let r := drop (span is_blank r) r in take 4095 (take (span not_end r) r).
Definition line_value (k l : list Z) : list Z := value_text_at (drop (S (length k)) l).
(** The value the lookup of a key is to find: that of the line [index] of those with the key. *)
Definition lookup_key (k : list Z) (index : nat) (ls : list (list Z)) : option (list Z) :=
  line_value k <$> filter (fun l => has_key k l = true) ls !! index.

Definition ok_key (k : list Z) : Prop := k <> [] /\ Forall (fun b => 0 < b < 256 /\ b <> 10) k.
Definition ok_lines (ls : list (list Z)) : Prop := Forall (Forall (fun b => 0 < b < 256 /\ b <> 10)) ls.

(** The same over the characters, with the place of the value. *)
Fixpoint find_key (k : list Z) (bol : bool) (off : Z) (l : list Z) (index : Z) : option (list Z * Z) :=
  match l with
  | [] => None
  | b :: l' =>
      if bol && has_key k l then
        if index =? 0 then
          let r := drop (S (length k)) l in
          Some (value_text_at r, off + zlen k + 1 + Z.of_nat (span is_blank r))
        else find_key k (b =? 10) (off + 1) l' (index - 1)
      else find_key k (b =? 10) (off + 1) l' index
  end.

(** * The lookup *)

Lemma strncasecmp_starts k : forall s1 s2 i l, cstr (tail s1 i) l -> cstr (tail s2 i) k ->
  (strncasecmp_loop (length k) s1 s2 i =? 0) = starts_ci k l.
Proof.
  induction k as [|a k IH]; intros s1 s2 i l H1 H2; [done |]. cbn [length strncasecmp_loop starts_ci].
  rewrite (cstr_head _ _ _ H1). apply cstr_next in H2 as (-> & Ha & H2). destruct l as [|b l].
  - destruct (Z.eqb_spec (tolower 0) (tolower a)) as [E|E]; cbn [negb]; [|unfold cmp; by destruct (0 <? a)].
    change (tolower 0) with 0 in E. symmetry in E. apply tolower_zero in E; lia.
  - apply cstr_next in H1 as (_ & Hb & H1). destruct (Z.eqb_spec (tolower b) (tolower a)) as [E|E]; cbn [negb andb]; [|unfold cmp; by destruct (b <? a)].
    rewrite (proj2 (Z.eqb_neq b 0)) by lia. by apply IH.
Qed.
Lemma starts_ci_length k l : starts_ci k l = true -> (length k <= length l)%nat.
Proof. revert l; induction k as [|a k IH]; intros [|b l]; cbn [starts_ci length]; try done; [lia |]. intros [_ H]%andb_prop. apply IH in H. lia. Qed.

Section lookup.
Context (m : mem) (config : Z) (text : list Z) (Htext : cstr (str m config) text).

Lemma text_at pre r : text = pre ++ r -> m (config + zlen pre) = match r with [] => 0 | b :: _ => b end.
Proof.
  intros ->. destruct r as [|b r]; [rewrite app_nil_r in Htext; by destruct Htext |]. destruct Htext as [_ Ha _].
  rewrite <- (Ha (length pre) b); [done |]. rewrite lookup_app_r by lia. by rewrite Nat.sub_diag.
Qed.
Lemma text_tail pre r : text = pre ++ r -> cstr (str m (config + zlen pre)) r.
Proof.
  intros ->. pose proof (cstr_app (str m config) 0 pre r (cstr_tail0 _ _ Htext)) as H. eapply cstr_ext; [|exact H]. intros i Hi. unfold str, tail. f_equal. lia.
Qed.

Lemma skip_blanks_spec r : forall fuel pre, text = pre ++ r -> (length r <= fuel)%nat ->
  skip_blanks fuel m (config + zlen pre) = Ret (config + zlen pre + Z.of_nat (span is_blank r)).
Proof.
  induction r as [|b r IH]; intros fuel pre He Hf.
  - destruct fuel; cbn [skip_blanks]; rewrite (text_at _ _ He); cbn; by rewrite Z.add_0_r.
  - destruct fuel as [|fuel]; [simpl in Hf; lia |]. cbn [skip_blanks span]. rewrite (text_at _ _ He). destruct (is_blank b); [|by rewrite Z.add_0_r].
    pose proof (IH fuel (pre ++ [b])) as Hi. rewrite zlen_app in Hi. change (zlen [b]) with 1 in Hi. rewrite Z.add_assoc in Hi.
    rewrite Hi; [f_equal; lia | by rewrite <- app_assoc | simpl in Hf; lia].
Qed.
Lemma value_length_spec r : forall fuel p pre, text = pre ++ r -> (length r <= fuel)%nat -> 0 <= p ->
  value_length fuel m (config + zlen pre - p) p = Ret (p + Z.of_nat (span not_end r)).
Proof.
  induction r as [|b r IH]; intros fuel p pre He Hf Hp.
  - destruct fuel; cbn [value_length]; replace (config + zlen pre - p + p) with (config + zlen pre) by lia; rewrite (text_at _ _ He); cbn; by rewrite Z.add_0_r.
  - assert (0 < b < 256) as Hb by (destruct Htext as [HF _ _]; rewrite He, Forall_app, Forall_cons in HF; tauto).
    destruct fuel as [|fuel]; [simpl in Hf; lia |]. cbn [value_length span]. replace (config + zlen pre - p + p) with (config + zlen pre) by lia. rewrite (text_at _ _ He).
    assert (line_end b = negb (not_end b)) as -> by (unfold line_end, not_end; rewrite (proj2 (Z.eqb_neq b 0)), orb_false_r, negb_involutive by lia; done).
    destruct (not_end b); cbn [negb]; [|by rewrite Z.add_0_r].
    pose proof (IH fuel (p + 1) (pre ++ [b])) as Hi. rewrite zlen_app in Hi. change (zlen [b]) with 1 in Hi.
    replace (config + (zlen pre + 1) - (p + 1)) with (config + zlen pre - p) in Hi by lia.
    rewrite Hi; [f_equal; lia | by rewrite <- app_assoc | simpl in Hf; lia | lia].
Qed.
Lemma load_text_at pre r n : text = pre ++ r -> (n <= length r)%nat -> load_bytes m (config + zlen pre) n = take n r.
Proof.
  intros He Hn. pose proof (text_tail _ _ He) as [_ Ha _]. rewrite <- (load_bytes_at m (config + zlen pre) (take n r)).
  - by rewrite length_take, Nat.min_l.
  - intros k b Hk. apply lookup_take_Some in Hk as [Hk _]. by apply Ha.
Qed.

(** The value of a line that has the key. *)
Lemma value_found k fuel pre l : text = pre ++ l -> (length l <= S fuel)%nat -> has_key k l = true ->
  (p ← skip_blanks fuel m (config + zlen pre + zlen k + 1);
   value_len ← value_length fuel m p 0;
   let value_len := if value_len >=? CONFIG_VALUE_BUF_SIZE then CONFIG_VALUE_BUF_SIZE - 1 else value_len in
   Ret (Some (load_bytes m p (Z.to_nat value_len), p))) =
  Ret (Some (line_value k l, config + (zlen pre + zlen k + 1 + Z.of_nat (span is_blank (drop (S (length k)) l))))).
Proof.
  intros He Hf Eh.
  unfold has_key in Eh. apply andb_prop in Eh as [Es Ec]. apply starts_ci_length in Es as Hlen.
  set (x := take (S (length k)) l). set (y := drop (S (length k)) l). set (z := span is_blank y). set (w := drop z y).
  assert (S (length k) <= length l)%nat as Hl2.
  { destruct (decide (length k = length l)) as [E|E]; [|lia]. rewrite lookup_ge_None_2 in Ec by lia. done. }
  assert (text = (pre ++ x) ++ y) as Hy by (unfold x, y; by rewrite <- app_assoc, take_drop).
  assert (zlen (pre ++ x) = zlen pre + zlen k + 1) as Hx by (rewrite zlen_app; unfold x, zlen; rewrite length_take; lia).
  assert (length y <= fuel)%nat as Hyf by (unfold y; rewrite length_drop; lia).
  assert (text = (pre ++ x ++ take z y) ++ w) as Hw by (unfold w; rewrite <- !app_assoc, take_drop, Hy; by rewrite <- app_assoc).
  assert (zlen (pre ++ x ++ take z y) = zlen pre + zlen k + 1 + Z.of_nat z) as Hz.
  { rewrite app_assoc, zlen_app, Hx. unfold zlen. rewrite length_take. pose proof (span_le is_blank y). fold z in H. lia. }
  pose proof (skip_blanks_spec y fuel (pre ++ x) Hy Hyf) as Hsk. rewrite Hx in Hsk. fold z in Hsk.
  replace (config + zlen pre + zlen k + 1) with (config + (zlen pre + zlen k + 1)) by lia. rewrite Hsk. cbn [mbind outcome_bind].
  assert (length w <= fuel)%nat as Hwf by (unfold w; rewrite length_drop; lia).
  pose proof (value_length_spec w fuel 0 _ Hw Hwf ltac:(lia)) as Hvl. rewrite Hz, Z.sub_0_r, Z.add_0_l in Hvl.
  replace (config + (zlen pre + zlen k + 1) + Z.of_nat z) with (config + (zlen pre + zlen k + 1 + Z.of_nat z)) by lia. rewrite Hvl. cbn [mbind outcome_bind].
  pose proof (load_text_at _ w (Nat.min 4095 (span not_end w)) Hw) as Hld. rewrite Hz in Hld. pose proof (span_le not_end w).
  replace (Z.to_nat (if Z.of_nat (span not_end w) >=? CONFIG_VALUE_BUF_SIZE then CONFIG_VALUE_BUF_SIZE - 1 else Z.of_nat (span not_end w))) with (Nat.min 4095 (span not_end w))
    by (unfold CONFIG_VALUE_BUF_SIZE; rewrite Z.geb_leb; destruct (Z.leb_spec 4096 (Z.of_nat (span not_end w))); lia).
  rewrite Hld by lia. unfold line_value, value_text_at. fold y z w. rewrite take_take. done.
Qed.

Lemma value_loop_spec k key index r : forall fuel pre, ok_key k -> cstr key k -> text = pre ++ r -> (length r <= fuel)%nat -> 0 <= index ->
  value_loop fuel m config (zlen k) key (zlen pre) index =
  Ret ((fun x => (x.1, config + x.2)) <$> find_key k (starts_line pre) (zlen pre) r index).
Proof.
  revert index; induction r as [|b r IH]; intros index fuel pre Hk Hkey He Hf Hi.
  - destruct fuel; cbn [value_loop]; rewrite (text_at _ _ He); done.
  - assert (0 < b < 256) as Hb by (destruct Htext as [HF _ _]; rewrite He, Forall_app, Forall_cons in HF; tauto).
    destruct fuel as [|fuel]; [simpl in Hf; lia |]. cbn [length] in Hf. cbn [value_loop find_key]. rewrite (text_at _ _ He), (proj2 (Z.eqb_neq b 0)) by lia.
    assert (forall index, 0 <= index -> value_loop fuel m config (zlen k) key (zlen pre + 1) index =
      Ret ((fun x => (x.1, config + x.2)) <$> find_key k (b =? 10) (zlen pre + 1) r index)) as Hnext.
    { intros ix Hix. pose proof (IH ix fuel (pre ++ [b]) Hk Hkey) as H. rewrite zlen_app in H. change (zlen [b]) with 1 in H.
      unfold starts_line in H. rewrite last_snoc in H. apply H; [by rewrite <- app_assoc | lia | done]. }
    assert ((strncasecmp (str m (config + zlen pre)) key (zlen k) =? 0) && (m (config + zlen pre + zlen k) =? 58) = has_key k (b :: r)) as ->.
    { unfold strncasecmp, has_key. replace (Z.to_nat (zlen k)) with (length k) by (unfold zlen; lia). rewrite (strncasecmp_starts k _ _ _ (b :: r)); [| apply cstr_tail0, text_tail; done | by apply cstr_tail0].
      destruct (starts_ci k (b :: r)) eqn:Es; [|done]. cbn [andb]. apply starts_ci_length in Es. f_equal.
      pose proof (text_at (pre ++ take (length k) (b :: r)) (drop (length k) (b :: r))) as H. rewrite zlen_app, Z.add_assoc in H.
      replace (zlen (take (length k) (b :: r))) with (zlen k) in H by (unfold zlen; rewrite length_take; lia).
      rewrite H by (by rewrite <- app_assoc, take_drop). rewrite <- (Nat.add_0_r (length k)) at 2. rewrite <- lookup_drop. by destruct (drop _ _). }
    assert (negb (zlen pre =? 0) && negb (m (config + zlen pre - 1) =? 10) = negb (starts_line pre)) as ->.
    { unfold starts_line. destruct pre as [|a l _] using rev_ind; [done |]. rewrite last_snoc, zlen_app. change (zlen [a]) with 1.
      pose proof (zlen_nonneg l). rewrite (proj2 (Z.eqb_neq _ 0)) by lia. cbn [negb andb]. replace (config + (zlen l + 1) - 1) with (config + zlen l) by lia.
      rewrite (text_at l (a :: b :: r)) by (by rewrite He, <- app_assoc). done. }
    destruct (has_key k (b :: r)) eqn:Eh; rewrite ?andb_true_r, ?andb_false_r; [|by apply Hnext]. destruct (starts_line pre); cbn [negb]; [|by apply Hnext].
    destruct (Z.eqb_spec index 0) as [->|Hne]; cbn [negb]; [|apply Hnext; lia].
    etransitivity; [apply (value_found k fuel pre (b :: r)); [done | cbn [length]; lia | done] | done].
Qed.
End lookup.

(** * By lines *)

(** The values of the lines that have the key, and where they are. *)
Definition value_off (k l : list Z) : Z := zlen k + 1 + Z.of_nat (span is_blank (drop (S (length k)) l)).
Fixpoint key_lines (k : list Z) (off : Z) (ls : list (list Z)) : list (list Z * Z) :=
  match ls with
  | [] => []
  | l :: ls => (if has_key k l then [(line_value k l, off + value_off k l)] else []) ++ key_lines k (off + zlen l + 1) ls
  end.

Definition ok_line_text (l : list Z) : Prop := Forall (fun b => 0 < b < 256 /\ b <> 10) l.

Lemma starts_ci_newline k l r : Forall (fun b => 0 < b < 256 /\ b <> 10) k -> starts_ci k (l ++ 10 :: r) = starts_ci k l.
Proof.
  intros HF. revert l; induction HF as [|a k [Ha Hn] HF IH]; intros l; [done |]. destruct l as [|b l]; cbn [app starts_ci]; [|by rewrite IH].
  assert ((tolower 10 =? tolower a) = false) as ->; [|done]. apply Z.eqb_neq. change (tolower 10) with 10. unfold tolower. destruct (_ && _) eqn:E; lia.
Qed.
Lemma has_key_newline k l r : ok_key k -> has_key k (l ++ 10 :: r) = has_key k l.
Proof.
  intros [_ HF]. unfold has_key. rewrite starts_ci_newline by done. destruct (starts_ci k l) eqn:E; [|done]. cbn [andb]. apply starts_ci_length in E.
  destruct (decide (length k = length l)) as [->|]; [|by rewrite lookup_app_l by lia]. rewrite (lookup_ge_None_2 l) by lia. by rewrite list_lookup_middle.
Qed.
Lemma has_key_lt k l : has_key k l = true -> (length k < length l)%nat.
Proof.
  unfold has_key. intros [Hs Hc]%andb_prop. destruct (l !! length k) as [x|] eqn:E; [by apply lookup_lt_Some in E | done].
Qed.
Lemma span_blank_newline l r : span is_blank (l ++ 10 :: r) = span is_blank l.
Proof. induction l as [|b l IH]; [done |]. cbn [app span]. destruct (is_blank b); [by rewrite IH | done]. Qed.
Lemma value_newline l r : ok_line_text l -> value_text_at (l ++ 10 :: r) = value_text_at l.
Proof.
  intros HF. unfold value_text_at. rewrite span_blank_newline. pose proof (span_le is_blank l). rewrite drop_app_le by lia.
  set (d := drop (span is_blank l) l). assert (Forall (fun b => not_end b = true) d) as Hd.
  { unfold d. apply Forall_drop. eapply Forall_impl; [exact HF |]. intros b [_ Hb]. unfold not_end. by rewrite (proj2 (Z.eqb_neq b 10)). }
  rewrite (span_app not_end d (10 :: r)) by done. rewrite take_app_length. pose proof (span_app not_end d [] Hd I) as Hs. rewrite app_nil_r in Hs.
  by rewrite Hs, firstn_all.
Qed.
Lemma line_newline k l r : ok_line_text l -> has_key k l = true ->
  line_value k (l ++ 10 :: r) = line_value k l /\ value_off k (l ++ 10 :: r) = value_off k l.
Proof.
  intros HF Hk%has_key_lt. unfold line_value, value_off. rewrite drop_app_le by lia. by rewrite span_blank_newline, value_newline by by apply Forall_drop.
Qed.

Lemma find_key_inside k l r off index : no_newline l -> find_key k false off (l ++ 10 :: r) index = find_key k true (off + zlen l + 1) r index.
Proof.
  intros HF. revert off; induction HF as [|b l Hb HF IH]; intros off; cbn [app find_key andb].
  - change (zlen (@nil Z)) with 0. by rewrite Z.add_0_r.
  - rewrite (proj2 (Z.eqb_neq b 10)), IH by done. rewrite zlen_cons. f_equal. lia.
Qed.
Lemma find_key_lines k ls : ok_key k -> Forall ok_line_text ls -> forall off index, 0 <= index ->
  find_key k true off (text_of_lines ls) index = key_lines k off ls !! Z.to_nat index.
Proof.
  intros Hk HF. induction HF as [|l ls Hl HF IH]; intros off index Hi; [done |]. cbn [text_of_lines key_lines].
  assert (no_newline l) as Hnn by (eapply Forall_impl; [exact Hl |]; by intros b [_ ?]).
  assert (forall index, 0 <= index -> match l ++ 10 :: text_of_lines ls with [] => None | b :: l' => find_key k (b =? 10) (off + 1) l' index end = key_lines k (off + zlen l + 1) ls !! Z.to_nat index) as Hnext.
  { intros ix Hix. destruct l as [|b l]; cbn [app]; [rewrite IH by done; do 2 f_equal; unfold zlen; simpl; lia |].
    apply Forall_cons in Hnn as [Hb Hnn]. rewrite (proj2 (Z.eqb_neq b 10)), find_key_inside, IH by done. rewrite zlen_cons. do 2 f_equal. lia. }
  assert (find_key k true off (l ++ 10 :: text_of_lines ls) index = if has_key k l then if index =? 0 then Some (line_value k l, off + value_off k l)
    else key_lines k (off + zlen l + 1) ls !! Z.to_nat (index - 1) else key_lines k (off + zlen l + 1) ls !! Z.to_nat index) as ->.
  { rewrite <- (has_key_newline k l (text_of_lines ls)) by done. pose proof (line_newline k l (text_of_lines ls) Hl) as Hln. rewrite <- (has_key_newline k l (text_of_lines ls)) in Hln by done.
    rewrite <- (Hnext index) by done. destruct (Z.eqb_spec index 0) as [->|Hne]; [|rewrite <- (Hnext (index - 1)) by lia];
      (destruct (l ++ 10 :: text_of_lines ls) as [|b t] eqn:E; [by destruct l |]); cbn [find_key andb]; (destruct (has_key k (b :: t)); [|done]).
    - cbn [Z.eqb]. destruct (Hln eq_refl) as [<- <-]. unfold line_value, value_off. do 2 f_equal. lia.
    - by rewrite (proj2 (Z.eqb_neq index 0)). }
  destruct (has_key k l); cbn [app]; [|done]. destruct (Z.eqb_spec index 0) as [->|Hne]; [done |].
  replace (Z.to_nat index) with (S (Z.to_nat (index - 1))) by lia. done.
Qed.
Lemma key_lines_values k ls : forall off, (key_lines k off ls).*1 = line_value k <$> filter (fun l => has_key k l = true) ls.
Proof.
  induction ls as [|l ls IH]; intros off; [done |]. cbn [key_lines]. rewrite fmap_app, IH. destruct (has_key k l) eqn:E; [by rewrite filter_cons_True | by rewrite filter_cons_False by congruence].
Qed.
Lemma lookup_key_lines k i ls off : lookup_key k i ls = fst <$> key_lines k off ls !! i.
Proof. unfold lookup_key. by rewrite <- !list_lookup_fmap, key_lines_values. Qed.

(** The last line may end with the text. *)
Definition lines_of (text : list Z) (ls : list (list Z)) : Prop := text = text_of_lines ls \/ text ++ [10] = text_of_lines ls.

Lemma value_last l : value_text_at (l ++ [10]) = value_text_at l.
Proof.
  unfold value_text_at. rewrite span_blank_newline. pose proof (span_le is_blank l). rewrite drop_app_le by lia. set (d := drop _ l). f_equal.
  clearbody d. induction d as [|b d IH]; [done |]. cbn [app span]. destruct (not_end b); [|done]. cbn [take]. by rewrite IH.
Qed.
Lemma find_key_last k l : ok_key k -> forall bol off index, find_key k bol off (l ++ [10]) index = find_key k bol off l index.
Proof.
  intros Hk. induction l as [|b l IH]; intros bol off index.
  - cbn [app find_key]. rewrite (has_key_newline k [] [] Hk : has_key k [10] = _).
    assert (has_key k [] = false) as -> by (destruct Hk as [Hk _]; by destruct k). by rewrite andb_false_r.
  - cbn [app find_key]. rewrite !IH. rewrite app_comm_cons, (has_key_newline k (b :: l) [] Hk). destruct bol; cbn [andb]; [|done].
    destruct (has_key k (b :: l)) eqn:E; [|done].
    apply has_key_lt in E. rewrite drop_app_le by lia. by rewrite value_last, span_blank_newline.
Qed.
Lemma find_key_text k ls text index : ok_key k -> Forall ok_line_text ls -> lines_of text ls -> 0 <= index ->
  find_key k true 0 text index = key_lines k 0 ls !! Z.to_nat index.
Proof. intros Hk HF [->|He] Hi; [by apply find_key_lines |]. rewrite <- find_key_last, He by done. by apply find_key_lines. Qed.

Lemma get_value_spec fuel m g config a k key index text ls :
  g.(config_ready) = true -> default g.(config_addr) config = a -> cstr (str m a) text -> lines_of text ls -> Forall ok_line_text ls ->
  cstr key k -> ok_key k -> 0 <= index -> (length text <= fuel)%nat -> (length k <= fuel)%nat ->
  config_get_value fuel m g config index (Some key) =
  Ret (match key_lines k 0 ls !! Z.to_nat index with
       | None => (g, None)
       | Some (v, o) => ({| config_ready := true; config_addr := g.(config_addr); lastkey := a + o |}, Some v)
       end).
Proof.
  intros Hr Ha Ht Hls HF Hkey Hk Hi Hf Hfk. unfold config_get_value. rewrite Hr, Ha. cbn [negb]. rewrite (strlen_spec _ _ k) by done. cbn [mbind outcome_bind].
  pose proof (value_loop_spec m a text Ht k key index text fuel [] Hk Hkey eq_refl Hf Hi) as Hv. change (zlen (@nil Z)) with 0 in Hv. rewrite Hv.
  change (starts_line []) with true. rewrite (find_key_text k ls) by done. destruct (key_lines k 0 ls !! Z.to_nat index) as [[v o]|]; done.
Qed.

(** * Pairs *)

(** The lines up to the next one with the key. *)
Fixpoint until_key (k : list Z) (ls : list (list Z)) : list (list Z) :=
  match ls with [] => [] | l :: ls => if has_key k l then [] else l :: until_key k ls end.

Lemma key_lines_shift k off d ls : key_lines k (off + d) ls = prod_map id (Z.add d) <$> key_lines k off ls.
Proof.
  revert off; induction ls as [|l ls IH]; intros off; [done |]. cbn [key_lines]. rewrite fmap_app, <- IH. f_equal.
  - destruct (has_key k l); [|done]. unfold prod_map. cbn. do 2 f_equal. lia.
  - f_equal. lia.
Qed.
Lemma key_lines_app k off A B : key_lines k off (A ++ B) = key_lines k off A ++ key_lines k (off + zlen (text_of_lines A)) B.
Proof.
  revert off; induction A as [|l A IH]; intros off; cbn [app key_lines text_of_lines].
  - change (zlen (@nil Z)) with 0. by rewrite Z.add_0_r.
  - rewrite IH, <- app_assoc. do 3 f_equal. rewrite zlen_app, zlen_cons. lia.
Qed.
Lemma key_lines_after k off ls j v o : key_lines k off ls !! j = Some (v, o) -> off < o.
Proof.
  revert off j; induction ls as [|l ls IH]; intros off j; [done |]. cbn [key_lines]. unfold value_off. intros [H|[_ H]]%lookup_app_Some.
  - destruct (has_key k l); [|done]. destruct j; [|done]. injection H as _ <-. pose proof (zlen_nonneg k). lia.
  - apply IH in H. pose proof (zlen_nonneg l). lia.
Qed.
(** The value of a line is inside it. *)
Lemma value_off_le k l : has_key k l = true -> value_off k l <= zlen l.
Proof.
  intros H%has_key_lt. unfold value_off, zlen. pose proof (span_le is_blank (drop (S (length k)) l)) as Hs. rewrite length_drop in Hs. lia.
Qed.
(** Which of two keys comes first. *)
Lemma key_order k1 k2 ls off : Forall (fun l => has_key k1 l && has_key k2 l = false) ls ->
  match key_lines k2 off ls !! 0%nat, key_lines k1 off ls !! 0%nat with
  | Some (v2, o2), Some (_, o1) => if o2 >? o1 then None else Some v2
  | Some (v2, _), None => Some v2
  | None, _ => None
  end = lookup_key k2 0 (until_key k1 ls).
Proof.
  intros HF. revert off; induction HF as [|l ls Hl HF IH]; intros off; [done |]. cbn [key_lines until_key]. unfold lookup_key.
  destruct (has_key k1 l) eqn:E1; destruct (has_key k2 l) eqn:E2; [done | | |].
  - cbn [app lookup list_lookup]. destruct (key_lines k2 _ ls !! 0%nat) as [[v2 o2]|] eqn:Ek; [|done]. apply key_lines_after in Ek.
    apply value_off_le in E1. rewrite Z.gtb_ltb, (proj2 (Z.ltb_lt _ _)) by lia. done.
  - cbn [app lookup list_lookup]. rewrite filter_cons_True by done. cbn. destruct (key_lines k1 _ ls !! 0%nat) as [[v1 o1]|] eqn:Ek; [|done]. apply key_lines_after in Ek.
    apply value_off_le in E2. rewrite Z.gtb_ltb, (proj2 (Z.ltb_ge _ _)) by lia. done.
  - cbn [app]. rewrite filter_cons_False by congruence. apply IH.
Qed.

Lemma text_of_lines_app A B : text_of_lines (A ++ B) = text_of_lines A ++ text_of_lines B.
Proof. induction A as [|l A IH]; [done |]. cbn [app text_of_lines]. by rewrite IH, <- app_assoc. Qed.
(** The text from a place inside a line on. *)
Lemma lines_from text A l B o : lines_of text (A ++ l :: B) -> 0 <= o <= zlen l ->
  exists pre text', text = pre ++ text' /\ zlen pre = zlen (text_of_lines A) + o /\ lines_of text' (drop (Z.to_nat o) l :: B).
Proof.
  intros Hl Ho. set (n := Z.to_nat (zlen (text_of_lines A) + o)).
  assert (text_of_lines (A ++ l :: B) = (text_of_lines A ++ take (Z.to_nat o) l) ++ text_of_lines (drop (Z.to_nat o) l :: B)) as Ht.
  { rewrite text_of_lines_app. cbn [text_of_lines]. rewrite <- app_assoc. f_equal. by rewrite app_assoc, take_drop. }
  assert (zlen (text_of_lines A ++ take (Z.to_nat o) l) = zlen (text_of_lines A) + o) as Hz by (rewrite zlen_app; unfold zlen in *; rewrite length_take; lia).
  destruct Hl as [->|He]; [exists (text_of_lines A ++ take (Z.to_nat o) l), (text_of_lines (drop (Z.to_nat o) l :: B)); split; [done |]; split; [done |]; by left |].
  rewrite Ht in He. destruct (text_of_lines (drop (Z.to_nat o) l :: B)) as [|b t _] eqn:Et using rev_ind; [by destruct (drop (Z.to_nat o) l) |].
  rewrite app_assoc in He. apply app_inj_tail in He as [-> <-]. exists (text_of_lines A ++ take (Z.to_nat o) l), t. split; [done |]. split; [done |]. by right.
Qed.
Lemma key_lines_length k off ls : length (key_lines k off ls) = length (filter (fun l => has_key k l = true) ls).
Proof. by rewrite <- (length_fmap fst), key_lines_values, length_fmap. Qed.

Lemma get_tuple_spec fuel m g config a k1 k2 key1 key2 text A l B :
  g.(config_ready) = true -> default g.(config_addr) config = a -> cstr (str m a) text -> lines_of text (A ++ l :: B) -> Forall ok_line_text (A ++ l :: B) ->
  cstr key1 k1 -> ok_key k1 -> cstr key2 k2 -> ok_key k2 -> (length text <= fuel)%nat -> (length k1 <= fuel)%nat -> (length k2 <= fuel)%nat ->
  has_key k1 l = true -> has_key k2 (drop (Z.to_nat (value_off k1 l)) l) = false -> Forall (fun l => has_key k1 l && has_key k2 l = false) B ->
  exists g', config_get_tuple fuel m g config (zlen (filter (fun l => has_key k1 l = true) A)) key1 key2 =
    Ret (g', (Some (line_value k1 l), lookup_key k2 0 (until_key k1 B))).
Proof.
  intros Hr Ha Ht Hls HF Hc1 Hk1 Hc2 Hk2 Hf Hf1 Hf2 Hl Hv Hb. unfold config_get_tuple. set (index := zlen _).
  assert (0 <= index) by apply zlen_nonneg. set (offB := zlen (text_of_lines A) + zlen l + 1).
  assert (forall j, key_lines k1 0 (A ++ l :: B) !! (Z.to_nat index + j)%nat = ((line_value k1 l, zlen (text_of_lines A) + value_off k1 l) :: key_lines k1 offB B) !! j) as Hkl.
  { intros j. rewrite key_lines_app, lookup_app_r by (rewrite key_lines_length; unfold index, zlen; lia). rewrite key_lines_length.
    replace (Z.to_nat index + j - _)%nat with j by (unfold index, zlen; lia). cbn [key_lines]. rewrite Hl, Z.add_0_l. done. }
  rewrite (get_value_spec _ _ _ _ a k1 _ _ text (A ++ l :: B)) by done. rewrite <- (Nat.add_0_r (Z.to_nat index)), Hkl. cbn [lookup list_lookup mbind outcome_bind].
  set (g1 := {| config_ready := true; config_addr := g.(config_addr); lastkey := _ |}). cbn [lastkey g1]. apply value_off_le in Hl as Ho.
  destruct (lines_from text A l B (value_off k1 l) Hls) as (pre & text' & He & Hz & Hls'); [unfold value_off in *; pose proof (zlen_nonneg k1); lia |].
  assert (cstr (str m (a + (zlen (text_of_lines A) + value_off k1 l))) text') as Ht' by (rewrite <- Hz; by apply (text_tail m a text)).
  apply Forall_app in HF as HF'. destruct HF' as [_ HF']. apply Forall_cons in HF' as [HFl HFB].
  rewrite (get_value_spec _ _ g1 (Some (a + (zlen (text_of_lines A) + value_off k1 l))) (a + (zlen (text_of_lines A) + value_off k1 l)) k2 _ 0 text' (drop (Z.to_nat (value_off k1 l)) l :: B)); [| done.. | by constructor; [apply Forall_drop |] | done | done | done | | done];
    [|rewrite He, length_app in Hf; lia].
  cbn [key_lines]. rewrite Hv. cbn [app]. set (offv := 0 + zlen (drop (Z.to_nat (value_off k1 l)) l) + 1).
  assert (offB = offv + (zlen (text_of_lines A) + value_off k1 l)) as Hoff.
  { unfold offB, offv, zlen. rewrite length_drop. unfold value_off, zlen in *. lia. }
  pose proof (key_order k1 k2 B offB Hb) as Hord. rewrite Hoff in Hord at 1. rewrite key_lines_shift, list_lookup_fmap in Hord. change (Z.to_nat 0) with 0%nat.
  set (g2 := match key_lines k2 offv B !! 0%nat with None => (g1, None) | Some (v, o) => _ end).
  assert (exists g2' v2, g2 = (g2', v2) /\ config_ready g2' = true /\ config_addr g2' = config_addr g) as (g2' & v2 & Hg2 & Hr2 & Ha2).
  { unfold g2. destruct (key_lines k2 offv B !! 0%nat) as [[v o]|]; eauto. }
  rewrite Hg2. cbn [mbind outcome_bind]. rewrite (get_value_spec _ _ g2' config a k1 _ (index + 1) text (A ++ l :: B)); [| done | by rewrite Ha2 | done.. | lia | done | done].
  replace (Z.to_nat (index + 1)) with (Z.to_nat index + 1)%nat by lia. rewrite Hkl. change ((?x :: ?t) !! 1%nat) with (t !! 0%nat).
  rewrite <- Hord. unfold g2 in Hg2. destruct (key_lines k2 offv B !! 0%nat) as [[v o]|]; injection Hg2 as <- <-;
    destruct (key_lines k1 offB B !! 0%nat) as [[v3 o3]|]; cbn [mbind outcome_bind lastkey fmap option_fmap option_map prod_map id fst snd]; eauto.
  eexists. do 4 f_equal. rewrite !Z.gtb_ltb. destruct (Z.ltb_spec (a + o3) (a + (zlen (text_of_lines A) + value_off k1 l) + o)), (Z.ltb_spec o3 (zlen (text_of_lines A) + value_off k1 l + o)); first [done | lia].
Qed.
