(* ===== verification/ConfigMenu.v ===== *)
(** The menu: the tree that is read from a text is the tree that was written there. *)

From S2P Require Import Prelude Libc LibcCorrect Guid Blake2b Config ConfigText ConfigMacros ConfigValue.
Import Libc Guid Config.

(** * Trees and their text *)

(** An entry: whether a directory is shown open, the spaces before its name, its name, and its
    lines. *)
Record menu_item := { e_plus : bool; e_spaces : nat; e_name : list Z; e_body : list (list Z) }.
(** The first entry, what is below it, and the entries after it. *)
Inductive forest := Nil | Cons (e : menu_item) (sub rest : forest).

Definition title (depth : nat) (e : menu_item) : list Z :=
  replicate depth 47 ++ (if e.(e_plus) then [43] else []) ++ replicate e.(e_spaces) 32 ++ e.(e_name).
Definition entry_text (de : nat * menu_item) : list Z := title de.1 de.2 ++ 10 :: text_of_lines de.2.(e_body).
Fixpoint entries_text (es : list (nat * menu_item)) : list Z := match es with [] => [] | e :: es => entry_text e ++ entries_text es end.
(** The entries in the order of the text. *)
Fixpoint flat (depth : nat) (f : forest) : list (nat * menu_item) :=
  match f with Nil => [] | Cons e sub rest => (depth, e) :: flat (S depth) sub ++ flat depth rest end.
Fixpoint height (f : forest) : nat := match f with Nil => O | Cons _ sub rest => Nat.max (S (height sub)) (height rest) end.

Definition not_entry (l : list Z) : Prop := ok_line_text l /\ head l <> Some 47.
Definition ok_entry (e : menu_item) : Prop :=
  ok_line_text e.(e_name) /\ (match e.(e_name) with [] => False | b :: _ => b <> 47 /\ b <> 43 /\ b <> 32 end) /\ Forall not_entry e.(e_body).
Definition ok_flat (es : list (nat * menu_item)) : Prop := Forall (fun de => (0 < de.1)%nat /\ ok_entry de.2) es.

(** The text: lines before the first entry, the entries, and a 0. *)
Definition config_text (globals : list (list Z)) (es : list (nat * menu_item)) : list Z := text_of_lines globals ++ entries_text es ++ [0].

(** The menu that is to be read. The body begins with the newline of the title. *)
Fixpoint menu_of (f : forest) : list menu_entry :=
  match f with
  | Nil => []
  | Cons e sub rest =>
      Menu e.(e_name) (10 :: text_of_lines e.(e_body)) (lookup_key (bytes "COMMENT") 0 e.(e_body))
        (match sub with Nil => false | _ => e.(e_plus) end) (menu_of sub) :: menu_of rest
  end.

(** * Where entries are *)

Fixpoint entry_positions (bol : bool) (off : Z) (l : list Z) : list Z :=
  match l with
  | [] => []
  | b :: l => if b =? 0 then [] else if bol && (b =? 47) then off :: entry_positions false (off + 1) l else entry_positions (b =? 10) (off + 1) l
  end.
Definition not_slash (b : Z) : bool := negb (b =? 47) && negb (b =? 0).

Lemma seek_slash_chunk x : forall fuel pre d r, Forall (fun b => not_slash b = true) x -> not_slash d = false -> (length x <= fuel)%nat ->
  seek_slash fuel (pre ++ x ++ d :: r) (zlen pre) = Ret (if d =? 47 then Some (zlen pre + zlen x) else None).
Proof.
  induction x as [|b x IH]; intros fuel pre d r HF Hd Hf.
  - assert (d = 47 \/ d = 0) as Hd' by (unfold not_slash in Hd; destruct (Z.eqb_spec d 47), (Z.eqb_spec d 0); auto; done).
    destruct fuel; cbn [seek_slash app]; rewrite aget_here; change (zlen (@nil Z)) with 0; rewrite Z.add_0_r; by destruct Hd' as [-> | ->].
  - apply Forall_cons in HF as [Hb HF]. destruct fuel as [|fuel]; [simpl in Hf; lia |]. cbn [seek_slash app]. rewrite aget_here.
    unfold not_slash in Hb. apply andb_prop in Hb as [H47%negb_true_iff H0%negb_true_iff]. rewrite H47, H0. rewrite (cons_middle b pre), app_assoc.
    pose proof (IH fuel (pre ++ [b]) d r HF Hd) as Hi. rewrite <- (zlen_snoc pre b) in Hi. rewrite Hi by (simpl in Hf; lia). rewrite zlen_cons.
    destruct (d =? 47); [|done]. do 2 f_equal. lia.
Qed.
Lemma starts_line_snoc pre b : starts_line (pre ++ [b]) = (b =? 10).
Proof. unfold starts_line. by rewrite last_snoc. Qed.
Lemma positions_chunk x : forall pre y, Forall (fun b => not_slash b = true) x ->
  entry_positions (starts_line pre) (zlen pre) (x ++ y) = entry_positions (starts_line (pre ++ x)) (zlen (pre ++ x)) y.
Proof.
  induction x as [|b x IH]; intros pre y HF; [by rewrite app_nil_r |]. apply Forall_cons in HF as [Hb HF]. cbn [app entry_positions].
  unfold not_slash in Hb. apply andb_prop in Hb as [H47%negb_true_iff H0%negb_true_iff]. rewrite H47, H0, andb_false_r, (cons_middle b pre), app_assoc, <- IH by done.
  by rewrite starts_line_snoc, <- zlen_snoc.
Qed.
Lemma nth_entry_spec fuel : forall pre r index, 0 ∈ r -> (length r <= fuel)%nat -> 0 <= index ->
  nth_entry fuel (pre ++ r) (zlen pre) index = Ret (entry_positions (starts_line pre) (zlen pre) r !! Z.to_nat index).
Proof.
  induction fuel as [|fuel IH]; intros pre r index H0 Hf Hi; [destruct r; [by apply elem_of_nil in H0 | simpl in Hf; lia] |]. cbn [nth_entry].
  pose proof (span_forall not_slash r) as HF. pose proof (span_next not_slash r) as Hn. pose proof (take_drop (span not_slash r) r) as Hr.
  set (x := take (span not_slash r) r) in *. destruct (drop (span not_slash r) r) as [|d r'] eqn:Ed.
  { exfalso. rewrite app_nil_r in Hr. rewrite <- Hr in H0. rewrite Forall_forall in HF. by apply HF in H0. }
  rewrite <- Hr in *. clear Hr. rewrite seek_slash_chunk; [| done | done | rewrite !length_app; lia]. cbn [mbind outcome_bind]. rewrite positions_chunk by done.
  rewrite length_app in Hf. cbn [length] in Hf. cbn [entry_positions]. destruct (Z.eqb_spec d 47) as [->|Hd].
  - change (47 =? 0) with false. cbv iota. rewrite <- zlen_app, <- negb_orb. pose proof (bol_test (pre ++ x) (47 :: r') []) as Hb. rewrite app_nil_r, <- app_assoc in Hb. rewrite Hb.
    rewrite andb_true_r. rewrite (zlen_snoc (pre ++ x) 47). replace (pre ++ x ++ 47 :: r') with (((pre ++ x) ++ [47]) ++ r') by app_solve.
    assert (0 ∈ r') as H0' by (apply elem_of_app in H0 as [H0|H0]; [rewrite Forall_forall in HF; by apply HF in H0 | by apply elem_of_cons in H0 as [H0|H0]]).
    destruct (starts_line (pre ++ x)); cbn [negb].
    + destruct (Z.eqb_spec index 0) as [->|Hne]; [done |]. rewrite IH by (done || lia). rewrite starts_line_snoc. change (47 =? 10) with false.
      replace (Z.to_nat index) with (S (Z.to_nat (index - 1))) by lia. done.
    + rewrite IH by (done || lia). by rewrite starts_line_snoc.
  - assert (d = 0) as -> by (unfold not_slash in Hn; destruct (Z.eqb_spec d 47), (Z.eqb_spec d 0); done). done.
Qed.

Lemma positions_inside l y off : ok_line_text l -> entry_positions false off (l ++ 10 :: y) = entry_positions true (off + zlen l + 1) y.
Proof.
  intros HF. revert off; induction HF as [|b l [Hb Hn] HF IH]; intros off; cbn [app entry_positions andb].
  - change (zlen (@nil Z)) with 0. by rewrite Z.add_0_r.
  - rewrite (proj2 (Z.eqb_neq b 0)), (proj2 (Z.eqb_neq b 10)), IH by lia. rewrite zlen_cons. f_equal. lia.
Qed.
Lemma positions_line l y off : not_entry l -> entry_positions true off (l ++ 10 :: y) = entry_positions true (off + zlen l + 1) y.
Proof.
  intros [HF Hh]. destruct l as [|b l]; [unfold zlen; cbn [app entry_positions length Z.eqb andb]; by rewrite Z.add_0_r |]. apply Forall_cons in HF as [[Hb Hn] HF].
  cbn [app entry_positions andb]. rewrite (proj2 (Z.eqb_neq b 0)), (proj2 (Z.eqb_neq b 47)), (proj2 (Z.eqb_neq b 10)) by (cbn in Hh; congruence || lia).
  rewrite positions_inside by done. rewrite zlen_cons. f_equal. lia.
Qed.
Lemma positions_lines ls y off : Forall not_entry ls -> entry_positions true off (text_of_lines ls ++ y) = entry_positions true (off + zlen (text_of_lines ls)) y.
Proof.
  intros HF. revert off; induction HF as [|l ls Hl HF IH]; intros off; cbn [text_of_lines app].
  - change (zlen (@nil Z)) with 0. by rewrite Z.add_0_r.
  - rewrite <- app_assoc. cbn [app]. rewrite positions_line, IH by done. rewrite zlen_app, zlen_cons. f_equal. lia.
Qed.

Lemma title_ok d e : ok_entry e -> ok_line_text (title d e).
Proof.
  intros (Hn & _ & _). unfold title, ok_line_text. rewrite !Forall_app. split; [apply Forall_replicate; lia |]. split; [destruct (e_plus e); repeat constructor; lia |].
  split; [apply Forall_replicate; lia | done].
Qed.
Lemma title_length d e : ok_entry e -> (d < length (title d e))%nat.
Proof. intros (_ & Hn & _). unfold title. rewrite !length_app, length_replicate. destruct (e_name e); [done |]. simpl. lia. Qed.
Lemma entry_positions_text d e y off : (0 < d)%nat -> ok_entry e ->
  entry_positions true off (entry_text (d, e) ++ y) = off :: entry_positions true (off + zlen (entry_text (d, e))) y.
Proof.
  intros Hd He. pose proof (title_ok d e He) as Ht. unfold entry_text. cbn [fst snd]. destruct d as [|d]; [lia |].
  destruct (title (S d) e) as [|b t] eqn:E; [done |]. assert (b = 47) as -> by (unfold title in E; cbn [replicate app] in E; congruence).
  apply Forall_cons in Ht as [_ Ht]. destruct He as (_ & _ & Hb). rewrite <- app_assoc. cbn [app entry_positions andb Z.eqb Pos.eqb].
  rewrite positions_inside, positions_lines by done. rewrite zlen_cons, zlen_app, zlen_cons. do 2 f_equal. lia.
Qed.
Fixpoint offsets (off : Z) (es : list (nat * menu_item)) : list Z :=
  match es with [] => [] | e :: es => off :: offsets (off + zlen (entry_text e)) es end.
Lemma positions_entries es y off : ok_flat es -> entry_positions true off (entries_text es ++ 0 :: y) = offsets off es.
Proof.
  intros HF. revert off; induction HF as [|[d e] es [Hd He] HF IH]; intros off; [done |]. cbn [entries_text offsets]. rewrite <- app_assoc, entry_positions_text, IH by done. done.
Qed.
Lemma offsets_split A e B off : offsets off (A ++ e :: B) !! length A = Some (off + zlen (entries_text A)).
Proof.
  revert off; induction A as [|a A IH]; intros off; cbn [app offsets entries_text length]; [unfold zlen; cbn; by rewrite Z.add_0_r |].
  cbn. rewrite IH, zlen_app. f_equal. lia.
Qed.
Lemma length_offsets es off : length (offsets off es) = length es.
Proof. revert off; induction es as [|e es IH]; intros off; cbn [offsets length]; [done | by rewrite IH]. Qed.
Lemma entries_text_app A B : entries_text (A ++ B) = entries_text A ++ entries_text B.
Proof. induction A as [|a A IH]; [done |]. cbn [app entries_text]. by rewrite IH, <- app_assoc. Qed.

(** * Lines in place *)

Lemma line_length_spec x : forall fuel (p p0 : list Z) n r, no_newline x -> (length x <= fuel)%nat -> zlen p0 = n + zlen p ->
  0 <= n -> line_length fuel (p0 ++ x ++ 10 :: r) (zlen p) n = Ret (n + zlen x).
Proof.
  induction x as [|b x IH]; intros fuel p p0 n r HF Hf Hz Hn.
  - destruct fuel; cbn [line_length app]; rewrite (Z.add_comm (zlen p)), <- Hz, aget_here; change (zlen (@nil Z)) with 0; by rewrite Z.add_0_r.
  - apply Forall_cons in HF as [Hb HF]. destruct fuel as [|fuel]; [simpl in Hf; lia |]. cbn [line_length app]. rewrite (Z.add_comm (zlen p)), <- Hz, aget_here.
    rewrite (proj2 (Z.eqb_neq b 10)) by done. rewrite (cons_middle b p0), app_assoc. rewrite (IH fuel p); [rewrite zlen_cons; f_equal; lia | done | simpl in Hf; lia | rewrite <- zlen_snoc; lia | lia].
Qed.
Lemma slice_mid (p x r : list Z) : slice (p ++ x ++ r) (zlen p) (zlen x) = x.
Proof. unfold slice. rewrite drop_zlen by done. unfold zlen. by rewrite Nat2Z.id, take_app_length. Qed.
Lemma seek_end_spec x : forall fuel (p : list Z) d' r, Forall (fun b => line_end b = false) x -> line_end d' = true -> (length x <= fuel)%nat ->
  seek_end fuel (p ++ x ++ d' :: r) (zlen p) = Ret (zlen p + zlen x).
Proof.
  induction x as [|b x IH]; intros fuel p d' r HF Hd Hf.
  - destruct fuel; cbn [seek_end app]; rewrite aget_here, Hd; change (zlen (@nil Z)) with 0; by rewrite Z.add_0_r.
  - apply Forall_cons in HF as [Hb HF]. destruct fuel as [|fuel]; [simpl in Hf; lia |]. cbn [seek_end app]. rewrite aget_here, Hb. rewrite (cons_middle b p), app_assoc, (zlen_snoc p b), IH by (done || simpl in Hf; lia).
    rewrite <- zlen_snoc, zlen_cons. f_equal. lia.
Qed.

(** The length of an entry's text. *)
Fixpoint body_length (bol : bool) (l : list Z) : nat :=
  match l with [] => O | b :: l => if (b =? 0) || (bol && (b =? 47)) then O else S (body_length (b =? 10) l) end.
Lemma entry_end_spec r : forall fuel pre, pre <> [] -> 0 ∈ r -> (length r <= fuel)%nat ->
  entry_end fuel (pre ++ r) (zlen pre) = Ret (zlen pre + Z.of_nat (body_length (starts_line pre) r)).
Proof.
  induction r as [|b r IH]; intros fuel pre Hp H0 Hf; [by apply elem_of_nil in H0 |]. destruct fuel as [|fuel]; [simpl in Hf; lia |]. cbn [entry_end body_length].
  assert (starts_line pre = ((pre ++ b :: r).[zlen pre - 1] =? 10)) as Hs.
  { pose proof (bol_test pre (b :: r) []) as H. rewrite app_nil_r, at_start_zlen in H. rewrite <- H. by destruct pre. }
  rewrite aget_here, <- Hs. assert (b <> 0 -> entry_end fuel (pre ++ b :: r) (zlen pre + 1) = Ret (zlen pre + Z.of_nat (S (body_length (b =? 10) r)))) as Hnext.
  { intros Hb. rewrite (cons_middle b pre), app_assoc, (zlen_snoc pre b), IH; [| by destruct pre | apply elem_of_cons in H0 as [H0|H0]; [congruence | done] | simpl in Hf; lia].
    rewrite starts_line_snoc, <- zlen_snoc. f_equal. lia. }
  destruct (Z.eqb_spec b 0) as [->|Hb]; [cbn; by rewrite Z.add_0_r |]. specialize (Hnext Hb).
  destruct (Z.eqb_spec b 47) as [->|Hb47]; cbn [negb andb orb]; [|by rewrite andb_false_r]. rewrite andb_true_r.
  destruct (starts_line pre); cbn [negb]; [by rewrite Z.add_0_r | done].
Qed.
Lemma body_inside l y : ok_line_text l -> body_length false (l ++ 10 :: y) = (length l + S (body_length true y))%nat.
Proof. induction 1 as [|b l [Hb Hn] HF IH]; [done |]. cbn [app body_length andb length Nat.add]. rewrite orb_false_r, (proj2 (Z.eqb_neq b 0)), (proj2 (Z.eqb_neq b 10)), IH by lia. done. Qed.
Lemma body_lines ls y : Forall not_entry ls -> body_length true (text_of_lines ls ++ y) = (length (text_of_lines ls) + body_length true y)%nat.
Proof.
  induction 1 as [|l ls [Hl Hh] HF IH]; [done |]. cbn [text_of_lines]. rewrite <- app_assoc, length_app. cbn [app length]. destruct l as [|b l].
  - cbn [app body_length Z.eqb Pos.eqb andb orb length]. rewrite IH. lia.
  - apply Forall_cons in Hl as [[Hb Hn] Hl]. cbn [app body_length andb length]. rewrite (proj2 (Z.eqb_neq b 0)), (proj2 (Z.eqb_neq b 47)), (proj2 (Z.eqb_neq b 10)) by (cbn in Hh; congruence || lia).
    cbn [orb]. rewrite body_inside, IH by done. lia.
Qed.
Lemma body_stops es y : ok_flat es -> body_length true (entries_text es ++ 0 :: y) = O.
Proof.
  intros HF. destruct HF as [|[d e] es [Hd He] HF]; [done |]. cbn [entries_text]. unfold entry_text, title. cbn [fst snd] in *. destruct d; [lia |]. done.
Qed.

Section config.
Context (globals : list (list Z)) (es : list (nat * menu_item)) (stale : list Z).
Context (Hg : Forall not_entry globals) (Hes : ok_flat es).
Let c := config_text globals es ++ stale.

Lemma nth_entry_at index : 0 <= index -> nth_entry (length c) c 0 index = Ret (offsets (zlen (text_of_lines globals)) es !! Z.to_nat index).
Proof.
  intros Hi. pose proof (nth_entry_spec (length c) [] c index) as H. cbn [app] in H. change (zlen (@nil Z)) with 0 in H. rewrite H; [| | done | done].
  - change (starts_line []) with true. unfold c, config_text. rewrite <- !app_assoc. rewrite positions_lines by done. cbn [app]. by rewrite positions_entries.
  - unfold c, config_text. rewrite !elem_of_app. left. right. right. constructor.
Qed.

(** An entry in its place. *)
Section at_entry.
Context (A B : list (nat * menu_item)) (d : nat) (e : menu_item) (Hsplit : es = A ++ (d, e) :: B).
Let pre := text_of_lines globals ++ entries_text A.
Let post := entries_text B ++ 0 :: stale.

Lemma entry_here : (0 < d)%nat /\ ok_entry e.
Proof. rewrite Hsplit in Hes. apply Forall_app in Hes as [_ [H _]%Forall_cons]. done. Qed.
Lemma config_here : c = pre ++ title d e ++ 10 :: text_of_lines (e_body e) ++ post.
Proof. unfold c, config_text, pre, post. rewrite Hsplit, entries_text_app. cbn [entries_text]. unfold entry_text at 1. cbn [fst snd]. app_solve. Qed.
Lemma nth_here : nth_entry (length c) c 0 (zlen A) = Ret (Some (zlen pre)).
Proof. rewrite nth_entry_at by apply zlen_nonneg. replace (Z.to_nat (zlen A)) with (length A) by (unfold zlen; lia). rewrite Hsplit, offsets_split. unfold pre. by rewrite zlen_app. Qed.

Lemma get_entry_name_spec : config_get_entry_name c (zlen A) = Ret (Some (title d e)).
Proof.
  destruct entry_here as [_ He]. pose proof (title_ok d e He) as Ht. unfold config_get_entry_name. rewrite nth_here. cbn [mbind outcome_bind].
  rewrite config_here. rewrite line_length_spec; [| | rewrite !length_app; lia | lia | lia].
  - cbn [mbind outcome_bind]. rewrite Z.add_0_l. by rewrite slice_mid.
  - eapply Forall_impl; [exact Ht |]. by intros b [_ ?].
Qed.

Lemma get_entry_spec : config_get_entry c (zlen A) = Ret (Some (zlen (pre ++ title d e), zlen (10 :: text_of_lines (e_body e)))) /\
  slice c (zlen (pre ++ title d e)) (zlen (10 :: text_of_lines (e_body e))) = 10 :: text_of_lines (e_body e).
Proof.
  destruct entry_here as [Hd He]. pose proof (title_ok d e He) as Ht. pose proof (title_length d e He) as Hl. destruct He as (_ & _ & Hb).
  assert (c = (pre ++ title d e) ++ (10 :: text_of_lines (e_body e)) ++ post) as Hc by (rewrite config_here; app_solve).
  split; [|rewrite Hc; apply slice_mid]. unfold config_get_entry. rewrite nth_here. cbn [mbind outcome_bind].
  assert (seek_end (length c) c (zlen pre + 2) = Ret (zlen (pre ++ title d e))) as ->.
  { rewrite config_here. pose proof (seek_end_spec (drop 2 (title d e)) (length c) (pre ++ take 2 (title d e)) 10 (text_of_lines (e_body e) ++ post)) as Hs.
    rewrite config_here in Hs. rewrite <- app_assoc, (app_assoc (take 2 _)), take_drop in Hs. rewrite <- zlen_app, <- app_assoc, take_drop in Hs.
    replace (zlen (pre ++ take 2 (title d e))) with (zlen pre + 2) in Hs by (rewrite zlen_app; unfold zlen; rewrite length_take; lia).
    apply Hs; [|done |rewrite !length_app, length_drop; lia]. apply Forall_drop. eapply Forall_impl; [exact Ht |]. intros b (? & ?). unfold line_end. by rewrite !(proj2 (Z.eqb_neq _ _)) by lia. }
  cbn [mbind outcome_bind]. rewrite Hc. rewrite entry_end_spec.
  - cbn [mbind outcome_bind]. do 3 f_equal. cbn [app body_length Z.eqb Pos.eqb andb]. rewrite andb_false_r. cbn [orb].
    rewrite body_lines by done. unfold post. rewrite body_stops, zlen_cons; [unfold zlen; lia |]. rewrite Hsplit in Hes. by apply Forall_app in Hes as [_ [_ ?]%Forall_cons].
  - intros E. apply app_eq_nil in E as [_ E]. rewrite E in Hl. simpl in Hl. lia.
  - unfold post. rewrite !elem_of_app. right. right. constructor.
  - rewrite !length_app. lia.
Qed.
Lemma is_child_here cur : 0 <= cur -> is_child c cur (zlen A) = Ret (if Z.of_nat d <? cur then NOT_CHILD else if Z.of_nat d =? cur then DIRECT_CHILD else INDIRECT_CHILD).
Proof.
  intros Hcur. destruct entry_here as [Hd He]. pose proof (title_ok d e He) as Ht. pose proof (title_length d e He) as Hl.
  unfold is_child. rewrite get_entry_name_spec. cbn [mbind outcome_bind]. rewrite (strlen_spec _ _ (title d e)); [| | done].
  2: { apply cstr_zero_end. eapply Forall_impl; [exact Ht |]. by intros b [? _]. }
  cbn [mbind outcome_bind]. destruct He as (_ & Hn & _).
  assert (exists x t, title d e = replicate d 47 ++ x :: t /\ x <> 47) as (x & t & -> & Hx).
  { unfold title. destruct (e_plus e); [by eexists 43, _ |]. destruct (e_spaces e); [|by eexists 32, _]. destruct (e_name e) as [|b n]; [done |]. exists b, n. split; [done | tauto]. }
  rewrite zlen_app, zlen_cons, zlen_replicate. pose proof (zlen_nonneg t). destruct (Z.ltb_spec (Z.of_nat d) cur) as [Hlt|Hge].
  - destruct (_ <? _); [done |]. assert (forallb (fun b => b =? 47) (take (Z.to_nat cur) (replicate d 47 ++ x :: t)) = false) as ->; [|done].
    rewrite take_app_ge by (rewrite length_replicate; lia). rewrite forallb_app, length_replicate. destruct (Z.to_nat cur - d)%nat eqn:En; [lia |]. cbn [take forallb].
    by rewrite (proj2 (Z.eqb_neq x 47)), andb_false_r.
  - rewrite (proj2 (Z.ltb_ge _ _)) by lia. assert (forallb (fun b => b =? 47) (take (Z.to_nat cur) (replicate d 47 ++ x :: t)) = true) as ->.
    { rewrite take_app_le by (rewrite length_replicate; lia). rewrite take_replicate. clear. induction (Nat.min _ _); [done |]. done. }
    cbn [negb]. destruct (Z.eqb_spec (Z.of_nat d) cur) as [<-|Hne].
    + assert ((replicate d 47 ++ x :: t).[Z.of_nat d] = x) as ->; [|by rewrite (proj2 (Z.eqb_neq x 47))].
      rewrite <- (zlen_replicate d 47). apply aget_here.
    + rewrite aget_app_l by (rewrite zlen_replicate; lia). assert ((replicate d 47).[cur] = 47) as ->; [|done].
      unfold aget. apply list_lookup_total_correct. apply lookup_replicate_2. lia.
Qed.
Lemma menu_name_here : menu_name (title d e) (Z.of_nat d) = Ret (e_name e, e_plus e).
Proof.
  destruct entry_here as [_ (Hn & Hh & _)]. unfold menu_name.
  assert (forall n (l : list Z), drop_spaces (replicate n 32 ++ l) = drop_spaces l) as Hsp by (intros n l; induction n as [|n IHn]; [done |]; exact IHn).
  assert ((array_str (title d e) (Z.of_nat d) =? 43) = e_plus e) as ->.
  { unfold array_str, title. rewrite <- !app_assoc, <- (zlen_replicate d 47). destruct (e_plus e); cbn [app]; [by rewrite aget_here |].
    destruct (e_spaces e); cbn [replicate app]; [|by rewrite aget_here]. destruct (e_name e) as [|b n]; [done |]. cbn [app]. rewrite aget_here. apply Z.eqb_neq. tauto. }
  assert (drop (Z.to_nat (Z.of_nat d + b2z (e_plus e))) (title d e) = replicate (e_spaces e) 32 ++ e_name e) as ->.
  { unfold title. destruct (e_plus e); cbn [b2z app].
    - rewrite (cons_middle 43), app_assoc, drop_zlen; [done |]. rewrite zlen_app, zlen_replicate. done.
    - rewrite drop_zlen; [done |]. rewrite zlen_replicate. lia. }
  assert (drop_spaces (replicate (e_spaces e) 32 ++ e_name e) = e_name e) as ->.
  { rewrite Hsp. destruct (e_name e) as [|b n]; [done |]. cbn [drop_spaces]. by rewrite (proj2 (Z.eqb_neq b 32)) by tauto. }
  rewrite (strlen_spec _ _ (e_name e)); [| | done].
  - cbn [mbind outcome_bind]. unfold zlen. by rewrite Nat2Z.id, firstn_all.
  - apply cstr_zero_end. eapply Forall_impl; [exact Hn |]. by intros b [? _].
Qed.
End at_entry.

(** An entry by its index. *)
Lemma is_child_spec cur index : 0 <= cur -> 0 <= index ->
  is_child c cur index = Ret (match es !! Z.to_nat index with
    | None => NOT_CHILD
    | Some (d, _) => if Z.of_nat d <? cur then NOT_CHILD else if Z.of_nat d =? cur then DIRECT_CHILD else INDIRECT_CHILD
    end).
Proof.
  intros Hcur Hi. destruct (es !! Z.to_nat index) as [[d e]|] eqn:E.
  - apply take_drop_middle in E as Hs. symmetry in Hs. apply lookup_lt_Some in E. replace index with (zlen (take (Z.to_nat index) es)) at 1 by (unfold zlen; rewrite length_take; lia).
    by rewrite (is_child_here _ _ _ _ Hs).
  - unfold is_child, config_get_entry_name. rewrite nth_entry_at by done. rewrite lookup_ge_None_2; [done |]. rewrite length_offsets. by apply lookup_ge_None_1.
Qed.
End config.

(** * The tree *)

Lemma comment_spec b : Forall not_entry b -> menu_comment (10 :: text_of_lines b) = Ret (lookup_key (bytes "COMMENT") 0 b).
Proof.
  intros HF. assert (Forall ok_line_text b) as Hb by (eapply Forall_impl; [exact HF |]; by intros l [? _]).
  assert (Forall (fun x => 0 < x < 256) (10 :: text_of_lines b)) as Hbytes.
  { constructor; [done |]. clear HF. induction Hb as [|l ls Hl HF IH]; [done |]. cbn [text_of_lines]. apply Forall_app. split; [|by constructor].
    eapply Forall_impl; [exact Hl |]. by intros x [? _]. }
  set (body := 10 :: text_of_lines b) in *. assert (cstr (str (array_str body) 0) body) as Hc by (apply cstr_zero_end in Hbytes; exact Hbytes).
  assert (ok_key (bytes "COMMENT")) as Hk by (split; [done | by apply (bool_decide_unpack _)]).
  assert (cstr (lit "COMMENT") (bytes "COMMENT")) as Hl by (apply cstr_lit; by apply (bool_decide_unpack _)).
  unfold menu_comment. pose proof (value_loop_spec _ 0 body Hc _ _ 0 body (S (length body)) [] Hk Hl eq_refl ltac:(lia) ltac:(lia)) as Hv.
  change (zlen (bytes "COMMENT")) with 7 in Hv. change (zlen (@nil Z)) with 0 in Hv. rewrite Hv. cbn [mbind outcome_bind]. change (starts_line []) with true.
  rewrite (find_key_text _ ([] :: b)); [| done | constructor; [constructor | done] | by left | done]. rewrite (lookup_key_lines _ _ b 1).
  change (key_lines (bytes "COMMENT") 0 ([] :: b)) with (key_lines (bytes "COMMENT") 1 b). change (Z.to_nat 0) with 0%nat. by destruct (_ !! 0%nat) as [[v o]|].
Qed.

Lemma flat_depth f : forall d, Forall (fun de => (d <= de.1)%nat) (flat d f).
Proof.
  induction f as [|e sub IHs rest IHr]; intros d; cbn [flat]; [constructor |]. constructor; [done |]. apply Forall_app. split; [|by apply IHr].
  eapply Forall_impl; [apply IHs |]. cbn. intros. lia.
Qed.

Section tree.
Context (globals : list (list Z)) (es : list (nat * menu_item)) (stale : list Z).
Context (Hg : Forall not_entry globals) (Hes : ok_flat es).
Let c := config_text globals es ++ stale.

(** Entries further down are passed over. *)
Lemma tree_skip d S : forall fuel A B, es = A ++ S ++ B -> Forall (fun de => (d < de.1)%nat) S -> (length S <= fuel)%nat ->
  tree_loop fuel c (Z.of_nat d) (zlen A) = tree_loop (fuel - length S) c (Z.of_nat d) (zlen (A ++ S)).
Proof.
  induction S as [|[x e] S IH]; intros fuel A B He HF Hf; [by rewrite app_nil_r, Nat.sub_0_r |]. apply Forall_cons in HF as [Hx HF]. destruct fuel as [|fuel]; [simpl in Hf; lia |].
  cbn [tree_loop length Nat.sub]. unfold c. rewrite (is_child_here globals es stale Hg Hes A (S ++ B) x e He) by lia. cbn [fst] in Hx. rewrite (proj2 (Z.ltb_ge _ _)), (proj2 (Z.eqb_neq _ _)) by lia.
  cbn [mbind outcome_bind]. replace (zlen A + 1) with (zlen (A ++ [(x, e)])) by (by rewrite zlen_app). fold c. rewrite (IH fuel (A ++ [(x, e)]) B); [| by rewrite <- app_assoc | done | simpl in Hf; lia].
  by rewrite <- app_assoc.
Qed.
Definition ends (d : nat) (B : list (nat * menu_item)) : Prop := match B with [] => True | (x, _) :: _ => (x < d)%nat end.
Lemma tree_end d fuel A B : es = A ++ B -> ends d B -> tree_loop (S fuel) c (Z.of_nat d) (zlen A) = Ret [].
Proof.
  intros He Hb. cbn [tree_loop]. unfold c. rewrite (is_child_spec globals es stale Hg Hes) by (try apply zlen_nonneg; lia).
  replace (Z.to_nat (zlen A)) with (length A) by (unfold zlen; lia). rewrite He, lookup_app_r, Nat.sub_diag by lia. destruct B as [|[x e] B]; [done |].
  cbn in Hb. cbn [lookup list_lookup]. by rewrite (proj2 (Z.ltb_lt _ _)) by lia.
Qed.
Lemma is_directory_spec d A e sub rest B : es = A ++ (d, e) :: flat (S d) sub ++ flat d rest ++ B -> ends d B ->
  is_directory c (Z.of_nat d) (zlen A) = Ret (match sub with Nil => false | _ => true end).
Proof.
  intros He Hb. unfold is_directory, c. pose proof (zlen_nonneg A). rewrite (is_child_spec globals es stale Hg Hes) by lia.
  replace (Z.to_nat (zlen A + 1)) with (length A + 1)%nat by (unfold zlen; lia). rewrite He, lookup_app_r by lia.
  replace (length A + 1 - length A)%nat with 1%nat by lia. cbn [lookup list_lookup].
  assert (ends (S d) B) as Hb' by (destruct B as [|[x y] B]; [done |]; cbn in *; lia).
  destruct sub as [|se ss sr]; cbn [flat app lookup list_lookup].
  - destruct rest as [|re rs rr]; cbn [flat app lookup list_lookup].
    + destruct B as [|[x y] B]; [done |]. cbn [lookup list_lookup]. cbn in Hb'. by rewrite (proj2 (Z.ltb_lt _ _)) by lia.
    + by rewrite (proj2 (Z.ltb_lt _ _)) by lia.
  - rewrite (proj2 (Z.ltb_ge _ _)), (proj2 (Z.eqb_eq _ _)) by lia. done.
Qed.
Lemma tree_loop_spec f : forall d fuel A B, es = A ++ flat d f ++ B -> ends d B -> (0 < d)%nat -> (d + height f <= 65)%nat -> (length (flat d f) < fuel)%nat ->
  tree_loop fuel c (Z.of_nat d) (zlen A) = Ret (menu_of f).
Proof.
  induction f as [|e sub IHs rest IHr]; intros d fuel A B He Hb Hd Hh Hf; (destruct fuel as [|fuel]; [lia |]); cbn [flat app] in *; [by apply (tree_end d fuel A B) |].
  cbn [height length] in *. rewrite length_app in Hf. rewrite <- app_assoc in He. pose proof (is_child_here globals es stale Hg Hes A _ d e He (Z.of_nat d) ltac:(lia)) as Hc.
  pose proof (get_entry_name_spec globals es stale Hg Hes A _ d e He) as Hn. pose proof (menu_name_here es Hes A _ d e He) as Hm.
  destruct (get_entry_spec globals es stale Hg Hes A _ d e He) as [Hge Hsl]. pose proof (is_directory_spec d A e sub rest B He Hb) as Hdir.
  destruct (entry_here es Hes A _ d e He) as [_ (_ & _ & Hbody)]. fold c in Hc, Hn, Hge, Hsl.
  cbn [tree_loop]. rewrite Hc, Z.ltb_irrefl, Z.eqb_refl. cbn [mbind outcome_bind]. rewrite Hn. cbn [mbind outcome_bind default]. unfold default, from_option, id. rewrite Hm. cbn [mbind outcome_bind].
  rewrite Hge. cbn [mbind outcome_bind]. rewrite Hsl, Hdir. cbn [mbind outcome_bind]. rewrite comment_spec by done.
  assert (zlen A + 1 = zlen (A ++ [(d, e)])) as HzA by (by rewrite zlen_app). rewrite HzA. rewrite (cons_middle (d, e)), app_assoc in He.
  assert (tree_loop fuel c (Z.of_nat d) (zlen (A ++ [(d, e)])) = Ret (menu_of rest)) as Hrest.
  { rewrite (tree_skip d (flat (S d) sub) fuel _ _ He); [| eapply Forall_impl; [apply flat_depth |]; cbn; lia | lia].
    apply (IHr d _ _ B); [by rewrite <- app_assoc | done | done | lia | lia]. }
  assert (forall B', ends d B' -> ends (S d) B') as Hends by (intros [|[x y] B'] H'; [done |]; cbn in *; lia).
  assert (tree_loop fuel c (Z.of_nat d + 1) (zlen (A ++ [(d, e)])) = Ret (menu_of sub)) as Hsub.
  { replace (Z.of_nat d + 1) with (Z.of_nat (S d)) by lia. apply (IHs (S d) fuel _ (flat d rest ++ B)); [done | | lia | lia | lia]. destruct rest; [by apply Hends |]. cbn. lia. }
  rewrite Hrest. destruct sub as [|se ss sr] eqn:Esub.
  - done.
  - rewrite Z.gtb_ltb, (proj2 (Z.ltb_ge _ _)) by (unfold MAX_MENU_NESTING; cbn [height] in Hh; lia). rewrite Hsub. done.
Qed.
End tree.

Fixpoint ok_forest (f : forest) : Prop := match f with Nil => True | Cons e sub rest => ok_entry e /\ ok_forest sub /\ ok_forest rest end.
Lemma flat_ok f : forall d, (0 < d)%nat -> ok_forest f -> ok_flat (flat d f).
Proof.
  induction f as [|e sub IHs rest IHr]; intros d Hd Hok; cbn [flat]; [constructor |]. destruct Hok as (He & Hs & Hr).
  constructor; [by split |]. apply Forall_app. split; [apply IHs; [lia | done] | by apply IHr].
Qed.
Lemma items_length es : (length es <= length (entries_text es))%nat.
Proof. induction es as [|e es IH]; cbn [entries_text length]; [lia |]. unfold entry_text. rewrite !length_app. simpl. lia. Qed.

Lemma menu_tree_spec globals f stale : Forall not_entry globals -> ok_forest f -> (height f <= 64)%nat ->
  create_menu_tree (config_text globals (flat 1 f) ++ stale) 1 0 = Ret (menu_of f).
Proof.
  intros Hg Hf Hh. unfold create_menu_tree. change (1 >? MAX_MENU_NESTING) with false. cbv iota.
  apply (tree_loop_spec globals (flat 1 f) stale Hg (flat_ok f 1 ltac:(lia) Hf) f 1 _ [] []); [by rewrite app_nil_r | done | lia | lia |].
  unfold config_text. rewrite !length_app. pose proof (items_length (flat 1 f)). lia.
Qed.

(** * The end of the global options *)

Lemma back_to_slash_spec pre x post k : Forall (fun b => b <> 47) x -> zlen x = Z.of_nat k -> (0 < length pre)%nat ->
  back_to_slash (length pre + k) (pre ++ 47 :: x ++ post) = zlen pre.
Proof.
  intros HF. revert post x HF. induction k as [|k IH]; intros post x HF Hk Hp.
  - rewrite Nat.add_0_r. destruct (length pre) as [|n] eqn:E; [lia |]. cbn [back_to_slash]. replace (Z.of_nat (S n)) with (zlen pre) by (unfold zlen; lia). by rewrite aget_here.
  - destruct x as [|b x _] using rev_ind; [done |]. rewrite zlen_app in Hk. change (zlen [b]) with 1 in Hk. apply Forall_app in HF as [HF [Hb _]%Forall_cons].
    replace (length pre + S k)%nat with (S (length pre + k)) by lia. cbn [back_to_slash].
    assert ((pre ++ 47 :: (x ++ [b]) ++ post).[Z.of_nat (S (length pre + k))] = b) as ->.
    { replace (pre ++ 47 :: (x ++ [b]) ++ post) with ((pre ++ 47 :: x) ++ b :: post) by app_solve. replace (Z.of_nat (S (length pre + k))) with (zlen (pre ++ 47 :: x)) by (rewrite zlen_app, zlen_cons; unfold zlen in *; lia). apply aget_here. }
    rewrite (proj2 (Z.eqb_neq b 47)) by done. replace ((x ++ [b]) ++ post) with (x ++ b :: post) by app_solve. apply IH; [done | lia | done].
Qed.

(** The text before the entries, as the lookup of an option sees it. *)
Definition global_text (c : list Z) (globals : list (list Z)) : Prop := exists text, cstr (fun i => c.[i]) text /\ lines_of text globals.
(** The name of the first entry, if there is one. *)
Definition plain_first (f : forest) : Prop := match f with Nil => True | Cons e _ _ => Forall (fun b => b <> 47) e.(e_name) end.

Lemma lines_bytes ls : Forall ok_line_text ls -> Forall (fun b => 0 < b < 256) (text_of_lines ls).
Proof. induction 1 as [|l ls Hl HF IH]; [constructor |]. cbn [text_of_lines]. apply Forall_app. split; [|by constructor]. eapply Forall_impl; [exact Hl |]. by intros b [? _]. Qed.
Lemma text_last l ls : exists t, text_of_lines (l :: ls) = t ++ [10].
Proof.
  revert l; induction ls as [|l' ls IH]; intros l; [by exists l |]. destruct (IH l') as [t Ht]. exists (l ++ 10 :: t). cbn [text_of_lines] in *. rewrite Ht. app_solve.
Qed.

Definition shown (e : menu_item) : list Z := (if e.(e_plus) then [43] else []) ++ replicate e.(e_spaces) 32 ++ e.(e_name).
Lemma title_first e : title 1 e = 47 :: shown e.
Proof. done. Qed.
Lemma cut_globals_spec globals f stale : Forall not_entry globals -> ok_forest f -> plain_first f -> (globals = [] -> f = Nil) ->
  exists c, cut_globals (config_text globals (flat 1 f) ++ stale) = Ret c /\ global_text c globals.
Proof.
  intros Hg Hf Hp Hne. assert (Forall ok_line_text globals) as Hgl by (eapply Forall_impl; [exact Hg |]; by intros l [? _]). apply lines_bytes in Hgl as Hgb.
  pose proof (flat_ok f 1 ltac:(lia) Hf) as Hfl. set (c := config_text globals (flat 1 f) ++ stale). unfold cut_globals. destruct f as [|e sub rest].
  - exists c. unfold config_get_entry, c. rewrite nth_entry_at by done. cbn [flat offsets lookup list_lookup mbind outcome_bind]. split; [done |].
    exists (text_of_lines globals). split; [|by left]. unfold config_text. cbn [flat entries_text app]. rewrite <- app_assoc. by apply cstr_prefix.
  - destruct globals as [|g gs]; [by discriminate Hne |]. set (gl := g :: gs) in *. destruct (text_last g gs) as [t Ht]. fold gl in Ht.
    pose proof (config_here gl (flat 1 (Cons e sub rest)) stale [] _ 1 e eq_refl) as Hc. fold c in Hc. cbn [entries_text] in Hc. rewrite app_nil_r in Hc.
    set (post := 10 :: _) in Hc. destruct (entry_here _ Hfl [] _ 1 e eq_refl) as [_ He].
    destruct (get_entry_spec gl _ stale Hg Hfl [] _ 1 e eq_refl) as [Hge _]. fold c in Hge. cbn [entries_text] in Hge. rewrite app_nil_r in Hge. change (zlen (@nil (nat * menu_item))) with 0 in Hge.
    rewrite Hge. cbn [mbind outcome_bind]. set (x := shown e).
    assert (Forall (fun b => b <> 47) x) as Hx.
    { unfold x, shown. rewrite !Forall_app. split; [destruct (e_plus e); repeat constructor; done |]. split; [by apply Forall_replicate | done]. }
    assert (back_to_slash (Z.to_nat (zlen (text_of_lines gl ++ title 1 e))) c = zlen (text_of_lines gl)) as ->.
    { pose proof (back_to_slash_spec (text_of_lines gl) (x ++ [10]) (text_of_lines (e_body e) ++ entries_text (flat 2 sub ++ flat 1 rest) ++ 0 :: stale) (length (title 1 e))) as Hbk.
      replace (text_of_lines gl ++ 47 :: (x ++ [10]) ++ _) with c in Hbk.
      - replace (Z.to_nat _) with (length (text_of_lines gl) + length (title 1 e))%nat by (unfold zlen; rewrite length_app; lia). apply Hbk.
        + apply Forall_app. split; [done | by repeat constructor].
        + rewrite title_first. fold x. unfold zlen. rewrite length_app. simpl. lia.
        + rewrite Ht, length_app. simpl. lia.
      - rewrite Hc. rewrite title_first. fold x. unfold post. app_solve. }
    assert (c = t ++ 10 :: title 1 e ++ post) as Hct by (rewrite Hc, Ht; app_solve).
    assert (c.[zlen (text_of_lines gl)] = 47) as -> by (rewrite Hct, Ht, title_first, (cons_middle 10), app_assoc; apply aget_here).
    assert (zlen (text_of_lines gl) - 1 = zlen t) as -> by (rewrite Ht, <- zlen_snoc; lia).
    rewrite Z.gtb_ltb, (proj2 (Z.ltb_lt _ _)) by (rewrite Ht, <- zlen_snoc; pose proof (zlen_nonneg t); lia). cbn [Z.eqb Pos.eqb andb].
    eexists. split; [done |]. exists t. split; [|by right]. rewrite Hct, aset_app. apply cstr_prefix. rewrite Ht in Hgb. by apply Forall_app in Hgb as [? _].
Qed.

(** In any case the text can be cut. *)
Lemma cut_globals_ret globals f stale : Forall not_entry globals -> ok_forest f -> exists c, cut_globals (config_text globals (flat 1 f) ++ stale) = Ret c.
Proof.
  intros Hg Hf. pose proof (flat_ok f 1 ltac:(lia) Hf) as Hfl. unfold cut_globals. destruct f as [|e sub rest].
  - unfold config_get_entry. rewrite nth_entry_at by done. by eexists.
  - destruct (get_entry_spec globals _ stale Hg Hfl [] _ 1 e eq_refl) as [Hge _]. change (zlen (@nil (nat * menu_item))) with 0 in Hge. rewrite Hge. by eexists.
Qed.

(** * The whole *)

Lemma rest_lines ls : rest_text ls ++ [10; 0] = 10 :: text_of_lines (line_text <$> ls) ++ [0].
Proof. induction ls as [|l ls IH]; [done |]. cbn [rest_text fmap list_fmap text_of_lines]. rewrite <- app_comm_cons, <- app_assoc, IH. app_solve. Qed.
Lemma doc_lines first rest : doc_text first rest = text_of_lines (line_text <$> first :: rest) ++ [0].
Proof. unfold doc_text. rewrite rest_lines. cbn [fmap list_fmap text_of_lines]. app_solve. Qed.

Lemma trim_spec raw : Forall no_newline raw -> let c := text_of_lines raw ++ [0] in
  exists stale, trim_loop (length c) c (zlen c) 0 = Ret (text_of_lines (clean_line <$> raw) ++ [0] ++ stale, zlen (text_of_lines (clean_line <$> raw) ++ [0])) /\
    length (text_of_lines (clean_line <$> raw) ++ [0] ++ stale) = length c.
Proof.
  intros HF c. destruct (trim_loop_spec (length c) [] c [] ltac:(lia)) as (c' & Ht & Hl). cbn [app] in *. change (zlen (@nil Z)) with 0 in Ht. rewrite app_nil_r, Z.add_0_l in *.
  change (starts_line []) with true in *. unfold c in Ht, Hl at 1. rewrite clean_lines in * by done. exists c'. rewrite <- app_assoc in *. by split.
Qed.

Lemma init_config_spec size_max arch firmware file raw first rest globals f :
  let ms := defined (first :: rest) (builtin arch firmware) in
  file ++ [10] = text_of_lines raw -> Forall no_newline raw -> clean_line <$> raw = line_text <$> first :: rest ->
  Forall ok_line (first :: rest) -> (line_text first = [] -> blank_start rest) -> ok_value arch -> ok_value firmware ->
  doc_out ms first rest = config_text globals (flat 1 f) -> zlen (doc_out ms first rest) <= zlen (doc_text first rest) * 4 -> zlen (doc_text first rest) * 4 <= size_max ->
  Forall not_entry globals -> ok_forest f -> (height f <= 64)%nat ->
  exists c, init_config size_max (replicate 128 48) arch firmware (file ++ [0; 0]) = Ret (c, menu_of f, true) /\
    (plain_first f -> (globals = [] -> f = Nil) -> global_text c globals).
Proof.
  intros ms Hfile Hraw Hclean Hok Hb Ha Hfw Hout Hfit Hsm Hg Hf Hh. unfold init_config.
  assert (forall t, check_b2sum (replicate 128 48) t = Ret true) as -> by done. cbn [mbind outcome_bind].
  assert ((file ++ [0; 0]).[zlen (file ++ [0; 0]) - 2 := 10] = text_of_lines raw ++ [0]) as ->.
  { rewrite <- Hfile, <- app_assoc, zlen_app. change (zlen [0; 0]) with 2. replace (zlen file + 2 - 2) with (zlen file) by lia. by rewrite aset_app. }
  assert (zlen (file ++ [0; 0]) = zlen (text_of_lines raw ++ [0])) as -> by (rewrite <- Hfile, <- app_assoc, !zlen_app; done).
  destruct (trim_spec raw Hraw) as (stale & -> & _). cbn [mbind outcome_bind]. rewrite Hclean, app_assoc, <- doc_lines.
  destruct (macros_spec first rest stale arch firmware Hok Hb Ha Hfw) as [Hl He]. unfold builtin in Hl at 1. rewrite Hl. cbn [mbind outcome_bind].
  rewrite Z.gtb_ltb, (proj2 (Z.ltb_ge _ _)) by (apply Z.div_le_lower_bound; lia). rewrite He. fold ms.
  rewrite (proj2 (Z.leb_le _ _)) by done. cbn [mbind outcome_bind]. rewrite Hout. rewrite menu_tree_spec by done. cbn [mbind outcome_bind].
  set (stale' := replicate (Z.to_nat (zlen (doc_text first rest) * 4) - length (config_text globals (flat 1 f))) 0). destruct (cut_globals_ret globals f stale' Hg Hf) as [c Hc]. rewrite Hc. cbn [mbind outcome_bind]. exists c. split; [done |].
  intros Hp Hne. destruct (cut_globals_spec globals f stale' Hg Hf Hp Hne) as (c' & Hc' & Ht). rewrite Hc in Hc'. by injection Hc' as <-.
Qed.
