(* ===== verification/ConfigTotal.v ===== *)
(** Any configuration: [init_config] returns or panics, whatever bytes the file has. *)

From S2P Require Import Prelude Libc LibcCorrect Guid Blake2b Blake2bCorrect Config ConfigText ConfigMacros ConfigValue ConfigMenu.
Import Libc Guid Config.

(** * Outcomes that are not endless *)

Definition returns {A} (P : A -> Prop) (o : outcome A) : Prop := match o with Ret x => P x | Panic => True | Diverge => False end.
Lemma returns_bind {A B} (P : A -> Prop) (Q : B -> Prop) (o : outcome A) (f : A -> outcome B) :
  returns P o -> (forall x, P x -> returns Q (f x)) -> returns Q (o ≫= f).
Proof. intros Ho Hf. destruct o as [x| |]; [by apply Hf | done | done]. Qed.
Lemma returns_impl {A} (P Q : A -> Prop) (o : outcome A) : returns P o -> (forall x, P x -> Q x) -> returns Q o.
Proof. intros Ho H. destruct o; [by apply H | done | done]. Qed.

(** * Strings *)

Lemma strlen_loop_returns n : forall fuel s i k, i <= k -> s k = 0 -> Z.to_nat (k - i) = n -> (n <= fuel)%nat -> returns (fun len => i <= len <= k) (strlen_loop fuel s i).
Proof.
  induction n as [|n IH]; intros fuel s i k Hi Hk Hn Hf.
  - assert (i = k) as -> by lia. destruct fuel; cbn [strlen_loop]; rewrite Hk; cbn; lia.
  - destruct fuel as [|fuel]; [lia |]. cbn [strlen_loop]. destruct (s i =? 0); [cbn; lia |]. eapply returns_impl; [apply (IH fuel s (i + 1) k); [lia | done | lia | lia] |]. cbn. intros. lia.
Qed.
Lemma strlen_array l : returns (fun len => 0 <= len <= zlen l) (strlen (length l) (array_str l)).
Proof.
  apply (strlen_loop_returns (length l)); [apply zlen_nonneg | | unfold zlen; lia | lia]. unfold array_str. apply aget_here.
Qed.

(** * Macros *)

Section macros.
Context (c : list Z) (n : Z).
Context (Hbytes : Forall is_byte c) (Hn : 2 <= n <= zlen c) (Hend : c.[n - 1] = 0) (Hnl : c.[n - 2] = 10).

Lemma take_until_returns stop limit fuel : forall i acc, stop 0 = true -> 0 <= i <= n - 1 -> n - 1 - i <= Z.of_nat fuel ->
  Forall (fun b => is_byte b /\ stop b = false) acc -> zlen acc <= limit ->
  returns (fun r => i <= r.2 <= n - 1 /\ stop c.[r.2] = true /\ Forall (fun b => is_byte b /\ stop b = false) r.1 /\ zlen r.1 <= limit) (take_until fuel c stop limit i acc).
Proof.
  induction fuel as [|fuel IH]; intros i acc Hs Hi Hf Ha Hl; cbn [take_until]; (destruct (stop c.[i]) eqn:E; [by cbn; split_and!; [lia | lia | done | done | done] |]).
  - assert (i = n - 1) by lia. subst i. congruence.
  - rewrite Z.geb_leb. destruct (Z.leb_spec limit (zlen acc)); [done |]. assert (i <> n - 1) by (intros ->; congruence).
    eapply returns_impl; [apply (IH (i + 1) (acc ++ [c.[i]])); [done | lia | lia | | rewrite <- zlen_snoc; lia] |].
    + apply Forall_app. split; [done |]. repeat constructor; [| |done]; apply aget_byte; done.
    + cbn. intros [l j]. cbn. naive_solver lia.
Qed.

(** Bytes that are not at the end of the text. *)
Lemma not_last i b : c.[i] = b -> b <> 0 -> i <= n - 1 -> i <= n - 2.
Proof. intros Hi Hb Hle. destruct (decide (i = n - 1)) as [->|]; [congruence | lia]. Qed.
Lemma not_last2 i b : c.[i] = b -> b <> 0 -> b <> 10 -> i <= n - 1 -> i <= n - 3.
Proof. intros Hi Hb Hb' Hle. apply (not_last i b) in Hle; [|done..]. destruct (decide (i = n - 2)) as [->|]; [congruence | lia]. Qed.
Lemma looking_at_byte i s k b : looking_at c i s = true -> bytes s !! k = Some b -> c.[i + Z.of_nat k] = b.
Proof.
  unfold looking_at, memcmp. intros H%Z.eqb_eq Hk. pose proof (proj1 (memcmp_loop_zero _ _ _ _) H (Z.of_nat k)) as Hz. apply lookup_lt_Some in Hk as Hlt.
  rewrite Hz by (unfold zlen; lia). unfold lit. by rewrite Nat2Z.id, Hk.
Qed.
Lemma dollar_brace i : (n - i >=? 2) && looking_at c i "${" = true -> i + 2 <= n - 2.
Proof.
  intros [Hi%Z.geb_le H]%andb_prop. pose proof (looking_at_byte i _ 1 123 H eq_refl) as Hb. pose proof (not_last2 (i + Z.of_nat 1) 123 Hb). lia.
Qed.
(** What a position at a macro's mark says. *)
Lemma macro_line_bounds i : 0 <= i < n -> macro_line c n i = true -> i < after_mark i <= n - 2.
Proof.
  intros Hi. unfold macro_line, after_mark. intros [H|H]%orb_prop.
  - apply andb_prop in H as [Hl%Z.geb_le H]. pose proof (looking_at_byte i _ 2 123 H eq_refl) as Hb. pose proof (not_last2 (i + Z.of_nat 2) 123 Hb). destruct (i =? 0); lia.
  - apply andb_prop in H as [H H2]. apply andb_prop in H as [H ->%Z.eqb_eq]. pose proof (dollar_brace 0) as Hd. rewrite H, H2 in Hd. cbn. specialize (Hd eq_refl). lia.
Qed.

Definition name_ok (l : list Z) : Prop := Forall (fun b => 0 < b < 256) l /\ zlen l <= 1023.
Definition value_ok (l : list Z) : Prop := Forall (fun b => 0 < b < 256) l /\ zlen l <= 2047.
Definition names_ok (ms : list macro) : Prop := Forall (fun m => name_ok m.1 /\ value_ok m.2) ms.

Lemma bytes_ok (stop : Z -> bool) l : stop 0 = true -> Forall (fun b => is_byte b /\ stop b = false) l -> Forall (fun b => 0 < b < 256) l.
Proof. intros H0 HF. eapply Forall_impl; [exact HF |]. unfold is_byte. intros b [Hb Hs]. assert (b <> 0) by congruence. lia. Qed.

Lemma load_returns fuel : forall i ms, 0 <= i <= n -> n - i <= Z.of_nat fuel -> names_ok ms -> returns names_ok (load_macros fuel c n i ms).
Proof.
  induction fuel as [|fuel IH]; intros i ms Hi Hf Hm; cbn [load_macros]; (destruct (Z.ltb_spec i n); [|done]); [lia |].
  destruct (macro_line c n i) eqn:Em; [|apply IH; [lia | lia | done]]. apply macro_line_bounds in Em; [|lia]. unfold zlen in Hn.
  eapply returns_bind; [apply take_until_returns; [done | lia | lia | constructor | done] |]. intros [name j] (Hj & Hs & HF & Hl). cbn [fst snd] in *.
  destruct (line_end c.[j] || negb (c.[j + 1] =? 61)) eqn:E; [apply IH; [lia | lia | done] |]. apply orb_false_iff in E as [E1 E2%negb_false_iff%Z.eqb_eq].
  assert (j <> n - 1) by (intros ->; rewrite Hend in E1; done). pose proof (not_last2 (j + 1) 61 E2 ltac:(done) ltac:(done) ltac:(lia)).
  eapply returns_bind; [apply take_until_returns; [done | lia | lia | constructor | done] |]. intros [value k] (Hk & Hs' & HF' & Hl'). cbn [fst snd] in *.
  apply IH; [lia | lia |]. constructor; [|done]. split; (split; [by eapply bytes_ok; [|eassumption] | done]).
Qed.

Lemma find_macro_returns ms name : names_ok ms -> name_ok name -> returns value_ok (find_macro ms name).
Proof.
  intros HF [Hb Hl]. induction HF as [|[n' v] ms [[Hb' Hl'] Hv] HF IH]; cbn [find_macro]; [by split |]. cbn [fst snd] in *. unfold strcmp.
  rewrite (strcmp_loop_spec _ _ _ 0 n' name); [| by apply cstr_tail0, cstr_zero_end.. | unfold zlen in Hl'; lia]. cbn [mbind outcome_bind]. by destruct (_ =? 0).
Qed.
Lemma value_text_returns v : value_ok v -> returns (fun t => t = v) (value_text v).
Proof.
  intros [Hb Hl]. unfold value_text. rewrite (strlen_spec _ _ v); [| by apply cstr_zero_end | unfold zlen in Hl; lia]. cbn. unfold zlen. by rewrite Nat2Z.id, firstn_all.
Qed.
Lemma use_name_bounds k : forall i acc, 0 <= i <= n - 1 -> Forall (fun b => is_byte b /\ name_end b = false) acc ->
  let r := use_name k c i acc in i <= r.2 <= n - 1 /\ Forall (fun b => is_byte b /\ name_end b = false) r.1 /\ zlen r.1 <= zlen acc + Z.of_nat k.
Proof.
  induction k as [|k IH]; intros i acc Hi HF; cbn [use_name]; [split_and!; cbn; try lia; done |]. destruct (name_end c.[i]) eqn:E; [split_and!; cbn; try lia; done |].
  assert (i <> n - 1) by (intros ->; rewrite Hend in E; done). destruct (IH (i + 1) (acc ++ [c.[i]])) as (H1 & H2 & H3); [lia | |].
  - apply Forall_app. split; [done |]. constructor; [|constructor]. split; [by apply aget_byte | done].
  - rewrite <- zlen_snoc in H3. split_and!; [lia | lia | done | lia].
Qed.
Lemma seek_brace_bounds k : forall i, 0 <= i -> let j := seek_brace k c i in i <= j <= i + Z.of_nat k /\ (j < i + Z.of_nat k -> c.[j] = 125).
Proof.
  induction k as [|k IH]; intros i Hi; cbn [seek_brace]; [split; lia |]. destruct (Z.eqb_spec c.[i] 125) as [E|E]; [split; [lia | done] |].
  destruct (IH (i + 1) ltac:(lia)) as [H1 H2]. split; [lia |]. intros Hj. apply H2. lia.
Qed.
Lemma seek_line_end_returns fuel : forall i, 0 <= i <= n - 2 -> n - i <= Z.of_nat fuel -> returns (fun j => i <= j <= n - 2) (seek_line_end fuel c n i).
Proof.
  induction fuel as [|fuel IH]; intros i Hi Hf; cbn [seek_line_end]; [lia |]. destruct (line_end c.[i]) eqn:E; [cbn; lia |].
  assert (i <> n - 2) by (intros ->; rewrite Hnl in E; done). rewrite Z.geb_leb. destruct (Z.leb_spec n (i + 1)); [done |].
  eapply returns_impl; [apply IH; lia |]. cbn. intros. lia.
Qed.

(** The new text ends as the old one, and fits. *)
Definition text_ok (size : Z) (t : list Z) : Prop := Forall is_byte t /\ zlen t <= size /\ exists u, t = u ++ [10; 0].
Section expanded.
Context (ms : list macro) (Hms : names_ok ms) (size : Z).

Lemma ordinary_returns fuel i acc : 0 <= i <= n - 2 -> Forall is_byte acc -> zlen acc <= size ->
  (forall i' acc', i < i' <= n - 1 -> (i' = n - 1 -> exists u, acc' = u ++ [10]) -> Forall is_byte acc' -> zlen acc' <= size ->
     returns (text_ok size) (expand_macros fuel ms c n size i' acc')) ->
  returns (text_ok size) (ordinary ms size fuel c n i acc).
Proof.
  intros Hi Ha Hz IH. unfold ordinary. destruct ((n - i >=? 2) && looking_at c i "${") eqn:E.
  - apply dollar_brace in E. pose proof (use_name_bounds 1023 (i + 2) [] ltac:(lia) ltac:(constructor)) as Hu. destruct (use_name 1023 c (i + 2) []) as [name j]. destruct Hu as (Hj & HF & Hl). cbn [fst snd] in *.
    destruct (Z.eqb_spec c.[j] 125) as [E'|]; [|done]. cbn [negb]. pose proof (not_last2 j 125 E' ltac:(done) ltac:(done) ltac:(lia)).
    eapply returns_bind; [apply find_macro_returns; [done |]; split; [by eapply bytes_ok; [|eassumption] | done] |]. intros v Hv.
    eapply returns_bind; [by apply value_text_returns |]. intros t ->. rewrite Z.gtb_ltb. destruct (Z.ltb_spec size (zlen acc + zlen v)); [done |].
    apply IH; [lia | lia | | rewrite zlen_app; lia]. apply Forall_app. split; [done |]. destruct Hv as [Hv _]. eapply Forall_impl; [exact Hv |]. unfold is_byte. cbn. lia.
  - rewrite Z.geb_leb. destruct (Z.leb_spec size (zlen acc)); [done |]. apply IH; [lia | | | rewrite <- zlen_snoc; lia].
    + intros Hl. exists acc. do 2 f_equal. rewrite <- Hnl. f_equal. lia.
    + apply Forall_app. split; [done |]. repeat constructor; by apply aget_byte.
Qed.
Lemma expand_tail fuel acc : 1 <= Z.of_nat fuel -> (exists u, acc = u ++ [10]) -> Forall is_byte acc -> zlen acc <= size ->
  returns (text_ok size) (expand_macros fuel ms c n size (n - 1) acc).
Proof.
  intros Hf [u ->] Ha Hz. destruct fuel as [|fuel]; [lia |]. cbn [expand_macros]. rewrite (proj2 (Z.ltb_lt _ _)) by lia.
  destruct (macro_line c n (n - 1)) eqn:Em; [apply macro_line_bounds in Em; lia |]. replace (n - (n - 1) >=? 2) with false by (rewrite Z.geb_leb; symmetry; apply Z.leb_gt; lia). cbn [andb].
  rewrite Z.geb_leb. destruct (Z.leb_spec size (zlen (u ++ [10]))); [done |]. rewrite Hend. replace (n - 1 + 1) with n by lia.
  assert (expand_macros fuel ms c n size n ((u ++ [10]) ++ [0]) = Ret ((u ++ [10]) ++ [0])) as -> by (destruct fuel; cbn [expand_macros]; by rewrite Z.ltb_irrefl).
  split_and!; [apply Forall_app; split; [done | by repeat constructor] | rewrite <- zlen_snoc; lia |]. exists u. by rewrite <- app_assoc.
Qed.
Lemma expand_returns fuel : forall i acc, 0 <= i <= n - 1 -> (i = n - 1 -> exists u, acc = u ++ [10]) -> n - i <= Z.of_nat fuel -> Forall is_byte acc -> zlen acc <= size ->
  returns (text_ok size) (expand_macros fuel ms c n size i acc).
Proof.
  induction fuel as [|fuel IH]; intros i acc Hi Hl Hf Ha Hz; [lia |]. destruct (decide (i = n - 1)) as [->|Hne]; [apply expand_tail; [lia | by apply Hl | done | done] |].
  assert (returns (text_ok size) (ordinary ms size fuel c n i acc)) as Hord by (apply ordinary_returns; [lia | done | done |]; intros; apply IH; (done || lia)).
  cbn [expand_macros]. rewrite (proj2 (Z.ltb_lt _ _)) by lia. destruct (macro_line c n i) eqn:Em; [|exact Hord]. apply macro_line_bounds in Em; [|lia].
  destruct (seek_brace_bounds (Z.to_nat (n - after_mark i)) (after_mark i) ltac:(lia)) as [Hj1 Hj2]. set (j := seek_brace _ c _) in *. rewrite (Z.geb_leb j n).
  destruct (Z.leb_spec n j); [done |]. destruct ((j + 1 >=? n) || negb (c.[j + 1] =? 61)) eqn:E; [exact Hord |]. apply orb_false_iff in E as [_ E%negb_false_iff%Z.eqb_eq].
  specialize (Hj2 ltac:(lia)). pose proof (not_last2 j 125 Hj2 ltac:(done) ltac:(done) ltac:(lia)). pose proof (not_last2 (j + 1) 61 E ltac:(done) ltac:(done) ltac:(lia)).
  eapply returns_bind; [apply seek_line_end_returns; unfold zlen in Hn; lia |]. intros k Hk. cbn in Hk. apply IH; (done || lia).
Qed.
End expanded.
End macros.

(** * The menu *)

Lemma positions_in q bol l : forall off, q ∈ entry_positions bol off l -> exists k, q = off + Z.of_nat k /\ l !! k = Some 47 /\ Forall (fun b => b <> 0) (take k l).
Proof.
  revert bol; induction l as [|b l IH]; intros bol off Hq; cbn [entry_positions] in Hq; [by apply elem_of_nil in Hq |]. destruct (Z.eqb_spec b 0); [by apply elem_of_nil in Hq |].
  assert (forall bol, q ∈ entry_positions bol (off + 1) l -> exists k, q = off + Z.of_nat k /\ (b :: l) !! k = Some 47 /\ Forall (fun b => b <> 0) (take k (b :: l))) as Hnext.
  { intros bol' (k & -> & Hk & HF)%IH. exists (S k). split; [lia |]. split; [done |]. by constructor. }
  destruct (bol && (b =? 47)) eqn:E; [|by eapply Hnext]. apply elem_of_cons in Hq as [->|Hq]; [|by eapply Hnext]. apply andb_prop in E as [_ ->%Z.eqb_eq].
  exists O. split; [lia |]. split; [done | constructor].
Qed.
Lemma positions_length bol l : forall off, (length (entry_positions bol off l) <= length l)%nat.
Proof.
  revert bol; induction l as [|b l IH]; intros bol off; cbn [entry_positions length]; [lia |]. destruct (b =? 0); [simpl; lia |]. destruct (bol && (b =? 47)); cbn [length].
  - specialize (IH false (off + 1)). lia.
  - specialize (IH (b =? 10) (off + 1)). lia.
Qed.
Lemma body_nonzero bol l : Forall (fun b => b <> 0) (take (body_length bol l) l).
Proof.
  revert bol; induction l as [|b l IH]; intros bol; cbn [body_length]; [constructor |]. destruct (Z.eqb_spec b 0); cbn [orb]; [constructor |].
  destruct (bol && (b =? 47)); [constructor |]. cbn [take]. by constructor.
Qed.

Section menu.
Context (c : list Z) (n : Z).
Context (Hbytes : Forall is_byte c) (Hn : 2 <= n <= zlen c) (Hend : c.[n - 1] = 0) (Hnl : c.[n - 2] = 10).
Let ps := entry_positions true 0 c.

Lemma zero_in : 0 ∈ c.
Proof. rewrite <- Hend. apply list_elem_of_lookup. exists (Z.to_nat (n - 1)). apply aget_lookup. lia. Qed.
Lemma nth_entry_all index : 0 <= index -> nth_entry (length c) c 0 index = Ret (ps !! Z.to_nat index).
Proof. intros Hi. pose proof (nth_entry_spec (length c) [] c index zero_in ltac:(lia) Hi) as H. exact H. Qed.
Lemma position_bounds k q : ps !! k = Some q -> 0 <= q <= n - 3.
Proof.
  intros Hq%list_elem_of_lookup_2. apply positions_in in Hq as (j & -> & Hj & HF). split; [lia |].
  assert (Z.of_nat j <= n - 1).
  { destruct (Z.le_gt_cases (Z.of_nat j) (n - 1)); [done |]. rewrite Forall_lookup in HF. exfalso. apply (HF (Z.to_nat (n - 1)) 0); [|done].
    rewrite lookup_take_lt by lia. rewrite <- Hend. apply aget_lookup. lia. }
  apply (not_last2 c n Hend Hnl _ 47); [| done | done | lia]. unfold aget. replace (Z.to_nat (0 + Z.of_nat j)) with j by lia. by apply list_lookup_total_correct.
Qed.

Lemma line_length_returns k : forall fuel q len, q + len <= n - 2 -> Z.to_nat (n - 2 - q - len) = k -> (k <= fuel)%nat -> 0 <= len -> returns (fun l => len <= l <= n - 2 - q) (line_length fuel c q len).
Proof.
  induction k as [|k IH]; intros fuel q len Hq Hk Hf Hl.
  - assert (q + len = n - 2) as E by lia. destruct fuel; cbn [line_length]; rewrite E, Hnl; cbn; lia.
  - destruct fuel as [|fuel]; [lia |]. cbn [line_length]. destruct (c.[q + len] =? 10); [cbn; lia |].
    eapply returns_impl; [apply (IH fuel q (len + 1)); lia |]. cbn. intros. lia.
Qed.
Lemma entry_name_returns index : 0 <= index ->
  returns (fun r => match r with None => ps !! Z.to_nat index = None | Some _ => is_Some (ps !! Z.to_nat index) end) (config_get_entry_name c index).
Proof.
  intros Hi. unfold config_get_entry_name. rewrite nth_entry_all by done. cbn [mbind outcome_bind]. destruct (ps !! Z.to_nat index) as [q|] eqn:E; [|done].
  apply position_bounds in E. eapply returns_bind; [apply (line_length_returns (Z.to_nat (n - 2 - q - 0))); unfold zlen in Hn; lia |]. intros len _. cbn. by eexists.
Qed.
Lemma is_child_returns cur index : 0 <= index -> returns (fun k => ps !! Z.to_nat index = None -> k = NOT_CHILD) (is_child c cur index).
Proof.
  intros Hi. unfold is_child. eapply returns_bind; [by apply entry_name_returns |]. intros [buf|] Hb; [|by cbn]. destruct Hb as [q Hq].
  eapply returns_bind; [apply strlen_array |]. intros len _. rewrite Hq. repeat case_if; done.
Qed.
Lemma is_directory_returns cur index : 0 <= index -> returns (fun _ => True) (is_directory c cur index).
Proof. intros Hi. unfold is_directory. eapply returns_bind; [apply is_child_returns; lia |]. by intros [] _. Qed.
Lemma seek_end_returns k : forall fuel q, 0 <= q <= n - 1 -> Z.to_nat (n - 1 - q) = k -> (k <= fuel)%nat -> returns (fun p => q <= p <= n - 1) (seek_end fuel c q).
Proof.
  induction k as [|k IH]; intros fuel q Hq Hk Hf.
  - assert (q = n - 1) as -> by lia. destruct fuel; cbn [seek_end]; rewrite Hend; cbn; lia.
  - destruct fuel as [|fuel]; [lia |]. cbn [seek_end]. destruct (line_end c.[q]); [cbn; lia |]. eapply returns_impl; [apply (IH fuel (q + 1)); lia |]. cbn. intros. lia.
Qed.
(** The text of an entry is a string. *)
Lemma get_entry_returns index : 0 <= index -> returns (fun r => match r with None => True | Some (p, size) => Forall (fun b => 0 < b < 256) (slice c p size) end) (config_get_entry c index).
Proof.
  intros Hi. unfold config_get_entry. rewrite nth_entry_all by done. cbn [mbind outcome_bind]. destruct (ps !! Z.to_nat index) as [q|] eqn:E; [|done].
  apply position_bounds in E. eapply returns_bind; [apply (seek_end_returns (Z.to_nat (n - 1 - (q + 2)))); unfold zlen in Hn; lia |]. intros p Hp. cbn in Hp.
  set (pre := take (Z.to_nat p) c). set (r := drop (Z.to_nat p) c). assert (c = pre ++ r) as Hc by (symmetry; apply take_drop).
  assert (zlen pre = p) as Hz by (unfold pre, zlen in *; rewrite length_take; lia).
  assert (entry_end (S (length c)) c p = Ret (p + Z.of_nat (body_length (starts_line pre) r))) as ->.
  { rewrite <- Hz. rewrite Hc at 2. apply entry_end_spec.
    - intros Hnil. rewrite Hnil in Hz. change (zlen (@nil Z)) with 0 in Hz. lia.
    - rewrite <- Hend. apply list_elem_of_lookup. exists (Z.to_nat (n - 1 - p)). unfold r. rewrite lookup_drop. replace (Z.to_nat p + Z.to_nat (n - 1 - p))%nat with (Z.to_nat (n - 1)) by lia. apply aget_lookup. lia.
    - unfold r. rewrite length_drop. lia. }
  cbn. replace (p + Z.of_nat (body_length (starts_line pre) r) - p) with (Z.of_nat (body_length (starts_line pre) r)) by lia. unfold slice. fold r. rewrite Nat2Z.id.
  pose proof (body_nonzero (starts_line pre) r) as HF. assert (Forall is_byte (take (body_length (starts_line pre) r) r)) as HB by (apply Forall_take; unfold r; by apply Forall_drop).
  rewrite Forall_forall in *. intros b Hb. specialize (HF b Hb). specialize (HB b Hb). unfold is_byte in HB. lia.
Qed.
Lemma comment_returns b : Forall (fun x => 0 < x < 256) b -> returns (fun _ => True) (menu_comment b).
Proof.
  intros HF. assert (cstr (str (array_str b) 0) b) as Hc by (apply cstr_zero_end in HF; exact HF).
  assert (ok_key (bytes "COMMENT")) as Hk by (split; [done | by apply (bool_decide_unpack _)]).
  assert (cstr (lit "COMMENT") (bytes "COMMENT")) as Hl by (apply cstr_lit; by apply (bool_decide_unpack _)).
  unfold menu_comment. pose proof (value_loop_spec _ 0 b Hc _ _ 0 b (S (length b)) [] Hk Hl eq_refl ltac:(lia) ltac:(lia)) as Hv.
  change (zlen (bytes "COMMENT")) with 7 in Hv. change (zlen (@nil Z)) with 0 in Hv. rewrite Hv. cbn [mbind outcome_bind]. by destruct (_ <$> _) as [[]|].
Qed.
Lemma menu_name_returns name cur : returns (fun _ => True) (menu_name name cur).
Proof. unfold menu_name. eapply returns_bind; [apply strlen_array |]. done. Qed.

Lemma tree_returns fuel : forall cur i, 0 <= i -> (length ps - Z.to_nat i < fuel)%nat -> returns (fun _ => True) (tree_loop fuel c cur i).
Proof.
  induction fuel as [|fuel IH]; intros cur i Hi Hf; [lia |]. cbn [tree_loop]. eapply returns_bind; [by apply is_child_returns |]. intros k Hk.
  destruct (ps !! Z.to_nat i) as [q|] eqn:E; [|by rewrite Hk]. apply lookup_lt_Some in E. clear Hk.
  assert (forall cur, returns (fun _ => True) (tree_loop fuel c cur (i + 1))) as Hnext by (intros; apply IH; lia).
  destruct k; [done | | apply Hnext]. eapply returns_bind; [by apply entry_name_returns |]. intros r _.
  eapply returns_bind; [apply menu_name_returns |]. intros [name plus] _. eapply returns_bind; [by apply get_entry_returns |]. intros e He. destruct (default (0, 0) e) as [p size] eqn:Ee.
  eapply returns_bind; [apply is_directory_returns; lia |]. intros dir _. eapply (returns_bind (fun _ => True)); [destruct dir; [destruct (_ >? _); [done | apply Hnext] | done] |]. intros sub _.
  eapply (returns_bind (fun _ => True)); [apply comment_returns |]. { destruct e as [[p' size']|]; cbn in Ee; [by injection Ee as -> -> |]. injection Ee as <- <-. constructor. }
  intros comment _. eapply returns_bind; [apply Hnext |]. done.
Qed.
Lemma menu_returns : returns (fun _ => True) (create_menu_tree c 1 0).
Proof. unfold create_menu_tree. cbn [Z.gtb]. apply tree_returns; [done |]. pose proof (positions_length true c 0). fold ps in H. lia. Qed.
Lemma cut_returns : returns (fun _ => True) (cut_globals c).
Proof. unfold cut_globals. eapply returns_bind; [by apply get_entry_returns |]. intros [[p size]|] _; done. Qed.
End menu.

(** * The whole *)

Lemma check_b2sum_returns b2 text : zlen text < 2 ^ 128 -> returns (fun _ => True) (check_b2sum b2 text).
Proof. intros Ht. unfold check_b2sum. destruct (_ =? 0); [done |]. rewrite blake2b_whole by done. cbn [mbind outcome_bind]. destruct (hash_of_digits b2); [|done]. cbn. by destruct (memcmp _ _ _ =? 0). Qed.

Lemma shift_bytes c n i skip : Forall is_byte c -> Forall is_byte (shift_down c n i skip).
Proof. intros HF. unfold shift_down. apply (for_up_ind (fun _ c => Forall is_byte c)); [done |]. intros j c' _ Hc'. unfold aset. apply Forall_insert; [done |]. by apply aget_byte. Qed.
Lemma trim_bytes fuel : forall c n i, Forall is_byte c -> returns (fun r => Forall is_byte r.1) (trim_loop fuel c n i) \/ trim_loop fuel c n i = Diverge.
Proof.
  induction fuel as [|fuel IH]; intros c n i HF; cbn [trim_loop]; (destruct (i <? n); [|by left]); [by right |].
  destruct (negb _); apply IH; [by apply shift_bytes | done].
Qed.
Lemma clean_tail l : forall bol, exists u, clean bol (l ++ [10; 0]) = u ++ [10; 0].
Proof.
  induction l as [|b l IH]; intros bol; cbn [app clean]; [exists []; cbn; done |]. destruct (_ || _); [done |]. destruct (IH (b =? 10)) as [u ->]. by exists (b :: u).
Qed.
(** The clean-up keeps the end of the text. *)
Lemma trim_returns file : Forall is_byte file -> let c := file ++ [10; 0] in
  exists c' n, trim_loop (length c) c (zlen c) 0 = Ret (c', n) /\ Forall is_byte c' /\ 2 <= n <= zlen c' /\ c'.[n - 1] = 0 /\ c'.[n - 2] = 10.
Proof.
  intros HF c. destruct (trim_loop_spec (length c) [] c [] ltac:(lia)) as (stale & Ht & Hl).
  change (zlen (@nil Z)) with 0 in Ht. rewrite app_nil_r, Z.add_0_l in Ht. cbn [app] in Ht. change (starts_line []) with true in Ht. destruct (clean_tail file true) as [u Hu]. fold c in Hu. rewrite Hu in Ht.
  destruct (trim_bytes (length c) c (zlen c) 0) as [Hb|Hb]; [unfold c; apply Forall_app; split; [done | by repeat constructor] | | congruence]. rewrite Ht in Hb. cbn in Hb.
  exists ((u ++ [10; 0]) ++ stale), (zlen (u ++ [10; 0])). split; [exact Ht |]. split; [done |]. rewrite <- zlen_snoc2. pose proof (zlen_nonneg u). pose proof (zlen_nonneg stale).
  split; [rewrite !zlen_app; change (zlen [10; 0]) with 2; lia |]. split.
  - replace (zlen u + 2 - 1) with (zlen (u ++ [10])) by (rewrite <- zlen_snoc; lia). replace ((u ++ [10; 0]) ++ stale) with ((u ++ [10]) ++ 0 :: stale) by app_solve. apply aget_here.
  - replace (zlen u + 2 - 2) with (zlen u) by lia. rewrite <- app_assoc. apply aget_here.
Qed.
Lemma init_returns size_max b2 arch firmware file : Forall is_byte file -> zlen file < 2 ^ 128 -> value_ok arch -> value_ok firmware ->
  returns (fun _ => True) (init_config size_max b2 arch firmware (file ++ [0; 0])).
Proof.
  intros HF Hlen Ha Hf. unfold init_config. rewrite zlen_app. change (zlen [0; 0]) with 2. replace (zlen file + 2 - 2) with (zlen file) by lia.
  eapply returns_bind; [apply check_b2sum_returns; unfold zlen in *; rewrite Nat2Z.id, take_app_length; lia |]. intros editor _.
  rewrite aset_app. destruct (trim_returns file HF) as (c & n & Ht & Hb & Hn & Hend & Hnl). rewrite zlen_app in Ht. change (zlen [10; 0]) with 2 in Ht. rewrite Ht. cbn [mbind outcome_bind].
  eapply returns_bind; [apply load_returns; try done; [lia | unfold zlen in Hn; lia |] |].
  { repeat constructor; cbn; try done; try (by destruct Ha); try (by destruct Hf); lia. }
  intros ms Hms. destruct (_ >? _); [done |]. eapply returns_bind; [apply (expand_returns c n Hb Hn Hend Hnl ms Hms (n * 4)); [lia | lia | unfold zlen in Hn; lia | constructor | unfold zlen; simpl; lia] |].
  intros t (Htb & Htl & u & ->). set (c' := (u ++ [10; 0]) ++ replicate _ 0). set (n' := zlen u + 2).
  assert (Forall is_byte c') as Hb' by (apply Forall_app; split; [done | by apply Forall_replicate]).
  assert (2 <= n' <= zlen c') as Hn' by (unfold n', c'; rewrite !zlen_app; change (zlen [10; 0]) with 2; pose proof (zlen_nonneg u); match goal with |- context [zlen (replicate ?k 0)] => pose proof (zlen_nonneg (replicate k 0)) end; lia).
  assert (c'.[n' - 1] = 0) as Hend'.
  { unfold n', c'. replace (zlen u + 2 - 1) with (zlen (u ++ [10])) by (rewrite <- zlen_snoc; lia). replace (u ++ [10; 0]) with ((u ++ [10]) ++ [0]) by app_solve. rewrite <- app_assoc. apply aget_here. }
  assert (c'.[n' - 2] = 10) as Hnl' by (unfold n', c'; replace (zlen u + 2 - 2) with (zlen u) by lia; rewrite <- app_assoc; apply aget_here).
  eapply returns_bind; [by apply (menu_returns c' n') |]. intros tree _. eapply returns_bind; [by apply (cut_returns c' n') |]. done.
Qed.
