(* ===== verification/ConfigCorrect.v ===== *)
(** The properties of the configuration file. *)

From S2P Require Import Prelude Libc LibcCorrect Guid Blake2b Blake2bCorrect Config ConfigText ConfigMacros ConfigValue ConfigMenu ConfigTotal.
Import Libc Guid Config.

(** * Reading a configuration *)

(** C29: a file is read as its lines, without carriage returns and without the blanks at their
    ends, with the macros it defines expanded, and the menu is the tree of entries that this text
    is written from. The text has at most four times its length with the macros expanded, the
    entries are nested at most 64 deep, and the executable carries no checksum; after an empty first
    line the next one does not start with a definition or a use of a macro. A lookup of a global
    option sees what precedes the first entry and nothing else, provided that something precedes it
    (or there is no entry) and that the first entry's name has no slash in it. *)
Theorem init_config_correct size_max arch firmware file raw first rest globals f :
  let ms := defined (first :: rest) (builtin arch firmware) in
  file ++ [10] = text_of_lines raw -> Forall no_newline raw -> clean_line <$> raw = line_text <$> first :: rest ->
  Forall ok_line (first :: rest) -> (line_text first = [] -> blank_start rest) -> ok_value arch -> ok_value firmware ->
  doc_out ms first rest = config_text globals (flat 1 f) -> zlen (doc_out ms first rest) <= zlen (doc_text first rest) * 4 -> zlen (doc_text first rest) * 4 <= size_max ->
  Forall not_entry globals -> ok_forest f -> (height f <= 64)%nat ->
  exists c, init_config size_max (replicate 128 48) arch firmware (file ++ [0; 0]) = Ret (c, menu_of f, true) /\
    (plain_first f -> (globals = [] -> f = Nil) -> global_text c globals).
Proof. apply init_config_spec. Qed.

Definition chars (s : string) : list piece := Chr <$> bytes s.
Definition cr : list Z := [13].
Definition ex_raw : list (list Z) :=
  [bytes "timeout: 5"; bytes "${K}=vm" ++ cr; bytes "  /Linux"; bytes "    path: boot():/${K}.${ARCH}  "; []; bytes "/+Tools"; bytes "//Check"; bytes "comment: of memory"].
Definition ex_first : line := Text (chars "timeout: 5").
Definition ex_rest : list line :=
  [Define (bytes "K") (bytes "vm"); Text (chars "/Linux"); Text (chars "path: boot():/" ++ [Use (bytes "K"); Chr 46; Use (bytes "ARCH")]); Text [];
   Text (chars "/+Tools"); Text (chars "//Check"); Text (chars "comment: of memory")].
Definition ex_forest : forest :=
  Cons {| e_plus := false; e_spaces := 0; e_name := bytes "Linux"; e_body := [bytes "path: boot():/vm.x86-64"; []] |} Nil
    (Cons {| e_plus := true; e_spaces := 0; e_name := bytes "Tools"; e_body := [] |}
      (Cons {| e_plus := false; e_spaces := 0; e_name := bytes "Check"; e_body := [bytes "comment: of memory"] |} Nil Nil) Nil).

Lemma init_config_correct_witness :
  exists c, init_config (2 ^ 32 - 1) (replicate 128 48) (bytes "x86-64") (bytes "BIOS") (removelast (text_of_lines ex_raw) ++ [0; 0]) = Ret (c, menu_of ex_forest, true) /\
    global_text c [bytes "timeout: 5"].
Proof.
  assert (exists c, init_config (2 ^ 32 - 1) (replicate 128 48) (bytes "x86-64") (bytes "BIOS") (removelast (text_of_lines ex_raw) ++ [0; 0]) = Ret (c, menu_of ex_forest, true) /\
    (plain_first ex_forest -> ([bytes "timeout: 5"] = [] -> ex_forest = Nil) -> global_text c [bytes "timeout: 5"])) as (c & E & Hg).
  { apply (init_config_correct (2 ^ 32 - 1) (bytes "x86-64") (bytes "BIOS") _ ex_raw ex_first ex_rest); try (by vm_compute); try (by apply (bool_decide_unpack _)). }
  exists c. split; [exact E |]. apply Hg; [by apply (bool_decide_unpack _) | done].
Defined.

(** C31: whatever bytes the configuration consists of, and whatever checksum the executable
    carries, [init_config] returns or stops with a message: none of its loops runs past the text
    or for ever. *)
Theorem init_config_total size_max b2 arch firmware file : Forall is_byte file -> zlen file < 2 ^ 128 -> value_ok arch -> value_ok firmware ->
  match init_config size_max b2 arch firmware (file ++ [0; 0]) with Diverge => False | _ => True end.
Proof. intros HF Hl Ha Hf. pose proof (init_returns size_max b2 arch firmware file HF Hl Ha Hf) as H. by destruct (init_config _ _ _ _ _) as [[[]]| |]. Qed.
Lemma init_config_total_witness :
  match init_config (2 ^ 32 - 1) (replicate 128 48) (bytes "x86-64") (bytes "BIOS") (bytes "/a/${" ++ [0; 47; 10; 125] ++ [0; 0]) with Diverge => False | _ => True end.
Proof. apply (init_config_total _ _ _ _ (bytes "/a/${" ++ [0; 47; 10; 125])); [by apply (bool_decide_unpack _) | done | split; [by apply (bool_decide_unpack _) | done].. ]. Defined.

(** * Macros *)

(** In a text made of lines that define macros and lines that use them, the first pass
    collects the definitions; the second leaves the other lines, with each use replaced by the
    definition of that name that comes last in the text, or by nothing; or it stops when the
    result is longer than four times the text. *)
Theorem config_macros_correct first rest stale arch firmware : Forall ok_line (first :: rest) -> (line_text first = [] -> blank_start rest) ->
  ok_value arch -> ok_value firmware ->
  let text := doc_text first rest in let c := text ++ stale in let ms := defined (first :: rest) (builtin arch firmware) in
  load_macros (length c) c (zlen text) 0 (builtin arch firmware) = Ret ms /\
  expand_macros (length c) ms c (zlen text) (zlen text * 4) 0 [] =
    if zlen (doc_out ms first rest) <=? zlen text * 4 then Ret (doc_out ms first rest) else Panic.
Proof. apply macros_spec. Qed.
Lemma config_macros_correct_witness :
  let text := doc_text ex_first ex_rest in let ms := defined (ex_first :: ex_rest) (builtin (bytes "x86-64") (bytes "BIOS")) in
  expand_macros (length (text ++ [])) ms (text ++ []) (zlen text) (zlen text * 4) 0 [] =
  Ret (bytes "timeout: 5" ++ 10 :: bytes "/Linux" ++ 10 :: bytes "path: boot():/vm.x86-64" ++ 10 :: 10 :: bytes "/+Tools" ++ 10 :: bytes "//Check" ++ 10 :: bytes "comment: of memory" ++ [10; 0]).
Proof.
  destruct (config_macros_correct ex_first ex_rest [] (bytes "x86-64") (bytes "BIOS")) as [_ H];
    [by apply (bool_decide_unpack _) | by vm_compute | by apply (bool_decide_unpack _) | by apply (bool_decide_unpack _) |].
  cbv zeta. etransitivity; [exact H | by vm_compute].
Defined.

(** A definition in the second line, after an empty first one, is entered under a name that
    starts with the brace of its mark: a use of the name it was given finds what the text would
    give without that line. *)
Theorem config_macro_lost name value rest stale ms : ok_name (123 :: name) -> ok_value value -> Forall ok_line rest ->
  let text := doc_text (Text []) (Define name value :: rest) in let c := text ++ stale in
  exists ms', load_macros (length c) c (zlen text) 0 ms = Ret ms' /\ macro_value ms' name = macro_value (defined rest ms) name.
Proof.
  intros Hn Hv HF text c. eexists. split; [by apply load_second |]. apply macro_value_defined. intros E. apply (f_equal length) in E. simpl in E. lia.
Qed.
Lemma config_macro_lost_witness :
  let c := 10 :: bytes "${K}=vm" ++ [10; 0] in exists ms', load_macros (length c) c (zlen c) 0 [] = Ret ms' /\ macro_value ms' (bytes "K") = [].
Proof.
  apply (config_macro_lost (bytes "K") (bytes "vm") [] [] []); [by apply (bool_decide_unpack _).. | constructor].
Defined.

(** * Options *)

(** [config_get_value] finds the value of the line [index] of those that start with the key
    and a colon, in any case: what follows the colon and blanks up to the end of the line, at most
    4095 bytes of it; and nothing when there are fewer such lines. *)
Theorem config_get_value_correct fuel m g config k key index text ls :
  g.(config_ready) = true -> cstr (str m (default g.(config_addr) config)) text -> lines_of text ls -> Forall ok_line_text ls ->
  cstr key k -> ok_key k -> 0 <= index -> (length text <= fuel)%nat -> (length k <= fuel)%nat ->
  exists g', config_get_value fuel m g config index (Some key) = Ret (g', lookup_key k (Z.to_nat index) ls).
Proof.
  intros Hr Ht Hls HF Hkey Hk Hi Hf Hfk. rewrite (get_value_spec _ _ _ _ _ k _ _ text ls) by done. rewrite (lookup_key_lines _ _ _ 0).
  destruct (key_lines k 0 ls !! Z.to_nat index) as [[v o]|]; eexists; done.
Qed.
Definition ex_options : list (list Z) := [bytes "Module_Path: boot():/a"; bytes "module_path:	boot():/b"; bytes "module_string: b"; bytes "module_path: boot():/c"; bytes "module_string: c"].
Definition ex_memory : mem := mem_of 0x1000 (text_of_lines ex_options ++ [0]).
Definition ex_globals : globals := {| config_ready := true; config_addr := 0x1000; lastkey := 0 |}.
Lemma ex_options_cstr : cstr (str ex_memory 0x1000) (text_of_lines ex_options).
Proof. apply cstr_mem_of. by apply (bool_decide_unpack _). Qed.
Lemma ex_key s : bool_decide (Forall (fun b => 0 < b < 256 /\ b <> 10) (bytes s)) = true -> bytes s <> [] -> cstr (lit s) (bytes s) /\ ok_key (bytes s).
Proof. intros H%bool_decide_eq_true Hn. split; [|by split]. apply cstr_lit. eapply Forall_impl; [exact H |]. by intros b [? _]. Qed.
Lemma config_get_value_correct_witness :
  exists g', config_get_value 200 ex_memory ex_globals None 1 (Some (lit "MODULE_PATH")) = Ret (g', Some (bytes "boot():/b")).
Proof.
  destruct (ex_key "MODULE_PATH" eq_refl ltac:(done)) as [Hc Hk].
  destruct (config_get_value_correct 200 ex_memory ex_globals None (bytes "MODULE_PATH") (lit "MODULE_PATH") 1 _ ex_options eq_refl ex_options_cstr (or_introl eq_refl)) as [g' Hg'];
    [by apply (bool_decide_unpack _) | done | done | done | by apply Nat.leb_le | by apply Nat.leb_le |].
  exists g'. etransitivity; [exact Hg' |]. by vm_compute.
Defined.

(** [config_get_tuple] pairs the value of a line with the key [key1] with that of the first
    line with [key2] after it and before the next line with [key1], if there is one. *)
Theorem config_get_tuple_correct fuel m g config k1 k2 key1 key2 text A l B :
  g.(config_ready) = true -> cstr (str m (default g.(config_addr) config)) text -> lines_of text (A ++ l :: B) -> Forall ok_line_text (A ++ l :: B) ->
  cstr key1 k1 -> ok_key k1 -> cstr key2 k2 -> ok_key k2 -> (length text <= fuel)%nat -> (length k1 <= fuel)%nat -> (length k2 <= fuel)%nat ->
  has_key k1 l = true -> has_key k2 (drop (Z.to_nat (value_off k1 l)) l) = false -> Forall (fun l => has_key k1 l && has_key k2 l = false) B ->
  exists g', config_get_tuple fuel m g config (zlen (filter (fun l => has_key k1 l = true) A)) key1 key2 =
    Ret (g', (Some (line_value k1 l), lookup_key k2 0 (until_key k1 B))).
Proof. intros. by apply (get_tuple_spec fuel m g config (default g.(config_addr) config) k1 k2 key1 key2 text). Qed.
Lemma config_get_tuple_correct_witness :
  (exists g', config_get_tuple 200 ex_memory ex_globals None 0 (lit "MODULE_PATH") (lit "MODULE_STRING") = Ret (g', (Some (bytes "boot():/a"), None))) /\
  (exists g', config_get_tuple 200 ex_memory ex_globals None 1 (lit "MODULE_PATH") (lit "MODULE_STRING") = Ret (g', (Some (bytes "boot():/b"), Some (bytes "b")))).
Proof.
  destruct (ex_key "MODULE_PATH" eq_refl ltac:(done)) as [Hc1 Hk1]. destruct (ex_key "MODULE_STRING" eq_refl ltac:(done)) as [Hc2 Hk2]. split.
  - apply (config_get_tuple_correct 200 ex_memory ex_globals None (bytes "MODULE_PATH") (bytes "MODULE_STRING") _ _ _ [] (bytes "Module_Path: boot():/a") (drop 1 ex_options) eq_refl ex_options_cstr (or_introl eq_refl));
      try done; try (by apply (bool_decide_unpack _)); by apply Nat.leb_le.
  - apply (config_get_tuple_correct 200 ex_memory ex_globals None (bytes "MODULE_PATH") (bytes "MODULE_STRING") _ _ _ (take 1 ex_options) (bytes "module_path:	boot():/b") (drop 2 ex_options) eq_refl ex_options_cstr (or_introl eq_refl));
      try done; try (by apply (bool_decide_unpack _)); by apply Nat.leb_le.
Defined.

(** * The checksum *)

(** A hash as the installer writes it into the executable. *)
Definition hex_digit (d : Z) : Z := if d <? 10 then 48 + d else 87 + d.
Fixpoint hex_of (h : list Z) : list Z := match h with [] => [] | b :: h => hex_digit (b / 16) :: hex_digit (b mod 16) :: hex_of h end.

Lemma digit_of_hex d : 0 <= d < 16 -> digit_to_int (schar (hex_digit d)) = d.
Proof.
  intros Hd. pose proof (seqZ_forallb (fun d => digit_to_int (schar (hex_digit d)) =? d) 16 d) as H. apply Z.eqb_eq, H; [done | by vm_compute].
Qed.
Lemma hex_lookup h : forall i b, h !! i = Some b -> (hex_of h).[Z.of_nat i * 2] = hex_digit (b / 16) /\ (hex_of h).[Z.of_nat i * 2 + 1] = hex_digit (b mod 16).
Proof.
  induction h as [|a h IH]; intros [|i] b Hi; [done | done | by injection Hi as -> |]. destruct (IH i b Hi) as [H1 H2]. cbn [hex_of].
  unfold aget in *. replace (Z.to_nat (Z.of_nat (S i) * 2)) with (S (S (Z.to_nat (Z.of_nat i * 2)))) by lia.
  replace (Z.to_nat (Z.of_nat (S i) * 2 + 1)) with (S (S (Z.to_nat (Z.of_nat i * 2 + 1)))) by lia. done.
Qed.
Lemma hash_hex h : length h = 64%nat -> Forall is_byte h -> hash_of_digits (hex_of h) = Some h.
Proof.
  intros Hl HF. unfold hash_of_digits. set (f := fun (i : nat) (r : option (list Z)) => _).
  assert (forall k, (k <= 64)%nat -> foldr f (Some []) (seq (64 - k) k) = Some (drop (64 - k) h)) as H; [|exact (H 64%nat ltac:(lia))].
  induction k as [|k IH]; intros Hk; [cbn [seq foldr]; by rewrite drop_ge by lia |].
  replace (seq (64 - S k) (S k)) with ((64 - S k)%nat :: seq (64 - k) k) by (cbn [seq]; do 2 f_equal; lia). cbn [foldr]. rewrite IH by lia.
  destruct (lookup_lt_is_Some_2 h (64 - S k)) as [b Hb]; [lia |]. rewrite (drop_S _ _ _ Hb). replace (S (64 - S k)) with (64 - k)%nat by lia.
  destruct (hex_lookup h _ b Hb) as [H1 H2]. rewrite Forall_lookup in HF. pose proof (HF _ _ Hb) as Hbyte. unfold is_byte in Hbyte. unfold f at 1. cbn [mbind option_bind]. rewrite H1, H2.
  pose proof (Z.div_pos b 16). pose proof (Z.div_lt_upper_bound b 16 16). pose proof (Z.mod_pos_bound b 16). rewrite !digit_of_hex by lia.
  rewrite !(proj2 (Z.eqb_neq _ (-1))) by lia. cbn [orb]. do 2 f_equal. rewrite nibbles by lia. symmetry. apply Z.div_mod. lia.
Qed.

Lemma check_b2sum_spec h text : length h = 64%nat -> Forall is_byte h -> h <> replicate 64 0 -> zlen text < 2 ^ 128 ->
  check_b2sum (hex_of h) text = if decide (blake2b_spec text = h) then Ret false else Panic.
Proof.
  intros Hl HF Hne Ht. unfold check_b2sum.
  assert ((memcmp (fun i => (hex_of h).[i]) (fun _ => 48) 128 =? 0) = false) as ->.
  { apply Z.eqb_neq. intros H. unfold memcmp in H. rewrite memcmp_loop_zero in H. apply Hne, list_eq_same_length with 64%nat; [done.. |].
    intros i x y Hi Hx [-> _]%lookup_replicate. destruct (hex_lookup h i x Hx) as [H1 H2]. rewrite Forall_lookup in HF. pose proof (HF _ _ Hx) as Hb. unfold is_byte in Hb.
    rewrite H in H1, H2 by lia. pose proof (Z.div_pos x 16). pose proof (Z.div_lt_upper_bound x 16 16). pose proof (Z.mod_pos_bound x 16).
    apply (f_equal (fun d => digit_to_int (schar d))) in H1, H2. rewrite digit_of_hex in H1, H2 by lia. cbn in H1, H2. pose proof (Z.div_mod x 16). lia. }
  rewrite blake2b_whole, hash_hex by done. cbn [mbind outcome_bind or_panic]. pose proof (spec_length text) as Hs. pose proof (memcmp_lists h (blake2b_spec text) ltac:(lia)) as Hm.
  replace (zlen h) with Blake2b.OUT_BYTES in Hm by (unfold zlen; by rewrite Hl). destruct (memcmp _ _ Blake2b.OUT_BYTES =? 0); cbn [negb].
  - rewrite decide_True; [done |]. symmetry. by apply Hm.
  - rewrite decide_False; [done |]. intros E. symmetry in E. apply Hm in E. done.
Qed.

(** An executable that carries the hash of a configuration accepts the texts with that
    BLAKE2b hash, and does not let them be edited; any other text stops it. *)
Theorem check_b2sum_correct h text : length h = 64%nat -> Forall is_byte h -> h <> replicate 64 0 -> zlen text < 2 ^ 128 ->
  check_b2sum (hex_of h) text = if decide (blake2b_spec text = h) then Ret false else Panic.
Proof. apply check_b2sum_spec. Qed.
Definition ex_hash : list Z := Eval vm_compute in blake2b_spec (bytes "abc").
Lemma check_b2sum_correct_witness : check_b2sum (hex_of ex_hash) (bytes "abc") = Ret false /\ check_b2sum (hex_of ex_hash) (bytes "abd") = Panic.
Proof.
  assert (Forall is_byte ex_hash) as HF by (unfold is_byte; by apply (bool_decide_unpack _)).
  split; (etransitivity; [apply (check_b2sum_correct ex_hash); [reflexivity | exact HF | by apply (bool_decide_unpack _) | done] | vm_compute; reflexivity]).
Defined.

(** * SMBIOS *)

Lemma strnlen_at s l : forall k i, cstr (tail s i) l -> (length l < k)%nat -> strnlen_loop k s i = i + zlen l.
Proof.
  induction l as [|b l IH]; intros [|k] i Hc Hk; try (simpl in Hk; lia); cbn [strnlen_loop]; rewrite (cstr_head _ _ _ Hc).
  - change (zlen (@nil Z)) with 0. by rewrite Z.add_0_r.
  - apply cstr_next in Hc as (_ & Hb & Hc). rewrite (proj2 (Z.eqb_neq b 0)), IH by (done || simpl in Hk; lia). rewrite zlen_cons. lia.
Qed.

Lemma smbios_loops fuel m table_length hdr : hdr <> 0 -> 4 <= table_length -> m hdr = 11 -> 4 <= m (hdr + 1) ->
  smbios_struct_size m hdr table_length <> 0 -> 14 < smbios_struct_size m hdr table_length - m (hdr + 1) ->
  cstr (str m (hdr + m (hdr + 1))) (bytes "limine:config:") ->
  smbios_config fuel m table_length 0 hdr = Diverge.
Proof.
  intros Hh Ht H11 Hl Hs Hp Hc. unfold smbios_config. rewrite !(proj2 (Z.eqb_neq _ 0)) by lia. cbn [orb]. generalize 0 at 3 as num.
  induction fuel as [|fuel IH]; intros num; [done |]. cbn [smbios_loop Z.eqb orb negb]. rewrite Z.sub_0_r, (proj2 (Z.ltb_ge _ 4)) by lia. rewrite H11. cbn [Z.eqb Pos.eqb].
  rewrite (proj2 (Z.eqb_neq _ 0)) by done. change (zlen (bytes "limine:config:")) with 14. set (s := str m (hdr + m (hdr + 1))) in *.
  assert ((strncmp s (lit "limine:config:") 14 =? 0) = true) as ->.
  { unfold strncmp. rewrite (strncmp_loop_spec _ _ _ 0 (bytes "limine:config:") (bytes "limine:config:")); [done | by apply cstr_tail0 |]. apply cstr_tail0, cstr_lit. by apply (bool_decide_unpack _). }
  assert (strnlen s (smbios_struct_size m hdr table_length - m (hdr + 1)) = 14) as ->.
  { unfold strnlen. apply (strnlen_at s (bytes "limine:config:")); [by apply cstr_tail0 | change (length (bytes "limine:config:")) with 14%nat; lia]. }
  rewrite !Z.geb_leb, Z.gtb_ltb, (proj2 (Z.leb_le _ _)), (proj2 (Z.ltb_lt _ _)) by lia. cbn [andb Z.leb Z.compare Pos.compare Pos.compare_cont negb]. apply IH.
Qed.
(** A firmware table without a count of structures (that of a 64-bit entry point) whose
    first structure has the empty configuration as its OEM string makes the search look at that
    structure for ever. *)
Theorem smbios_config_forever size_max b2 arch firmware fuel m e32 table_length hdr : hdr <> 0 -> 4 <= table_length -> m hdr = 11 -> 4 <= m (hdr + 1) ->
  smbios_struct_size m hdr table_length <> 0 -> 14 < smbios_struct_size m hdr table_length - m (hdr + 1) ->
  cstr (str m (hdr + m (hdr + 1))) (bytes "limine:config:") ->
  init_config_smbios size_max b2 arch firmware fuel m e32 (Some {| table_maximum_size := table_length; table_address_64 := hdr |}) = Diverge.
Proof. intros. unfold init_config_smbios. cbn [table_maximum_size table_address_64]. by rewrite smbios_loops. Qed.
Definition ex_table : list Z := [11; 5; 0; 0; 1] ++ bytes "limine:config:" ++ [0; 0].
Lemma smbios_config_forever_witness :
  init_config_smbios (2 ^ 64 - 1) [] [] [] 1000 (mem_of 0x1000 ex_table) None (Some {| table_maximum_size := zlen ex_table; table_address_64 := 0x1000 |}) = Diverge.
Proof.
  apply smbios_config_forever; [done | by vm_compute | done | by vm_compute | by vm_compute | by vm_compute |].
  split; [by apply (bool_decide_unpack _) | | by vm_compute].
  intros k b Hk. do 14 (destruct k as [|k]; [by injection Hk as <- |]). done.
Defined.
