(* ===== verification/ConfigDisk.v ===== *)
(** Finding the configuration on a volume: [init_config_disk] and [init_efi_app_path] of
    [common/lib/config.c].

    The device path of the loaded image is in memory, as the firmware gives it; which build it
    is (BIOS or UEFI) is a parameter, and so is [SIZE_MAX]. *)

From S2P Require Import Prelude Libc Guid Part Iso9660 Fat32 File Blake2b Config.
Import Libc Guid Part File Config.

Module ConfigDisk.

Definition EFI_APP_PATH_LEN : Z := 128.
Definition END_DEVICE_PATH_TYPE : Z := 0x7f.
Definition END_ENTIRE_DEVICE_PATH_SUBTYPE : Z := 0xff.
Definition MEDIA_DEVICE_PATH : Z := 4.
Definition MEDIA_FILEPATH_DP : Z := 4.

(** A [CHAR16] at an address. *)
Definition char16 (m : mem) (p : Z) : Z := m p + 256 * m (p + 1).

(** The address of the file path of a device path, or [None] when it has none. *)
Fixpoint find_file_path (fuel : nat) (m : mem) (path : Z) : outcome (option Z) :=
  let type := m path in let subtype := m (path + 1) in
  if (type =? END_DEVICE_PATH_TYPE) && (subtype =? END_ENTIRE_DEVICE_PATH_SUBTYPE) then Ret None
  else if (type =? MEDIA_DEVICE_PATH) && (subtype =? MEDIA_FILEPATH_DP) then Ret (Some (path + 4))
  else match fuel with
  | O => Diverge
  | S fuel =>
      let node_length := char16 m (path + 2) in
      if node_length <? 4 then Ret None else find_file_path fuel m (path + node_length)
  end.
(** The index of the last backslash. *)
Fixpoint find_last_slash (fuel : nat) (m : mem) (file_path p : Z) (last_slash : option Z) : outcome (option Z) :=
  let c := char16 m (file_path + 2 * p) in
  if c =? 0 then Ret last_slash
  else match fuel with
  | O => Diverge
  | S fuel => find_last_slash fuel m file_path (p + 1) (if c =? 92 then Some p else last_slash)
  end.

(** The bytes of [efi_app_path]; [None] is [false]. [path] is [None] when the protocol is not
    there. *)
Definition init_efi_app_path (fuel : nat) (m : mem) (path : option Z) : outcome (option (list Z)) :=
  match path with
  | None => Ret None
  | Some path =>
      r ← find_file_path fuel m path;
      match r with
      | None => Ret None
      | Some file_path =>
          last_slash ← find_last_slash fuel m file_path 0 None;
          match last_slash with
          | None => Ret (Some [47])
          | Some s =>
              let len := s + 1 in
              let len := if len >=? EFI_APP_PATH_LEN then EFI_APP_PATH_LEN - 1 else len in
              Ret (Some ((fun i => let c := Z.land (char16 m (file_path + 2 * i)) 0xff in if c =? 92 then 47 else c) <$> seqZ 0 len))
          end
      end
  end.

(** The path that is tried first in a UEFI build. *)
Definition efi_path (fuel : nat) (m : mem) (path : option Z) : outcome (list Z) :=
  r ← init_efi_app_path fuel m path;
  Ret (match r with
       | None => bytes "/EFI/BOOT/limine.conf"
       | Some p => if zlen p + zlen (bytes "limine.conf") + 1 >=? EFI_APP_PATH_LEN then bytes "/EFI/BOOT/limine.conf" else p ++ bytes "limine.conf"
       end).

Definition search_paths : list (list Z) :=
  [bytes "/boot/limine/limine.conf"; bytes "/boot/limine.conf"; bytes "/limine/limine.conf"; bytes "/limine.conf"].

Section disk.
Context {D : Type} `{!BlockDev D}.
Variable tftp_open : (Z -> Z) -> option (list Z).
(** [Some] of the image's device path in a UEFI build. *)
Variable uefi : option (mem * option Z).
Variable SIZE_MAX : Z.
Variables (config_b2sum arch firmware : list Z).

(** The first of the paths that opens. The comparison of names ignores case. *)
Fixpoint open_first (fuel : nat) (base : Z) (contexts : list Iso9660.iso9660_context) (d : D) (vol : Z) (part : volume) (paths : list (list Z))
    : outcome (D * volume * (list Iso9660.iso9660_context * option file_handle)) :=
  match paths with
  | [] => Ret (d, part, (contexts, None))
  | p :: paths =>
      '(d, part, (contexts, r)) ← fopen tftp_open fuel base true contexts d vol part (array_str p);
      match r with
      | Some f => Ret (d, part, (contexts, Some f))
      | None => open_first fuel base contexts d vol part paths
      end
  end.

(** [None] is -1. *)
Definition init_config_disk (fuel : nat) (base : Z) (contexts : list Iso9660.iso9660_context) (d : D) (vol : Z) (part : volume)
    : outcome (D * volume * (list Iso9660.iso9660_context * option (list Z * list menu_entry * bool))) :=
  first ← match uefi with
          | None => Ret []
          | Some (m, path) => p ← efi_path fuel m path; Ret [p]
          end;
  '(d, part, (contexts, r)) ← open_first fuel base contexts d vol part (first ++ search_paths);
  match r with
  | None => Ret (d, part, (contexts, None))
  | Some f =>
      if f.(file_size) >? SIZE_MAX - 2 then Panic
      else
        let config_size := f.(file_size) + 2 in
        '(d, part, config_addr, _) ← fread f d part (replicate (Z.to_nat config_size) 0) 0 f.(file_size);
        config ← init_config SIZE_MAX config_b2sum arch firmware config_addr;
        Ret (d, part, (contexts, Some config))
  end.
End disk.
End ConfigDisk.
