(* ===== verification/ConfigDiskCorrect.v ===== *)
(** The configuration is read from the volume it is on. *)

From S2P Require Import Prelude Libc LibcCorrect Guid Part PartCorrect Iso9660 Fat32 Fat32Dir Fat32Correct Fat32Files File FileFiles Blake2b Config ConfigDisk.
Import Libc Guid Part File Config ConfigDisk.

Section disk.
Context {D : Type} `{BlockDevOk D}.
Implicit Types (d : D) (v : volume).

(** The path that is tried first. *)
Definition first_path (fuel : nat) (uefi : option (mem * option Z)) (p : list Z) : Prop :=
  match uefi with None => p = bytes "/boot/limine/limine.conf" | Some (m, path) => efi_path fuel m path = Ret p end.

(** C30: when the first path that is tried is that of a file on the volume, in any case, then
    [init_config_disk] does with exactly the bytes of that file what [init_config] does, in the
    BIOS and in the UEFI build. *)
Theorem init_config_disk_correct (tftp : (Z -> Z) -> option (list Z)) uefi SIZE_MAX b2 arch firmware fuel base cs d vol v p n data :
  dev_inv d -> vol_ok v -> first_path fuel uefi p -> Forall (fun b => 0 < b < 256) p -> zlen p + 2 < 2 ^ 32 -> (S (length p) < fuel)%nat ->
  file_at true base cs vol v (rooted p) n data -> zlen data = n -> n + 2 <= SIZE_MAX ->
  exists d' k cs', init_config_disk tftp uefi SIZE_MAX b2 arch firmware fuel base cs d vol v =
    (config ← init_config SIZE_MAX b2 arch firmware (data ++ [0; 0]); Ret (d', set_vc v k, (cs', Some config))).
Proof.
  intros Hd Hv Hp HF Hz Hf Hat Hn Hs.
  destruct (fopen_spec tftp fuel base true cs d vol v (array_str p) p n data Hd Hv (cstr_zero_end p HF) Hz Hf Hat) as (d1 & k1 & cs1 & h & Ho & Hd1 & Hv1 & Hsz & Hread).
  pose proof (zlen_nonneg data). destruct (Hread d1 k1 (replicate (Z.to_nat (n + 2)) 0) 0 n) as (d2 & k2 & Hr & _ & _); [done | done | by apply Forall_replicate | lia | rewrite zlen_replicate; lia | lia |].
  exists d2, k2, cs1.
  assert (forall rest, open_first tftp fuel base cs d vol v (p :: rest) = Ret (d1, set_vc v k1, (cs1, Some h))) as Hopen.
  { intros rest. cbn [open_first]. rewrite Ho. done. }
  assert (slice data 0 n ++ drop (Z.to_nat n) (replicate (Z.to_nat (n + 2)) 0) = data ++ [0; 0]) as Hbuf.
  { rewrite slice_all by done. f_equal. rewrite drop_replicate. replace (Z.to_nat (n + 2) - Z.to_nat n)%nat with 2%nat by lia. done. }
  rewrite Hbuf in Hr. unfold init_config_disk.
  assert (exists rest, (first ← match uefi with None => Ret [] | Some (m, path) => p ← efi_path fuel m path; Ret [p] end; Ret (first ++ search_paths)) = Ret (p :: rest)) as [rest Hfirst].
  { unfold first_path in Hp. destruct uefi as [[m path]|]; [rewrite Hp | subst p]; cbn [mbind outcome_bind]; eexists; done. }
  destruct (match uefi with None => Ret [] | Some (m, path) => _ end) as [first| |]; [|done..]. cbn [mbind outcome_bind] in Hfirst |- *. injection Hfirst as Hfirst. rewrite Hfirst, Hopen. cbn [mbind outcome_bind].
  rewrite Hsz, Z.gtb_ltb, (proj2 (Z.ltb_ge _ _)) by lia. rewrite Hr. done.
Qed.
End disk.

(** * An example: a FAT12 volume with [/boot/limine/limine.conf] *)

Definition conf_data : list Z := bytes "timeout: 5" ++ [10] ++ bytes "/NebulaOS" ++ [13; 10] ++ bytes "protocol: limine" ++ [10].
Definition conf_boot : list Z := ex_sfn "BOOT       " 0x10 2 0.
Definition conf_limine : list Z := ex_sfn "LIMINE     " 0x10 3 0.
Definition conf_file : list Z := ex_sfn "LIMINE~1CON" 0x20 4 (zlen conf_data).
Definition conf_dir : list Z := ex_lfn 0x41 (bytes "limine.conf" ++ [0] ++ replicate 1 0xffff) ++ conf_file.
Definition conf_image : list Z :=
  ex_sector ex_bpb ++ ex_sector [0xf8; 0xff; 0xff; 0xff; 0xff; 0xff; 0xff; 0x0f] ++ ex_sector conf_boot ++ ex_sector conf_limine ++ ex_sector conf_dir ++ ex_sector conf_data.
Definition conf_disk (a : Z) : Z := default 0 (conf_image !! Z.to_nat a).
Lemma conf_disk_byte a : is_byte (conf_disk a).
Proof.
  assert (forallb (fun b => (0 <=? b) && (b <? 256)) conf_image = true) as HF by (vm_compute; reflexivity).
  rewrite forallb_forall in HF. unfold conf_disk. destruct (conf_image !! Z.to_nat a) as [b|] eqn:Hb; [|done]. simpl.
  apply list_elem_of_lookup_2, list_elem_of_In, HF in Hb. unfold is_byte. lia.
Qed.
Definition conf_dev : BlockDev unit := ram_dev conf_disk.
Definition conf_ok : @BlockDevOk unit conf_dev := ram_dev_ok conf_disk conf_disk_byte.
Lemma conf_good x : x <= 8192 -> @good unit conf_dev conf_ok ram_disk x.
Proof. intros Hx. split; [by split |]. split; [done |]. exact Hx. Qed.

Lemma conf_dir_listing : listing (entries_of (ex_sector conf_dir)) [(Some (bytes "limine.conf"), conf_file)].
Proof.
  assert (entries_of (ex_sector conf_dir) = [ex_lfn 0x41 (bytes "limine.conf" ++ [0] ++ replicate 1 0xffff)] ++ conf_file :: replicate 14 (replicate 32 0)) as -> by (vm_compute; reflexivity).
  eapply (list_long 1).
  - apply run_cons; [unfold Fat32.LFN_MAX_ENTRIES; lia | by split | constructor].
  - left. exists [0xff]. vm_compute. reflexivity.
  - exact (cs_bytes _ _ (text_cstr "limine.conf" eq_refl)).
  - by split.
  - by apply list_end.
Qed.
(** A directory of one short name. *)
Lemma one_listing e : bool_decide (entries_of (ex_sector e) = e :: replicate 15 (replicate 32 0)) = true -> sfn_entry e -> listing (entries_of (ex_sector e)) [(None, e)].
Proof. intros ->%bool_decide_eq_true Hu. apply list_short; [done |]. by apply list_end. Qed.
Lemma conf_make_context : Fat32.make_context (@boot_sector unit conf_dev conf_ok ram_disk) = Some ex_context.
Proof. vm_compute. reflexivity. Qed.
(** A cluster that is a chain of its own. *)
Ltac one_cluster :=
  split; [apply chain_last; by vm_compute |]; split; [apply Forall_singleton; unfold in_fat; vm_compute; discriminate |];
  split; [vm_compute; discriminate |]; apply Forall_singleton, conf_good; vm_compute; discriminate.
Lemma conf_chain : @holds unit conf_dev conf_ok ex_context ram_disk 4 [4].
Proof. one_cluster. Qed.
Lemma conf_resolves :
  resolves true (@dir_bytes unit conf_dev conf_ok ex_context ram_disk) (Fat32.root_directory ex_context) (bytes "boot/limine/limine.conf") conf_file.
Proof.
  eapply (res_dir _ _ _ (ex_sector conf_boot) _ _ (bytes "boot") (bytes "limine/limine.conf") conf_boot); [| apply one_listing; [by vm_compute | by split] | done..|].
  - split; [done |]. split; [apply conf_good; vm_compute; discriminate |]. exists 0%nat. split; [vm_compute; reflexivity |]. vm_compute. reflexivity.
  - eapply (res_dir _ _ _ (ex_sector conf_limine) _ _ (bytes "limine") (bytes "limine.conf") conf_limine); [| apply one_listing; [by vm_compute | by split] | done..|].
    + exists [2]. split; [one_cluster | split; [vm_compute; discriminate | vm_compute; reflexivity]].
    + eapply (res_file _ _ _ (ex_sector conf_dir)); [| exact conf_dir_listing | done..].
      exists [3]. split; [one_cluster | split; [vm_compute; discriminate | vm_compute; reflexivity]].
Qed.
Lemma conf_file_at : @file_at unit conf_dev conf_ok true 0x100000 [] 7 ram_disk (rooted (bytes "/boot/limine/limine.conf")) (zlen conf_data) conf_data.
Proof.
  assert (load_bytes (@file_byte unit conf_dev conf_ok ex_context ram_disk [4]) 0 (Z.to_nat (Fat32.file_size_bytes conf_file)) = conf_data) as <- by (vm_compute; reflexivity).
  apply (@on_fat unit conf_dev conf_ok true 0x100000 [] 7 ram_disk ex_context 1 (bytes "boot/limine/limine.conf") conf_file [4]).
  - left. done.
  - by apply conf_good.
  - exact conf_make_context.
  - apply conf_good. vm_compute. discriminate.
  - done.
  - exact conf_resolves.
  - exact conf_chain.
  - vm_compute. discriminate.
Qed.

Lemma init_config_disk_correct_witness :
  exists d' k cs' c, @init_config_disk unit conf_dev (fun _ => None) None (2 ^ 32 - 1) (replicate 128 48) (bytes "x86-64") (bytes "BIOS") 30 0x100000 [] tt 7 ram_disk =
    Ret (d', set_vc ram_disk k, (cs', Some (c, [Menu (bytes "NebulaOS") (10 :: bytes "protocol: limine" ++ [10; 10]) None false []], true))).
Proof.
  destruct (@init_config_disk_correct unit conf_dev conf_ok (fun _ => None) None (2 ^ 32 - 1) (replicate 128 48) (bytes "x86-64") (bytes "BIOS") 30 0x100000 [] tt 7 ram_disk
    (bytes "/boot/limine/limine.conf") (zlen conf_data) conf_data) as (d' & k & cs' & Hr).
  - done.
  - apply ram_disk_ok.
  - done.
  - by apply (bool_decide_unpack _).
  - by vm_compute.
  - vm_compute. lia.
  - exact conf_file_at.
  - done.
  - by vm_compute.
  - exists d', k, cs'. eexists. etransitivity; [exact Hr |]. clear Hr. generalize d' cs'. vm_compute. reflexivity.
Defined.
