(* ===== verification/Mtrr.v ===== *)
(** Memory type range registers: [common/mm/mtrr.c].

    The machine is its model-specific registers, [cr0] and a trace of the instructions that
    change the memory type of an address; [saved_mtrrs], [wc_saved] and [wc_n_saved] are the
    file's variables. What [cpuid] returns is a parameter; registers read back what was
    written to them. *)

From S2P Require Import Prelude.

Module Mtrr.

Inductive event :=
| Wrmsr (n v : Z)
| Write_cr0 (v : Z)
| Wbinvd
| Flush_tlb.

(** [wc_saved] holds the first [wc_n_saved] elements: slot, base and mask. *)
Record cpu := {
  msr : Z -> Z; cr0 : Z; saved_mtrrs : option (list Z); wc_saved : list (Z * Z * Z); trace : list event }.

Definition emit (s : cpu) (e : event) : cpu :=
  {| msr := s.(msr); cr0 := s.(cr0); saved_mtrrs := s.(saved_mtrrs); wc_saved := s.(wc_saved); trace := s.(trace) ++ [e] |}.
Definition rdmsr (s : cpu) (n : Z) : Z := s.(msr) n.
Definition wrmsr (s : cpu) (n v : Z) : cpu :=
  emit {| msr := fun k => if k =? n then v else s.(msr) k; cr0 := s.(cr0); saved_mtrrs := s.(saved_mtrrs);
          wc_saved := s.(wc_saved); trace := s.(trace) |} (Wrmsr n v).
Definition write_cr0 (s : cpu) (v : Z) : cpu :=
  emit {| msr := s.(msr); cr0 := v; saved_mtrrs := s.(saved_mtrrs); wc_saved := s.(wc_saved); trace := s.(trace) |} (Write_cr0 v).
Definition set_saved (s : cpu) (l : list Z) : cpu :=
  {| msr := s.(msr); cr0 := s.(cr0); saved_mtrrs := Some l; wc_saved := s.(wc_saved); trace := s.(trace) |}.
Definition set_wc (s : cpu) (l : list (Z * Z * Z)) : cpu :=
  {| msr := s.(msr); cr0 := s.(cr0); saved_mtrrs := s.(saved_mtrrs); wc_saved := l; trace := s.(trace) |}.

Definition bit (n : Z) : Z := Z.shiftl 1 n.

Section mtrr.
(** [edx] of leaf 1 and [eax] of leaf 0x80000008; [None] when [cpuid] fails. *)
Variable cpuid_1_edx : option Z.
Variable cpuid_80000008_eax : option Z.

Definition mtrr_supported : bool :=
  match cpuid_1_edx with None => false | Some edx => Z.testbit edx 12 end.

(** The loop counter is a [uint8_t]: 128 registers or more keep it below the bound. *)
Fixpoint save_loop (fuel : nat) (s : cpu) (n i : Z) (l : list Z) : outcome (list Z) :=
  if i <? n then
    match fuel with
    | O => Diverge
    | S fuel =>
        let l := l.[i := rdmsr s (0x200 + i)] in
        let l := l.[i + 1 := rdmsr s (0x200 + i + 1)] in
        save_loop fuel s n (u8 (i + 2)) l
    end
  else Ret l.

Definition fixed : list Z := [0x250; 0x258; 0x259; 0x268; 0x269; 0x26a; 0x26b; 0x26c; 0x26d; 0x26e; 0x26f].

Definition mtrr_save (s : cpu) : outcome cpu :=
  if negb mtrr_supported then Ret s
  else
    let ia32_mtrrcap := rdmsr s 0xfe in
    let var_reg_count := Z.land ia32_mtrrcap 0xff in
    let fix_supported := Z.testbit ia32_mtrrcap 8 in
    let n := var_reg_count * 2 in
    let l := default (replicate (Z.to_nat (n + 11 + 1)) 0) s.(saved_mtrrs) in
    l ← save_loop 128 s n 0 l;
    let l := if fix_supported
             then for_up 11 0 (fun k l => l.[n + k := rdmsr s fixed.[k]]) l else l in
    let l := l.[n + 11 := rdmsr s 0x2ff] in
    Ret (set_saved s l.[n + 11 := Z.ldiff l.[n + 11] (bit 11)]).

Fixpoint restore_loop (fuel : nat) (s : cpu) (l : list Z) (n i : Z) : outcome cpu :=
  if i <? n then
    match fuel with
    | O => Diverge
    | S fuel =>
        let s := wrmsr s (0x200 + i) l.[i] in
        let s := wrmsr s (0x200 + i + 1) l.[i + 1] in
        restore_loop fuel s l n (u8 (i + 2))
    end
  else Ret s.

(** The procedure of the SDM around a change: caches off, flushed, and the TLB. *)
Definition caches_off (s : cpu) : cpu :=
  emit (emit (write_cr0 s (Z.ldiff (Z.lor s.(cr0) (bit 30)) (bit 29))) Wbinvd) Flush_tlb.
Definition caches_on (s : cpu) (old_cr0 : Z) : cpu :=
  write_cr0 (emit (emit s Flush_tlb) Wbinvd) old_cr0.

Definition mtrr_restore (s : cpu) : outcome cpu :=
  if negb mtrr_supported then Ret s
  else
    let ia32_mtrrcap := rdmsr s 0xfe in
    let var_reg_count := Z.land ia32_mtrrcap 0xff in
    let fix_supported := Z.testbit ia32_mtrrcap 8 in
    let n := var_reg_count * 2 in
    match s.(saved_mtrrs) with
    | None => Panic
    | Some l =>
        let old_cr0 := s.(cr0) in
        let s := caches_off s in
        let s := wrmsr s 0x2ff (Z.ldiff (rdmsr s 0x2ff) (bit 11)) in
        s ← restore_loop 128 s l n 0;
        let s := if fix_supported
                 then for_up 11 0 (fun k s => wrmsr s fixed.[k] l.[n + k]) s else s in
        let s := wrmsr s 0x2ff l.[n + 11] in
        let s := wrmsr s 0x2ff (Z.lor (rdmsr s 0x2ff) (bit 11)) in
        Ret (caches_on s old_cr0)
    end.

(** * Write-combining ranges for framebuffers *)

Definition WC_MAX_SLOTS : Z := 4.
Definition MTRR_TYPE_WC : Z := 1.

(** [aligned_size], from 0x1000 on; it overflows to 0 after at most 52 doublings. *)
Fixpoint align_size (fuel : nat) (aligned_size size : Z) : option Z :=
  if aligned_size <? size then
    match fuel with
    | O => None
    | S fuel =>
        let aligned_size := u64 (Z.shiftl aligned_size 1) in
        if aligned_size =? 0 then None else align_size fuel aligned_size size
    end
  else Some aligned_size.

(** Whether a page from [a] on, [n] of them, is in the range. *)
Fixpoint page_in (n : nat) (a exist_base exist_mask : Z) : bool :=
  match n with
  | O => false
  | S n => (Z.land a exist_mask =? Z.land exist_base exist_mask) || page_in n (a + 0x1000) exist_base exist_mask
  end.
(** The pages of [a = base; a < base + size]: none when the sum overflows. *)
Definition pages (base size : Z) : nat := Z.to_nat ((u64 (base + size) - base) / 0x1000).

Definition enabled (s : cpu) (i : Z) : bool := Z.testbit (rdmsr s (0x200 + i * 2 + 1)) 11.

(** [n] slots from [i] on. *)
Fixpoint overlaps (n : nat) (s : cpu) (i base size : Z) : bool :=
  match n with
  | O => false
  | S n =>
      let mb := rdmsr s (0x200 + i * 2) in
      let mm := rdmsr s (0x200 + i * 2 + 1) in
      (enabled s i && page_in (pages base size) base (Z.ldiff mb 0xfff) (Z.ldiff mm 0xfff)) || overlaps n s (i + 1) base size
  end.
Fixpoint free_slot (n : nat) (s : cpu) (i : Z) : option Z :=
  match n with
  | O => None
  | S n => if negb (enabled s i) then Some i else free_slot n s (i + 1)
  end.

Definition mtrr_wc_add_fb_range (s : cpu) (base size : Z) : cpu * bool :=
  if (size =? 0) || negb mtrr_supported then (s, false)
  else if zlen s.(wc_saved) >=? WC_MAX_SLOTS then (s, false)
  else
    let mtrrcap := rdmsr s 0xfe in
    if negb (Z.testbit mtrrcap 10) then (s, false)
    else
      let var_reg_count := Z.to_nat (Z.land mtrrcap 0xff) in
      match cpuid_80000008_eax with
      | None => (s, false)
      | Some eax =>
          let maxphysaddr := Z.land eax 0xff in
          if (maxphysaddr <? 32) || (maxphysaddr >? 52) then (s, false)
          else
            let base := Z.ldiff base 0xfff in
            match align_size 52 0x1000 size with
            | None => (s, false)
            | Some size =>
                if negb (Z.land base (size - 1) =? 0) then (s, false)
                else
                  let mask := Z.ldiff (Z.shiftl 1 maxphysaddr - 1) (size - 1) in
                  if overlaps var_reg_count s 0 base size then (s, false)
                  else
                    match free_slot var_reg_count s 0 with
                    | None => (s, false)
                    | Some slot =>
                        let old_cr0 := s.(cr0) in
                        let s := caches_off s in
                        let mtrr_def := rdmsr s 0x2ff in
                        let s := wrmsr s 0x2ff (Z.ldiff mtrr_def (bit 11)) in
                        let s := set_wc s (s.(wc_saved) ++
                          [(slot, rdmsr s (0x200 + slot * 2), rdmsr s (0x200 + slot * 2 + 1))]) in
                        let s := wrmsr s (0x200 + slot * 2) (Z.lor base MTRR_TYPE_WC) in
                        let s := wrmsr s (0x200 + slot * 2 + 1) (Z.lor mask (bit 11)) in
                        let s := wrmsr s 0x2ff (Z.lor mtrr_def (bit 11)) in
                        (caches_on s old_cr0, true)
                    end
            end
      end.

Definition put_back (s : cpu) (e : Z * Z * Z) : cpu :=
  let '(slot, saved_base, saved_mask) := e in
  wrmsr (wrmsr s (0x200 + slot * 2) saved_base) (0x200 + slot * 2 + 1) saved_mask.

Definition mtrr_wc_clear_fb_ranges (s : cpu) : cpu :=
  if zlen s.(wc_saved) =? 0 then s
  else if negb mtrr_supported then set_wc s []
  else
    let old_cr0 := s.(cr0) in
    let s := caches_off s in
    let mtrr_def := rdmsr s 0x2ff in
    let s := wrmsr s 0x2ff (Z.ldiff mtrr_def (bit 11)) in
    let s := foldl put_back s s.(wc_saved) in
    let s := wrmsr s 0x2ff mtrr_def in
    set_wc (caches_on s old_cr0) [].

End mtrr.
End Mtrr.
