(* ===== verification/MtrrCorrect.v ===== *)
(** Saving and restoring the range registers gives them back, adding and clearing the
    write-combining ranges too, and a range that is added matches exactly its addresses. *)

From S2P Require Import Prelude Mtrr.
Import Mtrr.

(** * The protocol *)

(** A range register is only written with the caches off ([CD] set, [NW] clear in [cr0]) and
    the registers disabled (bit 11 of 0x2ff). *)
Fixpoint disciplined (off disabled : bool) (l : list event) : bool :=
  match l with
  | [] => true
  | Wrmsr n v :: l =>
      if n =? 0x2ff then disciplined off (negb (Z.testbit v 11)) l
      else off && disabled && disciplined off disabled l
  | Write_cr0 v :: l => disciplined (Z.testbit v 30 && negb (Z.testbit v 29)) disabled l
  | _ :: l => disciplined off disabled l
  end.

Definition range_write (e : event) : Prop := match e with Wrmsr n _ => n <> 0x2ff | _ => False end.

Lemma disciplined_writes l1 l2 : Forall range_write l1 -> disciplined true true l2 = true -> disciplined true true (l1 ++ l2) = true.
Proof.
  intros HF Hl. induction HF as [|e l1 He _ IH]; simpl; [done |]. destruct e as [n v| | |]; simpl in *; try done.
  by rewrite (proj2 (Z.eqb_neq _ _) He).
Qed.

(** From [s] to [s'] the protocol has been followed. *)
Definition follows (s s' : cpu) : Prop :=
  exists l, s'.(trace) = s.(trace) ++ l /\ forall off disabled, disciplined off disabled l = true.

Lemma cr0_off x : let v := Z.ldiff (Z.lor x (bit 30)) (bit 29) in Z.testbit v 30 && negb (Z.testbit v 29) = true.
Proof.
  cbv zeta. unfold bit. rewrite !Z.ldiff_spec, !Z.lor_spec. change (Z.shiftl 1 30) with (2 ^ 30). change (Z.shiftl 1 29) with (2 ^ 29).
  rewrite !Z.pow2_bits_eqb by lia. by destruct (Z.testbit x 30), (Z.testbit x 29).
Qed.
Lemma off_bit x : Z.testbit (Z.ldiff x (bit 11)) 11 = false.
Proof. unfold bit. rewrite Z.ldiff_spec. change (Z.shiftl 1 11) with (2 ^ 11). rewrite Z.pow2_bits_true by lia. apply andb_false_r. Qed.

(** Writes between turning the caches off and turning them on again. *)
Lemma disciplined_window c w l vs old off disabled :
  Z.testbit c 30 && negb (Z.testbit c 29) = true -> Z.testbit w 11 = false -> Forall range_write l ->
  disciplined off disabled
    ([Write_cr0 c; Wbinvd; Flush_tlb; Wrmsr 0x2ff w] ++ l ++ (Wrmsr 0x2ff <$> vs) ++ [Flush_tlb; Wbinvd; Write_cr0 old]) = true.
Proof.
  intros Hc Hw HF. cbn [app disciplined]. change (0x2ff =? 0x2ff) with true. cbv iota. rewrite Hc, Hw. cbn [negb].
  apply disciplined_writes; [done |]. clear. generalize true at 1 as off. generalize true at 1 as disabled.
  induction vs as [|v vs IH]; intros disabled off; [done |].
  cbn [fmap list_fmap app disciplined]. change (0x2ff =? 0x2ff) with true. cbv iota. apply IH.
Qed.

Lemma writes_trace vs : forall s, (foldl (fun s v => wrmsr s 0x2ff v) s vs).(trace) = s.(trace) ++ (Wrmsr 0x2ff <$> vs).
Proof.
  induction vs as [|v vs IH]; intros s; simpl; [by rewrite app_nil_r |]. rewrite IH. simpl. by rewrite <- app_assoc.
Qed.

Lemma follows_window s s3 d l vs old :
  s3.(trace) = (wrmsr (caches_off s) 0x2ff (Z.ldiff d (bit 11))).(trace) ++ l -> Forall range_write l ->
  follows s (caches_on (foldl (fun s v => wrmsr s 0x2ff v) s3 vs) old).
Proof.
  intros Ht HF. eexists. split; [| intros off disabled;
    apply (disciplined_window _ _ l vs old off disabled (cr0_off s.(cr0)) (off_bit d) HF)].
  unfold caches_on, write_cr0. cbn [trace emit]. rewrite writes_trace, Ht. cbn [trace emit wrmsr caches_off write_cr0].
  rewrite <- !app_assoc. reflexivity.
Qed.

(** * Saving and restoring *)

Section mtrr.
Context (edx eax : option Z).
Hypothesis supported : mtrr_supported edx = true.

Definition nvar (s : cpu) : Z := Z.land (msr s 0xfe) 0xff.

Lemma nvar_range s : 0 <= nvar s < 256.
Proof. unfold nvar. change 0xff with (Z.ones 8). rewrite Z.land_ones by lia. apply Z.mod_pos_bound. lia. Qed.

Lemma save_loop_spec fuel s n i l :
  0 <= i -> i mod 2 = 0 -> n mod 2 = 0 -> i <= n <= 254 -> n - i <= 2 * Z.of_nat fuel -> n <= zlen l ->
  exists l', save_loop fuel s n i l = Ret l' /\ zlen l' = zlen l /\
    forall k, 0 <= k -> l'.[k] = if (i <=? k) && (k <? n) then msr s (0x200 + k) else l.[k].
Proof.
  revert i l; induction fuel as [|fuel IH]; intros i l Hi Hi2 Hn2 Hin Hf Hl; cbn [save_loop].
  all: destruct (Z.ltb_spec i n) as [Hlt|Hge]; try lia.
  1, 3: exists l; split; [done |]; split; [done |]; intros k Hk; case_if; [lia | done].
  assert (i + 1 < n) by (Z.to_euclidean_division_equations; lia).
  rewrite u8_small by lia.
  destruct (IH (i + 2) (l.[i := rdmsr s (0x200 + i)]).[i + 1 := rdmsr s (0x200 + i + 1)]) as (l' & -> & Hz & Hk);
    rewrite ?zlen_aset; try lia; [Z.to_euclidean_division_equations; lia |].
  exists l'. rewrite !zlen_aset in Hz. split; [done |]. split; [done |]. intros k Hk0. rewrite Hk by done.
  rewrite !aget_aset by (rewrite ?zlen_aset; lia). unfold rdmsr.
  destruct (Z.eqb_spec (i + 1) k) as [<-|]; [repeat case_if; try lia; f_equal; lia |].
  destruct (Z.eqb_spec i k) as [<-|]; repeat case_if; try lia; done.
Qed.

(** The registers a restore writes, and what with. *)
Lemma restore_loop_spec fuel s l n i :
  0 <= i -> i mod 2 = 0 -> n mod 2 = 0 -> i <= n <= 254 -> n - i <= 2 * Z.of_nat fuel ->
  exists s' evs, restore_loop fuel s l n i = Ret s' /\ s'.(trace) = s.(trace) ++ evs /\ Forall range_write evs /\
    s'.(cr0) = s.(cr0) /\ (forall k, msr s' k = if (0x200 + i <=? k) && (k <? 0x200 + n) then l.[k - 0x200] else msr s k).
Proof.
  revert i s; induction fuel as [|fuel IH]; intros i s Hi Hi2 Hn2 Hin Hf; cbn [restore_loop].
  all: destruct (Z.ltb_spec i n) as [Hlt|Hge]; try lia.
  1, 3: exists s, []; rewrite app_nil_r; split_and!; try done; intros k; case_if; [lia | done].
  assert (i + 1 < n) by (Z.to_euclidean_division_equations; lia).
  rewrite u8_small by lia.
  destruct (IH (i + 2) (wrmsr (wrmsr s (0x200 + i) l.[i]) (0x200 + i + 1) l.[i + 1])) as (s' & evs & -> & Ht & HF & Hc & Hm);
    try lia; [Z.to_euclidean_division_equations; lia |].
  exists s', (Wrmsr (0x200 + i) l.[i] :: Wrmsr (0x200 + i + 1) l.[i + 1] :: evs). split_and!; try done.
  - rewrite Ht. simpl. by rewrite <- !app_assoc.
  - repeat constructor; simpl; try lia. done.
  - intros k. rewrite Hm. simpl. destruct (Z.eqb_spec k (0x200 + i + 1)) as [->|].
    + repeat case_if; try lia. f_equal. lia.
    + destruct (Z.eqb_spec k (0x200 + i)) as [->|]; repeat case_if; try lia; f_equal; lia.
Qed.

Definition has_fixed (s : cpu) : bool := Z.testbit (msr s 0xfe) 8.

(** [l] holds the registers of [s]. *)
Record holds (s : cpu) (l : list Z) : Prop := {
  h_len : zlen l = nvar s * 2 + 12;
  h_var k : 0 <= k < nvar s * 2 -> l.[k] = msr s (0x200 + k);
  h_fixed k : has_fixed s = true -> 0 <= k < 11 -> l.[nvar s * 2 + k] = msr s fixed.[k];
  h_def : l.[nvar s * 2 + 11] = Z.ldiff (msr s 0x2ff) (bit 11) }.

Lemma save_fixed_spec s n l :
  0 <= n -> n + 12 <= zlen l ->
  let l' := for_up 11 0 (fun k l => l.[n + k := rdmsr s fixed.[k]]) l in
  zlen l' = zlen l /\ forall k, 0 <= k -> l'.[k] = if (n <=? k) && (k <? n + 11) then msr s fixed.[k - n] else l.[k].
Proof.
  intros Hn Hl. cbv zeta.
  refine (for_up_ind (fun j l' => zlen l' = zlen l /\ forall k, 0 <= k ->
    l'.[k] = if (n <=? k) && (k <? n + j) then msr s fixed.[k - n] else l.[k]) 11 0 _ l _ _).
  - split; [done |]. intros k Hk. case_if; [lia | done].
  - intros j l' Hj [Hz Hk]. split; [by rewrite zlen_aset |]. intros k Hk0. rewrite aget_aset by lia.
    destruct (Z.eqb_spec (n + j) k) as [<-|].
    + case_if; [|lia]. unfold rdmsr. do 2 f_equal. lia.
    + rewrite Hk by done. repeat case_if; try lia; done.
Qed.

Lemma mtrr_save_spec s :
  nvar s <= 127 -> (forall l, s.(saved_mtrrs) = Some l -> zlen l = nvar s * 2 + 12) ->
  exists l, mtrr_save edx s = Ret (set_saved s l) /\ holds s l.
Proof using supported.
  intros Hv Hs. pose proof (nvar_range s) as Hr. unfold mtrr_save. rewrite supported. cbn [negb].
  change (Z.land (rdmsr s 0xfe) 0xff) with (nvar s). change (Z.testbit (rdmsr s 0xfe) 8) with (has_fixed s).
  set (n := nvar s * 2) in *. set (l0 := default _ _).
  assert (zlen l0 = n + 12) as Hl0.
  { unfold l0. destruct (saved_mtrrs s) as [l|]; cbn; [by apply Hs |]. rewrite zlen_replicate. lia. }
  clearbody l0. destruct (save_loop_spec 128 s n 0 l0) as (l1 & -> & Hz1 & Hk1); try lia; try done.
  { unfold n. by rewrite Z.mod_mul. }
  cbn [mbind outcome_bind].
  set (l2 := if has_fixed s then _ else l1).
  assert (zlen l2 = n + 12 /\ (forall k, 0 <= k < n -> l2.[k] = msr s (0x200 + k)) /\
    (has_fixed s = true -> forall k, 0 <= k < 11 -> l2.[n + k] = msr s fixed.[k])) as (Hz2 & Hk2 & Hf2).
  { assert (forall k, 0 <= k < n -> l1.[k] = msr s (0x200 + k)) as Hv1 by (intros k Hk; rewrite Hk1 by lia; case_if; [done | lia]).
    destruct (save_fixed_spec s n l1 ltac:(lia) ltac:(lia)) as [Hz Hk]. unfold l2. destruct (has_fixed s); [|split_and!; [lia | done | done]].
    split_and!; [lia | |].
    - intros k Hk0. rewrite Hk by lia. case_if; [lia |]. by apply Hv1.
    - intros _ k Hk0. rewrite Hk by lia. case_if; [|lia]. do 2 f_equal. lia. }
  clearbody l2. eexists. split; [done |]. fold n. constructor; fold n; rewrite ?zlen_aset; try done.
  - intros k Hk. rewrite !aget_aset by (rewrite ?zlen_aset; lia). case_if; [lia |]. by apply Hk2.
  - intros k Hf Hk. rewrite !aget_aset by (rewrite ?zlen_aset; lia). case_if; [lia |]. by apply Hf2.
  - rewrite !aget_aset by (rewrite ?zlen_aset; lia). by rewrite !Z.eqb_refl.
Qed.

(** The registers under management. *)
Definition managed (s : cpu) (k : Z) : bool :=
  ((0x200 <=? k) && (k <? 0x200 + nvar s * 2)) || (has_fixed s && bool_decide (k ∈ fixed)).

Lemma restore_fixed_spec s0 s l n :
  (forall k, 0 <= k < 11 -> l.[n + k] = msr s0 fixed.[k]) ->
  let s' := for_up 11 0 (fun k s => wrmsr s fixed.[k] l.[n + k]) s in
  exists evs, s'.(trace) = s.(trace) ++ evs /\ Forall range_write evs /\ s'.(cr0) = s.(cr0) /\
    forall k, msr s' k = if bool_decide (k ∈ fixed) then msr s0 k else msr s k.
Proof.
  intros Hl. cbv zeta.
  change fixed with (take (Z.to_nat (0 + Z.of_nat 11)) fixed) at 2.
  refine (for_up_ind (fun j s' => exists evs, s'.(trace) = s.(trace) ++ evs /\ Forall range_write evs /\ s'.(cr0) = s.(cr0) /\
    forall k, msr s' k = if bool_decide (k ∈ take (Z.to_nat j) fixed) then msr s0 k else msr s k) 11 0 _ s _ _).
  - exists []. rewrite app_nil_r. split_and!; try done.
  - intros j s' Hj (evs & Ht & HF & Hc & Hm). exists (evs ++ [Wrmsr fixed.[j] l.[n + j]]). split_and!; try done.
    + simpl. rewrite Ht. by rewrite <- app_assoc.
    + apply Forall_app. split; [done |]. apply Forall_singleton. simpl.
      intros He. assert (fixed.[j] <= 0x26f); [|lia].
      apply Z.leb_le. exact (seqZ_forallb (fun j => fixed.[j] <=? 0x26f) 11 j eq_refl ltac:(lia)).
    + intros k. simpl. rewrite Hm, Hl by lia.
      assert (take (Z.to_nat (j + 1)) fixed = take (Z.to_nat j) fixed ++ [fixed.[j]]) as ->.
      { replace (Z.to_nat (j + 1)) with (S (Z.to_nat j)) by lia. apply take_S_r. unfold aget. apply list_lookup_lookup_total_lt.
        change (length fixed) with 11%nat. lia. }
      destruct (Z.eqb_spec k fixed.[j]) as [->|Hne].
      * rewrite bool_decide_true; [done | set_solver].
      * destruct (decide (k ∈ take (Z.to_nat j) fixed)).
        -- by rewrite !bool_decide_true by set_solver.
        -- by rewrite !bool_decide_false by set_solver.
Qed.

Lemma def_back x : Z.lor (Z.ldiff x (bit 11)) (bit 11) = Z.lor x (bit 11).
Proof. apply Z.bits_inj. intros k. rewrite !Z.lor_spec, Z.ldiff_spec. by destruct (Z.testbit x k), (Z.testbit (bit 11) k). Qed.

Lemma mtrr_restore_spec s0 s l :
  nvar s0 <= 127 -> holds s0 l -> s.(saved_mtrrs) = Some l -> msr s 0xfe = msr s0 0xfe ->
  exists s', mtrr_restore edx s = Ret s' /\ follows s s' /\ s'.(cr0) = s.(cr0) /\
    forall k, msr s' k = if k =? 0x2ff then Z.lor (msr s0 0x2ff) (bit 11) else if managed s0 k then msr s0 k else msr s k.
Proof using supported.
  intros Hv [Hlen Hvar Hfix Hdef] Hs Hcap. pose proof (nvar_range s0) as Hr. unfold mtrr_restore. rewrite supported, Hs. cbn [negb].
  change (rdmsr s 0xfe) with (msr s 0xfe). rewrite Hcap. fold (nvar s0). fold (has_fixed s0). set (n := nvar s0 * 2) in *. cbv zeta.
  set (s1 := wrmsr (caches_off s) 0x2ff _).
  destruct (restore_loop_spec 128 s1 l n 0) as (s2 & ev1 & -> & Ht2 & HF2 & Hc2 & Hm2); try lia; try done.
  { unfold n. by rewrite Z.mod_mul. }
  cbn [mbind outcome_bind]. set (s3 := if has_fixed s0 then _ else s2).
  assert (exists ev2, s3.(trace) = s2.(trace) ++ ev2 /\ Forall range_write ev2 /\
    forall k, msr s3 k = if has_fixed s0 && bool_decide (k ∈ fixed) then msr s0 k else msr s2 k) as (ev2 & Ht3 & HF3 & Hm3).
  { unfold s3. destruct (has_fixed s0) eqn:Hf; [|exists []; by rewrite app_nil_r].
    destruct (restore_fixed_spec s0 s2 l n) as (ev2 & Ht & HF & _ & Hm); [intros; by apply Hfix |]. by exists ev2. }
  eexists. split; [done |]. split; [|split].
  - apply (follows_window s s3 (rdmsr (caches_off s) 0x2ff) (ev1 ++ ev2) [l.[n + 11]; Z.lor (rdmsr (wrmsr s3 0x2ff l.[n + 11]) 0x2ff) (bit 11)]).
    + rewrite Ht3, Ht2. by rewrite <- app_assoc.
    + by apply Forall_app.
  - done.
  - intros k. cbn [caches_on write_cr0 emit msr wrmsr rdmsr]. destruct (Z.eqb_spec k 0x2ff) as [->|Hne]; [by rewrite Z.eqb_refl, Hdef, def_back |].
    rewrite Hm3, Hm2. unfold managed. fold n. rewrite Z.add_0_r.
    destruct ((0x200 <=? k) && (k <? 0x200 + n)) eqn:Hin.
    + rewrite Hvar by lia. replace (0x200 + (k - 0x200)) with k by lia. simpl. by destruct (has_fixed s0 && bool_decide (k ∈ fixed)).
    + simpl. rewrite (proj2 (Z.eqb_neq _ _) Hne). by destruct (has_fixed s0 && bool_decide (k ∈ fixed)).
Qed.

(** On a processor with at most 127 variable ranges, [mtrr_save] returns, and a later
    [mtrr_restore], whatever was written to the registers in between, gives every variable
    and (where supported) fixed range register the value it had at the save, the default type
    its value with the registers enabled, and leaves every other register and [cr0] as it
    found them. No range register is written but with the caches off and the registers
    disabled. *)
Theorem mtrr_save_restore s s1 s2 :
  nvar s <= 127 -> s.(saved_mtrrs) = None -> mtrr_save edx s = Ret s1 ->
  s2.(saved_mtrrs) = s1.(saved_mtrrs) -> msr s2 0xfe = msr s 0xfe ->
  exists s3, mtrr_restore edx s2 = Ret s3 /\ follows s2 s3 /\ s3.(cr0) = s2.(cr0) /\
    forall k, msr s3 k = if k =? 0x2ff then Z.lor (msr s 0x2ff) (bit 11) else if managed s k then msr s k else msr s2 k.
Proof using supported.
  intros Hv Hn Hs Hs2 Hcap. destruct (mtrr_save_spec s Hv) as (l & Hl & Hh); [by rewrite Hn |].
  rewrite Hl in Hs. injection Hs as <-. by apply (mtrr_restore_spec s s2 l).
Qed.

(** 128 variable ranges or more: the counter wraps around below the bound for ever. *)
Lemma save_loop_forever fuel s n i l : 256 <= n -> 0 <= i -> save_loop fuel s n (u8 i) l = Diverge.
Proof.
  revert i l; induction fuel as [|fuel IH]; intros i l Hn Hi; cbn [save_loop]; pose proof (u8_bound i).
  all: destruct (Z.ltb_spec (u8 i) n); [|lia]; [done || (apply IH; lia)].
Qed.
Lemma mtrr_save_forever s : 128 <= nvar s -> mtrr_save edx s = Diverge.
Proof using supported.
  intros Hv. unfold mtrr_save. rewrite supported. cbn [negb]. change (Z.land (rdmsr s 0xfe) 0xff) with (nvar s).
  rewrite (save_loop_forever 128 s (nvar s * 2) 0) by lia. done.
Qed.

(** * Write-combining ranges *)

Lemma align_size_spec fuel j size p :
  0 <= j -> align_size fuel (2 ^ j) size = Some p -> exists k, j <= k /\ p = 2 ^ k /\ size <= p /\ (k = j \/ p < 2 * size).
Proof.
  revert j; induction fuel as [|fuel IH]; intros j Hj; cbn [align_size]; destruct (Z.ltb_spec (2 ^ j) size) as [Hlt|Hge]; try done.
  1, 3: intros [= <-]; exists j; split_and!; auto; lia.
  rewrite Z.shiftl_mul_pow2, Z.pow_1_r by lia. replace (2 ^ j * 2) with (2 ^ (j + 1)) by (rewrite Z.pow_add_r; lia).
  destruct (Z.ltb_spec (j + 1) 64) as [H64|H64].
  - assert (2 ^ (j + 1) < 2 ^ 64) by (apply Z.pow_lt_mono_r; lia). rewrite u64_small by lia. case_if; [lia |].
    intros Ha. destruct (IH (j + 1) ltac:(lia) Ha) as (k & Hk & -> & Hs & Hc). exists k. split_and!; try done; try lia.
    right. destruct Hc as [-> | Hc]; [|done]. rewrite Z.pow_add_r by lia. lia.
  - assert (u64 (2 ^ (j + 1)) = 0) as ->; [|done]. unfold u64, wrap. replace (j + 1) with (j + 1 - 64 + 64) by lia.
    rewrite Z.pow_add_r by lia. apply Z.mod_mul. lia.
Qed.

(** An address matches a mask of the bits [j] to [m - 1] when it is in the same block. *)
Lemma mask_match m j a b :
  0 <= j -> 0 <= m -> 0 <= a < 2 ^ m -> 0 <= b < 2 ^ m -> b mod 2 ^ j = 0 ->
  (Z.land a (Z.ldiff (Z.shiftl 1 m - 1) (2 ^ j - 1)) = Z.land b (Z.ldiff (Z.shiftl 1 m - 1) (2 ^ j - 1)) <->
   b <= a < b + 2 ^ j).
Proof.
  intros Hj Hm Ha Hb Hmod.
  assert (forall x, 0 <= x < 2 ^ m -> Z.land x (Z.ldiff (Z.shiftl 1 m - 1) (2 ^ j - 1)) = x / 2 ^ j * 2 ^ j) as Hx.
  { intros x Hx. rewrite Z.shiftl_mul_pow2, Z.mul_1_l by lia. replace (2 ^ m - 1) with (Z.ones m) by (rewrite Z.ones_equiv; lia).
    replace (2 ^ j - 1) with (Z.ones j) by (rewrite Z.ones_equiv; lia).
    replace (Z.land x (Z.ldiff (Z.ones m) (Z.ones j))) with (Z.ldiff (Z.land x (Z.ones m)) (Z.ones j)).
    - rewrite Z.land_ones, Z.mod_small, Z.ldiff_ones_r, Z.shiftr_div_pow2, Z.shiftl_mul_pow2 by lia. done.
    - apply Z.bits_inj. intros k. rewrite !Z.ldiff_spec, !Z.land_spec, Z.ldiff_spec. by rewrite andb_assoc. }
  rewrite !Hx by done. assert (0 < 2 ^ j) by lia. pose proof (Z.div_mod a (2 ^ j)). pose proof (Z.mod_pos_bound a (2 ^ j)).
  pose proof (Z.div_mod b (2 ^ j)). split; [intros; nia |]. intros Hr. f_equal. symmetry.
  apply (Z.div_unique a (2 ^ j) (b / 2 ^ j) (a - b)); lia.
Qed.

Lemma free_slot_spec n s i j : free_slot n s i = Some j -> i <= j < i + Z.of_nat n /\ enabled s j = false.
Proof.
  revert i; induction n as [|n IH]; intros i; cbn [free_slot]; [done |]. destruct (enabled s i) eqn:He; cbn [negb].
  - intros Hf. apply IH in Hf as [? ?]. split; [lia | done].
  - intros [= <-]. split; [lia | done].
Qed.
Lemma overlaps_spec n s i base size : overlaps n s i base size = false -> forall j, i <= j < i + Z.of_nat n -> enabled s j = true ->
  page_in (pages base size) base (Z.ldiff (msr s (0x200 + j * 2)) 0xfff) (Z.ldiff (msr s (0x200 + j * 2 + 1)) 0xfff) = false.
Proof.
  revert i; induction n as [|n IH]; intros i; cbn [overlaps]; [lia |]. intros Ho j Hj He. apply orb_false_iff in Ho as [H1 H2].
  destruct (decide (j = i)) as [->|]; [by rewrite He in H1 |]. apply (IH (i + 1) H2); [lia | done].
Qed.
Lemma page_in_spec n a b m : page_in n a b m = false -> forall k, 0 <= k < Z.of_nat n -> Z.land (a + k * 0x1000) m <> Z.land b m.
Proof.
  revert a; induction n as [|n IH]; intros a; cbn [page_in]; [lia |]. intros Hp k Hk. apply orb_false_iff in Hp as [H1 H2].
  destruct (decide (k = 0)) as [->|]; [rewrite Z.add_0_r; by apply Z.eqb_neq |].
  replace (a + k * 0x1000) with (a + 0x1000 + (k - 1) * 0x1000) by lia. apply IH; [done | lia].
Qed.

(** The writes of an addition to [slot]. *)
Definition added (s : cpu) (slot b m : Z) : cpu :=
  let s1 := wrmsr (caches_off s) 0x2ff (Z.ldiff (msr s 0x2ff) (bit 11)) in
  let s1 := set_wc s1 (s.(wc_saved) ++ [(slot, rdmsr s1 (0x200 + slot * 2), rdmsr s1 (0x200 + slot * 2 + 1))]) in
  let s1 := wrmsr (wrmsr s1 (0x200 + slot * 2) b) (0x200 + slot * 2 + 1) m in
  caches_on (wrmsr s1 0x2ff (Z.lor (msr s 0x2ff) (bit 11))) s.(cr0).

(** Either nothing happens, or a free slot gets a range that overlaps no enabled one. *)
Lemma add_cases s base size :
  mtrr_wc_add_fb_range edx eax s base size = (s, false) \/
  exists slot j m, let b := base / 0x1000 * 0x1000 in
    mtrr_wc_add_fb_range edx eax s base size =
      (added s slot (Z.lor b MTRR_TYPE_WC) (Z.lor (Z.ldiff (Z.shiftl 1 m - 1) (2 ^ j - 1)) (bit 11)), true) /\
    0 <= slot < nvar s /\ enabled s slot = false /\ zlen s.(wc_saved) < WC_MAX_SLOTS /\
    12 <= j /\ size <= 2 ^ j /\ (j = 12 \/ 2 ^ j < 2 * size) /\ 32 <= m <= 52 /\ (fun e => Z.land e 0xff) <$> eax = Some m /\
    b mod 2 ^ j = 0 /\ overlaps (Z.to_nat (nvar s)) s 0 b (2 ^ j) = false.
Proof using supported.
  unfold mtrr_wc_add_fb_range. rewrite supported. cbn [negb]. rewrite orb_false_r.
  destruct (size =? 0); [by left |]. destruct (Z.geb_spec (zlen s.(wc_saved)) WC_MAX_SLOTS); [by left |].
  case_if; [by left |]. destruct eax as [ea|]; [|by left]. case_if; [by left |].
  destruct (align_size 52 0x1000 size) as [p|] eqn:Ha; [|by left].
  destruct (align_size_spec 52 12 size p ltac:(lia) Ha) as (j & Hj & -> & Hs & Hc).
  replace (Z.ldiff base 0xfff) with (base / 0x1000 * 0x1000)
    by (change 0xfff with (Z.ones 12); rewrite Z.ldiff_ones_r, Z.shiftr_div_pow2, Z.shiftl_mul_pow2 by lia; done).
  replace (2 ^ j - 1) with (Z.ones j) by (rewrite Z.ones_equiv; lia). rewrite Z.land_ones by lia.
  destruct (Z.eqb_spec ((base / 0x1000 * 0x1000) mod 2 ^ j) 0) as [Hmod|]; cbn [negb]; [|by left].
  change (Z.land (rdmsr s 0xfe) 0xff) with (nvar s). destruct (overlaps _ _ _ _ _) eqn:Ho; [by left |].
  destruct (free_slot _ _ _) as [slot|] eqn:Hfs; [|by left]. apply free_slot_spec in Hfs as [Hslot Hen]. right.
  exists slot, j, (Z.land ea 0xff). cbv zeta. replace (2 ^ j - 1) with (Z.ones j) by (rewrite Z.ones_equiv; lia).
  split; [done |]. pose proof (nvar_range s). split_and!; try done; try lia.
Qed.

Lemma follows_added s slot b m : 0 <= slot <= 126 -> follows s (added s slot b m).
Proof.
  intros Hs. unfold added. cbv zeta.
  match goal with |- follows s (caches_on (wrmsr ?s3 0x2ff ?v) ?o) =>
    apply (follows_window s s3 (msr s 0x2ff) [Wrmsr (0x200 + slot * 2) b; Wrmsr (0x200 + slot * 2 + 1) m] [v] o) end.
  - simpl. by rewrite <- !app_assoc.
  - repeat constructor; simpl; lia.
Qed.

Lemma added_msr s slot b m k : 0 <= slot <= 126 ->
  msr (added s slot b m) k = if k =? 0x2ff then Z.lor (msr s 0x2ff) (bit 11)
    else if k =? 0x200 + slot * 2 + 1 then m else if k =? 0x200 + slot * 2 then b else msr s k.
Proof.
  intros Hs. unfold added. cbn [caches_on write_cr0 emit msr wrmsr set_wc caches_off rdmsr].
  destruct (Z.eqb_spec k 0x2ff); [done |]. done.
Qed.

Lemma added_saved s slot b m : 0 <= slot <= 126 ->
  wc_saved (added s slot b m) = wc_saved s ++ [(slot, msr s (0x200 + slot * 2), msr s (0x200 + slot * 2 + 1))].
Proof.
  intros Hs. unfold added. cbn [caches_on write_cr0 emit wc_saved wrmsr set_wc caches_off rdmsr msr].
  rewrite !(proj2 (Z.eqb_neq _ 0x2ff)) by lia. done.
Qed.

(** An address is in the range of a slot. *)
Definition matches (s : cpu) (i addr : Z) : Prop :=
  let mask := Z.ldiff (msr s (0x200 + i * 2 + 1)) 0xfff in
  Z.land addr mask = Z.land (Z.ldiff (msr s (0x200 + i * 2)) 0xfff) mask.

Lemma ldiff_flags x f : 0 <= f < 0x1000 -> x mod 0x1000 = 0 -> Z.ldiff (Z.lor x f) 0xfff = x.
Proof.
  intros Hf Hx. change 0xfff with (Z.ones 12).
  assert (Z.land x f = 0) as Hl.
  { apply Z.bits_inj_0. intros k. rewrite Z.land_spec.
    destruct (Z.ltb_spec k 12); [|rewrite (testbit_high 12 f) by lia; apply andb_false_r].
    destruct (Z.ltb_spec k 0); [by rewrite Z.testbit_neg_r by lia |].
    rewrite <- (Z.mod_pow2_bits_low x 12 k) by lia. change (2 ^ 12) with 0x1000. by rewrite Hx, Z.testbit_0_l. }
  rewrite <- Z.lxor_lor, <- Z.add_nocarry_lxor by done.
  rewrite Z.ldiff_ones_r, Z.shiftr_div_pow2, Z.shiftl_mul_pow2 by lia. change (2 ^ 12) with 0x1000.
  Z.to_euclidean_division_equations. lia.
Qed.
Lemma mask_aligned m j : 12 <= j -> 0 <= m -> Z.ldiff (Z.shiftl 1 m - 1) (2 ^ j - 1) mod 0x1000 = 0.
Proof.
  intros Hj Hm. change 0x1000 with (2 ^ 12). rewrite <- Z.land_ones by lia. apply Z.bits_inj_0. intros k.
  rewrite Z.land_spec, Z.ldiff_spec. replace (2 ^ j - 1) with (Z.ones j) by (rewrite Z.ones_equiv; lia).
  rewrite !Z.testbit_ones by lia. destruct (Z.ltb_spec k 12); [|by rewrite andb_false_r, andb_false_r].
  destruct (Z.leb_spec 0 k); simpl; [|by rewrite !andb_false_r]. rewrite (proj2 (Z.ltb_lt k j)) by lia. simpl. by rewrite andb_false_r.
Qed.

(** When [mtrr_wc_add_fb_range] succeeds for a physical address [base], it has put into
    one free slot, and nothing else but the enable bit has changed, a write-combining range
    that is enabled and matches exactly the addresses from [base] rounded down to a page on,
    for the least power of two, at least a page, that is not below [size]; no enabled slot
    matched any of its pages before. *)
Theorem mtrr_wc_add_correct s s' base size maxphys :
  nvar s <= 127 -> (fun e => Z.land e 0xff) <$> eax = Some maxphys -> 0 <= base < 2 ^ maxphys ->
  mtrr_wc_add_fb_range edx eax s base size = (s', true) ->
  exists slot p, let b := base / 0x1000 * 0x1000 in
    0 <= slot < nvar s /\ enabled s slot = false /\ enabled s' slot = true /\
    (forall addr, 0 <= addr < 2 ^ maxphys -> matches s' slot addr <-> b <= addr < b + p) /\
    Z.land (msr s' (0x200 + slot * 2)) 0xff = MTRR_TYPE_WC /\
    0x1000 <= p /\ size <= p /\ (p = 0x1000 \/ p < 2 * size) /\
    (forall i k, 0 <= i < nvar s -> enabled s i = true -> b + p < 2 ^ 64 -> 0 <= k < p / 0x1000 -> ~ matches s i (b + k * 0x1000)) /\
    (forall k, k <> 0x2ff -> k <> 0x200 + slot * 2 -> k <> 0x200 + slot * 2 + 1 -> msr s' k = msr s k) /\
    follows s s' /\ s'.(cr0) = s.(cr0).
Proof using supported.
  intros Hv Hm Hb Hadd. destruct (add_cases s base size) as [He|(slot & j & m & He & Hslot & Hen & _ & Hj & Hs & Hc & Hm' & Hmm & Hmod & Ho)];
    [congruence |]. rewrite Hm in Hmm. injection Hmm as <-. cbv zeta in *. set (b := base / 0x1000 * 0x1000) in *.
  rewrite Hadd in He. injection He as ->. exists slot, (2 ^ j). pose proof (nvar_range s).
  assert (0 <= b < 2 ^ maxphys) as Hb' by (unfold b; Z.to_euclidean_division_equations; lia).
  assert (b mod 0x1000 = 0) as Hb12 by (unfold b; by rewrite Z.mod_mul).
  assert (0x1000 <= 2 ^ j) as Hp by (change 0x1000 with (2 ^ 12); apply Z.pow_le_mono_r; lia).
  set (mask := Z.ldiff (Z.shiftl 1 maxphys - 1) (2 ^ j - 1)) in *.
  set (s' := added s slot _ _). assert (msr s' (0x200 + slot * 2 + 1) = Z.lor mask (bit 11)) as Hr1.
  { unfold s'. rewrite added_msr by lia. rewrite (proj2 (Z.eqb_neq _ 0x2ff)), Z.eqb_refl by lia. done. }
  assert (msr s' (0x200 + slot * 2) = Z.lor b MTRR_TYPE_WC) as Hr0.
  { unfold s'. rewrite added_msr by lia. rewrite (proj2 (Z.eqb_neq _ 0x2ff)) by lia. rewrite (proj2 (Z.eqb_neq _ (0x200 + slot * 2 + 1))), Z.eqb_refl by lia. done. }
  split_and!; try done; try lia.
  - unfold enabled, rdmsr. rewrite Hr1, Z.lor_spec. change (Z.testbit (bit 11) 11) with true. apply orb_true_r.
  - intros addr Ha. unfold matches. cbv zeta. rewrite Hr1, Hr0. rewrite !ldiff_flags; try done; try (unfold bit, MTRR_TYPE_WC; simpl; lia).
    + apply mask_match; try done; lia.
    + apply mask_aligned; lia.
  - rewrite Hr0. change 0xff with (Z.ones 8). rewrite Z.land_lor_distr_l, !Z.land_ones by lia.
    replace (b mod 2 ^ 8) with 0; [done |]. unfold b. symmetry. replace (base / 0x1000 * 0x1000) with (base / 0x1000 * 16 * 2 ^ 8) by lia.
    by apply Z.mod_mul.
  - destruct Hc as [->|]; [by left | by right].
  - intros i k Hi Hei H64 Hk Hmt. pose proof (overlaps_spec _ _ _ _ _ Ho i ltac:(lia) Hei) as Hpg.
    apply (page_in_spec _ _ _ _ Hpg k); [|exact Hmt]. unfold pages. rewrite u64_small by lia.
    replace (b + 2 ^ j - b) with (2 ^ j) by lia. lia.
  - intros k H1 H2 H3. unfold s'. rewrite added_msr by lia. by rewrite !(proj2 (Z.eqb_neq _ _)) by done.
  - apply follows_added. lia.
Qed.

(** ** Adding and clearing *)

Lemma disciplined_app l1 l2 : (forall o d, disciplined o d l2 = true) -> forall o d, disciplined o d l1 = true ->
  disciplined o d (l1 ++ l2) = true.
Proof.
  intros H2. induction l1 as [|e l1 IH]; intros o d H1; [by apply H2 |].
  destruct e as [n v| | |]; cbn [app disciplined] in *; eauto. destruct (n =? 0x2ff); [eauto |].
  apply andb_true_iff in H1 as [-> H1]. cbn. eauto.
Qed.
Lemma follows_refl s : follows s s.
Proof. exists []. by rewrite app_nil_r. Qed.
Lemma follows_trans s1 s2 s3 : follows s1 s2 -> follows s2 s3 -> follows s1 s3.
Proof.
  intros (l1 & H1 & D1) (l2 & H2 & D2). exists (l1 ++ l2). rewrite H2, H1, app_assoc. split; [done |]. intros. by apply disciplined_app.
Qed.

Definition slot_of (e : Z * Z * Z) : Z := e.1.1.
(** [k] is one of the two registers of a saved slot. *)
Definition saved_reg (W : list (Z * Z * Z)) (k : Z) : bool :=
  existsb (fun e => (k =? 0x200 + slot_of e * 2) || (k =? 0x200 + slot_of e * 2 + 1)) W.

Record wc_inv (s0 s : cpu) : Prop := {
  w_slots : Forall (fun e => 0 <= slot_of e < nvar s0 /\ enabled s (slot_of e) = true) s.(wc_saved);
  w_values : Forall (fun e => e.1.2 = msr s0 (0x200 + slot_of e * 2) /\ e.2 = msr s0 (0x200 + slot_of e * 2 + 1)) s.(wc_saved);
  w_others k : k <> 0x2ff -> saved_reg s.(wc_saved) k = false -> msr s k = msr s0 k;
  w_def : msr s 0x2ff = match s.(wc_saved) with [] => msr s0 0x2ff | _ => Z.lor (msr s0 0x2ff) (bit 11) end;
  w_cr0 : s.(cr0) = s0.(cr0);
  w_follows : follows s0 s }.

Lemma saved_reg_app W1 W2 k : saved_reg (W1 ++ W2) k = saved_reg W1 k || saved_reg W2 k.
Proof. apply existsb_app. Qed.
Lemma saved_reg_false W k : saved_reg W k = false <-> Forall (fun e => k <> 0x200 + slot_of e * 2 /\ k <> 0x200 + slot_of e * 2 + 1) W.
Proof.
  unfold saved_reg. induction W as [|e W IH]; simpl; [done |]. rewrite orb_false_iff, Forall_cons, IH, orb_false_iff, !Z.eqb_neq. done.
Qed.
Lemma nvar_not_saved s0 s : nvar s0 <= 127 -> wc_inv s0 s -> nvar s = nvar s0.
Proof.
  intros Hv Hi. unfold nvar. f_equal. apply (w_others _ _ Hi); [lia |]. apply saved_reg_false.
  eapply Forall_impl; [exact (w_slots _ _ Hi) |]. simpl. intros; lia.
Qed.

Lemma wc_inv_add s0 s base size :
  nvar s0 <= 127 -> wc_inv s0 s -> wc_inv s0 (mtrr_wc_add_fb_range edx eax s base size).1.
Proof using supported.
  intros Hv Hi. pose proof (nvar_not_saved s0 s Hv Hi) as Hn. pose proof Hi as [Hsl Hval Hoth Hdef Hcr Hf].
  destruct (add_cases s base size) as [->|(slot & j & m & -> & Hslot & Hen & _)]; [done |]. cbv zeta. cbn [fst].
  set (b := Z.lor _ MTRR_TYPE_WC). set (mk := Z.ldiff _ _).
  assert (saved_reg s.(wc_saved) (0x200 + slot * 2) = false /\ saved_reg s.(wc_saved) (0x200 + slot * 2 + 1) = false) as [Hn0 Hn1].
  { split; apply saved_reg_false; (eapply Forall_impl; [exact Hsl |]); intros e [? He]; simpl in *;
    (assert (slot_of e <> slot) by (intros <-; congruence)); lia. }
  constructor.
  - rewrite added_saved by lia. apply Forall_app. split.
    + eapply Forall_impl; [exact Hsl |]. intros e [He Hee]. split; [done |]. unfold enabled, rdmsr in *.
      rewrite added_msr by lia. assert (slot_of e <> slot) by (intros <-; congruence).
      by rewrite !(proj2 (Z.eqb_neq _ _)) by lia.
    + apply Forall_singleton. change (slot_of (slot, _, _)) with slot. split; [lia |]. unfold enabled, rdmsr. rewrite added_msr by lia.
      rewrite (proj2 (Z.eqb_neq _ 0x2ff)), Z.eqb_refl by lia. rewrite Z.lor_spec. change (Z.testbit (bit 11) 11) with true. apply orb_true_r.
  - rewrite added_saved by lia. apply Forall_app. split; [done |]. apply Forall_singleton.
    change (slot_of (slot, _, _)) with slot. cbn [fst snd]. rewrite !Hoth by (done || lia). done.
  - intros k Hk. rewrite added_saved, saved_reg_app by lia. rewrite orb_false_iff, !saved_reg_false, Forall_singleton.
    change (slot_of (slot, _, _)) with slot. intros [Hs [H1 H2]]. apply saved_reg_false in Hs.
    rewrite added_msr by lia. rewrite !(proj2 (Z.eqb_neq _ _)) by done. by apply Hoth.
  - rewrite added_msr by lia. rewrite Z.eqb_refl, Hdef, added_saved by lia.
    assert (forall (x : Z * Z * Z) l, match l ++ [x] with [] => msr s0 0x2ff | _ => Z.lor (msr s0 0x2ff) (bit 11) end = Z.lor (msr s0 0x2ff) (bit 11)) as -> by by intros ? [].
    destruct (wc_saved s); [done |]. by rewrite <- Z.lor_assoc, Z.lor_diag.
  - done.
  - eapply follows_trans; [done |]. apply follows_added. lia.
Qed.

(** Writing the saved values back. *)
Lemma put_back_all W : forall s, Forall (fun e => 0 <= slot_of e <= 126) W ->
  exists evs, (foldl put_back s W).(trace) = s.(trace) ++ evs /\ Forall range_write evs /\ (foldl put_back s W).(cr0) = s.(cr0) /\
  forall (s0 : cpu) k, Forall (fun e => e.1.2 = msr s0 (0x200 + slot_of e * 2) /\ e.2 = msr s0 (0x200 + slot_of e * 2 + 1)) W ->
    msr (foldl put_back s W) k = if saved_reg W k then msr s0 k else msr s k.
Proof using Type.
  induction W as [|[[slot b] m] W IH]; intros s HF.
  { exists []. rewrite app_nil_r. split_and!; try done. }
  apply Forall_cons in HF as [Hs HF]. cbn [foldl]. destruct (IH (put_back s (slot, b, m)) HF) as (evs & Ht & HFe & Hc & Hm).
  exists (Wrmsr (0x200 + slot * 2) b :: Wrmsr (0x200 + slot * 2 + 1) m :: evs). split_and!; try done.
  - rewrite Ht. simpl. by rewrite <- !app_assoc.
  - unfold slot_of in Hs. repeat constructor; simpl in *; try lia. done.
  - intros s0 k HV. apply Forall_cons in HV as [[Hb Hmk] HV]. rewrite (Hm s0 k HV). cbn in Hb, Hmk.
    unfold saved_reg at 2. cbn [existsb]. fold (saved_reg W k). cbn [slot_of fst snd]. destruct (saved_reg W k); [by rewrite orb_true_r |].
    rewrite orb_false_r. simpl. destruct (Z.eqb_spec k (0x200 + slot * 2 + 1)) as [->|]; [by rewrite orb_true_r |].
    destruct (Z.eqb_spec k (0x200 + slot * 2)) as [->|]; done.
Qed.

(** C38: whatever write-combining ranges have been added, [mtrr_wc_clear_fb_ranges] gives
    every register but the default type back the value it had before the first addition, and
    [cr0] too; the default type too when nothing could be added, and otherwise with the
    registers enabled. Range registers are only written with the caches off and the
    registers disabled. *)
Theorem mtrr_wc_clear_restores s ranges :
  nvar s <= 127 -> s.(wc_saved) = [] ->
  let s1 := foldl (fun s r => (mtrr_wc_add_fb_range edx eax s r.1 r.2).1) s ranges in
  let s2 := mtrr_wc_clear_fb_ranges edx s1 in
  s2.(wc_saved) = [] /\ s2.(cr0) = s.(cr0) /\ follows s s2 /\
  forall k, msr s2 k = if k =? 0x2ff then match s1.(wc_saved) with [] => msr s 0x2ff | _ => Z.lor (msr s 0x2ff) (bit 11) end
                       else msr s k.
Proof using supported.
  intros Hv Hw. cbv zeta. set (s1 := foldl _ s ranges).
  assert (wc_inv s s1) as [Hsl Hval Hoth Hdef Hcr Hf].
  { assert (forall s', wc_inv s s' -> wc_inv s (foldl (fun s r => (mtrr_wc_add_fb_range edx eax s r.1 r.2).1) s' ranges)) as Hall.
    { clear -supported Hv. induction ranges as [|r ranges IH]; intros s' Hi; [done |]. cbn [foldl]. apply IH. by apply wc_inv_add. }
    apply Hall. constructor; rewrite ?Hw; try done. apply follows_refl. }
  clearbody s1. unfold mtrr_wc_clear_fb_ranges. rewrite supported. cbn [negb].
  destruct (Z.eqb_spec (zlen s1.(wc_saved)) 0) as [Hz|Hz].
  { destruct (wc_saved s1) as [|e W] eqn:HW; [|rewrite zlen_cons in Hz; pose proof (zlen_nonneg W); lia].
    split_and!; try done. intros k. destruct (Z.eqb_spec k 0x2ff) as [->|]; [done |]. by apply Hoth. }
  destruct (put_back_all s1.(wc_saved) (wrmsr (caches_off s1) 0x2ff (Z.ldiff (rdmsr (caches_off s1) 0x2ff) (bit 11))))
    as (evs & Ht & HF & Hc & Hm). { eapply Forall_impl; [exact Hsl |]. simpl. intros; lia. }
  split_and!; try done.
  - eapply follows_trans; [exact Hf |].
    destruct (follows_window s1 _ (rdmsr (caches_off s1) 0x2ff) evs [rdmsr (caches_off s1) 0x2ff] s1.(cr0) Ht HF) as (l & Hl & Hd).
    exists l. done.
  - intros k. transitivity (if k =? 0x2ff then msr s1 0x2ff else
      msr (foldl put_back (wrmsr (caches_off s1) 0x2ff (Z.ldiff (rdmsr (caches_off s1) 0x2ff) (bit 11))) s1.(wc_saved)) k); [done |].
    destruct (Z.eqb_spec k 0x2ff) as [->|Hne]; [exact Hdef |]. rewrite (Hm s k Hval). destruct (saved_reg (wc_saved s1) k) eqn:Hsr; [done |].
    cbn [msr wrmsr emit caches_off write_cr0]. rewrite (proj2 (Z.eqb_neq _ _) Hne). by apply Hoth.
Qed.

End mtrr.

(** * Examples: eight variable ranges, all free *)

Definition ex_cpu : cpu :=
  {| msr k := if k =? 0xfe then 0x508 else if k =? 0x2ff then 0xc06 else 0; cr0 := 0x80000011;
     saved_mtrrs := None; wc_saved := []; trace := [] |}.
Definition ex_saved : cpu := match mtrr_save (Some 0x1000) ex_cpu with Ret s => s | _ => ex_cpu end.

Lemma mtrr_save_restore_witness :
  exists s3, mtrr_restore (Some 0x1000) (wrmsr ex_saved 0x202 0xe0000001) = Ret s3 /\ msr s3 0x202 = 0 /\ msr s3 0x2ff = 0xc06.
Proof.
  destruct (mtrr_save_restore (Some 0x1000) eq_refl ex_cpu ex_saved (wrmsr ex_saved 0x202 0xe0000001)) as (s3 & Hs & _ & _ & Hm).
  - vm_compute. discriminate.
  - reflexivity.
  - reflexivity.
  - reflexivity.
  - reflexivity.
  - exists s3. split; [exact Hs |]. split; rewrite Hm; vm_compute; reflexivity.
Defined.

Lemma mtrr_wc_add_correct_witness :
  exists slot p, 0 <= slot < 8 /\
    enabled (mtrr_wc_add_fb_range (Some 0x1000) (Some 39) ex_cpu 0xe0000000 0x300000).1 slot = true /\ 0x300000 <= p.
Proof.
  destruct (mtrr_wc_add_correct (Some 0x1000) (Some 39) eq_refl ex_cpu
    (mtrr_wc_add_fb_range (Some 0x1000) (Some 39) ex_cpu 0xe0000000 0x300000).1 0xe0000000 0x300000 39)
    as (slot & p & Hs & _ & He & _ & _ & _ & Hp & _).
  - vm_compute. discriminate.
  - reflexivity.
  - lia.
  - vm_compute. reflexivity.
  - exists slot, p. split; [exact Hs |]. split; [exact He | exact Hp].
Defined.

Lemma mtrr_wc_clear_restores_witness :
  let s1 := foldl (fun s r => (mtrr_wc_add_fb_range (Some 0x1000) (Some 39) s r.1 r.2).1) ex_cpu
    [(0xe0000000, 0x300000); (0xd0000000, 0x1000)] in
  zlen s1.(wc_saved) = 2 /\ msr (mtrr_wc_clear_fb_ranges (Some 0x1000) s1) 0x200 = 0.
Proof.
  split; [vm_compute; reflexivity |].
  destruct (mtrr_wc_clear_restores (Some 0x1000) (Some 39) eq_refl ex_cpu [(0xe0000000, 0x300000); (0xd0000000, 0x1000)])
    as (_ & _ & _ & Hm).
  - vm_compute. discriminate.
  - reflexivity.
  - rewrite (Hm 0x200). reflexivity.
Defined.
