(* ===== verification/Elf.v ===== *)
(** The ELF loader, [common/lib/elf.c], with the ranges of [common/lib/elsewhere.c].

    The file is a function from an offset to a byte: what is behind its end is whatever memory has
    there. Structures are read as records, tables of headers as lists in the order of their
    indices. Memory and its allocator are those of [Pmm]; the lists of relocations are lists, their
    memory is not taken from it. [rand32] is a parameter. *)

From S2P Require Import Prelude Libc Guid Pmm Vmm.
Import Libc Guid.

Module Elf.

(** * Structures *)

Definition ET_EXEC : Z := 2.
Definition ET_DYN : Z := 3.
Definition PT_LOAD : Z := 1.
Definition PT_DYNAMIC : Z := 2.
Definition R_INTERNAL_RELR : Z := 0xfffffff0.
Definition FIXED_HIGHER_HALF_OFFSET_64 : Z := 0xffffffff80000000.

(** What differs between the architectures: the machine's number, whether files of another class
    are let through, the types of relocations, whether those of symbols have an addend, and the
    width of [size_t]. *)
Class ElfArch := {
  ARCH : Z; class_checked : bool; R_NONE : Z; R_RELATIVE : Z; R_SYMBOL : list Z; R_64 : Z; symbol_addend : bool; SIZE_MAX : Z }.
Definition x86_64 : ElfArch :=
  {| ARCH := 0x3e; class_checked := false; R_NONE := 0; R_RELATIVE := 8; R_SYMBOL := [6; 7]; R_64 := 1; symbol_addend := false; SIZE_MAX := UINT64_MAX |}.
Definition i386 : ElfArch :=
  {| ARCH := 0x3e; class_checked := false; R_NONE := 0; R_RELATIVE := 8; R_SYMBOL := [6; 7]; R_64 := 1; symbol_addend := false; SIZE_MAX := 0xffffffff |}.
Definition aarch64 : ElfArch :=
  {| ARCH := 0xb7; class_checked := false; R_NONE := 0; R_RELATIVE := 0x403; R_SYMBOL := [0x401; 0x402]; R_64 := 0x101; symbol_addend := true; SIZE_MAX := UINT64_MAX |}.
Definition riscv : ElfArch :=
  {| ARCH := 0xf3; class_checked := true; R_NONE := 0; R_RELATIVE := 3; R_SYMBOL := [5]; R_64 := 2; symbol_addend := false; SIZE_MAX := UINT64_MAX |}.
Definition loongarch64 : ElfArch :=
  {| ARCH := 0x102; class_checked := true; R_NONE := 0; R_RELATIVE := 3; R_SYMBOL := [5]; R_64 := 2; symbol_addend := false; SIZE_MAX := UINT64_MAX |}.

Definition num (elf : Z -> Z) (off : Z) (n : nat) : Z := of_le (load_bytes elf off n).

(** [struct elf64_hdr] and [struct elf32_hdr]. *)
Record elf_hdr := {
  magic : list Z; ei_class : Z; ei_data : Z; type : Z; machine : Z; entry : Z; phoff : Z; shoff : Z;
  phdr_size : Z; ph_num : Z; shdr_size : Z; sh_num : Z; shstrndx : Z }.
Definition elf64_hdr (elf : Z -> Z) : elf_hdr :=
  {| magic := load_bytes elf 0 4; ei_class := elf 4; ei_data := elf 5; type := num elf 16 2; machine := num elf 18 2;
     entry := num elf 24 8; phoff := num elf 32 8; shoff := num elf 40 8;
     phdr_size := num elf 54 2; ph_num := num elf 56 2; shdr_size := num elf 58 2; sh_num := num elf 60 2; shstrndx := num elf 62 2 |}.
Definition elf32_hdr (elf : Z -> Z) : elf_hdr :=
  {| magic := load_bytes elf 0 4; ei_class := elf 4; ei_data := elf 5; type := num elf 16 2; machine := num elf 18 2;
     entry := num elf 24 4; phoff := num elf 28 4; shoff := num elf 32 4;
     phdr_size := num elf 42 2; ph_num := num elf 44 2; shdr_size := num elf 46 2; sh_num := num elf 48 2; shstrndx := num elf 50 2 |}.

Record elf_phdr := { p_type : Z; p_flags : Z; p_offset : Z; p_vaddr : Z; p_paddr : Z; p_filesz : Z; p_memsz : Z; p_align : Z }.
Definition elf64_phdr (elf : Z -> Z) (a : Z) : elf_phdr :=
  {| p_type := num elf a 4; p_flags := num elf (a + 4) 4; p_offset := num elf (a + 8) 8; p_vaddr := num elf (a + 16) 8;
     p_paddr := num elf (a + 24) 8; p_filesz := num elf (a + 32) 8; p_memsz := num elf (a + 40) 8; p_align := num elf (a + 48) 8 |}.
Definition elf32_phdr (elf : Z -> Z) (a : Z) : elf_phdr :=
  {| p_type := num elf a 4; p_offset := num elf (a + 4) 4; p_vaddr := num elf (a + 8) 4; p_paddr := num elf (a + 12) 4;
     p_filesz := num elf (a + 16) 4; p_memsz := num elf (a + 20) 4; p_flags := num elf (a + 24) 4; p_align := num elf (a + 28) 4 |}.
(** The program headers, at [elf + (hdr->phoff + i * hdr->phdr_size)]. *)
Definition phdrs64 (elf : Z -> Z) : list elf_phdr :=
  let h := elf64_hdr elf in (fun i => elf64_phdr elf (u64 (h.(phoff) + i * h.(phdr_size)))) <$> seqZ 0 h.(ph_num).
Definition phdrs32 (elf : Z -> Z) : list elf_phdr :=
  let h := elf32_hdr elf in (fun i => elf32_phdr elf (u64 (h.(phoff) + i * h.(phdr_size)))) <$> seqZ 0 h.(ph_num).

Record elf64_rela := { r_addr : Z; r_info : Z; r_symbol : Z; r_addend : Z }.
Definition rela_at (elf : Z -> Z) (a : Z) : elf64_rela :=
  {| r_addr := num elf a 8; r_info := num elf (a + 8) 4; r_symbol := num elf (a + 12) 4; r_addend := num elf (a + 16) 8 |}.
Record elf64_sym := { st_name : Z; st_info : Z; st_shndx : Z; st_value : Z }.
Definition sym_at (elf : Z -> Z) (a : Z) : elf64_sym :=
  {| st_name := num elf a 4; st_info := elf (a + 4); st_shndx := num elf (a + 6) 2; st_value := num elf (a + 8) 8 |}.
Record elf64_shdr := { sh_name : Z; sh_addr : Z; sh_offset : Z; sh_size : Z }.
Definition shdr_at (elf : Z -> Z) (a : Z) : elf64_shdr :=
  {| sh_name := num elf a 4; sh_addr := num elf (a + 16) 8; sh_offset := num elf (a + 24) 8; sh_size := num elf (a + 32) 8 |}.

(** * Headers *)

Definition is_elf (h : elf_hdr) : bool := bool_decide (h.(magic) = [127; 69; 76; 70]).
Definition elf32_validate (h : elf_hdr) : outcome unit :=
  if negb (is_elf h) then Panic
  else if negb (h.(ei_data) =? 1) then Panic
  else if negb (h.(machine) =? 3) then Panic else Ret tt.

Definition elf_bits (elf : Z -> Z) (file_size : Z) : Z :=
  if file_size <? 64 then -1
  else
    let h := elf64_hdr elf in
    if negb (is_elf h) then -1
    else if (h.(machine) =? 0x3e) || (h.(machine) =? 0xb7) then 64
    else if (h.(machine) =? 0xf3) || (h.(machine) =? 0x102) then
      if h.(ei_class) =? 2 then 64 else if h.(ei_class) =? 1 then 32 else -1
    else if h.(machine) =? 3 then 32 else -1.

(** [info], zero where nothing was found. *)
Record elf_section_hdr_info := { section_entry_size : Z; str_section_idx : Z; info_num : Z; section_offset : Z }.
Definition section_info (h : elf_hdr) (file_size : Z) : elf_section_hdr_info :=
  let none := {| section_entry_size := 0; str_section_idx := 0; info_num := 0; section_offset := 0 |} in
  match CHECKED_ADD (h.(sh_num) * h.(shdr_size)) h.(shoff) with
  | None => none
  | Some e =>
      if e >? file_size then none
      else {| section_entry_size := h.(shdr_size); str_section_idx := h.(shstrndx); info_num := h.(sh_num); section_offset := h.(shoff) |}
  end.
Definition elf32_section_hdr_info (elf : Z -> Z) (file_size : Z) : outcome elf_section_hdr_info :=
  _ ← elf32_validate (elf32_hdr elf); Ret (section_info (elf32_hdr elf) file_size).

Section arch.
Context `{!ElfArch}.

Definition elf64_validate (h : elf_hdr) : outcome unit :=
  if negb (is_elf h) then Panic
  else if negb (h.(ei_data) =? 1) then Panic
  else if negb (h.(machine) =? ARCH) && (negb class_checked || (h.(ei_class) =? 2)) then Panic else Ret tt.
Definition elf64_section_hdr_info (elf : Z -> Z) (file_size : Z) : outcome elf_section_hdr_info :=
  _ ← elf64_validate (elf64_hdr elf); Ret (section_info (elf64_hdr elf) file_size).

(** The first [PT_DYNAMIC] segment. *)
Fixpoint find_dynamic (l : list elf_phdr) : option elf_phdr :=
  match l with [] => None | p :: l => if p.(p_type) =? PT_DYNAMIC then Some p else find_dynamic l end.
Definition elf64_is_relocatable (elf : Z -> Z) : outcome bool :=
  let h := elf64_hdr elf in
  if h.(phdr_size) <? 56 then Panic
  else if negb (h.(type) =? ET_DYN) then Ret false
  else match find_dynamic (phdrs64 elf) with
       | None => Panic
       | Some p => if p.(p_filesz) =? 0 then Panic else Ret true
       end.

(** * Relocations *)

(** The offset in the file and what is left of the segment from there on; [None] is [false]. *)
Fixpoint elf64_translate_vaddr (l : list elf_phdr) (file_size offset size_hint : Z) : option (Z * Z) :=
  match l with
  | [] => None
  | p :: l =>
      match CHECKED_ADD p.(p_vaddr) p.(p_filesz) with
      | None => elf64_translate_vaddr l file_size offset size_hint
      | Some seg_end =>
          if (p.(p_vaddr) <=? offset) && (seg_end >? offset) then
            let seg_size := p.(p_filesz) - (offset - p.(p_vaddr)) in
            let offset := u64 (offset - p.(p_vaddr) + p.(p_offset)) in
            e ← CHECKED_ADD offset size_hint;
            if e >? file_size then None else Some (offset, seg_size)
          else elf64_translate_vaddr l file_size offset size_hint
      end
  end.

(** The variables that the entries of the dynamic segment set. *)
Record dynamic := {
  rela_offset : Z; rela_ent : Z; rela_size : Z; relr_offset : Z; relr_ent : Z; relr_size : Z;
  symtab_offset : Z; symtab_ent : Z; strtab_offset : Z; dt_pltrel : Z; dt_pltrelsz : Z; dt_jmprel : Z }.
Definition no_dynamic : dynamic :=
  {| rela_offset := 0; rela_ent := 0; rela_size := 0; relr_offset := 0; relr_ent := 0; relr_size := 0;
     symtab_offset := 0; symtab_ent := 0; strtab_offset := 0; dt_pltrel := 0; dt_pltrelsz := 0; dt_jmprel := 0 |}.
(** The [switch] on a tag; [inr] leaves the loop. *)
Definition dyn_entry (tag v : Z) (d : dynamic) : outcome (dynamic + dynamic) :=
  let '{| rela_offset := ra; rela_ent := re; rela_size := rs; relr_offset := ro; relr_ent := rre; relr_size := rrs;
          symtab_offset := so; symtab_ent := se; strtab_offset := st; dt_pltrel := pr; dt_pltrelsz := ps; dt_jmprel := jr |} := d in
  let mk ra re rs ro rre rrs so se st pr ps jr := Ret (inl
    {| rela_offset := ra; rela_ent := re; rela_size := rs; relr_offset := ro; relr_ent := rre; relr_size := rrs;
       symtab_offset := so; symtab_ent := se; strtab_offset := st; dt_pltrel := pr; dt_pltrelsz := ps; dt_jmprel := jr |}) in
  if tag =? 0x7 then mk v re rs ro rre rrs so se st pr ps jr
  else if tag =? 0x9 then mk ra v rs ro rre rrs so se st pr ps jr
  else if tag =? 0x8 then mk ra re v ro rre rrs so se st pr ps jr
  else if tag =? 0x24 then mk ra re rs v rre rrs so se st pr ps jr
  else if tag =? 0x25 then mk ra re rs ro v rrs so se st pr ps jr
  else if tag =? 0x23 then mk ra re rs ro rre v so se st pr ps jr
  else if tag =? 0x6 then mk ra re rs ro rre rrs v se st pr ps jr
  else if tag =? 0x5 then mk ra re rs ro rre rrs so se v pr ps jr
  else if tag =? 0xb then if v <? 24 then Panic else mk ra re rs ro rre rrs so v st pr ps jr
  else if tag =? 0x14 then mk ra re rs ro rre rrs so se st v ps jr
  else if tag =? 0x2 then mk ra re rs ro rre rrs so se st pr v jr
  else if tag =? 0x17 then mk ra re rs ro rre rrs so se st pr ps v
  else if tag =? 0x1 then Panic
  else if tag =? 0 then Ret (inr d)
  else Ret (inl d).
Fixpoint dyn_loop (n : nat) (elf : Z -> Z) (off : Z) (d : dynamic) : outcome dynamic :=
  match n with
  | O => Ret d
  | S n =>
      r ← dyn_entry (num elf off 8) (num elf (off + 8) 8) d;
      match r with inl d => dyn_loop n elf (off + 16) d | inr d => Ret d end
  end.
(** [None] is [return false]. *)
Definition read_dynamic (elf : Z -> Z) (file_size : Z) : outcome (option dynamic) :=
  match find_dynamic (phdrs64 elf) with
  | None => Ret (Some no_dynamic)
  | Some p =>
      match CHECKED_ADD p.(p_offset) p.(p_filesz) with
      | None => Ret None
      | Some e =>
          if e >? file_size then Ret None
          else d ← dyn_loop (Z.to_nat (p.(p_filesz) / 16)) elf p.(p_offset) no_dynamic; Ret (Some d)
      end
  end.

(** An address of the dynamic segment that is not zero has to translate. *)
Definition translate (elf : Z -> Z) (file_size offset size_hint : Z) : outcome (Z * Z) :=
  if negb (offset =? 0) then or_panic (elf64_translate_vaddr (phdrs64 elf) file_size offset size_hint) else Ret (0, 0).

Definition elf64_add_relocation_count (count add : Z) : outcome Z :=
  if add >? SIZE_MAX - count then Panic else Ret (count + add).

Definition popcount (e : Z) : Z := zlen (filter (fun i => Z.testbit e i = true) (seqZ 0 64)).
Fixpoint relr_count (entries : list Z) (count : Z) : outcome Z :=
  match entries with
  | [] => Ret count
  | e :: entries => count ← elf64_add_relocation_count count (if Z.land e 1 =? 0 then 1 else popcount e - 1); relr_count entries count
  end.
(** [for (j = 0; (entry >>= 1) != 0; j++)]; an entry has 64 bits. *)
Fixpoint relr_bits (fuel : nat) (where_ e j : Z) : list Z :=
  match fuel with
  | O => []
  | S fuel =>
      let e := Z.shiftr e 1 in
      if negb (e =? 0) then
        (if negb (Z.land e 1 =? 0) then [u64 (where_ + j * 8)] else []) ++ relr_bits fuel where_ e (j + 1)
      else []
  end.
Fixpoint relr_addrs (entries : list Z) (where_ : Z) : list Z :=
  match entries with
  | [] => []
  | e :: entries =>
      if Z.land e 1 =? 0 then e :: relr_addrs entries (u64 (e + 8))
      else relr_bits 64 where_ e 0 ++ relr_addrs entries (u64 (where_ + 63 * 8))
  end.
Definition relr_entries (elf : Z -> Z) (offset size ent : Z) : list Z := (fun i => num elf (offset + i * ent) 8) <$> seqZ 0 (size / ent).
(** The memory of these records is zeroed. *)
Definition relr_reloc (a : Z) : elf64_rela := {| r_addr := a; r_info := R_INTERNAL_RELR; r_symbol := 0; r_addend := 0 |}.
Definition rela_entries (elf : Z -> Z) (offset size ent : Z) : list elf64_rela := (fun i => rela_at elf (offset + i * ent)) <$> seqZ 0 (size / ent).

(** What the loop over the relocations uses. *)
Record reloc_table := { relocs : list elf64_rela; symtab : Z; sym_ent : Z; symtab_size : Z }.
Definition read_relocs (elf : Z -> Z) (file_size : Z) : outcome (option reloc_table) :=
  let h := elf64_hdr elf in
  if h.(phdr_size) <? 56 then Panic
  else match CHECKED_MUL h.(ph_num) h.(phdr_size) ≫= CHECKED_ADD h.(phoff) with
  | None => Ret None
  | Some e =>
      if e >? file_size then Ret None
      else
        r ← read_dynamic elf file_size;
        match r with
        | None => Ret None
        | Some d =>
            '(rela, _) ← translate elf file_size d.(rela_offset) d.(rela_size);
            '(relr, _) ← translate elf file_size d.(relr_offset) d.(relr_size);
            '(sym, sym_size) ← translate elf file_size d.(symtab_offset) 0;
            _ ← translate elf file_size d.(strtab_offset) 0;
            '(jmprel, _) ← translate elf file_size d.(dt_jmprel) d.(dt_pltrelsz);
            n1 ← (if negb (d.(relr_size) =? 0) then
                    if negb (d.(relr_ent) =? 8) then Panic else relr_count (relr_entries elf relr d.(relr_size) d.(relr_ent)) 0
                  else Ret 0);
            n2 ← (if negb (d.(rela_size) =? 0) then
                    if d.(rela_ent) <? 24 then Panic
                    else if negb (d.(rela_size) mod d.(rela_ent) =? 0) then Panic
                    else elf64_add_relocation_count n1 (d.(rela_size) / d.(rela_ent))
                  else Ret n1);
            _ ← (if negb (d.(dt_pltrelsz) =? 0) then
                   if negb (d.(dt_pltrel) =? 0x7) then Panic
                   else if d.(rela_ent) =? 0 then Panic
                   else if negb (d.(dt_pltrelsz) mod d.(rela_ent) =? 0) then Panic
                   else elf64_add_relocation_count n2 (d.(dt_pltrelsz) / d.(rela_ent))
                 else Ret n2);
            Ret (Some {|
              relocs := (if negb (d.(relr_size) =? 0) then relr_reloc <$> relr_addrs (relr_entries elf relr d.(relr_size) d.(relr_ent)) 0 else [])
                ++ (if negb (d.(rela_size) =? 0) then rela_entries elf rela d.(rela_size) d.(rela_ent) else [])
                ++ (if negb (d.(dt_pltrelsz) =? 0) then rela_entries elf jmprel d.(dt_pltrelsz) d.(rela_ent) else []);
              symtab := sym; sym_ent := d.(symtab_ent); symtab_size := sym_size |})
        end
  end.

(** The value of a relocation's symbol, [None] for an undefined weak one; another undefined one is
    an error, whatever its name is. *)
Definition symbol_value (elf : Z -> Z) (t : reloc_table) (r : elf64_rela) : outcome (option Z) :=
  if (t.(symtab) =? 0) || (t.(sym_ent) =? 0) then Panic
  else if t.(symtab_size) =? 0 then Panic
  else
    sym_offset ← or_panic (CHECKED_MUL t.(sym_ent) r.(r_symbol));
    if (t.(symtab_size) <? 24) || (sym_offset >? t.(symtab_size) - 24) then Panic
    else
      let s := sym_at elf (t.(symtab) + sym_offset) in
      if s.(st_shndx) =? 0 then if Z.shiftr s.(st_info) 4 =? 2 then Ret None else Panic
      else Ret (Some s.(st_value)).
(** The word a relocation leaves where [old] was. *)
Definition reloc_word (elf : Z -> Z) (t : reloc_table) (slide : Z) (r : elf64_rela) (old : Z) : outcome Z :=
  if r.(r_info) =? R_NONE then Ret old
  else if r.(r_info) =? R_RELATIVE then Ret (u64 (slide + r.(r_addend)))
  else if r.(r_info) =? R_INTERNAL_RELR then Ret (u64 (old + slide))
  else if bool_decide (r.(r_info) ∈ R_SYMBOL) then
    v ← symbol_value elf t r;
    Ret (match v with None => 0 | Some v => u64 (slide + v + (if symbol_addend then r.(r_addend) else 0)) end)
  else if r.(r_info) =? R_64 then
    v ← symbol_value elf t r;
    Ret (match v with None => 0 | Some v => u64 (slide + v + r.(r_addend)) end)
  else Panic.

(** Is the relocation in the [size] bytes at [vaddr]? *)
Definition reloc_in (vaddr size : Z) (r : elf64_rela) : bool :=
  negb (r.(r_addr) <? vaddr) && negb ((size <? 8) || (r.(r_addr) >? u64 (vaddr + size - 8))).
Fixpoint apply_relocs (elf : Z -> Z) (t : reloc_table) (l : list elf64_rela) (buffer vaddr size slide : Z) (m : mem) : outcome mem :=
  match l with
  | [] => Ret m
  | r :: l =>
      if negb (reloc_in vaddr size r) then apply_relocs elf t l buffer vaddr size slide m
      else
        let ptr := buffer + (r.(r_addr) - vaddr) in
        v ← reloc_word elf t slide r (load64 m ptr);
        apply_relocs elf t l buffer vaddr size slide (if r.(r_info) =? R_NONE then m else store64 m ptr v)
  end.
(** [None] is [false]. *)
Definition elf64_apply_relocations (elf : Z -> Z) (file_size buffer vaddr size slide : Z) (m : mem) : outcome (option mem) :=
  r ← read_relocs elf file_size;
  match r with
  | None => Ret None
  | Some t => m ← apply_relocs elf t t.(relocs) buffer vaddr size slide m; Ret (Some m)
  end.

(** [memcpy(buffer, elf + off, n)] *)
Definition copy_in (elf : Z -> Z) (m : mem) (dst off n : Z) : mem := fun x => if (dst <=? x) && (x <? dst + n) then elf (off + (x - dst)) else m x.

(** * Sections *)

(** [memchr(names, 0, n)] is not null. *)
Definition terminated (names : Z -> Z) (n : Z) : bool := existsb (fun i => names i =? 0) (seqZ 0 n).
(** Where the section is, [None] is [false]. With a [limit] of 0 the buffer is allocated, otherwise
    it is the caller's. *)
Fixpoint section_loop (fuel : nat) (elf : Z -> Z) (file_size : Z) (shstrtab : elf64_shdr) (l : list elf64_shdr) (name : Z -> Z) (buffer limit slide : Z) (i386 : bool) (st : Pmm.state)
    : outcome (option Z * Pmm.state) :=
  match l with
  | [] => Ret (None, st)
  | s :: l =>
      let names := tail elf (shstrtab.(sh_offset) + s.(sh_name)) in
      if s.(sh_name) >=? shstrtab.(sh_size) then section_loop fuel elf file_size shstrtab l name buffer limit slide i386 st
      else if negb (terminated names (shstrtab.(sh_size) - s.(sh_name))) then section_loop fuel elf file_size shstrtab l name buffer limit slide i386 st
      else
        c ← strcmp fuel names name;
        if c =? 0 then
          if (s.(sh_offset) >=? file_size) || (s.(sh_size) >? file_size - s.(sh_offset)) then Ret (None, st)
          else
            '(buffer, st) ← (if limit =? 0 then Pmm.ext_mem_alloc i386 st s.(sh_size) else Ret (buffer, st));
            let limit := if limit =? 0 then s.(sh_size) else limit in
            if s.(sh_size) >? limit then Ret (None, st)
            else
              r ← elf64_apply_relocations elf file_size buffer s.(sh_addr) s.(sh_size) slide (copy_in elf st.(Pmm.ram) buffer s.(sh_offset) s.(sh_size));
              match r with
              | None => Ret (None, Pmm.set_ram st (copy_in elf st.(Pmm.ram) buffer s.(sh_offset) s.(sh_size)))
              | Some m => Ret (Some buffer, Pmm.set_ram st m)
              end
        else section_loop fuel elf file_size shstrtab l name buffer limit slide i386 st
  end.
Definition elf64_load_section (fuel : nat) (elf : Z -> Z) (file_size buffer : Z) (name : Z -> Z) (limit slide : Z) (i386 : bool) (st : Pmm.state) : outcome (option Z * Pmm.state) :=
  let h := elf64_hdr elf in
  _ ← elf64_validate h;
  if h.(sh_num) =? 0 then Ret (None, st)
  else if h.(shdr_size) <? 64 then Panic
  else if h.(shstrndx) >=? h.(sh_num) then Ret (None, st)
  else match CHECKED_MUL h.(sh_num) h.(shdr_size) ≫= CHECKED_ADD h.(shoff) with
  | None => Ret (None, st)
  | Some shdr_table_end =>
      if shdr_table_end >? file_size then Ret (None, st)
      else
        let section := fun i => shdr_at elf (h.(shoff) + i * h.(shdr_size)) in
        let shstrtab := section h.(shstrndx) in
        if (shstrtab.(sh_offset) >=? file_size) || (shstrtab.(sh_size) >? file_size - shstrtab.(sh_offset)) then Ret (None, st)
        else section_loop fuel elf file_size shstrtab (section <$> seqZ 0 h.(sh_num)) name buffer limit slide i386 st
  end.

(** * Loading a kernel *)

(** The segments the loops do not [continue] on. *)
Definition is_load (p : elf_phdr) : bool := negb (negb (p.(p_type) =? PT_LOAD) || (p.(p_memsz) =? 0)).

Fixpoint max_align_loop (l : list elf_phdr) (ret : Z) : outcome Z :=
  match l with
  | [] => Ret ret
  | p :: l =>
      if negb (is_load p) then max_align_loop l ret
      else if (p.(p_align) >? 1) && negb (Z.land p.(p_align) (p.(p_align) - 1) =? 0) then Panic
      else max_align_loop l (if p.(p_align) >? ret then p.(p_align) else ret)
  end.
Definition elf64_max_align (elf : Z -> Z) : outcome Z :=
  if (elf64_hdr elf).(phdr_size) <? 56 then Panic
  else ret ← max_align_loop (phdrs64 elf) 0; if ret =? 0 then Panic else Ret ret.

Record mem_range := { mr_base : Z; mr_length : Z; permissions : Z }.
Fixpoint ranges_loop (l : list elf_phdr) (slide : Z) : outcome (list mem_range) :=
  match l with
  | [] => Ret []
  | p :: l =>
      let load_addr := u64 (p.(p_vaddr) + slide) in
      let this_top := u64 (load_addr + p.(p_memsz)) in
      let align := if p.(p_align) <=? 1 then 1 else p.(p_align) in
      let base := Z.land load_addr (u64 (Z.lnot (align - 1))) in
      length ← or_panic (ALIGN_UP (u64 (this_top - base)) align);
      rest ← ranges_loop l slide;
      Ret ({| mr_base := base; mr_length := length; permissions := Z.land p.(p_flags) 7 |} :: rest)
  end.
Definition elf64_get_ranges (elf : Z -> Z) (slide : Z) : outcome (list mem_range) :=
  if (elf64_hdr elf).(phdr_size) <? 56 then Panic
  else
    is_reloc ← elf64_is_relocatable elf;
    let l := filter (fun p => is_load p && negb ((p.(p_vaddr) <? FIXED_HIGHER_HALF_OFFSET_64) && negb is_reloc) = true) (phdrs64 elf) in
    if zlen l =? 0 then Panic else ranges_loop l slide.

(** The inner loop of the checks: segment [i] against the others. [ranges] is not null in the only
    call. *)
Fixpoint overlap_loop (l : list elf_phdr) (j i : Z) (p : elf_phdr) (phdr_end : Z) (is_reloc : bool) : outcome unit :=
  match l with
  | [] => Ret tt
  | q :: l =>
      if negb (is_load q) || ((q.(p_vaddr) <? FIXED_HIGHER_HALF_OFFSET_64) && negb is_reloc) || (j =? i)
      then overlap_loop l (j + 1) i p phdr_end is_reloc
      else
        phdr_in_end ← or_panic (CHECKED_ADD q.(p_vaddr) q.(p_memsz));
        if ((q.(p_vaddr) >=? p.(p_vaddr)) && (q.(p_vaddr) <? phdr_end)) || ((phdr_in_end >? p.(p_vaddr)) && (phdr_in_end <=? phdr_end)) then Panic
        else
          let base := ALIGN_DOWN p.(p_vaddr) 4096 in
          top ← or_panic (ALIGN_UP phdr_end 4096);
          let base_in := ALIGN_DOWN q.(p_vaddr) 4096 in
          top_in ← or_panic (ALIGN_UP phdr_in_end 4096);
          if ((base >=? base_in) && (base <? top_in)) || ((top >? base_in) && (top <=? top_in)) then
            if negb (Z.land p.(p_flags) 7 =? Z.land q.(p_flags) 7) then Panic
            else overlap_loop l (j + 1) i p phdr_end is_reloc
          else overlap_loop l (j + 1) i p phdr_end is_reloc
  end.
Record span := { lower_to_higher : bool; min_vaddr : Z; max_vaddr : Z }.
Fixpoint span_loop (all l : list elf_phdr) (i : Z) (is_reloc : bool) (s : span) : outcome span :=
  match l with
  | [] => Ret s
  | p :: l =>
      if negb (is_load p) then span_loop all l (i + 1) is_reloc s
      else
        let lower := p.(p_vaddr) <? FIXED_HIGHER_HALF_OFFSET_64 in
        if lower && negb is_reloc then Panic
        else if negb lower && s.(lower_to_higher) then Panic
        else
          phdr_end ← or_panic (CHECKED_ADD p.(p_vaddr) p.(p_memsz));
          _ ← overlap_loop all 0 i p phdr_end is_reloc;
          span_loop all l (i + 1) is_reloc
            {| lower_to_higher := s.(lower_to_higher) || lower;
               min_vaddr := if p.(p_vaddr) <? s.(min_vaddr) then p.(p_vaddr) else s.(min_vaddr);
               max_vaddr := if phdr_end >? s.(max_vaddr) then phdr_end else s.(max_vaddr) |}
  end.

(** [again]: a random slide with the image's end in the last 2 GiB. [n] is the number of tries
    that are left. *)
Fixpoint random_slide {R : Type} (rand32 : R -> Z * R) (n : nat) (rng : R) (max_align virtual_base image_size lower_slide : Z) : outcome (Z * R) :=
  match n with
  | O => Panic
  | S n =>
      let '(x, rng) := rand32 rng in
      let slide := u64 (Z.land x (u64 (Z.lnot (max_align - 1))) + lower_slide) in
      if u64 (virtual_base + slide + image_size) <? 0xffffffff80000000 then random_slide rand32 n rng max_align virtual_base image_size lower_slide
      else Ret (slide, rng)
  end.

(** The segments into memory; [bss_size] is the part of the last one that is not in the file. *)
Fixpoint load_loop (elf : Z -> Z) (file_size : Z) (l : list elf_phdr) (physical_base virtual_base max_vaddr slide : Z) (m : mem) (bss_size : Z) : outcome (mem * Z) :=
  match l with
  | [] => Ret (m, bss_size)
  | p :: l =>
      if negb (is_load p) then load_loop elf file_size l physical_base virtual_base max_vaddr slide m bss_size
      else if p.(p_filesz) >? p.(p_memsz) then Panic
      else
        offset_end ← or_panic (CHECKED_ADD p.(p_offset) p.(p_filesz));
        if offset_end >? file_size then Panic
        else
          let load_addr := u64 (physical_base + (p.(p_vaddr) - virtual_base)) in
          let m := copy_in elf m load_addr p.(p_offset) p.(p_filesz) in
          let bss_size := if u64 (p.(p_vaddr) + p.(p_memsz)) =? max_vaddr then p.(p_memsz) - p.(p_filesz) else bss_size in
          r ← elf64_apply_relocations elf file_size load_addr p.(p_vaddr) p.(p_memsz) slide m;
          match r with
          | None => Panic
          | Some m => load_loop elf file_size l physical_base virtual_base max_vaddr slide m bss_size
          end
  end.

Record loaded := {
  entry_point : Z; l_slide : Z; ranges : list mem_range; physical_base : Z; virtual_base : Z; image_size : Z; image_size_before_bss : Z; l_is_reloc : bool }.
Definition elf64_load {R : Type} (rand32 : R -> Z * R) (elf : Z -> Z) (file_size alloc_type : Z) (kaslr : bool) (i386 : bool) (st : Pmm.state) (rng : R)
    : outcome (loaded * Pmm.state * R) :=
  let h := elf64_hdr elf in
  _ ← elf64_validate h;
  if negb (h.(type) =? ET_EXEC) && negb (h.(type) =? ET_DYN) then Panic
  else if h.(phdr_size) <? 56 then Panic
  else
    size ← or_panic (CHECKED_MUL h.(ph_num) h.(phdr_size));
    phdr_table_end ← or_panic (CHECKED_ADD size h.(phoff));
    if phdr_table_end >? file_size then Panic
    else
      is_reloc ← elf64_is_relocatable elf;
      max_align ← elf64_max_align elf;
      s ← span_loop (phdrs64 elf) (phdrs64 elf) 0 is_reloc {| lower_to_higher := false; min_vaddr := UINT64_MAX; max_vaddr := 0 |};
      if s.(min_vaddr) =? UINT64_MAX then Panic
      else
        let lower_slide := if s.(lower_to_higher) then u64 (FIXED_HIGHER_HALF_OFFSET_64 - s.(min_vaddr)) else 0 in
        let image_size := s.(max_vaddr) - s.(min_vaddr) in
        '(physical_base, st) ← Pmm.ext_mem_alloc_type_aligned i386 st image_size alloc_type max_align;
        '(slide, rng) ← (if is_reloc && kaslr then random_slide rand32 (Z.to_nat 0x10000) rng max_align s.(min_vaddr) image_size lower_slide else Ret (lower_slide, rng));
        '(m, bss_size) ← load_loop elf file_size (phdrs64 elf) physical_base s.(min_vaddr) s.(max_vaddr) slide st.(Pmm.ram) 0;
        ranges ← elf64_get_ranges elf slide;
        Ret ({| entry_point := u64 (h.(entry) + slide); l_slide := slide; ranges := ranges; physical_base := physical_base;
                virtual_base := u64 (s.(min_vaddr) + slide); image_size := image_size; image_size_before_bss := image_size - bss_size; l_is_reloc := is_reloc |},
             Pmm.set_ram st m, rng).

(** * Loading elsewhere *)

Record elsewhere_range := { el_elsewhere : Z; el_target : Z; el_length : Z }.

Definition CHECKED_ADD_32 (a b : Z) : option Z := if a + b <? 2 ^ 32 then Some (a + b) else None.
(** The smallest and the largest address, and whether there is a segment. *)
Fixpoint paddr_loop (l : list elf_phdr) (min_paddr max_paddr : Z) (has_loadable : bool) : outcome (Z * Z * bool) :=
  match l with
  | [] => Ret (min_paddr, max_paddr, has_loadable)
  | p :: l =>
      if negb (is_load p) then paddr_loop l min_paddr max_paddr has_loadable
      else
        let min_paddr := if p.(p_paddr) <? min_paddr then p.(p_paddr) else min_paddr in
        top ← or_panic (CHECKED_ADD p.(p_paddr) p.(p_memsz));
        paddr_loop l min_paddr (if top >? max_paddr then top else max_paddr) true
  end.
(** [add] is the checked addition at the width of the fields. *)
Fixpoint copy_loop (add : Z -> Z -> option Z) (elf : Z -> Z) (file_size : Z) (l : list elf_phdr) (elsewhere min_paddr entry_point : Z) (entry_adjusted : bool) (m : mem)
    : outcome (Z * mem) :=
  match l with
  | [] => Ret (entry_point, m)
  | p :: l =>
      if negb (is_load p) then copy_loop add elf file_size l elsewhere min_paddr entry_point entry_adjusted m
      else if p.(p_filesz) >? p.(p_memsz) then Panic
      else
        offset_end ← or_panic (CHECKED_ADD p.(p_offset) p.(p_filesz));
        if offset_end >? file_size then Panic
        else
          let m := copy_in elf m (elsewhere + (p.(p_paddr) - min_paddr)) p.(p_offset) p.(p_filesz) in
          if negb entry_adjusted && (entry_point >=? p.(p_vaddr)) && match add p.(p_vaddr) p.(p_memsz) with Some e => entry_point <? e | None => false end
          then copy_loop add elf file_size l elsewhere min_paddr (u64 (entry_point - p.(p_vaddr) + p.(p_paddr))) true m
          else copy_loop add elf file_size l elsewhere min_paddr entry_point entry_adjusted m
  end.
(** The two functions differ in the structures only. *)
Definition load_elsewhere (add : Z -> Z -> option Z) (sizeof_phdr : Z) (elf : Z -> Z) (file_size : Z) (h : elf_hdr) (l : list elf_phdr) (i386 : bool) (st : Pmm.state)
    : outcome (Z * elsewhere_range * Pmm.state) :=
  if negb (h.(type) =? ET_EXEC) && negb (h.(type) =? ET_DYN) then Panic
  else if h.(phdr_size) <? sizeof_phdr then Panic
  else if (h.(phoff) >? file_size) || (h.(ph_num) * h.(phdr_size) >? file_size - h.(phoff)) then Panic
  else
    '(min_paddr, max_paddr, has_loadable) ← paddr_loop l UINT64_MAX 0 false;
    if negb has_loadable then Panic
    else
      let image_size := max_paddr - min_paddr in
      if image_size >? SIZE_MAX then Panic
      else
        '(elsewhere, st) ← Pmm.ext_mem_alloc i386 st image_size;
        '(_, st) ← Pmm.ext_mem_alloc i386 st 24;
        '(entry_point, m) ← copy_loop add elf file_size l elsewhere min_paddr h.(entry) false st.(Pmm.ram);
        Ret (entry_point, {| el_elsewhere := elsewhere; el_target := min_paddr; el_length := image_size |}, Pmm.set_ram st m).
Definition elf32_load_elsewhere (elf : Z -> Z) (file_size : Z) (i386 : bool) (st : Pmm.state) : outcome (Z * elsewhere_range * Pmm.state) :=
  _ ← elf32_validate (elf32_hdr elf);
  load_elsewhere CHECKED_ADD_32 32 elf file_size (elf32_hdr elf) (phdrs32 elf) i386 st.
Definition elf64_load_elsewhere (elf : Z -> Z) (file_size : Z) (i386 : bool) (st : Pmm.state) : outcome (Z * elsewhere_range * Pmm.state) :=
  _ ← elf64_validate (elf64_hdr elf);
  load_elsewhere CHECKED_ADD 56 elf file_size (elf64_hdr elf) (phdrs64 elf) i386 st.
End arch.

(** * Further ranges *)

Definition elsewhere_overlap_check (base1 top1 base2 top2 : Z) : bool := (base1 <? top2) && (base2 <? top1).

Fixpoint ranges_top (l : list elsewhere_range) (top : Z) : Z :=
  match l with
  | [] => top
  | r :: l => match CHECKED_ADD r.(el_target) r.(el_length) with
              | None => ranges_top l top
              | Some r_top => ranges_top l (if top <? r_top then r_top else top)
              end
  end.
(** A pass returns, or goes to [retry] with another target. *)
Inductive pass_result := Fits (st : Pmm.state) | Retry (target : Z) (st : Pmm.state) | Fails (st : Pmm.state).
(** A pass over the ranges: where a sum overflows, [continue] skips the rest of the iteration. *)
Fixpoint append_pass (l : list elsewhere_range) (target t_length : Z) (st : Pmm.state) : outcome pass_result :=
  match l with
  | [] => Ret (Fits st)
  | r :: l =>
      match CHECKED_ADD target t_length with
      | None => Ret (Fails st)
      | Some t_top =>
          if t_top >? 0x100000000 then Ret (Fails st)
          else match CHECKED_ADD r.(el_target) r.(el_length) with
          | None => append_pass l target t_length st
          | Some top =>
              if elsewhere_overlap_check r.(el_target) top target t_top then
                Ret (match ALIGN_UP top 4096 with Some t => Retry t st | None => Fails st end)
              else match CHECKED_ADD r.(el_elsewhere) r.(el_length) with
              | None => append_pass l target t_length st
              | Some top =>
                  if elsewhere_overlap_check r.(el_elsewhere) top target t_top then
                    Ret (match ALIGN_UP top 4096 with Some t => Retry t st | None => Fails st end)
                  else
                    '(ok, st) ← Pmm.memmap_alloc_range st target t_length Pmm.MEMMAP_BOOTLOADER_RECLAIMABLE Pmm.MEMMAP_USABLE false true false;
                    '(ok, st) ← (if ok : bool then Ret (true, st)
                                 else Pmm.memmap_alloc_range st target t_length Pmm.MEMMAP_BOOTLOADER_RECLAIMABLE Pmm.MEMMAP_BOOTLOADER_RECLAIMABLE false true false);
                    if ok : bool then append_pass l target t_length st else Ret (Retry (u64 (target + 0x1000)) st)
              end
          end
      end
  end.
Fixpoint append_loop (retries : nat) (l : list elsewhere_range) (target t_length : Z) (st : Pmm.state) : outcome (option Z * Pmm.state) :=
  match retries with
  | O => Ret (None, st)
  | S retries =>
      r ← append_pass l target t_length st;
      match r with
      | Fits st => Ret (Some target, st)
      | Retry target st => append_loop retries l target t_length st
      | Fails st => Ret (None, st)
      end
  end.
(** The ranges and the target; [None] is [false]. *)
Definition elsewhere_append (l : list elsewhere_range) (ranges_max source target t_length : Z) (st : Pmm.state) : outcome (option (list elsewhere_range * Z) * Pmm.state) :=
  match (if target =? UINT64_MAX then ALIGN_UP (ranges_top l 0) 4096 else Some target) with
  | None => Ret (None, st)
  | Some target =>
      '(r, st) ← append_loop (Z.to_nat 0x10000) l target t_length st;
      match r with
      | None => Ret (None, st)
      | Some target =>
          if zlen l >=? ranges_max then Panic
          else Ret (Some (l ++ [{| el_elsewhere := source; el_target := target; el_length := t_length |}], target), st)
      end
  end.
End Elf.
