(* ===== verification/ElfRelocs.v ===== *)
(** The relocations of an ELF file as the format describes them, apart from the code: the dynamic
    section as a list of tags with values, addresses looked up in the segments, the compressed
    relative relocations by the bits of their words. [described_read]: [read_relocs], which
    [elf64_apply_relocations] starts with, finds exactly these. *)

From S2P Require Import Prelude Pmm Libc LibcCorrect Guid GuidCorrect Part PartCorrect Elf.
Import Guid Elf.

(** * Numbers *)

Lemma CHECKED_ADD_small a b : a + b < 2 ^ 64 -> CHECKED_ADD a b = Some (a + b).
Proof. intros H. by apply CHECKED_ADD_Some. Qed.
Lemma CHECKED_MUL_small a b : a * b < 2 ^ 64 -> CHECKED_MUL a b = Some (a * b).
Proof. intros H. unfold CHECKED_MUL. by rewrite (proj2 (Z.ltb_lt _ _) H). Qed.
Lemma elf_num_range m a n : (forall x, is_byte (m x)) -> 0 <= num m a n < 2 ^ (8 * Z.of_nat n).
Proof.
  intros Hb. pose proof (of_le_range (load_bytes m a n)) as H. unfold num. unfold zlen in H. rewrite length_load in H. rewrite Z.pow_mul_r by lia. change (2 ^ 8) with 256. apply H.
  unfold load_bytes. apply Forall_fmap, Forall_forall. intros x _. apply Hb.
Qed.

(** * The format *)

Section format.
Context `{!ElfArch} (elf : Z -> Z) (file_size : Z).

(** The entries of the dynamic section, tags with values, up to the one with tag 0. *)
Fixpoint up_to_null (l : list (Z * Z)) : list (Z * Z) :=
  match l with
  | [] => []
  | (tag, v) :: l => if tag =? 0 then [] else (tag, v) :: up_to_null l
  end.
Fixpoint pairs (n : nat) (off : Z) : list (Z * Z) :=
  match n with O => [] | S n => (num elf off 8, num elf (off + 8) 8) :: pairs n (off + 16) end.
Definition dynamic_segment : option elf_phdr := head (filter (fun p => p.(p_type) = 2) (phdrs64 elf)).
Definition dynamic_entries : list (Z * Z) :=
  match dynamic_segment with None => [] | Some p => up_to_null (pairs (Z.to_nat (p.(p_filesz) / 16)) p.(p_offset)) end.

(** The value of the last entry with a tag. *)
Definition tagged (tag default : Z) (l : list (Z * Z)) : Z := foldl (fun v e => if e.1 =? tag then e.2 else v) default l.
Definition value (tag : Z) : Z := tagged tag 0 dynamic_entries.

(** A segment that has the address in the file. *)
Definition holds (p : elf_phdr) (addr : Z) : Prop :=
  p.(p_vaddr) <= addr < p.(p_vaddr) + p.(p_filesz) /\ p.(p_vaddr) + p.(p_filesz) < 2 ^ 64.
(** [size] bytes at [addr] are at [off] in the file: a loaded segment has the address, and another
    header that covers it does not disagree. *)
Definition placed (addr size off : Z) : Prop :=
  (exists p, p ∈ phdrs64 elf /\ p.(p_type) = 1 /\ holds p addr) /\
  (forall p, p ∈ phdrs64 elf -> holds p addr -> off = p.(p_offset) + (addr - p.(p_vaddr))) /\
  0 <= off /\ off + size <= file_size.
(** The [left] bytes from there on are in the segment. *)
Definition left_of (addr left : Z) : Prop := forall p, p ∈ phdrs64 elf -> holds p addr -> left = p.(p_vaddr) + p.(p_filesz) - addr.
(** A table of the dynamic section. *)
Definition table_at (addr size off : Z) : Prop := (size <> 0 -> addr <> 0) /\ (addr <> 0 -> placed addr size off).

(** Compressed relative relocations. An even word is an address to relocate. Bit [i] of an odd
    one stands for the [i]-th of the 63 words that follow. *)
Fixpoint relr_decode (base : Z) (words : list Z) : list Z :=
  match words with
  | [] => []
  | w :: words =>
      if Z.even w then w :: relr_decode (w + 8) words
      else ((fun i => (base + 8 * (i - 1)) mod 2 ^ 64) <$> filter (fun i => Z.testbit w i = true) (seqZ 1 63)) ++ relr_decode (base + 8 * 63) words
  end.
Definition relr_words (off size : Z) : list Z := (fun i => num elf (off + 8 * i) 8) <$> seqZ 0 (size / 8).
(** Relocations with an addend, [ent] bytes apart. *)
Definition rela_list (off size ent : Z) : list elf64_rela := (fun i => rela_at elf (off + ent * i)) <$> seqZ 0 (size / ent).

(** [t] is what the dynamic section says. The sizes of tables without an address are 0. *)
Record described (t : reloc_table) : Prop := {
  ds_bytes : forall x, is_byte (elf x);
  ds_segment p : dynamic_segment = Some p -> p.(p_offset) + p.(p_filesz) <= file_size;
  ds_entries : Forall (fun e => e.1 <> 1 /\ (e.1 = 11 -> 24 <= e.2)) dynamic_entries;
  ds_relocs : exists relr rela jmprel,
    table_at (value 36) (value 35) relr /\ table_at (value 7) (value 8) rela /\ table_at (value 23) (value 2) jmprel /\
    t.(relocs) = (relr_reloc <$> relr_decode 0 (relr_words relr (value 35))) ++
      rela_list rela (value 8) (value 9) ++ rela_list jmprel (value 2) (value 9);
  ds_relr : value 35 <> 0 -> value 37 = 8;
  ds_rela : value 8 <> 0 \/ value 2 <> 0 -> 24 <= value 9 /\ value 8 mod value 9 = 0 /\ value 2 mod value 9 = 0;
  ds_pltrel : value 2 <> 0 -> value 20 = 7;
  ds_symtab : if value 6 =? 0 then t.(symtab) = 0 /\ t.(symtab_size) = 0
              else placed (value 6) 0 t.(symtab) /\ left_of (value 6) t.(symtab_size);
  ds_syment : t.(sym_ent) = value 11;
  ds_strtab : value 5 <> 0 -> exists off, placed (value 5) 0 off;
  ds_count : zlen t.(relocs) <= SIZE_MAX }.

(** * The code *)

(** The variables after the entries [l]. *)
Definition set_by (l : list (Z * Z)) (d : dynamic) : dynamic :=
  {| rela_offset := tagged 7 d.(rela_offset) l; rela_ent := tagged 9 d.(rela_ent) l; rela_size := tagged 8 d.(rela_size) l;
     relr_offset := tagged 36 d.(relr_offset) l; relr_ent := tagged 37 d.(relr_ent) l; relr_size := tagged 35 d.(relr_size) l;
     symtab_offset := tagged 6 d.(symtab_offset) l; symtab_ent := tagged 11 d.(symtab_ent) l; strtab_offset := tagged 5 d.(strtab_offset) l;
     dt_pltrel := tagged 20 d.(dt_pltrel) l; dt_pltrelsz := tagged 2 d.(dt_pltrelsz) l; dt_jmprel := tagged 23 d.(dt_jmprel) l |}.

Lemma dyn_entry_set tag v d : tag <> 0 -> tag <> 1 -> (tag = 11 -> 24 <= v) -> dyn_entry tag v d = Ret (inl (set_by [(tag, v)] d)).
Proof.
  intros H0 H1 H11. destruct d. unfold dyn_entry, set_by, tagged. cbn.
  repeat match goal with
  | |- context [tag =? ?k] => destruct (Z.eqb_spec tag k) as [->|]; [cbn; try (rewrite (proj2 (Z.ltb_ge _ _)) by lia); reflexivity || lia |]
  end. reflexivity.
Qed.
Lemma dyn_loop_set : forall n off d, Forall (fun e => e.1 <> 1 /\ (e.1 = 11 -> 24 <= e.2)) (up_to_null (pairs n off)) ->
  dyn_loop n elf off d = Ret (set_by (up_to_null (pairs n off)) d).
Proof.
  induction n as [|n IH]; intros off d; cbn [pairs up_to_null dyn_loop]; [by destruct d |].
  destruct (Z.eqb_spec (num elf off 8) 0) as [Hz|Hz].
  - intros _. rewrite Hz. by destruct d.
  - intros [[H1 H11] HF]%Forall_cons. cbn [fst snd] in *. rewrite dyn_entry_set by done. cbn [mbind outcome_bind]. by rewrite IH.
Qed.

Lemma dynamic_segment_find : find_dynamic (phdrs64 elf) = dynamic_segment.
Proof.
  unfold dynamic_segment. induction (phdrs64 elf) as [|p l IH]; [done |]. cbn [find_dynamic]. rewrite filter_cons. unfold PT_DYNAMIC.
  destruct (Z.eqb_spec (p_type p) 2); [by rewrite decide_True | by rewrite decide_False].
Qed.

(** The variables are the values of the dynamic section. *)
Lemma read_dynamic_values t : described t -> file_size < 2 ^ 64 -> read_dynamic elf file_size = Ret (Some (set_by dynamic_entries no_dynamic)).
Proof.
  intros Hd Hf. unfold read_dynamic, dynamic_entries. pose proof (ds_segment _ Hd) as Hs. pose proof (ds_entries _ Hd) as He. unfold dynamic_entries in He.
  rewrite dynamic_segment_find. destruct dynamic_segment as [p|]; [|done]. specialize (Hs p eq_refl).
  rewrite CHECKED_ADD_small by lia. rewrite Z.gtb_ltb, (proj2 (Z.ltb_ge _ _)) by lia. by rewrite dyn_loop_set.
Qed.

(** ** Addresses *)

Lemma translate_list addr size off : 0 <= off -> off + size <= file_size -> file_size < 2 ^ 64 -> 0 <= size -> forall l,
  (exists p, p ∈ l /\ holds p addr) -> (forall p, p ∈ l -> holds p addr -> off = p.(p_offset) + (addr - p.(p_vaddr))) ->
  exists p, p ∈ l /\ holds p addr /\ elf64_translate_vaddr l file_size addr size = Some (off, p.(p_vaddr) + p.(p_filesz) - addr).
Proof.
  intros H0 Hle Hf Hs. induction l as [|p l IH]; intros (q & Hq & Hh) Hall; [by apply not_elem_of_nil in Hq |]. cbn [elf64_translate_vaddr].
  destruct (decide (holds p addr)) as [Hp|Hp].
  - exists p. split; [by left |]. split; [done |]. pose proof (Hall p ltac:(by left) Hp) as ->. destruct Hp as [[Hp1 Hp2] Hp3].
    rewrite CHECKED_ADD_small by done. rewrite (proj2 (Z.leb_le _ _) Hp1), Z.gtb_ltb, (proj2 (Z.ltb_lt _ _) Hp2). cbn [andb].
    rewrite u64_small by lia. rewrite CHECKED_ADD_small by lia. cbn. rewrite Z.gtb_ltb, (proj2 (Z.ltb_ge _ _)) by lia. do 2 f_equal; lia.
  - assert (q ∈ l) as Hql by (apply elem_of_cons in Hq as [->|]; done).
    destruct (IH (ex_intro _ q (conj Hql Hh))) as (p' & Hp' & Hh' & E); [intros; apply Hall; [by right | done] |].
    exists p'. split; [by right |]. split; [done |].
    destruct (CHECKED_ADD (p_vaddr p) (p_filesz p)) as [e|] eqn:Ee; [|done]. apply CHECKED_ADD_Some in Ee as [-> Ee].
    replace ((p_vaddr p <=? addr) && (p_vaddr p + p_filesz p >? addr)) with false; [done |].
    symmetry. apply not_true_iff_false. rewrite andb_true_iff, Z.gtb_ltb, Z.leb_le, Z.ltb_lt. intros [? ?]. apply Hp. split; [lia | done].
Qed.
Lemma placed_translate addr size off : placed addr size off -> file_size < 2 ^ 64 -> 0 <= size ->
  exists left, elf64_translate_vaddr (phdrs64 elf) file_size addr size = Some (off, left) /\ forall l, left_of addr l -> left = l.
Proof.
  intros ((p & Hp & _ & Hh) & Hall & H0 & Hle) Hf Hs.
  destruct (translate_list addr size off H0 Hle Hf Hs (phdrs64 elf)) as (q & Hq & Hhq & E); [by exists p | done |].
  eexists. split; [exact E |]. intros l Hl. by rewrite (Hl q Hq Hhq).
Qed.
Lemma table_translate addr size off : table_at addr size off -> file_size < 2 ^ 64 -> 0 <= size ->
  exists o left, translate elf file_size addr size = Ret (o, left) /\ (size <> 0 -> o = off).
Proof.
  intros [Ha Hp] Hf Hs. unfold translate. destruct (Z.eqb_spec addr 0) as [Hz|Hz]; cbn [negb].
  - exists 0, 0. split; [done |]. intros Hne. by destruct (Ha Hne).
  - destruct (placed_translate _ _ _ (Hp Hz) Hf Hs) as (left & -> & _). by exists off, left.
Qed.

(** ** Compressed relocations *)

Lemma filter_none {A} (P : A -> Prop) `{!forall x, Decision (P x)} (l : list A) : (forall x, x ∈ l -> ~ P x) -> filter P l = [].
Proof.
  induction l as [|x l IH]; intros Hn; [done |]. rewrite filter_cons_False by (apply Hn; by left). apply IH. intros y Hy. apply Hn. by right.
Qed.
Lemma relr_bits_spec where_ w : forall fuel k, 0 <= k ->
  relr_bits fuel where_ (Z.shiftr w k) k =
  (fun i => u64 (where_ + (i - 1) * 8)) <$> filter (fun i => Z.testbit w i = true) (seqZ (k + 1) (Z.of_nat fuel)).
Proof.
  induction fuel as [|fuel IH]; intros k Hk; [done |]. cbn [relr_bits]. cbv zeta. rewrite Z.shiftr_shiftr by lia.
  destruct (Z.eqb_spec (Z.shiftr w (k + 1)) 0) as [Hz|Hz]; cbn [negb].
  - rewrite filter_none; [done |]. intros i Hi. apply elem_of_seqZ in Hi.
    replace i with (i - (k + 1) + (k + 1)) by lia. rewrite <- Z.shiftr_spec by lia. rewrite Hz, Z.bits_0. done.
  - rewrite seqZ_cons by lia. rewrite filter_cons. replace (Z.pred (Z.of_nat (S fuel))) with (Z.of_nat fuel) by lia.
    rewrite IH by lia. replace (Z.succ (k + 1)) with (k + 1 + 1) by lia.
    assert ((Z.land (Z.shiftr w (k + 1)) 1 =? 0) = negb (Z.testbit w (k + 1))) as ->.
    { rewrite (Z.land_ones _ 1), <- Z.bit0_mod, Z.shiftr_spec, Z.add_0_l by lia. by destruct (Z.testbit w (k + 1)). }
    rewrite negb_involutive. case_decide as Hb; [rewrite Hb | apply not_true_is_false in Hb; rewrite Hb]; cbn [app fmap list_fmap]; [|done].
    do 3 f_equal. lia.
Qed.

Lemma even_bit w : (Z.land w 1 =? 0) = Z.even w.
Proof. rewrite (Z.land_ones _ 1), <- Z.bit0_mod, Z.bit0_odd, <- Z.negb_even by lia. by destruct (Z.even w). Qed.

Definition bits_of (w : Z) : list Z := filter (fun i => Z.testbit w i = true) (seqZ 1 63).

Lemma relr_addrs_decode : forall ws base, Forall (fun w => 0 <= w < 2 ^ 64) ws ->
  relr_addrs ws (base mod 2 ^ 64) = relr_decode base ws.
Proof.
  induction ws as [|w ws IH]; intros base HF; [done |]. apply Forall_cons in HF as [Hw HF]. cbn [relr_addrs relr_decode].
  rewrite even_bit. destruct (Z.even w); [unfold u64, wrap; by rewrite IH |]. f_equal.
  - pose proof (relr_bits_spec (base mod 2 ^ 64) w 64 0 ltac:(lia)) as E. rewrite Z.shiftr_0_r in E. rewrite E.
    change (0 + 1) with 1. change (Z.of_nat 64) with (63 + 1). rewrite seqZ_app, filter_app by lia.
    rewrite (filter_none _ (seqZ (1 + 63) 1)), app_nil_r.
    + apply list_fmap_ext. intros k i _. unfold u64, wrap. rewrite Z.add_mod_idemp_l by lia. f_equal. lia.
    + intros i Hi. apply elem_of_seqZ in Hi. rewrite <- (Z.mod_small w (2 ^ 64)) by done. by rewrite Z.mod_pow2_bits_high by lia.
  - unfold u64, wrap. rewrite Z.add_mod_idemp_l by lia. apply IH, HF.
Qed.

Lemma add_count c n : c + n <= SIZE_MAX -> elf64_add_relocation_count c n = Ret (c + n).
Proof. intros Hl. unfold elf64_add_relocation_count. by rewrite Z.gtb_ltb, (proj2 (Z.ltb_ge _ _)) by lia. Qed.

Lemma relr_count_decode : forall ws base c, c + zlen (relr_decode base ws) <= SIZE_MAX ->
  relr_count ws c = Ret (c + zlen (relr_decode base ws)).
Proof.
  induction ws as [|w ws IH]; intros base c Hl; cbn [relr_count relr_decode] in *; [change (zlen (@nil Z)) with 0; by rewrite Z.add_0_r |].
  rewrite even_bit. destruct (Z.even w) eqn:Ew.
  - rewrite zlen_cons in *. pose proof (zlen_nonneg (relr_decode (w + 8) ws)). rewrite add_count by lia. cbn [mbind outcome_bind].
    rewrite (IH (w + 8)) by lia. f_equal. lia.
  - fold (bits_of w) in *. rewrite zlen_app in *. pose proof (zlen_nonneg (relr_decode (base + 8 * 63) ws)).
    assert (popcount w - 1 = zlen ((fun i => (base + 8 * (i - 1)) mod 2 ^ 64) <$> bits_of w)) as ->.
    { unfold popcount, bits_of. change 64 with (1 + 63) at 1. rewrite seqZ_app, filter_app, zlen_app by lia. change (seqZ 0 1) with [0].
      rewrite filter_cons_True by (rewrite Z.bit0_odd, <- Z.negb_even; by rewrite Ew). rewrite filter_nil. change (zlen [0]) with 1.
      unfold zlen. rewrite length_fmap. change (0 + 1) with 1. lia. }
    rewrite add_count by lia. cbn [mbind outcome_bind]. rewrite (IH (base + 8 * 63)) by lia. f_equal. lia.
Qed.

(** ** The whole *)

Lemma value_range tag : (forall x, is_byte (elf x)) -> 0 <= value tag < 2 ^ 64.
Proof.
  intros Hb. unfold value, tagged, dynamic_entries.
  assert (forall l d, 0 <= d < 2 ^ 64 -> Forall (fun e => 0 <= e.2 < 2 ^ 64) l -> 0 <= foldl (fun v e => if e.1 =? tag then e.2 else v) d l < 2 ^ 64) as Hf.
  { induction l as [|e l IH]; intros d Hd HF; [done |]. apply Forall_cons in HF as [He HF]. cbn [foldl]. apply IH; [by destruct (_ =? _) | done]. }
  apply Hf; [lia |]. destruct dynamic_segment as [p|]; [|constructor].
  generalize (Z.to_nat (p_filesz p / 16)), (p_offset p). intros n. induction n as [|n IH]; intros off; cbn [pairs up_to_null]; [constructor |].
  case_if; constructor; [exact (elf_num_range elf (off + 8) 8 Hb) | apply IH].
Qed.

Lemma relr_words_entries off size : relr_entries elf off size 8 = relr_words off size.
Proof. apply list_fmap_ext. intros i x _. by rewrite Z.mul_comm. Qed.
Lemma rela_list_entries off size ent : rela_entries elf off size ent = rela_list off size ent.
Proof. apply list_fmap_ext. intros i x _. by rewrite Z.mul_comm. Qed.
Lemma zlen_rela_list off size ent : 0 <= size -> 0 < ent -> zlen (rela_list off size ent) = size / ent.
Proof. intros Hs He. unfold zlen, rela_list. rewrite length_fmap, length_seqZ. pose proof (Z.div_pos size ent Hs He). lia. Qed.

(** The two parts of the list, with what the code counts for them. *)
Lemma relr_part off off' size ent : (forall x, is_byte (elf x)) -> (size <> 0 -> off = off') -> (size <> 0 -> ent = 8) ->
  zlen (relr_decode 0 (relr_words off' size)) <= SIZE_MAX ->
  (if negb (size =? 0) then if negb (ent =? 8) then Panic else relr_count (relr_entries elf off size ent) 0 else Ret 0)
    = Ret (zlen (relr_decode 0 (relr_words off' size))) /\
  (if negb (size =? 0) then relr_reloc <$> relr_addrs (relr_entries elf off size ent) 0 else []) = relr_reloc <$> relr_decode 0 (relr_words off' size).
Proof.
  intros Hb Ho He Hm. destruct (Z.eqb_spec size 0) as [->|Hz]; cbn [negb]; [done |]. rewrite (Ho Hz), (He Hz), Z.eqb_refl. cbn [negb].
  rewrite relr_words_entries. split; [by rewrite (relr_count_decode _ 0) by (rewrite Z.add_0_l; done) |].
  f_equal. apply (relr_addrs_decode _ 0). apply Forall_fmap, Forall_forall. intros i _. apply (elf_num_range elf _ 8 Hb).
Qed.
Lemma rela_part off off' size ent : (size <> 0 -> off = off') ->
  (if negb (size =? 0) then rela_entries elf off size ent else []) = rela_list off' size ent.
Proof.
  intros Ho. destruct (Z.eqb_spec size 0) as [->|Hz]; cbn [negb]; [by unfold rela_list; rewrite Zdiv_0_l |]. by rewrite (Ho Hz), rela_list_entries.
Qed.
Lemma rela_count off size ent c : 0 <= size -> (size <> 0 -> 24 <= ent /\ size mod ent = 0) -> c + zlen (rela_list off size ent) <= SIZE_MAX ->
  (if negb (size =? 0) then if ent <? 24 then Panic else if negb (size mod ent =? 0) then Panic else elf64_add_relocation_count c (size / ent) else Ret c)
    = Ret (c + zlen (rela_list off size ent)).
Proof.
  intros Hs He Hm. destruct (Z.eqb_spec size 0) as [->|Hz]; cbn [negb].
  { unfold rela_list. rewrite Zdiv_0_l. change (zlen _) with 0. by rewrite Z.add_0_r. }
  destruct (He Hz) as [H24 ->]. rewrite (proj2 (Z.ltb_ge _ _) H24), Z.eqb_refl. cbn [negb].
  rewrite zlen_rela_list in * by lia. by apply add_count.
Qed.
Lemma plt_count off size ent pltrel c : 0 <= size -> (size <> 0 -> 24 <= ent /\ size mod ent = 0) -> (size <> 0 -> pltrel = 7) -> c + zlen (rela_list off size ent) <= SIZE_MAX ->
  (if negb (size =? 0) then if negb (pltrel =? 7) then Panic else if ent =? 0 then Panic else if negb (size mod ent =? 0) then Panic
     else elf64_add_relocation_count c (size / ent) else Ret c) = Ret (c + zlen (rela_list off size ent)).
Proof.
  intros Hs He Hp Hm. pose proof (rela_count off size ent c Hs He Hm) as E. destruct (Z.eqb_spec size 0) as [->|Hz]; cbn [negb] in *; [done |].
  destruct (He Hz) as [H24 _]. rewrite (proj2 (Z.ltb_ge _ _) H24) in E. by rewrite (Hp Hz), Z.eqb_refl, (proj2 (Z.eqb_neq ent 0)) by lia.
Qed.

(** The addresses of the symbols and of their names. *)
Lemma symtab_translate t : described t -> file_size < 2 ^ 64 -> translate elf file_size (value 6) 0 = Ret (t.(symtab), t.(symtab_size)).
Proof.
  intros Hd Hf. unfold translate. pose proof (ds_symtab _ Hd) as Hs. destruct (value 6 =? 0); cbn [negb].
  - by destruct Hs as [-> ->].
  - destruct Hs as [Hp Hl]. destruct (placed_translate _ _ _ Hp Hf ltac:(lia)) as (left & -> & Hleft). cbn. by rewrite (Hleft _ Hl).
Qed.
Lemma strtab_translate t : described t -> file_size < 2 ^ 64 -> exists x, translate elf file_size (value 5) 0 = Ret x.
Proof.
  intros Hd Hf. unfold translate. destruct (Z.eqb_spec (value 5) 0) as [Hz|Hz]; cbn [negb]; [by eexists |].
  destruct (ds_strtab _ Hd Hz) as (off & Hp). destruct (placed_translate _ _ _ Hp Hf ltac:(lia)) as (left & -> & _). by eexists.
Qed.

Lemma described_read t : described t -> 56 <= (elf64_hdr elf).(phdr_size) ->
  (elf64_hdr elf).(ph_num) * (elf64_hdr elf).(phdr_size) + (elf64_hdr elf).(phoff) <= file_size -> file_size < 2 ^ 64 ->
  0 <= (elf64_hdr elf).(phoff) -> read_relocs elf file_size = Ret (Some t).
Proof.
  intros Hd Hp Ht Hf H0. unfold read_relocs. cbv zeta. rewrite (proj2 (Z.ltb_ge _ _) Hp).
  rewrite CHECKED_MUL_small by lia. cbn [mbind option_bind]. rewrite CHECKED_ADD_small by lia.
  rewrite Z.gtb_ltb, (proj2 (Z.ltb_ge _ _)) by lia. rewrite (read_dynamic_values t Hd Hf). cbn [mbind outcome_bind].
  unfold set_by. cbn [rela_offset rela_ent rela_size relr_offset relr_ent relr_size symtab_offset symtab_ent strtab_offset dt_pltrel dt_pltrelsz dt_jmprel no_dynamic].
  fold (value 7) (value 8) (value 9) (value 36) (value 35) (value 37) (value 6) (value 11) (value 5) (value 20) (value 2) (value 23).
  pose proof (ds_bytes _ Hd) as Hb. destruct (ds_relocs _ Hd) as (relr & rela & jmprel & T1 & T2 & T3 & Er). pose proof (ds_count _ Hd) as Hc.
  pose proof (fun tag => proj1 (value_range tag Hb)) as Hv.
  destruct (table_translate _ _ _ T2 Hf (Hv 8)) as (o2 & l2 & -> & E2). cbn [mbind outcome_bind].
  destruct (table_translate _ _ _ T1 Hf (Hv 35)) as (o1 & l1 & -> & E1). cbn [mbind outcome_bind].
  rewrite (symtab_translate t Hd Hf). cbn [mbind outcome_bind]. destruct (strtab_translate t Hd Hf) as (x & ->). cbn [mbind outcome_bind].
  destruct (table_translate _ _ _ T3 Hf (Hv 2)) as (o3 & l3 & -> & E3). cbn [mbind outcome_bind].
  rewrite Er in Hc. rewrite !zlen_app in Hc. replace (zlen (relr_reloc <$> _)) with (zlen (relr_decode 0 (relr_words relr (value 35)))) in Hc by (unfold zlen; by rewrite length_fmap).
  pose proof (zlen_nonneg (relr_decode 0 (relr_words relr (value 35)))). pose proof (zlen_nonneg (rela_list rela (value 8) (value 9))). pose proof (zlen_nonneg (rela_list jmprel (value 2) (value 9))).
  destruct (relr_part o1 relr (value 35) (value 37) Hb E1 (ds_relr _ Hd) ltac:(lia)) as [-> ->]. cbn [mbind outcome_bind].
  pose proof (ds_rela _ Hd) as He.
  rewrite (rela_count rela) by (try apply Hv; try lia; intros; destruct He as (? & ? & ?); auto). cbn [mbind outcome_bind].
  rewrite (plt_count jmprel) by (try apply Hv; try lia; try apply (ds_pltrel _ Hd); intros; destruct He as (? & ? & ?); auto). cbn [mbind outcome_bind].
  rewrite (rela_part o2 rela), (rela_part o3 jmprel), <- (ds_syment _ Hd), <- Er by done. by destruct t.
Qed.
End format.
