(* ===== verification/ElfCorrect.v ===== *)
(** Relocations and segments in memory, and what the ELF loader puts there. *)

From S2P Require Import Prelude Pmm PmmMap PmmSanitise PmmAlloc PmmOps PmmCorrect Vmm VmmWalk Libc LibcCorrect Guid Elf ElfRelocs.
Import Elf.

(** [n] bytes at [a] and [k] bytes at [b] have no address in common. *)
Definition apart (a n b k : Z) : Prop := a + n <= b \/ b + k <= a.

Section relocs.
Context `{!ElfArch} (elf : Z -> Z) (t : reloc_table) (slide : Z).

(** The relocation can be done: its type is known, and its symbol, if it has one, is in the symbol
    table and is defined or weak. *)
Definition reloc_known (r : elf64_rela) : Prop :=
  r.(r_info) = R_NONE \/ r.(r_info) = R_RELATIVE \/ r.(r_info) = R_INTERNAL_RELR \/
  ((r.(r_info) ∈ R_SYMBOL \/ r.(r_info) = R_64) /\ t.(symtab) <> 0 /\ t.(sym_ent) <> 0 /\
   0 <= t.(sym_ent) * r.(r_symbol) /\ t.(sym_ent) * r.(r_symbol) + 24 <= t.(symtab_size) < 2 ^ 64 /\
   let s := sym_at elf (t.(symtab) + t.(sym_ent) * r.(r_symbol)) in s.(st_shndx) <> 0 \/ s.(st_info) / 16 = 2).
(** The code does it. *)
Definition reloc_ok (r : elf64_rela) : Prop := exists w, reloc_word elf t slide r 0 = Ret w.

Lemma symbol_value_known r : t.(symtab) <> 0 -> t.(sym_ent) <> 0 -> 0 <= t.(sym_ent) * r.(r_symbol) -> t.(sym_ent) * r.(r_symbol) + 24 <= t.(symtab_size) < 2 ^ 64 ->
  (let s := sym_at elf (t.(symtab) + t.(sym_ent) * r.(r_symbol)) in s.(st_shndx) <> 0 \/ s.(st_info) / 16 = 2) -> exists v, symbol_value elf t r = Ret v.
Proof.
  intros Hs He H0 Hz Hd. unfold symbol_value. rewrite (proj2 (Z.eqb_neq _ _) Hs), (proj2 (Z.eqb_neq _ _) He), (proj2 (Z.eqb_neq (symtab_size t) 0)) by lia. cbn [orb].
  rewrite CHECKED_MUL_small by lia. cbn [or_panic mbind outcome_bind]. rewrite (proj2 (Z.ltb_ge (symtab_size t) 24)), Z.gtb_ltb, (proj2 (Z.ltb_ge _ _)) by lia. cbn [orb].
  cbv zeta in Hd |- *. destruct (Z.eqb_spec (st_shndx (sym_at elf (symtab t + sym_ent t * r_symbol r))) 0); [|by eexists]. destruct Hd as [|Hw]; [done |].
  rewrite Z.shiftr_div_pow2 by lia. change (2 ^ 4) with 16. rewrite Hw. by eexists.
Qed.
Lemma reloc_known_ok r : reloc_known r -> reloc_ok r.
Proof.
  unfold reloc_known, reloc_ok, reloc_word. intros Hr. destruct (Z.eqb_spec (r_info r) R_NONE); [by eexists |].
  destruct (Z.eqb_spec (r_info r) R_RELATIVE); [by eexists |]. destruct (Z.eqb_spec (r_info r) R_INTERNAL_RELR); [by eexists |].
  destruct Hr as [|[|[|(Ht & Hs & He & H0 & Hz & Hd)]]]; [done.. |]. destruct (symbol_value_known r Hs He H0 Hz Hd) as [v ->].
  case_bool_decide; [destruct v; by eexists |]. destruct Ht as [|Ht]; [done |]. rewrite Ht, Z.eqb_refl. destruct v; by eexists.
Qed.
Lemma reloc_ok_word r old : reloc_ok r -> exists w, reloc_word elf t slide r old = Ret w /\ (r.(r_info) =? R_NONE = true -> w = old) /\ (r.(r_info) =? R_NONE = false -> is_u64 w).
Proof.
  intros [w Hw]. unfold reloc_word in *. destruct (r_info r =? R_NONE); [by exists old |]. assert (forall x, is_u64 (u64 x)) as Hu by (intros x; apply Z.mod_pos_bound; lia).
  do 2 (case_if; [eexists; split; [reflexivity |]; split; [done | intros _; apply Hu] |]).
  destruct (bool_decide (r_info r ∈ R_SYMBOL)); [|destruct (r_info r =? R_64); [|done]];
    (destruct (symbol_value elf t r) as [[v|]| |]; [| |done..]; cbn [mbind outcome_bind]; eexists; (split; [reflexivity |]); (split; [done |]); intros _; [apply Hu | split; lia]).
Qed.
(** What the architectures' specifications say a relocation computes, with [slide] for the base:
    nothing, base plus addend, the word plus the base, or the symbol's address, with an addend where
    the type has one; an undefined weak symbol has address 0. *)
Inductive relocated (r : elf64_rela) (old : Z) : Z -> Prop :=
| relocated_none : r.(r_info) = R_NONE -> relocated r old old
| relocated_relative : r.(r_info) = R_RELATIVE -> relocated r old (u64 (slide + r.(r_addend)))
| relocated_relr : r.(r_info) = R_INTERNAL_RELR -> relocated r old (u64 (old + slide))
| relocated_symbol s : r.(r_info) ∈ R_SYMBOL -> s = sym_at elf (t.(symtab) + t.(sym_ent) * r.(r_symbol)) -> s.(st_shndx) <> 0 ->
    relocated r old (u64 (slide + s.(st_value) + (if symbol_addend then r.(r_addend) else 0)))
| relocated_64 s : r.(r_info) = R_64 -> s = sym_at elf (t.(symtab) + t.(sym_ent) * r.(r_symbol)) -> s.(st_shndx) <> 0 ->
    relocated r old (u64 (slide + s.(st_value) + r.(r_addend)))
| relocated_weak s : r.(r_info) ∈ R_SYMBOL \/ r.(r_info) = R_64 -> s = sym_at elf (t.(symtab) + t.(sym_ent) * r.(r_symbol)) -> s.(st_shndx) = 0 ->
    s.(st_info) / 16 = 2 -> relocated r old 0.

Lemma symbol_value_spec r v : symbol_value elf t r = Ret v -> exists s, s = sym_at elf (t.(symtab) + t.(sym_ent) * r.(r_symbol)) /\
  match v with Some x => s.(st_shndx) <> 0 /\ x = s.(st_value) | None => s.(st_shndx) = 0 /\ s.(st_info) / 16 = 2 end.
Proof.
  unfold symbol_value. case_if; [done |]. case_if; [done |]. destruct (CHECKED_MUL (sym_ent t) (r_symbol r)) as [o|] eqn:Ho; cbn [or_panic mbind outcome_bind]; [|done]. case_if; [done |].
  assert (o = sym_ent t * r_symbol r) as -> by (unfold CHECKED_MUL in Ho; repeat case_if; by simplify_eq). eexists. split; [reflexivity |].
  destruct (Z.eqb_spec (st_shndx (sym_at elf (symtab t + sym_ent t * r_symbol r))) 0); [|by simplify_eq].
  destruct (Z.eqb_spec (Z.shiftr (st_info (sym_at elf (symtab t + sym_ent t * r_symbol r))) 4) 2) as [Hw|]; [|done]. rewrite Z.shiftr_div_pow2 in Hw by lia. by simplify_eq.
Qed.
Lemma reloc_word_relocated r old w : reloc_word elf t slide r old = Ret w -> relocated r old w.
Proof.
  unfold reloc_word. destruct (Z.eqb_spec (r_info r) R_NONE); [intros [= <-]; by constructor |]. destruct (Z.eqb_spec (r_info r) R_RELATIVE); [intros [= <-]; by constructor |].
  destruct (Z.eqb_spec (r_info r) R_INTERNAL_RELR); [intros [= <-]; by constructor |]. case_bool_decide; [|destruct (Z.eqb_spec (r_info r) R_64); [|done]];
    (destruct (symbol_value elf t r) as [v| |] eqn:Hv; cbn [mbind outcome_bind]; [|done..]; destruct (symbol_value_spec _ _ Hv) as (s & Hs & Hm); destruct v; destruct Hm as [Hm1 Hm2]; subst; intros [= <-]).
  - by apply (relocated_symbol r old (sym_at elf (symtab t + sym_ent t * r_symbol r))).
  - eapply relocated_weak; [by left | done..].
  - by apply (relocated_64 r old (sym_at elf (symtab t + sym_ent t * r_symbol r))).
  - eapply relocated_weak; [by right | done..].
Qed.
Lemma reloc_in_spec v n r : 0 <= v -> 0 <= n -> v + n < 2 ^ 64 -> reloc_in v n r = true <-> v <= r.(r_addr) /\ r.(r_addr) + 8 <= v + n.
Proof.
  intros Hv Hn Hlt. unfold reloc_in. destruct (Z.ltb_spec n 8); cbn [orb]; [rewrite andb_false_r; split; [done | lia] |]. rewrite u64_small by lia. lia.
Qed.

(** Where a relocation is, in a buffer for the addresses from [v] on. *)
Definition covers (r : elf64_rela) (a : Z) : Prop := r.(r_addr) <= a < r.(r_addr) + 8.
Definition clear (r r' : elf64_rela) : Prop := apart r.(r_addr) 8 r'.(r_addr) 8.

Lemma apply_relocs_spec buffer v n : forall l m, Forall (fun r => reloc_in v n r = true -> reloc_ok r) l ->
  exists m', apply_relocs elf t l buffer v n slide m = Ret m' /\
    (forall a, Forall (fun r => reloc_in v n r = true -> ~ covers r a) l -> m' (buffer + (a - v)) = m (buffer + (a - v))) /\
    (forall l1 r l2, l = l1 ++ r :: l2 -> reloc_in v n r = true -> Forall (fun r' => reloc_in v n r' = true -> clear r r') (l1 ++ l2) ->
      reloc_word elf t slide r (load64 m (buffer + (r.(r_addr) - v))) = Ret (load64 m' (buffer + (r.(r_addr) - v)))).
Proof.
  induction l as [|r l IH]; intros m HF.
  { exists m. split; [done |]. split; [done |]. intros [|] ? ?; done. }
  apply Forall_cons in HF as [Hr HF]. cbn [apply_relocs]. destruct (reloc_in v n r) eqn:Ein; cbn [negb].
  2: { destruct (IH m HF) as (m' & E & Hb & Hw). exists m'. split; [done |]. split.
       - intros a [_ Ha]%Forall_cons. auto.
       - intros [|r0 l1] r' l2 [= -> El] Hin; [congruence |]. cbn [app]. intros [_ Hc]%Forall_cons. by eapply Hw. }
  destruct (reloc_ok_word r (load64 m (buffer + (r_addr r - v))) (Hr eq_refl)) as (w & Ew & Hnone & Hsome). rewrite Ew. cbn [mbind outcome_bind].
  set (m1 := if r_info r =? R_NONE then m else store64 m (buffer + (r_addr r - v)) w).
  assert (forall a, ~ covers r a -> m1 (buffer + (a - v)) = m (buffer + (a - v))) as Hm1.
  { intros a Ha. unfold m1. destruct (r_info r =? R_NONE); [done |]. unfold store64. case_if; [|done]. exfalso. apply Ha. unfold covers. lia. }
  assert (load64 m1 (buffer + (r_addr r - v)) = w) as Hw1.
  { unfold m1. destruct (r_info r =? R_NONE) eqn:E; [by rewrite Hnone |]. apply load_store_same. auto. }
  destruct (IH m1 HF) as (m' & E & Hb & Hw). exists m'. split; [done |]. split.
  - intros a [Ha1 Ha2]%Forall_cons. rewrite Hb by done. apply Hm1. auto.
  - intros [|r0 l1] r' l2 Hl Hin Hc; cbn [app] in Hl; injection Hl as <- Hl.
    + subst l. cbn [app] in Hc. rewrite Ew. f_equal. rewrite <- Hw1. apply load_ext. intros x Hx. symmetry. replace x with (buffer + ((x - buffer + v) - v)) by lia. apply Hb.
      eapply Forall_impl; [exact Hc |]. intros q Hq Hinq Hcov. specialize (Hq Hinq). unfold clear, apart, covers in *. lia.
    + cbn [app] in Hc. apply Forall_cons in Hc as [Hc0 Hc]. rewrite <- (Hw l1 r' l2 Hl Hin Hc). f_equal. apply load_ext. intros x Hx. symmetry. replace x with (buffer + ((x - buffer + v) - v)) by lia. apply Hm1.
      specialize (Hc0 Ein). unfold clear, apart, covers in *. lia.
Qed.
End relocs.

(** * Segments *)

Definition in_seg (p : elf_phdr) (a : Z) : Prop := p.(p_vaddr) <= a < p.(p_vaddr) + p.(p_memsz).
(** A segment whose contents are in the file and whose addresses do not wrap around. *)
Record seg_ok (file_size : Z) (p : elf_phdr) : Prop := {
  sg_vaddr : 0 <= p.(p_vaddr);
  sg_filesz : 0 <= p.(p_filesz) <= p.(p_memsz);
  sg_end : p.(p_vaddr) + p.(p_memsz) < 2 ^ 64;
  sg_offset : p.(p_offset) + p.(p_filesz) <= file_size }.
Lemma load_memsz p : is_load p = true -> 0 <= p.(p_memsz) -> 0 < p.(p_memsz).
Proof. unfold is_load. intros H ?. destruct (Z.eqb_spec p.(p_memsz) 0); [by rewrite orb_true_r in H | lia]. Qed.
(** No two segments that are loaded overlap. *)
Fixpoint separate (l : list elf_phdr) : Prop :=
  match l with
  | [] => True
  | p :: l => Forall (fun q => is_load p = true -> is_load q = true -> apart p.(p_vaddr) p.(p_memsz) q.(p_vaddr) q.(p_memsz)) l /\ separate l
  end.

Section segments.
Context `{!ElfArch} (elf : Z -> Z) (file_size : Z) (t : reloc_table) (slide : Z).
Hypothesis Htable : read_relocs elf file_size = Ret (Some t).
Hypothesis Hsize : file_size < 2 ^ 64.
(** The image's first address, and where it is put. *)
Context (min base max : Z).

Definition place (a : Z) : Z := base + (a - min).
Definition relocs_in (p : elf_phdr) (r : elf64_rela) : Prop := reloc_in p.(p_vaddr) p.(p_memsz) r = true.
(** What a segment looks like in [m'], where [m] was before. *)
Record seg_loaded (m m' : mem) (p : elf_phdr) : Prop := {
  sl_byte a : in_seg p a -> Forall (fun r => relocs_in p r -> ~ covers r a) t.(relocs) ->
    m' (place a) = if a <? p.(p_vaddr) + p.(p_filesz) then elf (p.(p_offset) + (a - p.(p_vaddr))) else m (place a);
  sl_word l1 r l2 : t.(relocs) = l1 ++ r :: l2 -> relocs_in p r -> Forall (fun r' => relocs_in p r' -> clear r r') (l1 ++ l2) ->
    reloc_word elf t slide r (load64 (copy_in elf m (place p.(p_vaddr)) p.(p_offset) p.(p_filesz)) (place r.(r_addr))) = Ret (load64 m' (place r.(r_addr))) }.
Definition loadable_seg (p : elf_phdr) : Prop :=
  seg_ok file_size p /\ min <= p.(p_vaddr) /\ 0 <= place p.(p_vaddr) /\ place p.(p_vaddr) + p.(p_memsz) < 2 ^ 64 /\
  Forall (fun r => relocs_in p r -> reloc_ok elf t slide r) t.(relocs).

Lemma reloc_in_seg p r a : seg_ok file_size p -> relocs_in p r -> covers r a -> in_seg p a.
Proof.
  intros Hp Hr Hc. destruct Hp as [Hv Hf He _]. apply reloc_in_spec in Hr; [|lia..]. unfold covers, in_seg in *. lia.
Qed.
Lemma load_seg_spec p m : loadable_seg p -> let addr := u64 (place p.(p_vaddr)) in
  exists m', elf64_apply_relocations elf file_size addr p.(p_vaddr) p.(p_memsz) slide (copy_in elf m addr p.(p_offset) p.(p_filesz)) = Ret (Some m') /\
    seg_loaded m m' p /\ forall x, ~ (place p.(p_vaddr) <= x < place p.(p_vaddr) + p.(p_memsz)) -> m' x = m x.
Proof.
  intros (Hp & Hmin & H0 & Hb & Hok). cbv zeta. pose proof Hp as [Hv Hf He _]. unfold elf64_apply_relocations. rewrite Htable. cbn [mbind outcome_bind].
  rewrite (u64_small (place _)) by lia. set (m0 := copy_in elf m (place p.(p_vaddr)) p.(p_offset) p.(p_filesz)).
  destruct (apply_relocs_spec elf t slide (place p.(p_vaddr)) p.(p_vaddr) p.(p_memsz) t.(relocs) m0 Hok) as (m' & -> & Hbyte & Hword). cbn [mbind outcome_bind].
  assert (forall a, place p.(p_vaddr) + (a - p.(p_vaddr)) = place a) as Hpl by (intros a; unfold place; lia).
  exists m'. split; [done |]. split; [split|].
  - intros a Ha Hc. specialize (Hbyte a Hc). rewrite Hpl in Hbyte. rewrite Hbyte. unfold m0, copy_in. unfold in_seg in Ha. rewrite <- (Hpl a).
    destruct (Z.ltb_spec a (p_vaddr p + p_filesz p)); case_if; try lia; try done; f_equal; lia.
  - intros l1 r l2 Hl Hin Hc. specialize (Hword l1 r l2 Hl Hin Hc). rewrite Hpl in Hword. exact Hword.
  - intros x Hx. replace x with (place p.(p_vaddr) + ((x - place p.(p_vaddr) + p.(p_vaddr)) - p.(p_vaddr))) by lia. rewrite Hbyte.
    + unfold m0, copy_in. case_if; [lia | done].
    + apply Forall_forall. intros r _ Hin Hcov. pose proof (reloc_in_seg p r _ Hp Hin Hcov) as Ha. unfold in_seg in Ha. lia.
Qed.

(** The size of the part of the last segment that is not in the file. *)
Definition last_bss (bss' : Z) (p : elf_phdr) : Prop := p.(p_vaddr) + p.(p_memsz) = max -> bss' = p.(p_memsz) - p.(p_filesz).

Lemma seg_loaded_ext m1 m m2 m' p : (forall x, place p.(p_vaddr) <= x < place p.(p_vaddr) + p.(p_memsz) -> m x = m1 x) -> (forall x, place p.(p_vaddr) <= x < place p.(p_vaddr) + p.(p_memsz) -> m' x = m2 x) ->
  seg_ok file_size p -> seg_loaded m1 m2 p -> seg_loaded m m' p.
Proof.
  intros H1 H2 Hp [Hb Hw]. assert (forall a, in_seg p a -> place p.(p_vaddr) <= place a < place p.(p_vaddr) + p.(p_memsz)) as Hin by (unfold in_seg, place; lia). split.
  - intros a Ha Hc. rewrite H2, (Hb a Ha Hc), H1 by auto. done.
  - intros l1 r l2 Hl Hr Hc. assert (forall x, place r.(r_addr) <= x < place r.(r_addr) + 8 -> place p.(p_vaddr) <= x < place p.(p_vaddr) + p.(p_memsz)) as Hx.
    { intros x Hx. pose proof (reloc_in_seg p r (r_addr r) Hp Hr ltac:(unfold covers; lia)) as Ha. pose proof (reloc_in_seg p r (r_addr r + 7) Hp Hr ltac:(unfold covers; lia)) as Hb'. unfold in_seg, place in *. lia. }
    rewrite (load_ext m2 m') by auto. rewrite <- (Hw l1 r l2 Hl Hr Hc). f_equal. apply load_ext. intros x Hxr. unfold copy_in. case_if; [done | auto].
Qed.
Lemma load_loop_spec : forall l m bss, Forall (fun p => is_load p = true -> loadable_seg p) l -> separate l -> 0 < max <= 2 ^ 64 ->
  exists m' bss', load_loop elf file_size l base min max slide m bss = Ret (m', bss') /\
    Forall (fun p => is_load p = true -> seg_loaded m m' p /\ last_bss bss' p) l /\
    (Forall (fun p => is_load p = true -> p.(p_vaddr) + p.(p_memsz) <> max) l -> bss' = bss) /\
    forall x, Forall (fun p => is_load p = true -> ~ (place p.(p_vaddr) <= x < place p.(p_vaddr) + p.(p_memsz))) l -> m' x = m x.
Proof.
  induction l as [|p l IH]; intros m bss HF Hsep Hmax; [exists m, bss; by split_and! |]. apply Forall_cons in HF as [Hp HF]. destruct Hsep as [Hap Hsep]. cbn [load_loop].
  destruct (is_load p) eqn:El; cbn [negb].
  2: { destruct (IH m bss HF Hsep Hmax) as (m' & bss' & E & H1 & H2 & H3). exists m', bss'. split; [done |]. split; [apply Forall_cons; split; [congruence | done] |]. split; [by intros [_ ?]%Forall_cons; apply H2 | by intros x [_ ?]%Forall_cons; apply H3]. }
  specialize (Hp eq_refl). pose proof Hp as ([Hv Hf He Ho] & Hmin & H0 & Hb & _).
  rewrite Z.gtb_ltb, (proj2 (Z.ltb_ge _ _)) by lia. rewrite (proj2 (CHECKED_ADD_Some _ _ (p_offset p + p_filesz p))) by (split; [done | lia]). cbn [or_panic mbind outcome_bind].
  rewrite Z.gtb_ltb, (proj2 (Z.ltb_ge _ _)) by lia. destruct (load_seg_spec p m Hp) as (m1 & E & Hl & Hfr). fold (place p.(p_vaddr)). rewrite E. cbn [mbind outcome_bind].
  rewrite (u64_small (p_vaddr p + p_memsz p)) by lia. set (bss1 := if p_vaddr p + p_memsz p =? max then _ else bss).
  destruct (IH m1 bss1 HF Hsep Hmax) as (m' & bss' & E' & H1 & H2 & H3). exists m', bss'. split; [done |].
  assert (0 < p.(p_memsz)) as Hpos by (apply load_memsz; [done | lia]).
  assert (forall x, place p.(p_vaddr) <= x < place p.(p_vaddr) + p.(p_memsz) -> m' x = m1 x) as Hkeep.
  { intros x Hx. apply H3. eapply Forall_impl; [exact Hap |]. intros q Hq Hlq. specialize (Hq eq_refl Hlq). unfold apart, place in *. lia. }
  split; [apply Forall_cons; split | split].
  - intros _. split; [by apply (seg_loaded_ext m m m1) |]. intros Hm. rewrite H2; [unfold bss1; by rewrite Hm, Z.eqb_refl |].
    eapply Forall_impl; [exact (proj2 (Forall_and _ _) (conj Hap HF)) |]. intros q [Hq1 Hq2] Hlq. specialize (Hq1 eq_refl Hlq). destruct (Hq2 Hlq) as ([Hqv Hqf _ _] & _).
    assert (0 < q.(p_memsz)) by (apply load_memsz; [done | lia]). unfold apart in Hq1. lia.
  - eapply Forall_impl; [exact (proj2 (Forall_and _ _) (conj Hap (proj2 (Forall_and _ _) (conj HF H1)))) |]. intros q (Hq1 & Hq2 & Hq3) Hlq. destruct (Hq3 Hlq) as [Hs Hbs]. split; [|done].
    destruct (Hq2 Hlq) as (Hqok & _). apply (seg_loaded_ext m1 m m' m'); [|done|done|done]. intros x Hx. symmetry. apply Hfr. specialize (Hq1 eq_refl Hlq). unfold apart, place in *. lia.
  - intros [Hne HF']%Forall_cons. rewrite H2 by done. unfold bss1. rewrite (proj2 (Z.eqb_neq _ _)); [done | auto].
  - intros x [Hx HF']%Forall_cons. rewrite H3 by done. apply Hfr. auto.
Qed.
End segments.

(** * Kernels *)

(** [R] between any two segments that are loaded. *)
Definition pairwise (R : elf_phdr -> elf_phdr -> Prop) (l : list elf_phdr) : Prop :=
  forall (i j : nat) p q, l !! i = Some p -> l !! j = Some q -> i <> j -> is_load p = true -> is_load q = true -> R p q.
Definition loads (P : elf_phdr -> Prop) (l : list elf_phdr) : Prop := Forall (fun p => is_load p = true -> P p) l.
Definition seg_end (p : elf_phdr) : Z := p.(p_vaddr) + p.(p_memsz).
Definition lower_half (p : elf_phdr) : Prop := p.(p_vaddr) < FIXED_HIGHER_HALF_OFFSET_64.
(** Segments with different permissions have no page in common. *)
Definition pages_ok (p q : elf_phdr) : Prop :=
  Z.land p.(p_flags) 7 = Z.land q.(p_flags) 7 \/ align_up (seg_end p) 4096 <= ALIGN_DOWN q.(p_vaddr) 4096 \/ align_up (seg_end q) 4096 <= ALIGN_DOWN p.(p_vaddr) 4096.

Lemma pairwise_separate l : pairwise (fun p q => apart p.(p_vaddr) p.(p_memsz) q.(p_vaddr) q.(p_memsz)) l -> separate l.
Proof.
  induction l as [|p l IH]; intros Hp; [done |]. split.
  - apply Forall_forall. intros q Hq Hlp Hlq. apply list_elem_of_lookup in Hq as [j Hj]. by apply (Hp 0%nat (S j) p q).
  - apply IH. intros i j a b Hi Hj Hne. apply (Hp (S i) (S j)); [done | done | lia].
Qed.

(** What holds of a segment that the checks accept. *)
Record seg_fine (file_size : Z) (reloc : bool) (p : elf_phdr) : Prop := {
  sf_ok : seg_ok file_size p;
  sf_top : seg_end p + 4095 < 2 ^ 64;
  sf_align : 0 <= p.(p_align) <= 2 ^ 32 /\ (p.(p_align) <= 1 \/ exists k, 0 <= k /\ p.(p_align) = 2 ^ k);
  sf_half : lower_half p -> reloc = true }.

Lemma overlap_loop_ok fs reloc all i p : pairwise (fun p q => apart p.(p_vaddr) p.(p_memsz) q.(p_vaddr) q.(p_memsz)) all -> pairwise pages_ok all -> loads (seg_fine fs reloc) all ->
  all !! i = Some p -> is_load p = true -> forall l j, drop j all = l -> overlap_loop l (Z.of_nat j) (Z.of_nat i) p (seg_end p) reloc = Ret tt.
Proof.
  intros Hap Hpg Hfine Hi Hlp. induction l as [|q l IH]; intros j Hd; cbn [overlap_loop]; [done |].
  assert (all !! j = Some q) as Hj by (rewrite <- (Nat.add_0_r j), <- lookup_drop, Hd; done).
  assert (overlap_loop l (Z.of_nat j + 1) (Z.of_nat i) p (seg_end p) reloc = Ret tt) as Hgo.
  { replace (Z.of_nat j + 1) with (Z.of_nat (S j)) by lia. apply IH. by rewrite <- Nat.add_1_r, <- drop_drop, Hd. }
  destruct (is_load q) eqn:Hlq; cbn [negb orb]; [|exact Hgo]. destruct (_ || _) eqn:Eskip; [exact Hgo |]. apply orb_false_iff in Eskip as [_ Hne].
  assert (i <> j) as Hij by lia. specialize (Hap i j p q Hi Hj Hij Hlp Hlq). specialize (Hpg i j p q Hi Hj Hij Hlp Hlq).
  pose proof (proj1 (Forall_lookup _ _) Hfine _ _ Hj Hlq) as [[Hqv Hqf Hqe _] Hqt _ _]. pose proof (proj1 (Forall_lookup _ _) Hfine _ _ Hi Hlp) as [[Hpv Hpf Hpe _] Hpt _ _].
  fold (seg_end q). rewrite CHECKED_ADD_small by done. fold (seg_end q). cbn [or_panic mbind outcome_bind].
  assert (0 < p.(p_memsz)) as Hp0 by (apply load_memsz; [done | lia]).
  assert (0 < q.(p_memsz)) as Hq0 by (apply load_memsz; [done | lia]).
  destruct (_ || _) eqn:Eo; [exfalso; unfold apart, seg_end in *; lia |].
  pose proof (ALIGN_UP_spec (seg_end p) 4096 ltac:(lia) ltac:(unfold seg_end; lia)) as Hup. destruct (ALIGN_UP (seg_end p) 4096) as [tp|]; [|lia]. destruct Hup as [-> _].
  pose proof (ALIGN_UP_spec (seg_end q) 4096 ltac:(lia) ltac:(unfold seg_end; lia)) as Huq. destruct (ALIGN_UP (seg_end q) 4096) as [tq|]; [|lia]. destruct Huq as [-> _].
  cbn [or_panic mbind outcome_bind]. destruct Hpg as [->|Hpg]; [rewrite Z.eqb_refl; by case_if |].
  pose proof (align_up_spec (seg_end p) 4096 ltac:(lia) ltac:(unfold seg_end; lia)). pose proof (align_up_spec (seg_end q) 4096 ltac:(lia) ltac:(unfold seg_end; lia)).
  pose proof (ALIGN_DOWN_spec (p_vaddr p) 4096 ltac:(lia)). pose proof (ALIGN_DOWN_spec (p_vaddr q) 4096 ltac:(lia)).
  match goal with |- (if ?b then _ else _) = _ => destruct b eqn:Ep end; [exfalso; unfold seg_end in *; lia | exact Hgo].
Qed.

(** The span of the segments in [l], with the bounds of [s] counted in. *)
Record spans (l : list elf_phdr) (s s' : span) : Prop := {
  sp_min : s'.(min_vaddr) <= s.(min_vaddr);
  sp_max : s.(max_vaddr) <= s'.(max_vaddr);
  sp_all : loads (fun p => s'.(min_vaddr) <= p.(p_vaddr) /\ seg_end p <= s'.(max_vaddr)) l;
  sp_least : s'.(min_vaddr) = s.(min_vaddr) \/ exists p, p ∈ l /\ is_load p = true /\ p.(p_vaddr) = s'.(min_vaddr);
  sp_most : s'.(max_vaddr) = s.(max_vaddr) \/ exists p, p ∈ l /\ is_load p = true /\ seg_end p = s'.(max_vaddr) }.

Lemma span_loop_ok fs reloc all (lower : bool) : pairwise (fun p q => apart p.(p_vaddr) p.(p_memsz) q.(p_vaddr) q.(p_memsz)) all -> pairwise pages_ok all -> loads (seg_fine fs reloc) all ->
  loads (fun p => if lower then lower_half p else ~ lower_half p) all ->
  forall l i s, drop i all = l -> (s.(lower_to_higher) = true -> lower = true) ->
  exists s', span_loop all l (Z.of_nat i) reloc s = Ret s' /\ spans l s s' /\ s'.(lower_to_higher) = s.(lower_to_higher) || (lower && existsb is_load l).
Proof.
  intros Hap Hpg Hfine Hhalf. induction l as [|p l IH]; intros i s Hd Hs; cbn [span_loop].
  { exists s. split; [done |]. split; [constructor; [lia | lia | constructor | by left | by left] | by rewrite andb_false_r, orb_false_r]. }
  assert (all !! i = Some p) as Hi by (rewrite <- (Nat.add_0_r i), <- lookup_drop, Hd; done).
  assert (drop (S i) all = l) as Hd' by (by rewrite <- Nat.add_1_r, <- drop_drop, Hd).
  replace (Z.of_nat i + 1) with (Z.of_nat (S i)) by lia. destruct (is_load p) eqn:Hl; cbn [negb existsb].
  2: { destruct (IH (S i) s Hd' Hs) as (s' & -> & [H1 H2 H3 H4 H5] & Hlow). exists s'. split; [done |]. split; [|by rewrite Hlow, Hl]. constructor; try done.
       - apply Forall_cons. split; [congruence | done].
       - destruct H4 as [|(q & Hq & ?)]; [by left | right; exists q; split; [by right | done]].
       - destruct H5 as [|(q & Hq & ?)]; [by left | right; exists q; split; [by right | done]]. }
  pose proof (proj1 (Forall_lookup _ _) Hfine _ _ Hi Hl) as [[Hv Hf He _] Ht _ Hh]. pose proof (proj1 (Forall_lookup _ _) Hhalf _ _ Hi Hl) as Hpl. cbv beta in Hpl.
  assert ((p_vaddr p <? FIXED_HIGHER_HALF_OFFSET_64) = lower) as -> by (unfold lower_half in *; destruct lower; lia).
  assert (lower && negb reloc = false) as -> by (destruct lower; [by rewrite (Hh Hpl) | done]).
  assert (negb lower && s.(lower_to_higher) = false) as -> by (destruct lower, (lower_to_higher s); try done; by specialize (Hs eq_refl)).
  rewrite CHECKED_ADD_small by done. cbn [or_panic mbind outcome_bind]. fold (seg_end p). pose proof (overlap_loop_ok fs reloc all i p Hap Hpg Hfine Hi Hl all 0%nat (drop_0 _)) as Ho. change (Z.of_nat 0) with 0 in Ho. rewrite Ho. cbn [mbind outcome_bind].
  set (s1 := {| lower_to_higher := _; min_vaddr := _; max_vaddr := _ |}). destruct (IH (S i) s1 Hd') as (s' & -> & [H1 H2 H3 H4 H5] & Hlow).
  { cbn. destruct lower; [done |]. rewrite orb_false_r. exact Hs. }
  exists s'. split; [done |]. split.
  - cbn in H1, H2, H4, H5. constructor.
    + destruct (Z.ltb_spec (p_vaddr p) (min_vaddr s)); lia.
    + rewrite Z.gtb_ltb in H2. destruct (Z.ltb_spec (max_vaddr s) (seg_end p)); lia.
    + apply Forall_cons. split; [|done]. intros _. rewrite Z.gtb_ltb in H2. destruct (Z.ltb_spec (p_vaddr p) (min_vaddr s)), (Z.ltb_spec (max_vaddr s) (seg_end p)); lia.
    + destruct H4 as [H4|(q & Hq & ?)]; [|right; exists q; split; [by right | done]]. destruct (Z.ltb_spec (p_vaddr p) (min_vaddr s)); [|by left]. right. exists p. split; [by left | done].
    + destruct H5 as [H5|(q & Hq & ?)]; [|right; exists q; split; [by right | done]]. rewrite Z.gtb_ltb in H5. destruct (Z.ltb_spec (max_vaddr s) (seg_end p)); [|by left]. right. exists p. split; [by left | done].
  - rewrite Hlow. cbn. rewrite Hl. cbn [orb]. destruct lower, (lower_to_higher s); done.
Qed.

Definition align_of (al : Z) (l : list elf_phdr) : Prop := loads (fun p => p.(p_align) <= al) l /\ exists p, p ∈ l /\ is_load p = true /\ p.(p_align) = al.
Lemma max_align_ok l : forall ret, loads (fun p => p.(p_align) <= 1 \/ exists k, 0 <= k /\ p.(p_align) = 2 ^ k) l ->
  exists a, max_align_loop l ret = Ret a /\ ret <= a /\ loads (fun p => p.(p_align) <= a) l /\ (a = ret \/ exists p, p ∈ l /\ is_load p = true /\ p.(p_align) = a).
Proof.
  induction l as [|p l IH]; intros ret HF; cbn [max_align_loop]; [exists ret; split_and!; [done | lia | constructor | by left] |]. apply Forall_cons in HF as [Hp HF]. destruct (is_load p) eqn:Hl; cbn [negb].
  - assert ((p_align p >? 1) && negb (Z.land (p_align p) (p_align p - 1) =? 0) = false) as ->.
    { destruct (Hp eq_refl) as [?|(k & Hk & ->)]; [apply andb_false_iff; left; lia |]. apply andb_false_iff. right. apply negb_false_iff, Z.eqb_eq.
      replace (2 ^ k - 1) with (Z.ones k) by (rewrite Z.ones_equiv; lia). rewrite Z.land_ones by done. apply Z_mod_same_full. }
    destruct (IH (if p_align p >? ret then p_align p else ret) HF) as (a & -> & H1 & H2 & H3). exists a. split; [done |]. rewrite Z.gtb_ltb in *.
    destruct (Z.ltb_spec ret (p_align p)).
    + split; [lia |]. split; [apply Forall_cons; split; [intros _; lia | done] |]. right. destruct H3 as [->|(q & Hq & ?)]; [exists p; split; [by left | done] | exists q; split; [by right | done]].
    + split; [lia |]. split; [apply Forall_cons; split; [intros _; lia | done] |]. destruct H3 as [->|(q & Hq & ?)]; [by left | right; exists q; split; [by right | done]].
  - destruct (IH ret HF) as (a & -> & H1 & H2 & H3). exists a. split; [done |]. split; [done |]. split; [apply Forall_cons; split; [congruence | done] |].
    destruct H3 as [->|(q & Hq & ?)]; [by left | right; exists q; split; [by right | done]].
Qed.

(** * Addresses *)

Lemma mask_down x k : 0 <= k -> 0 <= x < 2 ^ 64 -> Z.land x (u64 (Z.lnot (2 ^ k - 1))) = ALIGN_DOWN x (2 ^ k).
Proof.
  intros Hk Hx. unfold u64, wrap. rewrite <- Z.land_ones by lia. replace (2 ^ k - 1) with (Z.ones k) by (rewrite Z.ones_equiv; lia).
  rewrite (Z.land_comm (Z.lnot _)), Z.land_assoc, Z.land_ones, Z.mod_small by lia. rewrite <- Z.ldiff_land, Z.ldiff_ones_r, Z.shiftl_mul_pow2, Z.shiftr_div_pow2 by lia. done.
Qed.

Lemma random_slide_spec {R : Type} (rand32 : R -> Z * R) n rng k lo size slide rng' :
  (forall g, 0 <= (rand32 g).1 < 2 ^ 32) -> 0 <= k -> 0 <= lo < 2 ^ 64 -> 0 < size < 2 ^ 31 ->
  let lower_slide := if lo <? FIXED_HIGHER_HALF_OFFSET_64 then u64 (FIXED_HIGHER_HALF_OFFSET_64 - lo) else 0 in
  random_slide rand32 n rng (2 ^ k) lo size lower_slide = Ret (slide, rng') ->
  FIXED_HIGHER_HALF_OFFSET_64 <= u64 (lo + slide) /\ u64 (lo + slide) + size < 2 ^ 64 /\ exists x, 0 <= x < 2 ^ 32 /\ x mod 2 ^ k = 0 /\ slide = u64 (x + lower_slide).
Proof.
  intros Hrand Hk Hlo Hsize lower_slide. revert rng. induction n as [|n IH]; intros rng; cbn [random_slide]; [done |].
  specialize (Hrand rng). destruct (rand32 rng) as [x rng1]. cbn [fst] in Hrand. rewrite mask_down by lia. set (x' := ALIGN_DOWN x (2 ^ k)).
  assert (0 <= x' < 2 ^ 32 /\ x' mod 2 ^ k = 0) as [Hx' Hm].
  { pose proof (ALIGN_DOWN_spec x (2 ^ k) ltac:(lia)) as H. fold x' in H. split; [|apply H]. split; [|lia]. unfold x', ALIGN_DOWN. apply Z.mul_nonneg_nonneg; [apply Z.div_pos; lia | lia]. }
  destruct (Z.ltb_spec (u64 (lo + u64 (x' + lower_slide) + size)) 0xffffffff80000000) as [_|Hge]; [apply IH |]. intros [= <- <-].
  assert (exists w, 0xffffffff80000000 <= w < 2 ^ 64 + 2 ^ 32 /\ u64 (lo + u64 (x' + lower_slide)) = w mod 2 ^ 64 /\ u64 (lo + u64 (x' + lower_slide) + size) = (w + size) mod 2 ^ 64) as (w & Hw & E1 & E2).
  { exists (lo + x' + lower_slide). unfold lower_slide, u64, wrap, FIXED_HIGHER_HALF_OFFSET_64 in *. split.
    - destruct (Z.ltb_spec lo 0xffffffff80000000); [rewrite Z.mod_small by lia; lia | lia].
    - rewrite Z.add_mod_idemp_r by lia. split; [f_equal; lia |]. rewrite <- Z.add_mod_idemp_l, Z.add_mod_idemp_r, Z.add_mod_idemp_l by lia. f_equal. lia. }
  rewrite E2 in Hge. rewrite E1. unfold FIXED_HIGHER_HALF_OFFSET_64. destruct (Z.ltb_spec (w + size) (2 ^ 64)).
  - rewrite (Z.mod_small w) by lia. split; [lia |]. split; [lia | by exists x'].
  - exfalso. rewrite (Z.mod_eq (w + size)) in Hge by lia. assert ((w + size) / 2 ^ 64 = 1) as Hd by (symmetry; apply Z.div_unique with (w + size - 2 ^ 64); lia). rewrite Hd in Hge. lia.
Qed.

Definition range_align (p : elf_phdr) : Z := if p.(p_align) <=? 1 then 1 else p.(p_align).
(** The range of a segment: whole units of its alignment. *)
Definition range_of (slide : Z) (p : elf_phdr) : mem_range :=
  let base := ALIGN_DOWN (u64 (p.(p_vaddr) + slide)) (range_align p) in
  {| mr_base := base; mr_length := align_up (u64 (p.(p_vaddr) + slide) + p.(p_memsz) - base) (range_align p); permissions := Z.land p.(p_flags) 7 |}.
Lemma ranges_ok slide : forall l, Forall (fun p => 0 < p.(p_memsz) < 2 ^ 32 /\ u64 (p.(p_vaddr) + slide) + p.(p_memsz) < 2 ^ 64 /\ p.(p_align) <= 2 ^ 32 /\ (p.(p_align) <= 1 \/ exists k, 0 <= k /\ p.(p_align) = 2 ^ k)) l ->
  ranges_loop l slide = Ret (range_of slide <$> l).
Proof.
  induction 1 as [|p l (Hm & Ht & Ha & Hp) HF IH]; [done |]. cbn [ranges_loop]. cbv zeta. fold (range_align p).
  assert (exists k, 0 <= k /\ range_align p = 2 ^ k /\ range_align p <= 2 ^ 32) as (k & Hk & Hr & Hr32).
  { unfold range_align. destruct (Z.leb_spec p.(p_align) 1); [exists 0; split; [lia |]; split; [done | lia] |]. destruct Hp as [?|(k & Hk & E)]; [lia |]. exists k. auto. }
  assert (is_u64 (u64 (p_vaddr p + slide))) as Hu by (apply Z.mod_pos_bound; lia).
  rewrite Hr, mask_down by done. rewrite (u64_small (u64 _ + _)) by (unfold is_u64 in Hu; lia).
  pose proof (ALIGN_DOWN_spec (u64 (p_vaddr p + slide)) (2 ^ k) ltac:(lia)) as Hd. set (b := ALIGN_DOWN _ _) in *.
  rewrite (u64_small (_ - b)) by (unfold is_u64 in Hu; lia). pose proof (ALIGN_UP_spec (u64 (p_vaddr p + slide) + p_memsz p - b) (2 ^ k) ltac:(lia) ltac:(lia)) as Hup.
  destruct (ALIGN_UP _ _) as [y|]; [|lia]. destruct Hup as [-> _]. cbn [or_panic mbind outcome_bind]. rewrite IH. cbn [mbind outcome_bind fmap list_fmap]. unfold range_of, b. by rewrite Hr.
Qed.

(** * Loading *)

Lemma filter_ext_in {A : Type} (P Q : A -> Prop) `{!forall x, Decision (P x), !forall x, Decision (Q x)} (l : list A) : (forall x, x ∈ l -> P x <-> Q x) -> filter P l = filter Q l.
Proof.
  induction l as [|x l IH]; intros Heq; [done |]. rewrite !filter_cons. rewrite IH by (intros y Hy; apply Heq; by right). pose proof (Heq x ltac:(by left)). repeat case_decide; tauto || done.
Qed.

(** A kernel that can be loaded with this slide: [lo] and [hi] bound its segments, [al] is the largest
    alignment, [lower] says in which half it is linked, and [t] are the relocations its dynamic section
    describes. *)
Record kernel `{!ElfArch} (elf : Z -> Z) (file_size : Z) (reloc lower : bool) (t : reloc_table) (slide lo hi al : Z) : Prop := {
  kn_valid : (elf64_hdr elf).(magic) = [127; 69; 76; 70] /\ (elf64_hdr elf).(ei_data) = 1 /\ (elf64_hdr elf).(machine) = ARCH;
  kn_phdr_size : 56 <= (elf64_hdr elf).(phdr_size);
  kn_table : 0 <= (elf64_hdr elf).(phoff) /\ (elf64_hdr elf).(ph_num) * (elf64_hdr elf).(phdr_size) + (elf64_hdr elf).(phoff) <= file_size < 2 ^ 64;
  kn_reloc : if reloc then (elf64_hdr elf).(type) = 3 /\ exists p, dynamic_segment elf = Some p /\ p.(p_filesz) <> 0 else (elf64_hdr elf).(type) = 2;
  kn_segs : loads (seg_fine file_size reloc) (phdrs64 elf);
  kn_half : loads (fun p => if lower then lower_half p else ~ lower_half p) (phdrs64 elf);
  kn_apart : pairwise (fun p q => apart p.(p_vaddr) p.(p_memsz) q.(p_vaddr) q.(p_memsz)) (phdrs64 elf);
  kn_pages : pairwise pages_ok (phdrs64 elf);
  kn_lo : loads (fun p => lo <= p.(p_vaddr)) (phdrs64 elf) /\ exists p, p ∈ phdrs64 elf /\ is_load p = true /\ p.(p_vaddr) = lo;
  kn_hi : loads (fun p => seg_end p <= hi) (phdrs64 elf) /\ exists p, p ∈ phdrs64 elf /\ is_load p = true /\ seg_end p = hi;
  kn_size : hi - lo < 2 ^ 31;
  kn_align : align_of al (phdrs64 elf) /\ 0 < al;
  kn_relocs : described elf file_size t;
  kn_words : loads (fun p => Forall (fun r => relocs_in p r -> reloc_known elf t r) t.(relocs)) (phdrs64 elf) }.

Section load.
Context `{!ElfArch} (elf : Z -> Z) (file_size : Z) (reloc lower : bool) (t : reloc_table) (slide lo hi al : Z).
Hypothesis K : kernel elf file_size reloc lower t slide lo hi al.

Definition lower_slide : Z := if lower then u64 (FIXED_HIGHER_HALF_OFFSET_64 - lo) else 0.

Lemma kernel_valid : elf64_validate (elf64_hdr elf) = Ret tt.
Proof.
  destruct (kn_valid _ _ _ _ _ _ _ _ _ K) as (Hm & Hd & Hmach). unfold elf64_validate, is_elf. rewrite Hm, Hd, Hmach, (Z.eqb_refl ARCH). reflexivity.
Qed.
Lemma kernel_relocatable : elf64_is_relocatable elf = Ret reloc.
Proof.
  pose proof (kn_reloc _ _ _ _ _ _ _ _ _ K) as Hr. unfold elf64_is_relocatable. cbv zeta. rewrite (proj2 (Z.ltb_ge _ _) (kn_phdr_size _ _ _ _ _ _ _ _ _ K)), dynamic_segment_find.
  destruct reloc; [destruct Hr as (-> & p & -> & Hz); by rewrite (proj2 (Z.eqb_neq _ _) Hz) | by rewrite Hr].
Qed.
Lemma kernel_type : negb (type (elf64_hdr elf) =? ET_EXEC) && negb (type (elf64_hdr elf) =? ET_DYN) = false.
Proof. pose proof (kn_reloc _ _ _ _ _ _ _ _ _ K) as Hr. destruct reloc; [destruct Hr as [-> _] | rewrite Hr]; done. Qed.
Lemma kernel_relocs : read_relocs elf file_size = Ret (Some t).
Proof.
  destruct (kn_table _ _ _ _ _ _ _ _ _ K) as (H0 & Ht & Hf). apply described_read; try done; [exact (kn_relocs _ _ _ _ _ _ _ _ _ K) | exact (kn_phdr_size _ _ _ _ _ _ _ _ _ K)].
Qed.
Lemma kernel_words p : p ∈ phdrs64 elf -> is_load p = true -> Forall (fun r => relocs_in p r -> reloc_ok elf t slide r) t.(relocs).
Proof.
  intros Hp Hl. pose proof (proj1 (Forall_forall _ _) (kn_words _ _ _ _ _ _ _ _ _ K) p Hp Hl) as HF. cbv beta in HF.
  eapply Forall_impl; [exact HF |]. intros r Hr Hin. by apply reloc_known_ok, Hr.
Qed.
Lemma kernel_seg p : p ∈ phdrs64 elf -> is_load p = true -> seg_fine file_size reloc p /\ 0 < p.(p_memsz) /\ lo <= p.(p_vaddr) /\ seg_end p <= hi.
Proof.
  intros Hp Hl. pose proof (proj1 (Forall_forall _ _) (kn_segs _ _ _ _ _ _ _ _ _ K) p Hp Hl) as Hs. split; [done |]. destruct Hs as [[_ Hf _ _] _ _ _].
  split; [apply load_memsz; [done | lia] |]. split; [exact (proj1 (Forall_forall _ _) (proj1 (kn_lo _ _ _ _ _ _ _ _ _ K)) p Hp Hl) | exact (proj1 (Forall_forall _ _) (proj1 (kn_hi _ _ _ _ _ _ _ _ _ K)) p Hp Hl)].
Qed.
Lemma kernel_bounds : 0 <= lo < hi /\ hi + 4095 < 2 ^ 64.
Proof.
  destruct (kn_lo _ _ _ _ _ _ _ _ _ K) as [_ (p & Hp & Hl & Ep)]. destruct (kernel_seg p Hp Hl) as ([[Hv _ _ _] Ht _ _] & Hm & _ & Hh).
  destruct (kn_hi _ _ _ _ _ _ _ _ _ K) as [_ (q & Hq & Hlq & Eq)]. destruct (kernel_seg q Hq Hlq) as ([_ Htq _ _] & _ & _ & _). unfold seg_end in *. lia.
Qed.
Lemma kernel_lower : (lo <? FIXED_HIGHER_HALF_OFFSET_64) = lower.
Proof.
  destruct (kn_lo _ _ _ _ _ _ _ _ _ K) as [_ (p & Hp & Hl & Ep)]. pose proof (proj1 (Forall_forall _ _) (kn_half _ _ _ _ _ _ _ _ _ K) p Hp Hl) as Hx. cbv beta in Hx. unfold lower_half in Hx. destruct lower; lia.
Qed.
Lemma kernel_align : exists k, 0 <= k /\ al = 2 ^ k.
Proof.
  destruct (kn_align _ _ _ _ _ _ _ _ _ K) as [[_ (p & Hp & Hl & Ep)] Hpos]. destruct (kernel_seg p Hp Hl) as ([_ _ [_ Ha] _] & _). rewrite Ep in Ha. destruct Ha as [Ha|Ha]; [|exact Ha]. exists 0. split; [lia |]. change (2 ^ 0) with 1. lia.
Qed.
Lemma kernel_max_align : elf64_max_align elf = Ret al.
Proof.
  unfold elf64_max_align. rewrite (proj2 (Z.ltb_ge _ _) (kn_phdr_size _ _ _ _ _ _ _ _ _ K)).
  destruct (max_align_ok (phdrs64 elf) 0) as (a & -> & H0 & Ha & Hex).
  { eapply Forall_impl; [exact (kn_segs _ _ _ _ _ _ _ _ _ K) |]. intros p Hp Hl. by destruct (Hp Hl) as [_ _ [_ ?] _]. }
  cbn [mbind outcome_bind]. destruct (kn_align _ _ _ _ _ _ _ _ _ K) as [[Hle (p & Hp & Hl & Hal)] Hpos]. pose proof (proj1 (Forall_forall _ _) Ha p Hp Hl) as H1. cbv beta in H1.
  assert (a = al) as -> by (destruct Hex as [->|(q & Hq & Hlq & <-)]; [lia |]; pose proof (proj1 (Forall_forall _ _) Hle q Hq Hlq) as H2; cbv beta in H2; lia).
  by rewrite (proj2 (Z.eqb_neq al 0)) by lia.
Qed.
Lemma kernel_span : span_loop (phdrs64 elf) (phdrs64 elf) 0 reloc {| lower_to_higher := false; min_vaddr := UINT64_MAX; max_vaddr := 0 |} = Ret {| lower_to_higher := lower; min_vaddr := lo; max_vaddr := hi |}.
Proof.
  destruct (span_loop_ok file_size reloc (phdrs64 elf) lower (kn_apart _ _ _ _ _ _ _ _ _ K) (kn_pages _ _ _ _ _ _ _ _ _ K) (kn_segs _ _ _ _ _ _ _ _ _ K) (kn_half _ _ _ _ _ _ _ _ _ K)
    (phdrs64 elf) 0 {| lower_to_higher := false; min_vaddr := UINT64_MAX; max_vaddr := 0 |} (drop_0 _)) as (s' & E & [H1 H2 H3 H4 H5] & Hl); [done |]. change (Z.of_nat 0) with 0 in E. rewrite E. f_equal. cbn in *.
  pose proof kernel_bounds as Hb. destruct (kn_lo _ _ _ _ _ _ _ _ _ K) as [Hlo (p & Hp & Hlp & Ep)]. destruct (kn_hi _ _ _ _ _ _ _ _ _ K) as [Hhi (q & Hq & Hlq & Eq)].
  pose proof (proj1 (Forall_forall _ _) H3 p Hp Hlp) as [Hp1 _]. pose proof (proj1 (Forall_forall _ _) H3 q Hq Hlq) as [_ Hq2].
  destruct s' as [lw mn mx]. cbn in *. f_equal.
  - rewrite Hl. destruct lower; [|done]. cbn. apply existsb_exists. exists p. split; [by apply list_elem_of_In | done].
  - destruct H4 as [->|(p' & Hp' & Hlp' & <-)]; [unfold UINT64_MAX in *; lia |]. pose proof (proj1 (Forall_forall _ _) Hlo p' Hp' Hlp') as Hx. cbv beta in Hx. lia.
  - destruct H5 as [->|(q' & Hq' & Hlq' & <-)]; [lia |]. pose proof (proj1 (Forall_forall _ _) Hhi q' Hq' Hlq') as Hx. cbv beta in Hx. lia.
Qed.
Lemma kernel_ranges : u64 (lo + slide) + (hi - lo) < 2 ^ 64 -> elf64_get_ranges elf slide = Ret (range_of slide <$> filter (fun p => is_load p = true) (phdrs64 elf)).
Proof.
  intros Hfit. unfold elf64_get_ranges. rewrite (proj2 (Z.ltb_ge _ _) (kn_phdr_size _ _ _ _ _ _ _ _ _ K)), kernel_relocatable. cbn [mbind outcome_bind]. cbv zeta.
  set (l := filter (fun p => is_load p && _ = true) _). assert (l = filter (fun p => is_load p = true) (phdrs64 elf)) as ->.
  { apply filter_ext_in. intros p Hp. rewrite andb_true_iff. split; [tauto |]. intros Hl. split; [done |]. destruct (kernel_seg p Hp Hl) as ([_ _ _ Hh] & _).
    destruct (Z.ltb_spec (p_vaddr p) FIXED_HIGHER_HALF_OFFSET_64) as [Hlt|]; [|done]. by rewrite (Hh Hlt). }
  destruct (kn_lo _ _ _ _ _ _ _ _ _ K) as [_ (q & Hq & Hlq & _)]. rewrite (proj2 (Z.eqb_neq _ _)).
  2: { intros Hz. assert (q ∈ filter (fun p => is_load p = true) (phdrs64 elf)) as Hin by (by apply list_elem_of_filter). destruct (filter _ _); [by apply not_elem_of_nil in Hin | unfold zlen in Hz; simpl in Hz; lia]. }
  apply ranges_ok. apply Forall_forall. intros p Hp. apply list_elem_of_filter in Hp as [Hl Hp]. destruct (kernel_seg p Hp Hl) as ([[Hv Hf He _] Ht [Ha1 Ha2] _] & Hm & Hlo & Hhi). pose proof kernel_bounds as Hb. pose proof (kn_size _ _ _ _ _ _ _ _ _ K).
  unfold seg_end in *. split; [lia |]. split; [|split; [lia | done]].
  assert (u64 (p_vaddr p + slide) = u64 (lo + slide) + (p_vaddr p - lo)) as ->; [|lia]. unfold u64, wrap in *. replace (p_vaddr p + slide) with (lo + slide + (p_vaddr p - lo)) by lia. rewrite <- Z.add_mod_idemp_l by lia. apply Z.mod_small. pose proof (Z.mod_pos_bound (lo + slide) (2 ^ 64)). lia.
Qed.

(** The byte of a segment at [a], before relocations. *)
Definition seg_byte (p : elf_phdr) (a : Z) : Z := if a <? p.(p_vaddr) + p.(p_filesz) then elf (p.(p_offset) + (a - p.(p_vaddr))) else 0.
(** The kernel in memory at [pb]: the bytes no relocation is about, and what the relocations that no
    other one overlaps compute. *)
Record in_memory (pb : Z) (m : mem) : Prop := {
  im_byte p a : p ∈ phdrs64 elf -> is_load p = true -> in_seg p a -> Forall (fun r => relocs_in p r -> ~ covers r a) t.(relocs) -> m (pb + (a - lo)) = seg_byte p a;
  im_word p l1 r l2 : p ∈ phdrs64 elf -> is_load p = true -> t.(relocs) = l1 ++ r :: l2 -> relocs_in p r -> Forall (fun r' => relocs_in p r' -> clear r r') (l1 ++ l2) ->
    relocated elf t slide r (load64 (seg_byte p) r.(r_addr)) (load64 m (pb + (r.(r_addr) - lo))) }.

Lemma load64_shift m1 a1 m2 a2 : (forall i, 0 <= i < 8 -> m1 (a1 + i) = m2 (a2 + i)) -> load64 m1 a1 = load64 m2 a2.
Proof. intros Hm. unfold load64. pose proof (Hm 0 ltac:(lia)) as H0. rewrite !Z.add_0_r in H0. rewrite H0, !Hm by lia. done. Qed.

Lemma kernel_loaded pb m0 : 0 <= pb -> pb + (hi - lo) <= 2 ^ 32 -> (forall x, pb <= x < pb + (hi - lo) -> m0 x = 0) ->
  exists m bss, load_loop elf file_size (phdrs64 elf) pb lo hi slide m0 0 = Ret (m, bss) /\ in_memory pb m /\ (forall x, ~ (pb <= x < pb + (hi - lo)) -> m x = m0 x) /\
    forall p, p ∈ phdrs64 elf -> is_load p = true -> seg_end p = hi -> bss = p.(p_memsz) - p.(p_filesz).
Proof.
  intros Hpb Htop Hzero. pose proof kernel_bounds as Hb.
  destruct (load_loop_spec elf file_size t slide kernel_relocs ltac:(pose proof (kn_table _ _ _ _ _ _ _ _ _ K); lia) lo pb hi (phdrs64 elf) m0 0) as (m & bss & E & Hall & _ & Hfr).
  - apply Forall_forall. intros p Hp Hl. destruct (kernel_seg p Hp Hl) as ([Hok _ _ _] & Hm & Hlo & Hhi). pose proof (kernel_words p Hp Hl) as Hwp.
    unfold seg_end, place in *. split_and!; try done; unfold place; lia.
  - by apply pairwise_separate, (kn_apart _ _ _ _ _ _ _ _ _ K).
  - lia.
  - exists m, bss. split; [done |]. assert (forall p, p ∈ phdrs64 elf -> is_load p = true -> seg_loaded elf t slide lo pb m0 m p /\ last_bss hi bss p) as Hseg by (intros p Hp Hl; exact (proj1 (Forall_forall _ _) Hall p Hp Hl)).
    split; [split | split].
    + intros p a Hp Hl Ha Hc. destruct (Hseg p Hp Hl) as [[Hbyte _] _]. pose proof (Hbyte a Ha Hc) as Hv. unfold place in Hv. rewrite Hv. unfold seg_byte. case_if; [done |].
      destruct (kernel_seg p Hp Hl) as (_ & _ & Hlo & Hhi). apply Hzero. unfold in_seg, seg_end in *. lia.
    + intros p l1 r l2 Hp Hl Hr Hin Hc. destruct (Hseg p Hp Hl) as [[_ Hword] _]. pose proof (Hword l1 r l2 Hr Hin Hc) as Hv. unfold place in Hv. apply reloc_word_relocated. rewrite <- Hv. f_equal. apply load64_shift. intros i Hi.
      destruct (kernel_seg p Hp Hl) as ([Hok _ _ _] & _ & Hlo & Hhi). pose proof (reloc_in_seg file_size p r (r_addr r + i) Hok Hin ltac:(unfold covers; lia)) as Ha. unfold in_seg, seg_end, seg_byte, copy_in in *.
      destruct (Z.ltb_spec (r_addr r + i) (p_vaddr p + p_filesz p)); case_if; try lia; [f_equal; lia |]. symmetry. apply Hzero. lia.
    + intros x Hx. apply Hfr. apply Forall_forall. intros p Hp Hl. destruct (kernel_seg p Hp Hl) as (_ & _ & Hlo & Hhi). unfold place, seg_end in *. lia.
    + intros p Hp Hl Hend. destruct (Hseg p Hp Hl) as [_ Hbs]. by apply Hbs.
Qed.
End load.

(** When a slide is chosen at random for an image of less than 2 GiB, the image is in the last
    2 GiB of the address space and does not wrap around, and the slide is a multiple of the largest
    alignment away from the one that moves the image's first address to that area. *)
Theorem random_slide_inside {R : Type} (rand32 : R -> Z * R) n rng k lo size slide rng' :
  (forall g, 0 <= (rand32 g).1 < 2 ^ 32) -> 0 <= k -> 0 <= lo < 2 ^ 64 -> 0 < size < 2 ^ 31 ->
  let lower_slide := if lo <? FIXED_HIGHER_HALF_OFFSET_64 then u64 (FIXED_HIGHER_HALF_OFFSET_64 - lo) else 0 in
  random_slide rand32 n rng (2 ^ k) lo size lower_slide = Ret (slide, rng') ->
  FIXED_HIGHER_HALF_OFFSET_64 <= u64 (lo + slide) /\ u64 (lo + slide) + size < 2 ^ 64 /\ exists x, 0 <= x < 2 ^ 32 /\ x mod 2 ^ k = 0 /\ slide = u64 (x + lower_slide).
Proof. apply random_slide_spec. Qed.

(** C17: a kernel whose program headers, segments and relocations are as the format prescribes, with
    memory granted for its span: [elf64_load] returns, and in that memory every byte of a segment is
    the file's, or zero beyond it, unless a relocation is there, and every relocation that no other
    one overlaps has left the word that the format defines for it; no other memory is changed. The
    relocations are those of [described]: what the tags of the dynamic section say, with and without
    addend, for the procedure linkage, and compressed. The base, entry and
    ranges that are reported are those of the headers, moved by the slide. *)
Theorem elf64_load_correct `{!ElfArch} {R : Type} (rand32 : R -> Z * R) elf file_size reloc lower t slide lo hi al alloc_type kaslr i386 st rng pb st1 rng' :
  kernel elf file_size reloc lower t slide lo hi al -> wf udisj st -> (forall g, 0 <= (rand32 g).1 < 2 ^ 32) ->
  Pmm.ext_mem_alloc_type_aligned i386 st (hi - lo) alloc_type al = Ret (pb, st1) ->
  (if reloc && kaslr then random_slide rand32 (Z.to_nat 0x10000) rng al lo (hi - lo) (lower_slide lower lo) = Ret (slide, rng') else slide = lower_slide lower lo /\ rng' = rng) ->
  exists res m, elf64_load rand32 elf file_size alloc_type kaslr i386 st rng = Ret (res, Pmm.set_ram st1 m, rng') /\
    in_memory elf t slide lo pb m /\ (forall x, ~ (pb <= x < pb + align_up (hi - lo) al) -> m x = st.(Pmm.ram) x) /\
    res.(physical_base) = pb /\ res.(l_slide) = slide /\ res.(virtual_base) = u64 (lo + slide) /\ res.(entry_point) = u64 ((elf64_hdr elf).(entry) + slide) /\
    res.(image_size) = hi - lo /\ res.(ranges) = range_of slide <$> filter (fun p => is_load p = true) (phdrs64 elf) /\
    (forall p, p ∈ phdrs64 elf -> is_load p = true -> seg_end p = hi -> res.(image_size_before_bss) = p.(p_vaddr) + p.(p_filesz) - lo).
Proof.
  intros K Hwf Hrand Halloc Hslide. pose proof (kernel_bounds _ _ _ _ _ _ _ _ _ K) as Hb. destruct (kernel_align _ _ _ _ _ _ _ _ _ K) as (k & Hk & Hal). pose proof (kn_size _ _ _ _ _ _ _ _ _ K) as Hsz.
  assert (u64 (lo + slide) + (hi - lo) < 2 ^ 64) as Hfit.
  { pose proof (kernel_lower _ _ _ _ _ _ _ _ _ K) as Hlw. destruct (reloc && kaslr).
    - rewrite Hal in Hslide. unfold lower_slide in Hslide. rewrite <- Hlw in Hslide. apply random_slide_spec in Hslide; [apply Hslide | done | done | lia | lia].
    - destruct Hslide as [-> _]. unfold lower_slide. rewrite <- Hlw. unfold FIXED_HIGHER_HALF_OFFSET_64. destruct (Z.ltb_spec lo 0xffffffff80000000) as [Hlt|Hge].
      + rewrite (u64_small (_ - lo)) by lia. replace (lo + (0xffffffff80000000 - lo)) with 0xffffffff80000000 by lia. rewrite u64_small by lia. lia.
      + rewrite Z.add_0_r, u64_small by lia. lia. }
  pose proof (ext_mem_alloc_lemma udisj i386 st (hi - lo) alloc_type al false Hwf ltac:(lia) ltac:(lia)) as Ha. unfold Pmm.ext_mem_alloc_type_aligned in Halloc. rewrite Halloc in Ha.
  destruct Ha as (top & _ & Hpb & Htop & _ & Hlow & _ & _ & _ & Hram). specialize (Hlow eq_refl). rewrite andb_false_r in Hram. pose proof (align_up_spec (hi - lo) al ltac:(lia) ltac:(lia)) as Hup.
  destruct (kernel_loaded _ _ _ _ _ _ _ _ _ K pb st1.(Pmm.ram)) as (m & bss & Eload & Him & Hfr & Hbss); [done | lia | |].
  { intros x Hx. rewrite Hram. unfold mem_fill. case_if; [done | lia]. }
  eexists _, m. split.
  - unfold elf64_load. rewrite (kernel_valid _ _ _ _ _ _ _ _ _ K). cbn [mbind outcome_bind]. cbv zeta.
    rewrite (kernel_type _ _ _ _ _ _ _ _ _ K).
    rewrite (proj2 (Z.ltb_ge _ _) (kn_phdr_size _ _ _ _ _ _ _ _ _ K)). destruct (kn_table _ _ _ _ _ _ _ _ _ K) as [Hoff Htab].
    rewrite (CHECKED_MUL_small (ph_num _)) by lia. cbn [or_panic mbind outcome_bind]. rewrite CHECKED_ADD_small by lia. cbn [or_panic mbind outcome_bind].
    rewrite Z.gtb_ltb, (proj2 (Z.ltb_ge _ _)) by lia. rewrite (kernel_relocatable _ _ _ _ _ _ _ _ _ K). cbn [mbind outcome_bind]. rewrite (kernel_max_align _ _ _ _ _ _ _ _ _ K). cbn [mbind outcome_bind].
    rewrite (kernel_span _ _ _ _ _ _ _ _ _ K). cbn [mbind outcome_bind min_vaddr max_vaddr lower_to_higher]. rewrite (proj2 (Z.eqb_neq lo UINT64_MAX)) by (unfold UINT64_MAX; lia).
    unfold Pmm.ext_mem_alloc_type_aligned. rewrite Halloc. cbn [mbind outcome_bind]. fold (lower_slide lower lo).
    assert ((if reloc && kaslr then random_slide rand32 (Z.to_nat 0x10000) rng al lo (hi - lo) (lower_slide lower lo) else Ret (lower_slide lower lo, rng)) = Ret (slide, rng')) as -> by (destruct (reloc && kaslr); [done | by destruct Hslide as [-> ->]]).
    cbn [mbind outcome_bind]. rewrite Eload. cbn [mbind outcome_bind]. rewrite (kernel_ranges _ _ _ _ _ _ _ _ _ K Hfit). reflexivity.
  - cbn. split; [done |]. split; [|split_and!; try done].
    + intros x Hx. rewrite Hfr by lia. rewrite Hram. unfold mem_fill. case_if; [lia | done].
    + intros p Hp Hl Hend. rewrite (Hbss p Hp Hl Hend). unfold seg_end in Hend. lia.
Qed.

(** * An example *)

Module Example.
#[local] Existing Instance x86_64.

(** A position-independent kernel of one segment, 272 bytes of which are in the file, with one
    relative relocation for its last word. *)
Definition bytes_of : list Z := Eval vm_compute in
  [127; 69; 76; 70; 2; 1; 1; 0] ++ replicate 8 0 ++ Guid.le_bytes 2 3 ++ Guid.le_bytes 2 0x3e ++ Guid.le_bytes 4 1 ++ Guid.le_bytes 8 0x100 ++ Guid.le_bytes 8 64 ++ Guid.le_bytes 8 0
    ++ Guid.le_bytes 4 0 ++ Guid.le_bytes 2 64 ++ Guid.le_bytes 2 56 ++ Guid.le_bytes 2 2 ++ Guid.le_bytes 2 64 ++ Guid.le_bytes 2 0 ++ Guid.le_bytes 2 0
    ++ Guid.le_bytes 4 1 ++ Guid.le_bytes 4 7 ++ Guid.le_bytes 8 0 ++ Guid.le_bytes 8 0 ++ Guid.le_bytes 8 0x100000 ++ Guid.le_bytes 8 272 ++ Guid.le_bytes 8 288 ++ Guid.le_bytes 8 0x1000
    ++ Guid.le_bytes 4 2 ++ Guid.le_bytes 4 6 ++ Guid.le_bytes 8 176 ++ Guid.le_bytes 8 176 ++ Guid.le_bytes 8 0x1000b0 ++ Guid.le_bytes 8 64 ++ Guid.le_bytes 8 64 ++ Guid.le_bytes 8 8
    ++ Guid.le_bytes 8 7 ++ Guid.le_bytes 8 240 ++ Guid.le_bytes 8 8 ++ Guid.le_bytes 8 24 ++ Guid.le_bytes 8 9 ++ Guid.le_bytes 8 24 ++ Guid.le_bytes 8 0 ++ Guid.le_bytes 8 0
    ++ Guid.le_bytes 8 264 ++ Guid.le_bytes 4 8 ++ Guid.le_bytes 4 0 ++ Guid.le_bytes 8 0x100 ++ replicate 8 0xcc.
Definition file : Z -> Z := fun x => default 0 (bytes_of !! Z.to_nat x).
Definition text_seg : elf_phdr := {| p_type := 1; p_flags := 7; p_offset := 0; p_vaddr := 0; p_paddr := 0x100000; p_filesz := 272; p_memsz := 288; p_align := 0x1000 |}.
Definition dyn_seg : elf_phdr := {| p_type := 2; p_flags := 6; p_offset := 176; p_vaddr := 176; p_paddr := 0x1000b0; p_filesz := 64; p_memsz := 64; p_align := 8 |}.
Definition reloc : elf64_rela := {| r_addr := 264; r_info := 8; r_symbol := 0; r_addend := 0x100 |}.
Definition table : reloc_table := {| relocs := [reloc]; symtab := 0; sym_ent := 0; symtab_size := 0 |}.

Lemma file_phdrs : phdrs64 file = [text_seg; dyn_seg].
Proof. vm_compute. reflexivity. Qed.
Lemma one_load (P : elf_phdr -> Prop) : P text_seg -> loads P (phdrs64 file).
Proof. intros HP. rewrite file_phdrs. apply Forall_cons. split; [done |]. apply Forall_singleton. done. Qed.
Lemma one_pair (P : elf_phdr -> elf_phdr -> Prop) : pairwise P (phdrs64 file).
Proof.
  rewrite file_phdrs. intros i j p q Hi Hj Hne Hp Hq. exfalso. destruct i as [|[|i]], j as [|[|j]]; simplify_eq/=; try done; by rewrite ?lookup_nil in *.
Qed.
Lemma text_in : text_seg ∈ phdrs64 file.
Proof. rewrite file_phdrs. by left. Qed.
Lemma random_slide_inside_witness :
  exists slide g, random_slide (fun g : Z => (u32 g, u32 (g * 5 + 1))) 8 0xfedcba98 (2 ^ 21) 0 0x1000 (u64 (FIXED_HIGHER_HALF_OFFSET_64 - 0)) = Ret (slide, g) /\ FIXED_HIGHER_HALF_OFFSET_64 <= u64 (0 + slide) /\ u64 (0 + slide) + 0x1000 < 2 ^ 64.
Proof.
  eexists _, _. split; [vm_compute; reflexivity |].
  destruct (random_slide_inside (fun g : Z => (u32 g, u32 (g * 5 + 1))) 8 0xfedcba98 21 0 0x1000 18446744073470476288 954437044) as (H1 & H2 & _); [| lia | lia | lia | vm_compute; reflexivity | split; assumption].
  intros g. apply Z.mod_pos_bound. lia.
Defined.

End Example.

(** A kernel with every kind of table: a relative relocation, one of a symbol in the table for
    the procedure linkage, and compressed ones whose second bitmap reaches into the memory behind
    the file. *)
Module Tables.
#[local] Existing Instance x86_64.

Definition bytes_of : list Z := Eval vm_compute in
  let w := Guid.le_bytes in
  [127; 69; 76; 70; 2; 1; 1; 0] ++ replicate 8 0 ++ w 2%nat 3 ++ w 2%nat 0x3e ++ w 4%nat 1 ++ w 8%nat 0x100 ++ w 8%nat 64 ++ w 8%nat 0
    ++ w 4%nat 0 ++ w 2%nat 64 ++ w 2%nat 56 ++ w 2%nat 2 ++ w 2%nat 64 ++ w 2%nat 0 ++ w 2%nat 0
    ++ w 4%nat 1 ++ w 4%nat 7 ++ mjoin (w 8%nat <$> [0; 0; 0x100000; 536; 1056; 0x1000])
    ++ w 4%nat 2 ++ w 4%nat 6 ++ mjoin (w 8%nat <$> [176; 176; 0x1000b0; 192; 192; 8])
    ++ mjoin (w 8%nat <$> [7; 368; 8; 24; 9; 24; 23; 392; 2; 24; 20; 7; 36; 416; 35; 24; 37; 8; 6; 440; 11; 24; 0; 0])
    ++ w 8%nat 488 ++ w 4%nat 8 ++ w 4%nat 0 ++ w 8%nat 0x100
    ++ w 8%nat 496 ++ w 4%nat 7 ++ w 4%nat 1 ++ w 8%nat 0
    ++ mjoin (w 8%nat <$> [504; 11; 3])
    ++ replicate 24 0 ++ w 4%nat 0 ++ [16; 0; 1; 0] ++ w 8%nat 0x104 ++ w 8%nat 0
    ++ mjoin (w 8%nat <$> [0xcc; 0xcc; 0x10; 0x20; 0x77; 0x30]).
Definition file : Z -> Z := fun x => default 0 (bytes_of !! Z.to_nat x).
Definition text_seg : elf_phdr := {| p_type := 1; p_flags := 7; p_offset := 0; p_vaddr := 0; p_paddr := 0x100000; p_filesz := 536; p_memsz := 1056; p_align := 0x1000 |}.
Definition dyn_seg : elf_phdr := {| p_type := 2; p_flags := 6; p_offset := 176; p_vaddr := 176; p_paddr := 0x1000b0; p_filesz := 192; p_memsz := 192; p_align := 8 |}.
Definition rela (addr info symbol addend : Z) : elf64_rela := {| r_addr := addr; r_info := info; r_symbol := symbol; r_addend := addend |}.
Definition table : reloc_table :=
  {| relocs := [relr_reloc 504; relr_reloc 512; relr_reloc 528; relr_reloc 1016; rela 488 8 0 0x100; rela 496 7 1 0];
     symtab := 440; sym_ent := 24; symtab_size := 96 |}.

Lemma file_byte x : is_byte (file x).
Proof.
  unfold file. assert (Forall is_byte bytes_of) as HF.
  { apply Forall_forall. intros y Hy. assert (forallb (fun y => (0 <=? y) && (y <? 256)) bytes_of = true) as Hf by (vm_compute; reflexivity).
    rewrite forallb_forall in Hf. apply list_elem_of_In, Hf in Hy. unfold is_byte. lia. }
  destruct (bytes_of !! Z.to_nat x) as [b|] eqn:E; [exact (Forall_lookup_1 _ _ _ _ HF E) | cbn; split; lia].
Qed.
Lemma tables_phdrs : phdrs64 file = [text_seg; dyn_seg].
Proof. vm_compute. reflexivity. Qed.
Lemma tables_load (P : elf_phdr -> Prop) : P text_seg -> loads P (phdrs64 file).
Proof. intros HP. rewrite tables_phdrs. apply Forall_cons. split; [done |]. by apply Forall_singleton. Qed.
Lemma tables_pair (P : elf_phdr -> elf_phdr -> Prop) : pairwise P (phdrs64 file).
Proof.
  rewrite tables_phdrs. intros i j p q Hi Hj Hne Hp Hq. exfalso. destruct i as [|[|i]], j as [|[|j]]; simplify_eq/=; try done; by rewrite ?lookup_nil in *.
Qed.
Lemma tables_text_in : text_seg ∈ phdrs64 file.
Proof. rewrite tables_phdrs. by left. Qed.
Lemma text_placed addr size : 368 <= addr < 536 -> addr + size <= 536 -> placed file 536 addr size addr.
Proof.
  intros Ha Hs. split_and!; [| | lia | done].
  - exists text_seg. split; [exact tables_text_in |]. split; [done |]. split; [cbn; lia | done].
  - rewrite tables_phdrs. intros p Hp [Hh _]. rewrite !elem_of_cons in Hp. destruct Hp as [->|[->|Hp]]; [cbn in *; lia.. | by apply not_elem_of_nil in Hp].
Qed.
Lemma text_table addr size : 368 <= addr < 536 -> addr + size <= 536 -> table_at file 536 addr size addr.
Proof. intros. split; [lia |]. intros _. by apply text_placed. Qed.

Lemma file_described : described file 536 table.
Proof.
  assert (dynamic_segment file = Some dyn_seg) as Hseg by (vm_compute; reflexivity).
  split.
  - exact file_byte.
  - rewrite Hseg. intros p [= <-]. cbn. lia.
  - assert (forallb (fun e => negb (e.1 =? 1) && (negb (e.1 =? 11) || (24 <=? e.2))) (dynamic_entries file) = true) as Hf by (vm_compute; reflexivity).
    apply Forall_forall. intros e He. rewrite forallb_forall in Hf. apply list_elem_of_In, Hf in He. lia.
  - exists 416, 368, 392. split_and!; [apply (text_table 416 24); lia | apply (text_table 368 24); lia | apply (text_table 392 24); lia | vm_compute; reflexivity].
  - intros _. vm_compute. reflexivity.
  - intros _. vm_compute. repeat split; discriminate.
  - intros _. vm_compute. reflexivity.
  - assert (value file 6 = 440) as -> by (vm_compute; reflexivity). cbn [Z.eqb Pos.eqb]. split; [by apply text_placed |].
    unfold left_of. rewrite tables_phdrs. intros p Hp [Hh _]. rewrite !elem_of_cons in Hp. destruct Hp as [->|[->|Hp]]; [done | cbn in *; lia | by apply not_elem_of_nil in Hp].
  - vm_compute. reflexivity.
  - intros Hne. exfalso. apply Hne. vm_compute. reflexivity.
  - vm_compute. discriminate.
Qed.
Lemma file_kernel : kernel file 536 true true table FIXED_HIGHER_HALF_OFFSET_64 0 1056 0x1000.
Proof.
  split.
  - vm_compute. repeat split.
  - vm_compute. discriminate.
  - vm_compute. split; [discriminate |]. split; [discriminate | reflexivity].
  - split; [vm_compute; reflexivity |]. exists dyn_seg. split; [vm_compute; reflexivity | done].
  - apply tables_load. split; [split; cbn; lia | unfold seg_end; cbn; lia | | done]. split; [cbn; lia |]. right. exists 12. split; [lia | done].
  - apply tables_load. done.
  - apply tables_pair.
  - apply tables_pair.
  - split; [by apply tables_load |]. exists text_seg. split; [exact tables_text_in | done].
  - split; [by apply tables_load |]. exists text_seg. split; [exact tables_text_in | done].
  - lia.
  - split; [split; [by apply tables_load |]; exists text_seg; split; [exact tables_text_in | done] | lia].
  - exact file_described.
  - apply tables_load. unfold table. cbn [relocs]. repeat (apply Forall_cons; split); [..| by apply Forall_nil]; intros _; unfold reloc_known.
    5: { right. left. reflexivity. }
    5: { do 3 right. split; [left; by apply (bool_decide_unpack _) |]. split; [done |]. split; [done |]. split; [cbn; lia |]. split; [cbn; lia |]. left. vm_compute. discriminate. }
    all: right; right; left; reflexivity.
Qed.

(** What a relocation of the example has to compute. *)
Definition word_of (r : elf64_rela) (old : Z) : Z :=
  let base := FIXED_HIGHER_HALF_OFFSET_64 in
  if r.(r_info) =? R_INTERNAL_RELR then u64 (old + base) else if r.(r_info) =? 8 then u64 (base + r.(r_addend)) else u64 (base + 0x104 + 0).
Lemma relocated_word r old w : r ∈ table.(relocs) -> relocated file table FIXED_HIGHER_HALF_OFFSET_64 r old w -> w = word_of r old.
Proof.
  assert (forall (P : Z -> bool) l x, x ∈ l -> forallb (fun x => negb (P x)) l = true -> P x = false) as Hno.
  { intros P l x Hx Hl. rewrite forallb_forall in Hl. apply list_elem_of_In, Hl in Hx. by destruct (P x). }
  assert (st_shndx (sym_at file (440 + 24 * 1)) = 1 /\ st_value (sym_at file (440 + 24 * 1)) = 0x104) as [Hx Hv] by (vm_compute; split; reflexivity).
  intros Hr Hw. cbn [relocs table] in Hr. rewrite !elem_of_cons in Hr.
  assert (r = relr_reloc r.(r_addr) \/ r = rela 488 8 0 0x100 \/ r = rela 496 7 1 0) as Hk by (destruct_or! Hr; subst; auto; by apply not_elem_of_nil in Hr).
  destruct Hk as [Hk|[Hk|Hk]]; rewrite Hk in Hw |- *; cbn [r_info r_addr r_symbol r_addend relr_reloc rela symtab sym_ent table] in *;
    inversion Hw as [Hi|Hi|Hi|s Hi Hs|s Hi Hs|s [Hi|Hi] Hs H0]; cbn in Hi; try discriminate Hi;
    try (pose proof (Hno (fun x => x =? 4294967280) _ _ Hi eq_refl) as Hc; discriminate Hc);
    try (pose proof (Hno (fun x => x =? 8) _ _ Hi eq_refl) as Hc; discriminate Hc).
  - reflexivity.
  - reflexivity.
  - subst s. cbn [r_symbol rela symtab sym_ent table]. rewrite Hv. reflexivity.
  - subst s. cbn [r_symbol rela symtab sym_ent table] in H0. rewrite Hx in H0. discriminate H0.
Qed.

(** The kernel on a PC with 16 MiB: every relocated word is what it should be in the higher half. *)
Lemma elf64_load_correct_witness : exists pb res st m,
  elf64_load (fun g : Z => (u32 g, g)) file 536 Pmm.MEMMAP_KERNEL_AND_MODULES false true PmmCorrect.pc 0 = Ret (res, Pmm.set_ram st m, 0) /\
  (fun a => load64 m (pb + a)) <$> [488; 496; 504; 512; 528; 1016] =
    [0xffffffff80000100; 0xffffffff80000104; 0xffffffff80000010; 0xffffffff80000020; 0xffffffff80000030; 0xffffffff80000000] /\
  m (pb + 520) = 0x77 /\ m (pb + 1) = 69 /\ m (pb + 1010) = 0 /\ res.(entry_point) = 0xffffffff80000100 /\ res.(image_size_before_bss) = 536.
Proof.
  assert (match Pmm.ext_mem_alloc_type_aligned true PmmCorrect.pc (1056 - 0) Pmm.MEMMAP_KERNEL_AND_MODULES 0x1000 with Ret _ => true | _ => false end = true) as Ho by (vm_compute; reflexivity).
  destruct (Pmm.ext_mem_alloc_type_aligned true PmmCorrect.pc (1056 - 0) Pmm.MEMMAP_KERNEL_AND_MODULES 0x1000) as [[pb st1]| |] eqn:Ea; try discriminate Ho.
  destruct (elf64_load_correct (fun g : Z => (u32 g, g)) file 536 true true table FIXED_HIGHER_HALF_OFFSET_64 0 1056 0x1000 Pmm.MEMMAP_KERNEL_AND_MODULES false true PmmCorrect.pc 0 pb st1 0) as (res & m & E & [Hb Hw] & _ & _ & _ & _ & He & _ & _ & Hbss).
  - exact file_kernel.
  - exact pc_wf.
  - intros g. apply Z.mod_pos_bound. lia.
  - exact Ea.
  - split; reflexivity.
  - exists pb, res, st1, m. split; [exact E |].
    assert (forall n r, table.(relocs) !! n = Some r ->
      relocated file table FIXED_HIGHER_HALF_OFFSET_64 r (load64 (seg_byte file text_seg) r.(r_addr)) (load64 m (pb + r.(r_addr)))) as Hall.
    { intros n r Hr. rewrite <- (Z.sub_0_r (r_addr r)) at 2. apply (Hw text_seg (take n table.(relocs)) r (drop (S n) table.(relocs)) tables_text_in eq_refl); [by rewrite take_drop_middle | |];
      (do 6 (destruct n as [|n]; [injection Hr as <-; first [reflexivity | repeat (apply Forall_cons; split); [.. | by apply Forall_nil]; intros _; unfold clear, apart; cbn; lia] |]); discriminate Hr). }
    assert (forall n r, table.(relocs) !! n = Some r -> load64 m (pb + r.(r_addr)) = word_of r (load64 (seg_byte file text_seg) r.(r_addr))) as Hword.
    { intros n r Hr. apply relocated_word; [by eapply list_elem_of_lookup_2 | by eapply Hall]. }
    assert (forall a, 0 <= a < 488 \/ 520 <= a < 528 \/ 536 <= a < 1016 -> m (pb + a) = seg_byte file text_seg a) as Hbyte.
    { intros a Ha. rewrite <- (Hb text_seg a tables_text_in eq_refl ltac:(unfold in_seg; cbn; lia)); [by rewrite Z.sub_0_r |].
      repeat (apply Forall_cons; split); [.. | by apply Forall_nil]; intros _; unfold covers; cbn; lia. }
    split.
    { cbn [fmap list_fmap]. pose proof (Hword 0%nat _ eq_refl) as W0. pose proof (Hword 1%nat _ eq_refl) as W1. pose proof (Hword 2%nat _ eq_refl) as W2.
      pose proof (Hword 3%nat _ eq_refl) as W3. pose proof (Hword 4%nat _ eq_refl) as W4. pose proof (Hword 5%nat _ eq_refl) as W5.
      cbn [r_addr relr_reloc rela] in *. rewrite W0, W1, W2, W3, W4, W5. vm_compute. reflexivity. }
    rewrite !Hbyte by lia. rewrite He, (Hbss text_seg tables_text_in eq_refl eq_refl). vm_compute. repeat split.
Defined.
End Tables.
