(* ===== verification/ElfSafe.v ===== *)
(** The ELF loader on arbitrary files. *)

From S2P Require Import Prelude Libc LibcCorrect Guid Part PartCorrect Pmm PmmMap PmmSanitise PmmAlloc PmmOps PmmCorrect Vmm VmmWalk Elf ElfCorrect.
Import Guid Elf.

(** * Every loop ends *)

Definition ends {A : Type} (o : outcome A) : Prop := o <> Diverge.
Lemma ends_bind {A B : Type} (o : outcome A) (f : A -> outcome B) : ends o -> (forall x, o = Ret x -> ends (f x)) -> ends (o ≫= f).
Proof. intros Ho Hf. destruct o; [by apply Hf | done | done]. Qed.
Lemma ends_ret {A : Type} (x : A) : ends (Ret x).
Proof. done. Qed.
Lemma ends_panic {A : Type} : ends (@Panic A).
Proof. done. Qed.
Lemma ends_or_panic {A : Type} (o : option A) : ends (or_panic o).
Proof. by destruct o. Qed.
Create HintDb ends.
#[export] Hint Resolve @ends_ret @ends_panic @ends_or_panic : ends.
(** Through binds and branches. *)
Ltac ends_step := first [apply ends_bind; [|intros ? _] | case_match | progress eauto with ends].

Section ends.
Context `{!ElfArch} (elf : Z -> Z) (file_size : Z).

Lemma dyn_loop_ends : forall n off d, ends (dyn_loop n elf off d).
Proof. induction n as [|n IH]; intros off d; cbn [dyn_loop]; [done |]. unfold dyn_entry. destruct d. repeat ends_step. Qed.
Lemma relr_count_ends : forall l c, ends (relr_count l c).
Proof. induction l as [|e l IH]; intros c; cbn [relr_count]; [done |]. unfold elf64_add_relocation_count. repeat ends_step. Qed.
Hint Resolve dyn_loop_ends relr_count_ends : ends.
Lemma read_relocs_ends : ends (read_relocs elf file_size).
Proof. unfold read_relocs, read_dynamic, translate, elf64_add_relocation_count. repeat ends_step. Qed.
Lemma apply_relocs_ends t b v n slide : forall l m, ends (apply_relocs elf t l b v n slide m).
Proof. induction l as [|r l IH]; intros m; cbn [apply_relocs]; [done |]. unfold reloc_word, symbol_value. repeat ends_step. Qed.
Hint Resolve read_relocs_ends apply_relocs_ends : ends.
Lemma apply_relocations_ends b v n slide m : ends (elf64_apply_relocations elf file_size b v n slide m).
Proof. unfold elf64_apply_relocations. repeat ends_step. Qed.
Lemma max_align_ends : forall l r, ends (max_align_loop l r).
Proof. induction l as [|p l IH]; intros r; cbn [max_align_loop]; [done |]. repeat ends_step. Qed.
Lemma ranges_ends slide : forall l, ends (ranges_loop l slide).
Proof. induction l as [|p l IH]; cbn [ranges_loop]; [done |]. cbv zeta. repeat ends_step. Qed.
Lemma overlap_ends i p e b : forall l j, ends (overlap_loop l j i p e b).
Proof. induction l as [|q l IH]; intros j; cbn [overlap_loop]; [done |]. cbv zeta. repeat ends_step. Qed.
Hint Resolve apply_relocations_ends max_align_ends ranges_ends overlap_ends : ends.
Lemma span_ends all b : forall l i s, ends (span_loop all l i b s).
Proof. induction l as [|p l IH]; intros i s; cbn [span_loop]; [done |]. cbv zeta. repeat ends_step. Qed.
Lemma random_slide_ends {R : Type} (rand32 : R -> Z * R) a b c d : forall n g, ends (random_slide rand32 n g a b c d).
Proof. induction n as [|n IH]; intros g; cbn [random_slide]; [done |]. repeat ends_step. Qed.
Lemma load_ends pb lo hi slide : forall l m bss, ends (load_loop elf file_size l pb lo hi slide m bss).
Proof. induction l as [|p l IH]; intros m bss; cbn [load_loop]; [done |]. cbv zeta. repeat ends_step. Qed.
End ends.

(** * What is written *)

(** Fields are not negative. *)
Definition unsigned (p : elf_phdr) : Prop := 0 <= p.(p_vaddr) /\ 0 <= p.(p_memsz) /\ 0 <= p.(p_filesz) /\ 0 <= p.(p_align).
Lemma phdrs_unsigned elf : (forall x, is_byte (elf x)) -> Forall unsigned (phdrs64 elf).
Proof.
  intros Hb. assert (forall a n, 0 <= num elf a n) as Hn.
  { intros a n. apply of_le_range. unfold load_bytes. apply Forall_fmap, Forall_forall. intros x _. apply Hb. }
  apply Forall_fmap, Forall_forall. intros i _. cbv [compose]. repeat split; apply Hn.
Qed.

(** A step of an inversion: the result of a bind, or the branch that was taken. *)
Ltac inv_step H := match type of H with
  | (if ?b then _ else _) = _ => destruct b eqn:?; try discriminate H
  | (or_panic ?o ≫= _) = _ => destruct o eqn:?; cbn [or_panic mbind outcome_bind] in H; try discriminate H
  | (?o ≫= _) = _ => destruct o eqn:?; cbn [mbind outcome_bind] in H; try discriminate H
  end.

Lemma span_loop_inv all b : forall l i s s', span_loop all l i b s = Ret s' ->
  s'.(min_vaddr) <= s.(min_vaddr) /\ s.(max_vaddr) <= s'.(max_vaddr) /\ loads (fun p => s'.(min_vaddr) <= p.(p_vaddr) /\ seg_end p <= s'.(max_vaddr) /\ seg_end p < 2 ^ 64) l.
Proof.
  induction l as [|p l IH]; intros i s s' E; cbn [span_loop] in E; [injection E as <-; repeat split; [lia | lia | constructor] |]. cbv zeta in E.
  destruct (is_load p) eqn:Hl; cbn [negb] in E.
  - do 4 (inv_step E). apply IH in E as (H1 & H2 & H3). cbn in H1, H2. rewrite Z.gtb_ltb in H2. apply CHECKED_ADD_Some in Heqo as [-> Hlt]. fold (seg_end p) in *.
    destruct (Z.ltb_spec (p_vaddr p) (min_vaddr s)), (Z.ltb_spec (max_vaddr s) (seg_end p)); (split; [lia |]; split; [lia |]; apply Forall_cons; split; [intros _; lia | done]).
  - apply IH in E as (H1 & H2 & H3). split; [done |]. split; [done |]. apply Forall_cons. split; [congruence | done].
Qed.
Lemma max_align_inv : forall l r a, max_align_loop l r = Ret a -> r <= a /\ (r < a -> exists p, p ∈ l /\ is_load p = true).
Proof.
  induction l as [|p l IH]; intros r a E; cbn [max_align_loop] in E; [injection E as <-; split; lia |]. destruct (is_load p) eqn:Hl; cbn [negb] in E.
  - inv_step E. apply IH in E as [H1 _]. rewrite Z.gtb_ltb in H1. split; [destruct (Z.ltb_spec r (p_align p)); lia |]. intros _. exists p. split; [by left | done].
  - apply IH in E as [H1 H2]. split; [done |]. intros Hlt. destruct (H2 Hlt) as (q & Hq & ?). exists q. split; [by right | done].
Qed.

Section frame.
Context `{!ElfArch} (elf : Z -> Z) (file_size : Z).

Lemma apply_relocs_frame t b v n slide x : 0 <= v -> 0 <= n -> v + n < 2 ^ 64 -> ~ (b <= x < b + n) -> forall l m m', apply_relocs elf t l b v n slide m = Ret m' -> m' x = m x.
Proof.
  intros Hv Hn Hlt Hx. induction l as [|r l IH]; intros m m' E; cbn [apply_relocs] in E; [by injection E as <- |].
  destruct (reloc_in v n r) eqn:Hin; cbn [negb] in E; [|by apply IH]. cbv zeta in E. inv_step E. apply IH in E as ->. case_if; [done |].
  apply reloc_in_spec in Hin; [|lia..]. unfold store64. case_if; [lia | done].
Qed.
Lemma load_loop_frame pb lo hi slide x : 0 <= pb -> pb + (hi - lo) <= 2 ^ 32 -> ~ (pb <= x < pb + (hi - lo)) ->
  forall l m bss m' bss', Forall unsigned l -> loads (fun p => lo <= p.(p_vaddr) /\ seg_end p <= hi /\ seg_end p < 2 ^ 64) l -> load_loop elf file_size l pb lo hi slide m bss = Ret (m', bss') -> m' x = m x.
Proof.
  intros Hpb Htop Hx. induction l as [|p l IH]; intros m bss m' bss' HU HL E; cbn [load_loop] in E; [by injection E as <- <- |]. apply Forall_cons in HU as [(Hv & Hm & Hf & _) HU]. apply Forall_cons in HL as [Hp HL].
  destruct (is_load p) eqn:Hl; cbn [negb] in E; [|by eapply IH]. destruct (Hp eq_refl) as (Hlo & Hhi & Hlt). unfold seg_end in *. cbv zeta in E. do 4 (inv_step E).
  match type of E with match ?o with _ => _ end = _ => destruct o as [m1|]; [|discriminate E] end. rewrite (IH _ _ _ _ HU HL E). match goal with H : elf64_apply_relocations _ _ _ _ _ _ _ = _ |- _ => rename H into Ha end. rewrite u64_small in Ha by lia. unfold elf64_apply_relocations in Ha. inv_step Ha.
  match type of Ha with match ?o with _ => _ end = _ => destruct o as [t|]; [|discriminate Ha] end. inv_step Ha. injection Ha as ->.
  match goal with H : apply_relocs _ _ _ _ _ _ _ _ = Ret _ |- _ => apply (apply_relocs_frame _ _ _ _ _ x) in H; [|lia..] end. 
  etransitivity; [eassumption |]. unfold copy_in. case_if; [lia | done].
Qed.
End frame.

(** C18: whatever bytes a file holds, [elf64_load] returns or stops with a message; if it returns,
    every byte of memory it has changed was usable before, the image it reports is there, and the
    memory map is well-formed. *)
Theorem elf64_load_safe `{!ElfArch} {R : Type} (rand32 : R -> Z * R) elf file_size alloc_type kaslr i386 st rng :
  (forall x, is_byte (elf x)) -> wf udisj st ->
  match elf64_load rand32 elf file_size alloc_type kaslr i386 st rng with
  | Ret (res, st', _) =>
      wf udisj st' /\ (forall x, st'.(Pmm.ram) x <> st.(Pmm.ram) x -> has st.(Pmm.memmap) Pmm.MEMMAP_USABLE x) /\
      (forall x, res.(physical_base) <= x < res.(physical_base) + res.(image_size) -> has st.(Pmm.memmap) Pmm.MEMMAP_USABLE x)
  | Panic => True
  | Diverge => False
  end.
Proof.
  intros Hb Hwf. pose proof (phdrs_unsigned elf Hb) as HU. unfold elf64_load. cbv zeta.
  destruct (elf64_validate _) as [u| |] eqn:Ev; cbn [mbind outcome_bind]; [|done|unfold elf64_validate in Ev; repeat case_match; discriminate Ev]. do 2 (case_if; [done |]).
  destruct (CHECKED_MUL _ _) as [sz|]; cbn [or_panic mbind outcome_bind]; [|done]. destruct (CHECKED_ADD _ _) as [e|]; cbn [or_panic mbind outcome_bind]; [|done]. case_if; [done |].
  destruct (elf64_is_relocatable elf) as [reloc| |] eqn:Er; cbn [mbind outcome_bind]; [|done|unfold elf64_is_relocatable in Er; repeat case_match; discriminate Er].
  destruct (elf64_max_align elf) as [al| |] eqn:Ea; cbn [mbind outcome_bind]; [|done|].
  2: { unfold elf64_max_align in Ea. case_if; [done |]. pose proof (max_align_ends (phdrs64 elf) 0) as He. destruct (max_align_loop _ _); cbn [mbind outcome_bind] in Ea; [|done|done]. case_if; done. }
  unfold elf64_max_align in Ea. inv_step Ea. inv_step Ea. inv_step Ea. injection Ea as ->. apply max_align_inv in Heqo as [Hal0 Hex]. assert (0 < al) as Hal by lia. destruct (Hex Hal) as (p & Hp & Hlp).
  pose proof (span_ends (phdrs64 elf) reloc (phdrs64 elf) 0 {| lower_to_higher := false; min_vaddr := UINT64_MAX; max_vaddr := 0 |}) as Hse.
  destruct (span_loop _ _ _ _ _) as [s| |] eqn:Es; cbn [mbind outcome_bind]; [|done|done]. apply span_loop_inv in Es as (_ & _ & Hspan). case_if; [done |].
  pose proof (proj1 (Forall_forall _ _) Hspan p Hp Hlp) as (Hp1 & Hp2 & _). pose proof (proj1 (Forall_forall _ _) HU p Hp) as (_ & Hpm & _). pose proof (load_memsz p Hlp Hpm) as Hpos. unfold seg_end in Hp2.
  pose proof (ext_mem_alloc_lemma udisj i386 st (max_vaddr s - min_vaddr s) alloc_type al false Hwf Hal ltac:(lia)) as Ha. unfold Pmm.ext_mem_alloc_type_aligned.
  destruct (Pmm.ext_mem_alloc_type_aligned_mode _ _ _ _ _ _) as [[pb st1]| |]; cbn [mbind outcome_bind]; [|done|done].
  destruct Ha as (top & _ & Hpb & Htop & _ & Hlow & Hin & Hall & _ & Hram). specialize (Hlow eq_refl). rewrite andb_false_r in Hram. pose proof (align_up_spec (max_vaddr s - min_vaddr s) al Hal ltac:(lia)) as Hup.
  match goal with |- context [if reloc && kaslr then ?a else ?b] => assert (ends (if reloc && kaslr then a else b)) as Hsl by (case_if; [apply random_slide_ends | done]); destruct (if reloc && kaslr then a else b) as [[slide rng']| |] end; cbn [mbind outcome_bind]; [|done|done].
  match goal with |- context [load_loop ?a ?b ?c ?d ?e ?f ?g ?h ?i] => pose proof (load_ends a b d e f g c h i) as Hle; destruct (load_loop a b c d e f g h i) as [[m bss]| |] eqn:El end; cbn [mbind outcome_bind]; [|done|done].
  destruct (elf64_get_ranges elf slide) as [rs| |] eqn:Eg; cbn [mbind outcome_bind]; [|done|].
  2: { unfold elf64_get_ranges in Eg. case_if; [done |]. destruct (elf64_is_relocatable elf) as [b| |]; cbn [mbind outcome_bind] in Eg; [|done|done]. cbv zeta in Eg. case_if; [done |]. by apply ranges_ends in Eg. }
  cbn. split; [exact (al_wf _ _ _ _ _ _ Hall) |].
  assert (forall x, pb <= x < pb + align_up (max_vaddr s - min_vaddr s) al -> has st.(Pmm.memmap) Pmm.MEMMAP_USABLE x) as Hus by (intros x Hx; eapply inside_has; [exact Hin | unfold in_range; lia]).
  split; [|intros x Hx; apply Hus; lia]. intros x Hne. apply Hus. apply dec_stable. intros Hx. apply Hne.
  rewrite (load_loop_frame elf file_size pb (min_vaddr s) (max_vaddr s) slide x Hpb ltac:(lia) ltac:(lia) (phdrs64 elf) _ 0 m bss HU Hspan El), Hram. unfold mem_fill. case_if; [lia | done].
Qed.

(** The example on a PC with 16 MiB. *)
Lemma elf64_load_safe_witness :
  match @elf64_load x86_64 Z (fun g => (u32 g, g)) Example.file 272 Pmm.MEMMAP_KERNEL_AND_MODULES true true PmmCorrect.pc 7 with
  | Ret (res, st', _) => forall x, st'.(Pmm.ram) x <> PmmCorrect.pc.(Pmm.ram) x -> has PmmCorrect.pc.(Pmm.memmap) Pmm.MEMMAP_USABLE x
  | Panic => True
  | Diverge => False
  end.
Proof.
  assert (forall x, is_byte (Example.file x)) as Hb.
  { intros x. unfold Example.file. destruct (Example.bytes_of !! Z.to_nat x) as [b|] eqn:E; [|cbn; split; lia]. cbn.
    assert (Forall is_byte Example.bytes_of) as HF; [|exact (Forall_lookup_1 _ _ _ _ HF E)]. apply Forall_forall. intros y Hy.
    assert (forallb (fun y => (0 <=? y) && (y <? 256)) Example.bytes_of = true) as Hf by (vm_compute; reflexivity). rewrite forallb_forall in Hf. apply list_elem_of_In, Hf in Hy. unfold is_byte. lia. }
  pose proof (@elf64_load_safe x86_64 Z (fun g => (u32 g, g)) Example.file 272 Pmm.MEMMAP_KERNEL_AND_MODULES true true PmmCorrect.pc 7 Hb pc_wf) as H.
  destruct (elf64_load _ _ _ _ _ _ _ _) as [[[res st'] g]| |]; [apply H | exact I | exact H].
Defined.

(** * A table that is not in the file *)

(** A dynamic segment that gives the size of the relocations, but not where they are: they are read
    from the start of the file on, and here from behind its 232 bytes. *)
Definition no_rela : list Z := Eval vm_compute in
  [127; 69; 76; 70; 2; 1; 1; 0] ++ replicate 8 0 ++ le_bytes 2 3 ++ le_bytes 2 0x3e ++ le_bytes 4 1 ++ le_bytes 8 0x7777 ++ le_bytes 8 64 ++ le_bytes 8 0
    ++ le_bytes 4 0 ++ le_bytes 2 64 ++ le_bytes 2 56 ++ le_bytes 2 2 ++ le_bytes 2 64 ++ le_bytes 2 0 ++ le_bytes 2 0
    ++ le_bytes 4 1 ++ le_bytes 4 7 ++ le_bytes 8 0 ++ le_bytes 8 0 ++ le_bytes 8 0 ++ le_bytes 8 232 ++ le_bytes 8 232 ++ le_bytes 8 0x1000
    ++ le_bytes 4 2 ++ le_bytes 4 6 ++ le_bytes 8 184 ++ le_bytes 8 184 ++ le_bytes 8 0x1000000 ++ le_bytes 8 48 ++ le_bytes 8 48 ++ le_bytes 8 0x100000
    ++ replicate 8 0 ++ le_bytes 8 9 ++ le_bytes 8 24 ++ le_bytes 8 8 ++ le_bytes 8 264 ++ le_bytes 8 0 ++ le_bytes 8 0.
(** The file with [l] behind it in memory. *)
Definition followed_by (l : list Z) : Z -> Z := fun x => default 0 ((no_rela ++ l) !! Z.to_nat x).
Definition load_it (l : list Z) := @elf64_load x86_64 unit (fun g => (0, g)) (followed_by l) 232 Pmm.MEMMAP_KERNEL_AND_MODULES false true PmmCorrect.pc tt.

(** Whether the file loads depends on what is behind it. *)
Lemma elf_reads_past_end :
  zlen no_rela = 232 /\ (exists r, load_it [] = Ret r) /\ load_it (replicate 16 0 ++ le_bytes 4 1 ++ replicate 12 0) = Panic.
Proof.
  split; [done |]. split.
  - assert (match load_it [] with Ret _ => true | _ => false end = true) as H by (vm_compute; reflexivity). destruct (load_it []) as [r| |]; [by exists r | discriminate H..].
  - vm_compute. reflexivity.
Qed.
