(* ===== verification/ElfElsewhere.v ===== *)
(** Kernels that are put in place when the boot loader is done: loading them elsewhere, and the
    further ranges. *)

From S2P Require Import Prelude Libc LibcCorrect Guid Pmm PmmMap PmmSanitise PmmAlloc PmmOps PmmCorrect Vmm VmmWalk Elf ElfRelocs ElfCorrect.
Import Elf.

(** * Further ranges *)

Lemma overlap_apart a n b k : 0 <= n -> 0 <= k -> elsewhere_overlap_check a (a + n) b (b + k) = false -> n = 0 \/ k = 0 \/ apart a n b k.
Proof. unfold elsewhere_overlap_check, apart. intros. lia. Qed.


Lemma align_page x : 0 <= x -> match ALIGN_UP x 4096 with Some y => 0 <= y | None => True end.
Proof.
  intros Hx. pose proof (ALIGN_UP_spec x 4096 ltac:(lia) Hx) as Ha. destruct (ALIGN_UP x 4096); [|done]. destruct Ha as [-> _].
  unfold align_up, ALIGN_DOWN. apply Z.mul_nonneg_nonneg; [|lia]. apply Z.div_pos; lia.
Qed.

(** A range whose sums do not overflow. *)
Definition range_ok (r : elsewhere_range) : Prop :=
  0 <= r.(el_target) /\ 0 <= r.(el_elsewhere) /\ 0 <= r.(el_length) /\ r.(el_target) + r.(el_length) < 2 ^ 64 /\ r.(el_elsewhere) + r.(el_length) < 2 ^ 64.
(** The [len] bytes at [t] are away from a range's place and from its contents. *)
Definition clear_of (t len : Z) (r : elsewhere_range) : Prop :=
  r.(el_length) = 0 \/ (apart r.(el_target) r.(el_length) t len /\ apart r.(el_elsewhere) r.(el_length) t len).
(** Memory of one of the two types that can be written once the boot loader is done. *)
Definition reclaimable (st : Pmm.state) (t len : Z) : Prop :=
  inside st.(Pmm.memmap) Pmm.MEMMAP_USABLE t (t + len) \/ inside st.(Pmm.memmap) Pmm.MEMMAP_BOOTLOADER_RECLAIMABLE t (t + len).

Lemma simulated st base len ty overlay : Forall fits st.(Pmm.memmap) -> 0 < len -> base + len < 2 ^ 64 ->
  exists ok, Pmm.memmap_alloc_range st base len ty overlay false true false = Ret (ok, st) /\ (ok = true -> inside st.(Pmm.memmap) overlay base (base + len)).
Proof.
  intros Hf Hl Hlt. unfold Pmm.memmap_alloc_range, Pmm.memmap_alloc_range_in. rewrite (proj2 (Z.eqb_neq len 0)) by lia. cbn [andb].
  rewrite CHECKED_ADD_small by done. destruct (existsb _ _) eqn:E; cbn; rewrite set_memmap_id; eexists; (split; [done |]); [|done].
  intros _. by apply range_fits_inside.
Qed.
Lemma append_pass_spec st t len : Forall fits st.(Pmm.memmap) -> 0 <= t -> 0 < len -> forall l, Forall range_ok l ->
  match append_pass l t len st with
  | Ret (Fits st') => st' = st /\ Forall (clear_of t len) l /\ (l <> [] -> t + len <= 2 ^ 32 /\ reclaimable st t len)
  | Ret (Retry t' st') => st' = st /\ 0 <= t'
  | Ret (Fails st') => st' = st
  | _ => False
  end.
Proof.
  intros Hf Ht Hlen. induction 1 as [|r l Hr HF IH]; cbn [append_pass]; [by split |]. destruct Hr as (H1 & H2 & H3 & H4 & H5).
  destruct (CHECKED_ADD t len) as [top|] eqn:E; [|done]. apply CHECKED_ADD_Some in E as [-> Hlt]. destruct (Z.gtb_spec (t + len) 0x100000000) as [|Hle]; [done |].
  rewrite (CHECKED_ADD_small r.(el_target)), (CHECKED_ADD_small r.(el_elsewhere)) by done.
  assert (forall x, 0 <= x -> match (match ALIGN_UP x 4096 with Some t' => Retry t' st | None => Fails st end) with
    | Fits st' => st' = st /\ Forall (clear_of t len) (r :: l) /\ (r :: l <> [] -> t + len <= 2 ^ 32 /\ reclaimable st t len)
    | Retry t' st' => st' = st /\ 0 <= t' | Fails st' => st' = st end) as Hup.
  { intros x Hx. pose proof (align_page x Hx) as Ha. by destruct (ALIGN_UP x 4096). }
  destruct (elsewhere_overlap_check r.(el_target) _ _ _) eqn:E1; [apply Hup; lia |].
  destruct (elsewhere_overlap_check r.(el_elsewhere) _ _ _) eqn:E2; [apply Hup; lia |].
  destruct (simulated st t len Pmm.MEMMAP_BOOTLOADER_RECLAIMABLE Pmm.MEMMAP_USABLE Hf Hlen Hlt) as (ok & -> & Hok). cbn [mbind outcome_bind].
  destruct (simulated st t len Pmm.MEMMAP_BOOTLOADER_RECLAIMABLE Pmm.MEMMAP_BOOTLOADER_RECLAIMABLE Hf Hlen Hlt) as (ok' & Hr' & Hok').
  assert (clear_of t len r) as Hc.
  { apply overlap_apart in E1; [|lia..]. apply overlap_apart in E2; [|lia..]. unfold clear_of. destruct E1 as [|[|]]; [by left | lia |]. destruct E2 as [|[|]]; [by left | lia | by right]. }
  assert (reclaimable st t len -> match append_pass l t len st with
    | Ret (Fits st') => st' = st /\ Forall (clear_of t len) (r :: l) /\ (r :: l <> [] -> t + len <= 2 ^ 32 /\ reclaimable st t len)
    | Ret (Retry t' st') => st' = st /\ 0 <= t' | Ret (Fails st') => st' = st | _ => False end) as Hgo.
  { intros Hrec. destruct (append_pass l t len st) as [[]| |]; [|done..]. destruct IH as (-> & HF' & _). split; [done |]. split; [by constructor | intros _; split; [lia | done]]. }
  destruct ok; cbn [mbind outcome_bind]; [apply Hgo; left; auto |]. rewrite Hr'. cbn [mbind outcome_bind]. destruct ok'; [apply Hgo; right; auto |].
  split; [done |]. unfold u64, wrap. apply Z.mod_pos_bound. lia.
Qed.

(** With at least one range before it, a range that [elsewhere_append] adds has its place below
    4 GiB, in memory that is usable or the boot loader's, and overlaps neither the place nor the
    contents of another range; the memory map is as before, and the search ends. *)
Theorem elsewhere_append_correct l ranges_max source target len st :
  Forall fits st.(Pmm.memmap) -> Forall range_ok l -> l <> [] -> 0 <= target -> 0 < len ->
  match elsewhere_append l ranges_max source target len st with
  | Ret (Some (l', t), st') =>
      st' = st /\ l' = l ++ [{| el_elsewhere := source; el_target := t; el_length := len |}] /\ t + len <= 2 ^ 32 /\ Forall (clear_of t len) l /\ reclaimable st t len
  | Ret (None, st') => st' = st
  | Panic => ranges_max <= zlen l
  | Diverge => False
  end.
Proof.
  intros Hf Hl Hne Ht Hlen. unfold elsewhere_append.
  assert (forall n t, 0 <= t -> match append_loop n l t len st with
    | Ret (Some t', st') => st' = st /\ t' + len <= 2 ^ 32 /\ Forall (clear_of t' len) l /\ reclaimable st t' len
    | Ret (None, st') => st' = st | _ => False end) as Hloop.
  { induction n as [|n IH]; intros t Ht'; cbn [append_loop]; [done |]. pose proof (append_pass_spec st t len Hf Ht' Hlen l Hl) as H.
    destruct (append_pass l t len st) as [[st1|t1 st1|st1]| |]; [| | |done..]; cbn [mbind outcome_bind]; [|destruct H as [-> H1]; by apply IH | exact H].
    destruct H as (-> & HF & H). destruct (H Hne). done. }
  assert (match (if target =? UINT64_MAX then ALIGN_UP (ranges_top l 0) 4096 else Some target) with Some t => 0 <= t | None => True end) as Ht0.
  { destruct (Z.eqb_spec target UINT64_MAX) as [_|]; [|done]. assert (forall x, 0 <= x -> 0 <= ranges_top l x) as Htop.
    { clear -Hl. induction Hl as [|r l Hr HF IH]; intros x Hx; cbn [ranges_top]; [done |]. destruct (CHECKED_ADD _ _) as [y|] eqn:E; [|by apply IH]. apply CHECKED_ADD_Some in E as [-> _]. apply IH. case_if; [|done]. lia. }
    apply align_page. apply Htop. lia. }
  destruct (if target =? UINT64_MAX then _ else _) as [t|]; [|done]. specialize (Hloop (Z.to_nat 0x10000) t Ht0).
  destruct (append_loop _ _ _ _ _) as [[[t'|] st']| |]; [| |done..]; cbn [mbind outcome_bind]; [|done]. destruct Hloop as (-> & H1 & H2 & H3).
  destruct (Z.geb_spec (zlen l) ranges_max); [lia |]. done.
Qed.


(** * Loading elsewhere *)

(** Where the entry point is in the image: moved with the first segment that holds it. *)
Fixpoint moved_entry (add : Z -> Z -> option Z) (l : list elf_phdr) (e : Z) : Z :=
  match l with
  | [] => e
  | p :: l =>
      if is_load p && (e >=? p.(p_vaddr)) && match add p.(p_vaddr) p.(p_memsz) with Some t => e <? t | None => false end
      then u64 (e - p.(p_vaddr) + p.(p_paddr)) else moved_entry add l e
  end.
Definition p_end (p : elf_phdr) : Z := p.(p_paddr) + p.(p_memsz).
(** A segment for the physical addresses. *)
Record pseg_ok (file_size : Z) (p : elf_phdr) : Prop := {
  ps_paddr : 0 <= p.(p_paddr);
  ps_filesz : 0 <= p.(p_filesz) <= p.(p_memsz);
  ps_end : p_end p < 2 ^ 64;
  ps_offset : p.(p_offset) + p.(p_filesz) <= file_size }.

Section elsewhere.
Context `{!ElfArch} (elf : Z -> Z) (file_size : Z).
Hypothesis Hsize : file_size < 2 ^ 64.

Lemma copy_loop_spec add el lo : forall l e adj m, loads (pseg_ok file_size) l -> pairwise (fun p q => apart p.(p_paddr) p.(p_memsz) q.(p_paddr) q.(p_memsz)) l ->
  exists m', copy_loop add elf file_size l el lo e adj m = Ret (if adj then e else moved_entry add l e, m') /\
    loads (fun p => forall a, p.(p_paddr) <= a < p_end p -> m' (el + (a - lo)) = if a <? p.(p_paddr) + p.(p_filesz) then elf (p.(p_offset) + (a - p.(p_paddr))) else m (el + (a - lo))) l /\
    forall a, loads (fun p => ~ (p.(p_paddr) <= a < p_end p)) l -> m' (el + (a - lo)) = m (el + (a - lo)).
Proof.
  induction l as [|p l IH]; intros e adj m HF Hap; cbn [copy_loop moved_entry]; [exists m; split; [by destruct adj | split; [constructor | done]] |].
  apply Forall_cons in HF as [Hp HF]. assert (pairwise (fun p q => apart p.(p_paddr) p.(p_memsz) q.(p_paddr) q.(p_memsz)) l) as Hap'.
  { intros i j a b Hi Hj Hne. apply (Hap (S i) (S j)); [done | done | lia]. }
  destruct (is_load p) eqn:Hl; cbn [negb andb].
  2: { destruct (IH e adj m HF Hap') as (m' & -> & H1 & H2). exists m'. split; [done |]. split; [apply Forall_cons; split; [congruence | done] |]. intros a [_ Ha]%Forall_cons. by apply H2. }
  destruct (Hp eq_refl) as [Hpa Hf He Ho]. rewrite Z.gtb_ltb, (proj2 (Z.ltb_ge _ _)) by lia. rewrite CHECKED_ADD_small by lia. cbn [or_panic mbind outcome_bind]. rewrite Z.gtb_ltb, (proj2 (Z.ltb_ge _ _)) by lia. cbv zeta.
  set (m1 := copy_in elf m _ _ _). set (here := (e >=? p_vaddr p) && _). rewrite <- andb_assoc. fold here.
  assert (exists m', (if negb adj && here then copy_loop add elf file_size l el lo (u64 (e - p_vaddr p + p_paddr p)) true m1 else copy_loop add elf file_size l el lo e adj m1) =
      Ret (if adj then e else if here then u64 (e - p_vaddr p + p_paddr p) else moved_entry add l e, m') /\
    loads (fun p => forall a, p.(p_paddr) <= a < p_end p -> m' (el + (a - lo)) = if a <? p.(p_paddr) + p.(p_filesz) then elf (p.(p_offset) + (a - p.(p_paddr))) else m1 (el + (a - lo))) l /\
    forall a, loads (fun p => ~ (p.(p_paddr) <= a < p_end p)) l -> m' (el + (a - lo)) = m1 (el + (a - lo))) as (m' & -> & H1 & H2).
  { destruct adj; cbn [negb andb]; [exact (IH e true m1 HF Hap') |]. destruct here; [exact (IH (u64 (e - p_vaddr p + p_paddr p)) true m1 HF Hap') | exact (IH e false m1 HF Hap')]. }
  assert (forall a, m1 (el + (a - lo)) = if (p.(p_paddr) <=? a) && (a <? p.(p_paddr) + p.(p_filesz)) then elf (p.(p_offset) + (a - p.(p_paddr))) else m (el + (a - lo))) as Hm1.
  { intros a. unfold m1, copy_in. destruct ((p_paddr p <=? a) && (a <? p_paddr p + p_filesz p)) eqn:E; case_if; try lia; try done; f_equal; lia. }
  assert (Forall (fun q => is_load q = true -> apart p.(p_paddr) p.(p_memsz) q.(p_paddr) q.(p_memsz)) l) as Haq.
  { apply Forall_forall. intros q Hq Hlq. apply list_elem_of_lookup in Hq as [j Hj]. by apply (Hap 0%nat (S j) p q). }
  exists m'. split; [done |]. split; [apply Forall_cons; split |].
  - intros _ a Ha. rewrite H2, Hm1.
    + rewrite (proj2 (Z.leb_le _ _)) by lia. done.
    + eapply Forall_impl; [exact Haq |]. intros q Hq Hlq. specialize (Hq Hlq). unfold apart, p_end in *. lia.
  - eapply Forall_impl; [exact (proj2 (Forall_and _ _) (conj Haq (proj2 (Forall_and _ _) (conj HF H1)))) |]. intros q (Hq & Hqok & Hq1) Hlq a Ha. rewrite (Hq1 Hlq a Ha). case_if; [done |]. rewrite Hm1.
    specialize (Hq Hlq). destruct (Hqok Hlq) as [_ Hqf _ _]. unfold apart, p_end in *. case_if; [lia | done].
  - intros a [Ha HF']%Forall_cons. rewrite H2 by done. rewrite Hm1. specialize (Ha Hl). unfold p_end in *. case_if; [lia | done].
Qed.

Lemma paddr_loop_spec : forall l lo hi b, loads (pseg_ok file_size) l -> exists lo' hi', paddr_loop l lo hi b = Ret (lo', hi', b || existsb is_load l) /\ lo' <= lo /\ hi <= hi' /\
  loads (fun p => lo' <= p.(p_paddr) /\ p_end p <= hi') l /\ (lo' = lo \/ exists p, p ∈ l /\ is_load p = true /\ p.(p_paddr) = lo') /\ (hi' = hi \/ exists p, p ∈ l /\ is_load p = true /\ p_end p = hi').
Proof.
  induction l as [|p l IH]; intros lo hi b HF; cbn [paddr_loop existsb]; [exists lo, hi; rewrite orb_false_r; split_and!; [done | lia | lia | constructor | by left | by left] |].
  apply Forall_cons in HF as [Hp HF]. destruct (is_load p) eqn:Hl; cbn [negb orb].
  - destruct (Hp eq_refl) as [_ _ He _]. unfold p_end in He. rewrite CHECKED_ADD_small by done. cbn [or_panic mbind outcome_bind]. fold (p_end p). cbv zeta.
    destruct (IH (if p_paddr p <? lo then p_paddr p else lo) (if p_end p >? hi then p_end p else hi) true HF) as (lo' & hi' & -> & H1 & H2 & H3 & H4 & H5). exists lo', hi'. rewrite Z.gtb_ltb in *.
    split; [by rewrite orb_true_r |]. destruct (Z.ltb_spec (p_paddr p) lo), (Z.ltb_spec hi (p_end p)); (split; [lia |]); (split; [lia |]); (split; [apply Forall_cons; split; [intros _; lia | done] |]); split;
      try (destruct H4 as [->|(q & Hq & ?)]; [first [by left | right; exists p; split; [by left | done]] | right; exists q; split; [by right | done]]);
      destruct H5 as [->|(q & Hq & ?)]; first [by left | right; exists p; split; [by left | done] | right; exists q; split; [by right | done]].
  - destruct (IH lo hi b HF) as (lo' & hi' & -> & H1 & H2 & H3 & H4 & H5). exists lo', hi'. split_and!; try done.
    + apply Forall_cons. split; [congruence | done].
    + destruct H4 as [->|(q & Hq & ?)]; [by left | right; exists q; split; [by right | done]].
    + destruct H5 as [->|(q & Hq & ?)]; [by left | right; exists q; split; [by right | done]].
Qed.
End elsewhere.

(** Two blocks from the allocator: the second leaves the first one zero. *)
Lemma two_blocks i386 st n k p st1 q st2 : wf udisj st -> 0 < n -> 0 < k -> Pmm.ext_mem_alloc i386 st n = Ret (p, st1) -> Pmm.ext_mem_alloc i386 st1 k = Ret (q, st2) ->
  0 <= p /\ p + n <= 2 ^ 32 /\ forall x, p <= x < p + n -> st2.(Pmm.ram) x = 0.
Proof.
  intros Hwf Hn Hk E1 E2. unfold Pmm.ext_mem_alloc, Pmm.ext_mem_alloc_type, Pmm.ext_mem_alloc_type_aligned in *.
  pose proof (ext_mem_alloc_lemma udisj i386 st n Pmm.MEMMAP_BOOTLOADER_RECLAIMABLE 4096 false Hwf ltac:(lia) Hn) as H1. rewrite E1 in H1. destruct H1 as (t1 & _ & Hp & Ht1 & _ & Hl1 & _ & [Hwf1 Hr1 _ _ _] & _ & Hm1).
  pose proof (ext_mem_alloc_lemma udisj i386 st1 k Pmm.MEMMAP_BOOTLOADER_RECLAIMABLE 4096 false Hwf1 ltac:(lia) Hk) as H2. rewrite E2 in H2. destruct H2 as (t2 & _ & Hq & Ht2 & _ & _ & Hin2 & _ & _ & Hm2).
  rewrite andb_false_r in Hm1, Hm2. specialize (Hl1 eq_refl). pose proof (align_up_spec n 4096 ltac:(lia) Hn) as Hu1. pose proof (align_up_spec k 4096 ltac:(lia) Hk) as Hu2.
  assert (held st1.(Pmm.memmap) p t1) as Hh by (intros a Ha Hus; apply Hr1 in Hus as [[? _]|[_ Hna]]; [done | by apply Hna]).
  pose proof (held_apart _ _ _ _ _ Hh Hin2 ltac:(lia) ltac:(lia)) as Hap. split; [done |]. split; [lia |]. intros x Hx. rewrite Hm2. unfold mem_fill. case_if; [lia |]. rewrite Hm1. unfold mem_fill. case_if; [done | lia].
Qed.

(** The two classes of files. *)
Definition hdr_of (wide : bool) : (Z -> Z) -> elf_hdr := if wide then elf64_hdr else elf32_hdr.
Definition phdrs_of (wide : bool) : (Z -> Z) -> list elf_phdr := if wide then phdrs64 else phdrs32.
Definition add_of (wide : bool) : Z -> Z -> option Z := if wide then CHECKED_ADD else CHECKED_ADD_32.
Definition load_elsewhere_of `{!ElfArch} (wide : bool) := if wide then elf64_load_elsewhere else elf32_load_elsewhere.

(** An executable whose segments can be loaded at their physical addresses, from [lo] up to [hi]. *)
Record executable `{!ElfArch} (wide : bool) (elf : Z -> Z) (file_size lo hi : Z) : Prop := {
  ex_valid : (if wide then elf64_validate (elf64_hdr elf) else elf32_validate (elf32_hdr elf)) = Ret tt;
  ex_type : (hdr_of wide elf).(type) = ET_EXEC \/ (hdr_of wide elf).(type) = ET_DYN;
  ex_phdr_size : (if wide then 56 else 32) <= (hdr_of wide elf).(phdr_size);
  ex_table : 0 <= (hdr_of wide elf).(ph_num) * (hdr_of wide elf).(phdr_size) <= file_size - (hdr_of wide elf).(phoff) /\ file_size < 2 ^ 64;
  ex_segs : loads (pseg_ok file_size) (phdrs_of wide elf);
  ex_apart : pairwise (fun p q => apart p.(p_paddr) p.(p_memsz) q.(p_paddr) q.(p_memsz)) (phdrs_of wide elf);
  ex_lo : loads (fun p => lo <= p.(p_paddr)) (phdrs_of wide elf) /\ exists p, p ∈ phdrs_of wide elf /\ is_load p = true /\ p.(p_paddr) = lo;
  ex_hi : loads (fun p => p_end p <= hi) (phdrs_of wide elf) /\ exists p, p ∈ phdrs_of wide elf /\ is_load p = true /\ p_end p = hi;
  ex_size : hi - lo <= SIZE_MAX }.

(** An executable of either class, with memory granted for its span and for the range:
    [elf32_load_elsewhere] and [elf64_load_elsewhere] return the range from its first to its last
    physical address, whose contents are the segments at their places, zero where the file has no
    bytes and between them; nothing else is written, and the entry point is moved with the first
    segment that holds it. *)
Theorem load_elsewhere_correct `{!ElfArch} wide elf file_size lo hi i386 st el st1 x st2 :
  executable wide elf file_size lo hi -> wf udisj st -> Pmm.ext_mem_alloc i386 st (hi - lo) = Ret (el, st1) -> Pmm.ext_mem_alloc i386 st1 24 = Ret (x, st2) ->
  exists m, load_elsewhere_of wide elf file_size i386 st =
      Ret (moved_entry (add_of wide) (phdrs_of wide elf) (hdr_of wide elf).(entry), {| el_elsewhere := el; el_target := lo; el_length := hi - lo |}, Pmm.set_ram st2 m) /\
    loads (fun p => forall a, p.(p_paddr) <= a < p_end p -> m (el + (a - lo)) = if a <? p.(p_paddr) + p.(p_filesz) then elf (p.(p_offset) + (a - p.(p_paddr))) else 0) (phdrs_of wide elf) /\
    (forall a, lo <= a < hi -> loads (fun p => ~ (p.(p_paddr) <= a < p_end p)) (phdrs_of wide elf) -> m (el + (a - lo)) = 0) /\
    (forall y, ~ (el <= y < el + (hi - lo)) -> m y = st2.(Pmm.ram) y).
Proof.
  intros K Hwf E1 E2. destruct K as [Kv Kt Kp Kta Ks Ka [Klo (p & Hp & Hlp & Ep)] [Khi (q & Hq & Hlq & Eq)] Ksz]. set (l := phdrs_of wide elf) in *. set (h := hdr_of wide elf) in *.
  pose proof (proj1 (Forall_forall _ _) Ks p Hp Hlp) as [Hp0 Hpf Hpe _]. pose proof (load_memsz p Hlp ltac:(lia)) as Hpm. pose proof (proj1 (Forall_forall _ _) Khi p Hp Hlp) as Hph. cbv beta in Hph. unfold p_end in Hph, Hpe.
  destruct (two_blocks i386 st (hi - lo) 24 el st1 x st2 Hwf ltac:(lia) ltac:(lia) E1 E2) as (Hel & Htop & Hzero).
  destruct (paddr_loop_spec file_size l UINT64_MAX 0 false Ks) as (lo' & hi' & Epl & H1 & H2 & H3 & H4 & H5). pose proof (proj1 (Forall_forall _ _) H3 p Hp Hlp) as [Hp1 _]. pose proof (proj1 (Forall_forall _ _) H3 q Hq Hlq) as [_ Hq2].
  assert (lo' = lo) as -> by (destruct H4 as [->|(p' & Hp' & Hlp' & <-)]; [unfold UINT64_MAX in *; lia |]; pose proof (proj1 (Forall_forall _ _) Klo p' Hp' Hlp') as Hx; cbv beta in Hx; lia).
  assert (hi' = hi) as -> by (destruct H5 as [->|(q' & Hq' & Hlq' & <-)]; [lia |]; pose proof (proj1 (Forall_forall _ _) Khi q' Hq' Hlq') as Hx; cbv beta in Hx; lia).
  assert (existsb is_load l = true) as Hex by (apply existsb_exists; exists p; split; [by apply list_elem_of_In | done]). rewrite Hex in Epl. cbn [orb] in Epl.
  destruct (copy_loop_spec elf file_size ltac:(lia) (add_of wide) el lo l h.(entry) false st2.(Pmm.ram) Ks Ka) as (m & Ec & Hb & Hfr). exists m.
  assert (load_elsewhere (add_of wide) (if wide then 56 else 32) elf file_size h l i386 st = Ret (moved_entry (add_of wide) l h.(entry), {| el_elsewhere := el; el_target := lo; el_length := hi - lo |}, Pmm.set_ram st2 m)) as El.
  { unfold load_elsewhere. assert (negb (type h =? ET_EXEC) && negb (type h =? ET_DYN) = false) as -> by (destruct Kt as [-> | ->]; done). rewrite (proj2 (Z.ltb_ge _ _) Kp).
    assert ((phoff h >? file_size) || (ph_num h * phdr_size h >? file_size - phoff h) = false) as -> by (apply orb_false_iff; lia). rewrite Epl. cbn [mbind outcome_bind negb]. cbv zeta.
    rewrite Z.gtb_ltb, (proj2 (Z.ltb_ge _ _) Ksz). rewrite E1. cbn [mbind outcome_bind]. rewrite E2. cbn [mbind outcome_bind]. rewrite Ec. reflexivity. }
  split; [destruct wide; cbn [load_elsewhere_of]; unfold elf64_load_elsewhere, elf32_load_elsewhere; rewrite Kv; exact El |]. split; [|split].
  - eapply Forall_impl; [exact (proj2 (Forall_and _ _) (conj Hb H3)) |]. intros r [Hr1 Hr2] Hlr a Ha. destruct (Hr2 Hlr). rewrite (Hr1 Hlr a Ha). case_if; [done |]. apply Hzero. lia.
  - intros a Ha Hno. rewrite (Hfr a Hno). apply Hzero. lia.
  - intros y Hy. replace y with (el + ((y - el + lo) - lo)) by lia. apply Hfr. eapply Forall_impl; [exact H3 |]. intros r Hr Hlr. destruct (Hr Hlr). lia.
Qed.

(** * Examples *)

(** The place asked for is taken by the first range, and the one after it by the contents of the
    second. *)
Definition two_ranges : list elsewhere_range :=
  [{| el_elsewhere := 0x400000; el_target := 0x200000; el_length := 0x10000 |}; {| el_elsewhere := 0x210000; el_target := 0x300000; el_length := 0x800 |}].
Lemma elsewhere_append_correct_witness :
  elsewhere_append two_ranges 8 0x500000 0x208000 0x3000 PmmCorrect.pc =
    Ret (Some (two_ranges ++ [{| el_elsewhere := 0x500000; el_target := 0x211000; el_length := 0x3000 |}], 0x211000), PmmCorrect.pc) /\
  Forall (clear_of 0x211000 0x3000) two_ranges.
Proof.
  assert (elsewhere_append two_ranges 8 0x500000 0x208000 0x3000 PmmCorrect.pc =
    Ret (Some (two_ranges ++ [{| el_elsewhere := 0x500000; el_target := 0x211000; el_length := 0x3000 |}], 0x211000), PmmCorrect.pc)) as E by (vm_compute; reflexivity).
  split; [exact E |]. pose proof (elsewhere_append_correct two_ranges 8 0x500000 0x208000 0x3000 PmmCorrect.pc) as H. rewrite E in H. apply H.
  - exact pc_fits.
  - repeat constructor; cbn; lia.
  - discriminate.
  - lia.
  - lia.
Defined.

(** The example's segment at 1 MiB. *)
Lemma load_elsewhere_correct_witness : exists el st m,
  @elf64_load_elsewhere x86_64 Example.file 272 true PmmCorrect.pc = Ret (0x100100, {| el_elsewhere := el; el_target := 0x100000; el_length := 288 |}, Pmm.set_ram st m) /\
  m (el + 1) = 69 /\ m (el + 280) = 0.
Proof.
  assert (match Pmm.ext_mem_alloc true PmmCorrect.pc (0x100120 - 0x100000) with Ret (_, st1) => match Pmm.ext_mem_alloc true st1 24 with Ret _ => true | _ => false end | _ => false end = true) as Ho by (vm_compute; reflexivity).
  destruct (Pmm.ext_mem_alloc true PmmCorrect.pc (0x100120 - 0x100000)) as [[el st1]| |] eqn:E1; try discriminate Ho. destruct (Pmm.ext_mem_alloc true st1 24) as [[x st2]| |] eqn:E2; try discriminate Ho.
  destruct (@load_elsewhere_correct x86_64 true Example.file 272 0x100000 0x100120 true PmmCorrect.pc el st1 x st2) as (m & E & Hb & _).
  - split.
    + vm_compute. reflexivity.
    + right. vm_compute. reflexivity.
    + vm_compute. discriminate.
    + vm_compute. split; [split; discriminate | reflexivity].
    + cbn [phdrs_of]. apply Example.one_load. split; unfold p_end; cbn; lia.
    + cbn [phdrs_of]. apply Example.one_pair.
    + cbn [phdrs_of]. split; [apply Example.one_load; vm_compute; discriminate |]. exists Example.text_seg. split; [exact Example.text_in |]. split; reflexivity.
    + cbn [phdrs_of]. split; [apply Example.one_load; vm_compute; discriminate |]. exists Example.text_seg. split; [exact Example.text_in |]. split; reflexivity.
    + vm_compute. discriminate.
  - exact pc_wf.
  - exact E1.
  - exact E2.
  - exists el, st2, m. split.
    + assert (moved_entry (add_of true) (phdrs_of true Example.file) (entry (hdr_of true Example.file)) = 0x100100) as Hm by (vm_compute; reflexivity). rewrite Hm in E. exact E.
    + cbn [phdrs_of] in Hb. pose proof (proj1 (Forall_forall _ _) Hb Example.text_seg Example.text_in eq_refl) as Ht. cbv beta in Ht.
      pose proof (Ht 0x100001 ltac:(unfold p_end; cbn; lia)) as H1. pose proof (Ht 0x100118 ltac:(unfold p_end; cbn; lia)) as H2.
      change (0x100001 - 0x100000) with 1 in H1. change (0x100118 - 0x100000) with 280 in H2. rewrite H1, H2. split; vm_compute; reflexivity.
Defined.
