(* ===== verification/Host.v ===== *)
(** The device of the installer, [host/limine.c]: the one-block cache, reads and writes through it,
    the record of what was overwritten, and its undoing.

    The device is a stream of the host's C library with a position. [fault] says which of the
    operations on it fail, and after how many bytes; a block that is not wholly there is a short
    read. A [long] has 64 bits. [malloc] does not fail; the addresses it returns are numbered, and
    what is released is recorded. Messages are left out. *)

From S2P Require Import Prelude Guid.
Import Guid.

Module Host.

(** * The stream *)

Record stream := { contents : mem; size : Z; pos : Z; ops : nat }.

Inductive cache_status := CACHE_CLEAN | CACHE_DIRTY.
Record uninstall_entry := { data : list Z; loc : Z; count : Z; ptr : Z }.
(** A variable that is not initialised. *)
Definition no_entry : uninstall_entry := {| data := []; loc := 0; count := 0; ptr := 0 |}.
#[export] Instance uninstall_entry_inhabited : Inhabited uninstall_entry := populate no_entry.

(** The variables of the file; [next_ptr] and [frees] are [malloc]'s. *)
Record host := {
  device : stream; cache_state : cache_status; cached_block : Z; cache : list Z; block_size : Z;
  uninstalling : bool; uninstall_data : list uninstall_entry; uninstall_data_i : Z; next_ptr : Z; frees : list Z }.
Definition UNINSTALL_DATA_MAX : Z := 256.

Definition set_device (st : host) (d : stream) : host :=
  {| device := d; cache_state := st.(cache_state); cached_block := st.(cached_block); cache := st.(cache); block_size := st.(block_size);
     uninstalling := st.(uninstalling); uninstall_data := st.(uninstall_data); uninstall_data_i := st.(uninstall_data_i); next_ptr := st.(next_ptr); frees := st.(frees) |}.
Definition set_cache (st : host) (s : cache_status) (block : Z) (l : list Z) : host :=
  {| device := st.(device); cache_state := s; cached_block := block; cache := l; block_size := st.(block_size);
     uninstalling := st.(uninstalling); uninstall_data := st.(uninstall_data); uninstall_data_i := st.(uninstall_data_i); next_ptr := st.(next_ptr); frees := st.(frees) |}.
Definition set_block_size (st : host) (n : Z) : host :=
  {| device := st.(device); cache_state := st.(cache_state); cached_block := st.(cached_block); cache := st.(cache); block_size := n;
     uninstalling := st.(uninstalling); uninstall_data := st.(uninstall_data); uninstall_data_i := st.(uninstall_data_i); next_ptr := st.(next_ptr); frees := st.(frees) |}.
Definition set_data (st : host) (un : bool) (l : list uninstall_entry) (i : Z) : host :=
  {| device := st.(device); cache_state := st.(cache_state); cached_block := st.(cached_block); cache := st.(cache); block_size := st.(block_size);
     uninstalling := un; uninstall_data := l; uninstall_data_i := i; next_ptr := st.(next_ptr); frees := st.(frees) |}.
Definition set_heap (st : host) (next : Z) (fs : list Z) : host :=
  {| device := st.(device); cache_state := st.(cache_state); cached_block := st.(cached_block); cache := st.(cache); block_size := st.(block_size);
     uninstalling := st.(uninstalling); uninstall_data := st.(uninstall_data); uninstall_data_i := st.(uninstall_data_i); next_ptr := next; frees := fs |}.

Definition malloc (st : host) : Z * host := (st.(next_ptr), set_heap st (st.(next_ptr) + 1) st.(frees)).
(** [free(NULL)] does nothing. *)
Definition free (st : host) (p : Z) : host := if p =? 0 then st else set_heap st st.(next_ptr) (st.(frees) ++ [p]).

Section faults.
Context (fault : nat -> option Z).

Definition failing (d : stream) : bool := match fault d.(ops) with None => false | Some _ => true end.
(** [true] is the result 0. A position above [LONG_MAX] is negative for [fseek]. *)
Definition set_pos (st : host) (p : Z) : bool * host :=
  let d := st.(device) in
  if failing d || (p >=? 2 ^ 63) then (false, set_device st {| contents := d.(contents); size := d.(size); pos := d.(pos); ops := S d.(ops) |})
  else (true, set_device st {| contents := d.(contents); size := d.(size); pos := p; ops := S d.(ops) |}).
(** How many of [n] bytes are transferred when [avail] could be. *)
Definition transferred (d : stream) (avail : Z) : Z := match fault d.(ops) with None => avail | Some k => Z.max 0 (Z.min k avail) end.
(** [fread(cache, n, 1, device)]. *)
Definition fread_cache (st : host) (n : Z) : bool * host :=
  let d := st.(device) in
  let k := transferred d (Z.max 0 (Z.min n (d.(size) - d.(pos)))) in
  let st' := set_device st {| contents := d.(contents); size := d.(size); pos := d.(pos) + k; ops := S d.(ops) |} in
  (negb (failing d) && (k =? n), set_cache st' st.(cache_state) st.(cached_block) (load_bytes d.(contents) d.(pos) (Z.to_nat k) ++ drop (Z.to_nat k) st.(cache))).
(** [fwrite(cache, n, 1, device)]. *)
Definition fwrite_cache (st : host) (n : Z) : bool * host :=
  let d := st.(device) in
  let k := transferred d n in
  (negb (failing d), set_device st {| contents := mem_write d.(contents) d.(pos) (take (Z.to_nat k) st.(cache)); size := Z.max d.(size) (d.(pos) + k); pos := d.(pos) + k; ops := S d.(ops) |}).

(** * The cache *)

(** [realloc] keeps what was there; the rest is not read before [fread] has written it. *)
Fixpoint init_loop (guesses : list Z) (st : host) : bool * host :=
  match guesses with
  | [] => (false, st)
  | g :: guesses =>
      let d := st.(device) in
      let st := set_cache st st.(cache_state) st.(cached_block) (take (Z.to_nat g) (st.(cache) ++ replicate (Z.to_nat g) 0)) in
      let st := set_device st {| contents := d.(contents); size := d.(size); pos := 0; ops := d.(ops) |} in
      let '(ok, st) := fread_cache st g in
      if negb ok then init_loop guesses st
      else (true, set_cache (set_block_size st g) CACHE_CLEAN 0 st.(cache))
  end.
Definition device_init (st : host) : bool * host := init_loop [512; 2048; 4096] st.

Definition device_flush_cache (st : host) : bool * host :=
  match st.(cache_state) with
  | CACHE_CLEAN => (true, st)
  | CACHE_DIRTY =>
      let '(ok, st) := set_pos st (u64 (st.(cached_block) * st.(block_size))) in
      if negb ok then (false, st)
      else
        let '(ok, st) := fwrite_cache st st.(block_size) in
        if negb ok then (false, st) else (true, set_cache st CACHE_CLEAN st.(cached_block) st.(cache))
  end.

Definition device_cache_block (st : host) (block : Z) : bool * host :=
  if st.(cached_block) =? block then (true, st)
  else
    let '(ok, st) := match st.(cache_state) with CACHE_DIRTY => device_flush_cache st | CACHE_CLEAN => (true, st) end in
    if negb ok then (false, st)
    else
      let '(ok, st) := set_pos st (u64 (block * st.(block_size))) in
      if negb ok then (false, st)
      else
        let '(ok, st) := fread_cache st st.(block_size) in
        if negb ok then (false, st) else (true, set_cache st st.(cache_state) block st.(cache)).

(** * Reads and writes *)

Definition chunk_at (st : host) (loc count progress : Z) : Z * Z :=
  let chunk := count - progress in
  let offset := u64 (loc + progress) mod st.(block_size) in
  (offset, if chunk >? st.(block_size) - offset then st.(block_size) - offset else chunk).

(** The buffer up to [progress]; [None] is [false]. *)
Fixpoint read_loop (fuel : nat) (st : host) (loc count progress : Z) (buffer : list Z) : outcome (option (list Z) * host) :=
  if negb (progress <? count) then Ret (Some buffer, st)
  else match fuel with
  | O => Diverge
  | S fuel =>
      let '(ok, st) := device_cache_block st (u64 (loc + progress) / st.(block_size)) in
      if negb ok then Ret (None, st)
      else
        let '(offset, chunk) := chunk_at st loc count progress in
        read_loop fuel st loc count (progress + chunk) (buffer ++ slice st.(cache) offset chunk)
  end.
Definition _device_read (st : host) (loc count : Z) : outcome (option (list Z) * host) := read_loop (Z.to_nat count) st loc count 0 [].

(** [memcpy(&cache[offset], buffer + progress, chunk)]. *)
Fixpoint write_loop (fuel : nat) (st : host) (buffer : list Z) (loc count progress : Z) : outcome (bool * host) :=
  if negb (progress <? count) then Ret (true, st)
  else match fuel with
  | O => Diverge
  | S fuel =>
      let '(ok, st) := device_cache_block st (u64 (loc + progress) / st.(block_size)) in
      if negb ok then Ret (false, st)
      else
        let '(offset, chunk) := chunk_at st loc count progress in
        write_loop fuel (set_cache st CACHE_DIRTY st.(cached_block) (blit st.(cache) offset (slice buffer progress chunk))) buffer loc count (progress + chunk)
  end.

(** What is overwritten is saved first, unless it is being put back. *)
Definition _device_write (st : host) (buffer : list Z) (loc count : Z) : outcome (bool * host) :=
  if st.(uninstalling) then write_loop (Z.to_nat count) st buffer loc count 0
  else if st.(uninstall_data_i) >=? UNINSTALL_DATA_MAX then Ret (false, st)
  else
    let i := st.(uninstall_data_i) in
    let '(p, st) := malloc st in
    let ud := st.(uninstall_data).[i] in
    let st := set_data st false st.(uninstall_data).[i := {| data := ud.(data); loc := ud.(Host.loc); count := ud.(Host.count); ptr := p |}] i in
    '(r, st) ← _device_read st loc count;
    match r with
    | None => Ret (false, free st p)
    | Some old =>
        let st := set_data st false st.(uninstall_data).[i := {| data := old; loc := loc; count := count; ptr := p |}] i in
        '(ok, st) ← write_loop (Z.to_nat count) st buffer loc count 0;
        if negb (ok : bool) then Ret (false, free st p)
        else Ret (true, set_data st false st.(uninstall_data) (i + 1))
    end.

(** * Undoing *)

Definition reverse_uninstall_data (st : host) : host :=
  let i := st.(uninstall_data_i) in
  let rev := for_up (Z.to_nat i) 0 (fun k r => r.[i - 1 - k := st.(uninstall_data).[k]]) (replicate (Z.to_nat UNINSTALL_DATA_MAX) no_entry) in
  set_data st st.(uninstalling) (take (Z.to_nat i) rev ++ drop (Z.to_nat i) st.(uninstall_data)) i.

Definition forget_cache (st : host) : host := set_cache st CACHE_CLEAN UINT64_MAX st.(cache).
(** An entry is written again once when that failed; the results say whether it was written and
    whether the cache could be flushed. *)
Definition undo_entry (st : host) (ud : uninstall_entry) : outcome (bool * bool * host) :=
  '(ok, st) ← _device_write st ud.(data) ud.(loc) ud.(count);
  if ok : bool then Ret (true, true, st)
  else
    let '(flushed, st) := device_flush_cache st in
    '(ok, st) ← _device_write (forget_cache st) ud.(data) ud.(loc) ud.(count);
    Ret (ok : bool, flushed, st).
Fixpoint undo_loop (l : list uninstall_entry) (st : host) (written flushed : bool) : outcome (bool * bool * host) :=
  match l with
  | [] => Ret (written, flushed, st)
  | ud :: l => '(w, f, st) ← undo_entry st ud; undo_loop l st (written && w) (flushed && f)
  end.
Definition uninstall (st : host) : outcome (bool * host) :=
  let st := forget_cache (set_data st true st.(uninstall_data) st.(uninstall_data_i)) in
  '(written, flushed, st) ← undo_loop (take (Z.to_nat st.(uninstall_data_i)) st.(uninstall_data)) st true true;
  let '(f, st) := device_flush_cache st in
  Ret ((written : bool) && ((flushed : bool) && f), st).
End faults.

(** Releasing the entries: past the end of the array what is released is whatever is there. *)
Definition free_uninstall_data (st : host) : outcome host :=
  if st.(uninstall_data_i) >? UNINSTALL_DATA_MAX then Panic
  else Ret (foldl (fun st ud => free st ud.(ptr)) st (take (Z.to_nat st.(uninstall_data_i)) st.(uninstall_data))).

(** * The file with the uninstall data *)

(** The words are written as they are in memory. *)
Definition word_bytes (bigendian : bool) (n : nat) (x : Z) : list Z := if bigendian then rev (le_bytes n x) else le_bytes n x.
Definition word (bigendian : bool) (l : list Z) : Z := of_le (if bigendian then rev l else l).

(** [fwrite] of no bytes returns 0; [None] is an error, what was written so far stays. *)
Fixpoint store_entries (bigendian : bool) (l : list uninstall_entry) : option (list Z) :=
  match l with
  | [] => Some []
  | ud :: l =>
      if ud.(count) =? 0 then None
      else r ← store_entries bigendian l; Some (word_bytes bigendian 8 ud.(loc) ++ word_bytes bigendian 8 ud.(count) ++ slice ud.(data) 0 ud.(count) ++ r)
  end.
Definition store_uninstall_data (bigendian : bool) (st : host) : option (list Z) :=
  r ← store_entries bigendian (take (Z.to_nat st.(uninstall_data_i)) st.(uninstall_data));
  Some (word_bytes bigendian 8 st.(uninstall_data_i) ++ r).

(** [fread(p, n, 1, udfile)]: the bytes and the rest of the file. *)
Definition fread_file (f : list Z) (n : Z) : option (list Z * list Z) :=
  if (n =? 0) || (zlen f <? n) then None else Some (take (Z.to_nat n) f, drop (Z.to_nat n) f).
Definition free_loaded (st : host) (loaded_count : Z) : host :=
  foldl (fun st ud => free st ud.(ptr)) st (take (Z.to_nat loaded_count) st.(uninstall_data)).
(** [i] is [loaded_count] too. *)
Fixpoint load_entries (bigendian : bool) (n : nat) (i : Z) (f : list Z) (st : host) : bool * host :=
  match n with
  | O => (true, st)
  | S n =>
      match fread_file f 8 with
      | None => (false, free_loaded st i)
      | Some (l, f) =>
          let ud := st.(uninstall_data).[i] in
          let st := set_data st st.(uninstalling) st.(uninstall_data).[i := {| data := ud.(data); loc := word bigendian l; count := ud.(count); ptr := ud.(ptr) |}] st.(uninstall_data_i) in
          match fread_file f 8 with
          | None => (false, free_loaded st i)
          | Some (c, f) =>
              let '(p, st) := malloc st in
              let st := set_data st st.(uninstalling) st.(uninstall_data).[i := {| data := ud.(data); loc := word bigendian l; count := word bigendian c; ptr := p |}] st.(uninstall_data_i) in
              match fread_file f (word bigendian c) with
              | None => (false, free_loaded (free st p) i)
              | Some (b, f) =>
                  load_entries bigendian n (i + 1) f
                    (set_data st st.(uninstalling) st.(uninstall_data).[i := {| data := b; loc := word bigendian l; count := word bigendian c; ptr := p |}] st.(uninstall_data_i))
              end
          end
      end
  end.
(** A file that is too short for the number of entries has left its bytes there. *)
Definition load_uninstall_data (bigendian : bool) (f : list Z) (st : host) : bool * host :=
  match fread_file f 8 with
  | None => (false, set_data st st.(uninstalling) st.(uninstall_data) (word bigendian (f ++ drop (length f) (word_bytes bigendian 8 st.(uninstall_data_i)))))
  | Some (l, f) =>
      let st := set_data st st.(uninstalling) st.(uninstall_data) (word bigendian l) in
      if word bigendian l >? UNINSTALL_DATA_MAX then (false, st)
      else load_entries bigendian (Z.to_nat (word bigendian l)) 0 f st
  end.
End Host.
