(* ===== verification/HostInstall.v ===== *)
(** [bios_install] of [host/limine.c]: the boot sector and stage 2 are written to a device.

    The steps are written over an interface, [Disk]: reads and writes that may fail, as the macros
    [device_read] and [device_write] are used, which go to [cleanup] then. The device of [Host] is one
    instance. The boot loader's image, generated when the program is built, and the numbers of
    [rand] are parameters, as are the files of the host. Messages are left out. *)

From S2P Require Import Prelude Limlz Guid Host.
Import Guid.

Module HostInstall.

(** Programs on a device; [None] is [goto cleanup]. *)
Definition M (S A : Type) : Type := S -> outcome (option A * S).
#[export] Instance M_ret {S} : MRet (M S) := fun A a st => Ret (Some a, st).
#[export] Instance M_bind {S} : MBind (M S) := fun A B k m st =>
  '(r, st) ← m st; match r with None => Ret (None, st) | Some a => k a st end.
Definition cleanup {S A} : M S A := fun st => Ret (None, st).
Class Disk (S : Type) := { device_read : Z -> Z -> M S (list Z); device_write : list Z -> Z -> Z -> M S unit }.

(** * Numbers *)

Definition mul_u64_overflow (a b : Z) : Z * bool := (u64 (a * b), negb (a =? 0) && (b >? UINT64_MAX / a)).
Definition add_u64_overflow (a b : Z) : Z * bool := (u64 (a + b), a >? UINT64_MAX - b).

Definition gpt2mbr_type_conv_table : list (Z * Z * Z) :=
  [(0x11d2f81fc12a7328, 0x3bc93ec9a0004bba, 0xef);
   (0x4433b9e5ebd0a0a2, 0xc79926b7b668c087, 0x07);
   (0x11aa000048465300, 0xacec4365300011aa, 0xaf)].
Fixpoint conv_loop (l : list (Z * Z * Z)) (gpt_type1 gpt_type2 : Z) : Z :=
  match l with
  | [] => -1
  | (t1, t2, mbr) :: l => if (t1 =? gpt_type1) && (t2 =? gpt_type2) then mbr else conv_loop l gpt_type1 gpt_type2
  end.
Definition gpt2mbr_type (gpt_type1 gpt_type2 : Z) : Z := conv_loop gpt2mbr_type_conv_table gpt_type1 gpt_type2.

Definition lba2chs (lba : Z) : list Z :=
  let lba_too_big := [0xfe; 0xff; 0xff] in
  if lba >? 63 * 255 * 1024 then lba_too_big
  else
    let cylinder := lba / (255 * 63) in
    if cylinder >=? 1024 then lba_too_big
    else
      let head := (lba / 63) mod 255 in
      let sector := lba mod 63 + 1 in
      [u8 head; Z.lor (Z.land (Z.shiftr cylinder 2) 0xc0) (Z.land sector 0x3f); u8 cylinder].

(** [ENDSWAP] at the size of its argument. *)
Definition ENDSWAP (bigendian : bool) (n : Z) (v : Z) : Z :=
  if bigendian then (if n =? 2 then Pack.endswap16 v else if n =? 4 then Pack.endswap32 v else if n =? 8 then Pack.endswap64 v else v) else v.

Section install.
Context (bigendian : bool) {S : Type} `{!Disk S}.

(** The field of [n] bytes at [off] of a structure in memory. *)
Definition field (l : list Z) (off n : Z) : Z := ENDSWAP bigendian n (Host.word bigendian (slice l off n)).
Definition raw (l : list Z) (off n : Z) : Z := Host.word bigendian (slice l off n).
(** The bytes of [ENDSWAP(x)]. *)
Definition swapped (n : nat) (x : Z) : list Z := Host.word_bytes bigendian n (ENDSWAP bigendian (Z.of_nat n) x).

(** * File systems *)

Definition hint_step (offset at_ n : Z) (signature : list Z) (zeros : Z) (force : bool) (rest : M S bool) : M S bool :=
  l ← device_read (u64 (offset + at_)) n;
  if bool_decide (l = signature) then
    if negb force then mret false
    else _ ← device_write (replicate (Z.to_nat zeros) 0) (u64 (offset + at_)) zeros; rest
  else rest.
(** [*err] is [goto cleanup], which both callers do then. *)
Definition validate_or_force (offset : Z) (force : bool) : M S bool :=
  hint_step offset 3 4 (bytes "NTFS") 4 force (
  hint_step offset 54 3 (bytes "FAT") 5 force (
  hint_step offset 82 3 (bytes "FAT") 5 force (
  hint_step offset 3 5 (bytes "FAT32") 5 force (
  l ← device_read (u64 (offset + 1080)) 2;
  if field l 0 2 =? 0xef53 then
    if negb force then mret false
    else _ ← device_write (swapped 2 0) (u64 (offset + 1080)) 2; mret true
  else mret true)))).

(** * GPT *)

Definition sizeof_header : Z := 96.
Definition sizeof_entry : Z := 128.
Definition has_signature (h : list Z) : bool := bool_decide (slice h 0 8 = bytes "EFI PART").
Definition alternate_lba (h : list Z) : Z := field h 32 8.
Definition partition_entry_lba (h : list Z) : Z := field h 72 8.
Definition number_of_partition_entries (h : list Z) : Z := field h 80 4.
Definition size_of_partition_entry (h : list Z) : Z := field h 84 4.
Definition is_unused (e : list Z) : bool := (raw e 16 8 =? 0) && (raw e 24 8 =? 0).
Definition starting_lba (e : list Z) : Z := field e 32 8.
Definition ending_lba (e : list Z) : Z := field e 40 8.

(** The logical block size and the header, if there is one. *)
Fixpoint probe_gpt (lb_guesses : list Z) : M S (option (Z * list Z)) :=
  match lb_guesses with
  | [] => mret None
  | g :: lb_guesses => h ← device_read g sizeof_header; if has_signature h then mret (Some (g, h)) else probe_gpt lb_guesses
  end.
Definition check_secondary (lb_size : Z) (h : list Z) : M S unit :=
  h2 ← device_read (u64 (lb_size * alternate_lba h)) sizeof_header;
  if has_signature h2 then mret tt else cleanup.

Record part_to_conv := { lba_start : Z; lba_end : Z; chs_start : list Z; chs_end : list Z; type : Z }.
(** The partitions to convert; [None] is [goto no_mbr_conv]. *)
Fixpoint gather (n : nat) (i : Z) (h : list Z) (part_entry_base : Z) (acc : list part_to_conv) : M S (option (list part_to_conv)) :=
  match n with
  | O => mret (Some acc)
  | Datatypes.S n =>
      let '(entry_offset, overflow) := add_u64_overflow part_entry_base (u64 (i * size_of_partition_entry h)) in
      if overflow then mret None
      else
        e ← device_read entry_offset sizeof_entry;
        if is_unused e then gather n (i + 1) h part_entry_base acc
        else if zlen acc =? 4 then mret None
        else if starting_lba e >? 0xffffffff then mret None
        else if ending_lba e >? 0xffffffff then mret None
        else if u64 (ending_lba e - starting_lba e + 1) >? 0xffffffff then mret None
        else
          let type := gpt2mbr_type (field e 0 8) (field e 8 8) in
          if type =? -1 then mret None
          else gather n (i + 1) h part_entry_base
                 (acc ++ [{| lba_start := starting_lba e; lba_end := ending_lba e; chs_start := lba2chs (starting_lba e); chs_end := lba2chs (ending_lba e); type := u8 type |}])
  end.

(** [for (i = 0; i < n; i++) device_write(empty_lba, (first + i) * lb_size, lb_size)]. *)
Fixpoint nuke (n : nat) (first i lb_size : Z) : M S unit :=
  match n with
  | O => mret tt
  | Datatypes.S n => _ ← device_write (replicate (Z.to_nat lb_size) 0) (u64 ((first + i) * lb_size)) lb_size; nuke n first (i + 1) lb_size
  end.
Fixpoint write_disk_id (rand : Z -> Z) (n : nat) (i : Z) : M S unit :=
  match n with
  | O => mret tt
  | Datatypes.S n => _ ← device_write [u8 (rand i)] (0x1b8 + i) 1; write_disk_id rand n (i + 1)
  end.
Fixpoint write_partitions (l : list part_to_conv) (i : Z) : M S unit :=
  match l with
  | [] => mret tt
  | p :: l =>
      let at_ := 0x1be + i * 16 in
      _ ← device_write [p.(type)] (at_ + 4) 1;
      _ ← device_write (swapped 4 (u32 p.(lba_start))) (at_ + 8) 4;
      _ ← device_write (swapped 4 (u32 (u64 (p.(lba_end) - p.(lba_start)) + 1))) (at_ + 12) 4;
      _ ← device_write p.(chs_start) (at_ + 1) 3;
      _ ← device_write p.(chs_end) (at_ + 5) 3;
      write_partitions l (i + 1)
  end.
(** From nuking the GPTs to the new partition table. *)
Definition write_mbr (rand : Z -> Z) (lb_size : Z) (h : list Z) (l : list part_to_conv) : M S unit :=
  _ ← nuke 34 0 0 lb_size;
  _ ← (if alternate_lba h >=? 32 then nuke 33 (alternate_lba h - 32) 0 lb_size else mret tt);
  _ ← write_disk_id rand 4 0;
  write_partitions l 0.
(** Whether the device has been converted. *)
Definition convert (rand : Z -> Z) (lb_size : Z) (h : list Z) : M S bool :=
  iso_signature ← device_read 32769 5;
  if negb (bool_decide (iso_signature = bytes "CD001")) then mret false
  else
    let '(part_entry_base, overflow) := mul_u64_overflow (partition_entry_lba h) lb_size in
    if overflow then mret false
    else
      r ← gather (Z.to_nat (number_of_partition_entries h)) 0 h part_entry_base [];
      match r with
      | None => mret false
      | Some l => _ ← write_mbr rand lb_size h l; mret true
      end.

(** * MBR *)

(** The checks of the entry at [at_], which are written out four times in the source. *)
Definition mbr_entry (force : bool) (at_ : Z) (st : bool * bool) : M S (bool * bool) :=
  let '(mbr, any_active) := st in
  l ← device_read at_ 1;
  let hint8 := l.[0] in
  '(hint8, mbr) ← (if negb (hint8 =? 0) && negb (hint8 =? 0x80) then
                     if negb force then mret (hint8, false)
                     else let hint8 := Z.land hint8 0x80 in _ ← device_write [hint8] at_ 1; mret (hint8, mbr)
                   else mret (hint8, mbr) : M S (Z * bool));
  let any_active := any_active || negb (Z.land hint8 0x80 =? 0) in
  t ← device_read (at_ + 4) 1;
  if negb (t.[0] =? 0) then
    l ← device_read (at_ + 8) 4;
    if field l 0 4 <? 63 then cleanup else mret (mbr, any_active)
  else mret (mbr, any_active).
Fixpoint mbr_entries (force : bool) (l : list Z) (st : bool * bool) : M S (bool * bool) :=
  match l with [] => mret st | at_ :: l => st ← mbr_entry force at_ st; mbr_entries force l st end.
Definition check_mbr (force : bool) : M S unit :=
  '(mbr, any_active) ← mbr_entries force [446; 462; 478; 494] (true, false);
  mbr ← (if (mbr : bool) then validate_or_force 0 force else mret false);
  _ ← (if (mbr : bool) && negb any_active then device_write [0x80] 446 1 else mret tt);
  if (mbr : bool) then mret tt else cleanup.

(** * The partition for stage 2 *)

(** [sscanf(s, "%u", &n)] of an unsigned 32-bit number, through an [unsigned long] of 64 bits. *)
Fixpoint skip_blanks (s : list Z) : list Z :=
  match s with [] => [] | c :: r => if (c =? 32) || ((9 <=? c) && (c <=? 13)) then skip_blanks r else s end.
Fixpoint decimal (s : list Z) (n : Z) : Z :=
  match s with [] => n | c :: r => if (48 <=? c) && (c <=? 57) then decimal r (n * 10 + (c - 48)) else n end.
Definition sscanf_u32 (s : list Z) : option Z :=
  let s := skip_blanks s in
  let '(neg, s) := match s with c :: r => if c =? 45 then (true, r) else if c =? 43 then (false, r) else (false, s) | [] => (false, s) end in
  match s with
  | c :: _ =>
      if (48 <=? c) && (c <=? 57) then
        let n := decimal s 0 in
        Some (u32 (if n >? UINT64_MAX then UINT64_MAX else if neg : bool then u64 (- n) else n))
      else None
  | [] => None
  end.

Definition read_entry (h : list Z) (base partition_num : Z) : M S (list Z) :=
  let '(entry_off, overflow) := add_u64_overflow base (u64 (partition_num * size_of_partition_entry h)) in
  if overflow then cleanup else device_read entry_off sizeof_entry.
Definition is_bios_boot (e : list Z) : bool := bool_decide (slice e 0 16 = bytes "Hah!IdontNeedEFI").
Fixpoint autodetect (n : nat) (partition_num : Z) (h : list Z) (base : Z) : M S (list Z) :=
  match n with
  | O => cleanup
  | Datatypes.S n => e ← read_entry h base partition_num; if is_bios_boot e then mret e else autodetect n (partition_num + 1) h base
  end.
Definition choose_partition (force : bool) (part_ndx : option (list Z)) (lb_size : Z) (h : list Z) : M S (list Z) :=
  let '(base, overflow) := mul_u64_overflow (partition_entry_lba h) lb_size in
  if overflow then cleanup
  else match part_ndx with
  | Some s =>
      match sscanf_u32 s with
      | None => cleanup
      | Some partition_num =>
          let partition_num := u32 (partition_num - 1) in
          if partition_num >=? number_of_partition_entries h then cleanup
          else
            e ← read_entry h base partition_num;
            if is_unused e then cleanup
            else if negb force && negb (is_bios_boot e) then cleanup
            else mret e
      end
  | None => autodetect (Z.to_nat (number_of_partition_entries h)) 0 h base
  end.
Definition gpt_stage2 (force : bool) (part_ndx : option (list Z)) (lb_size : Z) (h : list Z) : M S Z :=
  e ← choose_partition force part_ndx lb_size h;
  if ending_lba e <? starting_lba e then cleanup
  else
    let '(part_size, overflow) := mul_u64_overflow (u64 (ending_lba e - starting_lba e + 1)) lb_size in
    if overflow then cleanup
    else if part_size <? 32768 then cleanup
    else
      let '(stage2_loc, overflow) := mul_u64_overflow (starting_lba e) lb_size in
      if overflow then cleanup
      else valid ← validate_or_force stage2_loc force; if (valid : bool) then mret stage2_loc else cleanup.

(** * Installing *)

Definition write_stages (bootloader_img : list Z) (stage2_loc : Z) : M S unit :=
  timestamp ← device_read 218 6;
  orig_mbr ← device_read 440 70;
  _ ← device_write (slice bootloader_img 0 512) 0 512;
  _ ← device_write (slice bootloader_img 512 (zlen bootloader_img - 512)) stage2_loc (zlen bootloader_img - 512);
  _ ← device_write (swapped 8 stage2_loc) 0x1a4 8;
  _ ← device_write timestamp 218 6;
  device_write orig_mbr 440 70.

Record options := { force : bool; gpt2mbr_allowed : bool; uninstall_mode : bool; uninstall_file : option (list Z); part_ndx : option (list Z) }.
(** From the search for a GPT to the last write. *)
Definition install (rand : Z -> Z) (bootloader_img : list Z) (o : options) : M S unit :=
  gpt ← probe_gpt [512; 4096];
  _ ← (match gpt with Some (lb_size, h) => check_secondary lb_size h | None => mret tt end : M S unit);
  converted ← (match gpt with Some (lb_size, h) => if o.(gpt2mbr_allowed) then convert rand lb_size h else mret false | None => mret false end : M S bool);
  let gpt := if (converted : bool) then None else gpt in
  stage2_loc ← (match gpt with
                | None => _ ← check_mbr o.(force); mret 512
                | Some (lb_size, h) => gpt_stage2 o.(force) o.(part_ndx) lb_size h
                end : M S Z);
  write_stages bootloader_img stage2_loc.
End install.

(** * The program *)

Section host.
Context (fault : nat -> option Z).

#[export] Instance host_disk : Disk Host.host := {|
  device_read loc count st := Host._device_read fault st loc count;
  device_write buffer loc count st :=
    '(ok, st) ← Host._device_write fault st buffer loc count;
    Ret (if (ok : bool) then Some tt else None, st) |}.

(** Undoing, or storing what is needed to undo later: the exit status is success or not, the file
    is what is written to it. *)
Record result := { ok : bool; final : Host.host; saved : option (list Z) }.
Definition finish (bigendian : bool) (o : options) (success : bool) (st : Host.host) : outcome result :=
  let st := Host.reverse_uninstall_data st in
  if negb success then
    '(_, st) ← Host.uninstall fault st;
    st ← Host.free_uninstall_data st; Ret {| ok := false; final := st; saved := None |}
  else
    let saved := match o.(uninstall_file) with Some _ => Host.store_uninstall_data bigendian st | None => None end in
    st ← Host.free_uninstall_data st; Ret {| ok := true; final := st; saved := saved |}.
(** After the arguments have been read: [uninstall_data_file] is what can be read from the file they
    name. *)
Definition run (bigendian : bool) (rand : Z -> Z) (bootloader_img : list Z) (o : options) (uninstall_data_file : option (list Z)) (st : Host.host) : outcome result :=
  let failed st := st ← Host.free_uninstall_data st; Ret {| ok := false; final := st; saved := None |} in
  let '(init, st) := Host.device_init fault st in
  if negb init then failed st
  else if o.(uninstall_mode) then
    match o.(uninstall_file), uninstall_data_file with
    | Some _, Some f =>
        let '(loaded, st) := Host.load_uninstall_data bigendian f st in
        if negb loaded then failed st
        else
          '(done, st) ← Host.uninstall fault st;
          st ← Host.free_uninstall_data st; Ret {| ok := done; final := st; saved := None |}
    | _, _ => failed st
    end
  else
    '(r, st) ← install bigendian rand bootloader_img o st;
    match r with
    | None => finish bigendian o false st
    | Some _ => let '(flushed, st) := Host.device_flush_cache fault st in finish bigendian o flushed st
    end.
End host.

(** The device's stream when it has been opened, the other variables as the program starts. *)
Definition opened (contents : mem) (size : Z) : Host.host :=
  {| Host.device := {| Host.contents := contents; Host.size := size; Host.pos := 0; Host.ops := 0 |}; Host.cache_state := Host.CACHE_CLEAN; Host.cached_block := 0;
     Host.cache := []; Host.block_size := 0; Host.uninstalling := false; Host.uninstall_data := replicate (Z.to_nat Host.UNINSTALL_DATA_MAX) Host.no_entry;
     Host.uninstall_data_i := 0; Host.next_ptr := 1; Host.frees := [] |}.

(** The arguments after the command; a device that is opened stays open whatever comes after it.
    [memcmp] with a shorter argument stops at its end. *)
Inductive parsed := Exit (success : bool) | Options (device : list Z) (o : options).
Fixpoint parse_args (can_open : list Z -> bool) (args : list (list Z)) (device : option (list Z)) (o : options) : parsed :=
  match args with
  | [] => match device with None => Exit false | Some d => Options d o end
  | a :: args =>
      let '{| force := f; gpt2mbr_allowed := g; uninstall_mode := m; uninstall_file := u; part_ndx := n |} := o in
      if bool_decide (a = bytes "--help") || bool_decide (a = bytes "-h") then Exit true
      else if bool_decide (a = bytes "--quiet") then parse_args can_open args device o
      else if bool_decide (a = bytes "--force") then parse_args can_open args device {| force := true; gpt2mbr_allowed := g; uninstall_mode := m; uninstall_file := u; part_ndx := n |}
      else if bool_decide (a = bytes "--no-gpt-to-mbr-isohybrid-conversion") then
        parse_args can_open args device {| force := f; gpt2mbr_allowed := false; uninstall_mode := m; uninstall_file := u; part_ndx := n |}
      else if bool_decide (a = bytes "--uninstall") then parse_args can_open args device {| force := f; gpt2mbr_allowed := g; uninstall_mode := true; uninstall_file := u; part_ndx := n |}
      else if bool_decide (take 22 a = bytes "--uninstall-data-file=") then
        if (length (drop 22 a) =? 0)%nat then Exit false
        else parse_args can_open args device {| force := f; gpt2mbr_allowed := g; uninstall_mode := m; uninstall_file := Some (drop 22 a); part_ndx := n |}
      else match device with
      | Some _ => parse_args can_open args device {| force := f; gpt2mbr_allowed := g; uninstall_mode := m; uninstall_file := u; part_ndx := Some a |}
      | None => if can_open a then parse_args can_open args (Some a) o else Exit false
      end
  end.
(** [open] is the device of a name, [read_file] what can be read from a file. *)
Definition bios_install (fault : nat -> option Z) (bigendian : bool) (rand : Z -> Z) (bootloader_img : list Z) (open : list Z -> option (mem * Z)) (read_file : list Z -> option (list Z)) (args : list (list Z))
    : outcome (bool * option result) :=
  match parse_args (fun a => match open a with Some _ => true | None => false end) args None
          {| force := false; gpt2mbr_allowed := true; uninstall_mode := false; uninstall_file := None; part_ndx := None |} with
  | Exit success => Ret (success, None)
  | Options d o =>
      match open d with
      | None => Ret (false, None)
      | Some (contents, size) =>
          r ← run fault bigendian rand bootloader_img o (o.(uninstall_file) ≫= read_file) (opened contents size);
          Ret (r.(ok), Some r)
      end
  end.
End HostInstall.
