(* ===== verification/HostCorrect.v ===== *)
(** The installer's device: reads and writes through the cache of one block are reads and writes of
    the bytes of the device, and what was written can be undone from the saved data. *)

From S2P Require Import Prelude Guid GuidCorrect PartCorrect Host.
Import Host.

(** A device on which no operation fails by itself. *)
Definition no_fault : nat -> option Z := fun _ => None.

(** * What the device holds *)

Definition start (st : host) : Z := st.(cached_block) * st.(block_size).
Definition in_block (st : host) (x : Z) : Prop := st.(cached_block) <> UINT64_MAX /\ start st <= x < start st + st.(block_size).
#[export] Instance in_block_dec st x : Decision (in_block st x) := _.
(** The byte at [x], as the program sees it. *)
Definition view (st : host) (x : Z) : Z := if decide (in_block st x) then st.(cache).[x - start st] else st.(device).(contents) x.
Definition limit (st : host) : Z := st.(device).(size) / st.(block_size) * st.(block_size).

Record wf (st : host) : Prop := {
  wf_bs : 1 < st.(block_size) < 2 ^ 32;
  wf_size : 0 <= st.(device).(size) < 2 ^ 63;
  wf_cache : zlen st.(cache) = st.(block_size);
  wf_block : st.(cached_block) <> UINT64_MAX -> 0 <= st.(cached_block) /\ start st + st.(block_size) <= st.(device).(size);
  wf_clean : st.(cache_state) = CACHE_CLEAN -> forall x, in_block st x -> st.(cache).[x - start st] = st.(device).(contents) x;
  wf_dirty : st.(cache_state) = CACHE_DIRTY -> st.(cached_block) <> UINT64_MAX }.

(** What the operations on the cache leave alone. *)
Record same (st st' : host) : Prop := {
  same_size : st'.(device).(size) = st.(device).(size);
  same_bs : st'.(block_size) = st.(block_size);
  same_uninstalling : st'.(uninstalling) = st.(uninstalling);
  same_data : st'.(uninstall_data) = st.(uninstall_data);
  same_i : st'.(uninstall_data_i) = st.(uninstall_data_i);
  same_frees : st'.(frees) = st.(frees) }.
#[export] Instance same_refl : Reflexive same.
Proof. by split. Qed.
#[export] Instance same_trans : Transitive same.
Proof. intros a b c [] []. split; congruence. Qed.

Lemma aget_load m a n i : 0 <= i < Z.of_nat n -> (load_bytes m a n).[i] = m (a + i).
Proof.
  intros Hi. unfold aget, load_bytes. apply list_lookup_total_correct. rewrite list_lookup_fmap, (proj2 (lookup_seqZ a (Z.of_nat n) (Z.to_nat i) (a + i))) by lia. done.
Qed.
Lemma zlen_load_bytes m a n : zlen (load_bytes m a n) = Z.of_nat n.
Proof. unfold zlen. by rewrite length_load. Qed.

(** * The cache *)

(** No dirty block: the device holds what the program sees. *)
Lemma view_clean st : wf st -> st.(cache_state) = CACHE_CLEAN -> forall x, view st x = st.(device).(contents) x.
Proof. intros Hwf Hc x. unfold view. destruct (decide _); [by apply wf_clean | done]. Qed.

Lemma flush_spec st : wf st -> exists st', device_flush_cache no_fault st = (true, st') /\ wf st' /\ same st st' /\ st'.(cache_state) = CACHE_CLEAN /\
  st'.(cached_block) = st.(cached_block) /\ (forall x, st'.(device).(contents) x = view st x) /\ (forall x, view st' x = view st x).
Proof.
  intros Hwf. unfold device_flush_cache. destruct (cache_state st) eqn:Hc.
  { exists st. split_and!; try done. intros x. symmetry. by apply view_clean. }
  destruct (wf_block st Hwf (wf_dirty st Hwf Hc)) as [Hb Hin]. pose proof (wf_bs st Hwf) as Hbs. pose proof (wf_size st Hwf) as Hsz. pose proof (wf_cache st Hwf) as Hl. fold (start st).
  assert (0 <= start st) as Hs by (unfold start; nia). rewrite (u64_small (start st)) by lia. unfold set_pos, failing, no_fault. cbn [orb]. rewrite Z.geb_leb, (proj2 (Z.leb_gt _ _)) by lia.
  cbn [negb]. unfold fwrite_cache, transferred, failing. cbn. rewrite (take_ge (cache st)) by (unfold zlen in *; lia).
  assert (forall x, mem_write (contents (device st)) (start st) (cache st) x = view st x) as Hv.
  { intros x. unfold view. destruct (decide _) as [[_ Hx]|Hx]; [rewrite mem_write_in by lia; done |]. apply mem_write_out. intros Hx'. apply Hx. split; [by apply wf_dirty | lia]. }
  eexists. split; [reflexivity |]. cbn. rewrite Z.max_l by lia. split; [|split; [by split |]].
  - split; cbn; try done. intros _ x [_ Hx]. unfold start in Hx |- *. cbn in *. fold (start st) in *. rewrite mem_write_in by lia. done.
  - split_and!; try done. intros x. unfold view at 1. cbn. rewrite Hv. unfold view, in_block, start. cbn. by destruct (decide _).
Qed.

(** Where the cache is kept a block is held; where it is not, the device has been flushed. *)
Lemma host_cache_block_spec st b : wf st -> 0 <= b -> b * st.(block_size) < 2 ^ 64 -> exists st', same st st' /\
  if decide ((b + 1) * st.(block_size) <= st.(device).(size))
  then device_cache_block no_fault st b = (true, st') /\ wf st' /\ st'.(cached_block) = b /\ (forall x, view st' x = view st x) /\
       (forall x, st'.(device).(contents) x = st.(device).(contents) x \/ st'.(device).(contents) x = view st x)
  else device_cache_block no_fault st b = (false, st') /\ (forall x, st'.(device).(contents) x = view st x) /\ zlen st'.(cache) = st.(block_size).
Proof.
  intros Hwf Hb Hlt. pose proof (wf_bs st Hwf) as Hbs. pose proof (wf_size st Hwf) as Hsz. unfold device_cache_block. destruct (Z.eqb_spec (cached_block st) b) as [Heq|Hne].
  { exists st. split; [done |]. assert (b <> UINT64_MAX) by (unfold UINT64_MAX; nia). destruct (wf_block st Hwf) as [_ Hin]; [congruence |]. unfold start in Hin. rewrite decide_True by (rewrite <- Heq; lia). by split_and!; auto. }
  destruct (flush_spec st Hwf) as (s1 & Hf & Hwf1 & Hs1 & Hc1 & Hb1 & Hcont & Hview). 
  assert (exists s2, match cache_state st with CACHE_CLEAN => (true, st) | CACHE_DIRTY => device_flush_cache no_fault st end = (true, s2) /\ wf s2 /\ same st s2 /\ cache_state s2 = CACHE_CLEAN /\ (forall x, contents (device s2) x = view st x)) as (s2 & -> & Hwf2 & Hs2 & Hc2 & Hcont2).
  { destruct (cache_state st) eqn:Hc; [exists st | exists s1]; split_and!; try done. intros x. symmetry. by apply view_clean. }
  cbn [negb]. rewrite (same_bs _ _ Hs2). rewrite (u64_small (b * block_size st)) by nia. unfold set_pos, failing, no_fault. cbn [orb]. 
  destruct (decide _) as [Hin|Hout].
  - rewrite Z.geb_leb, (proj2 (Z.leb_gt _ _)) by nia. cbn [negb]. unfold fread_cache, transferred, failing. cbn. rewrite (same_size _ _ Hs2), (same_bs _ _ Hs2). rewrite Z.min_l, Z.max_r by nia. rewrite Z.eqb_refl. cbn.
    rewrite drop_ge by (pose proof (wf_cache s2 Hwf2); rewrite (same_bs _ _ Hs2) in *; unfold zlen in *; lia). rewrite app_nil_r.
    eexists. split; [|split; [reflexivity |]]; cbn.
    + by split; cbn; destruct Hs2.
    + assert (forall x, b * block_size st <= x < b * block_size st + block_size st -> (load_bytes (contents (device s2)) (b * block_size st) (Z.to_nat (block_size st))).[x - b * block_size st] = contents (device s2) x) as Hload.
      { intros x Hx. rewrite aget_load by lia. f_equal. lia. }
      split; [split; cbn; unfold start, in_block; cbn; rewrite ?(same_size _ _ Hs2), ?(same_bs _ _ Hs2); [lia | lia | rewrite zlen_load_bytes; lia | intros _; split; [lia | unfold start; cbn; rewrite ?(same_bs _ _ Hs2); nia] | | by rewrite Hc2]|].
      { intros _ x [_ Hx]. unfold start in Hx. cbn in Hx. rewrite (same_bs _ _ Hs2) in Hx. by apply Hload. }
      split; [done |]. split; [|intros x; right; apply Hcont2]. intros x. unfold view at 1. destruct (decide _) as [[_ Hx]|]; cbn in *; [|apply Hcont2]. unfold start in *. cbn in *. rewrite (same_bs _ _ Hs2) in *. rewrite Hload by lia. apply Hcont2.
  - destruct (Z.geb_spec (b * block_size st) (2 ^ 63)); cbn [negb].
    { eexists. split; [|split; [reflexivity |]]; cbn; [by split; cbn; destruct Hs2 |]. split; [exact Hcont2 |]. rewrite (wf_cache s2 Hwf2). apply Hs2. }
    unfold fread_cache, transferred, failing. cbn. rewrite (same_size _ _ Hs2), (same_bs _ _ Hs2). rewrite (proj2 (Z.eqb_neq _ (block_size st))) by nia. cbn.
    eexists. split; [|split; [reflexivity |]]; cbn; [by split; cbn; destruct Hs2 |]. split; [exact Hcont2 |]. rewrite zlen_app, zlen_load_bytes, zlen_drop; pose proof (wf_cache s2 Hwf2); rewrite (same_bs _ _ Hs2) in *; lia.
Qed.

(** * Reads and writes *)

Lemma below_limit st x : wf st -> 0 <= x -> (x / st.(block_size) + 1) * st.(block_size) <= st.(device).(size) <-> x < limit st.
Proof.
  intros Hwf Hx. pose proof (wf_bs st Hwf) as Hbs. unfold limit. set (s := size (device st)). set (n := block_size st) in *.
  pose proof (Z.div_mod x n ltac:(lia)). pose proof (Z.mod_pos_bound x n ltac:(lia)). pose proof (Z.div_mod s n ltac:(lia)). pose proof (Z.mod_pos_bound s n ltac:(lia)).
  split; intros Hl.
  - assert (x / n < s / n) by (apply Z.le_succ_l, Z.div_le_lower_bound; lia). nia.
  - assert (x / n < s / n) by (apply Z.div_lt_upper_bound; lia). nia.
Qed.
Lemma block_below_limit st b : wf st -> (b + 1) * st.(block_size) <= st.(device).(size) -> (b + 1) * st.(block_size) <= limit st.
Proof. intros Hwf Hb. pose proof (wf_bs st Hwf). unfold limit. apply Z.mul_le_mono_nonneg_r; [lia |]. apply Z.div_le_lower_bound; lia. Qed.
Lemma limit_bound st : wf st -> 0 <= limit st <= st.(device).(size).
Proof.
  intros Hwf. pose proof (wf_bs st Hwf). pose proof (wf_size st Hwf). unfold limit. pose proof (Z.div_mod (size (device st)) (block_size st) ltac:(lia)). pose proof (Z.mod_pos_bound (size (device st)) (block_size st) ltac:(lia)).
  pose proof (Z.div_pos (size (device st)) (block_size st) ltac:(lia) ltac:(lia)). nia.
Qed.
Lemma same_limit st st' : same st st' -> limit st' = limit st.
Proof. intros [-> -> _ _ _ _]%id || intros Hs. unfold limit. by rewrite (same_size _ _ Hs), (same_bs _ _ Hs). Qed.

(** The block of address [x], and the part of it that is asked for. *)
Lemma chunk_spec st loc count p : wf st -> 0 <= loc + p < 2 ^ 64 -> 0 <= p < count ->
  exists offset chunk, chunk_at st loc count p = (offset, chunk) /\ 0 < chunk /\ p + chunk <= count /\ 0 <= offset /\ offset + chunk <= st.(block_size) /\
    (loc + p) / st.(block_size) * st.(block_size) + offset = loc + p.
Proof.
  intros Hwf Hx Hp. pose proof (wf_bs st Hwf). unfold chunk_at. rewrite u64_small by lia. pose proof (Z.div_mod (loc + p) (block_size st) ltac:(lia)). pose proof (Z.mod_pos_bound (loc + p) (block_size st) ltac:(lia)).
  eexists _, _. split; [reflexivity |]. destruct (Z.gtb_spec (count - p) (block_size st - (loc + p) mod block_size st)); split_and!; lia.
Qed.
Lemma slice_view st b off n : wf st -> st.(cached_block) = b -> b <> UINT64_MAX -> 0 <= off -> 0 <= n -> off + n <= st.(block_size) ->
  slice st.(cache) off n = load_bytes (view st) (b * st.(block_size) + off) (Z.to_nat n).
Proof.
  intros Hwf <- Hm Ho Hn Hle. pose proof (wf_cache st Hwf) as Hl. apply list_eq_same_length with (n := Z.to_nat n); [by rewrite length_load | apply length_slice; lia |].
  intros i x y Hi Hx Hy. unfold slice in Hx. rewrite lookup_take_lt, lookup_drop in Hx by lia. unfold load_bytes in Hy. rewrite list_lookup_fmap in Hy. apply fmap_Some in Hy as (z & Hz & ->). apply lookup_seqZ in Hz as [-> _].
  unfold view. rewrite decide_True by (split; [done | unfold start; lia]). apply list_lookup_total_correct in Hx. rewrite <- Hx. unfold aget, start. f_equal. lia.
Qed.
Lemma load_split m a n k : 0 <= n -> 0 <= k -> load_bytes m a (Z.to_nat (n + k)) = load_bytes m a (Z.to_nat n) ++ load_bytes m (a + n) (Z.to_nat k).
Proof. intros. rewrite Z2Nat.inj_add, load_app by lia. by rewrite Z2Nat.id by lia. Qed.

(** What the device holds at [x] is as before, or what the program saw there. *)
Definition settles (st st' : host) (x : Z) : Prop := st'.(device).(contents) x = st.(device).(contents) x \/ st'.(device).(contents) x = view st x.

Lemma host_read_loop_spec fuel : forall st loc count p buf, wf st -> 0 <= loc < 2 ^ 64 -> 0 <= p -> p = 0 \/ loc + p <= limit st -> count - p <= Z.of_nat fuel ->
  exists st', same st st' /\
  if decide (count <= p \/ loc + count <= limit st)
  then read_loop no_fault fuel st loc count p buf = Ret (Some (buf ++ load_bytes (view st) (loc + p) (Z.to_nat (count - p))), st') /\ wf st' /\ (forall x, view st' x = view st x) /\ (forall x, settles st st' x)
  else read_loop no_fault fuel st loc count p buf = Ret (None, st') /\ (forall x, st'.(device).(contents) x = view st x) /\ zlen st'.(cache) = st.(block_size).
Proof.
  induction fuel as [|fuel IH]; intros st loc count p buf Hwf Hloc Hp0 Hp Hfuel; cbn [read_loop].
  { rewrite (proj2 (Z.ltb_ge p count)) by lia. exists st. split; [done |]. rewrite decide_True by lia. cbn [negb]. replace (Z.to_nat (count - p)) with O by lia. rewrite app_nil_r. split_and!; try done. intros x. by left. }
  pose proof (limit_bound st Hwf) as Hlim. pose proof (wf_size st Hwf) as Hsz. pose proof (wf_bs st Hwf) as Hbs.
  destruct (Z.ltb_spec p count) as [Hlt|Hge]; cbn [negb].
  2: { exists st. split; [done |]. rewrite decide_True by lia. replace (Z.to_nat (count - p)) with O by lia. rewrite app_nil_r. split_and!; try done. intros x. by left. }
  assert (0 <= loc + p < 2 ^ 64) as Hx by lia. rewrite (u64_small (loc + p)) by lia. set (b := (loc + p) / block_size st).
  assert (0 <= b) as Hb by (apply Z.div_pos; lia). assert (b * block_size st <= loc + p) by (pose proof (Z.mul_div_le (loc + p) (block_size st)); lia). assert (b <> UINT64_MAX) as Hmax by (unfold UINT64_MAX; nia).
  destruct (host_cache_block_spec st b Hwf Hb ltac:(lia)) as (s1 & Hs1 & Hcb). pose proof (below_limit st (loc + p) Hwf ltac:(lia)) as Hbl. fold b in Hbl.
  destruct (decide _) as [Hin|Hout] in Hcb.
  2: { destruct Hcb as (-> & Hc & Hl). cbn [negb]. exists s1. split; [done |]. rewrite decide_False by lia. done. }
  destruct Hcb as (-> & Hwf1 & Hb1 & Hv1 & Hset1). cbn [negb]. destruct (chunk_spec s1 loc count p Hwf1 Hx ltac:(lia)) as (off & n & -> & Hn & Hpn & Ho & Hon & Hoff). rewrite (same_bs _ _ Hs1) in *. fold b in Hoff.
  pose proof (block_below_limit st b Hwf Hin) as Hblk.
  destruct (IH s1 loc count (p + n) (buf ++ slice (cache s1) off n)) as (st' & Hs' & Hr); [done | done | lia | | lia |].
  { right. rewrite (same_limit _ _ Hs1). lia. }
  rewrite (same_limit _ _ Hs1), (same_bs _ _ Hs1) in Hr. exists st'. split; [by etransitivity |].
  assert (slice (cache s1) off n = load_bytes (view st) (loc + p) (Z.to_nat n)) as Hsl.
  { rewrite (slice_view s1 b) by (rewrite ?(same_bs _ _ Hs1); first [done | lia]). rewrite (same_bs _ _ Hs1), Hoff. apply load_bytes_ext. intros i Hi. apply Hv1. }
  assert (forall x, settles s1 st' x -> settles st st' x) as Htr by (intros x [Hs|Hs]; unfold settles; rewrite Hs; [apply Hset1 | rewrite Hv1; by right]).
  destruct (decide (count <= p + n \/ _)) as [Hd|Hd].
  - rewrite decide_True by (clear -Hd Hblk Hoff Hon; lia). destruct Hr as (-> & Hwf' & Hv' & Hset'). split_and!; [|done |by intros x; rewrite Hv' | intros x; apply Htr, Hset'].
    rewrite Hsl, <- app_assoc. do 4 f_equal. replace (count - p) with (n + (count - (p + n))) by lia. rewrite load_split by lia. f_equal. replace (loc + (p + n)) with (loc + p + n) by lia. apply load_bytes_ext. intros i Hi. apply Hv1.
  - rewrite decide_False by lia. destruct Hr as (-> & Hc & Hl). split_and!; [done | | done]. intros x. by rewrite Hc, Hv1.
Qed.

Lemma aget_slice (l : list Z) off n i : 0 <= off -> 0 <= i < n -> (slice l off n).[i] = l.[off + i].
Proof.
  intros. unfold slice. rewrite <- aget_drop by lia. unfold aget. rewrite !list_lookup_total_alt. by rewrite lookup_take_lt by lia.
Qed.
Lemma aget_blit buf off data i : 0 <= off -> off + zlen data <= zlen buf -> 0 <= i ->
  (blit buf off data).[i] = if decide (off <= i < off + zlen data) then data.[i - off] else buf.[i].
Proof.
  intros Ho Hl Hi. pose proof (zlen_nonneg data). unfold blit. assert (zlen (take (Z.to_nat off) buf) = off) as Ht by (unfold zlen in *; rewrite length_take; lia).
  destruct (decide (i < off)) as [Hlt|Hge].
  { rewrite decide_False by lia. rewrite aget_app_l by lia. unfold aget. rewrite !list_lookup_total_alt. by rewrite lookup_take_lt by lia. }
  rewrite aget_app_r, Ht by lia. destruct (decide _) as [Hin|Hout]; [by rewrite aget_app_l by lia |].
  rewrite aget_app_r by lia. replace (Z.to_nat off + length data)%nat with (Z.to_nat (off + zlen data)) by (unfold zlen; lia). rewrite aget_drop by lia. f_equal. lia.
Qed.

(** A block that is overwritten in the cache. *)
Lemma poke_spec st off data : wf st -> st.(cached_block) <> UINT64_MAX -> 0 <= off -> off + zlen data <= st.(block_size) ->
  let st' := set_cache st CACHE_DIRTY st.(cached_block) (blit st.(cache) off data) in
  wf st' /\ same st st' /\ (forall x, view st' x = mem_write (view st) (start st + off) data x) /\ (forall x, st'.(device).(contents) x = st.(device).(contents) x).
Proof.
  intros Hwf Hm Ho Hle. pose proof (wf_cache st Hwf) as Hl. pose proof (wf_bs st Hwf) as Hbs. cbv zeta. split; [split|split; [by split | split; [|done]]]; cbn; try done; try apply Hwf.
  - rewrite zlen_blit; lia.
  - intros x. unfold view. unfold in_block, start. cbn. fold (start st). destruct (decide _) as [[_ Hx]|Hx].
    + rewrite aget_blit by lia. unfold mem_write. destruct (decide _) as [Hi|Hi].
      * rewrite (proj2 (Z.leb_le _ _)), (proj2 (Z.ltb_lt _ _)) by lia. cbn. f_equal. lia.
      * rewrite decide_True by done. destruct (Z.leb_spec (start st + off) x), (Z.ltb_spec x (start st + off + zlen data)); cbn; try done. lia.
    + symmetry. rewrite mem_write_out; [by rewrite decide_False |]. intros Hx'. apply Hx. split; [done |]. lia.
Qed.

Lemma write_loop_spec fuel : forall st buffer loc count p, wf st -> 0 <= loc -> loc + count <= limit st -> 0 <= p -> count <= zlen buffer -> count - p <= Z.of_nat fuel ->
  exists st', write_loop no_fault fuel st buffer loc count p = Ret (true, st') /\ same st st' /\ wf st' /\
    (forall x, view st' x = mem_write (view st) (loc + p) (slice buffer p (count - p)) x) /\ (forall x, ~ (loc + p <= x < loc + count) -> settles st st' x).
Proof.
  induction fuel as [|fuel IH]; intros st buffer loc count p Hwf Hloc Hlim Hp Hlen Hfuel; cbn [write_loop].
  { rewrite (proj2 (Z.ltb_ge p count)) by lia. exists st. split_and!; try done; [|intros x _; by left]. intros x. rewrite mem_write_out; [done |]. unfold slice. replace (Z.to_nat (count - p)) with O by lia. change (zlen (take 0 _)) with 0. lia. }
  destruct (Z.ltb_spec p count) as [Hlt|Hge]; cbn [negb].
  2: { exists st. split_and!; try done; [|intros x _; by left]. intros x. rewrite mem_write_out; [done |]. unfold slice. replace (Z.to_nat (count - p)) with O by lia. change (zlen (take 0 _)) with 0. lia. }
  pose proof (limit_bound st Hwf) as Hlb. pose proof (wf_size st Hwf) as Hsz. pose proof (wf_bs st Hwf) as Hbs.
  assert (0 <= loc + p < 2 ^ 64) as Hx by lia. rewrite (u64_small (loc + p)) by lia. set (b := (loc + p) / block_size st).
  assert (0 <= b) as Hb by (apply Z.div_pos; lia). assert (b * block_size st <= loc + p) by (pose proof (Z.mul_div_le (loc + p) (block_size st)); lia). assert (b <> UINT64_MAX) as Hmax by (unfold UINT64_MAX; nia).
  destruct (host_cache_block_spec st b Hwf Hb ltac:(lia)) as (s1 & Hs1 & Hcb). pose proof (below_limit st (loc + p) Hwf ltac:(lia)) as Hbl. fold b in Hbl. rewrite decide_True in Hcb by (apply Hbl; lia).
  destruct Hcb as (-> & Hwf1 & Hb1 & Hv1 & Hset1). cbn [negb]. destruct (chunk_spec s1 loc count p Hwf1 Hx ltac:(lia)) as (off & n & -> & Hn & Hpn & Ho & Hon & Hoff). rewrite (same_bs _ _ Hs1) in *. fold b in Hoff.
  assert (zlen (slice buffer p n) = n) as Hzn by (unfold zlen; rewrite length_slice by lia; lia).
  destruct (poke_spec s1 off (slice buffer p n)) as (Hwf2 & Hs2 & Hv2 & Hc2); [done | congruence | done | rewrite (same_bs _ _ Hs1); lia |]. cbv zeta in *. set (s2 := set_cache s1 _ _ _) in *. unfold start in Hv2. rewrite Hb1, (same_bs _ _ Hs1), Hoff in Hv2.
  destruct (IH _ buffer loc count (p + n) Hwf2) as (st' & E & Hs' & Hwf' & Hv' & Hset'); [done | rewrite (same_limit _ _ Hs2), (same_limit _ _ Hs1); done | lia | done | lia |].
  exists st'. split_and!; [exact E | do 2 (etransitivity; [eassumption |]); done | done | |].
  - intros x. rewrite Hv'. replace (loc + (p + n)) with (loc + p + n) by lia.
    assert (zlen (slice buffer (p + n) (count - (p + n))) = count - (p + n)) as Hz2 by (unfold zlen; rewrite length_slice by lia; lia). assert (zlen (slice buffer p (count - p)) = count - p) as Hz3 by (unfold zlen; rewrite length_slice by lia; lia).
    destruct (decide (loc + p + n <= x < loc + count)) as [Hin|Hout].
    + rewrite !mem_write_in by lia. rewrite !aget_slice by lia. f_equal. lia.
    + rewrite mem_write_out, Hv2 by lia. destruct (decide (loc + p <= x < loc + p + n)).
      * rewrite !mem_write_in by lia. by rewrite !aget_slice by lia.
      * rewrite !mem_write_out by lia. apply Hv1.
  - intros x Hout. destruct (Hset' x ltac:(lia)) as [Hs|Hs]; unfold settles; rewrite Hs.
    + rewrite Hc2. apply Hset1.
    + right. rewrite Hv2, mem_write_out, Hv1 by lia. done.
Qed.

(** * Undoing *)

(** Addresses of the saved data, and the bytes [c] with all of it put back, the latest first. *)
Definition covered (log : list (Z * list Z)) (x : Z) : Prop := Exists (fun e => e.1 <= x < e.1 + zlen e.2) log.
Definition undo (log : list (Z * list Z)) (c : mem) : mem := foldr (fun e c => mem_write c e.1 e.2) c log.
(** Whatever is at the addresses of the saved data: putting it back gives [orig]. *)
Definition restores (orig : mem) (log : list (Z * list Z)) : Prop := forall c, (forall x, ~ covered log x -> c x = orig x) -> forall x, undo log c x = orig x.

Lemma covered_snoc log e x : covered (log ++ [e]) x <-> covered log x \/ e.1 <= x < e.1 + zlen e.2.
Proof. unfold covered. rewrite Exists_app, Exists_cons, Exists_nil. tauto. Qed.
Lemma restores_nil orig : restores orig [].
Proof. intros c Hc x. apply Hc. by intros ?%Exists_nil. Qed.
Lemma restores_snoc orig log d loc n : 0 <= n -> restores orig log -> (forall x, ~ covered log x -> d x = orig x) -> restores orig (log ++ [(loc, load_bytes d loc (Z.to_nat n))]).
Proof.
  intros Hn Hr Hd c Hc x. unfold undo. rewrite foldr_app. cbn [foldr fst snd]. apply (Hr (mem_write c loc (load_bytes d loc (Z.to_nat n)))). intros y Hy.
  assert (zlen (load_bytes d loc (Z.to_nat n)) = n) as Hl by (rewrite zlen_load_bytes; lia). destruct (decide (loc <= y < loc + n)).
  - rewrite mem_write_in, aget_load by lia. replace (loc + (y - loc)) with y by lia. by apply Hd.
  - rewrite mem_write_out by lia. apply Hc. rewrite covered_snoc. cbn. rewrite Hl. tauto.
Qed.
