(* ===== verification/HostFlat.v ===== *)
(** The installer's device refines a plain array of bytes with a log of what was overwritten; the
    installation does on the device what it does on the array; and it can be undone: when it fails, and
    with the file of uninstall data when it has succeeded. *)

From S2P Require Import Prelude Guid GuidCorrect PartCorrect Host HostInstall HostCorrect.
Import Host.

(** * The array *)

Record flat := { disk : mem; flimit : Z; log : list (Z * list Z) }.
Definition flat_read (fl : flat) (loc count : Z) : option (list Z) :=
  if (count <=? 0) || (loc + count <=? fl.(flimit)) then Some (load_bytes fl.(disk) loc (Z.to_nat count)) else None.
Definition flat_write (fl : flat) (buffer : list Z) (loc count : Z) : bool * flat :=
  if 256 <=? zlen fl.(log) then (false, fl)
  else match flat_read fl loc count with
  | None => (false, fl)
  | Some old => (true, {| disk := mem_write fl.(disk) loc (slice buffer 0 count); flimit := fl.(flimit); log := fl.(log) ++ [(loc, old)] |})
  end.

(** * The relation *)

Definition entry_of (ud : uninstall_entry) : Z * list Z := (ud.(loc), ud.(data)).
Definition logged (st : host) : list uninstall_entry := take (Z.to_nat st.(uninstall_data_i)) st.(uninstall_data).
Record saved (st : host) (l : list (Z * list Z)) : Prop := {
  sv_len : zlen st.(uninstall_data) = UNINSTALL_DATA_MAX;
  sv_i : st.(uninstall_data_i) = zlen l;
  sv_log : entry_of <$> logged st = l;
  sv_count : Forall (fun ud => ud.(count) = zlen ud.(data) /\ 0 < ud.(count)) (logged st) }.
(** The saved data restores [orig], and the device, [c], is as it was elsewhere. *)
Record undoable (orig c : mem) (lim : Z) (l : list (Z * list Z)) : Prop := {
  un_off x : ~ covered l x -> c x = orig x;
  un_restores : restores orig l;
  un_inside : Forall (fun e => 0 <= e.1 /\ e.1 + zlen e.2 <= lim) l }.

(** While the installation goes on, and after a step of it has failed. *)
Record rel (orig : mem) (st : host) (fl : flat) : Prop := {
  rel_wf : wf st;
  rel_un : st.(uninstalling) = false;
  rel_view x : view st x = fl.(disk) x;
  rel_limit : limit st = fl.(flimit);
  rel_saved : saved st fl.(log);
  rel_undo : undoable orig st.(device).(contents) fl.(flimit) fl.(log);
  rel_disk x : ~ covered fl.(log) x -> fl.(disk) x = orig x }.
Record stopped (orig : mem) (st : host) (fl : flat) : Prop := {
  stop_wf : wf (forget_cache st);
  stop_un : st.(uninstalling) = false;
  stop_limit : limit st = fl.(flimit);
  stop_saved : saved st fl.(log);
  stop_undo : undoable orig st.(device).(contents) fl.(flimit) fl.(log) }.

Lemma forget_wf st : 1 < st.(block_size) < 2 ^ 32 -> 0 <= st.(device).(size) < 2 ^ 63 -> zlen st.(cache) = st.(block_size) -> wf (forget_cache st).
Proof. intros H1 H2 H3. by split; cbn; try done; intros ? ? [? _]. Qed.
Lemma rel_stopped orig st fl : rel orig st fl -> stopped orig st fl.
Proof. intros [Hwf ? ? ? ? ? ?]. split; try done. apply forget_wf; apply Hwf. Qed.

Lemma saved_same st st' l : same st st' -> saved st l -> saved st' l.
Proof. intros Hs []. by split; unfold logged in *; rewrite ?(same_data _ _ Hs), ?(same_i _ _ Hs). Qed.
Lemma undoable_off orig c c' lim l : (forall x, ~ covered l x -> c' x = orig x) -> undoable orig c lim l -> undoable orig c' lim l.
Proof. by intros Hc []. Qed.

Lemma device_read_rel orig st fl loc count : rel orig st fl -> 0 <= loc < 2 ^ 64 ->
  exists st', _device_read no_fault st loc count = Ret (flat_read fl loc count, st') /\ same st st' /\
    (forall x, ~ covered fl.(log) x -> st'.(device).(contents) x = orig x) /\ match flat_read fl loc count with Some _ => rel orig st' fl | None => stopped orig st' fl end.
Proof.
  intros [Hwf Hun Hv Hlim Hsv Hund Hd] Hloc. unfold _device_read, flat_read. destruct (host_read_loop_spec (Z.to_nat count) st loc count 0 [] Hwf Hloc ltac:(lia) ltac:(lia) ltac:(lia)) as (st' & Hs & Hr).
  rewrite Z.add_0_r, Z.sub_0_r, Hlim in Hr. exists st'. destruct (decide _) as [Hin|Hout].
  - assert ((count <=? 0) || (loc + count <=? flimit fl) = true) as -> by lia. destruct Hr as (-> & Hwf' & Hv' & Hset).
    assert (forall x, ~ covered (log fl) x -> contents (device st') x = orig x) as Hoff by (intros x Hx; destruct (Hset x) as [-> | ->]; [by apply Hund | rewrite Hv; by apply Hd]).
    split; [|split; [done |split; [done |]]].
    + cbn [app]. do 3 f_equal. apply load_bytes_ext. intros i Hi. apply Hv.
    + split; try done; [rewrite (same_uninstalling _ _ Hs); done | intros x; by rewrite Hv', Hv | by rewrite (same_limit _ _ Hs) | by eapply saved_same | by eapply undoable_off].
  - assert ((count <=? 0) || (loc + count <=? flimit fl) = false) as -> by lia. destruct Hr as (-> & Hc & Hl).
    assert (forall x, ~ covered (log fl) x -> contents (device st') x = orig x) as Hoff by (intros x Hx; rewrite Hc, Hv; by apply Hd).
    split; [done |split; [done |split; [done |]]]. split; [|by rewrite (same_uninstalling _ _ Hs) | by rewrite (same_limit _ _ Hs) | by eapply saved_same | by eapply undoable_off].
    apply forget_wf; rewrite ?(same_bs _ _ Hs), ?(same_size _ _ Hs); [apply Hwf..| done].
Qed.

(** Changes of the saved data and of the heap are not seen by the cache. *)
Record same_cache (st st' : host) : Prop := {
  sc_device : st'.(device) = st.(device); sc_state : st'.(cache_state) = st.(cache_state); sc_block : st'.(cached_block) = st.(cached_block);
  sc_cache : st'.(cache) = st.(cache); sc_bs : st'.(block_size) = st.(block_size) }.
Lemma same_cache_view st st' x : same_cache st st' -> view st' x = view st x.
Proof. intros []. destruct st, st'; cbn in *; subst. done. Qed.
Lemma same_cache_wf st st' : same_cache st st' -> wf st -> wf st'.
Proof. intros [] []. destruct st, st'; cbn in *; subst. done. Qed.
Lemma same_cache_limit st st' : same_cache st st' -> limit st' = limit st.
Proof. intros [H1 H2 H3 H4 H5]. unfold limit. by rewrite H1, H5. Qed.
Lemma same_cache_forget st st' : same_cache st st' -> wf (forget_cache st) -> wf (forget_cache st').
Proof. intros [H1 H2 H3 H4 H5] Hw. apply forget_wf; rewrite ?H1, ?H4, ?H5; apply Hw. Qed.

(** An entry above those that count can be anything. *)
Lemma saved_above st st' l ud : saved st l -> zlen l < UNINSTALL_DATA_MAX -> st'.(uninstall_data) = st.(uninstall_data).[st.(uninstall_data_i) := ud] -> st'.(uninstall_data_i) = st.(uninstall_data_i) -> saved st' l.
Proof.
  intros [Hl Hi Hlog Hc] Hlt Hd Hi'. assert (logged st' = logged st) as El by (unfold logged, aset; rewrite Hd, Hi'; apply take_insert_ge; lia).
  split; [by rewrite Hd, zlen_aset | by rewrite Hi' | by rewrite El..].
Qed.
Lemma saved_next st st' l ud : saved st l -> zlen l < UNINSTALL_DATA_MAX -> ud.(count) = zlen ud.(data) -> 0 < ud.(count) ->
  st'.(uninstall_data) = st.(uninstall_data).[st.(uninstall_data_i) := ud] -> st'.(uninstall_data_i) = st.(uninstall_data_i) + 1 -> saved st' (l ++ [entry_of ud]).
Proof.
  intros [Hl Hi Hlog Hc] Hlt Hcnt Hpos Hd Hi'. pose proof (zlen_nonneg l).
  assert (logged st' = logged st ++ [ud]) as El.
  { unfold logged, aset. rewrite Hd, Hi'. replace (Z.to_nat (uninstall_data_i st + 1)) with (S (Z.to_nat (uninstall_data_i st))) by lia. unfold aset. erewrite take_S_r; [|apply list_lookup_insert_eq; unfold zlen in *; lia].
    f_equal. apply take_insert_ge. lia. }
  split; [by rewrite Hd, zlen_aset | rewrite Hi', Hi, zlen_app; reflexivity | by rewrite El, fmap_app, Hlog |].
  rewrite El. apply Forall_app. split; [done | by apply Forall_singleton].
Qed.

Lemma stopped_free orig st fl p : stopped orig st fl -> stopped orig (free st p) fl.
Proof.
  intros [Hw Hu Hl Hs Hun]. unfold free. case_if; [by split |]. split; [|done | done | | done].
  - eapply same_cache_forget; [|exact Hw]. by split.
  - by destruct Hs.
Qed.
Lemma device_write_rel orig st fl buffer loc count : rel orig st fl -> 0 <= loc < 2 ^ 64 -> 0 < count <= zlen buffer ->
  exists st', _device_write no_fault st buffer loc count = Ret ((flat_write fl buffer loc count).1, st') /\ st'.(block_size) = st.(block_size) /\ st'.(device).(size) = st.(device).(size) /\
    if (flat_write fl buffer loc count).1 then rel orig st' (flat_write fl buffer loc count).2 else stopped orig st' fl.
Proof.
  intros Hrel Hloc Hcount. pose proof Hrel as [Hwf Hun Hv Hlim Hsv Hund Hd]. pose proof (sv_i _ _ Hsv) as Hi. pose proof (zlen_nonneg (log fl)) as Hnn.
  unfold _device_write, flat_write. rewrite Hun, Hi, Z.geb_leb. unfold UNINSTALL_DATA_MAX at 1. destruct (Z.leb_spec 256 (zlen (log fl))) as [Hfull|Hroom].
  { exists st. split_and!; try done. by apply rel_stopped. }
  cbn [malloc]. set (s1 := set_data _ false _ _). assert (rel orig s1 fl) as Hrel1.
  { assert (same_cache st s1) as Hsc by by split. split; [by eapply same_cache_wf | done | intros x; by rewrite (same_cache_view _ _ x Hsc) | done | eapply saved_above; [exact Hsv | unfold UNINSTALL_DATA_MAX; lia | unfold s1; cbn; by rewrite Hi |unfold s1; cbn; by rewrite Hi] | done | done]. }
  destruct (device_read_rel orig s1 fl loc count Hrel1 Hloc) as (s2 & -> & Hs2 & Hoff & Hr). cbn [mbind outcome_bind].
  destruct (flat_read fl loc count) as [old|] eqn:Eread.
  2: { eexists. split; [reflexivity |]. split; [unfold free; case_if; apply Hs2 |]. split; [unfold free; case_if; apply Hs2 |]. by apply stopped_free. }
  unfold flat_read in Eread. destruct ((count <=? 0) || (loc + count <=? flimit fl)) eqn:Hin; [|done]. injection Eread as <-. assert (0 <= loc /\ loc + count <= flimit fl) as [Hl0 Hl1] by lia.
  set (old := load_bytes (disk fl) loc (Z.to_nat count)). set (s3 := set_data s2 false _ _). assert (same_cache s2 s3) as Hsc by by split.
  destruct Hr as [Hwf2 Hun2 Hv2 Hlim2 Hsv2 Hund2 _]. assert (wf s3) as Hwf3 by by eapply same_cache_wf.
  destruct (write_loop_spec (Z.to_nat count) s3 buffer loc count 0 Hwf3) as (s4 & -> & Hs4 & Hwf4 & Hv4 & Hset); [lia | rewrite (same_cache_limit _ _ Hsc); lia | lia | lia | lia |]. rewrite Z.add_0_r, Z.sub_0_r in *.
  cbn [mbind outcome_bind negb fst snd]. eexists. split; [reflexivity |]. cbn. split; [rewrite (same_bs _ _ Hs4); cbn; apply Hs2 |]. split; [rewrite (same_size _ _ Hs4); cbn; apply Hs2 |].
  assert (zlen old = count) as Hold by (unfold old; rewrite zlen_load_bytes; lia).
  assert (forall x, ~ covered (log fl ++ [(loc, old)]) x -> ~ covered (log fl) x /\ ~ (loc <= x < loc + count)) as Hcov by (intros x; rewrite covered_snoc; cbn; rewrite Hold; tauto).
  assert (zlen (slice buffer 0 count) = count) as Hzs by (unfold zlen; rewrite length_slice by lia; lia).
  split; cbn; try done.
  - eapply same_cache_wf; [|exact Hwf4]. by split.
  - intros x. transitivity (view s4 x); [apply same_cache_view; by split |]. rewrite Hv4. unfold mem_write. case_if; [done |]. rewrite (same_cache_view _ _ x Hsc). apply Hv2.
  - rewrite <- Hlim2. transitivity (limit s4); [apply same_cache_limit; by split |]. rewrite (same_limit _ _ Hs4). by apply same_cache_limit.
  - eapply (saved_next s2 _ (log fl) {| data := old; loc := loc; count := count; ptr := _ |}); [exact Hsv2 | unfold UNINSTALL_DATA_MAX; lia | done | cbn; lia | cbn | cbn].
    + rewrite (same_data _ _ Hs4). unfold s3. cbn. by rewrite (sv_i _ _ Hsv2).
    + by rewrite (sv_i _ _ Hsv2).
  - split; [|by apply restores_snoc; [lia | apply Hund |] | apply Forall_app; split; [apply Hund | apply Forall_singleton; cbn; lia]].
    intros x Hx. destruct (Hcov x Hx) as [Hx1 Hx2]. destruct (Hset x Hx2) as [Hc|Hc]; cbn in Hc; rewrite Hc; [by apply Hund2 |]. rewrite (same_cache_view _ _ x Hsc), Hv2. by apply Hd.
  - intros x Hx. destruct (Hcov x Hx) as [Hx1 Hx2]. rewrite mem_write_out by lia. by apply Hd.
Qed.

(** * Putting back *)

Definition entry_ok (lim : Z) (ud : uninstall_entry) : Prop := ud.(count) = zlen ud.(data) /\ 0 <= ud.(loc) /\ ud.(loc) + ud.(count) <= lim.
Definition write_all (l : list (Z * list Z)) (c : mem) : mem := foldl (fun c e => mem_write c e.1 e.2) c l.

Lemma write_all_ext l : forall c c', (forall x, c x = c' x) -> forall x, write_all l c x = write_all l c' x.
Proof. induction l as [|e l IH]; intros c c' Hc; [done |]. apply IH. intros x. unfold mem_write. case_if; [done | apply Hc]. Qed.
Lemma write_all_reverse l c : write_all (reverse l) c = undo l c.
Proof. induction l as [|e l IH]; [done |]. rewrite reverse_cons. unfold write_all. rewrite foldl_app. cbn [foldl]. fold (write_all (reverse l) c). by rewrite IH. Qed.

Lemma undo_loop_spec l : forall st w f, wf st -> st.(uninstalling) = true -> Forall (entry_ok (limit st)) l ->
  exists st', undo_loop no_fault l st w f = Ret (w, f, st') /\ wf st' /\ same st st' /\ forall x, view st' x = write_all (entry_of <$> l) (view st) x.
Proof.
  induction l as [|ud l IH]; intros st w f Hwf Hun HF; cbn [undo_loop]; [by exists st |]. apply Forall_cons in HF as [(Hc & Hl0 & Hl1) HF].
  unfold undo_entry, _device_write. rewrite Hun. destruct (write_loop_spec (Z.to_nat (count ud)) st (data ud) (loc ud) (count ud) 0 Hwf) as (s1 & -> & Hs1 & Hwf1 & Hv1 & _); [done | done | lia | lia | lia |]. cbn [mbind outcome_bind].
  rewrite !andb_true_r. destruct (IH s1 w f Hwf1) as (st' & E & Hwf' & Hs' & Hv'); [by rewrite (same_uninstalling _ _ Hs1) | by rewrite (same_limit _ _ Hs1) |].
  exists st'. split; [done |]. split; [done |]. split; [by etransitivity |]. intros x. rewrite Hv'. cbn [write_all fmap list_fmap foldl]. apply write_all_ext. intros y. rewrite Hv1, Z.add_0_r, Z.sub_0_r. cbn. by rewrite slice_all.
Qed.

Lemma uninstall_spec st : wf (forget_cache st) -> Forall (entry_ok (limit st)) (logged st) ->
  exists st', uninstall no_fault st = Ret (true, st') /\ same (set_data st true st.(uninstall_data) st.(uninstall_data_i)) st' /\ forall x, st'.(device).(contents) x = write_all (entry_of <$> logged st) st.(device).(contents) x.
Proof.
  intros Hwf HF. unfold uninstall. set (s0 := forget_cache _). assert (wf s0) as Hwf0 by (eapply same_cache_wf; [|exact Hwf]; by split).
  destruct (undo_loop_spec (logged st) s0 true true Hwf0 eq_refl HF) as (s1 & E & Hwf1 & Hs1 & Hv1). unfold logged in E. change (uninstall_data st) with (uninstall_data s0) in E. change (uninstall_data_i st) with (uninstall_data_i s0) in E. rewrite E. cbn [mbind outcome_bind].
  destruct (flush_spec s1 Hwf1) as (s2 & -> & Hwf2 & Hs2 & _ & _ & Hc2 & _). exists s2. split; [done |]. split; [|].
  - etransitivity; [|exact Hs2]. destruct Hs1. by split.
  - intros x. rewrite Hc2, Hv1. apply write_all_ext. intros y. rewrite view_clean; done.
Qed.

Lemma reverse_spec st l : saved st l -> logged (reverse_uninstall_data st) = reverse (logged st) /\ zlen (reverse_uninstall_data st).(uninstall_data) = UNINSTALL_DATA_MAX.
Proof.
  intros [Hl Hi Hlog _]. pose proof (zlen_nonneg l) as Hnn. set (i := uninstall_data_i st) in *. set (arr := uninstall_data st) in *.
  assert (0 <= i <= UNINSTALL_DATA_MAX) as Hi2.
  { split; [lia |]. rewrite Hi, <- Hlog. unfold logged, zlen in *. rewrite length_fmap, length_take. fold arr. lia. }
  assert (let r := for_up (Z.to_nat i) 0 (fun k r => r.[i - 1 - k := arr.[k]]) (replicate (Z.to_nat UNINSTALL_DATA_MAX) no_entry) in
    zlen r = UNINSTALL_DATA_MAX /\ forall j, i - Z.of_nat (Z.to_nat i) <= j < i -> r.[j] = arr.[i - 1 - j]) as [Hr1 Hr2].
  { apply (for_up_ind (fun k r => zlen r = UNINSTALL_DATA_MAX /\ forall j, i - k <= j < i -> r.[j] = arr.[i - 1 - j])).
    - split; [done |]. lia.
    - intros k r Hk [Hz Hj]. split; [by rewrite zlen_aset |]. intros j Hj'. rewrite aget_aset by lia. destruct (Z.eqb_spec (i - 1 - k) j) as [<-|]; [f_equal; lia |]. apply Hj. lia. }
  set (r := for_up _ _ _ _) in *. cbv zeta in Hr1, Hr2. unfold reverse_uninstall_data. fold i arr r. cbv zeta. cbn [uninstall_data].
  assert (take (Z.to_nat i) r = reverse (take (Z.to_nat i) arr)) as Et.
  { apply list_eq_same_length with (n := Z.to_nat i); [rewrite length_reverse, length_take; unfold zlen in *; lia | rewrite length_take; unfold zlen in *; lia |]. intros k x y Hk Hx Hy.
    rewrite lookup_take_lt in Hx by lia. rewrite reverse_lookup in Hy by (rewrite length_take; unfold zlen in *; lia). rewrite length_take, lookup_take_lt in Hy by (unfold zlen in *; lia).
    apply list_lookup_total_correct in Hx, Hy. pose proof (Hr2 (Z.of_nat k) ltac:(lia)) as He. unfold aget in He. rewrite Nat2Z.id in He. rewrite <- Hx, <- Hy, He. f_equal. unfold zlen in *. lia. }
  split.
  - unfold logged. cbn [uninstall_data uninstall_data_i set_data]. fold i arr. rewrite take_app_le by (rewrite length_take; unfold zlen in *; lia). rewrite take_take, Nat.min_id. exact Et.
  - cbn [set_data uninstall_data]. unfold zlen in *. rewrite length_app, length_take, length_drop. lia.
Qed.

(** After a failure everything is put back. *)
Lemma undo_stopped orig st fl : stopped orig st fl -> exists st', uninstall no_fault (reverse_uninstall_data st) = Ret (true, st') /\
  (forall x, st'.(device).(contents) x = orig x) /\ st'.(device).(size) = st.(device).(size) /\ st'.(uninstall_data_i) <= UNINSTALL_DATA_MAX.
Proof.
  intros [Hwf Hun Hlim Hsv [Hoff Hres Hin]]. destruct (reverse_spec st _ Hsv) as [Hrev _]. destruct (uninstall_spec (reverse_uninstall_data st)) as (st' & E & Hs & Hc).
  - eapply same_cache_forget; [|exact Hwf]. by split.
  - rewrite Hrev. rewrite reverse_Permutation. destruct Hsv as [_ _ Hlog Hcnt]. rewrite <- Hlog in Hin. apply Forall_fmap in Hin. apply Forall_forall. intros ud Hud.
    destruct (proj1 (Forall_forall _ _) Hin ud Hud) as [H0 H1]. destruct (proj1 (Forall_forall _ _) Hcnt ud Hud) as [H2 H3]. cbn in *. split; [done |]. rewrite H2. unfold limit in *. cbn. rewrite Hlim. done.
  - exists st'. split; [done |]. split; [|split].
    + intros x. rewrite Hc, Hrev, fmap_reverse, write_all_reverse. destruct Hsv as [_ _ -> _]. apply Hres. exact Hoff.
    + by rewrite (same_size _ _ Hs).
    + rewrite (same_i _ _ Hs). cbn. destruct Hsv as [Hl -> Hlog _]. rewrite <- Hlog. unfold logged, zlen in *. rewrite length_fmap, length_take. lia.
Qed.

Import HostInstall.

#[export] Instance flat_disk : Disk flat := {|
  device_read loc count fl := Ret (flat_read fl loc count, fl);
  device_write buffer loc count fl := Ret (if (flat_write fl buffer loc count).1 then Some tt else None, (flat_write fl buffer loc count).2) |}.
#[export] Instance good_disk : Disk host := host_disk no_fault.

Section sim.
Context (orig : mem).

(** The two programs do the same and return the same, which satisfies [P]. *)
Definition sim {A} (m : M host A) (f : M flat A) (P : A -> Prop) : Prop := forall st fl, rel orig st fl ->
  exists r st' fl', m st = Ret (r, st') /\ f fl = Ret (r, fl') /\ st'.(block_size) = st.(block_size) /\ st'.(device).(size) = st.(device).(size) /\ fl'.(flimit) = fl.(flimit) /\
    match r with Some a => rel orig st' fl' /\ P a | None => stopped orig st' fl' end.

Lemma sim_ret {A} (a : A) (P : A -> Prop) : P a -> sim (mret a) (mret a) P.
Proof. intros HP st fl Hr. by eexists _, _, _. Qed.
Lemma sim_cleanup {A} (P : A -> Prop) : sim cleanup cleanup P.
Proof. intros st fl Hr. eexists _, _, _. split_and!; try reflexivity. by apply rel_stopped. Qed.
Lemma sim_bind {A B} (m : M host A) (f : M flat A) (k : A -> M host B) (k' : A -> M flat B) P Q :
  sim m f P -> (forall a, P a -> sim (k a) (k' a) Q) -> sim (m ≫= k) (f ≫= k') Q.
Proof.
  intros Hm Hk st fl Hr. destruct (Hm st fl Hr) as (r & s1 & f1 & E1 & E2 & Hb & Hs & Hl & Hr1). unfold mbind, M_bind. rewrite E1, E2. cbn [mbind outcome_bind].
  destruct r as [a|]; [|eexists None, _, _; by split_and!]. destruct Hr1 as [Hr1 Ha]. destruct (Hk a Ha s1 f1 Hr1) as (r & s2 & f2 & -> & -> & Hb2 & Hs2 & Hl2 & Hr2).
  exists r, s2, f2. rewrite Hb2, Hs2, Hl2. by split_and!.
Qed.
Lemma sim_weaken {A} (m : M host A) f (P Q : A -> Prop) : sim m f P -> (forall a, P a -> Q a) -> sim m f Q.
Proof. intros Hm HPQ st fl Hr. destruct (Hm st fl Hr) as (r & s1 & f1 & ? & ? & ? & ? & ? & Hp). exists r, s1, f1. split_and!; try done. destruct r; [|done]. naive_solver. Qed.
Lemma sim_read loc count : 0 <= loc < 2 ^ 64 -> sim (device_read loc count) (device_read loc count) (fun l => zlen l = Z.max 0 count).
Proof.
  intros Hloc st fl Hr. destruct (device_read_rel orig st fl loc count Hr Hloc) as (st' & E & Hs & _ & Hp). cbn. rewrite E. eexists _, st', fl. split_and!; [done.. | apply Hs | apply Hs | done |].
  destruct (flat_read fl loc count) as [l|] eqn:El; [|done]. split; [done |]. unfold flat_read in El. case_if; [|done]. injection El as <-. rewrite zlen_load_bytes. lia.
Qed.
Lemma sim_write buffer loc count : 0 <= loc < 2 ^ 64 -> 0 < count <= zlen buffer -> sim (device_write buffer loc count) (device_write buffer loc count) (fun _ => True).
Proof.
  intros Hloc Hc st fl Hr. destruct (device_write_rel orig st fl buffer loc count Hr Hloc Hc) as (st' & E & Hb & Hs & Hp). cbn. rewrite E. cbn [mbind outcome_bind].
  eexists _, st', _. split_and!; [reflexivity | reflexivity | done | done | |].
  - unfold flat_write. by repeat case_match.
  - destruct (flat_write fl buffer loc count) as [b fl'] eqn:Ew. cbn in *. destruct b; [done |]. unfold flat_write in Ew. repeat case_match; simplify_eq; done.
Qed.

Context (bigendian : bool).

Lemma zlen_word_bytes n x : zlen (word_bytes bigendian n x) = Z.of_nat n.
Proof. unfold word_bytes, zlen, Guid.le_bytes. destruct bigendian; rewrite ?length_rev, length_fmap, length_seq; done. Qed.
Lemma zlen_swapped n x : zlen (swapped bigendian n x) = Z.of_nat n.
Proof. apply zlen_word_bytes. Qed.
Lemma zlen_lba2chs x : zlen (lba2chs x) = 3.
Proof. unfold lba2chs. by repeat case_if. Qed.
Lemma u64_range x : 0 <= u64 x < 2 ^ 64.
Proof. apply u64_bound. Qed.

(** A step of a simulation. *)
Ltac sim_step :=
  first
  [ apply sim_ret; [done]
  | apply sim_cleanup
  | eapply sim_bind; [solve [apply sim_read; first [lia | apply u64_range]] | intros ? ?; cbv beta in *]
  | eapply sim_bind; [solve [apply sim_write; [first [lia | apply u64_range] | rewrite ?zlen_replicate, ?zlen_swapped, ?zlen_lba2chs; first [lia | unfold zlen; cbn; lia]]] | intros ? _]
  | eapply sim_weaken; [solve [apply sim_write; [first [lia | apply u64_range] | rewrite ?zlen_replicate, ?zlen_swapped, ?zlen_lba2chs; first [lia | unfold zlen; cbn; lia]]] | intros ? _; done]
  | eapply sim_weaken; [solve [apply sim_read; first [lia | apply u64_range]] | intros ? _; done]
  | case_if ].

Lemma sim_hint offset at_ n sig zeros force m f : 0 < zeros -> sim m f (fun _ => True) -> sim (hint_step offset at_ n sig zeros force m) (hint_step offset at_ n sig zeros force f) (fun _ => True).
Proof. intros Hz Hm. unfold hint_step. sim_step. destruct (bool_decide _); [|done]. destruct (negb force); [by sim_step |]. sim_step. done. Qed.
Lemma sim_validate offset force : sim (validate_or_force bigendian offset force) (validate_or_force bigendian offset force) (fun _ => True).
Proof. unfold validate_or_force. do 4 (apply sim_hint; [lia |]). repeat sim_step. Qed.

Lemma sim_probe l : Forall (fun g => 0 < g <= 4096) l ->
  sim (probe_gpt l) (probe_gpt l) (fun r => match r with Some (g, h) => 0 < g <= 4096 /\ zlen h = sizeof_header | None => True end).
Proof. induction 1 as [|g l Hg HF IH]; cbn [probe_gpt]; [by sim_step |]. sim_step. destruct (has_signature _); [by apply sim_ret | exact IH]. Qed.
Lemma sim_secondary lb h : sim (check_secondary bigendian lb h) (check_secondary bigendian lb h) (fun _ => True).
Proof. unfold check_secondary. repeat sim_step. Qed.

Definition part_ok (p : part_to_conv) : Prop := zlen p.(chs_start) = 3 /\ zlen p.(chs_end) = 3.
Lemma sim_gather n : forall i h base acc, Forall part_ok acc -> zlen acc <= 4 ->
  sim (gather bigendian n i h base acc) (gather bigendian n i h base acc) (fun r => match r with Some l => Forall part_ok l /\ zlen l <= 4 | None => True end).
Proof.
  induction n as [|n IH]; intros i h base acc HF Hl; cbn [gather]; [by apply sim_ret |]. unfold add_u64_overflow. destruct (base >? _); [by sim_step |]. sim_step. destruct (is_unused _ _); [by apply IH |].
  destruct (Z.eqb_spec (zlen acc) 4) as [|Hne]; [by sim_step |]. do 3 (case_if; [by sim_step |]). destruct (_ =? -1); [by sim_step |]. apply IH.
  - apply Forall_app. split; [done |]. apply Forall_singleton. split; apply zlen_lba2chs.
  - rewrite zlen_app. change (zlen [_]) with 1. lia.
Qed.
Lemma sim_nuke n : forall first i lb, 0 < lb -> sim (nuke n first i lb) (nuke n first i lb) (fun _ => True).
Proof. induction n as [|n IH]; intros first i lb Hlb; cbn [nuke]; [by sim_step |]. sim_step. by apply IH. Qed.
Lemma sim_disk_id rand n : forall i, 0 <= i -> i + Z.of_nat n <= 4 -> sim (write_disk_id rand n i) (write_disk_id rand n i) (fun _ => True).
Proof. induction n as [|n IH]; intros i Hi Hn; cbn [write_disk_id]; [by sim_step |]. sim_step. apply IH; lia. Qed.
Lemma sim_partitions l : forall i, 0 <= i -> i + zlen l <= 4 -> Forall part_ok l -> sim (write_partitions bigendian l i) (write_partitions bigendian l i) (fun _ => True).
Proof.
  induction l as [|p l IH]; intros i Hi Hl HF; cbn [write_partitions]; [by sim_step |]. apply Forall_cons in HF as [[H1 H2] HF]. rewrite zlen_cons in Hl. pose proof (zlen_nonneg l). cbv zeta.
  repeat sim_step. apply IH; [lia | lia | done].
Qed.
Lemma sim_convert rand lb h : 0 < lb -> sim (convert bigendian rand lb h) (convert bigendian rand lb h) (fun _ => True).
Proof.
  intros Hlb. unfold convert. sim_step. case_if; [by sim_step |]. unfold mul_u64_overflow. case_if; [by sim_step |]. eapply sim_bind; [by apply sim_gather; [constructor |] |]. intros [l|] Hl; [|by sim_step]. destruct Hl as [HF Hl].
  eapply sim_bind; [|intros ? _; by sim_step]. unfold write_mbr. eapply sim_bind; [by apply sim_nuke | intros ? _]. eapply sim_bind; [case_if; [by apply sim_nuke | by sim_step] | intros ? _].
  eapply sim_bind; [by apply sim_disk_id | intros ? _]. by apply sim_partitions.
Qed.

Lemma sim_mbr_entry force at_ st : 0 <= at_ < 2 ^ 32 -> sim (mbr_entry bigendian force at_ st) (mbr_entry bigendian force at_ st) (fun _ => True).
Proof.
  intros Hat. unfold mbr_entry. destruct st as [mbr act]. sim_step. eapply sim_bind with (P := fun _ => True); [repeat case_if; repeat sim_step |]. intros [h8 mbr'] _. sim_step. case_if; repeat sim_step.
Qed.
Lemma sim_mbr_entries force l : forall st, Forall (fun a => 0 <= a < 2 ^ 32) l -> sim (mbr_entries bigendian force l st) (mbr_entries bigendian force l st) (fun _ => True).
Proof. induction l as [|a l IH]; intros st HF; cbn [mbr_entries]; [by sim_step |]. apply Forall_cons in HF as [Ha HF]. eapply sim_bind; [by apply sim_mbr_entry | intros st' _]. by apply IH. Qed.
Lemma sim_check_mbr force : sim (check_mbr bigendian force) (check_mbr bigendian force) (fun _ => True).
Proof.
  unfold check_mbr. eapply sim_bind; [apply sim_mbr_entries; repeat constructor; lia |]. intros [mbr act] _. eapply sim_bind with (P := fun _ => True); [destruct mbr; [apply sim_validate | by sim_step] |]. intros mbr' _.
  eapply sim_bind with (P := fun _ => True); [case_if; by sim_step |]. intros _ _. destruct mbr'; by sim_step.
Qed.

Lemma sim_entry h base k : sim (read_entry bigendian h base k) (read_entry bigendian h base k) (fun _ => True).
Proof. unfold read_entry, add_u64_overflow. case_if; repeat sim_step. Qed.
Lemma sim_autodetect n : forall k h base, sim (autodetect bigendian n k h base) (autodetect bigendian n k h base) (fun _ => True).
Proof. induction n as [|n IH]; intros k h base; cbn [autodetect]; [by sim_step |]. eapply sim_bind; [apply sim_entry | intros e _]. destruct (is_bios_boot e); [by sim_step | apply IH]. Qed.
Lemma sim_stage2 force part lb h : sim (gpt_stage2 bigendian force part lb h) (gpt_stage2 bigendian force part lb h) (fun s => 0 <= s < 2 ^ 64).
Proof.
  unfold gpt_stage2. eapply sim_bind with (P := fun _ => True).
  - unfold choose_partition, mul_u64_overflow. case_if; [by sim_step |]. destruct part as [s|]; [|apply sim_autodetect]. destruct (sscanf_u32 s); [|by sim_step]. case_if; [by sim_step |]. eapply sim_bind; [apply sim_entry | intros e _]. do 2 (case_if; [by sim_step |]). by sim_step.
  - intros e _. case_if; [by sim_step |]. unfold mul_u64_overflow. do 3 (case_if; [by sim_step |]). eapply sim_bind; [apply sim_validate | intros v _]. destruct v; [|by sim_step]. apply sim_ret, u64_range.
Qed.

Lemma sim_stages img s : 512 < zlen img -> 0 <= s < 2 ^ 64 -> sim (write_stages bigendian img s) (write_stages bigendian img s) (fun _ => True).
Proof.
  intros Himg Hs. unfold write_stages. do 2 sim_step. assert (forall a n, 0 <= a -> 0 <= n -> a + n <= zlen img -> zlen (slice img a n) = n) as Hsl by (intros; unfold zlen at 1; rewrite length_slice; lia).
  eapply sim_bind; [apply sim_write; [lia | rewrite Hsl; lia] | intros ? _]. eapply sim_bind; [apply sim_write; [done | rewrite Hsl; lia] | intros ? _]. repeat sim_step.
Qed.

(** The installation on the device and on the array. *)
Lemma sim_install rand img o : 512 < zlen img -> sim (install bigendian rand img o) (install bigendian rand img o) (fun _ => True).
Proof.
  intros Himg. unfold install. eapply sim_bind; [apply sim_probe; repeat constructor; lia |]. intros gpt Hg. eapply sim_bind with (P := fun _ => True).
  { destruct gpt as [[lb h]|]; [apply sim_secondary | by sim_step]. }
  intros ? _. eapply sim_bind with (P := fun _ => True).
  { destruct gpt as [[lb h]|]; [|by sim_step]. destruct (gpt2mbr_allowed o); [apply sim_convert; lia | by sim_step]. }
  intros conv _. eapply sim_bind with (P := fun s => 0 <= s < 2 ^ 64); [|intros s Hs; by apply sim_stages].
  destruct conv; [|destruct gpt as [[lb h]|]; [apply sim_stage2 |]]; (eapply sim_bind; [apply sim_check_mbr | intros ? _; apply sim_ret; lia]).
Qed.
End sim.

(** * The start *)

Definition fresh (c : mem) (n : Z) : flat := {| disk := c; flimit := n / 512 * 512; log := [] |}.

Lemma saved_nil st : st.(uninstall_data) = replicate (Z.to_nat UNINSTALL_DATA_MAX) no_entry -> st.(uninstall_data_i) = 0 -> HostFlat.saved st [].
Proof. intros Hd Hi. split; [by rewrite Hd | done | unfold logged; by rewrite Hi | unfold logged; rewrite Hi; constructor]. Qed.
Lemma init_short st l : st.(device).(size) < 512 -> Forall (fun g => 512 <= g) l -> exists st', init_loop no_fault l st = (false, st') /\
  st'.(device).(contents) = st.(device).(contents) /\ st'.(device).(size) = st.(device).(size) /\ st'.(uninstall_data_i) = st.(uninstall_data_i).
Proof.
  intros Hs HF. revert st Hs. induction HF as [|g l Hg HF IH]; intros st Hs; cbn [init_loop]; [by exists st |]. unfold fread_cache, transferred, failing, no_fault. cbn. change (fun _ : nat => None) with no_fault. rewrite (proj2 (Z.eqb_neq _ g)) by lia. cbn [negb].
  match goal with |- context [init_loop _ l ?s] => destruct (IH s Hs) as (st' & -> & ? & ? & ?) end. by exists st'.
Qed.
Lemma init_first l c n : 512 <= n -> exists st, init_loop no_fault (512 :: l) (opened c n) = (true, st) /\ st.(block_size) = 512 /\ st.(device).(size) = n /\ st.(device).(contents) = c /\ st.(cache_state) = CACHE_CLEAN /\ st.(cached_block) = 0 /\
  st.(cache) = load_bytes c 0 (Z.to_nat 512) ++ drop (Z.to_nat 512) (take (Z.to_nat 512) ([] ++ replicate (Z.to_nat 512) 0)) /\ st.(uninstalling) = false /\
  st.(uninstall_data) = replicate (Z.to_nat UNINSTALL_DATA_MAX) no_entry /\ st.(uninstall_data_i) = 0.
Proof.
  intros Hn. cbn [init_loop]. unfold fread_cache, transferred, failing, no_fault. cbn [opened device contents size pos ops set_cache set_device cache cache_state cached_block negb andb].
  rewrite Z.sub_0_r, Z.min_l, Z.max_r, Z.eqb_refl by lia. cbn [negb]. eexists. split; [reflexivity |]. done.
Qed.
Lemma init_opened c n : 512 <= n < 2 ^ 63 -> exists st, device_init no_fault (opened c n) = (true, st) /\ rel c st (fresh c n) /\ st.(device).(size) = n /\ st.(block_size) = 512 /\ st.(device).(contents) = c.
Proof.
  intros Hn. unfold device_init. destruct (init_first [2048; 4096] c n ltac:(lia)) as (st & -> & H1 & H2 & H3 & H4 & H5 & H6 & H7 & H8 & H9). exists st. split; [done |]. split; [|done].
  assert (forall x, 0 <= x < 512 -> (load_bytes c 0 (Z.to_nat 512) ++ drop (Z.to_nat 512) (take (Z.to_nat 512) ([] ++ replicate (Z.to_nat 512) 0))).[x] = c x) as Hload.
  { intros x Hx. rewrite aget_app_l by (rewrite zlen_load_bytes; lia). rewrite aget_load by lia. f_equal. }
  assert (wf st) as Hwf.
  { split; rewrite ?H1, ?H2, ?H3, ?H4, ?H5, ?H6; try done; [lia | intros _; unfold start; rewrite H1, H5; lia |].
    intros _ x [_ Hx]. unfold start in *. rewrite H1, H5 in *. rewrite Z.sub_0_r. apply Hload. lia. }
  split; [done | done | | unfold limit; by rewrite H1, H2 | by apply saved_nil | | done].
  - intros x. by rewrite view_clean, H3.
  - split; [by rewrite H3 | apply restores_nil | constructor].
Qed.

(** * An installation *)

Lemma free_device l : forall st, (foldl (fun st ud => free st ud.(ptr)) st l).(device) = st.(device).
Proof. induction l as [|ud l IH]; intros st; [done |]. cbn [foldl]. rewrite IH. unfold free. by case_if. Qed.

(** Without faults of the device: it is as it was, or as the array after the installation. *)
Lemma run_install bigendian rand img o file c n : 512 < zlen img -> 0 <= n < 2 ^ 63 -> o.(uninstall_mode) = false ->
  exists r, run no_fault bigendian rand img o file (opened c n) = Ret r /\ r.(final).(device).(size) = n /\
    ((r.(ok) = false /\ (forall x, r.(final).(device).(contents) x = c x) /\ (n < 512 \/ exists fl, install bigendian rand img o (fresh c n) = Ret (None, fl))) \/
     (r.(ok) = true /\ 512 <= n /\ exists st fl, install bigendian rand img o (fresh c n) = Ret (Some tt, fl) /\ (forall x, r.(final).(device).(contents) x = fl.(disk) x) /\
       stopped c st fl /\ (forall x, ~ covered fl.(log) x -> fl.(disk) x = c x) /\ st.(device).(size) = n /\ st.(block_size) = 512 /\ r.(saved) = if o.(uninstall_file) then store_uninstall_data bigendian (reverse_uninstall_data st) else None)).
Proof.
  intros Himg Hn Hmode. unfold run. rewrite Hmode. destruct (decide (512 <= n)) as [Hge|Hlt].
  2: { unfold device_init. destruct (init_short (opened c n) [512; 2048; 4096]) as (st' & -> & Hc & Hs & Hi); [cbn; lia | repeat constructor; lia |]. cbn [negb].
    unfold free_uninstall_data. rewrite Hi. cbn [opened uninstall_data_i]. change (0 >? UNINSTALL_DATA_MAX) with false. cbn [mbind outcome_bind]. eexists. split; [reflexivity |]. cbn [final ok]. rewrite free_device, Hs, Hc. split; [done |]. left. split; [done |]. split; [done |]. left. lia. }
  destruct (init_opened c n ltac:(lia)) as (st0 & -> & Hrel & Hsize & Hbs & _). cbn [negb]. destruct (sim_install c bigendian rand img o Himg st0 (fresh c n) Hrel) as (r & st & fl & E1 & E2 & Hb & Hs & Hl & Hr).
  unfold good_disk in E1. rewrite E1. cbn [mbind outcome_bind]. destruct r as [[]|].
  - destruct Hr as [Hr _]. destruct (flush_spec st (rel_wf _ _ _ Hr)) as (s1 & -> & Hwf1 & Hs1 & _ & _ & Hc1 & _). unfold finish. cbn [negb].
    assert (stopped c s1 fl) as Hst. { apply rel_stopped in Hr as Hst. destruct Hst as [? Hun Hlim Hsv Hund]. split; [apply forget_wf; apply Hwf1 | by rewrite (same_uninstalling _ _ Hs1) | by rewrite (same_limit _ _ Hs1) | by eapply saved_same |]. eapply undoable_off; [|exact Hund]. intros x Hx. rewrite Hc1, (rel_view _ _ _ Hr). by apply (rel_disk _ _ _ Hr). }
    assert (uninstall_data_i (reverse_uninstall_data s1) <= UNINSTALL_DATA_MAX) as Hi. { destruct (stop_saved _ _ _ Hst) as [Hz Hi Hlog _]. cbn. rewrite Hi, <- Hlog. unfold logged, zlen in *. rewrite length_fmap, length_take. lia. }
    unfold free_uninstall_data. rewrite Z.gtb_ltb, (proj2 (Z.ltb_ge _ _)) by done. cbn [mbind outcome_bind].
    eexists. split; [reflexivity |]. cbn [final ok]. rewrite free_device. split; [cbn; rewrite (same_size _ _ Hs1); lia |]. right. split; [done |]. split; [done |]. exists s1, fl. split; [done |]. split; [intros x; cbn; rewrite Hc1; apply (rel_view _ _ _ Hr) |]. split; [done |]. split; [apply (rel_disk _ _ _ Hr) |]. split; [rewrite (same_size _ _ Hs1); lia |]. split; [rewrite (same_bs _ _ Hs1); lia |]. cbn [HostInstall.saved]. by destruct (uninstall_file o).
  - unfold finish. cbn [negb]. destruct (undo_stopped c st fl Hr) as (s1 & -> & Hc & Hs1 & Hi). cbn [mbind outcome_bind]. unfold free_uninstall_data. rewrite Z.gtb_ltb, (proj2 (Z.ltb_ge _ _)) by done. cbn [mbind outcome_bind].
    eexists. split; [reflexivity |]. cbn [final ok]. rewrite free_device. split; [rewrite Hs1; lia |]. left. split; [done |]. split; [done |]. right. by exists fl.
Qed.

(** * The file *)

Lemma word_roundtrip bigendian x : 0 <= x < 2 ^ 64 -> word bigendian (word_bytes bigendian 8 x) = x.
Proof.
  intros Hx. unfold word, word_bytes. destruct bigendian; [rewrite rev_involutive |]; apply of_le_bytes; change (256 ^ Z.of_nat 8) with (2 ^ 64); lia.
Qed.
Lemma fread_app (l r : list Z) k : k = zlen l -> 0 < k -> fread_file (l ++ r) k = Some (l, r).
Proof.
  intros -> Hk. unfold fread_file. rewrite zlen_app. pose proof (zlen_nonneg r). rewrite (proj2 (Z.eqb_neq _ 0)), (proj2 (Z.ltb_ge _ _)) by lia. cbn [orb]. unfold zlen. by rewrite Nat2Z.id, take_app_length, drop_app_length.
Qed.
Lemma fread_word bigendian x (r : list Z) : fread_file (word_bytes bigendian 8 x ++ r) 8 = Some (word_bytes bigendian 8 x, r).
Proof. apply fread_app; [by rewrite zlen_word_bytes | lia]. Qed.

(** What the file keeps of an entry. *)
Definition kept (ud : uninstall_entry) : list Z * Z * Z := (ud.(data), ud.(loc), ud.(count)).
Definition storable (ud : uninstall_entry) : Prop := ud.(count) = zlen ud.(data) /\ 0 < ud.(count) < 2 ^ 64 /\ 0 <= ud.(loc) < 2 ^ 64.

Lemma store_some bigendian l : Forall storable l -> exists f, store_entries bigendian l = Some f.
Proof.
  induction 1 as [|ud l (Hc & Hp & _) HF [f IH]]; cbn [store_entries]; [by eexists |]. rewrite (proj2 (Z.eqb_neq _ 0)), IH by lia. cbn. by eexists.
Qed.
Lemma load_entries_spec bigendian es : forall i f st, store_entries bigendian es = Some f -> Forall storable es -> zlen st.(uninstall_data) = UNINSTALL_DATA_MAX -> 0 <= i -> i + zlen es <= UNINSTALL_DATA_MAX ->
  exists st', load_entries bigendian (length es) i f st = (true, st') /\ same_cache st st' /\ st'.(uninstall_data_i) = st.(uninstall_data_i) /\
    kept <$> take (Z.to_nat (i + zlen es)) st'.(uninstall_data) = (kept <$> take (Z.to_nat i) st.(uninstall_data)) ++ (kept <$> es).
Proof.
  induction es as [|ud es IH]; intros i f st Hf HF Hl Hi Hle; cbn [load_entries length]; cbn [store_entries] in Hf.
  { exists st. split; [done |]. split; [by split |]. split; [done |]. change (zlen []) with 0. by rewrite Z.add_0_r, app_nil_r. }
  apply Forall_cons in HF as [(Hc & Hp & Hloc) HF]. rewrite zlen_cons in Hle. pose proof (zlen_nonneg es) as Hnn. rewrite (proj2 (Z.eqb_neq _ 0)) in Hf by lia. destruct (store_entries bigendian es) as [f'|]; cbn in Hf; [|done]. injection Hf as <-.
  rewrite fread_word, fread_word, !word_roundtrip by lia. cbn [malloc]. rewrite slice_all, fread_app by (done || lia).
  match goal with |- context [load_entries _ _ _ _ ?s] => set (s1 := s) end.
  assert (uninstall_data s1 = (uninstall_data st).[i := {| data := data ud; loc := loc ud; count := count ud; ptr := next_ptr st |}]) as Hd.
  { unfold s1. cbn. unfold aset. by rewrite !list_insert_insert_eq. }
  destruct (IH (i + 1) f' s1 eq_refl HF) as (st' & -> & Hsc & Hi' & Hk); [rewrite Hd, zlen_aset; done | lia | lia |]. exists st'. split; [done |]. split; [by destruct Hsc; split |]. split; [done |].
  rewrite zlen_cons. replace (i + (1 + zlen es)) with (i + 1 + zlen es) by lia. rewrite Hk, Hd. unfold aset. replace (Z.to_nat (i + 1)) with (S (Z.to_nat i)) by lia.
  erewrite take_S_r; [|apply list_lookup_insert_eq; unfold zlen in *; lia]. rewrite take_insert_ge by lia. rewrite fmap_app, <- app_assoc. done.
Qed.
Lemma load_spec bigendian st st0 f : store_uninstall_data bigendian st = Some f -> Forall storable (logged st) -> st.(uninstall_data_i) = zlen (logged st) -> zlen (logged st) <= UNINSTALL_DATA_MAX -> zlen st0.(uninstall_data) = UNINSTALL_DATA_MAX ->
  exists st', load_uninstall_data bigendian f st0 = (true, st') /\ same_cache st0 st' /\ st'.(uninstall_data_i) = st.(uninstall_data_i) /\ kept <$> logged st' = kept <$> logged st.
Proof.
  intros Hs HF Hi Hle Hl. unfold store_uninstall_data in Hs. fold (logged st) in Hs. destruct (store_entries bigendian (logged st)) as [g|] eqn:Eg; cbn in Hs; [|done]. injection Hs as <-. pose proof (zlen_nonneg (logged st)) as Hnn.
  assert (zlen (logged st) < 2 ^ 64) by (unfold UNINSTALL_DATA_MAX in *; lia). unfold load_uninstall_data. rewrite fread_word, word_roundtrip by lia. rewrite Z.gtb_ltb, (proj2 (Z.ltb_ge _ _)) by lia. set (s1 := set_data st0 _ _ _).
  destruct (load_entries_spec bigendian (logged st) 0 g s1 Eg HF Hl ltac:(lia) ltac:(lia)) as (st' & E & Hsc & Hi' & Hk). rewrite Hi. replace (Z.to_nat (zlen (logged st))) with (length (logged st)) by (unfold zlen; lia). rewrite E.
  exists st'. split; [done |]. split; [by destruct Hsc; split |]. split; [by rewrite Hi'; unfold s1; cbn |]. cbn [Z.add] in Hk. unfold logged at 1. rewrite Hi'. unfold s1 at 1. cbn [set_data uninstall_data_i]. rewrite Hi. exact Hk.
Qed.

(** An uninstallation with the file that the installation stored. *)
Lemma uninstall_restores bigendian rand img o st fl orig c n f : stopped orig st fl -> st.(device).(size) = n -> st.(block_size) = 512 -> 512 <= n < 2 ^ 63 -> o.(uninstall_mode) = true -> is_Some o.(uninstall_file) ->
  (forall x, ~ covered fl.(log) x -> c x = orig x) -> store_uninstall_data bigendian (reverse_uninstall_data st) = Some f ->
  exists r, run no_fault bigendian rand img o (Some f) (opened c n) = Ret r /\ r.(ok) = true /\ r.(final).(device).(size) = n /\ forall x, r.(final).(device).(contents) x = orig x.
Proof.
  intros [Hwf Hun Hlim Hsv [_ Hres Hin]] Hn Hbs Hsz Hm [name Hname] Hc Hf. unfold run. rewrite Hm, Hname. destruct (init_opened c n ltac:(lia)) as (s0 & -> & Hrel & Hs0 & Hb0 & Hc0). cbn [negb].
  destruct (reverse_spec st _ Hsv) as [Hrev _]. pose proof (zlen_nonneg (log fl)) as Hnn. assert (zlen (log fl) <= UNINSTALL_DATA_MAX) as Hmax. { destruct Hsv as [Hz _ <- _]. unfold logged, zlen in *. rewrite length_fmap, length_take. lia. }
  assert (zlen (logged st) = zlen (log fl)) as Hzl by (destruct Hsv as [_ _ <- _]; unfold zlen; by rewrite length_fmap).
  assert (Forall (fun ud => storable ud /\ entry_ok (limit s0) ud) (logged st)) as Hent.
  { destruct Hsv as [_ _ Hlog Hcnt]. rewrite <- Hlog in Hin. apply Forall_fmap in Hin. apply Forall_forall. intros ud Hud. destruct (proj1 (Forall_forall _ _) Hin ud Hud) as [H0 H1]. destruct (proj1 (Forall_forall _ _) Hcnt ud Hud) as [H2 H3]. cbn in H0, H1.
    assert (limit s0 = limit st) as El by (unfold limit; rewrite Hs0, Hb0, Hn, Hbs; done). assert (limit st <= n) by (unfold limit; rewrite Hn, Hbs; pose proof (Z.mul_div_le n 512); lia). rewrite <- Hlim in *. split; [split; [done | lia] | split; [done | rewrite El; lia]]. }
  apply Forall_and in Hent as [Hst Hok].
  assert (zlen (logged (reverse_uninstall_data st)) = zlen (log fl)) as Hz2 by (rewrite Hrev; unfold zlen in *; by rewrite length_reverse).
  destruct (load_spec bigendian (reverse_uninstall_data st) s0 f Hf) as (s1 & -> & Hsc & Hi1 & Hk1).
  { rewrite Hrev, reverse_Permutation. exact Hst. }
  { cbn. by rewrite (sv_i _ _ Hsv), Hz2. }
  { lia. }
  { apply (rel_saved _ _ _ Hrel). }
  cbn [negb]. rewrite Hrev in Hk1.
  assert (entry_of <$> logged s1 = reverse (log fl)) as Hent1.
  { assert (forall l, entry_of <$> l = (fun k => (k.1.2, k.1.1)) <$> (kept <$> l)) as Hko by (intros l; rewrite <- list_fmap_compose; done). rewrite Hko, Hk1, <- Hko, fmap_reverse. by rewrite (sv_log _ _ Hsv). }
  destruct (uninstall_spec s1) as (s2 & -> & Hs2 & Hc2).
  - eapply same_cache_forget; [exact Hsc |]. apply (stop_wf _ _ _ (rel_stopped _ _ _ Hrel)).
  - rewrite (same_cache_limit _ _ Hsc). assert (forall l l' k, kept <$> l = kept <$> l' -> Forall (entry_ok k) l' -> Forall (entry_ok k) l) as Hkk.
    { induction l as [|a l IH]; intros [|b l'] k E HF; try done. unfold kept in E. cbn in E. injection E as E1 E2 E3 E4. apply Forall_cons in HF as [Hb HF]. constructor; [|by eapply IH]. unfold entry_ok. by rewrite E1, E2, E3. }
    eapply Hkk; [exact Hk1 |]. by rewrite reverse_Permutation.
  - cbn [mbind outcome_bind]. unfold free_uninstall_data. rewrite (same_i _ _ Hs2). cbn [set_data uninstall_data_i]. rewrite Hi1. cbn [reverse_uninstall_data set_data uninstall_data_i]. rewrite (sv_i _ _ Hsv), Z.gtb_ltb, (proj2 (Z.ltb_ge _ _)) by lia. cbn [mbind outcome_bind].
    eexists. split; [reflexivity |]. cbn [final ok]. rewrite free_device. split; [done |]. split; [rewrite (same_size _ _ Hs2); cbn; rewrite (sc_device _ _ Hsc); done |].
    intros x. rewrite Hc2, Hent1, write_all_reverse. apply Hres. intros y Hy. rewrite (sc_device _ _ Hsc), Hc0. by apply Hc.
Qed.
