(* ===== verification/HostMbr.v ===== *)
(** Numbers of either byte order, running the steps of an installation on an array, and what it writes
    to a device with an MBR. *)

From S2P Require Import Limlz LimlzCorrect.
From S2P Require Import Prelude Guid GuidCorrect PartCorrect Fat32Correct Host HostInstall HostCorrect HostFlat.
Import Guid Host HostInstall.

(** * Byte order *)

Lemma le_bytes_of_le l : Forall is_byte l -> le_bytes (length l) (of_le l) = l.
Proof.
  induction 1 as [|b l Hb HF IH]; [done |]. unfold le_bytes in *. cbn [length seq fmap list_fmap of_le foldr]. fold (of_le l). unfold is_byte in Hb. f_equal.
  - change (8 * Z.of_nat 0) with 0. rewrite Z.shiftr_0_r. unfold u8, wrap. change (2 ^ 8) with 256. rewrite (Z.mul_comm 256), Z.mod_add by lia. by apply Z.mod_small.
  - rewrite <- IH at 2. rewrite <- seq_shift, <- list_fmap_compose. apply list_fmap_ext. intros i k _. cbn. f_equal. rewrite Nat2Z.inj_succ. replace (8 * Z.succ (Z.of_nat k)) with (8 + 8 * Z.of_nat k) by lia. rewrite <- Z.shiftr_shiftr by lia. f_equal.
    rewrite Z.shiftr_div_pow2 by lia. change (2 ^ 8) with 256. rewrite (Z.mul_comm 256), Z.div_add by lia. rewrite Z.div_small by lia. lia.
Qed.

Ltac swap_bits Hk Hb8 := destruct_or! Hk; destruct_or! Hb8; subst; testbit_const; rewrite ?andb_false_r, ?andb_true_r, ?orb_false_r, ?orb_false_l, ?Z.shiftr_spec, ?Z.shiftl_spec by lia; done.
Lemma endswap16_byte v k : k = 0 \/ k = 8 -> u8 (Z.shiftr (Pack.endswap16 v) (8 - k)) = u8 (Z.shiftr v k).
Proof.
  intros Hk. unfold u8, wrap. apply Z.bits_inj'; intros b Hb. destruct (decide (b < 8)); [|by rewrite !Z.mod_pow2_bits_high by lia]. rewrite !Z.mod_pow2_bits_low, !Z.shiftr_spec by lia. unfold Pack.endswap16. rewrite !Z.lor_spec, !Z.land_spec.
  assert (b = 0 \/ b = 1 \/ b = 2 \/ b = 3 \/ b = 4 \/ b = 5 \/ b = 6 \/ b = 7) as Hb8 by lia. swap_bits Hk Hb8.
Qed.
Lemma endswap64_byte v k : k = 0 \/ k = 8 \/ k = 16 \/ k = 24 \/ k = 32 \/ k = 40 \/ k = 48 \/ k = 56 -> u8 (Z.shiftr (Pack.endswap64 v) (56 - k)) = u8 (Z.shiftr v k).
Proof.
  intros Hk. unfold u8, wrap. apply Z.bits_inj'; intros b Hb. destruct (decide (b < 8)); [|by rewrite !Z.mod_pow2_bits_high by lia]. rewrite !Z.mod_pow2_bits_low, !Z.shiftr_spec by lia. unfold Pack.endswap64. rewrite !Z.lor_spec, !Z.land_spec.
  assert (b = 0 \/ b = 1 \/ b = 2 \/ b = 3 \/ b = 4 \/ b = 5 \/ b = 6 \/ b = 7) as Hb8 by lia. swap_bits Hk Hb8.
Qed.
Lemma le_bytes_swap16 v : le_bytes 2 (Pack.endswap16 v) = rev (le_bytes 2 v).
Proof. unfold le_bytes. cbn. f_equal; [apply (endswap16_byte v 8); lia |]. f_equal. apply (endswap16_byte v 0); lia. Qed.
Lemma le_bytes_swap32 v : le_bytes 4 (Pack.endswap32 v) = rev (le_bytes 4 v).
Proof. unfold le_bytes. cbn. f_equal; [apply (endswap32_byte v 24); lia |]. f_equal; [apply (endswap32_byte v 16); lia |]. f_equal; [apply (endswap32_byte v 8); lia |]. f_equal. apply (endswap32_byte v 0); lia. Qed.
Lemma le_bytes_swap64 v : le_bytes 8 (Pack.endswap64 v) = rev (le_bytes 8 v).
Proof.
  unfold le_bytes. cbn. do 7 (f_equal; [first [apply (endswap64_byte v 56); lia | apply (endswap64_byte v 48); lia | apply (endswap64_byte v 40); lia | apply (endswap64_byte v 32); lia | apply (endswap64_byte v 24); lia | apply (endswap64_byte v 16); lia | apply (endswap64_byte v 8); lia] |]).
  f_equal. apply (endswap64_byte v 0); lia.
Qed.
Lemma masked n x : 0 <= n -> Z.land x (Z.ones n) = x -> 0 <= x < 2 ^ n.
Proof. intros Hn Hx. rewrite <- Hx, Z.land_ones by lia. apply Z.mod_pos_bound. lia. Qed.
Lemma endswap_range v : 0 <= Pack.endswap16 v < 2 ^ 16 /\ 0 <= Pack.endswap32 v < 2 ^ 32 /\ 0 <= Pack.endswap64 v < 2 ^ 64.
Proof.
  split; [|split]; (apply masked; [lia |]); unfold Pack.endswap16, Pack.endswap32, Pack.endswap64; rewrite !Z.land_lor_distr_l, <- !Z.land_assoc; reflexivity.
Qed.
(** What is swapped after it was read, and before it is written, is little-endian on either host. *)
Lemma endswap_read bigendian l : Forall is_byte l -> zlen l = 2 \/ zlen l = 4 \/ zlen l = 8 -> ENDSWAP bigendian (zlen l) (word bigendian l) = of_le l.
Proof.
  intros HF Hl. unfold ENDSWAP, word. destruct bigendian; [|done]. pose proof (le_bytes_of_le (rev l)) as Hr. rewrite length_rev in Hr. specialize (Hr ltac:(by apply Forall_rev)).
  destruct (endswap_range (of_le (rev l))) as (H2 & H4 & H8).
  assert (forall n x, length l = n -> 0 <= x < 256 ^ Z.of_nat n -> le_bytes n x = rev (le_bytes n (of_le (rev l))) -> x = of_le l) as Hgo.
  { intros n x Hn Hx He. rewrite <- (of_le_bytes n x) by done. rewrite He, <- Hn, Hr, rev_involutive. done. }
  destruct Hl as [Hl | [Hl | Hl]]; rewrite Hl; cbn [Z.eqb Pos.eqb]; (eapply Hgo; [unfold zlen in Hl; instantiate (1 := Z.to_nat (zlen l)); unfold zlen; lia | rewrite Hl; try done | rewrite Hl]).
  - apply le_bytes_swap16.
  - apply le_bytes_swap32.
  - apply le_bytes_swap64.
Qed.
Lemma swapped_le bigendian n x : n = 2%nat \/ n = 4%nat \/ n = 8%nat -> swapped bigendian n x = le_bytes n x.
Proof.
  intros Hn. unfold swapped, ENDSWAP, word_bytes. destruct bigendian; [|done]. destruct_or! Hn; subst n; [change (rev (le_bytes 2 (Pack.endswap16 x)) = le_bytes 2 x); rewrite le_bytes_swap16 | change (rev (le_bytes 4 (Pack.endswap32 x)) = le_bytes 4 x); rewrite le_bytes_swap32 | change (rev (le_bytes 8 (Pack.endswap64 x)) = le_bytes 8 x); rewrite le_bytes_swap64]; apply rev_involutive.
Qed.
Lemma field_le bigendian l off n : Forall is_byte l -> n = 2 \/ n = 4 \/ n = 8 -> 0 <= off -> off + n <= zlen l -> field bigendian l off n = of_le (slice l off n).
Proof.
  intros HF Hn Ho Hl. unfold field. assert (zlen (slice l off n) = n) as Hz by (unfold zlen; rewrite length_slice; lia). rewrite <- Hz at 1. apply endswap_read; [by apply Forall_slice | by rewrite Hz].
Qed.

(** * Running on an array *)

(** The program goes on with [a] and an array that satisfy [Q]. *)
Definition runs {A} (m : M flat A) (fl : flat) (Q : A -> flat -> Prop) : Prop := exists a fl', m fl = Ret (Some a, fl') /\ Q a fl'.

Lemma runs_ret {A} (a : A) fl Q : Q a fl -> runs (mret a) fl Q.
Proof. intros HQ. by exists a, fl. Qed.
Lemma runs_weaken {A} (m : M flat A) fl (P Q : A -> flat -> Prop) : runs m fl P -> (forall a fl', P a fl' -> Q a fl') -> runs m fl Q.
Proof. intros (a & fl' & E & HP) HQ. exists a, fl'. auto. Qed.
Lemma runs_bind {A B} (m : M flat A) (k : A -> M flat B) fl Q : runs m fl (fun a fl' => runs (k a) fl' Q) -> runs (m ≫= k) fl Q.
Proof. intros (a & f1 & E & b & f2 & E2 & HQ). exists b, f2. unfold mbind, M_bind. rewrite E. cbn [mbind outcome_bind]. by rewrite E2. Qed.
Lemma runs_read fl loc n Q : loc + n <= fl.(flimit) -> Q (load_bytes fl.(disk) loc (Z.to_nat n)) fl -> runs (device_read loc n) fl Q.
Proof. intros Hl HQ. eexists _, fl. split; [|exact HQ]. cbn. unfold flat_read. by rewrite orb_comm, (proj2 (Z.leb_le _ _)) by lia. Qed.
Lemma runs_write fl buffer loc n Q : loc + n <= fl.(flimit) -> zlen fl.(log) < 256 ->
  Q tt {| disk := mem_write fl.(disk) loc (slice buffer 0 n); flimit := fl.(flimit); log := fl.(log) ++ [(loc, load_bytes fl.(disk) loc (Z.to_nat n))] |} -> runs (device_write buffer loc n) fl Q.
Proof.
  intros Hl Hlog HQ. eexists _, _. split; [|exact HQ]. cbn. unfold flat_write, flat_read. rewrite (proj2 (Z.leb_gt _ _)) by lia. by rewrite orb_comm, (proj2 (Z.leb_le _ _)) by lia.
Qed.

(** * Reading and writing *)

(** No file system that is looked for starts at [offset]. *)
Definition no_fs (d : mem) (offset : Z) : Prop :=
  load_bytes d (offset + 3) 4 <> bytes "NTFS" /\ load_bytes d (offset + 54) 3 <> bytes "FAT" /\ load_bytes d (offset + 82) 3 <> bytes "FAT" /\ load_bytes d (offset + 3) 5 <> bytes "FAT32" /\
  of_le (load_bytes d (offset + 1080) 2) <> 0xef53.
(** The device [d] with the image on it: the boot sector with the place of stage 2, but with the
    timestamp and the partition table as they were, and stage 2 at [loc]. *)
Definition staged (img : list Z) (loc : Z) (d : mem) (x : Z) : Z :=
  if (218 <=? x) && (x <? 224) || (440 <=? x) && (x <? 510) then d x
  else if (420 <=? x) && (x <? 428) then (le_bytes 8 loc).[x - 420]
  else if (0 <=? x) && (x <? 512) then img.[x]
  else if (loc <=? x) && (x <? loc + (zlen img - 512)) then img.[512 + (x - loc)] else d x.

Section device.
Context (bigendian : bool) (d : mem) (Hbytes : forall x, is_byte (d x)).

Lemma load_all_bytes a n : Forall is_byte (load_bytes d a n).
Proof. unfold load_bytes. apply Forall_fmap, Forall_forall. intros x _. apply Hbytes. Qed.
Lemma aget_load1 a : (load_bytes d a (Z.to_nat 1)).[0] = d a.
Proof. rewrite aget_load by lia. f_equal. lia. Qed.
Lemma field_load a n : n = 2 \/ n = 4 \/ n = 8 -> field bigendian (load_bytes d a (Z.to_nat n)) 0 n = of_le (load_bytes d a (Z.to_nat n)).
Proof. intros Hn. rewrite field_le by (first [apply load_all_bytes | rewrite zlen_load_bytes; lia | lia]). by rewrite slice_all by (rewrite zlen_load_bytes; lia). Qed.
Lemma signature_load a : has_signature (load_bytes d a (Z.to_nat sizeof_header)) = bool_decide (load_bytes d a 8 = bytes "EFI PART").
Proof. unfold has_signature. rewrite (load_slice d a 96) by (try done; apply slice_all; by rewrite zlen_load_bytes). by rewrite Z.add_0_r. Qed.

Lemma hint_skip fl offset at_ n sig zeros force rest Q : fl.(disk) = d -> 0 <= offset + at_ < 2 ^ 64 -> offset + at_ + n <= fl.(flimit) -> load_bytes d (offset + at_) (Z.to_nat n) <> sig ->
  runs rest fl Q -> runs (hint_step offset at_ n sig zeros force rest) fl Q.
Proof. intros Hf Ha Hl Hne Hr. unfold hint_step. apply runs_bind. rewrite u64_small by lia. apply runs_read; [lia |]. rewrite Hf. by rewrite bool_decide_eq_false_2. Qed.
Lemma validate_passes fl offset force Q : fl.(disk) = d -> no_fs d offset -> 0 <= offset -> offset + 1082 <= fl.(flimit) -> fl.(flimit) < 2 ^ 64 -> Q true fl -> runs (validate_or_force bigendian offset force) fl Q.
Proof.
  intros Hf (H1 & H2 & H3 & H4 & H5) Ho Hl Hl2 HQ. unfold validate_or_force. do 4 (apply hint_skip; [done | lia | lia | assumption |]). apply runs_bind. rewrite u64_small by lia. apply runs_read; [lia |]. rewrite Hf.
  rewrite field_load by lia. change (Z.to_nat 2) with 2%nat. rewrite (proj2 (Z.eqb_neq _ _) H5). by apply runs_ret.
Qed.
End device.

Lemma stages_at bigendian fl img loc : 512 < zlen img -> 512 <= loc -> loc + (zlen img - 512) <= fl.(flimit) -> zlen fl.(log) <= 1 ->
  runs (write_stages bigendian img loc) fl (fun _ fl' => forall x, fl'.(disk) x = staged img loc fl.(disk) x).
Proof.
  intros Himg Hloc Hl Hlog. unfold write_stages. do 2 (apply runs_bind, runs_read; [lia |]). do 4 (apply runs_bind, runs_write; [cbn [flimit]; lia | cbn [HostFlat.log]; rewrite ?zlen_app; change (zlen [_]) with 1 || idtac; unfold zlen in *; cbn [length]; lia |]; cbn [disk flimit HostFlat.log]).
  apply runs_write; [cbn [flimit]; lia | cbn [HostFlat.log]; rewrite ?zlen_app; unfold zlen in *; cbn [length]; lia |]. cbn [disk].
  rewrite swapped_le by lia. set (ts := load_bytes (disk fl) 218 (Z.to_nat 6)). set (tb := load_bytes (disk fl) 440 (Z.to_nat 70)).
  assert (forall a n, 0 <= a -> 0 <= n -> a + n <= zlen img -> zlen (slice img a n) = n) as Hsl by (intros; unfold zlen at 1; rewrite length_slice; lia).
  assert (zlen ts = 6 /\ zlen tb = 70) as [Hts Htb] by (unfold ts, tb; rewrite !zlen_load_bytes; lia). rewrite (slice_all ts), (slice_all tb), (slice_all (le_bytes 8 loc)) by (first [done | apply zlen_le_bytes]). intros x. unfold staged.
  rewrite (slice_all (slice img 0 512)), (slice_all (slice img 512 _)) by (rewrite Hsl; lia). unfold mem_write. rewrite Hts, Htb, zlen_le_bytes, !Hsl by lia. change (Z.of_nat 8) with 8.
  destruct ((440 <=? x) && (x <? 440 + 70)) eqn:E1.
  { assert ((440 <=? x) && (x <? 510) = true) as -> by lia. rewrite orb_true_r. unfold tb. rewrite aget_load by lia. f_equal. lia. }
  assert ((440 <=? x) && (x <? 510) = false) as -> by lia. rewrite orb_false_r. change (218 + 6) with 224. destruct ((218 <=? x) && (x <? 224)) eqn:E2.
  { unfold ts. rewrite aget_load by lia. f_equal. lia. }
  change (420 + 8) with 428. destruct ((420 <=? x) && (x <? 428)); [done |]. change (0 + 512) with 512. destruct ((0 <=? x) && (x <? 512)) eqn:E5.
  { assert ((loc <=? x) && (x <? loc + (zlen img - 512)) = false) as -> by lia. rewrite aget_slice by lia. f_equal. lia. }
  destruct ((loc <=? x) && (x <? loc + (zlen img - 512))) eqn:E4; [|done]. by rewrite aget_slice by lia.
Qed.

(** * A device with an MBR *)

Definition entries : list Z := [446; 462; 478; 494].
(** Is there an active partition? *)
Definition active (d : mem) : bool := existsb (fun a => d a =? 0x80) entries.
(** No GPT, entries with a valid flag and a start that leaves room, no file system in the first
    blocks. *)
Record mbr_device (d : mem) : Prop := {
  md_bytes x : is_byte (d x);
  md_no_gpt : load_bytes d 512 8 <> bytes "EFI PART" /\ load_bytes d 4096 8 <> bytes "EFI PART";
  md_flag a : a ∈ entries -> d a = 0 \/ d a = 0x80;
  md_start a : a ∈ entries -> d (a + 4) = 0 \/ 63 <= of_le (load_bytes d (a + 8) 4);
  md_no_fs : no_fs d 0 }.
(** The device after the installation: the image with the place of stage 2, the timestamp and the
    partition table as they were, in which the first partition is active if none was. *)
Definition mbr_after (img : list Z) (d : mem) (x : Z) : Z :=
  if (x =? 446) && negb (active d) then 0x80
  else if (218 <=? x) && (x <? 224) || (440 <=? x) && (x <? 510) then d x
  else if (420 <=? x) && (x <? 428) then (le_bytes 8 512).[x - 420]
  else if (0 <=? x) && (x <? zlen img) then img.[x] else d x.

Section mbr.
Context (bigendian : bool) (d : mem) (Hd : mbr_device d).

Lemma entry_passes fl force a act Q : fl.(disk) = d -> 512 <= fl.(flimit) -> a ∈ entries -> Q (true, act || (d a =? 0x80)) fl -> runs (mbr_entry bigendian force a (true, act)) fl Q.
Proof.
  intros Hf Hl Ha HQ. assert (446 <= a <= 494) as Hr by (unfold entries in Ha; repeat (apply elem_of_cons in Ha as [->|Ha]; [lia |]); by apply not_elem_of_nil in Ha).
  unfold mbr_entry. apply runs_bind, runs_read; [lia |]. rewrite Hf, aget_load1. apply runs_bind.
  assert (negb (d a =? 0) && negb (d a =? 128) = false) as -> by (destruct (md_flag d Hd a Ha) as [-> | ->]; done). apply runs_ret. cbn beta iota.
  assert (negb (Z.land (d a) 0x80 =? 0) = (d a =? 0x80)) as -> by (destruct (md_flag d Hd a Ha) as [-> | ->]; done). apply runs_bind, runs_read; [lia |]. rewrite Hf, aget_load1.
  destruct (Z.eqb_spec (d (a + 4)) 0); cbn [negb]; [by apply runs_ret |]. apply runs_bind, runs_read; [lia |]. rewrite Hf, (field_load bigendian d (md_bytes d Hd)) by lia. destruct (md_start d Hd a Ha) as [|Hs]; [done |]. change (Z.to_nat 4) with 4%nat. rewrite (proj2 (Z.ltb_ge _ _)) by lia. by apply runs_ret.
Qed.

(** The array after the checks: one byte may have been written. *)
Definition checked (fl : flat) : Prop := zlen fl.(log) <= 1 /\ forall x, fl.(disk) x = if (x =? 446) && negb (active d) then 0x80 else d x.
Lemma check_passes fl force Q : fl.(disk) = d -> fl.(log) = [] -> 1082 <= fl.(flimit) -> fl.(flimit) < 2 ^ 64 -> (forall fl', fl'.(flimit) = fl.(flimit) -> checked fl' -> Q tt fl') -> runs (check_mbr bigendian force) fl Q.
Proof.
  intros Hf Hlog Hl Hl2 HQ. unfold check_mbr. apply runs_bind. unfold mbr_entries. do 4 (apply runs_bind, entry_passes; [done | lia | unfold entries; set_solver |]). apply runs_ret. cbn beta iota.
  assert (false || (d 446 =? 0x80) || (d 462 =? 0x80) || (d 478 =? 0x80) || (d 494 =? 0x80) = active d) as -> by (unfold active, entries; cbn [existsb]; btauto).
  apply runs_bind, (validate_passes bigendian d (md_bytes d Hd)); [done | apply Hd | lia | lia | lia |]. apply runs_bind. cbn [andb]. destruct (active d) eqn:Ea; cbn [negb].
  - apply runs_ret. apply runs_ret. apply HQ; [done |]. split; [by rewrite Hlog |]. intros x. by rewrite Ea, andb_false_r, Hf.
  - apply runs_write; [lia | by rewrite Hlog |]. apply runs_ret. apply HQ; [done |]. cbn. split; [by rewrite Hlog |]. intros x. rewrite Ea, andb_true_r, Hf. cbn [negb disk]. unfold mem_write. change (slice [128] 0 1) with [128]. change (446 + zlen [128]) with 447.
    destruct (Z.eqb_spec x 446) as [->|]; [done |]. assert ((446 <=? x) && (x <? 447) = false) as -> by lia. done.
Qed.

Lemma probe_none fl Q : fl.(disk) = d -> 4192 <= fl.(flimit) -> Q None fl -> runs (probe_gpt [512; 4096]) fl Q.
Proof.
  intros Hf Hl HQ. destruct (md_no_gpt d Hd) as [H1 H2].
  unfold probe_gpt. do 2 (apply runs_bind, runs_read; [unfold sizeof_header; lia |]; rewrite Hf, signature_load, bool_decide_eq_false_2 by done). by apply runs_ret.
Qed.

Lemma staged_mbr fl img x : checked fl -> 512 < zlen img -> staged img 512 fl.(disk) x = mbr_after img d x.
Proof.
  intros [_ Hfl] Himg. unfold staged, mbr_after. rewrite !Hfl. destruct (Z.eqb_spec x 446) as [->|Hne]; [by destruct (negb (active d)) |]. cbn [andb]. destruct (_ || _); [done |]. destruct (_ && _); [done |].
  destruct (Z.leb_spec 0 x), (Z.ltb_spec x 512), (Z.leb_spec 512 x), (Z.ltb_spec x (zlen img)), (Z.ltb_spec x (512 + (zlen img - 512))); cbn [andb]; try done; try lia. f_equal. lia.
Qed.

Lemma install_mbr rand img o fl : fl.(disk) = d -> fl.(log) = [] -> 512 < zlen img -> 4192 <= fl.(flimit) < 2 ^ 64 -> zlen img <= fl.(flimit) ->
  runs (install bigendian rand img o) fl (fun _ fl' => forall x, fl'.(disk) x = mbr_after img d x).
Proof.
  intros Hf Hlog Himg Hl Hl2. unfold install. apply runs_bind, probe_none; [done | lia |]. apply runs_bind, runs_ret. apply runs_bind, runs_ret. cbn beta iota. apply runs_bind. apply runs_bind, check_passes; [done | done | lia | lia |]. intros fl' Hfl Hc. apply runs_ret.
  eapply runs_weaken; [apply stages_at; [done | lia | rewrite Hfl; lia | apply Hc] |]. intros u fl2 Hs x. rewrite Hs. by apply staged_mbr.
Qed.
End mbr.
