(* ===== verification/HostBios.v ===== *)
(** The installer's theorems: the conversion of the GPT of a hybrid ISO image, its device against an array
    of bytes, what an installation leaves behind when it fails and when it succeeds, and its defects. *)

From S2P Require Import Prelude Guid GuidCorrect PartCorrect Host HostInstall HostCorrect HostFlat HostMbr.
Import Guid Host HostInstall.

(** * Cylinders, heads and sectors *)

(** The address that the bytes of [lba2chs] stand for. *)
Definition chs2lba (chs : list Z) : Z := ((chs.[2] + 256 * (chs.[1] / 64)) * 255 + chs.[0]) * 63 + chs.[1] mod 64 - 1.
Lemma lba2chs_decodes lba : 0 <= lba < 1024 * 255 * 63 -> chs2lba (lba2chs lba) = lba /\ Forall is_byte (lba2chs lba).
Proof.
  intros Hl. unfold lba2chs. rewrite Z.gtb_ltb, (proj2 (Z.ltb_ge _ _)) by lia. set (c := lba / (255 * 63)). assert (0 <= c < 1024) as Hc by (split; [apply Z.div_pos; lia | apply Z.div_lt_upper_bound; lia]).
  rewrite Z.geb_leb, (proj2 (Z.leb_gt _ _)) by lia. cbv zeta. set (h := (lba / 63) mod 255). set (s := lba mod 63 + 1). assert (0 <= h < 255) as Hh by (apply Z.mod_pos_bound; lia). assert (1 <= s <= 63) as Hs by (pose proof (Z.mod_pos_bound lba 63); lia).
  assert (lba = (c * 255 + h) * 63 + s - 1) as E.
  { unfold c, h, s. pose proof (Z.div_mod lba 63 ltac:(lia)). pose proof (Z.div_mod (lba / 63) 255 ltac:(lia)). rewrite Z.div_div in * by lia. replace (255 * 63) with (63 * 255) by lia. lia. }
  assert (Z.land (Z.shiftr c 2) 0xc0 = 64 * (c / 256)) as -> by (apply Z.eqb_eq; apply (seqZ_forallb (fun c => Z.land (Z.shiftr c 2) 0xc0 =? 64 * (c / 256)) 1024); [vm_compute; reflexivity | lia]).
  assert (0 <= c / 256 < 4) as Hk by (split; [apply Z.div_pos; lia | apply Z.div_lt_upper_bound; lia]). set (k := c / 256) in *.
  assert (Z.lor (64 * k) (Z.land s 0x3f) = 64 * k + s) as ->.
  { pose proof (seqZ_forallb (fun x => Z.lor (64 * (x / 64)) (Z.land (x mod 64) 0x3f) =? x) 256 (64 * k + s) ltac:(vm_compute; reflexivity) ltac:(lia)) as Hx. apply Z.eqb_eq in Hx.
    replace ((64 * k + s) / 64) with k in Hx by (apply (Z.div_unique _ _ k s); lia). replace ((64 * k + s) mod 64) with s in Hx by (apply (Z.mod_unique _ _ k s); lia). done. }
  unfold chs2lba. change ([u8 h; 64 * k + s; u8 c].[2]) with (u8 c). change ([u8 h; 64 * k + s; u8 c].[1]) with (64 * k + s). change ([u8 h; 64 * k + s; u8 c].[0]) with (u8 h). rewrite (u8_small h) by lia.
  replace ((64 * k + s) / 64) with k by (apply (Z.div_unique _ _ k s); lia). replace ((64 * k + s) mod 64) with s by (apply (Z.mod_unique _ _ k s); lia).
  assert (u8 c = c - 256 * k) as -> by (unfold u8, wrap, k; change (2 ^ 8) with 256; pose proof (Z.div_mod c 256); lia).
  split; [lia |]. assert (0 <= c - 256 * k < 256) by (unfold k; pose proof (Z.div_mod c 256); pose proof (Z.mod_pos_bound c 256); lia). unfold is_byte. repeat (apply Forall_cons; split; [cbv beta; lia |]). constructor.
Qed.

(** * Partitions *)

Section convert.
Context (bigendian : bool).

(** A partition that has a counterpart in an MBR, and that counterpart. *)
Definition conv (e : list Z) : part_to_conv :=
  {| lba_start := starting_lba bigendian e; lba_end := ending_lba bigendian e; chs_start := lba2chs (starting_lba bigendian e); chs_end := lba2chs (ending_lba bigendian e);
     type := u8 (gpt2mbr_type (field bigendian e 0 8) (field bigendian e 8 8)) |}.
Definition convertible (e : list Z) : Prop :=
  0 <= starting_lba bigendian e <= ending_lba bigendian e /\ ending_lba bigendian e < 0xffffffff /\ gpt2mbr_type (field bigendian e 0 8) (field bigendian e 8 8) <> -1.
Definition gpt_entry (d : mem) (h : list Z) (base i : Z) : list Z := load_bytes d (base + i * size_of_partition_entry bigendian h) (Z.to_nat sizeof_entry).
Definition used (l : list (list Z)) : list (list Z) := filter (fun e => is_unused bigendian e = false) l.

Lemma gather_spec h base fl n : forall i acc, 0 <= i -> 0 <= base -> 0 <= size_of_partition_entry bigendian h -> fl.(flimit) < 2 ^ 63 ->
  base + (i + Z.of_nat n) * size_of_partition_entry bigendian h + sizeof_entry <= fl.(flimit) ->
  Forall convertible (used (gpt_entry fl.(disk) h base <$> seqZ i (Z.of_nat n))) -> zlen acc + zlen (used (gpt_entry fl.(disk) h base <$> seqZ i (Z.of_nat n))) <= 4 ->
  runs (gather bigendian n i h base acc) fl (fun r fl' => fl' = fl /\ r = Some (acc ++ (conv <$> used (gpt_entry fl.(disk) h base <$> seqZ i (Z.of_nat n))))).
Proof.
  induction n as [|n IH]; intros i acc Hi Hb Hs Hlim Hl HF Hc; cbn [gather]; [apply runs_ret; split; [done |]; cbn; by rewrite app_nil_r |].
  set (sz := size_of_partition_entry bigendian h) in *. rewrite seqZ_cons in * by lia. replace (Z.pred (Z.of_nat (S n))) with (Z.of_nat n) in * by lia. cbn [fmap list_fmap] in *. change (Z.succ i) with (i + 1) in *.
  unfold add_u64_overflow. assert (0 <= i * sz /\ base + i * sz + 128 <= flimit fl) as [Hm Hm2] by (unfold sizeof_entry in *; nia). rewrite (u64_small (i * sz)) by lia. rewrite Z.gtb_ltb, (proj2 (Z.ltb_ge _ _)) by (unfold UINT64_MAX; lia). rewrite u64_small by lia.
  apply runs_bind, runs_read; [unfold sizeof_entry; lia |]. change (load_bytes (disk fl) (base + i * sz) (Z.to_nat sizeof_entry)) with (gpt_entry (disk fl) h base i). set (e := gpt_entry (disk fl) h base i) in *.
  assert (base + (i + 1 + Z.of_nat n) * sz + sizeof_entry <= flimit fl) as Hl' by nia.
  unfold used in HF, Hc |- *. destruct (is_unused bigendian e) eqn:Eu.
  { rewrite filter_cons_False in * by congruence. by apply IH; [lia | | | | | |]. }
  rewrite filter_cons_True in * by done. rewrite zlen_cons in Hc. apply Forall_cons in HF as [(H1 & H2 & H3) HF]. match type of Hc with _ + (1 + zlen ?l) <= _ => pose proof (zlen_nonneg l) as Hnn end.
  rewrite (proj2 (Z.eqb_neq _ 4)) by lia. rewrite !Z.gtb_ltb, (proj2 (Z.ltb_ge _ (starting_lba bigendian e))), (proj2 (Z.ltb_ge _ (ending_lba bigendian e))) by lia. rewrite u64_small, (proj2 (Z.ltb_ge _ _)) by lia. rewrite (proj2 (Z.eqb_neq _ (-1))) by done.
  eapply runs_weaken; [apply IH; [lia | done | done | done | done | done |] |].
  - unfold used. rewrite zlen_app. change (zlen [_]) with 1. lia.
  - intros r fl' [-> ->]. split; [done |]. f_equal. rewrite <- app_assoc. done.
Qed.

(** * The new MBR *)

Lemma nuke_spec n : forall first i lb fl, 0 < lb <= 4096 -> 0 <= first -> 0 <= i -> (first + i + Z.of_nat n) * lb <= fl.(flimit) -> fl.(flimit) < 2 ^ 63 -> zlen fl.(log) + Z.of_nat n <= 256 ->
  runs (nuke n first i lb) fl (fun _ fl' => fl'.(flimit) = fl.(flimit) /\ zlen fl'.(log) = zlen fl.(log) + Z.of_nat n /\
    forall x, fl'.(disk) x = if ((first + i) * lb <=? x) && (x <? (first + i + Z.of_nat n) * lb) then 0 else fl.(disk) x).
Proof.
  induction n as [|n IH]; intros first i lb fl Hlb Hf Hi Hl Hlim Hlog; cbn [nuke].
  { apply runs_ret. split; [done |]. split; [lia |]. intros x. change (Z.of_nat 0) with 0. rewrite Z.add_0_r. assert (((first + i) * lb <=? x) && (x <? (first + i) * lb) = false) as -> by lia. done. }
  assert ((first + i) * lb + lb <= (first + i + Z.of_nat (S n)) * lb) as Hle by nia. rewrite (u64_small ((first + i) * lb)) by nia. apply runs_bind, runs_write; [lia | lia |].
  set (f1 := {| disk := _; flimit := _; HostFlat.log := _ |}). assert (zlen (log f1) = zlen (log fl) + 1) as Hz by (unfold f1; cbn; rewrite zlen_app; done).
  eapply runs_weaken; [apply (IH first (i + 1) lb f1); [done | lia | lia | cbn; nia | done | lia] |]. intros _ fl' (H1 & H2 & H3). split; [done |]. split; [lia |]. intros x. rewrite H3. unfold f1. cbn [disk].
  replace (first + (i + 1) + Z.of_nat n) with (first + i + Z.of_nat (S n)) by lia. replace ((first + (i + 1)) * lb) with ((first + i) * lb + lb) by lia.
  assert (zlen (slice (replicate (Z.to_nat lb) 0) 0 lb) = lb) as Hzs by (rewrite slice_all; rewrite zlen_replicate; lia). unfold mem_write. rewrite Hzs. clear Hl H3. set (T := (first + i + Z.of_nat (S n)) * lb) in *. set (B := (first + i) * lb) in *. clearbody T B.
  destruct ((B + lb <=? x) && (x <? T)) eqn:E1; [assert ((B <=? x) && (x <? T) = true) as -> by lia; done |].
  destruct ((B <=? x) && (x <? B + lb)) eqn:E2.
  - assert ((B <=? x) && (x <? T) = true) as -> by lia. rewrite slice_all by (rewrite zlen_replicate; lia). unfold aget. by rewrite lookup_total_replicate_2 by lia.
  - assert ((B <=? x) && (x <? T) = false) as -> by lia. done.
Qed.
Lemma disk_id_spec rand n : forall i fl, 0 <= i -> 440 + i + Z.of_nat n <= fl.(flimit) -> zlen fl.(log) + Z.of_nat n <= 256 ->
  runs (write_disk_id rand n i) fl (fun _ fl' => fl'.(flimit) = fl.(flimit) /\ zlen fl'.(log) = zlen fl.(log) + Z.of_nat n /\
    forall x, fl'.(disk) x = if (440 + i <=? x) && (x <? 440 + i + Z.of_nat n) then u8 (rand (x - 440)) else fl.(disk) x).
Proof.
  induction n as [|n IH]; intros i fl Hi Hl Hlog; cbn [write_disk_id].
  { apply runs_ret. split; [done |]. split; [lia |]. intros x. change (Z.of_nat 0) with 0. rewrite Z.add_0_r. assert ((440 + i <=? x) && (x <? 440 + i) = false) as -> by lia. done. }
  apply runs_bind, runs_write; [lia | lia |]. set (f1 := {| disk := _; flimit := _; HostFlat.log := _ |}). assert (zlen (log f1) = zlen (log fl) + 1) as Hz by (unfold f1; cbn; rewrite zlen_app; done).
  eapply runs_weaken; [apply (IH (i + 1) f1); [lia | cbn; lia | lia] |]. intros _ fl' (H1 & H2 & H3). split; [done |]. split; [lia |]. intros x. rewrite H3. replace (Z.of_nat (S n)) with (1 + Z.of_nat n) by lia. unfold f1. cbn [disk]. change (slice [u8 (rand i)] 0 1) with [u8 (rand i)]. unfold mem_write. change (zlen [u8 (rand i)]) with 1.
  destruct ((440 + (i + 1) <=? x) && (x <? 440 + (i + 1) + Z.of_nat n)) eqn:E1; [assert ((440 + i <=? x) && (x <? 440 + i + (1 + Z.of_nat n)) = true) as -> by lia; done |].
  destruct ((440 + i <=? x) && (x <? 440 + i + 1)) eqn:E2.
  - assert ((440 + i <=? x) && (x <? 440 + i + (1 + Z.of_nat n)) = true) as -> by lia. assert (x = 440 + i) as -> by lia. replace (440 + i - (440 + i)) with 0 by lia. replace (440 + i - 440) with i by lia. done.
  - assert ((440 + i <=? x) && (x <? 440 + i + (1 + Z.of_nat n)) = false) as -> by lia. done.
Qed.

(** The 16 bytes of an entry; the first one, its flag, is left as it is. *)
Definition entry_bytes (p : part_to_conv) : list Z :=
  [0] ++ p.(chs_start) ++ [p.(type)] ++ p.(chs_end) ++ le_bytes 4 (u32 p.(lba_start)) ++ le_bytes 4 (u32 (u64 (p.(lba_end) - p.(lba_start)) + 1)).
Definition entry_at (p : part_to_conv) (a : Z) (d : mem) : mem := fun x => if (a <? x) && (x <? a + 16) then (entry_bytes p).[x - a] else d x.
Fixpoint table (l : list part_to_conv) (i : Z) (d : mem) : mem := match l with [] => d | p :: l => table l (i + 1) (entry_at p (446 + i * 16) d) end.

Lemma table_ext l : forall i d d', (forall x, d x = d' x) -> forall x, table l i d x = table l i d' x.
Proof. induction l as [|p l IH]; intros i d d' Hd x; [apply Hd |]. cbn. apply IH. intros y. unfold entry_at. case_if; [done | apply Hd]. Qed.
Lemma table_out l : forall i d x, x <= 446 + i * 16 \/ 446 + (i + zlen l) * 16 <= x -> table l i d x = d x.
Proof.
  induction l as [|p l IH]; intros i d x Hx; [done |]. cbn [table]. rewrite zlen_cons in Hx. pose proof (zlen_nonneg l). rewrite IH by lia. unfold entry_at. assert ((446 + i * 16 <? x) && (x <? 446 + i * 16 + 16) = false) as -> by lia. done.
Qed.
Lemma table_flag l : forall i d k, 0 <= k -> table l i d (446 + (i + k) * 16) = d (446 + (i + k) * 16).
Proof.
  induction l as [|p l IH]; intros i d k Hk; [done |]. cbn [table]. destruct (decide (k = 0)) as [->|].
  - rewrite table_out by lia. unfold entry_at. assert ((446 + i * 16 <? 446 + (i + 0) * 16) = false) as -> by lia. done.
  - replace (i + k) with (i + 1 + (k - 1)) by lia. rewrite IH by lia. unfold entry_at. assert (446 + (i + 1 + (k - 1)) * 16 <? 446 + i * 16 + 16 = false) as -> by lia. by rewrite andb_false_r.
Qed.
Lemma table_in l : forall i d k p j, l !! k = Some p -> 0 < j < 16 -> table l i d (446 + (i + Z.of_nat k) * 16 + j) = (entry_bytes p).[j].
Proof.
  induction l as [|q l IH]; intros i d k p j Hk Hj; [done |]. cbn [table]. destruct k as [|k].
  - injection Hk as ->. change (Z.of_nat 0) with 0. rewrite Z.add_0_r, table_out by lia. unfold entry_at. assert ((446 + i * 16 <? 446 + i * 16 + j) && (446 + i * 16 + j <? 446 + i * 16 + 16) = true) as -> by lia. f_equal. lia.
  - replace (i + Z.of_nat (S k)) with (i + 1 + Z.of_nat k) by lia. by apply IH.
Qed.

Lemma entry_written {A} fl p a (rest : M flat A) Q : part_ok p -> 0 <= a -> a + 16 <= fl.(flimit) -> zlen fl.(log) + 5 <= 256 ->
  (forall fl', fl'.(flimit) = fl.(flimit) -> zlen fl'.(log) = zlen fl.(log) + 5 -> (forall x, fl'.(disk) x = entry_at p a fl.(disk) x) -> runs rest fl' Q) ->
  runs (device_write [p.(type)] (a + 4) 1 ≫= fun _ => device_write (swapped bigendian 4 (u32 p.(lba_start))) (a + 8) 4 ≫= fun _ => device_write (swapped bigendian 4 (u32 (u64 (p.(lba_end) - p.(lba_start)) + 1))) (a + 12) 4 ≫= fun _ =>
    device_write p.(chs_start) (a + 1) 3 ≫= fun _ => device_write p.(chs_end) (a + 5) 3 ≫= fun _ => rest) fl Q.
Proof.
  intros [Hs He] Ha Hl Hlog HQ.
  do 5 (apply runs_bind, runs_write; [cbn [flimit]; lia | cbn [HostFlat.log]; rewrite ?zlen_app; unfold zlen in *; cbn [length]; lia |]; cbn [disk flimit HostFlat.log]).
  apply HQ; [done | cbn [HostFlat.log]; rewrite !zlen_app; unfold zlen; cbn [length]; lia |]. cbn [disk]. intros x.
  rewrite !swapped_le by lia. rewrite !slice_all by (first [done | by rewrite Hs | by rewrite He]). unfold mem_write, entry_at. rewrite Hs, He. change (zlen [type p]) with 1. change (zlen (le_bytes 4 _)) with 4.
  unfold entry_bytes. set (n1 := le_bytes 4 (u32 (lba_start p))). set (n2 := le_bytes 4 _). assert (zlen n1 = 4 /\ zlen n2 = 4) as [Hn1 Hn2] by done.
  destruct ((a <? x) && (x <? a + 16)) eqn:E.
  - assert (forall (l1 l2 : list Z) i, zlen l1 <= i -> (l1 ++ l2).[i] = l2.[i - zlen l1]) as Hr by (intros; by apply aget_app_r). assert (forall (l1 l2 : list Z) i, 0 <= i < zlen l1 -> (l1 ++ l2).[i] = l1.[i]) as Hlft by (intros; by apply aget_app_l).
    rewrite Hr by (change (zlen [0]) with 1; lia). change (zlen [0]) with 1.
    destruct ((a + 5 <=? x) && (x <? a + 5 + 3)) eqn:E5; [rewrite Hr, Hr, Hlft by (change (zlen [type p]) with 1; lia); change (zlen [type p]) with 1; f_equal; lia |].
    destruct ((a + 1 <=? x) && (x <? a + 1 + 3)) eqn:E1; [rewrite Hlft by lia; f_equal; lia |].
    destruct ((a + 12 <=? x) && (x <? a + 12 + 4)) eqn:E12; [rewrite Hr, Hr, Hr, Hr by (change (zlen [type p]) with 1; lia); change (zlen [type p]) with 1; f_equal; lia |].
    destruct ((a + 8 <=? x) && (x <? a + 8 + 4)) eqn:E8; [rewrite Hr, Hr, Hr, Hlft by (change (zlen [type p]) with 1; lia); change (zlen [type p]) with 1; f_equal; lia |].
    destruct ((a + 4 <=? x) && (x <? a + 4 + 1)) eqn:E4; [rewrite Hr, Hlft by (change (zlen [type p]) with 1; lia); f_equal; lia |]. lia.
  - assert ((a + 5 <=? x) && (x <? a + 5 + 3) = false /\ (a + 1 <=? x) && (x <? a + 1 + 3) = false /\ (a + 12 <=? x) && (x <? a + 12 + 4) = false /\ (a + 8 <=? x) && (x <? a + 8 + 4) = false /\ (a + 4 <=? x) && (x <? a + 4 + 1) = false) as (-> & -> & -> & -> & ->) by lia. done.
Qed.
Lemma partitions_written l : forall i fl, Forall part_ok l -> 0 <= i -> 446 + (i + zlen l) * 16 <= fl.(flimit) -> zlen fl.(log) + 5 * zlen l <= 256 ->
  runs (write_partitions bigendian l i) fl (fun _ fl' => fl'.(flimit) = fl.(flimit) /\ zlen fl'.(log) = zlen fl.(log) + 5 * zlen l /\ forall x, fl'.(disk) x = table l i fl.(disk) x).
Proof.
  induction l as [|p l IH]; intros i fl HF Hi Hl Hlog; cbn [write_partitions]; [apply runs_ret; split; [done |]; split; [change (zlen []) with 0; lia | done] |].
  apply Forall_cons in HF as [Hp HF]. rewrite zlen_cons in *. pose proof (zlen_nonneg l). cbv zeta. apply entry_written; [done | lia | lia | lia |]. intros f1 H1 H2 H3.
  eapply runs_weaken; [apply (IH (i + 1) f1); [done | lia | rewrite H1; lia | lia] |]. intros _ fl' (H4 & H5 & H6). split; [by rewrite H4 |]. split; [lia |]. intros x. rewrite H6. cbn [table]. by apply table_ext.
Qed.

(** * The conversion *)

(** A hybrid image whose partitions all have a counterpart. *)
Record hybrid (d : mem) (lim lb : Z) (h : list Z) : Prop := {
  hy_bytes : Forall is_byte h /\ zlen h = sizeof_header;
  hy_lb : 512 <= lb <= 4096;
  hy_lim : 34 * lb <= lim < 2 ^ 63 /\ 32774 <= lim;
  hy_iso : load_bytes d 32769 5 = bytes "CD001";
  hy_table : partition_entry_lba bigendian h * lb + number_of_partition_entries bigendian h * size_of_partition_entry bigendian h + sizeof_entry <= lim;
  hy_alt : (alternate_lba bigendian h + 1) * lb <= lim;
  hy_parts : let l := used (gpt_entry d h (partition_entry_lba bigendian h * lb) <$> seqZ 0 (number_of_partition_entries bigendian h)) in Forall convertible l /\ zlen l <= 4 }.
Definition partitions (d : mem) (lb : Z) (h : list Z) : list part_to_conv :=
  conv <$> used (gpt_entry d h (partition_entry_lba bigendian h * lb) <$> seqZ 0 (number_of_partition_entries bigendian h)).

Lemma field_nonneg l off n : Forall is_byte l -> n = 2 \/ n = 4 \/ n = 8 -> 0 <= off -> off + n <= zlen l -> 0 <= field bigendian l off n < 256 ^ n.
Proof. intros HF Hn Ho Hl. rewrite field_le by done. pose proof (of_le_range (slice l off n) ltac:(by apply Forall_slice)) as Hr. unfold zlen in Hr at 1. rewrite length_slice, Z2Nat.id in Hr by lia. done. Qed.
Lemma parts_ok l : Forall part_ok (conv <$> l).
Proof. apply Forall_fmap, Forall_forall. intros e _. split; apply zlen_lba2chs. Qed.

(** The first sector's partition table, the rest of both GPTs' places zero, nothing else changed. *)
Record converted (d d' : mem) (lb : Z) (h : list Z) : Prop := {
  cv_entry k p : partitions d lb h !! k = Some p -> load_bytes d' (446 + Z.of_nat k * 16) 16 = entry_bytes p;
  cv_zero x : 512 <= x < 34 * lb -> d' x = 0;
  cv_frame x : ~ (0 <= x < 34 * lb) -> ~ ((alternate_lba bigendian h - 32) * lb <= x < (alternate_lba bigendian h + 1) * lb) -> d' x = d x }.

Lemma convert_spec rand lb h fl : hybrid fl.(disk) fl.(flimit) lb h -> fl.(log) = [] ->
  runs (convert bigendian rand lb h) fl (fun b fl' => b = true /\ fl'.(flimit) = fl.(flimit) /\ converted fl.(disk) fl'.(disk) lb h).
Proof.
  intros [[Hbytes Hlen] Hlb [Hlim Hlim2] Hiso Htab Halt [Hconv Hcount]] Hlog. unfold convert. apply runs_bind, runs_read; [lia |]. change (Z.to_nat 5) with 5%nat. rewrite Hiso, bool_decide_eq_true_2 by done. cbn [negb].
  unfold sizeof_header, sizeof_entry in *. pose proof (field_nonneg h 72 8 Hbytes ltac:(lia) ltac:(lia) ltac:(lia)) as Hp. pose proof (field_nonneg h 80 4 Hbytes ltac:(lia) ltac:(lia) ltac:(lia)) as Hn. pose proof (field_nonneg h 84 4 Hbytes ltac:(lia) ltac:(lia) ltac:(lia)) as Hz. pose proof (field_nonneg h 32 8 Hbytes ltac:(lia) ltac:(lia) ltac:(lia)) as Ha.
  fold (partition_entry_lba bigendian h) (number_of_partition_entries bigendian h) (size_of_partition_entry bigendian h) (alternate_lba bigendian h) in *.
  set (pe := partition_entry_lba bigendian h) in *. set (n := number_of_partition_entries bigendian h) in *. set (sz := size_of_partition_entry bigendian h) in *. set (alt := alternate_lba bigendian h) in *.
  assert (0 <= n * sz /\ 0 <= pe * lb) as [Hnz Hpl] by nia. unfold mul_u64_overflow.
  assert (negb (pe =? 0) && (lb >? UINT64_MAX / pe) = false) as ->.
  { destruct (Z.eqb_spec pe 0) as [|Hne]; [done |]. cbn [negb andb]. rewrite Z.gtb_ltb. apply Z.ltb_ge. apply Z.div_le_lower_bound; [lia |]. unfold UINT64_MAX. lia. }
  rewrite u64_small by lia. apply runs_bind. eapply runs_weaken; [apply (gather_spec h (pe * lb) fl (Z.to_nat n) 0 []); rewrite ?Z2Nat.id by lia; [lia | lia | fold sz; lia | lia | unfold sizeof_entry; fold sz; lia | done | done] |].
  intros r fl0 [-> ->]. cbn [app]. rewrite Z2Nat.id by lia. fold pe. set (l := conv <$> _). assert (l = partitions (disk fl) lb h) as El by done. assert (zlen l <= 4) as Hl4 by (unfold l, zlen in *; rewrite length_fmap; lia).
  pose proof (zlen_nonneg l) as Hnn. apply runs_bind. unfold write_mbr. fold alt. apply runs_bind. eapply runs_weaken; [apply (nuke_spec 34 0 0 lb fl); [lia | lia | lia | lia | lia | rewrite Hlog; done] |]. intros _ f1 (Hf1 & Hg1 & Hd1).
  apply runs_bind. eapply runs_weaken with (P := fun _ f2 => flimit f2 = flimit fl /\ zlen (log f2) <= 67 /\ forall x, disk f2 x = if (alt >=? 32) && (((alt - 32) * lb <=? x) && (x <? (alt + 1) * lb)) then 0 else disk f1 x).
  { destruct (Z.geb_spec alt 32) as [Hge|Hlt]; [|apply runs_ret; split; [done |]; split; [rewrite Hg1, Hlog; done | done]].
    eapply runs_weaken; [apply (nuke_spec 33 (alt - 32) 0 lb f1); [lia | lia | lia | rewrite Hf1; lia | rewrite Hf1; lia | rewrite Hg1, Hlog; done] |].
    intros _ f2 (H1 & H2 & H3). split; [by rewrite H1 |]. split; [rewrite H2, Hg1, Hlog; done |]. intros x. rewrite H3. cbn [andb]. by replace (alt - 32 + 0) with (alt - 32) by lia; replace (alt - 32 + Z.of_nat 33) with (alt + 1) by lia. }
  intros _ f2 (Hf2 & Hg2 & Hd2). apply runs_bind. eapply runs_weaken; [apply (disk_id_spec rand 4 0 f2); [lia | rewrite Hf2; lia | lia] |]. intros _ f3 (Hf3 & Hg3 & Hd3).
  apply (runs_weaken _ _ (fun _ f4 => flimit f4 = flimit fl /\ forall x, disk f4 x = table l 0 (disk f3) x)).
  { eapply runs_weaken; [apply (partitions_written l 0 f3); [apply parts_ok | lia | rewrite Hf3, Hf2; lia | lia] |]. intros _ f4 (H1 & _ & H3). split; [by rewrite H1, Hf3 | done]. }
  intros _ f4 [Hf4 Hd4]. apply runs_ret. split; [done |]. split; [done |].
  assert (forall x, 0 <= x < 34 * lb -> disk f1 x = 0) as H1z by (intros x Hx; rewrite Hd1; assert (((0 + 0) * lb <=? x) && (x <? (0 + 0 + Z.of_nat 34) * lb) = true) as -> by (change (Z.of_nat 34) with 34; lia); done).
  assert (forall x, 0 <= x < 34 * lb -> disk f2 x = 0) as H2z by (intros x Hx; rewrite Hd2; case_if; [done | by apply H1z]).
  split.
  - rewrite <- El. intros k p Hk. assert (Z.of_nat k < zlen l) as Hkl by (apply lookup_lt_Some in Hk; unfold zlen; lia).
    assert (zlen (entry_bytes p) = 16) as Hz16. { unfold entry_bytes. rewrite !zlen_app. destruct (proj1 (Forall_lookup _ l) (parts_ok _) k p Hk) as [-> ->]. done. }
    apply list_eq_same_length with (n := 16%nat); [unfold zlen in Hz16; lia | by rewrite length_load |]. intros j x y Hj Hx Hy. unfold load_bytes in Hx. rewrite list_lookup_fmap in Hx. apply fmap_Some in Hx as (z & Hzz & ->). apply lookup_seqZ in Hzz as [-> _].
    apply list_lookup_total_correct in Hy. assert ((entry_bytes p).[Z.of_nat j] = y) as <- by (unfold aget; by rewrite Nat2Z.id). rewrite Hd4. destruct j as [|j].
    + change (Z.of_nat 0) with 0. rewrite Z.add_0_r. pose proof (table_flag l 0 (disk f3) (Z.of_nat k) ltac:(lia)) as Hfl. rewrite Z.add_0_l in Hfl. rewrite Hfl, Hd3.
      assert ((440 + 0 <=? 446 + Z.of_nat k * 16) && (446 + Z.of_nat k * 16 <? 440 + 0 + Z.of_nat 4) = false) as -> by (change (Z.of_nat 4) with 4; lia). rewrite H2z by lia. done.
    + pose proof (table_in l 0 (disk f3) k p (Z.of_nat (S j)) Hk ltac:(lia)) as Hin. rewrite Z.add_0_l in Hin. exact Hin.
  - intros x Hx. rewrite Hd4, table_out, Hd3 by lia. assert ((440 + 0 <=? x) && (x <? 440 + 0 + Z.of_nat 4) = false) as -> by (change (Z.of_nat 4) with 4; lia). apply H2z. lia.
  - intros x Hx Hx2. rewrite Hd4, table_out, Hd3 by lia. assert ((440 + 0 <=? x) && (x <? 440 + 0 + Z.of_nat 4) = false) as -> by (change (Z.of_nat 4) with 4; lia). rewrite Hd2. assert ((alt >=? 32) && (((alt - 32) * lb <=? x) && (x <? (alt + 1) * lb)) = false) as -> by lia.
    rewrite Hd1. assert (((0 + 0) * lb <=? x) && (x <? (0 + 0 + Z.of_nat 34) * lb) = false) as -> by (change (Z.of_nat 34) with 34; lia). done.
Qed.
End convert.

(** * The device *)

Inductive op := Read (loc count : Z) | Write (buffer : list Z) (loc count : Z).
Definition op_ok (o : op) : Prop := match o with Read loc count => 0 <= loc < 2 ^ 64 | Write buffer loc count => 0 <= loc < 2 ^ 64 /\ 0 < count <= zlen buffer end.
(** The bytes that the reads return, up to the first failure. *)
Fixpoint do_ops {S} `{!Disk S} (l : list op) (acc : list (list Z)) : M S (list (list Z)) :=
  match l with
  | [] => mret acc
  | Read loc count :: l => b ← device_read loc count; do_ops l (acc ++ [b])
  | Write buffer loc count :: l => _ ← device_write buffer loc count; do_ops l acc
  end.
Lemma sim_ops orig l : forall acc, Forall op_ok l -> sim orig (do_ops l acc) (do_ops l acc) (fun _ => True).
Proof.
  induction l as [|[loc count|buffer loc count] l IH]; intros acc HF; cbn [do_ops]; [by apply sim_ret |..]; apply Forall_cons in HF as [Ho HF].
  - eapply sim_bind; [by apply sim_read |]. intros b _. by apply IH.
  - destruct Ho as [Hl Hc]. eapply sim_bind; [by apply sim_write |]. intros _ _. by apply IH.
Qed.

(** C12: on a device that works, any sequence of reads and writes through the cache returns what an
    array of bytes returns and fails when that fails; after the cache is flushed the device holds
    the array, and the data that was saved puts the original contents back. *)
Theorem device_refines_array c n l : 512 <= n < 2 ^ 63 -> Forall op_ok l ->
  exists st r st' fl, device_init no_fault (opened c n) = (true, st) /\ do_ops l [] st = Ret (r, st') /\ do_ops l [] (fresh c n) = Ret (r, fl) /\ restores c fl.(log) /\
    match r with
    | Some _ => exists st2, device_flush_cache no_fault st' = (true, st2) /\ st2.(device).(size) = n /\ forall x, st2.(device).(contents) x = fl.(disk) x
    | None => forall x, ~ covered fl.(log) x -> st'.(device).(contents) x = c x
    end.
Proof.
  intros Hn HF. destruct (init_opened c n Hn) as (st & Ei & Hrel & Hs & Hb & _). destruct (sim_ops c l [] HF st (fresh c n) Hrel) as (r & st' & fl & E1 & E2 & _ & Hs' & _ & Hr).
  exists st, r, st', fl. do 3 (split; [assumption |]). destruct r as [res|].
  - destruct Hr as [Hr _]. split; [apply (un_restores _ _ _ _ (rel_undo _ _ _ Hr)) |]. destruct (flush_spec st' (rel_wf _ _ _ Hr)) as (st2 & E & _ & Hs2 & _ & _ & Hc & _). exists st2. split; [done |]. split; [rewrite (same_size _ _ Hs2); lia |]. intros x. rewrite Hc. apply Hr.
  - destruct (stop_undo _ _ _ Hr) as [Hoff Hres _]. done.
Qed.

(** A device of three blocks: a write over a boundary, read back. *)
Lemma device_refines_array_witness :
  exists st r st' fl, device_init no_fault (opened (fun x => u8 x) 1536) = (true, st) /\ do_ops [Write [1; 2; 3; 4] 510 4; Read 509 6] [] st = Ret (r, st') /\
    r = Some [[253; 1; 2; 3; 4; 2]] /\ restores (fun x => u8 x) fl.(log).
Proof.
  destruct (device_refines_array (fun x => u8 x) 1536 [Write [1; 2; 3; 4] 510 4; Read 509 6]) as (st & r & st' & fl & H1 & H2 & H3 & H4 & _).
  - lia.
  - apply Forall_cons. split; [cbn; unfold zlen; cbn; lia |]. apply Forall_singleton. cbn. lia.
  - exists st, r, st', fl. split; [exact H1 |]. split; [exact H2 |]. split; [|exact H4].
    assert (match do_ops [Write [1; 2; 3; 4] 510 4; Read 509 6] [] (fresh (fun x => u8 x) 1536) with Ret (r, _) => bool_decide (r = Some [[253; 1; 2; 3; 4; 2]]) | _ => false end = true) as Hb by (vm_compute; reflexivity).
    rewrite H3 in Hb. by apply bool_decide_eq_true in Hb.
Defined.

(** * Installing *)

(** C8: whatever a device that works holds and whatever the other options are: an installation (that
    is, without --uninstall) of an image of more than 512 bytes returns, and one that does not succeed
    leaves every byte of the device as it was. *)
Theorem bios_install_undo bigendian rand img o file c n : 512 < zlen img -> 0 <= n < 2 ^ 63 -> o.(uninstall_mode) = false ->
  exists r, run no_fault bigendian rand img o file (opened c n) = Ret r /\ r.(final).(device).(size) = n /\ (r.(ok) = false -> forall x, r.(final).(device).(contents) x = c x).
Proof.
  intros Himg Hn Hm. destruct (run_install bigendian rand img o file c n Himg Hn Hm) as (r & E & Hs & Hr). exists r. split; [done |]. split; [done |]. intros Hok. destruct Hr as [(_ & Hc & _)|[Hok' _]]; [done |]. congruence.
Qed.
Definition no_options : options := {| force := false; gpt2mbr_allowed := true; uninstall_mode := false; uninstall_file := None; part_ndx := None |}.
(** A device with a FAT file system is not written to. *)
Definition fat_device : mem := fun x => if x =? 54 then 70 else if x =? 55 then 65 else if x =? 56 then 84 else 0.
Lemma bios_install_undo_witness : exists r, run no_fault false (fun x => x) (replicate 1024 7) no_options None (opened fat_device 8192) = Ret r /\ r.(ok) = false /\ forall x, r.(final).(device).(contents) x = fat_device x.
Proof.
  destruct (bios_install_undo false (fun x => x) (replicate 1024 7) no_options None fat_device 8192) as (r & E & _ & Hc); [vm_compute; reflexivity | lia | reflexivity |].
  exists r. split; [exact E |]. assert (match run no_fault false (fun x => x) (replicate 1024 7) no_options None (opened fat_device 8192) with Ret r => r.(ok) | _ => true end = false) as Hok by (vm_compute; reflexivity).
  rewrite E in Hok. split; [exact Hok | exact (Hc Hok)].
Defined.

(** C9: after a successful installation, of an image of more than 512 bytes, that stored its uninstall data, an uninstallation with that
    file, on a host of the same byte order, brings back every byte of the device. *)
Theorem install_uninstall bigendian rand img o file c n r o' rand' img' : 512 < zlen img -> 0 <= n < 2 ^ 63 -> o.(uninstall_mode) = false -> is_Some o.(uninstall_file) ->
  run no_fault bigendian rand img o file (opened c n) = Ret r -> r.(ok) = true -> o'.(uninstall_mode) = true -> is_Some o'.(uninstall_file) ->
  exists f r', r.(HostInstall.saved) = Some f /\ run no_fault bigendian rand' img' o' (Some f) (opened r.(final).(device).(contents) n) = Ret r' /\ r'.(ok) = true /\ r'.(final).(device).(size) = n /\
    forall x, r'.(final).(device).(contents) x = c x.
Proof.
  intros Himg Hn Hm [name Hname] E Hok Hm' Hf'. destruct (run_install bigendian rand img o file c n Himg Hn Hm) as (r0 & E0 & Hs & Hr). rewrite E in E0. injection E0 as <-. destruct Hr as [[Hf _]|(_ & Hge & st & fl & Ei & Hc & Hst & Hdisk & Hsz & Hbs & Hsv)]; [congruence |].
  rewrite Hname in Hsv. assert (exists f, store_uninstall_data bigendian (reverse_uninstall_data st) = Some f) as [f Hf].
  { destruct Hst as [_ _ Hlim Hsaved [_ _ Hin]]. unfold store_uninstall_data. fold (logged (reverse_uninstall_data st)). destruct (reverse_spec st _ Hsaved) as [-> _]. destruct (store_some bigendian (reverse (logged st))) as [g ->]; [|by eexists].
    rewrite reverse_Permutation. destruct Hsaved as [_ _ Hlog Hcnt]. rewrite <- Hlog in Hin. apply Forall_fmap in Hin. apply Forall_forall. intros ud Hud. destruct (proj1 (Forall_forall _ _) Hin ud Hud) as [H0 H1]. destruct (proj1 (Forall_forall _ _) Hcnt ud Hud) as [H2 H3]. cbn in H0, H1.
    rewrite <- Hlim in H1. assert (limit st <= n) by (unfold limit; rewrite Hsz, Hbs; pose proof (Z.mul_div_le n 512); lia). split; [done | lia]. }
  exists f. destruct (uninstall_restores bigendian rand' img' o' st fl c (contents (device (final r))) n f Hst Hsz Hbs ltac:(lia) Hm' Hf') as (r' & E' & Hok' & Hs' & Hc'); [|done | exists r'; split; [congruence | done]].
  intros x Hx. rewrite Hc. by apply Hdisk.
Qed.
(** A device of 8 KiB with one empty partition table, an image of 2 KiB. *)
Definition blank : mem := fun x => if x =? 510 then 0x55 else if x =? 511 then 0xaa else 0.
Definition image : list Z := replicate 2048 7.
Definition storing : options := {| force := false; gpt2mbr_allowed := true; uninstall_mode := false; uninstall_file := Some (bytes "u"); part_ndx := None |}.
Definition undoing : options := {| force := false; gpt2mbr_allowed := true; uninstall_mode := true; uninstall_file := Some (bytes "u"); part_ndx := None |}.
Lemma install_uninstall_witness : exists r f r', run no_fault false (fun x => x) image storing None (opened blank 8192) = Ret r /\ r.(HostInstall.saved) = Some f /\
  run no_fault false (fun x => x) image undoing (Some f) (opened r.(final).(device).(contents) 8192) = Ret r' /\ r'.(ok) = true /\ forall x, r'.(final).(device).(contents) x = blank x.
Proof.
  assert (match run no_fault false (fun x => x) image storing None (opened blank 8192) with Ret r => r.(ok) | _ => false end = true) as Hb by (vm_compute; reflexivity).
  destruct (run no_fault false (fun x => x) image storing None (opened blank 8192)) as [r| |] eqn:E; [|discriminate Hb..]. exists r.
  destruct (install_uninstall false (fun x => x) image storing None blank 8192 r undoing (fun x => x) image) as (f & r' & H1 & H2 & H3 & _ & H4);
    [vm_compute; reflexivity | lia | reflexivity | eexists; reflexivity | exact E | exact Hb | reflexivity | eexists; reflexivity |].
  exists f, r'. split; [reflexivity |]. auto.
Defined.

(** C10: on a device of at least 4608 bytes that works, with an MBR, no GPT, valid entries and no file
    system in its first blocks, the installation of an image of more than 512 bytes that fits in the
    device succeeds, whatever the options but --uninstall: the device then holds the image, with the
    place of stage 2 in it, the timestamp and the partition table as before, except that the first
    partition is marked active if none was, and nothing else has changed. *)
Theorem bios_install_mbr bigendian rand img o file c n : mbr_device c -> 512 < zlen img -> zlen img <= n / 512 * 512 -> 4608 <= n < 2 ^ 63 -> o.(uninstall_mode) = false ->
  exists r, run no_fault bigendian rand img o file (opened c n) = Ret r /\ r.(ok) = true /\ r.(final).(device).(size) = n /\ forall x, r.(final).(device).(contents) x = mbr_after img c x.
Proof.
  intros Hc Himg Hfit Hn Hm. destruct (install_mbr bigendian c Hc rand img o (fresh c n)) as (u & fl & Ei & Hd); [done | done | done | cbn; pose proof (Z.div_le_lower_bound n 512 9 ltac:(lia) ltac:(lia)); pose proof (Z.mul_div_le n 512 ltac:(lia)); lia | done |].
  destruct (run_install bigendian rand img o file c n Himg ltac:(lia) Hm) as (r & E & Hs & Hr). exists r. split; [done |]. destruct Hr as [(_ & _ & [Hlt|[fl' E']])|(Hok & _ & st & fl' & E' & Hfin & _)]; [lia | congruence |].
  rewrite Ei in E'. injection E' as _ <-. split; [done |]. split; [done |]. intros x. by rewrite Hfin.
Qed.
Lemma blank_mbr : mbr_device blank.
Proof.
  split.
  - intros x. unfold blank. repeat case_if; split; lia.
  - split; vm_compute; discriminate.
  - intros a Ha. left. unfold entries in Ha. repeat (apply elem_of_cons in Ha as [->|Ha]; [done |]). by apply not_elem_of_nil in Ha.
  - intros a Ha. left. unfold entries in Ha. repeat (apply elem_of_cons in Ha as [->|Ha]; [done |]). by apply not_elem_of_nil in Ha.
  - split_and!; vm_compute; discriminate.
Qed.
Lemma bios_install_mbr_witness : exists r, run no_fault true (fun x => x) image no_options None (opened blank 8192) = Ret r /\ r.(ok) = true /\
  contents (device (final r)) 0 = 7 /\ contents (device (final r)) 446 = 0x80 /\ contents (device (final r)) 421 = 2 /\ contents (device (final r)) 2048 = 0.
Proof.
  destruct (bios_install_mbr true (fun x => x) image no_options None blank 8192) as (r & E & Hok & _ & Hc); [exact blank_mbr | vm_compute; reflexivity | vm_compute; discriminate | lia | reflexivity |].
  exists r. split; [exact E |]. split; [exact Hok |]. rewrite !Hc. vm_compute. repeat split.
Defined.

(** A hybrid image with blocks of [lb] bytes and an EFI system partition of 40 blocks. *)
Definition header : list Z := bytes "EFI PART" ++ replicate 24 0 ++ le_bytes 8 40 ++ replicate 32 0 ++ le_bytes 8 2 ++ le_bytes 4 1 ++ le_bytes 4 128 ++ replicate 8 0.
Definition esp : list Z := le_bytes 8 0x11d2f81fc12a7328 ++ le_bytes 8 0x3bc93ec9a0004bba ++ replicate 16 1 ++ le_bytes 8 64 ++ le_bytes 8 103 ++ replicate 80 0.
Definition hybrid_disk (lb : Z) : mem := mem_write (mem_write (mem_write (fun _ => 0) lb header) (2 * lb) esp) 32769 (bytes "CD001").
Lemma hybrid_disk_ok lb n : lb = 512 \/ lb = 4096 -> 262144 <= n < 2 ^ 63 -> hybrid false (hybrid_disk lb) n lb header.
Proof.
  intros Hlb Hn. assert (used false (gpt_entry false (hybrid_disk lb) header (partition_entry_lba false header * lb) <$> seqZ 0 (number_of_partition_entries false header)) = [esp]) as Hu by (destruct Hlb as [-> | ->]; vm_compute; reflexivity). split.
  - split; [|reflexivity]. apply Forall_forall. intros b Hb. assert (Forall (fun b => (0 <=? b) && (b <? 256) = true) header) as HF by (vm_compute; repeat constructor). apply (proj1 (Forall_forall _ _) HF) in Hb. unfold is_byte. lia.
  - lia.
  - lia.
  - destruct Hlb as [-> | ->]; vm_compute; reflexivity.
  - change (partition_entry_lba false header) with 2. change (number_of_partition_entries false header) with 1. change (size_of_partition_entry false header) with 128. unfold sizeof_entry. lia.
  - change (alternate_lba false header) with 40. lia.
  - cbv zeta. rewrite Hu. split; [|vm_compute; discriminate]. apply Forall_singleton. unfold convertible. change (starting_lba false esp) with 64. change (ending_lba false esp) with 103. split; [lia |]. split; [lia |]. vm_compute. discriminate.
Qed.

(** * Defects *)

(** The 34 blocks that the conversion clears are those of a GPT with blocks of 512 bytes: with
    blocks of 4096 bytes they hold the volume descriptors of the image, so that what is left is not
    an ISO 9660 file system any more. *)
Theorem convert_erases_iso bigendian rand c n h : 512 <= n < 2 ^ 63 -> hybrid bigendian c (n / 512 * 512) 4096 h -> load_bytes c 32769 5 = bytes "CD001" /\
  exists st st', device_init no_fault (opened c n) = (true, st) /\ convert bigendian rand 4096 h st = Ret (Some true, st') /\ load_bytes (view st') 32768 2048 = replicate 2048 0.
Proof.
  intros Hn Hh. split; [apply Hh |]. destruct (init_opened c n Hn) as (st & Ei & Hrel & _). destruct (convert_spec bigendian rand 4096 h (fresh c n) Hh eq_refl) as (b & fl & E & -> & _ & [_ Hz _]).
  destruct (sim_convert c bigendian rand 4096 h ltac:(lia) st (fresh c n) Hrel) as (r & st' & fl' & E1 & E2 & _ & _ & _ & Hr). rewrite E in E2. injection E2 as <- <-. exists st, st'. split; [done |]. split; [done |]. destruct Hr as [Hr _].
  apply list_eq_same_length with (n := 2048%nat); [apply length_replicate | apply length_load |]. intros i x y Hi Hx Hy. apply lookup_replicate in Hy as [-> _]. unfold load_bytes in Hx. rewrite list_lookup_fmap in Hx. apply fmap_Some in Hx as (z & Hzz & ->). apply lookup_seqZ in Hzz as [-> _].
  rewrite (rel_view _ _ _ Hr). apply Hz. lia.
Qed.
Lemma convert_erases_iso_witness : load_bytes (hybrid_disk 4096) 32769 5 = bytes "CD001" /\
  exists st st', device_init no_fault (opened (hybrid_disk 4096) 262144) = (true, st) /\ convert false (fun x => x) 4096 header st = Ret (Some true, st') /\ load_bytes (view st') 32768 2048 = replicate 2048 0.
Proof.
  apply (convert_erases_iso false (fun x => x) (hybrid_disk 4096) 262144 header); [lia |]. apply hybrid_disk_ok; [right; reflexivity | vm_compute; split; [discriminate | reflexivity]].
Defined.

(** The device whose 27th operation fails. *)
Definition one_fault (k : nat) : option Z := if (k =? 26)%nat then Some 0 else None.
(** A write that fails after some of its blocks have reached the device is not among the saved
    data: when one write of a block of stage 2 fails and everything after it works, the undoing
    reports success, and the block that was written before stays. *)
Theorem undo_incomplete : exists st st' r,
  install (S := host) (Disk0 := host_disk one_fault) false (fun x => x) image no_options (snd (device_init one_fault (opened blank 8192))) = Ret (None, st) /\
  uninstall one_fault (reverse_uninstall_data st) = Ret (true, st') /\
  run one_fault false (fun x => x) image no_options None (opened blank 8192) = Ret r /\ r.(ok) = false /\
  load_bytes blank 512 512 = replicate 512 0 /\ load_bytes r.(final).(device).(contents) 512 512 = replicate 512 7.
Proof.
  assert (match install (S := host) (Disk0 := host_disk one_fault) false (fun x => x) image no_options (snd (device_init one_fault (opened blank 8192))) with
          | Ret (None, st) => match uninstall one_fault (reverse_uninstall_data st) with Ret (b, _) => b | _ => false end | _ => false end = true) as H1 by (vm_compute; reflexivity).
  assert (match run one_fault false (fun x => x) image no_options None (opened blank 8192) with Ret r => negb r.(ok) && bool_decide (load_bytes r.(final).(device).(contents) 512 512 = replicate 512 7) | _ => false end = true) as H2 by (vm_compute; reflexivity).
  destruct (install _ _ _ _ _) as [[[u|] st]| |] eqn:E1; [discriminate H1 | | discriminate H1..]. destruct (uninstall one_fault (reverse_uninstall_data st)) as [[b st']| |] eqn:E2; [|discriminate H1..].
  destruct (run one_fault _ _ _ _ _ _) as [r| |] eqn:E3; [|discriminate H2..]. apply andb_true_iff in H2 as [H2 H3]. apply bool_decide_eq_true in H3. apply negb_true_iff in H2.
  exists st, st', r. split; [reflexivity |]. split; [by rewrite E2, H1 |]. split; [reflexivity |]. split; [done |]. split; [vm_compute; reflexivity | done].
Qed.

(** A block that could be read only in part leaves its bytes in the cache, which still counts as the
    block before. When the entry that asked for it is given up, the next one is put into that mix,
    and it is written: the first 100 bytes of this device are lost, though no entry is about them. *)
Definition cut_device : mem := fun x => if x <? 512 then 1 else 2.
Definition two_entries : list Z := le_bytes 8 2 ++ le_bytes 8 510 ++ le_bytes 8 4 ++ [9; 9; 9; 9] ++ le_bytes 8 300 ++ le_bytes 8 1 ++ [9].
Lemma uninstall_stale_cache : exists r, run no_fault false (fun x => x) image undoing (Some two_entries) (opened cut_device 612) = Ret r /\ r.(ok) = false /\
  load_bytes r.(final).(device).(contents) 0 100 = replicate 100 2 /\ load_bytes cut_device 0 100 = replicate 100 1.
Proof.
  assert (match run no_fault false (fun x => x) image undoing (Some two_entries) (opened cut_device 612) with Ret r => negb r.(ok) && bool_decide (load_bytes r.(final).(device).(contents) 0 100 = replicate 100 2) | _ => false end = true) as H by (vm_compute; reflexivity).
  destruct (run _ _ _ _ _ _ _) as [r| |]; [|discriminate H..]. apply andb_true_iff in H as [H1 H2]. apply negb_true_iff in H1. apply bool_decide_eq_true in H2. exists r. split; [reflexivity |]. split; [done |]. split; [done | vm_compute; reflexivity].
Qed.

(** A file that ends inside its second entry: the memory of the first one is released twice. A file
    that claims 257 entries: entries past the end of the array are released. *)
Definition cut_file : list Z := le_bytes 8 2 ++ le_bytes 8 0 ++ le_bytes 8 4 ++ [1; 2; 3; 4].
Lemma uninstall_double_free :
  match run no_fault false (fun x => x) image undoing (Some cut_file) (opened blank 8192) with Ret r => r.(final).(frees) = [1; 1] | _ => False end /\
  run no_fault false (fun x => x) image undoing (Some (le_bytes 8 257)) (opened blank 8192) = Panic.
Proof. split; vm_compute; reflexivity. Qed.
