(* ===== verification/HostGpt.v ===== *)
(** What an installation writes to a device with a GPT. *)

From S2P Require Import Prelude Guid GuidCorrect PartCorrect Host HostCorrect HostFlat HostInstall HostMbr HostBios.
Import Guid Host HostInstall.

(** The header of the device's GPT, with logical blocks of [lb] bytes, and its entries. *)
Definition gpt_header (d : mem) (lb : Z) : list Z := load_bytes d lb (Z.to_nat sizeof_header).
Definition entries_base (bigendian : bool) (d : mem) (lb : Z) : Z := partition_entry_lba bigendian (gpt_header d lb) * lb.
Definition entry_of (bigendian : bool) (d : mem) (lb i : Z) : list Z := gpt_entry bigendian d (gpt_header d lb) (entries_base bigendian d lb) i.

(** Two headers, no hybrid image, and a BIOS boot partition, the [i]-th, as the first of its kind. It
    has 32 KiB at least, comes after the boot sector and holds no file system. *)
Record gpt_device (bigendian : bool) (d : mem) (limit lb i : Z) : Prop := {
  gd_bytes x : is_byte (d x);
  gd_limit : 0 <= limit < 2 ^ 63;
  gd_lb : lb = 512 \/ lb = 4096 /\ load_bytes d 512 8 <> bytes "EFI PART";
  gd_first : load_bytes d lb 8 = bytes "EFI PART" /\ lb + sizeof_header <= limit;
  gd_second : load_bytes d (lb * alternate_lba bigendian (gpt_header d lb)) 8 = bytes "EFI PART" /\ lb * alternate_lba bigendian (gpt_header d lb) + sizeof_header <= limit;
  gd_no_iso : load_bytes d 32769 5 <> bytes "CD001" /\ 32774 <= limit;
  gd_index : 0 <= i < number_of_partition_entries bigendian (gpt_header d lb);
  gd_entries : entries_base bigendian d lb + i * size_of_partition_entry bigendian (gpt_header d lb) + sizeof_entry <= limit;
  gd_before j : 0 <= j < i -> is_bios_boot (entry_of bigendian d lb j) = false;
  gd_boot : is_bios_boot (entry_of bigendian d lb i) = true;
  gd_order : 0 < starting_lba bigendian (entry_of bigendian d lb i) <= ending_lba bigendian (entry_of bigendian d lb i);
  gd_inside : (ending_lba bigendian (entry_of bigendian d lb i) + 1) * lb <= limit;
  gd_size : 32768 <= (ending_lba bigendian (entry_of bigendian d lb i) - starting_lba bigendian (entry_of bigendian d lb i) + 1) * lb;
  gd_no_fs : no_fs d (starting_lba bigendian (entry_of bigendian d lb i) * lb) }.

Section gpt.
Context (bigendian : bool) (d : mem) (limit lb i : Z) (G : gpt_device bigendian d limit lb i).
Notation h := (gpt_header d lb) (only parsing).
Notation e := (entry_of bigendian d lb i) (only parsing).

Lemma lb_cases : lb = 512 \/ lb = 4096.
Proof. destruct (gd_lb _ _ _ _ _ G) as [|[]]; auto. Qed.
Lemma header_field off n : n = 2 \/ n = 4 \/ n = 8 -> 0 <= off -> off + n <= sizeof_header -> 0 <= field bigendian h off n.
Proof.
  intros Hn Ho Hl. rewrite field_le by (first [apply load_all_bytes; apply G | unfold gpt_header; rewrite zlen_load_bytes; unfold sizeof_header in *; lia | lia]). apply of_le_range, Forall_slice, load_all_bytes, G.
Qed.
Lemma probe_finds fl Q : fl.(disk) = d -> fl.(flimit) = limit -> Q (Some (lb, h)) fl -> runs (probe_gpt [512; 4096]) fl Q.
Proof.
  intros Hf Hlim HQ. destruct (gd_first _ _ _ _ _ G) as [Hs Hl]. unfold probe_gpt. destruct (gd_lb _ _ _ _ _ G) as [E|[E Hn]].
  - rewrite <- E. apply runs_bind, runs_read; [lia |]. rewrite Hf, signature_load, bool_decide_eq_true_2 by done. by apply runs_ret.
  - rewrite <- E. apply runs_bind, runs_read; [unfold sizeof_header in *; lia |]. rewrite Hf, signature_load, bool_decide_eq_false_2 by done. apply runs_bind, runs_read; [lia |]. rewrite Hf, signature_load, bool_decide_eq_true_2 by done. by apply runs_ret.
Qed.
Lemma secondary_passes fl Q : fl.(disk) = d -> fl.(flimit) = limit -> Q tt fl -> runs (check_secondary bigendian lb h) fl Q.
Proof.
  intros Hf Hlim HQ. destruct (gd_second _ _ _ _ _ G) as [Hs Hl]. pose proof (gd_limit _ _ _ _ _ G). pose proof lb_cases as Hlb. pose proof (header_field 32 8 ltac:(lia) ltac:(lia) ltac:(unfold sizeof_header; lia)) as Ha. fold (alternate_lba bigendian h) in Ha. unfold check_secondary.
  unfold sizeof_header in Hl. rewrite u64_small by nia. apply runs_bind, runs_read; [unfold sizeof_header; lia |]. rewrite Hf, signature_load, bool_decide_eq_true_2 by done. by apply runs_ret.
Qed.
Lemma not_converted fl rand Q : fl.(disk) = d -> fl.(flimit) = limit -> Q false fl -> runs (convert bigendian rand lb h) fl Q.
Proof.
  intros Hf Hlim HQ. destruct (gd_no_iso _ _ _ _ _ G) as [Hs Hl]. unfold convert. apply runs_bind, runs_read; [lia |]. rewrite Hf. change (Z.to_nat 5) with 5%nat. rewrite bool_decide_eq_false_2 by done. by apply runs_ret.
Qed.
Lemma entry_read fl j Q : fl.(disk) = d -> fl.(flimit) = limit -> 0 <= j <= i -> Q (entry_of bigendian d lb j) fl -> runs (HostInstall.read_entry bigendian h (entries_base bigendian d lb) j) fl Q.
Proof.
  intros Hf Hlim Hj HQ. pose proof (gd_entries _ _ _ _ _ G) as Hl. pose proof (gd_limit _ _ _ _ _ G). pose proof lb_cases. pose proof (header_field 84 4 ltac:(lia) ltac:(lia) ltac:(unfold sizeof_header; lia)) as Hs. pose proof (header_field 72 8 ltac:(lia) ltac:(lia) ltac:(unfold sizeof_header; lia)) as Hp.
  fold (size_of_partition_entry bigendian h) in Hs. fold (partition_entry_lba bigendian h) in Hp. assert (0 <= entries_base bigendian d lb) as Hb by (unfold entries_base; nia). set (sz := size_of_partition_entry bigendian h) in *. assert (0 <= j * sz <= i * sz) as Hm by nia. unfold sizeof_entry in Hl.
  unfold HostInstall.read_entry, add_u64_overflow. fold sz. rewrite (u64_small (j * sz)) by lia. rewrite Z.gtb_ltb, (proj2 (Z.ltb_ge _ _)) by (unfold UINT64_MAX; lia). rewrite u64_small by lia. apply runs_read; [unfold sizeof_entry; lia |]. by rewrite Hf.
Qed.
Lemma autodetected fl Q : fl.(disk) = d -> fl.(flimit) = limit -> Q e fl -> forall n j, 0 <= j <= i -> i < j + Z.of_nat n -> runs (autodetect bigendian n j h (entries_base bigendian d lb)) fl Q.
Proof.
  intros Hf Hlim HQ. induction n as [|n IH]; intros j Hj Hn; [lia |]. cbn [autodetect]. apply runs_bind, entry_read; [done | done | done |]. destruct (Z.eq_dec j i) as [->|Hne].
  - rewrite (gd_boot _ _ _ _ _ G). by apply runs_ret.
  - rewrite (gd_before _ _ _ _ _ G) by lia. apply IH; lia.
Qed.
Lemma stage2_found fl force Q : fl.(disk) = d -> fl.(flimit) = limit -> Q (starting_lba bigendian e * lb) fl -> runs (gpt_stage2 bigendian force None lb h) fl Q.
Proof.
  intros Hf Hlim HQ. pose proof (gd_limit _ _ _ _ _ G). pose proof lb_cases as Hlb. pose proof (gd_order _ _ _ _ _ G) as Ho. pose proof (gd_inside _ _ _ _ _ G) as Hi. pose proof (gd_size _ _ _ _ _ G) as Hs. pose proof (gd_index _ _ _ _ _ G) as Hx. pose proof (gd_entries _ _ _ _ _ G) as He.
  assert (forall a, 0 <= a -> a * lb < 2 ^ 63 -> mul_u64_overflow a lb = (a * lb, false)) as Hmul.
  { intros a Ha Hlt. unfold mul_u64_overflow. rewrite u64_small by nia. f_equal. destruct (Z.eqb_spec a 0) as [->|]; [done |]. cbn [negb andb]. rewrite Z.gtb_ltb. apply Z.ltb_ge. apply Z.div_le_lower_bound; [lia |]. unfold UINT64_MAX. lia. }
  unfold gpt_stage2. apply runs_bind. unfold choose_partition. pose proof (header_field 72 8 ltac:(lia) ltac:(lia) ltac:(unfold sizeof_header; lia)) as Hp. fold (partition_entry_lba bigendian h) in Hp.
  pose proof (header_field 84 4 ltac:(lia) ltac:(lia) ltac:(unfold sizeof_header; lia)) as Hz. fold (size_of_partition_entry bigendian h) in Hz. fold (entries_base bigendian d lb) in *. unfold sizeof_entry in He.
  rewrite Hmul by (fold (entries_base bigendian d lb); nia). fold (entries_base bigendian d lb). apply autodetected; [done | done | | lia | lia]. set (s := starting_lba bigendian e) in *. set (t := ending_lba bigendian e) in *.
  rewrite (proj2 (Z.ltb_ge _ _)) by lia. rewrite (u64_small (t - s + 1)) by nia. rewrite !Hmul by nia. rewrite (proj2 (Z.ltb_ge _ _)) by lia. apply runs_bind, (validate_passes bigendian d (gd_bytes _ _ _ _ _ G)); [done | apply G | nia | nia | lia |]. by apply runs_ret.
Qed.
Lemma install_gpt rand img o fl : fl.(disk) = d -> fl.(flimit) = limit -> fl.(log) = [] -> 512 < zlen img -> starting_lba bigendian e * lb + (zlen img - 512) <= limit -> o.(part_ndx) = None ->
  runs (install bigendian rand img o) fl (fun _ fl' => forall x, fl'.(disk) x = staged img (starting_lba bigendian e * lb) d x).
Proof.
  intros Hf Hlim Hlog Himg Hfit Ho. pose proof lb_cases. pose proof (gd_order _ _ _ _ _ G). unfold install. apply runs_bind, probe_finds; [done | done |]. apply runs_bind, secondary_passes; [done | done |].
  apply runs_bind. assert (runs (if o.(gpt2mbr_allowed) then convert bigendian rand lb h else mret false) fl (fun b fl' => b = false /\ fl' = fl)) as Hc by (destruct o.(gpt2mbr_allowed); [by apply not_converted | by apply runs_ret]).
  eapply runs_weaken; [exact Hc |]. intros b fl' [-> ->]. cbn beta iota. rewrite Ho. apply runs_bind, stage2_found; [done | done |]. eapply runs_weaken; [apply stages_at; [done | nia | lia | by rewrite Hlog] |]. intros u fl2 Hs x. by rewrite Hs, Hf.
Qed.
End gpt.


(** A device of 80 blocks of 512 bytes with a partition of 64 blocks from the 8th on. *)
Definition boot_entry : list Z := bytes "Hah!IdontNeedEFI" ++ replicate 16 1 ++ le_bytes 8 8 ++ le_bytes 8 71 ++ replicate 80 0.
Definition gpt_bytes : list Z := Eval vm_compute in
  replicate 512 0 ++ bytes "EFI PART" ++ replicate 24 0 ++ le_bytes 8 1 ++ replicate 32 0 ++ le_bytes 8 2 ++ le_bytes 4 1 ++ le_bytes 4 128 ++ replicate 424 0 ++ boot_entry.
Definition gpt_disk : mem := fun x => default 0 (gpt_bytes !! Z.to_nat x).
Lemma gpt_disk_ok : gpt_device false gpt_disk (40960 / 512 * 512) 512 0.
Proof.
  assert (entry_of false gpt_disk 512 0 = boot_entry) as He by (vm_compute; reflexivity). assert (starting_lba false boot_entry = 8 /\ ending_lba false boot_entry = 71) as [Hs Ht] by (vm_compute; split; reflexivity). change (40960 / 512 * 512) with 40960.
  split; rewrite ?He, ?Hs, ?Ht.
  - intros x. unfold gpt_disk. destruct (gpt_bytes !! Z.to_nat x) as [b|] eqn:E; [|cbn; split; lia]. cbn.
    assert (forallb (fun y => (0 <=? y) && (y <? 256)) gpt_bytes = true) as Hf by (vm_compute; reflexivity). rewrite forallb_forall in Hf. apply list_elem_of_lookup_2, list_elem_of_In, Hf in E. unfold is_byte. lia.
  - lia.
  - by left.
  - split; [vm_compute; reflexivity | unfold sizeof_header; lia].
  - split; [vm_compute; reflexivity | vm_compute; discriminate].
  - split; [vm_compute; discriminate | lia].
  - vm_compute. split; [discriminate | reflexivity].
  - vm_compute. discriminate.
  - lia.
  - vm_compute. reflexivity.
  - lia.
  - lia.
  - lia.
  - split_and!; vm_compute; discriminate.
Qed.
