(* ===== verification/HostEnroll.v ===== *)
(** [enroll_config] and [main] of [host/limine.c]: the hash of a configuration is put into an
    executable of the boot loader, which checks it when it starts.

    The executable can be opened or not; reading and writing an open file succeeds. Messages are left
    out. *)

From S2P Require Import Prelude Guid GuidCorrect Host HostInstall.

Module HostEnroll.

Definition CONFIG_B2SUM_SIGNATURE : list Z := bytes "++CONFIG_B2SUM_SIGNATURE++".
Definition sign_len : Z := zlen CONFIG_B2SUM_SIGNATURE.

(** The search: [checked_count] bytes before [i] are those of the signature. The result is
    [checksum_loc]. *)
Fixpoint find_checksum (fuel : nat) (bootloader : list Z) (bound i checked_count : Z) : outcome (option Z) :=
  if negb (i <? bound) then Ret None
  else match fuel with
  | O => Diverge
  | S fuel =>
      if negb (bootloader.[i] =? CONFIG_B2SUM_SIGNATURE.[checked_count]) then
        if checked_count >? 0 then find_checksum fuel bootloader bound (i - checked_count + 1) 0
        else find_checksum fuel bootloader bound (i + 1) checked_count
      else
        let checked_count := checked_count + 1 in
        if checked_count =? sign_len then Ret (Some (i + 1))
        else find_checksum fuel bootloader bound (i + 1) checked_count
  end.

(** The options are taken out of the arguments; [None] is [--help]. *)
Fixpoint enroll_options (args : list (list Z)) (rest : list (list Z)) (reset : bool) : option (list (list Z) * bool) :=
  match args with
  | [] => Some (rest, reset)
  | a :: args =>
      if bool_decide (a = bytes "--help") || bool_decide (a = bytes "-h") then None
      else if bool_decide (a = bytes "--quiet") then enroll_options args rest reset
      else if bool_decide (a = bytes "--reset") then enroll_options args rest true
      else enroll_options args (rest ++ [a]) reset
  end.

Definition min_size : Z := sign_len + 128.
(** The file with the hash in it, if there is a place for it. *)
Definition enroll (bootloader : list Z) (hash : list Z) : outcome (option (list Z)) :=
  if zlen bootloader <? min_size then Ret None
  else
    let bound := zlen bootloader - min_size + 1 in
    r ← find_checksum (Z.to_nat (27 * bound)) bootloader bound 0 0;
    Ret (match r with None => None | Some checksum_loc => Some (blit bootloader checksum_loc hash) end).
(** The exit status and what is written to which file. *)
Definition enroll_config (open : list Z -> option (list Z)) (args : list (list Z)) : outcome (bool * option (list Z * list Z)) :=
  match enroll_options args [] false with
  | None => Ret (true, None)
  | Some (rest, reset) =>
      match rest, reset with
      | [], _ => Ret (false, None)
      | [_], false => Ret (false, None)
      | name :: r, _ =>
          let hash := match r with h :: _ => h | [] => [] end in
          if negb reset && negb (zlen hash =? 128) then Ret (false, None)
          else match open name with
          | None => Ret (false, None)
          | Some bootloader =>
              r ← enroll bootloader (if reset : bool then replicate 128 48 else hash);
              Ret (match r with None => (false, None) | Some b => (true, Some (name, b)) end)
          end
      end
  end.

(** What the program does, with the exit status it ends with. *)
Inductive action := General_usage | Bios_install (r : option HostInstall.result) | No_bios | Enroll_config (written : option (list Z * list Z)) | Print_datadir | Version.
Definition main (bios : option (list (list Z) -> outcome (bool * option HostInstall.result))) (datadir : bool) (open : list Z -> option (list Z)) (argv : list (list Z)) : outcome (bool * action) :=
  match argv with
  | [] | [_] => Ret (false, General_usage)
  | _ :: a :: args =>
      if bool_decide (a = bytes "help") || bool_decide (a = bytes "--help") || bool_decide (a = bytes "-h") then Ret (true, General_usage)
      else if bool_decide (a = bytes "bios-install") then
        match bios with Some f => '(c, r) ← f args; Ret (c, Bios_install r) | None => Ret (false, No_bios) end
      else if bool_decide (a = bytes "enroll-config") then '(c, w) ← enroll_config open args; Ret (c, Enroll_config w)
      else if bool_decide (a = bytes "--print-datadir") then Ret (datadir, Print_datadir)
      else if bool_decide (a = bytes "version") || bool_decide (a = bytes "--version") then Ret (true, Version)
      else Ret (false, General_usage)
  end.
End HostEnroll.
