(* ===== verification/HostEnrollCorrect.v ===== *)
(** Enrolling the hash of a configuration, and the check of it at boot. *)

From S2P Require Import Prelude Libc LibcCorrect Guid GuidCorrect PartCorrect Blake2b Blake2bCorrect Config ConfigText ConfigCorrect Host HostCorrect HostInstall HostEnroll.
Import HostEnroll.

Lemma sign_len_26 : sign_len = 26.
Proof. reflexivity. Qed.
(** The signature is at [p], and the first place it is at. *)
Definition sign_at (b : list Z) (p : Z) : Prop := slice b p sign_len = CONFIG_B2SUM_SIGNATURE.
#[export] Instance sign_at_dec b p : Decision (sign_at b p).
Proof. unfold sign_at. apply _. Defined.
Definition first_sign (b : list Z) (p : Z) : Prop := 0 <= p /\ sign_at b p /\ forall q, 0 <= q < p -> ~ sign_at b q.
Lemma sign_at_bytes b p : 0 <= p -> p + sign_len <= zlen b -> sign_at b p <-> forall i, 0 <= i < sign_len -> b.[p + i] = CONFIG_B2SUM_SIGNATURE.[i].
Proof.
  intros Hp Hl. unfold sign_at. rewrite sign_len_26 in *. split.
  - intros He i Hi. rewrite <- He. by rewrite aget_slice by lia.
  - intros Hi. assert (length (slice b p 26) = 26%nat) as Hlen by (rewrite length_slice; lia). apply list_eq_same_length with (n := 26%nat); [reflexivity | done |]. intros k x y Hk Hx Hy. apply list_lookup_total_correct in Hx, Hy.
    pose proof (Hi (Z.of_nat k) ltac:(lia)) as He. rewrite <- (aget_slice b p 26) in He by lia. unfold aget in He. rewrite Nat2Z.id in He. congruence.
Qed.

Section search.
Context (b : list Z) (bound : Z) (Hb : bound + 128 <= zlen b).

(** [i - c] is the place that is tried, the places before it are not the signature's. *)
Lemma find_checksum_spec fuel : forall i c, 0 <= c < sign_len -> 0 <= i - c -> (forall k, 0 <= k < c -> b.[i - c + k] = CONFIG_B2SUM_SIGNATURE.[k]) -> (forall q, 0 <= q < i - c -> ~ sign_at b q) ->
  27 * (bound - (i - c)) - c <= Z.of_nat fuel ->
  match find_checksum fuel b bound i c with
  | Ret (Some p) => first_sign b (p - sign_len) /\ p <= bound
  | Ret None => forall p, 0 <= p -> p + sign_len <= bound -> ~ sign_at b p
  | _ => False
  end.
Proof.
  induction fuel as [|fuel IH]; intros i c Hc Hs Hm Hq Hf; cbn [find_checksum]; destruct (Z.ltb_spec i bound) as [Hlt|Hge]; cbn [negb]; rewrite sign_len_26 in *; try lia.
  1, 3: intros p Hp Hpb Hat; destruct (decide (p < i - c)); [by eapply (Hq p) | lia].
  destruct (Z.eqb_spec b.[i] CONFIG_B2SUM_SIGNATURE.[c]) as [Heq|Hne]; cbn [negb].
  - destruct (Z.eqb_spec (c + 1) 26) as [Hlast|Hmore].
    + split; [|lia]. split; [lia |]. replace (i + 1 - 26) with (i - c) by lia. split; [|done]. apply sign_at_bytes; rewrite ?sign_len_26; [lia | lia |]. intros k Hk. destruct (decide (k < c)); [by apply Hm; lia |]. assert (k = c) as -> by lia. by replace (i - c + c) with i by lia.
    + apply IH; rewrite ?sign_len_26; [lia | lia | | |lia].
      * intros k Hk. replace (i + 1 - (c + 1)) with (i - c) by lia. destruct (decide (k < c)); [by apply Hm; lia |]. assert (k = c) as -> by lia. by replace (i - c + c) with i by lia.
      * intros q Hq'. apply Hq. lia.
  - assert (forall q, 0 <= q < i - c + 1 -> ~ sign_at b q) as Hq2.
    { intros q Hq' Hat. destruct (decide (q < i - c)); [by eapply (Hq q); [lia |] |]. assert (q = i - c) as -> by lia. destruct (decide (i - c + 26 <= zlen b)); [|unfold sign_at in Hat; rewrite sign_len_26 in Hat; apply (f_equal length) in Hat; unfold slice in Hat; rewrite length_take, length_drop in Hat; change (length CONFIG_B2SUM_SIGNATURE) with 26%nat in Hat; unfold zlen in *; lia].
      rewrite sign_at_bytes in Hat by (rewrite ?sign_len_26; lia). apply Hne. rewrite <- (Hat c) by (rewrite sign_len_26; lia). f_equal. lia. }
    destruct (Z.gtb_spec c 0) as [Hc0|Hc0]; [apply IH | replace c with 0 in * by lia; apply IH]; rewrite ?sign_len_26; try lia.
    all: intros q Hq'; apply Hq2; lia.
Qed.
End search.

Lemma enroll_spec b p hash : first_sign b p -> p + sign_len <= zlen b - min_size + 1 -> enroll b hash = Ret (Some (blit b (p + sign_len) hash)).
Proof.
  intros [Hp [Hat Hno]] Hle. unfold enroll, min_size in *. rewrite sign_len_26 in *. rewrite (proj2 (Z.ltb_ge _ _)) by lia. pose proof (find_checksum_spec b (zlen b - (26 + 128) + 1) ltac:(lia) (Z.to_nat (27 * (zlen b - (26 + 128) + 1))) 0 0) as Hf. rewrite sign_len_26 in Hf.
  specialize (Hf ltac:(lia) ltac:(lia) ltac:(intros; lia) ltac:(intros; lia) ltac:(lia)). cbv zeta. destruct (find_checksum _ b _ 0 0) as [[q|]| |]; [| |done..]; cbn [mbind outcome_bind].
  - destruct Hf as [(Hq0 & Hqat & Hqno) _]. do 3 f_equal. destruct (decide (q - 26 < p)); [by destruct (Hno (q - 26)); [lia |] |]. destruct (decide (p < q - 26)); [by destruct (Hqno p); [lia |] |]. lia.
  - by destruct (Hf p).
Qed.

(** What the executable has for [config_b2sum]. *)
Definition carried (b : list Z) (p : Z) : list Z := slice b (p + sign_len) 128.

Lemma slice_blit b off data : 0 <= off -> off + zlen data <= zlen b -> slice (blit b off data) off (zlen data) = data.
Proof.
  intros Ho Hl. unfold slice, blit. rewrite drop_app_length' by (rewrite length_take; unfold zlen in *; lia). unfold zlen. by rewrite Nat2Z.id, take_app_length.
Qed.
Lemma hex_length h : length (hex_of h) = (2 * length h)%nat.
Proof. induction h as [|x h IH]; [done |]. cbn [hex_of length]. lia. Qed.

(** C14: an executable whose first signature leaves room is enrolled by its name and the hash of a
    configuration in hexadecimal: only the 128 characters after the signature change, and at boot
    the executable then accepts exactly the texts with that hash. *)
Theorem enroll_then_check open name b p h : name <> bytes "--help" -> name <> bytes "-h" -> name <> bytes "--quiet" -> name <> bytes "--reset" ->
  open name = Some b -> first_sign b p -> p + sign_len <= zlen b - min_size + 1 -> length h = 64%nat -> Forall is_byte h -> h <> replicate 64 0 ->
  exists b', enroll_config open [name; hex_of h] = Ret (true, Some (name, b')) /\ zlen b' = zlen b /\ (forall i, 0 <= i -> ~ (p + sign_len <= i < p + sign_len + 128) -> b'.[i] = b.[i]) /\
    forall text, zlen text < 2 ^ 128 -> Config.check_b2sum (carried b' p) text = if decide (blake2b_spec text = h) then Ret false else Panic.
Proof.
  intros H1 H2 H3 H4 Hopen Hfirst Hroom Hl HF Hne. assert (zlen (hex_of h) = 128) as Hz by (unfold zlen; rewrite hex_length, Hl; done).
  assert (forall l, zlen l <> 128 -> hex_of h <> l) as Hnl by (intros l Hll <-; done). destruct Hfirst as [Hp Hat]. pose proof sign_len_26 as H26. unfold min_size in Hroom.
  exists (blit b (p + sign_len) (hex_of h)). split.
  - unfold enroll_config. cbn [enroll_options]. rewrite !(bool_decide_eq_false_2 (name = _)) by done. rewrite !(bool_decide_eq_false_2 (hex_of h = _)) by (apply Hnl; vm_compute; discriminate). cbn [orb app negb andb].
    rewrite Hz. change (128 =? 128) with true. cbn [negb]. rewrite Hopen. rewrite (enroll_spec b p) by (unfold min_size; first [done | lia]). done.
  - split; [apply zlen_blit; lia |]. split.
    + intros i Hi Hout. rewrite aget_blit by lia. rewrite decide_False by lia. done.
    + intros text Ht. unfold carried. rewrite <- Hz, slice_blit by lia. by apply check_b2sum_spec.
Qed.
(** An executable of 400 bytes with the signature in its middle. *)
Definition exe : list Z := replicate 100 43 ++ CONFIG_B2SUM_SIGNATURE ++ replicate 274 48.
Lemma exe_first : first_sign exe 100.
Proof.
  split; [lia |]. split; [vm_compute; reflexivity |]. intros q Hq Hat. assert (forallb (fun q => negb (bool_decide (sign_at exe q))) (seqZ 0 100) = true) as Hall by (vm_compute; reflexivity).
  pose proof (seqZ_forallb _ 100 q Hall Hq) as Hn. cbv beta in Hn. rewrite bool_decide_eq_true_2 in Hn by done. discriminate Hn.
Qed.
Lemma enroll_then_check_witness : exists b', enroll_config (fun _ => Some exe) [bytes "limine-bios.sys"; hex_of ex_hash] = Ret (true, Some (bytes "limine-bios.sys", b')) /\
  Config.check_b2sum (carried b' 100) (bytes "abc") = Ret false /\ Config.check_b2sum (carried b' 100) (bytes "abd") = Panic.
Proof.
  destruct (enroll_then_check (fun _ => Some exe) (bytes "limine-bios.sys") exe 100 ex_hash) as (b' & E & _ & _ & Hc);
    [vm_compute; discriminate | vm_compute; discriminate | vm_compute; discriminate | vm_compute; discriminate | reflexivity | exact exe_first | vm_compute; discriminate | reflexivity | | vm_compute; discriminate |].
  - assert (Forall (fun b => (0 <=? b) && (b <? 256) = true) ex_hash) as HF by (vm_compute; repeat constructor). eapply Forall_impl; [exact HF |]. intros x Hx. unfold is_byte. cbv beta in Hx. lia.
  - exists b'. split; [exact E |]. rewrite !Hc by (vm_compute; reflexivity). vm_compute. split; reflexivity.
Defined.

(** The search stops when the end of the signature, not its start, is [min_size] before the end of
    the file: a file that ends with the signature and its 128 characters passes the check of its
    size, but its signature is not found. *)
Lemma enroll_misses_end : zlen (CONFIG_B2SUM_SIGNATURE ++ replicate 128 48) = min_size /\ enroll (CONFIG_B2SUM_SIGNATURE ++ replicate 128 48) (replicate 128 49) = Ret None /\
  enroll (replicate 24 0 ++ CONFIG_B2SUM_SIGNATURE ++ replicate 128 48) (replicate 128 49) = Ret None.
Proof. split_and!; vm_compute; reflexivity. Qed.
