(* ===== verification/Rand.v ===== *)
(** The random numbers of the boot loader, [common/lib/rand.c]: a Mersenne Twister that is seeded from
    the time-stamp counter and the processor's or the firmware's entropy. *)

From S2P Require Import Prelude.

Module Rand.

Definition n : Z := 624.
Definition m : Z := 397.
Definition matrix_a : Z := 0x9908b0df.
Definition msb : Z := 0x80000000.
Definition lsbs : Z := 0x7fffffff.

Record rng := { status : list Z; ctr : Z }.

(** Where entropy comes from: on x86 the leaves of [cpuid] and the two instructions, on aarch64 the
    field of the feature register and the register's value if it is valid; with UEFI the firmware's
    protocol, if there is one and it works. *)
Inductive cpu := X86 (leaf7_ebx leaf1_ecx : option Z) (rdseed rdrand : Z) | AArch64 (isar0 : Z) (rndr : option Z) | Other.
Record platform := { processor : cpu; efi_rng : option Z; rdtsc1 : Z; rdtsc2 : Z }.
Definition has_bit (leaf : option Z) (i : Z) : bool := match leaf with Some r => Z.testbit r i | None => false end.
Definition hw_entropy (p : platform) : Z :=
  let firmware := match p.(efi_rng) with Some v => u32 v | None => 0 end in
  match p.(processor) with
  | X86 leaf7_ebx leaf1_ecx rdseed rdrand =>
      if has_bit leaf7_ebx 18 then (if negb (u32 rdseed =? 0) then u32 rdseed else firmware)
      else if has_bit leaf1_ecx 30 then (if negb (u32 rdrand =? 0) then u32 rdrand else firmware)
      else firmware
  | AArch64 isar0 rndr =>
      if negb (Z.land (Z.shiftr isar0 60) 0xf =? 0) then match rndr with Some v => u32 v | None => firmware end else firmware
  | Other => firmware
  end.

(** [for (ctr = 1; ctr < n; ctr++) ...]: [k] words are left. *)
Fixpoint srand_loop (k : nat) (r : rng) : rng :=
  match k with
  | O => r
  | S k =>
      let p := r.(status).[r.(ctr) - 1] in
      srand_loop k {| status := r.(status).[r.(ctr) := u32 (1812433253 * Z.lxor p (Z.shiftr p 30) + r.(ctr))]; ctr := r.(ctr) + 1 |}
  end.
Definition srand (status : list Z) (s : Z) : rng := srand_loop 623 {| status := status.[0 := s]; ctr := 1 |}.

Definition seed_of (p : platform) : Z :=
  let seed := Z.lxor (u32 (u32 (0xc597060c * u32 p.(rdtsc1)) * 0xce86d624)) (u32 (0xee0da130 * u32 p.(rdtsc2))) in
  let hw := hw_entropy p in
  if negb (hw =? 0) then u32 (seed * Z.lxor seed hw) else seed.
(** The memory of [ext_mem_alloc_counted] is zeroed. *)
Definition init_rand (p : platform) : rng := srand (replicate (Z.to_nat n) 0) (seed_of p).

Definition mag01 (y : Z) : Z := if Z.land y 1 =? 0 then 0 else matrix_a.
Definition mix (s : list Z) (kk next other : Z) : list Z :=
  let y := Z.lor (Z.land s.[kk] msb) (Z.land s.[next] lsbs) in
  s.[kk := Z.lxor (Z.lxor s.[other] (Z.shiftr y 1)) (mag01 y)].
Definition regenerate (s : list Z) : list Z :=
  let s := for_up (Z.to_nat (n - m)) 0 (fun kk s => mix s kk (kk + 1) (kk + m)) s in
  let s := for_up (Z.to_nat (m - 1)) (n - m) (fun kk s => mix s kk (kk + 1) (kk + (m - n))) s in
  mix s (n - 1) 0 (m - 1).
Definition temper (res : Z) : Z :=
  let res := Z.lxor res (Z.shiftr res 11) in
  let res := Z.lxor res (Z.land (u32 (Z.shiftl res 7)) 0x9d2c5680) in
  let res := Z.lxor res (Z.land (u32 (Z.shiftl res 15)) 0xefc60000) in
  Z.lxor res (Z.shiftr res 18).

(** [None] is [!rand_initialised]. *)
Definition rand32 (p : platform) (r : option rng) : Z * option rng :=
  let r := match r with Some r => r | None => init_rand p end in
  let r := if r.(ctr) >=? n then {| status := regenerate r.(status); ctr := 0 |} else r in
  (temper r.(status).[r.(ctr)], Some {| status := r.(status); ctr := r.(ctr) + 1 |}).
Definition rand64 (p : platform) (r : option rng) : Z * option rng :=
  let '(a, r) := rand32 p r in
  let '(b, r) := rand32 p r in
  (Z.lor (Z.shiftl a 32) b, r).
End Rand.
