(* ===== verification/RandCorrect.v ===== *)
(** The numbers are those of MT19937, and have 32 bits. *)

From S2P Require Import Prelude Rand.
Import Rand.

(** * The recurrence *)

(** MT19937 as its authors define it: a sequence of words, of which the first 624 come from the seed,
    and every other one from three of the 624 before it. *)
Definition twist (u v : Z) : Z :=
  let y := Z.lor (Z.land u msb) (Z.land v lsbs) in Z.lxor (Z.shiftr y 1) (if Z.testbit y 0 then matrix_a else 0).
Fixpoint seeded (k : nat) (s : Z) : list Z :=
  match k with
  | O => [s]
  | S k => let l := seeded k s in let p := l.[Z.of_nat k] in l ++ [u32 (1812433253 * Z.lxor p (Z.shiftr p 30) + Z.of_nat (S k))]
  end.
Fixpoint words (k : nat) (s : Z) : list Z :=
  match k with
  | O => seeded 623 s
  | S k => let l := words k s in l ++ [Z.lxor l.[Z.of_nat k + 397] (twist l.[Z.of_nat k] l.[Z.of_nat k + 1])]
  end.
Definition mt_word (s i : Z) : Z := (words (Z.to_nat (i - 623)) s).[i].

Lemma zlen_seeded k s : zlen (seeded k s) = Z.of_nat k + 1.
Proof. induction k as [|k IH]; cbn [seeded]; [done |]. rewrite zlen_app, IH. change (zlen [_]) with 1. lia. Qed.
Lemma zlen_words k s : zlen (words k s) = Z.of_nat k + 624.
Proof. induction k as [|k IH]; cbn [words]; [by rewrite zlen_seeded |]. rewrite zlen_app, IH. change (zlen [_]) with 1. lia. Qed.
Lemma words_stable k j s i : (j <= k)%nat -> 0 <= i < Z.of_nat j + 624 -> (words k s).[i] = (words j s).[i].
Proof.
  intros Hjk Hi. induction Hjk as [|k Hjk IH]; [done |]. cbn [words]. rewrite aget_app_l; [exact IH |]. rewrite zlen_words. lia.
Qed.
Lemma word_words k s i : 0 <= i < Z.of_nat k + 624 -> mt_word s i = (words k s).[i].
Proof. intros Hi. unfold mt_word. symmetry. apply words_stable; lia. Qed.
Lemma word_step s i : 0 <= i -> mt_word s (i + 624) = Z.lxor (mt_word s (i + 397)) (twist (mt_word s i) (mt_word s (i + 1))).
Proof.
  intros Hi. rewrite (word_words (S (Z.to_nat i))) by lia. cbn [words]. rewrite aget_app_r by (rewrite zlen_words; lia). rewrite zlen_words, Z2Nat.id by lia. replace (i + 624 - (i + 624)) with 0 by lia. change ([?x].[0]) with x || cbn.
  rewrite <- !word_words by lia. done.
Qed.

(** * The generator *)

(** The state holds the words from [624 * j] on; the next number is that of word [p]. *)
Record at_word (s p : Z) (r : rng) : Prop := {
  aw_len : zlen r.(status) = n;
  aw_ctr : 0 <= r.(ctr) <= n;
  aw_word : exists j, 0 <= j /\ p = n * j + r.(ctr) /\ forall i, 0 <= i < n -> r.(status).[i] = mt_word s (n * j + i) }.

Lemma mag01_bit y : mag01 y = if Z.testbit y 0 then matrix_a else 0.
Proof. unfold mag01. rewrite <- Z.bit0_odd || idtac. change 1 with (Z.ones 1). rewrite Z.land_ones by lia. rewrite Z.bit0_odd. change (2 ^ 1) with 2. rewrite Zmod_odd. by destruct (Z.odd y). Qed.
Lemma mix_spec l kk next other : zlen l = n -> 0 <= kk < n -> 0 <= next < n -> 0 <= other < n -> zlen (mix l kk next other) = n /\
  forall i, 0 <= i < n -> (mix l kk next other).[i] = if kk =? i then Z.lxor l.[other] (twist l.[kk] l.[next]) else l.[i].
Proof.
  intros Hl Hk Hn Ho. unfold mix. split; [by rewrite zlen_aset |]. intros i Hi. rewrite aget_aset by lia. case_if; [|done]. unfold twist. rewrite mag01_bit. by rewrite Z.lxor_assoc.
Qed.
(** A pass: the first [kk] words are the new ones. *)
Definition half (s j kk : Z) (l : list Z) : Prop := zlen l = n /\ forall i, 0 <= i < n -> l.[i] = mt_word s (n * (if i <? kk then j + 1 else j) + i).
Lemma half_step s j kk l next other : 0 <= j -> 0 <= kk < n -> half s j kk l -> (kk + 1 < n -> next = kk + 1) -> (kk + 1 = n -> next = 0) -> (kk + m < n -> other = kk + m) -> (n <= kk + m -> other = kk + m - n) -> half s j (kk + 1) (mix l kk next other).
Proof.
  intros Hj Hk [Hl Hw] Hn1 Hn2 Ho1 Ho2. unfold n, m in *. assert (0 <= next < 624) as Hnx by lia. assert (0 <= other < 624) as Hox by lia. destruct (mix_spec l kk next other Hl Hk Hnx Hox) as [Hl' Hm]. split; [done |]. intros i Hi. unfold n in *. rewrite Hm by done.
  destruct (Z.eqb_spec kk i) as [<-|Hne].
  - assert ((kk <? kk + 1) = true) as -> by lia. replace (624 * (j + 1) + kk) with (624 * j + kk + 624) by lia. rewrite word_step by lia. f_equal; [|f_equal].
    + rewrite Hw by done. f_equal. destruct (Z.ltb_spec other kk); lia.
    + rewrite Hw by done. f_equal. destruct (Z.ltb_spec kk kk); lia.
    + rewrite Hw by done. f_equal. destruct (Z.ltb_spec next kk); lia.
  - rewrite Hw by done. f_equal. destruct (Z.ltb_spec i kk), (Z.ltb_spec i (kk + 1)); lia.
Qed.
Lemma regenerate_spec s j l : 0 <= j -> half s j 0 l -> half s j n (regenerate l).
Proof.
  intros Hj H0. unfold regenerate. cbv zeta. set (l1 := for_up (Z.to_nat (n - m)) _ _ l). assert (half s j (n - m) l1) as H1.
  { apply (for_up_ind (half s j) (Z.to_nat (n - m)) 0); [done |]. intros kk l' Hk Hh. unfold n, m in *. apply half_step; unfold n, m; first [done | lia]. }
  set (l2 := for_up (Z.to_nat (m - 1)) _ _ l1). assert (half s j (n - 1) l2) as H2.
  { replace (n - 1) with (n - m + Z.of_nat (Z.to_nat (m - 1))) by (unfold n, m; lia). apply (for_up_ind (half s j)); [done |]. intros kk l' Hk Hh. unfold n, m in *. apply half_step; unfold n, m; first [done | lia]. }
  replace n with (n - 1 + 1) at 1 by lia. apply half_step; unfold n, m; first [done | lia].
Qed.

Lemma seeded_stable k K s i : (k <= K)%nat -> 0 <= i <= Z.of_nat k -> (seeded K s).[i] = (seeded k s).[i].
Proof. intros Hk Hi. induction Hk as [|K Hk IH]; [done |]. cbn [seeded]. rewrite aget_app_l by (rewrite zlen_seeded; lia). exact IH. Qed.
Lemma mt_word_0 s : mt_word s 0 = s.
Proof. rewrite (word_words 0) by lia. cbn [words]. by rewrite (seeded_stable 0) by lia. Qed.
Lemma mt_word_seed s i : 0 < i < n -> mt_word s i = u32 (1812433253 * Z.lxor (mt_word s (i - 1)) (Z.shiftr (mt_word s (i - 1)) 30) + i).
Proof.
  intros Hi. unfold n in *. rewrite !(word_words 0) by lia. cbn [words]. assert (exists q : nat, Z.of_nat q = i - 1) as [q Hq] by (exists (Z.to_nat (i - 1)); lia).
  rewrite (seeded_stable (S q) 623 s i), (seeded_stable q 623 s (i - 1)) by lia. cbn [seeded]. rewrite aget_app_r by (rewrite zlen_seeded; lia). rewrite zlen_seeded. replace (i - (Z.of_nat q + 1)) with 0 by lia.
  replace (Z.of_nat (S q)) with i by lia. by replace (Z.of_nat q) with (i - 1) by lia.
Qed.
Lemma srand_loop_spec s k r : 1 <= r.(ctr) -> r.(ctr) + Z.of_nat k = n -> zlen r.(status) = n -> (forall i, 0 <= i < r.(ctr) -> r.(status).[i] = mt_word s i) ->
  let r' := srand_loop k r in r'.(ctr) = n /\ zlen r'.(status) = n /\ forall i, 0 <= i < n -> r'.(status).[i] = mt_word s i.
Proof.
  revert r. induction k as [|k IH]; intros r Hc Hk Hz Hw; cbn [srand_loop]; [replace (ctr r) with n in * by lia; done |].
  apply IH; cbn [status ctr]; [lia | lia | by rewrite zlen_aset |]. intros i Hi. rewrite aget_aset by lia.
  destruct (Z.eqb_spec (ctr r) i) as [<-|]; [|apply Hw; lia]. rewrite Hw, (mt_word_seed s (ctr r)) by (unfold n in *; lia). done.
Qed.
Lemma srand_spec s l : zlen l = n -> at_word s n (srand l s).
Proof.
  intros Hl. unfold srand. destruct (srand_loop_spec s 623 {| status := l.[0 := s]; ctr := 1 |}) as (H1 & H2 & H3); cbn [status ctr]; [lia | done | by rewrite zlen_aset | |].
  - intros i Hi. assert (i = 0) as -> by lia. rewrite aget_aset by (unfold n in *; lia). by rewrite mt_word_0.
  - split; [done | rewrite H1; unfold n; lia |]. exists 0. split; [lia |]. split; [rewrite H1; unfold n; lia |]. intros i Hi. by rewrite H3 by done.
Qed.

Lemma rand32_step p s k r : at_word s k r -> 0 <= k -> exists r', rand32 p (Some r) = (temper (mt_word s k), Some r') /\ at_word s (k + 1) r'.
Proof.
  intros [Hl Hc (j & Hj & Hk & Hw)] Hk0. unfold rand32. destruct (Z.geb_spec (ctr r) n) as [Hge|Hlt].
  - assert (half s j 0 (status r)) as H0 by (split; [done |]; intros i Hi; rewrite Hw by done; f_equal; destruct (Z.ltb_spec i 0); lia). apply regenerate_spec in H0 as [Hl' Hw']; [|done]. cbn [status ctr]. eexists. split; [do 2 f_equal |].
    + rewrite Hw' by (unfold n; lia). f_equal. unfold n in *. cbn [Z.ltb Z.compare]. lia.
    + split; cbn [status ctr]; [done | unfold n; lia |]. exists (j + 1). split; [lia |]. split; [unfold n in *; lia |]. intros i Hi. rewrite Hw' by done. f_equal. destruct (Z.ltb_spec i n); lia.
  - eexists. split; [do 2 f_equal; rewrite Hw by lia; f_equal; lia |]. split; cbn [status ctr]; [done | lia |]. exists j. split; [lia |]. split; [lia |]. done.
Qed.
Fixpoint draws (p : platform) (k : nat) (r : option rng) : list Z :=
  match k with O => [] | S k => let '(x, r) := rand32 p r in x :: draws p k r end.
Lemma draws_from p s k r q : at_word s q r -> 0 <= q -> draws p k (Some r) = map (fun i => temper (mt_word s i)) (seqZ q (Z.of_nat k)).
Proof.
  revert r q. induction k as [|k IH]; intros r q Hr Hq; [done |]. rewrite seqZ_cons by lia. replace (Z.pred (Z.of_nat (S k))) with (Z.of_nat k) by lia.
  destruct (rand32_step p s q r Hr Hq) as (r' & Heq & Hr'). cbn [draws map]. rewrite Heq. f_equal. apply IH; [done | lia].
Qed.

(** * Its words have 32 bits *)

Definition word32 (x : Z) : Prop := 0 <= x < 2 ^ 32.
Lemma word32_u32 x : word32 (u32 x).
Proof. apply u32_bound. Qed.
Lemma word32_log2 x : word32 x <-> 0 <= x /\ Z.log2 x < 32.
Proof.
  unfold word32. destruct (Z.eq_dec x 0) as [->|Hx]; [by cbn |]. split; intros [H0 H1]; (split; [done |]); apply Z.log2_lt_pow2; lia || done.
Qed.
Lemma word32_lxor x y : word32 x -> word32 y -> word32 (Z.lxor x y).
Proof. rewrite !word32_log2. intros [Hx Hx'] [Hy Hy']. pose proof (Z.log2_lxor x y Hx Hy). split; [by apply Z.lxor_nonneg | lia]. Qed.
Lemma word32_lor x y : word32 x -> word32 y -> word32 (Z.lor x y).
Proof. rewrite !word32_log2. intros [Hx Hx'] [Hy Hy']. rewrite Z.log2_lor by done. split; [by apply Z.lor_nonneg | lia]. Qed.
Lemma word32_land x y : word32 x -> word32 y -> word32 (Z.land x y).
Proof. rewrite !word32_log2. intros [Hx Hx'] [Hy Hy']. pose proof (Z.log2_land x y Hx Hy). split; [apply Z.land_nonneg; by left | lia]. Qed.
Lemma word32_shiftr x k : 0 <= k -> word32 x -> word32 (Z.shiftr x k).
Proof. intros Hk [Hx Hx']. rewrite Z.shiftr_div_pow2 by done. split; [apply Z.div_pos; lia |]. apply Z.div_lt_upper_bound; [lia |]. nia. Qed.
Create HintDb word32.
#[export] Hint Resolve word32_u32 word32_lxor word32_lor word32_land word32_shiftr : word32.
#[export] Hint Extern 1 (word32 (Zpos _)) => by vm_compute : word32.
#[export] Hint Extern 1 (word32 0) => by vm_compute : word32.
#[export] Hint Extern 1 (_ <= _) => lia : word32.

Lemma hw_entropy_word p : word32 (hw_entropy p).
Proof. unfold hw_entropy. repeat case_match; auto with word32. Qed.
Lemma seed_word p : word32 (seed_of p).
Proof. unfold seed_of. case_if; auto with word32. Qed.
Lemma temper_word x : word32 x -> word32 (temper x).
Proof. intros Hx. unfold temper. cbv zeta. auto 20 with word32. Qed.

(** The state the generator is in between two calls: 624 words of 32 bits, and a position after one of them. *)
Definition words32 (l : list Z) : Prop := zlen l = n /\ forall i, 0 <= i < n -> word32 l.[i].
Definition generator (r : option rng) : Prop := match r with Some r => words32 r.(status) /\ 0 < r.(ctr) <= n | None => True end.

Lemma words32_aset l i v : words32 l -> 0 <= i < n -> word32 v -> words32 l.[i := v].
Proof. intros [Hl Hw] Hi Hv. split; [by rewrite zlen_aset |]. intros j Hj. rewrite aget_aset by lia. case_if; [done | by apply Hw]. Qed.
Lemma mix_word l kk next other : words32 l -> 0 <= kk < n -> 0 <= next < n -> 0 <= other < n -> words32 (mix l kk next other).
Proof.
  intros Hl Hk Hn Ho. unfold mix. apply words32_aset; [done | done |]. destruct Hl as [_ Hw]. cbv zeta. unfold mag01, msb, lsbs, matrix_a. case_if; auto 10 with word32.
Qed.
Lemma regenerate_word l : words32 l -> words32 (regenerate l).
Proof.
  intros Hl. unfold regenerate. cbv zeta. apply mix_word; [|by vm_compute ..].
  apply (for_up_ind (fun _ => words32)); [apply (for_up_ind (fun _ => words32)); [done |] |]; intros kk l' Hk Hl'; unfold n, m in *; (apply mix_word; [done | unfold n; lia ..]).
Qed.
Lemma srand_loop_word k r : words32 r.(status) -> 1 <= r.(ctr) -> r.(ctr) + Z.of_nat k = n -> generator (Some (srand_loop k r)).
Proof.
  revert r. induction k as [|k IH]; intros r Hw Hc Hk; [split; cbn; [done | lia] |]. cbn [srand_loop]. apply IH; cbn [status ctr]; [|lia ..]. apply words32_aset; auto with word32. lia.
Qed.
Lemma init_rand_word p : generator (Some (init_rand p)).
Proof.
  unfold init_rand, srand. apply srand_loop_word; cbn [status ctr]; [|done ..]. apply words32_aset; [|done | apply seed_word].
  split; [done |]. intros i Hi. unfold aget. rewrite lookup_total_replicate_2 by (unfold n in *; lia). by vm_compute.
Qed.

Lemma rand32_word p r : generator r -> word32 (rand32 p r).1 /\ generator (rand32 p r).2 /\ is_Some (rand32 p r).2.
Proof.
  intros Hr. unfold rand32. set (r0 := match r with Some r => r | None => init_rand p end).
  assert (generator (Some r0)) as [Hw Hc] by (subst r0; destruct r; [done | apply init_rand_word]). clearbody r0. clear Hr r.
  set (r1 := if ctr r0 >=? n then _ else r0). assert (words32 (status r1) /\ 0 <= ctr r1 < n) as [Hw1 Hc1].
  { subst r1. destruct (Z.geb_spec (ctr r0) n); cbn [status ctr]; [split; [by apply regenerate_word | done] | split; [done | lia]]. }
  clearbody r1. cbn. split; [apply temper_word, Hw1, Hc1 |]. split; [split; cbn; [done | lia] | done].
Qed.



(** The first number for the seed 5489 is the one its authors publish. *)
Example mt19937_5489 : (rand32 {| processor := Other; efi_rng := None; rdtsc1 := 0; rdtsc2 := 0 |} (Some (srand (replicate 624 0) 5489))).1 = 3499211612.
Proof. by vm_compute. Qed.

Lemma log2_small x k : 0 <= x < 2 ^ k -> 0 < k -> Z.log2 x < k.
Proof. intros Hx Hk. destruct (Z.eq_dec x 0) as [->|]; [done |]. apply Z.log2_lt_pow2; lia. Qed.
Lemma rand64_word p r : generator r -> 0 <= (rand64 p r).1 < 2 ^ 64 /\ generator (rand64 p r).2.
Proof.
  intros Hr. unfold rand64. pose proof (rand32_word p r Hr) as (Ha & Hr1 & _). destruct (rand32 p r) as [a r1]. cbn [fst snd] in *.
  pose proof (rand32_word p r1 Hr1) as (Hb & Hr2 & _). destruct (rand32 p r1) as [b r2]. cbn [fst snd] in *. split; [|done].
  unfold word32 in *. rewrite Z.shiftl_mul_pow2 by lia. split; [apply Z.lor_nonneg; lia |].
  destruct (Z.eq_dec (Z.lor (a * 2 ^ 32) b) 0) as [->|]; [lia |]. assert (0 <= Z.lor (a * 2 ^ 32) b) by (apply Z.lor_nonneg; lia).
  apply Z.log2_lt_pow2; [lia |]. rewrite Z.log2_lor by lia. apply Z.max_lub_lt; (apply log2_small; [|lia]); lia.
Qed.
