(* ===== verification/Pe.v ===== *)
(** The PE loader, [common/lib/pe.c].

    The file is a function from an offset to a byte, as for ELF. Structures are records of the fields
    that are read; the relocations are read from the memory that they change. Memory and its allocator
    are those of [Pmm]; the list of ranges is a list, its memory is not taken from it. [rand32] is a
    parameter. *)

From S2P Require Import Prelude Guid Pmm Elf.
Import Guid.

Module Pe.

(** * Structures *)

Definition FIXED_HIGHER_HALF_OFFSET_64 : Z := 0xffffffff80000000.
Definition IMAGE_DOS_SIGNATURE : Z := 0x5a4d.
Definition IMAGE_NT_SIGNATURE : Z := 0x4550.
Definition IMAGE_NT_OPTIONAL_HDR64_MAGIC : Z := 0x20b.
Definition IMAGE_FILE_RELOCS_STRIPPED : Z := 1.
Definition IMAGE_DIRECTORY_ENTRY_IMPORT : Z := 1.
Definition IMAGE_DIRECTORY_ENTRY_BASERELOC : Z := 5.
Definition IMAGE_REL_BASED_ABSOLUTE : Z := 0.
Definition IMAGE_REL_BASED_HIGHLOW : Z := 3.
Definition IMAGE_REL_BASED_DIR64 : Z := 10.

(** The machine whose files are loaded, and whether a pointer has 32 bits. *)
Class PeArch := { MACHINE : Z; i386 : bool }.
Definition x86_64 : PeArch := {| MACHINE := 0x8664; i386 := false |}.
Definition x86_32 : PeArch := {| MACHINE := 0x8664; i386 := true |}.
Definition aarch64 : PeArch := {| MACHINE := 0xaa64; i386 := false |}.
Definition riscv64 : PeArch := {| MACHINE := 0x5064; i386 := false |}.
Definition loongarch64 : PeArch := {| MACHINE := 0x6264; i386 := false |}.
(** [uintptr_t] and [size_t]. *)
Definition uptr `{!PeArch} (x : Z) : Z := if i386 then u32 x else u64 x.

Definition num (m : Z -> Z) (a : Z) (n : nat) : Z := of_le (load_bytes m a n).
Definition sizeof_dos : Z := 64.
Definition e_magic (image : Z -> Z) : Z := num image 0 2.
Definition e_lfanew (image : Z -> Z) : Z := num image 60 4.

Definition sizeof_nt : Z := 264.
Definition sizeof_optional : Z := 240.
Record nt_hdrs := {
  Signature : Z; Machine : Z; NumberOfSections : Z; SizeOfOptionalHeader : Z; Characteristics : Z;
  Magic : Z; AddressOfEntryPoint : Z; ImageBase : Z; SectionAlignment : Z; SizeOfImage : Z; SizeOfHeaders : Z; NumberOfRvaAndSizes : Z;
  import_va : Z; import_size : Z; reloc_va : Z; reloc_size : Z }.
Definition nt_hdrs_at (image : Z -> Z) (a : Z) : nt_hdrs :=
  {| Signature := num image a 4; Machine := num image (a + 4) 2; NumberOfSections := num image (a + 6) 2; SizeOfOptionalHeader := num image (a + 20) 2;
     Characteristics := num image (a + 22) 2; Magic := num image (a + 24) 2; AddressOfEntryPoint := num image (a + 40) 4; ImageBase := num image (a + 48) 8;
     SectionAlignment := num image (a + 56) 4; SizeOfImage := num image (a + 80) 4; SizeOfHeaders := num image (a + 84) 4; NumberOfRvaAndSizes := num image (a + 132) 4;
     import_va := num image (a + 136 + 8 * IMAGE_DIRECTORY_ENTRY_IMPORT) 4; import_size := num image (a + 136 + 8 * IMAGE_DIRECTORY_ENTRY_IMPORT + 4) 4;
     reloc_va := num image (a + 136 + 8 * IMAGE_DIRECTORY_ENTRY_BASERELOC) 4; reloc_size := num image (a + 136 + 8 * IMAGE_DIRECTORY_ENTRY_BASERELOC + 4) 4 |}.
Definition headers (image : Z -> Z) : nt_hdrs := nt_hdrs_at image (e_lfanew image).

Definition sizeof_section : Z := 40.
Record section := { VirtualSize : Z; VirtualAddress : Z; SizeOfRawData : Z; PointerToRawData : Z; s_Characteristics : Z }.
Definition section_at (image : Z -> Z) (a : Z) : section :=
  {| VirtualSize := num image (a + 8) 4; VirtualAddress := num image (a + 12) 4; SizeOfRawData := num image (a + 16) 4; PointerToRawData := num image (a + 20) 4;
     s_Characteristics := num image (a + 36) 4 |}.
Definition sections_offset (image : Z -> Z) : Z := e_lfanew image + 4 + 20 + (headers image).(SizeOfOptionalHeader).
Definition sections (image : Z -> Z) : list section :=
  (fun i => section_at image (sections_offset image + i * sizeof_section)) <$> seqZ 0 (headers image).(NumberOfSections).

(** * Checks *)

Definition pe64_validate `{!PeArch} (image : Z -> Z) (file_size : Z) : outcome unit :=
  if file_size <? sizeof_dos then Panic
  else if negb (e_magic image =? IMAGE_DOS_SIGNATURE) then Panic
  else if file_size <? sizeof_nt then Panic
  else if e_lfanew image >? file_size - sizeof_nt then Panic
  else
    let h := headers image in
    if negb (h.(Signature) =? IMAGE_NT_SIGNATURE) then Panic
    else if negb (h.(Magic) =? IMAGE_NT_OPTIONAL_HDR64_MAGIC) then Panic
    else if h.(SizeOfOptionalHeader) <? sizeof_optional then Panic
    else if negb (h.(Machine) =? MACHINE) then Panic
    else Ret tt.

Definition pe_bits (image : Z -> Z) (image_size : Z) : Z :=
  if image_size <? sizeof_dos then -1
  else if negb (e_magic image =? IMAGE_DOS_SIGNATURE) then -1
  else if image_size <? sizeof_nt then -1
  else if e_lfanew image >? image_size - sizeof_nt then -1
  else
    let h := headers image in
    if negb (h.(Signature) =? IMAGE_NT_SIGNATURE) then -1
    else if h.(Machine) =? 0x14c then 32
    else if (h.(Machine) =? 0x8664) || (h.(Machine) =? 0xaa64) || (h.(Machine) =? 0x5064) || (h.(Machine) =? 0x6264) then 64
    else -1.

(** * Loading *)

Definition raw_size (s : section) : Z := if s.(VirtualSize) <? s.(SizeOfRawData) then s.(VirtualSize) else s.(SizeOfRawData).
Fixpoint copy_sections (image : Z -> Z) (file_size : Z) (l : list section) (physical_base image_size : Z) (m : mem) : outcome mem :=
  match l with
  | [] => Ret m
  | s :: l =>
      if s.(VirtualAddress) + raw_size s >? image_size then Panic
      else if s.(PointerToRawData) + raw_size s >? file_size then Panic
      else copy_sections image file_size l physical_base image_size (Elf.copy_in image m (physical_base + s.(VirtualAddress)) s.(PointerToRawData) (raw_size s))
  end.

Section relocations.
Context `{!PeArch} (image_size slide : Z) (lower_to_higher : bool).

(** The entries of the block at [block] from [relocs] on; the block's address is read again for each. *)
Fixpoint reloc_entries (n : nat) (block relocs block_base : Z) (m : mem) : outcome mem :=
  match n with
  | O => Ret m
  | S n =>
      let r := num m relocs 2 in
      let type := Z.shiftr r 12 in
      let offset := Z.land r 0xfff in
      let next := reloc_entries n block (uptr (relocs + 2)) block_base in
      if type =? IMAGE_REL_BASED_ABSOLUTE then next m
      else if (type =? IMAGE_REL_BASED_HIGHLOW) && lower_to_higher then Panic
      else if negb ((type =? IMAGE_REL_BASED_HIGHLOW) || (type =? IMAGE_REL_BASED_DIR64)) then Panic
      else
        let write_size := if type =? IMAGE_REL_BASED_HIGHLOW then 4%nat else 8%nat in
        if num m block 4 + offset + Z.of_nat write_size >? image_size then Panic
        else
          let a := uptr (block_base + offset) in
          next (mem_write m a (le_bytes write_size (num m a write_size + slide)))
  end.
(** The blocks from [reloc_block_offset] on; the block's size is read again after its entries. *)
Fixpoint reloc_blocks (fuel : nat) (physical_base va size reloc_block_offset : Z) (m : mem) : outcome mem :=
  if negb (uptr (size - reloc_block_offset) >=? 8) then Ret m
  else match fuel with
  | O => Diverge
  | S fuel =>
      let block := uptr (physical_base + va + reloc_block_offset) in
      let SizeOfBlock := num m (block + 4) 4 in
      if SizeOfBlock <? 8 then Panic
      else if SizeOfBlock >? uptr (size - reloc_block_offset) then Panic
      else if num m block 4 >=? image_size then Panic
      else
        m ← reloc_entries (Z.to_nat ((SizeOfBlock - 8) / 2)) block (uptr (block + 8)) (uptr (physical_base + num m block 4)) m;
        reloc_blocks fuel physical_base va size (uptr (reloc_block_offset + num m (block + 4) 4)) m
  end.
End relocations.

(** [ALIGN_UP] of 32-bit operands. *)
Definition ALIGN_UP_32 (x a : Z) : option Z := if x + (a - 1) <? 2 ^ 32 then Some ((x + (a - 1)) / a * a) else None.
Definition permissions_of (c : Z) : Z := Z.lor (Z.lor (if Z.land c 0x20000000 =? 0 then 0 else 1) (if Z.land c 0x80000000 =? 0 then 0 else 2)) (if Z.land c 0x40000000 =? 0 then 0 else 4).
Fixpoint section_ranges `{!PeArch} (l : list section) (virtual_base alignment : Z) : outcome (list Elf.mem_range) :=
  match l with
  | [] => Ret []
  | s :: l =>
      let misalign := s.(VirtualAddress) mod alignment in
      length ← or_panic (ALIGN_UP (uptr (s.(VirtualSize) + misalign)) alignment);
      rest ← section_ranges l virtual_base alignment;
      Ret ({| Elf.mr_base := u64 (virtual_base + ALIGN_DOWN s.(VirtualAddress) alignment); Elf.mr_length := uptr length; Elf.permissions := permissions_of s.(s_Characteristics) |} :: rest)
  end.
Definition pe_ranges `{!PeArch} (image : Z -> Z) (virtual_base alignment : Z) : outcome (list Elf.mem_range) :=
  let headers_within_section := existsb (fun s => s.(VirtualAddress) =? 0) (sections image) in
  first ← (if headers_within_section then Ret []
           else length ← or_panic (ALIGN_UP_32 (headers image).(SizeOfHeaders) 0x1000); Ret [{| Elf.mr_base := virtual_base; Elf.mr_length := length; Elf.permissions := 4 |}]);
  rest ← section_ranges (sections image) virtual_base alignment;
  Ret (first ++ rest).

Definition pe64_load `{!PeArch} {R : Type} (rand32 : R -> Z * R) (fuel : nat) (image : Z -> Z) (file_size alloc_type : Z) (kaslr : bool) (st : Pmm.state) (rng : R)
    : outcome (Elf.loaded * Pmm.state * R) :=
  _ ← pe64_validate image file_size;
  let h := headers image in
  if sections_offset image + h.(NumberOfSections) * sizeof_section >? file_size then Panic
  else
    let is_reloc := Z.land h.(Characteristics) IMAGE_FILE_RELOCS_STRIPPED =? 0 in
    let image_base := h.(ImageBase) in
    let image_size := h.(SizeOfImage) in
    let alignment := h.(SectionAlignment) in
    if alignment =? 0 then Panic
    else if (alignment >? 1) && negb (Z.land alignment (alignment - 1) =? 0) then Panic
    else
      let lower_to_higher := image_base <? FIXED_HIGHER_HALF_OFFSET_64 in
      if lower_to_higher && negb is_reloc then Panic
      else
        let lower_slide := if lower_to_higher then u64 (FIXED_HIGHER_HALF_OFFSET_64 - image_base) else 0 in
        '(physical_base, st) ← Pmm.ext_mem_alloc_type_aligned i386 st image_size alloc_type alignment;
        if (h.(SizeOfHeaders) >? file_size) || (h.(SizeOfHeaders) >? image_size) then Panic
        else
          let m := Elf.copy_in image st.(Pmm.ram) physical_base 0 h.(SizeOfHeaders) in
          '(slide, rng) ← (if is_reloc && kaslr then Elf.random_slide rand32 (Z.to_nat 0x10000) rng alignment image_base image_size lower_slide else Ret (lower_slide, rng));
          m ← copy_sections image file_size (sections image) physical_base image_size m;
          if h.(NumberOfRvaAndSizes) <? IMAGE_DIRECTORY_ENTRY_BASERELOC + 1 then Panic
          else if negb (h.(import_size) =? 0) && ((h.(import_va) >=? image_size) || (20 >? image_size - h.(import_va))) then Panic
          else if negb (h.(import_size) =? 0) && negb (num m (physical_base + h.(import_va) + 12) 4 =? 0) then Panic
          else if negb (h.(reloc_va) =? 0) && ((h.(reloc_va) >=? image_size) || (h.(reloc_size) >? image_size - h.(reloc_va))) then Panic
          else
            m ← (if h.(reloc_va) =? 0 then Ret m
                 else reloc_blocks image_size slide lower_to_higher fuel physical_base h.(reloc_va) h.(reloc_size) 0 m);
            let virtual_base := u64 (image_base + slide) in
            ranges ← pe_ranges image virtual_base alignment;
            Ret ({| Elf.entry_point := u64 (virtual_base + h.(AddressOfEntryPoint)); Elf.l_slide := slide; Elf.ranges := ranges; Elf.physical_base := physical_base;
                    Elf.virtual_base := virtual_base; Elf.image_size := image_size; Elf.image_size_before_bss := image_size; Elf.l_is_reloc := is_reloc |},
                 Pmm.set_ram st m, rng).
End Pe.
