(* ===== verification/PeCorrect.v ===== *)
(** What the PE loader puts into memory. *)

From Stdlib Require Import List.
From S2P Require Import Prelude Libc LibcCorrect Guid GuidCorrect Part PartCorrect Pmm PmmMap PmmSanitise PmmAlloc PmmOps PmmCorrect Vmm VmmWalk Elf ElfCorrect ElfSafe Pe.
Import Guid Pe.

(** * Numbers in memory *)

Lemma num_ext m m' a a' n : (forall i, 0 <= i < Z.of_nat n -> m (a + i) = m' (a' + i)) -> num m a n = num m' a' n.
Proof. intros H. unfold num. f_equal. by apply load_bytes_ext. Qed.
Lemma num_range m a n : (forall x, is_byte (m x)) -> 0 <= num m a n < 2 ^ (8 * Z.of_nat n).
Proof.
  intros Hb. pose proof (of_le_range (load_bytes m a n)) as H. unfold num. unfold zlen in H. rewrite length_load in H. rewrite Z.pow_mul_r by lia. change (2 ^ 8) with 256. apply H.
  unfold load_bytes. apply Forall_fmap, Forall_forall. intros x _. apply Hb.
Qed.
Lemma le_bytes_mod n v : le_bytes n v = le_bytes n (v mod 2 ^ (8 * Z.of_nat n)).
Proof.
  unfold le_bytes. apply list_fmap_ext. intros k i Hi. apply lookup_seq in Hi as [-> Hi]. unfold u8, wrap. apply Z.bits_inj'. intros b Hb.
  destruct (Z.lt_ge_cases b 8); [|by rewrite !Z.mod_pow2_bits_high by lia]. rewrite !Z.mod_pow2_bits_low, !Z.shiftr_spec by lia. by rewrite Z.mod_pow2_bits_low by lia.
Qed.
Lemma num_write m a n v : num (mem_write m a (le_bytes n v)) a n = v mod 2 ^ (8 * Z.of_nat n).
Proof.
  unfold num. assert (load_bytes (mem_write m a (le_bytes n v)) a n = le_bytes n v) as ->.
  { pose proof (zlen_le_bytes n v) as Hz. unfold zlen in Hz. apply list_eq_same_length with (n := n); [lia | apply length_load |]. intros i x y Hi Hx Hy.
    unfold load_bytes in Hx. rewrite list_lookup_fmap, lookup_seqZ_lt in Hx by lia. cbn in Hx. injection Hx as <-. rewrite mem_write_in by (rewrite zlen_le_bytes; lia). unfold aget.
    replace (Z.to_nat (a + Z.of_nat i - a)) with i by lia. by apply list_lookup_total_correct. }
  rewrite le_bytes_mod. apply of_le_bytes. replace 256 with (2 ^ 8) by done. rewrite <- Z.pow_mul_r by lia. apply Z.mod_pos_bound. lia.
Qed.

(** * Lists *)

Lemma ordpairs_app {A : Type} (R : A -> A -> Prop) l1 l2 : ForallOrdPairs R (l1 ++ l2) -> ForallOrdPairs R l1 /\ Forall (fun x => Forall (R x) l2) l1.
Proof.
  induction l1 as [|x l1 IH]; intros H; [split; constructor |]. cbn [app] in H. inversion H as [|? ? Hx H']; subst. apply Forall_app in Hx as [H1 H2]. destruct (IH H') as [H3 H4]. split; constructor; done.
Qed.
Lemma find_app {A : Type} (f : A -> bool) l1 l2 : List.find f (l1 ++ l2) = match List.find f l1 with Some x => Some x | None => List.find f l2 end.
Proof. induction l1 as [|x l1 IH]; [done |]. cbn [app List.find]. by destruct (f x). Qed.

(** * The image *)

Section image.
Context (image : Z -> Z).

Definition in_section (s : section) (a : Z) : bool := (s.(VirtualAddress) <=? a) && (a <? s.(VirtualAddress) + raw_size s).
(** The byte that the file describes for [a] in the image: that of the last section that has it, or of
    the headers, or zero. *)
Definition image_byte (a : Z) : Z :=
  match List.find (fun s => in_section s a) (rev (sections image)) with
  | Some s => image (s.(PointerToRawData) + (a - s.(VirtualAddress)))
  | None => if (0 <=? a) && (a <? (headers image).(SizeOfHeaders)) then image a else 0
  end.

(** A relocation: its type and the address of its word in the image. *)
Definition width (t : Z) : nat := if t =? IMAGE_REL_BASED_HIGHLOW then 4%nat else 8%nat.
Definition covers (x : Z * Z) (a : Z) : Prop := x.2 <= a < x.2 + Z.of_nat (width x.1).
Definition clear (x y : Z * Z) : Prop := x.2 + Z.of_nat (width x.1) <= y.2 \/ y.2 + Z.of_nat (width y.1) <= x.2.
(** The relocations of [n] entries at [a], for a block about the page at [va]; entries of type
    [IMAGE_REL_BASED_ABSOLUTE] only fill up the block. *)
Fixpoint entries_at (n : nat) (va a : Z) : list (Z * Z) :=
  match n with
  | O => []
  | S n =>
      let r := num image_byte a 2 in
      (if Z.shiftr r 12 =? IMAGE_REL_BASED_ABSOLUTE then [] else [(Z.shiftr r 12, va + Z.land r 0xfff)]) ++ entries_at n va (a + 2)
  end.
(** [size] bytes at [a] hold blocks with the relocations [l]. *)
Inductive directory : Z -> Z -> list (Z * Z) -> Prop :=
| dir_end a size : 0 <= size < 8 -> directory a size []
| dir_block a size l : 8 <= num image_byte (a + 4) 4 <= size -> num image_byte a 4 < (headers image).(SizeOfImage) ->
    directory (a + num image_byte (a + 4) 4) (size - num image_byte (a + 4) 4) l ->
    directory a size (entries_at (Z.to_nat ((num image_byte (a + 4) 4 - 8) / 2)) (num image_byte a 4) (a + 8) ++ l).

(** What is asked of the relocations of a directory at [va]: supported types, words in the image and
    outside of the directory, no two of which overlap. *)
Record relocs_ok (lower : bool) (va size : Z) (l : list (Z * Z)) : Prop := {
  ro_type : Forall (fun x => x.1 = IMAGE_REL_BASED_DIR64 \/ x.1 = IMAGE_REL_BASED_HIGHLOW /\ lower = false) l;
  ro_in : Forall (fun x => 0 <= x.2 /\ x.2 + Z.of_nat (width x.1) <= (headers image).(SizeOfImage)) l;
  ro_out : Forall (fun x => x.2 + Z.of_nat (width x.1) <= va \/ va + size <= x.2) l;
  ro_apart : ForallOrdPairs clear l }.
End image.

Lemma uptr_small {arch : PeArch} x : 0 <= x < 2 ^ 32 -> uptr x = x.
Proof. intros Hx. unfold uptr. case_if; [by apply u32_small | apply u64_small; lia]. Qed.
Lemma uptr_add {arch : PeArch} x y : uptr (uptr x + y) = uptr (x + y).
Proof. unfold uptr. case_if; unfold u32, u64, wrap; by rewrite Z.add_mod_idemp_l by lia. Qed.

Section relocate.
Context {arch : PeArch} (image : Z -> Z) (slide pb : Z) (m0 : mem) (Hbytes : forall x, is_byte (image x)).
Let size := (headers image).(SizeOfImage).
Let img := image_byte image.
Context (Hpb : 0 <= pb) (Htop : pb + size <= 2 ^ 32).

Lemma image_byte_ok a : is_byte (image_byte image a).
Proof. unfold image_byte. repeat case_match; try apply Hbytes. split; lia. Qed.

(** The memory when the relocations [l] have been done. *)
Record done_with (l : list (Z * Z)) (m : mem) : Prop := {
  dw_word t r : (t, r) ∈ l -> num m (pb + r) (width t) = (num img r (width t) + slide) mod 2 ^ (8 * Z.of_nat (width t));
  dw_byte a : 0 <= a < size -> Forall (fun x => ~ covers x a) l -> m (pb + a) = img a;
  dw_out x : ~ (pb <= x < pb + size) -> m x = m0 x }.

Lemma width_pos t : 0 < Z.of_nat (width t).
Proof. unfold width. case_if; lia. Qed.
Lemma clear_covers x y a : clear x y -> covers x a -> ~ covers y a.
Proof. unfold clear, covers. lia. Qed.
(** A number no relocation has touched. *)
Lemma dw_num l m a n : done_with l m -> 0 <= a -> a + Z.of_nat n <= size -> Forall (fun x => x.2 + Z.of_nat (width x.1) <= a \/ a + Z.of_nat n <= x.2) l -> num m (pb + a) n = num img a n.
Proof.
  intros H Ha Hn HF. apply num_ext. intros i Hi. rewrite <- Z.add_assoc. apply (dw_byte _ _ H); [lia |]. eapply Forall_impl; [exact HF |]. intros x Hx. cbv beta in Hx. unfold covers. lia.
Qed.
Lemma dw_step l m t r : done_with l m -> 0 <= r -> r + Z.of_nat (width t) <= size -> Forall (fun x => clear x (t, r)) l ->
  done_with (l ++ [(t, r)]) (mem_write m (pb + r) (le_bytes (width t) (num m (pb + r) (width t) + slide))).
Proof.
  intros H Hr Hw HF. assert (num m (pb + r) (width t) = num img r (width t)) as -> by (apply (dw_num l); [done | done | done |]; eapply Forall_impl; [exact HF |]; unfold clear; cbn; lia).
  assert (forall x, ~ (pb + r <= x < pb + r + Z.of_nat (width t)) -> mem_write m (pb + r) (le_bytes (width t) (num img r (width t) + slide)) x = m x) as Hout by (intros x Hx; apply mem_write_out; by rewrite zlen_le_bytes).
  split.
  - intros t' r' Hin. apply elem_of_app in Hin as [Hin|Hin].
    + rewrite <- (dw_word _ _ H t' r' Hin). apply num_ext. intros i Hi. apply Hout. pose proof (proj1 (Forall_forall _ _) HF _ Hin) as Hc. unfold clear in Hc. cbn [fst snd] in Hc. lia.
    + apply list_elem_of_singleton in Hin. injection Hin as -> ->. apply num_write.
  - intros a Ha HF'. apply Forall_app in HF' as [HF1 HF2]. apply Forall_cons in HF2 as [HF2 _]. unfold covers in HF2. cbn [fst snd] in HF2. rewrite Hout by lia. by apply (dw_byte _ _ H).
  - intros x Hx. rewrite Hout by lia. by apply (dw_out _ _ H).
Qed.

Section entries.
Context (lower : bool) (dv ds : Z) (Hdv : 0 <= dv) (Hdir : dv + ds <= size).
Definition reloc_fine (x : Z * Z) : Prop :=
  (x.1 = IMAGE_REL_BASED_DIR64 \/ x.1 = IMAGE_REL_BASED_HIGHLOW /\ lower = false) /\ (0 <= x.2 /\ x.2 + Z.of_nat (width x.1) <= size) /\ (x.2 + Z.of_nat (width x.1) <= dv \/ dv + ds <= x.2).

(** A number of the directory is as the file has it. *)
Lemma dw_dir l m a n : done_with l m -> Forall reloc_fine l -> dv <= a -> a + Z.of_nat n <= dv + ds -> num m (uptr (pb + a)) n = num img a n.
Proof.
  intros H HF Ha Hn. destruct (Nat.eq_dec n 0%nat) as [->|]; [done |]. rewrite uptr_small by lia. apply (dw_num l); [done | lia | lia |]. eapply Forall_impl; [exact HF |]. intros x (_ & _ & Hx). lia.
Qed.

Lemma entries_ok block va n : forall a l m, done_with l m -> dv <= block -> block + 8 <= a -> a + 2 * Z.of_nat n <= dv + ds -> num img block 4 = va -> 0 <= va < size ->
  Forall reloc_fine (l ++ entries_at image n va a) -> ForallOrdPairs clear (l ++ entries_at image n va a) ->
  exists m', reloc_entries size slide lower n (uptr (pb + block)) (uptr (pb + a)) (uptr (pb + va)) m = Ret m' /\ done_with (l ++ entries_at image n va a) m'.
Proof.
  induction n as [|n IH]; intros a l m H Hb Ha Hn Hva Hv HF HO; cbn [entries_at reloc_entries] in *; [exists m; by rewrite app_nil_r |]. cbv zeta.
  assert (Forall reloc_fine l) as HFl by (by apply Forall_app in HF as [? _]). rewrite (dw_dir l m a 2) by (first [done | lia]). fold img in HF, HO |- *. set (r := num img a 2) in *. rewrite uptr_add. replace (pb + a + 2) with (pb + (a + 2)) by lia.
  destruct (Z.eqb_spec (Z.shiftr r 12) IMAGE_REL_BASED_ABSOLUTE) as [E0|E0]; [apply IH; first [done | lia] |].
  cbn [app] in HF, HO |- *. set (t := Z.shiftr r 12) in *. set (off := Z.land r 0xfff) in *. pose proof (proj2 (proj1 (Forall_app _ _ _) HF)) as HF2. apply Forall_cons in HF2 as [(Ht & [Hr0 Hr1] & Hr2) _]. cbn [fst snd] in Ht, Hr0, Hr1, Hr2.
  assert ((t =? IMAGE_REL_BASED_HIGHLOW) && lower = false) as -> by (destruct Ht as [->|[-> ->]]; done).
  assert (negb ((t =? IMAGE_REL_BASED_HIGHLOW) || (t =? IMAGE_REL_BASED_DIR64)) = false) as -> by (destruct Ht as [->|[-> _]]; done).
  change (if t =? IMAGE_REL_BASED_HIGHLOW then 4%nat else 8%nat) with (width t). rewrite (dw_dir l m block 4) by (first [done | lia]). rewrite Hva.
  rewrite Z.gtb_ltb, (proj2 (Z.ltb_ge _ _)) by lia. rewrite uptr_add. replace (pb + va + off) with (pb + (va + off)) by lia. pose proof (width_pos t). rewrite (uptr_small (pb + (va + off))) by lia.
  assert (Forall (fun x => clear x (t, va + off)) l) as Hcl.
  { apply ordpairs_app in HO as [_ HO]. eapply Forall_impl; [exact HO |]. intros x Hx. by apply Forall_cons in Hx as [? _]. }
  destruct (IH (a + 2) (l ++ [(t, va + off)]) (mem_write m (pb + (va + off)) (le_bytes (width t) (num m (pb + (va + off)) (width t) + slide)))) as (m' & E & Hd); try done; [by apply dw_step | lia | lia | by rewrite <- app_assoc | by rewrite <- app_assoc |].
  exists m'. split; [done |]. by rewrite <- app_assoc in Hd.
Qed.

Lemma image_size_range : 0 <= size < 2 ^ 32.
Proof. apply (num_range image _ 4 Hbytes). Qed.
Lemma blocks_ok a n rs : directory image a n rs -> forall l m fuel, done_with l m -> dv <= a -> a + n = dv + ds -> (Z.to_nat n <= fuel)%nat ->
  Forall reloc_fine (l ++ rs) -> ForallOrdPairs clear (l ++ rs) -> exists m', reloc_blocks size slide lower fuel pb dv ds (a - dv) m = Ret m' /\ done_with (l ++ rs) m'.
Proof.
  pose proof image_size_range as Hsz. pose proof (image_byte_ok) as Hib. induction 1 as [a n Hn|a n rs Hsb Hva Hdir' IH]; intros l m fuel H Ha Han Hf HF HO.
  - exists m. rewrite app_nil_r. split; [|done]. destruct fuel; cbn [reloc_blocks]; rewrite uptr_small by lia; rewrite Z.geb_leb, (proj2 (Z.leb_gt _ _)) by lia; done.
  - fold img in Hsb, Hva, Hdir', IH, HF, HO |- *. set (sz := num img (a + 4) 4) in *. set (va := num img a 4) in *. pose proof (num_range img a 4 Hib) as Hva0. fold va in Hva0. destruct fuel as [|fuel]; [lia |]. cbn [reloc_blocks]. cbv zeta. rewrite (uptr_small (ds - (a - dv))) by lia. replace (ds - (a - dv)) with n by lia.
    rewrite Z.geb_leb, (proj2 (Z.leb_le _ _)) by lia. cbn [negb]. replace (pb + dv + (a - dv)) with (pb + a) by lia.
    assert (Forall reloc_fine l) as HFl by (by apply Forall_app in HF as [? _]).
    assert (forall l' m', done_with l' m' -> Forall reloc_fine l' -> num m' (uptr (pb + a) + 4) 4 = sz) as Hsize.
    { intros l' m' Hd HF'. rewrite (uptr_small (pb + a)) by lia. rewrite <- Z.add_assoc. pose proof (dw_dir l' m' (a + 4) 4 Hd HF') as E. rewrite uptr_small in E by lia. apply E; lia. }
    rewrite (Hsize l m) by done. rewrite (dw_dir l m a 4) by (first [done | lia]). fold va. rewrite (proj2 (Z.ltb_ge _ _)) by lia. rewrite Z.gtb_ltb, (proj2 (Z.ltb_ge _ _)) by lia. rewrite Z.geb_leb, (proj2 (Z.leb_gt _ _)) by (fold size in Hva; lia).
    rewrite app_assoc in HF, HO. assert (Forall reloc_fine (l ++ entries_at image (Z.to_nat ((sz - 8) / 2)) va (a + 8))) as HF1 by (by apply Forall_app in HF as [? _]).
    rewrite uptr_add. replace (pb + a + 8) with (pb + (a + 8)) by lia. pose proof (Z.mul_div_le (sz - 8) 2) as Hdiv. pose proof (Z.div_pos (sz - 8) 2) as Hpos.
    destruct (entries_ok a va (Z.to_nat ((sz - 8) / 2)) (a + 8) l m) as (m1 & E1 & H1); try done; [lia | lia | by apply ordpairs_app in HO as [? _] |].
    rewrite E1. cbn [mbind outcome_bind]. rewrite (Hsize _ m1 H1 HF1). rewrite uptr_small by lia. replace (a - dv + sz) with (a + sz - dv) by lia.
    destruct (IH _ m1 fuel H1 ltac:(lia) ltac:(lia) ltac:(lia) HF HO) as (m2 & E2 & H2). exists m2. split; [done |]. by rewrite app_assoc.
Qed.
End entries.
End relocate.

(** * Sections *)

Definition section_ok (image : Z -> Z) (file_size : Z) (s : section) : Prop :=
  s.(VirtualAddress) + s.(VirtualSize) <= (headers image).(SizeOfImage) /\ s.(PointerToRawData) + raw_size s <= file_size.
Lemma raw_size_le s : raw_size s <= s.(VirtualSize).
Proof. unfold raw_size. case_if; lia. Qed.
Lemma copy_sections_ok image file_size pb l : Forall (section_ok image file_size) l -> forall m, exists m', copy_sections image file_size l pb (headers image).(SizeOfImage) m = Ret m' /\
  forall x, m' x = match List.find (fun s => in_section s (x - pb)) (rev l) with Some s => image (s.(PointerToRawData) + (x - pb - s.(VirtualAddress))) | None => m x end.
Proof.
  induction 1 as [|s l [H1 H2] _ IH]; intros m; cbn [copy_sections rev]; [by exists m |]. pose proof (raw_size_le s). rewrite !Z.gtb_ltb, !(proj2 (Z.ltb_ge _ _)) by lia.
  destruct (IH (Elf.copy_in image m (pb + VirtualAddress s) (PointerToRawData s) (raw_size s))) as (m' & E & Hm). exists m'. split; [done |]. intros x. rewrite Hm, find_app.
  destruct (List.find _ (rev l)); [done |]. cbn [List.find]. unfold Elf.copy_in, in_section. destruct (Z.leb_spec (VirtualAddress s) (x - pb)), (Z.ltb_spec (x - pb) (VirtualAddress s + raw_size s)); cbn [andb]; case_if; try lia; try done. f_equal. lia.
Qed.

(** * Kernels *)

Definition lower (image : Z -> Z) : bool := (headers image).(ImageBase) <? FIXED_HIGHER_HALF_OFFSET_64.
Definition stripped (image : Z -> Z) : bool := negb (Z.land (headers image).(Characteristics) IMAGE_FILE_RELOCS_STRIPPED =? 0).
Definition least_slide (image : Z -> Z) : Z := if lower image then u64 (FIXED_HIGHER_HALF_OFFSET_64 - (headers image).(ImageBase)) else 0.

(** A kernel as the format prescribes it, with the relocations [rs]. *)
Record pe_kernel {arch : PeArch} (image : Z -> Z) (file_size k : Z) (rs : list (Z * Z)) : Prop := {
  pk_bytes x : is_byte (image x);
  pk_valid : pe64_validate image file_size = Ret tt;
  pk_table : sections_offset image + (headers image).(NumberOfSections) * sizeof_section <= file_size;
  pk_align : (headers image).(SectionAlignment) = 2 ^ k;
  pk_k : 0 <= k < 32;
  pk_lower : lower image = true -> stripped image = false;
  pk_size : 0 < (headers image).(SizeOfImage) < 2 ^ 31;
  pk_headers : (headers image).(SizeOfHeaders) <= file_size /\ (headers image).(SizeOfHeaders) <= (headers image).(SizeOfImage);
  pk_sections : Forall (section_ok image file_size) (sections image);
  pk_dirs : 6 <= (headers image).(NumberOfRvaAndSizes);
  pk_imports : (headers image).(import_size) = 0 \/ (headers image).(import_va) + 20 <= (headers image).(SizeOfImage) /\ num (image_byte image) ((headers image).(import_va) + 12) 4 = 0;
  pk_relocs : (headers image).(reloc_va) = 0 /\ rs = [] \/
    (headers image).(reloc_va) <> 0 /\ (headers image).(reloc_va) + (headers image).(reloc_size) <= (headers image).(SizeOfImage) /\ 0 < (headers image).(reloc_size) /\
    directory image (headers image).(reloc_va) (headers image).(reloc_size) rs /\ relocs_ok image (lower image) (headers image).(reloc_va) (headers image).(reloc_size) rs }.

(** A file that is loaded was recognised as one of 64 bits. *)
Lemma pe_bits_valid {arch : PeArch} image file_size : arch ∈ [x86_64; x86_32; aarch64; riscv64; loongarch64] -> pe64_validate image file_size = Ret tt -> pe_bits image file_size = 64.
Proof.
  intros Ha E. unfold pe64_validate in E. cbv zeta in E. unfold pe_bits. cbv zeta. do 8 (inv_step E). assert (Machine (headers image) = MACHINE) as -> by lia.
  repeat (apply elem_of_cons in Ha as [->|Ha]; [done |]). by apply not_elem_of_nil in Ha.
Qed.

Definition range_of (vb al : Z) (s : section) : Elf.mem_range :=
  {| Elf.mr_base := u64 (vb + ALIGN_DOWN s.(VirtualAddress) al); Elf.mr_length := align_up (s.(VirtualSize) + s.(VirtualAddress) mod al) al; Elf.permissions := permissions_of s.(s_Characteristics) |}.
(** The ranges of a kernel at [vb]: the headers, unless a section is there, and the sections. *)
Definition ranges_of (image : Z -> Z) (vb al : Z) : list Elf.mem_range :=
  (if existsb (fun s => s.(VirtualAddress) =? 0) (sections image) then []
   else [{| Elf.mr_base := vb; Elf.mr_length := align_up (headers image).(SizeOfHeaders) 0x1000; Elf.permissions := 4 |}]) ++ (range_of vb al <$> sections image).

Section load.
Context {arch : PeArch} (image : Z -> Z) (file_size k : Z) (rs : list (Z * Z)) (K : pe_kernel image file_size k rs).
Notation h := (headers image) (only parsing).

Lemma kernel_field a n : 0 <= num image a n < 2 ^ (8 * Z.of_nat n).
Proof. apply num_range, K. Qed.
Lemma kernel_section s : s ∈ sections image -> 0 <= s.(VirtualAddress) /\ 0 <= s.(VirtualSize) /\ s.(VirtualAddress) + s.(VirtualSize) < 2 ^ 31.
Proof.
  intros Hs. destruct (proj1 (Forall_forall _ _) (pk_sections _ _ _ _ K) s Hs) as [Hv _]. pose proof (pk_size _ _ _ _ K). apply list_elem_of_fmap in Hs as (i & -> & _). cbn [section_at VirtualAddress VirtualSize] in *.
  pose proof (kernel_field (sections_offset image + i * sizeof_section + 12) 4). pose proof (kernel_field (sections_offset image + i * sizeof_section + 8) 4). lia.
Qed.
Lemma pe_kernel_ranges vb : pe_ranges image vb (2 ^ k) = Ret (ranges_of image vb (2 ^ k)).
Proof.
  pose proof (pk_k _ _ _ _ K) as Hk. assert (0 < 2 ^ k <= 2 ^ 31) as Hal by (split; [apply Z.pow_pos_nonneg; lia | apply Z.pow_le_mono_r; lia]).
  assert (section_ranges (sections image) vb (2 ^ k) = Ret (range_of vb (2 ^ k) <$> sections image)) as Hs.
  { pose proof kernel_section as HS. induction (sections image) as [|s l IH]; [done |]. cbn [section_ranges fmap list_fmap]. cbv zeta. destruct (HS s (list_elem_of_here _ _)) as (H1 & H2 & H3).
    unfold range_of at 1. pose proof (Z.mod_pos_bound s.(VirtualAddress) (2 ^ k) ltac:(lia)) as Hm. pose proof (Z.mod_le s.(VirtualAddress) (2 ^ k) ltac:(lia) ltac:(lia)) as Hml. set (r := VirtualAddress s mod 2 ^ k) in *. clearbody r. rewrite uptr_small by lia.
    pose proof (ALIGN_UP_spec (VirtualSize s + r) (2 ^ k) ltac:(lia) ltac:(lia)) as Hu. destruct (ALIGN_UP _ _) as [y|]; [|lia]. destruct Hu as [-> _]. cbn [or_panic mbind outcome_bind].
    rewrite IH by (intros s' Hs'; apply HS; by right). cbn [mbind outcome_bind]. unfold align_up. pose proof (ALIGN_DOWN_spec (VirtualSize s + r + (2 ^ k - 1)) (2 ^ k) ltac:(lia)) as [Hd _]. rewrite uptr_small by lia. done. }
  unfold pe_ranges, ranges_of. cbv zeta. rewrite Hs. destruct (existsb _ _); [done |]. unfold ALIGN_UP_32. pose proof (pk_size _ _ _ _ K). pose proof (pk_headers _ _ _ _ K). rewrite (proj2 (Z.ltb_lt _ _)) by lia. done.
Qed.
Lemma align_test : (h.(SectionAlignment) =? 0) = false /\ (h.(SectionAlignment) >? 1) && negb (Z.land h.(SectionAlignment) (h.(SectionAlignment) - 1) =? 0) = false.
Proof.
  rewrite (pk_align _ _ _ _ K). pose proof (pk_k _ _ _ _ K) as Hk. assert (0 < 2 ^ k) by (apply Z.pow_pos_nonneg; lia). split; [by apply Z.eqb_neq; lia |].
  replace (2 ^ k - 1) with (Z.ones k) by (rewrite Z.ones_equiv; lia). rewrite Z.land_ones, Z.mod_same by lia. apply andb_false_r.
Qed.

(** The sections and headers in fresh memory are the image, before relocations. *)
Lemma kernel_copied pb m0 : (forall x, pb <= x < pb + h.(SizeOfImage) -> m0 x = 0) ->
  exists m, copy_sections image file_size (sections image) pb h.(SizeOfImage) (Elf.copy_in image m0 pb 0 h.(SizeOfHeaders)) = Ret m /\ forall slide, done_with image slide pb m0 [] m.
Proof.
  intros Hzero. destruct (copy_sections_ok image file_size pb (sections image) (pk_sections _ _ _ _ K) (Elf.copy_in image m0 pb 0 h.(SizeOfHeaders))) as (m & E & Hm). exists m. split; [done |]. intros slide. pose proof (pk_headers _ _ _ _ K) as [_ Hh]. split.
  - intros t r Hr. by apply not_elem_of_nil in Hr.
  - intros a Ha _. rewrite Hm. unfold image_byte. replace (pb + a - pb) with a by lia. destruct (List.find _ _); [done |]. unfold Elf.copy_in. replace (0 + (pb + a - pb)) with a by lia.
    destruct (Z.ltb_spec a (SizeOfHeaders h)); repeat case_if; try lia; try done. apply Hzero. lia.
  - intros x Hx. rewrite Hm. destruct (List.find _ _) as [s|] eqn:Ef.
    + apply find_some in Ef as [Hin Hs]. apply in_rev, list_elem_of_In in Hin. pose proof (kernel_section s Hin) as Hk. destruct (proj1 (Forall_forall _ _) (pk_sections _ _ _ _ K) s Hin) as [Hv _]. pose proof (raw_size_le s). unfold in_section in Hs. lia.
    + unfold Elf.copy_in. case_if; [lia | done].
Qed.
Lemma kernel_imports slide pb m0 m : done_with image slide pb m0 [] m ->
  negb (h.(import_size) =? 0) && ((h.(import_va) >=? h.(SizeOfImage)) || (20 >? h.(SizeOfImage) - h.(import_va))) = false /\
  negb (h.(import_size) =? 0) && negb (num m (pb + h.(import_va) + 12) 4 =? 0) = false.
Proof.
  intros Hd. destruct (pk_imports _ _ _ _ K) as [->|[Hin Hz]]; [done |]. pose proof (kernel_field (e_lfanew image + 136 + 8 * IMAGE_DIRECTORY_ENTRY_IMPORT) 4) as Hva. change (num image _ 4) with h.(import_va) in Hva.
  rewrite <- Z.add_assoc, (dw_num image slide pb m0 [] m) by (first [done | lia | constructor]). rewrite Hz, Z.geb_leb, (proj2 (Z.leb_gt _ _)), Z.gtb_ltb, (proj2 (Z.ltb_ge _ _)) by lia. split; apply andb_false_r.
Qed.
Lemma kernel_relocs_in : negb (h.(reloc_va) =? 0) && ((h.(reloc_va) >=? h.(SizeOfImage)) || (h.(reloc_size) >? h.(SizeOfImage) - h.(reloc_va))) = false.
Proof. destruct (pk_relocs _ _ _ _ K) as [[-> _]|(_ & Hin & Hs & _)]; [done |]. rewrite Z.geb_leb, (proj2 (Z.leb_gt _ _)), Z.gtb_ltb, (proj2 (Z.ltb_ge _ _)) by lia. apply andb_false_r. Qed.
Lemma kernel_relocated fuel slide pb m0 m : 0 <= pb -> pb + h.(SizeOfImage) <= 2 ^ 32 -> (Z.to_nat h.(reloc_size) <= fuel)%nat -> done_with image slide pb m0 [] m ->
  exists m', (if h.(reloc_va) =? 0 then Ret m else reloc_blocks h.(SizeOfImage) slide (lower image) fuel pb h.(reloc_va) h.(reloc_size) 0 m) = Ret m' /\ done_with image slide pb m0 rs m'.
Proof.
  intros Hpb Htop Hf Hd. destruct (pk_relocs _ _ _ _ K) as [[-> ->]|(Hne & Hin & Hs & Hdir & [H1 H2 H3 H4])]; [by exists m |]. rewrite (proj2 (Z.eqb_neq _ _)) by done.
  pose proof (kernel_field (e_lfanew image + 136 + 8 * IMAGE_DIRECTORY_ENTRY_BASERELOC) 4) as Hva. change (num image _ 4) with h.(reloc_va) in Hva.
  destruct (blocks_ok image slide pb m0 (pk_bytes _ _ _ _ K) Hpb Htop (lower image) h.(reloc_va) h.(reloc_size) ltac:(lia) Hin _ _ _ Hdir [] m fuel Hd) as (m' & E & Hd'); [lia | lia | lia | | done |].
  - cbn [app]. apply Forall_forall. intros x Hx. split; [exact (proj1 (Forall_forall _ _) H1 x Hx) |]. split; [exact (proj1 (Forall_forall _ _) H2 x Hx) | exact (proj1 (Forall_forall _ _) H3 x Hx)].
  - rewrite Z.sub_diag in E. by exists m'.
Qed.
End load.

(** C19: a kernel in the PE format whose headers, sections and relocations are as the format
    prescribes, with memory granted for its image: [pe64_load] returns, and in that memory the word
    of every relocation is the one of the file plus the slide, and every other byte that of the last
    section that has it, of the headers, or zero; no other memory is changed. The base, entry and
    ranges that are reported are those of the headers, moved by the slide. *)
Theorem pe64_load_correct {arch : PeArch} {R : Type} (rand32 : R -> Z * R) fuel image file_size k rs slide alloc_type kaslr st rng pb st1 rng' :
  pe_kernel image file_size k rs -> wf udisj st -> (Z.to_nat (headers image).(reloc_size) <= fuel)%nat ->
  Pmm.ext_mem_alloc_type_aligned i386 st (headers image).(SizeOfImage) alloc_type (2 ^ k) = Ret (pb, st1) ->
  (if negb (stripped image) && kaslr then Elf.random_slide rand32 (Z.to_nat 0x10000) rng (2 ^ k) (headers image).(ImageBase) (headers image).(SizeOfImage) (least_slide image) = Ret (slide, rng')
   else slide = least_slide image /\ rng' = rng) ->
  exists res m, pe64_load rand32 fuel image file_size alloc_type kaslr st rng = Ret (res, Pmm.set_ram st1 m, rng') /\
    (forall t r, (t, r) ∈ rs -> num m (pb + r) (width t) = (num (image_byte image) r (width t) + slide) mod 2 ^ (8 * Z.of_nat (width t))) /\
    (forall a, 0 <= a < (headers image).(SizeOfImage) -> Forall (fun x => ~ covers x a) rs -> m (pb + a) = image_byte image a) /\
    (forall x, ~ (pb <= x < pb + align_up (headers image).(SizeOfImage) (2 ^ k)) -> m x = st.(Pmm.ram) x) /\
    res.(Elf.physical_base) = pb /\ res.(Elf.l_slide) = slide /\ res.(Elf.virtual_base) = u64 ((headers image).(ImageBase) + slide) /\
    res.(Elf.entry_point) = u64 ((headers image).(ImageBase) + slide + (headers image).(AddressOfEntryPoint)) /\ res.(Elf.image_size) = (headers image).(SizeOfImage) /\
    res.(Elf.ranges) = ranges_of image (u64 ((headers image).(ImageBase) + slide)) (2 ^ k).
Proof.
  intros K Hwf Hfuel Halloc Hslide. pose proof (pk_k _ _ _ _ K) as Hk. pose proof (pk_size _ _ _ _ K) as Hsz. assert (0 < 2 ^ k) as Hal by (apply Z.pow_pos_nonneg; lia).
  pose proof (ext_mem_alloc_lemma udisj i386 st (headers image).(SizeOfImage) alloc_type (2 ^ k) false Hwf Hal ltac:(lia)) as Ha. unfold Pmm.ext_mem_alloc_type_aligned in Halloc. rewrite Halloc in Ha.
  destruct Ha as (top & _ & Hpb & Htop & _ & Hlow & _ & _ & _ & Hram). specialize (Hlow eq_refl). rewrite andb_false_r in Hram. pose proof (align_up_spec (headers image).(SizeOfImage) (2 ^ k) Hal ltac:(lia)) as Hup.
  destruct (kernel_copied _ _ _ _ K pb st1.(Pmm.ram)) as (m1 & E1 & Hd1); [intros x Hx; rewrite Hram; unfold mem_fill; case_if; [done | lia] |].
  destruct (kernel_relocated _ _ _ _ K fuel slide pb _ m1 Hpb ltac:(lia) Hfuel (Hd1 slide)) as (m & E2 & [Hw Hb Ho]).
  eexists _, m. split; [|split; [exact Hw |]; split; [exact Hb |]; split; [intros x Hx; rewrite Ho by lia; rewrite Hram; unfold mem_fill; case_if; [lia | done] |]].
  - unfold pe64_load. rewrite (pk_valid _ _ _ _ K). cbn [mbind outcome_bind]. cbv zeta. destruct (pk_headers _ _ _ _ K) as [Hh1 Hh2]. pose proof (pk_table _ _ _ _ K) as Htab. pose proof (pk_dirs _ _ _ _ K) as Hdirs. destruct (align_test _ _ _ _ K) as [Ha1 Ha2].
    rewrite Z.gtb_ltb, (proj2 (Z.ltb_ge _ _)) by lia. rewrite Ha1, Ha2. fold (lower image). assert ((Z.land (headers image).(Characteristics) IMAGE_FILE_RELOCS_STRIPPED =? 0) = negb (stripped image)) as -> by (unfold stripped; by rewrite negb_involutive).
    assert (lower image && negb (negb (stripped image)) = false) as -> by (pose proof (pk_lower _ _ _ _ K) as Hl; destruct (lower image); [by rewrite Hl | done]). fold (least_slide image). rewrite (pk_align _ _ _ _ K).
    unfold Pmm.ext_mem_alloc_type_aligned. rewrite Halloc. cbn [mbind outcome_bind]. assert (((headers image).(SizeOfHeaders) >? file_size) || ((headers image).(SizeOfHeaders) >? (headers image).(SizeOfImage)) = false) as -> by (rewrite !Z.gtb_ltb, !(proj2 (Z.ltb_ge _ _)) by lia; done).
    assert ((if negb (stripped image) && kaslr then Elf.random_slide rand32 (Z.to_nat 0x10000) rng (2 ^ k) (headers image).(ImageBase) (headers image).(SizeOfImage) (least_slide image) else Ret (least_slide image, rng)) = Ret (slide, rng')) as -> by (destruct (negb (stripped image) && kaslr); [done | by destruct Hslide as [-> ->]]).
    cbn [mbind outcome_bind]. rewrite E1. cbn [mbind outcome_bind]. change (IMAGE_DIRECTORY_ENTRY_BASERELOC + 1) with 6. rewrite (proj2 (Z.ltb_ge _ _)) by lia.
    destruct (kernel_imports _ _ _ _ K slide pb _ m1 (Hd1 slide)) as [-> ->]. rewrite (kernel_relocs_in _ _ _ _ K). change (@Ret (Z -> Z) m1) with (@Ret mem m1). rewrite E2. cbn [mbind outcome_bind]. rewrite (pe_kernel_ranges _ _ _ _ K). reflexivity.
  - cbn [Elf.physical_base Elf.l_slide Elf.virtual_base Elf.entry_point Elf.image_size Elf.ranges]. do 3 (split; [done |]). split; [|done]. unfold u64, wrap. by rewrite Z.add_mod_idemp_l by lia.
Qed.
(** * An example *)

(** A file with one section of the bytes [data] at [va], whose relocations are [size] bytes at [rva]. *)
Definition pe_bytes (base image_size va rva size : Z) (data : list Z) : list Z :=
  le_bytes 2 0x5a4d ++ replicate 58 0 ++ le_bytes 4 64
    ++ le_bytes 4 0x4550 ++ le_bytes 2 0x8664 ++ le_bytes 2 1 ++ replicate 12 0 ++ le_bytes 2 240 ++ le_bytes 2 2
    ++ le_bytes 2 0x20b ++ replicate 14 0 ++ le_bytes 4 0x1000 ++ le_bytes 4 0 ++ le_bytes 8 base ++ le_bytes 4 0x1000 ++ le_bytes 4 0x200 ++ replicate 16 0
    ++ le_bytes 4 image_size ++ le_bytes 4 368 ++ replicate 44 0 ++ le_bytes 4 16 ++ replicate 40 0 ++ le_bytes 4 rva ++ le_bytes 4 size ++ replicate 80 0
    ++ replicate 8 0 ++ le_bytes 4 (zlen data) ++ le_bytes 4 va ++ le_bytes 4 (zlen data) ++ le_bytes 4 368 ++ replicate 12 0 ++ le_bytes 4 0x60000000
    ++ data.
Definition in_memory_as (l : list Z) : Z -> Z := fun x => default 0 (l !! Z.to_nat x).
Definition good : list Z := Eval vm_compute in pe_bytes 0 0x2000 0x1000 0x1020 12 (le_bytes 8 0x1020 ++ replicate 24 7 ++ le_bytes 4 0x1000 ++ le_bytes 4 12 ++ le_bytes 2 0xa000 ++ le_bytes 2 0 ++ replicate 20 9).

(** An address at the start of its only section is relocated. *)
Lemma good_bytes x : is_byte (in_memory_as good x).
Proof.
  unfold in_memory_as. destruct (good !! Z.to_nat x) as [b|] eqn:E; [|cbn; split; lia]. cbn.
  assert (forallb (fun y => (0 <=? y) && (y <? 256)) good = true) as Hf by (vm_compute; reflexivity). rewrite forallb_forall in Hf. apply list_elem_of_lookup_2, list_elem_of_In, Hf in E. unfold is_byte. lia.
Qed.
Lemma good_kernel : @pe_kernel x86_64 (in_memory_as good) (zlen good) 12 [(10, 0x1000)].
Proof.
  assert ((headers (in_memory_as good)).(reloc_va) = 0x1020) as Hva by (vm_compute; reflexivity). assert ((headers (in_memory_as good)).(reloc_size) = 12) as Hsz by (vm_compute; reflexivity).
  split.
  - exact good_bytes.
  - vm_compute. reflexivity.
  - vm_compute. discriminate.
  - vm_compute. reflexivity.
  - lia.
  - intros _. vm_compute. reflexivity.
  - vm_compute. split; reflexivity.
  - vm_compute. split; discriminate.
  - assert (sections (in_memory_as good) = [{| VirtualSize := 64; VirtualAddress := 0x1000; SizeOfRawData := 64; PointerToRawData := 368; s_Characteristics := 0x60000000 |}]) as -> by (vm_compute; reflexivity).
    constructor; [|constructor]. vm_compute. split; discriminate.
  - vm_compute. discriminate.
  - left. vm_compute. reflexivity.
  - right. rewrite Hva, Hsz. split; [done |]. split; [vm_compute; discriminate |]. split; [lia |]. split.
    + assert (num (image_byte (in_memory_as good)) (0x1020 + 4) 4 = 12) as Hb by (vm_compute; reflexivity).
      change [(10, 0x1000)] with ([(10, 0x1000)] ++ ([] : list (Z * Z))). assert ([(10, 0x1000)] = entries_at (in_memory_as good) (Z.to_nat ((num (image_byte (in_memory_as good)) (0x1020 + 4) 4 - 8) / 2)) (num (image_byte (in_memory_as good)) 0x1020 4) (0x1020 + 8)) as -> by (vm_compute; reflexivity).
      apply dir_block; [rewrite Hb; lia | vm_compute; reflexivity | rewrite Hb; apply dir_end; lia].
    + split; [constructor; [by left | constructor] | constructor; [vm_compute; split; discriminate | constructor] | constructor; [left; vm_compute; discriminate | constructor] | repeat constructor].
Qed.
(** It is loaded on a PC with 16 MiB: the address has become that of the image in the higher half. *)
Lemma pe64_load_correct_witness : exists res m pb st1, @pe64_load x86_64 unit (fun g => (0, g)) 12 (in_memory_as good) (zlen good) Pmm.MEMMAP_KERNEL_AND_MODULES false PmmCorrect.pc tt = Ret (res, Pmm.set_ram st1 m, tt) /\
  num m (pb + 0x1000) 8 = 0xffffffff80001020 /\ m (pb + 0x1008) = 7 /\ res.(Elf.physical_base) = pb.
Proof.
  assert (match Pmm.ext_mem_alloc_type_aligned false PmmCorrect.pc 0x2000 Pmm.MEMMAP_KERNEL_AND_MODULES (2 ^ 12) with Ret _ => true | _ => false end = true) as Ha by (vm_compute; reflexivity).
  destruct (Pmm.ext_mem_alloc_type_aligned false PmmCorrect.pc 0x2000 Pmm.MEMMAP_KERNEL_AND_MODULES (2 ^ 12)) as [[pb st1]| |] eqn:Ea; [|discriminate Ha..]. clear Ha.
  destruct (@pe64_load_correct x86_64 unit (fun g => (0, g)) 12 (in_memory_as good) (zlen good) 12 [(10, 0x1000)] 0xffffffff80000000 Pmm.MEMMAP_KERNEL_AND_MODULES false PmmCorrect.pc tt pb st1 tt) as (res & m & E & Hw & Hb & _ & Hpb & _).
  - exact good_kernel.
  - exact pc_wf.
  - vm_compute. lia.
  - exact Ea.
  - vm_compute. split; reflexivity.
  - exists res, m, pb, st1. split; [exact E |]. split.
    + pose proof (Hw 10 0x1000 ltac:(left)) as H1. change (width 10) with 8%nat in H1. rewrite H1. vm_compute. reflexivity.
    + split; [|exact Hpb]. rewrite Hb; [vm_compute; reflexivity | vm_compute; split; [discriminate | reflexivity] | constructor; [unfold covers; cbn; lia | constructor]].
Defined.
