(* ===== verification/PeSafe.v ===== *)
(** The PE loader on arbitrary files, and what a file can make it write. *)

From S2P Require Import Prelude Libc LibcCorrect Guid GuidCorrect Part PartCorrect Pmm PmmMap PmmSanitise PmmAlloc PmmOps PmmCorrect Vmm VmmWalk Elf ElfCorrect ElfSafe Pe PeCorrect.
Import Guid Pe.

(** * What is written *)

Lemma le_bytes_bytes n v : Forall is_byte (le_bytes n v).
Proof. unfold le_bytes. apply Forall_fmap, Forall_forall. intros i _. apply u8_bound. Qed.
Lemma write_bytes m a l : (forall x, is_byte (m x)) -> Forall is_byte l -> forall x, is_byte (mem_write m a l x).
Proof.
  intros Hm Hl x. unfold mem_write. destruct (Z.leb_spec a x); cbn [andb]; [|apply Hm]. destruct (Z.ltb_spec x (a + zlen l)); [|apply Hm].
  unfold aget. apply (Forall_lookup_total_1 is_byte l); [done |]. unfold zlen in *. lia.
Qed.
Lemma copy_bytes image m a off n : (forall x, is_byte (image x)) -> (forall x, is_byte (m x)) -> forall x, is_byte (Elf.copy_in image m a off n x).
Proof. intros Hi Hm x. unfold Elf.copy_in. case_if; [apply Hi | apply Hm]. Qed.

Section frame.
Context {arch : PeArch} (size slide : Z) (lower : bool).

(** A relocation's word may be anywhere in the 4096 bytes from the address of its block on. *)
Lemma entries_frame n block bb : forall relocs m m', reloc_entries size slide lower n block relocs bb m = Ret m' -> (forall x, is_byte (m x)) ->
  (forall x, is_byte (m' x)) /\ forall x, (forall off, 0 <= off < 4096 -> ~ (uptr (bb + off) <= x < uptr (bb + off) + 8)) -> m' x = m x.
Proof.
  induction n as [|n IH]; intros relocs m m' E Hm; cbn [reloc_entries] in E; [injection E as <-; done |]. cbv zeta in E. set (r := num m relocs 2) in *.
  case_if; [exact (IH _ _ _ E Hm) |]. do 3 (inv_step E). match type of E with context [le_bytes ?w ?v] => assert (Z.of_nat w <= 8) as Hw by (case_if; lia); pose proof (zlen_le_bytes w v) as Hz end.
  apply IH in E as [Hb Hf]; [|by apply write_bytes, le_bytes_bytes]. split; [done |]. intros x Hx. rewrite Hf by done. apply mem_write_out. rewrite Hz.
  assert (0 <= Z.land r 0xfff < 4096) as Ho by (change 0xfff with (Z.ones 12); rewrite Z.land_ones by lia; apply Z.mod_pos_bound; lia). pose proof (Hx _ Ho). lia.
Qed.
Lemma blocks_frame pb va n : forall fuel off m m', reloc_blocks size slide lower fuel pb va n off m = Ret m' -> (forall x, is_byte (m x)) ->
  forall x, (forall d, 0 <= d < size + 4095 -> ~ (uptr (pb + d) <= x < uptr (pb + d) + 8)) -> m' x = m x.
Proof.
  induction fuel as [|fuel IH]; intros off m m' E Hm x Hx; cbn [reloc_blocks] in E; inv_step E; try (by injection E as <-). cbv zeta in E. set (block := uptr (pb + va + off)) in *.
  do 3 (inv_step E). pose proof (num_range m block 4 Hm) as Hva. inv_step E. apply entries_frame in Heqo as [Hm1 Hf]; [|done]. rewrite (IH _ _ _ E Hm1 x Hx). apply Hf. intros o Ho. rewrite uptr_add, <- Z.add_assoc. apply Hx. rewrite Z.geb_leb in *. lia.
Qed.
End frame.
Lemma copy_sections_frame image file_size pb size : (forall x, is_byte (image x)) -> forall l m m', Forall (fun s => 0 <= s.(VirtualAddress)) l -> copy_sections image file_size l pb size m = Ret m' -> (forall x, is_byte (m x)) ->
  (forall x, is_byte (m' x)) /\ forall x, ~ (pb <= x < pb + size) -> m' x = m x.
Proof.
  intros Hi. induction l as [|s l IH]; intros m m' Hl E Hm; cbn [copy_sections] in E; [injection E as <-; done |]. apply Forall_cons in Hl as [Hs Hl]. do 2 (inv_step E). apply IH in E as [Hb Hf]; [|done | by apply copy_bytes]. split; [done |]. intros x Hx. rewrite Hf by done.
  unfold Elf.copy_in. rewrite Z.gtb_ltb in *. case_if; [lia | done].
Qed.

(** * Any file *)

Lemma alloc_ram i st count type al p st' : Pmm.ext_mem_alloc_type_aligned i st count type al = Ret (p, st') -> st'.(Pmm.ram) = mem_fill st.(Pmm.ram) p 0 (align_up count al).
Proof.
  unfold Pmm.ext_mem_alloc_type_aligned, Pmm.ext_mem_alloc_type_aligned_mode. intros E. inv_step E. apply CHECKED_ADD_Some in Heqo as [-> _]. fold (align_up count al) in E. cbv zeta in E. inv_step E. rewrite andb_false_r in E. inv_step E.
  destruct p0 as [base top]. inv_step E. destruct x as [b st1]. inv_step E. injection E as <- <-.
  unfold Pmm.memmap_alloc_range in *. unfold Pmm.sanitise in *. repeat match goal with H : (_ ≫= _) = Ret _ |- _ => inv_step H end. repeat case_match; simplify_eq. done.
Qed.
Lemma sections_unsigned image : (forall x, is_byte (image x)) -> Forall (fun s => 0 <= s.(VirtualAddress)) (sections image).
Proof. intros Hb. apply Forall_fmap, Forall_forall. intros i _. cbv [compose]. apply (num_range image _ 4 Hb). Qed.

(** What a run that returns has done. *)
Lemma pe64_load_inv {arch : PeArch} {R : Type} (rand32 : R -> Z * R) fuel image file_size alloc_type kaslr st rng res st' rng' :
  pe64_load rand32 fuel image file_size alloc_type kaslr st rng = Ret (res, st', rng') -> exists st1 slide m1 m, let h := headers image in let pb := res.(Elf.physical_base) in
    h.(SectionAlignment) <> 0 /\ res.(Elf.image_size) = h.(SizeOfImage) /\ Pmm.ext_mem_alloc_type_aligned i386 st h.(SizeOfImage) alloc_type h.(SectionAlignment) = Ret (pb, st1) /\ h.(SizeOfHeaders) <= h.(SizeOfImage) /\
    copy_sections image file_size (sections image) pb h.(SizeOfImage) (Elf.copy_in image st1.(Pmm.ram) pb 0 h.(SizeOfHeaders)) = Ret m1 /\
    (m = m1 \/ h.(reloc_va) < h.(SizeOfImage) /\ reloc_blocks h.(SizeOfImage) slide (lower image) fuel pb h.(reloc_va) h.(reloc_size) 0 m1 = Ret m) /\ st' = Pmm.set_ram st1 m.
Proof.
  intros E. unfold pe64_load in E. cbv zeta in E. set (h := headers image) in *. inv_step E. do 4 (inv_step E). inv_step E. destruct x0 as [pb st1]. inv_step E. inv_step E. destruct x0 as [slide rng1].
  inv_step E. do 4 (inv_step E). inv_step E. inv_step E. injection E as <- <- <-. exists st1, slide, x0, x1. cbn [Elf.physical_base Elf.image_size]. split; [lia |]. split; [done |]. split; [assumption |]. split; [lia |]. split; [assumption |]. split; [|done].
  match goal with H : (if reloc_va h =? 0 then _ else _) = Ret _ |- _ => destruct (Z.eqb_spec (reloc_va h) 0); [injection H as <-; by left | right; split; [|exact H]] end. lia.
Qed.

(** C20: whatever bytes a file holds, on an architecture with 64-bit pointers: when [pe64_load]
    returns, every byte of memory it has changed was usable before or is one of the 4102 bytes behind
    the image, which is in memory that was usable, and the memory map is well-formed. *)
Theorem pe64_load_confined {arch : PeArch} {R : Type} (rand32 : R -> Z * R) fuel image file_size alloc_type kaslr st rng :
  i386 = false -> (forall x, is_byte (image x)) -> (forall x, is_byte (st.(Pmm.ram) x)) -> wf udisj st ->
  match pe64_load rand32 fuel image file_size alloc_type kaslr st rng with
  | Ret (res, st', _) =>
      (forall x, st'.(Pmm.ram) x <> st.(Pmm.ram) x -> has st.(Pmm.memmap) Pmm.MEMMAP_USABLE x \/ res.(Elf.physical_base) + res.(Elf.image_size) <= x < res.(Elf.physical_base) + res.(Elf.image_size) + 4102) /\
      (0 < res.(Elf.image_size) -> wf udisj st' /\ forall x, res.(Elf.physical_base) <= x < res.(Elf.physical_base) + res.(Elf.image_size) -> has st.(Pmm.memmap) Pmm.MEMMAP_USABLE x)
  | _ => True
  end.
Proof.
  intros H64 Hb Hram0 Hwf. destruct (pe64_load _ _ _ _ _ _ _ _) as [[[res st'] rng']| |] eqn:E; [|done..]. apply pe64_load_inv in E as (st1 & slide & m1 & m & Hal & Hsz & Ha & Hh & Ec & Er & ->). cbv zeta in *. rewrite Hsz. set (h := headers image) in *. set (pb := Elf.physical_base res) in *.
  pose proof (alloc_ram _ _ _ _ _ _ _ Ha) as Hram. pose proof (num_range image (e_lfanew image + 56) 4 Hb) as Hal0. change (num image _ 4) with h.(SectionAlignment) in Hal0. pose proof (num_range image (e_lfanew image + 80) 4 Hb) as Hs0. change (num image _ 4) with h.(SizeOfImage) in Hs0.
  apply copy_sections_frame in Ec as [Hm1 Hf1]; [|done | by apply sections_unsigned | apply copy_bytes; [done |]; intros x; rewrite Hram; unfold mem_fill; case_if; [split; lia | done]].
  pose proof (num_range image (e_lfanew image + 136 + 8 * IMAGE_DIRECTORY_ENTRY_BASERELOC) 4 Hb) as Hv0. change (num image _ 4) with h.(reloc_va) in Hv0.
  assert (forall x, ~ (pb <= x < pb + h.(SizeOfImage)) -> ~ (pb <= x < pb + align_up h.(SizeOfImage) h.(SectionAlignment)) -> m1 x = st.(Pmm.ram) x) as Hm1x.
  { intros x Hx Hx'. rewrite Hf1 by done. unfold Elf.copy_in. case_if; [lia |]. rewrite Hram. unfold mem_fill. case_if; [lia | done]. }
  destruct (Z.eq_dec h.(SizeOfImage) 0) as [Hz|Hnz].
  - split; [|lia]. intros x Hne. exfalso. apply Hne. destruct Er as [->|[? _]]; [|lia]. cbn. apply Hm1x; rewrite Hz; [lia |]. unfold align_up, ALIGN_DOWN. rewrite Z.div_small by lia. lia.
  - pose proof (ext_mem_alloc_lemma udisj i386 st h.(SizeOfImage) alloc_type h.(SectionAlignment) false Hwf ltac:(lia) ltac:(lia)) as Hl. unfold Pmm.ext_mem_alloc_type_aligned in Ha. rewrite Ha in Hl.
    destruct Hl as (top & _ & Hpb & Htop & _ & Hlow & Hin & Hall & _). specialize (Hlow eq_refl). pose proof (align_up_spec h.(SizeOfImage) h.(SectionAlignment) ltac:(lia) ltac:(lia)) as Hup.
    assert (forall x, pb <= x < pb + align_up h.(SizeOfImage) h.(SectionAlignment) -> has st.(Pmm.memmap) Pmm.MEMMAP_USABLE x) as Hus by (intros x Hx; eapply inside_has; [exact Hin | unfold in_range; lia]).
    split; [|intros _; split; [exact (al_wf _ _ _ _ _ _ Hall) | intros x Hx; apply Hus; lia]].
    intros x Hne. destruct (decide (pb <= x < pb + align_up h.(SizeOfImage) h.(SectionAlignment))) as [Hx|Hx]; [left; by apply Hus |]. right. apply dec_stable. intros Hx2. apply Hne. cbn. rewrite <- (Hm1x x) by lia.
    destruct Er as [->|[_ Er]]; [done |]. apply (blocks_frame _ _ _ _ _ _ _ _ _ _ Er Hm1). intros d Hd. assert (uptr (pb + d) = pb + d) as -> by (unfold uptr; rewrite H64; apply u64_small; lia). lia.
Qed.
(** The example of a kernel. *)
Lemma pe64_load_confined_witness :
  match @pe64_load x86_64 unit (fun g => (0, g)) 12 (in_memory_as good) (zlen good) Pmm.MEMMAP_KERNEL_AND_MODULES false PmmCorrect.pc tt with
  | Ret (res, st', _) => 0 < res.(Elf.image_size) -> wf udisj st'
  | _ => True
  end.
Proof.
  assert (forall x, is_byte (PmmCorrect.pc.(Pmm.ram) x)) as Hr by (intros x; apply u8_bound).
  pose proof (@pe64_load_confined x86_64 unit (fun g => (0, g)) 12 (in_memory_as good) (zlen good) Pmm.MEMMAP_KERNEL_AND_MODULES false PmmCorrect.pc tt eq_refl good_bytes Hr pc_wf) as H.
  destruct (pe64_load _ _ _ _ _ _ _ _) as [[[res st'] g]| |]; [intros H0; apply (proj2 H H0) | exact I | exact I].
Defined.

(** * Relocations of the relocations *)

(** An image of 4096 bytes. The first relocation of its only block is about the block's own address
    and size, the second about a word that is checked with the new address and found with the old one. *)
Definition bad : list Z := Eval vm_compute in pe_bytes 0x80000f00 0x1000 0xf00 0xf00 12 (le_bytes 4 0xf00 ++ le_bytes 4 12 ++ le_bytes 2 0xa000 ++ le_bytes 2 0xaff8).

(** C40: the address of a block of relocations is read from the image for every check, but only once
    for the places that are written, and a relocation may change it: there is a file that [pe64_load]
    accepts, and that makes it change a table of the firmware behind the image. *)
Theorem pe64_load_overrun : exists res st' x, @pe64_load x86_64 unit (fun g => (0, g)) 12 (in_memory_as bad) (zlen bad) Pmm.MEMMAP_KERNEL_AND_MODULES false PmmCorrect.pc tt = Ret (res, st', tt) /\
  res.(Elf.physical_base) + res.(Elf.image_size) <= x /\ has PmmCorrect.pc.(Pmm.memmap) Pmm.MEMMAP_ACPI_RECLAIMABLE x /\ st'.(Pmm.ram) x <> PmmCorrect.pc.(Pmm.ram) x.
Proof.
  assert (match @pe64_load x86_64 unit (fun g => (0, g)) 12 (in_memory_as bad) (zlen bad) Pmm.MEMMAP_KERNEL_AND_MODULES false PmmCorrect.pc tt with
          | Ret (res, st', _) => (res.(Elf.physical_base) + res.(Elf.image_size) <=? 0xfe0ef9) && negb (st'.(Pmm.ram) 0xfe0ef9 =? PmmCorrect.pc.(Pmm.ram) 0xfe0ef9) | _ => false end = true) as H by (vm_compute; reflexivity).
  destruct (pe64_load _ _ _ _ _ _ _ _) as [[[res st'] []]| |]; [|discriminate H..]. exists res, st', 0xfe0ef9. apply andb_true_iff in H as [H1 H2]. split; [done |]. split; [lia |]. split; [|lia].
  exists (Pmm.ME 0xfe0000 0x20000 Pmm.MEMMAP_ACPI_RECLAIMABLE). split; [by do 5 right; left |]. split; [done |]. vm_compute. split; [discriminate | reflexivity].
Qed.
