(* ===== verification/Qoi.v ===== *)
(** Pictures: the QOI decoder, [common/lib/qoi.c], and [common/lib/image.c].

    The file is a function from an offset to a byte. The pixels are a list; their memory, which
    [ext_mem_alloc] gives or panics, is not tied to [Pmm], and its release is left out. The decoder for
    the other formats, stb_image, is not in the tree: a parameter. A [size_t] has 64 bits; the limits of
    the QOI decoder leave no overflow at 32 bits either. *)

From S2P Require Import Prelude.

Module Qoi.

Definition QOI_OP_INDEX : Z := 0x00.
Definition QOI_OP_DIFF : Z := 0x40.
Definition QOI_OP_LUMA : Z := 0x80.
Definition QOI_OP_RUN : Z := 0xc0.
Definition QOI_OP_RGB : Z := 0xfe.
Definition QOI_OP_RGBA : Z := 0xff.
Definition QOI_OP_MASK : Z := 0xc0.
Definition QOI_HEADER_SIZE : Z := 14.
Definition QOI_PADDING_SIZE : Z := 8.
Definition QOI_MAX_DIM : Z := 65536.
Definition QOI_MAX_PIXELS : Z := 400000000.
Definition QOI_HASH (r g b a : Z) : Z := Z.land (u32 (r * 3 + g * 5 + b * 7 + a * 11)) 63.

Definition qoi_be32 (p : Z -> Z) (i : Z) : Z :=
  Z.lor (Z.lor (Z.lor (Z.shiftl (p i) 24) (Z.shiftl (p (i + 1)) 16)) (Z.shiftl (p (i + 2)) 8)) (p (i + 3)).

Record decoder := { r : Z; g : Z; b : Z; a : Z; index : list Z; run : Z; pos : Z }.
Definition set_rgba (st : decoder) (r g b a pos : Z) : decoder :=
  {| r := r; g := g; b := b; a := a; index := st.(index); run := st.(run); pos := pos |}.

(** The operation at [pos]; [None] is [goto fail]. *)
Definition decode_op (p : Z -> Z) (end_ : Z) (st : decoder) : option decoder :=
  if st.(pos) >=? end_ then None
  else
    let op := p st.(pos) in
    let pos := st.(pos) + 1 in
    if op =? QOI_OP_RGB then
      if end_ - pos <? 3 then None else Some (set_rgba st (p pos) (p (pos + 1)) (p (pos + 2)) st.(a) (pos + 3))
    else if op =? QOI_OP_RGBA then
      if end_ - pos <? 4 then None else Some (set_rgba st (p pos) (p (pos + 1)) (p (pos + 2)) (p (pos + 3)) (pos + 4))
    else if Z.land op QOI_OP_MASK =? QOI_OP_INDEX then
      let v := st.(index).[Z.land op 0x3f] in
      Some (set_rgba st (u8 v) (u8 (Z.shiftr v 8)) (u8 (Z.shiftr v 16)) (u8 (Z.shiftr v 24)) pos)
    else if Z.land op QOI_OP_MASK =? QOI_OP_DIFF then
      Some (set_rgba st (u8 (st.(r) + (Z.land (Z.shiftr op 4) 3 - 2))) (u8 (st.(g) + (Z.land (Z.shiftr op 2) 3 - 2))) (u8 (st.(b) + (Z.land op 3 - 2))) st.(a) pos)
    else if Z.land op QOI_OP_MASK =? QOI_OP_LUMA then
      if pos >=? end_ then None
      else
        let b2 := p pos in
        let dg := Z.land op 0x3f - 32 in
        Some (set_rgba st (u8 (st.(r) + (dg + Z.land (Z.shiftr b2 4) 0xf - 8))) (u8 (st.(g) + dg)) (u8 (st.(b) + (dg + Z.land b2 0xf - 8))) st.(a) (pos + 1))
    else Some {| r := st.(r); g := st.(g); b := st.(b); a := st.(a); index := st.(index); run := Z.land op 0x3f; pos := pos |}.
(** The colour goes into the table. *)
Definition remember (st : decoder) : decoder :=
  {| r := st.(r); g := st.(g); b := st.(b); a := st.(a); run := st.(run); pos := st.(pos);
     index := st.(index).[QOI_HASH st.(r) st.(g) st.(b) st.(a) := Z.lor (Z.lor (Z.lor st.(r) (Z.shiftl st.(g) 8)) (Z.shiftl st.(b) 16)) (Z.shiftl st.(a) 24)] |}.
Definition next_pixel (p : Z -> Z) (end_ : Z) (st : decoder) : option decoder :=
  if st.(run) >? 0 then Some {| r := st.(r); g := st.(g); b := st.(b); a := st.(a); index := st.(index); run := st.(run) - 1; pos := st.(pos) |}
  else st ← decode_op p end_ st; Some (remember st).
Definition xrgb (st : decoder) : Z := Z.lor (Z.lor (Z.shiftl st.(r) 16) (Z.shiftl st.(g) 8)) st.(b).
Fixpoint decode_loop (n : nat) (p : Z -> Z) (end_ : Z) (st : decoder) : option (list Z) :=
  match n with
  | O => Some []
  | S n => st ← next_pixel p end_ st; out ← decode_loop n p end_ st; Some (xrgb st :: out)
  end.

(** The width, the height and the pixels. *)
Definition qoi_decode (p : Z -> Z) (src_size : Z) : option (Z * Z * list Z) :=
  if src_size <? QOI_HEADER_SIZE + QOI_PADDING_SIZE then None
  else if negb (p 0 =? 113) || negb (p 1 =? 111) || negb (p 2 =? 105) || negb (p 3 =? 102) then None
  else
    let w := qoi_be32 p 4 in
    let h := qoi_be32 p 8 in
    let channels := p 12 in
    if (w =? 0) || (h =? 0) || (w >? QOI_MAX_DIM) || (h >? QOI_MAX_DIM) then None
    else if negb (channels =? 3) && negb (channels =? 4) then None
    else
      pixels ← CHECKED_MUL w h;
      if pixels >? QOI_MAX_PIXELS then None
      else
        bytes ← CHECKED_MUL pixels 4;
        _ ← CHECKED_ADD bytes 16;
        out ← decode_loop (Z.to_nat pixels) p (src_size - QOI_PADDING_SIZE)
                {| r := 0; g := 0; b := 0; a := 0xff; index := replicate 64 0; run := 0; pos := QOI_HEADER_SIZE |};
        Some (w, h, out).

(** * Images *)

Inductive image_type := IMAGE_TILED | IMAGE_CENTERED | IMAGE_STRETCHED.
Record image := {
  type : image_type; x_size : Z; y_size : Z; pitch : Z; bpp : Z; img : list Z; img_width : Z; img_height : Z;
  isQoi : bool; x_displacement : Z; y_displacement : Z; back_colour : Z }.

(** A division of C rounds to zero. The sizes, of type [size_t], are taken as [int64_t]. *)
Definition i64 (x : Z) : Z := wrap 64 (x + 2 ^ 63) - 2 ^ 63.
Definition image_make_centered (i : image) (frame_x_size frame_y_size back_colour : Z) : image :=
  {| type := IMAGE_CENTERED; x_size := i.(x_size); y_size := i.(y_size); pitch := i.(pitch); bpp := i.(bpp); img := i.(img); img_width := i.(img_width); img_height := i.(img_height); isQoi := i.(isQoi);
     x_displacement := Z.quot frame_x_size 2 - Z.quot (i64 i.(x_size)) 2; y_displacement := Z.quot frame_y_size 2 - Z.quot (i64 i.(y_size)) 2; back_colour := back_colour |}.
Definition image_make_stretched (i : image) (new_x_size new_y_size : Z) : image :=
  {| type := IMAGE_STRETCHED; x_size := u64 new_x_size; y_size := u64 new_y_size; pitch := i.(pitch); bpp := i.(bpp); img := i.(img); img_width := i.(img_width); img_height := i.(img_height); isQoi := i.(isQoi);
     x_displacement := i.(x_displacement); y_displacement := i.(y_displacement); back_colour := i.(back_colour) |}.

(** From the order of the bytes in memory of stb_image to that of the framebuffer. *)
Definition to_xrgb (v : Z) : Z := Z.lor (Z.lor (Z.land v 0x0000ff00) (Z.shiftr (Z.land v 0x00ff0000) 16)) (Z.shiftl (Z.land v 0x000000ff) 16).
Definition image_open (stbi_load_from_memory : (Z -> Z) -> Z -> option (Z * Z * list Z)) (src : Z -> Z) (size : Z) : option image :=
  let isQoi := (size >=? 4) && (src 0 =? 113) && (src 1 =? 111) && (src 2 =? 105) && (src 3 =? 102) in
  '(x, y, pixels) ← (if isQoi then qoi_decode src size else stbi_load_from_memory src size);
  if (x =? 0) || (y =? 0) then None
  else
    img ← (if isQoi then Some pixels
           else pixel_count ← CHECKED_MUL (u64 x) (u64 y); Some ((to_xrgb <$> take (Z.to_nat pixel_count) pixels) ++ drop (Z.to_nat pixel_count) pixels));
    pitch ← CHECKED_MUL (u64 x) 4;
    Some {| type := IMAGE_TILED; x_size := u64 x; y_size := u64 y; pitch := i32 pitch; bpp := 32; img := img; img_width := u64 x; img_height := u64 y; isQoi := isQoi;
            x_displacement := 0; y_displacement := 0; back_colour := 0 |}.
End Qoi.
