(* ===== verification/QoiCorrect.v ===== *)
(** The QOI decoder against the format's encoder. *)

From S2P Require Import Prelude Qoi.
Import Qoi.

(** * The format *)

(** A pixel, and an encoder as the format describes it: a pixel that equals the one before lengthens a
    run of up to 62; a pixel that is in the table of the 64 last seen colours is its place there; one
    that differs little in its colours is the difference, in two sizes; any other one is written out. *)
Record pixel := Px { red : Z; green : Z; blue : Z; alpha : Z }.
#[export] Instance pixel_dec : EqDecision pixel.
Proof. solve_decision. Defined.
Definition pixel_ok (p : pixel) : Prop := is_byte p.(red) /\ is_byte p.(green) /\ is_byte p.(blue) /\ is_byte p.(alpha).
Definition clear_pixel : pixel := Px 0 0 0 0.
#[export] Instance pixel_inhabited : Inhabited pixel := populate clear_pixel.

Definition place (p : pixel) : Z := (p.(red) * 3 + p.(green) * 5 + p.(blue) * 7 + p.(alpha) * 11) mod 64.
(** The difference of two bytes as a number from -128 to 127. *)
Definition diff (x y : Z) : Z := (x - y + 128) mod 256 - 128.
Definition colour_chunk (prev p : pixel) : list Z :=
  if p.(alpha) =? prev.(alpha) then
    let vr := diff p.(red) prev.(red) in
    let vg := diff p.(green) prev.(green) in
    let vb := diff p.(blue) prev.(blue) in
    if (-2 <=? vr) && (vr <=? 1) && ((-2 <=? vg) && (vg <=? 1)) && ((-2 <=? vb) && (vb <=? 1)) then [0x40 + 16 * (vr + 2) + 4 * (vg + 2) + (vb + 2)]
    else if (-8 <=? vr - vg) && (vr - vg <=? 7) && ((-32 <=? vg) && (vg <=? 31)) && ((-8 <=? vb - vg) && (vb - vg <=? 7)) then [0x80 + (vg + 32); 16 * (vr - vg + 8) + (vb - vg + 8)]
    else [0xfe; p.(red); p.(green); p.(blue)]
  else [0xff; p.(red); p.(green); p.(blue); p.(alpha)].
Definition run_chunk (n : Z) : list Z := if n =? 0 then [] else [0xc0 + (n - 1)].
(** [n] pixels equal to [prev] have been seen and not been written. *)
Fixpoint encode (prev : pixel) (seen : list pixel) (n : Z) (l : list pixel) : list Z :=
  match l with
  | [] => run_chunk n
  | p :: l =>
      if decide (p = prev) then if n + 1 =? 62 then run_chunk 62 ++ encode prev seen 0 l else encode prev seen (n + 1) l
      else run_chunk n ++ (if decide (seen.[place p] = p) then [place p] else colour_chunk prev p) ++ encode p seen.[place p := p] 0 l
  end.
Definition start_pixel : pixel := Px 0 0 0 255.
Definition be_bytes (x : Z) : list Z := [x / 2 ^ 24; x / 2 ^ 16 mod 256; x / 2 ^ 8 mod 256; x mod 256].
Definition qoi_file (w h channels colorspace : Z) (l : list pixel) : list Z :=
  [113; 111; 105; 102] ++ be_bytes w ++ be_bytes h ++ [channels; colorspace] ++ encode start_pixel (replicate 64 clear_pixel) 0 l ++ [0; 0; 0; 0; 0; 0; 0; 1].

(** * Bits *)

Lemma byte_op x : is_byte x -> Z.land x QOI_OP_MASK = x / 64 * 64 /\ Z.land x 0x3f = x mod 64 /\ Z.land (Z.shiftr x 4) 3 = x / 16 mod 4 /\ Z.land (Z.shiftr x 2) 3 = x / 4 mod 4 /\ Z.land x 3 = x mod 4 /\ Z.land (Z.shiftr x 4) 0xf = x / 16 /\ Z.land x 0xf = x mod 16.
Proof.
  intros Hx. unfold is_byte in Hx. pose proof (seqZ_forallb (fun x => (Z.land x QOI_OP_MASK =? x / 64 * 64) && (Z.land x 0x3f =? x mod 64) && (Z.land (Z.shiftr x 4) 3 =? x / 16 mod 4) && (Z.land (Z.shiftr x 2) 3 =? x / 4 mod 4) && (Z.land x 3 =? x mod 4) && (Z.land (Z.shiftr x 4) 0xf =? x / 16) && (Z.land x 0xf =? x mod 16)) 256 x ltac:(vm_compute; reflexivity) Hx) as H.
  cbv beta in H. rewrite !andb_true_iff, !Z.eqb_eq in H. tauto.
Qed.
Lemma lor_above lo hi k : 0 <= k -> 0 <= lo < 2 ^ k -> Z.lor lo (Z.shiftl hi k) = lo + hi * 2 ^ k.
Proof.
  intros Hk Hl. rewrite Z.shiftl_mul_pow2 by done. assert (Z.land lo (hi * 2 ^ k) = 0) as Hz.
  { rewrite <- (Z.mod_small lo (2 ^ k)) by done. rewrite <- Z.land_ones by done. rewrite <- Z.land_assoc, (Z.land_comm (Z.ones k)), Z.land_ones, Z.mod_mul by lia. apply Z.land_0_r. }
  by rewrite (Z.add_nocarry_lxor _ _ Hz), (Z.lxor_lor _ _ Hz).
Qed.
Lemma hash_place p : pixel_ok p -> QOI_HASH p.(red) p.(green) p.(blue) p.(alpha) = place p.
Proof. intros (H1 & H2 & H3 & H4). unfold is_byte in *. unfold QOI_HASH, place. rewrite u32_small by lia. change 63 with (Z.ones 6). by rewrite Z.land_ones. Qed.
Lemma place_range p : 0 <= place p < 64.
Proof. apply Z.mod_pos_bound. lia. Qed.
Definition pack (p : pixel) : Z := p.(red) + p.(green) * 2 ^ 8 + p.(blue) * 2 ^ 16 + p.(alpha) * 2 ^ 24.
Lemma pack_lor p : pixel_ok p -> Z.lor (Z.lor (Z.lor p.(red) (Z.shiftl p.(green) 8)) (Z.shiftl p.(blue) 16)) (Z.shiftl p.(alpha) 24) = pack p.
Proof. intros (H1 & H2 & H3 & H4). unfold is_byte in *. unfold pack. rewrite (lor_above p.(red)) by lia. do 2 (rewrite (lor_above (_ + _)) by lia). done. Qed.
Lemma byte_of x lo y k : 0 <= k -> 0 <= lo < 2 ^ k -> is_byte x -> u8 (Z.shiftr (lo + x * 2 ^ k + y * 2 ^ (k + 8)) k) = x.
Proof.
  intros Hk Hl Hx. unfold is_byte in Hx. rewrite Z.shiftr_div_pow2 by done. rewrite Z.pow_add_r by lia. replace (lo + x * 2 ^ k + y * (2 ^ k * 2 ^ 8)) with (lo + (x + y * 2 ^ 8) * 2 ^ k) by ring. rewrite Z.div_add, Z.div_small by lia.
  unfold u8, wrap. rewrite Z.add_0_l, Z.mod_add by lia. by apply Z.mod_small.
Qed.
Lemma unpack p : pixel_ok p -> u8 (pack p) = p.(red) /\ u8 (Z.shiftr (pack p) 8) = p.(green) /\ u8 (Z.shiftr (pack p) 16) = p.(blue) /\ u8 (Z.shiftr (pack p) 24) = p.(alpha).
Proof.
  intros (H1 & H2 & H3 & H4). unfold is_byte in *. unfold pack. split_and!.
  - rewrite <- (Z.shiftr_0_r (_ + _)). etransitivity; [|apply (byte_of p.(red) 0 (p.(green) + p.(blue) * 2 ^ 8 + p.(alpha) * 2 ^ 16) 0); unfold is_byte; lia]. do 2 f_equal. lia.
  - etransitivity; [|apply (byte_of p.(green) p.(red) (p.(blue) + p.(alpha) * 2 ^ 8) 8); unfold is_byte; lia]. do 2 f_equal. lia.
  - etransitivity; [|apply (byte_of p.(blue) (p.(red) + p.(green) * 2 ^ 8) p.(alpha) 16); unfold is_byte; lia]. done.
  - etransitivity; [|apply (byte_of p.(alpha) (p.(red) + p.(green) * 2 ^ 8 + p.(blue) * 2 ^ 16) 0 24); unfold is_byte; lia]. do 2 f_equal. lia.
Qed.
Definition xrgb_of (p : pixel) : Z := p.(red) * 65536 + p.(green) * 256 + p.(blue).
Lemma xrgb_lor p : pixel_ok p -> Z.lor (Z.lor (Z.shiftl p.(red) 16) (Z.shiftl p.(green) 8)) p.(blue) = xrgb_of p.
Proof.
  intros (H1 & H2 & H3 & _). unfold is_byte in *. unfold xrgb_of. rewrite Z.lor_comm, (Z.lor_comm (Z.shiftl _ 16)), Z.lor_assoc. rewrite (lor_above p.(blue)) by lia. rewrite (lor_above (_ + _)) by lia. lia.
Qed.
Lemma be32_bytes p i x : 0 <= x < 2 ^ 32 -> bytes_at p i (be_bytes x) -> qoi_be32 p i = x.
Proof.
  intros Hx Hb. unfold qoi_be32. pose proof (Hb 0%nat _ eq_refl) as H0. rewrite Z.add_0_r in H0. rewrite H0. rewrite (Hb 1%nat _ eq_refl : p (i + 1) = x / 2 ^ 16 mod 256), (Hb 2%nat _ eq_refl : p (i + 2) = x / 2 ^ 8 mod 256), (Hb 3%nat _ eq_refl : p (i + 3) = x mod 256).
  assert (x = x mod 256 + x / 2 ^ 8 mod 256 * 2 ^ 8 + x / 2 ^ 16 mod 256 * 2 ^ 16 + x / 2 ^ 24 * 2 ^ 24) as E.
  { assert (x / 2 ^ 16 = x / 256 / 256 /\ x / 2 ^ 24 = x / 256 / 256 / 256) as [-> ->] by (rewrite !Z.div_div by lia; done). change (2 ^ 8) with 256. pose proof (Z.div_mod x 256). pose proof (Z.div_mod (x / 256) 256). pose proof (Z.div_mod (x / 256 / 256) 256). lia. }
  rewrite E at 5. pose proof (Z.mod_pos_bound x 256 ltac:(lia)). pose proof (Z.mod_pos_bound (x / 2 ^ 8) 256 ltac:(lia)). pose proof (Z.mod_pos_bound (x / 2 ^ 16) 256 ltac:(lia)).
  set (b0 := x mod 256) in *. set (b1 := x / 2 ^ 8 mod 256) in *. set (b2 := x / 2 ^ 16 mod 256) in *. set (b3 := x / 2 ^ 24) in *. clearbody b0 b1 b2 b3.
  rewrite Z.lor_comm, (Z.lor_comm (Z.lor (Z.shiftl _ 24) _)), Z.lor_assoc, (Z.lor_comm (Z.shiftl _ 24)), Z.lor_assoc. rewrite (lor_above b0) by lia. do 2 (rewrite (lor_above (_ + _)) by lia). done.
Qed.

(** * Decoding what was encoded *)

Lemma bytes_app m i l1 l2 : bytes_at m i (l1 ++ l2) -> bytes_at m i l1 /\ bytes_at m (i + zlen l1) l2.
Proof.
  intros H. split; intros k x Hk.
  - apply H. by apply lookup_app_l_Some.
  - unfold zlen. rewrite <- Z.add_assoc, <- Nat2Z.inj_add. apply H. rewrite lookup_app_r by lia. by replace (length l1 + k - length l1)%nat with k by lia.
Qed.

(** The decoder after [prev]: its table has the colours the encoder finds in its own one. The two may
    differ where the first pixel belongs, which the decoder enters when a run starts the picture. *)
Record synced (prev : pixel) (seen : list pixel) (st : decoder) : Prop := {
  sy_ok : pixel_ok prev;
  sy_r : st.(r) = prev.(red); sy_g : st.(g) = prev.(green); sy_b : st.(b) = prev.(blue); sy_a : st.(a) = prev.(alpha);
  sy_run : st.(run) = 0;
  sy_len : zlen st.(index) = 64 /\ zlen seen = 64;
  sy_table p : pixel_ok p -> seen.[place p] = p -> st.(index).[place p] = pack p;
  sy_last p : pixel_ok p -> place p = place prev -> seen.[place p] = p -> p = prev }.

Definition at_run (st : decoder) (n : Z) : decoder := {| r := st.(r); g := st.(g); b := st.(b); a := st.(a); index := st.(index); run := n; pos := st.(pos) |}.
Lemma xrgb_synced prev st : pixel_ok prev -> st.(r) = prev.(red) -> st.(g) = prev.(green) -> st.(b) = prev.(blue) -> xrgb st = xrgb_of prev.
Proof. intros H Hr Hg Hb. unfold xrgb. rewrite Hr, Hg, Hb. by apply xrgb_lor. Qed.

Section decode.
Context (p : Z -> Z) (end_ : Z).

Lemma run_drain k : forall n st, st.(run) = Z.of_nat k -> decode_loop (k + n) p end_ st = (out ← decode_loop n p end_ (at_run st 0); Some (replicate k (xrgb st) ++ out)).
Proof.
  induction k as [|k IH]; intros n st Hr.
  - cbn [replicate app Nat.add]. assert (at_run st 0 = st) as -> by (unfold at_run; rewrite <- Hr || idtac; destruct st; cbn in Hr; by subst). by destruct (decode_loop _ _ _ _).
  - cbn [Nat.add decode_loop replicate]. unfold next_pixel. rewrite Z.gtb_ltb, (proj2 (Z.ltb_lt _ _)) by lia. fold (at_run st (st.(run) - 1)). cbn [mbind option_bind]. rewrite IH by (cbn; lia). change (at_run (at_run st _) 0) with (at_run st 0). change (xrgb (at_run st (run st - 1))) with (xrgb st). by destruct (decode_loop _ _ _ _).
Qed.

(** The table after a colour that both sides have just seen. *)
Lemma remembered prev seen st q st1 : synced prev seen st -> pixel_ok q -> st1.(index) = st.(index) -> st1.(run) = 0 -> st1.(r) = q.(red) -> st1.(g) = q.(green) -> st1.(b) = q.(blue) -> st1.(a) = q.(alpha) -> synced q seen.[place q := q] (remember st1).
Proof.
  intros H Hq Hi Hrun Hr Hg Hb Ha. destruct (sy_len _ _ _ H) as [Hl Hs]. pose proof (place_range q) as Hp. unfold remember. rewrite Hi, Hr, Hg, Hb, Ha, hash_place, pack_lor by done. split; cbn [r g b a index run pos]; try done.
  - by rewrite !zlen_aset.
  - intros q' Hq' E. pose proof (place_range q'). rewrite aget_aset in E by lia. rewrite aget_aset by lia. destruct (Z.eqb_spec (place q) (place q')); [by subst q' | by apply (sy_table _ _ _ H)].
  - intros q' Hq' Hpl E. pose proof (place_range q'). rewrite aget_aset in E by lia. rewrite Hpl, Z.eqb_refl in E. done.
Qed.
Lemma run_decoded prev seen st n : synced prev seen st -> 0 <= n <= 62 -> bytes_at p st.(pos) (run_chunk n) -> st.(pos) + zlen (run_chunk n) <= end_ ->
  exists st', synced prev seen st' /\ st'.(pos) = st.(pos) + zlen (run_chunk n) /\ forall k, decode_loop (Z.to_nat n + k) p end_ st = (out ← decode_loop k p end_ st'; Some (replicate (Z.to_nat n) (xrgb_of prev) ++ out)).
Proof.
  intros H Hn Hb He. unfold run_chunk in *. destruct (Z.eqb_spec n 0) as [->|Hnz].
  - exists st. split; [done |]. split; [change (zlen []) with 0; lia |]. intros k. cbn. by destruct (decode_loop _ _ _ _).
  - change (zlen [_]) with 1 in *. pose proof (Hb 0%nat _ eq_refl) as H0. rewrite Z.add_0_r in H0. pose proof (byte_op (0xc0 + (n - 1)) ltac:(unfold is_byte; lia)) as (B1 & B2 & _).
    assert ((0xc0 + (n - 1)) / 64 = 3 /\ (0xc0 + (n - 1)) mod 64 = n - 1) as [D1 D2] by (split; symmetry; [apply (Z.div_unique _ _ 3 (n - 1)) | apply (Z.mod_unique _ _ 3 (n - 1))]; lia). rewrite D1 in B1. rewrite D2 in B2.
    set (st0 := {| r := st.(r); g := st.(g); b := st.(b); a := st.(a); index := st.(index); run := n - 1; pos := st.(pos) + 1 |}).
    assert (next_pixel p end_ st = Some (remember st0)) as Hnext.
    { unfold next_pixel. rewrite (sy_run _ _ _ H). change (0 >? 0) with false. cbv iota. unfold decode_op. rewrite Z.geb_leb, (proj2 (Z.leb_gt _ _)), H0 by lia. cbv zeta. unfold QOI_OP_RGB, QOI_OP_RGBA, QOI_OP_INDEX, QOI_OP_DIFF, QOI_OP_LUMA.
      rewrite (proj2 (Z.eqb_neq _ 0xfe)), (proj2 (Z.eqb_neq _ 0xff)) by lia. by rewrite B1, B2. }
    exists (at_run (remember st0) 0). split; [|split; [done |]].
    + destruct H as [Hok Hr Hg Hbl Ha Hrun Hlen Ht Hlast]. unfold st0, remember, at_run; cbn [r g b a index run pos]. rewrite Hr, Hg, Hbl, Ha, hash_place, pack_lor by done. split; cbn [r g b a index run pos]; try done; [by rewrite zlen_aset |].
      intros q Hq E. pose proof (place_range q). pose proof (place_range prev). rewrite aget_aset by lia. destruct (Z.eqb_spec (place prev) (place q)) as [Ep|]; [by rewrite (Hlast q) | by apply Ht].
    + intros k. replace (Z.to_nat n) with (S (Z.to_nat (n - 1))) by lia. cbn [Nat.add decode_loop replicate]. rewrite Hnext. cbn [mbind option_bind]. rewrite run_drain by (cbn; lia).
      assert (xrgb (remember st0) = xrgb_of prev) as -> by (apply xrgb_synced; apply H). by destruct (decode_loop _ _ _ _).
Qed.

Lemma diff_add x y : is_byte x -> u8 (y + diff x y) = x.
Proof. unfold is_byte. intros Hx. unfold u8, wrap, diff. change (2 ^ 8) with 256. pose proof (Z.div_mod (x - y + 128) 256). pose proof (Z.mod_pos_bound (x - y + 128) 256). symmetry. apply (Z.mod_unique _ _ (- ((x - y + 128) / 256))); lia. Qed.
Lemma diff_op op u v w : op = 64 + 16 * u + 4 * v + w -> 0 <= u < 4 -> 0 <= v < 4 -> 0 <= w < 4 -> op / 64 = 1 /\ op / 16 mod 4 = u /\ op / 4 mod 4 = v /\ op mod 4 = w.
Proof.
  intros -> Hu Hv Hw. split_and!.
  - symmetry. apply (Z.div_unique _ _ _ (16 * u + 4 * v + w)); lia.
  - rewrite <- (Z.div_unique _ 16 (4 + u) (4 * v + w)) by lia. symmetry. apply (Z.mod_unique _ _ 1); lia.
  - rewrite <- (Z.div_unique _ 4 (16 + 4 * u + v) w) by lia. symmetry. apply (Z.mod_unique _ _ (4 + u)); lia.
  - symmetry. apply (Z.mod_unique _ _ (16 + 4 * u + v)); lia.
Qed.
Lemma luma_op op b2 u v w : op = 128 + u -> b2 = 16 * v + w -> 0 <= u < 64 -> 0 <= v < 16 -> 0 <= w < 16 -> op / 64 = 2 /\ op mod 64 = u /\ b2 / 16 = v /\ b2 mod 16 = w.
Proof.
  intros -> -> Hu Hv Hw. split_and!; symmetry.
  - apply (Z.div_unique _ _ _ u); lia.
  - apply (Z.mod_unique _ _ 2); lia.
  - apply (Z.div_unique _ _ _ w); lia.
  - apply (Z.mod_unique _ _ v); lia.
Qed.
(** An operation of one byte that is not a colour written out. *)
Lemma op_read st c l : st.(pos) + zlen (c :: l) <= end_ -> bytes_at p st.(pos) (c :: l) -> c < 0xfe -> (st.(pos) >=? end_) = false /\ p st.(pos) = c /\ (c =? QOI_OP_RGB) = false /\ (c =? QOI_OP_RGBA) = false /\ forall k x, l !! k = Some x -> p (st.(pos) + 1 + Z.of_nat k) = x.
Proof.
  intros He Hb Hc. rewrite zlen_cons in He. pose proof (zlen_nonneg l). rewrite Z.geb_leb, (proj2 (Z.leb_gt _ _)) by lia. pose proof (Hb 0%nat c eq_refl) as H0. rewrite Z.add_0_r in H0. unfold QOI_OP_RGB, QOI_OP_RGBA. rewrite (proj2 (Z.eqb_neq c 0xfe)), (proj2 (Z.eqb_neq c 0xff)) by lia. do 4 (split; [done |]).
  intros k x Hk. rewrite <- (Hb (S k) x Hk). f_equal. lia.
Qed.
Lemma index_decoded prev seen st q : synced prev seen st -> pixel_ok q -> seen.[place q] = q -> bytes_at p st.(pos) [place q] -> st.(pos) + 1 <= end_ -> decode_op p end_ st = Some (set_rgba st q.(red) q.(green) q.(blue) q.(alpha) (st.(pos) + 1)).
Proof.
  intros H Hq Hs Hb He. pose proof (place_range q) as Hp. destruct (op_read st (place q) [] He Hb ltac:(lia)) as (E1 & E2 & E3 & E4 & _). unfold decode_op. rewrite E1, E2. cbv zeta. rewrite E3, E4. destruct (byte_op (place q)) as (B1 & B2 & _); [unfold is_byte; lia |].
  rewrite B1, B2, Z.div_small, Z.mod_small by lia. change (0 * 64 =? QOI_OP_INDEX) with true. cbv iota. rewrite (sy_table _ _ _ H q Hq Hs). by destruct (unpack q Hq) as (-> & -> & -> & ->).
Qed.
Lemma colour_decoded prev seen st q : synced prev seen st -> pixel_ok q -> bytes_at p st.(pos) (colour_chunk prev q) -> st.(pos) + zlen (colour_chunk prev q) <= end_ ->
  decode_op p end_ st = Some (set_rgba st q.(red) q.(green) q.(blue) q.(alpha) (st.(pos) + zlen (colour_chunk prev q))).
Proof.
  intros [Hok Hr Hg Hbl Ha Hrun _ _ _] Hq Hb He. pose proof Hq as (Q1 & Q2 & Q3 & Q4). unfold colour_chunk in *. destruct (Z.eqb_spec (alpha q) (alpha prev)) as [Eal|Eal].
  - cbv zeta in *. pose proof (diff_add (red q) (red prev) Q1) as D1. pose proof (diff_add (green q) (green prev) Q2) as D2. pose proof (diff_add (blue q) (blue prev) Q3) as D3. set (vr := diff (red q) (red prev)) in *. set (vg := diff (green q) (green prev)) in *. set (vb := diff (blue q) (blue prev)) in *.
    match type of He with context [if ?c then _ else _] => destruct c eqn:E1 end; [|match type of He with context [if ?c then _ else _] => destruct c eqn:E2 end].
    + assert (-2 <= vr <= 1 /\ -2 <= vg <= 1 /\ -2 <= vb <= 1) as (R1 & R2 & R3) by lia. set (op := 64 + 16 * (vr + 2) + 4 * (vg + 2) + (vb + 2)) in *. assert (op = 64 + 16 * (vr + 2) + 4 * (vg + 2) + (vb + 2)) as Hop by done. clearbody op.
      destruct (op_read st op [] He Hb ltac:(lia)) as (E3 & E4 & E5 & E6 & _). destruct (byte_op op) as (B1 & _ & B3 & B4 & B5 & _); [unfold is_byte; lia |]. unfold decode_op. rewrite E3, E4. cbv zeta. rewrite E5, E6, B1, B3, B4, B5.
      destruct (diff_op op (vr + 2) (vg + 2) (vb + 2)) as (-> & -> & -> & ->); [lia.. |]. change (1 * 64 =? QOI_OP_INDEX) with false. change (1 * 64 =? QOI_OP_DIFF) with true. cbv iota. rewrite Hr, Hg, Hbl, Ha, Eal. change (zlen [op]) with 1. by rewrite !Z.add_simpl_r, D1, D2, D3.
    + assert (-8 <= vr - vg <= 7 /\ -32 <= vg <= 31 /\ -8 <= vb - vg <= 7) as (R1 & R2 & R3) by lia. set (op := 128 + (vg + 32)) in *. set (b2 := 16 * (vr - vg + 8) + (vb - vg + 8)) in *. assert (op = 128 + (vg + 32) /\ b2 = 16 * (vr - vg + 8) + (vb - vg + 8)) as [Hop Hb2] by done. clearbody op b2. change (zlen [op; b2]) with 2 in *.
      destruct (op_read st op [b2] He Hb ltac:(lia)) as (E3 & E4 & E5 & E6 & E7). destruct (byte_op op) as (B1 & B2 & _); [unfold is_byte; lia |]. destruct (byte_op b2) as (_ & _ & _ & _ & _ & B6 & B7); [unfold is_byte; lia |]. pose proof (E7 0%nat b2 eq_refl) as E8. rewrite Z.add_0_r in E8.
      unfold decode_op. rewrite E3, E4. cbv zeta. rewrite E5, E6, B1, B2, E8, B6, B7. destruct (luma_op op b2 (vg + 32) (vr - vg + 8) (vb - vg + 8)) as (-> & -> & -> & ->); [lia.. |]. change (2 * 64 =? QOI_OP_INDEX) with false. change (2 * 64 =? QOI_OP_DIFF) with false. change (2 * 64 =? QOI_OP_LUMA) with true. cbv iota.
      rewrite Z.geb_leb, (proj2 (Z.leb_gt _ _)) by lia. rewrite Hr, Hg, Hbl, Ha, Eal. replace (vg + 32 - 32 + (vr - vg + 8) - 8) with vr by lia. replace (vg + 32 - 32 + (vb - vg + 8) - 8) with vb by lia. rewrite Z.add_simpl_r, D1, D2, D3. do 2 f_equal. lia.
    + pose proof (Hb 0%nat _ eq_refl) as H0. rewrite Z.add_0_r in H0. pose proof (Hb 1%nat _ eq_refl) as H1. pose proof (Hb 2%nat _ eq_refl) as H2. pose proof (Hb 3%nat _ eq_refl) as H3. change (Z.of_nat 1) with 1 in H1. change (Z.of_nat 2) with 2 in H2. change (Z.of_nat 3) with 3 in H3. change (zlen _) with 4 in *.
      unfold decode_op. rewrite Z.geb_leb, (proj2 (Z.leb_gt _ _)), H0 by lia. cbv zeta. change (254 =? QOI_OP_RGB) with true. cbv iota. rewrite (proj2 (Z.ltb_ge _ _)) by lia. rewrite <- !Z.add_assoc. change (1 + 1) with 2. change (1 + 2) with 3. change (1 + 3) with 4. change (1 + 4) with 5. by rewrite H1, H2, H3, Ha, Eal.
  - pose proof (Hb 0%nat _ eq_refl) as H0. rewrite Z.add_0_r in H0. pose proof (Hb 1%nat _ eq_refl) as H1. pose proof (Hb 2%nat _ eq_refl) as H2. pose proof (Hb 3%nat _ eq_refl) as H3. pose proof (Hb 4%nat _ eq_refl) as H4. change (Z.of_nat 1) with 1 in H1. change (Z.of_nat 2) with 2 in H2. change (Z.of_nat 3) with 3 in H3. change (Z.of_nat 4) with 4 in H4. change (zlen _) with 5 in *.
    unfold decode_op. rewrite Z.geb_leb, (proj2 (Z.leb_gt _ _)), H0 by lia. cbv zeta. change (255 =? QOI_OP_RGB) with false. change (255 =? QOI_OP_RGBA) with true. cbv iota. rewrite (proj2 (Z.ltb_ge _ _)) by lia. rewrite <- !Z.add_assoc. change (1 + 1) with 2. change (1 + 2) with 3. change (1 + 3) with 4. change (1 + 4) with 5. by rewrite H1, H2, H3, H4.
Qed.

Lemma decode_encode l : forall prev seen n st, synced prev seen st -> 0 <= n < 62 -> Forall pixel_ok l -> bytes_at p st.(pos) (encode prev seen n l) -> st.(pos) + zlen (encode prev seen n l) <= end_ ->
  decode_loop (Z.to_nat n + length l) p end_ st = Some (replicate (Z.to_nat n) (xrgb_of prev) ++ (xrgb_of <$> l)).
Proof.
  induction l as [|q l IH]; intros prev seen n st H Hn HF Hb He; cbn [encode] in *.
  - destruct (run_decoded prev seen st n H ltac:(lia) Hb He) as (st' & _ & _ & E). by rewrite E.
  - apply Forall_cons in HF as [Hq HF]. case_decide as Eq.
    + subst q. cbn [length fmap list_fmap]. destruct (Z.eqb_spec (n + 1) 62) as [En|En].
      * apply bytes_app in Hb as [Hb1 Hb2]. rewrite zlen_app in He. pose proof (zlen_nonneg (encode prev seen 0 l)). destruct (run_decoded prev seen st 62 H ltac:(lia) Hb1 ltac:(lia)) as (st' & H' & Hp & E).
        replace (Z.to_nat n + S (length l))%nat with (Z.to_nat 62 + (Z.to_nat 0 + length l))%nat by lia. rewrite E, (IH prev seen 0 st' H' ltac:(lia) HF) by (rewrite Hp; first [done | lia]). cbn [mbind option_bind]. f_equal. replace (Z.to_nat 62) with (Z.to_nat n + 1)%nat by lia. rewrite replicate_add, <- app_assoc. done.
      * replace (Z.to_nat n + S (length l))%nat with (Z.to_nat (n + 1) + length l)%nat by lia. rewrite (IH prev seen (n + 1) st H ltac:(lia) HF Hb He). f_equal. replace (Z.to_nat (n + 1)) with (Z.to_nat n + 1)%nat by lia. by rewrite replicate_add, <- app_assoc.
    + set (ch := if decide (seen.[place q] = q) then [place q] else colour_chunk prev q) in *. apply bytes_app in Hb as [Hb1 Hb2]. apply bytes_app in Hb2 as [Hb2 Hb3]. rewrite !zlen_app in He. set (rest := encode q seen.[place q := q] 0 l) in *. pose proof (zlen_nonneg rest). pose proof (zlen_nonneg ch).
      destruct (run_decoded prev seen st n H ltac:(lia) Hb1 ltac:(lia)) as (st' & H' & Hp & E). cbn [length fmap list_fmap]. rewrite E. cbn [decode_loop]. rewrite <- Hp in Hb2, Hb3.
      assert (decode_op p end_ st' = Some (set_rgba st' q.(red) q.(green) q.(blue) q.(alpha) (st'.(pos) + zlen ch))) as Ed.
      { unfold ch in *. case_decide as Es; [apply (index_decoded prev seen); [done | done | done | done | change (zlen [_]) with 1 in He; lia] | apply (colour_decoded prev seen); [done | done | done | lia]]. }
      unfold next_pixel. rewrite (sy_run _ _ _ H'). change (0 >? 0) with false. cbv iota. rewrite Ed. cbn [mbind option_bind].
      pose proof (remembered prev seen st' q (set_rgba st' (red q) (green q) (blue q) (alpha q) (st'.(pos) + zlen ch)) H' Hq eq_refl (sy_run _ _ _ H') eq_refl eq_refl eq_refl eq_refl) as Hr.
      set (st2 := remember _) in *. assert (xrgb st2 = xrgb_of q) as -> by (apply xrgb_synced; apply Hr). pose proof (IH q seen.[place q := q] 0 st2 Hr ltac:(lia) HF) as E2. change (Z.to_nat 0 + length l)%nat with (length l) in E2. change (pos st2) with (st'.(pos) + zlen ch) in E2. fold rest in E2. rewrite E2 by (first [done | lia]). done.
Qed.
End decode.

Lemma synced_start : synced start_pixel (replicate 64 clear_pixel) {| r := 0; g := 0; b := 0; a := 0xff; index := replicate 64 0; run := 0; pos := QOI_HEADER_SIZE |}.
Proof.
  assert (forall q : pixel, (replicate 64 clear_pixel).[place q] = clear_pixel) as Hs by (intros q; pose proof (place_range q); unfold aget; apply lookup_total_replicate_2; lia).
  split; try done.
  - intros q _ E. rewrite Hs in E. subst q. done.
  - intros q _ Hp E. rewrite Hs in E. subst q. done.
Qed.

(** C23: a picture that an encoder of the format has written is decoded to its pixels: for every
    width and height the decoder accepts and every list of as many pixels, the colours come out as
    they went in, with runs, the table of colours and both sizes of differences; the transparency is
    dropped. *)
Theorem qoi_roundtrip p w h channels colorspace l : 0 < w <= QOI_MAX_DIM -> 0 < h <= QOI_MAX_DIM -> w * h <= QOI_MAX_PIXELS -> zlen l = w * h -> channels = 3 \/ channels = 4 -> Forall pixel_ok l ->
  bytes_at p 0 (qoi_file w h channels colorspace l) -> qoi_decode p (zlen (qoi_file w h channels colorspace l)) = Some (w, h, xrgb_of <$> l).
Proof.
  intros Hw Hh Hm Hl Hc HF Hb. unfold QOI_MAX_DIM, QOI_MAX_PIXELS in *. set (enc := encode start_pixel (replicate 64 clear_pixel) 0 l) in *. assert (zlen (qoi_file w h channels colorspace l) = 22 + zlen enc) as -> by (unfold qoi_file; fold enc; rewrite !zlen_app; change (zlen [_; _; _; _]) with 4; change (zlen [_; _]) with 2; change (zlen (be_bytes _)) with 4; change (zlen [_; _; _; _; _; _; _; _]) with 8; lia).
  unfold qoi_file in Hb. fold enc in Hb. apply bytes_app in Hb as [Hb0 Hb]. apply bytes_app in Hb as [Hb4 Hb]. apply bytes_app in Hb as [Hb8 Hb]. apply bytes_app in Hb as [Hb12 Hb]. apply bytes_app in Hb as [Hb14 _].
  change (0 + zlen [_; _; _; _]) with 4 in *. change (4 + zlen (be_bytes w)) with 8 in *. change (8 + zlen (be_bytes h)) with 12 in *. change (12 + zlen [_; _]) with 14 in *. pose proof (zlen_nonneg enc).
  unfold qoi_decode. unfold QOI_HEADER_SIZE, QOI_PADDING_SIZE. rewrite (proj2 (Z.ltb_ge _ _)) by lia.
  rewrite (Hb0 0%nat _ eq_refl : p 0 = 113), (Hb0 1%nat _ eq_refl : p 1 = 111), (Hb0 2%nat _ eq_refl : p 2 = 105), (Hb0 3%nat _ eq_refl : p 3 = 102), (Hb12 0%nat _ eq_refl : p 12 = channels). cbn [Z.eqb Pos.eqb negb orb]. cbv zeta.
  rewrite (be32_bytes p 4 w), (be32_bytes p 8 h) by (first [done | lia]). unfold QOI_MAX_DIM, QOI_MAX_PIXELS. rewrite (proj2 (Z.eqb_neq w 0)), (proj2 (Z.eqb_neq h 0)), !Z.gtb_ltb, !(proj2 (Z.ltb_ge _ _)) by lia. cbn [orb].
  assert (negb (channels =? 3) && negb (channels =? 4) = false) as -> by (destruct Hc as [->| ->]; done). unfold CHECKED_MUL, CHECKED_ADD. rewrite (proj2 (Z.ltb_lt (w * h) _)) by lia. cbn [mbind option_bind]. rewrite Z.gtb_ltb, (proj2 (Z.ltb_ge _ (w * h))) by lia.
  rewrite (proj2 (Z.ltb_lt (w * h * 4) _)) by lia. cbn [mbind option_bind]. rewrite (proj2 (Z.ltb_lt (w * h * 4 + 16) _)) by lia. cbn [mbind option_bind].
  pose proof (decode_encode p (22 + zlen enc - 8) l start_pixel (replicate 64 clear_pixel) 0 _ synced_start ltac:(lia) HF Hb14 ltac:(cbn [pos]; fold enc; unfold QOI_HEADER_SIZE; lia)) as E. change (Z.to_nat 0 + length l)%nat with (length l) in E. replace (Z.to_nat (w * h)) with (length l) by (unfold zlen in Hl; lia).
  change 14 with QOI_HEADER_SIZE. rewrite E. done.
Qed.
(** A picture of 3 by 2 pixels: a run, a small and a larger difference, a colour written out, one with
    a transparency, and one from the table. *)
Definition picture : list pixel := [Px 0 0 0 255; Px 0 0 0 255; Px 1 0 255 255; Px 12 10 5 255; Px 200 100 50 128; Px 1 0 255 255].
Lemma qoi_roundtrip_witness : let f := qoi_file 3 2 4 0 picture in qoi_decode (fun i => default 0 (f !! Z.to_nat i)) (zlen f) = Some (3, 2, [0; 0; 0x0100ff; 0x0c0a05; 0xc86432; 0x0100ff]).
Proof.
  cbv zeta. refine (qoi_roundtrip _ 3 2 4 0 picture _ _ _ _ _ _ _).
  - vm_compute. split; [reflexivity | discriminate].
  - vm_compute. split; [reflexivity | discriminate].
  - vm_compute. discriminate.
  - reflexivity.
  - right. reflexivity.
  - repeat constructor; cbn; discriminate || reflexivity.
  - intros k x Hk. rewrite Z.add_0_l, Nat2Z.id. by rewrite Hk.
Defined.

(** * Any file *)

Definition colours_ok (st : decoder) : Prop := is_byte st.(r) /\ is_byte st.(g) /\ is_byte st.(b).

Lemma u8_is_byte x : is_byte (u8 x).
Proof. unfold is_byte, u8, wrap. apply Z.mod_pos_bound. lia. Qed.
Lemma xrgb_range st : colours_ok st -> 0 <= xrgb st < 2 ^ 24.
Proof.
  intros (Hr & Hg & Hb). unfold is_byte in *. unfold xrgb. rewrite Z.lor_comm, (Z.lor_comm (Z.shiftl (r st) 16)).
  rewrite Z.lor_assoc, (lor_above (b st)) by lia. rewrite lor_above by lia. lia.
Qed.

Lemma be32_nonneg p i : (forall j, i <= j < i + 4 -> is_byte (p j)) -> 0 <= qoi_be32 p i.
Proof. intros H. unfold is_byte in H. unfold qoi_be32. rewrite !Z.lor_nonneg, !Z.shiftl_nonneg. repeat split; apply H; lia. Qed.

Section any_file.
Context (p p' : Z -> Z) (end_ : Z) (Heq : forall i, 0 <= i < end_ -> p i = p' i).

Lemma decode_op_ext st : 0 <= st.(pos) -> decode_op p end_ st = decode_op p' end_ st.
Proof.
  intros Hp. unfold decode_op. destruct (Z.geb_spec (pos st) end_); [done |]. cbv zeta. rewrite (Heq (pos st)) by lia.
  do 2 (case_if; [case_if; [done |]; rewrite !Heq by lia; done |]). do 2 (case_if; [done |]). case_if; [| done]. destruct (Z.geb_spec (pos st + 1) end_); [done |].
  by rewrite (Heq (pos st + 1)) by lia.
Qed.
Lemma decode_op_pos st st' : decode_op p end_ st = Some st' -> st.(pos) < st'.(pos).
Proof. unfold decode_op. cbv zeta. intros E. repeat (case_if; simplify_eq/=; try lia). Qed.
Lemma decode_op_colours st st' : (forall i, 0 <= i < end_ -> is_byte (p i)) -> 0 <= st.(pos) -> colours_ok st -> decode_op p end_ st = Some st' -> colours_ok st'.
Proof.
  intros Hb Hp (? & ? & ?). unfold decode_op. cbv zeta. intros E. repeat (case_if; simplify_eq/=; try done); repeat split; cbn [r g b set_rgba]; try apply u8_is_byte; try (apply Hb; lia); done.
Qed.
Lemma next_pixel_any st : (forall i, 0 <= i < end_ -> is_byte (p i)) -> 0 <= st.(pos) -> colours_ok st ->
  next_pixel p end_ st = next_pixel p' end_ st /\ forall st', next_pixel p end_ st = Some st' -> 0 <= st'.(pos) /\ colours_ok st'.
Proof.
  intros Hb Hp Hc. unfold next_pixel. case_if; [split; [done |]; intros st' [= <-]; done |]. rewrite <- (decode_op_ext st Hp). split; [done |]. intros st'.
  destruct (decode_op p end_ st) as [st1 |] eqn:E; cbn [mbind option_bind]; [| done]. intros [= <-]. cbn. pose proof (decode_op_pos _ _ E). split; [lia |]. exact (decode_op_colours _ _ Hb Hp Hc E).
Qed.
Lemma decode_loop_any n : forall st, (forall i, 0 <= i < end_ -> is_byte (p i)) -> 0 <= st.(pos) -> colours_ok st ->
  decode_loop n p end_ st = decode_loop n p' end_ st /\ forall out, decode_loop n p end_ st = Some out -> length out = n /\ Forall (fun x => 0 <= x < 2 ^ 24) out.
Proof.
  induction n as [| n IH]; intros st Hb Hp Hc; cbn [decode_loop]; [split; [done | intros out [= <-]; done] |]. destruct (next_pixel_any st Hb Hp Hc) as [<- H1].
  destruct (next_pixel p end_ st) as [st1 |]; cbn [mbind option_bind]; [| done]. destruct (H1 st1 eq_refl) as [Hp1 Hc1]. destruct (IH st1 Hb Hp1 Hc1) as [<- H2]. split; [done |]. intros out.
  destruct (decode_loop n p end_ st1) as [o |]; cbn [mbind option_bind]; [| done]. intros [= <-]. destruct (H2 o eq_refl) as [<- HF]. split; [done |]. constructor; [by apply xrgb_range | done].
Qed.
End any_file.

(** C24: whatever bytes the file has, the decoder reads only inside of it (any other file with the
    same first [n] bytes gives the same result) and, where it gives a picture, has written exactly as
    many pixels as the allocation has room for, width times height, each of 24 bits; so a file that
    ends early is refused and none makes it read or write past its buffers. *)
Theorem qoi_decode_confined p p' n : (forall i, 0 <= i < n -> is_byte (p i)) -> (forall i, 0 <= i < n -> p i = p' i) ->
  qoi_decode p n = qoi_decode p' n /\
  forall w h out, qoi_decode p n = Some (w, h, out) -> 0 < w <= QOI_MAX_DIM /\ 0 < h <= QOI_MAX_DIM /\ w * h <= QOI_MAX_PIXELS /\ zlen out = w * h /\ Forall (fun x => 0 <= x < 2 ^ 24) out.
Proof.
  intros Hb Heq. unfold qoi_decode. destruct (Z.ltb_spec n (QOI_HEADER_SIZE + QOI_PADDING_SIZE)) as [| Hn]; [done |]. unfold QOI_HEADER_SIZE, QOI_PADDING_SIZE in *.
  assert (qoi_be32 p' 4 = qoi_be32 p 4 /\ qoi_be32 p' 8 = qoi_be32 p 8) as [-> ->] by (unfold qoi_be32; rewrite !Heq by lia; done).
  rewrite <- (Heq 0), <- (Heq 1), <- (Heq 2), <- (Heq 3), <- (Heq 12) by lia. case_if; [done |]. cbv zeta. assert (0 <= qoi_be32 p 4 /\ 0 <= qoi_be32 p 8) as [Hw Hh] by (split; apply be32_nonneg; intros; apply Hb; lia).
  set (w := qoi_be32 p 4) in *. set (h := qoi_be32 p 8) in *. case_if; [done |]. case_if; [done |]. unfold CHECKED_MUL, CHECKED_ADD. case_if; cbn [mbind option_bind]; [| done]. case_if; [done |]. case_if; cbn [mbind option_bind]; [| done]. case_if; cbn [mbind option_bind]; [| done].
  destruct (decode_loop_any p p' (n - 8) ltac:(intros; apply Heq; lia) (Z.to_nat (w * h)) {| r := 0; g := 0; b := 0; a := 255; index := replicate 64 0; run := 0; pos := 14 |} ltac:(intros; apply Hb; lia) ltac:(done) ltac:(done)) as [<- H1].
  split; [done |]. intros w' h' out. destruct (decode_loop _ p _ _) as [o |]; cbn [mbind option_bind]; [| done]. intros [= <- <- <-]. destruct (H1 o eq_refl) as [Hlen HF].
  unfold zlen. rewrite Hlen. repeat split; try done; nia.
Qed.
(** The file of [qoi_roundtrip]'s example, with other bytes after it. *)
Lemma qoi_decode_confined_witness : let f := qoi_file 3 2 4 0 picture in qoi_decode (fun i => default 0 (f !! Z.to_nat i)) (zlen f) = qoi_decode (fun i => default 7 (f !! Z.to_nat i)) (zlen f).
Proof.
  cbv zeta. refine (proj1 (qoi_decode_confined _ _ _ _ _)); intros i Hi.
  - destruct (lookup_lt_is_Some_2 (qoi_file 3 2 4 0 picture) (Z.to_nat i)) as [x E]; [unfold zlen in Hi; lia |]. rewrite E. assert (Forall is_byte (qoi_file 3 2 4 0 picture)) as HF by (repeat constructor; cbn; discriminate || reflexivity). exact (proj1 (Forall_lookup _ _) HF _ _ E).
  - destruct (lookup_lt_is_Some_2 (qoi_file 3 2 4 0 picture) (Z.to_nat i)) as [x E]; [unfold zlen in Hi; lia |]. by rewrite E.
Defined.
