(* ===== verification/Print.v ===== *)
(** Formatted printing, [common/lib/print.s2.c], and the small number routines of [common/lib/misc.c].

    [vprint] fills a buffer of 4096 bytes and hands what it has written to the terminals, the BIOS and
    the serial port, which are not modelled. The arguments are a list of numbers, an address for a
    string; one that was not passed is read as 0 (it is undefined in C). [wide] says whether pointers
    and sizes have 64 bits. *)

From S2P Require Import Prelude Libc.
Import Libc.

Module Print.

Definition PRINT_BUF_MAX : Z := 4096.
Definition base_digits : Z -> Z := lit "0123456789abcdef".

(** [print_buf] and [print_buf_i]. *)
Record out := { print_buf : list Z; print_buf_i : Z }.
Definition put (o : out) (c : Z) : out :=
  let o := if o.(print_buf_i) <? PRINT_BUF_MAX - 1 then {| print_buf := o.(print_buf).[o.(print_buf_i) := c]; print_buf_i := o.(print_buf_i) + 1 |} else o in
  {| print_buf := o.(print_buf).[o.(print_buf_i) := 0]; print_buf_i := o.(print_buf_i) |}.
Definition prn_char (o : out) (c : Z) : out := put (if c =? 10 then put o 13 else o) c.
Fixpoint prn_str_loop (fuel : nat) (string : Z -> Z) (i : Z) (o : out) : outcome out :=
  match fuel with
  | O => Diverge
  | S fuel => if string i =? 0 then Ret o else prn_str_loop fuel string (i + 1) (prn_char o (string i))
  end.
Definition prn_str (fuel : nat) (o : out) (string : Z -> Z) : outcome out := prn_str_loop fuel string 0 o.
Definition prn_nstr (o : out) (string : Z -> Z) (len : Z) : out := for_up (Z.to_nat len) 0 (fun i o => prn_char o (string i)) o.

(** The loop that writes digits from the end of [buf]: [i] and [buf] afterwards. At most 20 digits. *)
Fixpoint digit_loop (n : nat) (digit : Z -> Z) (base : Z) (buf : list Z) (i x : Z) : Z * list Z :=
  match n with
  | O => (i, buf)
  | S n => if x =? 0 then (i, buf) else digit_loop n digit base buf.[i := digit (x mod base)] (i - 1) (x / base)
  end.
Definition prn_i (fuel : nat) (o : out) (x : Z) : outcome out :=
  if x =? 0 then Ret (prn_char o 48)
  else
    let sign := x <? 0 in
    let ux := if sign then u64 (0 - u64 x) else u64 x in
    let '(i, buf) := digit_loop 20 (fun d => d + 0x30) 10 (replicate 21 0) 19 ux in
    let '(i, buf) := if sign then (i, buf.[i := 45]) else (i + 1, buf) in
    prn_str fuel o (fun k => buf.[i + k]).
Definition prn_ui (fuel : nat) (o : out) (x : Z) : outcome out :=
  if x =? 0 then Ret (prn_char o 48)
  else
    let '(i, buf) := digit_loop 20 (fun d => d + 0x30) 10 (replicate 21 0) 19 x in
    let i := i + 1 in
    prn_str fuel o (fun k => buf.[i + k]).
Definition prn_x (fuel : nat) (o : out) (x : Z) : outcome out :=
  if x =? 0 then prn_str fuel o (lit "0x0")
  else
    let '(i, buf) := digit_loop 20 base_digits 16 (replicate 17 0) 15 x in
    let i := i + 1 in
    o ← prn_str fuel o (lit "0x");
    prn_str fuel o (fun k => buf.[i + k]).

(** The search for the last ['#'], from [i] down. *)
Fixpoint last_hash (n : nat) (str : Z -> Z) : option Z :=
  match n with
  | O => None
  | S n => let i := Z.of_nat n in if negb (str i =? 35) then last_hash n str else Some i
  end.
Definition i64 (x : Z) : Z := wrap 64 (x + 2 ^ 63) - 2 ^ 63.
Definition va_arg (args : list Z) : Z * list Z := (hd 0 args, tl args).

(** The conversion of the character [c]. *)
Definition convert (fuel : nat) (wide : bool) (m : mem) (c : Z) (args : list Z) (o : out) : outcome (out * list Z) :=
  let '(v, args1) := va_arg args in
  if c =? 115 then
    let string := if v =? 0 then lit "(null)" else str m v in
    o ← prn_str fuel o string; Ret (o, args1)
  else if c =? 83 then
    let '(str_len, args2) := va_arg args1 in
    if v =? 0 then o ← prn_str fuel o (lit "(null)"); Ret (o, args2)
    else Ret (prn_nstr o (str m v) (if wide then u64 str_len else u32 str_len), args2)
  else if c =? 100 then o ← prn_i fuel o (i32 v); Ret (o, args1)
  else if c =? 117 then o ← prn_ui fuel o (u32 v); Ret (o, args1)
  else if c =? 120 then o ← prn_x fuel o (u32 v); Ret (o, args1)
  else if c =? 68 then o ← prn_i fuel o (i64 v); Ret (o, args1)
  else if c =? 85 then o ← prn_ui fuel o (u64 v); Ret (o, args1)
  else if c =? 88 then o ← prn_x fuel o (u64 v); Ret (o, args1)
  else if c =? 112 then o ← prn_x fuel o (if wide then u64 v else u32 v); Ret (o, args1)
  else if c =? 99 then Ret (prn_char o (u8 v), args1)
  else if c =? 35 then
    len ← strlen fuel (str m v);
    match last_hash (Z.to_nat (i32 len)) (str m v) with
    | Some i => Ret (prn_nstr o (str m v) i, args1)
    | None => o ← prn_str fuel o (str m v); Ret (o, args1)
    end
  else Ret (prn_char o 63, args).

Fixpoint format_loop (fuel : nat) (wide : bool) (m : mem) (fmt : Z -> Z) (p : Z) (args : list Z) (o : out) : outcome out :=
  match fuel with
  | O => Diverge
  | S fuel =>
      if fmt p =? 0 then Ret o
      else if negb (fmt p =? 37) then format_loop fuel wide m fmt (p + 1) args (prn_char o (fmt p))
      else '(o, args) ← convert fuel wide m (fmt (p + 1)) args o; format_loop fuel wide m fmt (p + 2) args o
  end.
(** What is handed to the terminals: [print_buf_i] bytes of the buffer, which keeps its old contents. *)
Definition vprint (fuel : nat) (wide : bool) (m : mem) (buf : list Z) (fmt : Z -> Z) (args : list Z) : outcome (list Z) :=
  o ← format_loop fuel wide m fmt 0 args {| print_buf := buf; print_buf_i := 0 |};
  Ret (take (Z.to_nat o.(print_buf_i)) o.(print_buf)).

(** * Numbers *)

Fixpoint sqrt_start (n : nat) (op one : Z) : Z :=
  match n with O => one | S n => if one >? op then sqrt_start n op (Z.shiftr one 2) else one end.
Fixpoint sqrt_loop (fuel : nat) (op res one : Z) : outcome Z :=
  match fuel with
  | O => Diverge
  | S fuel =>
      if negb (one =? 0) then
        let '(op, res) := if op >=? u64 (res + one) then (u64 (op - u64 (res + one)), u64 (res + u64 (2 * one))) else (op, res) in
        sqrt_loop fuel op (Z.shiftr res 1) (Z.shiftr one 2)
      else Ret res
  end.
Definition sqrt (a_nInput : Z) : outcome Z :=
  let one := sqrt_start 32 a_nInput (2 ^ 62) in
  sqrt_loop 33 a_nInput 0 one.

Fixpoint zeros_loop (n : nat) (val i : Z) : Z :=
  match n with O => 64 | S n => if negb (Z.land val 1 =? 0) then i else zeros_loop n (Z.shiftr val 1) (i + 1) end.
Definition get_trailing_zeros (val : Z) : Z := zeros_loop 64 val 0.

Fixpoint resolution_loop (n fuel : nat) (wide : bool) (buf : Z -> Z) (first i : Z) (res : list Z) : outcome (list Z) :=
  match n with
  | O => Ret res
  | S n =>
      '(x, last) ← strtoui fuel (tail buf first) 10;
      let x := if wide then x else u32 x in
      if last =? 0 then Ret res
      else
        let res := res.[i := x] in
        let last := first + last in
        if buf last =? 0 then Ret res else resolution_loop n fuel wide buf (last + 1) (i + 1) res
  end.
(** Width, height and bits per pixel; [None] is [false]. *)
Definition parse_resolution (fuel : nat) (wide : bool) (buf : Z -> Z) : outcome (option (Z * Z * Z)) :=
  res ← resolution_loop 3 fuel wide buf 0 0 [0; 0; 0];
  if (res.[0] =? 0) || (res.[1] =? 0) then Ret None
  else Ret (Some (res.[0], res.[1], if res.[2] =? 0 then 32 else res.[2])).
End Print.
