(* ===== verification/PrintCorrect.v ===== *)
(** Printing against a description of formats, and the numbers of [misc.c]. *)

From S2P Require Import Prelude Libc LibcCorrect Blake2bCorrect Print.
Import Libc Print.

(** * Square roots *)

(** [r] is the root of [a] with its bits below [k] zero; [one] is 4 to the [k - 1]. *)
Lemma sqrt_loop_spec a k : forall fuel r, (k < fuel)%nat -> (k <= 32)%nat -> 0 <= r -> r + 2 ^ Z.of_nat k <= 2 ^ 32 -> r * r <= a < (r + 2 ^ Z.of_nat k) * (r + 2 ^ Z.of_nat k) ->
  sqrt_loop fuel (a - r * r) (r * 2 ^ Z.of_nat k) (match k with O => 0 | S k => 2 ^ (2 * Z.of_nat k) end) = Ret (Z.sqrt a).
Proof.
  induction k as [| k IH]; intros fuel r Hf Hk Hr Hmax Ha; (destruct fuel as [| fuel]; [lia |]); cbn [sqrt_loop].
  - change (2 ^ Z.of_nat 0) with 1 in *. rewrite Z.mul_1_r. cbn [negb Z.eqb]. f_equal. symmetry. apply Z.sqrt_unique. rewrite <- Z.add_1_r. lia.
  - assert (0 < 2 ^ Z.of_nat k) as Hp by (apply Z.pow_pos_nonneg; lia). assert (2 ^ Z.of_nat (S k) = 2 * 2 ^ Z.of_nat k) as E1 by (rewrite Nat2Z.inj_succ, Z.pow_succ_r by lia; done).
    assert (2 ^ (2 * Z.of_nat k) = 2 ^ Z.of_nat k * 2 ^ Z.of_nat k) as -> by (rewrite <- Z.pow_add_r by lia; f_equal; lia). rewrite E1 in *. set (p := 2 ^ Z.of_nat k) in *. rewrite (proj2 (Z.eqb_neq (p * p) 0)) by nia. cbn [negb].
    assert (Z.shiftr (p * p) 2 = match k with O => 0 | S k' => 2 ^ (2 * Z.of_nat k') end) as Es.
    { unfold p. destruct k as [| k']; [done |]. rewrite Nat2Z.inj_succ, Z.pow_succ_r by lia. rewrite Z.shiftr_div_pow2 by lia. change (2 ^ 2) with 4. replace (2 * Z.of_nat k') with (Z.of_nat k' + Z.of_nat k') by lia. rewrite Z.pow_add_r by lia.
      symmetry. apply Z.div_unique with 0; lia. }
    assert (r * (2 * p) + p * p <= (r + p) * (r + p)) as Hle by nia. assert ((r + p) * (r + p) < 2 ^ 64) as H64 by (change (2 ^ 64) with (2 ^ 32 * 2 ^ 32); nia).
    rewrite (u64_small (2 * (p * p))) by nia. rewrite (u64_small (r * (2 * p) + p * p)) by nia. rewrite Es, Z.geb_leb. destruct (Z.leb_spec (r * (2 * p) + p * p) (a - r * r)) as [Hge | Hlt].
    + rewrite u64_small by nia. rewrite u64_small by nia. replace (a - r * r - (r * (2 * p) + p * p)) with (a - (r + p) * (r + p)) by ring. replace (Z.shiftr (r * (2 * p) + 2 * (p * p)) 1) with ((r + p) * p).
      * apply IH; [lia | lia | lia | lia | nia].
      * rewrite Z.shiftr_div_pow2 by lia. change (2 ^ 1) with 2. apply Z.div_unique with 0; [lia | ring].
    + replace (Z.shiftr (r * (2 * p)) 1) with (r * p) by (rewrite Z.shiftr_div_pow2 by lia; change (2 ^ 1) with 2; apply Z.div_unique with 0; [lia | ring]). apply IH; [lia | lia | lia | lia | nia].
Qed.
Lemma sqrt_start_spec a n : 0 <= a < 2 ^ (2 * Z.of_nat n) -> exists k, (k <= n)%nat /\ a < 2 ^ (2 * Z.of_nat k) /\
  sqrt_start n a (match n with O => 0 | S n => 2 ^ (2 * Z.of_nat n) end) = match k with O => 0 | S k => 2 ^ (2 * Z.of_nat k) end.
Proof.
  induction n as [| n IH]; intros Ha; [exists O; split; [lia |]; split; [lia | done] |]. cbn [sqrt_start]. rewrite Z.gtb_ltb. destruct (Z.ltb_spec a (2 ^ (2 * Z.of_nat n))) as [Hlt |]; [| exists (S n); split; [lia |]; split; [lia | done]].
  destruct IH as (k & Hk & Hlt' & E); [lia |]. exists k. split; [lia |]. split; [done |]. rewrite <- E. destruct n as [| n]; [done |]. f_equal.
  rewrite Z.shiftr_div_pow2 by lia. replace (2 * Z.of_nat (S n)) with (2 * Z.of_nat n + 2) by lia. rewrite Z.pow_add_r by lia. by rewrite Z.div_mul by lia.
Qed.
(** [sqrt] is the integer square root of every number of 64 bits: none of its sums leaves 64
    bits. *)
Theorem sqrt_correct a : is_u64 a -> sqrt a = Ret (Z.sqrt a).
Proof.
  intros Ha. unfold is_u64 in Ha. unfold sqrt. cbv zeta. destruct (sqrt_start_spec a 32) as (k & Hk & Hlt & E); [exact Ha |]. change (2 ^ (2 * Z.of_nat 31)) with (2 ^ 62) in E. rewrite E.
  pose proof (sqrt_loop_spec a k 33 0 ltac:(lia) Hk ltac:(lia)) as H. rewrite !Z.mul_0_l, Z.sub_0_r, Z.add_0_l in H. apply H.
  - apply Z.pow_le_mono_r; lia.
  - rewrite <- Z.pow_add_r by lia. replace (Z.of_nat k + Z.of_nat k) with (2 * Z.of_nat k) by lia. lia.
Qed.
Lemma sqrt_correct_witness : sqrt (2 ^ 64 - 1) = Ret (2 ^ 32 - 1) /\ sqrt (2 ^ 64 - 1) = Ret (Z.sqrt (2 ^ 64 - 1)).
Proof. split; [vm_compute; reflexivity |]. apply (sqrt_correct (2 ^ 64 - 1)). split; [discriminate | reflexivity]. Defined.

(** * Digits *)

(** The digits of a number, the first not zero; none for 0. [n] digits are enough for [x < base ^ n]. *)
Fixpoint numeral (n : nat) (base x : Z) : list Z :=
  match n with O => [] | S n => if x =? 0 then [] else numeral n base (x / base) ++ [x mod base] end.

Lemma numeral_value n base x : 2 <= base -> 0 <= x < base ^ Z.of_nat n -> value base 0 (numeral n base x) = x.
Proof.
  intros Hb. revert x. induction n as [| n IH]; intros x Hx; cbn [numeral]; [change (base ^ Z.of_nat 0) with 1 in Hx; cbn; lia |]. destruct (Z.eqb_spec x 0) as [-> |]; [done |].
  unfold value in *. rewrite foldl_app. cbn [foldl]. rewrite Nat2Z.inj_succ, Z.pow_succ_r in Hx by lia. rewrite IH; [pose proof (Z.div_mod x base ltac:(lia)); lia |]. split; [apply Z.div_pos; lia | apply Z.div_lt_upper_bound; lia].
Qed.
Lemma numeral_digits n base x : 2 <= base -> 0 <= x -> Forall (fun d => 0 <= d < base) (numeral n base x).
Proof.
  intros Hb. revert x. induction n as [| n IH]; intros x Hx; cbn [numeral]; [constructor |]. destruct (x =? 0); [constructor |]. apply Forall_app. split; [apply IH; apply Z.div_pos; lia |]. constructor; [apply Z.mod_pos_bound; lia | constructor].
Qed.
Lemma numeral_length n base x : (length (numeral n base x) <= n)%nat.
Proof. revert x. induction n as [| n IH]; intros x; cbn [numeral]; [done |]. case_if; [cbn; lia |]. rewrite length_app. cbn. specialize (IH (x / base)). lia. Qed.
(** The first digit is not zero. *)
Lemma numeral_head n base x : 2 <= base -> 0 <= x < base ^ Z.of_nat n -> forall d ds, numeral n base x = d :: ds -> d <> 0.
Proof.
  intros Hb. revert x. induction n as [| n IH]; intros x Hx d ds; cbn [numeral]; [done |]. destruct (Z.eqb_spec x 0); [done |]. rewrite Nat2Z.inj_succ, Z.pow_succ_r in Hx by lia.
  assert (0 <= x / base < base ^ Z.of_nat n) as Hd by (split; [apply Z.div_pos; lia | apply Z.div_lt_upper_bound; lia]). destruct (numeral n base (x / base)) as [| d' ds'] eqn:E; cbn [app].
  - intros [= <- <-]. pose proof (numeral_value n base (x / base) Hb Hd) as Hv. rewrite E in Hv. cbn in Hv. pose proof (Z.div_mod x base ltac:(lia)). lia.
  - intros [= <- _]. by apply (IH _ Hd _ ds').
Qed.

(** The string at [i] of a buffer. *)
Definition string_at (buf : list Z) (i : Z) (t : list Z) : Prop := cstr (fun k => buf.[i + k]) t.

Lemma string_at_cons buf i c t : 0 <= i < zlen buf -> 0 < c < 256 -> string_at buf (i + 1) t -> string_at buf.[i := c] i (c :: t).
Proof.
  intros Hi Hc Ht. unfold string_at. apply cstr_cons. rewrite Z.add_0_r. split; [by rewrite aget_aset, Z.eqb_refl by lia |]. split; [done |]. unfold tail. eapply cstr_ext; [| exact Ht]. intros k Hk. cbn. rewrite aget_aset, (proj2 (Z.eqb_neq _ _)) by lia. f_equal. lia.
Qed.
Lemma digit_loop_spec f base n : (forall d, 0 <= d < base -> 0 < f d < 256) -> 2 <= base -> forall buf i x t, 0 <= x -> Z.of_nat (length (numeral n base x)) <= i + 1 -> i + 1 < zlen buf -> string_at buf (i + 1) t ->
  exists i' buf', digit_loop n f base buf i x = (i', buf') /\ i' = i - Z.of_nat (length (numeral n base x)) /\ zlen buf' = zlen buf /\ string_at buf' (i' + 1) ((f <$> numeral n base x) ++ t).
Proof.
  intros Hf Hb. induction n as [| n IH]; intros buf i x t Hx Hl Hi Ht; cbn [digit_loop numeral] in *; [exists i, buf; split; [done |]; split; [cbn; lia |]; by split |].
  destruct (x =? 0); [exists i, buf; split; [done |]; split; [cbn; lia |]; by split |]. rewrite length_app in *. cbn [length] in *. pose proof (Z.mod_pos_bound x base ltac:(lia)) as Hm.
  destruct (IH buf.[i := f (x mod base)] (i - 1) (x / base) (f (x mod base) :: t)) as (i' & buf' & -> & -> & Hlen & Hs).
  - apply Z.div_pos; lia.
  - lia.
  - rewrite zlen_aset. lia.
  - replace (i - 1 + 1) with i by lia. apply string_at_cons; [lia | by apply Hf | done].
  - exists (i - 1 - Z.of_nat (length (numeral n base (x / base)))), buf'. split; [done |]. split; [lia |]. rewrite zlen_aset in Hlen. split; [done |]. by rewrite fmap_app, <- app_assoc.
Qed.

(** * The buffer *)

(** A line feed is preceded by a carriage return. *)
Definition crlf (c : Z) : list Z := if c =? 10 then [13; 10] else [c].
Definition lines (t : list Z) : list Z := concat (crlf <$> t).
(** The text [t] has been printed: the buffer has its first 4095 characters. *)
Definition holds (o : out) (t : list Z) : Prop :=
  zlen o.(print_buf) = PRINT_BUF_MAX /\ o.(print_buf_i) = Z.min (zlen t) (PRINT_BUF_MAX - 1) /\ take (Z.to_nat o.(print_buf_i)) o.(print_buf) = take (Z.to_nat (PRINT_BUF_MAX - 1)) t.

Lemma lines_app t u : lines (t ++ u) = lines t ++ lines u.
Proof. unfold lines. by rewrite fmap_app, concat_app. Qed.
Lemma take_aset {A} (l : list A) i v : take (Z.to_nat i) l.[i := v] = take (Z.to_nat i) l.
Proof. unfold aset. by rewrite take_insert_ge. Qed.
Lemma put_holds o t c : holds o t -> holds (put o c) (t ++ [c]).
Proof.
  intros (Hl & Hi & Ht). unfold PRINT_BUF_MAX in *. pose proof (zlen_nonneg t). unfold put, holds, PRINT_BUF_MAX. cbv zeta. cbn [print_buf print_buf_i]. rewrite zlen_app. change (zlen [c]) with 1.
  destruct (Z.ltb_spec (print_buf_i o) (4096 - 1)) as [Hlt | Hge]; cbn [print_buf print_buf_i]; rewrite !zlen_aset; (split; [done |]); (split; [lia |]); rewrite take_aset.
  - replace (Z.to_nat (print_buf_i o + 1)) with (S (Z.to_nat (print_buf_i o))) by lia. rewrite (take_S_r _ _ c) by (unfold aset; apply list_lookup_insert_eq; unfold zlen in Hl; lia). rewrite take_aset, Ht. unfold zlen in *. rewrite !take_ge by (rewrite ?length_app; cbn; lia). done.
  - rewrite Ht. unfold zlen in *. by rewrite take_app_le by lia.
Qed.
Lemma prn_char_holds o t c : holds o t -> holds (prn_char o c) (t ++ crlf c).
Proof.
  intros H. unfold prn_char, crlf. destruct (Z.eqb_spec c 10) as [-> |]; [| by apply put_holds]. change [13; 10] with ([13] ++ [10]). rewrite app_assoc. by do 2 apply put_holds.
Qed.
Lemma prn_str_loop_holds s l : forall fuel i o t, cstr (tail s i) l -> (length l < fuel)%nat -> holds o t -> exists o', prn_str_loop fuel s i o = Ret o' /\ holds o' (t ++ lines l).
Proof.
  induction l as [| c l IH]; intros fuel i o t Hs Hf Ho; (destruct fuel as [| fuel]; [cbn in Hf; lia |]); cbn [prn_str_loop].
  - rewrite (cstr_stop _ _ Hs). exists o. split; [done |]. by rewrite app_nil_r.
  - apply cstr_next in Hs as (-> & Hc & Hs). rewrite (proj2 (Z.eqb_neq c 0)) by lia. destruct (IH fuel (i + 1) (prn_char o c) (t ++ crlf c) Hs) as (o' & E & H); [cbn in Hf; lia | by apply prn_char_holds |].
    exists o'. split; [done |]. change (c :: l) with ([c] ++ l). rewrite lines_app, app_assoc. unfold lines at 1. cbn [fmap list_fmap concat]. by rewrite app_nil_r.
Qed.
(** A call that prints [u]. *)
Definition prints (f : out -> outcome out) (u : list Z) : Prop := forall o t, holds o t -> exists o', f o = Ret o' /\ holds o' (t ++ lines u).

Lemma prn_str_prints fuel s l : cstr s l -> (length l < fuel)%nat -> prints (fun o => prn_str fuel o s) l.
Proof. intros Hs Hf o t Ho. apply prn_str_loop_holds; [by apply cstr_tail0 | done..]. Qed.
Lemma prn_char_prints c : prints (fun o => Ret (prn_char o c)) [c].
Proof. intros o t Ho. exists (prn_char o c). split; [done |]. unfold lines. cbn. rewrite app_nil_r. by apply prn_char_holds. Qed.
Lemma prints_bind f g u v : prints f u -> prints g v -> prints (fun o => o ← f o; g o) (u ++ v).
Proof. intros Hf Hg o t Ho. destruct (Hf o t Ho) as (o1 & -> & H1). cbn [mbind outcome_bind]. destruct (Hg o1 _ H1) as (o2 & -> & H2). exists o2. split; [done |]. by rewrite lines_app, app_assoc. Qed.
Lemma prn_nstr_prints s n : prints (fun o => Ret (prn_nstr o s (Z.of_nat n))) (s <$> seqZ 0 (Z.of_nat n)).
Proof.
  intros o t Ho. eexists. split; [done |]. unfold prn_nstr. rewrite Nat2Z.id. induction n as [| n IH]; [by rewrite app_nil_r |]. rewrite for_up_S, seqZ_S, fmap_app, lines_app, app_assoc. cbn [fmap list_fmap]. unfold lines at 2. cbn [fmap list_fmap concat]. rewrite app_nil_r. by apply prn_char_holds.
Qed.

(** * Numbers *)

Definition decimal (x : Z) : list Z := if x =? 0 then [48] else (fun d => d + 48) <$> numeral 20 10 x.
Definition signed_decimal (x : Z) : list Z := if x <? 0 then 45 :: decimal (- x) else decimal x.
Definition hexadecimal (x : Z) : list Z := [48; 120] ++ (if x =? 0 then [48] else base_digits <$> numeral 20 16 x).

Lemma numeral_length_bound n base x : 2 <= base -> forall k, 0 <= x < base ^ Z.of_nat k -> (length (numeral n base x) <= k)%nat.
Proof.
  intros Hb. revert x. induction n as [| n IH]; intros x k Hx; cbn [numeral]; [cbn; lia |]. destruct (Z.eqb_spec x 0); [cbn; lia |]. destruct k as [| k]; [change (base ^ Z.of_nat 0) with 1 in Hx; lia |]. rewrite Nat2Z.inj_succ, Z.pow_succ_r in Hx by lia.
  rewrite length_app. cbn. specialize (IH (x / base) k). rewrite Nat.add_1_r. apply le_n_S, IH. split; [apply Z.div_pos; lia | apply Z.div_lt_upper_bound; lia].
Qed.
Lemma base_digits_range d : 0 <= d < 16 -> 0 < base_digits d < 256.
Proof. intros Hd. pose proof (seqZ_forallb (fun d => (0 <? base_digits d) && (base_digits d <? 256)) 16 d ltac:(vm_compute; reflexivity) Hd) as H. cbv beta in H. lia. Qed.
Lemma string_at_zeros n i : 0 <= i < Z.of_nat n -> string_at (replicate n 0) i [].
Proof. intros Hi. unfold string_at. apply cstr_nil. unfold aget. by rewrite lookup_total_replicate_2 by lia. Qed.

Lemma prn_ui_prints fuel x : (20 < fuel)%nat -> is_u64 x -> prints (fun o => prn_ui fuel o x) (decimal x).
Proof.
  intros Hf Hx. unfold is_u64 in Hx. unfold prn_ui, decimal. destruct (x =? 0); [apply prn_char_prints |]. pose proof (numeral_length 20 10 x) as Hn.
  destruct (digit_loop_spec (fun d => d + 0x30) 10 20 ltac:(lia) ltac:(lia) (replicate 21 0) 19 x [] ltac:(lia) ltac:(lia) eq_refl (string_at_zeros 21 20 ltac:(lia))) as (i & buf & -> & -> & Hlen & Hs).
  rewrite app_nil_r in Hs. apply prn_str_prints; [exact Hs |]. rewrite length_fmap. lia.
Qed.
Lemma prn_i_prints fuel x : (20 < fuel)%nat -> - 2 ^ 63 <= x < 2 ^ 63 -> prints (fun o => prn_i fuel o x) (signed_decimal x).
Proof.
  intros Hf Hx. unfold prn_i, signed_decimal, decimal. destruct (Z.eqb_spec x 0) as [-> |]; [apply prn_char_prints |]. cbv zeta.
  assert ((if x <? 0 then u64 (0 - u64 x) else u64 x) = Z.abs x) as ->.
  { unfold u64, wrap. destruct (Z.ltb_spec x 0); [| rewrite Z.mod_small; lia]. rewrite Zminus_mod_idemp_r. rewrite Z.mod_small; lia. }
  pose proof (numeral_length_bound 20 10 (Z.abs x) ltac:(lia) 19 ltac:(lia)) as Hn.
  destruct (digit_loop_spec (fun d => d + 0x30) 10 20 ltac:(lia) ltac:(lia) (replicate 21 0) 19 (Z.abs x) [] ltac:(lia) ltac:(lia) eq_refl (string_at_zeros 21 20 ltac:(lia))) as (i & buf & -> & -> & Hlen & Hs).
  rewrite app_nil_r in Hs. change (zlen (replicate 21 0)) with 21 in Hlen. destruct (Z.ltb_spec x 0).
  - rewrite (proj2 (Z.eqb_neq (- x) 0)) by lia. replace (- x) with (Z.abs x) by lia. apply prn_str_prints; [apply string_at_cons; [lia | done | exact Hs] |]. cbn [length]. rewrite length_fmap. lia.
  - rewrite (Z.abs_eq x) in * by done. apply prn_str_prints; [exact Hs |]. rewrite length_fmap. lia.
Qed.
Lemma prn_x_prints fuel x : (20 < fuel)%nat -> is_u64 x -> prints (fun o => prn_x fuel o x) (hexadecimal x).
Proof.
  intros Hf Hx. unfold is_u64 in Hx. unfold prn_x, hexadecimal. destruct (x =? 0); [apply prn_str_prints; [by apply (cstr_lit "0x0"); repeat constructor | cbn; lia] |]. pose proof (numeral_length_bound 20 16 x ltac:(lia) 16 ltac:(lia)) as Hn.
  destruct (digit_loop_spec base_digits 16 20 base_digits_range ltac:(lia) (replicate 17 0) 15 x [] ltac:(lia) ltac:(lia) eq_refl (string_at_zeros 17 16 ltac:(lia))) as (i & buf & -> & -> & Hlen & Hs).
  rewrite app_nil_r in Hs. apply prints_bind; [apply prn_str_prints; [by apply (cstr_lit "0x"); repeat constructor | cbn; lia] |]. apply prn_str_prints; [exact Hs |]. rewrite length_fmap. lia.
Qed.

(** * Formats *)

Section formats.
Context (wide : bool) (m : mem).

(** What a conversion character and its arguments stand for, and the arguments that are left. *)
Inductive conversion : Z -> list Z -> list Z -> list Z -> Prop :=
| conv_s v args t : v <> 0 -> cstr (str m v) t -> conversion 115 (v :: args) t args
| conv_s_null args : conversion 115 (0 :: args) (bytes "(null)") args
| conv_S v (n : nat) args : v <> 0 -> Z.of_nat n < 2 ^ (if wide then 64 else 32) -> conversion 83 (v :: Z.of_nat n :: args) (load_bytes m v n) args
| conv_S_null v args : conversion 83 (0 :: v :: args) (bytes "(null)") args
| conv_d x args : - 2 ^ 31 <= x < 2 ^ 31 -> conversion 100 (x :: args) (signed_decimal x) args
| conv_u x args : 0 <= x < 2 ^ 32 -> conversion 117 (x :: args) (decimal x) args
| conv_x x args : 0 <= x < 2 ^ 32 -> conversion 120 (x :: args) (hexadecimal x) args
| conv_D x args : - 2 ^ 63 <= x < 2 ^ 63 -> conversion 68 (x :: args) (signed_decimal x) args
| conv_U x args : is_u64 x -> conversion 85 (x :: args) (decimal x) args
| conv_X x args : is_u64 x -> conversion 88 (x :: args) (hexadecimal x) args
| conv_p x args : 0 <= x < 2 ^ (if wide then 64 else 32) -> conversion 112 (x :: args) (hexadecimal x) args
| conv_c c args : is_byte c -> conversion 99 (c :: args) [c] args
| conv_hash v t u args : cstr (str m v) (t ++ 35 :: u) -> 35 ∉ u -> zlen (t ++ 35 :: u) < 2 ^ 31 -> conversion 35 (v :: args) t args
| conv_no_hash v t args : cstr (str m v) t -> 35 ∉ t -> zlen t < 2 ^ 31 -> conversion 35 (v :: args) t args
| conv_other c args : c ∉ bytes "sSduxDUXpc#" -> c <> 0 -> conversion c args [63] args.
Inductive rendering : list Z -> list Z -> list Z -> Prop :=
| render_end args : rendering [] args []
| render_char c f args t : c <> 37 -> rendering f args t -> rendering (c :: f) args (c :: t)
| render_conv c f args t args' u : conversion c args t args' -> rendering f args' u -> rendering (37 :: c :: f) args (t ++ u).
End formats.

Lemma last_hash_found s k n : 0 <= k < Z.of_nat n -> s k = 35 -> (forall j, k < j < Z.of_nat n -> s j <> 35) -> last_hash n s = Some k.
Proof.
  intros Hk Hs Hj. induction n as [| n IH]; [lia |]. cbn [last_hash]. cbv zeta. destruct (decide (k = Z.of_nat n)) as [-> |]; [by rewrite (proj2 (Z.eqb_eq _ _) Hs) |].
  rewrite (proj2 (Z.eqb_neq _ _)) by (apply Hj; lia). apply IH; [lia |]. intros j H. apply Hj. lia.
Qed.
Lemma last_hash_none s n : (forall j, 0 <= j < Z.of_nat n -> s j <> 35) -> last_hash n s = None.
Proof.
  intros Hj. induction n as [| n IH]; [done |]. cbn [last_hash]. cbv zeta. rewrite (proj2 (Z.eqb_neq _ _)) by (apply Hj; lia). apply IH. intros j H. apply Hj. lia.
Qed.
Lemma cstr_lookup s l j : cstr s l -> 0 <= j < zlen l -> l !! Z.to_nat j = Some (s j).
Proof.
  intros [_ Ha _] Hj. destruct (lookup_lt_is_Some_2 l (Z.to_nat j)) as [b E]; [unfold zlen in Hj; lia |]. rewrite E. f_equal. rewrite <- (Ha _ _ E). f_equal. lia.
Qed.
Lemma i32_length n : 0 <= n < 2 ^ 31 -> i32 n = n.
Proof. intros Hn. unfold i32, wrap. rewrite Z.mod_small; lia. Qed.

(** A call that prints [u] and leaves the arguments [rest]. *)
Definition converts (f : out -> outcome (out * list Z)) (u rest : list Z) : Prop := forall o t, holds o t -> exists o', f o = Ret (o', rest) /\ holds o' (t ++ lines u).
Lemma prints_converts f u rest : prints f u -> converts (fun o => o ← f o; Ret (o, rest)) u rest.
Proof. intros Hf o t Ho. destruct (Hf o t Ho) as (o' & -> & H). by exists o'. Qed.
Lemma prints_converts_ret f u rest : prints (fun o => Ret (f o)) u -> converts (fun o => Ret (f o, rest)) u rest.
Proof. intros Hf o t Ho. destruct (Hf o t Ho) as (o' & [= ->] & H). by exists o'. Qed.

Lemma hash_prints fuel wide m v t args : (exists l, cstr (str m v) l /\ (length l < fuel)%nat /\ zlen l < 2 ^ 31 /\ ((exists u, l = t ++ 35 :: u /\ 35 ∉ u) \/ l = t /\ 35 ∉ t)) ->
  converts (convert fuel wide m 35 (v :: args)) t args.
Proof.
  intros (l & Hs & Hf & Hz & H) o tt Ho. unfold convert. cbn [va_arg hd tl Z.eqb Pos.eqb]. rewrite (strlen_spec fuel _ l Hs) by lia. cbn [mbind outcome_bind]. pose proof (zlen_nonneg l). rewrite i32_length by lia. destruct H as [(u & -> & Hu) | [-> Ht]].
  - rewrite (last_hash_found _ (zlen t)).
    + destruct (prn_nstr_prints (str m v) (length t) o tt Ho) as (o' & E & H1). exists o'. change (zlen t) with (Z.of_nat (length t)). injection E as ->. split; [done |].
      assert (str m v <$> seqZ 0 (Z.of_nat (length t)) = t) as <-; [| done]. apply list_eq. intros i. destruct (decide (i < length t)%nat) as [Hi | Hi].
      * rewrite list_lookup_fmap, (lookup_seqZ_lt 0 _ i) by lia. cbn. symmetry. rewrite <- (lookup_app_l t (35 :: u)) by done. rewrite <- (Nat2Z.id i) at 1. rewrite Z.add_0_l. apply cstr_lookup; [done |]. rewrite zlen_app. unfold zlen. cbn. lia.
      * rewrite !lookup_ge_None_2; [done | lia |]. rewrite length_fmap, length_seqZ. lia.
    + rewrite zlen_app, zlen_cons in *. pose proof (zlen_nonneg t). pose proof (zlen_nonneg u). lia.
    + pose proof (cstr_lookup _ _ (zlen t) Hs) as E. rewrite zlen_app, zlen_cons in E. pose proof (zlen_nonneg t). pose proof (zlen_nonneg u). specialize (E ltac:(lia)). unfold zlen in E at 1. rewrite Nat2Z.id, list_lookup_middle in E by done. congruence.
    + intros j Hj E. pose proof (zlen_nonneg t). pose proof (cstr_lookup _ _ j Hs ltac:(lia)) as El. rewrite E in El. rewrite lookup_app_r in El by (unfold zlen in *; lia). destruct (Z.to_nat j - length t)%nat as [| k] eqn:Ek; [unfold zlen in *; lia |]. cbn in El. by apply list_elem_of_lookup_2 in El.
  - rewrite last_hash_none.
    + destruct (prn_str_prints fuel (str m v) t Hs Hf o tt Ho) as (o' & -> & H1). by exists o'.
    + intros j Hj E. pose proof (cstr_lookup _ _ j Hs ltac:(lia)) as El. rewrite E in El. by apply list_elem_of_lookup_2 in El.
Qed.
Lemma conversion_converts wide m c args t rest : conversion wide m c args t rest -> exists k, forall fuel, (k <= fuel)%nat -> converts (convert fuel wide m c args) t rest.
Proof.
  destruct 1 as [v args t Hv Hs | args | v n args Hv Hn | v args | x args Hx | x args Hx | x args Hx | x args Hx | x args Hx | x args Hx | x args Hx | c args Hc | v t u args Hs Hu Hz | v t args Hs Hu Hz | c args Hc H0].
  - exists (S (length t)). intros fuel Hf. unfold convert. cbn [va_arg hd tl]. rewrite (proj2 (Z.eqb_neq v 0)) by done. apply prints_converts, prn_str_prints; [done | lia].
  - exists 10%nat. intros fuel Hf. apply prints_converts, prn_str_prints; [apply (cstr_lit "(null)"); repeat constructor | cbn; lia].
  - exists O. intros fuel _. unfold convert. cbn [va_arg hd tl]. rewrite (proj2 (Z.eqb_neq v 0)) by done. cbn [Z.eqb Pos.eqb]. assert ((if wide then u64 (Z.of_nat n) else u32 (Z.of_nat n)) = Z.of_nat n) as -> by (destruct wide; unfold u64, u32, wrap; apply Z.mod_small; lia).
    apply prints_converts_ret. assert (load_bytes m v n = str m v <$> seqZ 0 (Z.of_nat n)) as ->; [| apply prn_nstr_prints]. transitivity (m <$> seqZ (v + 0) (Z.of_nat n)); [by rewrite Z.add_0_r |]. by rewrite <- fmap_add_seqZ, <- list_fmap_compose.
  - exists 10%nat. intros fuel Hf. apply prints_converts, prn_str_prints; [apply (cstr_lit "(null)"); repeat constructor | cbn; lia].
  - exists 21%nat. intros fuel Hf. unfold convert. cbn [va_arg hd tl Z.eqb Pos.eqb]. assert (i32 x = x) as -> by (unfold i32, wrap; rewrite Z.mod_small; lia). apply prints_converts, prn_i_prints; lia.
  - exists 21%nat. intros fuel Hf. unfold convert. cbn [va_arg hd tl Z.eqb Pos.eqb]. rewrite u32_small by lia. apply prints_converts, prn_ui_prints; [lia |]. unfold is_u64. lia.
  - exists 21%nat. intros fuel Hf. unfold convert. cbn [va_arg hd tl Z.eqb Pos.eqb]. rewrite u32_small by lia. apply prints_converts, prn_x_prints; [lia |]. unfold is_u64. lia.
  - exists 21%nat. intros fuel Hf. unfold convert. cbn [va_arg hd tl Z.eqb Pos.eqb]. assert (i64 x = x) as -> by (unfold i64, wrap; rewrite Z.mod_small; lia). apply prints_converts, prn_i_prints; lia.
  - exists 21%nat. intros fuel Hf. unfold convert. cbn [va_arg hd tl Z.eqb Pos.eqb]. rewrite u64_small by apply Hx. apply prints_converts, prn_ui_prints; [lia | done].
  - exists 21%nat. intros fuel Hf. unfold convert. cbn [va_arg hd tl Z.eqb Pos.eqb]. rewrite u64_small by apply Hx. apply prints_converts, prn_x_prints; [lia | done].
  - exists 21%nat. intros fuel Hf. unfold convert. cbn [va_arg hd tl Z.eqb Pos.eqb]. assert ((if wide then u64 x else u32 x) = x) as -> by (destruct wide; unfold u64, u32, wrap; apply Z.mod_small; lia). apply prints_converts, prn_x_prints; [lia |]. unfold is_u64. destruct wide; lia.
  - exists O. intros fuel _. unfold convert. cbn [va_arg hd tl Z.eqb Pos.eqb]. rewrite u8_small by apply Hc. apply prints_converts_ret, prn_char_prints.
  - exists (S (length (t ++ 35 :: u))). intros fuel Hf. apply hash_prints. exists (t ++ 35 :: u). split; [done |]. split; [lia |]. split; [done |]. left. by exists u.
  - exists (S (length t)). intros fuel Hf. apply hash_prints. exists t. split; [done |]. split; [lia |]. split; [done |]. by right.
  - exists O. intros fuel _. unfold convert. destruct (va_arg args) as [v args1]. assert (forall d, d ∈ bytes "sSduxDUXpc#" -> (c =? d) = false) as E by (intros d Hd; apply Z.eqb_neq; intros ->; done). rewrite !E by (vm_compute; set_solver). apply prints_converts_ret, prn_char_prints.
Qed.
Lemma format_loop_spec wide m fmt f args t : rendering wide m f args t -> forall p, cstr (tail fmt p) f -> exists k, forall fuel, (k <= fuel)%nat -> prints (fun o => format_loop fuel wide m fmt p args o) t.
Proof.
  induction 1 as [args | c f args t Hc Hr IH | c f args t args' u Hc Hr IH]; intros p Hs.
  - exists 1%nat. intros [| fuel] Hf; [lia |]. intros o l Ho. cbn [format_loop]. rewrite (cstr_stop _ _ Hs). exists o. split; [done |]. by rewrite app_nil_r.
  - apply cstr_next in Hs as (E & H0 & Hs). destruct (IH (p + 1) Hs) as [k Hk]. exists (S k). intros [| fuel] Hf; [lia |]. intros o l Ho. cbn [format_loop]. rewrite E, (proj2 (Z.eqb_neq c 0)), (proj2 (Z.eqb_neq c 37)) by lia.
    exact (prints_bind _ _ [c] t (prn_char_prints c) (Hk fuel ltac:(lia)) o l Ho).
  - apply cstr_next in Hs as (E & _ & Hs). apply cstr_next in Hs as (E2 & _ & Hs). replace (p + 1 + 1) with (p + 2) in Hs by lia. destruct (IH _ Hs) as [k1 H1]. destruct (conversion_converts _ _ _ _ _ _ Hc) as [k2 H2].
    exists (S (k1 + k2)). intros [| fuel] Hf; [lia |]. intros o l Ho. cbn [format_loop]. rewrite E, E2. destruct (H2 fuel ltac:(lia) o l Ho) as (o1 & E1 & Ho1). cbn [Z.eqb Pos.eqb negb]. rewrite E1. cbn [mbind outcome_bind].
    destruct (H1 fuel ltac:(lia) o1 _ Ho1) as (o2 & -> & Ho2). exists o2. split; [done |]. by rewrite lines_app, app_assoc.
Qed.


(** A number that has been printed is read back. *)
Lemma decimal_digits x : is_u64 x -> digits 10 (decimal x) = (if x =? 0 then [0] else numeral 20 10 x).
Proof.
  intros Hx. unfold decimal. destruct (x =? 0); [done |]. pose proof (numeral_digits 20 10 x ltac:(lia) ltac:(apply Hx)) as HF. induction HF as [| d ds Hd HF IH]; [done |]. cbn [fmap list_fmap digits].
  assert (digit_to_int (schar (d + 48)) = d) as ->; [| rewrite (proj2 (Z.eqb_neq d (-1))), Z.geb_leb, (proj2 (Z.leb_gt _ _)) by lia; cbn [orb]; by rewrite IH].
  pose proof (seqZ_forallb (fun d => digit_to_int (schar (d + 48)) =? d) 10 d ltac:(vm_compute; reflexivity) Hd) as H. cbv beta in H. lia.
Qed.
Theorem print_read x s fuel : is_u64 x -> cstr s (decimal x) -> (20 <= fuel)%nat -> strtoui fuel s 10 = Ret (x, zlen (decimal x)).
Proof.
  intros Hx Hs Hf. assert (length (decimal x) <= 20)%nat as Hl by (unfold decimal; case_if; [cbn; lia | rewrite length_fmap; apply numeral_length]). pose proof (strtoui_spec fuel s 10 (decimal x) ltac:(lia) Hs ltac:(lia)) as H. unfold strtoui_post in H. rewrite decimal_digits in H by done.
  assert (value 10 0 (if x =? 0 then [0] else numeral 20 10 x) = x) as E by (destruct (Z.eqb_spec x 0) as [-> |]; [done |]; apply numeral_value; [lia | unfold is_u64 in Hx; lia]). rewrite E in H. rewrite (proj2 (Z.ltb_lt x _)) in H by apply Hx. rewrite H. do 2 f_equal. unfold decimal. destruct (x =? 0); [done |]. unfold zlen. rewrite length_fmap. lia.
Qed.
(** A format that ends with a percent sign: the terminator is taken for a conversion, and what is in
    memory behind the format is printed. *)
Lemma vprint_past_end : let fmt := fun i => (bytes "100%" ++ [0] ++ bytes "secret" ++ [0]).[i] in
  cstr fmt (bytes "100%") /\ vprint 50 true (fun _ => 0) (replicate 4096 0) fmt [] = Ret (bytes "100?secret").
Proof. cbv zeta. split; [apply (cstr_prefix (bytes "100%") (bytes "secret" ++ [0])); repeat constructor | vm_compute; reflexivity]. Qed.

(** * Trailing zeros and resolutions *)

(** [get_trailing_zeros]: the number of factors 2. *)
Lemma zeros_loop_spec n : forall val i, 0 <= val < 2 ^ Z.of_nat n -> val <> 0 -> exists k, zeros_loop n val i = i + k /\ 0 <= k /\ (2 ^ k | val) /\ Z.odd (val / 2 ^ k) = true.
Proof.
  induction n as [| n IH]; intros val i Hv H0; [change (2 ^ Z.of_nat 0) with 1 in Hv; lia |]. cbn [zeros_loop]. rewrite Nat2Z.inj_succ, Z.pow_succ_r in Hv by lia. change 1 with (Z.ones 1) at 1. rewrite Z.land_ones by lia. change (2 ^ 1) with 2. rewrite Zmod_odd.
  destruct (Z.odd val) eqn:Eo; cbn [Z.eqb negb]; [exists 0; rewrite Z.pow_0_r, Z.div_1_r, Z.add_0_r; repeat split; [done | apply Z.divide_1_l | done] |].
  rewrite Z.shiftr_div_pow2 by lia. change (2 ^ 1) with 2. assert (val = 2 * (val / 2)) as E by (pose proof (Z.div_mod val 2 ltac:(lia)); rewrite Zmod_odd, Eo in *; lia).
  destruct (IH (val / 2) (i + 1)) as (k & -> & Hk & Hd & Hodd); [lia | lia |]. exists (k + 1). rewrite Z.pow_add_r by lia. change (2 ^ 1) with 2. split; [lia |]. split; [lia |]. rewrite (Z.mul_comm (2 ^ k)). split; [rewrite E; by apply Z.mul_divide_mono_l |].
  rewrite <- Z.div_div by lia. exact Hodd.
Qed.
Theorem get_trailing_zeros_correct val : 0 < val < 2 ^ 64 -> exists k, get_trailing_zeros val = k /\ 0 <= k /\ (2 ^ k | val) /\ Z.odd (val / 2 ^ k) = true.
Proof. intros Hv. destruct (zeros_loop_spec 64 val 0 ltac:(change (Z.of_nat 64) with 64; lia) ltac:(lia)) as (k & E & H). exists k. split; [exact E | exact H]. Qed.

(** A character that ends a number. *)
Definition separator (c : Z) : Prop := 0 < c < 256 /\ digits 10 [c] = [].
Lemma digits_stop l c r : Forall (fun d => digits 10 [d] <> []) l -> separator c -> digits 10 (l ++ c :: r) = digits 10 l.
Proof.
  intros Hl [_ Hc]. induction Hl as [| d l Hd Hl IH]; cbn [app digits] in *; [destruct (_ || _); done |]. destruct (_ || _); [done |]. by rewrite IH.
Qed.
Lemma decimal_chars x : is_u64 x -> Forall (fun d => digits 10 [d] <> []) (decimal x).
Proof.
  intros Hx. unfold decimal. destruct (x =? 0); [repeat constructor; done |]. apply Forall_fmap. eapply Forall_impl; [apply (numeral_digits 20 10 x); [lia | apply Hx] |]. intros d Hd.
  pose proof (seqZ_forallb (fun d => match digits 10 [d + 48] with [] => false | _ => true end) 10 d ltac:(vm_compute; reflexivity) Hd) as H. cbv beta in H. cbn [compose]. by destruct (digits 10 [d + 48]).
Qed.
Lemma decimal_length x : 0 < zlen (decimal x) <= 20 \/ ~ is_u64 x.
Proof.
  destruct (decide (0 <= x /\ x < 2 ^ 64)) as [Hx | Hx]; [left | right; unfold is_u64; lia]. unfold decimal, zlen. destruct (Z.eqb_spec x 0); [cbn; lia |]. rewrite length_fmap. pose proof (numeral_length 20 10 x). split; [| lia].
  pose proof (numeral_value 20 10 x ltac:(lia) ltac:(lia)) as Hv. destruct (numeral 20 10 x); [cbn in Hv; lia | cbn; lia].
Qed.
Lemma read_number x s p r fuel : is_u64 x -> cstr (tail s p) (decimal x ++ r) -> r = [] \/ (exists c r', r = c :: r' /\ separator c) -> (length (decimal x ++ r) <= fuel)%nat -> strtoui fuel (tail s p) 10 = Ret (x, zlen (decimal x)).
Proof.
  intros Hx Hs Hr Hf. pose proof (strtoui_spec fuel (tail s p) 10 (decimal x ++ r) ltac:(lia) Hs Hf) as H. assert (digits 10 (decimal x ++ r) = digits 10 (decimal x)) as E by (destruct Hr as [-> | (c & r' & -> & Hc)]; [by rewrite app_nil_r | apply digits_stop; [by apply decimal_chars | done]]).
  unfold strtoui_post in H. rewrite E, decimal_digits in H by done. assert (value 10 0 (if x =? 0 then [0] else numeral 20 10 x) = x) as Ev by (destruct (Z.eqb_spec x 0) as [-> |]; [done |]; apply numeral_value; [lia | unfold is_u64 in Hx; lia]).
  rewrite Ev, (proj2 (Z.ltb_lt x _)) in H by apply Hx. rewrite H. do 2 f_equal. unfold decimal. destruct (x =? 0); [done |]. unfold zlen. rewrite length_fmap. lia.
Qed.
(** Width and height, and the bits of a pixel or none of them, as [vprint] would print them. *)
Theorem parse_resolution_correct buf w h b x1 x2 fuel : is_u64 w -> is_u64 h -> is_u64 b -> w <> 0 -> h <> 0 -> b <> 0 -> separator x1 -> separator x2 -> (63 <= fuel)%nat ->
  (cstr buf (decimal w ++ x1 :: decimal h) -> parse_resolution fuel true buf = Ret (Some (w, h, 32))) /\
  (cstr buf (decimal w ++ x1 :: decimal h ++ x2 :: decimal b) -> parse_resolution fuel true buf = Ret (Some (w, h, b))).
Proof.
  intros Hw Hh Hb Hw0 Hh0 Hb0 H1 H2 Hf. destruct (decimal_length w) as [Lw |]; [| done]. destruct (decimal_length h) as [Lh |]; [| done]. destruct (decimal_length b) as [Lb |]; [| done]. unfold zlen in Lw, Lh, Lb. unfold parse_resolution. split; intros Hs; cbn [resolution_loop].
  - apply cstr_tail0 in Hs. rewrite (read_number w buf 0 (x1 :: decimal h)) by (done || (right; by eexists _, _) || (rewrite length_app; cbn; lia)). cbn [mbind outcome_bind]. rewrite (proj2 (Z.eqb_neq (zlen (decimal w)) 0)) by (unfold zlen; lia).
    apply cstr_app in Hs. apply cstr_next in Hs as (E & Hx & Hs). rewrite E, (proj2 (Z.eqb_neq x1 0)) by lia. rewrite <- (app_nil_r (decimal h)) in Hs. rewrite (read_number h buf _ []) by (done || (by left) || (rewrite length_app; cbn; lia)). cbn [mbind outcome_bind]. rewrite (proj2 (Z.eqb_neq (zlen (decimal h)) 0)) by (unfold zlen; lia).
    apply cstr_app, cstr_stop in Hs. rewrite Hs. cbn [Z.eqb mbind outcome_bind]. change ([0; 0; 0].[0 := w].[0 + 1 := h]) with [w; h; 0]. change ([w; h; 0].[0]) with w. change ([w; h; 0].[1]) with h. by rewrite (proj2 (Z.eqb_neq w 0)), (proj2 (Z.eqb_neq h 0)) by done.
  - apply cstr_tail0 in Hs. rewrite (read_number w buf 0 (x1 :: decimal h ++ x2 :: decimal b)) by (done || (right; by eexists _, _) || (rewrite !length_app; cbn; rewrite length_app; cbn; lia)). cbn [mbind outcome_bind]. rewrite (proj2 (Z.eqb_neq (zlen (decimal w)) 0)) by (unfold zlen; lia).
    apply cstr_app in Hs. apply cstr_next in Hs as (E & Hx & Hs). rewrite E, (proj2 (Z.eqb_neq x1 0)) by lia. rewrite (read_number h buf _ (x2 :: decimal b)) by (done || (right; by eexists _, _) || (rewrite !length_app; cbn; lia)). cbn [mbind outcome_bind]. rewrite (proj2 (Z.eqb_neq (zlen (decimal h)) 0)) by (unfold zlen; lia).
    apply cstr_app in Hs. apply cstr_next in Hs as (E2 & Hx2 & Hs). rewrite E2, (proj2 (Z.eqb_neq x2 0)) by lia. rewrite <- (app_nil_r (decimal b)) in Hs. rewrite (read_number b buf _ []) by (done || (by left) || (rewrite length_app; cbn; lia)). cbn [mbind outcome_bind]. rewrite (proj2 (Z.eqb_neq (zlen (decimal b)) 0)) by (unfold zlen; lia).
    apply cstr_app, cstr_stop in Hs. rewrite Hs. cbn [Z.eqb mbind outcome_bind]. change ([0; 0; 0].[0 := w].[0 + 1 := h].[0 + 1 + 1 := b]) with [w; h; b]. change ([w; h; b].[0]) with w. change ([w; h; b].[1]) with h. change ([w; h; b].[2]) with b. by rewrite (proj2 (Z.eqb_neq w 0)), (proj2 (Z.eqb_neq h 0)), (proj2 (Z.eqb_neq b 0)) by done.
Qed.
