(* ===== verification/Acpi.v ===== *)
(** Firmware tables, [common/lib/acpi.c]: where they are, and their place in the memory map.

    Tables are read in physical memory; a pointer is its address and [None] is [NULL]. [wide] says
    whether a pointer has 64 bits: the builds for i386 have 32. The configuration table of UEFI and the
    sizes and constants of its headers, which are not in the tree, are parameters. *)

From S2P Require Import Prelude Libc Guid Pmm.
Import Libc Guid Pmm.

Module Acpi.

(** A number in memory, and the conversion to [uintptr_t]. *)
Definition num (m : mem) (a : Z) (n : nat) : Z := of_le (load_bytes m a n).
Definition uintptr (wide : bool) (x : Z) : Z := if wide then u64 x else u32 x.

Definition acpi_checksum (m : mem) (ptr size : Z) : Z := for_up (Z.to_nat size) 0 (fun i sum => u8 (sum + m (ptr + i))) 0.

(** The fields of [struct rsdp], of [struct sdt] and of the SMBIOS entry points. *)
Definition sizeof_rsdp : Z := 36.
Definition rsdp_rev (m : mem) (p : Z) : Z := m (p + 15).
Definition rsdt_addr (m : mem) (p : Z) : Z := num m (p + 16) 4.
Definition rsdp_len (m : mem) (p : Z) : Z := num m (p + 20) 4.
Definition xsdt_addr (m : mem) (p : Z) : Z := num m (p + 24) 8.
Definition sizeof_sdt : Z := 36.
Definition sdt_length (m : mem) (p : Z) : Z := num m (p + 4) 4.
Definition length_32 (m : mem) (p : Z) : Z := m (p + 5).
Definition table_length (m : mem) (p : Z) : Z := num m (p + 22) 2.
Definition table_address_32 (m : mem) (p : Z) : Z := num m (p + 24) 4.
Definition length_64 (m : mem) (p : Z) : Z := m (p + 6).
Definition table_maximum_size (m : mem) (p : Z) : Z := num m (p + 12) 4.
Definition table_address_64 (m : mem) (p : Z) : Z := num m (p + 16) 8.

(** * BIOS *)

Definition ebda_get (m : mem) : Z :=
  let ebda := Z.shiftl (num m 0x40e 2) 4 in
  if (ebda <? 0x80000) || (ebda >=? 0xa0000) then 0x80000 else ebda.

Fixpoint rsdp_loop (fuel : nat) (m : mem) (ebda i : Z) : outcome (option Z) :=
  match fuel with
  | O => Diverge
  | S fuel =>
      if i <? 0x100000 then
        let i := if i =? ebda + 1024 then 0xe0000 else i in
        if (memcmp (str m i) (lit "RSD PTR ") 8 =? 0) && (acpi_checksum m i 20 =? 0) then Ret (Some i)
        else rsdp_loop fuel m ebda (i + 16)
      else Ret None
  end.
Definition acpi_get_rsdp_bios (m : mem) : outcome (option Z) := let ebda := ebda_get m in rsdp_loop (Z.to_nat 8257) m ebda ebda.

Fixpoint smbios_scan (n : nat) (m : mem) (anchor_str : string) (length : mem -> Z -> Z) (i : Z) : option Z :=
  match n with
  | O => None
  | S n =>
      if (memcmp (str m i) (lit anchor_str) (zlen (bytes anchor_str)) =? 0) && (acpi_checksum m i (length m i) =? 0) then Some i
      else smbios_scan n m anchor_str length (i + 16)
  end.
Definition acpi_get_smbios_bios (m : mem) : option Z * option Z :=
  (smbios_scan 4096 m "_SM_" length_32 0xf0000, smbios_scan 4096 m "_SM3_" length_64 0xf0000).

(** * UEFI *)

Record efi_configuration_table := { VendorGuid : list Z; VendorTable : Z }.
Class EfiHeaders := {
  ACPI_20_TABLE_GUID : list Z; ACPI_TABLE_GUID : list Z; SMBIOS_TABLE_GUID : list Z; SMBIOS3_TABLE_GUID : list Z;
  EfiRuntimeServicesCode : Z; EfiRuntimeServicesData : Z;
  sizeof_system_table : Z; sizeof_runtime_services : Z; sizeof_configuration_table : Z }.

Section uefi.
Context `{!EfiHeaders}.

Fixpoint rsdp_tables (m : mem) (l : list efi_configuration_table) (rsdp : option Z) : option Z :=
  match l with
  | [] => rsdp
  | cur_table :: l =>
      let is_xsdp := bool_decide (cur_table.(VendorGuid) = ACPI_20_TABLE_GUID) in
      let is_rsdp := bool_decide (cur_table.(VendorGuid) = ACPI_TABLE_GUID) in
      if negb is_xsdp && negb is_rsdp then rsdp_tables m l rsdp
      else if is_xsdp && negb (acpi_checksum m cur_table.(VendorTable) sizeof_rsdp =? 0)
           || is_rsdp && negb (acpi_checksum m cur_table.(VendorTable) 20 =? 0) then rsdp_tables m l rsdp
      else if is_xsdp then Some cur_table.(VendorTable)
      else rsdp_tables m l (Some cur_table.(VendorTable))
  end.
Definition acpi_get_rsdp_uefi (m : mem) (l : list efi_configuration_table) : option Z := rsdp_tables m l None.

(** The first table with an identifier whose bytes add up to 0. *)
Fixpoint first_table (m : mem) (guid : list Z) (length : mem -> Z -> Z) (l : list efi_configuration_table) : option Z :=
  match l with
  | [] => None
  | cur_table :: l =>
      if negb (bool_decide (cur_table.(VendorGuid) = guid)) then first_table m guid length l
      else if negb (acpi_checksum m cur_table.(VendorTable) (length m cur_table.(VendorTable)) =? 0) then first_table m guid length l
      else Some cur_table.(VendorTable)
  end.
Definition acpi_get_rsdp_v1_uefi (m : mem) (l : list efi_configuration_table) : option Z := first_table m ACPI_TABLE_GUID (fun _ _ => 20) l.
Definition acpi_get_smbios_uefi (m : mem) (l : list efi_configuration_table) : option Z * option Z :=
  (first_table m SMBIOS_TABLE_GUID length_32 l, first_table m SMBIOS3_TABLE_GUID length_64 l).
End uefi.

(** * Tables *)

Definition acpi_get_rsdp_v1_bios (m : mem) (rsdp : option Z) : option Z := p ← rsdp; if rsdp_rev m p <? 2 then Some p else None.
Definition acpi_get_rsdp_v2 (m : mem) (rsdp : option Z) : option Z := p ← rsdp; if rsdp_rev m p >=? 2 then Some p else None.

(** [ptrs_start\[i\]], of 4 or 8 bytes. *)
Definition ptr_at (m : mem) (rsdt entry_size i : Z) : Z := num m (rsdt + sizeof_sdt + i * entry_size) (Z.to_nat entry_size).
Fixpoint table_loop (n : nat) (wide : bool) (m : mem) (rsdt entry_size : Z) (signature : string) (index i cnt : Z) : option Z :=
  match n with
  | O => None
  | S n =>
      let ptr := uintptr wide (ptr_at m rsdt entry_size i) in
      if ptr =? 0 then table_loop n wide m rsdt entry_size signature index (i + 1) cnt
      else if (memcmp (str m ptr) (lit signature) 4 =? 0) && (acpi_checksum m ptr (sdt_length m ptr) =? 0) then
        if cnt =? index then Some ptr else table_loop n wide m rsdt entry_size signature index (i + 1) (cnt + 1)
      else table_loop n wide m rsdt entry_size signature index (i + 1) cnt
  end.
Definition acpi_get_table (wide : bool) (m : mem) (rsdp : option Z) (signature : string) (index : Z) : option Z :=
  rsdp ← rsdp;
  let use_xsdt := (rsdp_rev m rsdp >=? 2) && negb (xsdt_addr m rsdp =? 0) && (wide || (xsdt_addr m rsdp <=? 2 ^ 32 - 1)) in
  let rsdt := uintptr wide (if use_xsdt then xsdt_addr m rsdp else rsdt_addr m rsdp) in
  if rsdt =? 0 then None
  else if sdt_length m rsdt <? sizeof_sdt then None
  else
    let entry_size := if use_xsdt then 8 else 4 in
    table_loop (Z.to_nat ((sdt_length m rsdt - sizeof_sdt) / entry_size)) wide m rsdt entry_size signature index 0 0.

(** * The memory map *)

Fixpoint padding_loop (l : list entry) (base top : Z) : bool :=
  match l with
  | [] => true
  | e :: l =>
      match CHECKED_ADD e.(e_base) e.(e_length) with
      | None => padding_loop l base top
      | Some entry_top =>
          if (e.(e_base) >=? top) || (entry_top <=? base) then padding_loop l base top
          else if negb (e.(e_type) =? MEMMAP_USABLE) && negb (e.(e_type) =? MEMMAP_RESERVED) then false
          else padding_loop l base top
      end
  end.
Definition acpi_padding_is_safe (l : list entry) (base length : Z) : bool :=
  if length =? 0 then true
  else match CHECKED_ADD base length with None => false | Some top => padding_loop l base top end.

(** [(uint32_t)-1]: the table has its own length. *)
Definition own_length : Z := 2 ^ 32 - 1.
Definition map_single_table (wide : bool) (st : state) (addr len : Z) : outcome state :=
  if negb wide && (addr >=? 0x100000000) then Ret st
  else
    let length := if negb (len =? own_length) then len else num st.(ram) (uintptr wide (addr + 4)) 4 in
    let aligned_base := ALIGN_DOWN addr 4096 in
    let top := u64 (addr + length) in
    aligned_top ← or_panic (ALIGN_UP top 4096);
    let aligned_base := if negb (acpi_padding_is_safe st.(memmap) aligned_base (addr - aligned_base)) then addr else aligned_base in
    let aligned_top := if negb (acpi_padding_is_safe st.(memmap) top (u64 (aligned_top - top))) then top else aligned_top in
    let memmap_type := pmm_check_type st addr in
    if negb (memmap_type =? MEMMAP_ACPI_RECLAIMABLE) && negb (memmap_type =? MEMMAP_ACPI_NVS) then
      '(_, st) ← memmap_alloc_range st aligned_base (u64 (aligned_top - aligned_base)) MEMMAP_RESERVED_MAPPED 0 true false true;
      Ret st
    else Ret st.

(** The tables that an RSDT or XSDT points to. *)
Fixpoint map_entries (n : nat) (wide : bool) (rsdt entry_size i : Z) (st : state) : outcome state :=
  match n with
  | O => Ret st
  | S n =>
      let entry := ptr_at st.(ram) rsdt entry_size i in
      if entry =? 0 then map_entries n wide rsdt entry_size (i + 1) st
      else st ← map_single_table wide st (uintptr wide entry) own_length; map_entries n wide rsdt entry_size (i + 1) st
  end.
Definition map_rsdt (wide : bool) (st : state) (rsdt entry_size : Z) : outcome state :=
  let length := sdt_length st.(ram) rsdt in
  if length <? sizeof_sdt then Ret st
  else
    st ← map_single_table wide st rsdt own_length;
    map_entries (Z.to_nat ((length - sizeof_sdt) / entry_size)) wide rsdt entry_size 0 st.
(** A pointer of [n] bytes in the FADT. *)
Definition map_fadt_field (wide : bool) (st : state) (fadt off n : Z) : outcome state :=
  if sdt_length st.(ram) fadt >=? off + n then
    let p := num st.(ram) (fadt + off) (Z.to_nat n) in
    if negb (p =? 0) then map_single_table wide st p own_length else Ret st
  else Ret st.
Definition acpi_map_tables (wide : bool) (rsdp : option Z) (st : state) : outcome state :=
  match rsdp with
  | None => Ret st
  | Some rsdp =>
      let m := st.(ram) in
      let rsdp_length := if rsdp_rev m rsdp <? 2 then 20 else rsdp_len m rsdp in
      st ← map_single_table wide st rsdp rsdp_length;
      st ← (if negb ((rsdp_rev m rsdp >=? 2) && negb (xsdt_addr m rsdp =? 0)) then Ret st else map_rsdt wide st (uintptr wide (xsdt_addr m rsdp)) 8);
      st ← (if rsdt_addr m rsdp =? 0 then Ret st else map_rsdt wide st (uintptr wide (rsdt_addr m rsdp)) 4);
      match acpi_get_table wide m (Some rsdp) "FACP" 0 with
      | None => Ret st
      | Some fadt =>
          st ← map_fadt_field wide st fadt 132 8;
          st ← map_fadt_field wide st fadt 140 8;
          st ← map_fadt_field wide st fadt 36 4;
          map_fadt_field wide st fadt 40 4
      end
  end.

Definition smbios_map_tables (wide : bool) (smbios32_ptr smbios64_ptr : option Z) (st : state) : outcome state :=
  let m := st.(ram) in
  st ← match smbios32_ptr with
       | None => Ret st
       | Some p =>
           st ← map_single_table wide st p (length_32 m p);
           if negb (table_address_32 m p =? 0) then map_single_table wide st (table_address_32 m p) (table_length m p) else Ret st
       end;
  match smbios64_ptr with
  | None => Ret st
  | Some p =>
      st ← map_single_table wide st p (length_64 m p);
      if negb (table_address_64 m p =? 0) then map_single_table wide st (table_address_64 m p) (table_maximum_size m p) else Ret st
  end.

(** * The memory of the firmware's run-time services *)

Record efi_memory_descriptor := { Type_ : Z; PhysicalStart : Z; NumberOfPages : Z }.
(** [EFI_SYSTEM_TABLE]: its address and the pointers it holds; [0] is [NULL]. *)
Record efi_system_table := { gST : Z; RuntimeServices : Z; ConfigurationTable : Z; NumberOfTableEntries : Z; FirmwareVendor : Z }.

Section efi_map.
Context `{!EfiHeaders}.

Fixpoint map_descriptors (l : list efi_memory_descriptor) (st : state) : outcome state :=
  match l with
  | [] => Ret st
  | entry :: l =>
      if negb (entry.(Type_) =? EfiRuntimeServicesCode) && negb (entry.(Type_) =? EfiRuntimeServicesData) then map_descriptors l st
      else match CHECKED_MUL entry.(NumberOfPages) 4096 with
           | None => map_descriptors l st
           | Some length => '(_, st) ← memmap_alloc_range st entry.(PhysicalStart) length MEMMAP_RESERVED_MAPPED 0 true false true; map_descriptors l st
           end
  end.
(** The number of characters, of 16 bits. *)
Fixpoint vendor_length (fuel : nat) (m : mem) (p len : Z) : outcome Z :=
  match fuel with
  | O => Diverge
  | S fuel => if num m (p + 2 * len) 2 =? 0 then Ret len else vendor_length fuel m p (len + 1)
  end.
Definition efi_map_runtime_entries (fuel : nat) (wide : bool) (efi_mmap : list efi_memory_descriptor) (t : efi_system_table) (st : state) : outcome state :=
  st ← map_descriptors efi_mmap st;
  st ← map_single_table wide st t.(gST) sizeof_system_table;
  st ← (if negb (t.(RuntimeServices) =? 0) then map_single_table wide st t.(RuntimeServices) sizeof_runtime_services else Ret st);
  st ← (if negb (t.(ConfigurationTable) =? 0) && (t.(NumberOfTableEntries) >? 0) then
          match CHECKED_MUL t.(NumberOfTableEntries) sizeof_configuration_table with
          | None => Ret st
          | Some ct_size => if ct_size <=? 2 ^ 32 - 1 then map_single_table wide st t.(ConfigurationTable) ct_size else Ret st
          end
        else Ret st);
  if negb (t.(FirmwareVendor) =? 0) then
    len ← vendor_length fuel st.(ram) t.(FirmwareVendor) 0;
    map_single_table wide st t.(FirmwareVendor) (u32 ((len + 1) * 2))
  else Ret st.
End efi_map.
End Acpi.
