(* ===== verification/AcpiCorrect.v ===== *)
(** The firmware's tables: they are the ones the standards say, and the memory map has them mapped. *)

From S2P Require Import Prelude Pmm PmmMap PmmSanitise PmmAlloc PmmOps PmmCorrect Libc Guid PartCorrect Blake2bCorrect Acpi.
Import Libc Guid Pmm Acpi.

(** * What the standards say *)

(** The bytes at [p] are the text [s], and [n] bytes add up to 0. *)
Definition signed (m : mem) (p : Z) (s : string) : Prop := load_bytes m p (length (bytes s)) = bytes s.
Definition sums_to_0 (m : mem) (p n : Z) : Prop := foldr Z.add 0 (load_bytes m p (Z.to_nat n)) mod 256 = 0.
Definition rsdp_at (m : mem) (p : Z) : Prop := signed m p "RSD PTR " /\ sums_to_0 m p 20.
Definition table_at (m : mem) (s : string) (p : Z) : Prop := p <> 0 /\ signed m p s /\ sums_to_0 m p (sdt_length m p).
#[export] Instance rsdp_at_dec m p : Decision (rsdp_at m p).
Proof. unfold rsdp_at, signed, sums_to_0. apply _. Defined.
#[export] Instance table_at_dec m s p : Decision (table_at m s p).
Proof. unfold table_at, signed, sums_to_0. apply _. Defined.

(** The places of the root pointer: the first KiB of the extended BIOS data area, and the BIOS's
    memory from 0xe0000 on, at multiples of 16. *)
Fixpoint places (n : nat) (a : Z) : list Z := match n with O => [] | S n => a :: places n (a + 16) end.
Definition rsdp_places (m : mem) : list Z := places 64 (ebda_get m) ++ places (Z.to_nat 8192) 0xe0000.

(** * Signatures and sums *)

Lemma load_bytes_S m a n : load_bytes m a (S n) = load_bytes m a n ++ [m (a + Z.of_nat n)].
Proof. unfold load_bytes. by rewrite seqZ_S, fmap_app. Qed.
Lemma sum_app l k : foldr Z.add 0 (l ++ k) = foldr Z.add 0 l + foldr Z.add 0 k.
Proof. induction l as [| x l IH]; cbn [foldr app]; [done |]. rewrite IH. lia. Qed.
Lemma checksum_sum m p n : acpi_checksum m p n = foldr Z.add 0 (load_bytes m p (Z.to_nat n)) mod 256.
Proof.
  unfold acpi_checksum. induction (Z.to_nat n) as [| k IH]; [done |]. rewrite for_up_S, IH, load_bytes_S, sum_app. cbn [foldr]. unfold u8, wrap. change (2 ^ 8) with 256.
  rewrite Z.add_0_l, Z.add_0_r. by rewrite Zplus_mod_idemp_l.
Qed.
Lemma checksum_ok m p n : (acpi_checksum m p n =? 0) = true <-> sums_to_0 m p n.
Proof. by rewrite Z.eqb_eq, checksum_sum. Qed.
Lemma memcmp_signed m p s : (memcmp (str m p) (lit s) (zlen (bytes s)) =? 0) = true <-> signed m p s.
Proof.
  rewrite Z.eqb_eq. unfold memcmp, signed. rewrite memcmp_loop_zero, Z2Nat.id by apply zlen_nonneg. unfold str, lit. split.
  - intros H. apply load_bytes_at. intros k x Hk. rewrite (H (Z.of_nat k)), Nat2Z.id, Hk; [done |]. apply lookup_lt_Some in Hk. unfold zlen. lia.
  - intros H j Hj. rewrite <- H. unfold load_bytes. unfold zlen in Hj. rewrite list_lookup_fmap, (lookup_seqZ_lt p _ (Z.to_nat j)) by lia. cbn. f_equal. lia.
Qed.
Lemma rsdp_test m p : ((memcmp (str m p) (lit "RSD PTR ") 8 =? 0) && (acpi_checksum m p 20 =? 0)) = bool_decide (rsdp_at m p).
Proof.
  apply eq_true_iff_eq. rewrite andb_true_iff, bool_decide_eq_true, checksum_ok. change 8 with (zlen (bytes "RSD PTR ")). by rewrite memcmp_signed.
Qed.
Lemma table_test m s p : length (bytes s) = 4%nat -> p <> 0 -> ((memcmp (str m p) (lit s) 4 =? 0) && (acpi_checksum m p (sdt_length m p) =? 0)) = bool_decide (table_at m s p).
Proof.
  intros Hs Hp. apply eq_true_iff_eq. rewrite andb_true_iff, bool_decide_eq_true, checksum_ok. replace 4 with (zlen (bytes s)) by (unfold zlen; lia). rewrite memcmp_signed. unfold table_at. tauto.
Qed.

(** * The root pointer *)

Lemma ebda_range m : 0x80000 <= ebda_get m < 0xa0000.
Proof. unfold ebda_get. cbv zeta. case_if; lia. Qed.
Definition first (P : Z -> Prop) `{!forall x, Decision (P x)} (l : list Z) : option Z := snd <$> list_find P l.
Lemma first_cons P `{!forall x, Decision (P x)} x l : first P (x :: l) = if decide (P x) then Some x else first P l.
Proof. unfold first. cbn [list_find]. destruct (decide (P x)); [done |]. by destruct (list_find P l) as [[] |]. Qed.

Lemma rsdp_high m ebda n : forall i, ebda + 1024 < i -> i + 16 * Z.of_nat n = 0x100000 -> rsdp_loop (S n) m ebda i = Ret (first (rsdp_at m) (places n i)).
Proof.
  induction n as [| n IH]; intros i He Hi; cbn [rsdp_loop]; [rewrite (proj2 (Z.ltb_ge _ _)) by lia; done |]. rewrite (proj2 (Z.ltb_lt _ _)) by lia. rewrite (proj2 (Z.eqb_neq i (ebda + 1024))) by lia. cbv zeta. rewrite rsdp_test. cbn [places]. rewrite first_cons.
  rewrite bool_decide_decide. destruct (decide (rsdp_at m i)); [done |]. apply IH; lia.
Qed.
Lemma rsdp_low m h n : 16 * Z.of_nat h = 0x20000 -> forall i, i + 16 * Z.of_nat n = ebda_get m + 1024 -> rsdp_loop (n + S h) m (ebda_get m) i = Ret (first (rsdp_at m) (places n i ++ places h 0xe0000)).
Proof.
  intros Hh. pose proof (ebda_range m) as He. induction n as [| n IH]; intros i Hi; cbn [Nat.add rsdp_loop]; rewrite (proj2 (Z.ltb_lt _ _)) by lia.
  - rewrite (proj2 (Z.eqb_eq i (ebda_get m + 1024))) by lia. cbv zeta. rewrite rsdp_test. destruct h as [| h]; [lia |]. cbn [places app]. rewrite first_cons, bool_decide_decide. destruct (decide _); [done |]. apply rsdp_high; lia.
  - rewrite (proj2 (Z.eqb_neq i (ebda_get m + 1024))) by lia. cbv zeta. rewrite rsdp_test. cbn [places app]. rewrite first_cons, bool_decide_decide. destruct (decide _); [done |]. apply IH; lia.
Qed.
(** The search ends, and finds the first root pointer. *)
Theorem acpi_get_rsdp_bios_correct m : acpi_get_rsdp_bios m = Ret (first (rsdp_at m) (rsdp_places m)).
Proof. unfold acpi_get_rsdp_bios. replace (Z.to_nat 8257) with (64 + S (Z.to_nat 8192))%nat by lia. cbv zeta. by rewrite rsdp_low by lia. Qed.

(** * Tables by name *)

(** The XSDT, with addresses of 64 bits, when there is one that a pointer can hold, else the RSDT. *)
Definition root (wide : bool) (m : mem) (rsdp : Z) : Z * Z :=
  if decide (2 <= rsdp_rev m rsdp /\ xsdt_addr m rsdp <> 0 /\ (wide = true \/ xsdt_addr m rsdp < 2 ^ 32)) then (uintptr wide (xsdt_addr m rsdp), 8)
  else (uintptr wide (rsdt_addr m rsdp), 4).
Definition entries (wide : bool) (m : mem) (root : Z * Z) : list Z :=
  if decide (root.1 = 0 \/ sdt_length m root.1 < sizeof_sdt) then []
  else (fun i => uintptr wide (ptr_at m root.1 root.2 i)) <$> seqZ 0 ((sdt_length m root.1 - sizeof_sdt) / root.2).

Lemma table_loop_spec wide m rsdt es s index n : length (bytes s) = 4%nat -> forall i cnt, cnt <= index ->
  table_loop n wide m rsdt es s index i cnt = filter (table_at m s) ((fun i => uintptr wide (ptr_at m rsdt es i)) <$> seqZ i (Z.of_nat n)) !! Z.to_nat (index - cnt).
Proof.
  intros Hs. induction n as [| n IH]; intros i cnt Hc; [done |]. rewrite seqZ_cons by lia. replace (Z.pred (Z.of_nat (S n))) with (Z.of_nat n) by lia. cbn [table_loop]. cbv zeta. rewrite fmap_cons, filter_cons.
  change (Z.succ i) with (i + 1). set (p := uintptr wide (ptr_at m rsdt es i)). destruct (Z.eqb_spec p 0) as [Hp | Hp].
  - rewrite decide_False by (intros (H & _); done). by apply IH.
  - rewrite table_test by done. rewrite bool_decide_decide. destruct (decide (table_at m s p)); [| by apply IH]. destruct (Z.eqb_spec cnt index) as [-> |]; [by rewrite Z.sub_diag |].
    rewrite IH by lia. replace (Z.to_nat (index - cnt)) with (S (Z.to_nat (index - (cnt + 1)))) by lia. done.
Qed.
(** C22: [acpi_get_table] returns the table of number [index], from 0, among the entries of the XSDT
    (of the RSDT where there is no XSDT that a pointer can hold) that have the signature and whose
    bytes add up to 0, and nothing when there are fewer: entries that are [NULL], that have another
    name or are damaged are not counted. *)
Theorem acpi_get_table_correct wide m rsdp signature index : length (bytes signature) = 4%nat -> 0 <= index ->
  acpi_get_table wide m (Some rsdp) signature index = filter (table_at m signature) (entries wide m (root wide m rsdp)) !! Z.to_nat index.
Proof.
  intros Hs Hi. unfold acpi_get_table, entries, root. cbn [mbind option_bind]. cbv zeta. set (b := _ && _ && _).
  assert (b = bool_decide (2 <= rsdp_rev m rsdp /\ xsdt_addr m rsdp <> 0 /\ (wide = true \/ xsdt_addr m rsdp < 2 ^ 32))) as ->.
  { apply eq_true_iff_eq. unfold b. rewrite bool_decide_eq_true, !andb_true_iff, orb_true_iff, negb_true_iff, Z.eqb_neq, Z.leb_le. split; intros; destruct_and?; repeat split; lia || tauto || (destruct_or?; [by left | right; lia]). }
  rewrite bool_decide_decide. destruct (decide (2 <= _ /\ _)); cbn [fst snd]; (case_decide as H; [destruct H as [H | H]; [by rewrite (proj2 (Z.eqb_eq _ _) H) | rewrite (proj2 (Z.ltb_lt _ _) H); by case_if] |]; rewrite (proj2 (Z.eqb_neq _ _)), (proj2 (Z.ltb_ge _ _)) by lia; rewrite table_loop_spec, Z2Nat.id, Z.sub_0_r by (done || (apply Z.div_pos; lia)); done).
Qed.

(** * A machine *)

(** A firmware with a root pointer at 0xf0000 whose XSDT has an FADT, a [NULL] and two APIC tables,
    the second of them damaged by hand; the DSDT is at 0x200020, in memory that the BIOS left usable. *)
Definition sum_fixed (k : nat) (n : nat) (l : list Z) : list Z := <[k := (- foldr Z.add 0 (take n l)) mod 256]> l.
Definition sdt (signature : string) (body : list Z) : list Z :=
  sum_fixed 9 (36 + length body) (bytes signature ++ le_bytes 4 (36 + zlen body) ++ [1; 0] ++ replicate 26 0 ++ body).
Definition root_pointer : list Z := sum_fixed 8 20 (bytes "RSD PTR " ++ replicate 7 0 ++ [2] ++ le_bytes 4 0 ++ le_bytes 4 36 ++ le_bytes 8 0xfe0000 ++ replicate 4 0).
Definition fadt : list Z := sdt "FACP" (le_bytes 4 0 ++ le_bytes 4 0x200020 ++ replicate 60 0).
Definition firmware : mem :=
  mem_write (mem_write (mem_write (mem_write (mem_write (mem_write (fun _ => 0)
    0xf0000 root_pointer)
    0xfe0000 (sdt "XSDT" (le_bytes 8 0xfe1000 ++ le_bytes 8 0 ++ le_bytes 8 0xfe2000 ++ le_bytes 8 0xfe3000)))
    0xfe1000 fadt)
    0xfe2000 (sdt "APIC" [1; 2; 3]))
    0xfe3000 (<[9%nat := 0]> (sdt "APIC" [4; 5])))
    0x200020 (sdt "DSDT" [6]).

Lemma acpi_get_table_correct_witness :
  acpi_get_table false firmware (Some 0xf0000) "APIC" 0 = Some 0xfe2000 /\ acpi_get_table false firmware (Some 0xf0000) "APIC" 1 = None /\
  acpi_get_table false firmware (Some 0xf0000) "APIC" 0 = filter (table_at firmware "APIC") (entries false firmware (root false firmware 0xf0000)) !! 0%nat.
Proof.
  split; [vm_compute; reflexivity |]. split; [vm_compute; reflexivity |].
  apply (acpi_get_table_correct false firmware 0xf0000 "APIC" 0); [reflexivity | discriminate].
Defined.

(** * One table *)

(** A table is its address and the length the code is given, which may be [own_length]. *)
Definition table : Type := Z * Z.
Section tables.
Context (wide : bool) (m : mem).

Definition length_of (t : table) : Z := if t.2 =? own_length then num m (uintptr wide (t.1 + 4)) 4 else t.2.
Definition end_of (t : table) : Z := t.1 + length_of t.
Definition inside_table (t : table) (a : Z) : Prop := t.1 <= a < end_of t.
(** On the pages of the table. *)
Definition on_pages (t : table) (a : Z) : Prop := ALIGN_DOWN t.1 4096 <= a < align_up (end_of t) 4096.
(** A pointer can hold the address. *)
Definition reachable (t : table) : Prop := wide = true \/ t.1 < 2 ^ 32.
Definition in_memory (t : table) : Prop := 0 <= t.1 /\ 0 <= length_of t /\ end_of t + 4095 < 2 ^ 64.
(** What may become of an address of type [ty]: tables are mapped whatever is there, around them only
    usable and reserved memory. *)
Definition touched (l : list table) (ty a : Z) : Prop :=
  exists t, t ∈ l /\ (inside_table t a \/ (ty = MEMMAP_USABLE \/ ty = MEMMAP_RESERVED) /\ on_pages t a).
End tables.

Definition acpi_memory (m : list entry) (a : Z) : Prop := has m MEMMAP_ACPI_RECLAIMABLE a \/ has m MEMMAP_ACPI_NVS a.
(** The type is the only one of the address. *)
Definition only (m : list entry) (ty a : Z) : Prop := forall ty', has m ty' a <-> ty' = ty.

(** The memory map of [st'] is that of [st] with the tables mapped: where the first byte of a table is
    not in the firmware's memory for tables, every byte of it has become reserved and mapped; no address
    has got another type, and no other address has lost its own. *)
Record mapped_by (wide : bool) (l : list table) (st st' : state) : Prop := {
  mb_wf : wf udisj st -> wf udisj st';
  mb_ram : st'.(ram) = st.(ram);
  mb_max : st'.(max_entries) = st.(max_entries);
  mb_tables : forall t, t ∈ l -> reachable wide t -> acpi_memory st.(memmap) t.1 \/ forall a, inside_table wide st.(ram) t a -> only st'.(memmap) MEMMAP_RESERVED_MAPPED a;
  mb_new : forall ty a, has st'.(memmap) ty a -> ty = MEMMAP_RESERVED_MAPPED \/ has st.(memmap) ty a;
  mb_kept : forall ty a, has st.(memmap) ty a -> ~ touched wide st.(ram) l ty a -> has st'.(memmap) ty a;
  mb_only : forall a, only st.(memmap) MEMMAP_RESERVED_MAPPED a -> only st'.(memmap) MEMMAP_RESERVED_MAPPED a }.

Lemma mapped_nil wide st : mapped_by wide [] st st.
Proof. split; try done; [intros t Ht; by apply elem_of_nil in Ht | by right]. Qed.
Lemma mapped_app wide l1 l2 st st1 st2 : mapped_by wide l1 st st1 -> mapped_by wide l2 st1 st2 -> mapped_by wide (l1 ++ l2) st st2.
Proof.
  intros [W1 R1 M1 T1 N1 K1 O1] [W2 R2 M2 T2 N2 K2 O2]. rewrite R1 in *. split; try (congruence || eauto).
  - intros t Ht Hr. apply elem_of_app in Ht as [Ht | Ht]; [destruct (T1 t Ht Hr); eauto |]. destruct (T2 t Ht Hr) as [Ha | ]; [left | eauto]. destruct Ha as [Ha | Ha]; [left | right]; by destruct (N1 _ _ Ha).
  - intros ty a H. destruct (N2 _ _ H); eauto.
  - intros ty a H Hn. apply K2; [apply K1; [done |] |]; intros (t & Ht & Hc); apply Hn; exists t; (split; [apply elem_of_app; tauto | done]).
Qed.

(** * Padding *)

Lemma padding_loop_spec l base top ty a : Forall fits l -> padding_loop l base top = true -> base <= a < top -> has l ty a -> ty = MEMMAP_USABLE \/ ty = MEMMAP_RESERVED.
Proof.
  intros Hf. induction Hf as [| e l Fe Hf IH]; intros Hp Ha; [by rewrite has_nil |]. rewrite has_cons. cbn [padding_loop] in Hp. rewrite (CHECKED_ADD_fits e Fe) in Hp. destruct ((e_base e >=? top) || (_ <=? base)) eqn:E.
  - intros [[<- Hc] | Hh]; [| by apply IH]. unfold covers, e_top in Hc. unfold e_top in E. lia.
  - destruct (negb (e_type e =? MEMMAP_USABLE) && negb (e_type e =? MEMMAP_RESERVED)) eqn:E2; [done |]. intros [[<- Hc] | Hh]; [lia | by apply IH].
Qed.
Lemma padding_safe l base length ty a : Forall fits l -> base + length < 2 ^ 64 -> acpi_padding_is_safe l base length = true -> base <= a < base + length -> has l ty a -> ty = MEMMAP_USABLE \/ ty = MEMMAP_RESERVED.
Proof.
  intros Hf Ho. unfold acpi_padding_is_safe. destruct (Z.eqb_spec length 0); [lia |]. unfold CHECKED_ADD. rewrite (proj2 (Z.ltb_lt _ _)) by lia. by apply padding_loop_spec.
Qed.
Lemma check_type_has m a ty : Forall fits m -> ty <> UINT64_MAX -> check_type m a = ty -> has m ty a.
Proof.
  intros Hf Ht. induction Hf as [| e m Fe Hf IH]; [by intros <- |]. rewrite check_type_cons, has_cons by done. destruct ((e_base e <=? a) && (a <? e_top e)) eqn:E; [| auto]. intros <-. left. unfold covers. split; [done | lia].
Qed.

(** * One range *)

Lemma align_down_nonneg x : 0 <= x -> 0 <= ALIGN_DOWN x 4096.
Proof. intros Hx. unfold ALIGN_DOWN. apply Z.mul_nonneg_nonneg; [| lia]. apply Z.div_pos; lia. Qed.

(** The table of entries is full. *)
Definition full (st : state) (base top : Z) : Prop := st.(max_entries) <= zlen st.(memmap) + nsplit base top st.(memmap).

Lemma map_range st b t : wf udisj st -> 0 <= b <= t -> t < 2 ^ 64 ->
  match memmap_alloc_range st b (t - b) MEMMAP_RESERVED_MAPPED 0 true false true with
  | Ret (_, st') => wf udisj st' /\ st'.(ram) = st.(ram) /\ st'.(max_entries) = st.(max_entries) /\ retyped b t MEMMAP_RESERVED_MAPPED st.(memmap) st'.(memmap)
  | Panic => full st b t
  | Diverge => False
  end.
Proof.
  intros Hwf Hb Ht. unfold memmap_alloc_range. destruct (decide (b = t)) as [-> | Hne].
  - unfold memmap_alloc_range_in. rewrite Z.sub_diag. split; [exact Hwf |]. do 2 (split; [done |]). intros ty a. unfold in_range. split; [intros H; right; split; [exact H | lia] | intros [[_ H] | [H _]]; [lia | exact H]].
  - pose proof (memmap_alloc_range_in_correct (keep_first_page st) (max_entries st) (memmap st) b (t - b) MEMMAP_RESERVED_MAPPED 0 true true Hwf ltac:(lia) ltac:(lia) ltac:(left; discriminate)) as H. replace (b + (t - b)) with t in H by lia.
    destruct (memmap_alloc_range_in _ _ _ _ _ _ _ _ _ _) as [[[] m'] | |]; cbn [mbind outcome_bind]; [| naive_solver | | done].
    + destruct H as (_ & Hw & Hr). split; [exact Hw |]. by do 2 (split; [done |]).
    + destruct H as [(Hn & _) | (_ & H)]; [| done]. destruct Hn. split; [lia | by left].
Qed.

(** What a range becomes that holds a table, and around it only what may be taken. *)
Lemma mapped_range wide st st' t b e : wf udisj st' -> st'.(ram) = st.(ram) -> st'.(max_entries) = st.(max_entries) -> retyped b e MEMMAP_RESERVED_MAPPED st.(memmap) st'.(memmap) ->
  b <= t.1 -> end_of wide st.(ram) t <= e ->
  (forall ty a, b <= a < e -> has st.(memmap) ty a -> ~ inside_table wide st.(ram) t a -> (ty = MEMMAP_USABLE \/ ty = MEMMAP_RESERVED) /\ on_pages wide st.(ram) t a) ->
  mapped_by wide [t] st st'.
Proof.
  intros Hw Hr Hm Ht Hb He Hpad. split; try done.
  - intros t' Hin _. apply list_elem_of_singleton in Hin as ->. right. intros a Ha ty'. rewrite (Ht ty' a). unfold in_range. unfold inside_table in Ha. split; [intros [[-> _] | [_ H]]; [done | lia] | intros ->; left; split; [done | lia]].
  - intros ty a H. apply Ht in H as [[-> _] | [H _]]; [by left | by right].
  - intros ty a H Hn. apply Ht. destruct (decide (in_range b e a)) as [Hin | Hin]; [| by right]. exfalso. apply Hn. exists t. split; [by apply list_elem_of_singleton |].
    destruct (decide (inside_table wide st.(ram) t a)) as [| Hout]; [by left | right]. exact (Hpad ty a Hin H Hout).
  - intros a Ho ty'. rewrite (Ht ty' a). split; [intros [[-> _] | [H _]]; [done | by apply Ho] | intros ->]. destruct (decide (in_range b e a)); [by left | right; split; [by apply Ho | done]].
Qed.

Lemma unmapped wide st t : ~ reachable wide t \/ acpi_memory st.(memmap) t.1 -> mapped_by wide [t] st st.
Proof. intros H. split; try done; [| by right]. intros t' Hin Hr. apply list_elem_of_singleton in Hin as ->. destruct H; [done | by left]. Qed.

Lemma map_single_table_spec wide st t : wf udisj st -> in_memory wide st.(ram) t ->
  match map_single_table wide st t.1 t.2 with
  | Ret st' => mapped_by wide [t] st st'
  | Panic => exists b e, ALIGN_DOWN t.1 4096 <= b <= e /\ e <= align_up (end_of wide st.(ram) t) 4096 /\ full st b e
  | Diverge => False
  end.
Proof.
  intros Hwf (H0 & Hl & He). unfold map_single_table. destruct (negb wide && (t.1 >=? 0x100000000)) eqn:Er; [apply unmapped; left; unfold reachable; destruct wide; [done |]; intros [? | ?]; [done | cbn in Er; lia] |].
  assert ((if negb (t.2 =? own_length) then t.2 else num (ram st) (uintptr wide (t.1 + 4)) 4) = length_of wide (ram st) t) as -> by (unfold length_of; by destruct (t.2 =? own_length)).
  cbv zeta. unfold end_of in *. set (len := length_of wide (ram st) t) in *. rewrite u64_small by lia. set (top := t.1 + len) in *.
  pose proof (ALIGN_UP_spec top 4096 ltac:(lia) ltac:(lia)) as Hup. destruct (ALIGN_UP top 4096) as [up |]; cbn [or_panic mbind outcome_bind]; [| lia]. destruct Hup as [-> _].
  pose proof (ALIGN_DOWN_spec t.1 4096 ltac:(lia)) as [Hd _]. pose proof (ALIGN_DOWN_spec (top + (4096 - 1)) 4096 ltac:(lia)) as [Hu _]. change (ALIGN_DOWN (top + (4096 - 1)) 4096) with (align_up top 4096) in Hu. pose proof (align_down_nonneg t.1 H0) as Hd0.
  rewrite (u64_small (align_up top 4096 - top)) by lia. set (down := ALIGN_DOWN t.1 4096) in *. set (up := align_up top 4096) in *.
  destruct (negb (pmm_check_type st t.1 =? _) && negb (pmm_check_type st t.1 =? _)) eqn:Et.
  2: { apply unmapped. right. unfold acpi_memory, pmm_check_type in *. destruct (Z.eqb_spec (check_type (memmap st) t.1) MEMMAP_ACPI_RECLAIMABLE) as [E | _]; [left | right]; apply check_type_has; try (apply Hwf); try done. cbn in Et. lia. }
  set (b := if negb (acpi_padding_is_safe _ down _) then t.1 else down). set (e := if negb (acpi_padding_is_safe _ top _) then top else up).
  assert (down <= b <= t.1) as Hb by (unfold b; case_if; lia). assert (top <= e <= up) as He' by (unfold e; case_if; lia). rewrite u64_small by lia.
  pose proof (map_range st b e Hwf ltac:(lia) ltac:(lia)) as H. destruct (memmap_alloc_range _ _ _ _ _ _ _ _) as [[x st'] | |]; cbn [mbind outcome_bind]; [| exists b, e; repeat split; done || lia | done].
  destruct H as (Hw & Hr & Hm & Ht). apply (mapped_range wide st st' t b e); try done; [lia | unfold end_of; fold len top; lia |]. intros ty a Ha Hh Hn. unfold inside_table, on_pages, end_of in *. fold len top down up in Hn |- *. split; [| lia].
  destruct (decide (a < t.1)) as [Hlow | Hlow].
  - unfold b in *. destruct (acpi_padding_is_safe (memmap st) down (t.1 - down)) eqn:Es; cbn [negb] in *; [| lia]. apply (padding_safe (memmap st) down (t.1 - down) ty a); try done; try lia. apply Hwf.
  - unfold e in *. destruct (acpi_padding_is_safe (memmap st) top (up - top)) eqn:Es; cbn [negb] in *; [| lia]. apply (padding_safe (memmap st) top (up - top) ty a); try done; try lia. apply Hwf.
Qed.

(** * Many tables *)

Fixpoint map_all (wide : bool) (l : list table) (st : state) : outcome state :=
  match l with [] => Ret st | t :: l => st ← map_single_table wide st t.1 t.2; map_all wide l st end.

Lemma map_all_app wide l1 l2 st : map_all wide (l1 ++ l2) st = (st ← map_all wide l1 st; map_all wide l2 st).
Proof. revert st. induction l1 as [| t l1 IH]; intros st; cbn [app map_all]; [done |]. by destruct (map_single_table wide st t.1 t.2); cbn [mbind outcome_bind]. Qed.

Lemma map_single_ram wide st addr len st' : map_single_table wide st addr len = Ret st' -> st'.(ram) = st.(ram).
Proof.
  unfold map_single_table. case_if; [congruence |]. cbv zeta. destruct (ALIGN_UP _ _); cbn [or_panic mbind outcome_bind]; [| done]. case_if; [| congruence]. unfold memmap_alloc_range. destruct (memmap_alloc_range_in _ _ _ _ _ _ _ _ _ _) as [[] | |]; cbn [mbind outcome_bind]; [| done..]. by intros [= <-].
Qed.
Lemma map_all_ram wide l st st' : map_all wide l st = Ret st' -> st'.(ram) = st.(ram).
Proof.
  revert st. induction l as [| t l IH]; intros st; cbn [map_all]; [congruence |]. destruct (map_single_table wide st t.1 t.2) eqn:E; cbn [mbind outcome_bind]; [| done..]. intros H. rewrite (IH _ H). by apply map_single_ram in E.
Qed.

(** The tables before [t] are entered and there is no room for it. *)
Definition stuck (wide : bool) (l : list table) (st : state) : Prop :=
  exists l1 t l2 st1 b e, l = l1 ++ t :: l2 /\ mapped_by wide l1 st st1 /\ ALIGN_DOWN t.1 4096 <= b <= e /\ e <= align_up (end_of wide st.(ram) t) 4096 /\ full st1 b e.
(** What a call promises that enters the tables [l]. *)
Definition enters (wide : bool) (l : list table) (st : state) (o : outcome state) : Prop :=
  match o with Ret st' => mapped_by wide l st st' | Panic => stuck wide l st | Diverge => False end.

Lemma stuck_app wide l1 l2 st : stuck wide l1 st -> stuck wide (l1 ++ l2) st.
Proof. intros (l & t & l' & st1 & b & e & -> & H). exists l, t, (l' ++ l2), st1, b, e. split; [by rewrite <- app_assoc | done]. Qed.
Lemma enters_bind wide l1 l2 st o f : enters wide l1 st o -> (forall st1, mapped_by wide l1 st st1 -> enters wide l2 st1 (f st1)) -> enters wide (l1 ++ l2) st (o ≫= f).
Proof.
  destruct o as [st1 | |]; cbn [mbind outcome_bind enters]; [| | done].
  - intros H1 H2. specialize (H2 st1 H1). destruct (f st1) as [st2 | |]; cbn [enters] in *; [by apply (mapped_app wide l1 l2 st st1) | | done]. destruct H2 as (l & t & l' & st2 & b & e & -> & H2 & Hb & He & Hf).
    rewrite (mb_ram _ _ _ _ H1) in *. exists (l1 ++ l), t, l', st2, b, e. split; [by rewrite <- app_assoc |]. split; [by apply (mapped_app wide l1 l st st1) | done].
  - intros H _. by apply stuck_app.
Qed.
Lemma enters_bind_pair {A} wide l1 l2 st (o : outcome (A * state)) f : enters wide l1 st (o ≫= fun r => Ret r.2) -> (forall x st1, mapped_by wide l1 st st1 -> enters wide l2 st1 (f x st1)) -> enters wide (l1 ++ l2) st ('(x, st) ← o; f x st).
Proof.
  intros H Hf. destruct o as [[x st1] | |]; cbn [mbind outcome_bind] in *; [exact (enters_bind wide l1 l2 st (Ret st1) (f x) H (Hf x)) | by apply stuck_app | done].
Qed.
Lemma enters_one wide st t : wf udisj st -> in_memory wide st.(ram) t -> enters wide [t] st (map_single_table wide st t.1 t.2).
Proof.
  intros Hwf Ht. pose proof (map_single_table_spec wide st t Hwf Ht) as H. unfold enters. destruct (map_single_table wide st t.1 t.2); [done | | done]. destruct H as (b & e & Hb & He & Hf). exists [], t, [], st, b, e. split; [done |]. split; [apply mapped_nil | done].
Qed.
Lemma enters_all wide l st : wf udisj st -> Forall (in_memory wide st.(ram)) l -> enters wide l st (map_all wide l st).
Proof.
  intros Hwf Hl. remember st.(ram) as m eqn:Em. revert st Em Hwf. induction Hl as [| t l Ht Hl IH]; intros st -> Hwf; cbn [map_all]; [apply mapped_nil |].
  apply (enters_bind wide [t] l); [by apply enters_one |]. intros st1 H. apply IH; [by rewrite (mb_ram _ _ _ _ H) | by apply (mb_wf _ _ _ _ H)].
Qed.

(** * The lists of tables *)

Section lists.
Context (wide : bool) (m : mem).

Definition rsdt_tables (rsdt entry_size : Z) : list table :=
  if sdt_length m rsdt <? sizeof_sdt then []
  else (rsdt, own_length) :: ((fun i => (uintptr wide (ptr_at m rsdt entry_size i), own_length)) <$> filter (fun i => ptr_at m rsdt entry_size i <> 0) (seqZ 0 ((sdt_length m rsdt - sizeof_sdt) / entry_size))).
Definition fadt_table (fadt off n : Z) : list table :=
  let p := num m (fadt + off) (Z.to_nat n) in if decide (off + n <= sdt_length m fadt /\ p <> 0) then [(p, own_length)] else [].
(** FACS and DSDT, by their addresses of 64 and of 32 bits. *)
Definition fadt_tables (rsdp : Z) : list table :=
  match acpi_get_table wide m (Some rsdp) "FACP" 0 with
  | None => []
  | Some fadt => fadt_table fadt 132 8 ++ fadt_table fadt 140 8 ++ fadt_table fadt 36 4 ++ fadt_table fadt 40 4
  end.
Definition acpi_tables (rsdp : Z) : list table :=
  [(rsdp, if rsdp_rev m rsdp <? 2 then 20 else rsdp_len m rsdp)]
  ++ (if decide (2 <= rsdp_rev m rsdp /\ xsdt_addr m rsdp <> 0) then rsdt_tables (uintptr wide (xsdt_addr m rsdp)) 8 else [])
  ++ (if decide (rsdt_addr m rsdp <> 0) then rsdt_tables (uintptr wide (rsdt_addr m rsdp)) 4 else [])
  ++ fadt_tables rsdp.
Definition smbios_tables (smbios32 smbios64 : option Z) : list table :=
  match smbios32 with Some p => (p, length_32 m p) :: (if decide (table_address_32 m p <> 0) then [(table_address_32 m p, table_length m p)] else []) | None => [] end
  ++ match smbios64 with Some p => (p, length_64 m p) :: (if decide (table_address_64 m p <> 0) then [(table_address_64 m p, table_maximum_size m p)] else []) | None => [] end.
End lists.

(** A step of the code that maps a list of tables. *)
Definition maps (wide : bool) (m : mem) (f : state -> outcome state) (l : list table) : Prop := forall st, st.(ram) = m -> f st = map_all wide l st.

Lemma maps_seq wide m f g l1 l2 : maps wide m f l1 -> maps wide m g l2 -> maps wide m (fun st => st ← f st; g st) (l1 ++ l2).
Proof.
  intros Hf Hg st Hst. rewrite map_all_app, (Hf st Hst). destruct (map_all wide l1 st) as [st1 | |] eqn:E; cbn [mbind outcome_bind]; [| done..]. apply Hg. apply map_all_ram in E. congruence.
Qed.
Lemma maps_none wide m : maps wide m Ret [].
Proof. done. Qed.
Lemma maps_one wide m addr len : maps wide m (fun st => map_single_table wide st addr len) [(addr, len)].
Proof. intros st _. cbn. by destruct (map_single_table _ _ _ _). Qed.
Lemma maps_entries wide m rsdt es n : forall i, maps wide m (map_entries n wide rsdt es i) ((fun i => (uintptr wide (ptr_at m rsdt es i), own_length)) <$> filter (fun i => ptr_at m rsdt es i <> 0) (seqZ i (Z.of_nat n))).
Proof.
  induction n as [| n IH]; intros i; [exact (maps_none wide m) |]. rewrite seqZ_cons by lia. replace (Z.pred (Z.of_nat (S n))) with (Z.of_nat n) by lia. change (Z.succ i) with (i + 1). rewrite filter_cons. intros st Hst. cbn [map_entries]. cbv zeta. rewrite Hst. case_decide as E.
  - rewrite (proj2 (Z.eqb_neq _ _) E). exact (maps_seq wide m _ _ _ _ (maps_one wide m _ own_length) (IH (i + 1)) st Hst).
  - rewrite (proj2 (Z.eqb_eq _ _)) by (destruct (decide (ptr_at m rsdt es i = 0)); [done | by destruct E]). by apply IH.
Qed.
Lemma maps_rsdt wide m rsdt es : 0 < es -> maps wide m (fun st => map_rsdt wide st rsdt es) (rsdt_tables wide m rsdt es).
Proof.
  intros Hes st Hst. unfold map_rsdt, rsdt_tables. rewrite Hst. cbv zeta. destruct (Z.ltb_spec (sdt_length m rsdt) sizeof_sdt); [done |]. set (k := (sdt_length m rsdt - sizeof_sdt) / es). assert (0 <= k) as Hk by (apply Z.div_pos; lia).
  pose proof (maps_seq wide m _ _ _ _ (maps_one wide m rsdt own_length) (maps_entries wide m rsdt es (Z.to_nat k) 0) st Hst) as E. rewrite Z2Nat.id in E by done. exact E.
Qed.
Lemma maps_field wide m fadt off n : maps wide m (fun st => map_fadt_field wide st fadt off n) (fadt_table m fadt off n).
Proof.
  intros st Hst. unfold map_fadt_field, fadt_table. rewrite Hst. cbv zeta. set (p := num m (fadt + off) (Z.to_nat n)). case_decide as E.
  - rewrite Z.geb_leb, (proj2 (Z.leb_le _ _)), (proj2 (Z.eqb_neq p 0)) by lia. exact (maps_one wide m p own_length st Hst).
  - rewrite Z.geb_leb. destruct (Z.leb_spec (off + n) (sdt_length m fadt)); [| done]. destruct (Z.eqb_spec p 0); [done | by destruct E].
Qed.
Lemma acpi_map_list wide rsdp st : acpi_map_tables wide (Some rsdp) st = map_all wide (acpi_tables wide st.(ram) rsdp) st.
Proof.
  unfold acpi_map_tables, acpi_tables. cbv zeta. set (m := st.(ram)). refine (maps_seq wide m _ _ _ _ (maps_one wide m _ _) _ st eq_refl).
  refine (maps_seq wide m _ _ _ _ _ _); [| refine (maps_seq wide m _ _ _ _ _ _)].
  - intros st1 H1. case_decide as E; [rewrite Z.geb_leb, (proj2 (Z.leb_le _ _)), (proj2 (Z.eqb_neq (xsdt_addr m rsdp) 0)) by lia; by apply maps_rsdt |].
    rewrite Z.geb_leb. destruct (Z.leb_spec 2 (rsdp_rev m rsdp)); [| done]. destruct (Z.eqb_spec (xsdt_addr m rsdp) 0); [done | by destruct E].
  - intros st1 H1. case_decide as E; [rewrite (proj2 (Z.eqb_neq _ _) E); by apply maps_rsdt |]. destruct (Z.eqb_spec (rsdt_addr m rsdp) 0); [done | by destruct E].
  - unfold fadt_tables. destruct (acpi_get_table wide m (Some rsdp) "FACP" 0) as [fadt |]; [| apply maps_none]. repeat (refine (maps_seq wide m _ _ _ _ (maps_field _ _ _ _ _) _)). apply maps_field.
Qed.
(** An entry point and the table it points to. *)
Definition map_smbios (wide : bool) (p : option Z) (length : Z -> Z) (address : Z -> Z) (size : Z -> Z) (st : state) : outcome state :=
  match p with
  | None => Ret st
  | Some p => st ← map_single_table wide st p (length p); if negb (address p =? 0) then map_single_table wide st (address p) (size p) else Ret st
  end.
Lemma maps_smbios wide m p length address size :
  maps wide m (map_smbios wide p length address size) match p with Some p => (p, length p) :: (if decide (address p <> 0) then [(address p, size p)] else []) | None => [] end.
Proof.
  destruct p as [p |]; [| apply maps_none]. refine (maps_seq wide m _ (fun st => if negb (address p =? 0) then map_single_table wide st (address p) (size p) else Ret st) [_] _ (maps_one wide m _ _) _). intros st Hst.
  case_decide as E; [rewrite (proj2 (Z.eqb_neq _ _) E); by apply (maps_one wide m) |]. destruct (Z.eqb_spec (address p) 0); [done | by destruct E].
Qed.
Lemma smbios_map_list wide p32 p64 st : smbios_map_tables wide p32 p64 st = map_all wide (smbios_tables st.(ram) p32 p64) st.
Proof.
  exact (maps_seq wide st.(ram) _ _ _ _ (maps_smbios wide _ p32 (length_32 (ram st)) (table_address_32 (ram st)) (table_length (ram st))) (maps_smbios wide _ p64 (length_64 (ram st)) (table_address_64 (ram st)) (table_maximum_size (ram st))) st eq_refl).
Qed.

(** * The firmware's run-time services *)

Lemma enters_range wide st t : wf udisj st -> in_memory wide st.(ram) t -> t.2 = length_of wide st.(ram) t ->
  enters wide [t] st (memmap_alloc_range st t.1 t.2 MEMMAP_RESERVED_MAPPED 0 true false true ≫= fun r => Ret r.2).
Proof.
  intros Hwf (H0 & Hl & He) ->. replace (length_of wide (ram st) t) with (end_of wide (ram st) t - t.1) by (unfold end_of; lia). pose proof (map_range st t.1 (end_of wide (ram st) t) Hwf ltac:(unfold end_of; lia) ltac:(lia)) as HR.
  destruct (memmap_alloc_range _ _ _ _ _ _ _ _) as [[x st'] | |]; cbn [mbind outcome_bind]; [| | done].
  - destruct HR as (Hw & Hr & Hm & Ht). apply (mapped_range wide st st' t t.1 (end_of wide (ram st) t)); try done; lia.
  - exists [], t, [], st, t.1, (end_of wide (ram st) t). split; [done |]. split; [apply mapped_nil |]. pose proof (ALIGN_DOWN_spec t.1 4096 ltac:(lia)). pose proof (ALIGN_DOWN_spec (end_of wide (ram st) t + (4096 - 1)) 4096 ltac:(lia)). unfold align_up. unfold end_of in *. repeat split; done || lia.
Qed.

Section efi.
Context `{!EfiHeaders}.

Definition runtime (d : efi_memory_descriptor) : Prop := (d.(Type_) = EfiRuntimeServicesCode \/ d.(Type_) = EfiRuntimeServicesData) /\ d.(NumberOfPages) * 4096 < 2 ^ 64.
#[export] Instance runtime_dec d : Decision (runtime d).
Proof. unfold runtime. apply _. Defined.
Definition pages_of (d : efi_memory_descriptor) : table := (d.(PhysicalStart), d.(NumberOfPages) * 4096).
Definition efi_tables (efi_mmap : list efi_memory_descriptor) (t : efi_system_table) (vendor_len : Z) : list table :=
  (pages_of <$> filter runtime efi_mmap) ++ [(t.(gST), sizeof_system_table)]
  ++ (if decide (t.(RuntimeServices) <> 0) then [(t.(RuntimeServices), sizeof_runtime_services)] else [])
  ++ (if decide (t.(ConfigurationTable) <> 0 /\ 0 < t.(NumberOfTableEntries) /\ t.(NumberOfTableEntries) * sizeof_configuration_table < 2 ^ 32) then [(t.(ConfigurationTable), t.(NumberOfTableEntries) * sizeof_configuration_table)] else [])
  ++ (if decide (t.(FirmwareVendor) <> 0) then [(t.(FirmwareVendor), u32 ((vendor_len + 1) * 2))] else []).

Lemma pages_length wide m d : length_of wide m (pages_of d) = d.(NumberOfPages) * 4096.
Proof. unfold length_of, pages_of. cbn [snd]. rewrite (proj2 (Z.eqb_neq _ own_length)); [done |]. unfold own_length. lia. Qed.
Lemma enters_descriptors wide l st : wf udisj st -> Forall (in_memory wide st.(ram)) (pages_of <$> filter runtime l) -> enters wide (pages_of <$> filter runtime l) st (map_descriptors l st).
Proof.
  revert st. induction l as [| d l IH]; intros st Hwf Hl; [apply mapped_nil |]. rewrite filter_cons in *. cbn [map_descriptors]. case_decide as E.
  - destruct E as [Ht Ho]. rewrite fmap_cons in *. apply Forall_cons in Hl as [Hd Hl]. assert (negb (Type_ d =? EfiRuntimeServicesCode) && negb (Type_ d =? EfiRuntimeServicesData) = false) as -> by lia.
    unfold CHECKED_MUL. rewrite (proj2 (Z.ltb_lt _ _)) by done. apply (enters_bind_pair wide [pages_of d]).
    + apply (enters_range wide st (pages_of d)); [done | done | by rewrite pages_length].
    + intros x st1 H1. apply IH; [by apply (mb_wf _ _ _ _ H1) | by rewrite (mb_ram _ _ _ _ H1)].
  - destruct (negb (Type_ d =? EfiRuntimeServicesCode) && negb (Type_ d =? EfiRuntimeServicesData)) eqn:Et; [by apply IH |]. unfold CHECKED_MUL. rewrite (proj2 (Z.ltb_ge _ _)); [by apply IH |]. unfold runtime in E. destruct (Z.ltb_spec (NumberOfPages d * 4096) (2 ^ 64)); [| done]. destruct E. split; [lia | done].
Qed.
Lemma vendor_length_spec m p n : forall k fuel, 0 <= k <= n -> (forall i, 0 <= i < n -> num m (p + 2 * i) 2 <> 0) -> num m (p + 2 * n) 2 = 0 -> (Z.to_nat (n - k) < fuel)%nat -> vendor_length fuel m p k = Ret n.
Proof.
  intros k fuel. revert k. induction fuel as [| fuel IH]; intros k Hk Hne Hz Hf; [lia |]. cbn [vendor_length]. destruct (decide (k = n)) as [-> |]; [by rewrite (proj2 (Z.eqb_eq _ _) Hz) |]. rewrite (proj2 (Z.eqb_neq _ _)) by (apply Hne; lia). apply IH; done || lia.
Qed.
(** [efi_map_runtime_entries]: the memory of the run-time services and the firmware's own tables and
    texts are entered, given that the name of the vendor, of [n] characters, ends. *)
Theorem efi_map_correct fuel wide l t n st : let tables := efi_tables l t n in
  wf udisj st -> Forall (in_memory wide st.(ram)) tables -> 0 <= n -> (Z.to_nat n < fuel)%nat -> (forall i, 0 <= i < n -> num st.(ram) (t.(FirmwareVendor) + 2 * i) 2 <> 0) -> num st.(ram) (t.(FirmwareVendor) + 2 * n) 2 = 0 ->
  enters wide tables st (efi_map_runtime_entries fuel wide l t st).
Proof.
  cbv zeta. intros Hwf Hl Hn Hfuel Hne Hz. unfold efi_tables in *. apply Forall_app in Hl as [Hd Hl]. unfold efi_map_runtime_entries. apply enters_bind; [by apply enters_descriptors |]. intros st1 H1. pose proof (mb_wf _ _ _ _ H1 Hwf) as Hw1. rewrite <- (mb_ram _ _ _ _ H1) in *. clear H1 Hwf.
  set (tl := [_] ++ _) in *. set (m := ram st1) in *. match goal with |- enters _ _ _ ?o => assert (o = map_all wide tl st1) as ->; [| by apply enters_all] end. unfold tl.
  refine (maps_seq wide m _ _ _ _ (maps_one wide m _ _) _ st1 eq_refl). refine (maps_seq wide m _ _ _ _ _ (maps_seq wide m _ _ _ _ _ _)).
  - intros st2 H2. case_decide as E; [rewrite (proj2 (Z.eqb_neq _ _) E); by apply (maps_one wide m) |]. destruct (Z.eqb_spec (RuntimeServices t) 0); [done | by destruct E].
  - intros st2 H2. unfold CHECKED_MUL. case_decide as E.
    + destruct E as (E1 & E2 & E3). rewrite (proj2 (Z.eqb_neq _ _) E1), Z.gtb_ltb, (proj2 (Z.ltb_lt 0 _) E2). cbn [negb andb]. rewrite (proj2 (Z.ltb_lt _ (2 ^ 64))), (proj2 (Z.leb_le _ _)) by lia. by apply (maps_one wide m).
    + destruct (negb _ && _) eqn:E1; [| done]. destruct (Z.ltb_spec (NumberOfTableEntries t * sizeof_configuration_table) (2 ^ 64)); [| done]. destruct (Z.leb_spec (NumberOfTableEntries t * sizeof_configuration_table) (2 ^ 32 - 1)); [| done]. destruct E. lia.
  - intros st2 H2. case_decide as E.
    + rewrite (proj2 (Z.eqb_neq _ _) E). cbn [negb]. rewrite H2, (vendor_length_spec m _ n 0 fuel) by (done || lia). by apply (maps_one wide m).
    + destruct (Z.eqb_spec (FirmwareVendor t) 0); [done | by destruct E].
Qed.
End efi.

(** The machine of the examples: the DSDT, of 37 bytes, is in usable memory, and with it its page
    becomes mapped; the root pointer is in reserved memory; the other tables stay where they are. *)
Definition machine : state := set_ram PmmCorrect.pc firmware.
Definition map_after : list entry :=
  match (st ← acpi_map_tables false (Some 0xf0000) machine; smbios_map_tables false None None st) with Ret st' => st'.(memmap) | _ => [] end.

(** On a processor of 32 bits an entry of the XSDT above 4 GiB is not left out, as the warning in
    [map_single_table] says: the entry is converted to a pointer first, and the memory at its lower half
    is mapped. *)
Definition high_firmware : mem := mem_write firmware 0xfe0000 (sdt "XSDT" (le_bytes 8 0x100300000)).
Lemma xsdt_entry_truncated : acpi_tables false high_firmware 0xf0000 = [(0xf0000, 36); (0xfe0000, own_length); (0x300000, own_length)].
Proof. vm_compute. reflexivity. Qed.
